(* ===== verification/_CoqProject ===== *)
-Q . S2P
Prelude.v
Sha256.v
GoStd.v
Syntax.v
Unicode.v
Json.v
Time.v
Mailbox.v
Repository.v
Memory.v
State.v
Source.v
Migrate.v
Canonical.v
Causal.v
Revision.v
FolderRevision.v
Reduced.v
Decode.v
Ipld.v
Car.v
Url.v
SpacesWire.v
Http.v
Client.v
Inventory.v
Base64.v
Snapshot.v
SourceRead.v
Sample.v
Recovery.v
Reduction.v
Recovered.v
Content.v
Verified.v
Append.v
Engine.v
Handler.v
Extended.v
Authority.v
Serving.v
Projection.v
Identities.v
Projected.v
SpaceScope.v
OfficialProjection.v
OfficialGraph.v
OfficialRebuild.v
OfficialRecovery.v
SecureFile.v
Certificate.v
Certified.v
Broker.v
Sessions.v
ExactDriver.v
Vault.v
Vaulted.v
ShadowAgent.v
Captured.v
