(* ===== verification/Prelude.v ===== *)
(** * Comail Space Host: a verification library

    The program under src/ keeps mailboxes as records of AT Protocol repositories.  A legacy
    mailbox is imported and migrated into a repository; messages and folders evolve as
    append-only streams of immutable, content-addressed revisions; and a mailbox is recovered
    from the signed export of a repository alone.  This library models that core as executable
    Rocq functions, read off the Go code, and proves what makes it correct.

    ** Parts and files

    Foundations, shared by every component.
    - Prelude: errors and [errors.Is], results, loops with early returns, slices, byte strings
      and their order, the tactics [result_steps] and [bools], hint databases, sorting.
    - Sha256: crypto/sha256 and encoding/hex.  Identifiers are hashes, so theorems about them
      conclude "equal, or these two inputs are a [collision]"; nothing is assumed of SHA-256.
    - GoStd, Unicode, Json, Time, Url: the standard library as far as the code uses it: UTF-8,
      varints, contexts, simple case folding, encoding/json with its printer, parser and struct
      decoding, RFC 3339 times, net/url.
    - Syntax, Ipld: the packages that are not in the repository, as classes of operations
      ([Syntax], [Ipld]) with their documented laws ([SyntaxLaws], [IpldLaws]) and concrete
      instances that the witnesses compute with.  [CaseOrbits] (Unicode's folding tables),
      [Blake3], [RepoKeys] (resolution of signing keys and signatures) and [Database] (the rows
      of the legacy snapshot) are parameters of the same kind.

    The mailbox and its repositories.
    - Mailbox (internal/mailbox/model.go): records, fingerprints, [NewMessagePair],
      [ValidateStoredMessage], the JSON of every record.
    - Repository (internal/repository/repository.go): [Target], record addresses, and the Go
      interface as the class [Repository] of state-passing calls, with [RepositoryLaws].
    - Memory (internal/memory/repository.go): the reference implementation; one step per
      method, since a mutex makes them atomic.  Its instance discharges the laws.
    - State (internal/mailboxstate/state.go): [Apply] and [Replace], compare-and-swap updates
      proved against any [Repository] from its laws.
    - Source (internal/sqliteimport/importer.go) and Migrate (internal/migrate): the legacy
      mailbox as a stream of messages, and [Run] and [Verify] against any repository.

    The append-only streams.
    - Canonical, Decode (internal/mailboxstate/revision.go, folder_revision.go): canonical bytes,
      record keys, operation claims, and the strict JSON decoders.
    - Causal: the passes the two reducers share, over the class [CausalEvent].
    - Revision ([Reduce]) and FolderRevision ([ReduceFolder], [ValidateFolderSet]).
    - Reduced: the histories the two reducers accept and the states they mean, without a pass.

    The official Spaces provider (internal/providers/officialspaces).
    - Car, Snapshot, SpacesWire (snapshot.go, client.go): the CAR reader, the structure check of
      CBOR, the signed commit, the index with its set hash, the verification of a whole export
      ([verifyFullSourceCAR]) and the sealed capability it yields.
    - Http: what the client uses of net/http and of its credential source, as the class
      [Transport] of state-passing calls with [TransportLaws]; handles that are opened are
      accounted for ([balanced]).  A scripted provider ([script]) runs the model.
    - Client (client.go): every operation of the client; Inventory: what its batches and listings
      promise, and that no call leaves a handle open.
    - SourceRead (snapshot.go, blob_stream.go), Base64: the stable read of a repository between
      two reads of its commit, and the bounded stream of its blobs between two more; what a
      successful read saw is an ordered trace of worlds ([stable_read], [read_at_source]).  Sample: a repository, its
      export and its provider's answers as data.

    Recovery (internal/mailboxstate/officialspaces_recovery.go, officialspaces_content.go).
    - Recovery: decoding and validating the records of a capability.
    - Reduction: the reduction of all records ([reduceOfficialSpacesInventory],
      [ReduceOfficialSpacesSource]); Recovered: its specification and proofs.
    - Content: the read of a whole mailbox with its bytes ([ReadOfficialSpacesRecoverySource]) and
      the object that hands them out; Verified: its contract, with visits and closing as a step
      relation ([content_step]).

    The authority service (internal/authorityv3), what a mail relay talks to.
    - Engine (contract.go, official_engine.go): every operation over a record of provider calls;
      Extended, Append: a repository and a history extended by one revision; Authority: what an
      append does to the repository that is read back.
    - Handler (handler.go): authentication, strict decoding, every check, the bounded encoding of
      a snapshot; Serving: what it serves.

    Projections (internal/projection), the databases that can be rebuilt at any time.
    - Projection (projection.go): [Rebuild] over a file system and a database with the constraints
      of the schema; Identities: the allocation of UIDs; Projected: what the database holds.
    - OfficialProjection (officialspaces.go): the projection of a verified recovery;
      OfficialGraph, OfficialRebuild, OfficialRecovery: the record graph, the database, and the
      composition with the recovery.

    Certification (internal/authoritycert, internal/securefile).
    - Certificate (cert.go): a run against any repository and projection, its report, and the
      evidence that is loaded from it; Certified: what a certificate shows.
    - SecureFile (securefile.go): the private read of a file that others may replace meanwhile.

    Authorization (internal/oauthclient/spacescope.go, internal/onboardingbroker,
    internal/authvault).
    - SpaceScope: the scopes that are asked for and the validation of those that are granted.
    - Broker (handler.go): every handler over a store with compare-and-swap ([RecordStore]), a
      login driver ([OAuthDriver]) and whatever other requests do between two calls; Sessions: the
      rely-guarantee argument ([kept]) that no session is lost.
    - ExactDriver (driver.go): the configuration, and the driver over managers of logins; it
      discharges the laws of the interface that Sessions uses ([DriverLaws]).
    - Vault (store.go): the encrypted file that keeps sessions, requests and the records of the
      broker, with its lock, its cipher ([AEAD]) and its replacement; Vaulted: each operation is
      one critical section, and a transaction on the map of live records.

    The shadow agent (internal/shadowagent).
    - ShadowAgent (handler.go, multiplexer.go): every endpoint over any [Repository] and clock,
      and the routing of a request to the handler of its target; Captured: what a receipt and an
      inventory say.

    ** How the code is represented

    Go strings and byte slices are [String.string]; uint64 and lengths are [N] with their
    wrap-around written out where it can happen; int64 is [Z].  A slice is an [option] of a list
    where the code can see whether it is nil.  Maps are [gmap string].  A fallible function
    returns [result]; a wrapped error is its sentinel.  A call on shared state takes the state
    and returns it.  A context ([GoStd.context]) is cancelled after a number of polls that the
    caller chooses, so statements quantify over every moment of cancellation.

    ** What the theorems show

    - Reducers and recovery are exact: [Reduce], [ReduceFolder], [ValidateFolderSet] and the
      reduction of a whole source succeed if and only if the input satisfies an order-free
      specification ([Messages.sound_history], [Folders.sound_history], [folder_set],
      [complete_source]), stated on the records and not by the code's checks, and then return the
      state it means.  Hence they do not depend on the order of their input, and no single record
      can be withheld or added unnoticed.
    - The reduced state means what it should: registers hold the greatest assignment, the
      history is rooted and acyclic, claims match revisions one to one, references are closed.
    - Authenticity: keys, fingerprints, seals, CIDs and the commit signature bind what they name;
      a verified export holds exactly the indexed records.
    - Stores: the in-memory repository refines a contract for batches, keeps blobs and records in
      agreement in every reachable state, and isolates sessions; an update is applied exactly
      once; a migration reconstructs its source, only adds, and is idempotent.
    - The provider: no call leaks a credential or a body; receipts match their records; listings
      are exactly what was served, and end.  The structure check of CBOR is a grammar
      ([well_nested]).  A recovery read is stable, authenticated and complete,
      its bytes are there until the last visit ends, and are not readable afterwards.
    - The authority: an admitted append changes exactly the state it asks for, a retry is
      recognised, a served answer is checked and its encoding is that of the whole response.
    - Projections: a rebuild succeeds exactly on consistent mailboxes and then holds exactly their
      contents; UIDs are unique, kept ones stay; a verified recovery always projects but for two
      named reasons.
    - Certification: a run passes exactly when it ends without an error, what it has then seen,
      and that its report is evidence for exactly what it certified; a private read is private
      ([private], in terms of the permissions of a file).
    - Authorization: a granted scope is accepted exactly when it is the least one, by a grammar of
      scopes ([grants]); no request
      loses a session, a confirmed revocation is complete, a new session is named before the
      browser goes on; the driver finds exactly the runtimes that it was given; the vault is
      sealed, and its operations are transactions.
    - The shadow agent: a receipt is given only for a message that is held with the bytes of the
      request, and the pages of an inventory make up the mailbox.
    - Formats: JSON, varints, wire records and addresses round-trip; every error branch of the
      updates and of the public recovery is characterised.
    Where the code falls short of its intent the theorem states what it does:
    [failed_update_settles], [dangling_tail_accepted], [decode_drops_case_variant],
    [delivery_fingerprint_ambiguous], [reauthorization_hidden], [retry_recognised], [new_uid_moves],
    [issued_scopes_accepted], [recovered_mailbox_projects], [session_orphaned],
    [failed_swap_writes], [broken_name_lost], [far_future_lost] and [blank_folder_breaks_inventory].

    ** Bounds and fuel

    Recursion that is not structural carries fuel with a proof that it is enough:
    [preflight_fuel] (two rounds per CBOR item, the code's own limit), [fold_loop] (the length of
    an orbit), the JSON parser (the length of the text), [put_uvarint] (ten bytes for 64 bits),
    [skip_used] (one more than the UIDs in use).  The attempts of the broker at a compare-and-swap
    are the eight of the code, and running out of them is its error.
    The limits of the code are definitions with the code's names and values.

    ** Not modelled

    What is left is input and output, or runs on libraries whose behaviour is the point: the
    login flows and token exchange (oauthclient, spacecredential, serviceauth) on an OAuth library
    and on signatures, the HTTP clients of the other two providers and of the proofs (happyview,
    rsky, spaceproof, spaceprovision), the viewer's server and templates, the import of
    Vandelay archives, the builder of test snapshots, the command lines and scripts.  Of the
    modelled parts, the opening and the queries of the legacy database and the writing of a
    migration report are the calls of a class.  The calls that the modelled code makes to all these are parameters.
    The manifest lists every part with its status. *)
From Stdlib Require Export Ascii String NArith ZArith Lia.
From stdpp Require Export base strings gmap sorting numbers.
From stdpp Require Export list.
#[global] Set Warnings "-notation-overridden,-ambiguous-paths".

(** ** Errors

    Go's sentinel errors.  [fmt.Errorf("%w: ...", sentinel)] keeps the identity of its sentinel
    for [errors.Is], so a wrapped error is modelled by its sentinel: the text of a message is
    not part of the model. *)
Inductive error : Type :=
  (* internal/sqliteimport *)
  | ErrMailboxNotFound | ErrInvalidSource
  (* internal/mailbox *)
  | ErrIntegrity | ErrMessageTooLarge | ErrInvalidRecord
  (* internal/repository *)
  | ErrUnauthorized | ErrNotFound | ErrExists | ErrConflict | ErrRevoked | ErrUnsupported
  | ErrTarget
  (* internal/mailboxstate, state.go *)
  | ErrStateConflict | ErrStaleRevision | ErrInvalid
  (* internal/mailboxstate, revision.go and folder_revision.go *)
  | ErrInvalidRevision | ErrMissingParent | ErrInvalidReference | ErrOperationCollision
  | ErrIncompleteSnapshot | ErrResourceLimit | ErrFolderNameCollision
  (* internal/mailboxstate, the source and content boundaries *)
  | ErrSourceReduction | ErrContentVerification
  (* internal/providers/officialspaces, and oauthclient's signal it passes on *)
  | ErrSnapshotVerification | ErrReauthorizationRequired
  (* internal/authorityv3 *)
  | ErrAppendConflict
  (* internal/authvault, and os *)
  | ErrRecordNotFound | ErrRecordExists | ErrDecrypt | ErrPermissions
  | ErrFileExist | ErrFileNotExist
  (* internal/onboardingbroker *)
  | ErrSteadyReauthorizationRequired | errRevocationIncomplete
  (* io *)
  | ErrEOF | ErrUnexpectedEOF
  (* context *)
  | ErrCanceled | ErrDeadlineExceeded
  (* errors with no sentinel of this repository *)
  | ErrOther
  (* errors.Join *)
  | ErrJoin (e1 e2 : error).

#[export] Instance error_eq_dec : EqDecision error.
Proof. solve_decision. Defined.

(** [errors.Is(err, sentinel)]: [ErrFolderNameCollision] is declared as a wrapper of
    [ErrInvalidReference]. *)
Fixpoint errors_Is (err sentinel : error) : bool :=
  bool_decide (err = sentinel) ||
  match err with
  | ErrFolderNameCollision => bool_decide (sentinel = ErrInvalidReference)
  | ErrJoin e1 e2 => errors_Is e1 sentinel || errors_Is e2 sentinel
  | _ => false
  end.

(** ** Results of fallible calls *)
Inductive result (A : Type) : Type :=
  | Ok (a : A)
  | Err (e : error).
Arguments Ok {A} a.
Arguments Err {A} e.

#[export] Instance result_eq_dec {A} `{EqDecision A} : EqDecision (result A).
Proof. solve_decision. Defined.

Definition result_bind {A B} (m : result A) (k : A → result B) : result B :=
  match m with Ok a => k a | Err e => Err e end.

(** The error of a call replaced by another one, as in [if err != nil { return other }]. *)
Definition or_error {A} (m : result A) (e : error) : result A :=
  match m with Ok a => Ok a | Err _ => Err e end.

(** [opt_result o e]: a lookup whose absence is the error [e]. *)
Definition opt_result {A} (o : option A) (e : error) : result A :=
  match o with Some a => Ok a | None => Err e end.

Definition is_ok {A} (m : result A) : bool :=
  match m with Ok _ => true | Err _ => false end.

Declare Scope go_scope.
Delimit Scope go_scope with go.
Notation "'let?' x := m 'in' k" := (result_bind m (λ x, k))
  (at level 10, x pattern, m at level 99, k at level 200,
   format "'[v' 'let?'  x  :=  m  'in' '/' k ']'") : go_scope.
Notation "'fail_if' c 'with' e ;; k" := (if (c : bool) then Err e else k)
  (at level 10, c at level 99, e at level 99, k at level 200,
   format "'[v' 'fail_if'  c  'with'  e ;; '/' k ']'") : go_scope.
Open Scope go_scope.
Open Scope string_scope.
Open Scope list_scope.
Open Scope N_scope.

(** A [for range] loop whose body may return early with an error. *)
Fixpoint range {A S} (f : S → A → result S) (l : list A) (s : S) : result S :=
  match l with
  | [] => Ok s
  | a :: l' => let? s' := f s a in range f l' s'
  end.

(** A [for range] loop that only checks its elements. *)
Fixpoint range_check {A} (f : A → result unit) (l : list A) : result unit :=
  match l with
  | [] => Ok tt
  | a :: l' => let? _ := f a in range_check f l'
  end.

(** ** Go values

    Go [string] and [[]byte] values are immutable byte sequences here: [String.string], whose
    characters are the 256 bytes.  A slice whose nil-ness the code observes is an [option] of
    a list; [elems] reads it the way [range] and [len] do. *)
Definition slice (A : Type) : Type := option (list A).
Definition elems {A} (s : slice A) : list A := default [] s.
Definition is_nil {A} (s : slice A) : bool :=
  match s with None => true | Some _ => false end.

Definition len (s : string) : N := N.of_nat (String.length s).
Definition llen {A} (l : list A) : N := N.of_nat (List.length l).

(** uint64 and uint32 arithmetic wraps around. *)
Definition u64 (x : N) : N := x mod 2 ^ 64.
Definition u32 (x : N) : N := x mod 2 ^ 32.

(** The byte with a given value. *)
Definition byte (x : N) : string := String (ascii_of_N x) EmptyString.
Definition NUL : string := byte 0.

(** ** Byte order

    [bytes.Compare] and Go's [<] on strings are the unsigned lexicographic order of bytes. *)
Fixpoint str_compare (a b : string) : comparison :=
  match a, b with
  | EmptyString, EmptyString => Eq
  | EmptyString, String _ _ => Lt
  | String _ _, EmptyString => Gt
  | String x a', String y b' =>
      match N.compare (N_of_ascii x) (N_of_ascii y) with
      | Eq => str_compare a' b'
      | c => c
      end
  end.

Definition str_le (a b : string) : Prop := str_compare a b ≠ Gt.
Definition str_lt (a b : string) : Prop := str_compare a b = Lt.

#[export] Instance str_le_dec : RelDecision str_le.
Proof. intros a b. unfold str_le. apply _. Defined.
#[export] Instance str_lt_dec : RelDecision str_lt.
Proof. intros a b. unfold str_lt. apply _. Defined.

(** [sort.Strings], [slices.SortFunc(_, compareUTF8)]: on a total antisymmetric order every
    sorting algorithm returns this list ([sort_strings_unique]). *)
Definition sort_strings (l : list string) : list string := merge_sort str_le l.

(** ** Tactics *)

(** Splits the successful outcome of a chain of fallible steps into its steps. *)
Ltac result_step :=
  match goal with
  | H : Ok _ = Ok _ |- _ => injection H as H; subst
  | H : Err _ = Ok _ |- _ => discriminate H
  | H : Ok _ = Err _ |- _ => discriminate H
  | H : result_bind ?m _ = Ok _ |- _ => destruct m eqn:?; simpl in H
  | H : or_error ?m _ = Ok _ |- _ => destruct m eqn:?; simpl in H
  | H : opt_result ?m _ = Ok _ |- _ => destruct m eqn:?; simpl in H
  | H : (if ?b then Err _ else _) = Ok _ |- _ => destruct b eqn:?
  | H : (if ?b then _ else Err _) = Ok _ |- _ => destruct b eqn:?
  end.
Ltac result_steps := repeat (result_step; try discriminate).

(** Turns boolean tests of the code into propositions. *)
Ltac bools :=
  repeat match goal with
  | H : _ || _ = false |- _ => apply orb_false_iff in H; destruct H
  | H : _ && _ = true |- _ => apply andb_true_iff in H; destruct H
  | H : negb _ = false |- _ => apply negb_false_iff in H
  | H : negb _ = true |- _ => apply negb_true_iff in H
  | H : bool_decide _ = true |- _ => apply bool_decide_eq_true_1 in H
  | H : bool_decide _ = false |- _ => apply bool_decide_eq_false_1 in H
  | H : N.ltb _ _ = true |- _ => apply N.ltb_lt in H
  | H : N.ltb _ _ = false |- _ => apply N.ltb_ge in H
  | H : N.leb _ _ = true |- _ => apply N.leb_le in H
  | H : N.leb _ _ = false |- _ => apply N.leb_gt in H
  | H : N.eqb _ _ = true |- _ => apply N.eqb_eq in H
  | H : N.eqb _ _ = false |- _ => apply N.eqb_neq in H
  | H : String.eqb _ _ = true |- _ => apply String.eqb_eq in H
  | H : String.eqb _ _ = false |- _ => apply String.eqb_neq in H
  end.

(** Linear arithmetic with division and remainder by constants. *)
Ltac dlia := zify; Z.to_euclidean_division_equations; lia.

Create HintDb golib.
Create Rewrite HintDb golib_rw.

(** ** Loops *)

Lemma range_app {A S} (f : S → A → result S) l1 l2 s :
  range f (l1 ++ l2) s = (let? s' := range f l1 s in range f l2 s').
Proof. revert s. induction l1 as [|a l1 IH]; intros s; [done|]. simpl. destruct (f s a); simpl; auto. Qed.

Lemma range_inv {A S} (P : S → Prop) (f : S → A → result S) l s s' :
  P s → (∀ a t t', a ∈ l → P t → f t a = Ok t' → P t') → range f l s = Ok s' → P s'.
Proof.
  revert s. induction l as [|a l IH]; intros s Hs Hf Hr; simpl in Hr; [by result_steps|].
  result_steps. eapply IH; [| |done].
  - eapply Hf; [|done|done]. set_solver.
  - intros b t t' Hb. apply Hf. set_solver.
Qed.

Lemma range_check_ok {A} (f : A → result unit) l :
  range_check f l = Ok tt ↔ Forall (λ a, f a = Ok tt) l.
Proof.
  induction l as [|a l IH]; simpl; [done|].
  rewrite Forall_cons_iff, <- IH. destruct (f a) as [[]|e]; simpl; intuition congruence.
Qed.

(** ** Lengths and byte strings *)

Lemma length_app_s a b : String.length (a +:+ b) = (String.length a + String.length b)%nat.
Proof. induction a as [|x a IH]; simpl; [done|]. by rewrite IH. Qed.

Lemma len_app a b : len (a +:+ b) = len a + len b.
Proof. unfold len. rewrite length_app_s. lia. Qed.

Lemma len_cons c s : len (String c s) = 1 + len s.
Proof. unfold len. simpl String.length. lia. Qed.

Lemma app_nil_r_s (s : string) : s +:+ "" = s.
Proof. induction s as [|c s IH]; [done|]. exact (f_equal (String c) IH). Qed.

Lemma app_assoc_s (a b c : string) : (a +:+ b) +:+ c = a +:+ (b +:+ c).
Proof. induction a as [|x a IH]; [done|]. exact (f_equal (String x) IH). Qed.

Lemma app_inj_len (a b s t : string) :
  len a = len b → a +:+ s = b +:+ t → a = b ∧ s = t.
Proof.
  unfold len. revert b. induction a as [|x a IH]; intros [|y b] Hl He; simpl in *; try lia; [done|].
  injection He as -> He. destruct (IH b) as [-> ->]; [lia|done|done].
Qed.

Lemma app_inj_r (a s t : string) : a +:+ s = a +:+ t → s = t.
Proof. intros H. by apply (app_inj_len a a s t) in H as [_ ->]. Qed.

Lemma llen_app {A} (l k : list A) : llen (l ++ k) = llen l + llen k.
Proof. unfold llen. rewrite length_app. lia. Qed.

(** ** The byte order is a total order *)

Lemma str_compare_refl a : str_compare a a = Eq.
Proof. induction a as [|x a IH]; [done|]. simpl. by rewrite N.compare_refl. Qed.

Lemma N_of_ascii_inj x y : N_of_ascii x = N_of_ascii y → x = y.
Proof. intros H. by rewrite <- (ascii_N_embedding x), <- (ascii_N_embedding y), H. Qed.

Lemma str_compare_eq a b : str_compare a b = Eq ↔ a = b.
Proof.
  split; [|intros ->; apply str_compare_refl].
  revert b. induction a as [|x a IH]; intros [|y b]; simpl; try done.
  destruct (N.compare_spec (N_of_ascii x) (N_of_ascii y)) as [E| |]; try done.
  intros H. f_equal; [by apply N_of_ascii_inj|by apply IH].
Qed.

Lemma str_compare_antisym a b : str_compare b a = CompOpp (str_compare a b).
Proof.
  revert b. induction a as [|x a IH]; intros [|y b]; simpl; try done.
  rewrite (N.compare_antisym (N_of_ascii x) (N_of_ascii y)).
  destruct (N.compare _ _); simpl; [apply IH|done|done].
Qed.

Lemma str_lt_trans a b c : str_lt a b → str_lt b c → str_lt a c.
Proof.
  unfold str_lt. revert b c. induction a as [|x a IH]; intros [|y b] [|z c]; simpl; try done.
  destruct (N.compare_spec (N_of_ascii x) (N_of_ascii y)) as [E1|L1|G1]; try done;
  destruct (N.compare_spec (N_of_ascii y) (N_of_ascii z)) as [E2|L2|G2]; try done;
  destruct (N.compare_spec (N_of_ascii x) (N_of_ascii z)) as [E3|L3|G3]; try done; try lia.
  apply IH.
Qed.

Lemma str_le_lt a b : str_le a b ↔ str_lt a b ∨ a = b.
Proof.
  unfold str_le, str_lt. rewrite <- (str_compare_eq a b). destruct (str_compare a b); intuition congruence.
Qed.

#[export] Instance str_le_trans : Transitive str_le.
Proof.
  intros a b c. rewrite !str_le_lt. intros [H1| ->] [H2| ->]; auto.
  left. by eapply str_lt_trans.
Qed.
#[export] Instance str_le_total : Total str_le.
Proof.
  intros a b. unfold str_le. rewrite (str_compare_antisym a b).
  destruct (str_compare a b); naive_solver.
Qed.
#[export] Instance str_le_antisymm : AntiSymm (=) str_le.
Proof.
  intros a b. unfold str_le. rewrite (str_compare_antisym a b).
  destruct (str_compare a b) eqn:E; try naive_solver. intros _ _. by apply str_compare_eq.
Qed.
#[export] Instance str_lt_irrefl : Irreflexive str_lt.
Proof. intros a. unfold complement, str_lt. by rewrite str_compare_refl. Qed.

(** ** Sorting *)

Lemma sort_strings_perm l : sort_strings l ≡ₚ l.
Proof. apply merge_sort_Permutation. Qed.

Lemma sort_strings_sorted l : StronglySorted str_le (sort_strings l).
Proof. apply StronglySorted_merge_sort; apply _. Qed.

Lemma sort_strings_unique l k : StronglySorted str_le k → k ≡ₚ l → k = sort_strings l.
Proof.
  intros Hs Hp. apply (StronglySorted_unique str_le); [done|apply sort_strings_sorted|].
  by rewrite sort_strings_perm.
Qed.

Lemma sort_strings_proper l k : l ≡ₚ k → sort_strings l = sort_strings k.
Proof.
  intros Hp. apply sort_strings_unique; [apply sort_strings_sorted|].
  by rewrite sort_strings_perm.
Qed.

Lemma elem_of_sort_strings x l : x ∈ sort_strings l ↔ x ∈ l.
Proof. by rewrite sort_strings_perm. Qed.

Lemma length_sort_strings l : List.length (sort_strings l) = List.length l.
Proof. by rewrite sort_strings_perm. Qed.

#[export] Hint Resolve sort_strings_sorted : golib.
#[export] Hint Rewrite elem_of_sort_strings length_sort_strings : golib_rw.

(** ** Prefix-free encoders

    An encoder is prefix-free on [P] when an encoded value followed by anything can be read
    back in one way only: concatenations of such encodings are unambiguous. *)
Class PrefixFree {A} (P : A → Prop) (enc : A → string) : Prop :=
  prefix_free x y s t : P x → P y → enc x +:+ s = enc y +:+ t → x = y ∧ s = t.
