(* ===== verification/Sha256.v ===== *)
(** * crypto/sha256 and encoding/hex

    The two standard-library packages every identifier of the mailbox format is made of:
    FIPS 180-4 SHA-256 over byte strings (a message of less than 2^61 bytes, as in Go), and
    lower-case hexadecimal.  [collision] names a concrete pair of inputs that break collision
    resistance: theorems on identifiers conclude "the data are equal, or these two encodings
    are a collision", so nothing is assumed of the hash function. *)
From S2P Require Import Prelude.

(** ** 32-bit words *)

Definition w32 (x : N) : N := N.land x 0xffffffff.
Definition add32 (x y : N) : N := w32 (x + y).
Definition rotr (n x : N) : N := N.lor (N.shiftr x n) (w32 (N.shiftl x (32 - n))).
Definition ch (x y z : N) : N :=
  N.lxor (N.land x y) (N.land (N.lxor x 0xffffffff) z).
Definition maj (x y z : N) : N :=
  N.lxor (N.land x y) (N.lxor (N.land x z) (N.land y z)).
Definition big_sigma0 (x : N) : N := N.lxor (rotr 2 x) (N.lxor (rotr 13 x) (rotr 22 x)).
Definition big_sigma1 (x : N) : N := N.lxor (rotr 6 x) (N.lxor (rotr 11 x) (rotr 25 x)).
Definition small_sigma0 (x : N) : N := N.lxor (rotr 7 x) (N.lxor (rotr 18 x) (N.shiftr x 3)).
Definition small_sigma1 (x : N) : N := N.lxor (rotr 17 x) (N.lxor (rotr 19 x) (N.shiftr x 10)).

(** FIPS 180-4 takes its constants from the first primes: the first 32 bits of the fractional
    parts of their cube roots (round constants) and square roots (initial state). *)
Definition upto (n : nat) : list N := List.map N.of_nat (List.seq 0 n).
Definition is_prime (n : N) : bool :=
  (2 <=? n) && forallb (λ d, (d <? 2) || (n <=? d) || negb (n mod d =? 0)) (upto (N.to_nat n)).
Definition primes : list N := List.filter is_prime (upto 312).

(** Bit by bit from the top: the greatest [r] with [r ^ 3 <= n], for [n] below 2^108. *)
Definition cube_root (n : N) : N :=
  fold_right (λ bit r, let r' := r + 2 ^ bit in if r' * r' * r' <=? n then r' else r) 0 (upto 36).

Definition round_constants : list N :=
  Eval vm_compute in List.map (λ p, w32 (cube_root (p * 2 ^ 96))) primes.

(** ** The compression function *)

Record digest : Type := Digest {
  h0 : N; h1 : N; h2 : N; h3 : N; h4 : N; h5 : N; h6 : N; h7 : N
}.

Definition initial_digest : digest :=
  Eval vm_compute in
  let root i := w32 (N.sqrt (List.nth i primes 0 * 2 ^ 64)) in
  Digest (root 0%nat) (root 1%nat) (root 2%nat) (root 3%nat)
         (root 4%nat) (root 5%nat) (root 6%nat) (root 7%nat).

Definition sha_round (s : digest) (k w : N) : digest :=
  let t1 := w32 (h7 s + big_sigma1 (h4 s) + ch (h4 s) (h5 s) (h6 s) + k + w) in
  let t2 := w32 (big_sigma0 (h0 s) + maj (h0 s) (h1 s) (h2 s)) in
  Digest (add32 t1 t2) (h0 s) (h1 s) (h2 s) (add32 (h3 s) t1) (h4 s) (h5 s) (h6 s).

(** [window] holds the next sixteen words of the message schedule. *)
Fixpoint sha_rounds (ks window : list N) (s : digest) : digest :=
  match ks, window with
  | k :: ks', w :: rest =>
      let next := w32 (small_sigma1 (List.nth 13 rest 0) + List.nth 8 rest 0 +
                       small_sigma0 (List.nth 0 rest 0) + w) in
      sha_rounds ks' (rest ++ [next])%list (sha_round s k w)
  | _, _ => s
  end.

Definition compress (s : digest) (block : list N) : digest :=
  let r := sha_rounds round_constants block s in
  Digest (add32 (h0 s) (h0 r)) (add32 (h1 s) (h1 r)) (add32 (h2 s) (h2 r))
         (add32 (h3 s) (h3 r)) (add32 (h4 s) (h4 r)) (add32 (h5 s) (h5 r))
         (add32 (h6 s) (h6 r)) (add32 (h7 s) (h7 r)).

Fixpoint be_words (bytes : list N) : list N :=
  match bytes with
  | b0 :: b1 :: b2 :: b3 :: rest =>
      N.lor (N.shiftl b0 24) (N.lor (N.shiftl b1 16) (N.lor (N.shiftl b2 8) b3)) :: be_words rest
  | _ => []
  end.

Definition be_bytes (n : nat) (x : N) : list N :=
  List.map (λ i, N.land (N.shiftr x (8 * N.of_nat i)) 255) (rev (List.seq 0 n)).

Definition padded (msg : list N) : list N :=
  (msg ++ [128] ++ List.repeat 0 (N.to_nat ((119 - llen msg mod 64) mod 64)) ++
   be_bytes 8 (8 * llen msg))%list.

(** One block of sixteen words at a time; [fuel] bounds the number of blocks, and
    [sha256] gives one unit per byte of the padded message. *)
Fixpoint absorb (fuel : nat) (words : list N) (s : digest) : digest :=
  match fuel, words with
  | S fuel', _ :: _ => absorb fuel' (drop 16 words) (compress s (take 16 words))
  | _, _ => s
  end.

(** Bytes as numbers and back. *)
Fixpoint byte_values (s : string) : list N :=
  match s with
  | EmptyString => []
  | String c s' => N_of_ascii c :: byte_values s'
  end.
Fixpoint of_byte_values (l : list N) : string :=
  match l with
  | [] => EmptyString
  | x :: l' => String (ascii_of_N x) (of_byte_values l')
  end.

(** [sha256.Sum256], and [sha256.New] followed by writes and [Sum(nil)] on the
    concatenation of what was written. *)
Definition sha256 (msg : string) : string :=
  let p := padded (byte_values msg) in
  let s := absorb (List.length p) (be_words p) initial_digest in
  of_byte_values (be_bytes 4 (h0 s) ++ be_bytes 4 (h1 s) ++ be_bytes 4 (h2 s) ++
    be_bytes 4 (h3 s) ++ be_bytes 4 (h4 s) ++ be_bytes 4 (h5 s) ++ be_bytes 4 (h6 s) ++
    be_bytes 4 (h7 s))%list.

Definition collision (x y : string) : Prop := x ≠ y ∧ sha256 x = sha256 y.

(** ** Hexadecimal *)

Definition hex_digit (n : N) : ascii :=
  if n <? 10 then ascii_of_N (48 + n) else ascii_of_N (87 + n).

Fixpoint hex_encode (s : string) : string :=
  match s with
  | EmptyString => EmptyString
  | String c s' =>
      String (hex_digit (N_of_ascii c / 16))
        (String (hex_digit (N_of_ascii c mod 16)) (hex_encode s'))
  end.

Definition hex_value (c : ascii) : option N :=
  let n := N_of_ascii c in
  if (48 <=? n) && (n <=? 57) then Some (n - 48)
  else if (97 <=? n) && (n <=? 102) then Some (n - 87)
  else if (65 <=? n) && (n <=? 70) then Some (n - 55)
  else None.

(** [hex.DecodeString]: [None] is an error (odd length or a byte that is no digit). *)
Fixpoint hex_decode (s : string) : option string :=
  match s with
  | EmptyString => Some EmptyString
  | String c (String d s') =>
      match hex_value c, hex_value d, hex_decode s' with
      | Some x, Some y, Some r => Some (String (ascii_of_N (16 * x + y)) r)
      | _, _, _ => None
      end
  | _ => None
  end.

Definition hex_decodable (s : string) : bool :=
  match hex_decode s with Some _ => true | None => false end.

(** [strings.ToLower] on ASCII bytes.  The sources compare [s == strings.ToLower(s)] only
    together with a successful [hex.DecodeString(s)], so on ASCII. *)
Definition lower_byte (c : ascii) : ascii :=
  let n := N_of_ascii c in if (65 <=? n) && (n <=? 90) then ascii_of_N (n + 32) else c.
Fixpoint ToLower (s : string) : string :=
  match s with
  | EmptyString => EmptyString
  | String c s' => String (lower_byte c) (ToLower s')
  end.

(** A property of every byte of a string. *)
Fixpoint all_bytes (p : ascii → bool) (s : string) : bool :=
  match s with EmptyString => true | String c s' => p c && all_bytes p s' end.

(** ** Lemmas *)

(** Every statement on one byte is checked on the 256 bytes. *)
Ltac each_byte c := destruct c as [[] [] [] [] [] [] [] []]; vm_compute; try done.

Example sha256_abc :
  hex_encode (sha256 "abc") = "ba7816bf8f01cfea414140de5dae2223b00361a396177a9cb410ff61f20015ad".
Proof. vm_compute. reflexivity. Qed.

Example sha256_empty :
  hex_encode (sha256 "") = "e3b0c44298fc1c149afbf4c8996fb92427ae41e4649b934ca495991b7852b855".
Proof. vm_compute. reflexivity. Qed.

Lemma len_of_byte_values l : len (of_byte_values l) = llen l.
Proof. induction l as [|x l IH]; [done|]. simpl of_byte_values. rewrite len_cons, IH. unfold llen. simpl List.length. lia. Qed.

Lemma len_sha256 msg : len (sha256 msg) = 32.
Proof. unfold sha256. rewrite len_of_byte_values. reflexivity. Qed.

#[global] Opaque sha256.

Lemma len_hex_encode s : len (hex_encode s) = 2 * len s.
Proof. induction s as [|c s IH]; [done|]. simpl hex_encode. rewrite !len_cons, IH. lia. Qed.

Lemma len_hex_sha256 msg : len (hex_encode (sha256 msg)) = 64.
Proof. by rewrite len_hex_encode, len_sha256. Qed.

Lemma hex_byte_roundtrip c :
  ∃ x y, hex_value (hex_digit (N_of_ascii c / 16)) = Some x ∧
    hex_value (hex_digit (N_of_ascii c mod 16)) = Some y ∧ ascii_of_N (16 * x + y) = c.
Proof. each_byte c; eexists _, _; repeat split. Qed.

Lemma hex_decode_encode s : hex_decode (hex_encode s) = Some s.
Proof.
  induction s as [|c s IH]; [done|]. cbn -[hex_value hex_digit N.div N.modulo].
  destruct (hex_byte_roundtrip c) as (x & y & -> & -> & E). by rewrite IH, E.
Qed.

Lemma hex_encode_inj s t : hex_encode s = hex_encode t → s = t.
Proof.
  intros H. apply (f_equal hex_decode) in H. rewrite !hex_decode_encode in H. by injection H.
Qed.

Lemma hex_encode_lower s : ToLower (hex_encode s) = hex_encode s.
Proof.
  induction s as [|c s IH]; [done|]. cbn -[lower_byte hex_digit N.div N.modulo]. rewrite IH.
  f_equal; [|f_equal]; each_byte c.
Qed.

Lemma hex_decodable_encode s : hex_decodable (hex_encode s) = true.
Proof. unfold hex_decodable. by rewrite hex_decode_encode. Qed.

Lemma hex_sha256_inj x y :
  hex_encode (sha256 x) = hex_encode (sha256 y) → x = y ∨ collision x y.
Proof.
  intros H%hex_encode_inj. destruct (decide (x = y)) as [->|Hne]; [by left|by right].
Qed.

Lemma all_bytes_app p s t : all_bytes p (s +:+ t) = all_bytes p s && all_bytes p t.
Proof. induction s as [|c s IH]; simpl; [done|]. by rewrite IH, andb_assoc. Qed.

(** Hexadecimal text is made of lower-case digits. *)
Definition is_lower_hex (c : ascii) : bool :=
  let n := N_of_ascii c in ((48 <=? n) && (n <=? 57)) || ((97 <=? n) && (n <=? 102)).

Lemma hex_encode_bytes s : all_bytes is_lower_hex (hex_encode s) = true.
Proof.
  induction s as [|c s IH]; [done|]. cbn -[is_lower_hex hex_digit N.div N.modulo]. rewrite IH.
  rewrite andb_true_r. each_byte c.
Qed.

Lemma all_bytes_impl (p q : ascii → bool) s :
  (∀ c, p c = true → q c = true) → all_bytes p s = true → all_bytes q s = true.
Proof.
  intros Hpq. induction s as [|c s IH]; simpl; [done|].
  rewrite !andb_true_iff. intros [Hp Hs]. auto.
Qed.

#[export] Hint Resolve len_sha256 len_hex_sha256 hex_decodable_encode hex_encode_bytes : golib.
#[export] Hint Rewrite len_app len_sha256 len_hex_sha256 hex_encode_lower : golib_rw.
