(* ===== verification/GoStd.v ===== *)
(** * The parts of Go's standard library the mailbox code relies on

    [unicode/utf8], [strings], [encoding/binary] varints and [time]'s RFC 3339 layout, on byte
    strings.  These are executable transcriptions of what the packages do; the lemmas are the
    ones the components share. *)
From S2P Require Import Prelude Sha256.

(** ** unicode/utf8 *)

Definition in_range (lo hi : N) (c : ascii) : bool :=
  (lo <=? N_of_ascii c) && (N_of_ascii c <=? hi).
Definition continuation : ascii → bool := in_range 0x80 0xBF.

(** The admissible second bytes after a leading byte of a three- or four-byte sequence. *)
Definition second_of_three (c : ascii) (d : ascii) : bool :=
  let n := N_of_ascii c in
  if n =? 0xE0 then in_range 0xA0 0xBF d
  else if n =? 0xED then in_range 0x80 0x9F d
  else (0xE1 <=? n) && (n <=? 0xEF) && continuation d.
Definition second_of_four (c : ascii) (d : ascii) : bool :=
  let n := N_of_ascii c in
  if n =? 0xF0 then in_range 0x90 0xBF d
  else if n =? 0xF4 then in_range 0x80 0x8F d
  else (0xF1 <=? n) && (n <=? 0xF3) && continuation d.

(** [utf8.ValidString]. *)
Fixpoint utf8_valid (s : string) : bool :=
  match s with
  | EmptyString => true
  | String c0 s1 =>
      if N_of_ascii c0 <? 0x80 then utf8_valid s1
      else match s1 with
      | EmptyString => false
      | String c1 s2 =>
          if in_range 0xC2 0xDF c0 then continuation c1 && utf8_valid s2
          else match s2 with
          | EmptyString => false
          | String c2 s3 =>
              if in_range 0xE0 0xEF c0 then
                second_of_three c0 c1 && continuation c2 && utf8_valid s3
              else match s3 with
              | EmptyString => false
              | String c3 s4 =>
                  in_range 0xF0 0xF4 c0 && second_of_four c0 c1 && continuation c2 &&
                  continuation c3 && utf8_valid s4
              end
          end
      end
  end.

(** ** strings *)

Fixpoint has_byte (c : ascii) (s : string) : bool :=
  match s with
  | EmptyString => false
  | String d s' => Ascii.eqb c d || has_byte c s'
  end.

(** [strings.ContainsAny(s, chars)] for ASCII [chars]. *)
Definition ContainsAny (s chars : string) : bool := negb (all_bytes (λ c, negb (has_byte c chars)) s).

Fixpoint HasPrefix (s pre : string) : bool :=
  match pre, s with
  | EmptyString, _ => true
  | String p pre', String c s' => Ascii.eqb p c && HasPrefix s' pre'
  | String _ _, EmptyString => false
  end.

Fixpoint skip (n : nat) (s : string) : string :=
  match n, s with
  | S n', String _ s' => skip n' s'
  | _, _ => s
  end.

Definition TrimPrefix (s pre : string) : string :=
  if HasPrefix s pre then skip (String.length pre) s else s.

(** [strings.Cut(s, sep)] for a one-byte separator: [None] is "not found". *)
Fixpoint Cut (s : string) (sep : ascii) : option (string * string) :=
  match s with
  | EmptyString => None
  | String c s' =>
      if Ascii.eqb c sep then Some (EmptyString, s')
      else match Cut s' sep with
      | Some (a, b) => Some (String c a, b)
      | None => None
      end
  end.

(** [strings.Split(s, sep)] for a one-byte separator; never empty. *)
Fixpoint Split (s : string) (sep : ascii) : list string :=
  match s with
  | EmptyString => [EmptyString]
  | String c s' =>
      if Ascii.eqb c sep then EmptyString :: Split s' sep
      else match Split s' sep with
      | x :: l => String c x :: l
      | [] => [String c EmptyString]
      end
  end.

(** [strings.Count(s, sep)] for a one-byte separator. *)
Fixpoint Count (s : string) (sep : ascii) : N :=
  match s with
  | EmptyString => 0
  | String c s' => (if Ascii.eqb c sep then 1 else 0) + Count s' sep
  end.

(** The UTF-8 encodings of the runes [unicode.IsSpace] accepts. *)
Definition utf8_bytes (l : list N) : string := of_byte_values l.
Definition space_runes : list string :=
  List.map utf8_bytes
    [ [9]; [10]; [11]; [12]; [13]; [32]; [0xC2; 0x85]; [0xC2; 0xA0]; [0xE1; 0x9A; 0x80];
      [0xE2; 0x80; 0x80]; [0xE2; 0x80; 0x81]; [0xE2; 0x80; 0x82]; [0xE2; 0x80; 0x83];
      [0xE2; 0x80; 0x84]; [0xE2; 0x80; 0x85]; [0xE2; 0x80; 0x86]; [0xE2; 0x80; 0x87];
      [0xE2; 0x80; 0x88]; [0xE2; 0x80; 0x89]; [0xE2; 0x80; 0x8A]; [0xE2; 0x80; 0xA8];
      [0xE2; 0x80; 0xA9]; [0xE2; 0x80; 0xAF]; [0xE2; 0x81; 0x9F]; [0xE3; 0x80; 0x80] ].

Fixpoint rev_string_onto (s acc : string) : string :=
  match s with EmptyString => acc | String c s' => rev_string_onto s' (String c acc) end.
Definition rev_string (s : string) : string := rev_string_onto s EmptyString.

(** Drops one of [runes] at the front; one unit of [fuel] per byte of the string. *)
Fixpoint trim_front (runes : list string) (fuel : nat) (s : string) : string :=
  match fuel with
  | O => s
  | S fuel' =>
      match List.find (HasPrefix s) runes with
      | Some r => trim_front runes fuel' (skip (String.length r) s)
      | None => s
      end
  end.

(** [strings.TrimSpace]: the trailing runes are trimmed on the reversed bytes. *)
Definition TrimSpace (s : string) : string :=
  let left := trim_front space_runes (String.length s) s in
  rev_string (trim_front (List.map rev_string space_runes) (String.length left) (rev_string left)).

(** ** encoding/binary: [PutUvarint] and [AppendUvarint] on a uint64 *)

(** Seven bits per byte, least significant first, a set high bit on all bytes but the last.
    A uint64 needs at most ten bytes ([binary.MaxVarintLen64]), the fuel [uvarint] gives. *)
Fixpoint put_uvarint (fuel : nat) (x : N) : string :=
  match fuel with
  | O => EmptyString
  | S fuel' =>
      if x <? 0x80 then byte x
      else byte (N.lor (x mod 256) 0x80) +:+ put_uvarint fuel' (N.shiftr x 7)
  end.
Definition uvarint (x : N) : string := put_uvarint 10 x.

(** ** time

    [time.Parse(time.RFC3339Nano, s)] as a test: which texts Go accepts.  The layout
    "2006-01-02T15:04:05.999999999Z07:00" reads an hour of one or two digits, any number of
    fractional digits after "." or ",", offsets up to 24:60, and checks the calendar day. *)
Definition digit (c : ascii) : option N :=
  let n := N_of_ascii c in if (48 <=? n) && (n <=? 57) then Some (n - 48) else None.

(** [n] decimal digits. *)
Fixpoint digits (n : nat) (acc : N) (s : string) : option (N * string) :=
  match n, s with
  | O, _ => Some (acc, s)
  | S n', String c s' =>
      match digit c with Some d => digits n' (10 * acc + d) s' | None => None end
  | S _, EmptyString => None
  end.

Definition expect (c : ascii) (s : string) : option string :=
  match s with
  | String d s' => if Ascii.eqb c d then Some s' else None
  | EmptyString => None
  end.

(** [getnum(value, false)]: two digits if the second byte is a digit, else one. *)
Definition one_or_two_digits (s : string) : option (N * string) :=
  match digits 2 0 s with Some r => Some r | None => digits 1 0 s end.

Fixpoint skip_digits (s : string) : string :=
  match s with
  | String c s' => match digit c with Some _ => skip_digits s' | None => s end
  | EmptyString => s
  end.

(** The optional fraction: a period or comma followed by at least one digit. *)
Definition skip_fraction (s : string) : string :=
  match s with
  | String p (String c s') =>
      if (Ascii.eqb p "." || Ascii.eqb p ",") && match digit c with Some _ => true | None => false end
      then skip_digits s' else s
  | _ => s
  end.

(** "Z" or a signed offset, and nothing after it. *)
Definition zone_ok (s : string) : bool :=
  match s with
  | String z s1 =>
      if Ascii.eqb z "Z" then match s1 with EmptyString => true | _ => false end
      else if Ascii.eqb z "+" || Ascii.eqb z "-" then
        match digits 2 0 s1 with
        | Some (hh, s2) =>
            match expect ":" s2 with
            | Some s3 =>
                match digits 2 0 s3 with
                | Some (mm, EmptyString) => (hh <=? 24) && (mm <=? 60)
                | _ => false
                end
            | None => false
            end
        | None => false
        end
      else false
  | EmptyString => false
  end.

Definition is_leap (y : N) : bool :=
  (y mod 4 =? 0) && (negb (y mod 100 =? 0) || (y mod 400 =? 0)).
Definition days_in (month year : N) : N :=
  match month with
  | 2 => if is_leap year then 29 else 28
  | 4 | 6 | 9 | 11 => 30
  | _ => 31
  end.

Definition parse_RFC3339Nano (s : string) : bool :=
  match digits 4 0 s with
  | None => false
  | Some (year, s) => match expect "-" s with
  | None => false
  | Some s => match digits 2 0 s with
  | None => false
  | Some (month, s) => match expect "-" s with
  | None => false
  | Some s => match digits 2 0 s with
  | None => false
  | Some (day, s) => match expect "T" s with
  | None => false
  | Some s => match one_or_two_digits s with
  | None => false
  | Some (hour, s) => match expect ":" s with
  | None => false
  | Some s => match digits 2 0 s with
  | None => false
  | Some (minute, s) => match expect ":" s with
  | None => false
  | Some s => match digits 2 0 s with
  | None => false
  | Some (second, s) =>
      (1 <=? month) && (month <=? 12) && (1 <=? day) && (day <=? days_in month year) &&
      (hour <? 24) && (minute <? 60) && (second <? 60) && zone_ok (skip_fraction s)
  end end end end end end end end end end end.

(** ** Lemmas *)

Lemma HasPrefix_app pre s : HasPrefix (pre +:+ s) pre = true.
Proof. induction pre as [|c pre IH]; [by destruct s|]. simpl. by rewrite Ascii.eqb_refl, IH. Qed.

Lemma skip_app pre s : skip (String.length pre) (pre +:+ s) = s.
Proof. induction pre as [|c pre IH]; [by destruct s|]. simpl. apply IH. Qed.

Lemma TrimPrefix_app pre s : TrimPrefix (pre +:+ s) pre = s.
Proof. unfold TrimPrefix. by rewrite HasPrefix_app, skip_app. Qed.

Lemma HasPrefix_spec s pre : HasPrefix s pre = true ↔ ∃ r, s = pre +:+ r.
Proof.
  split; [|intros [r ->]; apply HasPrefix_app].
  revert s. induction pre as [|p pre IH]; intros s H; [by exists s|].
  destruct s as [|c s]; simpl in H; [done|]. bools.
  match goal with E : Ascii.eqb _ _ = true |- _ => apply Ascii.eqb_eq in E as -> end.
  destruct (IH s) as [r ->]; [done|]. by exists r.
Qed.

#[export] Hint Rewrite HasPrefix_app TrimPrefix_app : golib_rw.

(** A string without NUL bytes read up to the first NUL. *)
Definition no_nul (s : string) : Prop := has_byte "000" s = false.

Lemma nul_terminated_inj a b s t :
  no_nul a → no_nul b → a +:+ NUL +:+ s = b +:+ NUL +:+ t → a = b ∧ s = t.
Proof.
  unfold no_nul. revert b. induction a as [|x a IH]; intros [|y b] Ha Hb H; simpl in *; bools.
  - by injection H.
  - injection H as <- _. done.
  - injection H as -> _. done.
  - injection H as -> H. destruct (IH b) as [-> ->]; auto.
Qed.

Lemma byte_inj x y s t : x < 256 → y < 256 → byte x +:+ s = byte y +:+ t → x = y ∧ s = t.
Proof.
  intros Hx Hy H. injection H as H Hs. split; [|exact Hs].
  rewrite <- (N_ascii_embedding x), <- (N_ascii_embedding y); [by rewrite H|lia..].
Qed.

Lemma low_byte_lor x : N.lor (x mod 256) 0x80 = x mod 128 + 128.
Proof.
  assert (H : ∀ y, y < 256 → N.lor y 0x80 = y mod 128 + 128).
  { intros y Hy. rewrite <- (N2Nat.id y). assert (N.to_nat y < 256)%nat as Hn by lia.
    generalize (N.to_nat y), Hn. clear. intros n Hn.
    do 256 (destruct n as [|n]; [done|]). lia. }
  rewrite H by (apply N.mod_lt; lia). f_equal.
  change 256 with (128 * 2). rewrite N.Div0.mod_mul_r.
  rewrite (N.mul_comm 128), N.Div0.mod_add, N.Div0.mod_mod. done.
Qed.

Lemma put_uvarint_inj fuel x y s t :
  x < 128 ^ N.of_nat fuel → y < 128 ^ N.of_nat fuel →
  put_uvarint fuel x +:+ s = put_uvarint fuel y +:+ t → x = y ∧ s = t.
Proof.
  revert x y. induction fuel as [|fuel IH]; intros x y Hx Hy H.
  { simpl in Hx, Hy. split; [lia|done]. }
  assert (Hpow : 128 ^ N.of_nat (S fuel) = 128 * 128 ^ N.of_nat fuel).
  { rewrite Nat2N.inj_succ. apply N.pow_succ_r'. }
  rewrite Hpow in Hx, Hy. simpl in H. rewrite !low_byte_lor, !N.shiftr_div_pow2 in H.
  change (2 ^ 7) with 128 in H.
  pose proof (N.mod_lt x 128 ltac:(lia)). pose proof (N.mod_lt y 128 ltac:(lia)).
  pose proof (N.Div0.div_mod x 128). pose proof (N.Div0.div_mod y 128).
  destruct (N.ltb_spec x 128) as [Lx|Lx], (N.ltb_spec y 128) as [Ly|Ly];
    try rewrite !app_assoc_s in H; try (apply byte_inj in H as [He H]; [|lia|lia]); try dlia.
  - done.
  - apply IH in H as [Hd Hs]; [|by apply N.Div0.div_lt_upper_bound..]. split; [lia|done].
Qed.

#[export] Instance uvarint_prefix_free : PrefixFree (λ x, x < 2 ^ 64) uvarint.
Proof.
  intros x y s t Hx Hy H. apply (put_uvarint_inj 10 x y s t); [| |done].
  all: eapply N.lt_le_trans; [eassumption|]; by vm_compute.
Qed.

Lemma put_uvarint_len fuel x : len (put_uvarint fuel x) ≤ N.of_nat fuel.
Proof.
  revert x. induction fuel as [|fuel IH]; intros x; [done|].
  cbn [put_uvarint]. destruct (x <? 128); [unfold len, byte; cbn [String.length]; lia|].
  rewrite len_app. specialize (IH (N.shiftr x 7)).
  unfold len at 1, byte. cbn [String.length]. lia.
Qed.

(** ASCII text is valid UTF-8. *)
Lemma ascii_utf8 s : all_bytes (λ c, N_of_ascii c <? 0x80) s = true → utf8_valid s = true.
Proof. induction s as [|c s IH]; simpl; [done|]. intros H. bools.
  destruct (N.ltb_spec (N_of_ascii c) 128); [by apply IH|lia]. Qed.

(** ** TrimSpace *)

Lemma rev_string_onto_app s acc : rev_string_onto s acc = rev_string_onto s "" +:+ acc.
Proof.
  revert acc. induction s as [|c s IH]; intros acc; [done|]. simpl.
  rewrite IH, (IH (String c "")), app_assoc_s. done.
Qed.

Lemma rev_string_app a b : rev_string (a +:+ b) = rev_string b +:+ rev_string a.
Proof.
  unfold rev_string. induction a as [|c a IH]; simpl; [by rewrite app_nil_r_s|].
  rewrite rev_string_onto_app, IH, (rev_string_onto_app a (String c "")). by rewrite app_assoc_s.
Qed.

Lemma rev_string_involutive s : rev_string (rev_string s) = s.
Proof.
  induction s as [|c s IH]; [done|]. change (String c s) with (String c "" +:+ s) at 1.
  by rewrite !rev_string_app, IH.
Qed.

Lemma length_rev_string s : String.length (rev_string s) = String.length s.
Proof.
  induction s as [|c s IH]; [done|]. change (String c s) with (String c "" +:+ s) at 1.
  rewrite rev_string_app, length_app_s, IH. simpl. lia.
Qed.

Definition untrimmed (runes : list string) (s : string) : Prop := List.find (HasPrefix s) runes = None.

Lemma trim_front_id runes fuel s : untrimmed runes s → trim_front runes fuel s = s.
Proof. unfold untrimmed. intros Hs. destruct fuel; simpl; [done|]. by rewrite Hs. Qed.

Lemma trim_front_suffix runes fuel s : ∃ pre, s = pre +:+ trim_front runes fuel s.
Proof.
  revert s. induction fuel as [|f IH]; intros s; simpl; [by exists ""|].
  destruct (List.find _ _) as [r|] eqn:Er; [|by exists ""].
  apply List.find_some in Er as [_ [t ->]%HasPrefix_spec]. rewrite skip_app.
  destruct (IH t) as [pre E]. exists (r +:+ pre). by rewrite app_assoc_s, <- E.
Qed.

Lemma trim_front_done runes fuel s :
  (∀ r, r ∈ runes → r ≠ "") → (String.length s <= fuel)%nat → untrimmed runes (trim_front runes fuel s).
Proof.
  intros Hr. revert s. induction fuel as [|f IH]; intros s Hs; simpl.
  - destruct s; [|simpl in Hs; lia]. unfold untrimmed. destruct (List.find _ _) as [r|] eqn:Er; [|done].
    apply List.find_some in Er as [Hin Hp]. apply list_elem_of_In, Hr in Hin. by destruct r.
  - destruct (List.find _ _) as [r|] eqn:Er; [|done]. apply IH.
    apply List.find_some in Er as [Hin [t ->]%HasPrefix_spec]. rewrite skip_app.
    apply list_elem_of_In, Hr in Hin. rewrite length_app_s in Hs. destruct r; [done|]. simpl in Hs. lia.
Qed.

(** A prefix of a string without a leading rune of [runes] has none either. *)
Lemma untrimmed_prefix runes a b : untrimmed runes (a +:+ b) → untrimmed runes a.
Proof.
  unfold untrimmed. intros Hab. destruct (List.find (HasPrefix a) runes) as [r|] eqn:Er; [|done].
  apply List.find_some in Er as [Hin [t ->]%HasPrefix_spec].
  apply (List.find_none _ _ Hab) in Hin. rewrite app_assoc_s, HasPrefix_app in Hin. done.
Qed.

Lemma space_runes_nonempty r : r ∈ space_runes → r ≠ "".
Proof.
  assert (Hall : Forall (λ r, r ≠ "") space_runes) by (repeat constructor; done).
  rewrite Forall_forall in Hall. apply Hall.
Qed.

Lemma TrimSpace_trimmed s :
  untrimmed space_runes (TrimSpace s) ∧ untrimmed (List.map rev_string space_runes) (rev_string (TrimSpace s)).
Proof.
  unfold TrimSpace. set (left := trim_front space_runes (String.length s) s).
  set (right := trim_front (List.map rev_string space_runes) (String.length left) (rev_string left)).
  rewrite rev_string_involutive. split.
  - destruct (trim_front_suffix (List.map rev_string space_runes) (String.length left) (rev_string left))
      as [pre E]. fold right in E.
    apply (untrimmed_prefix _ _ (rev_string pre)). rewrite <- rev_string_app, <- E, rev_string_involutive.
    apply trim_front_done; [apply space_runes_nonempty|done].
  - apply trim_front_done; [|by rewrite length_rev_string].
    intros r (x & -> & Hx)%list_elem_of_fmap Hr. apply space_runes_nonempty in Hx. apply Hx.
    by rewrite <- (rev_string_involutive x), Hr.
Qed.

Lemma TrimSpace_idempotent s : TrimSpace (TrimSpace s) = TrimSpace s.
Proof.
  destruct (TrimSpace_trimmed s) as [Hl Hr]. unfold TrimSpace at 1.
  rewrite (trim_front_id _ _ _ Hl), (trim_front_id _ _ _ Hr). apply rev_string_involutive.
Qed.

(** ** Split and Cut *)

Lemma Split_none s sep : has_byte sep s = false → Split s sep = [s].
Proof.
  induction s as [|c s IH]; [done|]. simpl. rewrite orb_false_iff, Ascii.eqb_sym. intros [-> Hs].
  by rewrite IH.
Qed.

Lemma Split_app a b sep :
  has_byte sep a = false → Split (a +:+ String sep b) sep = a :: Split b sep.
Proof.
  induction a as [|c a IH]; simpl; [by rewrite Ascii.eqb_refl|].
  rewrite orb_false_iff, (Ascii.eqb_sym sep c). intros [-> Ha]. by rewrite IH.
Qed.

(** Three segments without the separator, joined by it. *)
Lemma Split_three a b c sep s :
  has_byte sep a = false → has_byte sep b = false → has_byte sep c = false →
  s = a +:+ String sep (b +:+ String sep c) → Split s sep = [a; b; c].
Proof. intros Ha Hb Hc ->. by rewrite !Split_app, Split_none. Qed.

Lemma Cut_spec s sep a b :
  Cut s sep = Some (a, b) → s = a +:+ String sep b ∧ has_byte sep a = false.
Proof.
  revert a b. induction s as [|c s IH]; intros a b; [done|]. simpl.
  destruct (Ascii.eqb_spec c sep) as [->|Hc]; [by intros [= <- <-]|].
  destruct (Cut s sep) as [[x y]|]; [|done]. intros [= <- <-].
  destruct (IH x y eq_refl) as [-> Hx]. split; [done|]. simpl. rewrite Hx.
  apply orb_false_iff. split; [|done]. by apply Ascii.eqb_neq.
Qed.

Lemma Cut_app a b sep : has_byte sep a = false → Cut (a +:+ String sep b) sep = Some (a, b).
Proof.
  induction a as [|c a IH]; simpl; [by rewrite Ascii.eqb_refl|].
  rewrite orb_false_iff, Ascii.eqb_sym. intros [-> Ha]. by rewrite IH.
Qed.

Fixpoint joined (sep : ascii) (l : list string) : string :=
  match l with
  | [] => ""
  | [x] => x
  | x :: l' => x +:+ String sep (joined sep l')
  end.

Lemma joined_Split s sep : joined sep (Split s sep) = s.
Proof.
  induction s as [|c s IH]; [done|]. simpl.
  assert (Hne : Split s sep ≠ []) by (destruct s; simpl; [done|]; repeat case_match; done).
  destruct (Ascii.eqb_spec c sep) as [->|_].
  - destruct (Split s sep); [done|]. simpl. by rewrite <- IH.
  - destruct (Split s sep) as [|x [|y l]]; [done|simpl in *; congruence|]. simpl in *. by rewrite <- IH.
Qed.

Lemma Split_three_inv s sep a b c : Split s sep = [a; b; c] → s = a +:+ String sep (b +:+ String sep c).
Proof. intros E. rewrite <- (joined_Split s sep), E. done. Qed.

(** ** context

    A context that is never cancelled, or that is cancelled after [n] more polls of [ctx.Err]:
    the caller decides when, so every statement quantifies over it. *)
Inductive cancellation : Type := Canceled | DeadlineExceeded.
Definition ctx_error (c : cancellation) : error :=
  match c with Canceled => ErrCanceled | DeadlineExceeded => ErrDeadlineExceeded end.
Definition context : Type := option (nat * cancellation).
Definition background : context := None.
(** [ctx.Err()]: the context after the poll, or its error. *)
Definition poll (ctx : context) : result context :=
  match ctx with
  | None => Ok None
  | Some (O, c) => Err (ctx_error c)
  | Some (S n, c) => Ok (Some (n, c))
  end.
Definition is_ctx_error (e : error) : bool := errors_Is e ErrCanceled || errors_Is e ErrDeadlineExceeded.

Lemma poll_error ctx e : poll ctx = Err e → e = ErrCanceled ∨ e = ErrDeadlineExceeded.
Proof. destruct ctx as [[[|n] []]|]; simpl; intros [= <-]; auto. Qed.
