(* ===== verification/Syntax.v ===== *)
(** * AT Protocol identifiers

    The parsers of github.com/bluesky-social/indigo/atproto/syntax are not part of this
    repository: they are the operations of the class [Syntax], arguments of every definition
    that calls them.  [SyntaxLaws] states what the code relies on, which is their documented
    behaviour: a parsed DID is the text that was parsed and uses only the characters of the
    DID grammar (so neither NUL nor "/"), record keys and NSIDs use only theirs.  [reference_syntax] is a concrete instance, the
    grammars of the AT Protocol specification, used to run the model on examples. *)
From S2P Require Import Prelude Sha256 GoStd.

Class Syntax : Type := {
  (** [syntax.ParseDID(s)], as the text of the parsed identifier. *)
  ParseDID : string → option string;
  ParseNSID : string → bool;
  ParseRecordKey : string → bool;
  ParseTID : string → bool;
}.

Definition in_class (extra : string) (c : ascii) : bool :=
  in_range 48 57 c || in_range 65 90 c || in_range 97 122 c || has_byte c extra.
Definition did_char : ascii → bool := in_class "._:%-".

Class SyntaxLaws `{Syntax} : Prop := {
  ParseDID_text s d : ParseDID s = Some d → d = s;
  ParseDID_chars s d : ParseDID s = Some d → all_bytes did_char s = true;
  ParseRecordKey_chars s : ParseRecordKey s = true → all_bytes (in_class "_~.:-") s = true;
  ParseNSID_chars s : ParseNSID s = true → all_bytes (in_class ".-") s = true;
  ParseTID_length s : ParseTID s = true → len s = 13;
}.

(** ** The grammars of the specification *)

Definition is_some {A} (o : option A) : bool := match o with Some _ => true | None => false end.

Definition reference_did (s : string) : bool :=
  HasPrefix s "did:" && all_bytes did_char s && (len s <=? 2048) &&
  match Cut (TrimPrefix s "did:") ":" with
  | Some (method, id) =>
      negb (String.eqb method "") && all_bytes (in_range 97 122) method && negb (String.eqb id "")
  | None => false
  end.

Definition reference_label (s : string) : bool :=
  negb (String.eqb s "") && (len s <=? 63) && all_bytes (in_class "-") s.

#[export] Instance reference_syntax : Syntax := {
  ParseDID s := if reference_did s then Some s else None;
  ParseNSID s := (len s <=? 317) && (3 <=? llen (Split s ".")) && forallb reference_label (Split s ".");
  ParseRecordKey s :=
    negb (String.eqb s "" || String.eqb s "." || String.eqb s "..") && (len s <=? 512) &&
    all_bytes (in_class "_~.:-") s;
  ParseTID s := (len s =? 13) && all_bytes (λ c, in_range 50 55 c || in_range 97 122 c) s;
}.

Lemma Split_all_bytes p sep s :
  forallb (all_bytes p) (Split s sep) = true → all_bytes (λ c, p c || Ascii.eqb c sep) s = true.
Proof.
  induction s as [|c s IH]; [done|]. simpl. destruct (Ascii.eqb c sep); simpl.
  - rewrite orb_true_r. apply IH.
  - destruct (Split s sep) as [|x l]; simpl in *; intros Hs; bools;
      match goal with E : p c = true |- _ => rewrite E end; [by apply IH|].
    simpl. apply IH. apply andb_true_iff. done.
Qed.

#[export] Instance reference_syntax_laws : SyntaxLaws.
Proof.
  split; simpl.
  - intros s d. case_match; congruence.
  - intros s d. unfold reference_did. case_match; [|done]. bools. done.
  - intros s H. bools. done.
  - intros s H. bools.
    apply (all_bytes_impl (λ c, in_class "-" c || Ascii.eqb c ".")).
    { intros c. each_byte c. }
    apply Split_all_bytes. apply forallb_forall. intros x Hx.
    match goal with E : forallb reference_label _ = true |- _ => rewrite forallb_forall in E; specialize (E x Hx) end.
    unfold reference_label in *. by bools.
  - intros s H. bools. done.
Qed.

Lemma all_bytes_has_byte p c s : all_bytes p s = true → p c = false → has_byte c s = false.
Proof.
  intros Hs Hc. induction s as [|d s IH]; [done|]. simpl in *. bools.
  apply orb_false_iff. split; [|auto]. apply Ascii.eqb_neq. congruence.
Qed.

Lemma ParseDID_no_nul `{SyntaxLaws} s d : ParseDID s = Some d → no_nul s.
Proof. intros Hd%ParseDID_chars. by eapply all_bytes_has_byte. Qed.
