(* ===== verification/Unicode.v ===== *)
(** * Runes and simple case folding

    Ranging over a Go string decodes it to runes, [strings.Builder.WriteRune] encodes them
    again, and [unicode.SimpleFold] walks the orbit of a rune under Unicode's simple case
    folding.  The orbits are Unicode's data, which Go carries as generated tables: they are the
    operation of the class [CaseOrbits], and [CaseOrbitsLaws] is what makes them orbits. *)
From S2P Require Import Prelude Sha256 GoStd.

(** ** Decoding and encoding *)

Definition RuneError : N := 0xFFFD.

Definition low6 (c : ascii) : N := N_of_ascii c - 0x80.

(** [utf8.DecodeRuneInString] on the string [c0 s1]: the rune, and how many bytes after [c0] it
    takes.  An invalid sequence is [RuneError] with a width of one byte. *)
Definition decode_rune (c0 : ascii) (s1 : string) : N * nat :=
  let n0 := N_of_ascii c0 in
  if n0 <? 0x80 then (n0, 0%nat)
  else match s1 with
  | String c1 s2 =>
      if in_range 0xC2 0xDF c0 then
        if continuation c1 then ((n0 - 0xC0) * 64 + low6 c1, 1%nat) else (RuneError, 0%nat)
      else match s2 with
      | String c2 s3 =>
          if in_range 0xE0 0xEF c0 then
            if second_of_three c0 c1 && continuation c2
            then ((n0 - 0xE0) * 4096 + low6 c1 * 64 + low6 c2, 2%nat) else (RuneError, 0%nat)
          else match s3 with
          | String c3 _ =>
              if in_range 0xF0 0xF4 c0 && second_of_four c0 c1 && continuation c2 && continuation c3
              then ((n0 - 0xF0) * 262144 + low6 c1 * 4096 + low6 c2 * 64 + low6 c3, 3%nat)
              else (RuneError, 0%nat)
          | EmptyString => (RuneError, 0%nat)
          end
      | EmptyString => (RuneError, 0%nat)
      end
  | EmptyString => (RuneError, 0%nat)
  end.

(** [for _, current := range s]: one unit of [fuel] per rune, and a rune takes a byte. *)
Fixpoint runes_fuel (fuel : nat) (s : string) : list N :=
  match fuel, s with
  | S fuel', String c0 s1 =>
      let '(r, w) := decode_rune c0 s1 in r :: runes_fuel fuel' (skip w s1)
  | _, _ => []
  end.
Definition runes (s : string) : list N := runes_fuel (String.length s) s.

Lemma length_skip n s : (String.length (skip n s) <= String.length s)%nat.
Proof. revert s. induction n as [|n IH]; intros [|c s]; simpl; try lia. specialize (IH s). lia. Qed.

(** The fuel of [runes] is enough. *)
Lemma runes_fuel_enough f1 f2 s :
  (String.length s <= f1)%nat → (String.length s <= f2)%nat → runes_fuel f1 s = runes_fuel f2 s.
Proof.
  revert f2 s. induction f1 as [|f1 IH]; intros [|f2] [|c s] H1 H2; simpl in *; try done; try lia.
  destruct (decode_rune c s) as [r w]. f_equal. pose proof (length_skip w s). apply IH; lia.
Qed.

Lemma runes_cons w c s r t :
  decode_rune c s = (r, w) → skip w s = t → runes (String c s) = r :: runes t.
Proof.
  intros E <-. unfold runes at 1. simpl. rewrite E. f_equal.
  pose proof (length_skip w s). apply runes_fuel_enough; lia.
Qed.

(** The Unicode scalar values: no surrogates, nothing above [MaxRune]. *)
Definition scalar (r : N) : bool := (r <? 0xD800) || (0xE000 <=? r) && (r <? 0x110000).

(** [utf8.AppendRune]. *)
Definition encode_rune (r : N) : string :=
  if r <? 0x80 then byte r
  else if r <? 0x800 then byte (0xC0 + r / 64) +:+ byte (0x80 + r mod 64)
  else if negb (scalar r) then byte 0xEF +:+ byte 0xBF +:+ byte 0xBD
  else if r <? 0x10000 then
    byte (0xE0 + r / 4096) +:+ byte (0x80 + r / 64 mod 64) +:+ byte (0x80 + r mod 64)
  else byte (0xF0 + r / 262144) +:+ byte (0x80 + r / 4096 mod 64) +:+
       byte (0x80 + r / 64 mod 64) +:+ byte (0x80 + r mod 64).

Fixpoint encode_runes (l : list N) : string :=
  match l with [] => "" | r :: l' => encode_rune r +:+ encode_runes l' end.

Example runes_ascii : runes "Inbox" = [73; 110; 98; 111; 120].
Proof. vm_compute. reflexivity. Qed.
Example runes_kelvin : runes (encode_rune 0x212A +:+ encode_rune 0x1F600) = [0x212A; 0x1F600].
Proof. vm_compute. reflexivity. Qed.
Example runes_invalid : runes (byte 0xE2 +:+ byte 0x84) = [RuneError; RuneError].
Proof. vm_compute. reflexivity. Qed.

Lemma N_of_byte n : n < 256 → N_of_ascii (ascii_of_N n) = n.
Proof. intros. by apply N_ascii_embedding. Qed.

Lemma in_range_byte lo hi n : n < 256 → in_range lo hi (ascii_of_N n) = (lo <=? n) && (n <=? hi).
Proof. intros. unfold in_range. by rewrite !N_of_byte. Qed.

Lemma byte_app n s : byte n +:+ s = String (ascii_of_N n) s.
Proof. done. Qed.

(** Decides the comparisons of a decoding step. *)
Ltac decide_tests :=
  repeat match goal with
  | |- context [N.ltb ?x ?y] =>
      first [rewrite (proj2 (N.ltb_lt x y)) by lia | rewrite (proj2 (N.ltb_ge x y)) by lia
            |destruct (N.ltb_spec x y)]
  | |- context [N.leb ?x ?y] =>
      first [rewrite (proj2 (N.leb_le x y)) by lia | rewrite (proj2 (N.leb_gt x y)) by lia
            |destruct (N.leb_spec x y)]
  | |- context [N.eqb ?x ?y] =>
      first [rewrite (proj2 (N.eqb_eq x y)) by lia | rewrite (proj2 (N.eqb_neq x y)) by lia
            |destruct (N.eqb_spec x y)]
  end; simpl andb; cbv iota; cbn [andb].

(** [x] starts with the complete encoding of [r], and [t] is what follows it. *)
Definition decodes (x : string) (r : N) (t : string) : Prop :=
  ∃ c tl w, x = String c tl ∧ decode_rune c tl = (r, w) ∧ skip w tl = t ∧
    (0x80 ≤ r → 0x80 ≤ N_of_ascii c).

Lemma decodes_intro w c tl r t :
  decode_rune c tl = (r, w) → skip w tl = t → (0x80 ≤ r → 0x80 ≤ N_of_ascii c) →
  decodes (String c tl) r t.
Proof. intros. by exists c, tl, w. Qed.

Lemma decodes_runes x r t : decodes x r t → runes x = r :: runes t.
Proof. intros (c & tl & w & -> & Hd & Ht & _). by eapply runes_cons. Qed.

Lemma lead_byte base a : base + a < 256 → N_of_ascii (ascii_of_N (base + a)) = base + a.
Proof. intros. by apply N_of_byte. Qed.

Lemma continuation_byte b : b < 64 → continuation (ascii_of_N (0x80 + b)) = true.
Proof. intros. unfold continuation. rewrite in_range_byte by lia. by decide_tests. Qed.

Lemma low6_byte b : b < 64 → low6 (ascii_of_N (0x80 + b)) = b.
Proof. intros. unfold low6. rewrite N_of_byte; lia. Qed.

Lemma second_of_three_byte a b :
  a < 16 → b < 64 → (a = 0 → 32 ≤ b) → (a = 13 → b < 32) →
  second_of_three (ascii_of_N (0xE0 + a)) (ascii_of_N (0x80 + b)) = true.
Proof.
  intros. unfold second_of_three. rewrite continuation_byte, !in_range_byte, lead_byte by lia.
  decide_tests; done || lia.
Qed.

Lemma second_of_four_byte a b :
  a < 5 → b < 64 → (a = 0 → 16 ≤ b) → (a = 4 → b < 16) →
  second_of_four (ascii_of_N (0xF0 + a)) (ascii_of_N (0x80 + b)) = true.
Proof.
  intros. unfold second_of_four. rewrite continuation_byte, !in_range_byte, lead_byte by lia.
  decide_tests; done || lia.
Qed.

Lemma decodes_one a s : a < 0x80 → decodes (byte a +:+ s) a s.
Proof.
  intros Ha. rewrite byte_app. apply (decodes_intro 0); [|done|lia].
  unfold decode_rune. rewrite N_of_byte by lia. by decide_tests.
Qed.

Lemma decodes_two a b s :
  2 ≤ a < 32 → b < 64 →
  decodes (byte (0xC0 + a) +:+ byte (0x80 + b) +:+ s) (a * 64 + b) s.
Proof.
  intros Ha Hb. rewrite !byte_app. apply (decodes_intro 1); [|done|rewrite lead_byte; lia].
  unfold decode_rune.
  rewrite in_range_byte, lead_byte, continuation_byte, low6_byte by lia.
  decide_tests. f_equal. lia.
Qed.

Lemma decodes_three a b c s :
  a < 16 → b < 64 → c < 64 → (a = 0 → 32 ≤ b) → (a = 13 → b < 32) →
  decodes (byte (0xE0 + a) +:+ byte (0x80 + b) +:+ byte (0x80 + c) +:+ s)
    (a * 4096 + b * 64 + c) s.
Proof.
  intros Ha Hb Hc Hlow Hsur. rewrite !byte_app. apply (decodes_intro 2); [|done|rewrite lead_byte; lia].
  unfold decode_rune.
  rewrite second_of_three_byte, !continuation_byte, !low6_byte by done.
  rewrite !in_range_byte, lead_byte by lia. clear Hlow Hsur. decide_tests. f_equal. lia.
Qed.

Lemma decodes_four a b c d s :
  a < 5 → b < 64 → c < 64 → d < 64 → (a = 0 → 16 ≤ b) → (a = 4 → b < 16) →
  decodes (byte (0xF0 + a) +:+ byte (0x80 + b) +:+ byte (0x80 + c) +:+ byte (0x80 + d) +:+ s)
    (a * 262144 + b * 4096 + c * 64 + d) s.
Proof.
  intros Ha Hb Hc Hd Hlow Hhigh. rewrite !byte_app. apply (decodes_intro 3); [|done|rewrite lead_byte; lia].
  unfold decode_rune.
  rewrite second_of_four_byte, !continuation_byte, !low6_byte by done.
  rewrite !in_range_byte, lead_byte by lia. clear Hlow Hhigh. decide_tests. f_equal. lia.
Qed.

(** Decoding undoes encoding. *)
Lemma decodes_encode r s : scalar r = true → decodes (encode_rune r +:+ s) r s.
Proof.
  intros Hs. unfold encode_rune. rewrite Hs. simpl negb.
  destruct (N.ltb_spec r 0x80); [by apply decodes_one|].
  destruct (N.ltb_spec r 0x800).
  { assert (E : r / 64 * 64 + r mod 64 = r) by dlia.
    rewrite app_assoc_s. rewrite <- E at 3. apply decodes_two; dlia. }
  assert (r < 0x110000).
  { unfold scalar in Hs. rewrite orb_true_iff, andb_true_iff, !N.ltb_lt in Hs. lia. }
  destruct (N.ltb_spec r 0x10000).
  - assert (E : r / 4096 * 4096 + r / 64 mod 64 * 64 + r mod 64 = r) by dlia.
    assert (Hsur : r / 4096 = 13 → r / 64 mod 64 < 32).
    { unfold scalar in Hs. rewrite orb_true_iff, andb_true_iff, !N.ltb_lt, N.leb_le in Hs. dlia. }
    rewrite !app_assoc_s. rewrite <- E at 4. apply decodes_three; try done; dlia.
  - assert (E : r / 262144 * 262144 + r / 4096 mod 64 * 4096 + r / 64 mod 64 * 64 + r mod 64 = r)
      by dlia.
    rewrite !app_assoc_s. rewrite <- E at 5. apply decodes_four; dlia.
Qed.

Lemma runes_encode r s : scalar r = true → runes (encode_rune r +:+ s) = r :: runes s.
Proof. intros Hr. by apply decodes_runes, decodes_encode. Qed.

Lemma runes_encode_runes l : Forall (λ r, scalar r = true) l → runes (encode_runes l) = l.
Proof.
  induction 1 as [|r l Hr _ IH]; [done|]. simpl. by rewrite runes_encode, IH.
Qed.

Lemma encode_runes_inj l k :
  Forall (λ r, scalar r = true) l → Forall (λ r, scalar r = true) k →
  encode_runes l = encode_runes k → l = k.
Proof. intros Hl Hk E. by rewrite <- (runes_encode_runes l), E, runes_encode_runes. Qed.

(** What one step of decoding yields. *)
Lemma decode_rune_scalar c s r w : decode_rune c s = (r, w) → scalar r = true.
Proof.
  intros E. assert (Hr : fst (decode_rune c s) = r) by (by rewrite E). rewrite <- Hr. clear.
  unfold decode_rune, second_of_three, second_of_four, continuation, in_range, low6, scalar.
  repeat case_match; bools; simpl fst; try done;
    rewrite orb_true_iff, andb_true_iff, !N.ltb_lt, N.leb_le; lia.
Qed.

Lemma decode_rune_ascii c s : N_of_ascii c < 0x80 → decode_rune c s = (N_of_ascii c, 0%nat).
Proof. intros Hc. unfold decode_rune. by rewrite (proj2 (N.ltb_lt _ _) Hc). Qed.

Lemma decode_rune_high c s r w : decode_rune c s = (r, w) → 0x80 ≤ N_of_ascii c → 0x80 ≤ r.
Proof.
  intros E Hc. assert (Hr : fst (decode_rune c s) = r) by (by rewrite E). rewrite <- Hr. clear E Hr.
  unfold decode_rune, second_of_three, second_of_four, continuation, in_range, low6, RuneError.
  rewrite (proj2 (N.ltb_ge _ _) Hc). repeat case_match; bools; simpl fst; lia.
Qed.

Lemma runes_scalar s : Forall (λ r, scalar r = true) (runes s).
Proof.
  unfold runes. generalize (String.length s) as f. intros f. revert s.
  induction f as [|f IH]; intros [|c s]; simpl; try constructor.
  destruct (decode_rune c s) as [r w] eqn:E. constructor; [by eapply decode_rune_scalar|apply IH].
Qed.

(** ** Valid UTF-8 is unchanged *)

Lemma byte_of c n : n = N_of_ascii c → byte n = String c "".
Proof. intros ->. unfold byte. by rewrite ascii_N_embedding. Qed.

Lemma continuation_spec c : continuation c = true → 0x80 ≤ N_of_ascii c ≤ 0xBF.
Proof. unfold continuation, in_range. intros. bools. lia. Qed.

Lemma second_of_three_spec c d :
  second_of_three c d = true → 0x80 ≤ N_of_ascii d ≤ 0xBF ∧
  (N_of_ascii c = 0xE0 → 0xA0 ≤ N_of_ascii d) ∧ (N_of_ascii c = 0xED → N_of_ascii d ≤ 0x9F).
Proof. unfold second_of_three, continuation, in_range. repeat case_match; intros; bools; lia. Qed.

Lemma second_of_four_spec c d :
  second_of_four c d = true → 0x80 ≤ N_of_ascii d ≤ 0xBF ∧
  (N_of_ascii c = 0xF0 → 0x90 ≤ N_of_ascii d) ∧ (N_of_ascii c = 0xF4 → N_of_ascii d ≤ 0x8F).
Proof. unfold second_of_four, continuation, in_range. repeat case_match; intros; bools; lia. Qed.

Lemma scalar_spec r : scalar r = true ↔ r < 0xD800 ∨ 0xE000 ≤ r < 0x110000.
Proof. unfold scalar. rewrite orb_true_iff, andb_true_iff, !N.ltb_lt, N.leb_le. tauto. Qed.

Lemma encode_three r : 0x800 ≤ r < 0x10000 → scalar r = true → encode_rune r =
  byte (0xE0 + r / 4096) +:+ byte (0x80 + r / 64 mod 64) +:+ byte (0x80 + r mod 64).
Proof.
  intros Hr Hs. unfold encode_rune. rewrite Hs. simpl negb. cbv iota.
  rewrite (proj2 (N.ltb_ge _ 0x80)), (proj2 (N.ltb_ge _ 0x800)), (proj2 (N.ltb_lt _ 0x10000)) by lia. done.
Qed.

Lemma encode_four r : 0x10000 ≤ r < 0x110000 → encode_rune r =
  byte (0xF0 + r / 262144) +:+ byte (0x80 + r / 4096 mod 64) +:+
  byte (0x80 + r / 64 mod 64) +:+ byte (0x80 + r mod 64).
Proof.
  intros Hr. unfold encode_rune. rewrite (proj2 (scalar_spec r)) by lia. simpl negb. cbv iota.
  rewrite (proj2 (N.ltb_ge _ 0x80)), (proj2 (N.ltb_ge _ 0x800)), (proj2 (N.ltb_ge _ 0x10000)) by lia. done.
Qed.

(** The first rune of a valid string re-encodes to the bytes it was read from. *)
Definition faithful_step (c : ascii) (s : string) : Prop :=
  ∃ r w, decode_rune c s = (r, w) ∧ String c s = encode_rune r +:+ skip w s ∧
    utf8_valid (skip w s) = true.

Lemma valid_two c c1 s :
  in_range 0xC2 0xDF c = true → continuation c1 = true → utf8_valid s = true →
  faithful_step c (String c1 s).
Proof.
  intros H0 H1 Hv. pose proof (continuation_spec _ H1) as B1. unfold in_range in H0. bools.
  exists ((N_of_ascii c - 0xC0) * 64 + low6 c1), 1%nat. unfold decode_rune, in_range, low6. rewrite H1.
  rewrite (proj2 (N.ltb_ge _ _)), !(proj2 (N.leb_le _ _)) by lia. split_and!; [done| |done].
  unfold encode_rune. rewrite (proj2 (N.ltb_ge _ _)), (proj2 (N.ltb_lt _ _)) by lia.
  rewrite (byte_of c), (byte_of c1) by dlia. done.
Qed.

Lemma valid_three c c1 c2 s :
  in_range 0xE0 0xEF c = true → second_of_three c c1 = true → continuation c2 = true →
  utf8_valid s = true → faithful_step c (String c1 (String c2 s)).
Proof.
  intros H0 H1 H2 Hv. pose proof (second_of_three_spec _ _ H1) as (B1 & Blow & Bsur).
  pose proof (continuation_spec _ H2) as B2.
  exists ((N_of_ascii c - 0xE0) * 4096 + low6 c1 * 64 + low6 c2), 2%nat.
  unfold decode_rune. rewrite H0, H1, H2. unfold in_range in *. bools.
  rewrite (proj2 (N.ltb_ge _ 0x80)), (proj2 (N.leb_gt _ 0xDF)), andb_false_r by lia.
  split_and!; [done| |done]. unfold low6. rewrite encode_three; [|lia|apply scalar_spec; lia].
  clear Blow Bsur. rewrite (byte_of c), (byte_of c1), (byte_of c2) by dlia. done.
Qed.

Lemma valid_four c c1 c2 c3 s :
  in_range 0xF0 0xF4 c = true → second_of_four c c1 = true → continuation c2 = true →
  continuation c3 = true → utf8_valid s = true →
  faithful_step c (String c1 (String c2 (String c3 s))).
Proof.
  intros H0 H1 H2 H3 Hv. pose proof (second_of_four_spec _ _ H1) as (B1 & Blow & Bhigh).
  pose proof (continuation_spec _ H2) as B2. pose proof (continuation_spec _ H3) as B3.
  exists ((N_of_ascii c - 0xF0) * 262144 + low6 c1 * 4096 + low6 c2 * 64 + low6 c3), 3%nat.
  unfold decode_rune. rewrite H0, H1, H2, H3. unfold in_range in *. bools.
  rewrite (proj2 (N.ltb_ge _ 0x80)), (proj2 (N.leb_gt _ 0xDF)), (proj2 (N.leb_gt _ 0xEF)), !andb_false_r by lia.
  split_and!; [done| |done]. unfold low6. rewrite encode_four by lia.
  clear Blow Bhigh. rewrite (byte_of c), (byte_of c1), (byte_of c2), (byte_of c3) by dlia. done.
Qed.

Lemma valid_step c s : utf8_valid (String c s) = true → faithful_step c s.
Proof.
  cbn [utf8_valid]. destruct (N.ltb_spec (N_of_ascii c) 0x80) as [Hc|Hc].
  { intros Hv. exists (N_of_ascii c), 0%nat. rewrite decode_rune_ascii by done.
    split_and!; [done| |done]. unfold encode_rune. rewrite (proj2 (N.ltb_lt _ _) Hc).
    by rewrite (byte_of c). }
  destruct s as [|c1 s2]; [done|].
  destruct (in_range 0xC2 0xDF c) eqn:E2; [intros Hv; bools; by apply valid_two|].
  destruct s2 as [|c2 s3]; [done|].
  destruct (in_range 0xE0 0xEF c) eqn:E3; [intros Hv; bools; by apply valid_three|].
  destruct s3 as [|c3 s4]; [done|]. intros Hv. bools. by apply valid_four.
Qed.

Lemma encode_runes_valid s : utf8_valid s = true → encode_runes (runes s) = s.
Proof.
  remember (String.length s) as n eqn:En. revert s En.
  induction n as [n IH] using (well_founded_induction lt_wf). intros [|c s] -> Hv; [done|].
  destruct (valid_step c s Hv) as (r & w & Hd & E & Hv').
  rewrite (runes_cons w c s r (skip w s) Hd eq_refl), E. simpl. f_equal.
  apply (IH (String.length (skip w s))); [|done|done]. simpl. pose proof (length_skip w s). lia.
Qed.

(** What is encoded is valid. *)
Lemma utf8_valid_cons c0 s1 :
  utf8_valid (String c0 s1) =
  if N_of_ascii c0 <? 0x80 then utf8_valid s1
  else match s1 with
  | EmptyString => false
  | String c1 s2 =>
      if in_range 0xC2 0xDF c0 then continuation c1 && utf8_valid s2
      else match s2 with
      | EmptyString => false
      | String c2 s3 =>
          if in_range 0xE0 0xEF c0 then second_of_three c0 c1 && continuation c2 && utf8_valid s3
          else match s3 with
          | EmptyString => false
          | String c3 s4 => in_range 0xF0 0xF4 c0 && second_of_four c0 c1 && continuation c2 &&
                            continuation c3 && utf8_valid s4
          end
      end
  end.
Proof. done. Qed.

Lemma valid_byte1 a s : a < 0x80 → utf8_valid (byte a +:+ s) = utf8_valid s.
Proof. intros Ha. rewrite byte_app. rewrite utf8_valid_cons. rewrite N_of_byte by lia. by decide_tests. Qed.

Lemma valid_byte2 a b s :
  2 ≤ a < 32 → b < 64 → utf8_valid (byte (0xC0 + a) +:+ byte (0x80 + b) +:+ s) = utf8_valid s.
Proof.
  intros Ha Hb. rewrite !byte_app. rewrite utf8_valid_cons.
  rewrite in_range_byte, lead_byte, continuation_byte by lia. by decide_tests.
Qed.

Lemma valid_byte3 a b c s :
  a < 16 → b < 64 → c < 64 → (a = 0 → 32 ≤ b) → (a = 13 → b < 32) →
  utf8_valid (byte (0xE0 + a) +:+ byte (0x80 + b) +:+ byte (0x80 + c) +:+ s) = utf8_valid s.
Proof.
  intros Ha Hb Hc Hlow Hsur. rewrite !byte_app. rewrite utf8_valid_cons.
  rewrite second_of_three_byte, !continuation_byte by done.
  rewrite !in_range_byte, lead_byte by lia. clear Hlow Hsur. by decide_tests.
Qed.

Lemma valid_byte4 a b c d s :
  a < 5 → b < 64 → c < 64 → d < 64 → (a = 0 → 16 ≤ b) → (a = 4 → b < 16) →
  utf8_valid (byte (0xF0 + a) +:+ byte (0x80 + b) +:+ byte (0x80 + c) +:+ byte (0x80 + d) +:+ s) =
  utf8_valid s.
Proof.
  intros Ha Hb Hc Hd Hlow Hhigh. rewrite !byte_app. rewrite utf8_valid_cons.
  rewrite second_of_four_byte, !continuation_byte by done.
  rewrite !in_range_byte, lead_byte by lia. clear Hlow Hhigh. by decide_tests.
Qed.

Lemma utf8_encode_rune r s : utf8_valid (encode_rune r +:+ s) = utf8_valid s.
Proof.
  unfold encode_rune. destruct (N.ltb_spec r 0x80); [by apply valid_byte1|].
  destruct (N.ltb_spec r 0x800); [rewrite app_assoc_s; apply valid_byte2; dlia|].
  destruct (scalar r) eqn:Hs; simpl negb; cbv iota; [|done].
  assert (r < 0x110000).
  { unfold scalar in Hs. rewrite orb_true_iff, andb_true_iff, !N.ltb_lt in Hs. lia. }
  destruct (N.ltb_spec r 0x10000); rewrite !app_assoc_s; [|apply valid_byte4; dlia].
  apply valid_byte3; try dlia.
  unfold scalar in Hs. rewrite orb_true_iff, andb_true_iff, !N.ltb_lt, N.leb_le in Hs. dlia.
Qed.

(** ** unicode.SimpleFold *)

(** [orbit r]: the runes equivalent to [r] under simple case folding, in increasing order. *)
Class CaseOrbits : Type := { orbit : N → list N }.

Class CaseOrbitsLaws `{CaseOrbits} : Prop := {
  orbit_self r : r ∈ orbit r;
  orbit_same r c : c ∈ orbit r → orbit c = orbit r;
  orbit_sorted r : StronglySorted N.lt (orbit r);
  orbit_scalar r : scalar r = true → Forall (λ c, scalar c = true) (orbit r)
}.

Section fold.
Context `{CaseOrbits}.

(** The next rune of the orbit, or its smallest one. *)
Definition SimpleFold (r : N) : N :=
  match filter (λ c, r < c) (orbit r) with
  | c :: _ => c
  | [] => default r (head (orbit r))
  end.

(** The smallest rune of the orbit, which is what folding a name replaces a rune by. *)
Definition orbit_min (r : N) : N := default r (head (orbit r)).

Context `{!CaseOrbitsLaws}.

Lemma orbit_eq_iff r c : c ∈ orbit r ↔ orbit c = orbit r.
Proof. split; [apply orbit_same|]. intros <-. apply orbit_self. Qed.

Lemma orbit_min_in r : orbit_min r ∈ orbit r.
Proof.
  unfold orbit_min. pose proof (orbit_self r) as Hr. destruct (orbit r) as [|m l]; set_solver.
Qed.

Lemma orbit_min_le r c : c ∈ orbit r → orbit_min r ≤ c.
Proof.
  unfold orbit_min. intros Hc. pose proof (orbit_sorted r) as Hs.
  destruct (orbit r) as [|m l]; [set_solver|]. simpl.
  apply StronglySorted_inv in Hs as [_ Hall]. rewrite Forall_forall in Hall.
  apply elem_of_cons in Hc as [->|Hc]; [lia|]. specialize (Hall c Hc). lia.
Qed.

(** Two runes fold alike exactly when they are equivalent. *)
Lemma orbit_min_eq r c : orbit_min r = orbit_min c ↔ c ∈ orbit r.
Proof.
  split.
  - intros E. apply orbit_eq_iff. rewrite <- (orbit_same r (orbit_min r) (orbit_min_in r)), E.
    symmetry. apply orbit_same, orbit_min_in.
  - intros Hc. unfold orbit_min. rewrite (orbit_same r c Hc).
    pose proof (orbit_self r). by destruct (orbit r); [set_solver|].
Qed.

Lemma orbit_min_scalar r : scalar r = true → scalar (orbit_min r) = true.
Proof.
  intros Hr. pose proof (orbit_scalar r Hr) as Hall. rewrite Forall_forall in Hall.
  apply Hall, orbit_min_in.
Qed.

(** Walking the orbit from [r]: upwards through [up], then from the smallest rune. *)
Lemma SimpleFold_split r d u :
  orbit r = d ++ r :: u → SimpleFold r = default (orbit_min r) (head u).
Proof.
  intros Eo. unfold SimpleFold, orbit_min. pose proof (orbit_sorted r) as Hs. rewrite Eo in Hs |- *.
  assert (Hd : filter (λ c, r < c) d = []).
  { clear -Hs. induction d as [|x d IH]; [done|]. simpl in Hs.
    apply StronglySorted_inv in Hs as [Hs Hall]. rewrite Forall_forall in Hall.
    specialize (Hall r). rewrite filter_cons_False; [by apply IH|].
    pose proof (Hall ltac:(set_solver)). lia. }
  assert (Hu : filter (λ c, r < c) u = u).
  { clear -Hs. assert (Hsu : Forall (N.lt r) u).
    { induction d as [|x d IH]; simpl in Hs; apply StronglySorted_inv in Hs as [Hs ?]; auto. }
    clear Hs. induction Hsu; [done|]. rewrite filter_cons_True by done. by f_equal. }
  rewrite filter_app, Hd, filter_cons_False, Hu by lia. by destruct u.
Qed.

End fold.

(** ** A concrete instance

    The orbits that contain an ASCII rune: the 26 letters in both cases, with the Kelvin sign
    in the orbit of K and the long s in the orbit of S.  Every other rune is alone. *)
Definition letter_orbit (lower : N) : list N :=
  (lower - 32) :: lower ::
  (if lower =? 0x6B then [0x212A] else if lower =? 0x73 then [0x17F] else []).

Definition ascii_orbit (r : N) : list N :=
  if (0x41 <=? r) && (r <=? 0x5A) then letter_orbit (r + 32)
  else if (0x61 <=? r) && (r <=? 0x7A) then letter_orbit r
  else if r =? 0x212A then letter_orbit 0x6B
  else if r =? 0x17F then letter_orbit 0x73
  else [r].

#[export] Instance ascii_orbits : CaseOrbits := { orbit := ascii_orbit }.

(** A rune with a case is below 0x2200, so the laws are checked rune by rune. *)
Definition orbit_laws_at (r : N) : bool :=
  bool_decide (r ∈ ascii_orbit r) &&
  forallb (λ c, bool_decide (ascii_orbit c = ascii_orbit r)) (ascii_orbit r) &&
  bool_decide (StronglySorted N.lt (ascii_orbit r)) &&
  forallb scalar (ascii_orbit r).

Lemma ascii_orbit_alone r : 0x7B ≤ r → r ≠ 0x212A → r ≠ 0x17F → ascii_orbit r = [r].
Proof.
  intros. unfold ascii_orbit.
  rewrite (proj2 (N.leb_gt r 0x5A)), (proj2 (N.leb_gt r 0x7A)) by lia.
  rewrite !andb_false_r, !(proj2 (N.eqb_neq _ _)) by lia. done.
Qed.

Lemma small_orbits :
  forallb orbit_laws_at (0x212A :: 0x17F :: (N.of_nat <$> seq 0 0x7B)) = true.
Proof. vm_compute. reflexivity. Qed.

Lemma orbit_cases r : orbit_laws_at r = true ∨ ascii_orbit r = [r].
Proof.
  destruct (decide (r = 0x212A ∨ r = 0x17F ∨ r < 0x7B)) as [Hr|Hr].
  - left. pose proof small_orbits as Hall. rewrite forallb_forall in Hall. apply Hall.
    destruct Hr as [->|[->|Hr]]; [by left|by right; left|right; right].
    apply list_elem_of_In, list_elem_of_fmap. exists (N.to_nat r). split; [lia|].
    apply elem_of_seq. lia.
  - right. apply ascii_orbit_alone; lia.
Qed.

#[export] Instance ascii_orbits_laws : CaseOrbitsLaws.
Proof.
  split; intros r; simpl; destruct (orbit_cases r) as [Hr|Hr];
    try (unfold orbit_laws_at in Hr; bools; rewrite ?forallb_forall in *).
  - done.
  - rewrite Hr. set_solver.
  - intros c Hc. match goal with E : ∀ x, In x _ → bool_decide _ = true |- _ =>
      by apply list_elem_of_In, E, bool_decide_eq_true_1 in Hc end.
  - rewrite Hr. by intros c ->%list_elem_of_singleton.
  - done.
  - rewrite Hr. repeat constructor.
  - intros _. rewrite Forall_forall. intros c Hc. apply list_elem_of_In in Hc. auto.
  - rewrite Hr. by repeat constructor.
Qed.
