(* ===== verification/Json.v ===== *)
(** * encoding/json

    The records of the mailbox travel as JSON.  This file holds what the code uses of Go's
    encoder and decoder: JSON values as trees, the compact printer of [json.Marshal] (with its
    HTML-safe escapes and its replacement of invalid UTF-8), the parser of [json.Unmarshal],
    and the decoding of a value into a struct, field by field, with exact and case-folded
    field names, [null] and type mismatches.  [unmarshal_marshal] is the round trip. *)
From S2P Require Import Prelude Sha256 GoStd Unicode.
From Stdlib Require Import ZArith.

#[local] Unset Elimination Schemes.
(** Numbers are kept as literals; objects keep the order and the repetitions of their keys. *)
Inductive json : Type :=
  | JNull
  | JBool (b : bool)
  | JNum (literal : string)
  | JStr (s : string)
  | JArr (elements : list json)
  | JObj (members : list (string * json)).
#[local] Set Elimination Schemes.

(** Induction with hypotheses for the elements of arrays and objects. *)
Lemma json_nested_ind (P : json → Prop) :
  P JNull → (∀ b, P (JBool b)) → (∀ n, P (JNum n)) → (∀ s, P (JStr s)) →
  (∀ l, Forall P l → P (JArr l)) → (∀ l, Forall (λ kv, P kv.2) l → P (JObj l)) → ∀ j, P j.
Proof.
  intros Hnull Hbool Hnum Hstr Harr Hobj. fix IH 1.
  intros [|b|n|s|l|l]; [apply Hnull|apply Hbool|apply Hnum|apply Hstr|apply Harr|apply Hobj].
  - induction l as [|x l IHl]; constructor; [apply IH|apply IHl].
  - induction l as [|[k x] l IHl]; constructor; [apply IH|apply IHl].
Qed.

(** ** Decimal numbers *)

Definition digit_char (d : N) : ascii := ascii_of_N (48 + d).
Definition digit_value (c : ascii) : option N :=
  if in_range 48 57 c then Some (N_of_ascii c - 48) else None.

Fixpoint digits_onto (fuel : nat) (n : N) (acc : string) : string :=
  match fuel with
  | O => acc
  | S fuel' => if n =? 0 then acc else digits_onto fuel' (n / 10) (String (digit_char (n mod 10)) acc)
  end.
(** [strconv.FormatUint(n, 10)]: a number has at most as many decimal as binary digits. *)
Definition print_N (n : N) : string := if n =? 0 then "0" else digits_onto (N.to_nat (N.size n)) n "".
Definition print_Z (z : Z) : string :=
  match z with
  | Zneg p => "-" +:+ print_N (Npos p)
  | _ => print_N (Z.to_N z)
  end.

Fixpoint decimal_value (acc : N) (s : string) : option N :=
  match s with
  | EmptyString => Some acc
  | String c s' => match digit_value c with
                   | Some d => decimal_value (acc * 10 + d) s'
                   | None => None
                   end
  end.
(** [strconv.ParseUint(s, 10, bits)]. *)
Definition parse_uint (bits : N) (s : string) : option N :=
  if String.eqb s "" then None
  else match decimal_value 0 s with
  | Some n => if n <? 2 ^ bits then Some n else None
  | None => None
  end.
(** [strconv.ParseInt(s, 10, 64)] on a JSON literal (no leading plus sign). *)
Definition parse_int64 (s : string) : option Z :=
  match s with
  | String "-" s' =>
      match parse_uint 64 s' with
      | Some n => if n <=? 2 ^ 63 then Some (- Z.of_N n)%Z else None
      | None => None
      end
  | _ => match parse_uint 64 s with
         | Some n => if n <? 2 ^ 63 then Some (Z.of_N n) else None
         | None => None
         end
  end.

(** ** Printing *)

Definition hex_char (d : N) : ascii := ascii_of_N (if d <? 10 then 48 + d else 87 + d).

(** The escape of one ASCII byte: [htmlSafeSet] lists the ones printed as they are. *)
Definition escape_ascii (c : ascii) : string :=
  let n := N_of_ascii c in
  if (n =? 34) || (n =? 92) then String "\" (String c "")
  else if n =? 8 then "\b" else if n =? 12 then "\f" else if n =? 10 then "\n"
  else if n =? 13 then "\r" else if n =? 9 then "\t"
  else if (n <? 32) || (n =? 60) || (n =? 62) || (n =? 38)
  then "\u00" +:+ String (hex_char (n / 16)) (String (hex_char (n mod 16)) "")
  else String c "".

(** The body of a quoted string; [n] more bytes belong to the rune printed last.  A rune's
    bytes are its encoding: only an invalid byte decodes to [RuneError] with no more bytes. *)
Fixpoint quote_body (n : nat) (s : string) : string :=
  match s with
  | EmptyString => ""
  | String c s1 =>
      match n with
      | S n' => quote_body n' s1
      | O =>
          if N_of_ascii c <? 0x80 then escape_ascii c +:+ quote_body 0 s1
          else
            let '(r, w) := decode_rune c s1 in
            (if (r =? RuneError) && (Nat.eqb w 0) then "\ufffd"
             else if r =? 0x2028 then "\u2028" else if r =? 0x2029 then "\u2029"
             else encode_rune r) +:+ quote_body w s1
      end
  end.

Definition dquote : string := byte 34.
Definition quote (s : string) : string := dquote +:+ quote_body 0 s +:+ dquote.

Fixpoint join_with (sep : string) (l : list string) : string :=
  match l with
  | [] => ""
  | [x] => x
  | x :: l' => x +:+ sep +:+ join_with sep l'
  end.

Fixpoint print (j : json) : string :=
  match j with
  | JNull => "null"
  | JBool true => "true"
  | JBool false => "false"
  | JNum literal => literal
  | JStr s => quote s
  | JArr l => "[" +:+ join_with "," (List.map print l) +:+ "]"
  | JObj l => "{" +:+ join_with "," (List.map (λ kv, quote kv.1 +:+ ":" +:+ print kv.2) l) +:+ "}"
  end.

(** ** Parsing *)

Definition is_space (c : ascii) : bool :=
  let n := N_of_ascii c in (n =? 32) || (n =? 9) || (n =? 10) || (n =? 13).
Fixpoint skip_ws (s : string) : string :=
  match s with
  | String c s' => if is_space c then skip_ws s' else s
  | EmptyString => s
  end.

Definition hex_rune (c : ascii) : option N :=
  let n := N_of_ascii c in
  if in_range 48 57 c then Some (n - 48)
  else if in_range 97 102 c then Some (n - 87)
  else if in_range 65 70 c then Some (n - 55)
  else None.
(** [getu4] on the four characters after a backslash and a "u". *)
Definition hex4 (s : string) : option N :=
  match s with
  | String a (String b (String c (String d _))) =>
      match hex_rune a, hex_rune b, hex_rune c, hex_rune d with
      | Some a, Some b, Some c, Some d => Some (a * 4096 + b * 256 + c * 16 + d)
      | _, _, _, _ => None
      end
  | _ => None
  end.
Definition surrogate (r : N) : bool := (0xD800 <=? r) && (r <? 0xE000).
(** The low surrogate escaped right after [s]'s first escape, decoded with the high one. *)
Definition surrogate_pair (r : N) (s : string) : option N :=
  match s with
  | String "\" (String "u" s') =>
      match hex4 s' with
      | Some r2 =>
          if (0xD800 <=? r) && (r <? 0xDC00) && (0xDC00 <=? r2) && (r2 <? 0xE000)
          then Some (0x10000 + (r - 0xD800) * 1024 + (r2 - 0xDC00)) else None
      | None => None
      end
  | _ => None
  end.
Definition simple_escape (c : ascii) : option string :=
  let n := N_of_ascii c in
  if (n =? 34) || (n =? 92) || (n =? 47) then Some (String c "")
  else if n =? 98 then Some (byte 8) else if n =? 102 then Some (byte 12)
  else if n =? 110 then Some (byte 10) else if n =? 114 then Some (byte 13)
  else if n =? 116 then Some (byte 9) else None.

Definition prepend (a : string) (o : option (string * string)) : option (string * string) :=
  match o with Some (b, rest) => Some (a +:+ b, rest) | None => None end.

(** A string literal after its opening quote: its value and what follows the closing quote;
    [n] more bytes belong to what was read last. *)
Fixpoint unquote (n : nat) (s : string) : option (string * string) :=
  match s with
  | EmptyString => None
  | String c s1 =>
      match n with
      | S n' => unquote n' s1
      | O =>
          if N_of_ascii c =? 34 then Some ("", s1)
          else if N_of_ascii c =? 92 then
            match s1 with
            | String e s2 =>
                if N_of_ascii e =? 117 then
                  match hex4 s2 with
                  | None => None
                  | Some r =>
                      if surrogate r then
                        match surrogate_pair r (skip 4 s2) with
                        | Some r' => prepend (encode_rune r') (unquote 10 s2)
                        | None => prepend (encode_rune RuneError) (unquote 4 s2)
                        end
                      else prepend (encode_rune r) (unquote 4 s2)
                  end
                else match simple_escape e with
                | Some x => prepend x (unquote 0 s2)
                | None => None
                end
            | EmptyString => None
            end
          else if N_of_ascii c <? 32 then None
          else if N_of_ascii c <? 0x80 then prepend (String c "") (unquote 0 s1)
          else let '(r, w) := decode_rune c s1 in prepend (encode_rune r) (unquote w s1)
      end
  end.

Fixpoint take_digits (s : string) : string * string :=
  match s with
  | String c s' =>
      if in_range 48 57 c then let '(d, r) := take_digits s' in (String c d, r) else ("", s)
  | EmptyString => ("", "")
  end.

Definition parse_fraction (s : string) : option (string * string) :=
  match s with
  | String "." s1 => let '(d, r) := take_digits s1 in
      if String.eqb d "" then None else Some (String "." d, r)
  | _ => Some ("", s)
  end.
Definition parse_exponent (s : string) : option (string * string) :=
  match s with
  | String e s1 =>
      if (N_of_ascii e =? 101) || (N_of_ascii e =? 69) then
        let '(sign, s2) := match s1 with
          | String "+" s2 => ("+", s2)
          | String "-" s2 => ("-", s2)
          | _ => ("", s1)
          end in
        let '(d, r) := take_digits s2 in
        if String.eqb d "" then None else Some (String e "" +:+ sign +:+ d, r)
      else Some ("", s)
  | EmptyString => Some ("", s)
  end.
Definition parse_natural (s : string) : option (string * string) :=
  let '(d, r) := take_digits s in
  match d with
  | EmptyString => None
  | String c d' => if (N_of_ascii c =? 48) && negb (String.eqb d' "") then None else Some (d, r)
  end.
Definition parse_unsigned (s : string) : option (string * string) :=
  match parse_natural s with
  | None => None
  | Some (a, s1) =>
      match parse_fraction s1 with
      | None => None
      | Some (b, s2) =>
          match parse_exponent s2 with
          | None => None
          | Some (c, s3) => Some (a +:+ b +:+ c, s3)
          end
      end
  end.
Definition parse_number (s : string) : option (string * string) :=
  match s with
  | String "-" s1 => prepend "-" (parse_unsigned s1)
  | _ => parse_unsigned s
  end.

Definition after_prefix (pre s : string) : option string :=
  if HasPrefix s pre then Some (skip (String.length pre) s) else None.

(** Values, the elements of an array after its bracket, the members of an object after its
    brace; one unit of [fuel] per call, and every call but the first follows a byte of [s]. *)
Fixpoint parse_value (fuel : nat) (s : string) : option (json * string) :=
  match fuel with
  | O => None
  | S f =>
      match skip_ws s with
      | EmptyString => None
      | String c s1 =>
          let n := N_of_ascii c in
          if n =? 123 then
            match skip_ws s1 with
            | EmptyString => None
            | String d rest =>
                if N_of_ascii d =? 125 then Some (JObj [], rest)
                else match parse_members f (String d rest) with
                     | Some (l, rest) => Some (JObj l, rest)
                     | None => None
                     end
            end
          else if n =? 91 then
            match skip_ws s1 with
            | EmptyString => None
            | String d rest =>
                if N_of_ascii d =? 93 then Some (JArr [], rest)
                else match parse_elements f (String d rest) with
                     | Some (l, rest) => Some (JArr l, rest)
                     | None => None
                     end
            end
          else if n =? 34 then
            match unquote 0 s1 with Some (v, rest) => Some (JStr v, rest) | None => None end
          else if n =? 110 then option_map (pair JNull) (after_prefix "ull" s1)
          else if n =? 116 then option_map (pair (JBool true)) (after_prefix "rue" s1)
          else if n =? 102 then option_map (pair (JBool false)) (after_prefix "alse" s1)
          else match parse_number (String c s1) with
               | Some (literal, rest) => Some (JNum literal, rest)
               | None => None
               end
      end
  end
with parse_elements (fuel : nat) (s : string) : option (list json * string) :=
  match fuel with
  | O => None
  | S f =>
      match parse_value f s with
      | None => None
      | Some (x, s1) =>
          match skip_ws s1 with
          | EmptyString => None
          | String d s2 =>
              if N_of_ascii d =? 93 then Some ([x], s2)
              else if N_of_ascii d =? 44 then
                match parse_elements f s2 with
                | Some (l, rest) => Some (x :: l, rest)
                | None => None
                end
              else None
          end
      end
  end
with parse_members (fuel : nat) (s : string) : option (list (string * json) * string) :=
  match fuel with
  | O => None
  | S f =>
      match skip_ws s with
      | EmptyString => None
      | String q s0 =>
          if negb (N_of_ascii q =? 34) then None
          else match unquote 0 s0 with
          | None => None
          | Some (key, s1) =>
              match skip_ws s1 with
              | EmptyString => None
              | String colon s2 =>
                  if negb (N_of_ascii colon =? 58) then None
                  else match parse_value f s2 with
                  | None => None
                  | Some (x, s3) =>
                      match skip_ws s3 with
                      | EmptyString => None
                      | String d s4 =>
                          if N_of_ascii d =? 125 then Some ([(key, x)], s4)
                          else if N_of_ascii d =? 44 then
                            match parse_members f s4 with
                            | Some (l, rest) => Some ((key, x) :: l, rest)
                            | None => None
                            end
                          else None
                      end
                  end
              end
          end
      end
  end.

(** The value of a complete JSON text. *)
Definition parse (s : string) : option json :=
  match parse_value (S (String.length s)) s with
  | Some (j, rest) => if String.eqb (skip_ws rest) "" then Some j else None
  | None => None
  end.

Example parse_spaces :
  parse " [ 1, -2.5e3 , null,[ ] ,{ }] " = Some (JArr [JNum "1"; JNum "-2.5e3"; JNull; JArr []; JObj []]).
Proof. vm_compute. reflexivity. Qed.
Example parse_bad_number : parse "01" = None.
Proof. vm_compute. reflexivity. Qed.
Example print_escapes : print (JStr (byte 10 +:+ "<" +:+ byte 0xFF)) = dquote +:+ "\n\u003c\ufffd" +:+ dquote.
Proof. vm_compute. reflexivity. Qed.
Example parse_surrogates :
  parse (dquote +:+ "\ud83d\ude00\ud83d" +:+ dquote) =
  Some (JStr (encode_rune 0x1F600 +:+ encode_rune RuneError)).
Proof. vm_compute. reflexivity. Qed.

(** ** Strings survive *)

(** A string with every invalid byte replaced by U+FFFD. *)
Definition coerce (s : string) : string := encode_runes (runes s).

Lemma quote_body_skip n s : quote_body n s = quote_body 0 (skip n s).
Proof. revert n. induction s as [|c s IH]; intros [|n]; try done. simpl skip. rewrite <- IH. done. Qed.

Lemma unquote_skip n s : unquote n s = unquote 0 (skip n s).
Proof. revert n. induction s as [|c s IH]; intros [|n]; try done. simpl skip. rewrite <- IH. done. Qed.

Lemma unquote_ascii c t :
  N_of_ascii c < 0x80 → unquote 0 (escape_ascii c +:+ t) = prepend (String c "") (unquote 0 t).
Proof.
  intros Hc. destruct c as [[] [] [] [] [] [] [] []]; first [reflexivity|by vm_compute in Hc].
Qed.

Lemma unquote_rune r t :
  scalar r = true → 0x80 ≤ r → unquote 0 (encode_rune r +:+ t) = prepend (encode_rune r) (unquote 0 t).
Proof.
  intros Hs Hr. destruct (decodes_encode r t Hs) as (c & tl & w & -> & Hd & <- & Hc).
  specialize (Hc Hr). cbn [unquote].
  rewrite (proj2 (N.eqb_neq _ 34)), (proj2 (N.eqb_neq _ 92)), !(proj2 (N.ltb_ge _ _)) by lia.
  rewrite Hd. by rewrite unquote_skip.
Qed.

Lemma quote_body_cons c s r w :
  decode_rune c s = (r, w) →
  ∃ x, quote_body 0 (String c s) = x +:+ quote_body 0 (skip w s) ∧
    ∀ t, unquote 0 (x +:+ t) = prepend (encode_rune r) (unquote 0 t).
Proof.
  intros Hd. cbn [quote_body]. destruct (N.ltb_spec (N_of_ascii c) 0x80) as [Hc|Hc].
  - rewrite (decode_rune_ascii c s Hc) in Hd. injection Hd as <- <-.
    exists (escape_ascii c). split; [done|]. intros t. rewrite (unquote_ascii c t Hc).
    unfold encode_rune. rewrite (proj2 (N.ltb_lt _ _) Hc). unfold byte. by rewrite ascii_N_embedding.
  - rewrite Hd, (quote_body_skip w). eexists. split; [reflexivity|]. intros t.
    destruct ((r =? RuneError) && Nat.eqb w 0) eqn:Er; [bools; by subst|].
    destruct (N.eqb_spec r 0x2028) as [->|_]; [done|]. destruct (N.eqb_spec r 0x2029) as [->|_]; [done|].
    apply unquote_rune; [by eapply decode_rune_scalar|by eapply decode_rune_high].
Qed.

Lemma unquote_quote s rest : unquote 0 (quote_body 0 s +:+ dquote +:+ rest) = Some (coerce s, rest).
Proof.
  remember (String.length s) as n eqn:En. revert s En.
  induction n as [n IH] using (well_founded_induction lt_wf). intros [|c s] ->; [done|].
  destruct (decode_rune c s) as [r w] eqn:Hd.
  destruct (quote_body_cons c s r w Hd) as (x & -> & Hx).
  rewrite app_assoc_s, Hx, (IH (String.length (skip w s))); [|simpl; pose proof (length_skip w s); lia|done].
  unfold coerce. by rewrite (runes_cons w c s r (skip w s) Hd eq_refl).
Qed.

Lemma coerce_valid s : utf8_valid s = true → coerce s = s.
Proof. apply encode_runes_valid. Qed.

(** ** Numbers survive *)

Lemma digit_value_char d : d < 10 → digit_value (digit_char d) = Some d.
Proof.
  intros Hd. unfold digit_value, digit_char. rewrite in_range_byte, N_of_byte by lia.
  rewrite (proj2 (N.leb_le 48 _)), (proj2 (N.leb_le _ 57)) by lia. simpl. f_equal. lia.
Qed.

Lemma decimal_value_digits fuel n acc :
  n < 2 ^ N.of_nat fuel → decimal_value 0 (digits_onto fuel n acc) = decimal_value n acc.
Proof.
  revert n acc. induction fuel as [|f IH]; intros n acc Hn; cbn [digits_onto].
  { simpl in Hn. by replace n with 0 by lia. }
  destruct (N.eqb_spec n 0) as [->|Hne]; [done|].
  assert (Hdiv : n / 10 < 2 ^ N.of_nat f).
  { apply N.Div0.div_lt_upper_bound. rewrite Nat2N.inj_succ, N.pow_succ_r' in Hn. lia. }
  rewrite IH by done. cbn [decimal_value].
  rewrite digit_value_char by dlia. f_equal. dlia.
Qed.

Lemma decimal_value_print n : decimal_value 0 (print_N n) = Some n.
Proof.
  unfold print_N. destruct (N.eqb_spec n 0) as [->|_]; [done|].
  rewrite decimal_value_digits; [done|]. rewrite N2Nat.id. apply N.size_gt.
Qed.

(** What the printer makes of a nonzero number: digits, the first one not zero. *)
Definition numeral (s : string) : Prop :=
  all_bytes (in_range 48 57) s = true ∧ ∃ c s', s = String c s' ∧ (N_of_ascii c = 48 → s' = "").

Lemma digits_onto_numeral fuel n acc :
  0 < n → n < 2 ^ N.of_nat fuel → all_bytes (in_range 48 57) acc = true →
  all_bytes (in_range 48 57) (digits_onto fuel n acc) = true ∧
  ∃ c s', digits_onto fuel n acc = String c s' ∧ N_of_ascii c ≠ 48.
Proof.
  revert n acc. induction fuel as [|f IH]; intros n acc Hpos Hn Hacc.
  { simpl in Hn. lia. }
  cbn [digits_onto]. rewrite (proj2 (N.eqb_neq n 0)) by lia.
  assert (Hd : in_range 48 57 (digit_char (n mod 10)) = true).
  { unfold digit_char. rewrite in_range_byte by dlia. rewrite andb_true_iff, !N.leb_le. dlia. }
  assert (Hacc' : all_bytes (in_range 48 57) (String (digit_char (n mod 10)) acc) = true)
    by (simpl; by rewrite Hd).
  destruct (decide (n / 10 = 0)) as [Hz|Hz].
  - assert (E : digits_onto f (n / 10) (String (digit_char (n mod 10)) acc) =
                String (digit_char (n mod 10)) acc) by (rewrite Hz; by destruct f).
    rewrite E. split; [done|]. eexists _, _. split; [done|].
    unfold digit_char. rewrite N_of_byte by dlia. dlia.
  - apply IH; [by apply N.neq_0_lt_0| |done]. apply N.Div0.div_lt_upper_bound.
    rewrite Nat2N.inj_succ, N.pow_succ_r' in Hn. lia.
Qed.

Lemma print_N_numeral n : numeral (print_N n).
Proof.
  unfold print_N. destruct (N.eqb_spec n 0) as [->|Hn]; [by split; [|by eexists _, _]|].
  destruct (digits_onto_numeral (N.to_nat (N.size n)) n "") as (Hall & c & s' & E & Hc);
    [lia|rewrite N2Nat.id; apply N.size_gt|done|].
  split; [done|]. exists c, s'. done.
Qed.

(** What may follow a number without being read as part of it. *)
Definition number_ends (s : string) : Prop :=
  match s with
  | EmptyString => True
  | String c _ => in_range 48 57 c = false ∧ N_of_ascii c ≠ 46 ∧ N_of_ascii c ≠ 101 ∧ N_of_ascii c ≠ 69
  end.

Lemma take_digits_app s rest :
  all_bytes (in_range 48 57) s = true → number_ends rest → take_digits (s +:+ rest) = (s, rest).
Proof.
  induction s as [|c s IH]; simpl; intros Hs Hr.
  - destruct rest as [|c rest]; [done|]. simpl in *. destruct Hr as [-> _]. done.
  - bools. match goal with E : in_range 48 57 c = true |- _ => rewrite E end. by rewrite IH.
Qed.

Lemma parse_unsigned_numeral s rest :
  numeral s → number_ends rest → parse_unsigned (s +:+ rest) = Some (s, rest).
Proof.
  intros (Hall & c & s' & -> & Hlead) Hr. unfold parse_unsigned, parse_natural.
  rewrite take_digits_app by done.
  assert (Hz : (N_of_ascii c =? 48) && negb (String.eqb s' "") = false).
  { apply andb_false_iff. destruct (N.eqb_spec (N_of_ascii c) 48) as [Hc|_]; [right|by left].
    by rewrite (Hlead Hc). }
  rewrite Hz. destruct rest as [|d rest]; [simpl; by rewrite !app_nil_r_s|]. cbn [number_ends] in Hr.
  destruct Hr as (_ & Hdot & He & HE).
  assert (Hfrac : parse_fraction (String d rest) = Some ("", String d rest)).
  { unfold parse_fraction. destruct d as [[] [] [] [] [] [] [] []]; done. }
  rewrite Hfrac. unfold parse_exponent. rewrite !(proj2 (N.eqb_neq _ _)) by done.
  simpl. by rewrite !app_nil_r_s.
Qed.

Lemma numeral_no_minus s : numeral s → ∀ t, s ≠ String "-" t.
Proof. by intros (Hall & _) t ->. Qed.

Lemma parse_number_print z rest :
  number_ends rest → parse_number (print_Z z +:+ rest) = Some (print_Z z, rest).
Proof.
  intros Hr.
  assert (Hnat : ∀ n, parse_number (print_N n +:+ rest) = Some (print_N n, rest)).
  { intros n. pose proof (print_N_numeral n) as Hn.
    pose proof (numeral_no_minus _ Hn) as Hm. pose proof (parse_unsigned_numeral _ rest Hn Hr) as Hp.
    destruct Hn as (_ & c & s' & E & _). rewrite E in *. simpl in *. unfold parse_number.
    destruct c as [[] [] [] [] [] [] [] []]; try exact Hp. by destruct (Hm s'). }
  destruct z; try apply Hnat. simpl. unfold parse_number.
  rewrite parse_unsigned_numeral; [done|apply print_N_numeral|done].
Qed.

Lemma parse_uint_print bits n : n < 2 ^ bits → parse_uint bits (print_N n) = Some n.
Proof.
  intros Hn. unfold parse_uint. rewrite decimal_value_print, (proj2 (N.ltb_lt _ _) Hn).
  destruct (print_N_numeral n) as (_ & c & s' & -> & _). done.
Qed.

(** ** Values survive *)

(** What the parser makes of a printed value: strings and keys lose their invalid bytes. *)
Fixpoint clean (j : json) : json :=
  match j with
  | JStr s => JStr (coerce s)
  | JArr l => JArr (List.map clean l)
  | JObj l => JObj (List.map (λ kv, (coerce kv.1, clean kv.2)) l)
  | _ => j
  end.

#[local] Unset Elimination Schemes.
(** The numbers of the values this program prints are integers. *)
Inductive printable : json → Prop :=
  | printable_null : printable JNull
  | printable_bool b : printable (JBool b)
  | printable_num z : printable (JNum (print_Z z))
  | printable_str s : printable (JStr s)
  | printable_arr l : Forall printable l → printable (JArr l)
  | printable_obj l : Forall (λ kv, printable kv.2) l → printable (JObj l).

#[local] Set Elimination Schemes.

(** The fuel a value needs. *)
Fixpoint fuel_of (j : json) : nat :=
  match j with
  | JArr l => S (fold_right (λ x n, S (Nat.max (fuel_of x) n)) 0%nat l)
  | JObj l => S (fold_right (λ kv n, S (Nat.max (fuel_of kv.2) n)) 0%nat l)
  | _ => 1
  end.
Definition fuel_elements (l : list json) : nat :=
  fold_right (λ x n, S (Nat.max (fuel_of x) n)) 0%nat l.
Definition fuel_members (l : list (string * json)) : nat :=
  fold_right (λ kv n, S (Nat.max (fuel_of kv.2) n)) 0%nat l.

Definition print_member (kv : string * json) : string := quote kv.1 +:+ ":" +:+ print kv.2.

(** The first byte of a printed value is neither a space nor a closing bracket. *)
Definition starts_value (s : string) : Prop :=
  ∃ c s', s = String c s' ∧ is_space c = false ∧ N_of_ascii c ≠ 93 ∧ N_of_ascii c ≠ 125.

Lemma print_Z_head z : ∃ c s', print_Z z = String c s' ∧ (in_range 48 57 c = true ∨ N_of_ascii c = 45).
Proof.
  assert (Hnat : ∀ n, ∃ c s', print_N n = String c s' ∧ (in_range 48 57 c = true ∨ N_of_ascii c = 45)).
  { intros n. destruct (print_N_numeral n) as (Hall & c & s' & E & _). exists c, s'. split; [done|].
    left. rewrite E in Hall. simpl in Hall. by bools. }
  destruct z; try apply Hnat. simpl. by eexists _, _; split; [|right].
Qed.

Lemma print_starts j : printable j → starts_value (print j).
Proof.
  unfold starts_value. intros Hp. destruct Hp as [|[]|z|s|l _|l _]; try (by eexists _, _; split_and!).
  destruct (print_Z_head z) as (c & s' & -> & Hc). exists c, s'. split; [done|].
  unfold is_space. unfold in_range in Hc.
  destruct Hc as [Hc|Hc]; bools; rewrite !(proj2 (N.eqb_neq _ _)) by lia; split_and!; done || lia.
Qed.

Lemma skip_ws_starts s rest : starts_value s → skip_ws (s +:+ rest) = s +:+ rest.
Proof. intros (c & s' & -> & Hc & _). simpl. by rewrite Hc. Qed.

Lemma parse_number_value f z rest :
  number_ends rest → parse_value (S f) (print_Z z +:+ rest) = Some (JNum (print_Z z), rest).
Proof.
  intros Hr. pose proof (parse_number_print z rest Hr) as Hp.
  cbn [parse_value]. rewrite skip_ws_starts by apply (print_starts (JNum (print_Z z))), printable_num.
  destruct (print_Z_head z) as (c & s' & E & Hc). rewrite E in *. cbn [append] in *.
  change (String c s' +:+ rest) with (String c (s' +:+ rest)) in *. cbv iota beta.
  unfold in_range in Hc.
  assert (Hn : N_of_ascii c ≤ 57) by (destruct Hc as [Hc|Hc]; bools; lia).
  assert (Hn2 : N_of_ascii c ≠ 34) by (destruct Hc as [Hc|Hc]; bools; lia).
  rewrite !(proj2 (N.eqb_neq _ _)) by lia. by rewrite Hp.
Qed.

Lemma join_cons sep x y l : join_with sep (x :: y :: l) = x +:+ sep +:+ join_with sep (y :: l).
Proof. done. Qed.

(** Reads the literal character at the front of the text. *)
Ltac step_char :=
  match goal with
  | |- context [skip_ws (String ?c "" +:+ ?t)] =>
      change (skip_ws (String c "" +:+ t)) with (String c t); cbv iota beta;
      simpl N_of_ascii; simpl N.eqb; cbv iota beta; simpl negb; cbv iota beta
  end.

Definition parses (j : json) : Prop :=
  ∀ f rest, (fuel_of j <= f)%nat → number_ends rest →
    parse_value f (print j +:+ rest) = Some (clean j, rest).

Lemma parse_elements_print l f rest :
  Forall parses l → l ≠ [] → (fuel_elements l <= f)%nat →
  parse_elements f (join_with "," (List.map print l) +:+ "]" +:+ rest) = Some (List.map clean l, rest).
Proof.
  intros Hl. revert f. induction Hl as [|x l Hx Hl IH]; intros f Hne Hf; [done|].
  change (fuel_elements (x :: l)) with (S (Nat.max (fuel_of x) (fuel_elements l))) in Hf.
  destruct f as [|f]; [lia|]. cbn [parse_elements]. destruct l as [|y l].
  - cbn [List.map join_with]. rewrite Hx; [done|lia|done].
  - cbn [List.map]. rewrite join_cons, !app_assoc_s. rewrite Hx; [|lia|done].
    step_char.
    change (print y :: List.map print l) with (List.map print (y :: l)).
    rewrite IH; [done|done|lia].
Qed.

Lemma parse_members_print l f rest :
  Forall (λ kv, parses kv.2) l → l ≠ [] → (fuel_members l <= f)%nat →
  parse_members f (join_with "," (List.map print_member l) +:+ "}" +:+ rest) =
  Some (List.map (λ kv, (coerce kv.1, clean kv.2)) l, rest).
Proof.
  intros Hl. revert f. induction Hl as [|[k x] l Hx Hl IH]; intros f Hne Hf; [done|].
  change (fuel_members ((k, x) :: l)) with (S (Nat.max (fuel_of x) (fuel_members l))) in Hf.
  destruct f as [|f]; [lia|]. cbn [parse_members]. simpl in Hx.
  assert (Hkey : ∀ t, skip_ws (quote k +:+ t) =
    String (ascii_of_N 34) (quote_body 0 k +:+ dquote +:+ t)).
  { intros t. unfold quote. rewrite !app_assoc_s. done. }
  destruct l as [|y l].
  - cbn [List.map join_with print_member fst snd]. unfold print_member.
    rewrite !app_assoc_s, Hkey. simpl negb. cbv iota. rewrite unquote_quote.
    step_char.
    rewrite Hx; [done|lia|done].
  - cbn [List.map]. rewrite join_cons. unfold print_member at 1. cbn [fst snd].
    rewrite !app_assoc_s, Hkey. simpl negb. cbv iota. rewrite unquote_quote.
    step_char.
    rewrite Hx; [|lia|done].
    step_char.
    change (print_member y :: List.map print_member l) with (List.map print_member (y :: l)).
    rewrite IH; [done|done|lia].
Qed.


Lemma after_prefix_app pre rest : after_prefix pre (pre +:+ rest) = Some rest.
Proof. unfold after_prefix. by rewrite HasPrefix_app, skip_app. Qed.

Lemma join_starts l rest :
  Forall starts_value l → l ≠ [] → ∃ c s', join_with "," l +:+ rest = String c s' ∧
    is_space c = false ∧ N_of_ascii c ≠ 93 ∧ N_of_ascii c ≠ 125.
Proof.
  intros Hl Hne. destruct Hl as [|x l (c & s' & -> & Hc) _]; [done|].
  destruct l; simpl; by eexists _, _.
Qed.

(** The parser reads back what the printer wrote. *)
Lemma parse_print_value j : printable j → parses j.
Proof.
  induction j as [|b|n|s|l IH|l IH] using json_nested_ind;
    intros Hp f rest Hf Hr; simpl in Hf; (destruct f as [|f]; [lia|]).
  - change (option_map (pair JNull) (after_prefix "ull" ("ull" +:+ rest)) = Some (JNull, rest)).
    by rewrite after_prefix_app.
  - destruct b.
    + change (option_map (pair (JBool true)) (after_prefix "rue" ("rue" +:+ rest)) = Some (JBool true, rest)).
      by rewrite after_prefix_app.
    + change (option_map (pair (JBool false)) (after_prefix "alse" ("alse" +:+ rest)) =
        Some (JBool false, rest)). by rewrite after_prefix_app.
  - inversion Hp as [| |z| | |]. subst. by apply parse_number_value.
  - cbn [print clean]. unfold quote. rewrite !app_assoc_s.
    change (parse_value (S f) (dquote +:+ ?t)) with
      (match unquote 0 t with Some (v, r) => Some (JStr v, r) | None => None end).
    by rewrite unquote_quote.
  - inversion Hp as [| | | |l' Hl|]. subst l'. rewrite Forall_forall in Hl, IH.
    cbn [print clean]. rewrite !app_assoc_s. cbn [parse_value]. step_char.
    destruct l as [|x l]; [done|].
    destruct (join_starts (List.map print (x :: l)) ("]" +:+ rest)) as (c & s' & E & Hc & Hn & _).
    { apply Forall_fmap, Forall_forall. intros y Hy. by apply print_starts, Hl. }
    { done. }
    rewrite E. cbn [skip_ws]. rewrite Hc, (proj2 (N.eqb_neq _ _) Hn), <- E.
    rewrite parse_elements_print; [done| |done|by apply le_S_n].
    apply Forall_forall. intros y Hy. by apply IH, Hl.
  - inversion Hp as [| | | | |l' Hl]. subst l'. rewrite Forall_forall in Hl, IH.
    cbn [print clean]. rewrite !app_assoc_s. cbn [parse_value]. step_char.
    destruct l as [|x l]; [done|].
    destruct (join_starts (List.map print_member (x :: l)) ("}" +:+ rest)) as (c & s' & E & Hc & _ & Hn).
    { apply Forall_fmap, Forall_forall. intros y Hy. by eexists _, _. }
    { done. }
    change (λ kv : string * json, quote kv.1 +:+ ":" +:+ print kv.2) with print_member.
    rewrite E. cbn [skip_ws]. rewrite Hc, (proj2 (N.eqb_neq _ _) Hn), <- E.
    rewrite parse_members_print; [done| |done|by apply le_S_n].
    apply Forall_forall. intros y Hy. by apply IH, Hl.
Qed.

Lemma length_app_str a b : String.length (a +:+ b) = (String.length a + String.length b)%nat.
Proof. apply length_app_s. Qed.

Lemma starts_length s : starts_value s → (1 <= String.length s)%nat.
Proof. intros (c & s' & -> & _). simpl. lia. Qed.

Lemma fold_fuel_join {A} (need : A → nat) (show : A → string) l :
  Forall (λ x, (need x <= String.length (show x))%nat) l → l ≠ [] →
  (fold_right (λ x n, S (Nat.max (need x) n)) 0 l <= S (String.length (join_with "," (List.map show l))))%nat.
Proof.
  intros Hl. induction Hl as [|x l Hx Hl IH]; intros Hne; [done|].
  destruct l as [|y l]; [simpl in *; lia|]. cbn [List.map]. rewrite join_cons.
  rewrite !length_app_str. specialize (IH ltac:(done)). cbn [List.map] in IH.
  change (fold_right (λ x n, S (Nat.max (need x) n)) 0%nat (x :: y :: l)) with
    (S (Nat.max (need x) (fold_right (λ x n, S (Nat.max (need x) n)) 0%nat (y :: l)))).
  change (String.length ",") with 1%nat. lia.
Qed.

Lemma fuel_bound j : printable j → (fuel_of j <= String.length (print j))%nat.
Proof.
  induction j as [|b|n|s|l IH|l IH] using json_nested_ind; intros Hp;
    try exact (starts_length _ (print_starts _ Hp)).
  - inversion Hp as [| | | |l' Hl|]. subst l'. rewrite Forall_forall in Hl, IH.
    cbn [print fuel_of]. rewrite !length_app_str. change (String.length "[") with 1%nat.
    change (String.length "]") with 1%nat. destruct l as [|x l]; [simpl; lia|].
    pose proof (fold_fuel_join fuel_of print (x :: l)) as Hf.
    assert (fold_right (λ x n, S (Nat.max (fuel_of x) n)) 0%nat (x :: l) <=
            S (String.length (join_with "," (List.map print (x :: l)))))%nat; [|lia].
    apply Hf; [|done]. apply Forall_forall. intros y Hy. by apply IH, Hl.
  - inversion Hp as [| | | | |l' Hl]. subst l'. rewrite Forall_forall in Hl, IH.
    cbn [print fuel_of]. rewrite !length_app_str. change (String.length "{") with 1%nat.
    change (String.length "}") with 1%nat. destruct l as [|x l]; [simpl; lia|].
    pose proof (fold_fuel_join (λ kv, fuel_of kv.2) print_member (x :: l)) as Hf.
    change (λ kv : string * json, quote kv.1 +:+ ":" +:+ print kv.2) with print_member.
    assert (fold_right (λ kv n, S (Nat.max (fuel_of kv.2) n)) 0%nat (x :: l) <=
            S (String.length (join_with "," (List.map print_member (x :: l)))))%nat; [|lia].
    apply Hf; [|done]. apply Forall_forall. intros y Hy. unfold print_member.
    rewrite !length_app_str. specialize (IH y Hy (Hl y Hy)). lia.
Qed.

(** [json.Unmarshal] into an [any] gives back what [json.Marshal] encoded. *)
Lemma parse_print j : printable j → parse (print j) = Some (clean j).
Proof.
  intros Hp. unfold parse. pose proof (fuel_bound j Hp) as Hf.
  pose proof (parse_print_value j Hp (S (String.length (print j))) "") as Hv.
  rewrite app_nil_r_s in Hv. rewrite Hv; [done|lia|done].
Qed.

(** ** Decoding into a struct

    [json.Unmarshal] into a struct visits the members of the object in order.  A member whose
    key is a field's name, exactly or up to case, is decoded into that field; other members
    are skipped.  [null] leaves a value of a basic type or a struct as it is, and sets a
    slice to nil.  A type mismatch fails the call (the decoder goes on, but its result is
    not used by the code). *)
Section decoding.
Context `{CaseOrbits}.

Definition fold_name (s : string) : string := encode_runes (List.map orbit_min (runes s)).

(** A field: its name and how a member's value is stored in the struct. *)
Definition field (S : Type) : Type := (string * (json → S → option S))%type.

Definition find_field {S} (fields : list (field S)) (key : string) : option (field S) :=
  match List.find (λ f, String.eqb f.1 key) fields with
  | Some f => Some f
  | None => List.find (λ f, String.eqb (fold_name f.1) (fold_name key)) fields
  end.

Definition decode_member {S} (fields : list (field S)) (s : S) (kv : string * json) : option S :=
  match find_field fields kv.1 with
  | Some f => f.2 kv.2 s
  | None => Some s
  end.

Fixpoint decode_members {S} (fields : list (field S)) (l : list (string * json)) (s : S) : option S :=
  match l with
  | [] => Some s
  | kv :: l' => match decode_member fields s kv with
                | Some s' => decode_members fields l' s'
                | None => None
                end
  end.

Lemma decode_members_app {S} (fields : list (field S)) l1 l2 s :
  decode_members fields (l1 ++ l2) s =
  match decode_members fields l1 s with Some s' => decode_members fields l2 s' | None => None end.
Proof.
  revert s. induction l1 as [|kv l1 IH]; intros s; simpl; [done|].
  destruct (decode_member fields s kv); [apply IH|done].
Qed.

Definition decode_struct {S} (fields : list (field S)) (j : json) (s : S) : option S :=
  match j with
  | JNull => Some s
  | JObj l => decode_members fields l s
  | _ => None
  end.

End decoding.

Definition decode_string (j : json) (old : string) : option string :=
  match j with JNull => Some old | JStr s => Some s | _ => None end.
Definition decode_bool (j : json) (old : bool) : option bool :=
  match j with JNull => Some old | JBool b => Some b | _ => None end.
Definition decode_uint (bits : N) (j : json) (old : N) : option N :=
  match j with JNull => Some old | JNum literal => parse_uint bits literal | _ => None end.
Definition decode_int64 (j : json) (old : Z) : option Z :=
  match j with JNull => Some old | JNum literal => parse_int64 literal | _ => None end.
(** [null] inside an array of strings is the empty string. *)
Fixpoint decode_string_list (l : list json) : option (list string) :=
  match l with
  | [] => Some []
  | j :: l' => match decode_string j "", decode_string_list l' with
               | Some s, Some r => Some (s :: r)
               | _, _ => None
               end
  end.
Definition decode_strings (j : json) (_ : slice string) : option (slice string) :=
  match j with
  | JNull => Some None
  | JArr l => option_map Some (decode_string_list l)
  | _ => None
  end.

(** A field of a record: its name, decoder, getter and setter. *)
Definition mk_field {S A} (name : string) (decode : json → A → option A) (get : S → A)
    (set : S → A → S) : field S :=
  (name, λ j s, match decode j (get s) with Some a => Some (set s a) | None => None end).

(** ** Encoding a struct *)

Definition json_strings (l : list string) : json := JArr (List.map JStr l).
(** A nil slice is [null]. *)
Definition json_slice (s : slice string) : json :=
  match s with None => JNull | Some l => json_strings l end.
Definition json_N (n : N) : json := JNum (print_N n).
Definition json_Z (z : Z) : json := JNum (print_Z z).
(** A member left out by [omitempty] when its value is empty. *)
Definition omit_if (empty : bool) (name : string) (j : json) : list (string * json) :=
  if empty then [] else [(name, j)].

Section decode_omitted.
Context `{CaseOrbits} {S A : Type} (fields : list (field S)) (name : string)
  (decode : json → A → option A) (get : S → A) (set : S → A → S).

(** An [omitempty] member is decoded to the value it was encoded from: a member left out
    stands for the value the struct already has. *)
Lemma decode_omit (empty : bool) (value : A) (j : json) s :
  find_field fields name = Some (mk_field name decode get set) →
  decode j (get s) = Some value → (empty = true → value = get s) → set s (get s) = s →
  decode_members fields (omit_if empty name j) s = Some (set s value).
Proof.
  intros Hf Hd He Hs. unfold omit_if. destruct empty; simpl.
  - by rewrite (He eq_refl), Hs.
  - unfold decode_member. simpl. rewrite Hf. simpl. by rewrite Hd.
Qed.
End decode_omitted.

Lemma decode_uint_json bits n old : n < 2 ^ bits → decode_uint bits (json_N n) old = Some n.
Proof. apply parse_uint_print. Qed.

Lemma decode_string_list_json l : decode_string_list (List.map JStr l) = Some l.
Proof. induction l as [|s l IH]; [done|]. simpl. by rewrite IH. Qed.

Lemma print_Z_of_N n : print_Z (Z.of_N n) = print_N n.
Proof. by destruct n. Qed.

Lemma printable_N n : printable (json_N n).
Proof. unfold json_N. rewrite <- print_Z_of_N. apply printable_num. Qed.

Lemma parse_int64_print z : (- 2 ^ 63 <= z < 2 ^ 63)%Z → parse_int64 (print_Z z) = Some z.
Proof.
  intros Hz. assert (Hnat : ∀ n, n < 2 ^ 63 → parse_int64 (print_N n) = Some (Z.of_N n)).
  { intros n Hn. pose proof (parse_uint_print 64 n ltac:(lia)) as Hp.
    pose proof (numeral_no_minus _ (print_N_numeral n)) as Hm.
    destruct (print_N_numeral n) as (_ & c & s' & E & _). rewrite E in *. unfold parse_int64.
    destruct c as [[] [] [] [] [] [] [] []]; try (rewrite Hp, (proj2 (N.ltb_lt _ _) Hn); done).
    by destruct (Hm s'). }
  destruct z as [|p|p]; [by apply (Hnat 0)|apply (Hnat (Npos p)); lia|].
  unfold print_Z. change (parse_int64 ("-" +:+ ?t)) with
    (match parse_uint 64 t with
     | Some n => if n <=? 2 ^ 63 then Some (- Z.of_N n)%Z else None | None => None end).
  rewrite parse_uint_print by lia. rewrite (proj2 (N.leb_le _ _)) by lia. done.
Qed.

Lemma decode_int64_json z old : (- 2 ^ 63 <= z < 2 ^ 63)%Z → decode_int64 (json_Z z) old = Some z.
Proof. apply parse_int64_print. Qed.

(** ** Values whose text is valid *)

Fixpoint utf8_json (j : json) : bool :=
  match j with
  | JStr s => utf8_valid s
  | JArr l => forallb utf8_json l
  | JObj l => forallb (λ kv, utf8_valid kv.1 && utf8_json kv.2) l
  | _ => true
  end.

Lemma clean_utf8 j : utf8_json j = true → clean j = j.
Proof.
  induction j as [|b|n|s|l IH|l IH] using json_nested_ind; simpl; intros Hj; try done.
  - by rewrite coerce_valid.
  - f_equal. induction IH as [|x l Hx _ IHl]; [done|]. simpl in *. bools. by rewrite Hx, IHl.
  - f_equal. induction IH as [|[k x] l Hx _ IHl]; [done|]. simpl in *. bools.
    by rewrite coerce_valid, Hx, IHl.
Qed.

Lemma parse_print_utf8 j : printable j → utf8_json j = true → parse (print j) = Some j.
Proof. intros Hp Hj. rewrite parse_print by done. by rewrite clean_utf8. Qed.

Lemma printable_strings l : printable (json_strings l).
Proof. constructor. apply Forall_fmap, Forall_forall. intros s _. constructor. Qed.
Lemma printable_slice s : printable (json_slice s).
Proof. destruct s; [apply printable_strings|constructor]. Qed.
Lemma utf8_strings l : Forall (λ s, utf8_valid s = true) l → utf8_json (json_strings l) = true.
Proof. intros Hl. simpl. apply forallb_forall. intros j (s & <- & Hs)%in_map_iff.
  rewrite Forall_forall in Hl. by apply Hl, list_elem_of_In. Qed.

Lemma Forall_omit (P : string * json → Prop) e name j : P (name, j) → Forall P (omit_if e name j).
Proof. destruct e; constructor; auto. Qed.

Lemma utf8_omit e name j :
  utf8_valid name = true → utf8_json j = true →
  forallb (λ kv, utf8_valid kv.1 && utf8_json kv.2) (omit_if e name j) = true.
Proof. intros Hn Hj. destruct e; simpl; [done|]. by rewrite Hn, Hj. Qed.

Lemma utf8_slice s : Forall (λ s, utf8_valid s = true) (elems s) → utf8_json (json_slice s) = true.
Proof. destruct s; [apply utf8_strings|done]. Qed.

(** Proves that the JSON form of a struct is printable. *)
Ltac solve_printable :=
  repeat match goal with
  | |- printable (json_N _) => apply printable_N
  | |- printable (json_Z _) => apply printable_num
  | |- printable (json_strings _) => apply printable_strings
  | |- printable (json_slice _) => apply printable_slice
  | |- printable (JObj _) => constructor
  | |- printable (JStr _) => constructor
  | |- printable (JBool _) => constructor
  | |- printable JNull => constructor
  | |- Forall _ (_ ++ _) => apply Forall_app; split
  | |- Forall _ (omit_if _ _ _) => apply Forall_omit
  | |- Forall _ [] => constructor
  | |- Forall _ (_ :: _) => constructor
  | |- _ => progress cbn [snd]
  end.

(** Proves that a struct decodes from its JSON form, numbers by the lemmas above. *)
Ltac decode_steps :=
  repeat (cbn -[json_N json_Z decode_uint decode_int64 json_strings json_slice decode_strings];
          first [rewrite decode_uint_json by done | rewrite decode_int64_json by done]);
  cbn -[json_N json_Z decode_uint decode_int64 json_strings json_slice decode_strings].

(** ** What is parsed is valid *)

Lemma prepend_valid x o v rest :
  prepend x o = Some (v, rest) → (∀ s, utf8_valid (x +:+ s) = utf8_valid s) →
  (∀ v' rest', o = Some (v', rest') → utf8_valid v' = true) → utf8_valid v = true.
Proof. destruct o as [[v' rest']|]; [|done]. intros [= <- <-] Hx Ho. rewrite Hx. by eapply Ho. Qed.

Lemma simple_escape_valid e x : simple_escape e = Some x → ∀ s, utf8_valid (x +:+ s) = utf8_valid s.
Proof.
  unfold simple_escape. intros He s. repeat case_match; simplify_eq; try done.
  change (utf8_valid (String e s) = utf8_valid s). rewrite utf8_valid_cons, (proj2 (N.ltb_lt _ _)); [done|].
  repeat match goal with H : _ || _ = true |- _ => apply orb_true_iff in H as [H|H] end; bools; lia.
Qed.

Lemma unquote_valid n s v rest : unquote n s = Some (v, rest) → utf8_valid v = true.
Proof.
  remember (String.length s) as k eqn:Ek. revert n s v rest Ek.
  induction k as [k IH] using (well_founded_induction lt_wf). intros n [|c s1] v rest -> Hu; [done|].
  assert (IH1 : ∀ n' v' rest', unquote n' s1 = Some (v', rest') → utf8_valid v' = true).
  { intros n' v' rest'. apply (IH (String.length s1)); [simpl; lia|done]. }
  destruct n as [|n']; [|by eapply IH1]. cbn [unquote] in Hu.
  destruct (N_of_ascii c =? 34); [by injection Hu as <- _|].
  destruct (N_of_ascii c =? 92) eqn:Ec.
  - destruct s1 as [|e s2]; [done|].
    assert (IH2 : ∀ n' v' rest', unquote n' s2 = Some (v', rest') → utf8_valid v' = true).
    { intros n' v' rest'. apply (IH (String.length s2)); [simpl; lia|done]. }
    destruct (N_of_ascii e =? 117).
    + destruct (hex4 s2) as [r|]; [|done]. destruct (surrogate r); [destruct (surrogate_pair _ _)|];
        (eapply prepend_valid; [exact Hu|intros; apply utf8_encode_rune|by eapply IH2]).
    + destruct (simple_escape e) as [x|] eqn:Ex; [|done].
      eapply prepend_valid; [exact Hu|by apply (simple_escape_valid e)|by eapply IH2].
  - destruct (N_of_ascii c <? 32); [done|]. destruct (N.ltb_spec (N_of_ascii c) 0x80) as [Hc|_].
    + eapply prepend_valid; [exact Hu| |by eapply IH1]. intros s. change (utf8_valid (String c s) = utf8_valid s).
      by rewrite utf8_valid_cons, (proj2 (N.ltb_lt _ _) Hc).
    + destruct (decode_rune c s1) as [r w].
      eapply prepend_valid; [exact Hu|intros; apply utf8_encode_rune|by eapply IH1].
Qed.

Lemma parse_value_valid f :
  (∀ s j rest, parse_value f s = Some (j, rest) → utf8_json j = true) ∧
  (∀ s l rest, parse_elements f s = Some (l, rest) → forallb utf8_json l = true) ∧
  (∀ s l rest, parse_members f s = Some (l, rest) →
     forallb (λ kv, utf8_valid kv.1 && utf8_json kv.2) l = true).
Proof.
  induction f as [|f (IHv & IHe & IHm)]; [done|]. split_and!; intros s x rest Hp;
    cbn [parse_value parse_elements parse_members] in Hp.
  - destruct (skip_ws s) as [|c s1]; [done|].
    repeat case_match; simplify_eq; try done;
      try (by apply fmap_Some in Hp as (? & _ & [= -> ->])); cbn [utf8_json].
    + by eapply IHm.
    + by eapply IHe.
    + by eapply unquote_valid.
  - repeat case_match; simplify_eq; cbn [forallb]; apply andb_true_iff; split; eauto.
  - repeat case_match; simplify_eq; cbn [forallb fst snd]; rewrite !andb_true_iff;
      split_and!; eauto using unquote_valid.
Qed.

Lemma parse_valid s j : parse s = Some j → utf8_json j = true.
Proof.
  unfold parse. intros Hp. repeat case_match; simplify_eq. by eapply parse_value_valid.
Qed.

(** ** What is decoded keeps the invariants of its fields *)
Section decoded.
Context `{CaseOrbits} {S : Type} (P : S → Prop).

Definition keeps (f : field S) : Prop :=
  ∀ j s s', utf8_json j = true → f.2 j s = Some s' → P s → P s'.

Lemma find_field_in (fields : list (field S)) key f : find_field fields key = Some f → In f fields.
Proof.
  unfold find_field. case_match eqn:E; intros Hf.
  - injection Hf as <-. by apply find_some in E as [? _].
  - by apply find_some in Hf as [? _].
Qed.

Lemma decode_struct_keeps fields j s s' :
  Forall keeps fields → utf8_json j = true → decode_struct fields j s = Some s' → P s → P s'.
Proof.
  intros Hf. destruct j as [| | | | |l]; try done; [by intros _ [= ->]|]. cbn [utf8_json decode_struct].
  revert s. induction l as [|[k x] l IH]; intros s Hj Hd Hs; [by injection Hd as <-|].
  cbn [forallb fst snd] in Hj. bools. cbn [decode_members] in Hd. unfold decode_member in Hd.
  cbn [fst snd] in Hd. destruct (find_field fields k) as [f|] eqn:Ef; [|by apply (IH s)].
  destruct (f.2 x s) as [s1|] eqn:Ex; [|done]. apply (IH s1); [done..|].
  rewrite Forall_forall in Hf. apply find_field_in, list_elem_of_In in Ef. by eapply (Hf f Ef).
Qed.
End decoded.

Lemma keeps_mk {S A} (P : S → Prop) (Q : A → Prop) name (decode : json → A → option A) (get : S → A) set :
  (∀ j a a', utf8_json j = true → decode j a = Some a' → Q a → Q a') →
  (∀ s, P s → Q (get s)) → (∀ s a, P s → Q a → P (set s a)) → keeps P (mk_field name decode get set).
Proof.
  intros Hd Hget Hset j s s' Hj. cbn [mk_field snd]. destruct (decode j (get s)) as [a|] eqn:E; [|done].
  intros [= <-] Hs. apply Hset; [done|]. eapply Hd; eauto.
Qed.

Lemma decode_string_valid j a a' :
  utf8_json j = true → decode_string j a = Some a' → utf8_valid a = true → utf8_valid a' = true.
Proof. destruct j; try done; simpl; by intros ? [= <-]. Qed.
Lemma decode_strings_valid j a a' :
  utf8_json j = true → decode_strings j a = Some a' →
  Forall (λ s, utf8_valid s = true) (elems a) → Forall (λ s, utf8_valid s = true) (elems a').
Proof.
  destruct j as [| | | |l|]; try done; [by intros _ [= <-]|]. cbn [decode_strings utf8_json].
  intros Hj Hd _. destruct (decode_string_list l) as [r|] eqn:E; [|done]. injection Hd as <-. simpl elems.
  revert r E. induction l as [|x l IH]; intros r E; [by injection E as <-|].
  cbn [forallb decode_string_list] in *. bools.
  destruct (decode_string x "") as [v|] eqn:Ev; [|done]. destruct (decode_string_list l); [|done].
  injection E as <-. constructor; [|by apply IH]. by eapply decode_string_valid.
Qed.
Lemma decode_uint_bound bits j a a' : decode_uint bits j a = Some a' → a < 2 ^ bits → a' < 2 ^ bits.
Proof.
  destruct j; try done; simpl; [by intros [= <-]|]. unfold parse_uint.
  intros Hp _. repeat case_match; simplify_eq; bools; lia.
Qed.
