(* ===== verification/Time.v ===== *)
(** * time.Time

    An instant is a number of nanoseconds since the zero time (January 1, year 1, UTC), which
    is what the code observes of it: [IsZero], [time.Unix] and the RFC 3339 format with
    nanoseconds in UTC.  The calendar is the proleptic Gregorian one. *)
From S2P Require Import Prelude Sha256 GoStd Json.
From Stdlib Require Import ZArith.

Definition time : Type := Z.
Definition zero_time : time := 0%Z.
Definition IsZero (t : time) : bool := (t =? 0)%Z.

Section calendar.
Local Open Scope Z_scope.

Definition nanoseconds_per_day : Z := 86400 * 1000000000.
(** Seconds from the zero time to January 1, 1970. *)
Definition unix_epoch : Z := 62135596800.
Definition time_Unix (sec nsec : Z) : time := (unix_epoch + sec) * 1000000000 + nsec.

(** Year, month and day of the day [days] after the zero time, counting years from March. *)
Definition civil (days : Z) : Z * Z * Z :=
  let z := days + 306 in
  let era := z / 146097 in
  let doe := z mod 146097 in
  let yoe := (doe - doe / 1460 + doe / 36524 - doe / 146096) / 365 in
  let doy := doe - (365 * yoe + yoe / 4 - yoe / 100) in
  let mp := (5 * doy + 2) / 153 in
  let day := doy - (153 * mp + 2) / 5 + 1 in
  let month := if mp <? 10 then mp + 3 else mp - 9 in
  (yoe + era * 400 + (if month <=? 2 then 1 else 0), month, day).

(** [appendInt(b, x, width)]: zero-padded decimal. *)
Fixpoint zeros (n : nat) : string :=
  match n with O => "" | S n' => String "0" (zeros n') end.
Definition padded (x : Z) (width : nat) : string :=
  let digits := print_N (Z.to_N (Z.abs x)) in
  ((if (x <? 0)%Z then "-" else "") +:+ zeros (width - String.length digits) +:+ digits)%string.

Fixpoint trim_zeros_front (s : string) : string :=
  match s with
  | String "0" s' => trim_zeros_front s'
  | _ => s
  end.
(** The [.999999999] of the layout: no trailing zeros, nothing for a whole second. *)
Definition fraction (nanos : Z) : string :=
  let digits := rev_string (trim_zeros_front (rev_string (padded nanos 9))) in
  if String.eqb digits "" then "" else ("." +:+ digits)%string.

(** [t.UTC().Format(time.RFC3339Nano)]. *)
Definition format_RFC3339Nano (t : time) : string :=
  let days := t / nanoseconds_per_day in
  let nanos := t mod nanoseconds_per_day in
  let seconds := nanos / 1000000000 in
  let '(year, month, day) := civil days in
  (padded year 4 +:+ "-" +:+ padded month 2 +:+ "-" +:+ padded day 2 +:+ "T" +:+
   padded (seconds / 3600) 2 +:+ ":" +:+ padded (seconds / 60 mod 60) 2 +:+ ":" +:+
   padded (seconds mod 60) 2 +:+ fraction (nanos mod 1000000000) +:+ "Z")%string.

Example format_epoch : format_RFC3339Nano (time_Unix 0 0) = "1970-01-01T00:00:00Z".
Proof. vm_compute. reflexivity. Qed.
Example format_leap_day : format_RFC3339Nano (time_Unix 1709210096 120000000) = "2024-02-29T12:34:56.12Z".
Proof. vm_compute. reflexivity. Qed.
Example format_zero_time : format_RFC3339Nano zero_time = "0001-01-01T00:00:00Z".
Proof. vm_compute. reflexivity. Qed.

End calendar.

(** A formatted instant is ASCII text. *)
Definition ascii_char (c : ascii) : bool := N_of_ascii c <? 0x80.

Lemma all_bytes_rev p s : all_bytes p (rev_string s) = all_bytes p s.
Proof.
  induction s as [|c s IH]; [done|]. change (String c s) with (String c "" +:+ s).
  rewrite rev_string_app, !all_bytes_app, IH. apply andb_comm.
Qed.

Lemma digits_ascii n : all_bytes ascii_char (print_N n) = true.
Proof.
  eapply all_bytes_impl; [|apply print_N_numeral]. intros c. unfold in_range, ascii_char.
  rewrite andb_true_iff, !N.leb_le, N.ltb_lt. lia.
Qed.

Lemma padded_ascii x width : all_bytes ascii_char (padded x width) = true.
Proof.
  unfold padded. rewrite !all_bytes_app, digits_ascii.
  assert (Hz : ∀ n, all_bytes ascii_char (zeros n) = true) by (induction n; done).
  rewrite Hz. by destruct (x <? 0)%Z.
Qed.

Lemma fraction_ascii nanos : all_bytes ascii_char (fraction nanos) = true.
Proof.
  unfold fraction. set (s := rev_string (padded nanos 9)).
  assert (Hs : all_bytes ascii_char s = true) by (unfold s; by rewrite all_bytes_rev, padded_ascii).
  assert (Ht : all_bytes ascii_char (trim_zeros_front s) = true).
  { clearbody s. induction s as [|c s IH]; [done|]. simpl in Hs. bools.
    assert (Hc : all_bytes ascii_char (String c s) = true) by (simpl; by apply andb_true_iff).
    unfold trim_zeros_front; fold trim_zeros_front. repeat case_match; auto. }
  destruct (String.eqb _ ""); [done|]. by rewrite all_bytes_app, all_bytes_rev, Ht.
Qed.

Lemma format_utf8 t : utf8_valid (format_RFC3339Nano t) = true.
Proof.
  apply ascii_utf8. change (all_bytes ascii_char (format_RFC3339Nano t) = true).
  unfold format_RFC3339Nano. destruct (civil _) as [[year month] day].
  by rewrite !all_bytes_app, !padded_ascii, fraction_ascii.
Qed.
