(* ===== verification/Mailbox.v ===== *)
(** * internal/mailbox/model.go: message, state and folder records

    The portable records of a mailbox, the fingerprints that name them, the construction of a
    message and its state from an imported message, and the check every stored message goes
    through. *)
From S2P Require Import Prelude Sha256 GoStd Unicode Json Time.
From Stdlib Require Import ZArith.

Definition MailboxSpaceType : string := "email.atmos.mailbox".
Definition MessageCollection : string := "email.atmos.message".
Definition MessageStateCollection : string := "email.atmos.messageState".
Definition FolderCollection : string := "email.atmos.folder".
Definition MessageMIMEType : string := "message/rfc822".
Definition MaxRawMessageBytes : N := 10 * 1024 * 1024.
Definition fingerprintPrefix : string := "sha256-".

(** ** Records *)

(** [CIDLink] has one field, [Link]. *)
Record BlobRef : Type := MkBlobRef {
  brType : string;
  brLink : string;
  brMIMEType : string;
  brSize : Z
}.

Record MessageRecord : Type := MkMessageRecord {
  mrType : string;
  mrRaw : BlobRef;
  mrSHA256 : string;
  mrSize : Z;
  mrDeliveryFingerprint : string;
  mrLogicalMessageID : string;
  mrSourceKey : string;
  mrInitialMailbox : string;
  mrDeliveredAt : string;
  mrSourceMessageID : string;
  mrMessageDate : string;
  mrInReplyTo : string;
  mrReferences : slice string
}.

Record ProjectionIdentity : Type := MkProjectionIdentity {
  piUID : N;
  piUIDValidity : N;
  piModSeq : N
}.

Record MessageStateRecord : Type := MkMessageStateRecord {
  msType : string;
  msMessage : string;
  msMailboxIDs : slice string;
  msKeywords : slice string;
  msDeletePending : bool;
  msTombstone : bool;
  msRevision : N;
  msUpdatedAt : string;
  msLastOperation : string;
  msProjection : ProjectionIdentity
}.

Record FolderRecord : Type := MkFolderRecord {
  fdType : string;
  fdName : string;
  fdRole : string;
  fdUIDValidity : N;
  fdRevision : N;
  fdUpdatedAt : string
}.

Record Folder : Type := MkFolder {
  fdRKey : string;
  fdRecord : FolderRecord
}.

Record MessagePair : Type := MkMessagePair {
  mpRKey : string;
  mpMessage : MessageRecord;
  mpState : MessageStateRecord
}.

Record ImportedMessage : Type := MkImportedMessage {
  imRecipientDID : string;
  imSourceKey : string;
  imRaw : string;
  imMailbox : string;
  imMailboxes : list string;
  imMessageID : string;
  imMessageDate : time;
  imInReplyTo : string;
  imReferences : list string;
  imKeywords : list string;
  imDeletePending : bool;
  imUID : N;
  imUIDValidity : N;
  imModSeq : N;
  imDeliveredAt : time
}.

#[export] Instance BlobRef_eq_dec : EqDecision BlobRef.
Proof. solve_decision. Defined.
#[export] Instance MessageRecord_eq_dec : EqDecision MessageRecord.
Proof. solve_decision. Defined.
#[export] Instance ProjectionIdentity_eq_dec : EqDecision ProjectionIdentity.
Proof. solve_decision. Defined.
#[export] Instance MessageStateRecord_eq_dec : EqDecision MessageStateRecord.
Proof. solve_decision. Defined.
#[export] Instance FolderRecord_eq_dec : EqDecision FolderRecord.
Proof. solve_decision. Defined.

Definition zero_projection : ProjectionIdentity := MkProjectionIdentity 0 0 0.

(** ** Fingerprints *)

Definition delivery_preimage (recipientDID sourceKey raw : string) : string :=
  ("comail-habitat-delivery-v2" +:+ NUL) +:+ recipientDID +:+ NUL +:+ sourceKey +:+ NUL +:+ raw.
Definition deliveryFingerprint (recipientDID sourceKey raw : string) : string :=
  fingerprintPrefix +:+ hex_encode (sha256 (delivery_preimage recipientDID sourceKey raw)).

Definition DeliveryFingerprint (recipientDID raw : string) : string :=
  deliveryFingerprint recipientDID "" raw.
Definition ImportedFingerprint (src : ImportedMessage) : string :=
  deliveryFingerprint (imRecipientDID src) (imSourceKey src) (imRaw src).

Definition logical_preimage (recipientDID sourceKey : string) : string :=
  ("comail-logical-message-v1" +:+ NUL) +:+ recipientDID +:+ NUL +:+ sourceKey.
Definition LogicalMessageID (recipientDID sourceKey deliveryFingerprint : string) : string :=
  if String.eqb sourceKey "" then deliveryFingerprint
  else fingerprintPrefix +:+ hex_encode (sha256 (logical_preimage recipientDID sourceKey)).

Definition RawSHA256 (raw : string) : string := hex_encode (sha256 raw).

Definition FolderRKey (name : string) : string :=
  "folder-" +:+ hex_encode (sha256 (("comail-folder-v1" +:+ NUL) +:+ name)).

Definition byte_at (s : string) (n : nat) : N :=
  match String.get n s with Some c => N_of_ascii c | None => 0 end.
Definition nonzeroUint32 (sum : string) : N :=
  let value := N.lor (N.lor (N.shiftl (byte_at sum 0) 24) (N.shiftl (byte_at sum 1) 16))
                 (N.lor (N.shiftl (byte_at sum 2) 8) (byte_at sum 3)) in
  if value =? 0 then 1 else value.
Definition StableUIDValidity (recipientDID mailboxName : string) : N :=
  nonzeroUint32 (sha256 (("comail-uidvalidity-v1" +:+ NUL) +:+ recipientDID +:+ NUL +:+ mailboxName)).
Definition StableFolderUIDValidity (recipientDID folderID : string) : N :=
  nonzeroUint32 (sha256 (("comail-folder-uidvalidity-v1" +:+ NUL) +:+ recipientDID +:+ NUL +:+ folderID)).

(** ** Building records *)

Definition normalize_step (s : gset string * list string) (value : string) : gset string * list string :=
  let value := TrimSpace value in
  if String.eqb value "" then s
  else if bool_decide (value ∈ s.1) then s
  else ({[value]} ∪ s.1, s.2 ++ [value]).
Definition normalizeStrings (values : list string) : list string :=
  sort_strings (fold_left normalize_step values (∅, [])).2.

Definition folderRKeys (names : list string) : list string := sort_strings (List.map FolderRKey names).

Definition NewFolder (name role : string) (uidValidity : N) : Folder :=
  MkFolder (FolderRKey name)
    (MkFolderRecord FolderCollection name role uidValidity 1 (format_RFC3339Nano (time_Unix 0 0))).

Definition set_imMailbox (src : ImportedMessage) (mailbox : string) : ImportedMessage :=
  MkImportedMessage (imRecipientDID src) (imSourceKey src) (imRaw src) mailbox (imMailboxes src)
    (imMessageID src) (imMessageDate src) (imInReplyTo src) (imReferences src) (imKeywords src)
    (imDeletePending src) (imUID src) (imUIDValidity src) (imModSeq src) (imDeliveredAt src).

Definition import_mailboxes (src : ImportedMessage) : list string :=
  let mailboxes := normalizeStrings (imMailboxes src) in
  let mailboxes := if String.eqb (imMailbox src) "" then mailboxes
                   else normalizeStrings (mailboxes ++ [imMailbox src]) in
  if llen mailboxes =? 0 then ["INBOX"] else mailboxes.

Definition set_brType (blob : BlobRef) (type : string) : BlobRef :=
  MkBlobRef type (brLink blob) (brMIMEType blob) (brSize blob).

Definition raw_size (raw : string) : Z := Z.of_N (len raw).

(** [append([]string(nil), values...)]: nil for no values. *)
Definition copy_slice (values : list string) : slice string :=
  match values with [] => None | _ => Some values end.

Definition format_nonzero (t : time) : string := if IsZero t then "" else format_RFC3339Nano t.

Definition NewMessagePair (src : ImportedMessage) (blob : BlobRef) : result MessagePair :=
  fail_if String.eqb (imRecipientDID src) "" || negb (HasPrefix (imRecipientDID src) "did:")
    with ErrInvalidRecord ;;
  fail_if len (imRaw src) =? 0 with ErrInvalidRecord ;;
  fail_if MaxRawMessageBytes <? len (imRaw src) with ErrMessageTooLarge ;;
  fail_if 512 <? len (imSourceKey src) with ErrInvalidRecord ;;
  let mailboxes := import_mailboxes src in
  fail_if 32 <? llen mailboxes with ErrInvalidRecord ;;
  let? _ := range_check (λ name, fail_if 255 <? len name with ErrInvalidRecord ;; Ok tt) mailboxes in
  fail_if (998 <? len (imMessageID src)) || (998 <? len (imInReplyTo src)) ||
    (100 <? llen (imReferences src)) with ErrInvalidRecord ;;
  let? _ := range_check (λ reference, fail_if 998 <? len reference with ErrInvalidRecord ;; Ok tt)
              (imReferences src) in
  let keywords := normalizeStrings (imKeywords src) in
  fail_if 128 <? llen keywords with ErrInvalidRecord ;;
  let? _ := range_check (λ keyword, fail_if 255 <? len keyword with ErrInvalidRecord ;; Ok tt) keywords in
  let src := set_imMailbox src (default "" (head mailboxes)) in
  let stateTime := if IsZero (imDeliveredAt src) then time_Unix 0 0 else imDeliveredAt src in
  let blob := if String.eqb (brType blob) "" then set_brType blob "blob" else blob in
  fail_if String.eqb (brLink blob) "" || negb (String.eqb (brMIMEType blob) MessageMIMEType) ||
    negb (brSize blob =? raw_size (imRaw src))%Z with ErrInvalidRecord ;;
  let rkey := ImportedFingerprint src in
  let message := MkMessageRecord MessageCollection blob (RawSHA256 (imRaw src)) (raw_size (imRaw src))
    rkey (LogicalMessageID (imRecipientDID src) (imSourceKey src) rkey) (imSourceKey src)
    (imMailbox src) (format_nonzero (imDeliveredAt src)) (imMessageID src)
    (format_nonzero (imMessageDate src)) (imInReplyTo src) (copy_slice (imReferences src)) in
  let projection := if llen mailboxes =? 1
    then MkProjectionIdentity (imUID src) (imUIDValidity src) (imModSeq src)
    else zero_projection in
  let state := MkMessageStateRecord MessageStateCollection rkey (Some (folderRKeys mailboxes))
    (Some keywords) (imDeletePending src) false 1 (format_RFC3339Nano stateTime) "" projection in
  Ok (MkMessagePair rkey message state).

Definition ValidateStoredMessage (recipientDID rkey : string) (record : MessageRecord) (raw : string) :
    result unit :=
  fail_if negb (String.eqb (mrType record) MessageCollection) with ErrIntegrity ;;
  fail_if (len raw =? 0) || (MaxRawMessageBytes <? len raw) with ErrIntegrity ;;
  let wantFingerprint := deliveryFingerprint recipientDID (mrSourceKey record) raw in
  let wantLogicalID := LogicalMessageID recipientDID (mrSourceKey record) wantFingerprint in
  fail_if negb (String.eqb rkey wantFingerprint) ||
    negb (String.eqb (mrDeliveryFingerprint record) wantFingerprint) ||
    (negb (String.eqb (mrLogicalMessageID record) "") &&
     negb (String.eqb (mrLogicalMessageID record) wantLogicalID)) with ErrIntegrity ;;
  fail_if negb (String.eqb (mrSHA256 record) (RawSHA256 raw)) ||
    negb (mrSize record =? raw_size raw)%Z with ErrIntegrity ;;
  fail_if String.eqb (brLink (mrRaw record)) "" ||
    negb (String.eqb (brMIMEType (mrRaw record)) MessageMIMEType) ||
    negb (brSize (mrRaw record) =? raw_size raw)%Z with ErrIntegrity ;;
  Ok tt.

(** ** The records as JSON *)

Definition set_brLink (r : BlobRef) (x : string) : BlobRef :=
  MkBlobRef (brType r) x (brMIMEType r) (brSize r).
Definition set_brMIMEType (r : BlobRef) (x : string) : BlobRef :=
  MkBlobRef (brType r) (brLink r) x (brSize r).
Definition set_brSize (r : BlobRef) (x : Z) : BlobRef :=
  MkBlobRef (brType r) (brLink r) (brMIMEType r) x.
Definition set_mrType (r : MessageRecord) (x : string) : MessageRecord :=
  MkMessageRecord x (mrRaw r) (mrSHA256 r) (mrSize r) (mrDeliveryFingerprint r)
    (mrLogicalMessageID r) (mrSourceKey r) (mrInitialMailbox r) (mrDeliveredAt r)
    (mrSourceMessageID r) (mrMessageDate r) (mrInReplyTo r) (mrReferences r).
Definition set_mrRaw (r : MessageRecord) (x : BlobRef) : MessageRecord :=
  MkMessageRecord (mrType r) x (mrSHA256 r) (mrSize r) (mrDeliveryFingerprint r)
    (mrLogicalMessageID r) (mrSourceKey r) (mrInitialMailbox r) (mrDeliveredAt r)
    (mrSourceMessageID r) (mrMessageDate r) (mrInReplyTo r) (mrReferences r).
Definition set_mrSHA256 (r : MessageRecord) (x : string) : MessageRecord :=
  MkMessageRecord (mrType r) (mrRaw r) x (mrSize r) (mrDeliveryFingerprint r)
    (mrLogicalMessageID r) (mrSourceKey r) (mrInitialMailbox r) (mrDeliveredAt r)
    (mrSourceMessageID r) (mrMessageDate r) (mrInReplyTo r) (mrReferences r).
Definition set_mrSize (r : MessageRecord) (x : Z) : MessageRecord :=
  MkMessageRecord (mrType r) (mrRaw r) (mrSHA256 r) x (mrDeliveryFingerprint r)
    (mrLogicalMessageID r) (mrSourceKey r) (mrInitialMailbox r) (mrDeliveredAt r)
    (mrSourceMessageID r) (mrMessageDate r) (mrInReplyTo r) (mrReferences r).
Definition set_mrDeliveryFingerprint (r : MessageRecord) (x : string) : MessageRecord :=
  MkMessageRecord (mrType r) (mrRaw r) (mrSHA256 r) (mrSize r) x (mrLogicalMessageID r)
    (mrSourceKey r) (mrInitialMailbox r) (mrDeliveredAt r) (mrSourceMessageID r)
    (mrMessageDate r) (mrInReplyTo r) (mrReferences r).
Definition set_mrLogicalMessageID (r : MessageRecord) (x : string) : MessageRecord :=
  MkMessageRecord (mrType r) (mrRaw r) (mrSHA256 r) (mrSize r) (mrDeliveryFingerprint r) x
    (mrSourceKey r) (mrInitialMailbox r) (mrDeliveredAt r) (mrSourceMessageID r)
    (mrMessageDate r) (mrInReplyTo r) (mrReferences r).
Definition set_mrSourceKey (r : MessageRecord) (x : string) : MessageRecord :=
  MkMessageRecord (mrType r) (mrRaw r) (mrSHA256 r) (mrSize r) (mrDeliveryFingerprint r)
    (mrLogicalMessageID r) x (mrInitialMailbox r) (mrDeliveredAt r) (mrSourceMessageID r)
    (mrMessageDate r) (mrInReplyTo r) (mrReferences r).
Definition set_mrInitialMailbox (r : MessageRecord) (x : string) : MessageRecord :=
  MkMessageRecord (mrType r) (mrRaw r) (mrSHA256 r) (mrSize r) (mrDeliveryFingerprint r)
    (mrLogicalMessageID r) (mrSourceKey r) x (mrDeliveredAt r) (mrSourceMessageID r)
    (mrMessageDate r) (mrInReplyTo r) (mrReferences r).
Definition set_mrDeliveredAt (r : MessageRecord) (x : string) : MessageRecord :=
  MkMessageRecord (mrType r) (mrRaw r) (mrSHA256 r) (mrSize r) (mrDeliveryFingerprint r)
    (mrLogicalMessageID r) (mrSourceKey r) (mrInitialMailbox r) x (mrSourceMessageID r)
    (mrMessageDate r) (mrInReplyTo r) (mrReferences r).
Definition set_mrSourceMessageID (r : MessageRecord) (x : string) : MessageRecord :=
  MkMessageRecord (mrType r) (mrRaw r) (mrSHA256 r) (mrSize r) (mrDeliveryFingerprint r)
    (mrLogicalMessageID r) (mrSourceKey r) (mrInitialMailbox r) (mrDeliveredAt r) x
    (mrMessageDate r) (mrInReplyTo r) (mrReferences r).
Definition set_mrMessageDate (r : MessageRecord) (x : string) : MessageRecord :=
  MkMessageRecord (mrType r) (mrRaw r) (mrSHA256 r) (mrSize r) (mrDeliveryFingerprint r)
    (mrLogicalMessageID r) (mrSourceKey r) (mrInitialMailbox r) (mrDeliveredAt r)
    (mrSourceMessageID r) x (mrInReplyTo r) (mrReferences r).
Definition set_mrInReplyTo (r : MessageRecord) (x : string) : MessageRecord :=
  MkMessageRecord (mrType r) (mrRaw r) (mrSHA256 r) (mrSize r) (mrDeliveryFingerprint r)
    (mrLogicalMessageID r) (mrSourceKey r) (mrInitialMailbox r) (mrDeliveredAt r)
    (mrSourceMessageID r) (mrMessageDate r) x (mrReferences r).
Definition set_mrReferences (r : MessageRecord) (x : slice string) : MessageRecord :=
  MkMessageRecord (mrType r) (mrRaw r) (mrSHA256 r) (mrSize r) (mrDeliveryFingerprint r)
    (mrLogicalMessageID r) (mrSourceKey r) (mrInitialMailbox r) (mrDeliveredAt r)
    (mrSourceMessageID r) (mrMessageDate r) (mrInReplyTo r) x.
Definition set_piUID (r : ProjectionIdentity) (x : N) : ProjectionIdentity :=
  MkProjectionIdentity x (piUIDValidity r) (piModSeq r).
Definition set_piUIDValidity (r : ProjectionIdentity) (x : N) : ProjectionIdentity :=
  MkProjectionIdentity (piUID r) x (piModSeq r).
Definition set_piModSeq (r : ProjectionIdentity) (x : N) : ProjectionIdentity :=
  MkProjectionIdentity (piUID r) (piUIDValidity r) x.
Definition set_msType (r : MessageStateRecord) (x : string) : MessageStateRecord :=
  MkMessageStateRecord x (msMessage r) (msMailboxIDs r) (msKeywords r) (msDeletePending r)
    (msTombstone r) (msRevision r) (msUpdatedAt r) (msLastOperation r) (msProjection r).
Definition set_msMessage (r : MessageStateRecord) (x : string) : MessageStateRecord :=
  MkMessageStateRecord (msType r) x (msMailboxIDs r) (msKeywords r) (msDeletePending r)
    (msTombstone r) (msRevision r) (msUpdatedAt r) (msLastOperation r) (msProjection r).
Definition set_msMailboxIDs (r : MessageStateRecord) (x : slice string) : MessageStateRecord :=
  MkMessageStateRecord (msType r) (msMessage r) x (msKeywords r) (msDeletePending r)
    (msTombstone r) (msRevision r) (msUpdatedAt r) (msLastOperation r) (msProjection r).
Definition set_msKeywords (r : MessageStateRecord) (x : slice string) : MessageStateRecord :=
  MkMessageStateRecord (msType r) (msMessage r) (msMailboxIDs r) x (msDeletePending r)
    (msTombstone r) (msRevision r) (msUpdatedAt r) (msLastOperation r) (msProjection r).
Definition set_msDeletePending (r : MessageStateRecord) (x : bool) : MessageStateRecord :=
  MkMessageStateRecord (msType r) (msMessage r) (msMailboxIDs r) (msKeywords r) x (msTombstone r)
    (msRevision r) (msUpdatedAt r) (msLastOperation r) (msProjection r).
Definition set_msTombstone (r : MessageStateRecord) (x : bool) : MessageStateRecord :=
  MkMessageStateRecord (msType r) (msMessage r) (msMailboxIDs r) (msKeywords r)
    (msDeletePending r) x (msRevision r) (msUpdatedAt r) (msLastOperation r) (msProjection r).
Definition set_msRevision (r : MessageStateRecord) (x : N) : MessageStateRecord :=
  MkMessageStateRecord (msType r) (msMessage r) (msMailboxIDs r) (msKeywords r)
    (msDeletePending r) (msTombstone r) x (msUpdatedAt r) (msLastOperation r) (msProjection r).
Definition set_msUpdatedAt (r : MessageStateRecord) (x : string) : MessageStateRecord :=
  MkMessageStateRecord (msType r) (msMessage r) (msMailboxIDs r) (msKeywords r)
    (msDeletePending r) (msTombstone r) (msRevision r) x (msLastOperation r) (msProjection r).
Definition set_msLastOperation (r : MessageStateRecord) (x : string) : MessageStateRecord :=
  MkMessageStateRecord (msType r) (msMessage r) (msMailboxIDs r) (msKeywords r)
    (msDeletePending r) (msTombstone r) (msRevision r) (msUpdatedAt r) x (msProjection r).
Definition set_msProjection (r : MessageStateRecord) (x : ProjectionIdentity) : MessageStateRecord :=
  MkMessageStateRecord (msType r) (msMessage r) (msMailboxIDs r) (msKeywords r)
    (msDeletePending r) (msTombstone r) (msRevision r) (msUpdatedAt r) (msLastOperation r) x.
Definition set_fdType (r : FolderRecord) (x : string) : FolderRecord :=
  MkFolderRecord x (fdName r) (fdRole r) (fdUIDValidity r) (fdRevision r) (fdUpdatedAt r).
Definition set_fdName (r : FolderRecord) (x : string) : FolderRecord :=
  MkFolderRecord (fdType r) x (fdRole r) (fdUIDValidity r) (fdRevision r) (fdUpdatedAt r).
Definition set_fdRole (r : FolderRecord) (x : string) : FolderRecord :=
  MkFolderRecord (fdType r) (fdName r) x (fdUIDValidity r) (fdRevision r) (fdUpdatedAt r).
Definition set_fdUIDValidity (r : FolderRecord) (x : N) : FolderRecord :=
  MkFolderRecord (fdType r) (fdName r) (fdRole r) x (fdRevision r) (fdUpdatedAt r).
Definition set_fdRevision (r : FolderRecord) (x : N) : FolderRecord :=
  MkFolderRecord (fdType r) (fdName r) (fdRole r) (fdUIDValidity r) x (fdUpdatedAt r).
Definition set_fdUpdatedAt (r : FolderRecord) (x : string) : FolderRecord :=
  MkFolderRecord (fdType r) (fdName r) (fdRole r) (fdUIDValidity r) (fdRevision r) x.

Definition blob_json (b : BlobRef) : json :=
  JObj [("$type", JStr (brType b)); ("ref", JObj [("$link", JStr (brLink b))]);
        ("mimeType", JStr (brMIMEType b)); ("size", json_Z (brSize b))].

Definition omit_string (name value : string) : list (string * json) :=
  omit_if (String.eqb value "") name (JStr value).
Definition omit_N (name : string) (value : N) : list (string * json) :=
  omit_if (value =? 0) name (json_N value).
Definition omit_bool (name : string) (value : bool) : list (string * json) :=
  omit_if (negb value) name (JBool value).

Definition message_json (r : MessageRecord) : json :=
  JObj ([("$type", JStr (mrType r)); ("raw", blob_json (mrRaw r)); ("sha256", JStr (mrSHA256 r));
         ("size", json_Z (mrSize r)); ("deliveryFingerprint", JStr (mrDeliveryFingerprint r));
         ("logicalMessageId", JStr (mrLogicalMessageID r))] ++
        omit_string "sourceKey" (mrSourceKey r) ++
        [("initialMailbox", JStr (mrInitialMailbox r))] ++
        omit_string "deliveredAt" (mrDeliveredAt r) ++
        omit_string "sourceMessageId" (mrSourceMessageID r) ++
        omit_string "messageDate" (mrMessageDate r) ++
        omit_string "inReplyTo" (mrInReplyTo r) ++
        omit_if (llen (elems (mrReferences r)) =? 0) "references" (json_slice (mrReferences r))).

Definition projection_json (p : ProjectionIdentity) : json :=
  JObj (omit_N "uid" (piUID p) ++ omit_N "uidValidity" (piUIDValidity p) ++ omit_N "modSeq" (piModSeq p)).

(** [omitempty] has no effect on a struct, so the projection is always written. *)
Definition state_json (r : MessageStateRecord) : json :=
  JObj ([("$type", JStr (msType r)); ("message", JStr (msMessage r));
         ("mailboxIds", json_slice (msMailboxIDs r)); ("keywords", json_slice (msKeywords r))] ++
        omit_bool "deletePending" (msDeletePending r) ++ omit_bool "tombstone" (msTombstone r) ++
        [("revision", json_N (msRevision r)); ("updatedAt", JStr (msUpdatedAt r))] ++
        omit_string "lastOperation" (msLastOperation r) ++
        [("projection", projection_json (msProjection r))]).

Definition folder_json (r : FolderRecord) : json :=
  JObj ([("$type", JStr (fdType r)); ("name", JStr (fdName r))] ++ omit_string "role" (fdRole r) ++
        omit_N "uidValidity" (fdUIDValidity r) ++
        [("revision", json_N (fdRevision r)); ("updatedAt", JStr (fdUpdatedAt r))]).

Section decoders.
Context `{CaseOrbits}.

Definition link_fields : list (field BlobRef) := [mk_field "$link" decode_string brLink set_brLink].
Definition blob_fields : list (field BlobRef) :=
  [mk_field "$type" decode_string brType set_brType;
   ("ref", decode_struct link_fields);
   mk_field "mimeType" decode_string brMIMEType set_brMIMEType;
   mk_field "size" decode_int64 brSize set_brSize].

Definition message_fields : list (field MessageRecord) :=
  [mk_field "$type" decode_string mrType set_mrType;
   mk_field "raw" (decode_struct blob_fields) mrRaw set_mrRaw;
   mk_field "sha256" decode_string mrSHA256 set_mrSHA256;
   mk_field "size" decode_int64 mrSize set_mrSize;
   mk_field "deliveryFingerprint" decode_string mrDeliveryFingerprint set_mrDeliveryFingerprint;
   mk_field "logicalMessageId" decode_string mrLogicalMessageID set_mrLogicalMessageID;
   mk_field "sourceKey" decode_string mrSourceKey set_mrSourceKey;
   mk_field "initialMailbox" decode_string mrInitialMailbox set_mrInitialMailbox;
   mk_field "deliveredAt" decode_string mrDeliveredAt set_mrDeliveredAt;
   mk_field "sourceMessageId" decode_string mrSourceMessageID set_mrSourceMessageID;
   mk_field "messageDate" decode_string mrMessageDate set_mrMessageDate;
   mk_field "inReplyTo" decode_string mrInReplyTo set_mrInReplyTo;
   mk_field "references" decode_strings mrReferences set_mrReferences].

Definition projection_fields : list (field ProjectionIdentity) :=
  [mk_field "uid" (decode_uint 32) piUID set_piUID;
   mk_field "uidValidity" (decode_uint 32) piUIDValidity set_piUIDValidity;
   mk_field "modSeq" (decode_uint 64) piModSeq set_piModSeq].

Definition state_fields : list (field MessageStateRecord) :=
  [mk_field "$type" decode_string msType set_msType;
   mk_field "message" decode_string msMessage set_msMessage;
   mk_field "mailboxIds" decode_strings msMailboxIDs set_msMailboxIDs;
   mk_field "keywords" decode_strings msKeywords set_msKeywords;
   mk_field "deletePending" decode_bool msDeletePending set_msDeletePending;
   mk_field "tombstone" decode_bool msTombstone set_msTombstone;
   mk_field "revision" (decode_uint 64) msRevision set_msRevision;
   mk_field "updatedAt" decode_string msUpdatedAt set_msUpdatedAt;
   mk_field "lastOperation" decode_string msLastOperation set_msLastOperation;
   mk_field "projection" (decode_struct projection_fields) msProjection set_msProjection].

Definition folder_fields : list (field FolderRecord) :=
  [mk_field "$type" decode_string fdType set_fdType;
   mk_field "name" decode_string fdName set_fdName;
   mk_field "role" decode_string fdRole set_fdRole;
   mk_field "uidValidity" (decode_uint 32) fdUIDValidity set_fdUIDValidity;
   mk_field "revision" (decode_uint 64) fdRevision set_fdRevision;
   mk_field "updatedAt" decode_string fdUpdatedAt set_fdUpdatedAt].

Definition zero_blob : BlobRef := MkBlobRef "" "" "" 0.
Definition zero_message : MessageRecord :=
  MkMessageRecord "" zero_blob "" 0 "" "" "" "" "" "" "" "" None.
Definition zero_state : MessageStateRecord :=
  MkMessageStateRecord "" "" None None false false 0 "" "" zero_projection.
Definition zero_folder : FolderRecord := MkFolderRecord "" "" "" 0 0 "".

(** [json.Unmarshal] of a text into a fresh struct. *)
Definition unmarshal {S} (fields : list (field S)) (zero : S) (text : string) : option S :=
  match parse text with Some j => decode_struct fields j zero | None => None end.
Definition unmarshal_message : string → option MessageRecord := unmarshal message_fields zero_message.
Definition unmarshal_state : string → option MessageStateRecord := unmarshal state_fields zero_state.
Definition unmarshal_folder : string → option FolderRecord := unmarshal folder_fields zero_folder.

End decoders.

(** ** Marshal and unmarshal *)

Definition valid_text (s : string) : Prop := utf8_valid s = true.
Definition valid_texts (s : slice string) : Prop := Forall valid_text (elems s).

(** A state record of machine-width numbers whose strings are valid UTF-8. *)
Record state_typed (r : MessageStateRecord) : Prop := {
  st_type : valid_text (msType r);
  st_message : valid_text (msMessage r);
  st_mailboxes : valid_texts (msMailboxIDs r);
  st_keywords : valid_texts (msKeywords r);
  st_updated : valid_text (msUpdatedAt r);
  st_operation : valid_text (msLastOperation r);
  st_revision : msRevision r < 2 ^ 64;
  st_projection : piUID (msProjection r) < 2 ^ 32 ∧ piUIDValidity (msProjection r) < 2 ^ 32 ∧
    piModSeq (msProjection r) < 2 ^ 64
}.

Lemma printable_state r : printable (state_json r).
Proof.
  unfold state_json, projection_json, omit_bool, omit_string, omit_N. solve_printable.
Qed.

Lemma utf8_state r : state_typed r → utf8_json (state_json r) = true.
Proof.
  intros [Ht Hm Hb Hk Hu Ho _ _]. unfold state_json, projection_json, omit_bool, omit_string, omit_N.
  cbn [utf8_json]. rewrite !forallb_app. cbn [forallb fst snd utf8_json].
  rewrite !forallb_app, !utf8_omit by done. rewrite !utf8_slice by done. unfold valid_text in *.
  by rewrite Ht, Hm, Hu.
Qed.

Section round_trip.
Context `{CaseOrbits}.

Lemma decode_projection_json p :
  piUID p < 2 ^ 32 → piUIDValidity p < 2 ^ 32 → piModSeq p < 2 ^ 64 →
  decode_struct projection_fields (projection_json p) zero_projection = Some p.
Proof.
  destruct p as [uid validity modseq]. cbn [piUID piUIDValidity piModSeq]. intros Hu Hv Hm.
  unfold projection_json, omit_N, omit_if. cbn [piUID piUIDValidity piModSeq].
  destruct (N.eqb_spec uid 0) as [->|_], (N.eqb_spec validity 0) as [->|_], (N.eqb_spec modseq 0) as [->|_];
    decode_steps; done.
Qed.

Lemma decode_strings_slice s old : decode_strings (json_slice s) old = Some s.
Proof. destruct s as [l|]; simpl; [by rewrite decode_string_list_json|done]. Qed.

Lemma decode_state_json r : state_typed r → decode_struct state_fields (state_json r) zero_state = Some r.
Proof.
  destruct r as [type message boxes keywords delete tomb revision updated operation projection].
  intros [_ _ _ _ _ _ Hr (Hu & Hv & Hm)]. cbn in Hr, Hu, Hv, Hm.
  pose proof (decode_projection_json projection Hu Hv Hm) as Hp.
  unfold state_json, omit_bool, omit_string, omit_if.
  cbn [msType msMessage msMailboxIDs msKeywords msDeletePending msTombstone msRevision msUpdatedAt
       msLastOperation msProjection].
  destruct delete, tomb, (String.eqb_spec operation "") as [->|_];
    cbn -[json_N decode_uint json_slice decode_strings projection_json projection_fields];
    rewrite decode_strings_slice;
    cbn -[json_N decode_uint json_slice decode_strings projection_json projection_fields];
    rewrite decode_strings_slice;
    cbn -[json_N decode_uint json_slice decode_strings projection_json projection_fields];
    rewrite (decode_uint_json 64) by done;
    cbn -[json_N decode_uint json_slice decode_strings projection_json projection_fields];
    by rewrite Hp.
Qed.

Lemma unmarshal_state_json r : state_typed r → unmarshal_state (print (state_json r)) = Some r.
Proof.
  intros Hr. unfold unmarshal_state, unmarshal.
  rewrite parse_print_utf8; [by apply decode_state_json|apply printable_state|by apply utf8_state].
Qed.

(** Whatever a text decodes to is a typed record. *)
Lemma projection_keeps p j p' :
  utf8_json j = true → decode_struct projection_fields j p = Some p' →
  (piUID p < 2 ^ 32 ∧ piUIDValidity p < 2 ^ 32 ∧ piModSeq p < 2 ^ 64) →
  piUID p' < 2 ^ 32 ∧ piUIDValidity p' < 2 ^ 32 ∧ piModSeq p' < 2 ^ 64.
Proof.
  apply (decode_struct_keeps (λ p, piUID p < 2 ^ 32 ∧ piUIDValidity p < 2 ^ 32 ∧ piModSeq p < 2 ^ 64)).
  repeat (apply Forall_cons_2; [|try apply Forall_nil_2]); intros j' s s' _; cbn [mk_field snd];
    (destruct (decode_uint _ j' _) as [n|] eqn:E; [|done]); intros [= <-] (? & ? & ?);
    apply decode_uint_bound in E; done.
Qed.

Ltac keep_field lemma :=
  eapply keeps_mk; [exact lemma|by intros s []|intros s a [] ?; by constructor].

Lemma state_fields_keep : Forall (keeps state_typed) state_fields.
Proof.
  repeat apply Forall_cons_2; [..|apply Forall_nil_2].
  1-2,8-9: keep_field decode_string_valid.
  1-2: keep_field decode_strings_valid.
  1-2: apply (keeps_mk _ (λ _, True)); [done|done|intros s a [] ?; by constructor].
  - eapply (keeps_mk _ (λ n, n < 2 ^ 64)); [|by intros s []|intros s a [] ?; by constructor].
    intros j a a' _. apply decode_uint_bound.
  - eapply keeps_mk; [intros j p p' Hj Hd; exact (projection_keeps p j p' Hj Hd)|by intros s []|].
    intros s a [] ?. by constructor.
Qed.

Lemma unmarshal_state_typed text st : unmarshal_state text = Some st → state_typed st.
Proof.
  unfold unmarshal_state, unmarshal. destruct (parse text) as [j|] eqn:Ej; [|done]. intros Hd.
  apply (decode_struct_keeps _ _ _ _ _ state_fields_keep (parse_valid _ _ Ej) Hd).
  by split; repeat constructor.
Qed.

Definition int64 (z : Z) : Prop := (- 2 ^ 63 <= z < 2 ^ 63)%Z.

Record message_typed (r : MessageRecord) : Prop := {
  mt_texts : Forall valid_text [mrType r; brType (mrRaw r); brLink (mrRaw r); brMIMEType (mrRaw r);
    mrSHA256 r; mrDeliveryFingerprint r; mrLogicalMessageID r; mrSourceKey r; mrInitialMailbox r;
    mrDeliveredAt r; mrSourceMessageID r; mrMessageDate r; mrInReplyTo r];
  mt_references : valid_texts (mrReferences r) ∧ mrReferences r ≠ Some [];
  mt_sizes : int64 (mrSize r) ∧ int64 (brSize (mrRaw r))
}.

Lemma printable_message r : printable (message_json r).
Proof. unfold message_json, blob_json, omit_string. solve_printable. Qed.

Lemma utf8_message r : message_typed r → utf8_json (message_json r) = true.
Proof.
  intros [Ht [Hr _] _]. unfold valid_text in *.
  repeat match goal with E : Forall _ (_ :: _) |- _ => apply Forall_cons in E as [? E] end.
  unfold message_json, blob_json, omit_string. cbn [utf8_json].
  rewrite !forallb_app, !utf8_omit by (done || by apply utf8_slice).
  cbn [forallb fst snd utf8_json]. by repeat match goal with E : utf8_valid _ = true |- _ => rewrite E; clear E end.
Qed.

Lemma decode_blob_json b : int64 (brSize b) → decode_struct blob_fields (blob_json b) zero_blob = Some b.
Proof. destruct b as [type link mime size]. intros Hs. cbn in Hs. unfold blob_json. decode_steps. done. Qed.

Lemma empty_string value : (value =? "")%string = true → value = "".
Proof. apply String.eqb_eq. Qed.
Lemma empty_slice (s : slice string) : s ≠ Some [] → (llen (elems s) =? 0) = true → s = None.
Proof. by destruct s as [[|]|]. Qed.

(** Decodes the next [omitempty] member. *)
Ltac decode_next :=
  rewrite decode_members_app; erewrite decode_omit;
    [|reflexivity|first [reflexivity|apply decode_strings_slice]
     |first [apply empty_string|by apply empty_slice]|reflexivity]; cbv beta iota.

Lemma decode_message_json r :
  int64 (mrSize r) → int64 (brSize (mrRaw r)) → mrReferences r ≠ Some [] →
  decode_struct message_fields (message_json r) zero_message = Some r.
Proof.
  destruct r as [type raw sha size delivery logical source mailbox delivered id date reply refs].
  cbn [mrSize mrRaw mrReferences]. intros Hs Hb Hr. pose proof (decode_blob_json raw Hb) as Hraw.
  unfold message_json, omit_string. cbn [decode_struct]. rewrite decode_members_app.
  match goal with |- context [decode_members message_fields ?l zero_message] =>
    assert (Hhead : decode_members message_fields l zero_message =
      Some (MkMessageRecord type raw sha size delivery logical "" "" "" "" "" "" None)) end.
  { cbn -[json_Z decode_int64 blob_json blob_fields]. rewrite Hraw. by rewrite decode_int64_json. }
  rewrite Hhead. cbv iota. decode_next. rewrite decode_members_app.
  match goal with |- context [decode_members message_fields [?kv] ?s] =>
    change (decode_members message_fields [kv] s) with (Some (set_mrInitialMailbox s mailbox)) end.
  cbv iota. do 4 decode_next. erewrite decode_omit;
    [|reflexivity|apply decode_strings_slice|by apply empty_slice|reflexivity]. reflexivity.
Qed.

Lemma unmarshal_message_json r :
  message_typed r → unmarshal_message (print (message_json r)) = Some r.
Proof.
  intros Hr. unfold unmarshal_message, unmarshal.
  rewrite parse_print_utf8; [|apply printable_message|by apply utf8_message].
  destruct Hr as [_ [_ ?] [? ?]]. by apply decode_message_json.
Qed.

Record folder_record_typed (r : FolderRecord) : Prop := {
  ft_texts : Forall valid_text [fdType r; fdName r; fdRole r; fdUpdatedAt r];
  ft_numbers : fdUIDValidity r < 2 ^ 32 ∧ fdRevision r < 2 ^ 64
}.

Lemma unmarshal_folder_json r :
  folder_record_typed r → unmarshal_folder (print (folder_json r)) = Some r.
Proof.
  intros [Ht [Hv Hr]]. unfold valid_text in Ht.
  repeat match goal with E : Forall _ (_ :: _) |- _ => apply Forall_cons in E as [? E] end.
  unfold unmarshal_folder, unmarshal. rewrite parse_print_utf8.
  - destruct r as [type name role validity revision updated]. cbn in Hv, Hr.
    unfold folder_json, omit_string, omit_N, omit_if.
    cbn [fdType fdName fdRole fdUIDValidity fdRevision fdUpdatedAt].
    destruct (String.eqb_spec role "") as [->|_], (N.eqb_spec validity 0) as [->|_]; decode_steps; done.
  - unfold folder_json, omit_string, omit_N. solve_printable.
  - unfold folder_json, omit_string, omit_N. cbn [utf8_json]. rewrite !forallb_app, !utf8_omit by done.
    cbn [forallb fst snd utf8_json]. by repeat match goal with E : utf8_valid _ = true |- _ => rewrite E; clear E end.
Qed.

End round_trip.

(** ** normalizeStrings *)

Lemma normalize_fold values out :
  (fold_left normalize_step values (list_to_set out, out)).1 =
    list_to_set (fold_left normalize_step values (list_to_set out, out)).2 ∧
  (NoDup out → NoDup (fold_left normalize_step values (list_to_set out, out)).2) ∧
  (∀ v, v ∈ (fold_left normalize_step values (list_to_set out, out)).2 ↔
     v ∈ out ∨ ∃ x, x ∈ values ∧ v = TrimSpace x ∧ v ≠ "").
Proof.
  revert out. induction values as [|x values IH]; intros out; [set_solver|]. cbn [fold_left].
  assert (Estep : normalize_step (list_to_set out, out) x =
    let out' := if String.eqb (TrimSpace x) "" then out
                else if bool_decide (TrimSpace x ∈ out) then out else out ++ [TrimSpace x] in
    (list_to_set out', out')).
  { unfold normalize_step. simpl. destruct (String.eqb (TrimSpace x) ""); [done|].
    rewrite (bool_decide_ext _ _ (elem_of_list_to_set (TrimSpace x) out)).
    case_bool_decide; [done|]. f_equal. rewrite list_to_set_app_L. set_solver. }
  rewrite Estep. cbv zeta. match goal with |- context [(list_to_set ?o, ?o)] => set (out' := o) end.
  destruct (IH out') as (E1 & E2 & E3). split; [done|]. split.
  - intros Hnd. apply E2. unfold out'. destruct (String.eqb_spec (TrimSpace x) ""); [done|].
    case_bool_decide; [done|]. apply NoDup_app. split_and!; [done|set_solver|apply NoDup_singleton].
  - intros v. rewrite E3. unfold out'. destruct (String.eqb_spec (TrimSpace x) "") as [Ee|Ee].
    + set_solver by congruence.
    + case_bool_decide; set_solver.
Qed.

Lemma normalizeStrings_spec values :
  StronglySorted str_le (normalizeStrings values) ∧ NoDup (normalizeStrings values) ∧
  ∀ v, v ∈ normalizeStrings values ↔ v ≠ "" ∧ ∃ x, x ∈ values ∧ v = TrimSpace x.
Proof.
  unfold normalizeStrings. destruct (normalize_fold values []) as (_ & Hnd & Hin).
  split; [apply sort_strings_sorted|]. split.
  - rewrite sort_strings_perm. apply Hnd. constructor.
  - intros v. rewrite elem_of_sort_strings, Hin. set_solver.
Qed.

Lemma normalizeStrings_idempotent_lemma values :
  normalizeStrings (normalizeStrings values) = normalizeStrings values.
Proof.
  destruct (normalizeStrings_spec values) as (Hs & Hnd & Hin).
  destruct (normalizeStrings_spec (normalizeStrings values)) as (Hs' & Hnd' & Hin').
  assert (Hp : normalizeStrings (normalizeStrings values) ≡ₚ normalizeStrings values).
  { apply NoDup_Permutation; [done..|]. intros v. rewrite Hin'. split.
    - intros (Hne & x & Hx & ->). apply Hin in Hx as (_ & y & Hy & ->).
      rewrite TrimSpace_idempotent in *. apply Hin. eauto.
    - intros Hv. pose proof Hv as Hv2. apply Hin in Hv2 as (Hne & x & Hx & ->).
      split; [done|]. exists (TrimSpace x). by rewrite TrimSpace_idempotent. }
  rewrite (sort_strings_unique _ _ Hs' Hp). symmetry. by apply sort_strings_unique.
Qed.

(** ** What NewMessagePair builds *)

Lemma import_mailboxes_nonempty src : import_mailboxes src ≠ [].
Proof. unfold import_mailboxes. case_match; [done|]. intros E. by rewrite E in *. Qed.

Lemma NewMessagePair_ok src blob p :
  NewMessagePair src blob = Ok p →
  HasPrefix (imRecipientDID src) "did:" = true ∧
  1 ≤ len (imRaw src) ≤ MaxRawMessageBytes ∧
  (1 ≤ llen (import_mailboxes src) ≤ 32 ∧ Forall (λ n, len n ≤ 255) (import_mailboxes src)) ∧
  (llen (normalizeStrings (imKeywords src)) ≤ 128 ∧
   Forall (λ n, len n ≤ 255) (normalizeStrings (imKeywords src))) ∧
  mpRKey p = ImportedFingerprint src ∧
  ValidateStoredMessage (imRecipientDID src) (mpRKey p) (mpMessage p) (imRaw src) = Ok tt ∧
  mpState p = MkMessageStateRecord MessageStateCollection (mpRKey p)
    (Some (folderRKeys (import_mailboxes src))) (Some (normalizeStrings (imKeywords src)))
    (imDeletePending src) false 1
    (format_RFC3339Nano (if IsZero (imDeliveredAt src) then time_Unix 0 0 else imDeliveredAt src)) ""
    (if llen (import_mailboxes src) =? 1
     then MkProjectionIdentity (imUID src) (imUIDValidity src) (imModSeq src) else zero_projection).
Proof.
  intros Hp. unfold NewMessagePair in Hp. result_steps. bools.
  assert (Hchecks : ∀ limit l, range_check (λ name : string,
      if limit <? len name then Err ErrInvalidRecord else Ok tt) l = Ok tt → Forall (λ n, len n ≤ limit) l).
  { intros limit l Hl%range_check_ok. eapply Forall_impl; [exact Hl|].
    intros n Hn. cbn beta in Hn. result_steps. by bools. }
  repeat match goal with u : unit |- _ => destruct u end.
  pose proof (import_mailboxes_nonempty src) as Hne.
  split_and!; try done; try lia; auto.
  - destruct (import_mailboxes src); [done|]. unfold llen. simpl. lia.
  - simpl. unfold ValidateStoredMessage. simpl. rewrite (proj2 (N.eqb_neq _ _)) by lia.
    rewrite (proj2 (N.ltb_ge _ _)) by lia. unfold ImportedFingerprint. simpl.
    rewrite !String.eqb_refl, Z.eqb_refl. simpl negb. rewrite andb_false_r. cbn [orb].
    destruct (String.eqb (brType blob) "") in *; simpl in *;
      repeat match goal with E : _ = _ |- _ => rewrite E; progress simpl end;
      rewrite ?String.eqb_refl, ?Z.eqb_refl; simpl;
      by rewrite (proj2 (String.eqb_neq (brLink blob) "")) by done.
Qed.

Lemma ValidateStoredMessage_ok recipientDID rkey record raw :
  ValidateStoredMessage recipientDID rkey record raw = Ok tt →
  1 ≤ len raw ≤ MaxRawMessageBytes ∧ rkey = deliveryFingerprint recipientDID (mrSourceKey record) raw ∧
  mrSHA256 record = RawSHA256 raw ∧ mrSize record = raw_size raw ∧ brSize (mrRaw record) = raw_size raw ∧
  (mrLogicalMessageID record = "" ∨
   mrLogicalMessageID record = LogicalMessageID recipientDID (mrSourceKey record) rkey).
Proof.
  unfold ValidateStoredMessage. intros Hv. result_steps. bools.
  repeat match goal with E : (_ =? _)%Z = true |- _ => apply Z.eqb_eq in E end. subst.
  split_and!; try done; [lia|].
  match goal with E : _ && _ = false |- _ => apply andb_false_iff in E as [E|E] end; bools; auto.
Qed.

Lemma delivery_fingerprint_inj d1 d2 k1 k2 raw1 raw2 :
  no_nul d1 → no_nul d2 → no_nul k1 → no_nul k2 →
  deliveryFingerprint d1 k1 raw1 = deliveryFingerprint d2 k2 raw2 →
  (d1 = d2 ∧ k1 = k2 ∧ raw1 = raw2) ∨
  collision (delivery_preimage d1 k1 raw1) (delivery_preimage d2 k2 raw2).
Proof.
  intros D1 D2 K1 K2 E%app_inj_r%hex_sha256_inj. destruct E as [E|]; [left|by right].
  unfold delivery_preimage in E. apply app_inj_r, nul_terminated_inj in E as [-> E]; [|done..].
  by apply nul_terminated_inj in E as [-> ->].
Qed.

Lemma N_lor_bound a b n : a < 2 ^ n → b < 2 ^ n → N.lor a b < 2 ^ n.
Proof.
  intros Ha Hb. destruct (N.eq_dec a 0) as [->|Ha0]; [by rewrite N.lor_0_l|].
  destruct (N.eq_dec b 0) as [->|Hb0]; [by rewrite N.lor_0_r|].
  assert (N.lor a b ≠ 0) by (intros E; apply Ha0; by apply N.lor_eq_0_iff in E as [-> _]).
  apply N.log2_lt_pow2; [lia|]. rewrite N.log2_lor.
  apply N.max_lub_lt; apply N.log2_lt_pow2; lia.
Qed.

Lemma nonzero_bounds sum : 1 ≤ nonzeroUint32 sum < 2 ^ 32.
Proof.
  assert (Hb : ∀ n, byte_at sum n < 256).
  { intros n. unfold byte_at. destruct (String.get n sum); [apply N_ascii_bounded|lia]. }
  unfold nonzeroUint32. match goal with |- context [?v =? 0] => set (value := v) end.
  assert (Hv : value < 2 ^ 32).
  { unfold value. repeat apply N_lor_bound. all: rewrite ?N.shiftl_mul_pow2;
      pose proof (Hb 0%nat); pose proof (Hb 1%nat); pose proof (Hb 2%nat); pose proof (Hb 3%nat); lia. }
  destruct (N.eqb_spec value 0); lia.
Qed.

(** ** An example import *)
Section example.

Definition example_blob (raw : string) : BlobRef :=
  MkBlobRef "" "bafk-blob" MessageMIMEType (raw_size raw).
Definition example_import : ImportedMessage :=
  MkImportedMessage "did:plc:alice" "imap:1" "Subject: hi" " Archive " ["INBOX"; "INBOX"] "<1@x>"
    zero_time "" [] ["$seen"; ""; " $seen"] false 7 9 11 (time_Unix 0 5).

Definition example_pair : MessagePair :=
  match NewMessagePair example_import (example_blob "Subject: hi") with
  | Ok p => p
  | Err _ => MkMessagePair "" zero_message zero_state
  end.

Lemma example_pair_ok : is_ok (NewMessagePair example_import (example_blob "Subject: hi")) = true.
Proof. vm_compute. reflexivity. Qed.
Lemma example_pair_built : NewMessagePair example_import (example_blob "Subject: hi") = Ok example_pair.
Proof. unfold example_pair. pose proof example_pair_ok. by destruct (NewMessagePair _ _). Qed.

(** Two different messages of one recipient. *)
Definition nul_source_1 : ImportedMessage :=
  MkImportedMessage "did:plc:alice" ("k" +:+ NUL +:+ "x") "y" "" [] "" zero_time "" [] [] false 0 0 0 zero_time.
Definition nul_source_2 : ImportedMessage :=
  MkImportedMessage "did:plc:alice" "k" ("x" +:+ NUL +:+ "y") "" [] "" zero_time "" [] [] false 0 0 0 zero_time.

End example.

(** ** Properties *)

(** C40. Every message pair the importer builds passes the stored-message check for its
    recipient and bytes, and its state is the baseline the contract describes: revision one,
    not deleted, 1 to 32 sorted folder keys (one per normalised mailbox name), at most 128
    normalised keywords, and the legacy UID identity exactly when there is one mailbox. *)
Theorem new_pair_validates (src : ImportedMessage) (blob : BlobRef) (p : MessagePair)
    (Hp : NewMessagePair src blob = Ok p) :
  mpRKey p = ImportedFingerprint src ∧
  ValidateStoredMessage (imRecipientDID src) (mpRKey p) (mpMessage p) (imRaw src) = Ok tt ∧
  msMessage (mpState p) = mpRKey p ∧ msRevision (mpState p) = 1 ∧
  msTombstone (mpState p) = false ∧
  (1 ≤ llen (import_mailboxes src) ≤ 32 ∧
   msMailboxIDs (mpState p) = Some (sort_strings (FolderRKey <$> import_mailboxes src))) ∧
  (llen (normalizeStrings (imKeywords src)) ≤ 128 ∧
   msKeywords (mpState p) = Some (normalizeStrings (imKeywords src))) ∧
  (llen (import_mailboxes src) ≠ 1 → msProjection (mpState p) = zero_projection).
Proof.
  apply NewMessagePair_ok in Hp as (_ & _ & [Hc _] & [Hk _] & Hr & Hv & ->). simpl.
  do 7 (split; [done|]). intros Hne. by rewrite (proj2 (N.eqb_neq _ _) Hne).
Qed.

Lemma new_pair_validates_witness :
  ValidateStoredMessage "did:plc:alice" (mpRKey example_pair) (mpMessage example_pair) "Subject: hi" = Ok tt.
Proof. exact (proj1 (proj2 (new_pair_validates _ _ _ example_pair_built))). Defined.

(** Stored messages cannot be substituted: when two byte strings both pass the check
    against one record, they are the same bytes (or an explicit SHA-256 collision), they are
    neither empty nor over the size limit, and the record states their exact size. *)
Theorem stored_message_binds (d1 d2 k1 k2 : string) (record : MessageRecord) (raw1 raw2 : string)
    (H1 : ValidateStoredMessage d1 k1 record raw1 = Ok tt)
    (H2 : ValidateStoredMessage d2 k2 record raw2 = Ok tt) :
  (raw1 = raw2 ∨ collision raw1 raw2) ∧ 1 ≤ len raw1 ≤ MaxRawMessageBytes ∧
  mrSize record = Z.of_N (len raw1).
Proof.
  apply ValidateStoredMessage_ok in H1 as (Hl & _ & Hs1 & Hz & _), H2 as (_ & _ & Hs2 & _).
  split; [|done]. rewrite Hs1 in Hs2. by apply hex_sha256_inj.
Qed.

Lemma stored_message_binds_witness :
  "Subject: hi" = "Subject: hi" ∨ collision "Subject: hi" "Subject: hi".
Proof.
  assert (H : ValidateStoredMessage "did:plc:alice" (mpRKey example_pair) (mpMessage example_pair)
    "Subject: hi" = Ok tt).
  { by destruct (NewMessagePair_ok _ _ _ example_pair_built) as (_ & _ & _ & _ & _ & Hv & _). }
  exact (proj1 (stored_message_binds _ _ _ _ _ _ _ H H)).
Defined.

(** A message key commits to recipient, source and bytes: for recipients and source keys
    without NUL, equal delivery fingerprints mean the same delivery, or an explicit SHA-256
    collision. *)
Theorem delivery_fingerprint_binds (d1 d2 k1 k2 raw1 raw2 : string)
    (D1 : no_nul d1) (D2 : no_nul d2) (K1 : no_nul k1) (K2 : no_nul k2)
    (E : deliveryFingerprint d1 k1 raw1 = deliveryFingerprint d2 k2 raw2) :
  (d1 = d2 ∧ k1 = k2 ∧ raw1 = raw2) ∨
  collision (delivery_preimage d1 k1 raw1) (delivery_preimage d2 k2 raw2).
Proof. by apply delivery_fingerprint_inj. Qed.

Lemma delivery_fingerprint_binds_witness :
  ("did:plc:alice" = "did:plc:alice" ∧ "k" = "k" ∧ "x" = "x") ∨
  collision (delivery_preimage "did:plc:alice" "k" "x") (delivery_preimage "did:plc:alice" "k" "x").
Proof. by apply delivery_fingerprint_binds. Defined.

(** A source key with a NUL byte is not ruled out, and makes the fingerprint ambiguous: two
    different messages that the importer accepts get the same record key. *)
Theorem delivery_fingerprint_ambiguous :
  imRaw nul_source_1 ≠ imRaw nul_source_2 ∧
  ImportedFingerprint nul_source_1 = ImportedFingerprint nul_source_2 ∧
  is_ok (NewMessagePair nul_source_1 (example_blob (imRaw nul_source_1))) = true ∧
  is_ok (NewMessagePair nul_source_2 (example_blob (imRaw nul_source_2))) = true.
Proof. split; [done|]. split; [reflexivity|]. split; reflexivity. Qed.

(** Names and keywords are normalised to a canonical set: sorted, without duplicates, and
    exactly the non-empty trimmed values; normalising again changes nothing. *)
Theorem normalize_strings_canonical (values : list string) :
  StronglySorted str_le (normalizeStrings values) ∧ NoDup (normalizeStrings values) ∧
  (∀ v, v ∈ normalizeStrings values ↔ v ≠ "" ∧ ∃ x, x ∈ values ∧ v = TrimSpace x) ∧
  normalizeStrings (normalizeStrings values) = normalizeStrings values.
Proof.
  destruct (normalizeStrings_spec values) as (? & ? & ?).
  split_and!; try done. apply normalizeStrings_idempotent_lemma.
Qed.

(** Projection identities are valid IMAP UIDVALIDITY values: non-zero 32-bit numbers. *)
Theorem uid_validity_bounds (recipientDID name : string) :
  1 ≤ StableUIDValidity recipientDID name < 2 ^ 32 ∧
  1 ≤ StableFolderUIDValidity recipientDID name < 2 ^ 32.
Proof. split; apply nonzero_bounds. Qed.

(** A state record survives storage: unmarshalling its JSON gives the same record, whatever
    optional members are left out, for valid UTF-8 text and machine-width numbers. *)
Theorem state_record_round_trip `{CaseOrbits} (r : MessageStateRecord) (Hr : state_typed r) :
  unmarshal_state (print (state_json r)) = Some r.
Proof. by apply unmarshal_state_json. Qed.

Definition example_state_record : MessageStateRecord :=
  MkMessageStateRecord MessageStateCollection "sha256-1" (Some ["folder-1"]) None true false 3 "now" ""
    (MkProjectionIdentity 0 5 0).

Lemma state_record_round_trip_witness :
  unmarshal_state (print (state_json example_state_record)) = Some example_state_record.
Proof. apply state_record_round_trip. by split; repeat constructor. Defined.

(** A message record survives storage: unmarshalling its JSON gives the same record, for
    valid UTF-8 text and 64-bit sizes. *)
Theorem message_record_round_trip `{CaseOrbits} (r : MessageRecord) (Hr : message_typed r) :
  unmarshal_message (print (message_json r)) = Some r.
Proof. by apply unmarshal_message_json. Qed.

Definition example_message_record : MessageRecord :=
  MkMessageRecord MessageCollection (MkBlobRef "blob" "bafk" MessageMIMEType 11) "00" 11 "sha256-1"
    "sha256-1" "" "INBOX" "" "<1@x>" "" "" (Some ["<0@x>"]).

Lemma message_record_round_trip_witness :
  unmarshal_message (print (message_json example_message_record)) = Some example_message_record.
Proof. apply message_record_round_trip. by split; repeat constructor. Defined.
