(* ===== verification/Repository.v ===== *)
(** * internal/repository/repository.go: targets, record addresses and the repository interface

    [Target] binds a session to one mailbox space of one provider.  The Go interface
    [Repository] is the class [Repository] over the state of the world it acts on, and
    [RepositoryLaws] states what its clients rely on. *)
From S2P Require Import Prelude Sha256 GoStd Syntax Json Mailbox.

Record Target : Type := MkTarget {
  tgProviderOrigin : string;
  tgSpaceURI : string;
  tgRepoDID : string;
  tgEpoch : string
}.

#[export] Instance Target_eq_dec : EqDecision Target.
Proof. solve_decision. Defined.

(** ** Addresses *)

Section addresses.
Context `{Syntax}.

Definition path_blanks : string := "?# " +:+ of_byte_values [9; 13; 10].

Definition Target_ValidateFor (t : Target) (recipientDID : string) : result unit :=
  fail_if String.eqb (tgProviderOrigin t) "" || String.eqb (tgSpaceURI t) "" ||
    String.eqb (tgRepoDID t) "" || String.eqb (tgEpoch t) "" with ErrTarget ;;
  fail_if negb (String.eqb recipientDID "") && negb (String.eqb (tgRepoDID t) recipientDID)
    with ErrTarget ;;
  fail_if negb (is_some (ParseDID (tgRepoDID t))) || negb (HasPrefix (tgSpaceURI t) "at://")
    with ErrTarget ;;
  let '(spaceAuthority, path, found) :=
    match Cut (TrimPrefix (tgSpaceURI t) "at://") "/" with
    | Some (a, b) => (a, b, true)
    | None => (TrimPrefix (tgSpaceURI t) "at://", "", false)
    end in
  fail_if negb found || negb (is_some (ParseDID spaceAuthority)) with ErrTarget ;;
  match Split path "/" with
  | [segment; spaceType; spaceKey] =>
      fail_if negb (String.eqb segment "space") with ErrTarget ;;
      fail_if negb (ParseNSID spaceType) || negb (String.eqb spaceType MailboxSpaceType) with ErrTarget ;;
      fail_if negb (ParseRecordKey spaceKey) || ContainsAny path path_blanks with ErrTarget ;;
      Ok tt
  | _ => Err ErrTarget
  end.

Definition slash : string := "/".

Definition RecordURI (target : Target) (collection rkey : string) : result string :=
  let? _ := or_error (Target_ValidateFor target (tgRepoDID target)) ErrTarget in
  fail_if negb (ParseNSID collection) with ErrTarget ;;
  fail_if negb (ParseRecordKey rkey) with ErrTarget ;;
  Ok (tgSpaceURI target +:+ slash +:+ tgRepoDID target +:+ slash +:+ collection +:+ slash +:+ rkey).

Definition ValidateRecordURI (target : Target) (uri collection rkey : string) : result unit :=
  fail_if negb (is_ok (Target_ValidateFor target (tgRepoDID target))) ||
    negb (HasPrefix uri (tgSpaceURI target +:+ slash)) with ErrTarget ;;
  match Split (TrimPrefix uri (tgSpaceURI target +:+ slash)) "/" with
  | [author; segment1; segment2] =>
      fail_if negb (String.eqb segment1 collection) || negb (String.eqb segment2 rkey) with ErrTarget ;;
      fail_if negb (is_some (ParseDID author)) with ErrTarget ;;
      fail_if negb (ParseNSID segment1) with ErrTarget ;;
      fail_if negb (ParseRecordKey segment2) with ErrTarget ;;
      Ok tt
  | _ => Err ErrTarget
  end.

End addresses.

(** ** The interface *)

Record Capabilities : Type := MkCapabilities {
  cpAtomicApplyWrites : bool;
  cpCompareAndSwap : bool;
  cpReferencedBlobs : bool;
  cpRepoOplog : bool;
  cpCARExport : bool;
  cpNotifications : bool
}.

(** [json.RawMessage] is its bytes. *)
Record Record_ : Type := MkRecord {
  rcURI : string;
  rcCollection : string;
  rcRKey : string;
  rcCID : string;
  rcValue : string
}.

(** [WriteAction] is a string type: any other string is an unknown action. *)
Inductive WriteAction : Type := Create | Update | Delete | OtherAction (s : string).

(** [Value any]: the value as [json.Marshal] sees it, [None] for a value it cannot encode. *)
Record Write : Type := MkWrite {
  wrAction : WriteAction;
  wrCollection : string;
  wrRKey : string;
  wrValue : option json;
  wrSwapCID : string
}.

Record WriteResult : Type := MkWriteResult {
  wsURI : string;
  wsCID : string
}.

Record Commit : Type := MkCommit {
  cmRev : string;
  cmHash : string;
  cmResults : list WriteResult
}.

#[export] Instance Record_eq_dec : EqDecision Record_.
Proof. solve_decision. Defined.

(** A repository session acting on a world [W]; every call returns the world it leaves.  The
    context argument, which only carries cancellation, is left out. *)
Class Repository (W : Type) : Type := {
  ProviderID : string;
  Capabilities_ : W → result Capabilities * W;
  EnsureMailbox : string → string → W → result Target * W;
  UploadBlob : Target → string → string → W → result BlobRef * W;
  ApplyWrites : Target → list Write → W → result Commit * W;
  PutRecordCAS : Target → string → string → option json → string → W → result Record_ * W;
  GetRecord : Target → string → string → W → result Record_ * W;
  ListRecords : Target → string → W → result (list Record_) * W;
  GetBlob : Target → string → W → result string * W;
  (** not part of the Go interface: the record the provider holds at an address *)
  held : W → Target → string → string → option Record_
}.

(** ** Calls in sequence

    A call that fails ends the function with its error, in the world it left. *)

Definition call_bind {W A B} (m : W → result A * W) (k : A → W → result B * W) : W → result B * W :=
  λ w, match m w with (Ok a, w') => k a w' | (Err e, w') => (Err e, w') end.
Definition returns {W A} (r : result A) : W → result A * W := λ w, (r, w).
Definition on_error {W A} (f : error → error) (m : W → result A * W) : W → result A * W :=
  λ w, match m w with (Err e, w') => (Err (f e), w') | r => r end.

(** The result of a call as a value, for a caller that looks at the error. *)
Definition attempt {W A} (m : W → result A * W) : W → result (result A) * W :=
  λ w, let '(r, w') := m w in (Ok r, w').

Notation "'call?' x := m 'in' k" := (call_bind m (λ x, k))
  (at level 10, x pattern, m at level 99, k at level 200,
   format "'[v' 'call?'  x  :=  m  'in' '/' k ']'") : go_scope.
Notation "'return_if' c 'with' r ;; k" := (if (c : bool) then returns r else k)
  (at level 10, c at level 99, r at level 99, k at level 200,
   format "'[v' 'return_if'  c  'with'  r  ;; '/' k ']'") : go_scope.

(** What the clients of a repository rely on.  Reads return what is held and change nothing; a
    list of a collection is complete, and a session that may list may read.  A compare-and-swap
    that is done replaces exactly the addressed record, whose CID was the expected one, by the
    marshalled value.  One that fails has changed nothing, or it was done and only the answer
    was lost; a session that has its answer reads what is held, and keeps its capabilities.  Opening a mailbox, uploading a blob and a batch of creates
    leave every held record as it is. *)
Definition put_done `{Repository W} (w : W) (t : Target) (c k : string) (v : option json) (cid : string) (rec : Record_) (w' : W) : Prop :=
  (∃ old, held w t c k = Some old ∧ rcCID old = cid) ∧
  (∃ j, v = Some j ∧ rcValue rec = print j) ∧
  held w' t c k = Some rec ∧
  (∀ c' k', (c', k') ≠ (c, k) → held w' t c' k' = held w t c' k').
Class RepositoryLaws (W : Type) `{Repository W} : Prop := {
  Capabilities_keeps w r w' : Capabilities_ w = (r, w') → w' = w;
  GetRecord_keeps t c k w r w' : GetRecord t c k w = (r, w') → w' = w;
  GetRecord_held t c k w rec w' : GetRecord t c k w = (Ok rec, w') → held w t c k = Some rec;
  ListRecords_keeps t c w r w' : ListRecords t c w = (r, w') → w' = w;
  ListRecords_held t c w l w' : ListRecords t c w = (Ok l, w') →
    NoDup (rcRKey <$> l) ∧ ∀ rec, rec ∈ l ↔ held w t c (rcRKey rec) = Some rec;
  ListRecords_reads t c w l w' c' k : ListRecords t c w = (Ok l, w') →
    GetRecord t c' k w = (opt_result (held w t c' k) ErrNotFound, w);
  held_key t c k w rec : held w t c k = Some rec → rcRKey rec = k;
  GetBlob_keeps t cid w r w' : GetBlob t cid w = (r, w') → w' = w;
  EnsureMailbox_held did key w r w' : EnsureMailbox did key w = (r, w') →
    ∀ t c k rec, held w t c k = Some rec → held w' t c k = Some rec;
  UploadBlob_held t data mime w r w' : UploadBlob t data mime w = (r, w') →
    ∀ t' c k, held w' t' c k = held w t' c k;
  ApplyWrites_creates t ws w r w' : ApplyWrites t ws w = (r, w') →
    Forall (λ write, wrAction write = Create) ws →
    ∀ t' c k rec, held w t' c k = Some rec → held w' t' c k = Some rec;
  PutRecordCAS_failed t c k v cid w e w' :
    PutRecordCAS t c k v cid w = (Err e, w') → w' = w ∨ ∃ rec, put_done w t c k v cid rec w';
  PutRecordCAS_done t c k v cid w rec w' :
    PutRecordCAS t c k v cid w = (Ok rec, w') → put_done w t c k v cid rec w';
  PutRecordCAS_reads t c k v cid w rec w' c' k' :
    PutRecordCAS t c k v cid w = (Ok rec, w') →
    GetRecord t c' k' w' = (opt_result (held w' t c' k') ErrNotFound, w');
  PutRecordCAS_capabilities t c k v cid w rec w' :
    PutRecordCAS t c k v cid w = (Ok rec, w') → (Capabilities_ w').1 = (Capabilities_ w).1
}.

(** ** Calls that change nothing, and calls that only add *)

Definition readonly {W A} (m : W → A * W) : Prop := ∀ w, (m w).2 = w.

(** A read is its result. *)
Lemma readonly_run {W A} (m : W → A * W) w : readonly m → m w = ((m w).1, w).
Proof. intros Hm. specialize (Hm w). by destruct (m w); simpl in *; subst. Qed.

Section calls.
Context `{RepositoryLaws W}.

Lemma readonly_returns {A} (r : result A) : readonly (returns (W := W) r).
Proof. done. Qed.
Lemma readonly_attempt {A} (m : W → result A * W) : readonly m → readonly (attempt m).
Proof. intros Hm w. unfold attempt. by rewrite (readonly_run m w Hm). Qed.
Lemma readonly_on_error {A} f (m : W → result A * W) : readonly m → readonly (on_error f m).
Proof. intros Hm w. unfold on_error. rewrite (readonly_run m w Hm). by destruct (m w).1. Qed.
Lemma readonly_bind {A B} (m : W → result A * W) (k : A → W → result B * W) :
  readonly m → (∀ a, readonly (k a)) → readonly (call_bind m k).
Proof.
  intros Hm Hk w. unfold call_bind. rewrite (readonly_run m w Hm). destruct (m w).1; [apply Hk|done].
Qed.
Lemma bind_readonly {A B} (m : W → result A * W) (k : A → W → result B * W) w :
  readonly m → call_bind m k w = match (m w).1 with Ok a => k a w | Err e => (Err e, w) end.
Proof. intros Hm. unfold call_bind. by rewrite (readonly_run m w Hm). Qed.

Lemma readonly_Capabilities : readonly (Capabilities_ (W := W)).
Proof. intros w. destruct (Capabilities_ w) as [r w'] eqn:E. by apply Capabilities_keeps in E. Qed.
Lemma readonly_GetRecord t c k : readonly (GetRecord (W := W) t c k).
Proof. intros w. destruct (GetRecord t c k w) as [r w'] eqn:E. by apply GetRecord_keeps in E. Qed.
Lemma readonly_ListRecords t c : readonly (ListRecords (W := W) t c).
Proof. intros w. destruct (ListRecords t c w) as [r w'] eqn:E. by apply ListRecords_keeps in E. Qed.
Lemma readonly_GetBlob t cid : readonly (GetBlob (W := W) t cid).
Proof. intros w. destruct (GetBlob t cid w) as [r w'] eqn:E. by apply GetBlob_keeps in E. Qed.

(** Every record held stays held, as it is. *)
Definition keeps_held (w w' : W) : Prop :=
  ∀ t c k rec, held w t c k = Some rec → held w' t c k = Some rec.
Definition growing {A} (m : W → A * W) : Prop := ∀ w, keeps_held w (m w).2.

#[export] Instance keeps_held_preorder : PreOrder keeps_held.
Proof. split; [by intros w t c k rec|]. intros w1 w2 w3 H1 H2 t c k rec Hh. by apply H2, H1. Qed.

Lemma readonly_growing {A} (m : W → A * W) : readonly m → growing m.
Proof. intros Hm w. by rewrite Hm. Qed.
Lemma growing_attempt {A} (m : W → result A * W) : growing m → growing (attempt m).
Proof. intros Hm w. specialize (Hm w). unfold attempt. by destruct (m w). Qed.
Lemma growing_bind {A B} (m : W → result A * W) (k : A → W → result B * W) :
  growing m → (∀ a, growing (k a)) → growing (call_bind m k).
Proof.
  intros Hm Hk w. specialize (Hm w). unfold call_bind. destruct (m w) as [[a|e] w']; [|done].
  etrans; [exact Hm|apply Hk].
Qed.
Lemma growing_UploadBlob t data mime : growing (UploadBlob (W := W) t data mime).
Proof.
  intros w. destruct (UploadBlob t data mime w) as [r w'] eqn:E. intros t' c k rec.
  by rewrite (UploadBlob_held _ _ _ _ _ _ E).
Qed.
Lemma growing_EnsureMailbox did key : growing (EnsureMailbox (W := W) did key).
Proof. intros w. destruct (EnsureMailbox did key w) as [r w'] eqn:E. exact (EnsureMailbox_held _ _ _ _ _ E). Qed.
Lemma growing_creates t ws : Forall (λ write, wrAction write = Create) ws → growing (ApplyWrites (W := W) t ws).
Proof. intros Hws w. destruct (ApplyWrites t ws w) as [r w'] eqn:E. exact (ApplyWrites_creates _ _ _ _ _ E Hws). Qed.

End calls.

(** ** Addresses: what they guarantee *)

Section address_lemmas.
Context `{SyntaxLaws}.

Lemma char_class_no_slash extra s :
  in_class extra "/" = false → all_bytes (in_class extra) s = true → has_byte "/" s = false.
Proof. intros Hc Hs. by eapply all_bytes_has_byte. Qed.

Lemma did_no_slash s : is_some (ParseDID s) = true → has_byte "/" s = false.
Proof.
  destruct (ParseDID s) as [d|] eqn:E; [|done]. intros _. apply ParseDID_chars in E.
  by apply (char_class_no_slash _ s) in E.
Qed.
Lemma nsid_no_slash s : ParseNSID s = true → has_byte "/" s = false.
Proof. intros E%ParseNSID_chars. by apply (char_class_no_slash _ s) in E. Qed.
Lemma record_key_no_slash s : ParseRecordKey s = true → has_byte "/" s = false.
Proof. intros E%ParseRecordKey_chars. by apply (char_class_no_slash _ s) in E. Qed.

(** The space address of a mailbox. *)
Definition space_uri (authority key : string) : string :=
  "at://" +:+ authority +:+ slash +:+ "space/" +:+ MailboxSpaceType +:+ slash +:+ key.

Lemma space_path key :
  ParseRecordKey key = true →
  Split ("space/" +:+ MailboxSpaceType +:+ slash +:+ key) "/" = ["space"; MailboxSpaceType; key].
Proof. intros Hk. apply Split_three; try done. by apply record_key_no_slash. Qed.

Lemma ContainsAny_app a b chars : ContainsAny (a +:+ b) chars = ContainsAny a chars || ContainsAny b chars.
Proof. unfold ContainsAny. by rewrite all_bytes_app, negb_andb. Qed.

Lemma record_key_no_blanks key : ParseRecordKey key = true → ContainsAny key path_blanks = false.
Proof.
  intros Hk%ParseRecordKey_chars. unfold ContainsAny. apply negb_false_iff.
  eapply all_bytes_impl; [|exact Hk]. intros c. each_byte c.
Qed.

Lemma Target_ValidateFor_iff t did :
  ParseNSID MailboxSpaceType = true →
  Target_ValidateFor t did = Ok tt ↔
  tgProviderOrigin t ≠ "" ∧ tgRepoDID t ≠ "" ∧ tgEpoch t ≠ "" ∧ (did = "" ∨ tgRepoDID t = did) ∧
  is_some (ParseDID (tgRepoDID t)) = true ∧
  ∃ authority key, tgSpaceURI t = space_uri authority key ∧
    is_some (ParseDID authority) = true ∧ ParseRecordKey key = true.
Proof.
  intros Hnsid. unfold Target_ValidateFor. split.
  - intros Hv. result_steps.
    destruct (Cut (TrimPrefix (tgSpaceURI t) "at://") "/") as [[authority path]|] eqn:Ec; [|by result_steps].
    result_steps. destruct (Split path "/") as [|s1 [|s2 [|s3 [|]]]] eqn:Es; try done.
    result_steps. bools. subst. apply Split_three_inv in Es.
    match goal with E : HasPrefix _ _ = true |- _ => apply HasPrefix_spec in E as [r Er] end.
    rewrite Er, TrimPrefix_app in Ec. apply Cut_spec in Ec as [-> _].
    split_and!; try done.
    + match goal with E : _ && _ = false |- _ => apply andb_false_iff in E as [E|E] end; bools; auto.
    + exists authority, s3. split; [|done]. rewrite Er, Es. done.
  - intros (Ho & Hr & He & Hdid & Hp & authority & key & Eu & Ha & Hk). rewrite Eu.
    rewrite !(proj2 (String.eqb_neq _ _)) by done. simpl orb. cbv iota.
    assert (Hd : negb (String.eqb did "") && negb (String.eqb (tgRepoDID t) did) = false).
    { destruct Hdid as [->| ->]; [done|]. by rewrite String.eqb_refl, andb_false_r. }
    rewrite Hd, Hp. unfold space_uri. rewrite HasPrefix_app, TrimPrefix_app. simpl negb. cbn [orb].
    change (slash +:+ ?x) with (String "/" x). rewrite Cut_app by by apply did_no_slash.
    rewrite Ha. simpl negb. cbn [orb].
    change (String "/" key) with (slash +:+ key). rewrite space_path by done. simpl negb.
    rewrite Hnsid, Hk, !ContainsAny_app, (record_key_no_blanks key) by done. reflexivity.
Qed.

Lemma RecordURI_ok t c k uri :
  RecordURI t c k = Ok uri →
  Target_ValidateFor t (tgRepoDID t) = Ok tt ∧ ParseNSID c = true ∧ ParseRecordKey k = true ∧
  is_some (ParseDID (tgRepoDID t)) = true ∧
  uri = (tgSpaceURI t +:+ slash) +:+ tgRepoDID t +:+ slash +:+ c +:+ slash +:+ k.
Proof.
  unfold RecordURI. intros Hu. result_steps. bools.
  match goal with u : unit |- _ => destruct u end.
  assert (Hd : is_some (ParseDID (tgRepoDID t)) = true).
  { unfold Target_ValidateFor in *. by result_steps; bools. }
  by rewrite app_assoc_s.
Qed.

Lemma record_path_split d c k :
  is_some (ParseDID d) = true → ParseNSID c = true → ParseRecordKey k = true →
  Split (d +:+ slash +:+ c +:+ slash +:+ k) "/" = [d; c; k].
Proof.
  intros. apply Split_three; [by apply did_no_slash|by apply nsid_no_slash|by apply record_key_no_slash|done].
Qed.

Lemma ValidateRecordURI_ok t uri c k :
  ValidateRecordURI t uri c k = Ok tt →
  Target_ValidateFor t (tgRepoDID t) = Ok tt ∧ ParseNSID c = true ∧ ParseRecordKey k = true ∧
  ∃ author, is_some (ParseDID author) = true ∧
    uri = (tgSpaceURI t +:+ slash) +:+ author +:+ slash +:+ c +:+ slash +:+ k.
Proof.
  unfold ValidateRecordURI. intros Hv. result_steps.
  destruct (Split _ _) as [|s1 [|s2 [|s3 [|]]]] eqn:Es; try done. result_steps. bools. subst.
  match goal with E : HasPrefix _ _ = true |- _ => apply HasPrefix_spec in E as [r ->] end.
  rewrite TrimPrefix_app in Es. apply Split_three_inv in Es as ->.
  match goal with E : is_ok (Target_ValidateFor _ _) = true |- _ =>
    destruct (Target_ValidateFor t (tgRepoDID t)) as [[]|]; [|done] end.
  split_and!; try done. by exists s1.
Qed.

End address_lemmas.

(** ** Properties *)

Definition example_target : Target :=
  MkTarget "memory://local" "at://did:plc:alice/space/email.atmos.mailbox/inbox" "did:plc:alice" "memory-v1".

(** A target is valid exactly when it names a provider, an epoch and a repository DID (the
    recipient's, when one is given) and its space address is
    [at://<authority DID>/space/email.atmos.mailbox/<record key>]. *)
Theorem target_binding `{SyntaxLaws} (t : Target) (recipientDID : string)
    (Hnsid : ParseNSID MailboxSpaceType = true) :
  Target_ValidateFor t recipientDID = Ok tt ↔
  tgProviderOrigin t ≠ "" ∧ tgRepoDID t ≠ "" ∧ tgEpoch t ≠ "" ∧
  (recipientDID = "" ∨ tgRepoDID t = recipientDID) ∧ is_some (ParseDID (tgRepoDID t)) = true ∧
  ∃ authority key, tgSpaceURI t = space_uri authority key ∧
    is_some (ParseDID authority) = true ∧ ParseRecordKey key = true.
Proof. by apply Target_ValidateFor_iff. Qed.

Lemma target_binding_witness : Target_ValidateFor example_target "did:plc:alice" = Ok tt.
Proof.
  apply target_binding; [reflexivity|]. split_and!; try done; [by right|].
  exists "did:plc:alice", "inbox". by split_and!.
Defined.

(** Record addresses round-trip and are unambiguous: an address built for a collection and
    key validates for them and for no other collection or key, and it determines the
    repository that authored the record. *)
Theorem record_uri_round_trip `{SyntaxLaws} (t : Target) (collection rkey uri : string)
    (Hu : RecordURI t collection rkey = Ok uri) :
  ValidateRecordURI t uri collection rkey = Ok tt ∧
  (∀ collection' rkey', ValidateRecordURI t uri collection' rkey' = Ok tt →
     collection' = collection ∧ rkey' = rkey) ∧
  (∀ t' collection' rkey', RecordURI t' collection' rkey' = Ok uri → tgSpaceURI t' = tgSpaceURI t →
     tgRepoDID t' = tgRepoDID t ∧ collection' = collection ∧ rkey' = rkey).
Proof.
  apply RecordURI_ok in Hu as (Ht & Hc & Hk & Hd & ->). split_and!.
  - unfold ValidateRecordURI. rewrite Ht, HasPrefix_app, TrimPrefix_app. simpl negb. cbn [orb].
    rewrite record_path_split by done. rewrite !String.eqb_refl, Hd, Hc, Hk. done.
  - intros c' k' (_ & Hc' & Hk' & author & Ha & E)%ValidateRecordURI_ok.
    apply app_inj_r in E. apply (f_equal (λ s, Split s "/")) in E.
    rewrite !record_path_split in E by done. by injection E.
  - intros t' c' k' (_ & Hc' & Hk' & Hd' & E)%RecordURI_ok Es. rewrite Es in E.
    apply app_inj_r in E. apply (f_equal (λ s, Split s "/")) in E.
    rewrite !record_path_split in E by done. by injection E.
Qed.

Lemma record_uri_round_trip_witness :
  ValidateRecordURI example_target
    "at://did:plc:alice/space/email.atmos.mailbox/inbox/did:plc:alice/email.atmos.message/k1"
    MessageCollection "k1" = Ok tt.
Proof. by apply (record_uri_round_trip example_target MessageCollection "k1"). Defined.
