(* ===== verification/Memory.v ===== *)
(** * internal/memory/repository.go: the in-memory repository

    The reference implementation of the repository interface.  The nested maps of the Go code
    (repository, collection, key) are one map keyed by the triple, and the blob counters one
    map keyed by repository and CID: the code never distinguishes a missing inner map from an
    empty one.  The mutex makes every method one step on the backend. *)
From S2P Require Import Prelude Sha256 GoStd Unicode Json Mailbox Repository.
From Stdlib Require Import ZArith.

(** ** State *)

Record storedRecord : Type := MkStoredRecord {
  sdURI : string;
  sdCID : string;
  sdValue : string
}.

Notation record_key := (string * string * string)%type (only parsing).

Record spaceState : Type := MkSpaceState {
  spTarget : Target;
  spRecords : gmap record_key storedRecord;
  spBlobRefs : gmap (string * string) Z;
  spRev : N
}.

Record Backend : Type := MkBackend {
  bkSpaces : gmap string spaceState;
  bkBlobs : gmap (string * string) string
}.

Record Session : Type := MkSession {
  ssDID : string;
  ssCredentialSpace : string;
  ssOwner : bool;
  ssRevoked : bool
}.

Definition NewBackend : Backend := MkBackend ∅ ∅.
Definition OwnerSession (did : string) : Session := MkSession did "" true false.
Definition SpaceCredentialSession (did spaceURI : string) : Session := MkSession did spaceURI false false.
Definition Session_Revoke (s : Session) : Session :=
  MkSession (ssDID s) (ssCredentialSpace s) (ssOwner s) true.

Definition set_space (b : Backend) (uri : string) (space : spaceState) : Backend :=
  MkBackend (<[uri := space]> (bkSpaces b)) (bkBlobs b).

(** ** Blob references of a record *)

(** The last member of an object with a given key, as decoding into a map keeps it. *)
Definition member (l : list (string * json)) (key : string) : option json :=
  fold_left (λ o kv, if String.eqb kv.1 key then Some kv.2 else o) l None.
Definition has_key (l : list (string * json)) (key : string) : bool :=
  existsb (λ kv, String.eqb kv.1 key) l.

Definition own_blob (l : list (string * json)) : result (list string) :=
  match member l "$type" with
  | Some (JStr type) =>
      if String.eqb type "blob" then
        match member l "ref" with
        | Some (JObj r) =>
            match member r "$link" with
            | Some (JStr cid) => fail_if String.eqb cid "" with ErrInvalidRecord ;; Ok [cid]
            | _ => Err ErrInvalidRecord
            end
        | _ => Err ErrInvalidRecord
        end
      else Ok []
  | _ => Ok []
  end.

(** The walk over the decoded value; the children of an object are visited in some order, and
    only the number of times each CID occurs matters. *)
Fixpoint walk (node : json) : result (list string) :=
  match node with
  | JObj l =>
      let? own := own_blob l in
      let? rest := (fix walk_members (l : list (string * json)) : result (list string) :=
        match l with
        | [] => Ok []
        | (k, x) :: l' =>
            if has_key l' k then walk_members l'
            else let? a := walk x in let? b := walk_members l' in Ok (a ++ b)
        end) l in
      Ok (own ++ rest)
  | JArr l =>
      (fix walk_elements (l : list json) : result (list string) :=
        match l with
        | [] => Ok []
        | x :: l' => let? a := walk x in let? b := walk_elements l' in Ok (a ++ b)
        end) l
  | _ => Ok []
  end.

Definition findBlobCIDs (value : string) : result (list string) :=
  match parse value with
  | Some j => walk j
  | None => Err ErrOther
  end.

Definition add_ref (repo : string) (refs : gmap (string * string) Z) (cid : string) : gmap (string * string) Z :=
  <[(repo, cid) := (default 0 (refs !! (repo, cid)) + 1)%Z]> refs.
Definition addBlobRefs (refs : gmap (string * string) Z) (repo : string) (cids : list string) :
    gmap (string * string) Z := fold_left (add_ref repo) cids refs.

Definition remove_ref (repo : string) (refs : gmap (string * string) Z) (cid : string) :
    gmap (string * string) Z :=
  let count := (default 0 (refs !! (repo, cid)) - 1)%Z in
  if (count <=? 0)%Z then delete (repo, cid) refs else <[(repo, cid) := count]> refs.
Definition removeBlobRefs (refs : gmap (string * string) Z) (repo value : string) :
    gmap (string * string) Z :=
  let cids := match findBlobCIDs value with Ok l => l | Err _ => [] end in
  fold_left (remove_ref repo) cids refs.

Definition recordCID (value : string) : string := "bafy-lab-record-" +:+ hex_encode (sha256 value).

Definition space_entry (kv : record_key * storedRecord) : string :=
  let '((repo, collection, rkey), record) := kv in
  repo +:+ NUL +:+ collection +:+ NUL +:+ rkey +:+ NUL +:+ sdCID record.
Definition spaceHash (space : spaceState) : string :=
  hex_encode (sha256 (join_with (byte 10) (sort_strings (List.map space_entry (map_to_list (spRecords space)))))).

Definition validCollection (value : string) : bool :=
  (2 <=? Count value ".") && negb (ContainsAny value "/?# ").

Definition key_rune (r : N) : bool :=
  (97 <=? r) && (r <=? 122) || (65 <=? r) && (r <=? 90) || (48 <=? r) && (r <=? 57) ||
  bool_decide (r ∈ runes "._~:-").
Definition validKey (value : string) : bool :=
  if String.eqb value "" || (512 <? len value) || String.eqb value "." || String.eqb value ".." then false
  else forallb key_rune (runes value).

Definition lookupRecord (space : spaceState) (repo collection rkey : string) : option storedRecord :=
  spRecords space !! (repo, collection, rkey).

Definition exportRecord (collection rkey : string) (record : storedRecord) (res : WriteResult) : Record_ :=
  MkRecord (if String.eqb (wsURI res) "" then sdURI record else wsURI res) collection rkey
    (if String.eqb (wsCID res) "" then sdCID record else wsCID res) (sdValue record).

(** ** Authorization *)

Definition checkActive (s : Session) : result unit :=
  fail_if ssRevoked s with ErrRevoked ;; Ok tt.

Definition authWriteLocked (s : Session) (b : Backend) (target : Target) : result spaceState :=
  fail_if negb (ssOwner s) || negb (String.eqb (tgRepoDID target) (ssDID s)) with ErrUnauthorized ;;
  let? space := opt_result (bkSpaces b !! tgSpaceURI target) ErrNotFound in
  fail_if negb (bool_decide (spTarget space = target)) ||
    negb (HasPrefix (tgSpaceURI target) ("at://" +:+ ssDID s +:+ "/space/")) with ErrTarget ;;
  Ok space.

Definition authReadLocked (s : Session) (b : Backend) (target : Target) : result spaceState :=
  let? space := opt_result (bkSpaces b !! tgSpaceURI target) ErrNotFound in
  fail_if negb (bool_decide (spTarget space = target)) with ErrTarget ;;
  if ssOwner s && String.eqb (tgRepoDID target) (ssDID s) then Ok space
  else if String.eqb (ssCredentialSpace s) (tgSpaceURI target) then Ok space
  else Err ErrUnauthorized.

(** ** One write *)

Definition set_contents (space : spaceState) (records : gmap record_key storedRecord)
    (refs : gmap (string * string) Z) : spaceState :=
  MkSpaceState (spTarget space) records refs (spRev space).

Definition swap_conflicts (write : Write) (existing : storedRecord) : bool :=
  negb (String.eqb (wrSwapCID write) "") && negb (String.eqb (sdCID existing) (wrSwapCID write)).

Definition record_uri (target : Target) (collection rkey : string) : string :=
  tgSpaceURI target +:+ "/" +:+ tgRepoDID target +:+ "/" +:+ collection +:+ "/" +:+ rkey.

Definition store_record (b : Backend) (space : spaceState) (target : Target) (write : Write)
    (existing : option storedRecord) : result (WriteResult * spaceState) :=
  let repo := tgRepoDID target in
  let? j := opt_result (wrValue write) ErrOther in
  let value := print j in
  let? blobCIDs := findBlobCIDs value in
  let? _ := range_check (λ cid,
      fail_if negb (bool_decide (is_Some (bkBlobs b !! (repo, cid)))) with ErrNotFound ;; Ok tt) blobCIDs in
  let refs := match existing with
              | Some old => removeBlobRefs (spBlobRefs space) repo (sdValue old)
              | None => spBlobRefs space
              end in
  let refs := addBlobRefs refs repo blobCIDs in
  let uri := record_uri target (wrCollection write) (wrRKey write) in
  let cid := recordCID value in
  Ok (MkWriteResult uri cid,
      set_contents space
        (<[(repo, wrCollection write, wrRKey write) := MkStoredRecord uri cid value]> (spRecords space)) refs).

Definition applyOneLocked (b : Backend) (space : spaceState) (target : Target) (write : Write) :
    result (WriteResult * spaceState) :=
  fail_if negb (validCollection (wrCollection write)) || negb (validKey (wrRKey write))
    with ErrInvalidRecord ;;
  let repo := tgRepoDID target in
  let existing := lookupRecord space repo (wrCollection write) (wrRKey write) in
  match wrAction write with
  | Create =>
      fail_if negb (String.eqb (wrSwapCID write) "") with ErrInvalidRecord ;;
      fail_if bool_decide (is_Some existing) with ErrExists ;;
      store_record b space target write existing
  | Update =>
      let? old := opt_result existing ErrNotFound in
      fail_if swap_conflicts write old with ErrConflict ;;
      store_record b space target write existing
  | Delete =>
      let? old := opt_result existing ErrNotFound in
      fail_if swap_conflicts write old with ErrConflict ;;
      Ok (MkWriteResult "" "",
          set_contents space (delete (repo, wrCollection write, wrRKey write) (spRecords space))
            (removeBlobRefs (spBlobRefs space) repo (sdValue old)))
  | OtherAction _ => Err ErrInvalidRecord
  end.

(** [cloneSpace]: a deep copy, so that a batch that fails half-way leaves the space as it was.
    Values are immutable here, and the copy is the value. *)
Definition cloneSpace (space : spaceState) : spaceState := space.

Definition next_rev (space : spaceState) : spaceState :=
  MkSpaceState (spTarget space) (spRecords space) (spBlobRefs space) (u64 (spRev space + 1)).

(** ** The methods *)

(** A method that fails leaves the backend alone. *)
Definition with_backend {A} (b : Backend) (m : result (A * Backend)) : result A * Backend :=
  match m with
  | Ok (a, b') => (Ok a, b')
  | Err e => (Err e, b)
  end.

Definition mem_Capabilities (s : Session) : result Capabilities :=
  let? _ := checkActive s in
  Ok (MkCapabilities true true true false false false).

Definition mem_EnsureMailbox (s : Session) (recipientDID key : string) (b : Backend) :
    result (Target * Backend) :=
  let? _ := checkActive s in
  fail_if negb (ssOwner s) || String.eqb recipientDID "" || negb (String.eqb recipientDID (ssDID s))
    with ErrUnauthorized ;;
  fail_if negb (validKey key) with ErrTarget ;;
  let uri := "at://" +:+ recipientDID +:+ "/space/" +:+ MailboxSpaceType +:+ "/" +:+ key in
  let target := MkTarget "memory://local" uri recipientDID "memory-v1" in
  match bkSpaces b !! uri with
  | Some existing =>
      fail_if negb (bool_decide (spTarget existing = target)) with ErrTarget ;;
      Ok (target, b)
  | None => Ok (target, set_space b uri (MkSpaceState target ∅ ∅ 0))
  end.

Definition mem_UploadBlob (s : Session) (target : Target) (data mimeType : string) (b : Backend) :
    result (BlobRef * Backend) :=
  let? _ := checkActive s in
  fail_if String.eqb mimeType "" || (len data =? 0) with ErrInvalidRecord ;;
  let? _ := authWriteLocked s b target in
  let cid := "bafk-lab-sha256-" +:+ hex_encode (sha256 data) in
  Ok (MkBlobRef "blob" cid mimeType (raw_size data),
      MkBackend (bkSpaces b) (<[(tgRepoDID target, cid) := data]> (bkBlobs b))).

Definition apply_step (b : Backend) (target : Target) (s : spaceState * list WriteResult) (write : Write) :
    result (spaceState * list WriteResult) :=
  let? rs := applyOneLocked b s.1 target write in
  Ok (rs.2, s.2 ++ [rs.1]).

Definition mem_ApplyWrites (s : Session) (target : Target) (writes : list Write) (b : Backend) :
    result (Commit * Backend) :=
  let? _ := checkActive s in
  fail_if llen writes =? 0 with ErrInvalidRecord ;;
  let? space := authWriteLocked s b target in
  let? done := range (apply_step b target) writes (cloneSpace space, []) in
  let next := next_rev done.1 in
  Ok (MkCommit ("mem-" +:+ print_N (spRev next)) (spaceHash next) done.2,
      set_space b (tgSpaceURI target) next).

Definition mem_PutRecordCAS (s : Session) (target : Target) (collection rkey : string)
    (value : option json) (expectedCID : string) (b : Backend) : result (Record_ * Backend) :=
  let? _ := checkActive s in
  let? space := authWriteLocked s b target in
  let? current := opt_result (lookupRecord space (tgRepoDID target) collection rkey) ErrConflict in
  fail_if String.eqb expectedCID "" || negb (String.eqb (sdCID current) expectedCID) with ErrConflict ;;
  let? rs := applyOneLocked b (cloneSpace space) target (MkWrite Update collection rkey value expectedCID) in
  let next := next_rev rs.2 in
  let record := default (MkStoredRecord "" "" "") (lookupRecord next (tgRepoDID target) collection rkey) in
  Ok (exportRecord collection rkey record rs.1, set_space b (tgSpaceURI target) next).

Definition no_result : WriteResult := MkWriteResult "" "".

Definition mem_GetRecord (s : Session) (target : Target) (collection rkey : string) (b : Backend) :
    result Record_ :=
  let? _ := checkActive s in
  let? space := authReadLocked s b target in
  let? record := opt_result (lookupRecord space (tgRepoDID target) collection rkey) ErrNotFound in
  Ok (exportRecord collection rkey record no_result).

(** The keys of one collection, sorted. *)
Definition collection_keys (space : spaceState) (repo collection : string) : list string :=
  sort_strings (omap (λ kv : record_key * storedRecord,
    let '((r, c, k), _) := kv in if String.eqb r repo && String.eqb c collection then Some k else None)
    (map_to_list (spRecords space))).

Definition mem_ListRecords (s : Session) (target : Target) (collection : string) (b : Backend) :
    result (list Record_) :=
  let? _ := checkActive s in
  let? space := authReadLocked s b target in
  Ok (omap (λ rkey, match lookupRecord space (tgRepoDID target) collection rkey with
                    | Some record => Some (exportRecord collection rkey record no_result)
                    | None => None
                    end) (collection_keys space (tgRepoDID target) collection)).

Definition mem_GetBlob (s : Session) (target : Target) (cid : string) (b : Backend) : result string :=
  let? _ := checkActive s in
  let? space := authReadLocked s b target in
  fail_if (default 0 (spBlobRefs space !! (tgRepoDID target, cid)) <=? 0)%Z with ErrNotFound ;;
  opt_result (bkBlobs b !! (tgRepoDID target, cid)) ErrNotFound.

(** A session and the backend it acts on, as a repository. *)
Record memory_world : Type := MkMemoryWorld {
  mwSession : Session;
  mwBackend : Backend
}.

Definition lift {A} (w : memory_world) (m : result (A * Backend)) : result A * memory_world :=
  let '(r, b) := with_backend (mwBackend w) m in (r, MkMemoryWorld (mwSession w) b).

(** The record held at an address, as a read by an authorized session exports it. *)
Definition mem_held (w : memory_world) (target : Target) (collection rkey : string) : option Record_ :=
  match bkSpaces (mwBackend w) !! tgSpaceURI target with
  | Some space => (λ record, exportRecord collection rkey record no_result) <$>
                    lookupRecord space (tgRepoDID target) collection rkey
  | None => None
  end.

#[export] Instance memory_repository : Repository memory_world := {
  ProviderID := "memory-v1";
  Capabilities_ w := (mem_Capabilities (mwSession w), w);
  EnsureMailbox did key w := lift w (mem_EnsureMailbox (mwSession w) did key (mwBackend w));
  UploadBlob t data mime w := lift w (mem_UploadBlob (mwSession w) t data mime (mwBackend w));
  ApplyWrites t writes w := lift w (mem_ApplyWrites (mwSession w) t writes (mwBackend w));
  PutRecordCAS t c k v cid w := lift w (mem_PutRecordCAS (mwSession w) t c k v cid (mwBackend w));
  GetRecord t c k w := (mem_GetRecord (mwSession w) t c k (mwBackend w), w);
  ListRecords t c w := (mem_ListRecords (mwSession w) t c (mwBackend w), w);
  GetBlob t cid w := (mem_GetBlob (mwSession w) t cid (mwBackend w), w);
  held := mem_held
}.

(** ** Blob counters *)

Definition count_cid (cid : string) (cids : list string) : Z :=
  Z.of_nat (List.length (filter (λ c, c = cid) cids)).

(** [refs] counts what [f] says: no entry for zero. *)
Definition counts (refs : gmap (string * string) Z) (f : string → string → Z) : Prop :=
  ∀ repo cid, refs !! (repo, cid) = if (f repo cid =? 0)%Z then None else Some (f repo cid).

Lemma count_cid_cons c cid cids : count_cid c (cid :: cids) = ((if decide (cid = c) then 1 else 0) + count_cid c cids)%Z.
Proof. unfold count_cid. rewrite filter_cons. case_decide; simpl List.length; lia. Qed.

Lemma count_cid_nil c : count_cid c [] = 0%Z.
Proof. done. Qed.

Lemma count_cid_nonneg c cids : (0 <= count_cid c cids)%Z.
Proof. unfold count_cid. lia. Qed.

Lemma count_cid_pos c cids : (0 < count_cid c cids)%Z ↔ c ∈ cids.
Proof.
  induction cids as [|x cids IH]; [unfold count_cid; simpl; set_solver by lia|].
  rewrite count_cid_cons, elem_of_cons. pose proof (count_cid_nonneg c cids).
  case_decide as Hx; split; intros Hc; [left; congruence|lia| |].
  - right. apply IH. lia.
  - destruct Hc as [->|Hc]; [congruence|]. apply IH in Hc. lia.
Qed.

Definition add_counts (f : string → string → Z) (repo : string) (cids : list string) : string → string → Z :=
  λ r c, (f r c + if decide (r = repo) then count_cid c cids else 0)%Z.
Definition sub_counts (f : string → string → Z) (repo : string) (cids : list string) : string → string → Z :=
  λ r c, (f r c - if decide (r = repo) then count_cid c cids else 0)%Z.

Lemma counts_ext refs f g : (∀ r c, f r c = g r c) → counts refs f → counts refs g.
Proof. intros Hfg Hc r c. by rewrite <- Hfg. Qed.

Lemma addBlobRefs_counts refs f repo cids :
  (∀ r c, 0 <= f r c)%Z → counts refs f → counts (addBlobRefs refs repo cids) (add_counts f repo cids).
Proof.
  revert refs f. induction cids as [|cid cids IH]; intros refs f Hf Hc.
  { eapply counts_ext; [|exact Hc]. intros r c. unfold add_counts. rewrite count_cid_nil. case_decide; lia. }
  change (addBlobRefs refs repo (cid :: cids)) with (addBlobRefs (add_ref repo refs cid) repo cids).
  eapply counts_ext; [|apply (IH _ (add_counts f repo [cid]))].
  - intros r c. unfold add_counts. rewrite !count_cid_cons, count_cid_nil. repeat case_decide; lia.
  - intros r c. unfold add_counts. specialize (Hf r c). pose proof (count_cid_nonneg c [cid]). case_decide; lia.
  - intros r c. unfold add_ref, add_counts. rewrite count_cid_cons, count_cid_nil.
    destruct (decide (r = repo ∧ cid = c)) as [[-> ->]|Hne].
    + rewrite lookup_insert_eq, !decide_True by done. rewrite (Hc repo c). specialize (Hf repo c).
      destruct (Z.eqb_spec (f repo c) 0) as [->|_]; simpl default; [done|].
      rewrite (proj2 (Z.eqb_neq _ _)) by lia. cbn [default]. apply (f_equal Some). lia.
    + rewrite lookup_insert_ne by (intros [=]; by destruct Hne). rewrite (Hc r c).
      assert (E : (f r c + (if decide (r = repo) then (if decide (cid = c) then 1 else 0) + 0 else 0) = f r c)%Z).
      { repeat case_decide; try lia. by destruct Hne. }
      by rewrite E.
Qed.

Lemma fold_remove_counts refs f repo cids :
  (∀ c, count_cid c cids <= f repo c)%Z → counts refs f →
  counts (fold_left (remove_ref repo) cids refs) (sub_counts f repo cids).
Proof.
  revert refs f. induction cids as [|cid cids IH]; intros refs f Hle Hc.
  { eapply counts_ext; [|exact Hc]. intros r c. unfold sub_counts. rewrite count_cid_nil. case_decide; lia. }
  cbn [fold_left].
  assert (Hle' : ∀ c, ((if decide (cid = c) then 1 else 0) + count_cid c cids <= f repo c)%Z).
  { intros c. rewrite <- count_cid_cons. apply Hle. }
  eapply counts_ext; [|apply (IH _ (sub_counts f repo [cid]))].
  - intros r c. unfold sub_counts. rewrite !count_cid_cons, count_cid_nil. repeat case_decide; lia.
  - intros c. unfold sub_counts. rewrite decide_True, count_cid_cons, count_cid_nil by done.
    specialize (Hle' c). lia.
  - intros r c. unfold remove_ref, sub_counts. rewrite count_cid_cons, count_cid_nil.
    pose proof (Hle' cid) as H1. rewrite decide_True in H1 by done.
    pose proof (count_cid_nonneg cid cids).
    assert (Ecid : default 0%Z (refs !! (repo, cid)) = f repo cid).
    { rewrite (Hc repo cid). by destruct (Z.eqb_spec (f repo cid) 0). }
    rewrite Ecid. destruct (decide (r = repo ∧ cid = c)) as [[-> ->]|Hne].
    + rewrite !decide_True by done. destruct (Z.leb_spec (f repo c - 1) 0).
      * rewrite lookup_delete_eq, (proj2 (Z.eqb_eq _ _)) by lia. done.
      * rewrite lookup_insert_eq, (proj2 (Z.eqb_neq _ _)) by lia. apply (f_equal Some). lia.
    + assert (E : (f r c - (if decide (r = repo) then (if decide (cid = c) then 1 else 0) + 0 else 0) = f r c)%Z).
      { repeat case_decide; try lia. by destruct Hne. }
      rewrite E. assert (Hk : (repo, cid) ≠ (r, c)) by (intros [=]; by destruct Hne).
      destruct (Z.leb_spec (f repo cid - 1) 0);
        [rewrite lookup_delete_ne by done|rewrite lookup_insert_ne by done]; apply Hc.
Qed.

(** ** The counters a set of records asks for *)

Definition record_blobs (value : string) : list string :=
  match findBlobCIDs value with Ok l => l | Err _ => [] end.

(** What one record contributes to the counter of a CID. *)
Definition contribution (repo cid : string) (key : record_key) (record : storedRecord) : Z :=
  if decide (key.1.1 = repo) then count_cid cid (record_blobs (sdValue record)) else 0.

Definition ref_total (records : gmap record_key storedRecord) (repo cid : string) : Z :=
  map_fold (λ key record n, (contribution repo cid key record + n)%Z) 0%Z records.

Lemma contribution_nonneg repo cid key record : (0 <= contribution repo cid key record)%Z.
Proof. unfold contribution. case_decide; [apply count_cid_nonneg|lia]. Qed.

Lemma ref_total_insert records key record repo cid :
  records !! key = None →
  ref_total (<[key := record]> records) repo cid =
  (contribution repo cid key record + ref_total records repo cid)%Z.
Proof. intros Hk. unfold ref_total. rewrite map_fold_insert_L; [done|intros; lia|done]. Qed.

Lemma ref_total_delete records key record repo cid :
  records !! key = Some record →
  ref_total records repo cid =
  (contribution repo cid key record + ref_total (delete key records) repo cid)%Z.
Proof. intros Hk. rewrite <- ref_total_insert by apply lookup_delete_eq. by rewrite insert_delete_id. Qed.

Lemma ref_total_nonneg records repo cid : (0 <= ref_total records repo cid)%Z.
Proof.
  induction records as [|key record records Hk IH] using map_ind; [done|].
  rewrite ref_total_insert by done. pose proof (contribution_nonneg repo cid key record). lia.
Qed.

(** A CID is counted exactly when some record of the repository references it. *)
Lemma ref_total_pos records repo cid :
  (0 < ref_total records repo cid)%Z ↔
  ∃ collection rkey record, records !! (repo, collection, rkey) = Some record ∧
    cid ∈ record_blobs (sdValue record).
Proof.
  split.
  - induction records as [|key record records Hk IH] using map_ind; [done|].
    rewrite ref_total_insert by done. intros Hp.
    destruct (decide (0 < contribution repo cid key record)%Z) as [Hc|Hc].
    + unfold contribution in Hc. case_decide as Hr; [|lia]. apply count_cid_pos in Hc.
      destruct key as [[r c] k]. simpl in Hr. subst. exists c, k, record. by rewrite lookup_insert_eq.
    + pose proof (contribution_nonneg repo cid key record).
      destruct IH as (c & k & record' & Hl & Hc'); [lia|]. exists c, k, record'.
      rewrite lookup_insert_ne; [done|]. intros ->. by pose proof (eq_trans (eq_sym Hl) Hk).
  - intros (c & k & record & Hl & Hc%count_cid_pos). rewrite (ref_total_delete _ _ _ _ _ Hl).
    pose proof (ref_total_nonneg (delete (repo, c, k) records) repo cid).
    unfold contribution. cbn [fst]. rewrite decide_True by done. lia.
Qed.

(** ** The state invariant *)

Definition blob_cid (data : string) : string := "bafk-lab-sha256-" +:+ hex_encode (sha256 data).

(** A stored record sits in its own repository under a valid key, carries the address and the
    CID of its value, and references only blobs that are there. *)
Definition record_ok (blobs : gmap (string * string) string) (target : Target)
    (key : record_key) (record : storedRecord) : Prop :=
  ∃ collection rkey j cids, key = (tgRepoDID target, collection, rkey) ∧
    validCollection collection = true ∧ validKey rkey = true ∧
    sdURI record = record_uri target collection rkey ∧
    sdValue record = print j ∧ sdCID record = recordCID (sdValue record) ∧
    findBlobCIDs (sdValue record) = Ok cids ∧
    ∀ cid, cid ∈ cids → is_Some (blobs !! (tgRepoDID target, cid)).

Record space_ok (blobs : gmap (string * string) string) (space : spaceState) : Prop := {
  space_counts : counts (spBlobRefs space) (ref_total (spRecords space));
  space_records : map_Forall (record_ok blobs (spTarget space)) (spRecords space)
}.

Record backend_ok (b : Backend) : Prop := {
  backend_blobs : ∀ repo cid data, bkBlobs b !! (repo, cid) = Some data → cid = blob_cid data ∧ data ≠ "";
  backend_spaces : ∀ uri space, bkSpaces b !! uri = Some space →
    tgSpaceURI (spTarget space) = uri ∧
    HasPrefix uri ("at://" +:+ tgRepoDID (spTarget space) +:+ "/space/") = true ∧
    space_ok (bkBlobs b) space
}.

Lemma record_ok_mono blobs blobs' target key record :
  (∀ k, is_Some (blobs !! k) → is_Some (blobs' !! k)) →
  record_ok blobs target key record → record_ok blobs' target key record.
Proof.
  intros Hs (c & k & j & cids & ? & ? & ? & ? & ? & ? & ? & Hb). exists c, k, j, cids.
  split_and!; try done. intros cid Hc. apply Hs, Hb, Hc.
Qed.

Lemma removeBlobRefs_counts refs records repo c k record :
  records !! (repo, c, k) = Some record → counts refs (ref_total records) →
  counts (removeBlobRefs refs repo (sdValue record)) (ref_total (delete (repo, c, k) records)).
Proof.
  intros Hl Hc. eapply counts_ext; [|apply (fold_remove_counts _ (ref_total records)); [|exact Hc]].
  - intros r cid. unfold sub_counts. rewrite (ref_total_delete _ _ _ r cid Hl). unfold contribution.
    simpl. change (match findBlobCIDs (sdValue record) with Ok l => l | Err _ => [] end)
      with (record_blobs (sdValue record)). repeat case_decide; subst; try done; lia.
  - intros cid. rewrite (ref_total_delete _ _ _ repo cid Hl). unfold contribution. simpl.
    rewrite decide_True by done. pose proof (ref_total_nonneg (delete (repo, c, k) records) repo cid).
    change (match findBlobCIDs (sdValue record) with Ok l => l | Err _ => [] end)
      with (record_blobs (sdValue record)). lia.
Qed.

Lemma addBlobRefs_total refs records repo c k record cids :
  records !! (repo, c, k) = None → findBlobCIDs (sdValue record) = Ok cids →
  counts refs (ref_total records) →
  counts (addBlobRefs refs repo cids) (ref_total (<[(repo, c, k) := record]> records)).
Proof.
  intros Hl Hf Hc. eapply counts_ext; [|apply addBlobRefs_counts; [|exact Hc]].
  - intros r cid. rewrite ref_total_insert by done. unfold add_counts, contribution, record_blobs.
    simpl. rewrite Hf. repeat case_decide; subst; try done; lia.
  - intros. apply ref_total_nonneg.
Qed.

(** ** What one write does to the contents *)

(** The contents of a space: the value stored under each key. *)
Definition contents (space : spaceState) : gmap record_key string := sdValue <$> spRecords space.

Definition write_key (target : Target) (write : Write) : record_key :=
  (tgRepoDID target, wrCollection write, wrRKey write).

(** The value a create or update stores: its encoding, if all blobs it references are there. *)
Definition write_value (blobs : gmap (string * string) string) (target : Target) (write : Write) :
    result string :=
  let? j := opt_result (wrValue write) ErrOther in
  let? cids := findBlobCIDs (print j) in
  if forallb (λ cid, bool_decide (is_Some (blobs !! (tgRepoDID target, cid)))) cids
  then Ok (print j) else Err ErrNotFound.

(** The contract of one write, on the contents alone. *)
Definition write_contract (blobs : gmap (string * string) string) (target : Target) (write : Write)
    (m : gmap record_key string) : result (gmap record_key string) :=
  let key := write_key target write in
  let put := let? v := write_value blobs target write in Ok (<[key := v]> m) in
  if negb (validCollection (wrCollection write) && validKey (wrRKey write)) then Err ErrInvalidRecord
  else match wrAction write, m !! key with
  | Create, None => if String.eqb (wrSwapCID write) "" then put else Err ErrInvalidRecord
  | Create, Some _ => if String.eqb (wrSwapCID write) "" then Err ErrExists else Err ErrInvalidRecord
  | (Update | Delete), None => Err ErrNotFound
  | Update, Some old =>
      if String.eqb (wrSwapCID write) "" || String.eqb (recordCID old) (wrSwapCID write)
      then put else Err ErrConflict
  | Delete, Some old =>
      if String.eqb (wrSwapCID write) "" || String.eqb (recordCID old) (wrSwapCID write)
      then Ok (delete key m) else Err ErrConflict
  | OtherAction _, _ => Err ErrInvalidRecord
  end.

Lemma range_check_present blobs (repo : string) cids :
  range_check (λ cid, fail_if negb (bool_decide (is_Some (blobs !! (repo, cid)))) with ErrNotFound ;; Ok tt) cids =
  if forallb (λ cid, bool_decide (is_Some ((blobs : gmap (string * string) string) !! (repo, cid)))) cids
  then Ok tt else Err ErrNotFound.
Proof.
  induction cids as [|cid cids IH]; [done|]. simpl forallb.
  unfold range_check in *. simpl range. destruct (bool_decide _); simpl; [exact IH|done].
Qed.

(** The answer to a write: the address and CID of what it stored, nothing for a delete. *)
Definition write_answer (target : Target) (write : Write) (m : gmap record_key string) : WriteResult :=
  match wrAction write with
  | Delete => no_result
  | _ => MkWriteResult (record_uri target (wrCollection write) (wrRKey write))
           (recordCID (default "" (m !! write_key target write)))
  end.

Definition write_done (b : Backend) (target : Target) (write : Write) (space : spaceState)
    (r : WriteResult) (space' : spaceState) : Prop :=
  spTarget space' = target ∧ spRev space' = spRev space ∧ space_ok (bkBlobs b) space' ∧
  r = write_answer target write (contents space').

Lemma write_key_eq target write :
  (tgRepoDID target, wrCollection write, wrRKey write) = write_key target write.
Proof. done. Qed.

Lemma store_record_spec b space t w old :
  spTarget space = t → space_ok (bkBlobs b) space → wrAction w ≠ Delete →
  validCollection (wrCollection w) = true → validKey (wrRKey w) = true →
  old = spRecords space !! write_key t w →
  match store_record b space t w old with
  | Err e => write_value (bkBlobs b) t w = Err e
  | Ok (r, space') => ∃ v, write_value (bkBlobs b) t w = Ok v ∧
      contents space' = <[write_key t w := v]> (contents space) ∧ write_done b t w space r space'
  end.
Proof.
  intros Ht [Hc Hr] Ha Hvc Hvk Hold. unfold store_record, write_value.
  destruct (wrValue w) as [j|]; [|done]. cbn [opt_result result_bind].
  destruct (findBlobCIDs (print j)) as [cids|e] eqn:Ef; [|done]. cbn [result_bind].
  rewrite range_check_present. destruct (forallb _ cids) eqn:Ep; [|done]. cbn [result_bind].
  exists (print j). split; [done|]. split.
  { unfold contents, set_contents. cbn [spRecords]. by rewrite fmap_insert, write_key_eq. }
  unfold write_done, set_contents. cbn [spTarget spRev]. split_and!; try done.
  2: { unfold write_answer, contents. cbn [spRecords]. rewrite write_key_eq, fmap_insert, lookup_insert_eq.
       by destruct (wrAction w). }
  split; cbn [spBlobRefs spRecords spTarget].
  - rewrite write_key_eq. rewrite <- (insert_delete_eq (spRecords space) (write_key t w)).
    apply addBlobRefs_total; [apply lookup_delete_eq|done|].
    destruct old as [old|].
    + by apply removeBlobRefs_counts.
    + by rewrite delete_id.
  - rewrite Ht in Hr |- *. apply map_Forall_insert_2; [|done].
    exists (wrCollection w), (wrRKey w), j, cids. split_and!; try done.
    intros cid Hcid. rewrite forallb_forall in Ep. apply list_elem_of_In in Hcid.
    apply Ep in Hcid. by apply bool_decide_eq_true in Hcid.
Qed.

Lemma contents_lookup space key : contents space !! key = sdValue <$> spRecords space !! key.
Proof. apply lookup_fmap. Qed.

Lemma swap_conflicts_spec blobs space w key old :
  space_ok blobs space → spRecords space !! key = Some old →
  swap_conflicts w old =
  negb (String.eqb (wrSwapCID w) "" || String.eqb (recordCID (sdValue old)) (wrSwapCID w)).
Proof.
  intros [_ Hr] Hl. destruct (Hr _ _ Hl) as (c & k & j & cids & _ & _ & _ & _ & _ & Hcid & _).
  unfold swap_conflicts. rewrite Hcid. by rewrite negb_orb.
Qed.

Lemma delete_record_spec b space t w old :
  spTarget space = t → space_ok (bkBlobs b) space → wrAction w = Delete →
  spRecords space !! write_key t w = Some old →
  let space' := set_contents space (delete (write_key t w) (spRecords space))
                  (removeBlobRefs (spBlobRefs space) (tgRepoDID t) (sdValue old)) in
  contents space' = delete (write_key t w) (contents space) ∧
  write_done b t w space (MkWriteResult "" "") space'.
Proof.
  intros Ht [Hc Hr] Ha Hl space'. split.
  { unfold contents, space', set_contents. cbn [spRecords]. by rewrite fmap_delete. }
  unfold write_done, space', set_contents. cbn [spTarget spRev]. split_and!; try done.
  2: { unfold write_answer. by rewrite Ha. }
  split; cbn [spBlobRefs spRecords spTarget].
  - by apply removeBlobRefs_counts.
  - by apply map_Forall_delete.
Qed.

Lemma applyOneLocked_spec b space t w :
  spTarget space = t → space_ok (bkBlobs b) space →
  match applyOneLocked b space t w with
  | Err e => write_contract (bkBlobs b) t w (contents space) = Err e
  | Ok (r, space') => write_contract (bkBlobs b) t w (contents space) = Ok (contents space') ∧
                      write_done b t w space r space'
  end.
Proof.
  intros Ht Hok. unfold applyOneLocked, write_contract. rewrite negb_andb, contents_lookup.
  unfold lookupRecord. rewrite write_key_eq.
  destruct (validCollection _) eqn:Hvc; [|done]. destruct (validKey _) eqn:Hvk; [|done]. cbn [negb orb].
  assert (Hstore : wrAction w ≠ Delete →
    match store_record b space t w (spRecords space !! write_key t w) with
    | Ok (r, space') => (let? v := write_value (bkBlobs b) t w in Ok (<[write_key t w := v]> (contents space))) =
                          Ok (contents space') ∧ write_done b t w space r space'
    | Err e => (let? v := write_value (bkBlobs b) t w in Ok (<[write_key t w := v]> (contents space))) = Err e
    end).
  { intros Ha. pose proof (store_record_spec b space t w _ Ht Hok Ha Hvc Hvk eq_refl) as Hs.
    destruct (store_record _ _ _ _ _) as [[r space']|e].
    - destruct Hs as (v & -> & Hs & Hd). cbn [result_bind]. by rewrite Hs.
    - by rewrite Hs. }
  destruct (wrAction w) eqn:Ha; destruct (spRecords space !! write_key t w) as [old|] eqn:El;
    cbn [fmap option_fmap option_map opt_result result_bind]; try done.
  - by destruct (String.eqb (wrSwapCID w) "").
  - destruct (String.eqb (wrSwapCID w) ""); [|done]. rewrite bool_decide_eq_false_2 by by intros [].
    by apply Hstore.
  - rewrite (swap_conflicts_spec _ _ _ _ _ Hok El). destruct (_ || _); [|done]. by apply Hstore.
  - rewrite (swap_conflicts_spec _ _ _ _ _ Hok El). destruct (_ || _); [|done]. cbn [negb].
    pose proof (delete_record_spec b space t w old Ht Hok Ha El) as [-> Hd]. done.
Qed.

(** ** A batch *)

Definition contract_step (blobs : gmap (string * string) string) (target : Target)
    (s : gmap record_key string * list WriteResult) (write : Write) :
    result (gmap record_key string * list WriteResult) :=
  let? m := write_contract blobs target write s.1 in
  Ok (m, s.2 ++ [write_answer target write m]).

Lemma apply_steps_spec b t ws space rs :
  spTarget space = t → space_ok (bkBlobs b) space →
  match range (apply_step b t) ws (space, rs) with
  | Err e => range (contract_step (bkBlobs b) t) ws (contents space, rs) = Err e
  | Ok (space', rs') =>
      range (contract_step (bkBlobs b) t) ws (contents space, rs) = Ok (contents space', rs') ∧
      spTarget space' = t ∧ spRev space' = spRev space ∧ space_ok (bkBlobs b) space'
  end.
Proof.
  revert space rs. induction ws as [|w ws IH]; intros space rs Ht Hok; [done|].
  cbn [range]. unfold apply_step at 1, contract_step at 1 3. cbn [fst snd].
  pose proof (applyOneLocked_spec b space t w Ht Hok) as Hw.
  destruct (applyOneLocked b space t w) as [[r space']|e]; cbn [result_bind].
  - destruct Hw as (Hw & Ht' & Hrev & Hok' & Hr). rewrite Hw. cbn [result_bind fst snd]. rewrite <- Hr.
    pose proof (IH space' (rs ++ [r]) Ht' Hok') as IH'.
    destruct (range (apply_step b t) ws _) as [[space'' rs'']|e]; [|done].
    destruct IH' as (? & ? & Hrev' & ?). split_and!; try done. by rewrite Hrev'.
  - by rewrite Hw.
Qed.

Lemma contract_steps_answers blobs t ws m rs m' rs' :
  range (contract_step blobs t) ws (m, rs) = Ok (m', rs') →
  List.length rs' = (List.length rs + List.length ws)%nat.
Proof.
  revert m rs. induction ws as [|w ws IH]; intros m rs; cbn [range]; [intros [= _ ->]; simpl; lia|].
  unfold contract_step at 1. cbn [fst snd]. destruct (write_contract _ _ _ _) as [m1|e]; [|done].
  cbn [result_bind]. intros Hr%IH. rewrite Hr, length_app. simpl. lia.
Qed.

(** ** The backend as a transition system

    Each method holds the lock from its first look at the backend to its last, so an execution
    of any number of sessions is a sequence of whole calls. *)

Inductive memory_step (s : Session) (b : Backend) : Backend → Prop :=
  | step_ensure did key target b' :
      mem_EnsureMailbox s did key b = Ok (target, b') → memory_step s b b'
  | step_upload target data mimeType ref b' :
      mem_UploadBlob s target data mimeType b = Ok (ref, b') → memory_step s b b'
  | step_apply target writes commit b' :
      mem_ApplyWrites s target writes b = Ok (commit, b') → memory_step s b b'
  | step_put target collection rkey value expectedCID record b' :
      mem_PutRecordCAS s target collection rkey value expectedCID b = Ok (record, b') → memory_step s b b'.

Inductive memory_reachable : Backend → Prop :=
  | reachable_new : memory_reachable NewBackend
  | reachable_step s b b' : memory_reachable b → memory_step s b b' → memory_reachable b'.

Lemma authWriteLocked_ok s b t space :
  authWriteLocked s b t = Ok space →
  ssOwner s = true ∧ tgRepoDID t = ssDID s ∧ bkSpaces b !! tgSpaceURI t = Some space ∧
  spTarget space = t ∧ HasPrefix (tgSpaceURI t) ("at://" +:+ ssDID s +:+ "/space/") = true.
Proof.
  unfold authWriteLocked. intros Ha. result_steps. bools. split_and!; try done.
Qed.

Lemma authReadLocked_ok s b t space :
  authReadLocked s b t = Ok space →
  bkSpaces b !! tgSpaceURI t = Some space ∧ spTarget space = t ∧
  (ssOwner s = true ∧ tgRepoDID t = ssDID s ∨ ssCredentialSpace s = tgSpaceURI t).
Proof.
  unfold authReadLocked. intros Ha. result_steps.
  destruct (ssOwner s && _) eqn:Eo; [|destruct (String.eqb (ssCredentialSpace s) _) eqn:Ec; [|done]];
    injection Ha as <-; bools; split_and!; auto.
Qed.

Lemma set_space_ok b uri space space' :
  backend_ok b → bkSpaces b !! uri = Some space → spTarget space' = spTarget space →
  space_ok (bkBlobs b) space' → backend_ok (set_space b uri space').
Proof.
  intros [Hb Hs] Hl Ht Hok. split; [done|]. intros uri' space1. cbn [set_space bkSpaces bkBlobs].
  rewrite lookup_insert. case_decide; [|apply Hs]. subst. intros [= <-]. rewrite Ht.
  destruct (Hs _ _ Hl) as (? & ? & _). done.
Qed.

Lemma next_rev_ok blobs space : space_ok blobs space → space_ok blobs (next_rev space).
Proof. by intros [? ?]. Qed.

Lemma mem_EnsureMailbox_ok s did key b t b' :
  mem_EnsureMailbox s did key b = Ok (t, b') →
  ssRevoked s = false ∧ ssOwner s = true ∧ did = ssDID s ∧
  HasPrefix (tgSpaceURI t) ("at://" +:+ ssDID s +:+ "/space/") = true ∧ tgRepoDID t = ssDID s ∧
  ((b' = b ∧ spTarget <$> bkSpaces b !! tgSpaceURI t = Some t) ∨
   (bkSpaces b !! tgSpaceURI t = None ∧ b' = set_space b (tgSpaceURI t) (MkSpaceState t ∅ ∅ 0))).
Proof.
  unfold mem_EnsureMailbox, checkActive. intros He. result_steps; bools. subst did.
  set (uri := "at://" +:+ ssDID s +:+ "/space/" +:+ MailboxSpaceType +:+ "/" +:+ key) in *.
  assert (Hp : HasPrefix uri ("at://" +:+ ssDID s +:+ "/space/") = true).
  { apply HasPrefix_spec. exists (MailboxSpaceType +:+ "/" +:+ key). unfold uri. by rewrite !app_assoc_s. }
  destruct (bkSpaces b !! uri) as [existing|] eqn:El; result_steps; bools;
    split_and!; try done; [left|right]; split; try done. simpl. rewrite El. simpl. by f_equal.
Qed.

Lemma mem_UploadBlob_ok s t data mime b ref b' :
  mem_UploadBlob s t data mime b = Ok (ref, b') →
  ssRevoked s = false ∧ (∃ space, authWriteLocked s b t = Ok space) ∧ data ≠ "" ∧
  ref = MkBlobRef "blob" (blob_cid data) mime (raw_size data) ∧
  b' = MkBackend (bkSpaces b) (<[(tgRepoDID t, blob_cid data) := data]> (bkBlobs b)).
Proof.
  unfold mem_UploadBlob, checkActive. intros Hu. result_steps; bools.
  split_and!; [done|by eexists| |done|done]. by intros ->.
Qed.

Lemma mem_ApplyWrites_ok s t ws b commit b' :
  mem_ApplyWrites s t ws b = Ok (commit, b') →
  ssRevoked s = false ∧ ∃ space space' rs, authWriteLocked s b t = Ok space ∧
    range (apply_step b t) ws (space, []) = Ok (space', rs) ∧
    commit = MkCommit ("mem-" +:+ print_N (spRev (next_rev space'))) (spaceHash (next_rev space')) rs ∧
    b' = set_space b (tgSpaceURI t) (next_rev space').
Proof.
  unfold mem_ApplyWrites, checkActive, cloneSpace. intros Ha. result_steps; bools.
  split; [done|]. match goal with x : (spaceState * _)%type |- _ => destruct x as [space' rs] end.
  eexists _, space', rs. by split_and!.
Qed.

Lemma mem_PutRecordCAS_ok s t c k v cid b record b' :
  mem_PutRecordCAS s t c k v cid b = Ok (record, b') →
  ssRevoked s = false ∧ cid ≠ "" ∧ ∃ space old r space', authWriteLocked s b t = Ok space ∧
    spRecords space !! (tgRepoDID t, c, k) = Some old ∧ sdCID old = cid ∧
    applyOneLocked b space t (MkWrite Update c k v cid) = Ok (r, space') ∧
    record = exportRecord c k (default (MkStoredRecord "" "" "")
      (spRecords (next_rev space') !! (tgRepoDID t, c, k))) r ∧
    b' = set_space b (tgSpaceURI t) (next_rev space').
Proof.
  unfold mem_PutRecordCAS, checkActive, cloneSpace. intros Hp. result_steps; bools.
  split_and!; [done|done|]. match goal with x : (WriteResult * _)%type |- _ => destruct x as [r space'] end.
  eexists _, _, r, space'. by split_and!.
Qed.

Lemma memory_step_ok s b b' : memory_step s b b' → backend_ok b → backend_ok b'.
Proof.
  intros Hstep Hb. destruct Hstep as
    [did key t b' (_ & _ & _ & Hp & Hr & [[-> _]|[Hn ->]])%mem_EnsureMailbox_ok
    |t data mime ref b' (_ & _ & Hd & _ & ->)%mem_UploadBlob_ok
    |t ws commit b' (_ & space & space' & rs & Ha & Hw & _ & ->)%mem_ApplyWrites_ok
    |t c k v cid record b' (_ & _ & space & old & r & space' & Ha & _ & _ & Hw & _ & ->)%mem_PutRecordCAS_ok].
  - done.
  - destruct Hb as [Hbl Hsp]. split; [done|]. intros uri space. cbn [set_space bkSpaces bkBlobs].
    rewrite lookup_insert. case_decide; [|apply Hsp]. subst. intros [= <-]. cbn [spTarget].
    rewrite Hr. split_and!; try done.
  - destruct Hb as [Hbl Hsp]. split; cbn [bkBlobs bkSpaces].
    + intros repo cid d. rewrite lookup_insert. case_decide as E; [|apply Hbl].
      injection E as <- <-. by intros [= <-].
    + intros uri space Hl. destruct (Hsp _ _ Hl) as (? & ? & [Hc Hr]). split_and!; try done.
      split; [done|]. eapply map_Forall_impl; [exact Hr|]. intros key record. apply record_ok_mono.
      intros key' Hk. rewrite lookup_insert. by case_decide.
  - apply authWriteLocked_ok in Ha as (_ & _ & Hl & Ht & _).
    pose proof (backend_spaces _ Hb _ _ Hl) as (_ & _ & Hok).
    pose proof (apply_steps_spec b t ws space [] Ht Hok) as Hs. rewrite Hw in Hs.
    destruct Hs as (_ & Ht' & _ & Hok'). eapply set_space_ok; [done|done| |by apply next_rev_ok].
    simpl. by rewrite Ht'.
  - apply authWriteLocked_ok in Ha as (_ & _ & Hl & Ht & _).
    pose proof (backend_spaces _ Hb _ _ Hl) as (_ & _ & Hok).
    pose proof (applyOneLocked_spec b space t (MkWrite Update c k v cid) Ht Hok) as Hs. rewrite Hw in Hs.
    destruct Hs as (_ & Ht' & _ & Hok' & _). eapply set_space_ok; [done|done| |by apply next_rev_ok].
    simpl. by rewrite Ht'.
Qed.

Lemma NewBackend_ok : backend_ok NewBackend.
Proof. split; cbn; intros *; by rewrite lookup_empty. Qed.

Lemma reachable_ok b : memory_reachable b → backend_ok b.
Proof. induction 1; [apply NewBackend_ok|]. by eapply memory_step_ok. Qed.

(** ** The interface laws *)

Lemma applyOneLocked_update b space t c k v cid r space' :
  applyOneLocked b space t (MkWrite Update c k v cid) = Ok (r, space') →
  ∃ j, v = Some j ∧
    let record := MkStoredRecord (record_uri t c k) (recordCID (print j)) (print j) in
    r = MkWriteResult (sdURI record) (sdCID record) ∧
    spRecords space' = <[(tgRepoDID t, c, k) := record]> (spRecords space) ∧
    spTarget space' = spTarget space.
Proof.
  unfold applyOneLocked, store_record. cbn [wrAction wrCollection wrRKey wrValue wrSwapCID].
  intros Hw. result_steps. eexists. by split_and!.
Qed.

Lemma applyOneLocked_target b space t w r space' :
  applyOneLocked b space t w = Ok (r, space') → spTarget space' = spTarget space.
Proof.
  unfold applyOneLocked, store_record. intros Hw. result_steps. by destruct (wrAction w); result_steps.
Qed.

Lemma collection_keys_spec space repo collection :
  NoDup (collection_keys space repo collection) ∧
  ∀ k, k ∈ collection_keys space repo collection ↔ is_Some (spRecords space !! (repo, collection, k)).
Proof.
  unfold collection_keys. set (f := λ kv : record_key * storedRecord, _).
  assert (Hf : ∀ kv k, f kv = Some k ↔ kv.1 = (repo, collection, k)).
  { intros [[[r c] k'] rec] k. unfold f. cbn [fst].
    destruct (String.eqb_spec r repo), (String.eqb_spec c collection); naive_solver. }
  split.
  - rewrite sort_strings_perm. pose proof (NoDup_fst_map_to_list (spRecords space)) as Hnd.
    induction (map_to_list (spRecords space)) as [|kv l IH]; [constructor|].
    cbn [fmap list_fmap] in Hnd. apply NoDup_cons in Hnd as [Hni Hnd]. cbn [omap list_omap].
    destruct (f kv) as [k|] eqn:E; [|by apply IH]. apply NoDup_cons. split; [|by apply IH].
    intros (kv' & Hin & E')%list_elem_of_omap. apply Hf in E, E'. apply Hni, list_elem_of_fmap.
    exists kv'. by rewrite E, E'.
  - intros k. rewrite elem_of_sort_strings, list_elem_of_omap. split.
    + intros ([key rec] & Hin & E). apply Hf in E. simpl in E. subst.
      apply elem_of_map_to_list in Hin. by exists rec.
    + intros [rec Hl]. exists (repo, collection, k, rec). split; [by apply elem_of_map_to_list|by apply Hf].
Qed.

Lemma store_record_records b space t w existing r space' :
  store_record b space t w existing = Ok (r, space') →
  ∃ record, spRecords space' = <[(tgRepoDID t, wrCollection w, wrRKey w) := record]> (spRecords space).
Proof. unfold store_record. intros Hs. result_steps. by eexists. Qed.

Lemma applyOneLocked_create b space t w r space' :
  wrAction w = Create → applyOneLocked b space t w = Ok (r, space') → spRecords space ⊆ spRecords space'.
Proof.
  intros Ha. unfold applyOneLocked. rewrite Ha. intros Hw. result_steps. bools.
  match goal with E : store_record _ _ _ _ _ = _ |- _ => apply store_record_records in E as [record ->] end.
  apply insert_subseteq. unfold lookupRecord in *. by apply eq_None_not_Some.
Qed.

Lemma apply_steps_create b t ws s s' :
  Forall (λ write, wrAction write = Create) ws → range (apply_step b t) ws s = Ok s' →
  spRecords s.1 ⊆ spRecords s'.1.
Proof.
  intros Hc. revert s. induction Hc as [|w ws Hw _ IH]; intros s; cbn [range]; [by intros [= ->]|].
  unfold apply_step at 1. intros Hr. result_steps. apply IH in Hr. etrans; [|exact Hr].
  match goal with E : applyOneLocked _ _ _ _ = Ok ?x |- _ => destruct x; by eapply applyOneLocked_create end.
Qed.

Lemma exported_records space repo c keys :
  NoDup keys → (∀ k, k ∈ keys ↔ is_Some (spRecords space !! (repo, c, k))) →
  let l := omap (λ rkey, match lookupRecord space repo c rkey with
                         | Some record => Some (exportRecord c rkey record no_result)
                         | None => None
                         end) keys in
  NoDup (rcRKey <$> l) ∧
  ∀ rec, rec ∈ l ↔ (λ record, exportRecord c (rcRKey rec) record no_result) <$>
    lookupRecord space repo c (rcRKey rec) = Some rec.
Proof.
  intros Hnd Hk. cbv zeta. split.
  - assert (E : ∀ ks : list string, (rcRKey <$> omap (λ rkey, match lookupRecord space repo c rkey with
        | Some record => Some (exportRecord c rkey record no_result) | None => None end) ks) =
        omap (λ k, if lookupRecord space repo c k then Some k else None) ks).
    { induction ks as [|k ks IH]; [done|]. cbn [omap list_omap].
      destruct (lookupRecord space repo c k); [|exact IH]. cbn [fmap list_fmap]. by f_equal. }
    rewrite E. clear E Hk. induction Hnd as [|k ks Hni _ IH]; [constructor|]. cbn [omap list_omap].
    destruct (lookupRecord space repo c k); [|exact IH]. apply NoDup_cons. split; [|exact IH].
    intros (k' & Hin & Ek)%list_elem_of_omap. by destruct (lookupRecord space repo c k'); simplify_eq.
  - intros rec. rewrite list_elem_of_omap. split.
    + intros (k & _ & E). destruct (lookupRecord space repo c k) as [record|] eqn:El; [|done].
      injection E as <-. cbn [rcRKey exportRecord]. by rewrite El.
    + intros (record & El & E)%fmap_Some. exists (rcRKey rec). rewrite Hk, El. split; [by exists record|by f_equal].
Qed.

#[export] Instance memory_repository_laws : RepositoryLaws memory_world.
Proof.
  split.
  - by intros w r w' [= _ <-].
  - by intros t c k w r w' [= _ <-].
  - intros t c k w rec w'. cbn [GetRecord memory_repository]. intros [= Hr _].
    unfold mem_GetRecord in Hr. result_steps.
    match goal with E : authReadLocked _ _ _ = Ok _ |- _ => apply authReadLocked_ok in E as (Hl & _) end.
    unfold held, memory_repository, mem_held. rewrite Hl. simpl. by simplify_option_eq.
  - by intros t c w r w' [= _ <-].
  - intros t c w l w'. cbn [ListRecords memory_repository]. intros [= Hr _].
    unfold mem_ListRecords in Hr. result_steps.
    match goal with E : authReadLocked _ _ _ = Ok ?sp |- _ => apply authReadLocked_ok in E as (Hl & _); rename sp into space end.
    unfold held, memory_repository, mem_held. rewrite Hl. set (repo := tgRepoDID t).
    destruct (collection_keys_spec space repo c) as [Hnd Hk]. by apply exported_records.
  - intros t c w l w' c' k. cbn [ListRecords GetRecord memory_repository]. intros [= Hr _]. f_equal.
    unfold mem_ListRecords in Hr. unfold mem_GetRecord. result_steps. cbn [result_bind].
    match goal with E : authReadLocked _ _ _ = Ok _ |- _ => apply authReadLocked_ok in E as (Hl & _) end.
    unfold held, memory_repository, mem_held. rewrite Hl. by destruct (lookupRecord _ _ _ _).
  - intros t c k w rec. unfold held, memory_repository, mem_held.
    destruct (bkSpaces _ !! _) as [space|]; [|done]. by intros (? & _ & ->)%fmap_Some.
  - by intros t cid w r w' [= _ <-].
  - intros did key w r w'. cbn [EnsureMailbox memory_repository]. unfold lift.
    destruct (mem_EnsureMailbox _ _ _ _) as [[t b']|] eqn:Ee; cbn [with_backend]; intros [= _ <-]; [|by destruct w].
    apply mem_EnsureMailbox_ok in Ee as (_ & _ & _ & _ & _ & [[-> _]|[Hn ->]]); [by destruct w|].
    intros t' c k rec. unfold held, memory_repository, mem_held. cbn [mwBackend set_space bkSpaces].
    rewrite lookup_insert. case_decide as E; [|done]. by rewrite <- E, Hn.
  - intros t data mime w r w'. cbn [UploadBlob memory_repository]. unfold lift.
    destruct (mem_UploadBlob _ _ _ _ _) as [[ref b']|] eqn:Eu; cbn [with_backend]; intros [= _ <-]; [|by destruct w].
    by apply mem_UploadBlob_ok in Eu as (_ & _ & _ & _ & ->).
  - intros t ws w r w'. cbn [ApplyWrites memory_repository]. unfold lift.
    destruct (mem_ApplyWrites _ _ _ _) as [[commit b']|] eqn:Ea; cbn [with_backend]; intros [= _ <-] Hc; [|by destruct w].
    apply mem_ApplyWrites_ok in Ea as (_ & space & space' & rs & Hau & Hw & _ & ->).
    apply authWriteLocked_ok in Hau as (_ & _ & Hl & _). apply (apply_steps_create _ _ _ _ _ Hc) in Hw.
    intros t' c k rec. unfold held, memory_repository, mem_held. cbn [mwBackend set_space bkSpaces].
    rewrite lookup_insert. case_decide as E; [|done]. rewrite <- E, Hl.
    intros (old & Ho & ->)%fmap_Some. unfold lookupRecord, next_rev in *. cbn [fst spRecords] in *.
    by rewrite (lookup_weaken _ _ _ _ Ho Hw).
  - intros t c k v cid w e w'. cbn [PutRecordCAS memory_repository]. unfold lift.
    destruct (mem_PutRecordCAS _ _ _ _ _ _ _) as [[? ?]|]; cbn; intros [=]. left. by destruct w.
  - intros t c k v cid w rec w'. unfold put_done. cbn [PutRecordCAS memory_repository]. unfold lift.
    destruct (mem_PutRecordCAS _ _ _ _ _ _ _) as [[rec0 b']|] eqn:Ep; cbn [with_backend]; [|done].
    intros [= -> <-]. apply mem_PutRecordCAS_ok in Ep as (_ & _ & space & old & r & space' & Ha & Ho & Hcid & Hw & -> & ->).
    apply authWriteLocked_ok in Ha as (_ & _ & Hl & Ht & _).
    apply applyOneLocked_update in Hw as (j & -> & -> & Hr & _).
    unfold held, memory_repository, mem_held, lookupRecord. cbn [mwBackend set_space bkSpaces].
    rewrite Hl, lookup_insert_eq. cbn [next_rev spRecords]. rewrite Hr, lookup_insert_eq, Ho.
    assert (Hu : String.eqb (record_uri t c k) "" = false).
    { unfold record_uri. by destruct (tgSpaceURI t). }
    split_and!; [by eexists|by exists j| |].
    + unfold exportRecord. cbn [wsURI wsCID no_result fmap option_fmap option_map default sdURI sdCID sdValue].
      by rewrite Hu.
    + intros c' k' Hne. rewrite lookup_insert_ne; [done|]. intros [=]. congruence.
  - intros t c k v cid w rec w' c' k'. cbn [PutRecordCAS GetRecord memory_repository]. unfold lift.
    destruct (mem_PutRecordCAS _ _ _ _ _ _ _) as [[rec0 b']|] eqn:Ep; cbn [with_backend]; [|done].
    intros [= -> <-]. f_equal.
    apply mem_PutRecordCAS_ok in Ep as (Hr & _ & space & old & r & space' & Ha & _ & _ & Hw & _ & ->).
    apply authWriteLocked_ok in Ha as (Ho & Hd & Hl & Ht & _). apply applyOneLocked_target in Hw.
    unfold mem_GetRecord, held, mem_held, checkActive, authReadLocked. cbn [mwSession mwBackend set_space bkSpaces].
    rewrite Hr, lookup_insert_eq. cbn [result_bind opt_result next_rev spTarget].
    rewrite Hw, Ht, bool_decide_eq_true_2, Ho, Hd, String.eqb_refl by done. cbn [negb andb result_bind].
    unfold memory_repository, mem_held. cbn [mwBackend set_space bkSpaces].
    rewrite lookup_insert_eq, Hd. by destruct (lookupRecord _ _ _ _).
  - intros t c k v cid w rec w'. cbn [PutRecordCAS Capabilities_ memory_repository]. unfold lift.
    destruct (mem_PutRecordCAS _ _ _ _ _ _ _) as [[rec0 b']|]; cbn; [|done]. by intros [= _ <-].
Qed.

(** ** Who may change what *)

Definition own_prefix (s : Session) : string := "at://" +:+ ssDID s +:+ "/space/".

Record owner_change (s : Session) (b b' : Backend) : Prop := {
  change_active : ssRevoked s = false ∧ ssOwner s = true;
  change_spaces uri : bkSpaces b' !! uri = bkSpaces b !! uri ∨
    HasPrefix uri (own_prefix s) = true ∧ tgRepoDID ∘ spTarget <$> bkSpaces b' !! uri = Some (ssDID s);
  change_target uri space : bkSpaces b !! uri = Some space → ∃ space',
    bkSpaces b' !! uri = Some space' ∧ spTarget space' = spTarget space;
  change_blobs repo cid : repo ≠ ssDID s → bkBlobs b' !! (repo, cid) = bkBlobs b !! (repo, cid);
  change_keeps_blobs key : is_Some (bkBlobs b !! key) → is_Some (bkBlobs b' !! key)
}.

Lemma owner_change_refl s b : ssRevoked s = false → ssOwner s = true → owner_change s b b.
Proof. intros. split; eauto. Qed.

Lemma owner_change_space s b uri space :
  ssRevoked s = false → ssOwner s = true → HasPrefix uri (own_prefix s) = true →
  tgRepoDID (spTarget space) = ssDID s →
  (∀ old, bkSpaces b !! uri = Some old → spTarget space = spTarget old) →
  owner_change s b (set_space b uri space).
Proof.
  intros Hr Ho Hp Hd Ht. split; cbn [set_space bkSpaces bkBlobs]; try done.
  - intros uri'. rewrite lookup_insert. case_decide; [right|by left]. subst. split; [done|]. simpl. by rewrite Hd.
  - intros uri' old Hl. rewrite lookup_insert. case_decide; [|by exists old]. subst.
    exists space. split; [done|]. by apply Ht.
Qed.

Lemma apply_steps_target b t ws s s' :
  range (apply_step b t) ws s = Ok s' → spTarget s'.1 = spTarget s.1.
Proof.
  revert s. induction ws as [|w ws IH]; intros s; cbn [range]; [by intros [= ->]|].
  unfold apply_step at 1. intros Hr. result_steps. apply IH in Hr. rewrite Hr.
  match goal with E : applyOneLocked _ _ _ _ = Ok ?x |- _ => destruct x; by apply applyOneLocked_target in E end.
Qed.

Lemma memory_step_change s b b' : memory_step s b b' → owner_change s b b'.
Proof.
  intros Hstep. destruct Hstep as
    [did key t b' (Hr & Ho & _ & Hp & Hd & [[-> _]|[Hn ->]])%mem_EnsureMailbox_ok
    |t data mime ref b' (Hr & [space Ha] & _ & _ & ->)%mem_UploadBlob_ok
    |t ws commit b' (Hr & space & space' & rs & Ha & Hw & _ & ->)%mem_ApplyWrites_ok
    |t c k v cid record b' (Hr & _ & space & old & r & space' & Ha & _ & _ & Hw & _ & ->)%mem_PutRecordCAS_ok].
  - by apply owner_change_refl.
  - apply owner_change_space; [done..|]. by rewrite Hn.
  - apply authWriteLocked_ok in Ha as (Ho & Hd & _). split; cbn [bkSpaces bkBlobs]; eauto.
    + intros repo cid Hne. rewrite lookup_insert_ne; [done|]. rewrite Hd. congruence.
    + intros key Hk. rewrite lookup_insert. by case_decide.
  - apply authWriteLocked_ok in Ha as (Ho & Hd & Hl & Ht & Hp). apply apply_steps_target in Hw. simpl in Hw.
    apply owner_change_space; [done|done|done| |]; simpl; rewrite Hw, Ht; [done|]. rewrite Hl. congruence.
  - apply authWriteLocked_ok in Ha as (Ho & Hd & Hl & Ht & Hp). apply applyOneLocked_target in Hw.
    apply owner_change_space; [done|done|done| |]; simpl; rewrite Hw, Ht; [done|]. rewrite Hl. congruence.
Qed.

(** The counter a blob read looks at. *)
Lemma blob_counter refs records repo cid :
  counts refs (ref_total records) →
  (default 0 (refs !! (repo, cid)) <=? 0)%Z = (ref_total records repo cid <=? 0)%Z.
Proof. intros Hc. rewrite (Hc repo cid). by destruct (Z.eqb_spec (ref_total records repo cid) 0) as [->|]. Qed.

(** ** Properties *)

(** C32. The in-memory repository refines its contract in every state it can reach: for an
    authorized session a batch of writes succeeds exactly when every write of it is allowed by
    [write_contract] on the contents left by the earlier ones (create only what is absent,
    update and delete only what is present and, given a CID, unchanged, store only valid keys
    and values whose blobs are there); the space then holds those contents, its revision goes
    up by one, and each write is answered with the address and CID of what it stored.  One
    refused write refuses the whole batch with its error. *)
Theorem memory_writes_refine_contract (s : Session) (t : Target) (writes : list Write) (b : Backend)
    (space : spaceState) (Hb : memory_reachable b) (Hs : ssRevoked s = false) (Hw : writes ≠ [])
    (Ha : authWriteLocked s b t = Ok space) :
  let contract := range (contract_step (bkBlobs b) t) writes (contents space, []) in
  match mem_ApplyWrites s t writes b with
  | Ok (commit, b') => ∃ space', contract = Ok (contents space', cmResults commit) ∧
      List.length (cmResults commit) = List.length writes ∧
      spRev space' = u64 (spRev space + 1) ∧ b' = set_space b (tgSpaceURI t) space'
  | Err e => contract = Err e
  end.
Proof.
  cbv zeta. unfold mem_ApplyWrites, checkActive, cloneSpace. rewrite Hs. cbn [result_bind].
  assert (Hl : (llen writes =? 0) = false) by (by destruct writes; [done|apply N.eqb_neq; unfold llen; simpl; lia]).
  rewrite Hl, Ha. cbn [result_bind].
  apply authWriteLocked_ok in Ha as (_ & _ & El & Ht & _).
  pose proof (backend_spaces _ (reachable_ok _ Hb) _ _ El) as (_ & _ & Hok).
  pose proof (apply_steps_spec b t writes space [] Ht Hok) as Hr.
  destruct (range (apply_step b t) writes _) as [[space' rs]|e]; [|done].
  destruct Hr as (Hr & _ & Hrev & _). cbn [result_bind fst snd cmResults].
  exists (next_rev space'). split_and!; [done| |by simpl; rewrite Hrev|done].
  by apply contract_steps_answers in Hr.
Qed.

(** Blobs and records agree in every reachable state, whatever sessions ran: every blob a
    readable record references can be fetched by the same session, and what comes back has
    the CID asked for; and only blobs that some record of the repository references can be
    fetched at all, so replacing or deleting the last such record withdraws the blob. *)
Theorem memory_blob_access (s : Session) (t : Target) (b : Backend) (Hb : memory_reachable b) :
  (∀ collection rkey record cid, mem_GetRecord s t collection rkey b = Ok record →
     cid ∈ record_blobs (rcValue record) →
     ∃ data, mem_GetBlob s t cid b = Ok data ∧ cid = blob_cid data) ∧
  (∀ cid data, mem_GetBlob s t cid b = Ok data →
     cid = blob_cid data ∧
     ∃ collection rkey record, mem_GetRecord s t collection rkey b = Ok record ∧
       cid ∈ record_blobs (rcValue record)).
Proof.
  apply reachable_ok in Hb as [Hbl Hsp]. unfold mem_GetRecord, mem_GetBlob. split.
  - intros c k rec cid Hg Hcid. result_steps.
    match goal with E : authReadLocked _ _ _ = Ok _ |- _ => apply authReadLocked_ok in E as (Hl & <- & _) end.
    destruct (Hsp _ _ Hl) as (_ & _ & [Hc Hr]). cbn [rcValue exportRecord] in Hcid.
    rename a1 into rec, a0 into space, Heqo into Hrec.
    assert (Hp : (0 < ref_total (spRecords space) (tgRepoDID (spTarget space)) cid)%Z).
    { apply ref_total_pos. by exists c, k, rec. }
    cbn [result_bind]. rewrite (blob_counter _ (spRecords space)), (proj2 (Z.leb_gt _ _)) by done.
    destruct (Hr _ _ Hrec) as (c' & k' & j & cids & _ & _ & _ & _ & _ & _ & Hf & Hb).
    unfold record_blobs in Hcid. rewrite Hf in Hcid. destruct (Hb cid Hcid) as [data Hd].
    exists data. rewrite Hd. split; [done|]. by destruct (Hbl _ _ _ Hd).
  - intros cid data Hg. result_steps.
    match goal with E : authReadLocked _ _ _ = Ok _ |- _ => pose proof E as Hl; apply authReadLocked_ok in Hl as (Hl & <- & _) end.
    rename a0 into space. destruct (Hsp _ _ Hl) as (_ & _ & [Hc Hr]).
    split; [by eapply Hbl|].
    match goal with E : (_ <=? _)%Z = false |- _ =>
      rewrite (blob_counter _ (spRecords space)) in E by done; apply Z.leb_gt in E; rename E into Hn end.
    apply ref_total_pos in Hn as (c & k & rec & Hrec & Hcid). exists c, k, (exportRecord c k rec no_result).
    split; [|done]. unfold lookupRecord. cbn [result_bind]. by rewrite Hrec.
Qed.

(** Isolation: whatever one call does, only an unrevoked owner session changes anything;
    only spaces under its own DID change, and they keep the target they were created with;
    blobs of other repositories are untouched, and no blob is ever lost. *)
Theorem memory_isolation (s : Session) (b b' : Backend) (Hs : memory_step s b b') : owner_change s b b'.
Proof. by apply memory_step_change. Qed.

(** An owner, her mailbox and a first message-like record in it. *)
Definition alice : Session := OwnerSession "did:plc:alice".
Definition example_backend : Backend :=
  match mem_EnsureMailbox alice "did:plc:alice" "inbox" NewBackend with
  | Ok (_, b) => b
  | Err _ => NewBackend
  end.
Definition example_writes : list Write :=
  [MkWrite Create "email.atmos.note" "k1" (Some (JObj [("text", JStr "hi")])) "";
   MkWrite Delete "email.atmos.note" "k1" None ""].

Lemma example_backend_step : memory_step alice NewBackend example_backend.
Proof. by eapply (step_ensure _ _ "did:plc:alice" "inbox"). Qed.

Lemma memory_isolation_witness : owner_change alice NewBackend example_backend.
Proof. apply memory_isolation, example_backend_step. Defined.

Lemma memory_writes_refine_contract_witness :
  match mem_ApplyWrites alice example_target example_writes example_backend with
  | Ok (commit, _) => List.length (cmResults commit) = 2%nat
  | Err e => range (contract_step ∅ example_target) example_writes (∅, []) = Err e
  end.
Proof.
  pose proof (memory_writes_refine_contract alice example_target example_writes example_backend
    (MkSpaceState example_target ∅ ∅ 0) (reachable_step _ _ _ reachable_new example_backend_step)
    eq_refl ltac:(discriminate) eq_refl) as H.
  cbv zeta in H. destruct (mem_ApplyWrites _ _ _ _) as [[commit b']|e]; [|exact H].
  by destruct H as (_ & _ & H & _).
Defined.

(** Alice uploads a blob and stores a record that references it. *)
Definition note_blob : json :=
  JObj [("$type", JStr "blob"); ("ref", JObj [("$link", JStr (blob_cid "hello"))])].
Definition note_write : Write := MkWrite Create "email.atmos.note" "k1" (Some note_blob) "".
Definition backend_after {A} (m : result (A * Backend)) : Backend :=
  match m with Ok (_, b) => b | Err _ => NewBackend end.
Definition blob_backend : Backend :=
  backend_after (mem_UploadBlob alice example_target "hello" "text/plain" example_backend).
Definition noted_backend : Backend :=
  backend_after (mem_ApplyWrites alice example_target [note_write] blob_backend).

Lemma backend_after_ok {A} (m : result (A * Backend)) : is_ok m = true → ∃ a, m = Ok (a, backend_after m).
Proof. destruct m as [[a b]|e]; [by exists a|done]. Qed.

Lemma noted_reachable : memory_reachable noted_backend.
Proof.
  assert (Hu : is_ok (mem_UploadBlob alice example_target "hello" "text/plain" example_backend) = true)
    by (vm_compute; reflexivity).
  assert (Hw : is_ok (mem_ApplyWrites alice example_target [note_write] blob_backend) = true)
    by (vm_compute; reflexivity).
  apply backend_after_ok in Hu as [ref Hu]. apply backend_after_ok in Hw as [commit Hw].
  refine (reachable_step alice _ _ (reachable_step alice _ _ _ _) _).
  - exact (reachable_step _ _ _ reachable_new example_backend_step).
  - exact (step_upload _ _ _ _ _ _ _ Hu).
  - exact (step_apply _ _ _ _ _ _ Hw).
Qed.

Lemma memory_blob_access_witness :
  is_ok (mem_GetBlob alice example_target (blob_cid "hello") noted_backend) = true.
Proof.
  destruct (mem_GetRecord alice example_target "email.atmos.note" "k1" noted_backend) as [record|e] eqn:E;
    [|vm_compute in E; discriminate E].
  destruct (proj1 (memory_blob_access alice example_target noted_backend noted_reachable)
    "email.atmos.note" "k1" record (blob_cid "hello") E) as (data & Hd & _).
  - vm_compute in E. injection E as <-. apply (bool_decide_eq_true_1 _). vm_compute. reflexivity.
  - rewrite Hd. reflexivity.
Defined.
