(* ===== verification/State.v ===== *)
(** * internal/mailboxstate/state.go: changing the state of a message

    [Apply] and [Replace] read the current state of a message, compute the next one and write
    it back with the provider's compare-and-swap.  They are written here against the
    [Repository] interface, and their guarantees are proved from its laws. *)
From S2P Require Import Prelude Sha256 GoStd Unicode Json Syntax Time Mailbox Repository Memory.

Inductive Operation : Type :=
  MarkRead | MarkUnread | Flag | Unflag | Move | Tombstone | OtherOperation (s : string).

#[export] Instance Operation_eq_dec : EqDecision Operation.
Proof. solve_decision. Defined.

Record Mutation : Type := MkMutation {
  mtMessageRKey : string;
  mtExpectedRevision : N;
  mtOperationID : string;
  mtOperation : Operation;
  mtMailbox : string;
  mtNow : time
}.

Record Replacement : Type := MkReplacement {
  rpMessageRKey : string;
  rpExpectedRevision : N;
  rpOperationID : string;
  rpMailbox : string;
  rpKeywords : list string;
  rpTombstone : bool;
  rpNow : time
}.

(** ** Validation *)

Definition line_breaks : string := of_byte_values [13; 10; 0].
Definition blanks : string := " " +:+ of_byte_values [9; 13; 10; 0].

Definition validReplacement (replacement : Replacement) : bool :=
  if String.eqb (rpMessageRKey replacement) "" || (512 <? len (rpMessageRKey replacement)) ||
     (rpExpectedRevision replacement =? 0) || String.eqb (rpOperationID replacement) "" ||
     (128 <? len (rpOperationID replacement)) || ContainsAny (rpOperationID replacement) blanks ||
     String.eqb (rpMailbox replacement) "" || (255 <? len (rpMailbox replacement)) ||
     ContainsAny (rpMailbox replacement) line_breaks ||
     IsZero (rpNow replacement) || (128 <? llen (rpKeywords replacement))
  then false
  else forallb (λ keyword, negb (String.eqb keyword "" || (255 <? len keyword) ||
                                 ContainsAny keyword line_breaks)) (rpKeywords replacement).

Definition validMutation (mutation : Mutation) : bool :=
  if String.eqb (mtMessageRKey mutation) "" || (512 <? len (mtMessageRKey mutation)) ||
     (mtExpectedRevision mutation =? 0) || IsZero (mtNow mutation) ||
     String.eqb (mtOperationID mutation) "" || (128 <? len (mtOperationID mutation)) ||
     ContainsAny (mtOperationID mutation) blanks
  then false
  else match mtOperation mutation with
  | MarkRead | MarkUnread | Flag | Unflag | Tombstone => String.eqb (mtMailbox mutation) ""
  | Move => negb (String.eqb (mtMailbox mutation) "") && (len (mtMailbox mutation) <=? 255) &&
            negb (ContainsAny (mtMailbox mutation) line_breaks)
  | OtherOperation _ => false
  end.

Definition validState (state : MessageStateRecord) (rkey : string) : bool :=
  if negb (String.eqb (msType state) MessageStateCollection) || negb (String.eqb (msMessage state) rkey) ||
     (msRevision state =? 0) || (llen (elems (msMailboxIDs state)) =? 0) ||
     (32 <? llen (elems (msMailboxIDs state))) || (128 <? llen (elems (msKeywords state)))
  then false
  else forallb (λ value, negb (String.eqb value "")) (elems (msMailboxIDs state) ++ elems (msKeywords state)).

(** ** Keyword lists *)

Definition normalize_value (s : gset string * list string) (value : string) : gset string * list string :=
  if bool_decide (value ∈ s.1) then s else ({[value]} ∪ s.1, s.2 ++ [value]).
Definition normalize (values : list string) : list string :=
  sort_strings (fold_left normalize_value values (∅, [])).2.

(** The result is a fresh slice, and never nil. *)
Definition add (values : slice string) (value : string) : slice string :=
  if existsb (String.eqb value) (elems values) then values
  else Some (sort_strings (elems values ++ [value])).
Definition remove (values : slice string) (value : string) : slice string :=
  Some (List.filter (λ current, negb (String.eqb current value)) (elems values)).

(** ** Apply and Replace *)

Section state.
Context `{Syntax} `{CaseOrbits} {W : Type} `{Repository W}.

(** The capability check, the read of the immutable message and of the current state. *)
Definition read_current (target : Target) (rkey : string) : W → result (Record_ * MessageStateRecord) * W :=
  call? capabilities := Capabilities_ in
  return_if negb (cpCompareAndSwap capabilities) with Err ErrUnsupported ;;
  call? _ := GetRecord target MessageCollection rkey in
  call? stored := GetRecord target MessageStateCollection rkey in
  match unmarshal_state (rcValue stored) with
  | Some state =>
      return_if negb (validState state rkey) with Err ErrIntegrity ;;
      returns (Ok (stored, state))
  | None => returns (Err ErrIntegrity)
  end.

(** The destination folder: its record must be there and carry the name. *)
Definition read_folder (target : Target) (mailbox : string) : W → result string * W :=
  let folderID := FolderRKey mailbox in
  call? folder := GetRecord target FolderCollection folderID in
  match unmarshal_folder (rcValue folder) with
  | Some value =>
      return_if negb (String.eqb (fdType value) FolderCollection) ||
        negb (String.eqb (fdName value) mailbox) || negb (String.eqb (rcRKey folder) folderID)
        with Err ErrIntegrity ;;
      returns (Ok folderID)
  | None => returns (Err ErrIntegrity)
  end.

(** The write, and the check of what came back. *)
Definition write_state (target : Target) (rkey operationID : string) (state : MessageStateRecord)
    (cid : string) : W → result MessageStateRecord * W :=
  call? updated := on_error (λ err, if errors_Is err ErrConflict then ErrStateConflict else err)
    (PutRecordCAS target MessageStateCollection rkey (Some (state_json state)) cid) in
  match unmarshal_state (rcValue updated) with
  | Some verified =>
      return_if negb (validState verified rkey) || negb (msRevision verified =? msRevision state) ||
        negb (String.eqb (msLastOperation verified) operationID) with Err ErrIntegrity ;;
      returns (Ok verified)
  | None => returns (Err ErrIntegrity)
  end.

(** [state.Revision++] and the stamp of the operation. *)
Definition stamp (state : MessageStateRecord) (now : time) (operationID : string) : MessageStateRecord :=
  set_msLastOperation (set_msUpdatedAt (set_msRevision state (u64 (msRevision state + 1)))
    (format_RFC3339Nano now)) operationID.

Definition replaced (replacement : Replacement) (folderID : string) (state : MessageStateRecord) :
    MessageStateRecord :=
  set_msProjection (set_msDeletePending (set_msTombstone (set_msKeywords
    (set_msMailboxIDs state (Some [folderID])) (Some (normalize (rpKeywords replacement))))
    (rpTombstone replacement)) false) zero_projection.

Definition Replace (target : Target) (replacement : Replacement) : W → result MessageStateRecord * W :=
  return_if negb (is_ok (Target_ValidateFor target (tgRepoDID target))) ||
    negb (validReplacement replacement) with Err ErrInvalid ;;
  call? (stored, state) := read_current target (rpMessageRKey replacement) in
  return_if String.eqb (msLastOperation state) (rpOperationID replacement) with Ok state ;;
  return_if negb (msRevision state =? rpExpectedRevision replacement) with Err ErrStaleRevision ;;
  return_if msTombstone state with Err ErrInvalid ;;
  call? folderID := read_folder target (rpMailbox replacement) in
  let state := replaced replacement folderID state in
  let state := stamp state (rpNow replacement) (rpOperationID replacement) in
  write_state target (rpMessageRKey replacement) (rpOperationID replacement) state (rcCID stored).

(** The [switch] on the operation. *)
Definition mutate (target : Target) (mutation : Mutation) (state : MessageStateRecord) :
    W → result MessageStateRecord * W :=
  match mtOperation mutation with
  | MarkRead => returns (Ok (set_msKeywords state (add (msKeywords state) "$seen")))
  | MarkUnread => returns (Ok (set_msKeywords state (remove (msKeywords state) "$seen")))
  | Flag => returns (Ok (set_msKeywords state (add (msKeywords state) "$flagged")))
  | Unflag => returns (Ok (set_msKeywords state (remove (msKeywords state) "$flagged")))
  | Move =>
      call? folderID := read_folder target (mtMailbox mutation) in
      returns (Ok (set_msMailboxIDs state (Some [folderID])))
  | Tombstone => returns (Ok (set_msDeletePending (set_msTombstone state true) false))
  | OtherOperation _ => returns (Err ErrInvalid)
  end.

Definition Apply (target : Target) (mutation : Mutation) : W → result MessageStateRecord * W :=
  return_if negb (is_ok (Target_ValidateFor target (tgRepoDID target))) ||
    negb (validMutation mutation) with Err ErrInvalid ;;
  call? (stored, state) := read_current target (mtMessageRKey mutation) in
  return_if String.eqb (msLastOperation state) (mtOperationID mutation) with Ok state ;;
  return_if negb (msRevision state =? mtExpectedRevision mutation) with Err ErrStaleRevision ;;
  return_if msTombstone state with Err ErrInvalid ;;
  call? state := mutate target mutation state in
  let state := stamp state (mtNow mutation) (mtOperationID mutation) in
  write_state target (mtMessageRKey mutation) (mtOperationID mutation) state (rcCID stored).

End state.

(** ** Reads leave the world alone *)

Section state_lemmas.
Context `{Syntax} `{CaseOrbits} {W : Type} `{RepositoryLaws W}.

Lemma readonly_read_current t rkey : readonly (read_current t rkey).
Proof.
  apply readonly_bind; [apply readonly_Capabilities|].
  intros c. destruct (negb _); [done|]. apply readonly_bind; [apply readonly_GetRecord|]. intros _.
  apply readonly_bind; [apply readonly_GetRecord|]. intros stored. case_match; [by case_match|done].
Qed.

Lemma readonly_read_folder t m : readonly (read_folder t m).
Proof.
  apply readonly_bind; [apply readonly_GetRecord|]. intros folder. case_match; [by case_match|done].
Qed.

Lemma readonly_mutate t m st : readonly (mutate t m st).
Proof.
  unfold mutate. case_match; try done. apply readonly_bind; [apply readonly_read_folder|done].
Qed.

(** The state record the provider holds for a message. *)
Definition holds (w : W) (t : Target) (rkey : string) (stored : Record_) (st : MessageStateRecord) : Prop :=
  held w t MessageStateCollection rkey = Some stored ∧ unmarshal_state (rcValue stored) = Some st ∧
  validState st rkey = true.

Lemma read_current_ok t rkey w stored st :
  (read_current t rkey w).1 = Ok (stored, st) → holds w t rkey stored st.
Proof.
  unfold read_current. rewrite bind_readonly by apply readonly_Capabilities.
  destruct (Capabilities_ w).1 as [c|]; [|done]. destruct (negb (cpCompareAndSwap c)); [done|].
  rewrite bind_readonly by apply readonly_GetRecord. destruct (GetRecord t MessageCollection _ w).1; [|done].
  rewrite bind_readonly by apply readonly_GetRecord.
  destruct (GetRecord t MessageStateCollection rkey w) as [[stored'|] w'] eqn:E; [|done]. cbn [fst].
  destruct (unmarshal_state (rcValue stored')) as [st'|] eqn:Eu; [|done].
  destruct (validState st' rkey) eqn:Ev; [|done]. cbn. intros [= <- <-].
  apply GetRecord_held in E. by split_and!.
Qed.

(** The session reads what is held, and may do what it could. *)
Definition answers (t : Target) (w w' : W) : Prop :=
  (∀ c k, GetRecord t c k w' = (opt_result (held w' t c k) ErrNotFound, w')) ∧ (Capabilities_ w').1 = (Capabilities_ w).1.
Lemma put_answers t c k v cid w rec w' : PutRecordCAS t c k v cid w = (Ok rec, w') → put_done w t c k v cid rec w' ∧ answers t w w'.
Proof.
  intros Hp. split; [by apply PutRecordCAS_done|]. split; [|by eapply PutRecordCAS_capabilities].
  intros c' k'. by eapply PutRecordCAS_reads.
Qed.
(** After a write, and once its session is answered again, it reads what is held. *)
Lemma read_current_after t rkey w rec w' stored st v cid :
  (read_current t rkey w).1 = Ok (stored, st) →
  put_done w t MessageStateCollection rkey v cid rec w' → answers t w w' →
  (read_current t rkey w').1 =
  match unmarshal_state (rcValue rec) with
  | Some st => if validState st rkey then Ok (rec, st) else Err ErrIntegrity
  | None => Err ErrIntegrity
  end.
Proof.
  intros Hr (_ & _ & Hnew & Hother) [Hreads Hcap]. unfold read_current in *.
  rewrite bind_readonly in Hr |- * by apply readonly_Capabilities. rewrite Hcap.
  destruct (Capabilities_ w).1 as [c|]; [|done]. destruct (negb (cpCompareAndSwap c)); [done|].
  rewrite bind_readonly in Hr by apply readonly_GetRecord.
  destruct (GetRecord t MessageCollection rkey w) as [[msg|] w1] eqn:Em; [|done].
  pose proof (GetRecord_held _ _ _ _ _ _ Em) as Hm.
  assert (Hkey : (MessageCollection, rkey) ≠ (MessageStateCollection, rkey)) by discriminate.
  rewrite bind_readonly, Hreads, (Hother _ _ Hkey), Hm
    by apply readonly_GetRecord. cbn [fst opt_result].
  rewrite bind_readonly, Hreads, Hnew by apply readonly_GetRecord.
  cbn [fst opt_result]. destruct (unmarshal_state (rcValue rec)) as [st'|]; [|done].
  by destruct (validState st' rkey).
Qed.

(** ** The common shape of Apply and Replace *)

Definition update_with (t : Target) (rkey operationID : string) (expected : N) (now : time)
    (change : MessageStateRecord → W → result MessageStateRecord * W) : W → result MessageStateRecord * W :=
  call? (stored, state) := read_current t rkey in
  return_if String.eqb (msLastOperation state) operationID with Ok state ;;
  return_if negb (msRevision state =? expected) with Err ErrStaleRevision ;;
  return_if msTombstone state with Err ErrInvalid ;;
  call? state := change state in
  write_state t rkey operationID (stamp state now operationID) (rcCID stored).

Lemma Apply_update t m : Apply t m =
  return_if negb (is_ok (Target_ValidateFor t (tgRepoDID t))) || negb (validMutation m) with Err ErrInvalid ;;
  update_with t (mtMessageRKey m) (mtOperationID m) (mtExpectedRevision m) (mtNow m) (mutate t m).
Proof. done. Qed.

Definition replace_change (t : Target) (r : Replacement) (state : MessageStateRecord) :
    W → result MessageStateRecord * W :=
  call? folderID := read_folder t (rpMailbox r) in returns (Ok (replaced r folderID state)).

Lemma Replace_update t r w : Replace t r w =
  (return_if negb (is_ok (Target_ValidateFor t (tgRepoDID t))) || negb (validReplacement r) with Err ErrInvalid ;;
   update_with t (rpMessageRKey r) (rpOperationID r) (rpExpectedRevision r) (rpNow r) (replace_change t r)) w.
Proof.
  unfold Replace. destruct (_ || _); [done|]. unfold update_with, call_bind.
  destruct (read_current _ _ w) as [[[stored st]|] w']; [|done].
  destruct (String.eqb _ _); [done|]. destruct (negb _); [done|]. destruct (msTombstone st); [done|].
  unfold replace_change, call_bind, returns. by destruct (read_folder t (rpMailbox r) w') as [[?|] ?].
Qed.

(** One write: the state record stored at [stored] is replaced by [st], nothing else changes. *)
Definition swapped (w : W) (t : Target) (rkey : string) (st : MessageStateRecord) (w' : W) : Prop :=
  (∃ rec, held w' t MessageStateCollection rkey = Some rec ∧ rcValue rec = print (state_json st)) ∧
  (∀ c k, (c, k) ≠ (MessageStateCollection, rkey) → held w' t c k = held w t c k).

Lemma stamp_typed st now op : state_typed st → valid_text op → state_typed (stamp st now op).
Proof.
  intros [] Hop. constructor; cbn; try done; [apply format_utf8|]. unfold u64. dlia.
Qed.

(** The write was done, with the state that was meant. *)
Definition state_put (t : Target) (rkey : string) (st : MessageStateRecord) (cid : string) (w : W) (rec : Record_) (w' : W) : Prop :=
  put_done w t MessageStateCollection rkey (Some (state_json st)) cid rec w'.
Lemma state_put_value t rkey st cid w rec w' : state_put t rkey st cid w rec w' → rcValue rec = print (state_json st).
Proof. by intros (_ & (j & [= <-] & Hv) & _). Qed.

Lemma write_state_spec t rkey op st cid w :
  state_typed st → msLastOperation st = op →
  match write_state t rkey op st cid w with
  | (Ok st', w') => st' = st ∧ validState st rkey = true ∧ ∃ rec, state_put t rkey st cid w rec w' ∧ answers t w w'
  | (Err e, w') => w' = w ∨ ∃ rec, state_put t rkey st cid w rec w'
  end.
Proof.
  intros Ht Hop. unfold write_state, call_bind, on_error.
  destruct (PutRecordCAS _ _ _ _ _ _) as [[rec|e] w'] eqn:Ep.
  - apply put_answers in Ep as [Hd Ha]. pose proof (state_put_value _ _ _ _ _ _ _ Hd) as Hv.
    rewrite Hv, unmarshal_state_json by done. rewrite N.eqb_refl, Hop, String.eqb_refl.
    destruct (validState st rkey) eqn:Ev; cbn; eauto 6.
  - apply PutRecordCAS_failed in Ep as [->|?]; [by left|by right].
Qed.

Lemma put_swapped t rkey st cid w rec w' : state_put t rkey st cid w rec w' → swapped w t rkey st w'.
Proof. intros (_ & (j & [= <-] & Hv) & Hh & Ho). split; eauto. Qed.

Section update.
Context (t : Target) (rkey op : string) (expected : N) (now : time)
  (change : MessageStateRecord → W → result MessageStateRecord * W)
  (Hro : ∀ st, readonly (change st))
  (Htyped : ∀ st st' w, state_typed st → (change st w).1 = Ok st' → state_typed st')
  (Hop : valid_text op).

(** The next state that an update computes from the stored one. *)
Definition next_state (w : W) (old new : MessageStateRecord) : Prop :=
  msLastOperation old ≠ op ∧ msRevision old = expected ∧ msTombstone old = false ∧
  ∃ changed, (change old w).1 = Ok changed ∧ new = stamp changed now op.

Lemma update_with_spec w :
  match update_with t rkey op expected now change w with
  | (Ok st, w') => ∃ stored old, (read_current t rkey w).1 = Ok (stored, old) ∧
      ((msLastOperation old = op ∧ st = old ∧ w' = w) ∨
       (next_state w old st ∧ validState st rkey = true ∧ ∃ rec, state_put t rkey st (rcCID stored) w rec w' ∧ answers t w w'))
  | (Err e, w') => w' = w ∨
      ∃ stored old new, (read_current t rkey w).1 = Ok (stored, old) ∧ next_state w old new ∧
        ∃ rec, state_put t rkey new (rcCID stored) w rec w'
  end.
Proof.
  unfold update_with. rewrite bind_readonly by apply readonly_read_current.
  destruct (read_current t rkey w).1 as [[stored old]|e] eqn:Er; [|by left].
  pose proof (read_current_ok _ _ _ _ _ Er) as Eh.
  destruct (String.eqb_spec (msLastOperation old) op) as [Eo|Eo].
  { exists stored, old. split; [done|by left]. }
  destruct (N.eqb_spec (msRevision old) expected) as [Ex|]; [|by left]. cbn [negb].
  destruct (msTombstone old) eqn:Etomb; [by left|].
  rewrite bind_readonly by apply Hro. destruct (change old w).1 as [changed|e] eqn:Ec; [|by left].
  assert (Hnew : state_typed (stamp changed now op)).
  { apply stamp_typed; [|done]. eapply Htyped; [|exact Ec]. destruct Eh as (_ & Hu & _).
    by eapply unmarshal_state_typed. }
  pose proof (write_state_spec t rkey op (stamp changed now op) (rcCID stored) w Hnew eq_refl) as Hw.
  destruct (write_state _ _ _ _ _ w) as [[st'|e] w'].
  - destruct Hw as (-> & Hv & Hp). exists stored, old. split; [done|]. right. split; [|done].
    split_and!; try done. by exists changed.
  - destruct Hw as [->|Hp]; [by left|]. right. exists stored, old, (stamp changed now op).
    split_and!; try done. split_and!; try done. by exists changed.
Qed.

(** After a write, updates start from the state written. *)
Lemma update_with_after w stored old new rec w' op' expected' now' change' :
  (read_current t rkey w).1 = Ok (stored, old) → state_typed new → validState new rkey = true →
  state_put t rkey new (rcCID stored) w rec w' → answers t w w' →
  update_with t rkey op' expected' now' change' w' =
  (return_if String.eqb (msLastOperation new) op' with Ok new ;;
   return_if negb (msRevision new =? expected') with Err ErrStaleRevision ;;
   return_if msTombstone new with Err ErrInvalid ;;
   call? state := change' new in
   write_state t rkey op' (stamp state now' op') (rcCID rec)) w'.
Proof.
  intros Hr Hn Hv Hp Ha. pose proof (state_put_value _ _ _ _ _ _ _ Hp) as Hval. unfold update_with. rewrite bind_readonly by apply readonly_read_current.
  rewrite (read_current_after _ _ _ _ _ _ _ _ _ Hr Hp Ha), Hval, unmarshal_state_json, Hv by done. done.
Qed.

End update.

(** ** What the operations compute *)

Definition mutated (m : Mutation) (st : MessageStateRecord) : MessageStateRecord :=
  match mtOperation m with
  | MarkRead => set_msKeywords st (add (msKeywords st) "$seen")
  | MarkUnread => set_msKeywords st (remove (msKeywords st) "$seen")
  | Flag => set_msKeywords st (add (msKeywords st) "$flagged")
  | Unflag => set_msKeywords st (remove (msKeywords st) "$flagged")
  | Move => set_msMailboxIDs st (Some [FolderRKey (mtMailbox m)])
  | Tombstone => set_msDeletePending (set_msTombstone st true) false
  | OtherOperation _ => st
  end.

(** The provider holds the record of the folder of that name. *)
Definition folder_held (w : W) (t : Target) (name : string) : Prop :=
  ∃ rec f, held w t FolderCollection (FolderRKey name) = Some rec ∧
    unmarshal_folder (rcValue rec) = Some f ∧ fdType f = FolderCollection ∧ fdName f = name.

Lemma read_folder_ok t name w id :
  (read_folder t name w).1 = Ok id → id = FolderRKey name ∧ folder_held w t name.
Proof.
  unfold read_folder. rewrite bind_readonly by apply readonly_GetRecord.
  destruct (GetRecord t FolderCollection _ w) as [[rec|] w1] eqn:E; [|done]. cbn [fst].
  destruct (unmarshal_folder (rcValue rec)) as [f|] eqn:Ef; [|done].
  destruct (_ || _) eqn:Eb; [done|]. intros [= <-]. bools. apply GetRecord_held in E.
  split; [done|]. by exists rec, f.
Qed.

Lemma mutate_ok t m st w st' :
  (mutate t m st w).1 = Ok st' →
  st' = mutated m st ∧ (mtOperation m = Move → folder_held w t (mtMailbox m)).
Proof.
  unfold mutate, mutated. destruct (mtOperation m); try by intros [= <-].
  rewrite bind_readonly by apply readonly_read_folder.
  destruct (read_folder t (mtMailbox m) w) as [[id|] w1] eqn:E; [|done]. intros [= <-].
  destruct (read_folder_ok t (mtMailbox m) w id) as [-> Hf]; [by rewrite E|]. done.
Qed.

Lemma FolderRKey_utf8 name : valid_text (FolderRKey name).
Proof.
  apply ascii_utf8. unfold FolderRKey. rewrite all_bytes_app. apply andb_true_iff. split; [done|].
  eapply all_bytes_impl; [|apply hex_encode_bytes]. intros c. unfold is_lower_hex.
  rewrite orb_true_iff, !andb_true_iff, !N.leb_le, N.ltb_lt. lia.
Qed.

Lemma add_texts l v : valid_texts l → valid_text v → valid_texts (add l v).
Proof.
  intros Hl Hv. unfold add. case_match; [done|]. unfold valid_texts. simpl elems.
  rewrite sort_strings_perm. apply Forall_app. by split; [|constructor].
Qed.

Lemma remove_texts l v : valid_texts l → valid_texts (remove l v).
Proof.
  unfold valid_texts, remove. simpl elems. rewrite !Forall_forall. intros Hl x Hx.
  apply list_elem_of_In, filter_In in Hx as [Hx _]. by apply Hl, list_elem_of_In.
Qed.

Lemma mutated_typed m st : state_typed st → state_typed (mutated m st).
Proof.
  intros Hst. pose proof Hst as []. unfold mutated.
  destruct (mtOperation m); try done; constructor; cbn; try done;
    try (by apply add_texts); try (by apply remove_texts).
  by repeat constructor; apply FolderRKey_utf8.
Qed.

Lemma keyword_fold values out :
  (fold_left normalize_value values (list_to_set out, out)).1 =
    list_to_set (fold_left normalize_value values (list_to_set out, out)).2 ∧
  (NoDup out → NoDup (fold_left normalize_value values (list_to_set out, out)).2) ∧
  (∀ v, v ∈ (fold_left normalize_value values (list_to_set out, out)).2 ↔ v ∈ out ∨ v ∈ values).
Proof.
  revert out. induction values as [|x values IH]; intros out; [set_solver|]. cbn [fold_left].
  assert (Estep : normalize_value (list_to_set out, out) x =
    let out' := if bool_decide (x ∈ out) then out else out ++ [x] in (list_to_set out', out')).
  { unfold normalize_value. simpl. rewrite (bool_decide_ext _ _ (elem_of_list_to_set x out)).
    case_bool_decide; [done|]. f_equal. rewrite list_to_set_app_L. set_solver. }
  rewrite Estep. cbv zeta. match goal with |- context [(list_to_set ?o, ?o)] => set (out' := o) end.
  destruct (IH out') as (E1 & E2 & E3). split; [done|]. split.
  - intros Hnd. apply E2. unfold out'. case_bool_decide; [done|]. apply NoDup_app.
    split_and!; [done|set_solver|apply NoDup_singleton].
  - intros v. rewrite E3. unfold out'. case_bool_decide; set_solver.
Qed.

Lemma normalize_spec values :
  StronglySorted str_le (normalize values) ∧ NoDup (normalize values) ∧
  ∀ v, v ∈ normalize values ↔ v ∈ values.
Proof.
  unfold normalize. destruct (keyword_fold values []) as (_ & Hnd & Hin).
  split; [apply sort_strings_sorted|]. split.
  - rewrite sort_strings_perm. apply Hnd. constructor.
  - intros v. rewrite elem_of_sort_strings, Hin. set_solver.
Qed.

Lemma replaced_typed r st :
  Forall valid_text (rpKeywords r) → state_typed st →
  state_typed (replaced r (FolderRKey (rpMailbox r)) st).
Proof.
  intros Hk []. constructor; cbn; try done.
  - by repeat constructor; apply FolderRKey_utf8.
  - unfold valid_texts. simpl elems. rewrite Forall_forall in Hk |- *. intros v Hv. apply Hk.
    by apply normalize_spec.
Qed.

Lemma replace_change_ok t r st w st' :
  (replace_change t r st w).1 = Ok st' →
  st' = replaced r (FolderRKey (rpMailbox r)) st ∧ folder_held w t (rpMailbox r).
Proof.
  unfold replace_change. rewrite bind_readonly by apply readonly_read_folder.
  destruct (read_folder t (rpMailbox r) w) as [[id|] w1] eqn:E; [|done]. intros [= <-].
  destruct (read_folder_ok t (rpMailbox r) w id) as [-> Hf]; [by rewrite E|]. done.
Qed.

Lemma readonly_replace_change t r st : readonly (replace_change t r st).
Proof. apply readonly_bind; [apply readonly_read_folder|done]. Qed.

End state_lemmas.

(** ** Both kinds of update *)

Inductive update : Type := ByApply (m : Mutation) | ByReplace (r : Replacement).

Definition up_rkey (u : update) : string := match u with ByApply m => mtMessageRKey m | ByReplace r => rpMessageRKey r end.
Definition up_op (u : update) : string := match u with ByApply m => mtOperationID m | ByReplace r => rpOperationID r end.
Definition up_expected (u : update) : N :=
  match u with ByApply m => mtExpectedRevision m | ByReplace r => rpExpectedRevision r end.
Definition up_now (u : update) : time := match u with ByApply m => mtNow m | ByReplace r => rpNow r end.
Definition up_valid (u : update) : bool := match u with ByApply m => validMutation m | ByReplace r => validReplacement r end.
(** The folder a message is moved to. *)
Definition up_folder (u : update) : option string :=
  match u with
  | ByApply m => match mtOperation m with Move => Some (mtMailbox m) | _ => None end
  | ByReplace r => Some (rpMailbox r)
  end.
(** The texts an update stores are valid UTF-8. *)
Definition up_texts (u : update) : Prop :=
  match u with
  | ByApply m => valid_text (mtOperationID m)
  | ByReplace r => valid_text (rpOperationID r) ∧ Forall valid_text (rpKeywords r)
  end.

(** The state an update leaves. *)
Definition up_next (u : update) (old : MessageStateRecord) : MessageStateRecord :=
  stamp match u with
        | ByApply m => mutated m old
        | ByReplace r => replaced r (FolderRKey (rpMailbox r)) old
        end (up_now u) (up_op u).

Definition update_allowed (u : update) (old : MessageStateRecord) : Prop :=
  msLastOperation old ≠ up_op u ∧ msRevision old = up_expected u ∧ msTombstone old = false.

Section updates.
Context `{Syntax} `{CaseOrbits} {W : Type} `{RepositoryLaws W}.

Definition run_update (t : Target) (u : update) : W → result MessageStateRecord * W :=
  match u with ByApply m => Apply t m | ByReplace r => Replace t r end.

Definition up_change (t : Target) (u : update) : MessageStateRecord → W → result MessageStateRecord * W :=
  match u with ByApply m => mutate t m | ByReplace r => replace_change t r end.

Definition up_accepted (t : Target) (u : update) : bool :=
  is_ok (Target_ValidateFor t (tgRepoDID t)) && up_valid u.

Lemma run_update_with t u w :
  run_update t u w =
  if up_accepted t u then update_with t (up_rkey u) (up_op u) (up_expected u) (up_now u) (up_change t u) w
  else (Err ErrInvalid, w).
Proof.
  unfold up_accepted. rewrite <- (negb_involutive (_ && _)), negb_andb.
  destruct u as [m|r]; cbn [run_update up_valid]; [rewrite Apply_update|rewrite Replace_update]; by destruct (_ || _).
Qed.

Lemma up_change_ok t u old new w :
  (up_change t u old w).1 = Ok new →
  stamp new (up_now u) (up_op u) = up_next u old ∧ ∀ name, up_folder u = Some name → folder_held w t name.
Proof.
  destruct u as [m|r]; cbn [up_change up_folder]; intros Hc.
  - apply mutate_ok in Hc as [-> Hf]. split; [done|]. intros name.
    destruct (mtOperation m); try done. intros [= <-]. by apply Hf.
  - apply replace_change_ok in Hc as [-> Hf]. split; [done|]. by intros name [= <-].
Qed.

Lemma readonly_up_change t u st : readonly (up_change t u st).
Proof. destruct u; [apply readonly_mutate|apply readonly_replace_change]. Qed.

Lemma up_change_typed t u (Hu : up_texts u) st st' w :
  state_typed st → (up_change t u st w).1 = Ok st' → state_typed st'.
Proof.
  destruct u as [m|r]; cbn [up_change]; intros Hst Hc.
  - apply mutate_ok in Hc as [-> _]. by apply mutated_typed.
  - apply replace_change_ok in Hc as [-> _]. by apply replaced_typed; [destruct Hu|].
Qed.

Lemma up_texts_op u : up_texts u → valid_text (up_op u).
Proof. by destruct u; [|intros []]. Qed.

(** The outcome of an update, call by call. *)
Lemma run_update_spec t u w :
  up_texts u →
  match run_update t u w with
  | (Ok st, w') => up_accepted t u = true ∧ ∃ stored old, (read_current t (up_rkey u) w).1 = Ok (stored, old) ∧
      ((msLastOperation old = up_op u ∧ st = old ∧ w' = w) ∨
       (update_allowed u old ∧ (∀ name, up_folder u = Some name → folder_held w t name) ∧ st = up_next u old ∧
        validState st (up_rkey u) = true ∧ ∃ rec, state_put t (up_rkey u) st (rcCID stored) w rec w' ∧ answers t w w'))
  | (Err e, w') => w' = w ∨
      ∃ stored old, (read_current t (up_rkey u) w).1 = Ok (stored, old) ∧ update_allowed u old ∧
        ∃ rec, state_put t (up_rkey u) (up_next u old) (rcCID stored) w rec w'
  end.
Proof.
  intros Hu. rewrite run_update_with. destruct (up_accepted t u); [|by left].
  pose proof (update_with_spec t (up_rkey u) (up_op u) (up_expected u) (up_now u) (up_change t u)
    (readonly_up_change t u) (up_change_typed t u Hu) (up_texts_op u Hu) w) as Hs.
  destruct (update_with _ _ _ _ _ _ w) as [[st|e] w'].
  - split; [done|]. destruct Hs as (stored & old & Hr & [Hsame|(Hn & Hv & rec & Hp)]); exists stored, old;
      (split; [done|]); [by left|right].
    destruct Hn as (? & ? & ? & changed & Hc & ->). apply up_change_ok in Hc as [E Hf]. rewrite E in *.
    split_and!; try done. by exists rec.
  - destruct Hs as [->|(stored & old & new & Hr & Hn & rec & Hp)]; [by left|right].
    exists stored, old. destruct Hn as (? & ? & ? & changed & Hc & ->).
    apply up_change_ok in Hc as [E _]. rewrite E in *. split_and!; try done. by exists rec.
Qed.

End updates.

(** ** The keyword and folder sets of the next state *)

Lemma elem_of_add l v k : k ∈ elems (add l v) ↔ k = v ∨ k ∈ elems l.
Proof.
  unfold add. destruct (existsb (String.eqb v) (elems l)) eqn:E.
  - apply existsb_exists in E as (x & Hx & Ex%String.eqb_eq). subst x. apply list_elem_of_In in Hx.
    split; [by right|]. by intros [->|?].
  - simpl elems. rewrite elem_of_sort_strings. set_solver.
Qed.

Lemma elem_of_remove l v k : k ∈ elems (remove l v) ↔ k ≠ v ∧ k ∈ elems l.
Proof.
  unfold remove. simpl elems. rewrite list_elem_of_In, filter_In, <- list_elem_of_In, negb_true_iff, String.eqb_neq.
  tauto.
Qed.

Lemma length_add l v : llen (elems (add l v)) ≤ llen (elems l) + 1.
Proof.
  unfold add. case_match; [lia|]. simpl elems. unfold llen. rewrite sort_strings_perm, length_app. simpl. lia.
Qed.

Lemma length_remove l v : llen (elems (remove l v)) ≤ llen (elems l).
Proof. unfold remove, llen. simpl elems. pose proof (filter_length_le (λ c, negb (String.eqb c v)) (elems l)). lia. Qed.

(** [validState] as a proposition. *)
Lemma validState_iff st rkey :
  validState st rkey = true ↔
  msType st = MessageStateCollection ∧ msMessage st = rkey ∧ msRevision st ≠ 0 ∧
  1 ≤ llen (elems (msMailboxIDs st)) ≤ 32 ∧ llen (elems (msKeywords st)) ≤ 128 ∧
  ∀ v, v ∈ elems (msMailboxIDs st) ∨ v ∈ elems (msKeywords st) → v ≠ "".
Proof.
  assert (Hall : forallb (λ value, negb (String.eqb value "")) (elems (msMailboxIDs st) ++ elems (msKeywords st)) = true ↔
    ∀ v, v ∈ elems (msMailboxIDs st) ∨ v ∈ elems (msKeywords st) → v ≠ "").
  { rewrite forallb_forall. setoid_rewrite <- list_elem_of_In. setoid_rewrite elem_of_app.
    by setoid_rewrite negb_true_iff; setoid_rewrite String.eqb_neq. }
  unfold validState. rewrite <- Hall. split.
  - destruct (_ || _) eqn:E; [done|]. intros Hf. bools. repeat split; try done; lia.
  - intros (-> & -> & Hr & Hb & Hk & ->). rewrite !String.eqb_refl.
    rewrite (proj2 (N.eqb_neq _ _)) by done. rewrite (proj2 (N.eqb_neq _ _)) by lia.
    rewrite (proj2 (N.ltb_ge _ _)) by lia. by rewrite (proj2 (N.ltb_ge _ _)) by lia.
Qed.

(** The keywords an operation sets or clears. *)
Definition sets_keyword (op : Operation) : option string :=
  match op with MarkRead => Some "$seen" | Flag => Some "$flagged" | _ => None end.
Definition clears_keyword (op : Operation) : option string :=
  match op with MarkUnread => Some "$seen" | Unflag => Some "$flagged" | _ => None end.

Lemma mutated_keywords m st k :
  k ∈ elems (msKeywords (mutated m st)) ↔
  Some k = sets_keyword (mtOperation m) ∨ Some k ≠ clears_keyword (mtOperation m) ∧ k ∈ elems (msKeywords st).
Proof.
  unfold mutated. destruct (mtOperation m); cbn [msKeywords set_msKeywords set_msMailboxIDs set_msDeletePending set_msTombstone sets_keyword clears_keyword]; rewrite ?elem_of_add, ?elem_of_remove; naive_solver.
Qed.

Lemma mutated_keywords_length m st : llen (elems (msKeywords (mutated m st))) ≤ llen (elems (msKeywords st)) + 1.
Proof.
  unfold mutated. destruct (mtOperation m); cbn [msKeywords set_msKeywords set_msMailboxIDs set_msDeletePending set_msTombstone]; try lia;
    first [apply length_add|etrans; [apply length_remove|lia]].
Qed.

(** ** Properties *)

Section properties.
Context `{Syntax} `{CaseOrbits} {W : Type} `{RepositoryLaws W}.

(** An update of a message's state (a mutation or a replacement) against any lawful
    repository has one of three outcomes.  It is answered from the stored state when that
    state already carries its operation id, changing nothing.  Or the stored state has the
    expected revision and is no tombstone, the destination folder (if any) is held under its
    name, and exactly that state record is replaced, by compare-and-swap, with the state
    [up_next] specifies, which is also the answer; no other record of the mailbox changes.  Or
    it fails, and then nothing changed, unless that state was written and then found to break the
    state invariant, or the answer was lost. *)
Theorem update_outcome (t : Target) (u : update) (w : W) (Hu : up_texts u) :
  match run_update t u w with
  | (Ok st, w') => up_accepted t u = true ∧ ∃ stored old, holds w t (up_rkey u) stored old ∧
      ((msLastOperation old = up_op u ∧ st = old ∧ w' = w) ∨
       (update_allowed u old ∧ (∀ name, up_folder u = Some name → folder_held w t name) ∧
        st = up_next u old ∧ validState st (up_rkey u) = true ∧ swapped w t (up_rkey u) st w'))
  | (Err e, w') => w' = w ∨
      ∃ stored old, holds w t (up_rkey u) stored old ∧ update_allowed u old ∧ swapped w t (up_rkey u) (up_next u old) w'
  end.
Proof.
  pose proof (run_update_spec t u w Hu) as Hs. destruct (run_update t u w) as [[st|e] w'].
  - destruct Hs as (Ha & stored & old & Hr & Hc). split; [done|]. apply read_current_ok in Hr.
    exists stored, old. split; [done|]. destruct Hc as [Hsame|(? & ? & ? & ? & rec & Hp & _)]; [by left|right].
    split_and!; try done. by apply put_swapped in Hp.
  - destruct Hs as [->|(stored & old & Hr & ? & rec & Hp)]; [by left|right].
    apply read_current_ok in Hr. exists stored, old. split_and!; try done. by apply put_swapped in Hp.
Qed.

Lemma up_next_typed t u w stored old : up_texts u → (read_current t (up_rkey u) w).1 = Ok (stored, old) → state_typed (up_next u old).
Proof.
  intros Hu (_ & Hun & _)%read_current_ok. apply unmarshal_state_typed in Hun.
  apply stamp_typed; [|by apply up_texts_op]. destruct u; [by apply mutated_typed|by apply replaced_typed; [destruct Hu|]].
Qed.
(** Once the next state of an update is stored, the update is answered from it and its rivals are late. *)
Lemma after_write t u w w' stored old rec : up_texts u → up_accepted t u = true → (read_current t (up_rkey u) w).1 = Ok (stored, old) →
  update_allowed u old → validState (up_next u old) (up_rkey u) = true → state_put t (up_rkey u) (up_next u old) (rcCID stored) w rec w' →
  answers t w w' →
  run_update t u w' = (Ok (up_next u old), w') ∧
  ∀ u', up_rkey u' = up_rkey u → up_accepted t u' = true → up_op u' ≠ up_op u →
    up_expected u' = up_expected u → run_update t u' w' = (Err ErrStaleRevision, w').
Proof.
  intros Hu Ha Hr Hall Hv Hp Hans. pose proof (up_next_typed t u w stored old Hu Hr) as Hnew.
  assert (Ht : state_typed old) by (apply read_current_ok in Hr as (_ & Hun & _); by eapply unmarshal_state_typed).
  assert (Hlast : msLastOperation (up_next u old) = up_op u) by (by destruct u).
  assert (Hrev : msRevision (up_next u old) = u64 (msRevision old + 1)).
  { destruct u as [m|r]; [|done]. cbn. unfold mutated. by destruct (mtOperation m). }
  assert (Hafter : ∀ u', up_rkey u' = up_rkey u → up_accepted t u' = true →
    run_update t u' w' = (return_if String.eqb (up_op u) (up_op u') with Ok (up_next u old) ;;
      return_if negb (u64 (msRevision old + 1) =? up_expected u') with Err ErrStaleRevision ;;
      return_if msTombstone (up_next u old) with Err ErrInvalid ;;
      call? state := up_change t u' (up_next u old) in
      write_state t (up_rkey u) (up_op u') (stamp state (up_now u') (up_op u')) (rcCID rec)) w').
  { intros u' Hk Ha'. rewrite run_update_with, Ha', Hk.
    rewrite (update_with_after t (up_rkey u) w stored old (up_next u old) rec w' _ _ _ _ Hr Hnew Hv Hp Hans).
    by rewrite Hlast, Hrev. }
  split; [by rewrite Hafter, String.eqb_refl by done|].
  intros u' Hk Ha' Hop Hex. rewrite Hafter by done. rewrite (proj2 (String.eqb_neq _ _)) by congruence.
  destruct Hall as (_ & Hrevold & _). rewrite Hex, <- Hrevold.
  assert (Hne : u64 (msRevision old + 1) ≠ msRevision old).
  { destruct Ht as [_ _ _ _ _ _ Hb _]. unfold u64. dlia. }
  by rewrite (proj2 (N.eqb_neq _ _)) by done.
Qed.

(** C33. Updates take effect once and are never lost: repeating a successful update returns the
    same state and changes nothing, and once an update has changed the state, every other
    update that expected the same revision is refused as stale, changing nothing. *)
Theorem update_exactly_once (t : Target) (u : update) (w w' : W) (st : MessageStateRecord)
    (Hu : up_texts u) (Hok : run_update t u w = (Ok st, w')) :
  run_update t u w' = (Ok st, w') ∧
  (w' ≠ w → ∀ u', up_rkey u' = up_rkey u → up_accepted t u' = true → up_op u' ≠ up_op u →
     up_expected u' = up_expected u → run_update t u' w' = (Err ErrStaleRevision, w')).
Proof.
  pose proof (run_update_spec t u w Hu) as Hs. rewrite Hok in Hs.
  destruct Hs as (Ha & stored & old & Hr & [(Hsame & -> & ->)|(Hall & _ & -> & Hv & rec & Hp & Hans)]); [done|].
  destruct (after_write t u w w' stored old rec Hu Ha Hr Hall Hv Hp Hans) as [Hsame Hother]. split; [done|]. by intros _.
Qed.

(** C34. An update that fails after it changed the mailbox settles when its session is answered
    again. The next state was stored and nothing else: when only the answer was lost, the same
    update made again returns that state and writes nothing, and every other update that expected
    the same revision is refused as stale; but when the state breaks the state invariant, which is
    checked only after the write, every update of that message fails from then on. *)
Theorem failed_update_settles (t : Target) (u : update) (w w' : W) (e : error)
    (Hu : up_texts u) (Hf : run_update t u w = (Err e, w')) (Hne : w' ≠ w) (Hans : answers t w w') :
  ∃ stored old, holds w t (up_rkey u) stored old ∧ update_allowed u old ∧ swapped w t (up_rkey u) (up_next u old) w' ∧
  (validState (up_next u old) (up_rkey u) = true →
     run_update t u w' = (Ok (up_next u old), w') ∧
     ∀ u', up_rkey u' = up_rkey u → up_accepted t u' = true → up_op u' ≠ up_op u →
       up_expected u' = up_expected u → run_update t u' w' = (Err ErrStaleRevision, w')) ∧
  (validState (up_next u old) (up_rkey u) = false →
     ∀ u', up_rkey u' = up_rkey u → up_accepted t u' = true → run_update t u' w' = (Err ErrIntegrity, w')).
Proof.
  pose proof (run_update_spec t u w Hu) as Hs. rewrite Hf in Hs. destruct Hs as [|(stored & old & Hr & Hall & rec & Hp)]; [done|].
  assert (Ha : up_accepted t u = true) by (destruct (up_accepted t u) eqn:Ea; [done|]; rewrite run_update_with, Ea in Hf; by injection Hf).
  exists stored, old. split; [by apply read_current_ok|]. split; [done|]. split; [by apply put_swapped in Hp|]. split.
  - intros Hv. by apply (after_write t u w w' stored old rec).
  - intros Hv u' Hk Ha'. rewrite run_update_with, Ha', Hk. unfold update_with.
    rewrite bind_readonly, (read_current_after _ _ _ _ _ _ _ _ _ Hr Hp Hans), (state_put_value _ _ _ _ _ _ _ Hp), unmarshal_state_json, Hv
      by first [done|apply readonly_read_current|by eapply up_next_typed]. done.
Qed.

End properties.

(** What a mutation does to a valid state: it marks, flags, moves or tombstones, and nothing
    else.  Keywords gain or lose exactly the one the operation names, a move puts the message
    in exactly the folder of that name, a tombstone clears a pending delete; the revision goes
    up by one, the projection and identity stay, and the result is again a valid state as long
    as there is room for a keyword and the revision does not wrap. *)
Theorem mutation_effects (m : Mutation) (old : MessageStateRecord) (rkey : string)
    (Hold : validState old rkey = true) (Hrev : msRevision old + 1 < 2 ^ 64)
    (Hroom : llen (elems (msKeywords old)) < 128) :
  let new := up_next (ByApply m) old in
  validState new rkey = true ∧ msRevision new = msRevision old + 1 ∧
  msLastOperation new = mtOperationID m ∧ msProjection new = msProjection old ∧
  (∀ k, k ∈ elems (msKeywords new) ↔
     Some k = sets_keyword (mtOperation m) ∨
     Some k ≠ clears_keyword (mtOperation m) ∧ k ∈ elems (msKeywords old)) ∧
  (msMailboxIDs new = if bool_decide (mtOperation m = Move) then Some [FolderRKey (mtMailbox m)]
                      else msMailboxIDs old) ∧
  (mtOperation m = Tombstone ∧ msTombstone new = true ∧ msDeletePending new = false ∨
   mtOperation m ≠ Tombstone ∧ msTombstone new = msTombstone old ∧ msDeletePending new = msDeletePending old).
Proof.
  apply validState_iff in Hold as (Ht & Hm & Hr & Hb & Hk & Hne). cbv zeta.
  assert (Hfix : msType (mutated m old) = msType old ∧ msMessage (mutated m old) = msMessage old ∧
    msRevision (mutated m old) = msRevision old ∧ msProjection (mutated m old) = msProjection old)
    by (unfold mutated; by destruct (mtOperation m)).
  destruct Hfix as (Eft & Efm & Efr & Efp).
  assert (Hboxes : msMailboxIDs (mutated m old) =
    if bool_decide (mtOperation m = Move) then Some [FolderRKey (mtMailbox m)] else msMailboxIDs old)
    by (unfold mutated; by destruct (mtOperation m)).
  assert (Hu : u64 (msRevision old + 1) = msRevision old + 1) by (apply N.mod_small; lia).
  pose proof (mutated_keywords_length m old) as Hlen.
  assert (Hv : validState (up_next (ByApply m) old) rkey = true).
  { apply validState_iff. unfold up_next, stamp.
    cbn [msType msMessage msRevision msMailboxIDs msKeywords set_msLastOperation set_msUpdatedAt set_msRevision].
    rewrite Eft, Efm, Efr, Hu, Hboxes. split; [done|]. split; [done|]. split; [lia|]. split; [|split].
    - case_bool_decide; [unfold llen; simpl; lia|done].
    - lia.
    - intros v. rewrite mutated_keywords. case_bool_decide; simpl elems.
      + intros [->%list_elem_of_singleton|[Hs|[_ Hs]]]; [done| |by apply Hne; right].
        destruct (mtOperation m); simplify_eq/=; done.
      + intros [Hs|[Hs|[_ Hs]]]; [by apply Hne; left| |by apply Hne; right].
        destruct (mtOperation m); simplify_eq/=; done. }
  split; [done|]. unfold up_next, stamp.
  cbn [msType msMessage msRevision msMailboxIDs msKeywords msLastOperation msProjection msTombstone msDeletePending
       set_msLastOperation set_msUpdatedAt set_msRevision up_op].
  rewrite Efr, Efp, Hboxes. split; [done|]. split; [done|]. split; [done|].
  split; [intros k; apply mutated_keywords|]. split; [done|].
  unfold mutated. destruct (mtOperation m); [right|right|right|right|right|left|right]; done.
Qed.

(** ** A message in an in-memory mailbox *)

Definition example_state (revision : N) (keywords : list string) (operation : string) : MessageStateRecord :=
  MkMessageStateRecord MessageStateCollection "m1" (Some ["folder-1"]) (Some keywords) false false revision
    "now" operation zero_projection.

Definition example_world (st : MessageStateRecord) : memory_world :=
  MkMemoryWorld alice (MkBackend
    {[tgSpaceURI example_target := MkSpaceState example_target
        {[("did:plc:alice", MessageCollection, "m1") := MkStoredRecord "" "cid-0" "{}";
          ("did:plc:alice", MessageStateCollection, "m1") := MkStoredRecord "" "cid-1" (print (state_json st))]}
        ∅ 7]} ∅).

Definition mark_read : update := ByApply (MkMutation "m1" 1 "op-1" MarkRead "" (time_Unix 0 0)).
Definition flag_too : update := ByApply (MkMutation "m1" 1 "op-2" Flag "" (time_Unix 0 0)).

(** The revision of the example space, which every write raises. *)
Definition example_rev (w : memory_world) : option N :=
  spRev <$> bkSpaces (mwBackend w) !! tgSpaceURI example_target.

Lemma marked :
  (run_update example_target mark_read (example_world (example_state 1 ["$flagged"] ""))).1 =
  Ok (up_next mark_read (example_state 1 ["$flagged"] "")).
Proof. vm_compute. reflexivity. Qed.
Lemma marked_rev :
  example_rev (run_update example_target mark_read (example_world (example_state 1 ["$flagged"] ""))).2 = Some 8.
Proof. vm_compute. reflexivity. Qed.

(** A call whose result is known, as an equation between pairs. *)
Lemma result_pair {A B} (p : A * B) (a : A) : p.1 = a → p = (a, p.2).
Proof. destruct p. by intros <-. Qed.

Lemma update_outcome_witness :
  (run_update example_target mark_read (example_world (example_state 1 ["$flagged"] ""))).1 =
    Ok (up_next mark_read (example_state 1 ["$flagged"] "")) ∧
  swapped (example_world (example_state 1 ["$flagged"] "")) example_target "m1"
    (up_next mark_read (example_state 1 ["$flagged"] ""))
    (run_update example_target mark_read (example_world (example_state 1 ["$flagged"] ""))).2.
Proof.
  split; [exact marked|].
  pose proof (update_outcome example_target mark_read (example_world (example_state 1 ["$flagged"] "")) eq_refl) as Ho.
  pose proof marked as Hm. pose proof marked_rev as Hrev.
  destruct (run_update _ _ _) as [[st|e] w']; simpl in Hm, Hrev; [|discriminate].
  injection Hm as ->. destruct Ho as (_ & stored & old & _ & [(_ & _ & ->)|(_ & _ & _ & _ & Hs)]).
  - discriminate Hrev.
  - exact Hs.
Defined.

Lemma update_exactly_once_witness :
  let w' := (run_update example_target mark_read (example_world (example_state 1 ["$flagged"] ""))).2 in
  run_update example_target flag_too w' = (Err ErrStaleRevision, w').
Proof.
  cbv zeta. apply (update_exactly_once example_target mark_read (example_world (example_state 1 ["$flagged"] "")) _
    (up_next mark_read (example_state 1 ["$flagged"] "")) eq_refl (result_pair _ _ marked));
    [|reflexivity|reflexivity| |reflexivity].
  - intros E. pose proof marked_rev as Hrev. rewrite E in Hrev. discriminate Hrev.
  - discriminate.
Defined.

Lemma mutation_effects_witness :
  validState (up_next mark_read (example_state 1 ["$flagged"] "")) "m1" = true.
Proof. apply mutation_effects; reflexivity. Defined.

(** A valid state with as many keywords as it may have. *)
Definition full_keywords : list string :=
  List.map (λ n, "k" +:+ print_N (N.of_nat n)) (seq 1 128).
Definition full_world : memory_world := example_world (example_state 1 full_keywords "").

Lemma full_state_valid : validState (example_state 1 full_keywords "") "m1" = true.
Proof. vm_compute. reflexivity. Qed.
Lemma full_marked : (run_update example_target mark_read full_world).1 = Err ErrIntegrity.
Proof. vm_compute. reflexivity. Qed.
Lemma full_rev : example_rev (run_update example_target mark_read full_world).2 = Some 8.
Proof. vm_compute. reflexivity. Qed.

(** A connection to the mailbox that may lose the answer to the next write. *)
Record losing_world : Type := MkLosingWorld { lwMail : memory_world; lwLosing : bool }.
Definition through {A} (m : memory_world → A * memory_world) (w : losing_world) : A * losing_world :=
  let '(r, mail) := m (lwMail w) in (r, MkLosingWorld mail (lwLosing w)).
#[export] Instance losing_repository : Repository losing_world := {
  ProviderID := ProviderID (W := memory_world);
  Capabilities_ := through Capabilities_;
  EnsureMailbox did key := through (EnsureMailbox did key);
  UploadBlob t data mime := through (UploadBlob t data mime);
  ApplyWrites t writes := through (ApplyWrites t writes);
  PutRecordCAS t c k v cid w :=
    match PutRecordCAS t c k v cid (lwMail w) with
    | (Ok rec, mail) => (if lwLosing w then Err ErrOther else Ok rec, MkLosingWorld mail false)
    | (Err e, mail) => (Err e, MkLosingWorld mail (lwLosing w))
    end;
  GetRecord t c k := through (GetRecord t c k);
  ListRecords t c := through (ListRecords t c);
  GetBlob t cid := through (GetBlob t cid);
  held w := held (lwMail w)
}.
Lemma through_inv {A} (m : memory_world → A * memory_world) w r w' : through m w = (r, w') →
  ∃ mail, m (lwMail w) = (r, mail) ∧ w' = MkLosingWorld mail (lwLosing w).
Proof. unfold through. destruct (m (lwMail w)) as [a mail]. intros [= <- <-]. by exists mail. Qed.
Lemma losing_put_inv t c k v cid (w : losing_world) r w' : PutRecordCAS t c k v cid w = (r, w') →
  (∃ rec mail, PutRecordCAS t c k v cid (lwMail w) = (Ok rec, mail) ∧ w' = MkLosingWorld mail false ∧ (r = Ok rec ∨ r = Err ErrOther)) ∨
  ∃ e mail, PutRecordCAS t c k v cid (lwMail w) = (Err e, mail) ∧ w' = MkLosingWorld mail (lwLosing w) ∧ r = Err e.
Proof.
  cbn [PutRecordCAS losing_repository]. destruct (PutRecordCAS t c k v cid (lwMail w)) as [[rec|e] mail]; intros [= <- <-].
  - left. exists rec, mail. split_and!; try done. destruct (lwLosing w); [by right|by left].
  - right. by exists e, mail.
Qed.
#[export] Instance losing_repository_laws : RepositoryLaws losing_world.
Proof.
  split.
  - intros w r w' (mail & E & ->)%through_inv. apply Capabilities_keeps in E as ->. by destruct w.
  - intros t c k w r w' (mail & E & ->)%through_inv. apply GetRecord_keeps in E as ->. by destruct w.
  - intros t c k w rec w' (mail & E & ->)%through_inv. by apply GetRecord_held in E.
  - intros t c w r w' (mail & E & ->)%through_inv. apply ListRecords_keeps in E as ->. by destruct w.
  - intros t c w l w' (mail & E & ->)%through_inv. by apply ListRecords_held in E.
  - intros t c w l w' c' k (mail & E & ->)%through_inv. change (through (GetRecord t c' k) w = (opt_result (held (lwMail w) t c' k) ErrNotFound, w)).
    unfold through. rewrite (ListRecords_reads _ _ _ _ _ c' k E). by destruct w.
  - intros t c k w rec. exact (held_key t c k (lwMail w) rec).
  - intros t cid w r w' (mail & E & ->)%through_inv. apply GetBlob_keeps in E as ->. by destruct w.
  - intros did key w r w' (mail & E & ->)%through_inv. exact (EnsureMailbox_held _ _ _ _ _ E).
  - intros t data mime w r w' (mail & E & ->)%through_inv. exact (UploadBlob_held _ _ _ _ _ _ E).
  - intros t ws w r w' (mail & E & ->)%through_inv. exact (ApplyWrites_creates _ _ _ _ _ E).
  - intros t c k v cid w e w' [(rec & mail & E & -> & _)|(e' & mail & E & -> & _)]%losing_put_inv.
    + right. exists rec. exact (PutRecordCAS_done _ _ _ _ _ _ _ _ E).
    + apply PutRecordCAS_failed in E as [->|(rec & Hd)]; [left; by destruct w|right; by exists rec].
  - intros t c k v cid w rec w' [(rec' & mail & E & -> & [[= ->]|[=]])|(e' & mail & E & -> & [=])]%losing_put_inv.
    exact (PutRecordCAS_done _ _ _ _ _ _ _ _ E).
  - intros t c k v cid w rec w' c' k' [(rec' & mail & E & -> & _)|(e' & mail & E & -> & [=])]%losing_put_inv. set (w' := MkLosingWorld mail false).
    change (through (GetRecord t c' k') w' = (opt_result (held mail t c' k') ErrNotFound, w')).
    unfold through. change (lwMail w') with mail. by rewrite (PutRecordCAS_reads _ _ _ _ _ _ _ _ c' k' E).
  - intros t c k v cid w rec w' [(rec' & mail & E & -> & _)|(e' & mail & E & -> & [=])]%losing_put_inv.
    pose proof (PutRecordCAS_capabilities _ _ _ _ _ _ _ _ E) as Hc. cbn [Capabilities_ losing_repository]. unfold through. cbn [lwMail].
    destruct (Capabilities_ mail), (Capabilities_ (lwMail w)). exact Hc.
Qed.

(** A session that may list is answered. *)
Lemma listing_answers `{RepositoryLaws W} (t : Target) (w w' : W) : is_ok (ListRecords t MessageCollection w').1 = true →
  (Capabilities_ w').1 = (Capabilities_ w).1 → answers t w w'.
Proof.
  intros Hl Hc. split; [|done]. intros c k. destruct (ListRecords t MessageCollection w') as [[l|e] w1] eqn:E; [|done].
  by apply (ListRecords_reads _ _ _ _ _ c k) in E.
Qed.
(** The state that is stored, and the record it is stored in. *)
Lemma stored_state `{RepositoryLaws W} (t : Target) (w : W) rkey stored old st : holds w t rkey stored old →
  (unmarshal_state ∘ rcValue) <$> held w t MessageStateCollection rkey = Some (Some st) → old = st.
Proof. intros (Hh & Hu & _). rewrite Hh. cbn. rewrite Hu. by intros [= ->]. Qed.

(** The answer to the first write is lost; and a state without room for a keyword. *)
Definition lost_before : losing_world := MkLosingWorld (example_world (example_state 1 ["$flagged"] "")) true.
Definition lost_after : losing_world := (run_update example_target mark_read lost_before).2.
Definition full_before : losing_world := MkLosingWorld full_world false.
Definition full_after : losing_world := (run_update example_target mark_read full_before).2.
Lemma lost_update : run_update example_target mark_read lost_before = (Err ErrOther, lost_after).
Proof. apply result_pair. vm_compute. reflexivity. Qed.
Lemma full_update : run_update example_target mark_read full_before = (Err ErrIntegrity, full_after).
Proof. apply result_pair. vm_compute. reflexivity. Qed.
Lemma example_rev_changed (w w' : losing_world) : bool_decide (example_rev (lwMail w') = example_rev (lwMail w)) = false → w' ≠ w.
Proof. intros Hr%bool_decide_eq_false_1 ->. done. Qed.
Lemma lost_changed : lost_after ≠ lost_before.
Proof. apply example_rev_changed. vm_compute. reflexivity. Qed.
Lemma full_changed : full_after ≠ full_before.
Proof. apply example_rev_changed. vm_compute. reflexivity. Qed.
Lemma lost_answers : answers example_target lost_before lost_after.
Proof. apply listing_answers; vm_compute; reflexivity. Qed.
Lemma full_answers : answers example_target full_before full_after.
Proof. apply listing_answers; vm_compute; reflexivity. Qed.

Lemma failed_update_settles_witness :
  run_update example_target mark_read lost_after = (Ok (up_next mark_read (example_state 1 ["$flagged"] "")), lost_after) ∧
  run_update example_target flag_too full_after = (Err ErrIntegrity, full_after).
Proof.
  destruct (failed_update_settles example_target mark_read lost_before lost_after ErrOther eq_refl lost_update lost_changed lost_answers)
    as (stored & old & Hh & _ & _ & Hvalid & _).
  destruct (failed_update_settles example_target mark_read full_before full_after ErrIntegrity eq_refl full_update full_changed full_answers)
    as (stored' & old' & Hh' & _ & _ & _ & Hbroken).
  apply (stored_state _ _ _ _ _ (example_state 1 ["$flagged"] "")) in Hh as ->; [|vm_compute; reflexivity].
  apply (stored_state _ _ _ _ _ (example_state 1 full_keywords "")) in Hh' as ->; [|vm_compute; reflexivity].
  split; [refine (proj1 (Hvalid _))|refine (Hbroken _ flag_too _ _)]; vm_compute; reflexivity.
Defined.
