(* ===== verification/Source.v ===== *)
(** * internal/sqliteimport/importer.go: the legacy mailbox as a source of messages

    The importer reads one mailbox of a legacy SQLite snapshot.  What the queries return is a
    parameter, the class [Database]; what the importer makes of the rows is modelled. *)
From S2P Require Import Prelude Sha256 GoStd Syntax Unicode Json Time Mailbox.

Record Space : Type := MkSpace {
  soID : Z;
  soOwner : string;
  soType : string;
  soKey : string;
  soUser : string;
  soModSeq : N
}.

Record Inventory : Type := MkInventory {
  ivSpace : Space;
  ivFolders : Z;
  ivLiveMessages : Z;
  ivExpungedMessages : Z;
  ivOversizeMessages : Z;
  ivLiveBytes : Z
}.

Record SourceFolder : Type := MkSourceFolder {
  sfName : string;
  sfRole : string;
  sfUIDValidity : N;
  sfNextUID : N;
  sfFolder : Folder
}.

Record SourceMessage : Type := MkSourceMessage {
  smLegacyRKey : string;
  smRole : string;
  smImported : ImportedMessage
}.

Record legacyFlags : Type := MkLegacyFlags {
  lfSeen : bool;
  lfFlagged : bool;
  lfAnswered : bool;
  lfDraft : bool;
  lfDeleted : bool
}.

(** A row of the message query. *)
Record message_row : Type := MkMessageRow {
  rwMailbox : string;
  rwUIDValidity : N;
  rwRKey : string;
  rwUID : N;
  rwModSeq : N;
  rwRaw : string;
  rwMessageID : string;
  rwDate : Z;
  rwTo : string;
  rwBlobs : string;
  rwFlags : string;
  rwInReplyTo : string;
  rwReferences : string
}.

(** The answers of SQLite: the space of an owner under a key, the totals of a space, and its
    folders and live messages in the order of the query, each with the error (if any) that
    ends the rows. *)
Class Database : Type := {
  space_row : string → string → result (option Space);
  folder_count : Z → result Z;
  message_totals : Z → result (Z * Z * Z * Z);
  folder_rows : Z → list (string * N * N) * option error;
  message_rows : Z → list message_row * option error
}.

(** ** Rows to messages *)

Definition keywords (f : legacyFlags) : list string :=
  sort_strings ((if lfSeen f then ["$seen"] else []) ++ (if lfFlagged f then ["$flagged"] else []) ++
                (if lfAnswered f then ["$answered"] else []) ++ (if lfDraft f then ["$draft"] else [])).

(** [unicode.ToLower] as far as comparing with ASCII text can tell: besides the capital letters
    only U+0130 and U+212A have an ASCII lower case. *)
Definition lower_rune (r : N) : N :=
  if (0x41 <=? r) && (r <=? 0x5A) then r + 32
  else if r =? 0x130 then 0x69
  else if r =? 0x212A then 0x6B
  else r.
Definition ToLower (s : string) : string := encode_runes (List.map lower_rune (runes s)).

Definition one_of (s : string) (l : list string) : bool := existsb (String.eqb s) l.

Definition folderRole (name : string) : string :=
  let s := ToLower (TrimSpace name) in
  if one_of s ["inbox"] then "inbox"
  else if one_of s ["archive"; "all mail"] then "archive"
  else if one_of s ["drafts"; "draft"] then "drafts"
  else if one_of s ["sent"; "sent items"; "sent mail"] then "sent"
  else if one_of s ["junk"; "spam"] then "junk"
  else if one_of s ["trash"; "deleted items"] then "trash"
  else if one_of s ["important"] then "important"
  else "".

Definition validSpaceKey (key : string) : bool :=
  negb (String.eqb key "" || (512 <? len key) || ContainsAny key "/?# ").

Definition validateSpace (space : Space) : result unit :=
  fail_if (soID space <=? 0)%Z || negb (HasPrefix (soOwner space) "did:") ||
    negb (String.eqb (soOwner space) (soUser space)) || negb (String.eqb (soType space) MailboxSpaceType) ||
    negb (validSpaceKey (soKey space)) with ErrInvalidSource ;;
  Ok tt.

(** [strings.Fields]: the maximal runs without space runes; one unit of [fuel] per byte. *)
Fixpoint fields_onto (fuel : nat) (current : string) (s : string) : list string :=
  let close := if String.eqb current "" then [] else [current] in
  match fuel, s with
  | S fuel', String c s' =>
      match List.find (HasPrefix s) space_runes with
      | Some r => close ++ fields_onto fuel' "" (skip (String.length r) s)
      | None => fields_onto fuel' (current +:+ String c "") s'
      end
  | _, _ => close
  end.
Definition Fields (s : string) : list string := fields_onto (String.length s) "" s.

Example fields_runs : Fields (" <a@x>  <b@y>" +:+ byte 9) = ["<a@x>"; "<b@y>"].
Proof. vm_compute. reflexivity. Qed.
Example role_of_sent : folderRole " Sent Items" = "sent".
Proof. vm_compute. reflexivity. Qed.

Definition set_lfSeen (r : legacyFlags) (x : bool) : legacyFlags :=
  MkLegacyFlags x (lfFlagged r) (lfAnswered r) (lfDraft r) (lfDeleted r).
Definition set_lfFlagged (r : legacyFlags) (x : bool) : legacyFlags :=
  MkLegacyFlags (lfSeen r) x (lfAnswered r) (lfDraft r) (lfDeleted r).
Definition set_lfAnswered (r : legacyFlags) (x : bool) : legacyFlags :=
  MkLegacyFlags (lfSeen r) (lfFlagged r) x (lfDraft r) (lfDeleted r).
Definition set_lfDraft (r : legacyFlags) (x : bool) : legacyFlags :=
  MkLegacyFlags (lfSeen r) (lfFlagged r) (lfAnswered r) x (lfDeleted r).
Definition set_lfDeleted (r : legacyFlags) (x : bool) : legacyFlags :=
  MkLegacyFlags (lfSeen r) (lfFlagged r) (lfAnswered r) (lfDraft r) x.

Section source.
Context `{CaseOrbits}.

Definition flag_fields : list (field legacyFlags) :=
  [mk_field "Seen" decode_bool lfSeen set_lfSeen; mk_field "Flagged" decode_bool lfFlagged set_lfFlagged;
   mk_field "Answered" decode_bool lfAnswered set_lfAnswered; mk_field "Draft" decode_bool lfDraft set_lfDraft;
   mk_field "Deleted" decode_bool lfDeleted set_lfDeleted].
Definition unmarshal_flags : string → option legacyFlags :=
  unmarshal flag_fields (MkLegacyFlags false false false false false).

(** One iteration of the loop in [Stream], up to the call of the visitor. *)
Definition import_row (space : Space) (row : message_row) : result SourceMessage :=
  fail_if len (rwRaw row) =? 0 with ErrInvalidSource ;;
  fail_if MaxRawMessageBytes <? len (rwRaw row) with ErrMessageTooLarge ;;
  fail_if negb (is_some (parse (rwTo row))) || negb (is_some (parse (rwBlobs row))) ||
    negb (is_some (parse (rwFlags row))) with ErrInvalidSource ;;
  let? flags := opt_result (unmarshal_flags (rwFlags row)) ErrInvalidSource in
  let imported := MkImportedMessage (soUser space) ("legacy:" +:+ rwRKey row) (rwRaw row) (rwMailbox row) []
    (rwMessageID row) (if (0 <? rwDate row)%Z then time_Unix (rwDate row) 0 else zero_time)
    (TrimSpace (rwInReplyTo row)) (Fields (rwReferences row)) (keywords flags) (lfDeleted flags)
    (rwUID row) (rwUIDValidity row) (rwModSeq row) zero_time in
  Ok (MkSourceMessage (rwRKey row) (folderRole (rwMailbox row)) imported).

(** What the visitor is given, and the error the stream ends with if no visit fails. *)
Fixpoint import_rows (space : Space) (rows : list message_row) (last : option error) :
    list SourceMessage * option error :=
  match rows with
  | [] => ([], last)
  | row :: rows' =>
      match import_row space row with
      | Ok message => let '(messages, e) := import_rows space rows' last in (message :: messages, e)
      | Err e => ([], Some e)
      end
  end.

Definition Stream `{Database} (space : Space) : list SourceMessage * option error :=
  match validateSpace space with
  | Err e => ([], Some e)
  | Ok _ => let '(rows, last) := message_rows (soID space) in import_rows space rows last
  end.

Definition Folders `{Database} (space : Space) : result (list SourceFolder) :=
  let? _ := validateSpace space in
  match folder_rows (soID space) with
  | (rows, None) => Ok (List.map (λ row : string * N * N, let '(name, uidValidity, nextUID) := row in
      let role := folderRole name in
      MkSourceFolder name role uidValidity nextUID (NewFolder name role uidValidity)) rows)
  | (_, Some e) => Err e
  end.

Definition Inspect `{Database} (did spaceKey : string) : result Inventory :=
  fail_if negb (HasPrefix did "did:") || negb (validSpaceKey spaceKey) with ErrInvalidSource ;;
  let? row := space_row did spaceKey in
  let? space := opt_result row ErrMailboxNotFound in
  let? folders := folder_count (soID space) in
  let? totals := message_totals (soID space) in
  let '(live, expunged, oversize, bytes) := totals in
  Ok (MkInventory space folders live expunged oversize bytes).

End source.
