(* ===== verification/Migrate.v ===== *)
(** * internal/migrate: copying a legacy mailbox into a repository

    [Run] creates what is missing, one folder and one message at a time, checks what is
    already there against the source, and ends with [Verify], which compares the whole
    destination with the source.  Both are written against the [Repository] interface and the
    source interface of [Source]. *)
From S2P Require Import Prelude Sha256 GoStd Syntax Unicode Json Time Mailbox Repository Memory Source.

Record Options : Type := MkOptions {
  opRecipientDID : string;
  opSpaceKey : string;
  opCommit : bool
}.

Record Mismatch : Type := MkMismatch {
  mmKind : string;
  mmKey : string;
  mmDetail : string
}.

Record Verification : Type := MkVerification {
  vfSourceMessages : Z;
  vfDestinationMessages : Z;
  vfVerifiedMessages : Z;
  vfSourceFolders : Z;
  vfDestinationFolders : Z;
  vfVerifiedFolders : Z;
  vfMismatches : list Mismatch
}.

Definition Passed (v : Verification) : bool :=
  (llen (vfMismatches v) =? 0) && (vfSourceMessages v =? vfDestinationMessages v)%Z &&
  (vfSourceMessages v =? vfVerifiedMessages v)%Z && (vfSourceFolders v =? vfDestinationFolders v)%Z &&
  (vfSourceFolders v =? vfVerifiedFolders v)%Z.

Record Report : Type := MkReport {
  rtVersion : N;
  rtDryRun : bool;
  rtProvider : string;
  rtCapabilities : Capabilities;
  rtTarget : Target;
  rtSourceFolders : Z;
  rtSourceMessages : Z;
  rtSourceBytes : Z;
  rtExpungedSkipped : Z;
  rtOversizeBlocked : Z;
  rtCreatedFolders : Z;
  rtExistingFolders : Z;
  rtCreatedMessages : Z;
  rtExistingMessages : Z;
  rtFingerprints : list string;
  rtVerification : Verification
}.

Definition set_rtProvider (r : Report) (x : string) : Report :=
  MkReport (rtVersion r) (rtDryRun r) x (rtCapabilities r) (rtTarget r) (rtSourceFolders r)
    (rtSourceMessages r) (rtSourceBytes r) (rtExpungedSkipped r) (rtOversizeBlocked r)
    (rtCreatedFolders r) (rtExistingFolders r) (rtCreatedMessages r) (rtExistingMessages r)
    (rtFingerprints r) (rtVerification r) .
Definition set_rtCapabilities (r : Report) (x : Capabilities) : Report :=
  MkReport (rtVersion r) (rtDryRun r) (rtProvider r) x (rtTarget r) (rtSourceFolders r)
    (rtSourceMessages r) (rtSourceBytes r) (rtExpungedSkipped r) (rtOversizeBlocked r)
    (rtCreatedFolders r) (rtExistingFolders r) (rtCreatedMessages r) (rtExistingMessages r)
    (rtFingerprints r) (rtVerification r) .
Definition set_rtTarget (r : Report) (x : Target) : Report :=
  MkReport (rtVersion r) (rtDryRun r) (rtProvider r) (rtCapabilities r) x (rtSourceFolders r)
    (rtSourceMessages r) (rtSourceBytes r) (rtExpungedSkipped r) (rtOversizeBlocked r)
    (rtCreatedFolders r) (rtExistingFolders r) (rtCreatedMessages r) (rtExistingMessages r)
    (rtFingerprints r) (rtVerification r) .
Definition set_rtSourceFolders (r : Report) (x : Z) : Report :=
  MkReport (rtVersion r) (rtDryRun r) (rtProvider r) (rtCapabilities r) (rtTarget r) x
    (rtSourceMessages r) (rtSourceBytes r) (rtExpungedSkipped r) (rtOversizeBlocked r)
    (rtCreatedFolders r) (rtExistingFolders r) (rtCreatedMessages r) (rtExistingMessages r)
    (rtFingerprints r) (rtVerification r) .
Definition set_rtSourceMessages (r : Report) (x : Z) : Report :=
  MkReport (rtVersion r) (rtDryRun r) (rtProvider r) (rtCapabilities r) (rtTarget r)
    (rtSourceFolders r) x (rtSourceBytes r) (rtExpungedSkipped r) (rtOversizeBlocked r)
    (rtCreatedFolders r) (rtExistingFolders r) (rtCreatedMessages r) (rtExistingMessages r)
    (rtFingerprints r) (rtVerification r) .
Definition set_rtSourceBytes (r : Report) (x : Z) : Report :=
  MkReport (rtVersion r) (rtDryRun r) (rtProvider r) (rtCapabilities r) (rtTarget r)
    (rtSourceFolders r) (rtSourceMessages r) x (rtExpungedSkipped r) (rtOversizeBlocked r)
    (rtCreatedFolders r) (rtExistingFolders r) (rtCreatedMessages r) (rtExistingMessages r)
    (rtFingerprints r) (rtVerification r) .
Definition set_rtExpungedSkipped (r : Report) (x : Z) : Report :=
  MkReport (rtVersion r) (rtDryRun r) (rtProvider r) (rtCapabilities r) (rtTarget r)
    (rtSourceFolders r) (rtSourceMessages r) (rtSourceBytes r) x (rtOversizeBlocked r)
    (rtCreatedFolders r) (rtExistingFolders r) (rtCreatedMessages r) (rtExistingMessages r)
    (rtFingerprints r) (rtVerification r) .
Definition set_rtOversizeBlocked (r : Report) (x : Z) : Report :=
  MkReport (rtVersion r) (rtDryRun r) (rtProvider r) (rtCapabilities r) (rtTarget r)
    (rtSourceFolders r) (rtSourceMessages r) (rtSourceBytes r) (rtExpungedSkipped r) x
    (rtCreatedFolders r) (rtExistingFolders r) (rtCreatedMessages r) (rtExistingMessages r)
    (rtFingerprints r) (rtVerification r) .
Definition set_rtCreatedFolders (r : Report) (x : Z) : Report :=
  MkReport (rtVersion r) (rtDryRun r) (rtProvider r) (rtCapabilities r) (rtTarget r)
    (rtSourceFolders r) (rtSourceMessages r) (rtSourceBytes r) (rtExpungedSkipped r)
    (rtOversizeBlocked r) x (rtExistingFolders r) (rtCreatedMessages r) (rtExistingMessages r)
    (rtFingerprints r) (rtVerification r) .
Definition set_rtExistingFolders (r : Report) (x : Z) : Report :=
  MkReport (rtVersion r) (rtDryRun r) (rtProvider r) (rtCapabilities r) (rtTarget r)
    (rtSourceFolders r) (rtSourceMessages r) (rtSourceBytes r) (rtExpungedSkipped r)
    (rtOversizeBlocked r) (rtCreatedFolders r) x (rtCreatedMessages r) (rtExistingMessages r)
    (rtFingerprints r) (rtVerification r) .
Definition set_rtCreatedMessages (r : Report) (x : Z) : Report :=
  MkReport (rtVersion r) (rtDryRun r) (rtProvider r) (rtCapabilities r) (rtTarget r)
    (rtSourceFolders r) (rtSourceMessages r) (rtSourceBytes r) (rtExpungedSkipped r)
    (rtOversizeBlocked r) (rtCreatedFolders r) (rtExistingFolders r) x (rtExistingMessages r)
    (rtFingerprints r) (rtVerification r) .
Definition set_rtExistingMessages (r : Report) (x : Z) : Report :=
  MkReport (rtVersion r) (rtDryRun r) (rtProvider r) (rtCapabilities r) (rtTarget r)
    (rtSourceFolders r) (rtSourceMessages r) (rtSourceBytes r) (rtExpungedSkipped r)
    (rtOversizeBlocked r) (rtCreatedFolders r) (rtExistingFolders r) (rtCreatedMessages r) x
    (rtFingerprints r) (rtVerification r) .
Definition set_rtFingerprints (r : Report) (x : list string) : Report :=
  MkReport (rtVersion r) (rtDryRun r) (rtProvider r) (rtCapabilities r) (rtTarget r)
    (rtSourceFolders r) (rtSourceMessages r) (rtSourceBytes r) (rtExpungedSkipped r)
    (rtOversizeBlocked r) (rtCreatedFolders r) (rtExistingFolders r) (rtCreatedMessages r)
    (rtExistingMessages r) x (rtVerification r) .
Definition set_rtVerification (r : Report) (x : Verification) : Report :=
  MkReport (rtVersion r) (rtDryRun r) (rtProvider r) (rtCapabilities r) (rtTarget r)
    (rtSourceFolders r) (rtSourceMessages r) (rtSourceBytes r) (rtExpungedSkipped r)
    (rtOversizeBlocked r) (rtCreatedFolders r) (rtExistingFolders r) (rtCreatedMessages r)
    (rtExistingMessages r) (rtFingerprints r) x.

Definition zero_capabilities : Capabilities := MkCapabilities false false false false false false.
Definition zero_target : Target := MkTarget "" "" "" "".
Definition zero_verification : Verification := MkVerification 0 0 0 0 0 0 [].
Definition new_report (opts : Options) : Report :=
  MkReport 1 (negb (opCommit opts)) "" zero_capabilities zero_target 0 0 0 0 0 0 0 0 0 [] zero_verification.

Definition with_inventory (report : Report) (inv : Inventory) : Report :=
  set_rtOversizeBlocked (set_rtExpungedSkipped (set_rtSourceBytes (set_rtSourceMessages
    (set_rtSourceFolders report (ivFolders inv)) (ivLiveMessages inv)) (ivLiveBytes inv))
    (ivExpungedMessages inv)) (ivOversizeMessages inv).

(** [count++] on an [int]: 63 bits are never reached by a list that fits in memory. *)
Definition add_fingerprint (report : Report) (fingerprint : string) : Report :=
  set_rtFingerprints report (rtFingerprints report ++ [fingerprint]).
Definition sort_fingerprints (report : Report) : Report :=
  set_rtFingerprints report (sort_strings (rtFingerprints report)).
Definition count_folder (created : bool) (report : Report) : Report :=
  if created then set_rtCreatedFolders report (rtCreatedFolders report + 1)
  else set_rtExistingFolders report (rtExistingFolders report + 1).
Definition count_message (created : bool) (report : Report) : Report :=
  if created then set_rtCreatedMessages report (rtCreatedMessages report + 1)
  else set_rtExistingMessages report (rtExistingMessages report + 1).

Section migrate.
Context `{Syntax} `{CaseOrbits} `{Database} {W : Type} `{Repository W}.

(** ** Checks of what is already there *)

Definition verifyFolderRecord (record : Record_) (expected : FolderRecord) : result unit :=
  let? got := opt_result (unmarshal_folder (rcValue record)) ErrIntegrity in
  fail_if negb (bool_decide (got = expected)) with ErrIntegrity ;; Ok tt.

Definition verifyExistingMessage (target : Target) (src : ImportedMessage) (record : Record_) :
    W → result unit * W :=
  match unmarshal_message (rcValue record) with
  | None => returns (Err ErrIntegrity)
  | Some got =>
      call? raw := on_error (λ _, ErrIntegrity) (GetBlob target (brLink (mrRaw got))) in
      call? _ := returns (ValidateStoredMessage (imRecipientDID src) (rcRKey record) got raw) in
      return_if negb (String.eqb raw (imRaw src)) with Err ErrIntegrity ;;
      call? expected := returns (NewMessagePair src (mrRaw got)) in
      return_if negb (bool_decide (got = mpMessage expected)) with Err ErrIntegrity ;;
      call? stateRecord := on_error (λ _, ErrIntegrity)
        (GetRecord target MessageStateCollection (rcRKey record)) in
      match unmarshal_state (rcValue stateRecord) with
      | None => returns (Err ErrIntegrity)
      | Some state =>
          return_if negb (bool_decide (state = mpState expected)) with Err ErrIntegrity ;; returns (Ok tt)
      end
  end.

(** ** One folder, one message

    The answer says whether the folder or message was created ([true]) or was there. *)

Definition create (collection rkey : string) (value : json) : Write :=
  MkWrite Create collection rkey (Some value) "".

Definition migrate_folder (target : Target) (folder : Folder) : W → result bool * W :=
  call? found := attempt (GetRecord target FolderCollection (fdRKey folder)) in
  match found with
  | Ok existing =>
      call? _ := returns (verifyFolderRecord existing (fdRecord folder)) in returns (Ok false)
  | Err err =>
      return_if negb (errors_Is err ErrNotFound) with Err err ;;
      call? created := attempt (ApplyWrites target
        [create FolderCollection (fdRKey folder) (folder_json (fdRecord folder))]) in
      match created with
      | Ok _ => returns (Ok true)
      | Err createErr =>
          return_if negb (errors_Is createErr ErrExists) with Err createErr ;;
          call? found := attempt (GetRecord target FolderCollection (fdRKey folder)) in
          match found with
          | Err getErr => returns (Err (ErrJoin createErr getErr))
          | Ok existing =>
              call? _ := returns (verifyFolderRecord existing (fdRecord folder)) in returns (Ok false)
          end
      end
  end.

(** What is done for a message that is not there. *)
Definition create_message (target : Target) (imported : ImportedMessage) : W → result bool * W :=
  call? blob := UploadBlob target (imRaw imported) MessageMIMEType in
  call? made := returns (NewMessagePair imported blob) in
  call? created := attempt (ApplyWrites target
    [create MessageCollection (mpRKey made) (message_json (mpMessage made));
     create MessageStateCollection (mpRKey made) (state_json (mpState made))]) in
  match created with
  | Ok _ => returns (Ok true)
  | Err err =>
      return_if negb (errors_Is err ErrExists) with Err err ;;
      call? found := attempt (GetRecord target MessageCollection (mpRKey made)) in
      match found with
      | Err getErr => returns (Err (ErrJoin err getErr))
      | Ok existing =>
          call? verified := attempt (verifyExistingMessage target imported existing) in
          match verified with
          | Err verifyErr => returns (Err (ErrJoin err verifyErr))
          | Ok _ => returns (Ok false)
          end
      end
  end.

Definition migrate_message (target : Target) (imported : ImportedMessage) : W → result bool * W :=
  let fingerprint := ImportedFingerprint imported in
  call? found := attempt (GetRecord target MessageCollection fingerprint) in
  match found with
  | Ok existing =>
      call? _ := verifyExistingMessage target imported existing in returns (Ok false)
  | Err getErr =>
      return_if negb (errors_Is getErr ErrNotFound) with Err getErr ;;
      call? orphan := attempt (GetRecord target MessageStateCollection fingerprint) in
      match orphan with
      | Ok _ => returns (Err ErrIntegrity)
      | Err stateErr =>
          return_if negb (errors_Is stateErr ErrNotFound) with Err stateErr ;;
          create_message target imported
      end
  end.

(** ** The loops: the report grows along the way, and comes back with any error *)

Definition outcome : Type := (Report * option error)%type.

Fixpoint migrate_folders (target : Target) (folders : list SourceFolder) (report : Report) : W → outcome * W :=
  match folders with
  | [] => λ w, ((report, None), w)
  | folder :: folders' => λ w,
      match migrate_folder target (sfFolder folder) w with
      | (Ok created, w') => migrate_folders target folders' (count_folder created report) w'
      | (Err e, w') => ((report, Some e), w')
      end
  end.

(** [snapshot.Stream] with the visitor of [Run]; [last] is the error the stream ends with. *)
Fixpoint migrate_messages (target : Target) (messages : list SourceMessage) (last : option error)
    (report : Report) : W → outcome * W :=
  match messages with
  | [] => λ w, ((report, last), w)
  | message :: messages' => λ w,
      let report := add_fingerprint report (ImportedFingerprint (smImported message)) in
      match migrate_message target (smImported message) w with
      | (Ok created, w') => migrate_messages target messages' last (count_message created report) w'
      | (Err e, w') => ((report, Some e), w')
      end
  end.

(** ** Verify *)

(** A map filled in a loop: the last element with a key wins. *)
Definition index_by {A B} (key : A → string) (value : A → B) (l : list A) (m : gmap string B) : gmap string B :=
  fold_left (λ m a, <[key a := value a]> m) l m.

(** The source messages by fingerprint, the source folders by key. *)
Definition message_key (src : SourceMessage) : string := ImportedFingerprint (smImported src).
Definition expected_messages (messages : list SourceMessage) : gmap string ImportedMessage :=
  index_by message_key smImported messages ∅.
Definition folder_key (f : SourceFolder) : string := fdRKey (sfFolder f).
Definition expected_folders (folders : list SourceFolder) : gmap string FolderRecord :=
  index_by folder_key (λ f, fdRecord (sfFolder f)) folders ∅.

(** The keys seen, the number of verified records and the mismatches found. *)
Record tally : Type := MkTally {
  tlSeen : gset string;
  tlVerified : Z;
  tlMismatches : list Mismatch
}.
Definition no_tally : tally := MkTally ∅ 0 [].
Definition mismatch (kind key detail : string) (t : tally) : tally :=
  MkTally (tlSeen t) (tlVerified t) (tlMismatches t ++ [MkMismatch kind key detail]).
Definition see (key : string) (t : tally) : tally :=
  MkTally ({[key]} ∪ tlSeen t) (tlVerified t) (tlMismatches t).
Definition verified (t : tally) : tally := MkTally (tlSeen t) (tlVerified t + 1) (tlMismatches t).

Fixpoint check_messages (target : Target) (expected : gmap string ImportedMessage)
    (records : list Record_) (t : tally) : W → tally * W :=
  match records with
  | [] => λ w, (t, w)
  | record :: records' =>
      match expected !! rcRKey record with
      | None => check_messages target expected records'
          (mismatch "extra-message" (rcRKey record) "destination record is absent from source snapshot" t)
      | Some imported => λ w,
          let t := see (rcRKey record) t in
          match verifyExistingMessage target imported record w with
          | (Err _, w') => check_messages target expected records'
              (mismatch "message-integrity" (rcRKey record) "record, blob, or state differs from source" t) w'
          | (Ok _, w') => check_messages target expected records' (verified t) w'
          end
      end
  end.

Definition check_folder (expected : gmap string FolderRecord) (t : tally) (record : Record_) : tally :=
  match expected !! rcRKey record with
  | None => mismatch "extra-folder" (rcRKey record) "destination folder is absent from source snapshot" t
  | Some folder =>
      let t := see (rcRKey record) t in
      match unmarshal_folder (rcValue record) with
      | Some got =>
          if bool_decide (got = folder) then verified t
          else mismatch "folder-integrity" (rcRKey record) "folder definition differs from source" t
      | None => mismatch "folder-integrity" (rcRKey record) "folder definition differs from source" t
      end
  end.

(** [for key := range expected]: a mismatch for each key not seen, in some order. *)
Definition check_missing {A} (kind detail : string) (expected : gmap string A) (t : tally) : tally :=
  fold_left (λ t kv, if bool_decide (kv.1 ∈ tlSeen t) then t else mismatch kind kv.1 detail t)
    (map_to_list expected) t.

Definition check_state (expected : gmap string ImportedMessage) (t : tally) (record : Record_) : tally :=
  if bool_decide (is_Some (expected !! rcRKey record)) then t
  else mismatch "extra-state" (rcRKey record) "state is not tied to a source message" t.

(** [sort.Slice] by kind and key; mismatches of one kind and key have one text. *)
Definition mismatch_le (a b : Mismatch) : Prop :=
  if String.eqb (mmKind a) (mmKind b) then str_le (mmKey a) (mmKey b) else str_le (mmKind a) (mmKind b).
#[export] Instance mismatch_le_dec : RelDecision mismatch_le.
Proof. intros a b. unfold mismatch_le. destruct (String.eqb _ _); apply _. Defined.

Definition count {A} (l : list A) : Z := Z.of_nat (List.length l).
Definition map_count {A} (m : gmap string A) : Z := Z.of_nat (size m).

Definition Verify (target : Target) (space : Space) : W → (Verification * option error) * W := λ w,
  match Stream space with
  | (_, Some e) => ((zero_verification, Some e), w)
  | (messages, None) =>
      let expectedMessages := expected_messages messages in
      let sources := map_count expectedMessages in
      match Folders space with
      | Err e => ((MkVerification sources 0 0 0 0 0 [], Some e), w)
      | Ok folders =>
          let expectedFolders := expected_folders folders in
          let sourceFolders := map_count expectedFolders in
          match ListRecords target MessageCollection w with
          | (Err e, w) => ((MkVerification sources 0 0 sourceFolders 0 0 [], Some e), w)
          | (Ok records, w) =>
              let '(t, w) := check_messages target expectedMessages records no_tally w in
              let t := check_missing "missing-message" "source message is absent from destination" expectedMessages t in
              match ListRecords target FolderCollection w with
              | (Err e, w) => ((MkVerification sources (count records) (tlVerified t) sourceFolders 0 0
                                  (tlMismatches t), Some e), w)
              | (Ok folderRecords, w) =>
                  let f := fold_left (check_folder expectedFolders) folderRecords
                             (MkTally ∅ 0 (tlMismatches t)) in
                  let f := check_missing "missing-folder" "source folder is absent from destination" expectedFolders f in
                  let result mismatches := MkVerification sources (count records) (tlVerified t) sourceFolders
                    (count folderRecords) (tlVerified f) mismatches in
                  match ListRecords target MessageStateCollection w with
                  | (Err e, w) => ((result (tlMismatches f), Some e), w)
                  | (Ok states, w) =>
                      let s := if (count states =? sources)%Z then f
                        else mismatch "state-count" "sha256-redacted"
                               "message-state count differs from source message count" f in
                      let s := fold_left (check_state expectedMessages) states s in
                      ((result (merge_sort mismatch_le (tlMismatches s)), None), w)
                  end
              end
          end
      end
  end.

(** ** Run *)

(** The part of [Run] after the target is bound. *)
Definition run_commit (target : Target) (space : Space) (report : Report) : W → outcome * W := λ w,
  match Folders space with
  | Err e => ((report, Some e), w)
  | Ok folders =>
      match migrate_folders target folders report w with
      | ((report, Some e), w) => ((report, Some e), w)
      | ((report, None), w) =>
          let '(messages, last) := Stream space in
          let '((report, e), w) := migrate_messages target messages last report w in
          let report := sort_fingerprints report in
          match e with
          | Some e => ((report, Some e), w)
          | None =>
              let '((verification, e), w) := Verify target space w in
              let report := set_rtVerification report verification in
              match e with
              | Some e => ((report, Some e), w)
              | None => if Passed verification then ((report, None), w) else ((report, Some ErrIntegrity), w)
              end
          end
      end
  end.

Definition Run (opts : Options) : W → outcome * W := λ w,
  let report := set_rtProvider (new_report opts) ProviderID in
  match Capabilities_ w with
  | (Err e, w) => ((report, Some e), w)
  | (Ok capabilities, w) =>
      let report := set_rtCapabilities report capabilities in
      match Inspect (opRecipientDID opts) (opSpaceKey opts) with
      | Err e => ((report, Some e), w)
      | Ok inv =>
          let report := with_inventory report inv in
          if (0 <? ivOversizeMessages inv)%Z then ((report, Some ErrMessageTooLarge), w)
          else if negb (opCommit opts) then
            let '(messages, e) := Stream (ivSpace inv) in
            let report := fold_left (λ r m, add_fingerprint r (ImportedFingerprint (smImported m))) messages report in
            ((sort_fingerprints report, e), w)
          else if negb (cpAtomicApplyWrites capabilities) || negb (cpCompareAndSwap capabilities) ||
                  negb (cpReferencedBlobs capabilities) then ((report, Some ErrUnsupported), w)
          else match EnsureMailbox (opRecipientDID opts) (opSpaceKey opts) w with
          | (Err e, w) => ((report, Some e), w)
          | (Ok target, w) =>
              match Target_ValidateFor target (opRecipientDID opts) with
              | Err e => ((report, Some e), w)
              | Ok _ => run_commit target (ivSpace inv) (set_rtTarget report target) w
              end
          end
      end
  end.

End migrate.

(** ** Which calls read and which only add *)

Section effects.
Context `{Syntax} `{CaseOrbits} `{Database} {W : Type} `{RepositoryLaws W}.

Lemma readonly_verifyExistingMessage t src record : readonly (verifyExistingMessage (W := W) t src record).
Proof.
  unfold verifyExistingMessage. case_match; [|done].
  apply readonly_bind; [apply readonly_on_error, readonly_GetBlob|]. intros raw.
  apply readonly_bind; [done|]. intros _. case_match; [done|].
  apply readonly_bind; [done|]. intros expected. case_match; [done|].
  apply readonly_bind; [apply readonly_on_error, readonly_GetRecord|]. intros st.
  case_match; [by case_match|done].
Qed.

Lemma growing_returns {A} (r : result A) : growing (returns (W := W) r).
Proof. by apply readonly_growing. Qed.
Lemma growing_GetRecord t c k : growing (attempt (GetRecord (W := W) t c k)).
Proof. apply readonly_growing, readonly_attempt, readonly_GetRecord. Qed.
Lemma growing_verify t src record : growing (verifyExistingMessage (W := W) t src record).
Proof. apply readonly_growing, readonly_verifyExistingMessage. Qed.

#[local] Hint Resolve growing_returns growing_GetRecord growing_verify growing_UploadBlob growing_creates
  growing_attempt growing_bind : growing.

Lemma growing_migrate_folder t f : growing (migrate_folder (W := W) t f).
Proof.
  apply growing_bind; [auto with growing|]. intros [existing|err].
  - apply growing_bind; auto with growing.
  - destruct (negb _); [auto with growing|]. apply growing_bind.
    { apply growing_attempt, growing_creates. by constructor. }
    intros [c|createErr]; [auto with growing|]. destruct (negb _); [auto with growing|].
    apply growing_bind; [auto with growing|]. intros [existing|getErr]; [|auto with growing].
    apply growing_bind; auto with growing.
Qed.

Lemma growing_create_message t imported : growing (create_message (W := W) t imported).
Proof.
  apply growing_bind; [auto with growing|]. intros blob. apply growing_bind; [auto with growing|].
  intros made. apply growing_bind.
  { apply growing_attempt, growing_creates. by repeat constructor. }
  intros [c|err]; [auto with growing|]. destruct (negb _); [auto with growing|].
  apply growing_bind; [auto with growing|]. intros [existing|getErr]; [|auto with growing].
  apply growing_bind; [auto with growing|]. intros []; auto with growing.
Qed.

Lemma growing_migrate_message t imported : growing (migrate_message (W := W) t imported).
Proof.
  apply growing_bind; [auto with growing|]. intros [existing|err].
  - apply growing_bind; auto with growing.
  - destruct (negb _); [auto with growing|]. apply growing_bind; [auto with growing|].
    intros [st|stateErr]; [auto with growing|]. destruct (negb _); [auto with growing|].
    apply growing_create_message.
Qed.

Lemma growing_migrate_folders t folders report : growing (migrate_folders (W := W) t folders report).
Proof.
  revert report. induction folders as [|f folders IH]; intros report w; [done|]. cbn [migrate_folders].
  pose proof (growing_migrate_folder t (sfFolder f) w) as Hg.
  destruct (migrate_folder t (sfFolder f) w) as [[created|e] w']; [|done]. etrans; [exact Hg|apply IH].
Qed.

Lemma growing_migrate_messages t messages last report :
  growing (migrate_messages (W := W) t messages last report).
Proof.
  revert report. induction messages as [|m messages IH]; intros report w; [done|]. cbn [migrate_messages].
  pose proof (growing_migrate_message t (smImported m) w) as Hg.
  destruct (migrate_message t (smImported m) w) as [[created|e] w']; [|done]. etrans; [exact Hg|apply IH].
Qed.

Lemma readonly_check_messages t expected records tl :
  readonly (check_messages (W := W) t expected records tl).
Proof.
  revert tl. induction records as [|record records IH]; intros tl w; [done|]. cbn [check_messages].
  destruct (expected !! rcRKey record) as [imported|]; [|apply IH].
  rewrite (readonly_run _ w (readonly_verifyExistingMessage t imported record)).
  destruct (verifyExistingMessage t imported record w).1; apply IH.
Qed.

Lemma readonly_Verify t space : readonly (Verify (W := W) t space).
Proof.
  intros w. unfold Verify. destruct (Stream space) as [messages [e|]]; [done|].
  destruct (Folders space) as [folders|]; [|done].
  rewrite (readonly_run _ w (readonly_ListRecords t MessageCollection)).
  destruct (ListRecords t MessageCollection w).1 as [records|]; [|done].
  rewrite (readonly_run _ w (readonly_check_messages t (expected_messages messages) records no_tally)).
  rewrite (readonly_run _ w (readonly_ListRecords t FolderCollection)).
  destruct (ListRecords t FolderCollection w).1; [|done].
  rewrite (readonly_run _ w (readonly_ListRecords t MessageStateCollection)).
  by destruct (ListRecords t MessageStateCollection w).1.
Qed.

Lemma growing_run_commit t space report : growing (run_commit (W := W) t space report).
Proof.
  intros w. unfold run_commit. destruct (Folders space) as [folders|]; [|done].
  pose proof (growing_migrate_folders t folders report w) as Hf.
  destruct (migrate_folders t folders report w) as [[report1 [e|]] w1]; [done|].
  destruct (Stream space) as [messages last].
  pose proof (growing_migrate_messages t messages last report1 w1) as Hm.
  destruct (migrate_messages t messages last report1 w1) as [[report2 [e|]] w2]; [by etrans|].
  rewrite (readonly_run _ w2 (readonly_Verify t space)).
  destruct (Verify t space w2).1 as [v [e|]]; [by etrans|]. destruct (Passed v); by etrans.
Qed.

Lemma growing_Run opts : growing (Run (W := W) opts).
Proof.
  intros w. unfold Run. rewrite (readonly_run _ w readonly_Capabilities).
  destruct (Capabilities_ w).1 as [capabilities|]; [|done]. destruct (Inspect _ _) as [inv|]; [|done].
  destruct (0 <? ivOversizeMessages inv)%Z; [done|]. destruct (negb (opCommit opts)).
  { by destruct (Stream (ivSpace inv)). }
  destruct (_ || _); [done|].
  pose proof (growing_EnsureMailbox (opRecipientDID opts) (opSpaceKey opts) w) as He.
  destruct (EnsureMailbox _ _ w) as [[target|e] w1]; [|done].
  destruct (Target_ValidateFor _ _); [|done]. etrans; [exact He|apply growing_run_commit].
Qed.

End effects.

(** ** What the checks of Verify establish *)

Section verify.
Context `{Syntax} `{CaseOrbits} `{Database} {W : Type} `{RepositoryLaws W}.

(** A message is stored as its source says: its record and its state are what
    [NewMessagePair] makes of the source, and the blob it names holds its bytes. *)
Definition message_stored (w : W) (t : Target) (src : ImportedMessage) (record : Record_) : Prop :=
  ∃ pair stateRecord, unmarshal_message (rcValue record) = Some (mpMessage pair) ∧
    (GetBlob t (brLink (mrRaw (mpMessage pair))) w).1 = Ok (imRaw src) ∧
    ValidateStoredMessage (imRecipientDID src) (rcRKey record) (mpMessage pair) (imRaw src) = Ok tt ∧
    NewMessagePair src (mrRaw (mpMessage pair)) = Ok pair ∧
    held w t MessageStateCollection (rcRKey record) = Some stateRecord ∧
    unmarshal_state (rcValue stateRecord) = Some (mpState pair).

Lemma verifyExistingMessage_stored t src record w :
  (verifyExistingMessage t src record w).1 = Ok tt → message_stored w t src record.
Proof.
  unfold verifyExistingMessage. destruct (unmarshal_message (rcValue record)) as [got|] eqn:Eg; [|done].
  rewrite bind_readonly by apply readonly_on_error, readonly_GetBlob.
  unfold on_error at 1. destruct (GetBlob t (brLink (mrRaw got)) w) as [[raw|] w1] eqn:Eb; [|done].
  cbn [fst]. rewrite bind_readonly by done. cbn [fst returns].
  destruct (ValidateStoredMessage _ _ got raw) as [[]|] eqn:Ev; [|done].
  destruct (String.eqb_spec raw (imRaw src)) as [->|]; [|done]. cbn [negb].
  rewrite bind_readonly by done. cbn [fst returns].
  destruct (NewMessagePair src (mrRaw got)) as [pair|] eqn:Ep; [|done].
  case_bool_decide as Eq; [|done]. subst got. cbn [negb].
  rewrite bind_readonly by apply readonly_on_error, readonly_GetRecord. unfold on_error.
  destruct (GetRecord t MessageStateCollection (rcRKey record) w) as [[st|] w2] eqn:Es; [|done]. cbn [fst].
  destruct (unmarshal_state (rcValue st)) as [state|] eqn:Eu; [|done].
  case_bool_decide as Eq; [|done]. subst state. intros _. apply GetRecord_held in Es.
  exists pair, st. by rewrite Eb.
Qed.

Lemma mismatch_not_nil kind key detail tl : tlMismatches (mismatch kind key detail tl) ≠ [].
Proof. simpl. by destruct (tlMismatches tl). Qed.

Lemma check_messages_clean t expected records tl w :
  let tl' := (check_messages t expected records tl w).1 in
  tlMismatches tl' = [] →
  tlMismatches tl = [] ∧
  (∀ rec, rec ∈ records → ∃ imported, expected !! rcRKey rec = Some imported ∧
     (verifyExistingMessage t imported rec w).1 = Ok tt) ∧
  (∀ k, k ∈ tlSeen tl' ↔ k ∈ tlSeen tl ∨ ∃ rec, rec ∈ records ∧ rcRKey rec = k).
Proof.
  cbv zeta. revert tl. induction records as [|record records IH]; intros tl; cbn [check_messages].
  { intros Hm. split_and!; [done|set_solver|set_solver]. }
  destruct (expected !! rcRKey record) as [imported|] eqn:Ee.
  2: { intros (Hm & _)%IH. by apply mismatch_not_nil in Hm. }
  rewrite (readonly_run _ w (readonly_verifyExistingMessage t imported record)).
  destruct (verifyExistingMessage t imported record w).1 as [[]|] eqn:Ev.
  2: { intros (Hm & _)%IH. by apply mismatch_not_nil in Hm. }
  intros (Hm & Hall & Hseen)%IH. cbn [verified see tlMismatches tlSeen] in *.
  split; [done|]. split.
  - intros rec [->|Hin]%elem_of_cons; [by exists imported|by apply Hall].
  - intros k. rewrite Hseen. setoid_rewrite elem_of_cons. split.
    + intros [[->%elem_of_singleton|Hk]%elem_of_union|(rec & Hin & <-)]; [right|by left|right]; eauto.
    + intros [Hk|(rec & [->|Hin] & <-)]; [left; set_solver|left; set_solver|right; eauto].
Qed.

Lemma check_missing_clean {A} kind detail (expected : gmap string A) tl :
  tlMismatches (check_missing kind detail expected tl) = [] →
  tlMismatches tl = [] ∧ tlSeen (check_missing kind detail expected tl) = tlSeen tl ∧
  tlVerified (check_missing kind detail expected tl) = tlVerified tl ∧
  ∀ k, is_Some (expected !! k) → k ∈ tlSeen tl.
Proof.
  unfold check_missing. intros Hm.
  assert (Hl : ∀ l tl, tlMismatches (fold_left (λ t (kv : string * A),
      if bool_decide (kv.1 ∈ tlSeen t) then t else mismatch kind kv.1 detail t) l tl) = [] →
      fold_left (λ t (kv : string * A), if bool_decide (kv.1 ∈ tlSeen t) then t else mismatch kind kv.1 detail t) l tl = tl ∧
      tlMismatches tl = [] ∧ ∀ kv, kv ∈ l → kv.1 ∈ tlSeen tl).
  { clear Hm tl. induction l as [|kv l IH]; intros tl; cbn [fold_left];
      [intros Hm; split_and!; [done|done|by intros kv ?%elem_of_nil]|].
    case_bool_decide as Hk.
    - intros (E & Hm & Hin)%IH. split_and!; [done|done|]. intros kv' [->|?]%elem_of_cons; [done|by apply Hin].
    - intros (_ & Hm & _)%IH. by apply mismatch_not_nil in Hm. }
  apply Hl in Hm as (E & Hm & Hin). rewrite E. split_and!; [done..|].
  intros k [a Ha]. apply (Hin (k, a)). by apply elem_of_map_to_list.
Qed.

Lemma check_folders_clean expected records tl :
  let tl' := fold_left (check_folder expected) records tl in
  tlMismatches tl' = [] →
  tlMismatches tl = [] ∧
  (∀ rec, rec ∈ records → ∃ f, expected !! rcRKey rec = Some f ∧ unmarshal_folder (rcValue rec) = Some f) ∧
  (∀ k, k ∈ tlSeen tl' ↔ k ∈ tlSeen tl ∨ ∃ rec, rec ∈ records ∧ rcRKey rec = k).
Proof.
  cbv zeta. revert tl. induction records as [|record records IH]; intros tl; cbn [fold_left].
  { intros Hm. split_and!; [done|set_solver|set_solver]. }
  intros (Hm & Hall & Hseen)%IH. revert Hm Hseen. unfold check_folder.
  destruct (expected !! rcRKey record) as [f|] eqn:Ee; [|by intros Hm%mismatch_not_nil].
  destruct (unmarshal_folder (rcValue record)) as [got|] eqn:Eu; [|by intros Hm%mismatch_not_nil].
  case_bool_decide as Eq; [|by intros Hm%mismatch_not_nil]. subst got.
  cbn [verified see tlMismatches tlSeen]. intros Hm Hseen. split; [done|]. split.
  - intros rec [->|Hin]%elem_of_cons; [by exists f|by apply Hall].
  - intros k. rewrite Hseen. setoid_rewrite elem_of_cons. split.
    + intros [[->%elem_of_singleton|Hk]%elem_of_union|(rec & Hin & <-)]; [right|by left|right]; eauto.
    + intros [Hk|(rec & [->|Hin] & <-)]; [left; set_solver|left; set_solver|right; eauto].
Qed.

Lemma check_states_clean expected records tl :
  tlMismatches (fold_left (check_state expected) records tl) = [] →
  tlMismatches tl = [] ∧ ∀ rec, rec ∈ records → is_Some (expected !! rcRKey rec).
Proof.
  revert tl. induction records as [|record records IH]; intros tl; cbn [fold_left];
    [by intros Hm; split; [|intros rec ?%elem_of_nil]|].
  intros (Hm & Hall)%IH. revert Hm. unfold check_state. case_bool_decide as Hk; [|by intros Hm%mismatch_not_nil].
  intros Hm. split; [done|]. intros rec [->|Hin]%elem_of_cons; [done|by apply Hall].
Qed.

(** What a passed verification says, call by call. *)
Lemma Verify_clean t space w v :
  (Verify t space w).1 = (v, None) → Passed v = true →
  ∃ messages folders records folderRecords states,
    Stream space = (messages, None) ∧ Folders space = Ok folders ∧
    (ListRecords t MessageCollection w).1 = Ok records ∧
    (ListRecords t FolderCollection w).1 = Ok folderRecords ∧
    (ListRecords t MessageStateCollection w).1 = Ok states ∧
    (∀ rec, rec ∈ records → ∃ imported, expected_messages messages !! rcRKey rec = Some imported ∧
       (verifyExistingMessage t imported rec w).1 = Ok tt) ∧
    (∀ k, is_Some (expected_messages messages !! k) → ∃ rec, rec ∈ records ∧ rcRKey rec = k) ∧
    (∀ rec, rec ∈ folderRecords → ∃ f, expected_folders folders !! rcRKey rec = Some f ∧
       unmarshal_folder (rcValue rec) = Some f) ∧
    (∀ k, is_Some (expected_folders folders !! k) → ∃ rec, rec ∈ folderRecords ∧ rcRKey rec = k) ∧
    (∀ rec, rec ∈ states → is_Some (expected_messages messages !! rcRKey rec)).
Proof.
  unfold Verify. destruct (Stream space) as [messages [e|]] eqn:Es; [done|].
  destruct (Folders space) as [folders|] eqn:Ef; [|done].
  rewrite (readonly_run _ w (readonly_ListRecords t MessageCollection)).
  destruct (ListRecords t MessageCollection w).1 as [records|]; [|done].
  rewrite (readonly_run _ w (readonly_check_messages t (expected_messages messages) records no_tally)).
  rewrite (readonly_run _ w (readonly_ListRecords t FolderCollection)).
  destruct (ListRecords t FolderCollection w).1 as [folderRecords|]; [|done].
  rewrite (readonly_run _ w (readonly_ListRecords t MessageStateCollection)).
  destruct (ListRecords t MessageStateCollection w).1 as [states|]; [|done].
  cbn [fst]. set (checked := (check_messages t _ records no_tally w).1).
  set (tm := check_missing _ _ (expected_messages messages) checked).
  set (tf := fold_left (check_folder _) folderRecords _). set (tg := check_missing _ _ (expected_folders folders) tf).
  intros [= <-] Hp. unfold Passed in Hp. cbn [vfMismatches] in Hp. bools.
  match goal with E : llen (merge_sort _ ?l) = 0 |- _ => assert (Hl : l = []) end.
  { match goal with E : llen (merge_sort mismatch_le ?l) = 0 |- _ =>
      apply Permutation_nil_r; rewrite <- (merge_sort_Permutation mismatch_le l);
      by destruct (merge_sort mismatch_le l) end. }
  apply check_states_clean in Hl as [Hs Hstates].
  destruct (count states =? map_count (expected_messages messages))%Z; [|by apply mismatch_not_nil in Hs].
  apply check_missing_clean in Hs as (Hf & _ & _ & Hfall). apply check_folders_clean in Hf as (Hm & Hfolders & Hfseen).
  cbn [tlMismatches tlSeen] in Hm, Hfseen. apply check_missing_clean in Hm as (Hc & _ & _ & Hmall).
  apply check_messages_clean in Hc as (_ & Hmessages & Hmseen).
  exists messages, folders, records, folderRecords, states. split_and!; try done.
  - intros k Hk. apply Hmall, Hmseen in Hk as [Hk|]; [set_solver|done].
  - intros k Hk. apply Hfall, Hfseen in Hk as [Hk|]; [set_solver|done].
Qed.

(** The destination holds the source: the messages, states and folders of the source and no
    others, each stored as the source says. *)
Record mirrors (w : W) (t : Target) (messages : list SourceMessage) (folders : list SourceFolder) : Prop := {
  mirror_messages k : is_Some (held w t MessageCollection k) ↔ is_Some (expected_messages messages !! k);
  mirror_message k imported record :
    expected_messages messages !! k = Some imported → held w t MessageCollection k = Some record →
    message_stored w t imported record;
  mirror_states k : is_Some (held w t MessageStateCollection k) ↔ is_Some (expected_messages messages !! k);
  mirror_folders k : is_Some (held w t FolderCollection k) ↔ is_Some (expected_folders folders !! k);
  mirror_folder k f record :
    expected_folders folders !! k = Some f → held w t FolderCollection k = Some record →
    unmarshal_folder (rcValue record) = Some f
}.

Lemma list_held t c w l : (ListRecords t c w).1 = Ok l → ∀ rec, rec ∈ l ↔ held w t c (rcRKey rec) = Some rec.
Proof.
  intros Hl. pose proof (readonly_run _ w (readonly_ListRecords t c)) as E. rewrite Hl in E.
  by apply ListRecords_held in E as [_ ?].
Qed.

Lemma list_key t c w l k rec : (ListRecords t c w).1 = Ok l → held w t c k = Some rec → rec ∈ l ∧ rcRKey rec = k.
Proof.
  intros Hl Hh. pose proof (held_key _ _ _ _ _ Hh) as Hk. split; [|done].
  apply (list_held t c w l Hl). by rewrite Hk.
Qed.

Lemma Verify_mirrors t space w v :
  (Verify t space w).1 = (v, None) → Passed v = true →
  ∃ messages folders, Stream space = (messages, None) ∧ Folders space = Ok folders ∧ mirrors w t messages folders.
Proof.
  intros Hv Hp. destruct (Verify_clean t space w v Hv Hp) as
    (messages & folders & records & folderRecords & states & Hst & Hfo & Hl1 & Hl2 & Hl3 & Hm & Hmall & Hf & Hfall & Hs).
  exists messages, folders. split; [done|]. split; [done|].
  assert (Hmessage : ∀ k record, held w t MessageCollection k = Some record →
    ∃ imported, expected_messages messages !! k = Some imported ∧ message_stored w t imported record).
  { intros k record Hh. destruct (list_key _ _ _ _ _ _ Hl1 Hh) as [Hin <-].
    destruct (Hm record Hin) as (imported & He & Hok). exists imported. split; [done|].
    by apply verifyExistingMessage_stored. }
  assert (Hheld : ∀ k, is_Some (expected_messages messages !! k) → is_Some (held w t MessageCollection k)).
  { intros k Hk. destruct (Hmall k Hk) as (rec & Hin & <-). apply (list_held _ _ _ _ Hl1) in Hin. by exists rec. }
  split.
  - intros k. split; [|apply Hheld]. intros [rec Hh]. destruct (Hmessage k rec Hh) as (imported & He & _). by exists imported.
  - intros k imported record He Hh. destruct (Hmessage k record Hh) as (imported' & He' & Hst'). congruence.
  - intros k. split.
    + intros [rec Hh]. destruct (list_key _ _ _ _ _ _ Hl3 Hh) as [Hin <-]. by apply Hs.
    + intros Hk. destruct (Hheld k Hk) as [rec Hh]. pose proof (held_key _ _ _ _ _ Hh) as <-.
      destruct (Hmessage _ rec Hh) as (imported & _ & pair & st & _ & _ & _ & _ & Hstate & _). by exists st.
  - intros k. split.
    + intros [rec Hh]. destruct (list_key _ _ _ _ _ _ Hl2 Hh) as [Hin <-].
      destruct (Hf rec Hin) as (f & He & _). by exists f.
    + intros Hk. destruct (Hfall k Hk) as (rec & Hin & <-). exists rec. by apply (list_held _ _ _ _ Hl2).
  - intros k f rec He Hh. destruct (list_key _ _ _ _ _ _ Hl2 Hh) as [Hin <-].
    destruct (Hf rec Hin) as (f' & He' & Hu). congruence.
Qed.

End verify.

(** ** Running again *)

Lemma index_by_other {A B} (key : A → string) (value : A → B) l m k :
  k ∉ (key <$> l) → index_by key value l m !! k = m !! k.
Proof.
  revert m. induction l as [|a l IH]; intros m Hk; [done|]. cbn [fmap list_fmap] in Hk.
  apply not_elem_of_cons in Hk as [Hne Hk]. unfold index_by in *. cbn [fold_left].
  rewrite IH by done. by rewrite lookup_insert_ne.
Qed.

Lemma index_by_in {A B} (key : A → string) (value : A → B) l m a :
  NoDup (key <$> l) → a ∈ l → index_by key value l m !! key a = Some (value a).
Proof.
  revert m. induction l as [|b l IH]; intros m Hnd Hin; [by apply elem_of_nil in Hin|].
  cbn [fmap list_fmap] in Hnd. apply NoDup_cons in Hnd as [Hni Hnd].
  change (index_by key value (b :: l) m) with (index_by key value l (<[key b := value b]> m)).
  apply elem_of_cons in Hin as [->|Hin]; [|by apply IH].
  rewrite (index_by_other key value l _ _ Hni). apply lookup_insert_eq.
Qed.

Section again.
Context `{Syntax} `{CaseOrbits} `{Database} {W : Type} `{RepositoryLaws W}.

Lemma migrate_message_again t imported record w :
  GetRecord t MessageCollection (ImportedFingerprint imported) w = (Ok record, w) →
  (verifyExistingMessage t imported record w).1 = Ok tt →
  migrate_message t imported w = (Ok false, w).
Proof.
  intros Hg Hv. unfold migrate_message. rewrite bind_readonly by apply readonly_attempt, readonly_GetRecord.
  unfold attempt. rewrite Hg. cbn [fst]. rewrite bind_readonly by apply readonly_verifyExistingMessage.
  by rewrite Hv.
Qed.

Lemma migrate_folder_again t f record w :
  GetRecord t FolderCollection (fdRKey f) w = (Ok record, w) →
  unmarshal_folder (rcValue record) = Some (fdRecord f) → migrate_folder t f w = (Ok false, w).
Proof.
  intros Hg Hu. unfold migrate_folder. rewrite bind_readonly by apply readonly_attempt, readonly_GetRecord.
  unfold attempt. rewrite Hg. cbn [fst]. rewrite bind_readonly by done. unfold returns, verifyFolderRecord.
  rewrite Hu. cbn [opt_result result_bind]. by rewrite bool_decide_eq_true_2.
Qed.

Lemma migrate_folders_again t folders report w :
  (∀ f, f ∈ folders → migrate_folder t (sfFolder f) w = (Ok false, w)) →
  ∃ report', migrate_folders t folders report w = ((report', None), w) ∧
    rtCreatedFolders report' = rtCreatedFolders report ∧ rtCreatedMessages report' = rtCreatedMessages report.
Proof.
  revert report. induction folders as [|f folders IH]; intros report Hall; [by exists report|].
  cbn [migrate_folders]. rewrite Hall by by apply elem_of_cons; left.
  destruct (IH (count_folder false report)) as (report' & -> & E1 & E2).
  { intros f' Hin. apply Hall, elem_of_cons. by right. }
  by exists report'.
Qed.

Lemma migrate_messages_again t messages report w :
  (∀ m, m ∈ messages → migrate_message t (smImported m) w = (Ok false, w)) →
  ∃ report', migrate_messages t messages None report w = ((report', None), w) ∧
    rtCreatedFolders report' = rtCreatedFolders report ∧ rtCreatedMessages report' = rtCreatedMessages report.
Proof.
  revert report. induction messages as [|m messages IH]; intros report Hall; [by exists report|].
  cbn [migrate_messages]. rewrite Hall by by apply elem_of_cons; left.
  destruct (IH (count_message false (add_fingerprint report (ImportedFingerprint (smImported m))))) as (report' & -> & E1 & E2).
  { intros m' Hin. apply Hall, elem_of_cons. by right. }
  by exists report'.
Qed.

(** A successful run ends with a passed verification of the world it leaves. *)
Lemma run_commit_verified t space report w report' w' :
  run_commit t space report w = ((report', None), w') →
  ∃ v, (Verify t space w').1 = (v, None) ∧ Passed v = true ∧ rtVerification report' = v.
Proof.
  unfold run_commit. destruct (Folders space) as [folders|]; [|done].
  destruct (migrate_folders t folders report w) as [[report1 [e|]] w1]; [done|].
  destruct (Stream space) as [messages last].
  destruct (migrate_messages t messages last report1 w1) as [[report2 [e|]] w2]; [done|].
  rewrite (readonly_run _ w2 (readonly_Verify t space)).
  destruct (Verify t space w2).1 as [v [e|]] eqn:Ev; [done|]. destruct (Passed v) eqn:Ep; [|done].
  intros [= <- <-]. exists v. by rewrite Ev.
Qed.

(** The parts of a successful committed run. *)
Lemma migrate_folders_target t folders report w report' w' :
  (migrate_folders t folders report w) = (report', w') → rtTarget report'.1 = rtTarget report.
Proof.
  revert report w. induction folders as [|f folders IH]; intros report w; cbn [migrate_folders]; [by intros [= <- _]|].
  destruct (migrate_folder t (sfFolder f) w) as [[created|e] w1]; [|by intros [= <- _]].
  intros ->%IH. by destruct created.
Qed.

Lemma migrate_messages_target t messages last report w report' w' :
  (migrate_messages t messages last report w) = (report', w') → rtTarget report'.1 = rtTarget report.
Proof.
  revert report w. induction messages as [|m messages IH]; intros report w; cbn [migrate_messages]; [by intros [= <- _]|].
  destruct (migrate_message t (smImported m) w) as [[created|e] w1]; [|by intros [= <- _]].
  intros ->%IH. by destruct created.
Qed.

Lemma run_commit_target t space report w report' w' :
  run_commit t space report w = (report', w') → rtTarget report'.1 = rtTarget report.
Proof.
  unfold run_commit. destruct (Folders space) as [folders|]; [|by intros [= <- _]].
  destruct (migrate_folders t folders report w) as [[report1 e1] w1] eqn:E1.
  apply migrate_folders_target in E1. destruct e1; [by intros [= <- _]|]. destruct (Stream space) as [messages last].
  destruct (migrate_messages t messages last report1 w1) as [[report2 e2] w2] eqn:E2.
  apply migrate_messages_target in E2. cbn [fst] in *. rewrite <- E1, <- E2. destruct e2; [by intros [= <- _]|].
  destruct (Verify t space w2) as [[v [e|]] w3]; [by intros [= <- _]|]. destruct (Passed v); by intros [= <- _].
Qed.

Lemma Run_committed opts w w' report :
  opCommit opts = true → Run opts w = ((report, None), w') →
  ∃ inv t report0 w0, Inspect (opRecipientDID opts) (opSpaceKey opts) = Ok inv ∧
    Target_ValidateFor t (opRecipientDID opts) = Ok tt ∧
    run_commit t (ivSpace inv) report0 w0 = ((report, None), w') ∧ rtTarget report = t.
Proof.
  intros Hc. unfold Run. rewrite Hc, (readonly_run _ w readonly_Capabilities). cbn [negb].
  destruct (Capabilities_ w).1 as [c|]; [|done]. destruct (Inspect _ _) as [inv|]; [|done].
  destruct (0 <? ivOversizeMessages inv)%Z; [done|]. destruct (_ || _); [done|].
  destruct (EnsureMailbox _ _ w) as [[t|e] w1]; [|done].
  destruct (Target_ValidateFor t _) as [[]|] eqn:Et; [|done]. intros Hr.
  pose proof (run_commit_target _ _ _ _ _ _ Hr) as Etarget. eexists inv, t, _, w1. by split_and!.
Qed.

Lemma list_reads t c w l c' k rec :
  (ListRecords t c w).1 = Ok l → held w t c' k = Some rec → GetRecord t c' k w = (Ok rec, w).
Proof.
  intros Hl Hh. pose proof (readonly_run _ w (readonly_ListRecords t c)) as E. rewrite Hl in E.
  by rewrite (ListRecords_reads _ _ _ _ _ _ _ E), Hh.
Qed.

Lemma run_commit_again t space report w report' w' messages folders report2 :
  run_commit t space report w = ((report', None), w') →
  Stream space = (messages, None) → Folders space = Ok folders →
  NoDup (message_key <$> messages) → NoDup (folder_key <$> folders) →
  ∃ report2', run_commit t space report2 w' = ((report2', None), w') ∧
    rtCreatedFolders report2' = rtCreatedFolders report2 ∧ rtCreatedMessages report2' = rtCreatedMessages report2.
Proof.
  intros Hrun Hst Hfo Hndm Hndf. destruct (run_commit_verified _ _ _ _ _ _ Hrun) as (v & Hv & Hp & _).
  destruct (Verify_clean t space w' v Hv Hp) as
    (messages' & folders' & records & folderRecords & states & Hst' & Hfo' & Hl1 & Hl2 & _ & Hm & Hmall & Hf & Hfall & _).
  rewrite Hst in Hst'. rewrite Hfo in Hfo'. simplify_eq.
  destruct (migrate_folders_again t folders' report2 w') as (report3 & E3 & F3 & M3).
  { intros f Hin. pose proof (index_by_in folder_key (λ f, fdRecord (sfFolder f)) folders' ∅ f Hndf Hin) as He.
    destruct (Hfall (folder_key f)) as (rec & Hrec & Hk); [by eexists|].
    destruct (Hf rec Hrec) as (r & He' & Hu). rewrite Hk in He'. change (index_by _ _ folders' ∅) with (expected_folders folders') in He.
    apply (migrate_folder_again t (sfFolder f) rec); [|by simplify_eq].
    apply (list_held _ _ _ _ Hl2) in Hrec. rewrite Hk in Hrec. by eapply list_reads. }
  destruct (migrate_messages_again t messages' report3 w') as (report4 & E4 & F4 & M4).
  { intros m Hin. pose proof (index_by_in message_key smImported messages' ∅ m Hndm Hin) as He.
    destruct (Hmall (message_key m)) as (rec & Hrec & Hk); [by eexists|].
    destruct (Hm rec Hrec) as (imported & He' & Hok). rewrite Hk in He'. change (index_by _ _ messages' ∅) with (expected_messages messages') in He.
    apply (migrate_message_again t (smImported m) rec); [|by simplify_eq].
    apply (list_held _ _ _ _ Hl1) in Hrec. rewrite Hk in Hrec. by eapply list_reads. }
  exists (set_rtVerification (sort_fingerprints report4) v). unfold run_commit.
  rewrite Hfo, E3, Hst, E4, (readonly_run _ w' (readonly_Verify t space)), Hv, Hp.
  split; [done|]. cbn. split; congruence.
Qed.

End again.

(** ** Properties *)

Section properties.
Context `{Syntax} `{CaseOrbits} `{Database} {W : Type} `{RepositoryLaws W}.

(** C31. A migration that reports success has reconstructed the source: its target is bound to
    the recipient, and the destination holds exactly the messages, states and folders of the
    source, each message with the metadata and initial state of its source and a blob of
    exactly its bytes.  Nothing else is in the mailbox. *)
Theorem migration_reconstructs (opts : Options) (w w' : W) (report : Report)
    (Hc : opCommit opts = true) (Hrun : Run opts w = ((report, None), w')) :
  ∃ inv messages folders, Inspect (opRecipientDID opts) (opSpaceKey opts) = Ok inv ∧
    Target_ValidateFor (rtTarget report) (opRecipientDID opts) = Ok tt ∧
    Stream (ivSpace inv) = (messages, None) ∧ Folders (ivSpace inv) = Ok folders ∧
    mirrors w' (rtTarget report) messages folders.
Proof.
  destruct (Run_committed opts w w' report Hc Hrun) as (inv & t & report0 & w0 & Hi & Ht & Hr & Etarget).
  destruct (run_commit_verified _ _ _ _ _ _ Hr) as (v & Hv & Hp & _).
  destruct (Verify_mirrors _ _ _ _ Hv Hp) as (messages & folders & ? & ? & ?).
  exists inv, messages, folders. by rewrite Etarget.
Qed.

(** Whatever a migration meets, it never overwrites or deletes: every record the
    destination held before is still held, unchanged, also when the migration fails half-way.
    A dry run, a source with an oversized message and a provider without the required
    capabilities leave the destination as it was. *)
Theorem migration_only_adds (opts : Options) (w : W) :
  keeps_held w (Run opts w).2 ∧
  (opCommit opts = false → (Run opts w).2 = w) ∧
  (∀ inv, Inspect (opRecipientDID opts) (opSpaceKey opts) = Ok inv → (0 < ivOversizeMessages inv)%Z →
     (Run opts w).2 = w ∧ is_Some (Run opts w).1.2) ∧
  (∀ c, (Capabilities_ w).1 = Ok c → cpAtomicApplyWrites c && cpCompareAndSwap c && cpReferencedBlobs c = false →
     (Run opts w).2 = w).
Proof.
  split; [apply growing_Run|]. unfold Run. rewrite (readonly_run _ w readonly_Capabilities).
  split_and!.
  - intros ->. destruct (Capabilities_ w).1 as [c|]; [|done]. destruct (Inspect _ _) as [inv|]; [|done].
    destruct (0 <? _)%Z; [done|]. cbn [negb]. by destruct (Stream (ivSpace inv)).
  - intros inv -> Ho. destruct (Capabilities_ w).1 as [c|]; [|done].
    by rewrite (proj2 (Z.ltb_lt _ _) Ho).
  - cbn [fst]. intros c -> Hcap. destruct (Inspect _ _) as [inv|]; [|done]. destruct (0 <? _)%Z; [done|].
    destruct (negb (opCommit opts)); [by destruct (Stream (ivSpace inv))|].
    by rewrite <- !negb_andb, Hcap.
Qed.

(** Migrating again is safe: after a successful migration of a source whose messages and
    folders are distinct, the same work succeeds again, creates no folder and no message, and
    leaves the destination as it is. *)
Theorem migration_idempotent (t : Target) (space : Space) (report report' again : Report) (w w' : W)
    (messages : list SourceMessage) (folders : list SourceFolder)
    (Hrun : run_commit t space report w = ((report', None), w'))
    (Hst : Stream space = (messages, None)) (Hfo : Folders space = Ok folders)
    (Hm : NoDup (message_key <$> messages)) (Hf : NoDup (folder_key <$> folders)) :
  ∃ again', run_commit t space again w' = ((again', None), w') ∧
    rtCreatedFolders again' = rtCreatedFolders again ∧ rtCreatedMessages again' = rtCreatedMessages again.
Proof. by eapply run_commit_again. Qed.

End properties.

(** ** A legacy mailbox with one folder and one message *)

Definition legacy_space : Space :=
  MkSpace 1 "did:plc:alice" MailboxSpaceType "inbox" "did:plc:alice" 7.
#[local] Instance legacy_database : Database := {
  space_row did key := Ok (if String.eqb did "did:plc:alice" && String.eqb key "inbox" then Some legacy_space else None);
  folder_count _ := Ok 1%Z;
  message_totals _ := Ok (1, 0, 0, 11)%Z;
  folder_rows _ := ([("INBOX", 17, 5)], None);
  message_rows _ := ([MkMessageRow "INBOX" 17 "r1" 4 9 "Subject: hi" "<1@x>" 0 "[]" "[]" "{}" "" ""], None)
}.

Definition import_options (commit : bool) : Options := MkOptions "did:plc:alice" "inbox" commit.
Definition new_world : memory_world := MkMemoryWorld alice NewBackend.

Definition opened_world : memory_world := MkMemoryWorld alice example_backend.
Definition first_report : Report := new_report (import_options true).

Lemma example_migration : (Run (import_options true) new_world).1.2 = None.
Proof. vm_compute. reflexivity. Qed.
Lemma example_commit : (run_commit example_target legacy_space first_report opened_world).1.2 = None.
Proof. vm_compute. reflexivity. Qed.

Lemma outcome_pair {A B C} (p : A * B * C) (b : B) : p.1.2 = b → p = ((p.1.1, b), p.2).
Proof. destruct p as [[a b'] c]. by intros <-. Qed.

Lemma migration_reconstructs_witness :
  ∃ messages folders,
    mirrors (Run (import_options true) new_world).2
      (rtTarget (Run (import_options true) new_world).1.1) messages folders ∧
    List.length messages = 1%nat ∧ List.length folders = 1%nat.
Proof.
  destruct (migration_reconstructs (import_options true) new_world _ _ eq_refl
    (outcome_pair _ _ example_migration)) as (inv & messages & folders & Hi & _ & Hst & Hfo & Hm).
  exists messages, folders. split; [exact Hm|].
  injection Hi as <-. injection Hst as <-. injection Hfo as <-. split; reflexivity.
Defined.

Lemma migration_only_adds_witness : (Run (import_options false) new_world).2 = new_world.
Proof. apply (migration_only_adds (import_options false) new_world). reflexivity. Defined.

Lemma migration_idempotent_witness :
  let w' := (run_commit example_target legacy_space first_report opened_world).2 in
  ∃ again', run_commit example_target legacy_space first_report w' = ((again', None), w') ∧
    rtCreatedMessages again' = 0%Z.
Proof.
  destruct (migration_idempotent example_target legacy_space first_report _ first_report opened_world _
    [MkSourceMessage "r1" "inbox" (MkImportedMessage "did:plc:alice" "legacy:r1"
      "Subject: hi" "INBOX" [] "<1@x>" zero_time "" [] [] false 4 17 9 zero_time)]
    [MkSourceFolder "INBOX" "inbox" 17 5 (NewFolder "INBOX" "inbox" 17)]
    (outcome_pair _ _ example_commit) eq_refl eq_refl) as (again' & Hr & _ & Hm);
    [apply NoDup_singleton|apply NoDup_singleton|].
  exists again'. split; [exact Hr|exact Hm].
Defined.
