(* ===== verification/Canonical.v ===== *)
(** * internal/mailboxstate/revision.go: canonical bytes and record keys

    The records of the append-only message-state stream, their provider-neutral canonical
    encoding, and the record keys derived from it: a revision key commits to the repository
    and to every field of the record, an operation-claim key only to repository, logical
    message and operation. *)
From S2P Require Import Prelude Sha256 GoStd Syntax.

(** ** Limits *)

Definition maxParents : N := 64.
Definition maxKeywords : N := 128.
Definition maxMailboxes : N := 32.
Definition maxIdentifierBytes : N := 512.
Definition maxOperationIDBytes : N := 128.
Definition maxRevisionCount : N := 4096.
Definition maxRevisionRecordBytes : N := 128 * 1024.
Definition maxRevisionInventoryBytes : N := 8 * 1024 * 1024.
Definition maxPortableRevision : N := 9007199254740991.

Definition MessageStateRevisionCollection : string := "email.atmos.messageStateRevision".
Definition MessageStateOperationCollection : string := "email.atmos.messageStateOperation".

(** ** Records *)

Record KeywordAssignment : Type := MkKeywordAssignment {
  kaName : string;
  kaPresent : bool
}.

(** Slices whose nil-ness the code observes are [slice]s; [*bool] is [option bool];
    [Revision] is a uint64. *)
Record RevisionRecord : Type := MkRevisionRecord {
  rrType : string;
  rrLogicalMessageID : string;
  rrOperationID : string;
  rrParents : slice string;
  rrRevision : N;
  rrVersion : string;
  rrMailboxIDs : slice string;
  rrKeywords : slice KeywordAssignment;
  rrDeletePending : option bool;
  rrTombstone : bool;
  rrMerge : bool;
  rrCreatedAt : string
}.

Record StateRevision : Type := MkStateRevision {
  srRKey : string;
  srRecord : RevisionRecord
}.

Record OperationClaimRecord : Type := MkOperationClaimRecord {
  ocType : string;
  ocLogicalMessageID : string;
  ocOperationID : string;
  ocRevisionRKey : string
}.

Record OperationClaim : Type := MkOperationClaim {
  ocRKey : string;
  ocRecord : OperationClaimRecord
}.

#[export] Instance KeywordAssignment_eq_dec : EqDecision KeywordAssignment.
Proof. solve_decision. Defined.
#[export] Instance RevisionRecord_eq_dec : EqDecision RevisionRecord.
Proof. solve_decision. Defined.
#[export] Instance StateRevision_eq_dec : EqDecision StateRevision.
Proof. solve_decision. Defined.
#[export] Instance OperationClaimRecord_eq_dec : EqDecision OperationClaimRecord.
Proof. solve_decision. Defined.
#[export] Instance OperationClaim_eq_dec : EqDecision OperationClaim.
Proof. solve_decision. Defined.

Definition set_rrCreatedAt (r : RevisionRecord) (at_ : string) : RevisionRecord :=
  MkRevisionRecord (rrType r) (rrLogicalMessageID r) (rrOperationID r) (rrParents r)
    (rrRevision r) (rrVersion r) (rrMailboxIDs r) (rrKeywords r) (rrDeletePending r)
    (rrTombstone r) (rrMerge r) at_.

(** ** Identifier tests *)

Definition blank_chars : string := of_byte_values [32; 9; 13; 10; 0].
Definition newline_chars : string := of_byte_values [13; 10; 0].

Definition validIdentifier (value : string) (limit : N) : bool :=
  negb (String.eqb value "") && (len value <=? limit) && utf8_valid value &&
  negb (ContainsAny value blank_chars).

Definition validText (value : string) (limit : N) : bool :=
  negb (String.eqb value "") && (len value <=? limit) && utf8_valid value &&
  negb (ContainsAny value newline_chars).

Definition validSHA256Identifier (value : string) : bool :=
  if negb (len value =? len "sha256-" + 64) || negb (HasPrefix value "sha256-") then false
  else
    let encoded := TrimPrefix value "sha256-" in
    hex_decodable encoded && String.eqb encoded (ToLower encoded).

Definition validStateRKey (value : string) : bool :=
  if negb (len value =? len "state-" + 64) || negb (HasPrefix value "state-") then false
  else hex_decodable (TrimPrefix value "state-").

Definition validCanonicalDID `{Syntax} (value : string) : bool :=
  match ParseDID value with
  | Some did => String.eqb did value
  | None => false
  end.

(** ** The canonical writer *)

Definition canonicalWriter : Type := string.
Definition new_writer : canonicalWriter := "".
Definition writer_raw (w : canonicalWriter) (value : string) : canonicalWriter := w +:+ value.
Definition writer_byte (w : canonicalWriter) (value : N) : canonicalWriter := w +:+ byte value.
Definition writer_boolean (w : canonicalWriter) (value : bool) : canonicalWriter :=
  if value then writer_byte w 1 else writer_byte w 0.
Definition writer_uint64 (w : canonicalWriter) (value : N) : canonicalWriter := w +:+ uvarint value.
Definition writer_string (w : canonicalWriter) (value : string) : canonicalWriter :=
  writer_uint64 w (len value) +:+ value.
Definition writer_strings (w : canonicalWriter) (values : list string) : canonicalWriter :=
  fold_left writer_string values (writer_uint64 w (llen values)).

Definition digestBytes (encoded : string) : string := "sha256-" +:+ hex_encode (sha256 encoded).
Definition digestStringList (domain : string) (values : list string) : string :=
  digestBytes (writer_strings (writer_raw new_writer domain) values).

(** ** CanonicalRevisionBytes *)

(** The two tests every string of a record goes through. *)
Definition bounded_utf8 (limit : N) (value : string) : result unit :=
  fail_if limit <? len value with ErrResourceLimit ;;
  fail_if negb (utf8_valid value) with ErrInvalidRevision ;;
  Ok tt.

Definition revision_domain : string := "comail-message-state-revision-canonical-v1" +:+ NUL.

Definition writer_keyword (w : canonicalWriter) (k : KeywordAssignment) : canonicalWriter :=
  writer_boolean (writer_string w (kaName k)) (kaPresent k).

Definition encode_revision (record : RevisionRecord) : string :=
  let w := writer_raw new_writer revision_domain in
  let w := writer_string w (rrType record) in
  let w := writer_string w (rrLogicalMessageID record) in
  let w := writer_string w (rrOperationID record) in
  let w := writer_strings w (elems (rrParents record)) in
  let w := writer_uint64 w (rrRevision record) in
  let w := writer_string w (rrVersion record) in
  let w := match rrMailboxIDs record with
           | None => writer_byte w 0
           | Some ids => writer_strings (writer_byte w 1) ids
           end in
  let w := writer_uint64 w (llen (elems (rrKeywords record))) in
  let w := fold_left writer_keyword (elems (rrKeywords record)) w in
  let w := match rrDeletePending record with
           | None => writer_byte w 0
           | Some false => writer_byte w 1
           | Some true => writer_byte w 2
           end in
  let w := writer_boolean w (rrTombstone record) in
  let w := writer_boolean w (rrMerge record) in
  writer_string w (rrCreatedAt record).

Definition CanonicalRevisionBytes (record : RevisionRecord) : result string :=
  fail_if (maxIdentifierBytes <? len (rrType record)) ||
    (maxIdentifierBytes <? len (rrLogicalMessageID record)) ||
    (maxOperationIDBytes <? len (rrOperationID record)) ||
    (maxParents <? llen (elems (rrParents record))) ||
    (maxIdentifierBytes <? len (rrVersion record)) ||
    (maxMailboxes <? llen (elems (rrMailboxIDs record))) ||
    (maxKeywords <? llen (elems (rrKeywords record))) ||
    (maxIdentifierBytes <? len (rrCreatedAt record)) with ErrResourceLimit ;;
  fail_if negb (utf8_valid (rrType record)) || negb (utf8_valid (rrLogicalMessageID record)) ||
    negb (utf8_valid (rrOperationID record)) || negb (utf8_valid (rrVersion record)) ||
    negb (utf8_valid (rrCreatedAt record)) with ErrInvalidRevision ;;
  let? _ := range_check (bounded_utf8 maxIdentifierBytes) (elems (rrParents record)) in
  let? _ := range_check (bounded_utf8 maxIdentifierBytes) (elems (rrMailboxIDs record)) in
  let? _ := range_check (λ k, bounded_utf8 255 (kaName k)) (elems (rrKeywords record)) in
  let encoded := encode_revision record in
  fail_if maxRevisionRecordBytes <? len encoded with ErrResourceLimit ;;
  Ok encoded.

(** ** Record keys *)

Section keys.
Context `{Syntax}.

Definition revision_preimage (repoDID encoded : string) : string :=
  ("comail-message-state-revision-rkey-v1" +:+ NUL) +:+ repoDID +:+ NUL +:+ encoded.

Definition StateRevisionRKey (repoDID : string) (record : RevisionRecord) : result string :=
  fail_if negb (validCanonicalDID repoDID) ||
    negb (validSHA256Identifier (rrLogicalMessageID record)) ||
    negb (validIdentifier (rrOperationID record) maxOperationIDBytes) with ErrInvalidRevision ;;
  let? encoded := CanonicalRevisionBytes record in
  Ok ("state-" +:+ hex_encode (sha256 (revision_preimage repoDID encoded))).

Definition claim_preimage (repoDID logicalMessageID operationID : string) : string :=
  ("comail-message-state-operation-v1" +:+ NUL) +:+ repoDID +:+ NUL +:+
  logicalMessageID +:+ NUL +:+ operationID.

Definition OperationClaimRKey (repoDID logicalMessageID operationID : string) : result string :=
  fail_if negb (validCanonicalDID repoDID) || negb (validSHA256Identifier logicalMessageID) ||
    negb (validIdentifier operationID maxOperationIDBytes) with ErrInvalidRevision ;;
  Ok ("operation-" +:+ hex_encode (sha256 (claim_preimage repoDID logicalMessageID operationID))).

Definition NewOperationClaim (repoDID : string) (revision : StateRevision) : result OperationClaim :=
  let? revisionRKey := or_error (StateRevisionRKey repoDID (srRecord revision)) ErrInvalidRevision in
  fail_if negb (String.eqb (srRKey revision) revisionRKey) with ErrInvalidRevision ;;
  let? claimRKey := OperationClaimRKey repoDID (rrLogicalMessageID (srRecord revision))
                      (rrOperationID (srRecord revision)) in
  Ok (MkOperationClaim claimRKey
        (MkOperationClaimRecord MessageStateOperationCollection
           (rrLogicalMessageID (srRecord revision)) (rrOperationID (srRecord revision))
           (srRKey revision))).

(** [reflect.DeepEqual] on these records is equality of the model's values: it tells a nil
    slice from an empty one and compares what a pointer points to. *)
Definition VerifyOperationClaimRetry (expected stored : OperationClaim) : result unit :=
  fail_if negb (bool_decide (expected = stored)) with ErrOperationCollision ;; Ok tt.

Definition VerifyRevisionRetry (repoDID : string) (expected stored : StateRevision) : result unit :=
  match StateRevisionRKey repoDID (srRecord expected), StateRevisionRKey repoDID (srRecord stored) with
  | Ok expectedKey, Ok storedKey =>
      fail_if negb (String.eqb (srRKey expected) expectedKey) ||
        negb (String.eqb (srRKey stored) storedKey) ||
        negb (bool_decide (set_rrCreatedAt (srRecord expected) "" = set_rrCreatedAt (srRecord stored) ""))
        with ErrOperationCollision ;;
      Ok tt
  | _, _ => Err ErrOperationCollision
  end.

End keys.

(** ** Encodings as concatenations *)

Fixpoint concat_map {A} (enc : A → string) (l : list A) : string :=
  match l with
  | [] => ""
  | a :: l' => enc a +:+ concat_map enc l'
  end.
Definition enc_string (v : string) : string := uvarint (len v) +:+ v.
Definition enc_bool (b : bool) : string := byte (if b then 1 else 0).
Definition enc_keyword (k : KeywordAssignment) : string :=
  enc_string (kaName k) +:+ enc_bool (kaPresent k).
Definition enc_list {A} (enc : A → string) (l : list A) : string :=
  uvarint (llen l) +:+ concat_map enc l.
Definition enc_opt_list {A} (enc : A → string) (s : slice A) : string :=
  match s with None => byte 0 | Some l => byte 1 +:+ enc_list enc l end.
Definition enc_opt_bool (b : option bool) : string :=
  byte (match b with None => 0 | Some false => 1 | Some true => 2 end).

Lemma writer_string_app w v : writer_string w v = w +:+ enc_string v.
Proof. unfold writer_string, writer_uint64, enc_string. by rewrite app_assoc_s. Qed.

Lemma fold_writer_app {A} (write : canonicalWriter → A → canonicalWriter) enc l w :
  (∀ w a, write w a = w +:+ enc a) → fold_left write l w = w +:+ concat_map enc l.
Proof.
  intros Hw. revert w. induction l as [|a l IH]; intros w; simpl; [by rewrite app_nil_r_s|].
  rewrite IH, Hw. apply app_assoc_s.
Qed.

Lemma writer_strings_app w vs : writer_strings w vs = w +:+ enc_list enc_string vs.
Proof.
  unfold writer_strings, writer_uint64, enc_list.
  rewrite (fold_writer_app _ enc_string) by apply writer_string_app. apply app_assoc_s.
Qed.

Lemma writer_boolean_app w b : writer_boolean w b = w +:+ enc_bool b.
Proof. by destruct b. Qed.

Lemma writer_keyword_app w k : writer_keyword w k = w +:+ enc_keyword k.
Proof.
  unfold writer_keyword, enc_keyword. by rewrite writer_boolean_app, writer_string_app, app_assoc_s.
Qed.

#[export] Instance enc_string_prefix_free : PrefixFree (λ v, len v < 2 ^ 64) enc_string.
Proof.
  intros x y s t Hx Hy H. unfold enc_string in H. rewrite !app_assoc_s in H.
  apply (prefix_free (enc := uvarint)) in H as [Hl H]; [|done..]. by apply app_inj_len.
Qed.

#[export] Instance enc_bool_prefix_free : PrefixFree (λ _, True) enc_bool.
Proof. intros [] [] s t _ _ H; apply byte_inj in H as [? ?]; by try lia. Qed.

#[export] Instance enc_opt_bool_prefix_free : PrefixFree (λ _, True) enc_opt_bool.
Proof. intros [[]|] [[]|] s t _ _ H; apply byte_inj in H as [? ?]; by try lia. Qed.

#[export] Instance enc_keyword_prefix_free : PrefixFree (λ k, len (kaName k) < 2 ^ 64) enc_keyword.
Proof.
  intros [x b] [y c] s t Hx Hy H. unfold enc_keyword in H. rewrite !app_assoc_s in H.
  apply (prefix_free (enc := enc_string)) in H as [Hn H]; [|done..].
  apply (prefix_free (enc := enc_bool)) in H as [Hb H]; [|done..]. simpl in *. by subst.
Qed.

Lemma concat_map_inj {A} (P : A → Prop) enc `{!PrefixFree P enc} l k s t :
  List.length l = List.length k → Forall P l → Forall P k →
  concat_map enc l +:+ s = concat_map enc k +:+ t → l = k ∧ s = t.
Proof.
  revert k. induction l as [|a l IH]; intros [|b k] Hlen Hl Hk H; try done.
  simpl in H. rewrite !app_assoc_s in H. inversion Hl. inversion Hk. subst.
  apply (prefix_free (enc := enc)) in H as [-> H]; [|done..].
  destruct (IH k) as [-> ->]; auto.
Qed.

#[export] Instance enc_list_prefix_free {A} (P : A → Prop) enc `{!PrefixFree P enc} :
  PrefixFree (λ l, llen l < 2 ^ 64 ∧ Forall P l) (enc_list enc).
Proof.
  intros l k s t [Hl Fl] [Hk Fk] H. unfold enc_list in H. rewrite !app_assoc_s in H.
  apply (prefix_free (enc := uvarint)) in H as [Hn H]; [|done..].
  eapply concat_map_inj in H; [done|done| |done..]. unfold llen in Hn. lia.
Qed.

#[export] Instance enc_opt_list_prefix_free {A} (P : A → Prop) enc `{!PrefixFree P enc} :
  PrefixFree (λ s, llen (elems s) < 2 ^ 64 ∧ Forall P (elems s)) (enc_opt_list enc).
Proof.
  intros [l|] [k|] s t Hl Hk H; unfold enc_opt_list in H; rewrite ?app_assoc_s in H;
    apply byte_inj in H as [? H]; try lia; [|done].
  apply (prefix_free (enc := enc_list enc)) in H as [-> ->]; done.
Qed.

(** Reads one field off both sides of an equation between two encodings. *)
Ltac peel H E :=
  apply prefix_free in H as [E H]; [|solve [eauto with golib lia]..].

Definition revision_fields (r : RevisionRecord) : string :=
  enc_string (rrType r) +:+ enc_string (rrLogicalMessageID r) +:+ enc_string (rrOperationID r) +:+
  enc_list enc_string (elems (rrParents r)) +:+ uvarint (rrRevision r) +:+
  enc_string (rrVersion r) +:+ enc_opt_list enc_string (rrMailboxIDs r) +:+
  enc_list enc_keyword (elems (rrKeywords r)) +:+ enc_opt_bool (rrDeletePending r) +:+
  enc_bool (rrTombstone r) +:+ enc_bool (rrMerge r) +:+ enc_string (rrCreatedAt r).

Lemma encode_revision_app r : encode_revision r = revision_domain +:+ revision_fields r.
Proof.
  unfold encode_revision, revision_fields, new_writer, writer_raw.
  rewrite !writer_string_app, !writer_boolean_app, (fold_writer_app _ _ _ _ writer_keyword_app).
  unfold writer_uint64. rewrite writer_strings_app.
  destruct (rrMailboxIDs r), (rrDeletePending r) as [[]|];
    rewrite ?writer_strings_app; unfold writer_byte, enc_opt_list, enc_opt_bool;
    unfold enc_list; rewrite ?app_assoc_s; reflexivity.
Qed.

(** ** What a successful encoding guarantees *)

Definition short (limit : N) (v : string) : Prop := len v ≤ limit ∧ utf8_valid v = true.

Record revision_fits (r : RevisionRecord) : Prop := {
  fits_type : len (rrType r) ≤ maxIdentifierBytes;
  fits_message : len (rrLogicalMessageID r) ≤ maxIdentifierBytes;
  fits_operation : len (rrOperationID r) ≤ maxOperationIDBytes;
  fits_version : len (rrVersion r) ≤ maxIdentifierBytes;
  fits_created : len (rrCreatedAt r) ≤ maxIdentifierBytes;
  fits_parents : llen (elems (rrParents r)) ≤ maxParents ∧
    Forall (short maxIdentifierBytes) (elems (rrParents r));
  fits_mailboxes : llen (elems (rrMailboxIDs r)) ≤ maxMailboxes ∧
    Forall (short maxIdentifierBytes) (elems (rrMailboxIDs r));
  fits_keywords : llen (elems (rrKeywords r)) ≤ maxKeywords ∧
    Forall (λ k, short 255 (kaName k)) (elems (rrKeywords r))
}.

Lemma bounded_utf8_ok limit v : bounded_utf8 limit v = Ok tt → short limit v.
Proof. unfold bounded_utf8. intros H. result_steps. bools. done. Qed.

Lemma range_bounded_utf8 {A} (f : A → string) limit l :
  range_check (λ a, bounded_utf8 limit (f a)) l = Ok tt → Forall (λ a, short limit (f a)) l.
Proof.
  intros H%range_check_ok. eapply Forall_impl; [exact H|]. intros a. apply bounded_utf8_ok.
Qed.

Lemma CanonicalRevisionBytes_ok r b :
  CanonicalRevisionBytes r = Ok b →
  b = encode_revision r ∧ revision_fits r ∧ len b ≤ maxRevisionRecordBytes.
Proof.
  unfold CanonicalRevisionBytes. intros H. result_steps. bools.
  repeat match goal with u : unit |- _ => destruct u end.
  split_and!; [done| |done].
  split; try done; (split; [done|]); by apply (range_bounded_utf8 _).
Qed.

(** The wire encoding does not tell a nil slice of parents or keywords from an empty one. *)
Definition normal_revision (r : RevisionRecord) : RevisionRecord :=
  MkRevisionRecord (rrType r) (rrLogicalMessageID r) (rrOperationID r)
    (Some (elems (rrParents r))) (rrRevision r) (rrVersion r) (rrMailboxIDs r)
    (Some (elems (rrKeywords r))) (rrDeletePending r) (rrTombstone r) (rrMerge r)
    (rrCreatedAt r).

(** [Revision] is a uint64. *)
Definition revision_typed (r : RevisionRecord) : Prop := rrRevision r < 2 ^ 64.

Lemma small_u64 n limit : n ≤ limit → limit < 2 ^ 64 → n < 2 ^ 64.
Proof. lia. Qed.

Lemma short_small limit l :
  limit < 2 ^ 64 → Forall (short limit) l → Forall (λ v, len v < 2 ^ 64) l.
Proof. intros Hl HF. eapply Forall_impl; [exact HF|]. intros v [? _]. lia. Qed.

Lemma short_small_kw limit l :
  limit < 2 ^ 64 → Forall (λ k, short limit (kaName k)) l → Forall (λ k, len (kaName k) < 2 ^ 64) l.
Proof. intros Hl HF. eapply Forall_impl; [exact HF|]. intros v [? _]. lia. Qed.

Record revision_small (r : RevisionRecord) : Prop := {
  small_type : len (rrType r) < 2 ^ 64;
  small_message : len (rrLogicalMessageID r) < 2 ^ 64;
  small_operation : len (rrOperationID r) < 2 ^ 64;
  small_version : len (rrVersion r) < 2 ^ 64;
  small_created : len (rrCreatedAt r) < 2 ^ 64;
  small_parents : llen (elems (rrParents r)) < 2 ^ 64 ∧
    Forall (λ v, len v < 2 ^ 64) (elems (rrParents r));
  small_mailboxes : llen (elems (rrMailboxIDs r)) < 2 ^ 64 ∧
    Forall (λ v, len v < 2 ^ 64) (elems (rrMailboxIDs r));
  small_keywords : llen (elems (rrKeywords r)) < 2 ^ 64 ∧
    Forall (λ k, len (kaName k) < 2 ^ 64) (elems (rrKeywords r))
}.

Lemma fits_small r : revision_fits r → revision_small r.
Proof.
  intros [? ? ? ? ? [? ?] [? ?] [? ?]].
  split; try split; try (eapply small_u64; [eassumption|by vm_compute]).
  all: first [eapply short_small|eapply short_small_kw]; [|eassumption]; by vm_compute.
Qed.

#[export] Hint Resolve small_type small_message small_operation small_version small_created
  small_parents small_mailboxes small_keywords : golib.

Lemma revision_fields_inj r1 r2 :
  revision_small r1 → revision_small r2 → revision_typed r1 → revision_typed r2 →
  revision_fields r1 = revision_fields r2 → normal_revision r1 = normal_revision r2.
Proof.
  unfold revision_typed, revision_fields. intros S1 S2 T1 T2 H.
  peel H E1. peel H E2. peel H E3. peel H E4. peel H E5. peel H E6. peel H E7. peel H E8.
  peel H E9. peel H E10. peel H E11.
  rewrite <- (app_nil_r_s (enc_string (rrCreatedAt r1))) in H.
  rewrite <- (app_nil_r_s (enc_string (rrCreatedAt r2))) in H. peel H E12.
  unfold normal_revision. congruence.
Qed.

(** The canonical bytes determine the record, up to nil against empty slices. *)
Lemma canonical_injective r1 r2 b :
  revision_typed r1 → revision_typed r2 →
  CanonicalRevisionBytes r1 = Ok b → CanonicalRevisionBytes r2 = Ok b →
  normal_revision r1 = normal_revision r2.
Proof.
  intros T1 T2 (-> & F1 & _)%CanonicalRevisionBytes_ok (H & F2 & _)%CanonicalRevisionBytes_ok.
  rewrite !encode_revision_app in H. apply app_inj_r in H.
  apply revision_fields_inj; auto using fits_small.
Qed.

(** ** Identifiers *)

Lemma digestBytes_valid b : validSHA256Identifier (digestBytes b) = true.
Proof.
  unfold validSHA256Identifier, digestBytes. autorewrite with golib_rw.
  rewrite N.eqb_refl. simpl. by rewrite hex_decodable_encode, String.eqb_refl.
Qed.

Lemma digestBytes_inj x y : digestBytes x = digestBytes y → x = y ∨ collision x y.
Proof. intros H%app_inj_r. by apply hex_sha256_inj. Qed.

Lemma validSHA256Identifier_no_nul v : validSHA256Identifier v = true → no_nul v.
Proof.
  unfold validSHA256Identifier. case_match; [done|]. intros H1. bools.
  apply HasPrefix_spec in H0 as [r ->]. rewrite TrimPrefix_app in *.
  assert (Hr : ∀ t, hex_decodable t = true → has_byte "000" t = false).
  2: { unfold no_nul. simpl. by apply Hr. }
  clear. fix IH 1. intros [|c [|d t]]; [done|done|].
  unfold hex_decodable. cbn [hex_decode has_byte].
  destruct (hex_value c) eqn:Ec; [|done]. destruct (hex_value d) eqn:Ed; [|done].
  destruct (hex_decode t) eqn:Et; [|done]. intros _.
  rewrite (IH t) by (unfold hex_decodable; by rewrite Et). clear IH.
  rewrite orb_false_r. apply orb_false_iff. split.
  - clear Ed. revert Ec. each_byte c.
  - clear Ec. revert Ed. each_byte d.
Qed.

Lemma validIdentifier_no_nul v limit : validIdentifier v limit = true → no_nul v.
Proof.
  unfold validIdentifier, ContainsAny. intros H. bools. unfold no_nul.
  eapply all_bytes_has_byte; [eassumption|done].
Qed.

Lemma validCanonicalDID_no_nul `{SyntaxLaws} v : validCanonicalDID v = true → no_nul v.
Proof. unfold validCanonicalDID. case_match; [|done]. intros _. by eapply ParseDID_no_nul. Qed.

Section key_lemmas.
Context `{SyntaxLaws}.

Lemma StateRevisionRKey_ok repoDID r k :
  StateRevisionRKey repoDID r = Ok k →
  validCanonicalDID repoDID = true ∧ validSHA256Identifier (rrLogicalMessageID r) = true ∧
  validIdentifier (rrOperationID r) maxOperationIDBytes = true ∧
  CanonicalRevisionBytes r = Ok (encode_revision r) ∧
  k = "state-" +:+ hex_encode (sha256 (revision_preimage repoDID (encode_revision r))).
Proof.
  unfold StateRevisionRKey. intros Hk. result_steps. bools.
  destruct (CanonicalRevisionBytes_ok _ _ Heqr0) as (-> & _ & _). done.
Qed.

Lemma OperationClaimRKey_ok repoDID m o k :
  OperationClaimRKey repoDID m o = Ok k →
  validCanonicalDID repoDID = true ∧ validSHA256Identifier m = true ∧
  validIdentifier o maxOperationIDBytes = true ∧
  k = "operation-" +:+ hex_encode (sha256 (claim_preimage repoDID m o)).
Proof. unfold OperationClaimRKey. intros Hk. result_steps. bools. done. Qed.

Lemma NewOperationClaim_ok repoDID e c :
  NewOperationClaim repoDID e = Ok c →
  StateRevisionRKey repoDID (srRecord e) = Ok (srRKey e) ∧
  OperationClaimRKey repoDID (rrLogicalMessageID (srRecord e)) (rrOperationID (srRecord e)) =
    Ok (ocRKey c) ∧
  ocRecord c = MkOperationClaimRecord MessageStateOperationCollection
    (rrLogicalMessageID (srRecord e)) (rrOperationID (srRecord e)) (srRKey e).
Proof.
  unfold NewOperationClaim. intros Hc. result_steps. bools. subst. simpl. done.
Qed.

Lemma revision_preimage_inj d1 d2 b1 b2 :
  no_nul d1 → no_nul d2 → revision_preimage d1 b1 = revision_preimage d2 b2 → d1 = d2 ∧ b1 = b2.
Proof. intros H1 H2 He%app_inj_r. by apply nul_terminated_inj. Qed.

Lemma claim_preimage_inj d1 d2 m1 m2 o1 o2 :
  no_nul d1 → no_nul d2 → no_nul m1 → no_nul m2 →
  claim_preimage d1 m1 o1 = claim_preimage d2 m2 o2 → d1 = d2 ∧ m1 = m2 ∧ o1 = o2.
Proof.
  intros H1 H2 H3 H4 He%app_inj_r. apply nul_terminated_inj in He as [-> He]; [|done..].
  apply nul_terminated_inj in He as [-> He]; done.
Qed.

Lemma revision_key_inj d1 d2 r1 r2 k :
  revision_typed r1 → revision_typed r2 →
  StateRevisionRKey d1 r1 = Ok k → StateRevisionRKey d2 r2 = Ok k →
  (d1 = d2 ∧ normal_revision r1 = normal_revision r2) ∨
  collision (revision_preimage d1 (encode_revision r1)) (revision_preimage d2 (encode_revision r2)).
Proof.
  intros T1 T2 (V1 & _ & _ & C1 & E1)%StateRevisionRKey_ok (V2 & _ & _ & C2 & E2)%StateRevisionRKey_ok.
  rewrite E1 in E2. apply app_inj_r, hex_sha256_inj in E2 as [E|]; [left|by right].
  apply revision_preimage_inj in E as [-> E]; [|by eapply validCanonicalDID_no_nul..].
  split; [done|]. rewrite E in C1. by eapply canonical_injective.
Qed.

Lemma claim_key_inj d1 d2 m1 m2 o1 o2 k :
  OperationClaimRKey d1 m1 o1 = Ok k → OperationClaimRKey d2 m2 o2 = Ok k →
  (d1 = d2 ∧ m1 = m2 ∧ o1 = o2) ∨ collision (claim_preimage d1 m1 o1) (claim_preimage d2 m2 o2).
Proof.
  intros (V1 & M1 & _ & E1)%OperationClaimRKey_ok (V2 & M2 & _ & E2)%OperationClaimRKey_ok.
  rewrite E1 in E2. apply app_inj_r, hex_sha256_inj in E2 as [E|]; [left|by right].
  apply claim_preimage_inj in E;
    eauto using validCanonicalDID_no_nul, validSHA256Identifier_no_nul.
Qed.

Lemma NewOperationClaim_total repoDID e :
  StateRevisionRKey repoDID (srRecord e) = Ok (srRKey e) → ∃ c, NewOperationClaim repoDID e = Ok c.
Proof.
  intros Hk. unfold NewOperationClaim. rewrite Hk. simpl. rewrite String.eqb_refl. simpl.
  apply StateRevisionRKey_ok in Hk as (V1 & V2 & V3 & _).
  unfold OperationClaimRKey. rewrite V1, V2, V3. simpl. eauto.
Qed.

End key_lemmas.

(** ** Properties *)

(** A root revision of a message, used by the witnesses below. *)
Definition example_did : string := "did:plc:alice".
Definition example_message : string := digestBytes "message".
Definition example_root : RevisionRecord :=
  MkRevisionRecord MessageStateRevisionCollection example_message "op-1" (Some []) 1
    (digestBytes "version") (Some ["folder-" +:+ hex_encode (sha256 "inbox")])
    None (Some false) false false "2024-01-02T03:04:05Z".
(** The same revision with an empty, instead of an absent, keyword list. *)
Definition example_root_empty_keywords : RevisionRecord :=
  MkRevisionRecord MessageStateRevisionCollection example_message "op-1" (Some []) 1
    (digestBytes "version") (Some ["folder-" +:+ hex_encode (sha256 "inbox")])
    (Some []) (Some false) false false "2024-01-02T03:04:05Z".
(** The same operation carrying another payload. *)
Definition example_root_flagged : RevisionRecord :=
  MkRevisionRecord MessageStateRevisionCollection example_message "op-1" (Some []) 1
    (digestBytes "version") (Some ["folder-" +:+ hex_encode (sha256 "inbox")])
    (Some [MkKeywordAssignment "$flagged" true]) (Some false) false false "2024-01-02T03:04:06Z".

Definition with_key `{Syntax} (repoDID : string) (r : RevisionRecord) : StateRevision :=
  MkStateRevision (match StateRevisionRKey repoDID r with Ok k => k | Err _ => "" end) r.

(** [CanonicalRevisionBytes] is a faithful encoding: when a record encodes to some bytes,
    another record encodes to the same bytes exactly when the two agree in every field, a nil
    slice of parents or keywords counting as an empty one. *)
Theorem canonical_bytes_iff (r1 r2 : RevisionRecord) (b : string)
    (T1 : revision_typed r1) (T2 : revision_typed r2) (H : CanonicalRevisionBytes r1 = Ok b) :
  CanonicalRevisionBytes r2 = Ok b ↔ normal_revision r1 = normal_revision r2.
Proof.
  split; [by eapply canonical_injective|]. intros E.
  change (CanonicalRevisionBytes (normal_revision r1) = Ok b) in H. by rewrite E in H.
Qed.

Lemma canonical_bytes_iff_witness :
  CanonicalRevisionBytes example_root_empty_keywords = Ok (encode_revision example_root) ↔
  normal_revision example_root = normal_revision example_root_empty_keywords.
Proof. apply canonical_bytes_iff; by vm_compute. Defined.

(** A revision's record key commits to the author repository and to the whole event: two
    events with the same key are the same event of the same repository, or their two hashed
    preimages are an explicit SHA-256 collision. *)
Theorem revision_key_binds `{SyntaxLaws} (d1 d2 : string) (r1 r2 : RevisionRecord) (k : string)
    (T1 : revision_typed r1) (T2 : revision_typed r2)
    (H1 : StateRevisionRKey d1 r1 = Ok k) (H2 : StateRevisionRKey d2 r2 = Ok k) :
  (d1 = d2 ∧ normal_revision r1 = normal_revision r2) ∨
  collision (revision_preimage d1 (encode_revision r1)) (revision_preimage d2 (encode_revision r2)).
Proof. by eapply revision_key_inj. Qed.

Lemma revision_key_binds_witness :
  (example_did = example_did ∧
   normal_revision example_root = normal_revision example_root_empty_keywords) ∨
  collision (revision_preimage example_did (encode_revision example_root))
    (revision_preimage example_did (encode_revision example_root_empty_keywords)).
Proof.
  apply (revision_key_binds _ _ _ _ (srRKey (with_key example_did example_root)));
    by vm_compute.
Defined.

(** An operation claim is exclusive: the claim records of two revisions of one repository
    that reuse a logical message and operation ID have the same record key, whatever their
    payload and time, and the retry test accepts the second claim only when both
    revisions carry the same event (or exhibit a SHA-256 collision). *)
Theorem operation_claim_exclusive `{SyntaxLaws} (repoDID : string) (e1 e2 : StateRevision)
    (c1 c2 : OperationClaim)
    (T1 : revision_typed (srRecord e1)) (T2 : revision_typed (srRecord e2))
    (H1 : NewOperationClaim repoDID e1 = Ok c1) (H2 : NewOperationClaim repoDID e2 = Ok c2)
    (Hm : rrLogicalMessageID (srRecord e1) = rrLogicalMessageID (srRecord e2))
    (Ho : rrOperationID (srRecord e1) = rrOperationID (srRecord e2)) :
  ocRKey c1 = ocRKey c2 ∧
  (VerifyOperationClaimRetry c1 c2 = Ok tt ∧
    (normal_revision (srRecord e1) = normal_revision (srRecord e2) ∨
     collision (revision_preimage repoDID (encode_revision (srRecord e1)))
       (revision_preimage repoDID (encode_revision (srRecord e2)))) ∨
   VerifyOperationClaimRetry c1 c2 = Err ErrOperationCollision ∧ srRKey e1 ≠ srRKey e2).
Proof.
  apply NewOperationClaim_ok in H1 as (K1 & C1 & R1), H2 as (K2 & C2 & R2).
  rewrite Hm, Ho, C2 in C1. injection C1 as Hk. split; [done|].
  unfold VerifyOperationClaimRetry. destruct (decide (srRKey e1 = srRKey e2)) as [E|E].
  - left. rewrite bool_decide_eq_true_2.
    2: { destruct c1, c2. simpl in *. congruence. }
    split; [done|]. rewrite E in K1.
    destruct (revision_key_inj _ _ _ _ _ T1 T2 K1 K2) as [[_ ?]|?]; auto.
  - right. rewrite bool_decide_eq_false_2; [done|]. intros ->. congruence.
Qed.

Lemma operation_claim_exclusive_witness :
  let c r := match NewOperationClaim example_did (with_key example_did r) with
             | Ok c => c | Err _ => MkOperationClaim "" (MkOperationClaimRecord "" "" "" "") end in
  VerifyOperationClaimRetry (c example_root) (c example_root_flagged) = Err ErrOperationCollision ∧
  ocRKey (c example_root) = ocRKey (c example_root_flagged).
Proof.
  intros c. split; [by vm_compute|].
  apply (operation_claim_exclusive example_did (with_key example_did example_root)
    (with_key example_did example_root_flagged)); by vm_compute.
Defined.

(** [VerifyRevisionRetry] accepts a lost-response replay exactly when both revisions carry
    their own record key and differ at most in [CreatedAt]; every other pair is reported as an
    operation collision. *)
Theorem revision_retry_iff `{Syntax} (repoDID : string) (expected stored : StateRevision) :
  (VerifyRevisionRetry repoDID expected stored = Ok tt ∨
   VerifyRevisionRetry repoDID expected stored = Err ErrOperationCollision) ∧
  (VerifyRevisionRetry repoDID expected stored = Ok tt ↔
    StateRevisionRKey repoDID (srRecord expected) = Ok (srRKey expected) ∧
    StateRevisionRKey repoDID (srRecord stored) = Ok (srRKey stored) ∧
    srRecord expected = set_rrCreatedAt (srRecord stored) (rrCreatedAt (srRecord expected))).
Proof.
  unfold VerifyRevisionRetry.
  destruct (StateRevisionRKey repoDID (srRecord expected)) as [k1|] eqn:K1,
    (StateRevisionRKey repoDID (srRecord stored)) as [k2|] eqn:K2;
    try (split; [by right|split; [done|intros (? & ? & _); congruence]]).
  destruct (String.eqb_spec (srRKey expected) k1) as [E1|E1],
    (String.eqb_spec (srRKey stored) k2) as [E2|E2]; simpl;
    try (split; [by right|split; [done|intros (? & ? & _); congruence]]).
  case_bool_decide as E; simpl.
  - split; [by left|]. split; [|done]. intros _. split_and!; [congruence..|].
    destruct (srRecord expected), (srRecord stored). unfold set_rrCreatedAt in *. simpl in *.
    congruence.
  - split; [by right|]. split; [done|]. intros (_ & _ & H3). exfalso. apply E. by rewrite H3.
Qed.
