(* ===== verification/Causal.v ===== *)
(** * Causal event streams

    Message states (revision.go) and folders (folder_revision.go) are both reduced from an
    append-only stream of immutable events that name their causal parents, and both reducers
    run the same passes: index the events, check the causal graph, order the events, propagate
    tombstones, fold.  The class [CausalEvent] is the interface the two event types share; the
    passes are written once over it, with the parts that differ as arguments, and so are
    their lemmas. *)
From S2P Require Import Prelude.

(** What the passes observe of an event. *)
Class CausalEvent (E : Type) : Type := {
  ce_key : E → string;
  ce_op : E → string;
  ce_parents : E → list string;
  ce_revision : E → N;
  ce_tombstone : E → bool;
  (** the event assigns something, which a tombstone among its ancestors forbids *)
  ce_live : E → bool
}.

Section passes.
Context {E : Type} `{CausalEvent E}.
Implicit Types l k d : list E.

(** ** First pass: every event on its own *)

Record scan_state : Type := MkScan {
  scByKey : gmap string E;
  scOperations : gset string;
  scTotalBytes : N
}.

(** [canonical_len] is the length of the event's canonical encoding, [accept] the checks on the
    event itself, [maxTotal] the byte budget of the inventory. *)
Definition scan_event (canonical_len : E → result N) (accept : E → result unit) (maxTotal : N)
    (s : scan_state) (event : E) : result scan_state :=
  fail_if bool_decide (ce_op event ∈ scOperations s) with ErrOperationCollision ;;
  fail_if bool_decide (is_Some (scByKey s !! ce_key event)) with ErrInvalidRevision ;;
  let? encoded := canonical_len event in
  let totalBytes := scTotalBytes s + encoded in
  fail_if maxTotal <? totalBytes with ErrResourceLimit ;;
  let? _ := accept event in
  Ok (MkScan (<[ce_key event := event]> (scByKey s))
        ({[ce_op event]} ∪ scOperations s) totalBytes).

(** ** Second pass: the causal graph *)

Record causal_state : Type := MkCausal {
  caParented : gset string;
  caRoots : N
}.

(** The loop over one event's parents: the greatest parent revision so far, and the keys that
    have a child. *)
Definition parent_step (byKey : gmap string E) (event : E)
    (s : N * gset string) (parentKey : string) : result (N * gset string) :=
  let? parent := opt_result (byKey !! parentKey) ErrMissingParent in
  fail_if ce_revision event <=? ce_revision parent with ErrInvalidRevision ;;
  Ok (N.max s.1 (ce_revision parent), {[parentKey]} ∪ s.2).

Definition causal_event (root_ok : E → bool) (byKey : gmap string E) (s : causal_state)
    (event : E) : result causal_state :=
  if llen (ce_parents event) =? 0 then
    fail_if negb (root_ok event) with ErrInvalidRevision ;;
    Ok (MkCausal (caParented s) (caRoots s + 1))
  else
    let? mp := range (parent_step byKey event) (ce_parents event) (0, caParented s) in
    fail_if negb (ce_revision event =? u64 (mp.1 + 1)) with ErrInvalidRevision ;;
    Ok (MkCausal mp.2 (caRoots s)).

(** ** Third pass: deterministic order and tombstones

    [slices.SortFunc] with the comparison by revision, then operation ID.  Operation IDs are
    unique at this point, so the sorted list does not depend on the sorting algorithm
    ([sort_events_unique]). *)
Definition event_le (a b : E) : Prop :=
  ce_revision a < ce_revision b ∨ (ce_revision a = ce_revision b ∧ str_le (ce_op a) (ce_op b)).

#[export] Instance event_le_dec : RelDecision event_le.
Proof. intros a b. unfold event_le. apply _. Defined.

Definition sort_events (revisions : list E) : list E := merge_sort event_le revisions.

Definition parent_tombstoned (causalTombstone : gmap string bool) (event : E) : bool :=
  fold_left (λ t parent, t || default false (causalTombstone !! parent)) (ce_parents event) false.

Definition tombstone_event (causalTombstone : gmap string bool) (event : E) :
    result (gmap string bool) :=
  let parentTombstoned := parent_tombstoned causalTombstone event in
  fail_if parentTombstoned && ce_live event with ErrInvalidRevision ;;
  Ok (<[ce_key event := parentTombstoned || ce_tombstone event]> causalTombstone).

(** The heads: the keys no event names as a parent, sorted. *)
Definition head_keys (parented : gset string) (events : list E) : list string :=
  sort_strings (filter (λ key, key ∉ parented) (ce_key <$> events)).

(** ** Specification *)

Definition by_key (l : list E) : gmap string E :=
  fold_left (λ m e, <[ce_key e := e]> m) l ∅.
Definition all_parents (l : list E) : gset string := list_to_set (l ≫= ce_parents).
Definition is_root (e : E) : Prop := ce_parents e = [].
#[export] Instance is_root_dec e : Decision (is_root e).
Proof. unfold is_root. apply _. Defined.

(** [p] is a parent of [e] in the inventory, and the proper ancestors this generates. *)
Definition parent_of (l : list E) (p e : E) : Prop := p ∈ l ∧ ce_key p ∈ ce_parents e.
Inductive ancestor (l : list E) (a : E) : E → Prop :=
  | ancestor_parent e : parent_of l a e → ancestor l a e
  | ancestor_step p e : ancestor l a p → parent_of l p e → ancestor l a e.

Definition tombstoned_before (l : list E) (e : E) : Prop :=
  ∃ a, ancestor l a e ∧ ce_tombstone a = true.

Definition parent_max (m : gmap string E) (ps : list string) (n : N) : N :=
  fold_left (λ n p, N.max n (from_option ce_revision 0 (m !! p))) ps n.

(** A non-root has its parents in the inventory, all strictly lower, and is one higher than
    the highest of them. *)
Definition causal_ok (root_ok : E → bool) (m : gmap string E) (e : E) : Prop :=
  if decide (is_root e) then root_ok e = true
  else
    (∀ p, p ∈ ce_parents e → ∃ pe, m !! p = Some pe ∧ ce_revision pe < ce_revision e) ∧
    ce_revision e = u64 (parent_max m (ce_parents e) 0 + 1).

Definition size_of (canonical_len : E → result N) (e : E) : N :=
  match canonical_len e with Ok n => n | Err _ => 0 end.
Definition total_size (canonical_len : E → result N) (l : list E) : N :=
  fold_left (λ n e, n + size_of canonical_len e) l 0.

Definition admissible (canonical_len : E → result N) (accept : E → result unit) (e : E) : Prop :=
  is_ok (canonical_len e) = true ∧ accept e = Ok tt.

(** What the first pass accepts. *)
Record scannable (canonical_len : E → result N) (accept : E → result unit) (maxTotal : N)
    (l : list E) : Prop := {
  sc_ops : NoDup (ce_op <$> l);
  sc_keys : NoDup (ce_key <$> l);
  sc_admissible : Forall (admissible canonical_len accept) l;
  sc_total : total_size canonical_len l ≤ maxTotal
}.

(** [w] is the greatest assigning event in the order by revision, then operation ID. *)
Definition winner (l : list E) (assigns : E → Prop) (w : E) : Prop :=
  w ∈ l ∧ assigns w ∧ ∀ e, e ∈ l → assigns e → event_le e w.

End passes.
Arguments scan_state : clear implicits.
#[export] Hint Mode CausalEvent ! : typeclass_instances.

(** ** The index *)

Section index.
Context {E : Type} `{CausalEvent E}.
Implicit Types l k d : list E.

Lemma by_key_snoc l e : by_key (l ++ [e]) = <[ce_key e := e]> (by_key l).
Proof. unfold by_key. by rewrite fold_left_app. Qed.

Lemma by_key_None l (i : string) : by_key l !! i = None ↔ i ∉ (ce_key <$> l).
Proof.
  induction l as [|e l IH] using rev_ind; [set_solver|].
  rewrite by_key_snoc, fmap_app, not_elem_of_app, <- IH, lookup_insert_None.
  simpl. rewrite list_elem_of_singleton. naive_solver.
Qed.

Lemma by_key_Some l (i : string) e :
  NoDup (ce_key <$> l) → by_key l !! i = Some e ↔ e ∈ l ∧ ce_key e = i.
Proof.
  induction l as [|x l IH] using rev_ind; [set_solver|].
  rewrite by_key_snoc, fmap_app. intros (Hl & Hx & _)%NoDup_app.
  rewrite lookup_insert_Some, IH by done. rewrite elem_of_app, list_elem_of_singleton.
  split; [naive_solver|]. intros [[He| ->] Hk]; [|by left]. right. split; [|done].
  intros Ek. eapply Hx; [apply list_elem_of_fmap; eauto|]. simpl. rewrite Ek, Hk.
  apply list_elem_of_singleton. congruence.
Qed.

Lemma by_key_perm l k : NoDup (ce_key <$> l) → l ≡ₚ k → by_key l = by_key k.
Proof.
  intros Hl Hp. assert (Hk : NoDup (ce_key <$> k)) by (by rewrite <- Hp).
  apply map_eq. intros i. apply option_eq. intros e. rewrite !by_key_Some by done.
  by rewrite Hp.
Qed.

Lemma same_key_same_event l a b :
  NoDup (ce_key <$> l) → a ∈ l → b ∈ l → ce_key a = ce_key b → a = b.
Proof.
  intros Hnd Ha Hb Ek.
  assert (H1 : by_key l !! ce_key a = Some a) by (by apply by_key_Some).
  assert (H2 : by_key l !! ce_key b = Some b) by (by apply by_key_Some).
  rewrite Ek in H1. congruence.
Qed.

Lemma elem_of_all_parents x l : x ∈ all_parents l ↔ ∃ e, e ∈ l ∧ x ∈ ce_parents e.
Proof. unfold all_parents. rewrite elem_of_list_to_set, list_elem_of_bind. naive_solver. Qed.

Lemma all_parents_perm l k : l ≡ₚ k → all_parents l = all_parents k.
Proof.
  intros Hp. unfold all_parents. apply set_eq. intros x. rewrite !elem_of_list_to_set.
  by rewrite Hp.
Qed.

Lemma head_keys_perm parented l k : l ≡ₚ k → head_keys parented l = head_keys parented k.
Proof. intros Hp. unfold head_keys. apply sort_strings_proper. by rewrite Hp. Qed.

Lemma elem_of_heads l (i : string) :
  i ∈ head_keys (all_parents l) l ↔ ∃ e, e ∈ l ∧ ce_key e = i ∧ ∀ c, c ∈ l → i ∉ ce_parents c.
Proof.
  unfold head_keys.
  rewrite elem_of_sort_strings, list_elem_of_filter, elem_of_all_parents, list_elem_of_fmap.
  naive_solver.
Qed.

Lemma ancestor_perm l k a e : l ≡ₚ k → ancestor l a e → ancestor k a e.
Proof.
  intros Hp Ha. assert (Hpar : ∀ x y, parent_of l x y → parent_of k x y).
  { intros x y [Hx ?]. split; [by rewrite <- Hp|done]. }
  induction Ha as [e Hae|p e _ IH Hpe]; [constructor; auto|].
  apply (ancestor_step k a p e); auto.
Qed.

Lemma tombstoned_before_perm l k e : l ≡ₚ k → tombstoned_before l e → tombstoned_before k e.
Proof. intros Hp (a & Ha & Ht). exists a. split; [by eapply ancestor_perm|done]. Qed.

End index.

(** ** The first pass accepts exactly the scannable lists *)

Section scan.
Context {E : Type} `{CausalEvent E} (canonical_len : E → result N) (accept : E → result unit)
  (maxTotal : N).
Implicit Types l k d : list E.
Local Abbreviation scan := (scan_event canonical_len accept maxTotal).
Local Abbreviation total := (total_size canonical_len).

Definition scan_of (l : list E) : scan_state E :=
  MkScan (by_key l) (list_to_set (ce_op <$> l)) (total_size canonical_len l).

Lemma total_size_snoc l e : total (l ++ [e]) = total l + size_of canonical_len e.
Proof. unfold total_size. by rewrite fold_left_app. Qed.

Lemma total_size_app l k : total (l ++ k) = total l + total k.
Proof.
  induction k as [|e k IH] using rev_ind; [by rewrite app_nil_r, N.add_0_r|].
  rewrite app_assoc, !total_size_snoc, IH. lia.
Qed.

#[export] Instance total_size_perm : Proper ((≡ₚ) ==> (=)) (total_size (E := E) canonical_len).
Proof.
  intros l k Hp. induction Hp as [|e l k _ IH|x y l|l1 l2 l3 _ IH1 _ IH2]; [done| | |congruence].
  - change (e :: l) with ([e] ++ l). change (e :: k) with ([e] ++ k). by rewrite !total_size_app, IH.
  - change (y :: x :: l) with ([y; x] ++ l). change (x :: y :: l) with ([x; y] ++ l).
    rewrite !total_size_app. unfold total_size. simpl. lia.
Qed.

Lemma scan_event_ok l e s' :
  scan (scan_of l) e = Ok s' ↔
  ce_op e ∉ (ce_op <$> l) ∧ ce_key e ∉ (ce_key <$> l) ∧ admissible canonical_len accept e ∧
  total l + size_of canonical_len e ≤ maxTotal ∧ s' = scan_of (l ++ [e]).
Proof.
  assert (Hs : scan_of (l ++ [e]) = MkScan (<[ce_key e := e]> (by_key l))
      ({[ce_op e]} ∪ list_to_set (ce_op <$> l)) (total l + size_of canonical_len e)).
  { unfold scan_of. rewrite by_key_snoc, total_size_snoc, fmap_app, list_to_set_app_L. f_equal.
    set_solver. }
  rewrite Hs. unfold scan_event, scan_of, size_of, admissible.
  cbn [scByKey scOperations scTotalBytes].
  rewrite <- (by_key_None l (ce_key e)), eq_None_not_Some.
  case_bool_decide as Ho; rewrite elem_of_list_to_set in Ho; [split; [done|tauto]|].
  case_bool_decide as Hk; [split; [done|tauto]|].
  destruct (canonical_len e) as [n|]; simpl; [|split; [done|by intros (_ & _ & [? _] & _)]].
  destruct (N.ltb_spec maxTotal (total l + n)); [split; [done|intros (_ & _ & _ & ? & _); lia]|].
  destruct (accept e) as [[]|]; simpl; [|split; [done|by intros (_ & _ & [_ ?] & _)]].
  split; [intros [= <-]; split_and!; done|by intros (_ & _ & _ & _ & ->)].
Qed.

Lemma scannable_snoc l e :
  scannable canonical_len accept maxTotal (l ++ [e]) ↔
  scannable canonical_len accept maxTotal l ∧ ce_op e ∉ (ce_op <$> l) ∧
  ce_key e ∉ (ce_key <$> l) ∧ admissible canonical_len accept e ∧
  total l + size_of canonical_len e ≤ maxTotal.
Proof.
  assert (Hnd : ∀ (f : E → string), NoDup (f <$> l ++ [e]) ↔ NoDup (f <$> l) ∧ f e ∉ (f <$> l)).
  { intros f. rewrite fmap_app, NoDup_app. simpl.
    pose proof (NoDup_singleton (f e)). set_solver. }
  split.
  - intros [H1%Hnd H2%Hnd [H3 H3']%Forall_app H4]. rewrite total_size_snoc in H4.
    rewrite Forall_singleton in H3'. split_and!; try tauto. split; try tauto. lia.
  - intros ([H1 H2 H3 H4] & ? & ? & ? & ?).
    split; [by apply Hnd|by apply Hnd| |by rewrite total_size_snoc].
    apply Forall_app. by rewrite Forall_singleton.
Qed.

Lemma scannable_app l k :
  scannable canonical_len accept maxTotal (l ++ k) → scannable canonical_len accept maxTotal l.
Proof.
  induction k as [|e k IH] using rev_ind; [by rewrite app_nil_r|].
  rewrite app_assoc, scannable_snoc. tauto.
Qed.

Lemma scan_pass_from l k s' :
  scannable canonical_len accept maxTotal l →
  range scan k (scan_of l) = Ok s' ↔
  scannable canonical_len accept maxTotal (l ++ k) ∧ s' = scan_of (l ++ k).
Proof.
  revert l. induction k as [|e k IH]; intros l Hl; simpl.
  { rewrite app_nil_r. split; [intros [= <-]; done|by intros [_ ->]]. }
  replace (l ++ e :: k) with ((l ++ [e]) ++ k) by (rewrite <- app_assoc; done).
  split.
  - intros Hr. destruct (scan (scan_of l) e) eqn:Ee; [|done]. simpl in Hr.
    apply scan_event_ok in Ee as (? & ? & ? & ? & ->). apply IH; [|done]. by apply scannable_snoc.
  - intros [Hs ->]. pose proof (scannable_app _ _ Hs) as He.
    pose proof (proj1 (scannable_snoc _ _) He) as (_ & ? & ? & ? & ?).
    rewrite (proj2 (scan_event_ok l e (scan_of (l ++ [e])))) by done. simpl. by apply IH.
Qed.

Lemma scan_pass l s' :
  range scan l (MkScan ∅ ∅ 0) = Ok s' ↔
  scannable canonical_len accept maxTotal l ∧ s' = scan_of l.
Proof.
  change (MkScan ∅ ∅ 0) with (scan_of []). rewrite (scan_pass_from []); [done|].
  split; [constructor..|]. unfold total_size. simpl. lia.
Qed.

Lemma scannable_perm l k :
  l ≡ₚ k → scannable canonical_len accept maxTotal l → scannable canonical_len accept maxTotal k.
Proof. intros Hp [? ? ? ?]. split; by rewrite <- Hp. Qed.

End scan.

(** ** The second pass accepts exactly the causal graphs *)

Section causal_pass.
Context {E : Type} `{CausalEvent E} (root_ok : E → bool).
Implicit Types (l k d : list E) (m : gmap string E).
#[local] Arguments parent_max : simpl never.

Lemma parents_ok m (e : E) ps s s' :
  range (parent_step m e) ps s = Ok s' ↔
  (∀ p, p ∈ ps → ∃ pe, m !! p = Some pe ∧ ce_revision pe < ce_revision e) ∧
  s' = (parent_max m ps s.1, list_to_set ps ∪ s.2).
Proof.
  revert s. induction ps as [|p ps IH]; intros [n ks]; simpl.
  { unfold parent_max. simpl. rewrite (left_id_L ∅ _). split; [intros [= <-]|intros [_ ->]]; [|done].
    split; [set_solver|done]. }
  unfold parent_step at 1. destruct (m !! p) as [pe|] eqn:Ep; simpl.
  - destruct (N.leb_spec (ce_revision e) (ce_revision pe)); simpl.
    + split; [done|]. intros [Hp _]. destruct (Hp p) as (pe' & ? & ?); [set_solver|].
      simplify_eq. lia.
    + rewrite IH. simpl.
      assert (parent_max m (p :: ps) n = parent_max m ps (N.max n (ce_revision pe))) as ->
        by (unfold parent_max; simpl; by rewrite Ep).
      assert (Hset : list_to_set ps ∪ ({[p]} ∪ ks) = {[p]} ∪ list_to_set ps ∪ ks) by set_solver.
      rewrite Hset. split; intros [Hp ->]; (split; [|done]).
      * intros q Hq. apply elem_of_cons in Hq as [->|Hq]; [by exists pe|by apply Hp].
      * intros q Hq. apply Hp. set_solver.
  - split; [done|]. intros [Hp _]. destruct (Hp p) as (pe' & ? & ?); [set_solver|]. congruence.
Qed.

Lemma llen_zero {A} (l : list A) : (llen l =? 0) = bool_decide (l = []).
Proof. destruct l; by case_bool_decide. Qed.

Lemma causal_event_ok m s e s' :
  causal_event root_ok m s e = Ok s' ↔
  causal_ok root_ok m e ∧
  s' = MkCausal (list_to_set (ce_parents e) ∪ caParented s)
         (caRoots s + (if decide (is_root e) then 1 else 0)).
Proof.
  unfold causal_event, causal_ok, is_root. rewrite llen_zero.
  destruct (decide (ce_parents e = [])) as [Ee|Ee].
  - rewrite bool_decide_eq_true_2 by done. rewrite Ee. simpl. rewrite (left_id_L ∅ _).
    destruct (root_ok e); simpl; intuition congruence.
  - rewrite bool_decide_eq_false_2 by done. rewrite N.add_0_r.
    destruct (range _ _ _) as [mp|err] eqn:Er; simpl.
    + apply parents_ok in Er as [Hp ->]. simpl.
      destruct (N.eqb_spec (ce_revision e) (u64 (parent_max m (ce_parents e) 0 + 1)));
        simpl; intuition congruence.
    + split; [done|]. intros [[Hp _] _]. exfalso.
      pose proof (proj2 (parents_ok m e (ce_parents e) (0, caParented s) _) (conj Hp eq_refl)).
      congruence.
Qed.

Definition causal_of (l : list E) : causal_state :=
  MkCausal (all_parents l) (llen (filter is_root l)).

Lemma causal_of_snoc l e :
  causal_of (l ++ [e]) =
  MkCausal (list_to_set (ce_parents e) ∪ caParented (causal_of l))
    (caRoots (causal_of l) + (if decide (is_root e) then 1 else 0)).
Proof.
  unfold causal_of, all_parents. rewrite bind_app, list_to_set_app_L, filter_app, llen_app.
  simpl. rewrite app_nil_r. f_equal; [set_solver|]. f_equal.
  rewrite filter_cons, filter_nil. by case_decide.
Qed.

Lemma causal_pass_from m l k s' :
  range (causal_event root_ok m) k (causal_of l) = Ok s' ↔
  Forall (causal_ok root_ok m) k ∧ s' = causal_of (l ++ k).
Proof.
  revert l. induction k as [|e k IH]; intros l; simpl.
  { rewrite app_nil_r. split; [intros [= <-]; done|by intros [_ ->]]. }
  replace (l ++ e :: k) with ((l ++ [e]) ++ k) by (rewrite <- app_assoc; done).
  rewrite Forall_cons. pose proof (IH (l ++ [e])) as IHe. rewrite causal_of_snoc in IHe.
  destruct (causal_event root_ok m (causal_of l) e) as [s|err] eqn:Ee; simpl.
  - apply causal_event_ok in Ee as [? ->]. tauto.
  - split; [done|]. intros [[He _] _].
    pose proof (proj2 (causal_event_ok m (causal_of l) e _) (conj He eq_refl)). congruence.
Qed.

Lemma causal_pass m l s' :
  range (causal_event root_ok m) l (MkCausal ∅ 0) = Ok s' ↔
  Forall (causal_ok root_ok m) l ∧ s' = causal_of l.
Proof. change (MkCausal ∅ 0) with (causal_of []). by rewrite causal_pass_from. Qed.

End causal_pass.

(** ** The order of events *)

Section order.
Context {E : Type} `{CausalEvent E}.
Implicit Types l k d : list E.

#[export] Instance event_le_trans : Transitive (event_le (E := E)).
Proof.
  intros a b c [H1|[H1 H1']] [H2|[H2 H2']]; unfold event_le; try (left; lia).
  right. split; [lia|]. by transitivity (ce_op b).
Qed.

#[export] Instance event_le_total : Total (event_le (E := E)).
Proof.
  intros a b. unfold event_le.
  destruct (N.lt_trichotomy (ce_revision a) (ce_revision b)) as [?|[?|?]];
    [by left; left| |by right; left].
  destruct (total str_le (ce_op a) (ce_op b)); [left; right|right; right]; done.
Qed.

Lemma event_le_antisymm l a b :
  NoDup (ce_op <$> l) → a ∈ l → b ∈ l → event_le a b → event_le b a → a = b.
Proof.
  intros Hnd Ha Hb [H1|[E1 H1]] [H2|[E2 H2]]; try lia.
  assert (Ho : ce_op a = ce_op b) by (by apply (anti_symm str_le)).
  apply list_elem_of_lookup in Ha as [i Hi], Hb as [j Hj].
  assert (i = j) as ->; [|congruence].
  eapply (NoDup_lookup (ce_op <$> l)); [done| |]; rewrite list_lookup_fmap.
  - rewrite Hi. done.
  - rewrite Hj, Ho. done.
Qed.

Lemma sort_events_perm l : sort_events l ≡ₚ l.
Proof. apply merge_sort_Permutation. Qed.

Lemma elem_of_sort_events x l : x ∈ sort_events l ↔ x ∈ l.
Proof. by rewrite sort_events_perm. Qed.

Lemma llen_sort_events l : llen (sort_events l) = llen l.
Proof. unfold llen. by rewrite (sort_events_perm l). Qed.

Lemma sort_events_sorted l : StronglySorted event_le (sort_events l).
Proof. apply StronglySorted_merge_sort; apply _. Qed.

(** Whatever algorithm sorts the events, the result is this list. *)
Lemma sort_events_unique l k :
  NoDup (ce_op <$> l) → StronglySorted event_le k → k ≡ₚ l → k = sort_events l.
Proof.
  intros Hnd Hs Hp. apply (StronglySorted_unique_strong event_le); [|done|apply sort_events_sorted|].
  - intros a b Ha Hb. apply (event_le_antisymm l); [done|by rewrite <- Hp|].
    by rewrite <- (sort_events_perm l).
  - by rewrite sort_events_perm.
Qed.

Lemma sort_events_proper l k :
  NoDup (ce_op <$> l) → l ≡ₚ k → sort_events l = sort_events k.
Proof.
  intros Hnd Hp. symmetry. apply sort_events_unique; [done|apply sort_events_sorted|].
  by rewrite sort_events_perm.
Qed.

Lemma winner_ext l (P Q : E → Prop) w :
  (∀ e, P e ↔ Q e) → winner l P w → winner l Q w.
Proof.
  intros HPQ (Hw & Ha & Hmax). unfold winner. split_and!; [done|by apply HPQ|].
  intros e He Hq. by apply Hmax, HPQ.
Qed.

Lemma winner_unique l (P : E → Prop) w w' :
  NoDup (ce_op <$> l) → winner l P w → winner l P w' → w = w'.
Proof.
  intros Hnd (Hw & Ha & Hm) (Hw' & Ha' & Hm').
  apply (event_le_antisymm l); [done..|by apply Hm'|by apply Hm].
Qed.

End order.

(** ** Tombstones reach exactly the causal descendants *)

Section tombstone_pass.
Context {E : Type} `{CausalEvent E} (root_ok : E → bool) (l : list E).
Implicit Types d : list E.
Hypothesis keys_unique : NoDup (ce_key <$> l).
Hypothesis causal : Forall (causal_ok root_ok (by_key l)) l.

Lemma parent_is_lower e p :
  e ∈ l → p ∈ ce_parents e →
  ∃ pe, pe ∈ l ∧ ce_key pe = p ∧ ce_revision pe < ce_revision e.
Proof.
  intros He Hp. rewrite Forall_forall in causal. specialize (causal e He). unfold causal_ok in causal.
  destruct (decide (is_root e)) as [Hr|_]; [rewrite Hr in Hp; set_solver|].
  destruct causal as [Hall _]. destruct (Hall p Hp) as (pe & Hpe & Hlt).
  apply by_key_Some in Hpe as [? ?]; [|done]. eauto.
Qed.

Lemma parent_lower p e : e ∈ l → parent_of l p e → ce_revision p < ce_revision e.
Proof.
  intros He [Hp Hpe]. destruct (parent_is_lower e (ce_key p) He Hpe) as (q & Hq & Hk & Hlt).
  by rewrite <- (same_key_same_event l q p).
Qed.

Lemma lower_is_earlier d e rest p :
  sort_events l = d ++ e :: rest → p ∈ l → ce_revision p < ce_revision e → p ∈ d.
Proof.
  intros Hs Hp Hlt. rewrite <- (sort_events_perm l), Hs in Hp.
  apply elem_of_app in Hp as [|Hp]; [done|].
  pose proof (sort_events_sorted l) as Hsort. rewrite Hs in Hsort.
  assert (He : StronglySorted event_le (e :: rest)).
  { clear -Hsort. induction d as [|x d IH]; [done|]. apply IH. by inversion Hsort. }
  apply elem_of_cons in Hp as [->|Hp]; [lia|].
  inversion_clear He as [|? ? _ Hall]. rewrite Forall_forall in Hall.
  destruct (Hall p Hp) as [?|[? _]]; lia.
Qed.

(** [m] is what the pass has computed after the events [d]. *)
Definition tombs_computed (d : list E) (m : gmap string bool) : Prop :=
  (∀ e, e ∈ d → ∃ b, m !! ce_key e = Some b ∧
     (b = true ↔ ce_tombstone e = true ∨ tombstoned_before l e)) ∧
  (∀ k, k ∉ (ce_key <$> d) → m !! k = None).

Lemma parent_tombstoned_true m (e : E) :
  parent_tombstoned m e = true ↔ ∃ p, p ∈ ce_parents e ∧ m !! p = Some true.
Proof.
  unfold parent_tombstoned.
  assert (Hf : ∀ ps t, fold_left (λ t parent, t || default false (m !! parent)) ps t = true ↔
      t = true ∨ ∃ p, p ∈ ps ∧ m !! p = Some true).
  { induction ps as [|p ps IH]; intros t; simpl; [set_solver|].
    rewrite IH, orb_true_iff. setoid_rewrite elem_of_cons.
    destruct (m !! p) as [[]|] eqn:Em; simpl; naive_solver. }
  rewrite Hf. naive_solver.
Qed.

Lemma parents_tombs d e rest m :
  sort_events l = d ++ e :: rest → tombs_computed d m →
  parent_tombstoned m e = true ↔ tombstoned_before l e.
Proof.
  intros Hs [Hd Hn]. rewrite parent_tombstoned_true.
  assert (Hin : ∀ x, x ∈ d ++ e :: rest ↔ x ∈ l) by (intros; by rewrite <- Hs, sort_events_perm).
  assert (He : e ∈ l) by (apply Hin; set_solver).
  assert (Hpd : ∀ p, parent_of l p e → p ∈ d).
  { intros p Hpar. eapply lower_is_earlier; [done|apply Hpar|by apply parent_lower]. }
  split.
  - intros (p & Hp & Hm). destruct (decide (p ∈ (ce_key <$> d))) as [Hk|Hk].
    2: { rewrite Hn in Hm; done. }
    apply list_elem_of_fmap in Hk as (pe & -> & Hpe).
    destruct (Hd pe Hpe) as (b & Hb & Hiff). simplify_eq.
    assert (Hpar : parent_of l pe e) by (split; [apply Hin; set_solver|done]).
    destruct (proj1 Hiff eq_refl) as [Ht|(a & Ha & Ht)].
    + exists pe. split; [by constructor|done].
    + exists a. split; [by eapply ancestor_step|done].
  - intros (a & Ha & Ht). destruct Ha as [e Hpar|p e Ha Hpar].
    + destruct (Hd a (Hpd a Hpar)) as (b & Hb & Hiff). exists (ce_key a).
      split; [apply Hpar|]. rewrite Hb. f_equal. apply Hiff. by left.
    + destruct (Hd p (Hpd p Hpar)) as (b & Hb & Hiff). exists (ce_key p).
      split; [apply Hpar|]. rewrite Hb. f_equal. apply Hiff. right. by exists a.
Qed.

Lemma tombs_computed_snoc d e rest m :
  sort_events l = d ++ e :: rest → tombs_computed d m →
  tombs_computed (d ++ [e]) (<[ce_key e := parent_tombstoned m e || ce_tombstone e]> m).
Proof.
  intros Hs Hm. pose proof (parents_tombs _ _ _ _ Hs Hm) as Hpt. destruct Hm as [Hd Hn].
  assert (Hnd : NoDup (ce_key <$> d ++ e :: rest)) by (by rewrite <- Hs, sort_events_perm).
  rewrite fmap_app in Hnd. apply NoDup_app in Hnd as (_ & Hdis & _).
  split.
  - intros x [Hx|Hx%list_elem_of_singleton]%elem_of_app.
    + rewrite lookup_insert_ne; [by apply Hd|]. intros Ek.
      apply (Hdis (ce_key x)); [apply list_elem_of_fmap; eauto|]. rewrite <- Ek. set_solver.
    + subst x. eexists. split; [apply lookup_insert_eq|]. rewrite orb_true_iff, Hpt. tauto.
  - intros k Hk. rewrite fmap_app in Hk. rewrite lookup_insert_ne by set_solver. apply Hn. set_solver.
Qed.

Lemma tombstone_pass_from d rest m :
  sort_events l = d ++ rest → tombs_computed d m →
  is_ok (range tombstone_event rest m) = true ↔
  ∀ e, e ∈ rest → tombstoned_before l e → ce_live e = false.
Proof.
  revert d m. induction rest as [|e rest IH]; intros d m Hs Hm; simpl; [set_solver|].
  pose proof (parents_tombs _ _ _ _ Hs Hm) as Hpt.
  pose proof (tombs_computed_snoc _ _ _ _ Hs Hm) as Hm'.
  unfold tombstone_event at 1. setoid_rewrite elem_of_cons.
  destruct (parent_tombstoned m e && ce_live e) eqn:Ee; simpl.
  - split; [done|]. intros Hall. bools. rewrite (Hall e) in *; [done|by left|by apply Hpt].
  - rewrite IH with (d := d ++ [e]); [|by rewrite <- app_assoc|done].
    split; [|naive_solver]. intros Hall x [->|Hx] Hb; [|by apply Hall].
    apply Hpt in Hb. rewrite Hb in Ee. done.
Qed.

Lemma tombstone_pass_ok :
  is_ok (range tombstone_event (sort_events l) ∅) = true ↔
  ∀ e, e ∈ l → tombstoned_before l e → ce_live e = false.
Proof.
  rewrite (tombstone_pass_from [] _ ∅); [|done|split; set_solver].
  split; intros Hall e He; apply Hall; by rewrite elem_of_sort_events in *.
Qed.

(** Revisions decrease along ancestors, so no event precedes itself. *)
Lemma ancestor_lower a e : e ∈ l → ancestor l a e → ce_revision a < ce_revision e.
Proof.
  intros He Ha. induction Ha as [e Hae|p e Ha IH Hpe]; [by apply parent_lower|].
  transitivity (ce_revision p); [apply IH, Hpe|by apply parent_lower].
Qed.

(** No wrap-around: revision numbers are bounded, so the height equation is exact. *)
Hypothesis bounded : ∀ e, e ∈ l → ce_revision e < 2 ^ 64 - 1.

Lemma parent_max_reached ps :
  (∀ p, p ∈ ps → ∃ pe, by_key l !! p = Some pe) → ps ≠ [] →
  ∃ p pe, p ∈ ps ∧ by_key l !! p = Some pe ∧ ce_revision pe = parent_max (by_key l) ps 0.
Proof.
  induction ps as [|p ps IH] using rev_ind; [done|]. intros Hall _.
  unfold parent_max. rewrite fold_left_app. simpl. fold (parent_max (by_key l) ps 0).
  destruct (Hall p) as [pe Hpe]; [set_solver|]. rewrite Hpe. simpl.
  destruct (N.max_spec (parent_max (by_key l) ps 0) (ce_revision pe)) as [[_ Em]|[Hle Em]];
    rewrite Em; [exists p, pe; set_solver|].
  destruct ps as [|q ps].
  - exists p, pe. unfold parent_max in *. simpl in *. split_and!; [set_solver|done|lia].
  - destruct IH as (x & xe & Hx & ? & ?); [intros; apply Hall; set_solver|done|].
    exists x, xe. set_solver.
Qed.

Lemma one_higher e :
  e ∈ l → ¬ is_root e → ∃ p, parent_of l p e ∧ ce_revision e = ce_revision p + 1.
Proof.
  intros He Hnr. pose proof causal as Hc. rewrite Forall_forall in Hc. specialize (Hc e He).
  unfold causal_ok in Hc. rewrite decide_False in Hc by done. destruct Hc as [Hall Hrev].
  destruct (parent_max_reached (ce_parents e)) as (p & pe & Hp & Hpe & Hm); [|done|].
  { intros p Hp. destruct (Hall p Hp) as (pe & ? & _). eauto. }
  apply by_key_Some in Hpe as [Hpe Hk]; [|done].
  assert (Hpar : parent_of l pe e) by (split; [done|by rewrite Hk]).
  exists pe. split; [done|]. rewrite Hrev, <- Hm. apply N.mod_small. specialize (bounded pe Hpe). lia.
Qed.

(** Every event is a root or descends from one. *)
Lemma reached_from_root e : e ∈ l → ∃ r, r ∈ l ∧ is_root r ∧ (e = r ∨ ancestor l r e).
Proof.
  remember (ce_revision e) as n eqn:En. revert e En.
  induction n as [n IH] using (well_founded_induction N.lt_wf_0). intros e -> He.
  destruct (decide (is_root e)) as [Hre|Hre]; [exists e; auto|].
  destruct (one_higher e He Hre) as (p & Hp & Er).
  destruct (IH (ce_revision p)) with (e := p) as (r & Hr & Hroot & Hpr); [lia|done|apply Hp|].
  exists r. split_and!; [done..|right]. destruct Hpr as [->|Ha]; [by constructor|by eapply ancestor_step].
Qed.

(** An event of greatest revision is a head. *)
Lemma top_is_head top :
  top ∈ l → (∀ e, e ∈ l → ce_revision e ≤ ce_revision top) →
  ce_key top ∈ head_keys (all_parents l) l.
Proof.
  intros Htop Hmax. apply elem_of_heads. exists top. split_and!; [done..|]. intros c Hc Hp.
  pose proof (parent_lower top c Hc (conj Htop Hp)). specialize (Hmax c Hc). lia.
Qed.

End tombstone_pass.

(** ** Folds over the ordered events: last writer wins *)

Section fold.
Context {E M : Type} `{CausalEvent E} (step : M → E → M) (init : M).
Implicit Types l d r : list E.

Lemma last_assigner (assigns : E → Prop) `{!∀ e, Decision (assigns e)} s :
  StronglySorted event_le s →
  (∀ e, e ∈ s → ¬ assigns e) ∨
  ∃ d w r, s = d ++ w :: r ∧ (∀ e, e ∈ r → ¬ assigns e) ∧ winner s assigns w.
Proof.
  unfold winner. intros Hs. induction s as [|x s IH]; [left; set_solver|].
  inversion_clear Hs as [|? ? Hs' Hall]. rewrite Forall_forall in Hall.
  destruct (IH Hs') as [Hnone|(d & w & r & -> & Hr & Hw & Ha & Hmax)].
  - destruct (decide (assigns x)) as [Hx|Hx].
    + right. exists [], x, s. split_and!; [done|done|set_solver|done|].
      intros e [->|He]%elem_of_cons Hae; [|by destruct (Hnone e)]. by destruct (total event_le x x).
    + left. intros e [->|He]%elem_of_cons; auto.
  - right. exists (x :: d), w, r. split_and!; [done|done|set_solver|done|].
    intros e [->|He]%elem_of_cons Hae; [|by apply Hmax]. apply Hall. set_solver.
Qed.

(** Events that do not assign a register leave it alone. *)
Lemma fold_untouched {A} (get : M → A) (assigns : E → Prop) r m :
  (∀ e m, ¬ assigns e → get (step m e) = get m) →
  (∀ e, e ∈ r → ¬ assigns e) → get (fold_left step r m) = get m.
Proof.
  intros Hstep. revert m. induction r as [|e r IH]; intros m Hr; [done|].
  simpl. rewrite IH by (intros; apply Hr; set_solver). apply Hstep, Hr. set_solver.
Qed.

(** A register [get] that events overwrite with [val] holds the value of the winner. *)
Lemma fold_winner {A} (get : M → A) (val : E → option A) (assigns : E → Prop)
    `{!∀ e, Decision (assigns e)} l :
  (∀ e m, ¬ assigns e → get (step m e) = get m) →
  (∀ e m v, e ∈ l → assigns e → val e = Some v → get (step m e) = v) →
  (∀ e, e ∈ l → assigns e → is_Some (val e)) →
  (∀ e, e ∈ l → ¬ assigns e) ∧ get (fold_left step (sort_events l) init) = get init ∨
  ∃ w, winner l assigns w ∧ val w = Some (get (fold_left step (sort_events l) init)).
Proof.
  intros Hskip Hset Hval.
  assert (Hin : ∀ x, x ∈ sort_events l ↔ x ∈ l) by (intros; apply elem_of_sort_events).
  destruct (last_assigner assigns _ (sort_events_sorted l))
    as [Hnone|(d & w & r & Hs & Hr & Hw & Ha & Hmax)].
  - left. split; [intros; by apply Hnone, Hin|].
    by apply (fold_untouched get assigns (sort_events l) init).
  - right. apply Hin in Hw. exists w. unfold winner. split.
    { split_and!; [done..|]. intros e He. by apply Hmax, Hin. }
    destruct (Hval w Hw Ha) as [v Hv]. rewrite Hv, Hs, fold_left_app. simpl.
    rewrite (fold_untouched get assigns) by done. by erewrite Hset.
Qed.

(** The common case: an event either overwrites the register or leaves it alone. *)
Lemma optional_register {A} (get : M → A) (val : E → option A) l :
  (∀ e m, get (step m e) = default (get m) (val e)) →
  (∀ e, e ∈ l → val e = None) ∧ get (fold_left step (sort_events l) init) = get init ∨
  ∃ w, winner l (λ e, is_Some (val e)) w ∧
    val w = Some (get (fold_left step (sort_events l) init)).
Proof.
  intros Hget.
  destruct (fold_winner get val (λ e, is_Some (val e)) l) as [[Hn Em]|Hw]; [..|by right].
  - intros e m Hne. rewrite Hget. by rewrite <- eq_None_not_Some in Hne; rewrite Hne.
  - intros e m v _ _ Ev. by rewrite Hget, Ev.
  - done.
  - left. split; [|done]. intros e He. apply eq_None_not_Some. by apply Hn.
Qed.

(** A flag that events can only raise. *)
Lemma sticky_flag (get : M → bool) (raises : E → bool) s m :
  (∀ e m, get (step m e) = get m || raises e) →
  get (fold_left step s m) = true ↔ get m = true ∨ ∃ e, e ∈ s ∧ raises e = true.
Proof.
  intros Hget. revert m. induction s as [|e s IH]; intros m; simpl; [set_solver|].
  rewrite IH, Hget, orb_true_iff. setoid_rewrite elem_of_cons. naive_solver.
Qed.

(** A running maximum of the revisions. *)
Lemma running_max (get : M → N) s m :
  (∀ e m, get (step m e) = N.max (get m) (ce_revision e)) →
  (∀ e, e ∈ s → ce_revision e ≤ get (fold_left step s m)) ∧
  (get (fold_left step s m) = get m ∨ ∃ e, e ∈ s ∧ ce_revision e = get (fold_left step s m)).
Proof.
  intros Hget. induction s as [|e s [IH1 IH2]] using rev_ind; [set_solver|].
  rewrite fold_left_app. simpl. rewrite Hget. split.
  - intros x [Hx|Hx%list_elem_of_singleton]%elem_of_app; [|subst; lia]. specialize (IH1 x Hx). lia.
  - destruct (N.max_spec (get (fold_left step s m)) (ce_revision e)) as [[_ ->]|[Hle ->]];
      [right; exists e; set_solver|]. destruct IH2 as [|(x & ? & ?)]; [by left|right; exists x; set_solver].
Qed.

End fold.
