(* ===== verification/Revision.v ===== *)
(** * internal/mailboxstate/revision.go: the message-state reducer

    [Reduce] validates one complete, sealed inventory of message-state revisions and folds it
    into the message's current state.  The file transcribes the reducer pass by pass and
    separates its two results: [complete_inventory] collects what the passes check,
    [reduced_state] is what they compute, and [reduce_ok] joins them.  The registers, the
    history and the claims of a reduced message follow from these; Reduced.v states the
    contract of the reducer without its passes. *)
From S2P Require Import Prelude Sha256 GoStd Syntax Canonical Causal.

(** ** Snapshots *)

Record verifiedFolderReference : Type := MkFolderReference {
  frStateDigest : string;
  frTombstone : bool
}.

(** [revisionCount] is an int that only ever holds a length. *)
Record VerifiedSnapshot : Type := MkVerifiedSnapshot {
  vsSnapshotID : string;
  vsLogicalMessageID : string;
  vsRevisionCount : N;
  vsOperationClaims : gmap string string;
  vsVersions : gmap string string;
  vsFolders : gmap string verifiedFolderReference;
  vsSeal : string
}.

Record ReducedState : Type := MkReducedState {
  rsLogicalMessageID : string;
  rsSnapshotID : string;
  rsVersion : string;
  rsMailboxIDs : list string;
  rsKeywords : list string;
  rsDeletePending : bool;
  rsTombstone : bool;
  rsHeads : list string;
  rsHeadsDigest : string;
  rsStateDigest : string;
  rsHeight : N;
  rsRevisionCount : N
}.

#[export] Instance ReducedState_eq_dec : EqDecision ReducedState.
Proof. solve_decision. Defined.

Definition sortedMapKeys {V} (values : gmap string V) : list string :=
  sort_strings (map_to_list values).*1.

Definition msize {V} (m : gmap string V) : N := N.of_nat (size m).

Definition writer_entry (m : gmap string string) (w : canonicalWriter) (key : string) : canonicalWriter :=
  writer_string (writer_string w key) (default "" (m !! key)).
Definition writer_string_map (w : canonicalWriter) (m : gmap string string) : canonicalWriter :=
  let keys := sortedMapKeys m in
  fold_left (writer_entry m) keys (writer_uint64 w (llen keys)).
Definition writer_folder (m : gmap string verifiedFolderReference) (w : canonicalWriter)
    (key : string) : canonicalWriter :=
  let reference := default (MkFolderReference "" false) (m !! key) in
  writer_boolean (writer_string (writer_string w key) (frStateDigest reference))
    (frTombstone reference).

Definition VerifiedSnapshot_snapshotSeal (inventory : VerifiedSnapshot) : string :=
  let w := writer_raw new_writer ("comail-verified-mailbox-snapshot-v1" +:+ NUL) in
  let w := writer_string w (vsSnapshotID inventory) in
  let w := writer_string w (vsLogicalMessageID inventory) in
  let w := writer_uint64 w (vsRevisionCount inventory) in
  let w := writer_string_map w (vsOperationClaims inventory) in
  let w := writer_string_map w (vsVersions inventory) in
  let folderKeys := sortedMapKeys (vsFolders inventory) in
  let w := fold_left (writer_folder (vsFolders inventory)) folderKeys
             (writer_uint64 w (llen folderKeys)) in
  sha256 w.

Definition VerifiedSnapshot_validFor (inventory : VerifiedSnapshot) (logicalMessageID : string)
    (revisionCount : N) : bool :=
  if negb (validIdentifier (vsSnapshotID inventory) maxIdentifierBytes) ||
     negb (String.eqb (vsLogicalMessageID inventory) logicalMessageID) ||
     negb (vsRevisionCount inventory =? revisionCount) || (revisionCount <? 1) ||
     negb (msize (vsOperationClaims inventory) =? revisionCount) then false
  else String.eqb (vsSeal inventory) (VerifiedSnapshot_snapshotSeal inventory).

Definition digestReducedState (state : ReducedState) : string :=
  let w := writer_raw new_writer ("comail-message-state-reduced-v1" +:+ NUL) in
  let w := writer_string w (rsLogicalMessageID state) in
  let w := writer_string w (rsVersion state) in
  let w := writer_strings w (rsMailboxIDs state) in
  let w := writer_strings w (rsKeywords state) in
  let w := writer_boolean w (rsDeletePending state) in
  let w := writer_boolean w (rsTombstone state) in
  let w := writer_strings w (rsHeads state) in
  let w := writer_string w (rsHeadsDigest state) in
  let w := writer_uint64 w (rsHeight state) in
  let w := writer_uint64 w (rsRevisionCount state) in
  digestBytes w.

(** ** validateRevision *)

Definition hasLiveAssignments (record : RevisionRecord) : bool :=
  negb (String.eqb (rrVersion record) "") || negb (is_nil (rrMailboxIDs record)) ||
  (0 <? llen (elems (rrKeywords record))) ||
  match rrDeletePending record with Some _ => true | None => false end.

(** [strictlySortedUnique]: the loop compares each value with the previous one. *)
Fixpoint strictly_sorted_after (previous : option string) (values : list string) : bool :=
  match values with
  | [] => true
  | value :: rest =>
      validIdentifier value maxIdentifierBytes &&
      match previous with Some p => bool_decide (str_lt p value) | None => true end &&
      strictly_sorted_after (Some value) rest
  end.
Definition strictlySortedUnique (values : list string) : bool := strictly_sorted_after None values.

(** The loop over the keyword assignments, with its [previousKeyword]. *)
Fixpoint keywords_canonical (previous : string) (keywords : list KeywordAssignment) : bool :=
  match keywords with
  | [] => true
  | assignment :: rest =>
      validText (kaName assignment) 255 && bool_decide (str_lt previous (kaName assignment)) &&
      keywords_canonical (kaName assignment) rest
  end.

#[export] Instance StateRevision_event : CausalEvent StateRevision := {
  ce_key := srRKey;
  ce_op e := rrOperationID (srRecord e);
  ce_parents e := elems (rrParents (srRecord e));
  ce_revision e := rrRevision (srRecord e);
  ce_tombstone e := rrTombstone (srRecord e);
  ce_live e := hasLiveAssignments (srRecord e)
}.

Section reducer.
Context `{Syntax}.

Definition folder_known (inventory : VerifiedSnapshot) (folder : string) : bool :=
  match vsFolders inventory !! folder with
  | Some reference => validSHA256Identifier (frStateDigest reference)
  | None => false
  end.

Definition folder_live (inventory : VerifiedSnapshot) (folder : string) : bool :=
  match vsFolders inventory !! folder with
  | Some reference => negb (frTombstone reference) && validSHA256Identifier (frStateDigest reference)
  | None => false
  end.

Definition validFolderID (value : string) : bool :=
  if negb (len value =? len "folder-" + 64) || negb (HasPrefix value "folder-") then false
  else
    let decoded := TrimPrefix value "folder-" in
    hex_decodable decoded && String.eqb decoded (ToLower decoded).

Definition validateRevision (repoDID logicalMessageID : string) (event : StateRevision)
    (inventory : VerifiedSnapshot) : result unit :=
  let record := srRecord event in
  fail_if negb (String.eqb (rrType record) MessageStateRevisionCollection) ||
    negb (String.eqb (rrLogicalMessageID record) logicalMessageID) ||
    negb (bool_decide (StateRevisionRKey repoDID record = Ok (srRKey event))) ||
    negb (validIdentifier (rrOperationID record) maxOperationIDBytes) ||
    is_nil (rrParents record) || (rrRevision record =? 0) ||
    (maxPortableRevision <? rrRevision record) || (maxParents <? llen (elems (rrParents record)))
    with ErrInvalidRevision ;;
  fail_if negb (parse_RFC3339Nano (rrCreatedAt record)) with ErrInvalidRevision ;;
  fail_if negb (strictlySortedUnique (elems (rrParents record))) with ErrInvalidRevision ;;
  let? _ := range_check (λ parent,
      fail_if negb (validStateRKey parent) || String.eqb parent (srRKey event) with ErrInvalidRevision ;;
      Ok tt) (elems (rrParents record)) in
  let? _ := if negb (String.eqb (rrVersion record) "") then
      fail_if negb (validSHA256Identifier (rrVersion record)) with ErrInvalidRevision ;;
      fail_if negb (bool_decide (vsVersions inventory !! rrVersion record = Some logicalMessageID))
        with ErrInvalidReference ;;
      Ok tt
    else Ok tt in
  let? _ := match rrMailboxIDs record with
    | Some ids =>
        fail_if (llen ids =? 0) || (maxMailboxes <? llen ids) || negb (strictlySortedUnique ids)
          with ErrInvalidRevision ;;
        range_check (λ folder,
          fail_if negb (validFolderID folder) with ErrInvalidRevision ;;
          fail_if negb (folder_known inventory folder) with ErrInvalidReference ;;
          Ok tt) ids
    | None => Ok tt
    end in
  fail_if maxKeywords <? llen (elems (rrKeywords record)) with ErrInvalidRevision ;;
  fail_if negb (keywords_canonical "" (elems (rrKeywords record))) with ErrInvalidRevision ;;
  fail_if rrTombstone record && hasLiveAssignments record with ErrInvalidRevision ;;
  let mutates := hasLiveAssignments record || rrTombstone record in
  fail_if Bool.eqb (rrMerge record) mutates with ErrInvalidRevision ;;
  fail_if rrMerge record && (llen (elems (rrParents record)) <? 2) with ErrInvalidRevision ;;
  Ok tt.

(** ** Reduce: the passes over one event *)

(** The length of the canonical encoding, with the errors of the loop. *)
Definition revision_bytes (event : StateRevision) : result N :=
  let? encoded := or_error (CanonicalRevisionBytes (srRecord event)) ErrInvalidRevision in
  fail_if maxRevisionRecordBytes <? len encoded with ErrResourceLimit ;;
  Ok (len encoded).

(** The event is well formed and the snapshot holds the claim of its operation, naming it. *)
Definition admit_revision (repoDID logicalMessageID : string) (inventory : VerifiedSnapshot)
    (event : StateRevision) : result unit :=
  let? _ := validateRevision repoDID logicalMessageID event inventory in
  let? claim := NewOperationClaim repoDID event in
  let? claimedRevision := opt_result (vsOperationClaims inventory !! ocRKey claim) ErrIncompleteSnapshot in
  fail_if negb (String.eqb claimedRevision (srRKey event)) with ErrOperationCollision ;;
  Ok tt.

(** What an event without parents must be. *)
Definition root_revision_ok (event : StateRevision) : bool :=
  let record := srRecord event in
  (rrRevision record =? 1) && negb (String.eqb (rrVersion record) "") &&
  negb (is_nil (rrMailboxIDs record)).

(** ** The fold, last writer wins *)

Record merge_state : Type := MkMerge {
  meVersion : string;
  meMailboxIDs : list string;
  meKeywords : gmap string bool;
  meDeletePending : bool;
  meTombstone : bool;
  meHeight : N
}.

Definition merge_event (s : merge_state) (event : StateRevision) : merge_state :=
  let record := srRecord event in
  MkMerge
    (if negb (String.eqb (rrVersion record) "") then rrVersion record else meVersion s)
    (match rrMailboxIDs record with Some ids => ids | None => meMailboxIDs s end)
    (fold_left (λ m assignment, <[kaName assignment := kaPresent assignment]> m)
       (elems (rrKeywords record)) (meKeywords s))
    (match rrDeletePending record with Some b => b | None => meDeletePending s end)
    (meTombstone s || rrTombstone record)
    (N.max (meHeight s) (rrRevision record)).

Definition empty_merge : merge_state := MkMerge "" [] ∅ false false 0.

Definition merge_events (events : list StateRevision) : merge_state :=
  fold_left merge_event events empty_merge.

Definition present_keywords (m : gmap string bool) : list string :=
  sort_strings (map_to_list (filter (λ kv, kv.2 = true) m)).*1.

Definition set_rsStateDigest (st : ReducedState) (digest : string) : ReducedState :=
  MkReducedState (rsLogicalMessageID st) (rsSnapshotID st) (rsVersion st) (rsMailboxIDs st)
    (rsKeywords st) (rsDeletePending st) (rsTombstone st) (rsHeads st) (rsHeadsDigest st)
    digest (rsHeight st) (rsRevisionCount st).

Definition Reduce (repoDID logicalMessageID : string) (revisions : list StateRevision)
    (inventory : VerifiedSnapshot) : result ReducedState :=
  fail_if maxRevisionCount <? llen revisions with ErrResourceLimit ;;
  fail_if negb (validCanonicalDID repoDID) || negb (validSHA256Identifier logicalMessageID) ||
    (llen revisions =? 0) with ErrInvalidRevision ;;
  fail_if negb (VerifiedSnapshot_validFor inventory logicalMessageID (llen revisions))
    with ErrIncompleteSnapshot ;;
  let? scan := range (scan_event revision_bytes (admit_revision repoDID logicalMessageID inventory)
                 maxRevisionInventoryBytes) revisions (MkScan ∅ ∅ 0) in
  fail_if negb (msize (vsOperationClaims inventory) =? llen revisions) with ErrIncompleteSnapshot ;;
  let? causal := range (causal_event root_revision_ok (scByKey scan)) revisions (MkCausal ∅ 0) in
  fail_if negb (caRoots causal =? 1) with ErrInvalidRevision ;;
  let events := sort_events revisions in
  let? _ := range tombstone_event events ∅ in
  let merged := merge_events events in
  let deletePending := if meTombstone merged then false else meDeletePending merged in
  let? _ := if meTombstone merged then Ok tt
            else range_check (λ folder,
                fail_if negb (folder_live inventory folder) with ErrInvalidReference ;; Ok tt)
              (meMailboxIDs merged) in
  let heads := head_keys (caParented causal) events in
  let state := MkReducedState logicalMessageID (vsSnapshotID inventory) (meVersion merged)
    (meMailboxIDs merged) (present_keywords (meKeywords merged)) deletePending
    (meTombstone merged) heads
    (digestStringList ("comail-message-state-heads-v1" +:+ NUL) heads) ""
    (meHeight merged) (llen events) in
  Ok (set_rsStateDigest state (digestReducedState state)).

End reducer.

(** ** The contract of the reducer *)

Section contract.
Context `{Syntax} (repoDID logicalMessageID : string) (inventory : VerifiedSnapshot).
Implicit Types l k : list StateRevision.

Definition live_reference_ok (merged : merge_state) : Prop :=
  meTombstone merged = true ∨
  Forall (λ folder, folder_live inventory folder = true) (meMailboxIDs merged).

Record complete_inventory (l : list StateRevision) : Prop := {
  ci_count : 1 ≤ llen l ≤ maxRevisionCount;
  ci_repository : validCanonicalDID repoDID = true;
  ci_message : validSHA256Identifier logicalMessageID = true;
  ci_sealed : VerifiedSnapshot_validFor inventory logicalMessageID (llen l) = true;
  ci_events : scannable revision_bytes (admit_revision repoDID logicalMessageID inventory)
                maxRevisionInventoryBytes l;
  ci_causal : Forall (causal_ok root_revision_ok (by_key l)) l;
  ci_root : llen (filter is_root l) = 1;
  ci_tombstones e : e ∈ l → tombstoned_before l e → hasLiveAssignments (srRecord e) = false;
  ci_folders : live_reference_ok (merge_events (sort_events l))
}.

Definition reduced_state (l : list StateRevision) : ReducedState :=
  let merged := merge_events (sort_events l) in
  let heads := head_keys (all_parents l) l in
  let state := MkReducedState logicalMessageID (vsSnapshotID inventory) (meVersion merged)
    (meMailboxIDs merged) (present_keywords (meKeywords merged))
    (if meTombstone merged then false else meDeletePending merged) (meTombstone merged) heads
    (digestStringList ("comail-message-state-heads-v1" +:+ NUL) heads) ""
    (meHeight merged) (llen l) in
  set_rsStateDigest state (digestReducedState state).

(** ** The reducer implements the contract *)

Lemma live_references_pass merged :
  (if meTombstone merged then Ok tt
   else range_check (λ folder,
     if negb (folder_live inventory folder) then Err ErrInvalidReference else Ok tt)
     (meMailboxIDs merged)) = Ok tt ↔ live_reference_ok merged.
Proof.
  unfold live_reference_ok. destruct (meTombstone merged); [naive_solver|].
  rewrite range_check_ok. rewrite !Forall_forall.
  split; [intros Hf; right; intros x Hx; specialize (Hf x Hx)|intros [|Hf] x Hx; [done|specialize (Hf x Hx)]];
    destruct (folder_live inventory x); done.
Qed.

Lemma claims_counted n :
  VerifiedSnapshot_validFor inventory logicalMessageID n = true →
  msize (vsOperationClaims inventory) = n.
Proof. unfold VerifiedSnapshot_validFor. intros Hv. case_match; [done|]. by bools. Qed.

Lemma reduce_ok l st :
  Reduce repoDID logicalMessageID l inventory = Ok st ↔
  complete_inventory l ∧ st = reduced_state l.
Proof.
  unfold Reduce. split.
  - intros Hr. result_steps. bools. rename a into s, a0 into c.
    match goal with E : range (scan_event _ _ _) _ _ = _ |- _ => apply scan_pass in E as [Hscan ->] end.
    match goal with E : range (causal_event _ _) _ _ = _ |- _ => apply causal_pass in E as [Hcau ->] end.
    split.
    2: { unfold reduced_state. cbn zeta. rewrite (head_keys_perm _ _ _ (sort_events_perm l)).
         by rewrite llen_sort_events. }
    split; try done.
    + split; [|done]. lia.
    + apply (proj1 (tombstone_pass_ok root_revision_ok l (sc_keys _ _ _ _ Hscan) Hcau)).
      match goal with E : range tombstone_event _ _ = _ |- _ => by rewrite E end.
    + apply live_references_pass.
      match goal with E : _ = Ok ?u |- _ = Ok tt => destruct u; exact E end.
  - intros [[Hcount Hdid Hmsg Hsealed Hscan Hcau Hroot Htomb Hfold] ->].
    rewrite (proj2 (N.ltb_ge _ _)) by lia. rewrite Hdid, Hmsg. simpl negb. cbn [orb].
    rewrite (proj2 (N.eqb_neq _ _)) by lia. rewrite Hsealed. simpl negb.
    rewrite (proj2 (scan_pass _ _ _ l _) (conj Hscan eq_refl)). cbn [result_bind].
    rewrite (claims_counted _ Hsealed), N.eqb_refl. simpl negb.
    change (scByKey (scan_of revision_bytes l)) with (by_key l).
    rewrite (proj2 (causal_pass _ _ l _) (conj Hcau eq_refl)). cbn [result_bind].
    cbn [causal_of caRoots]. rewrite Hroot. simpl negb.
    pose proof (proj2 (tombstone_pass_ok _ l (sc_keys _ _ _ _ Hscan) Hcau) Htomb) as Hok.
    destruct (range tombstone_event (sort_events l) ∅); [|done]. cbn [result_bind].
    cbn zeta. rewrite (proj2 (live_references_pass _) Hfold). cbn [result_bind].
    rewrite llen_sort_events. cbn [causal_of caParented].
    by rewrite (head_keys_perm _ _ _ (sort_events_perm l)).
Qed.

(** The contract does not depend on the order of the inventory. *)
Lemma complete_inventory_perm l k : l ≡ₚ k → complete_inventory l → complete_inventory k.
Proof.
  intros Hp [Hcount Hdid Hmsg Hsealed Hscan Hcau Hroot Htomb Hfold].
  assert (Hlen : llen k = llen l) by (unfold llen; by rewrite Hp).
  split; try done; try by rewrite Hlen.
  - by eapply scannable_perm.
  - rewrite <- (by_key_perm l k (sc_keys _ _ _ _ Hscan) Hp). by rewrite <- Hp.
  - rewrite <- Hroot. unfold llen. by rewrite Hp.
  - intros e He Ht. apply Htomb; [by rewrite Hp|by eapply tombstoned_before_perm].
  - by rewrite <- (sort_events_proper l k (sc_ops _ _ _ _ Hscan) Hp).
Qed.

Lemma reduced_state_perm l k :
  NoDup (ce_op <$> l) → l ≡ₚ k → reduced_state l = reduced_state k.
Proof.
  intros Hops Hp. unfold reduced_state. rewrite (sort_events_proper l k Hops Hp).
  rewrite (all_parents_perm l k Hp), (head_keys_perm _ l k Hp).
  assert (llen l = llen k) as -> by (unfold llen; by rewrite Hp). done.
Qed.

End contract.


(** ** Registers of the fold *)

Definition assigns_version (e : StateRevision) : Prop := rrVersion (srRecord e) ≠ "".
Definition assigns_mailboxes (e : StateRevision) : Prop := rrMailboxIDs (srRecord e) ≠ None.
Definition assigns_delete (e : StateRevision) : Prop := rrDeletePending (srRecord e) ≠ None.
Definition keyword_names (e : StateRevision) : list string := kaName <$> elems (rrKeywords (srRecord e)).
Definition assigns_keyword (k : string) (e : StateRevision) : Prop := k ∈ keyword_names e.
#[export] Instance assigns_keyword_dec k e : Decision (assigns_keyword k e).
Proof. unfold assigns_keyword. apply _. Defined.

Definition assign_all (m : gmap string bool) (ks : list KeywordAssignment) : gmap string bool :=
  fold_left (λ m assignment, <[kaName assignment := kaPresent assignment]> m) ks m.

Lemma assign_all_other m ks (k : string) : k ∉ (kaName <$> ks) → assign_all m ks !! k = m !! k.
Proof.
  unfold assign_all. revert m. induction ks as [|a ks IH]; intros m Hk; [done|]. simpl.
  rewrite IH by set_solver. apply lookup_insert_ne. set_solver.
Qed.

Lemma assign_all_in m ks (k : string) b :
  NoDup (kaName <$> ks) → MkKeywordAssignment k b ∈ ks → assign_all m ks !! k = Some b.
Proof.
  revert m. induction ks as [|a ks IH]; intros m Hnd Hin; [set_solver|].
  rewrite fmap_cons, NoDup_cons in Hnd. destruct Hnd as [Ha Hnd].
  change (assign_all m (a :: ks)) with (assign_all (<[kaName a := kaPresent a]> m) ks).
  apply elem_of_cons in Hin as [<-|Hin]; [|by apply IH].
  rewrite assign_all_other by done. apply lookup_insert_eq.
Qed.

Lemma elem_of_present_keywords m (k : string) : k ∈ present_keywords m ↔ m !! k = Some true.
Proof.
  unfold present_keywords. rewrite elem_of_sort_strings, list_elem_of_fmap. split.
  - intros ([k' b] & -> & Hin). apply elem_of_map_to_list, map_lookup_filter_Some in Hin. naive_solver.
  - intros Hk. exists (k, true). split; [done|]. by apply elem_of_map_to_list, map_lookup_filter_Some.
Qed.

Lemma keywords_canonical_nodup prev ks :
  keywords_canonical prev ks = true →
  NoDup (kaName <$> ks) ∧ Forall (λ k, str_lt prev (kaName k)) ks.
Proof.
  revert prev. induction ks as [|a ks IH]; intros prev Hk; simpl in *; [split; constructor|].
  bools. destruct (IH (kaName a)) as [Hnd Hall]; [done|]. split.
  - apply NoDup_cons. split; [|done]. intros (b & Hb & Hin)%list_elem_of_fmap.
    rewrite Forall_forall in Hall. specialize (Hall b Hin). rewrite Hb in Hall.
    by apply str_lt_irrefl in Hall.
  - apply Forall_cons. split; [done|]. eapply Forall_impl; [exact Hall|].
    intros b Hb. by eapply str_lt_trans.
Qed.

(** ** What a complete inventory guarantees *)

Section reduced.
Context `{Syntax} (repoDID logicalMessageID : string) (inventory : VerifiedSnapshot).
Implicit Types l : list StateRevision.

Record event_wf (e : StateRevision) : Prop := {
  ev_message : rrLogicalMessageID (srRecord e) = logicalMessageID;
  ev_revision : 1 ≤ rrRevision (srRecord e) ≤ maxPortableRevision;
  ev_keywords : keywords_canonical "" (elems (rrKeywords (srRecord e))) = true;
  ev_version : rrVersion (srRecord e) ≠ "" →
    vsVersions inventory !! rrVersion (srRecord e) = Some logicalMessageID;
  ev_mailboxes ids : rrMailboxIDs (srRecord e) = Some ids →
    ids ≠ [] ∧ strictlySortedUnique ids = true ∧ Forall (λ f, folder_known inventory f = true) ids;
  ev_tombstone : rrTombstone (srRecord e) = true → hasLiveAssignments (srRecord e) = false
}.

Lemma validateRevision_wf e :
  validateRevision repoDID logicalMessageID e inventory = Ok tt → event_wf e.
Proof.
  intros Hv. unfold validateRevision in Hv. result_steps. bools.
  repeat match goal with u : unit |- _ => destruct u end.
  split; try done.
  - lia.
  - intros Hver. destruct (String.eqb_spec (rrVersion (srRecord e)) "") as [|_]; [done|]. simpl in *.
    result_steps. by bools.
  - intros ids Hids. rewrite Hids in *. result_steps. bools. split_and!; [by intros ->|done|].
    match goal with E : range_check _ ids = _ |- _ => apply range_check_ok in E; rename E into Hall end.
    eapply Forall_impl; [exact Hall|]. intros f Hf. cbn beta in Hf. result_steps. by bools.
  - intros Ht. match goal with E : rrTombstone _ && _ = false |- _ => by rewrite Ht in E end.
Qed.

Lemma admit_revision_ok e :
  admit_revision repoDID logicalMessageID inventory e = Ok tt →
  event_wf e ∧ ∃ ck, OperationClaimRKey repoDID logicalMessageID (rrOperationID (srRecord e)) = Ok ck ∧
    vsOperationClaims inventory !! ck = Some (srRKey e).
Proof.
  unfold admit_revision. intros Ha. result_steps. bools. destruct a as [].
  match goal with E : validateRevision _ _ _ _ = _ |- _ => apply validateRevision_wf in E; rename E into Hwf end.
  split; [done|].
  match goal with E : NewOperationClaim _ _ = Ok ?c |- _ => rename c into claim; apply NewOperationClaim_ok in E as (_ & Hk & _) end.
  rewrite (ev_message _ Hwf) in Hk. exists (ocRKey claim). split; [done|].
  by subst.
Qed.

Context (l : list StateRevision).
Hypothesis complete : complete_inventory repoDID logicalMessageID inventory l.
Local Abbreviation merged := (merge_events (sort_events l)).

Lemma complete_admitted e : e ∈ l →
  event_wf e ∧ ∃ ck, OperationClaimRKey repoDID logicalMessageID (rrOperationID (srRecord e)) = Ok ck ∧
    vsOperationClaims inventory !! ck = Some (srRKey e).
Proof.
  intros He. pose proof (sc_admissible _ _ _ _ (ci_events _ _ _ _ complete)) as Hadm.
  rewrite Forall_forall in Hadm. by apply admit_revision_ok, Hadm.
Qed.

Lemma complete_events_wf e : e ∈ l → event_wf e.
Proof. apply complete_admitted. Qed.

Lemma complete_keys : NoDup (ce_key <$> l).
Proof. exact (sc_keys _ _ _ _ (ci_events _ _ _ _ complete)). Qed.
Lemma complete_ops : NoDup (ce_op <$> l).
Proof. exact (sc_ops _ _ _ _ (ci_events _ _ _ _ complete)). Qed.

(** Revision numbers are portable, so heights never wrap around. *)
Lemma complete_bounded e : e ∈ l → ce_revision e < 2 ^ 64 - 1.
Proof.
  intros He. pose proof (ev_revision _ (complete_events_wf e He)) as Hb.
  unfold maxPortableRevision in Hb. cbn. lia.
Qed.

Lemma root_exists : ∃ r, r ∈ l ∧ is_root r ∧ (∀ e, e ∈ l → is_root e → e = r) ∧
  rrRevision (srRecord r) = 1 ∧ assigns_version r ∧ assigns_mailboxes r.
Proof.
  pose proof (ci_root _ _ _ _ complete) as Hroot. unfold llen in Hroot.
  destruct (filter is_root l) as [|r [|x rest]] eqn:Ef; simpl in Hroot; try lia.
  assert (Hr : r ∈ filter is_root l) by (rewrite Ef; set_solver).
  apply list_elem_of_filter in Hr as [Hroot' Hr].
  pose proof (ci_causal _ _ _ _ complete) as Hc. rewrite Forall_forall in Hc.
  specialize (Hc r Hr). unfold causal_ok, root_revision_ok in Hc. rewrite decide_True in Hc by done.
  bools. exists r. split_and!; try done.
  - intros e He Hre. assert (Hin : e ∈ filter is_root l) by (by apply list_elem_of_filter).
    rewrite Ef in Hin. by apply list_elem_of_singleton in Hin.
  - unfold assigns_mailboxes. by destruct (rrMailboxIDs (srRecord r)).
Qed.

Lemma keyword_register (k : string) :
  meKeywords merged !! k = Some true ↔
  ∃ w, winner l (assigns_keyword k) w ∧ MkKeywordAssignment k true ∈ elems (rrKeywords (srRecord w)).
Proof.
  set (val e := Some (Some (bool_decide (MkKeywordAssignment k true ∈ elems (rrKeywords (srRecord e)))))).
  assert (Hnames : ∀ e, e ∈ l → NoDup (keyword_names e)).
  { intros e He. by eapply keywords_canonical_nodup, ev_keywords, complete_events_wf. }
  assert (Hval : ∀ e m v, e ∈ l → assigns_keyword k e → val e = Some v →
    meKeywords (merge_event m e) !! k = v).
  { intros e m v He ([k' b] & -> & Hb)%list_elem_of_fmap [= <-]. simpl.
    case_bool_decide as Ht; [by apply assign_all_in; [apply Hnames|]|].
    apply assign_all_in; [by apply Hnames|]. by destruct b. }
  destruct (fold_winner merge_event empty_merge (λ m, meKeywords m !! k) val (assigns_keyword k) l)
    as [[Hn E]|(w & Hw & E)]; [by intros; apply assign_all_other|done|by eexists|..];
    fold (merge_events (sort_events l)) in E.
  - simpl in E. rewrite E, lookup_empty. split; [done|]. intros (w & (Hw & Ha & _) & _). by destruct (Hn w Hw).
  - injection E as E. rewrite <- E. split.
    + intros [= Ht]. bools. by exists w.
    + intros (w' & Hw' & Hin). rewrite (winner_unique l _ w w' complete_ops Hw Hw').
      by rewrite bool_decide_eq_true_2.
Qed.

Lemma version_register :
  ∃ w, winner l assigns_version w ∧ meVersion merged = rrVersion (srRecord w).
Proof.
  destruct (optional_register merge_event empty_merge meVersion (λ e,
    if negb (String.eqb (rrVersion (srRecord e)) "") then Some (rrVersion (srRecord e)) else None) l)
    as [[Hn _]|(w & Hw & E)].
  - intros e m. simpl. by case_match.
  - destruct root_exists as (r & Hr & _ & _ & _ & Hv & _). specialize (Hn r Hr).
    destruct (String.eqb_spec (rrVersion (srRecord r)) ""); [by destruct Hv|done].
  - exists w. split; [|unfold merge_events; case_match; congruence]. eapply winner_ext; [|exact Hw].
    intros e. unfold assigns_version. destruct (String.eqb_spec (rrVersion (srRecord e)) ""); simpl;
      split; [by intros []|done|done|by eauto].
Qed.

Lemma mailbox_register :
  ∃ w, winner l assigns_mailboxes w ∧ rrMailboxIDs (srRecord w) = Some (meMailboxIDs merged).
Proof.
  destruct (optional_register merge_event empty_merge meMailboxIDs (λ e, rrMailboxIDs (srRecord e)) l)
    as [[Hn _]|(w & Hw & E)].
  - intros e m. simpl. by destruct (rrMailboxIDs (srRecord e)).
  - destruct root_exists as (r & Hr & _ & _ & _ & _ & Hv). by specialize (Hn r Hr).
  - exists w. split; [|done]. eapply winner_ext; [|exact Hw].
    intros e. unfold assigns_mailboxes. symmetry. apply not_eq_None_Some.
Qed.

Lemma delete_register :
  meDeletePending merged = true ↔
  ∃ w, winner l assigns_delete w ∧ rrDeletePending (srRecord w) = Some true.
Proof.
  assert (Hext : ∀ e, is_Some (rrDeletePending (srRecord e)) ↔ assigns_delete e)
    by (intros; unfold assigns_delete; symmetry; apply not_eq_None_Some).
  destruct (optional_register merge_event empty_merge meDeletePending
    (λ e, rrDeletePending (srRecord e)) l) as [[Hn E]|(w & Hw & E)];
    [| |]; fold (merge_events (sort_events l)) in *.
  - intros e m. simpl. by destruct (rrDeletePending (srRecord e)).
  - rewrite E. split; [done|]. intros (w & (Hw & _ & _) & Et). rewrite (Hn w Hw) in Et. done.
  - apply (winner_ext _ _ _ w Hext) in Hw. split; [intros Hd; exists w; by rewrite <- Hd|].
    intros (w' & Hw' & E'). rewrite (winner_unique l _ _ _ complete_ops Hw Hw') in E. congruence.
Qed.

Lemma tombstone_register :
  meTombstone merged = true ↔ ∃ e, e ∈ l ∧ rrTombstone (srRecord e) = true.
Proof.
  unfold merge_events.
  rewrite (sticky_flag merge_event meTombstone (λ e, rrTombstone (srRecord e))) by done.
  setoid_rewrite elem_of_sort_events. simpl. naive_solver.
Qed.

(** The state refers to authenticated data only. *)
Lemma merged_version : vsVersions inventory !! meVersion merged = Some logicalMessageID.
Proof.
  destruct version_register as (w & (Hw & Ha & _) & ->).
  by apply (ev_version _ (complete_events_wf w Hw)).
Qed.

Lemma merged_folder f : f ∈ meMailboxIDs merged →
  ∃ ref, vsFolders inventory !! f = Some ref ∧ validSHA256Identifier (frStateDigest ref) = true ∧
    (meTombstone merged = false → frTombstone ref = false).
Proof.
  destruct mailbox_register as (b & (Hb & _ & _) & Eb).
  destruct (ev_mailboxes _ (complete_events_wf b Hb) _ Eb) as (_ & _ & Hknown).
  intros Hf. rewrite Forall_forall in Hknown. specialize (Hknown f Hf).
  unfold folder_known in Hknown. destruct (vsFolders inventory !! f) as [ref|] eqn:Ef; [|done].
  exists ref. split_and!; [done..|]. intros Ht.
  destruct (ci_folders _ _ _ _ complete) as [Hx|Hlive]; [congruence|].
  rewrite Forall_forall in Hlive. specialize (Hlive f Hf). unfold folder_live in Hlive.
  rewrite Ef in Hlive. by bools.
Qed.

Lemma complete_height :
  (∀ e, e ∈ l → rrRevision (srRecord e) ≤ meHeight merged) ∧
  ∃ e, e ∈ l ∧ rrRevision (srRecord e) = meHeight merged.
Proof.
  destruct (running_max merge_event meHeight (sort_events l) empty_merge) as [Hle Hex]; [done|].
  setoid_rewrite elem_of_sort_events in Hle. setoid_rewrite elem_of_sort_events in Hex.
  split; [exact Hle|]. destruct Hex as [E|Hex]; [|exact Hex].
  destruct root_exists as (r & Hr & _ & _ & Hrev & _). specialize (Hle r Hr).
  rewrite E in Hle. simpl in Hle. lia.
Qed.

(** As many distinct claims are accounted for as the snapshot has. *)
Lemma complete_claims ck rk :
  vsOperationClaims inventory !! ck = Some rk ↔
  ∃ e, e ∈ l ∧ srRKey e = rk ∧
    OperationClaimRKey repoDID logicalMessageID (rrOperationID (srRecord e)) = Ok ck.
Proof.
  set (ckey e := match OperationClaimRKey repoDID logicalMessageID (rrOperationID (srRecord e)) with
                 | Ok k => k | Err _ => "" end).
  assert (Hckey : ∀ e, e ∈ l → OperationClaimRKey repoDID logicalMessageID
      (rrOperationID (srRecord e)) = Ok (ckey e) ∧
      vsOperationClaims inventory !! ckey e = Some (srRKey e)).
  { intros e He. destruct (complete_admitted e He) as (_ & k & Hk & Hl). unfold ckey. by rewrite Hk. }
  split.
  2: { intros (e & He & <- & Hk). destruct (Hckey e He) as [Hk' Hl]. congruence. }
  intros Hck.
  assert (Hnd : NoDup (ckey <$> l)).
  { apply NoDup_fmap_2_strong; [|by eapply NoDup_fmap_1, complete_keys].
    intros x y Hx Hy E. apply (same_key_same_event l x y complete_keys); [done..|].
    destruct (Hckey x Hx) as [_ H1], (Hckey y Hy) as [_ H2]. rewrite E in H1. simpl. congruence. }
  assert (Hdom : list_to_set (ckey <$> l) ≡@{gset string} dom (vsOperationClaims inventory)).
  { apply set_subseteq_size_equiv.
    - intros x (e & -> & He)%elem_of_list_to_set%list_elem_of_fmap. apply elem_of_dom.
      destruct (Hckey e He) as [_ ->]. by eexists.
    - rewrite size_list_to_set, length_fmap, size_dom by done.
      pose proof (claims_counted _ _ _ (ci_sealed _ _ _ _ complete)) as Hn.
      unfold msize, llen in Hn. lia. }
  assert (Hin : ck ∈ dom (vsOperationClaims inventory)) by (apply elem_of_dom; by eexists).
  rewrite <- Hdom in Hin. apply elem_of_list_to_set, list_elem_of_fmap in Hin as (e & -> & He).
  destruct (Hckey e He) as [H1 H2]. exists e. split_and!; [done|congruence|done].
Qed.

End reduced.

(** ** A sealed example inventory

    A root, two concurrent revisions over it and the revision that merges them. *)
Section example.

Definition example_folder : string := "folder-" +:+ hex_encode (sha256 "inbox").
Definition example_version : string := digestBytes "version".

Definition example_child (op : string) (parents : list string) (revision : N)
    (keywords : slice KeywordAssignment) (merge : bool) : StateRevision :=
  with_key example_did
    (MkRevisionRecord MessageStateRevisionCollection example_message op (Some (sort_strings parents))
       revision "" None keywords None false merge "2024-01-02T03:04:05Z").

Definition example_e1 : StateRevision := with_key example_did example_root.
Definition example_e2 : StateRevision :=
  example_child "op-2" [srRKey example_e1] 2 (Some [MkKeywordAssignment "$seen" true]) false.
Definition example_e3 : StateRevision :=
  example_child "op-3" [srRKey example_e1] 2 (Some [MkKeywordAssignment "$flagged" true]) false.
Definition example_e4 : StateRevision :=
  example_child "op-4" [srRKey example_e2; srRKey example_e3] 3 None true.
Definition example_revisions : list StateRevision := [example_e4; example_e2; example_e1; example_e3].

Definition claims_of (repoDID : string) (l : list StateRevision) : gmap string string :=
  list_to_map (omap (λ e, match NewOperationClaim repoDID e with
                         | Ok c => Some (ocRKey c, srRKey e) | Err _ => None end) l).

Definition seal_snapshot (v : VerifiedSnapshot) : VerifiedSnapshot :=
  MkVerifiedSnapshot (vsSnapshotID v) (vsLogicalMessageID v) (vsRevisionCount v)
    (vsOperationClaims v) (vsVersions v) (vsFolders v) (VerifiedSnapshot_snapshotSeal v).

Definition example_inventory : VerifiedSnapshot :=
  seal_snapshot (MkVerifiedSnapshot (digestBytes "snapshot") example_message 4
    (claims_of example_did example_revisions) {[example_version := example_message]}
    {[example_folder := MkFolderReference (digestBytes "folder") false]} "").

Definition example_state : ReducedState :=
  match Reduce example_did example_message example_revisions example_inventory with
  | Ok st => st
  | Err _ => MkReducedState "" "" "" [] [] false false [] "" "" 0 0
  end.

Definition example_claim : string :=
  match OperationClaimRKey example_did example_message "op-3" with Ok k => k | Err _ => "" end.

Lemma example_ok :
  is_ok (Reduce example_did example_message example_revisions example_inventory) = true.
Proof. vm_compute. reflexivity. Qed.

Lemma example_reduces :
  Reduce example_did example_message example_revisions example_inventory = Ok example_state.
Proof. unfold example_state. pose proof example_ok. by destruct (Reduce _ _ _ _). Qed.

End example.

(** ** Properties *)

(** Convergence: the outcome does not depend on the order in which the provider lists the
    revisions.  Every permutation of an inventory that reduces to a state reduces to the same
    state, digests included. *)
Theorem reduce_order_independent `{Syntax} (repoDID logicalMessageID : string)
    (inventory : VerifiedSnapshot) (l k : list StateRevision) (st : ReducedState)
    (Hp : l ≡ₚ k) (Hl : Reduce repoDID logicalMessageID l inventory = Ok st) :
  Reduce repoDID logicalMessageID k inventory = Ok st.
Proof.
  apply reduce_ok in Hl as [Hc ->]. apply reduce_ok. split; [by eapply complete_inventory_perm|].
  apply reduced_state_perm; [by eapply complete_ops|done].
Qed.

Lemma reduce_order_independent_witness :
  Reduce example_did example_message [example_e1; example_e2; example_e3; example_e4]
    example_inventory = Ok example_state.
Proof.
  apply (reduce_order_independent _ _ _ example_revisions); [|exact example_reduces].
  unfold example_revisions.
  rewrite (Permutation_cons_append [example_e2; example_e1; example_e3] example_e4). simpl.
  apply Permutation_swap.
Defined.

(** Concurrent assignments are resolved register by register: content version, mailbox
    list, each keyword and the delete-pending flag hold the value written by the assigning
    revision that is greatest by (revision height, operation ID), so concurrent changes of
    unrelated keywords never overwrite one another, and a tombstone wins over everything. *)
Theorem reduced_registers `{Syntax} (repoDID logicalMessageID : string)
    (inventory : VerifiedSnapshot) (l : list StateRevision) (st : ReducedState)
    (Hr : Reduce repoDID logicalMessageID l inventory = Ok st) :
  (∃ w, winner l assigns_version w ∧ rsVersion st = rrVersion (srRecord w)) ∧
  (∃ w, winner l assigns_mailboxes w ∧ rrMailboxIDs (srRecord w) = Some (rsMailboxIDs st)) ∧
  (∀ k, k ∈ rsKeywords st ↔
     ∃ w, winner l (assigns_keyword k) w ∧ MkKeywordAssignment k true ∈ elems (rrKeywords (srRecord w))) ∧
  (rsTombstone st = true ↔ ∃ e, e ∈ l ∧ rrTombstone (srRecord e) = true) ∧
  (rsDeletePending st = true ↔
     rsTombstone st = false ∧
     ∃ w, winner l assigns_delete w ∧ rrDeletePending (srRecord w) = Some true).
Proof.
  apply reduce_ok in Hr as [Hc ->]. unfold reduced_state. cbn zeta. simpl. split_and!.
  - by eapply version_register.
  - by eapply mailbox_register.
  - intros k. rewrite elem_of_present_keywords. by eapply keyword_register.
  - apply tombstone_register.
  - pose proof (delete_register _ _ _ _ Hc) as Hd.
    destruct (meTombstone (merge_events (sort_events l))); [by split; [|intros [? _]]|].
    rewrite Hd. naive_solver.
Qed.

Lemma reduced_registers_witness :
  ∃ w, winner example_revisions assigns_version w ∧ rsVersion example_state = rrVersion (srRecord w).
Proof. exact (proj1 (reduced_registers _ _ _ _ _ example_reduces)). Defined.

(** The reduced history is one connected acyclic graph: there is a single first revision,
    every other revision descends from it and is one higher than one of its parents, no
    revision precedes itself, the heads are exactly the revisions without a child (sorted,
    at least one), and the height is the greatest revision number. *)
Theorem reduced_history `{Syntax} (repoDID logicalMessageID : string)
    (inventory : VerifiedSnapshot) (l : list StateRevision) (st : ReducedState)
    (Hr : Reduce repoDID logicalMessageID l inventory = Ok st) :
  (∃ root, root ∈ l ∧ rrRevision (srRecord root) = 1 ∧
     (∀ e, e ∈ l → e = root ∨ ancestor l root e)) ∧
  (∀ e, e ∈ l → is_root e ∨
     ∃ p, parent_of l p e ∧ rrRevision (srRecord e) = rrRevision (srRecord p) + 1) ∧
  (∀ e, e ∈ l → ¬ ancestor l e e) ∧
  (StronglySorted str_le (rsHeads st) ∧ rsHeads st ≠ [] ∧
   ∀ k, k ∈ rsHeads st ↔ ∃ e, e ∈ l ∧ srRKey e = k ∧ ∀ c, c ∈ l → k ∉ ce_parents c) ∧
  ((∀ e, e ∈ l → rrRevision (srRecord e) ≤ rsHeight st) ∧
   ∃ e, e ∈ l ∧ rrRevision (srRecord e) = rsHeight st).
Proof.
  apply reduce_ok in Hr as [Hc ->]. unfold reduced_state. cbn zeta. simpl.
  pose proof (complete_keys _ _ _ _ Hc) as Hkeys. pose proof (ci_causal _ _ _ _ Hc) as Hcau.
  pose proof (complete_bounded _ _ _ _ Hc) as Hbound.
  destruct (root_exists _ _ _ _ Hc) as (root & Hroot & Hisroot & Huniq & Hrev & _).
  pose proof (complete_height _ _ _ _ Hc) as (Hmax & top & Htop & Htopmax).
  split_and!; [..|exact Hmax|by exists top].
  - exists root. split_and!; [done..|]. intros e He.
    destruct (reached_from_root root_revision_ok l Hkeys Hcau Hbound e He) as (r & Hr & Hisr & Hpath).
    by rewrite <- (Huniq r Hr Hisr).
  - intros e He. destruct (decide (is_root e)) as [|Hnr]; [by left|right].
    by apply (one_higher root_revision_ok l Hkeys Hcau Hbound).
  - intros e He Ha. pose proof (ancestor_lower root_revision_ok l Hkeys Hcau e e He Ha). lia.
  - apply sort_strings_sorted.
  - intros Hnil. assert (Hin : ce_key top ∈ head_keys (all_parents l) l).
    { apply (top_is_head root_revision_ok); [done..|]. intros e He. simpl. rewrite Htopmax. by apply Hmax. }
    rewrite Hnil in Hin. set_solver.
  - intros k. exact (elem_of_heads l k).
Qed.

Lemma reduced_history_witness :
  ∃ root, root ∈ example_revisions ∧ rrRevision (srRecord root) = 1 ∧
    ∀ e, e ∈ example_revisions → e = root ∨ ancestor example_revisions root e.
Proof. exact (proj1 (reduced_history _ _ _ _ _ example_reduces)). Defined.

(** No operation claim is left over: in a reduced inventory the claims and the revisions
    correspond one to one.  Every claim of the snapshot is the claim of a revision that is
    present, so a provider cannot withhold a revision whose claim it lists. *)
Theorem reduced_claims_exact `{Syntax} (repoDID logicalMessageID : string)
    (inventory : VerifiedSnapshot) (l : list StateRevision) (st : ReducedState)
    (Hr : Reduce repoDID logicalMessageID l inventory = Ok st) (claimKey revisionKey : string) :
  vsOperationClaims inventory !! claimKey = Some revisionKey ↔
  ∃ e, e ∈ l ∧ srRKey e = revisionKey ∧
    OperationClaimRKey repoDID logicalMessageID (rrOperationID (srRecord e)) = Ok claimKey.
Proof. apply reduce_ok in Hr as [Hc _]. by eapply complete_claims. Qed.

Lemma reduced_claims_exact_witness :
  vsOperationClaims example_inventory !! example_claim = Some (srRKey example_e3) ↔
  ∃ e, e ∈ example_revisions ∧ srRKey e = srRKey example_e3 ∧
    OperationClaimRKey example_did example_message (rrOperationID (srRecord e)) = Ok example_claim.
Proof. exact (reduced_claims_exact _ _ _ _ _ example_reduces _ _). Defined.

(** A reduced state refers only to authenticated data: its version is one of the
    message's versions in the snapshot, its mailbox list is non-empty, canonical and names
    only folders the snapshot proves, and while the message lives none of them is
    tombstoned; a tombstoned message has no pending deletion, and no revision that has a
    tombstone among its ancestors assigns anything. *)
Theorem reduced_references `{Syntax} (repoDID logicalMessageID : string)
    (inventory : VerifiedSnapshot) (l : list StateRevision) (st : ReducedState)
    (Hr : Reduce repoDID logicalMessageID l inventory = Ok st) :
  vsVersions inventory !! rsVersion st = Some logicalMessageID ∧
  (rsMailboxIDs st ≠ [] ∧ strictlySortedUnique (rsMailboxIDs st) = true) ∧
  (∀ f, f ∈ rsMailboxIDs st → ∃ ref, vsFolders inventory !! f = Some ref ∧
     validSHA256Identifier (frStateDigest ref) = true ∧
     (rsTombstone st = false → frTombstone ref = false)) ∧
  (rsTombstone st = true → rsDeletePending st = false) ∧
  (∀ a e, e ∈ l → ancestor l a e → rrTombstone (srRecord a) = true →
     hasLiveAssignments (srRecord e) = false).
Proof.
  apply reduce_ok in Hr as [Hc ->]. unfold reduced_state. cbn zeta. simpl.
  destruct (mailbox_register _ _ _ _ Hc) as (b & (Hb & _ & _) & Eb).
  destruct (ev_mailboxes _ _ _ (complete_events_wf _ _ _ _ Hc b Hb) _ Eb) as (Hne & Hsorted & _).
  split_and!; try done.
  - exact (merged_version _ _ _ _ Hc).
  - intros f Hf. exact (merged_folder _ _ _ _ Hc f Hf).
  - intros Ht. by rewrite Ht.
  - intros a e He Hae Ht. apply (ci_tombstones _ _ _ _ Hc e He). by exists a.
Qed.

Lemma reduced_references_witness :
  vsVersions example_inventory !! rsVersion example_state = Some example_message.
Proof. exact (proj1 (reduced_references _ _ _ _ _ example_reduces)). Defined.
