(* ===== verification/FolderRevision.v ===== *)
(** * internal/mailboxstate/folder_revision.go: folders

    Folders have their own append-only stream.  [ReduceFolder] folds the revisions of one
    folder, [ValidateFolderSet] checks a complete set of reduced folders: the standard folders
    are all present under their canonical names, and live names are unique up to case. *)
From S2P Require Import Prelude Sha256 GoStd Syntax Unicode Canonical Causal Revision.

(** ** Records *)

Definition FolderRevisionCollection : string := "email.atmos.folderRevision".
Definition FolderOperationCollection : string := "email.atmos.folderOperation".
Definition maxFolderCount : N := 4096.

(** The keys of the map [standardFolderRoles]; ranging over it visits them in some order, see
    [standardRoleForID_any_order]. *)
Definition standardFolderRoles : list string :=
  ["inbox"; "archive"; "drafts"; "sent"; "junk"; "trash"; "important"].

Definition standardFolderNames : list (string * string) :=
  [("inbox", "Inbox"); ("archive", "Archive"); ("drafts", "Drafts"); ("sent", "Sent");
   ("junk", "Junk"); ("trash", "Trash"); ("important", "Important")].

Definition standard_name (role : string) : string :=
  match List.find (λ kv, String.eqb kv.1 role) standardFolderNames with
  | Some kv => kv.2
  | None => ""
  end.

Record FolderRevisionRecord : Type := MkFolderRevisionRecord {
  frType : string;
  frFolderID : string;
  frOperationID : string;
  frParents : slice string;
  frRevision : N;
  frName : string;
  frRole : string;
  frrTombstone : bool;
  frMerge : bool;
  frCreatedAt : string
}.

Record FolderStateRevision : Type := MkFolderStateRevision {
  fsRKey : string;
  fsRecord : FolderRevisionRecord
}.

Record FolderOperationClaimRecord : Type := MkFolderOperationClaimRecord {
  focType : string;
  focFolderID : string;
  focOperationID : string;
  focRevisionRKey : string
}.

Record FolderOperationClaim : Type := MkFolderOperationClaim {
  focRKey : string;
  focRecord : FolderOperationClaimRecord
}.

(** Opaque capabilities, built from one authenticated repository inventory. *)
Record VerifiedFolderSnapshot : Type := MkVerifiedFolderSnapshot {
  vfSnapshotID : string;
  vfFolderID : string;
  vfRevisionCount : N;
  vfOperationClaims : gmap string string;
  vfSeal : string
}.

Record VerifiedFolderSetSnapshot : Type := MkVerifiedFolderSetSnapshot {
  vzSnapshotID : string;
  vzRepoDID : string;
  vzFolderCount : N;
  vzStateDigests : gmap string string;
  vzSeal : string
}.

Record ReducedFolderState : Type := MkReducedFolderState {
  rfFolderID : string;
  rfSnapshotID : string;
  rfName : string;
  rfRole : string;
  rfTombstone : bool;
  rfHeads : list string;
  rfHeadsDigest : string;
  rfStateDigest : string;
  rfHeight : N;
  rfRevisionCount : N
}.

#[export] Instance FolderRevisionRecord_eq_dec : EqDecision FolderRevisionRecord.
Proof. solve_decision. Defined.
#[export] Instance FolderOperationClaimRecord_eq_dec : EqDecision FolderOperationClaimRecord.
Proof. solve_decision. Defined.
#[export] Instance FolderOperationClaim_eq_dec : EqDecision FolderOperationClaim.
Proof. solve_decision. Defined.
#[export] Instance ReducedFolderState_eq_dec : EqDecision ReducedFolderState.
Proof. solve_decision. Defined.

Definition set_frCreatedAt (r : FolderRevisionRecord) (at_ : string) : FolderRevisionRecord :=
  MkFolderRevisionRecord (frType r) (frFolderID r) (frOperationID r) (frParents r) (frRevision r)
    (frName r) (frRole r) (frrTombstone r) (frMerge r) at_.

Definition set_rfStateDigest (s : ReducedFolderState) (digest : string) : ReducedFolderState :=
  MkReducedFolderState (rfFolderID s) (rfSnapshotID s) (rfName s) (rfRole s) (rfTombstone s)
    (rfHeads s) (rfHeadsDigest s) digest (rfHeight s) (rfRevisionCount s).

#[export] Instance FolderStateRevision_event : CausalEvent FolderStateRevision := {
  ce_key := fsRKey;
  ce_op e := frOperationID (fsRecord e);
  ce_parents e := elems (frParents (fsRecord e));
  ce_revision e := frRevision (fsRecord e);
  ce_tombstone e := frrTombstone (fsRecord e);
  ce_live e := negb (String.eqb (frName (fsRecord e)) "") || negb (String.eqb (frRole (fsRecord e)) "")
}.

(** ** Canonical bytes and keys *)

Definition folder_domain : string := "comail-folder-state-revision-canonical-v1" +:+ NUL.

Definition encode_folder_revision (record : FolderRevisionRecord) : string :=
  let w := writer_raw new_writer folder_domain in
  let w := writer_string w (frType record) in
  let w := writer_string w (frFolderID record) in
  let w := writer_string w (frOperationID record) in
  let w := writer_strings w (elems (frParents record)) in
  let w := writer_uint64 w (frRevision record) in
  let w := writer_string w (frName record) in
  let w := writer_string w (frRole record) in
  let w := writer_boolean w (frrTombstone record) in
  let w := writer_boolean w (frMerge record) in
  writer_string w (frCreatedAt record).

Definition CanonicalFolderRevisionBytes (record : FolderRevisionRecord) : result string :=
  fail_if (maxIdentifierBytes <? len (frType record)) ||
    (maxIdentifierBytes <? len (frFolderID record)) ||
    (maxOperationIDBytes <? len (frOperationID record)) ||
    (maxParents <? llen (elems (frParents record))) ||
    (255 <? len (frName record)) || (64 <? len (frRole record)) ||
    (maxIdentifierBytes <? len (frCreatedAt record)) with ErrResourceLimit ;;
  fail_if negb (utf8_valid (frType record)) || negb (utf8_valid (frFolderID record)) ||
    negb (utf8_valid (frOperationID record)) || negb (utf8_valid (frName record)) ||
    negb (utf8_valid (frRole record)) || negb (utf8_valid (frCreatedAt record))
    with ErrInvalidRevision ;;
  let? _ := range_check (bounded_utf8 maxIdentifierBytes) (elems (frParents record)) in
  let encoded := encode_folder_revision record in
  fail_if maxRevisionRecordBytes <? len encoded with ErrResourceLimit ;;
  Ok encoded.

Section folders.
Context `{Syntax}.

Definition folder_preimage (repoDID encoded : string) : string :=
  ("comail-folder-state-revision-rkey-v1" +:+ NUL) +:+ repoDID +:+ NUL +:+ encoded.

Definition FolderRevisionRKey (repoDID : string) (record : FolderRevisionRecord) : result string :=
  fail_if negb (validCanonicalDID repoDID) || negb (validFolderID (frFolderID record)) ||
    negb (validIdentifier (frOperationID record) maxOperationIDBytes) with ErrInvalidRevision ;;
  let? encoded := CanonicalFolderRevisionBytes record in
  Ok ("folder-state-" +:+ hex_encode (sha256 (folder_preimage repoDID encoded))).

Definition folder_claim_bytes (repoDID folderID operationID : string) : string :=
  let w := writer_raw new_writer ("comail-folder-state-operation-v1" +:+ NUL) in
  let w := writer_string w repoDID in
  let w := writer_string w folderID in
  writer_string w operationID.

Definition FolderOperationClaimRKey (repoDID folderID operationID : string) : result string :=
  fail_if negb (validCanonicalDID repoDID) || negb (validFolderID folderID) ||
    negb (validIdentifier operationID maxOperationIDBytes) with ErrInvalidRevision ;;
  Ok ("folder-operation-" +:+
      TrimPrefix (digestBytes (folder_claim_bytes repoDID folderID operationID)) "sha256-").

Definition standard_folder_bytes (repoDID role : string) : string :=
  let w := writer_raw new_writer ("comail-standard-folder-v1" +:+ NUL) in
  let w := writer_string w repoDID in
  writer_string w role.

Definition StandardFolderID (repoDID role : string) : result string :=
  fail_if negb (validCanonicalDID repoDID) with ErrInvalidRevision ;;
  fail_if negb (bool_decide (role ∈ standardFolderRoles)) with ErrInvalidRevision ;;
  Ok ("folder-" +:+ TrimPrefix (digestBytes (standard_folder_bytes repoDID role)) "sha256-").

Definition NewFolderOperationClaim (repoDID : string) (revision : FolderStateRevision) :
    result FolderOperationClaim :=
  let? revisionRKey := or_error (FolderRevisionRKey repoDID (fsRecord revision)) ErrInvalidRevision in
  fail_if negb (String.eqb (fsRKey revision) revisionRKey) with ErrInvalidRevision ;;
  let? claimRKey := FolderOperationClaimRKey repoDID (frFolderID (fsRecord revision))
                      (frOperationID (fsRecord revision)) in
  Ok (MkFolderOperationClaim claimRKey
        (MkFolderOperationClaimRecord FolderOperationCollection (frFolderID (fsRecord revision))
           (frOperationID (fsRecord revision)) (fsRKey revision))).

Definition VerifyFolderOperationClaimRetry (expected stored : FolderOperationClaim) : result unit :=
  fail_if negb (bool_decide (expected = stored)) with ErrOperationCollision ;; Ok tt.

Definition VerifyFolderRevisionRetry (repoDID : string) (expected stored : FolderStateRevision) :
    result unit :=
  match FolderRevisionRKey repoDID (fsRecord expected), FolderRevisionRKey repoDID (fsRecord stored) with
  | Ok expectedKey, Ok storedKey =>
      fail_if negb (String.eqb (fsRKey expected) expectedKey) ||
        negb (String.eqb (fsRKey stored) storedKey) ||
        negb (bool_decide (set_frCreatedAt (fsRecord expected) "" = set_frCreatedAt (fsRecord stored) ""))
        with ErrOperationCollision ;;
      Ok tt
  | _, _ => Err ErrOperationCollision
  end.

(** ** validateFolderRevision *)

Definition standardRoleForID (repoDID folderID : string) : option string :=
  List.find (λ role, match StandardFolderID repoDID role with
                     | Ok candidate => String.eqb candidate folderID
                     | Err _ => false
                     end) standardFolderRoles.

Definition validFolderStateRKey (value : string) : bool :=
  if negb (len value =? len "folder-state-" + 64) || negb (HasPrefix value "folder-state-") then false
  else hex_decodable (TrimPrefix value "folder-state-").

Fixpoint strictly_sorted_folder_parents (previous : option string) (values : list string) : bool :=
  match values with
  | [] => true
  | value :: rest =>
      validFolderStateRKey value &&
      match previous with Some p => bool_decide (str_lt p value) | None => true end &&
      strictly_sorted_folder_parents (Some value) rest
  end.
Definition strictlySortedFolderParents (values : list string) : bool :=
  strictly_sorted_folder_parents None values.

Definition nonempty (s : string) : bool := negb (String.eqb s "").

Definition validateFolderRevision (repoDID folderID : string) (event : FolderStateRevision) :
    result unit :=
  let record := fsRecord event in
  fail_if negb (bool_decide (FolderRevisionRKey repoDID record = Ok (fsRKey event))) ||
    negb (String.eqb (frType record) FolderRevisionCollection) ||
    negb (String.eqb (frFolderID record) folderID) || is_nil (frParents record) ||
    (frRevision record =? 0) || (maxPortableRevision <? frRevision record) ||
    negb (validIdentifier (frOperationID record) maxOperationIDBytes) ||
    (maxParents <? llen (elems (frParents record))) with ErrInvalidRevision ;;
  fail_if negb (parse_RFC3339Nano (frCreatedAt record)) ||
    negb (strictlySortedFolderParents (elems (frParents record))) with ErrInvalidRevision ;;
  fail_if nonempty (frName record) && negb (validText (frName record) 255) with ErrInvalidRevision ;;
  fail_if negb (validFolderID folderID) with ErrInvalidRevision ;;
  let? _ := match standardRoleForID repoDID folderID with
    | Some role =>
        fail_if frrTombstone record ||
          (nonempty (frRole record) && negb (String.eqb (frRole record) role)) ||
          ((0 <? llen (elems (frParents record))) &&
           (nonempty (frName record) || nonempty (frRole record))) with ErrInvalidRevision ;;
        Ok tt
    | None => fail_if nonempty (frRole record) with ErrInvalidRevision ;; Ok tt
    end in
  let mutates := nonempty (frName record) || nonempty (frRole record) || frrTombstone record in
  fail_if Bool.eqb (frMerge record) mutates ||
    (frMerge record && (llen (elems (frParents record)) <? 2)) ||
    (frrTombstone record && (nonempty (frName record) || nonempty (frRole record)))
    with ErrInvalidRevision ;;
  Ok tt.

(** ** The folder snapshot *)

Definition VerifiedFolderSnapshot_snapshotSeal (snapshot : VerifiedFolderSnapshot) : string :=
  let w := writer_raw new_writer ("comail-verified-folder-snapshot-v1" +:+ NUL) in
  let w := writer_string w (vfSnapshotID snapshot) in
  let w := writer_string w (vfFolderID snapshot) in
  let w := writer_uint64 w (vfRevisionCount snapshot) in
  sha256 (writer_string_map w (vfOperationClaims snapshot)).

Definition VerifiedFolderSnapshot_validFor (snapshot : VerifiedFolderSnapshot) (folderID : string)
    (revisionCount : N) : bool :=
  validIdentifier (vfSnapshotID snapshot) maxIdentifierBytes &&
  String.eqb (vfFolderID snapshot) folderID && (vfRevisionCount snapshot =? revisionCount) &&
  (0 <? revisionCount) && (msize (vfOperationClaims snapshot) =? revisionCount) &&
  String.eqb (vfSeal snapshot) (VerifiedFolderSnapshot_snapshotSeal snapshot).

(** ** ReduceFolder: the passes over one event *)

Definition folder_bytes (event : FolderStateRevision) : result N :=
  let? encoded := CanonicalFolderRevisionBytes (fsRecord event) in Ok (len encoded).

Definition admit_folder (repoDID folderID : string) (snapshot : VerifiedFolderSnapshot)
    (event : FolderStateRevision) : result unit :=
  let? _ := validateFolderRevision repoDID folderID event in
  let? claim := NewFolderOperationClaim repoDID event in
  let? claimedRevision := opt_result (vfOperationClaims snapshot !! focRKey claim) ErrIncompleteSnapshot in
  fail_if negb (String.eqb claimedRevision (fsRKey event)) with ErrOperationCollision ;;
  Ok tt.

Definition root_folder_ok (repoDID folderID : string) (event : FolderStateRevision) : bool :=
  let record := fsRecord event in
  negb (negb (frRevision record =? 1) || negb (nonempty (frName record)) || frrTombstone record ||
        frMerge record) &&
  match standardRoleForID repoDID folderID with
  | Some role => String.eqb (frRole record) role && String.eqb (frName record) (standard_name role)
  | None => negb (nonempty (frRole record))
  end.

Record folder_merge : Type := MkFolderMerge {
  fmName : string;
  fmRole : string;
  fmTombstone : bool;
  fmHeight : N
}.
Definition empty_folder : folder_merge := MkFolderMerge "" "" false 0.

Definition merge_folder (s : folder_merge) (event : FolderStateRevision) : folder_merge :=
  let record := fsRecord event in
  MkFolderMerge (if nonempty (frName record) then frName record else fmName s)
    (if nonempty (frRole record) then frRole record else fmRole s)
    (fmTombstone s || frrTombstone record) (N.max (fmHeight s) (frRevision record)).

(** The last loop tracks the causal tombstones and folds in one pass. *)
Definition folder_event (s : gmap string bool * folder_merge) (event : FolderStateRevision) :
    result (gmap string bool * folder_merge) :=
  let? causalTombstone := tombstone_event s.1 event in
  Ok (causalTombstone, merge_folder s.2 event).

Definition digestReducedFolderState (state : ReducedFolderState) : string :=
  let w := writer_raw new_writer ("comail-folder-state-reduced-v1" +:+ NUL) in
  let w := writer_string w (rfFolderID state) in
  let w := writer_string w (rfName state) in
  let w := writer_string w (rfRole state) in
  let w := writer_boolean w (rfTombstone state) in
  let w := writer_strings w (rfHeads state) in
  let w := writer_string w (rfHeadsDigest state) in
  let w := writer_uint64 w (rfHeight state) in
  let w := writer_uint64 w (rfRevisionCount state) in
  digestBytes w.

Definition folder_heads_domain : string := "comail-folder-state-heads-v1" +:+ NUL.

Definition ReduceFolder (repoDID folderID : string) (revisions : list FolderStateRevision)
    (snapshot : VerifiedFolderSnapshot) : result ReducedFolderState :=
  fail_if maxRevisionCount <? llen revisions with ErrResourceLimit ;;
  fail_if negb (validCanonicalDID repoDID) || negb (validFolderID folderID) ||
    (llen revisions =? 0) with ErrInvalidRevision ;;
  fail_if negb (VerifiedFolderSnapshot_validFor snapshot folderID (llen revisions))
    with ErrIncompleteSnapshot ;;
  let? scan := range (scan_event folder_bytes (admit_folder repoDID folderID snapshot)
                 maxRevisionInventoryBytes) revisions (MkScan ∅ ∅ 0) in
  let? causal := range (causal_event (root_folder_ok repoDID folderID) (scByKey scan))
                   revisions (MkCausal ∅ 0) in
  fail_if caRoots causal =? 0 with ErrInvalidRevision ;;
  let events := sort_events revisions in
  let? folded := range folder_event events (∅, empty_folder) in
  let heads := head_keys (caParented causal) events in
  let state := MkReducedFolderState folderID (vfSnapshotID snapshot) (fmName folded.2)
    (fmRole folded.2) (fmTombstone folded.2) heads (digestStringList folder_heads_domain heads) ""
    (fmHeight folded.2) (llen events) in
  Ok (set_rfStateDigest state (digestReducedFolderState state)).

(** ** ValidateFolderSet *)

Definition VerifiedFolderSetSnapshot_snapshotSeal (snapshot : VerifiedFolderSetSnapshot) : string :=
  let w := writer_raw new_writer ("comail-verified-folder-set-snapshot-v1" +:+ NUL) in
  let w := writer_string w (vzSnapshotID snapshot) in
  let w := writer_string w (vzRepoDID snapshot) in
  let w := writer_uint64 w (vzFolderCount snapshot) in
  sha256 (writer_string_map w (vzStateDigests snapshot)).

Definition VerifiedFolderSetSnapshot_validFor (snapshot : VerifiedFolderSetSnapshot)
    (repoDID : string) (folderCount : N) : bool :=
  validCanonicalDID repoDID && String.eqb (vzRepoDID snapshot) repoDID &&
  validIdentifier (vzSnapshotID snapshot) maxIdentifierBytes &&
  (vzFolderCount snapshot =? folderCount) && (0 <? folderCount) &&
  (msize (vzStateDigests snapshot) =? folderCount) &&
  String.eqb (vzSeal snapshot) (VerifiedFolderSetSnapshot_snapshotSeal snapshot).

(** The loop over the orbit of [current]; [None] would be a loop that did not end in time. *)
Fixpoint fold_loop `{CaseOrbits} (fuel : nat) (current candidate canonical : N) : option N :=
  if candidate =? current then Some canonical
  else match fuel with
  | O => None
  | S fuel' => fold_loop fuel' current (SimpleFold candidate)
                 (if candidate <? canonical then candidate else canonical)
  end.

Definition fold_rune `{CaseOrbits} (current : N) : option N :=
  fold_loop (List.length (orbit current)) current (SimpleFold current) current.

Definition foldFolderName `{CaseOrbits} (value : string) : string :=
  encode_runes (List.map (λ current, default RuneError (fold_rune current)) (runes value)).

Record folder_set_state : Type := MkFolderSet {
  zsSeenIDs : gset string;
  zsLiveNames : gmap string string;
  zsStandardRoles : gset string
}.

Definition reserved_names `{CaseOrbits} : gset string :=
  list_to_set (List.map (λ kv, foldFolderName kv.2) standardFolderNames).

Definition folder_set_step `{CaseOrbits} (repoDID : string) (snapshot : VerifiedFolderSetSnapshot)
    (s : folder_set_state) (state : ReducedFolderState) : result folder_set_state :=
  fail_if negb (validFolderID (rfFolderID state)) ||
    negb (String.eqb (rfSnapshotID state) (vzSnapshotID snapshot)) ||
    negb (validText (rfName state) 255) || negb (validSHA256Identifier (rfStateDigest state)) ||
    negb (String.eqb (rfStateDigest state) (digestReducedFolderState state))
    with ErrInvalidReference ;;
  fail_if bool_decide (rfFolderID state ∈ zsSeenIDs s) with ErrIncompleteSnapshot ;;
  let seenIDs := {[rfFolderID state]} ∪ zsSeenIDs s in
  fail_if negb (String.eqb (default "" (vzStateDigests snapshot !! rfFolderID state))
                 (rfStateDigest state)) with ErrIncompleteSnapshot ;;
  let standard := standardRoleForID repoDID (rfFolderID state) in
  let? standardRoles := match standard with
    | Some role =>
        fail_if negb (String.eqb (rfRole state) role) ||
          negb (String.eqb (rfName state) (standard_name role)) || rfTombstone state
          with ErrInvalidReference ;;
        Ok ({[role]} ∪ zsStandardRoles s)
    | None =>
        fail_if nonempty (rfRole state) with ErrInvalidReference ;; Ok (zsStandardRoles s)
    end in
  if rfTombstone state then Ok (MkFolderSet seenIDs (zsLiveNames s) standardRoles)
  else
    let folded := foldFolderName (rfName state) in
    fail_if negb (is_some standard) && bool_decide (folded ∈ reserved_names)
      with ErrFolderNameCollision ;;
    fail_if match zsLiveNames s !! folded with
            | Some other => negb (String.eqb other (rfFolderID state))
            | None => false
            end with ErrFolderNameCollision ;;
    Ok (MkFolderSet seenIDs (<[folded := rfFolderID state]> (zsLiveNames s)) standardRoles).

Definition ValidateFolderSet `{CaseOrbits} (repoDID : string) (states : list ReducedFolderState)
    (snapshot : VerifiedFolderSetSnapshot) : result unit :=
  fail_if maxFolderCount <? llen states with ErrResourceLimit ;;
  fail_if negb (VerifiedFolderSetSnapshot_validFor snapshot repoDID (llen states))
    with ErrIncompleteSnapshot ;;
  let? s := range (folder_set_step repoDID snapshot) states (MkFolderSet ∅ ∅ ∅) in
  fail_if negb (N.of_nat (size (zsStandardRoles s)) =? llen standardFolderRoles)
    with ErrIncompleteSnapshot ;;
  Ok tt.

End folders.

(** ** Canonical bytes determine the record *)

Definition folder_fields (r : FolderRevisionRecord) : string :=
  enc_string (frType r) +:+ enc_string (frFolderID r) +:+ enc_string (frOperationID r) +:+
  enc_list enc_string (elems (frParents r)) +:+ uvarint (frRevision r) +:+
  enc_string (frName r) +:+ enc_string (frRole r) +:+ enc_bool (frrTombstone r) +:+
  enc_bool (frMerge r) +:+ enc_string (frCreatedAt r).

Lemma encode_folder_revision_app r : encode_folder_revision r = folder_domain +:+ folder_fields r.
Proof.
  unfold encode_folder_revision, folder_fields, new_writer, writer_raw.
  rewrite !writer_string_app, !writer_boolean_app. unfold writer_uint64.
  rewrite writer_strings_app.
  rewrite ?app_assoc_s. reflexivity.
Qed.

Record folder_fits (r : FolderRevisionRecord) : Prop := {
  ff_type : len (frType r) < 2 ^ 64;
  ff_folder : len (frFolderID r) < 2 ^ 64;
  ff_operation : len (frOperationID r) < 2 ^ 64;
  ff_name : len (frName r) < 2 ^ 64;
  ff_role : len (frRole r) < 2 ^ 64;
  ff_created : len (frCreatedAt r) < 2 ^ 64;
  ff_parents : llen (elems (frParents r)) < 2 ^ 64 ∧
    Forall (λ v, len v < 2 ^ 64) (elems (frParents r))
}.
#[export] Hint Resolve ff_type ff_folder ff_operation ff_name ff_role ff_created ff_parents : golib.

Lemma CanonicalFolderRevisionBytes_ok r b :
  CanonicalFolderRevisionBytes r = Ok b →
  b = encode_folder_revision r ∧ folder_fits r ∧ len b ≤ maxRevisionRecordBytes.
Proof.
  unfold CanonicalFolderRevisionBytes. intros Hb. result_steps. bools.
  repeat match goal with u : unit |- _ => destruct u end.
  match goal with E : range_check _ _ = _ |- _ => apply (range_bounded_utf8 id) in E; rename E into Hp end.
  split_and!; [done| |done].
  split; try split; try (eapply small_u64; [eassumption|by vm_compute]).
  eapply short_small; [|exact Hp]. by vm_compute.
Qed.

Definition normal_folder (r : FolderRevisionRecord) : FolderRevisionRecord :=
  MkFolderRevisionRecord (frType r) (frFolderID r) (frOperationID r) (Some (elems (frParents r)))
    (frRevision r) (frName r) (frRole r) (frrTombstone r) (frMerge r) (frCreatedAt r).

(** [Revision] is a uint64. *)
Definition folder_typed (r : FolderRevisionRecord) : Prop := frRevision r < 2 ^ 64.

Lemma folder_canonical_injective r1 r2 b :
  folder_typed r1 → folder_typed r2 →
  CanonicalFolderRevisionBytes r1 = Ok b → CanonicalFolderRevisionBytes r2 = Ok b →
  normal_folder r1 = normal_folder r2.
Proof.
  unfold folder_typed.
  intros T1 T2 (-> & F1 & _)%CanonicalFolderRevisionBytes_ok (E & F2 & _)%CanonicalFolderRevisionBytes_ok.
  rewrite !encode_folder_revision_app in E. apply app_inj_r in E. unfold folder_fields in E.
  peel E E1. peel E E2. peel E E3. peel E E4. peel E E5. peel E E6. peel E E7. peel E E8. peel E E9.
  rewrite <- (app_nil_r_s (enc_string (frCreatedAt r1))) in E.
  rewrite <- (app_nil_r_s (enc_string (frCreatedAt r2))) in E. peel E E10.
  unfold normal_folder. congruence.
Qed.

(** ** Keys *)

Section keys.
Context `{SyntaxLaws}.

Lemma FolderRevisionRKey_ok repoDID r k :
  FolderRevisionRKey repoDID r = Ok k →
  validCanonicalDID repoDID = true ∧ validFolderID (frFolderID r) = true ∧
  validIdentifier (frOperationID r) maxOperationIDBytes = true ∧
  CanonicalFolderRevisionBytes r = Ok (encode_folder_revision r) ∧
  k = "folder-state-" +:+ hex_encode (sha256 (folder_preimage repoDID (encode_folder_revision r))).
Proof.
  unfold FolderRevisionRKey. intros Hk. result_steps. bools.
  match goal with E : CanonicalFolderRevisionBytes _ = _ |- _ =>
    destruct (CanonicalFolderRevisionBytes_ok _ _ E) as (-> & _ & _) end. done.
Qed.

Lemma folder_key_inj d1 d2 r1 r2 k :
  folder_typed r1 → folder_typed r2 →
  FolderRevisionRKey d1 r1 = Ok k → FolderRevisionRKey d2 r2 = Ok k →
  (d1 = d2 ∧ normal_folder r1 = normal_folder r2) ∨
  collision (folder_preimage d1 (encode_folder_revision r1))
    (folder_preimage d2 (encode_folder_revision r2)).
Proof.
  intros T1 T2 (V1 & _ & _ & C1 & E1)%FolderRevisionRKey_ok (V2 & _ & _ & C2 & E2)%FolderRevisionRKey_ok.
  rewrite E1 in E2. apply app_inj_r, hex_sha256_inj in E2 as [E|]; [left|by right].
  unfold folder_preimage in E. apply app_inj_r, nul_terminated_inj in E as [-> E];
    [|by eapply validCanonicalDID_no_nul..].
  split; [done|]. rewrite E in C1. by eapply folder_canonical_injective.
Qed.

Lemma trim_digest b : TrimPrefix (digestBytes b) "sha256-" = hex_encode (sha256 b).
Proof. apply TrimPrefix_app. Qed.

(** An identifier that passed a length check is shorter than 2^64 bytes. *)
Lemma validIdentifier_small v limit : limit < 2 ^ 64 → validIdentifier v limit = true → len v < 2 ^ 64.
Proof. unfold validIdentifier. intros. bools. lia. Qed.

Lemma validFolderID_small v : validFolderID v = true → len v < 2 ^ 64.
Proof. 
  unfold validFolderID. case_match; [done|]. bools. intros _.
  match goal with E : len v = _ |- _ => rewrite E end. by vm_compute.
Qed.

Lemma FolderOperationClaimRKey_ok repoDID f o k :
  FolderOperationClaimRKey repoDID f o = Ok k →
  validCanonicalDID repoDID = true ∧ validFolderID f = true ∧
  validIdentifier o maxOperationIDBytes = true ∧
  k = "folder-operation-" +:+ hex_encode (sha256 (folder_claim_bytes repoDID f o)).
Proof.
  unfold FolderOperationClaimRKey. intros Hk. result_steps. bools. by rewrite trim_digest.
Qed.

Lemma NewFolderOperationClaim_ok repoDID e c :
  NewFolderOperationClaim repoDID e = Ok c →
  FolderRevisionRKey repoDID (fsRecord e) = Ok (fsRKey e) ∧
  FolderOperationClaimRKey repoDID (frFolderID (fsRecord e)) (frOperationID (fsRecord e)) = Ok (focRKey c) ∧
  focRecord c = MkFolderOperationClaimRecord FolderOperationCollection
    (frFolderID (fsRecord e)) (frOperationID (fsRecord e)) (fsRKey e).
Proof.
  unfold NewFolderOperationClaim. intros Hc. result_steps. bools. subst. simpl. done.
Qed.

Lemma StandardFolderID_ok repoDID role id :
  StandardFolderID repoDID role = Ok id →
  validCanonicalDID repoDID = true ∧ role ∈ standardFolderRoles ∧
  id = "folder-" +:+ hex_encode (sha256 (standard_folder_bytes repoDID role)).
Proof. unfold StandardFolderID. intros Hk. result_steps. bools. by rewrite trim_digest. Qed.

Lemma standard_role_small role : role ∈ standardFolderRoles → len role < 2 ^ 64.
Proof.
  assert (Hall : Forall (λ r, len r < 2 ^ 64) standardFolderRoles)
    by (repeat constructor; by vm_compute).
  rewrite Forall_forall in Hall. apply Hall.
Qed.

Lemma standard_folder_bytes_app d role :
  standard_folder_bytes d role = ("comail-standard-folder-v1" +:+ NUL) +:+ enc_string d +:+ enc_string role.
Proof.
  unfold standard_folder_bytes, new_writer, writer_raw.
  rewrite !writer_string_app, app_assoc_s. reflexivity.
Qed.

(** A DID is at most 2 kB, by its grammar. *)
Lemma standard_folder_inj d1 d2 r1 r2 id :
  len d1 < 2 ^ 64 → len d2 < 2 ^ 64 →
  StandardFolderID d1 r1 = Ok id → StandardFolderID d2 r2 = Ok id →
  (d1 = d2 ∧ r1 = r2) ∨ collision (standard_folder_bytes d1 r1) (standard_folder_bytes d2 r2).
Proof.
  intros L1 L2 (_ & R1 & E1)%StandardFolderID_ok (_ & R2 & E2)%StandardFolderID_ok.
  rewrite E1 in E2. apply app_inj_r, hex_sha256_inj in E2 as [E|]; [left|by right].
  rewrite !standard_folder_bytes_app in E. apply app_inj_r in E.
  apply standard_role_small in R1, R2. peel E Ed.
  rewrite <- (app_nil_r_s (enc_string r1)) in E. rewrite <- (app_nil_r_s (enc_string r2)) in E.
  peel E Er. done.
Qed.

End keys.

(** ** Folding names *)

Section fold_names.
Context `{CaseOrbitsLaws}.

(** [SimpleFold] walks the rest of the orbit [u ++ d] in this order, and then is back. *)
Lemma SimpleFold_cycle current d u l1 x l2 :
  orbit current = d ++ current :: u → u ++ d = l1 ++ x :: l2 →
  SimpleFold x = default current (head l2).
Proof.
  intros Eo El. assert (Hx : x ∈ u ++ d) by (rewrite El; set_solver).
  assert (Ex : orbit x = orbit current) by (apply orbit_same; rewrite Eo; set_solver).
  assert (Emin : orbit_min x = default current (head d)).
  { unfold orbit_min. rewrite Ex, Eo. by destruct d. }
  apply app_eq_inv in El as [(k & -> & Ek)|(k & -> & ->)].
  - destruct k as [|y k].
    + simpl in Ek. subst d.
      rewrite (SimpleFold_split x [] (l2 ++ current :: l1)) by (rewrite Ex, Eo; simpl; by rewrite ?app_nil_r).
      rewrite app_nil_r in *. by destruct l2.
    + injection Ek as <- ->. rewrite (SimpleFold_split x (d ++ current :: l1) k);
        [|by rewrite Ex, Eo, <- app_assoc].
      rewrite Emin. destruct k; [|done]. by destruct d.
  - rewrite (SimpleFold_split x k (l2 ++ current :: u)) by (rewrite Ex, Eo, <- app_assoc; done).
    by destruct l2.
Qed.

Lemma fold_loop_walks current d u l1 l2 fuel canonical :
  orbit current = d ++ current :: u → u ++ d = l1 ++ l2 → (List.length l2 <= fuel)%nat →
  fold_loop fuel current (default current (head l2)) canonical =
  Some (fold_left (λ m c, if c <? m then c else m) l2 canonical).
Proof.
  intros Eo. revert l1 fuel canonical.
  induction l2 as [|x l2 IH]; intros l1 fuel canonical El Hfuel; simpl.
  { destruct fuel; simpl; by rewrite N.eqb_refl. }
  destruct fuel as [|fuel]; simpl in Hfuel; [lia|]. simpl.
  destruct (N.eqb_spec x current) as [->|_].
  - exfalso. pose proof (orbit_sorted current) as Hs. rewrite Eo in Hs.
    assert (Hx : current ∈ u ++ d) by (rewrite El; set_solver).
    apply StronglySorted_app in Hs as (Hcross & _ & Hs2).
    apply StronglySorted_inv in Hs2 as [_ Hu]. rewrite Forall_forall in Hu.
    apply elem_of_app in Hx as [Hx|Hx]; [specialize (Hu _ Hx); lia|].
    specialize (Hcross current current Hx ltac:(set_solver)). lia.
  - rewrite (SimpleFold_cycle current d u l1 x l2) by done.
    apply (IH (l1 ++ [x])); [by rewrite <- app_assoc|lia].
Qed.

Lemma fold_min_spec l m :
  let r := fold_left (λ m c, if c <? m then c else m) l m in
  (r = m ∨ r ∈ l) ∧ r ≤ m ∧ ∀ c, c ∈ l → r ≤ c.
Proof.
  revert m. induction l as [|x l IH]; intros m; simpl; [set_solver by lia|].
  destruct (IH (if x <? m then x else m)) as (Hin & Hle & Hall). cbn zeta in *.
  destruct (N.ltb_spec x m); split_and!;
    try lia; try (intros c [Hc|Hc]%elem_of_cons; [subst c; lia|by apply Hall]); set_solver.
Qed.

(** The loop ends within its fuel, at the smallest rune of the orbit. *)
Lemma fold_rune_min current : fold_rune current = Some (orbit_min current).
Proof.
  pose proof (orbit_self current) as Hc. apply list_elem_of_split in Hc as (d & u & Eo).
  unfold fold_rune.
  assert (Hnext : SimpleFold current = default current (head (u ++ d))).
  { rewrite (SimpleFold_split current d u Eo). unfold orbit_min. rewrite Eo. by destruct u, d. }
  rewrite Hnext, (fold_loop_walks current d u [] (u ++ d)) by
    (try done; rewrite Eo, !length_app; simpl; lia).
  f_equal. destruct (fold_min_spec (u ++ d) current) as (Hin & Hle & Hall). cbn zeta in *.
  apply N.le_antisymm.
  - pose proof (orbit_min_in current) as Hm. rewrite Eo in Hm.
    apply elem_of_app in Hm as [Hm|[->|Hm]%elem_of_cons]; [|done|]; apply Hall; set_solver.
  - apply orbit_min_le. rewrite Eo. set_solver.
Qed.

Lemma foldFolderName_runes a : foldFolderName a = encode_runes (orbit_min <$> runes a).
Proof.
  unfold foldFolderName. f_equal. apply map_ext. intros r. by rewrite fold_rune_min.
Qed.

Lemma foldFolderName_eq a b :
  foldFolderName a = foldFolderName b ↔ Forall2 (λ r c, c ∈ orbit r) (runes a) (runes b).
Proof.
  assert (Hs : ∀ x, Forall (λ r, scalar r = true) (orbit_min <$> runes x)).
  { intros x. apply Forall_fmap. eapply Forall_impl; [apply runes_scalar|]. apply orbit_min_scalar. }
  rewrite !foldFolderName_runes. split.
  - intros E%encode_runes_inj; [|done..]. apply list_eq_Forall2 in E.
    rewrite Forall2_fmap in E. eapply Forall2_impl; [exact E|]. intros x y. apply orbit_min_eq.
  - intros Hf. f_equal. apply list_eq_Forall2, Forall2_fmap.
    eapply Forall2_impl; [exact Hf|]. intros x y. apply orbit_min_eq.
Qed.

End fold_names.

(** ** The contract of the folder reducer *)

Definition merge_folders (events : list FolderStateRevision) : folder_merge :=
  fold_left merge_folder events empty_folder.

Lemma folder_pass l m s r :
  range folder_event l (m, s) = Ok r ↔
  ∃ m', range tombstone_event l m = Ok m' ∧ r = (m', fold_left merge_folder l s).
Proof.
  revert m s. induction l as [|e l IH]; intros m s; simpl.
  { split; [intros [= <-]; by eexists|by intros (m' & [= <-] & ->)]. }
  unfold folder_event at 1. simpl.
  destruct (tombstone_event m e) as [m'|]; simpl; [apply IH|by split; [|intros (? & ? & _)]].
Qed.

Section contract.
Context `{Syntax} (repoDID folderID : string) (snapshot : VerifiedFolderSnapshot).
Implicit Types l k : list FolderStateRevision.

Record complete_folder (l : list FolderStateRevision) : Prop := {
  cf_count : 1 ≤ llen l ≤ maxRevisionCount;
  cf_repository : validCanonicalDID repoDID = true;
  cf_folder : validFolderID folderID = true;
  cf_sealed : VerifiedFolderSnapshot_validFor snapshot folderID (llen l) = true;
  cf_events : scannable folder_bytes (admit_folder repoDID folderID snapshot)
                maxRevisionInventoryBytes l;
  cf_causal : Forall (causal_ok (root_folder_ok repoDID folderID) (by_key l)) l;
  cf_root : ∃ root, root ∈ l ∧ is_root root;
  cf_tombstones e : e ∈ l → tombstoned_before l e → ce_live e = false
}.

Definition folder_state (l : list FolderStateRevision) : ReducedFolderState :=
  let merged := merge_folders (sort_events l) in
  let heads := head_keys (all_parents l) l in
  let state := MkReducedFolderState folderID (vfSnapshotID snapshot) (fmName merged) (fmRole merged)
    (fmTombstone merged) heads (digestStringList folder_heads_domain heads) "" (fmHeight merged)
    (llen l) in
  set_rfStateDigest state (digestReducedFolderState state).

Lemma some_root l : llen (filter is_root l) ≠ 0 ↔ ∃ root, root ∈ l ∧ is_root root.
Proof.
  split.
  - intros Hn. destruct (filter is_root l) as [|r rest] eqn:Ef; [done|].
    assert (Hr : r ∈ filter is_root l) by (rewrite Ef; set_solver).
    apply list_elem_of_filter in Hr as [? ?]. eauto.
  - intros (r & Hr & Hroot). assert (Hin : r ∈ filter is_root l) by (by apply list_elem_of_filter).
    destruct (filter is_root l); [set_solver|]. unfold llen. simpl. lia.
Qed.

Lemma reduce_folder_ok l st :
  ReduceFolder repoDID folderID l snapshot = Ok st ↔ complete_folder l ∧ st = folder_state l.
Proof.
  unfold ReduceFolder. split.
  - intros Hr. result_steps. bools. rename a into s, a0 into c.
    match goal with E : range (scan_event _ _ _) _ _ = _ |- _ => apply scan_pass in E as [Hscan ->] end.
    match goal with E : range (causal_event _ _) _ _ = _ |- _ => apply causal_pass in E as [Hcau ->] end.
    match goal with E : range folder_event _ _ = _ |- _ => apply folder_pass in E as (m' & Htomb & ->) end.
    split.
    2: { unfold folder_state. cbn zeta. rewrite (head_keys_perm _ _ _ (sort_events_perm l)).
         by rewrite llen_sort_events. }
    split; try done.
    + split; [|done]. lia.
    + by apply some_root.
    + apply (proj1 (tombstone_pass_ok _ l (sc_keys _ _ _ _ Hscan) Hcau)). by rewrite Htomb.
  - intros [[Hcount Hdid Hfolder Hsealed Hscan Hcau Hroot Htomb] ->].
    rewrite (proj2 (N.ltb_ge _ _)) by lia. rewrite Hdid, Hfolder. simpl negb. cbn [orb].
    rewrite (proj2 (N.eqb_neq _ _)) by lia. rewrite Hsealed. simpl negb.
    rewrite (proj2 (scan_pass _ _ _ l _) (conj Hscan eq_refl)). cbn [result_bind].
    change (scByKey (scan_of folder_bytes l)) with (by_key l).
    rewrite (proj2 (causal_pass _ _ l _) (conj Hcau eq_refl)). cbn [result_bind causal_of caRoots].
    rewrite (proj2 (N.eqb_neq _ _)) by by apply some_root.
    pose proof (proj2 (tombstone_pass_ok _ l (sc_keys _ _ _ _ Hscan) Hcau) Htomb) as Hok.
    destruct (range tombstone_event (sort_events l) ∅) as [m'|] eqn:Em; [|done].
    rewrite (proj2 (folder_pass _ _ empty_folder _) (ex_intro _ m' (conj Em eq_refl))).
    cbn [result_bind causal_of caParented]. rewrite llen_sort_events.
    by rewrite (head_keys_perm _ _ _ (sort_events_perm l)).
Qed.

Lemma complete_folder_perm l k : l ≡ₚ k → complete_folder l → complete_folder k.
Proof.
  intros Hp [Hcount Hdid Hfolder Hsealed Hscan Hcau (r & Hr & Hroot) Htomb].
  assert (Hlen : llen k = llen l) by (unfold llen; by rewrite Hp).
  split; try done; try by rewrite Hlen.
  - by eapply scannable_perm.
  - rewrite <- (by_key_perm l k (sc_keys _ _ _ _ Hscan) Hp). by rewrite <- Hp.
  - exists r. by rewrite <- Hp.
  - intros e He Ht. apply Htomb; [by rewrite Hp|by eapply tombstoned_before_perm].
Qed.

Lemma folder_state_perm l k : NoDup (ce_op <$> l) → l ≡ₚ k → folder_state l = folder_state k.
Proof.
  intros Hops Hp. unfold folder_state. rewrite (sort_events_proper l k Hops Hp).
  rewrite (all_parents_perm l k Hp), (head_keys_perm _ l k Hp).
  assert (llen l = llen k) as -> by (unfold llen; by rewrite Hp). done.
Qed.

(** ** What a complete folder guarantees *)

Record folder_wf (e : FolderStateRevision) : Prop := {
  fe_folder : frFolderID (fsRecord e) = folderID;
  fe_revision : 1 ≤ frRevision (fsRecord e) ≤ maxPortableRevision;
  fe_name : frName (fsRecord e) ≠ "" → validText (frName (fsRecord e)) 255 = true;
  fe_standard role : standardRoleForID repoDID folderID = Some role →
    frrTombstone (fsRecord e) = false ∧
    (¬ is_root e → frName (fsRecord e) = "" ∧ frRole (fsRecord e) = "");
  fe_custom : standardRoleForID repoDID folderID = None → frRole (fsRecord e) = ""
}.

Lemma nonempty_false s : nonempty s = false ↔ s = "".
Proof. unfold nonempty. rewrite negb_false_iff. apply String.eqb_eq. Qed.
Lemma nonempty_true s : nonempty s = true ↔ s ≠ "".
Proof. unfold nonempty. rewrite negb_true_iff. apply String.eqb_neq. Qed.

Lemma validateFolderRevision_wf e :
  validateFolderRevision repoDID folderID e = Ok tt → folder_wf e.
Proof.
  intros Hv. unfold validateFolderRevision in Hv. result_steps. bools. split; try done.
  - lia.
  - intros Hn. apply nonempty_true in Hn.
    match goal with E : nonempty (frName _) && _ = false |- _ => rewrite Hn in E; by apply negb_false_iff in E end.
  - intros role Hrole. rewrite Hrole in *. result_steps. bools. split; [done|]. intros Hroot.
    match goal with E : (0 <? _) && _ = false |- _ => apply andb_false_iff in E as [E|E] end.
    + exfalso. apply Hroot. unfold is_root. simpl. bools. unfold llen in *.
      destruct (elems (frParents (fsRecord e))); [done|simpl in *; lia].
    + bools. by rewrite <- !nonempty_false.
  - intros Hrole. rewrite Hrole in *. result_steps. by apply nonempty_false.
Qed.

Context (l : list FolderStateRevision).
Hypothesis complete : complete_folder l.
Local Abbreviation merged := (merge_folders (sort_events l)).

Lemma complete_folder_wf e : e ∈ l → folder_wf e.
Proof.
  intros He. pose proof (sc_admissible _ _ _ _ (cf_events _ complete)) as Hadm.
  rewrite Forall_forall in Hadm. destruct (Hadm e He) as [_ Ha].
  unfold admit_folder in Ha. result_steps. destruct a as []. by apply validateFolderRevision_wf.
Qed.

Lemma complete_folder_keys : NoDup (ce_key <$> l).
Proof. exact (sc_keys _ _ _ _ (cf_events _ complete)). Qed.
Lemma complete_folder_ops : NoDup (ce_op <$> l).
Proof. exact (sc_ops _ _ _ _ (cf_events _ complete)). Qed.

Lemma complete_folder_bounded e : e ∈ l → ce_revision e < 2 ^ 64 - 1.
Proof.
  intros He. pose proof (fe_revision _ (complete_folder_wf e He)) as Hb.
  unfold maxPortableRevision in Hb. cbn. lia.
Qed.

Lemma folder_root_ok e : e ∈ l → is_root e →
  frRevision (fsRecord e) = 1 ∧ frName (fsRecord e) ≠ "" ∧
  ∀ role, standardRoleForID repoDID folderID = Some role →
    frRole (fsRecord e) = role ∧ frName (fsRecord e) = standard_name role.
Proof.
  intros He Hroot. pose proof (cf_causal _ complete) as Hc. rewrite Forall_forall in Hc.
  specialize (Hc e He). unfold causal_ok, root_folder_ok in Hc. rewrite decide_True in Hc by done.
  apply andb_true_iff in Hc as [Hc Hrole]. bools. split_and!; [done|by apply nonempty_true|].
  intros role Er. rewrite Er in Hrole. by bools.
Qed.

(** A register whose empty value means "not assigned". *)
Lemma folder_text_register (get : folder_merge → string) (val : FolderStateRevision → string) :
  (∀ e m, get (merge_folder m e) = if nonempty (val e) then val e else get m) →
  (∀ e, e ∈ l → val e = "") ∧ get merged = get empty_folder ∨
  ∃ w, winner l (λ e, val e ≠ "") w ∧ get merged = val w.
Proof.
  intros Hget. destruct (optional_register merge_folder empty_folder get
    (λ e, if nonempty (val e) then Some (val e) else None) l) as [[Hn E]|(w & Hw & E)].
  - intros e m. rewrite Hget. by case_match.
  - left. split; [|done]. intros e He. specialize (Hn e He). apply nonempty_false. by case_match.
  - right. exists w. split; [|case_match; unfold merge_folders; congruence].
    eapply winner_ext; [|exact Hw]. intros e. rewrite <- nonempty_true.
    destruct (nonempty (val e)); split; [done|by eexists|by intros []|done].
Qed.

Lemma folder_name_register :
  ∃ w, winner l (λ e, frName (fsRecord e) ≠ "") w ∧ fmName merged = frName (fsRecord w).
Proof.
  destruct (folder_text_register fmName (λ e, frName (fsRecord e))) as [[Hn _]|?]; [done| |done].
  destruct (cf_root _ complete) as (r & Hr & Hroot).
  destruct (folder_root_ok r Hr Hroot) as (_ & Hname & _). by destruct Hname, (Hn r Hr).
Qed.

Lemma folder_tombstone_register :
  fmTombstone merged = true ↔ ∃ e, e ∈ l ∧ frrTombstone (fsRecord e) = true.
Proof.
  unfold merge_folders.
  rewrite (sticky_flag merge_folder fmTombstone (λ e, frrTombstone (fsRecord e))) by done.
  setoid_rewrite elem_of_sort_events. simpl. naive_solver.
Qed.

Lemma folder_height :
  (∀ e, e ∈ l → frRevision (fsRecord e) ≤ fmHeight merged) ∧
  ∃ e, e ∈ l ∧ frRevision (fsRecord e) = fmHeight merged.
Proof.
  destruct (running_max merge_folder fmHeight (sort_events l) empty_folder) as [Hle Hex]; [done|].
  setoid_rewrite elem_of_sort_events in Hle. setoid_rewrite elem_of_sort_events in Hex.
  split; [exact Hle|]. destruct Hex as [E|Hex]; [|exact Hex].
  destruct (cf_root _ complete) as (r & Hr & Hroot). destruct (folder_root_ok r Hr Hroot) as [Hrev _].
  specialize (Hle r Hr). rewrite E in Hle. simpl in *. lia.
Qed.

(** A standard folder only ever has its canonical name and role. *)
Lemma standard_folder_values role :
  standardRoleForID repoDID folderID = Some role →
  fmName merged = standard_name role ∧ fmRole merged = role ∧ fmTombstone merged = false.
Proof.
  intros Hrole.
  assert (Hdec : ∀ e, e ∈ l → frrTombstone (fsRecord e) = false ∧
    (frName (fsRecord e) ≠ "" ∨ frRole (fsRecord e) ≠ "" →
     frName (fsRecord e) = standard_name role ∧ frRole (fsRecord e) = role)).
  { intros e He. destruct (fe_standard _ (complete_folder_wf e He) role Hrole) as [Ht Hnr].
    split; [done|]. intros Hset. destruct (decide (is_root e)) as [Hr|Hr].
    - destruct (folder_root_ok e He Hr) as (_ & _ & Hstd). destruct (Hstd role Hrole); done.
    - destruct (Hnr Hr). by destruct Hset. }
  destruct folder_name_register as (w & (Hw & Hwn & _) & ->).
  destruct (cf_root _ complete) as (r & Hr & Hroot).
  destruct (folder_root_ok r Hr Hroot) as (_ & Hrn & _).
  destruct (Hdec r Hr) as [_ Hrv]. split_and!; [apply Hdec; auto| |].
  - destruct (folder_text_register fmRole (λ e, frRole (fsRecord e))) as [[Hn _]|(v & (Hv & Hva & _) & ->)];
      [done| |apply Hdec; auto].
    exfalso. destruct Hrv as [_ Erole]; [by left|]. rewrite (Hn r Hr) in Erole. subst role.
    apply List.find_some in Hrole as [Hin _]. by vm_compute in Hin; intuition.
  - apply not_true_iff_false. intros (e & He & Ht)%folder_tombstone_register.
    destruct (Hdec e He) as [Hf _]. congruence.
Qed.

End contract.

(** ** The contract of ValidateFolderSet *)

Section folder_set.
Context `{Syntax} `{CaseOrbits} (repoDID : string) (snapshot : VerifiedFolderSetSnapshot).
Implicit Types (l states : list ReducedFolderState) (st : ReducedFolderState).

Definition role_of st : option string := standardRoleForID repoDID (rfFolderID st).
Definition live st : Prop := rfTombstone st = false.

(** What one folder of the set must satisfy on its own. *)
Record folder_ok st : Prop := {
  fo_id : validFolderID (rfFolderID st) = true;
  fo_snapshot : rfSnapshotID st = vzSnapshotID snapshot;
  fo_name : validText (rfName st) 255 = true;
  fo_digest : rfStateDigest st = digestReducedFolderState st;
  fo_proved : vzStateDigests snapshot !! rfFolderID st = Some (rfStateDigest st);
  fo_standard role : role_of st = Some role →
    rfRole st = role ∧ rfName st = standard_name role ∧ live st;
  fo_custom : role_of st = None → rfRole st = "" ∧
    (live st → foldFolderName (rfName st) ∉ reserved_names)
}.

Definition names_distinct l : Prop :=
  ∀ i j s t, l !! i = Some s → l !! j = Some t → live s → live t →
    foldFolderName (rfName s) = foldFolderName (rfName t) → i = j.

Record folder_set (states : list ReducedFolderState) : Prop := {
  fz_count : llen states ≤ maxFolderCount;
  fz_sealed : VerifiedFolderSetSnapshot_validFor snapshot repoDID (llen states) = true;
  fz_folders : Forall folder_ok states;
  fz_ids : NoDup (rfFolderID <$> states);
  fz_names : names_distinct states;
  fz_roles role : role ∈ standardFolderRoles → ∃ st, st ∈ states ∧ role_of st = Some role
}.

Definition live_names l : gmap string string :=
  fold_left (λ m st, if rfTombstone st then m
                     else <[foldFolderName (rfName st) := rfFolderID st]> m) l ∅.
Definition set_of l : folder_set_state :=
  MkFolderSet (list_to_set (rfFolderID <$> l)) (live_names l) (list_to_set (omap role_of l)).

Lemma live_names_snoc l st :
  live_names (l ++ [st]) =
  if rfTombstone st then live_names l
  else <[foldFolderName (rfName st) := rfFolderID st]> (live_names l).
Proof. unfold live_names. by rewrite fold_left_app. Qed.

Lemma live_names_Some l f id :
  live_names l !! f = Some id → ∃ st, st ∈ l ∧ live st ∧ foldFolderName (rfName st) = f ∧ rfFolderID st = id.
Proof.
  unfold live. induction l as [|st l IH] using rev_ind; [done|]. rewrite live_names_snoc.
  destruct (rfTombstone st) eqn:Et; [intros Hl; destruct (IH Hl) as (x & ? & ?); exists x; set_solver|].
  rewrite lookup_insert_Some. intros [[<- <-]|[_ Hl]]; [exists st; set_solver|].
  destruct (IH Hl) as (x & ? & ?). exists x. set_solver.
Qed.

Lemma live_names_None l f :
  live_names l !! f = None → ∀ st, st ∈ l → live st → foldFolderName (rfName st) ≠ f.
Proof.
  unfold live. induction l as [|st l IH] using rev_ind; [set_solver|]. rewrite live_names_snoc.
  intros Hf x [Hx|Hx%list_elem_of_singleton]%elem_of_app Hl.
  - destruct (rfTombstone st); [by apply IH|]. apply lookup_insert_None in Hf as [Hf _]. by apply IH.
  - subst x. rewrite Hl in Hf. by apply lookup_insert_None in Hf as [_ ?].
Qed.

Definition name_free l st : Prop :=
  live st → ∀ x, x ∈ l → live x → foldFolderName (rfName x) ≠ foldFolderName (rfName st).

Lemma names_distinct_snoc l st : names_distinct (l ++ [st]) ↔ names_distinct l ∧ name_free l st.
Proof.
  split.
  - intros Hd. split.
    + intros i j s t Hi Hj. apply Hd; by apply lookup_app_l_Some.
    + intros Hl x Hx Hlx E. apply list_elem_of_lookup in Hx as [i Hi].
      assert (Hlt : (i < List.length l)%nat) by (by eapply lookup_lt_Some).
      assert (i = List.length l); [|lia]. apply (Hd i _ x st); try done.
      * by apply lookup_app_l_Some.
      * by apply list_lookup_middle.
  - intros [Hd Hf] i j s t Hi Hj Hs Ht E.
    apply lookup_app_Some in Hi as [Hi|[Hi Hi']], Hj as [Hj|[Hj Hj']].
    + by eapply Hd.
    + apply list_lookup_singleton_Some in Hj' as [_ <-].
      exfalso. by apply (Hf Ht s); [apply list_elem_of_lookup; eauto|..].
    + apply list_lookup_singleton_Some in Hi' as [_ <-].
      exfalso. by apply (Hf Hs t); [apply list_elem_of_lookup; eauto|..].
    + apply list_lookup_singleton_Some in Hi' as [? _], Hj' as [? _]. lia.
Qed.

Lemma digest_proved st (m : gmap string string) :
  validSHA256Identifier (rfStateDigest st) = true →
  default "" (m !! rfFolderID st) = rfStateDigest st ↔
  m !! rfFolderID st = Some (rfStateDigest st).
Proof.
  intros Hv. destruct (m !! rfFolderID st); simpl; [naive_solver|].
  split; [|done]. intros E. rewrite <- E in Hv. by vm_compute in Hv.
Qed.

Lemma set_of_snoc l st :
  set_of (l ++ [st]) = MkFolderSet ({[rfFolderID st]} ∪ list_to_set (rfFolderID <$> l))
    (if rfTombstone st then live_names l
     else <[foldFolderName (rfName st) := rfFolderID st]> (live_names l))
    (match role_of st with Some role => {[role]} ∪ list_to_set (omap role_of l)
     | None => list_to_set (omap role_of l) end).
Proof.
  unfold set_of. rewrite live_names_snoc, fmap_app, omap_app, !list_to_set_app_L. simpl.
  f_equal; [set_solver|]. destruct (role_of st); simpl; set_solver.
Qed.

(** The live-name test of the loop, once the folder's ID is new. *)
Lemma name_test l st :
  rfFolderID st ∉ (rfFolderID <$> l) →
  match live_names l !! foldFolderName (rfName st) with
  | Some other => negb (String.eqb other (rfFolderID st))
  | None => false
  end = false ↔ ∀ x, x ∈ l → live x → foldFolderName (rfName x) ≠ foldFolderName (rfName st).
Proof.
  intros Hid. destruct (live_names l !! foldFolderName (rfName st)) as [id|] eqn:El.
  - apply live_names_Some in El as (x & Hx & Hlx & E & <-).
    destruct (String.eqb_spec (rfFolderID x) (rfFolderID st)) as [Ei|_].
    + exfalso. apply Hid. rewrite <- Ei. apply list_elem_of_fmap. eauto.
    + split; [done|]. intros Hall. by destruct (Hall x Hx Hlx).
  - split; [intros _; by apply live_names_None|done].
Qed.

Lemma folder_set_step_ok l st s' :
  folder_set_step repoDID snapshot (set_of l) st = Ok s' ↔
  folder_ok st ∧ rfFolderID st ∉ (rfFolderID <$> l) ∧ name_free l st ∧ s' = set_of (l ++ [st]).
Proof.
  rewrite set_of_snoc. unfold folder_set_step, set_of.
  cbn [zsSeenIDs zsLiveNames zsStandardRoles]. fold (role_of st). split.
  - intros Hs. result_steps. bools.
    match goal with E : (_ ∉ list_to_set _) |- _ => rewrite elem_of_list_to_set in E; rename E into Hid end.
    match goal with E : default _ _ = _ |- _ =>
      apply digest_proved in E; [rename E into Hproved|done] end.
    destruct (role_of st) as [role|] eqn:Er, (rfTombstone st) eqn:Et; result_steps; bools;
      simpl in *; bools; try done;
      try match goal with E : _ = false |- _ =>
        pose proof (proj1 (name_test l st Hid) E) end;
      unfold name_free, live; split_and!; auto; try (intros; congruence);
      split; unfold live; intros; simplify_eq; try done.
    + split; [by apply nonempty_false|congruence].
    + split; [by apply nonempty_false|done].
  - intros ([Hid Hsnap Hname Hdig Hproved Hstd Hcus] & Hnew & Hfree & ->).
    assert (Hv : validSHA256Identifier (rfStateDigest st) = true)
      by (rewrite Hdig; apply digestBytes_valid).
    rewrite Hid, Hsnap, Hname, Hv, <- Hdig, !String.eqb_refl. simpl negb. cbn [orb].
    rewrite bool_decide_eq_false_2 by (by rewrite elem_of_list_to_set).
    rewrite (proj2 (digest_proved st _ Hv)), String.eqb_refl by done. simpl negb.
    pose proof (name_test l st Hnew) as Hnt. unfold name_free, live in *.
    destruct (role_of st) as [role|] eqn:Er.
    + destruct (Hstd role eq_refl) as (Hr%String.eqb_eq & Hn%String.eqb_eq & Hl).
      rewrite Hr, Hn, Hl. simpl. rewrite (proj2 Hnt) by auto. done.
    + destruct (Hcus eq_refl) as (-> & Hres). simpl.
      destruct (rfTombstone st); [done|]. rewrite bool_decide_eq_false_2 by auto.
      rewrite (proj2 Hnt) by auto. done.
Qed.

Lemma folder_set_pass l s' :
  range (folder_set_step repoDID snapshot) l (MkFolderSet ∅ ∅ ∅) = Ok s' ↔
  Forall folder_ok l ∧ NoDup (rfFolderID <$> l) ∧ names_distinct l ∧ s' = set_of l.
Proof.
  change (MkFolderSet ∅ ∅ ∅) with (set_of []).
  revert s'. induction l as [|st l IH] using rev_ind; intros s'.
  { simpl. split; [intros [= <-]|by intros (_ & _ & _ & ->)].
    split_and!; [constructor..| |done]. intros i j s t Hi. by rewrite lookup_nil in Hi. }
  assert (Hnd : NoDup (rfFolderID <$> l ++ [st]) ↔
    NoDup (rfFolderID <$> l) ∧ rfFolderID st ∉ (rfFolderID <$> l)).
  { rewrite fmap_app, NoDup_app. simpl. pose proof (NoDup_singleton (rfFolderID st)). set_solver. }
  rewrite range_app, Hnd, names_distinct_snoc, Forall_app, Forall_singleton.
  destruct (range (folder_set_step repoDID snapshot) l (set_of [])) as [s|e] eqn:El.
  - destruct (proj1 (IH s) eq_refl) as (? & ? & ? & ->). cbn [result_bind range].
    destruct (folder_set_step repoDID snapshot (set_of l) st) as [s2|e] eqn:Es; cbn [result_bind].
    + apply folder_set_step_ok in Es as (? & ? & ? & ->). split; [by intros [= <-]|].
      by intros (_ & _ & _ & ->).
    + split; [done|]. intros ([_ ?] & [_ ?] & [_ ?] & ->). exfalso.
      pose proof (proj2 (folder_set_step_ok l st (set_of (l ++ [st])))) as Hs.
      rewrite Es in Hs. discriminate Hs. by split_and!.
  - cbn [result_bind]. split; [done|]. intros ([? _] & [? _] & [? _] & _). exfalso.
    pose proof (proj2 (IH (set_of l))) as Hs. discriminate Hs. by split_and!.
Qed.

Lemma all_roles_present l :
  size (list_to_set (omap role_of l) : gset string) = List.length standardFolderRoles ↔
  ∀ role, role ∈ standardFolderRoles → ∃ st, st ∈ l ∧ role_of st = Some role.
Proof.
  assert (Hnd : NoDup standardFolderRoles) by (apply (bool_decide_unpack (NoDup _)); by vm_compute).
  assert (Hsub : (list_to_set (omap role_of l) : gset string) ⊆ list_to_set standardFolderRoles).
  { intros r. rewrite !elem_of_list_to_set, list_elem_of_omap. intros (st & _ & Hr).
    apply List.find_some in Hr as [Hr _]. by apply list_elem_of_In. }
  rewrite <- (size_list_to_set (C := gset string) standardFolderRoles Hnd).
  split.
  - intros Hsize role Hrole.
    pose proof (set_subseteq_size_equiv _ _ Hsub ltac:(lia)) as Heq.
    assert (Hin : role ∈ (list_to_set (omap role_of l) : gset string))
      by (rewrite Heq; by apply elem_of_list_to_set).
    by rewrite elem_of_list_to_set, list_elem_of_omap in Hin.
  - intros Hall. f_equal. apply set_eq. intros r. split; [apply Hsub|].
    rewrite !elem_of_list_to_set, list_elem_of_omap. apply Hall.
Qed.

Lemma validate_folder_set_ok states :
  ValidateFolderSet repoDID states snapshot = Ok tt ↔ folder_set states.
Proof.
  unfold ValidateFolderSet. split.
  - intros Hv. result_steps. bools.
    match goal with E : range _ _ _ = _ |- _ => apply folder_set_pass in E as (? & ? & ? & ->) end.
    split; try done. apply all_roles_present. cbn [set_of zsStandardRoles] in *. unfold llen in *. lia.
  - intros [Hcount Hsealed Hok Hids Hnames Hroles].
    rewrite (proj2 (N.ltb_ge _ _)), Hsealed by lia. simpl negb. cbv iota.
    rewrite (proj2 (folder_set_pass states (set_of states))) by (by split_and!).
    cbn [result_bind set_of zsStandardRoles]. apply all_roles_present in Hroles. rewrite Hroles.
    unfold llen. by rewrite N.eqb_refl.
Qed.

End folder_set.

(** The order in which the roles are visited does not matter: two standard folders of one
    repository have different identities, unless SHA-256 collides on them. *)
Lemma standardRoleForID_any_order `{SyntaxLaws} (repoDID folderID role : string) :
  len repoDID < 2 ^ 64 →
  StandardFolderID repoDID role = Ok folderID →
  ∃ role', standardRoleForID repoDID folderID = Some role' ∧
    (role' = role ∨ collision (standard_folder_bytes repoDID role') (standard_folder_bytes repoDID role)).
Proof.
  intros Hlen Hid. pose proof (StandardFolderID_ok _ _ _ Hid) as (_ & Hrole & _).
  unfold standardRoleForID.
  destruct (List.find _ _) as [role'|] eqn:Ef.
  - exists role'. split; [done|]. apply List.find_some in Ef as [_ Ef].
    destruct (StandardFolderID repoDID role') as [id'|] eqn:Eid; [|done]. bools. subst.
    destruct (standard_folder_inj _ _ _ _ _ Hlen Hlen Eid Hid) as [[_ ?]|?]; auto.
  - exfalso. apply list_elem_of_In, (List.find_none _ _ Ef) in Hrole. rewrite Hid, String.eqb_refl in Hrole. done.
Qed.

(** A reduced folder satisfies everything [ValidateFolderSet] asks of a folder on its own, as
    far as the folder's own revisions can guarantee it. *)
Lemma reduced_folder_valid `{Syntax} repoDID folderID l snapshot st :
  ReduceFolder repoDID folderID l snapshot = Ok st →
  rfFolderID st = folderID ∧ rfSnapshotID st = vfSnapshotID snapshot ∧
  validFolderID folderID = true ∧ validText (rfName st) 255 = true ∧
  rfStateDigest st = digestReducedFolderState st ∧
  (∀ role, standardRoleForID repoDID folderID = Some role →
     rfRole st = role ∧ rfName st = standard_name role ∧ rfTombstone st = false) ∧
  (standardRoleForID repoDID folderID = None → rfRole st = "").
Proof.
  intros [Hc ->]%reduce_folder_ok. unfold folder_state. cbn zeta. simpl.
  split_and!; try done; [by destruct Hc| | |].
  - destruct (folder_name_register _ _ _ _ Hc) as (w & (Hw & Hn & _) & ->).
    by apply (fe_name _ _ _ (complete_folder_wf _ _ _ _ Hc w Hw)).
  - intros role Hrole. destruct (standard_folder_values _ _ _ _ Hc role Hrole) as (? & ? & ?). done.
  - intros Hrole. destruct (folder_text_register l fmRole (λ e, frRole (fsRecord e)))
      as [[_ E]|(w & (Hw & Hne & _) & _)]; [done|done|].
    by destruct Hne, (fe_custom _ _ _ (complete_folder_wf _ _ _ _ Hc w Hw)).
Qed.

(** ** A sealed example: two concurrent creations of the inbox and the revision merging them *)
Section example.

Definition example_inbox : string :=
  match StandardFolderID example_did "inbox" with Ok id => id | Err _ => "" end.

Definition with_folder_key (r : FolderRevisionRecord) : FolderStateRevision :=
  MkFolderStateRevision (match FolderRevisionRKey example_did r with Ok k => k | Err _ => "" end) r.

Definition example_creation (op : string) : FolderStateRevision :=
  with_folder_key (MkFolderRevisionRecord FolderRevisionCollection example_inbox op (Some []) 1
    "Inbox" "inbox" false false "2024-01-02T03:04:05Z").
Definition example_f1 : FolderStateRevision := example_creation "create-1".
Definition example_f2 : FolderStateRevision := example_creation "create-2".
Definition example_f3 : FolderStateRevision :=
  with_folder_key (MkFolderRevisionRecord FolderRevisionCollection example_inbox "merge"
    (Some (sort_strings [fsRKey example_f1; fsRKey example_f2])) 2 "" "" false true
    "2024-01-02T03:04:06Z").
Definition example_folder_revisions : list FolderStateRevision := [example_f3; example_f1; example_f2].

Definition folder_claims_of (l : list FolderStateRevision) : gmap string string :=
  list_to_map (omap (λ e, match NewFolderOperationClaim example_did e with
                         | Ok c => Some (focRKey c, fsRKey e) | Err _ => None end) l).

Definition seal_folder (v : VerifiedFolderSnapshot) : VerifiedFolderSnapshot :=
  MkVerifiedFolderSnapshot (vfSnapshotID v) (vfFolderID v) (vfRevisionCount v) (vfOperationClaims v)
    (VerifiedFolderSnapshot_snapshotSeal v).

Definition example_folder_snapshot : VerifiedFolderSnapshot :=
  seal_folder (MkVerifiedFolderSnapshot "snapshot-1" example_inbox 3
    (folder_claims_of example_folder_revisions) "").

Definition example_folder_state : ReducedFolderState :=
  match ReduceFolder example_did example_inbox example_folder_revisions example_folder_snapshot with
  | Ok st => st
  | Err _ => MkReducedFolderState "" "" "" "" false [] "" "" 0 0
  end.

Lemma example_folder_ok :
  is_ok (ReduceFolder example_did example_inbox example_folder_revisions example_folder_snapshot) = true.
Proof. vm_compute. reflexivity. Qed.

Lemma example_folder_reduces :
  ReduceFolder example_did example_inbox example_folder_revisions example_folder_snapshot =
  Ok example_folder_state.
Proof. unfold example_folder_state. pose proof example_folder_ok. by destruct (ReduceFolder _ _ _ _). Qed.

End example.

(** ** Properties *)

(** Folder convergence: every permutation of the revisions reduces to the same folder
    state, digests included. *)
Theorem folder_order_independent `{Syntax} (repoDID folderID : string)
    (snapshot : VerifiedFolderSnapshot) (l k : list FolderStateRevision) (st : ReducedFolderState)
    (Hp : l ≡ₚ k) (Hl : ReduceFolder repoDID folderID l snapshot = Ok st) :
  ReduceFolder repoDID folderID k snapshot = Ok st.
Proof.
  apply reduce_folder_ok in Hl as [Hc ->]. apply reduce_folder_ok.
  split; [by eapply complete_folder_perm|]. apply folder_state_perm; [|done].
  by eapply complete_folder_ops.
Qed.

Lemma folder_order_independent_witness :
  ReduceFolder example_did example_inbox [example_f1; example_f2; example_f3] example_folder_snapshot =
  Ok example_folder_state.
Proof.
  apply (folder_order_independent _ _ _ example_folder_revisions); [|exact example_folder_reduces].
  apply (Permutation_cons_append [example_f1; example_f2]).
Defined.

(** Folder registers and history: name and role are those of the greatest assigning
    revision by (height, operation ID), the name is never empty, a tombstone is never undone,
    every revision descends from a creation, none precedes itself, the heads are exactly the
    childless revisions and the height is the greatest revision number. *)
Theorem folder_registers `{Syntax} (repoDID folderID : string) (snapshot : VerifiedFolderSnapshot)
    (l : list FolderStateRevision) (st : ReducedFolderState)
    (Hr : ReduceFolder repoDID folderID l snapshot = Ok st) :
  (∃ w, winner l (λ e, frName (fsRecord e) ≠ "") w ∧ rfName st = frName (fsRecord w)) ∧
  ((∀ e, e ∈ l → frRole (fsRecord e) = "") ∧ rfRole st = "" ∨
   ∃ w, winner l (λ e, frRole (fsRecord e) ≠ "") w ∧ rfRole st = frRole (fsRecord w)) ∧
  (rfTombstone st = true ↔ ∃ e, e ∈ l ∧ frrTombstone (fsRecord e) = true) ∧
  (∀ e, e ∈ l → ∃ r, r ∈ l ∧ is_root r ∧ (e = r ∨ ancestor l r e)) ∧
  (∀ e, e ∈ l → ¬ ancestor l e e) ∧
  (∀ k, k ∈ rfHeads st ↔ ∃ e, e ∈ l ∧ fsRKey e = k ∧ ∀ c, c ∈ l → k ∉ ce_parents c) ∧
  ((∀ e, e ∈ l → frRevision (fsRecord e) ≤ rfHeight st) ∧
   ∃ e, e ∈ l ∧ frRevision (fsRecord e) = rfHeight st).
Proof.
  apply reduce_folder_ok in Hr as [Hc ->]. unfold folder_state. cbn zeta. simpl.
  pose proof (complete_folder_keys _ _ _ _ Hc) as Hkeys. pose proof (cf_causal _ _ _ _ Hc) as Hcau.
  pose proof (folder_height _ _ _ _ Hc) as Hheight.
  split_and!; try apply Hheight.
  - by eapply folder_name_register.
  - by apply (folder_text_register l fmRole (λ e, frRole (fsRecord e))).
  - apply folder_tombstone_register.
  - intros e. apply (reached_from_root _ l Hkeys Hcau). by eapply complete_folder_bounded.
  - intros e He Ha. pose proof (ancestor_lower _ l Hkeys Hcau e e He Ha). lia.
  - intros k. exact (elem_of_heads l k).
Qed.

Lemma folder_registers_witness :
  ∃ w, winner example_folder_revisions (λ e, frName (fsRecord e) ≠ "") w ∧
    rfName example_folder_state = frName (fsRecord w).
Proof. exact (proj1 (folder_registers _ _ _ _ _ example_folder_reduces)). Defined.

(** Standard folders are immutable: whatever its history, a reduced standard folder has
    its canonical role and name and is not deleted, and a reduced custom folder has no role;
    every reduced folder has a valid name and a state digest that matches its contents. *)
Theorem standard_folder_fixed `{Syntax} (repoDID folderID : string) (snapshot : VerifiedFolderSnapshot)
    (l : list FolderStateRevision) (st : ReducedFolderState)
    (Hr : ReduceFolder repoDID folderID l snapshot = Ok st) :
  (∀ role, standardRoleForID repoDID folderID = Some role →
     rfRole st = role ∧ rfName st = standard_name role ∧ rfTombstone st = false) ∧
  (standardRoleForID repoDID folderID = None → rfRole st = "") ∧
  validText (rfName st) 255 = true ∧ rfStateDigest st = digestReducedFolderState st.
Proof. by destruct (reduced_folder_valid _ _ _ _ _ Hr) as (_ & _ & _ & ? & ? & ? & ?). Qed.

Lemma standard_folder_fixed_witness : validText (rfName example_folder_state) 255 = true.
Proof. exact (proj1 (proj2 (proj2 (standard_folder_fixed _ _ _ _ _ example_folder_reduces)))). Defined.

(** C36. [ValidateFolderSet] accepts exactly the admissible folder sets: sealed and proved
    folder by folder, no identity twice, no two live names equal up to case, no live custom
    folder under a reserved name, and all seven standard folders present. *)
Theorem folder_set_contract `{Syntax} `{CaseOrbits} (repoDID : string)
    (states : list ReducedFolderState) (snapshot : VerifiedFolderSetSnapshot) :
  ValidateFolderSet repoDID states snapshot = Ok tt ↔ folder_set repoDID snapshot states.
Proof. apply validate_folder_set_ok. Qed.

(** C37. Two folder names collide exactly when they are equal rune by rune up to simple case
    folding; the folding loop always ends and picks the smallest equivalent rune. *)
Theorem folder_names_fold `{CaseOrbitsLaws} (a b : string) :
  (foldFolderName a = foldFolderName b ↔ Forall2 (λ r c, c ∈ orbit r) (runes a) (runes b)) ∧
  Forall (λ r, ∃ m, fold_rune r = Some m ∧ m ∈ orbit r ∧ ∀ c, c ∈ orbit r → m ≤ c) (runes a).
Proof.
  split; [apply foldFolderName_eq|]. apply Forall_forall. intros r _. exists (orbit_min r).
  split_and!; [apply fold_rune_min|apply orbit_min_in|intros; by apply orbit_min_le].
Qed.

Lemma folder_names_fold_witness : foldFolderName "INBOX" = foldFolderName "inbox".
Proof.
  apply (proj2 (proj1 (folder_names_fold "INBOX" "inbox"))).
  apply (bool_decide_unpack (Forall2 _ _ _)). vm_compute. exact I.
Defined.

(** A folder revision's key commits to the repository and the whole revision, up to an
    explicit SHA-256 collision. *)
Theorem folder_key_binds `{SyntaxLaws} (d1 d2 : string) (r1 r2 : FolderRevisionRecord) (k : string)
    (T1 : folder_typed r1) (T2 : folder_typed r2)
    (H1 : FolderRevisionRKey d1 r1 = Ok k) (H2 : FolderRevisionRKey d2 r2 = Ok k) :
  (d1 = d2 ∧ normal_folder r1 = normal_folder r2) ∨
  collision (folder_preimage d1 (encode_folder_revision r1))
    (folder_preimage d2 (encode_folder_revision r2)).
Proof. by eapply folder_key_inj. Qed.

Lemma folder_key_binds_witness :
  let r := fsRecord (example_creation "create-1") in
  (example_did = example_did ∧ normal_folder r = normal_folder r) ∨
  collision (folder_preimage example_did (encode_folder_revision r))
    (folder_preimage example_did (encode_folder_revision r)).
Proof. apply (folder_key_binds _ _ _ _ (fsRKey (example_creation "create-1"))); by vm_compute. Defined.

(** Standard folder identities are deterministic and distinct: the identity computed for a
    role is recognised as a standard folder whatever order the roles are visited in, and two
    identities are equal only for the same repository and role, up to an explicit SHA-256
    collision. *)
Theorem standard_folder_identity `{SyntaxLaws} (d1 d2 r1 r2 id : string)
    (L1 : len d1 < 2 ^ 64) (L2 : len d2 < 2 ^ 64)
    (H1 : StandardFolderID d1 r1 = Ok id) (H2 : StandardFolderID d2 r2 = Ok id) :
  ((d1 = d2 ∧ r1 = r2) ∨ collision (standard_folder_bytes d1 r1) (standard_folder_bytes d2 r2)) ∧
  ∃ role, standardRoleForID d1 id = Some role ∧
    (role = r1 ∨ collision (standard_folder_bytes d1 role) (standard_folder_bytes d1 r1)).
Proof. split; [by eapply standard_folder_inj|by apply standardRoleForID_any_order]. Qed.

Lemma standard_folder_identity_witness :
  ∃ role, standardRoleForID example_did example_inbox = Some role ∧
    (role = "inbox" ∨ collision (standard_folder_bytes example_did role)
       (standard_folder_bytes example_did "inbox")).
Proof.
  apply (standard_folder_identity example_did example_did "inbox" "inbox"); by vm_compute.
Defined.
