(* ===== verification/Reduced.v ===== *)
(** * The histories the two reducers accept, and the states they mean

    revision.go and folder_revision.go check and fold an inventory in passes.  This file says
    what they compute without any of the passes: [Messages.sound_history] and
    [Folders.sound_history] are the inventories a careful reader would accept, stated on the
    fields of the records and the parent relation between them, [Messages.meaning] and
    [Folders.meaning] are the states such a history has, register by register.  The theorems
    show that [Reduce] and [ReduceFolder] accept exactly the sound histories and answer exactly
    their meaning. *)
From S2P Require Import Prelude Sha256 GoStd Syntax Unicode Canonical Causal Revision FolderRevision.

(** ** Histories over any kind of record *)

Section history.
Context {E : Type} (key op : E → string) (parents : E → list string) (revision : E → N).
Implicit Types l : list E.

(** [p] is a parent of [e]; its transitive closure is the happened-before order. *)
Definition names_parent (l : list E) (p e : E) : Prop := p ∈ l ∧ key p ∈ parents e.
Definition happened_before (l : list E) : E → E → Prop := tc (names_parent l).

(** Every record has its own key and operation, all the parents it names are present and
    strictly lower, and it is one higher than one of them. *)
Record causal_history (l : list E) : Prop := {
  hi_keys : NoDup (key <$> l);
  hi_operations : NoDup (op <$> l);
  hi_parents e k : e ∈ l → k ∈ parents e →
    ∃ p, p ∈ l ∧ key p = k ∧ revision p < revision e;
  hi_height e : e ∈ l → parents e ≠ [] →
    ∃ p, names_parent l p e ∧ revision e = revision p + 1
}.

(** Of the records that assign a register the last one: the highest, and of concurrent records
    of the same height the one with the greatest operation. *)
Definition latest (l : list E) (assigns : E → Prop) (w : E) : Prop :=
  w ∈ l ∧ assigns w ∧ ∀ e, e ∈ l → assigns e →
    revision e < revision w ∨ (revision e = revision w ∧ (op e = op w ∨ str_lt (op e) (op w))).

(** The sorted list of the keys that no record names as a parent. *)
Definition are_heads (l : list E) (heads : list string) : Prop :=
  StronglySorted str_lt heads ∧
  ∀ k, k ∈ heads ↔ (∃ e, e ∈ l ∧ key e = k) ∧ ∀ c, c ∈ l → k ∉ parents c.

Definition greatest_revision (l : list E) (height : N) : Prop :=
  (∀ e, e ∈ l → revision e ≤ height) ∧ ∃ e, e ∈ l ∧ revision e = height.

(** The canonical encodings of the records exist and fit the budgets. *)
Definition encodings_fit (encode : E → result string) (each total : N) (l : list E) : Prop :=
  ∃ encodings, Forall2 (λ e b, encode e = Ok b ∧ len b ≤ each) l encodings ∧
    foldr N.add 0 (len <$> encodings) ≤ total.

End history.

Lemma greatest_unique {E} (revision : E → N) l h h' :
  greatest_revision revision l h → greatest_revision revision l h' → h = h'.
Proof.
  intros [Hle (e & He & Ee)] [Hle' (e' & He' & Ee')]. specialize (Hle e' He'). specialize (Hle' e He). lia.
Qed.

Lemma str_lt_nodup l : StronglySorted str_lt l → NoDup l.
Proof.
  induction 1 as [|x l _ IH Hx]; constructor; [|done]. intros Hin. rewrite Forall_forall in Hx.
  by apply (str_lt_irrefl x), Hx.
Qed.

Lemma str_le_strict l : StronglySorted str_le l → NoDup l → StronglySorted str_lt l.
Proof.
  induction 1 as [|x l _ IH Hx]; intros Hnd; constructor; apply NoDup_cons in Hnd as [Hn Hnd]; [auto|].
  rewrite Forall_forall in *. intros y Hy. destruct (proj1 (str_le_lt x y) (Hx y Hy)) as [| ->]; done.
Qed.

(** A strictly sorted list is determined by its elements. *)
Lemma str_lt_extensional l k :
  StronglySorted str_lt l → StronglySorted str_lt k → (∀ x, x ∈ l ↔ x ∈ k) → l = k.
Proof.
  intros Hl Hk Hx.
  assert (Hle : ∀ m, StronglySorted str_lt m → StronglySorted str_le m).
  { induction 1 as [|x m _ IH Hm]; constructor; [done|]. eapply Forall_impl; [exact Hm|].
    intros y Hy. apply str_le_lt. by left. }
  apply (StronglySorted_unique str_le); [auto..|].
  by apply NoDup_Permutation; [apply str_lt_nodup|apply str_lt_nodup|].
Qed.

(** The loops that compare each value of a list with the one before. *)
Lemma sorted_loop (valid : string → bool) (loop : option string → list string → bool) :
  (∀ p, loop p [] = true) →
  (∀ p v vs, loop p (v :: vs) =
     valid v && match p with Some q => bool_decide (str_lt q v) | None => true end && loop (Some v) vs) →
  ∀ values previous, loop previous values = true ↔
    StronglySorted str_lt values ∧ (∀ p, previous = Some p → Forall (str_lt p) values) ∧
    ∀ v, v ∈ values → valid v = true.
Proof.
  intros Hnil Hcons. induction values as [|v values IH]; intros previous.
  { rewrite Hnil. split; [intros _; split_and!; [constructor|constructor|set_solver]|done]. }
  rewrite Hcons, !andb_true_iff, IH. split.
  - intros [[Hv Hp] (Hs & Hall & Hid)]. specialize (Hall v eq_refl). split_and!.
    + by constructor.
    + intros p ->. bools. constructor; [done|]. eapply Forall_impl; [exact Hall|].
      intros x Hx. by eapply str_lt_trans.
    + intros x [->|Hx]%elem_of_cons; auto.
  - intros (Hs & Hall & Hid). apply StronglySorted_inv in Hs as [Hs Hf]. split_and!.
    + apply Hid. set_solver.
    + destruct previous as [p|]; [|done]. specialize (Hall p eq_refl).
      apply Forall_cons in Hall as [Hp _]. by apply bool_decide_eq_true.
    + done.
    + by intros p [= <-].
    + intros x Hx. apply Hid. set_solver.
Qed.

(** ** The passes of Causal.v compute these notions *)

Section passes.
Context {E : Type} `{CausalEvent E}.
Implicit Types l : list E.
#[local] Notation causal_history := (causal_history (E := E) ce_key ce_op ce_parents ce_revision).
#[local] Notation happened_before := (happened_before (E := E) ce_key ce_parents).
#[local] Notation latest := (latest (E := E) ce_op ce_revision).
#[local] Notation are_heads := (are_heads (E := E) ce_key ce_parents).

Lemma ancestor_before l a e : ancestor l a e ↔ happened_before l a e.
Proof.
  split.
  - induction 1 as [e Hp|p e _ IH Hp]; [by constructor|]. eapply tc_r; [exact IH|exact Hp].
  - induction 1 as [a e Hp|a p e Hp _ IH]; [by constructor|].
    induction IH as [e Hpe|q e _ IHq Hq]; [eapply ancestor_step; [by constructor|done]|].
    by eapply ancestor_step.
Qed.

Lemma winner_latest l (P : E → Prop) w : winner l P w ↔ latest l P w.
Proof.
  unfold winner, latest, event_le. setoid_rewrite str_le_lt. naive_solver.
Qed.

Lemma head_keys_are_heads l heads :
  NoDup (ce_key <$> l) → heads = head_keys (all_parents l) l ↔ are_heads l heads.
Proof.
  intros Hnd.
  assert (Hall : are_heads l (head_keys (all_parents l) l)).
  { split; [|intros k; rewrite elem_of_heads; naive_solver].
    apply str_le_strict; [apply sort_strings_sorted|]. unfold head_keys. rewrite sort_strings_perm.
    by apply NoDup_filter. }
  split; [by intros ->|]. intros [Hs Hk]. destruct Hall as [Hs' Hk'].
  apply str_lt_extensional; [done..|]. intros x. by rewrite Hk, Hk'.
Qed.

Lemma parent_max_le (m : gmap string E) p ps n :
  p ∈ ps → from_option ce_revision 0 (m !! p) ≤ parent_max m ps n.
Proof.
  induction ps as [|q ps IH] using rev_ind; [set_solver|].
  unfold parent_max. rewrite fold_left_app. simpl. fold (parent_max m ps n).
  intros [Hp| ->%list_elem_of_singleton]%elem_of_app; [specialize (IH Hp)|]; lia.
Qed.

Lemma parent_max_least (m : gmap string E) ps n top :
  n ≤ top → (∀ p q, p ∈ ps → m !! p = Some q → ce_revision q ≤ top) → parent_max m ps n ≤ top.
Proof.
  intros Hn. induction ps as [|p ps IH] using rev_ind; intros Hall; [done|].
  unfold parent_max. rewrite fold_left_app. simpl. fold (parent_max m ps n).
  apply N.max_lub; [apply IH; intros q e Hq; apply Hall; set_solver|].
  destruct (m !! p) as [q|] eqn:Eq; simpl; [|lia]. apply (Hall p); [set_solver|done].
Qed.

(** The second pass accepts the causal histories whose first records are admissible. *)
Lemma causal_history_iff (root_ok : E → bool) l :
  NoDup (ce_key <$> l) → NoDup (ce_op <$> l) → (∀ e, e ∈ l → ce_revision e < 2 ^ 64 - 1) →
  Forall (causal_ok root_ok (by_key l)) l ↔
  causal_history l ∧ ∀ e, e ∈ l → ce_parents e = [] → root_ok e = true.
Proof.
  intros Hkeys Hops Hbound. split.
  - intros Hc. split.
    + split; [done..| |].
      * intros e k He Hk. exact (parent_is_lower root_ok l Hkeys Hc e k He Hk).
      * intros e He Hnr. exact (one_higher root_ok l Hkeys Hc Hbound e He Hnr).
    + intros e He Hroot. rewrite Forall_forall in Hc. specialize (Hc e He). unfold causal_ok in Hc.
      by rewrite decide_True in Hc.
  - intros [[_ _ Hpar Hhigh] Hroot]. rewrite Forall_forall. intros e He. unfold causal_ok.
    case_decide as Hr; [by apply Hroot|]. split.
    + intros p Hp. destruct (Hpar e p He Hp) as (q & Hq & Hk & Hlt). exists q.
      split; [by apply by_key_Some|done].
    + destruct (Hhigh e He Hr) as (p & [Hp Hpk] & Hrev).
      pose proof (parent_max_le (by_key l) (ce_key p) (ce_parents e) 0 Hpk) as Hle.
      rewrite (proj2 (by_key_Some l (ce_key p) p Hkeys)) in Hle by done. simpl in Hle.
      assert (Hge : parent_max (by_key l) (ce_parents e) 0 ≤ ce_revision p).
      { apply parent_max_least; [lia|]. intros k q Hk Hq. apply by_key_Some in Hq as [Hq Hqk]; [|done].
        destruct (Hpar e k He Hk) as (q' & Hq' & Hqk' & Hlt).
        assert (q' = q) as -> by (apply (same_key_same_event l); [done..|congruence]). lia. }
      unfold u64. rewrite N.mod_small; [lia|]. specialize (Hbound p Hp). lia.
Qed.

(** The byte budget of the first pass. *)
Lemma encodings_fit_iff (encode : E → result string) (canonical_len : E → result N) each total l :
  (∀ e n, canonical_len e = Ok n ↔ ∃ b, encode e = Ok b ∧ len b ≤ each ∧ n = len b) →
  Forall (λ e, is_ok (canonical_len e) = true) l ∧ total_size canonical_len l ≤ total ↔
  encodings_fit encode each total l.
Proof.
  intros Hlen.
  assert (Hsum : ∀ bs, Forall2 (λ e b, encode e = Ok b ∧ len b ≤ each) l bs →
    total_size canonical_len l = foldr N.add 0 (len <$> bs)).
  { induction 1 as [|e b l bs [He Hb] _ IH]; [done|]. change (e :: l) with ([e] ++ l).
    rewrite total_size_app, IH. unfold total_size. simpl. unfold size_of.
    by rewrite (proj2 (Hlen e (len b)) (ex_intro _ b (conj He (conj Hb eq_refl)))). }
  split.
  - intros [Hok Htot].
    assert (Hbs : ∃ bs, Forall2 (λ e b, encode e = Ok b ∧ len b ≤ each) l bs).
    { clear -Hok Hlen. induction Hok as [|e l He _ [bs IH]]; [by exists []|].
      destruct (canonical_len e) as [n|] eqn:En; [|done]. apply Hlen in En as (b & Eb & Hb & _).
      exists (b :: bs). by constructor. }
    destruct Hbs as [bs Hbs]. exists bs. split; [done|]. by rewrite <- (Hsum bs Hbs).
  - intros (bs & Hbs & Htot). rewrite (Hsum bs Hbs). split; [|done].
    apply Forall_forall. intros e He. apply list_elem_of_lookup in He as [i Hi].
    destruct (Forall2_lookup_l _ _ _ _ _ Hbs Hi) as (b & _ & Eb & Hb).
    by rewrite (proj2 (Hlen e (len b)) (ex_intro _ b (conj Eb (conj Hb eq_refl)))).
Qed.

End passes.

(** A check of the code that is passed. *)
Ltac passes := match goal with |- (if ?b then _ else _) = Ok _ => replace b with false end.

(** ** Message states *)

Module Messages.
Section specification.
Context `{Syntax} (repoDID logicalMessageID : string) (inventory : VerifiedSnapshot).
Implicit Types l : list StateRevision.

Definition revision_parents (e : StateRevision) : list string := elems (rrParents (srRecord e)).
Definition height_of (e : StateRevision) : N := rrRevision (srRecord e).
Definition operation_of (e : StateRevision) : string := rrOperationID (srRecord e).

Definition assigns_nothing (r : RevisionRecord) : Prop :=
  rrVersion r = "" ∧ rrMailboxIDs r = None ∧ elems (rrKeywords r) = [] ∧ rrDeletePending r = None.

(** A folder the snapshot proves, and one that lives. *)
Definition proved_folder (f : string) : Prop :=
  ∃ ref, vsFolders inventory !! f = Some ref ∧ validSHA256Identifier (frStateDigest ref) = true.
Definition live_folder (f : string) : Prop :=
  ∃ ref, vsFolders inventory !! f = Some ref ∧ frTombstone ref = false.

(** One revision on its own. *)
Record sound_revision (e : StateRevision) : Prop := {
  so_type : rrType (srRecord e) = MessageStateRevisionCollection;
  so_message : rrLogicalMessageID (srRecord e) = logicalMessageID;
  so_key : StateRevisionRKey repoDID (srRecord e) = Ok (srRKey e);
  so_operation : validIdentifier (operation_of e) maxOperationIDBytes = true;
  so_created : parse_RFC3339Nano (rrCreatedAt (srRecord e)) = true;
  so_revision : 1 ≤ height_of e ≤ maxPortableRevision;
  so_parents : rrParents (srRecord e) ≠ None ∧ llen (revision_parents e) ≤ maxParents ∧
    StronglySorted str_lt (revision_parents e) ∧
    ∀ p, p ∈ revision_parents e →
      validIdentifier p maxIdentifierBytes = true ∧ validStateRKey p = true ∧ p ≠ srRKey e;
  so_version : rrVersion (srRecord e) ≠ "" →
    validSHA256Identifier (rrVersion (srRecord e)) = true ∧
    vsVersions inventory !! rrVersion (srRecord e) = Some logicalMessageID;
  so_mailboxes ids : rrMailboxIDs (srRecord e) = Some ids →
    1 ≤ llen ids ≤ maxMailboxes ∧ StronglySorted str_lt ids ∧
    ∀ f, f ∈ ids →
      validIdentifier f maxIdentifierBytes = true ∧ validFolderID f = true ∧ proved_folder f;
  so_keywords : llen (elems (rrKeywords (srRecord e))) ≤ maxKeywords ∧
    StronglySorted str_lt (keyword_names e) ∧
    ∀ k, k ∈ keyword_names e → validText k 255 = true;
  so_tombstone : rrTombstone (srRecord e) = true → assigns_nothing (srRecord e);
  so_merge : rrMerge (srRecord e) = true ↔
    rrTombstone (srRecord e) = false ∧ assigns_nothing (srRecord e);
  so_merged : rrMerge (srRecord e) = true → 2 ≤ llen (revision_parents e);
  so_claim : ∃ claim, OperationClaimRKey repoDID logicalMessageID (operation_of e) = Ok claim ∧
    vsOperationClaims inventory !! claim = Some (srRKey e)
}.

(** The whole inventory of one message. *)
Record sound_history (l : list StateRevision) : Prop := {
  sh_repository : validCanonicalDID repoDID = true;
  sh_message : validSHA256Identifier logicalMessageID = true;
  sh_count : 1 ≤ llen l ≤ maxRevisionCount;
  sh_snapshot : validIdentifier (vsSnapshotID inventory) maxIdentifierBytes = true ∧
    vsLogicalMessageID inventory = logicalMessageID ∧
    vsRevisionCount inventory = llen l ∧ msize (vsOperationClaims inventory) = llen l ∧
    vsSeal inventory = VerifiedSnapshot_snapshotSeal inventory;
  sh_revisions e : e ∈ l → sound_revision e;
  sh_bytes : encodings_fit (λ e, CanonicalRevisionBytes (srRecord e)) maxRevisionRecordBytes
    maxRevisionInventoryBytes l;
  sh_graph : causal_history srRKey operation_of revision_parents height_of l;
  (** one revision begins the history and describes the message completely *)
  sh_first : ∃ first, first ∈ l ∧ revision_parents first = [] ∧
    (∀ e, e ∈ l → revision_parents e = [] → e = first) ∧
    height_of first = 1 ∧ assigns_version first ∧ assigns_mailboxes first;
  (** nothing is assigned after an observed tombstone *)
  sh_tombstones a e : e ∈ l → happened_before srRKey revision_parents l a e →
    rrTombstone (srRecord a) = true → assigns_nothing (srRecord e);
  (** a message that lives is in live folders *)
  sh_folders w ids f : (∀ e, e ∈ l → rrTombstone (srRecord e) = false) →
    latest operation_of height_of l assigns_mailboxes w →
    rrMailboxIDs (srRecord w) = Some ids → f ∈ ids → live_folder f
}.

(** The state such a history means. *)
Record meaning (l : list StateRevision) (st : ReducedState) : Prop := {
  me_message : rsLogicalMessageID st = logicalMessageID;
  me_snapshot : rsSnapshotID st = vsSnapshotID inventory;
  me_version : ∃ w, latest operation_of height_of l assigns_version w ∧
    rsVersion st = rrVersion (srRecord w);
  me_mailboxes : ∃ w, latest operation_of height_of l assigns_mailboxes w ∧
    rrMailboxIDs (srRecord w) = Some (rsMailboxIDs st);
  me_keywords : StronglySorted str_lt (rsKeywords st) ∧
    ∀ k, k ∈ rsKeywords st ↔ ∃ w, latest operation_of height_of l (assigns_keyword k) w ∧
      MkKeywordAssignment k true ∈ elems (rrKeywords (srRecord w));
  me_tombstone : rsTombstone st = true ↔ ∃ e, e ∈ l ∧ rrTombstone (srRecord e) = true;
  me_delete : rsDeletePending st = true ↔
    (∀ e, e ∈ l → rrTombstone (srRecord e) = false) ∧
    ∃ w, latest operation_of height_of l assigns_delete w ∧
      rrDeletePending (srRecord w) = Some true;
  me_heads : are_heads srRKey revision_parents l (rsHeads st);
  me_heads_digest : rsHeadsDigest st =
    digestStringList ("comail-message-state-heads-v1" +:+ NUL) (rsHeads st);
  me_height : greatest_revision height_of l (rsHeight st);
  me_count : rsRevisionCount st = llen l;
  me_digest : rsStateDigest st = digestReducedState st
}.

(** *** The checks on one revision *)

Lemma assigns_nothing_iff r : hasLiveAssignments r = false ↔ assigns_nothing r.
Proof.
  unfold hasLiveAssignments, assigns_nothing. rewrite !orb_false_iff, negb_false_iff, String.eqb_eq.
  rewrite negb_false_iff, N.ltb_ge. unfold llen.
  destruct (rrMailboxIDs r), (elems (rrKeywords r)), (rrDeletePending r); simpl; split; intros;
    repeat match goal with H : _ ∧ _ |- _ => destruct H end; split_and?; try done; try lia.
Qed.

Lemma strictlySortedUnique_iff values :
  strictlySortedUnique values = true ↔
  StronglySorted str_lt values ∧ ∀ v, v ∈ values → validIdentifier v maxIdentifierBytes = true.
Proof.
  unfold strictlySortedUnique.
  rewrite (sorted_loop (λ v, validIdentifier v maxIdentifierBytes) strictly_sorted_after) by done.
  naive_solver.
Qed.

Lemma keywords_canonical_iff ks : ∀ previous,
  keywords_canonical previous ks = true ↔
  StronglySorted str_lt (kaName <$> ks) ∧ Forall (str_lt previous) (kaName <$> ks) ∧
  ∀ k, k ∈ (kaName <$> ks) → validText k 255 = true.
Proof.
  induction ks as [|a ks IH]; intros previous; simpl.
  { split; [intros _; split_and!; [constructor|constructor|set_solver]|done]. }
  rewrite !andb_true_iff, bool_decide_eq_true, IH. split.
  - intros [[Hv Hp] (Hs & Hall & Hid)]. split_and!.
    + by constructor.
    + constructor; [done|]. eapply Forall_impl; [exact Hall|]. intros x Hx. by eapply str_lt_trans.
    + intros x [->|Hx]%elem_of_cons; auto.
  - intros (Hs & Hall & Hid). apply StronglySorted_inv in Hs as [Hs Hf]. apply Forall_cons in Hall as [Hp Hall].
    split_and!; [apply Hid; set_solver|done..|]. intros x Hx. apply Hid. set_solver.
Qed.

(** Every valid text follows the empty one the loop starts with. *)
Lemma after_empty s : s ≠ "" → str_lt "" s.
Proof. by destruct s. Qed.

Lemma keywords_from_empty ks :
  keywords_canonical "" ks = true ↔
  StronglySorted str_lt (kaName <$> ks) ∧ ∀ k, k ∈ (kaName <$> ks) → validText k 255 = true.
Proof.
  rewrite keywords_canonical_iff. split; [tauto|]. intros [Hs Hv]. split_and!; [done| |done].
  apply Forall_forall. intros k Hk. apply after_empty. intros ->. specialize (Hv _ Hk). done.
Qed.

Lemma folder_known_iff f : folder_known inventory f = true ↔ proved_folder f.
Proof.
  unfold folder_known, proved_folder. destruct (vsFolders inventory !! f) as [ref|]; naive_solver.
Qed.

Lemma valid_sound e :
  validateRevision repoDID logicalMessageID e inventory = Ok tt →
  (∃ claim, OperationClaimRKey repoDID logicalMessageID (operation_of e) = Ok claim ∧
    vsOperationClaims inventory !! claim = Some (srRKey e)) →
  sound_revision e.
Proof.
  intros Hv Hclaim. unfold validateRevision in Hv. result_steps. bools.
  repeat match goal with u : unit |- _ => destruct u end.
  match goal with E : strictlySortedUnique _ = _ |- _ => apply strictlySortedUnique_iff in E as [Hsort Hids] end.
  match goal with E : keywords_canonical _ _ = _ |- _ => apply keywords_from_empty in E as [Hks Hkv] end.
  split; try done.
  - unfold height_of. lia.
  - split; [by intros E; rewrite E in *|]. split; [done|]. split; [done|]. intros p Hp.
    match goal with E : range_check _ (elems (rrParents _)) = _ |- _ =>
      apply range_check_ok in E; rewrite Forall_forall in E; specialize (E p Hp); cbn beta in E end.
    result_steps. bools. split_and!; [by apply Hids|done|done].
  - intros Hver. destruct (String.eqb_spec (rrVersion (srRecord e)) "") as [|_]; [done|]. simpl in *.
    result_steps. by bools.
  - intros ids Hids'. rewrite Hids' in *. result_steps. bools.
    match goal with E : strictlySortedUnique ids = _ |- _ => apply strictlySortedUnique_iff in E as [Hs Hi] end.
    split; [lia|]. split; [done|]. intros f Hf.
    match goal with E : range_check _ ids = _ |- _ =>
      apply range_check_ok in E; rewrite Forall_forall in E; specialize (E f Hf); cbn beta in E end.
    result_steps. bools. split_and!; [by apply Hi|done|by apply folder_known_iff].
  - intros Ht. apply assigns_nothing_iff.
    match goal with E : rrTombstone _ && _ = false |- _ => by rewrite Ht in E end.
  - rewrite <- assigns_nothing_iff. match goal with E : Bool.eqb _ _ = false |- _ => rename E into Hm end.
    destruct (rrMerge (srRecord e)), (hasLiveAssignments (srRecord e)), (rrTombstone (srRecord e)); naive_solver.
  - intros Hm. match goal with E : rrMerge _ && _ = false |- _ => rewrite Hm in E; simpl in E end. by bools.
Qed.

Lemma sound_valid e :
  sound_revision e → validateRevision repoDID logicalMessageID e inventory = Ok tt.
Proof.
  intros [Htype Hmsg Hkey Hop Hcreated Hrev (Hpn & Hpc & Hps & Hpv) Hver Hmail (Hkc & Hks & Hkv) Htomb Hmerge Hmerged _].
  unfold validateRevision. unfold height_of, operation_of, revision_parents in *. cbn zeta.
  passes.
  2: { rewrite Htype, Hmsg, Hop, !String.eqb_refl, (bool_decide_eq_true_2 _ Hkey). simpl.
       destruct (rrParents (srRecord e)) as [ps|]; [|done]. simpl in Hpc |- *.
       rewrite (proj2 (N.eqb_neq _ _)), (proj2 (N.ltb_ge maxPortableRevision _)), (proj2 (N.ltb_ge maxParents _)) by lia.
       done. }
  rewrite Hcreated. simpl negb. cbv iota.
  rewrite (proj2 (strictlySortedUnique_iff _)) by (split; [done|]; intros v Hv; by apply Hpv).
  simpl negb. cbv iota.
  rewrite (proj2 (range_check_ok _ _)).
  2: { apply Forall_forall. intros p Hp. destruct (Hpv p Hp) as (_ & Hv & Hne). cbn beta.
       by rewrite Hv, (proj2 (String.eqb_neq _ _) Hne). }
  cbn [result_bind].
  assert (Hv : (if negb (String.eqb (rrVersion (srRecord e)) "") then
      (if negb (validSHA256Identifier (rrVersion (srRecord e))) then Err ErrInvalidRevision else
       if negb (bool_decide (vsVersions inventory !! rrVersion (srRecord e) = Some logicalMessageID))
       then Err ErrInvalidReference else Ok tt) else Ok tt) = Ok tt).
  { destruct (String.eqb_spec (rrVersion (srRecord e)) "") as [|Hne]; [done|]. simpl.
    destruct (Hver Hne) as [-> Hl]. simpl. by rewrite bool_decide_eq_true_2. }
  rewrite Hv. cbn [result_bind]. clear Hv.
  match goal with |- result_bind ?m _ = _ => assert (Hm : m = Ok tt) end.
  { destruct (rrMailboxIDs (srRecord e)) as [ids|]; [|done].
    destruct (Hmail ids eq_refl) as (Hc & Hs & Hf).
    rewrite (proj2 (N.eqb_neq _ _)), (proj2 (N.ltb_ge _ _)) by lia. simpl.
    rewrite (proj2 (strictlySortedUnique_iff _)) by (split; [done|]; intros v Hv; by apply Hf). simpl.
    apply range_check_ok, Forall_forall. intros f Hin. destruct (Hf f Hin) as (_ & Hid & Hk). cbn beta.
    by rewrite Hid, (proj2 (folder_known_iff f) Hk). }
  rewrite Hm. cbn [result_bind]. clear Hm.
  rewrite (proj2 (N.ltb_ge _ _)) by done. rewrite (proj2 (keywords_from_empty _)) by done. simpl negb. cbv iota.
  rewrite <- assigns_nothing_iff in Hmerge, Htomb. clear -Hmerge Htomb Hmerged.
  destruct (rrTombstone (srRecord e)), (hasLiveAssignments (srRecord e)); simpl;
    [by discriminate Htomb|..]; destruct (rrMerge (srRecord e)); simpl; try done;
    try (exfalso; intuition discriminate).
  by rewrite (proj2 (N.ltb_ge _ _)) by (by apply Hmerged).
Qed.

Lemma admit_sound e :
  admit_revision repoDID logicalMessageID inventory e = Ok tt ↔ sound_revision e.
Proof.
  split.
  - intros Ha. pose proof (admit_revision_ok _ _ _ _ Ha) as [_ Hclaim]. apply valid_sound; [|done].
    unfold admit_revision in Ha. result_steps. by destruct a.
  - intros Hs. unfold admit_revision. rewrite (sound_valid e Hs). cbn [result_bind].
    destruct (so_claim _ Hs) as (ck & Hck & Hl).
    destruct (NewOperationClaim_total repoDID e (so_key _ Hs)) as (c & Hc). rewrite Hc. cbn [result_bind].
    apply NewOperationClaim_ok in Hc as (_ & Hk & _). rewrite (so_message _ Hs) in Hk.
    unfold operation_of in Hck. rewrite Hck in Hk. injection Hk as <-. rewrite Hl. simpl.
    by rewrite String.eqb_refl.
Qed.

Lemma revision_bytes_iff e n :
  revision_bytes e = Ok n ↔
  ∃ b, CanonicalRevisionBytes (srRecord e) = Ok b ∧ len b ≤ maxRevisionRecordBytes ∧ n = len b.
Proof.
  unfold revision_bytes. destruct (CanonicalRevisionBytes (srRecord e)) as [b|]; simpl.
  - destruct (N.ltb_spec maxRevisionRecordBytes (len b)); split; try done.
    + intros (b' & [= <-] & ? & _). lia.
    + intros [= <-]. by exists b.
    + by intros (b' & [= <-] & _ & ->).
  - split; [done|by intros (? & ? & _)].
Qed.

Lemma sealed_iff n :
  1 ≤ n → VerifiedSnapshot_validFor inventory logicalMessageID n = true ↔
  validIdentifier (vsSnapshotID inventory) maxIdentifierBytes = true ∧
  vsLogicalMessageID inventory = logicalMessageID ∧ vsRevisionCount inventory = n ∧
  msize (vsOperationClaims inventory) = n ∧ vsSeal inventory = VerifiedSnapshot_snapshotSeal inventory.
Proof.
  intros Hn. unfold VerifiedSnapshot_validFor. split.
  - case_match; [done|]. intros. by bools.
  - intros (-> & -> & -> & -> & ->). rewrite !String.eqb_refl, !N.eqb_refl.
    by rewrite (proj2 (N.ltb_ge _ _)) by lia.
Qed.

(** The first pass accepts the inventories of sound, distinct revisions within the budget. *)
Lemma scannable_sound l :
  scannable revision_bytes (admit_revision repoDID logicalMessageID inventory)
    maxRevisionInventoryBytes l ↔
  NoDup (srRKey <$> l) ∧ NoDup (operation_of <$> l) ∧ (∀ e, e ∈ l → sound_revision e) ∧
  encodings_fit (λ e, CanonicalRevisionBytes (srRecord e)) maxRevisionRecordBytes
    maxRevisionInventoryBytes l.
Proof.
  rewrite <- (encodings_fit_iff _ revision_bytes _ _ l revision_bytes_iff). split.
  - intros [Hops Hkeys Hadm Htot]. unfold admissible in Hadm.
    apply Forall_and in Hadm as [Hok Hadm]. split_and!; [done..| |done|done].
    intros e He. rewrite Forall_forall in Hadm. by apply admit_sound, Hadm.
  - intros (Hkeys & Hops & Hsound & Hok & Htot). split; [done..| |done].
    unfold admissible. apply Forall_and. split; [done|]. apply Forall_forall.
    intros e He. by apply admit_sound, Hsound.
Qed.

Lemma sound_bounded l :
  (∀ e, e ∈ l → sound_revision e) → ∀ e, e ∈ l → ce_revision e < 2 ^ 64 - 1.
Proof.
  intros Hs e He. pose proof (so_revision _ (Hs e He)) as Hb. unfold maxPortableRevision, height_of in Hb.
  cbn. lia.
Qed.

Lemma single_root l :
  llen (filter is_root l) = 1 ∧ (∀ e, e ∈ l → is_root e → root_revision_ok e = true) ∧
    NoDup (srRKey <$> l) ↔
  NoDup (srRKey <$> l) ∧ ∃ first, first ∈ l ∧ revision_parents first = [] ∧
    (∀ e, e ∈ l → revision_parents e = [] → e = first) ∧
    height_of first = 1 ∧ assigns_version first ∧ assigns_mailboxes first.
Proof.
  assert (Hok : ∀ e, root_revision_ok e = true ↔ height_of e = 1 ∧ assigns_version e ∧ assigns_mailboxes e).
  { intros e. unfold root_revision_ok, height_of, assigns_version, assigns_mailboxes.
    rewrite !andb_true_iff, N.eqb_eq, !negb_true_iff, String.eqb_neq.
    destruct (rrMailboxIDs (srRecord e)); simpl; naive_solver. }
  split.
  - intros (Hone & Hroots & Hnd). split; [done|]. unfold llen in Hone.
    destruct (filter is_root l) as [|r [|x rest]] eqn:Ef; simpl in Hone; try lia.
    assert (Hin : ∀ e, e ∈ l ∧ is_root e ↔ e = r).
    { intros e. rewrite <- (list_elem_of_singleton e r), <- Ef, list_elem_of_filter. tauto. }
    destruct (proj2 (Hin r) eq_refl) as [Hr Hroot]. exists r. split_and!; [done|exact Hroot| | ..].
    + intros e He Hp. by apply Hin.
    + apply Hok. by apply Hroots.
    + apply Hok. by apply Hroots.
    + apply Hok. by apply Hroots.
  - intros (Hnd & r & Hr & Hroot & Huniq & Hrest). split_and!; [| |done].
    + assert (Hperm : filter is_root l ≡ₚ [r]).
      { apply NoDup_Permutation; [by apply NoDup_filter, (NoDup_fmap_1 srRKey)|apply NoDup_singleton|].
        intros e. rewrite list_elem_of_filter, list_elem_of_singleton. split; [intros [? ?]; auto|by intros ->]. }
      unfold llen. by rewrite Hperm.
    + intros e He Hp. rewrite (Huniq e He Hp). by apply Hok.
Qed.

Lemma latest_winner l P w : latest operation_of height_of l P w ↔ winner l P w.
Proof. symmetry. exact (winner_latest (E := StateRevision) l P w). Qed.

Lemma nothing_after_tombstones l :
  (∀ e, e ∈ l → tombstoned_before l e → hasLiveAssignments (srRecord e) = false) ↔
  ∀ a e, e ∈ l → happened_before srRKey revision_parents l a e →
    rrTombstone (srRecord a) = true → assigns_nothing (srRecord e).
Proof.
  unfold tombstoned_before. setoid_rewrite <- assigns_nothing_iff.
  setoid_rewrite (ancestor_before (E := StateRevision)). naive_solver.
Qed.

Lemma no_tombstone_iff l :
  meTombstone (merge_events (sort_events l)) = false ↔ ∀ e, e ∈ l → rrTombstone (srRecord e) = false.
Proof.
  rewrite <- not_true_iff_false, tombstone_register. split.
  - intros Hn e He. apply not_true_iff_false. intros Ht. apply Hn. by exists e.
  - intros Hn (e & He & Ht). rewrite (Hn e He) in Ht. done.
Qed.

(** The mailbox list of the last assignment is what the fold leaves. *)
Lemma merged_mailboxes l w ids :
  NoDup (ce_op <$> l) → latest operation_of height_of l assigns_mailboxes w →
  rrMailboxIDs (srRecord w) = Some ids → meMailboxIDs (merge_events (sort_events l)) = ids.
Proof.
  intros Hops Hw Hids. apply latest_winner in Hw.
  destruct (optional_register merge_event empty_merge meMailboxIDs (λ e, rrMailboxIDs (srRecord e)) l)
    as [[Hn _]|(v & Hv & Ev)].
  - intros e m. simpl. by destruct (rrMailboxIDs (srRecord e)).
  - destruct Hw as (Hw & _ & _). rewrite (Hn w Hw) in Hids. done.
  - assert (Hv' : winner l assigns_mailboxes v).
    { eapply winner_ext; [|exact Hv]. intros e. unfold assigns_mailboxes. symmetry. apply not_eq_None_Some. }
    rewrite (winner_unique l _ v w Hops Hv' Hw) in Ev. rewrite Hids in Ev.
    injection Ev as Ev. by rewrite Ev.
Qed.

Lemma live_folders_iff l w ids :
  (∀ e, e ∈ l → sound_revision e) → NoDup (ce_op <$> l) →
  latest operation_of height_of l assigns_mailboxes w → rrMailboxIDs (srRecord w) = Some ids →
  live_reference_ok inventory (merge_events (sort_events l)) ↔
  ((∀ e, e ∈ l → rrTombstone (srRecord e) = false) → ∀ f, f ∈ ids → live_folder f).
Proof.
  intros Hs Hops Hw Hids. unfold live_reference_ok.
  rewrite <- no_tombstone_iff, (merged_mailboxes l w ids Hops Hw Hids), Forall_forall.
  assert (Hf : ∀ f, f ∈ ids → folder_live inventory f = true ↔ live_folder f).
  { intros f Hf. destruct Hw as (Hw & _ & _).
    destruct (so_mailboxes _ (Hs w Hw) ids Hids) as (_ & _ & Hall).
    destruct (Hall f Hf) as (_ & _ & ref & Hl & Hd). unfold folder_live, live_folder. rewrite Hl, Hd.
    rewrite andb_true_r, negb_true_iff. split; [by exists ref|by intros (? & [= <-] & ?)]. }
  destruct (meTombstone _); split; intros Hx; [done|by left| |].
  - intros _ f Hin. destruct Hx as [|Hx]; [done|]. by apply Hf, Hx.
  - right. intros f Hin. apply Hf; [done|]. by apply Hx.
Qed.

Lemma complete_sound l :
  complete_inventory repoDID logicalMessageID inventory l ↔ sound_history l.
Proof.
  split.
  - intros Hc. pose proof (mailbox_register _ _ _ _ Hc) as (w & Hw & Hids).
    apply latest_winner in Hw.
    destruct Hc as [Hcount Hdid Hmsg Hsealed Hscan Hcau Hroot Htomb Hfold].
    apply sealed_iff in Hsealed; [|lia]. pose proof (sc_ops _ _ _ _ Hscan) as Hops.
    apply scannable_sound in Hscan as (Hkeys & Hops' & Hsound & Hbytes).
    apply causal_history_iff in Hcau as [Hgraph Hroots]; [|done|done|by apply sound_bounded].
    split; try done.
    + apply single_root. done.
    + by apply nothing_after_tombstones.
    + intros v ids f Ht Hv Hv' Hf.
      exact (proj1 (live_folders_iff l v ids Hsound Hops Hv Hv') Hfold Ht f Hf).
  - intros [Hdid Hmsg Hcount Hsnap Hsound Hbytes Hgraph Hfirst Htomb Hfold].
    pose proof (hi_keys _ _ _ _ _ Hgraph) as Hkeys. pose proof (hi_operations _ _ _ _ _ Hgraph) as Hops.
    destruct (proj2 (single_root l) (conj Hkeys Hfirst)) as (Hone & Hroots & _).
    split; try done.
    + apply sealed_iff; [lia|done].
    + by apply scannable_sound.
    + apply (causal_history_iff (E := StateRevision)); [done|done|by apply sound_bounded|]. done.
    + by apply nothing_after_tombstones.
    + destruct Hfirst as (r & Hr & _ & _ & _ & _ & Hmail).
      destruct (optional_register merge_event empty_merge meMailboxIDs (λ e, rrMailboxIDs (srRecord e)) l)
        as [[Hn _]|(w & Hw & _)].
      { intros e m. simpl. by destruct (rrMailboxIDs (srRecord e)). }
      { by destruct Hmail, (Hn r Hr). }
      assert (Hw' : winner l assigns_mailboxes w).
      { eapply winner_ext; [|exact Hw]. intros e. unfold assigns_mailboxes. symmetry. apply not_eq_None_Some. }
      apply latest_winner in Hw'.
      destruct (rrMailboxIDs (srRecord w)) as [ids|] eqn:Ei; [|by destruct Hw' as (_ & Hx & _)].
      apply (live_folders_iff l w ids Hsound Hops Hw' Ei). intros Ht f Hf. by eapply Hfold.
Qed.

(** *** The state *)

Lemma latest_unique l P w w' :
  NoDup (operation_of <$> l) → latest operation_of height_of l P w →
  latest operation_of height_of l P w' → w = w'.
Proof. intros Hops Hw%latest_winner Hw'%latest_winner. by eapply winner_unique. Qed.

Lemma reduced_means l :
  complete_inventory repoDID logicalMessageID inventory l →
  meaning l (reduced_state logicalMessageID inventory l).
Proof.
  intros Hc. unfold reduced_state. cbn zeta. split; simpl; try done.
  - setoid_rewrite latest_winner. by eapply version_register.
  - setoid_rewrite latest_winner. by eapply mailbox_register.
  - split.
    + apply str_le_strict; [apply sort_strings_sorted|]. unfold present_keywords.
      rewrite sort_strings_perm. apply NoDup_fst_map_to_list.
    + intros k. setoid_rewrite latest_winner. rewrite elem_of_present_keywords.
      by eapply keyword_register.
  - apply tombstone_register.
  - setoid_rewrite latest_winner. rewrite <- no_tombstone_iff.
    pose proof (delete_register _ _ _ _ Hc) as Hd.
    destruct (meTombstone (merge_events (sort_events l))); [by split; [|intros [? _]]|].
    rewrite Hd. naive_solver.
  - change (are_heads (E := StateRevision) ce_key ce_parents l (head_keys (all_parents l) l)).
    apply head_keys_are_heads; [|done]. by eapply complete_keys.
  - by eapply complete_height.
Qed.

(** A history has one meaning. *)
Lemma meaning_unique l s t : NoDup (operation_of <$> l) → meaning l s → meaning l t → s = t.
Proof.
  intros Hops [Am As (av & Aw & Av) (ab & Abw & Ab) [Aks Ak] At Ad [Ahs Ah] Ahd Ahe Ac Adg]
    [Bm Bs (bv & Bw & Bv) (bb & Bbw & Bb) [Bks Bk] Bt Bd [Bhs Bh] Bhd Bhe Bc Bdg].
  assert (Hv : av = bv) by by eapply latest_unique.
  assert (Hb : ab = bb) by by eapply latest_unique.
  assert (Hk : rsKeywords s = rsKeywords t).
  { apply str_lt_extensional; [done..|]. intros x. by rewrite Ak, Bk. }
  assert (Hh : rsHeads s = rsHeads t).
  { apply str_lt_extensional; [done..|]. intros x. by rewrite Ah, Bh. }
  assert (Ht : rsTombstone s = rsTombstone t) by (apply eq_true_iff_eq; by rewrite At, Bt).
  assert (Hd : rsDeletePending s = rsDeletePending t) by (apply eq_true_iff_eq; by rewrite Ad, Bd).
  assert (He : rsHeight s = rsHeight t) by by eapply greatest_unique.
  assert (Hm : rsMailboxIDs s = rsMailboxIDs t) by congruence.
  assert (Hw : rsVersion s = rsVersion t) by congruence.
  assert (Hx : rsHeadsDigest s = rsHeadsDigest t) by congruence.
  assert (Hy : rsStateDigest s = rsStateDigest t).
  { rewrite Adg, Bdg. unfold digestReducedState. rewrite Am, Bm, Hw, Hm, Hk, Hd, Ht, Hh, Hx, He, Ac, Bc. done. }
  destruct s, t; simpl in *; congruence.
Qed.

Lemma reduce_iff l st :
  Reduce repoDID logicalMessageID l inventory = Ok st ↔ sound_history l ∧ meaning l st.
Proof.
  rewrite reduce_ok, <- complete_sound. split; intros [Hc Hst]; (split; [done|]).
  - subst st. by apply reduced_means.
  - eapply (meaning_unique l); [|done|by apply reduced_means]. by eapply complete_ops.
Qed.

End specification.
End Messages.

(** ** Folders *)

Module Folders.
Section specification.
Context `{Syntax} (repoDID folderID : string) (snapshot : VerifiedFolderSnapshot).
Implicit Types l : list FolderStateRevision.

Definition revision_parents (e : FolderStateRevision) : list string := elems (frParents (fsRecord e)).
Definition height_of (e : FolderStateRevision) : N := frRevision (fsRecord e).
Definition operation_of (e : FolderStateRevision) : string := frOperationID (fsRecord e).
Definition names_folder (e : FolderStateRevision) : Prop := frName (fsRecord e) ≠ "".
Definition gives_role (e : FolderStateRevision) : Prop := frRole (fsRecord e) ≠ "".
Definition assigns_nothing (e : FolderStateRevision) : Prop :=
  frName (fsRecord e) = "" ∧ frRole (fsRecord e) = "".

(** One revision on its own.  A standard folder keeps the role and the name it was created
    with and is never tombstoned, other folders have no role. *)
Record sound_revision (e : FolderStateRevision) : Prop := {
  so_type : frType (fsRecord e) = FolderRevisionCollection;
  so_folder : frFolderID (fsRecord e) = folderID;
  so_key : FolderRevisionRKey repoDID (fsRecord e) = Ok (fsRKey e);
  so_operation : validIdentifier (operation_of e) maxOperationIDBytes = true;
  so_created : parse_RFC3339Nano (frCreatedAt (fsRecord e)) = true;
  so_revision : 1 ≤ height_of e ≤ maxPortableRevision;
  so_parents : frParents (fsRecord e) ≠ None ∧ llen (revision_parents e) ≤ maxParents ∧
    StronglySorted str_lt (revision_parents e) ∧
    ∀ p, p ∈ revision_parents e → validFolderStateRKey p = true;
  so_name : names_folder e → validText (frName (fsRecord e)) 255 = true;
  so_standard role : standardRoleForID repoDID folderID = Some role →
    frrTombstone (fsRecord e) = false ∧ (gives_role e → frRole (fsRecord e) = role) ∧
    (revision_parents e ≠ [] → assigns_nothing e);
  so_custom : standardRoleForID repoDID folderID = None → ¬ gives_role e;
  so_tombstone : frrTombstone (fsRecord e) = true → assigns_nothing e;
  so_merge : frMerge (fsRecord e) = true ↔ frrTombstone (fsRecord e) = false ∧ assigns_nothing e;
  so_merged : frMerge (fsRecord e) = true → 2 ≤ llen (revision_parents e);
  so_claim : ∃ claim, FolderOperationClaimRKey repoDID folderID (operation_of e) = Ok claim ∧
    vfOperationClaims snapshot !! claim = Some (fsRKey e)
}.

(** The whole inventory of one folder.  Concurrent creations of a folder are all its first
    revisions. *)
Record sound_history (l : list FolderStateRevision) : Prop := {
  sh_repository : validCanonicalDID repoDID = true;
  sh_folder : validFolderID folderID = true;
  sh_count : 1 ≤ llen l ≤ maxRevisionCount;
  sh_snapshot : validIdentifier (vfSnapshotID snapshot) maxIdentifierBytes = true ∧
    vfFolderID snapshot = folderID ∧
    vfRevisionCount snapshot = llen l ∧ msize (vfOperationClaims snapshot) = llen l ∧
    vfSeal snapshot = VerifiedFolderSnapshot_snapshotSeal snapshot;
  sh_revisions e : e ∈ l → sound_revision e;
  sh_bytes : encodings_fit (λ e, CanonicalFolderRevisionBytes (fsRecord e)) maxRevisionRecordBytes
    maxRevisionInventoryBytes l;
  sh_graph : causal_history fsRKey operation_of revision_parents height_of l;
  sh_first : ∃ first, first ∈ l ∧ revision_parents first = [];
  sh_creations e : e ∈ l → revision_parents e = [] →
    height_of e = 1 ∧ names_folder e ∧ frrTombstone (fsRecord e) = false ∧
    frMerge (fsRecord e) = false ∧
    ∀ role, standardRoleForID repoDID folderID = Some role →
      frRole (fsRecord e) = role ∧ frName (fsRecord e) = standard_name role;
  sh_tombstones a e : e ∈ l → happened_before fsRKey revision_parents l a e →
    frrTombstone (fsRecord a) = true → assigns_nothing e
}.

Record meaning (l : list FolderStateRevision) (st : ReducedFolderState) : Prop := {
  me_folder : rfFolderID st = folderID;
  me_snapshot : rfSnapshotID st = vfSnapshotID snapshot;
  me_name : ∃ w, latest operation_of height_of l names_folder w ∧ rfName st = frName (fsRecord w);
  me_role : ((∀ e, e ∈ l → ¬ gives_role e) ∧ rfRole st = "") ∨
    ∃ w, latest operation_of height_of l gives_role w ∧ rfRole st = frRole (fsRecord w);
  me_tombstone : rfTombstone st = true ↔ ∃ e, e ∈ l ∧ frrTombstone (fsRecord e) = true;
  me_heads : are_heads fsRKey revision_parents l (rfHeads st);
  me_heads_digest : rfHeadsDigest st =
    digestStringList ("comail-folder-state-heads-v1" +:+ NUL) (rfHeads st);
  me_height : greatest_revision height_of l (rfHeight st);
  me_count : rfRevisionCount st = llen l;
  me_digest : rfStateDigest st = digestReducedFolderState st
}.

(** *** The checks on one revision *)

Lemma folder_assigns_nothing_iff e :
  nonempty (frName (fsRecord e)) || nonempty (frRole (fsRecord e)) = false ↔ assigns_nothing e.
Proof. unfold assigns_nothing. by rewrite orb_false_iff, !nonempty_false. Qed.

Lemma strictlySortedFolderParents_iff values :
  strictlySortedFolderParents values = true ↔
  StronglySorted str_lt values ∧ ∀ v, v ∈ values → validFolderStateRKey v = true.
Proof.
  unfold strictlySortedFolderParents.
  rewrite (sorted_loop validFolderStateRKey strictly_sorted_folder_parents) by done. naive_solver.
Qed.

Lemma no_parents_iff e : (0 <? llen (revision_parents e)) = false ↔ revision_parents e = [].
Proof. rewrite N.ltb_ge. unfold llen. destruct (revision_parents e); simpl; split; (done || lia). Qed.

Lemma folder_valid_sound e :
  validFolderID folderID = true →
  validateFolderRevision repoDID folderID e = Ok tt →
  (∃ claim, FolderOperationClaimRKey repoDID folderID (operation_of e) = Ok claim ∧
    vfOperationClaims snapshot !! claim = Some (fsRKey e)) →
  sound_revision e.
Proof.
  intros Hid Hv Hclaim. unfold validateFolderRevision in Hv. result_steps.
  match goal with E : Bool.eqb _ _ || _ || _ = false |- _ => rename E into Hm end. bools.
  repeat match goal with u : unit |- _ => destruct u end.
  match goal with E : strictlySortedFolderParents _ = _ |- _ =>
    apply strictlySortedFolderParents_iff in E as [Hsort Hids] end.
  split; try done.
  - unfold height_of. lia.
  - split; [by intros E; rewrite E in *|]. done.
  - unfold names_folder. intros Hn%nonempty_true.
    match goal with E : nonempty (frName _) && _ = false |- _ => rewrite Hn in E; simpl in E; by bools end.
  - intros role Hrole. rewrite Hrole in *. result_steps.
    match goal with E : _ || _ || _ = false |- _ => apply orb_false_iff in E as [[Ht Hr]%orb_false_iff Hp] end.
    split_and!; [done| |].
    + intros Hg%nonempty_true. rewrite Hg in Hr. simpl in Hr. by bools.
    + intros Hne. apply folder_assigns_nothing_iff. apply andb_false_iff in Hp as [Hp|Hp]; [|done].
      by apply no_parents_iff in Hp.
  - intros Hrole. rewrite Hrole in *. result_steps. unfold gives_role. rewrite <- nonempty_true. congruence.
  - intros Ht. rewrite <- folder_assigns_nothing_iff.
    match goal with E : frrTombstone _ && _ = false |- _ => by rewrite Ht in E end.
  - rewrite <- folder_assigns_nothing_iff.
    match goal with E : Bool.eqb _ _ = false |- _ => rename E into Hb end.
    destruct (frMerge (fsRecord e)), (nonempty (frName (fsRecord e)) || nonempty (frRole (fsRecord e))),
      (frrTombstone (fsRecord e)); simpl in *; try done; naive_solver.
  - intros Ht. match goal with E : frMerge _ && _ = false |- _ => rewrite Ht in E; simpl in E end. by bools.
Qed.

Lemma folder_sound_valid e :
  validFolderID folderID = true → sound_revision e →
  validateFolderRevision repoDID folderID e = Ok tt.
Proof.
  intros Hid [Htype Hfolder Hkey Hop Hcreated Hrev (Hpn & Hpc & Hps & Hpv) Hname Hstd Hcustom Htomb Hmerge Hmerged _].
  unfold validateFolderRevision. unfold height_of, operation_of in *. cbn zeta.
  passes.
  2: { rewrite Htype, Hfolder, Hop, !String.eqb_refl, (bool_decide_eq_true_2 _ Hkey). simpl.
       unfold revision_parents in Hpc. destruct (frParents (fsRecord e)) as [ps|]; [|done]. simpl in Hpc |- *.
       rewrite (proj2 (N.eqb_neq _ _)), (proj2 (N.ltb_ge maxPortableRevision _)), (proj2 (N.ltb_ge maxParents _)) by lia.
       done. }
  change (elems (frParents (fsRecord e))) with (revision_parents e).
  rewrite Hcreated, (proj2 (strictlySortedFolderParents_iff _)) by done. simpl negb. cbn [orb].
  passes.
  2: { destruct (nonempty (frName (fsRecord e))) eqn:En; [|done]. simpl.
       by rewrite Hname by by apply nonempty_true. }
  rewrite Hid. simpl negb. cbv iota.
  match goal with |- result_bind ?m _ = _ => assert (Hm : m = Ok tt) end.
  { destruct (standardRoleForID repoDID folderID) as [role|].
    - destruct (Hstd role eq_refl) as (-> & Hr & Hp). simpl.
      passes; [done|]. symmetry. apply orb_false_iff. split.
      + destruct (nonempty (frRole (fsRecord e))) eqn:En; [|done]. simpl.
        rewrite Hr by by apply nonempty_true. by rewrite String.eqb_refl.
      + destruct (0 <? llen (revision_parents e)) eqn:Ep; [|done]. simpl.
        apply folder_assigns_nothing_iff, Hp. rewrite <- no_parents_iff. congruence.
    - passes; [done|]. symmetry. apply nonempty_false. destruct (frRole (fsRecord e)) eqn:Er; [done|].
      destruct Hcustom; [done|]. unfold gives_role. by rewrite Er. }
  rewrite Hm. cbn [result_bind]. clear Hm.
  rewrite <- folder_assigns_nothing_iff in Hmerge, Htomb. clear -Hmerge Htomb Hmerged.
  destruct (frrTombstone (fsRecord e)), (nonempty (frName (fsRecord e)) || nonempty (frRole (fsRecord e))); simpl;
    [by discriminate Htomb|..]; destruct (frMerge (fsRecord e)); simpl; try done;
    try (exfalso; intuition discriminate).
  by rewrite (proj2 (N.ltb_ge _ _)) by (by apply Hmerged).
Qed.

Lemma claim_total e :
  FolderRevisionRKey repoDID (fsRecord e) = Ok (fsRKey e) → ∃ c, NewFolderOperationClaim repoDID e = Ok c.
Proof.
  intros Hk. unfold NewFolderOperationClaim. rewrite Hk. simpl. rewrite String.eqb_refl. simpl.
  unfold FolderRevisionRKey in Hk. unfold FolderOperationClaimRKey.
  destruct (negb (validCanonicalDID repoDID) || negb (validFolderID (frFolderID (fsRecord e))) ||
    negb (validIdentifier (frOperationID (fsRecord e)) maxOperationIDBytes)); [done|]. simpl. by eexists.
Qed.

Lemma folder_admit_sound e :
  validFolderID folderID = true →
  admit_folder repoDID folderID snapshot e = Ok tt ↔ sound_revision e.
Proof.
  intros Hid. split.
  - intros Ha. unfold admit_folder in Ha. result_steps. bools. destruct a as [].
    apply folder_valid_sound; [done..|].
    match goal with E : validateFolderRevision _ _ _ = _ |- _ => apply validateFolderRevision_wf in E; rename E into Hwf end.
    match goal with E : NewFolderOperationClaim _ _ = Ok ?c |- _ =>
      rename c into claim; apply NewFolderOperationClaim_ok in E as (_ & Hk & _) end.
    rewrite (fe_folder _ _ _ Hwf) in Hk. exists (focRKey claim). by subst.
  - intros Hs. unfold admit_folder. rewrite (folder_sound_valid e Hid Hs). cbn [result_bind].
    destruct (so_claim _ Hs) as (ck & Hck & Hl).
    destruct (claim_total e (so_key _ Hs)) as (c & Hc). rewrite Hc. cbn [result_bind].
    apply NewFolderOperationClaim_ok in Hc as (_ & Hk & _). rewrite (so_folder _ Hs) in Hk.
    unfold operation_of in Hck. rewrite Hck in Hk. injection Hk as <-. rewrite Hl. simpl.
    by rewrite String.eqb_refl.
Qed.

Lemma folder_bytes_iff e n :
  folder_bytes e = Ok n ↔
  ∃ b, CanonicalFolderRevisionBytes (fsRecord e) = Ok b ∧ len b ≤ maxRevisionRecordBytes ∧ n = len b.
Proof.
  unfold folder_bytes. destruct (CanonicalFolderRevisionBytes (fsRecord e)) as [b|] eqn:Eb; simpl.
  - pose proof (CanonicalFolderRevisionBytes_ok _ _ Eb) as (_ & _ & Hlen). split.
    + intros [= <-]. by exists b.
    + by intros (b' & [= <-] & _ & ->).
  - split; [done|by intros (? & ? & _)].
Qed.

Lemma folder_sealed_iff n :
  1 ≤ n → VerifiedFolderSnapshot_validFor snapshot folderID n = true ↔
  validIdentifier (vfSnapshotID snapshot) maxIdentifierBytes = true ∧
  vfFolderID snapshot = folderID ∧ vfRevisionCount snapshot = n ∧
  msize (vfOperationClaims snapshot) = n ∧ vfSeal snapshot = VerifiedFolderSnapshot_snapshotSeal snapshot.
Proof.
  intros Hn. unfold VerifiedFolderSnapshot_validFor.
  rewrite !andb_true_iff, !String.eqb_eq, !N.eqb_eq, N.ltb_lt. split; [tauto|].
  intros (? & ? & ? & ? & ?). split_and!; try done. lia.
Qed.

Lemma folder_scannable_sound l :
  validFolderID folderID = true →
  scannable folder_bytes (admit_folder repoDID folderID snapshot) maxRevisionInventoryBytes l ↔
  NoDup (fsRKey <$> l) ∧ NoDup (operation_of <$> l) ∧ (∀ e, e ∈ l → sound_revision e) ∧
  encodings_fit (λ e, CanonicalFolderRevisionBytes (fsRecord e)) maxRevisionRecordBytes
    maxRevisionInventoryBytes l.
Proof.
  intros Hid. rewrite <- (encodings_fit_iff _ folder_bytes _ _ l folder_bytes_iff). split.
  - intros [Hops Hkeys Hadm Htot]. unfold admissible in Hadm.
    apply Forall_and in Hadm as [Hok Hadm]. split_and!; [done..| |done|done].
    intros e He. rewrite Forall_forall in Hadm. by apply folder_admit_sound, Hadm.
  - intros (Hkeys & Hops & Hsound & Hok & Htot). split; [done..| |done].
    unfold admissible. apply Forall_and. split; [done|]. apply Forall_forall.
    intros e He. by apply folder_admit_sound, Hsound.
Qed.

Lemma folder_sound_bounded l :
  (∀ e, e ∈ l → sound_revision e) → ∀ e, e ∈ l → ce_revision e < 2 ^ 64 - 1.
Proof.
  intros Hs e He. pose proof (so_revision _ (Hs e He)) as Hb. unfold maxPortableRevision, height_of in Hb.
  cbn. lia.
Qed.

Lemma creation_iff e :
  (standardRoleForID repoDID folderID = None → ¬ gives_role e) →
  root_folder_ok repoDID folderID e = true ↔
  height_of e = 1 ∧ names_folder e ∧ frrTombstone (fsRecord e) = false ∧
  frMerge (fsRecord e) = false ∧
  ∀ role, standardRoleForID repoDID folderID = Some role →
    frRole (fsRecord e) = role ∧ frName (fsRecord e) = standard_name role.
Proof.
  intros Hcustom. unfold root_folder_ok, height_of, names_folder.
  rewrite andb_true_iff, negb_true_iff, !orb_false_iff, !negb_false_iff, N.eqb_eq, nonempty_true.
  assert (Hrole : match standardRoleForID repoDID folderID with
      | Some role => String.eqb (frRole (fsRecord e)) role && String.eqb (frName (fsRecord e)) (standard_name role)
      | None => negb (nonempty (frRole (fsRecord e))) end = true ↔
    ∀ role, standardRoleForID repoDID folderID = Some role →
      frRole (fsRecord e) = role ∧ frName (fsRecord e) = standard_name role).
  { destruct (standardRoleForID repoDID folderID) as [role|].
    - rewrite andb_true_iff, !String.eqb_eq. naive_solver.
    - split; [done|]. intros _. apply negb_true_iff, not_true_iff_false. rewrite nonempty_true. by apply Hcustom. }
  rewrite Hrole. tauto.
Qed.

Lemma folder_latest_winner l P w : latest operation_of height_of l P w ↔ winner l P w.
Proof. symmetry. exact (winner_latest (E := FolderStateRevision) l P w). Qed.

Lemma folder_nothing_after_tombstones l :
  (∀ e, e ∈ l → tombstoned_before l e → ce_live e = false) ↔
  ∀ a e, e ∈ l → happened_before fsRKey revision_parents l a e →
    frrTombstone (fsRecord a) = true → assigns_nothing e.
Proof.
  unfold tombstoned_before. setoid_rewrite <- folder_assigns_nothing_iff.
  setoid_rewrite (ancestor_before (E := FolderStateRevision)). naive_solver.
Qed.

Lemma folder_complete_sound l :
  complete_folder repoDID folderID snapshot l ↔ sound_history l.
Proof.
  split.
  - intros [Hcount Hdid Hid Hsealed Hscan Hcau Hroot Htomb].
    apply folder_sealed_iff in Hsealed; [|lia].
    apply folder_scannable_sound in Hscan as (Hkeys & Hops & Hsound & Hbytes); [|done].
    apply causal_history_iff in Hcau as [Hgraph Hroots]; [|done|done|by apply folder_sound_bounded].
    split; try done.
    + intros e He Hp. apply creation_iff; [by apply so_custom, Hsound|]. by apply Hroots.
    + by apply folder_nothing_after_tombstones.
  - intros [Hdid Hid Hcount Hsnap Hsound Hbytes Hgraph Hfirst Hcreations Htomb].
    pose proof (hi_keys _ _ _ _ _ Hgraph) as Hkeys. pose proof (hi_operations _ _ _ _ _ Hgraph) as Hops.
    split; try done.
    + apply folder_sealed_iff; [lia|done].
    + by apply folder_scannable_sound.
    + apply (causal_history_iff (E := FolderStateRevision)); [done|done|by apply folder_sound_bounded|].
      split; [done|]. intros e He Hp. apply creation_iff; [by apply so_custom, Hsound|]. by apply Hcreations.
    + by apply folder_nothing_after_tombstones.
Qed.

(** *** The state *)

Lemma folder_latest_unique l P w w' :
  NoDup (operation_of <$> l) → latest operation_of height_of l P w →
  latest operation_of height_of l P w' → w = w'.
Proof. intros Hops Hw%folder_latest_winner Hw'%folder_latest_winner. by eapply winner_unique. Qed.

Lemma folder_reduced_means l :
  complete_folder repoDID folderID snapshot l → meaning l (folder_state folderID snapshot l).
Proof.
  intros Hc. unfold folder_state. cbn zeta. split; simpl; try done.
  - setoid_rewrite folder_latest_winner. by eapply folder_name_register.
  - setoid_rewrite folder_latest_winner.
    destruct (folder_text_register l fmRole (λ e, frRole (fsRecord e))) as [[Hn E]|Hw]; [done| |by right].
    left. split; [|done]. intros e He Hg. by apply Hg, Hn.
  - apply folder_tombstone_register.
  - change (are_heads (E := FolderStateRevision) ce_key ce_parents l (head_keys (all_parents l) l)).
    apply head_keys_are_heads; [|done]. by eapply complete_folder_keys.
  - by eapply folder_height.
Qed.

Lemma folder_meaning_unique l s t : NoDup (operation_of <$> l) → meaning l s → meaning l t → s = t.
Proof.
  intros Hops [Af As (av & Aw & Av) Ar At [Ahs Ah] Ahd Ahe Ac Adg]
    [Bf Bs (bv & Bw & Bv) Br Bt [Bhs Bh] Bhd Bhe Bc Bdg].
  assert (Hv : av = bv) by by eapply folder_latest_unique.
  assert (Hh : rfHeads s = rfHeads t).
  { apply str_lt_extensional; [done..|]. intros x. by rewrite Ah, Bh. }
  assert (Ht : rfTombstone s = rfTombstone t) by (apply eq_true_iff_eq; by rewrite At, Bt).
  assert (He : rfHeight s = rfHeight t) by by eapply greatest_unique.
  assert (Hw : rfName s = rfName t) by congruence.
  assert (Hr : rfRole s = rfRole t).
  { destruct Ar as [[An ->]|(a & Ha & ->)], Br as [[Bn ->]|(b & Hb & ->)]; [done| | |].
    - destruct Hb as (Hb & Hg & _). by destruct (An b Hb).
    - destruct Ha as (Ha & Hg & _). by destruct (Bn a Ha).
    - by rewrite (folder_latest_unique l _ a b Hops Ha Hb). }
  assert (Hx : rfHeadsDigest s = rfHeadsDigest t) by congruence.
  assert (Hy : rfStateDigest s = rfStateDigest t).
  { rewrite Adg, Bdg. unfold digestReducedFolderState. rewrite Af, Bf, Hw, Hr, Ht, Hh, Hx, He, Ac, Bc. done. }
  destruct s, t; simpl in *; congruence.
Qed.

Lemma reduce_folder_iff l st :
  ReduceFolder repoDID folderID l snapshot = Ok st ↔ sound_history l ∧ meaning l st.
Proof.
  rewrite reduce_folder_ok, <- folder_complete_sound. split; intros [Hc Hst]; (split; [done|]).
  - subst st. by apply folder_reduced_means.
  - eapply (folder_meaning_unique l); [|done|by apply folder_reduced_means]. by eapply complete_folder_ops.
Qed.

End specification.
End Folders.

(** ** The examples are sound histories *)

Example example_history_sound :
  Messages.sound_history example_did example_message example_inventory example_revisions ∧
  Messages.meaning example_message example_inventory example_revisions example_state.
Proof. apply Messages.reduce_iff. exact example_reduces. Qed.

Example example_folder_sound :
  Folders.sound_history example_did example_inbox example_folder_snapshot example_folder_revisions ∧
  Folders.meaning example_inbox example_folder_snapshot example_folder_revisions example_folder_state.
Proof. apply Folders.reduce_folder_iff. exact example_folder_reduces. Qed.

(** ** Properties *)

(** C28. The message-state reducer computes the meaning of sound histories: [Reduce] succeeds
    exactly on the inventories whose sealed snapshot is complete for them, whose revisions are
    each well formed, keyed by their content and claimed, whose parents are present and lower,
    with a single first revision that describes the message, no assignment after an observed
    tombstone and only live folders for a living message; and the state it answers is, field by
    field, what the last assignment of each register (by height, then operation) says, with a
    tombstone anywhere winning, the sorted childless revisions as heads and the digests over
    them. *)
Theorem reduce_refines_contract `{Syntax} (repoDID logicalMessageID : string)
    (inventory : VerifiedSnapshot) (revisions : list StateRevision) (st : ReducedState) :
  Reduce repoDID logicalMessageID revisions inventory = Ok st ↔
  Messages.sound_history repoDID logicalMessageID inventory revisions ∧
  Messages.meaning logicalMessageID inventory revisions st.
Proof. apply Messages.reduce_iff. Qed.

(** C35. The folder reducer computes the meaning of sound folder histories: [ReduceFolder]
    succeeds exactly on the complete, claimed, causally ordered inventories in which every
    creation names the folder (a standard folder by its own role and name, never changed or
    tombstoned later) and nothing is assigned after an observed tombstone; and the state it
    answers has the last name and role assigned, the sticky tombstone, the childless revisions
    as heads, the greatest height and the digests over them. *)
Theorem folder_reduce_refines_contract `{Syntax} (repoDID folderID : string)
    (snapshot : VerifiedFolderSnapshot) (revisions : list FolderStateRevision)
    (st : ReducedFolderState) :
  ReduceFolder repoDID folderID revisions snapshot = Ok st ↔
  Folders.sound_history repoDID folderID snapshot revisions ∧
  Folders.meaning folderID snapshot revisions st.
Proof. apply Folders.reduce_folder_iff. Qed.
