(* ===== verification/Decode.v ===== *)
(** * The wire decoders of the append-only streams

    Models [DecodeRevisionRecord], [DecodeOperationClaimRecord], [requireJSONEOF] of
    src/internal/mailboxstate/revision.go, and [DecodeFolderRevisionRecord],
    [DecodeFolderOperationClaimRecord] of folder_revision.go: [encoding/json] with
    [DisallowUnknownFields], exactly one value.

    [encoding/json] decodes an array into the memory a slice already has: when a key comes
    twice, an element decodes over the element left there by the earlier array.  The decoding
    state keeps that memory: the visible slice and the elements behind its end. *)
From S2P Require Import Prelude Sha256 GoStd Syntax Unicode Json Mailbox Canonical Causal Revision FolderRevision.

(** ** One value, known members only *)

Definition requireJSONEOF (rest : string) : result unit :=
  fail_if negb (String.eqb (skip_ws rest) "") with ErrInvalidRevision ;; Ok tt.

(** [decoder.Decode] of the first value, then [requireJSONEOF]. *)
Definition decode_one {S} (decode : json → option S) (encoded : string) : result S :=
  let? (j, rest) := opt_result (parse_value (Datatypes.S (String.length encoded)) encoded) ErrInvalidRevision in
  let? s := opt_result (decode j) ErrInvalidRevision in
  let? _ := requireJSONEOF rest in
  Ok s.

Section strict.
Context `{CaseOrbits}.

(** [DisallowUnknownFields]: a member of the object that names no field fails the call. *)
Definition known {S} (fields : list (field S)) (j : json) : bool :=
  match j with
  | JObj l => forallb (λ kv, is_some (find_field fields kv.1)) l
  | _ => true
  end.
Definition decode_strict {S} (fields : list (field S)) (j : json) (s : S) : option S :=
  if known fields j then decode_struct fields j s else None.

(** A blob reference, strict at every level. *)
Definition strict_blob_fields : list (field BlobRef) :=
  [mk_field "$type" decode_string brType set_brType;
   ("ref", decode_strict link_fields);
   mk_field "mimeType" decode_string brMIMEType set_brMIMEType;
   mk_field "size" decode_int64 brSize set_brSize].

End strict.

(** ** Arrays decoded into existing memory *)

Record backed (A : Type) : Type := Backed { bkVisible : slice A; bkHidden : list A }.
Arguments Backed {A} _ _.
Arguments bkVisible {A} _.
Arguments bkHidden {A} _.

Fixpoint decode_elements {A} (decode : json → A → option A) (zero : A) (l : list json) (memory : list A) :
    option (list A * list A) :=
  match l with
  | [] => Some ([], memory)
  | j :: l' =>
      match decode j (default zero (head memory)), decode_elements decode zero l' (tail memory) with
      | Some a, Some (rest, hidden) => Some (a :: rest, hidden)
      | _, _ => None
      end
  end.

Definition decode_array {A} (decode : json → A → option A) (zero : A) (j : json) (s : backed A) :
    option (backed A) :=
  match j with
  | JNull => Some (Backed None [])
  | JArr [] => Some (Backed (Some []) [])
  | JArr l =>
      option_map (λ r, Backed (Some r.1) r.2) (decode_elements decode zero l (elems (bkVisible s) ++ bkHidden s))
  | _ => None
  end.

(** A [*bool]: [null] sets it to nil. *)
Definition decode_bool_pointer (j : json) (_ : option bool) : option (option bool) :=
  match j with JNull => Some None | JBool b => Some (Some b) | _ => None end.

(** ** Revision records *)

Definition set_kaName (r : KeywordAssignment) (x : string) : KeywordAssignment :=
  MkKeywordAssignment x (kaPresent r).
Definition set_kaPresent (r : KeywordAssignment) (x : bool) : KeywordAssignment :=
  MkKeywordAssignment (kaName r) x.
Definition zero_keyword : KeywordAssignment := MkKeywordAssignment "" false.

Definition set_rrType (r : RevisionRecord) (x : string) : RevisionRecord :=
  MkRevisionRecord x (rrLogicalMessageID r) (rrOperationID r) (rrParents r) (rrRevision r)
    (rrVersion r) (rrMailboxIDs r) (rrKeywords r) (rrDeletePending r) (rrTombstone r) (rrMerge r)
    (rrCreatedAt r) .
Definition set_rrLogicalMessageID (r : RevisionRecord) (x : string) : RevisionRecord :=
  MkRevisionRecord (rrType r) x (rrOperationID r) (rrParents r) (rrRevision r) (rrVersion r)
    (rrMailboxIDs r) (rrKeywords r) (rrDeletePending r) (rrTombstone r) (rrMerge r)
    (rrCreatedAt r) .
Definition set_rrOperationID (r : RevisionRecord) (x : string) : RevisionRecord :=
  MkRevisionRecord (rrType r) (rrLogicalMessageID r) x (rrParents r) (rrRevision r) (rrVersion r)
    (rrMailboxIDs r) (rrKeywords r) (rrDeletePending r) (rrTombstone r) (rrMerge r)
    (rrCreatedAt r) .
Definition set_rrParents (r : RevisionRecord) (x : slice string) : RevisionRecord :=
  MkRevisionRecord (rrType r) (rrLogicalMessageID r) (rrOperationID r) x (rrRevision r)
    (rrVersion r) (rrMailboxIDs r) (rrKeywords r) (rrDeletePending r) (rrTombstone r) (rrMerge r)
    (rrCreatedAt r) .
Definition set_rrRevision (r : RevisionRecord) (x : N) : RevisionRecord :=
  MkRevisionRecord (rrType r) (rrLogicalMessageID r) (rrOperationID r) (rrParents r) x
    (rrVersion r) (rrMailboxIDs r) (rrKeywords r) (rrDeletePending r) (rrTombstone r) (rrMerge r)
    (rrCreatedAt r) .
Definition set_rrVersion (r : RevisionRecord) (x : string) : RevisionRecord :=
  MkRevisionRecord (rrType r) (rrLogicalMessageID r) (rrOperationID r) (rrParents r)
    (rrRevision r) x (rrMailboxIDs r) (rrKeywords r) (rrDeletePending r) (rrTombstone r)
    (rrMerge r) (rrCreatedAt r) .
Definition set_rrMailboxIDs (r : RevisionRecord) (x : slice string) : RevisionRecord :=
  MkRevisionRecord (rrType r) (rrLogicalMessageID r) (rrOperationID r) (rrParents r)
    (rrRevision r) (rrVersion r) x (rrKeywords r) (rrDeletePending r) (rrTombstone r) (rrMerge r)
    (rrCreatedAt r) .
Definition set_rrKeywords (r : RevisionRecord) (x : slice KeywordAssignment) : RevisionRecord :=
  MkRevisionRecord (rrType r) (rrLogicalMessageID r) (rrOperationID r) (rrParents r)
    (rrRevision r) (rrVersion r) (rrMailboxIDs r) x (rrDeletePending r) (rrTombstone r)
    (rrMerge r) (rrCreatedAt r) .
Definition set_rrDeletePending (r : RevisionRecord) (x : option bool) : RevisionRecord :=
  MkRevisionRecord (rrType r) (rrLogicalMessageID r) (rrOperationID r) (rrParents r)
    (rrRevision r) (rrVersion r) (rrMailboxIDs r) (rrKeywords r) x (rrTombstone r) (rrMerge r)
    (rrCreatedAt r) .
Definition set_rrTombstone (r : RevisionRecord) (x : bool) : RevisionRecord :=
  MkRevisionRecord (rrType r) (rrLogicalMessageID r) (rrOperationID r) (rrParents r)
    (rrRevision r) (rrVersion r) (rrMailboxIDs r) (rrKeywords r) (rrDeletePending r) x
    (rrMerge r) (rrCreatedAt r) .
Definition set_rrMerge (r : RevisionRecord) (x : bool) : RevisionRecord :=
  MkRevisionRecord (rrType r) (rrLogicalMessageID r) (rrOperationID r) (rrParents r)
    (rrRevision r) (rrVersion r) (rrMailboxIDs r) (rrKeywords r) (rrDeletePending r)
    (rrTombstone r) x (rrCreatedAt r) .

(** A record being decoded, with the memory behind its slices. *)
Record revision_decoding : Type := MkRevisionDecoding {
  rdRecord : RevisionRecord;
  rdParents : list string;
  rdMailboxIDs : list string;
  rdKeywords : list KeywordAssignment
}.
Definition zero_revision : RevisionRecord := MkRevisionRecord "" "" "" None 0 "" None None None false false "".
Definition new_revision : revision_decoding := MkRevisionDecoding zero_revision [] [] [].

Definition on_revision {A} (name : string) (decode : json → A → option A) (get : RevisionRecord → A)
    (set : RevisionRecord → A → RevisionRecord) : field revision_decoding :=
  mk_field name decode (λ s, get (rdRecord s))
    (λ s x, MkRevisionDecoding (set (rdRecord s) x) (rdParents s) (rdMailboxIDs s) (rdKeywords s)).
Definition parents_field : field revision_decoding :=
  mk_field "parents" (decode_array decode_string "") (λ s, Backed (rrParents (rdRecord s)) (rdParents s))
    (λ s x, MkRevisionDecoding (set_rrParents (rdRecord s) (bkVisible x)) (bkHidden x) (rdMailboxIDs s) (rdKeywords s)).
Definition mailbox_ids_field : field revision_decoding :=
  mk_field "mailboxIds" (decode_array decode_string "") (λ s, Backed (rrMailboxIDs (rdRecord s)) (rdMailboxIDs s))
    (λ s x, MkRevisionDecoding (set_rrMailboxIDs (rdRecord s) (bkVisible x)) (rdParents s) (bkHidden x) (rdKeywords s)).

(** ** Claims and folder revisions *)

Definition set_ocType (r : OperationClaimRecord) (x : string) : OperationClaimRecord :=
  MkOperationClaimRecord x (ocLogicalMessageID r) (ocOperationID r) (ocRevisionRKey r) .
Definition set_ocLogicalMessageID (r : OperationClaimRecord) (x : string) : OperationClaimRecord :=
  MkOperationClaimRecord (ocType r) x (ocOperationID r) (ocRevisionRKey r) .
Definition set_ocOperationID (r : OperationClaimRecord) (x : string) : OperationClaimRecord :=
  MkOperationClaimRecord (ocType r) (ocLogicalMessageID r) x (ocRevisionRKey r) .
Definition set_ocRevisionRKey (r : OperationClaimRecord) (x : string) : OperationClaimRecord :=
  MkOperationClaimRecord (ocType r) (ocLogicalMessageID r) (ocOperationID r) x.
Definition zero_claim : OperationClaimRecord := MkOperationClaimRecord "" "" "" "".
Definition claim_fields : list (field OperationClaimRecord) :=
  [mk_field "$type" decode_string ocType set_ocType;
   mk_field "logicalMessageId" decode_string ocLogicalMessageID set_ocLogicalMessageID;
   mk_field "operationId" decode_string ocOperationID set_ocOperationID;
   mk_field "revisionRkey" decode_string ocRevisionRKey set_ocRevisionRKey].

Definition set_frType (r : FolderRevisionRecord) (x : string) : FolderRevisionRecord :=
  MkFolderRevisionRecord x (frFolderID r) (frOperationID r) (frParents r) (frRevision r)
    (frName r) (frRole r) (frrTombstone r) (frMerge r) (frCreatedAt r) .
Definition set_frFolderID (r : FolderRevisionRecord) (x : string) : FolderRevisionRecord :=
  MkFolderRevisionRecord (frType r) x (frOperationID r) (frParents r) (frRevision r) (frName r)
    (frRole r) (frrTombstone r) (frMerge r) (frCreatedAt r) .
Definition set_frOperationID (r : FolderRevisionRecord) (x : string) : FolderRevisionRecord :=
  MkFolderRevisionRecord (frType r) (frFolderID r) x (frParents r) (frRevision r) (frName r)
    (frRole r) (frrTombstone r) (frMerge r) (frCreatedAt r) .
Definition set_frParents (r : FolderRevisionRecord) (x : slice string) : FolderRevisionRecord :=
  MkFolderRevisionRecord (frType r) (frFolderID r) (frOperationID r) x (frRevision r) (frName r)
    (frRole r) (frrTombstone r) (frMerge r) (frCreatedAt r) .
Definition set_frRevision (r : FolderRevisionRecord) (x : N) : FolderRevisionRecord :=
  MkFolderRevisionRecord (frType r) (frFolderID r) (frOperationID r) (frParents r) x (frName r)
    (frRole r) (frrTombstone r) (frMerge r) (frCreatedAt r) .
Definition set_frName (r : FolderRevisionRecord) (x : string) : FolderRevisionRecord :=
  MkFolderRevisionRecord (frType r) (frFolderID r) (frOperationID r) (frParents r) (frRevision r)
    x (frRole r) (frrTombstone r) (frMerge r) (frCreatedAt r) .
Definition set_frRole (r : FolderRevisionRecord) (x : string) : FolderRevisionRecord :=
  MkFolderRevisionRecord (frType r) (frFolderID r) (frOperationID r) (frParents r) (frRevision r)
    (frName r) x (frrTombstone r) (frMerge r) (frCreatedAt r) .
Definition set_frrTombstone (r : FolderRevisionRecord) (x : bool) : FolderRevisionRecord :=
  MkFolderRevisionRecord (frType r) (frFolderID r) (frOperationID r) (frParents r) (frRevision r)
    (frName r) (frRole r) x (frMerge r) (frCreatedAt r) .
Definition set_frMerge (r : FolderRevisionRecord) (x : bool) : FolderRevisionRecord :=
  MkFolderRevisionRecord (frType r) (frFolderID r) (frOperationID r) (frParents r) (frRevision r)
    (frName r) (frRole r) (frrTombstone r) x (frCreatedAt r) .
Definition set_frCreatedAt (r : FolderRevisionRecord) (x : string) : FolderRevisionRecord :=
  MkFolderRevisionRecord (frType r) (frFolderID r) (frOperationID r) (frParents r) (frRevision r)
    (frName r) (frRole r) (frrTombstone r) (frMerge r) x.
Definition zero_folder_revision : FolderRevisionRecord :=
  MkFolderRevisionRecord "" "" "" None 0 "" "" false false "".
(** A folder record being decoded, with the memory behind its parents. *)
Record folder_decoding : Type := MkFolderDecoding { fdcRecord : FolderRevisionRecord; fdcParents : list string }.
Definition on_folder {A} (name : string) (decode : json → A → option A) (get : FolderRevisionRecord → A)
    (set : FolderRevisionRecord → A → FolderRevisionRecord) : field folder_decoding :=
  mk_field name decode (λ s, get (fdcRecord s)) (λ s x, MkFolderDecoding (set (fdcRecord s) x) (fdcParents s)).
Definition folder_revision_fields : list (field folder_decoding) :=
  [on_folder "$type" decode_string frType set_frType;
   on_folder "folderId" decode_string frFolderID set_frFolderID;
   on_folder "operationId" decode_string frOperationID set_frOperationID;
   mk_field "parents" (decode_array decode_string "") (λ s, Backed (frParents (fdcRecord s)) (fdcParents s))
     (λ s x, MkFolderDecoding (set_frParents (fdcRecord s) (bkVisible x)) (bkHidden x));
   on_folder "revision" (decode_uint 64) frRevision set_frRevision;
   on_folder "name" decode_string frName set_frName;
   on_folder "role" decode_string frRole set_frRole;
   on_folder "tombstone" decode_bool frrTombstone set_frrTombstone;
   on_folder "merge" decode_bool frMerge set_frMerge;
   on_folder "createdAt" decode_string frCreatedAt set_frCreatedAt].

Definition set_focType (r : FolderOperationClaimRecord) (x : string) : FolderOperationClaimRecord :=
  MkFolderOperationClaimRecord x (focFolderID r) (focOperationID r) (focRevisionRKey r) .
Definition set_focFolderID (r : FolderOperationClaimRecord) (x : string) : FolderOperationClaimRecord :=
  MkFolderOperationClaimRecord (focType r) x (focOperationID r) (focRevisionRKey r) .
Definition set_focOperationID (r : FolderOperationClaimRecord) (x : string) : FolderOperationClaimRecord :=
  MkFolderOperationClaimRecord (focType r) (focFolderID r) x (focRevisionRKey r) .
Definition set_focRevisionRKey (r : FolderOperationClaimRecord) (x : string) : FolderOperationClaimRecord :=
  MkFolderOperationClaimRecord (focType r) (focFolderID r) (focOperationID r) x.
Definition zero_folder_claim : FolderOperationClaimRecord := MkFolderOperationClaimRecord "" "" "" "".
Definition folder_claim_fields : list (field FolderOperationClaimRecord) :=
  [mk_field "$type" decode_string focType set_focType;
   mk_field "folderId" decode_string focFolderID set_focFolderID;
   mk_field "operationId" decode_string focOperationID set_focOperationID;
   mk_field "revisionRkey" decode_string focRevisionRKey set_focRevisionRKey].

Section decoders.
Context `{CaseOrbits}.

Definition keyword_fields : list (field KeywordAssignment) :=
  [mk_field "name" decode_string kaName set_kaName; mk_field "present" decode_bool kaPresent set_kaPresent].
Definition keywords_field : field revision_decoding :=
  mk_field "keywords" (decode_array (decode_strict keyword_fields) zero_keyword)
    (λ s, Backed (rrKeywords (rdRecord s)) (rdKeywords s))
    (λ s x, MkRevisionDecoding (set_rrKeywords (rdRecord s) (bkVisible x)) (rdParents s) (rdMailboxIDs s) (bkHidden x)).

Definition revision_fields : list (field revision_decoding) :=
  [on_revision "$type" decode_string rrType set_rrType;
   on_revision "logicalMessageId" decode_string rrLogicalMessageID set_rrLogicalMessageID;
   on_revision "operationId" decode_string rrOperationID set_rrOperationID;
   parents_field;
   on_revision "revision" (decode_uint 64) rrRevision set_rrRevision;
   on_revision "version" decode_string rrVersion set_rrVersion;
   mailbox_ids_field;
   keywords_field;
   on_revision "deletePending" decode_bool_pointer rrDeletePending set_rrDeletePending;
   on_revision "tombstone" decode_bool rrTombstone set_rrTombstone;
   on_revision "merge" decode_bool rrMerge set_rrMerge;
   on_revision "createdAt" decode_string rrCreatedAt set_rrCreatedAt].

Definition DecodeRevisionRecord (encoded : string) : result RevisionRecord :=
  fail_if (len encoded =? 0) || (maxRevisionRecordBytes <? len encoded) with ErrResourceLimit ;;
  let? s := decode_one (λ j, decode_strict revision_fields j new_revision) encoded in
  Ok (rdRecord s).

Definition DecodeOperationClaimRecord (encoded : string) : result OperationClaimRecord :=
  fail_if (len encoded =? 0) || (maxRevisionRecordBytes <? len encoded) with ErrResourceLimit ;;
  decode_one (λ j, decode_strict claim_fields j zero_claim) encoded.

Definition DecodeFolderRevisionRecord (encoded : string) : result FolderRevisionRecord :=
  fail_if (len encoded =? 0) || (maxRevisionRecordBytes <? len encoded) with ErrResourceLimit ;;
  let? s := decode_one (λ j, decode_strict folder_revision_fields j (MkFolderDecoding zero_folder_revision []))
              encoded in
  Ok (fdcRecord s).

Definition DecodeFolderOperationClaimRecord (encoded : string) : result FolderOperationClaimRecord :=
  fail_if (len encoded =? 0) || (maxRevisionRecordBytes <? len encoded) with ErrResourceLimit ;;
  decode_one (λ j, decode_strict folder_claim_fields j zero_folder_claim) encoded.

End decoders.

(** ** The JSON the records are written as ([json.Marshal]) *)

Definition keyword_json (a : KeywordAssignment) : json :=
  JObj [("name", JStr (kaName a)); ("present", JBool (kaPresent a))].
Definition revision_json (r : RevisionRecord) : json :=
  JObj ([("$type", JStr (rrType r)); ("logicalMessageId", JStr (rrLogicalMessageID r));
         ("operationId", JStr (rrOperationID r)); ("parents", json_slice (rrParents r));
         ("revision", json_N (rrRevision r))] ++
        omit_if (String.eqb (rrVersion r) "") "version" (JStr (rrVersion r)) ++
        omit_if (llen (elems (rrMailboxIDs r)) =? 0) "mailboxIds" (json_slice (rrMailboxIDs r)) ++
        omit_if (llen (elems (rrKeywords r)) =? 0) "keywords"
          (JArr (List.map keyword_json (elems (rrKeywords r)))) ++
        (match rrDeletePending r with Some b => [("deletePending", JBool b)] | None => [] end) ++
        omit_if (negb (rrTombstone r)) "tombstone" (JBool (rrTombstone r)) ++
        omit_if (negb (rrMerge r)) "merge" (JBool (rrMerge r)) ++
        [("createdAt", JStr (rrCreatedAt r))]).
Definition claim_json (c : OperationClaimRecord) : json :=
  JObj [("$type", JStr (ocType c)); ("logicalMessageId", JStr (ocLogicalMessageID c));
        ("operationId", JStr (ocOperationID c)); ("revisionRkey", JStr (ocRevisionRKey c))].
Definition folder_revision_json (r : FolderRevisionRecord) : json :=
  JObj ([("$type", JStr (frType r)); ("folderId", JStr (frFolderID r));
         ("operationId", JStr (frOperationID r)); ("parents", json_slice (frParents r));
         ("revision", json_N (frRevision r))] ++
        omit_if (String.eqb (frName r) "") "name" (JStr (frName r)) ++
        omit_if (String.eqb (frRole r) "") "role" (JStr (frRole r)) ++
        omit_if (negb (frrTombstone r)) "tombstone" (JBool (frrTombstone r)) ++
        omit_if (negb (frMerge r)) "merge" (JBool (frMerge r)) ++
        [("createdAt", JStr (frCreatedAt r))]).
Definition folder_claim_json (c : FolderOperationClaimRecord) : json :=
  JObj [("$type", JStr (focType c)); ("folderId", JStr (focFolderID c));
        ("operationId", JStr (focOperationID c)); ("revisionRkey", JStr (focRevisionRKey c))].

(** ** Decoding what was encoded *)

Lemma decode_one_parse {S} (decode : json → option S) encoded :
  decode_one decode encoded =
  (let? j := opt_result (parse encoded) ErrInvalidRevision in opt_result (decode j) ErrInvalidRevision).
Proof.
  unfold decode_one, parse, requireJSONEOF.
  destruct (parse_value _ encoded) as [[j rest]|]; [|done]. simpl.
  destruct (String.eqb (skip_ws rest) ""); simpl; destruct (decode j); done.
Qed.

Lemma decode_one_print {S} (decode : json → option S) j s :
  printable j → utf8_json j = true → decode j = Some s → decode_one decode (print j) = Ok s.
Proof. intros Hp Hu Hd. rewrite decode_one_parse, parse_print_utf8 by done. cbn. by rewrite Hd. Qed.

Lemma decode_elements_list {A} (decode : json → A → option A) (encode : A → json) zero l :
  (∀ a, a ∈ l → decode (encode a) zero = Some a) →
  decode_elements decode zero (List.map encode l) [] = Some (l, []).
Proof.
  induction l as [|a l IH]; intros Hd; [done|]. cbn. rewrite Hd by set_solver.
  rewrite IH; [done|]. intros b Hb. apply Hd. set_solver.
Qed.

Lemma decode_array_list {A} (decode : json → A → option A) (encode : A → json) zero l :
  (∀ a, a ∈ l → decode (encode a) zero = Some a) →
  decode_array decode zero (JArr (List.map encode l)) (Backed None []) = Some (Backed (Some l) []).
Proof.
  intros Hd. pose proof (decode_elements_list decode encode zero l Hd) as He.
  destruct l as [|a l]; [done|]. cbn [List.map decode_array elems bkVisible bkHidden default app] in *.
  change (elems None ++ [] : list A) with (@nil A). by rewrite He.
Qed.

Lemma decode_array_slice (s : slice string) :
  decode_array decode_string "" (json_slice s) (Backed None []) = Some (Backed s []).
Proof. destruct s as [l|]; [|done]. by apply decode_array_list. Qed.

Section round_trip.
Context `{CaseOrbits}.

Lemma known_app {S} (fields : list (field S)) l1 l2 :
  known fields (JObj (l1 ++ l2)) = known fields (JObj l1) && known fields (JObj l2).
Proof. apply forallb_app. Qed.
Lemma known_omit {S} (fields : list (field S)) e name j :
  is_some (find_field fields name) = true → known fields (JObj (omit_if e name j)) = true.
Proof. intros Hf. destruct e; simpl; [done|]. by rewrite Hf. Qed.

Lemma decode_keyword_json a : decode_strict keyword_fields (keyword_json a) zero_keyword = Some a.
Proof. by destruct a. Qed.

Lemma decode_claim_json c : decode_strict claim_fields (claim_json c) zero_claim = Some c.
Proof. by destruct c. Qed.
Lemma decode_folder_claim_json c :
  decode_strict folder_claim_fields (folder_claim_json c) zero_folder_claim = Some c.
Proof. by destruct c. Qed.

Lemma known_revision_json r : known revision_fields (revision_json r) = true.
Proof.
  unfold revision_json. rewrite !known_app, !known_omit by done.
  destruct (rrDeletePending r); done.
Qed.
Lemma known_folder_json r : known folder_revision_fields (folder_revision_json r) = true.
Proof. unfold folder_revision_json. by rewrite !known_app, !known_omit. Qed.

(** Decodes the next member that may be left out. *)
Ltac next_member decoded empty :=
  rewrite decode_members_app; erewrite decode_omit;
    [|reflexivity|exact decoded|exact empty|reflexivity]; cbv beta iota.

Lemma not_present b : negb b = true → b = false.
Proof. by destruct b. Qed.

Lemma decode_folder_json r :
  folder_typed r →
  decode_strict folder_revision_fields (folder_revision_json r) (MkFolderDecoding zero_folder_revision []) =
  Some (MkFolderDecoding r []).
Proof.
  intros Hr. unfold decode_strict. rewrite known_folder_json.
  destruct r as [type folder op parents revision name role tombstone merge created].
  unfold folder_typed in Hr. cbn [frRevision] in Hr. unfold folder_revision_json. cbn [decode_struct frType frFolderID
    frOperationID frParents frRevision frName frRole frrTombstone frMerge frCreatedAt].
  rewrite decode_members_app.
  match goal with |- context [decode_members folder_revision_fields ?l ?s] =>
    assert (Hhead : decode_members folder_revision_fields l s =
      Some (MkFolderDecoding (MkFolderRevisionRecord type folder op parents revision "" "" false false "") [])) end.
  { cbn -[json_N decode_uint json_slice decode_array]. rewrite decode_array_slice. cbn -[json_N decode_uint].
    by rewrite decode_uint_json. }
  rewrite Hhead. cbv iota.
  next_member (@eq_refl _ (Some name)) (empty_string name).
  next_member (@eq_refl _ (Some role)) (empty_string role).
  next_member (@eq_refl _ (Some tombstone)) (not_present tombstone).
  next_member (@eq_refl _ (Some merge)) (not_present merge).
  reflexivity.
Qed.

(** The slices that are left out when empty are nil, not empty. *)
Record revision_writable (r : RevisionRecord) : Prop := {
  rw_typed : revision_typed r;
  rw_mailboxes : rrMailboxIDs r ≠ Some [];
  rw_keywords : rrKeywords r ≠ Some []
}.

Lemma decode_keywords_json (l : slice KeywordAssignment) :
  l ≠ Some [] → llen (elems l) ≠ 0 →
  decode_array (decode_strict keyword_fields) zero_keyword (JArr (List.map keyword_json (elems l)))
    (Backed None []) = Some (Backed l []).
Proof.
  destruct l as [l|]; [|done]. intros _ _. apply decode_array_list. intros a _. apply decode_keyword_json.
Qed.

Lemma decode_keywords_member l s :
  l ≠ Some [] → rrKeywords (rdRecord s) = None → rdKeywords s = [] →
  decode_members revision_fields
    (omit_if (llen (elems l) =? 0) "keywords" (JArr (List.map keyword_json (elems l)))) s =
  Some (MkRevisionDecoding (set_rrKeywords (rdRecord s) l) (rdParents s) (rdMailboxIDs s) []).
Proof.
  intros Hl Hs Hh. destruct (N.eqb_spec (llen (elems l)) 0) as [E|E].
  - destruct l as [[|]|]; try done. destruct s as [[] ? ? ?]. cbn in *. by subst.
  - cbn [omit_if decode_members]. unfold decode_member. cbn [fst snd].
    change (find_field revision_fields "keywords") with (Some keywords_field).
    cbn [keywords_field mk_field snd]. rewrite Hs, Hh. by rewrite decode_keywords_json.
Qed.

Lemma decode_revision_json r :
  revision_writable r →
  decode_strict revision_fields (revision_json r) new_revision = Some (MkRevisionDecoding r [] [] []).
Proof.
  intros [Hr Hm Hk]. unfold decode_strict. rewrite known_revision_json.
  destruct r as [type logical op parents revision version mailboxes keywords pending tombstone merge created].
  unfold revision_typed in Hr. cbn in Hr, Hm, Hk. unfold revision_json. cbn [decode_struct rrType rrLogicalMessageID
    rrOperationID rrParents rrRevision rrVersion rrMailboxIDs rrKeywords rrDeletePending rrTombstone rrMerge
    rrCreatedAt].
  rewrite decode_members_app.
  match goal with |- context [decode_members revision_fields ?l ?s] =>
    assert (Hhead : decode_members revision_fields l s =
      Some (MkRevisionDecoding (MkRevisionRecord type logical op parents revision "" None None None false false "")
        [] [] [])) end.
  { cbn -[json_N decode_uint json_slice decode_array]. rewrite decode_array_slice. cbn -[json_N decode_uint].
    by rewrite decode_uint_json. }
  rewrite Hhead. cbv iota.
  next_member (@eq_refl _ (Some version)) (empty_string version).
  rewrite decode_members_app. erewrite (decode_omit _ "mailboxIds" _ _ _ _ (Backed mailboxes []));
    [|reflexivity|apply decode_array_slice|by intros ->%empty_slice|reflexivity]. cbv beta iota.
  rewrite decode_members_app, decode_keywords_member by done. cbv iota. cbn [rdRecord rdParents rdMailboxIDs].
  rewrite decode_members_app.
  match goal with |- context [decode_members revision_fields ?l ?s] =>
    assert (Hpending : decode_members revision_fields l s =
      Some (MkRevisionDecoding (set_rrDeletePending (rdRecord s) pending) [] [] [])) by (by destruct pending) end.
  rewrite Hpending. cbv iota.
  next_member (@eq_refl _ (Some tombstone)) (not_present tombstone).
  next_member (@eq_refl _ (Some merge)) (not_present merge).
  reflexivity.
Qed.

End round_trip.

(** ** What decodes is well formed *)

Definition keyword_text (a : KeywordAssignment) : Prop := valid_text (kaName a).
Record revision_decoded (s : revision_decoding) : Prop := {
  de_texts : Forall valid_text [rrType (rdRecord s); rrLogicalMessageID (rdRecord s); rrOperationID (rdRecord s);
    rrVersion (rdRecord s); rrCreatedAt (rdRecord s)];
  de_parents : Forall valid_text (elems (rrParents (rdRecord s)) ++ rdParents s);
  de_mailboxes : Forall valid_text (elems (rrMailboxIDs (rdRecord s)) ++ rdMailboxIDs s);
  de_keywords : Forall keyword_text (elems (rrKeywords (rdRecord s)) ++ rdKeywords s);
  de_revision : rrRevision (rdRecord s) < 2 ^ 64
}.

Section well_formed.
Context `{CaseOrbits}.

Lemma decode_elements_keeps {A} (decode : json → A → option A) (zero : A) (Q : A → Prop) l memory r :
  Q zero → (∀ j a a', utf8_json j = true → decode j a = Some a' → Q a → Q a') →
  forallb utf8_json l = true → decode_elements decode zero l memory = Some r →
  Forall Q memory → Forall Q (r.1 ++ r.2).
Proof.
  intros Hz Hd. revert memory r. induction l as [|j l IH]; intros memory r Hj He Hm; [by injection He as <-|].
  cbn [decode_elements forallb] in *. bools.
  destruct (decode j _) as [a|] eqn:Ea; [|done]. destruct (decode_elements _ _ l _) as [[x hidden]|] eqn:El; [|done].
  injection He as <-. cbn [fst snd app]. constructor.
  - eapply Hd; [done|exact Ea|]. destruct memory as [|b memory]; [done|]. by apply Forall_cons in Hm as [? _].
  - apply (IH _ _ ltac:(done) El). destruct memory as [|b memory]; [done|]. by apply Forall_cons in Hm as [_ ?].
Qed.

Lemma decode_array_keeps {A} (decode : json → A → option A) (zero : A) (Q : A → Prop) j s s' :
  Q zero → (∀ j a a', utf8_json j = true → decode j a = Some a' → Q a → Q a') →
  utf8_json j = true → decode_array decode zero j s = Some s' →
  Forall Q (elems (bkVisible s) ++ bkHidden s) → Forall Q (elems (bkVisible s') ++ bkHidden s').
Proof.
  intros Hz Hd Hj He Hs. destruct j as [| | | |l|]; try done; [by injection He as <-|].
  destruct l as [|x l]; [by injection He as <-|]. cbn [decode_array] in He.
  destruct (decode_elements decode zero (x :: l) _) as [r|] eqn:Er; [|done]. injection He as <-.
  by eapply decode_elements_keeps.
Qed.

Lemma decode_keyword_valid j a a' :
  utf8_json j = true → decode_strict keyword_fields j a = Some a' → keyword_text a → keyword_text a'.
Proof.
  unfold decode_strict. destruct (known keyword_fields j); [|done].
  apply (decode_struct_keeps keyword_text). repeat apply Forall_cons_2; [..|apply Forall_nil_2].
  - eapply keeps_mk; [exact decode_string_valid|done|done].
  - apply (keeps_mk _ (λ _, True)); done.
Qed.

(** A member decoded into one component keeps the invariant of the others. *)
Ltac keep_component lemma :=
  eapply keeps_mk; [exact lemma|
    intros s []; repeat match goal with E : Forall _ (_ :: _) |- _ => apply Forall_cons in E as [? E] end; done|
    intros s a [Ht ????] ?; constructor; [|done..]; cbn in Ht |- *;
    repeat match goal with E : Forall _ (_ :: _) |- _ => apply Forall_cons in E as [? E] end; by repeat constructor].

Lemma revision_fields_keep : Forall (keeps revision_decoded) revision_fields.
Proof.
  repeat apply Forall_cons_2; [..|apply Forall_nil_2].
  1-3,6,12: keep_component decode_string_valid.
  - eapply keeps_mk; [intros j a a'; by apply decode_array_keeps, decode_string_valid|by intros s []|].
    intros s a [] ?. by constructor.
  - eapply (keeps_mk _ (λ n, n < 2 ^ 64)); [|by intros s []|intros s a [] ?; by constructor].
    intros j a a' _. apply decode_uint_bound.
  - eapply keeps_mk; [intros j a a'; by apply decode_array_keeps, decode_string_valid|by intros s []|].
    intros s a [] ?. by constructor.
  - eapply keeps_mk; [intros j a a'; by apply decode_array_keeps, decode_keyword_valid|by intros s []|].
    intros s a [] ?. by constructor.
  - apply (keeps_mk _ (λ _, True)); [done|done|intros s a [] ?; by constructor].
  - apply (keeps_mk _ (λ _, True)); [done|done|intros s a [] ?; by constructor].
  - apply (keeps_mk _ (λ _, True)); [done|done|intros s a [] ?; by constructor].
Qed.

Lemma DecodeRevisionRecord_ok encoded r :
  DecodeRevisionRecord encoded = Ok r →
  1 ≤ len encoded ≤ maxRevisionRecordBytes ∧
  ∃ j s, parse encoded = Some j ∧ known revision_fields j = true ∧
    decode_struct revision_fields j new_revision = Some s ∧ rdRecord s = r ∧ revision_decoded s.
Proof.
  unfold DecodeRevisionRecord. rewrite decode_one_parse. intros Hd. result_steps. bools.
  split; [lia|].
  match goal with E : decode_strict _ ?j _ = Some ?s |- _ => exists j, s; unfold decode_strict in E;
    destruct (known revision_fields j); [|done]; rename E into Hs end.
  split_and!; try done.
  apply (decode_struct_keeps _ _ _ _ _ revision_fields_keep (parse_valid _ _ ltac:(done)) Hs).
  constructor; repeat constructor.
Qed.
End well_formed.

(** ** Writing and reading records *)

Lemma printable_keywords l : printable (JArr (List.map keyword_json l)).
Proof. constructor. apply Forall_fmap, Forall_forall. intros a _. unfold keyword_json; simpl. solve_printable. Qed.
Lemma utf8_keywords l : Forall keyword_text l → utf8_json (JArr (List.map keyword_json l)) = true.
Proof.
  intros Hl. cbn [utf8_json]. apply forallb_forall. intros j (a & <- & Ha)%in_map_iff.
  rewrite Forall_forall in Hl. apply list_elem_of_In, Hl in Ha. cbn. by rewrite Ha.
Qed.

Lemma printable_revision r : printable (revision_json r).
Proof.
  unfold revision_json. destruct (rrDeletePending r); solve_printable; apply printable_keywords.
Qed.
Lemma printable_folder_revision r : printable (folder_revision_json r).
Proof. unfold folder_revision_json. solve_printable. Qed.

Record revision_wire (r : RevisionRecord) : Prop := {
  wi_writable : revision_writable r;
  wi_texts : revision_decoded (MkRevisionDecoding r [] [] []);
  wi_size : len (print (revision_json r)) ≤ maxRevisionRecordBytes
}.

Lemma utf8_revision r : revision_wire r → utf8_json (revision_json r) = true.
Proof.
  intros [_ [Ht Hp Hm Hk _] _]. cbn in Ht, Hp, Hm, Hk. rewrite app_nil_r in Hp, Hm, Hk.
  repeat match goal with E : Forall _ (_ :: _) |- _ => apply Forall_cons in E as [? E] end. unfold valid_text in *.
  unfold revision_json. cbn [utf8_json].
  rewrite !forallb_app, !utf8_omit by first [done|by apply utf8_slice|by apply utf8_keywords].
  cbn [forallb fst snd utf8_json]. rewrite utf8_slice by done.
  repeat match goal with E : utf8_valid _ = true |- _ => rewrite E; clear E end.
  by destruct (rrDeletePending r).
Qed.

Record folder_wire (r : FolderRevisionRecord) : Prop := {
  fw_typed : folder_typed r;
  fw_texts : Forall valid_text [frType r; frFolderID r; frOperationID r; frName r; frRole r; frCreatedAt r];
  fw_parents : Forall valid_text (elems (frParents r));
  fw_size : len (print (folder_revision_json r)) ≤ maxRevisionRecordBytes
}.

Lemma utf8_folder r : folder_wire r → utf8_json (folder_revision_json r) = true.
Proof.
  intros [_ Ht Hp _]. unfold valid_text in *.
  repeat match goal with E : Forall _ (_ :: _) |- _ => apply Forall_cons in E as [? E] end.
  unfold folder_revision_json. cbn [utf8_json]. rewrite !forallb_app, !utf8_omit by done.
  cbn [forallb fst snd utf8_json]. rewrite utf8_slice by done.
  by repeat match goal with E : utf8_valid _ = true |- _ => rewrite E; clear E end.
Qed.

(** The size test passes. *)
Lemma print_nonempty j : printable j → (len (print j) =? 0) = false.
Proof. intros Hp. apply N.eqb_neq. destruct (print_starts j Hp) as (c & s & -> & _). rewrite len_cons. lia. Qed.
Lemma within_limit j :
  printable j → len (print j) ≤ maxRevisionRecordBytes →
  (len (print j) =? 0) || (maxRevisionRecordBytes <? len (print j)) = false.
Proof. intros Hp Hl. rewrite print_nonempty by done. by apply N.ltb_ge. Qed.

(** The names a revision record has on the wire. *)
Definition revision_names : list string :=
  ["$type"; "logicalMessageId"; "operationId"; "parents"; "revision"; "version"; "mailboxIds"; "keywords";
   "deletePending"; "tombstone"; "merge"; "createdAt"].

Section wire.
Context `{CaseOrbits}.

Lemma find_field_name {S} (fields : list (field S)) key :
  is_some (find_field fields key) = true →
  ∃ f, In f fields ∧ fold_name f.1 = fold_name key.
Proof.
  unfold find_field. case_match eqn:E.
  - intros _. apply find_some in E as [Hin He]. eexists. split; [exact Hin|]. by apply String.eqb_eq in He as ->.
  - clear E. match goal with |- context [List.find ?p fields] => destruct (List.find p fields) eqn:E; [|done] end.
    intros _.
    apply find_some in E as [Hin He]. eexists. split; [exact Hin|]. by apply String.eqb_eq in He.
Qed.

Lemma known_revision_names l :
  known revision_fields (JObj l) = true →
  Forall (λ kv, ∃ name, name ∈ revision_names ∧ fold_name name = fold_name kv.1) l.
Proof.
  cbn [known]. rewrite forallb_forall. intros Hk. apply Forall_forall. intros kv Hin%list_elem_of_In.
  destruct (find_field_name _ _ (Hk kv Hin)) as (f & Hf & E). exists f.1. split; [|done].
  apply list_elem_of_In. change revision_names with (List.map fst revision_fields). by apply in_map.
Qed.

(** Each kind of record, one at a time. *)
Lemma revision_decodes r : revision_wire r → DecodeRevisionRecord (print (revision_json r)) = Ok r.
Proof.
  intros Hr. unfold DecodeRevisionRecord. rewrite within_limit by first [apply printable_revision|by destruct Hr].
  rewrite (decode_one_print _ _ (MkRevisionDecoding r [] [] []));
    [reflexivity|apply printable_revision|by apply utf8_revision|].
  apply decode_revision_json. by destruct Hr.
Qed.
Lemma claim_decodes c : utf8_json (claim_json c) = true → len (print (claim_json c)) ≤ maxRevisionRecordBytes →
  DecodeOperationClaimRecord (print (claim_json c)) = Ok c.
Proof.
  intros Hc Hcs. assert (Pc : printable (claim_json c)) by (unfold claim_json; solve_printable).
  unfold DecodeOperationClaimRecord. rewrite within_limit by done. apply decode_one_print; [done..|apply decode_claim_json].
Qed.
Lemma folder_decodes f : folder_wire f → DecodeFolderRevisionRecord (print (folder_revision_json f)) = Ok f.
Proof.
  intros Hf. unfold DecodeFolderRevisionRecord. rewrite within_limit by first [apply printable_folder_revision|by destruct Hf].
  rewrite (decode_one_print _ _ (MkFolderDecoding f []));
    [reflexivity|apply printable_folder_revision|by apply utf8_folder|].
  apply decode_folder_json. by destruct Hf.
Qed.
Lemma folder_claim_decodes c : utf8_json (folder_claim_json c) = true →
  len (print (folder_claim_json c)) ≤ maxRevisionRecordBytes →
  DecodeFolderOperationClaimRecord (print (folder_claim_json c)) = Ok c.
Proof.
  intros Hc Hcs. assert (Pc : printable (folder_claim_json c)) by (unfold folder_claim_json; solve_printable).
  unfold DecodeFolderOperationClaimRecord. rewrite within_limit by done.
  apply decode_one_print; [done..|apply decode_folder_claim_json].
Qed.

(** C39. Records survive the wire: the decoder of each of the four kinds of record gives back
    the record that was marshalled, for valid UTF-8 text, 64-bit revision numbers and texts
    within the size limit. *)
Theorem wire_round_trip (r : RevisionRecord) (c : OperationClaimRecord) (f : FolderRevisionRecord)
    (fc : FolderOperationClaimRecord) (Hr : revision_wire r) (Hf : folder_wire f)
    (Hc : utf8_json (claim_json c) = true) (Hfc : utf8_json (folder_claim_json fc) = true)
    (Hcs : len (print (claim_json c)) ≤ maxRevisionRecordBytes)
    (Hfcs : len (print (folder_claim_json fc)) ≤ maxRevisionRecordBytes) :
  DecodeRevisionRecord (print (revision_json r)) = Ok r ∧
  DecodeOperationClaimRecord (print (claim_json c)) = Ok c ∧
  DecodeFolderRevisionRecord (print (folder_revision_json f)) = Ok f ∧
  DecodeFolderOperationClaimRecord (print (folder_claim_json fc)) = Ok fc.
Proof. split_and!; [by apply revision_decodes|by apply claim_decodes|by apply folder_decodes|by apply folder_claim_decodes]. Qed.

(** The revision decoder accepts only what its record type can hold: a text that decodes is
    not empty and within the size limit, is [null] or one object whose members all have one of
    the twelve names (up to case), and gives a record of valid UTF-8 text with a 64-bit
    revision number. *)
Theorem decoded_revision_well_formed (encoded : string) (r : RevisionRecord)
    (Hd : DecodeRevisionRecord encoded = Ok r) :
  1 ≤ len encoded ≤ maxRevisionRecordBytes ∧ revision_typed r ∧
  Forall valid_text ([rrType r; rrLogicalMessageID r; rrOperationID r; rrVersion r; rrCreatedAt r] ++
    elems (rrParents r) ++ elems (rrMailboxIDs r) ++ (kaName <$> elems (rrKeywords r))) ∧
  (parse encoded = Some JNull ∨
   ∃ l, parse encoded = Some (JObj l) ∧
     Forall (λ kv, ∃ name, name ∈ revision_names ∧ fold_name name = fold_name kv.1) l).
Proof.
  apply DecodeRevisionRecord_ok in Hd as (Hl & j & s & Hj & Hk & Hs & <- & [Ht Hp Hm Hw Hn]).
  apply Forall_app in Hp as [Hp _], Hm as [Hm _], Hw as [Hw _]. do 2 (split; [done|]). split.
  - apply Forall_app; split; [done|]. rewrite !Forall_app, Forall_fmap. by split_and!.
  - destruct j as [| | | | |l]; try done; [by left|]. right. exists l. split; [done|].
    by apply known_revision_names.
Qed.

End wire.

Definition example_revision : RevisionRecord :=
  MkRevisionRecord "email.atmos.messageStateRevision" "sha256-1" "op-1" (Some []) 1 "v1" (Some ["f1"])
    (Some [MkKeywordAssignment "$seen" true]) (Some false) false true "2026-01-01T00:00:00Z".
Definition example_folder_revision : FolderRevisionRecord :=
  MkFolderRevisionRecord "email.atmos.folderRevision" "f1" "op-1" None 7 "Inbox" "" false true "now".

Lemma example_revision_wire : revision_wire example_revision.
Proof. by split; [split|split; repeat constructor|]. Qed.
Lemma example_folder_wire : folder_wire example_folder_revision.
Proof. by split; [|repeat constructor..|]. Qed.

Lemma wire_round_trip_witness :
  DecodeRevisionRecord (print (revision_json example_revision)) = Ok example_revision.
Proof.
  exact (proj1 (wire_round_trip example_revision (MkOperationClaimRecord "a" "b" "c" "d") example_folder_revision
    (MkFolderOperationClaimRecord "a" "b" "c" "d") example_revision_wire example_folder_wire
    eq_refl eq_refl ltac:(vm_compute; discriminate) ltac:(vm_compute; discriminate))).
Defined.

Lemma decoded_revision_well_formed_witness : revision_typed example_revision.
Proof.
  assert (Hd : DecodeRevisionRecord (print (revision_json example_revision)) = Ok example_revision)
    by (vm_compute; reflexivity).
  exact (proj1 (proj2 (decoded_revision_well_formed _ _ Hd))).
Defined.

(** Two members of one object whose names differ only in case. *)
Definition member_text (name value : string) : string := quote name +:+ ":" +:+ value.
Definition shadowed_tombstone : string :=
  "{" +:+ join_with "," [member_text "$type" (quote "t"); member_text "Tombstone" "true"; member_text "tombstone" "false"] +:+ "}".
Definition plain_tombstone : string :=
  "{" +:+ join_with "," [member_text "$type" (quote "t"); member_text "tombstone" "false"] +:+ "}".
Definition unknown_member : string :=
  "{" +:+ join_with "," [member_text "$type" (quote "t"); member_text "deleted" "true"] +:+ "}".

(** Strict decoding does not see every property: a member whose name is a known one in
    another case is dropped without an error when the exact name follows, so two different
    texts, one of which says the message is deleted, decode to the same record (and get the
    same key); a name that is unknown in every case is refused. *)
Theorem decode_drops_case_variant :
  shadowed_tombstone ≠ plain_tombstone ∧
  is_ok (DecodeRevisionRecord plain_tombstone) = true ∧
  DecodeRevisionRecord shadowed_tombstone = DecodeRevisionRecord plain_tombstone ∧
  DecodeRevisionRecord unknown_member = Err ErrInvalidRevision.
Proof. split_and!; vm_compute; done. Qed.
