(* ===== verification/Ipld.v ===== *)
(** * IPLD data: content identifiers and DAG-CBOR nodes

    The packages go-cid, go-multihash and go-ipld-prime are not part of this repository: CIDs
    and the DAG-CBOR codec are the operations of the class [Ipld], arguments of the definitions
    that call them.  [IpldLaws] states the documented behaviour the proofs use.  The data model
    itself, the tree a decoded block is, is the type [node]; its maps keep the order of the
    encoding, and the decoder refuses a key that comes twice.

    [binary_ipld] is a concrete instance for running the model: binary CIDs of version 1 with a
    SHA-256 digest, written in base 16, and DAG-CBOR without floats. *)
From S2P Require Import Prelude Sha256 GoStd Syntax Unicode Json.

#[local] Unset Elimination Schemes.
Inductive node (cid : Type) : Type :=
  | NNull
  | NBool (b : bool)
  | NInt (z : Z)
  | NFloat (bits : N)
  | NString (s : string)
  | NBytes (s : string)
  | NList (l : list (node cid))
  | NMap (l : list (string * node cid))
  | NLink (c : cid).
#[local] Set Elimination Schemes.
Arguments NNull {cid}.
Arguments NBool {cid} b.
Arguments NInt {cid} z.
Arguments NFloat {cid} bits.
Arguments NString {cid} s.
Arguments NBytes {cid} s.
Arguments NList {cid} l.
Arguments NMap {cid} l.
Arguments NLink {cid} c.

Lemma node_nested_ind {cid} (P : node cid → Prop) :
  P NNull → (∀ b, P (NBool b)) → (∀ z, P (NInt z)) → (∀ n, P (NFloat n)) → (∀ s, P (NString s)) →
  (∀ s, P (NBytes s)) → (∀ l, Forall P l → P (NList l)) → (∀ l, Forall (λ kv, P kv.2) l → P (NMap l)) →
  (∀ c, P (NLink c)) → ∀ n, P n.
Proof.
  intros H1 H2 H3 H4 H5 H6 H7 H8 H9. fix IH 1. 
  intros [| | | | | |l|l|];
    [apply H1|apply H2|apply H3|apply H4|apply H5|apply H6|apply H7|apply H8|apply H9];
    induction l; constructor; auto.
Qed.

(** Multicodec and multihash codes. *)
Definition codec_Raw : N := 0x55.
Definition codec_DagCBOR : N := 0x71.
Definition SHA2_256 : N := 0x12.

Class Ipld : Type := {
  cid : Type;
  cid_eq_dec :: EqDecision cid;
  (** [cid.Parse], which also takes the part after [/ipfs/] of a path, [cid.Decode],
      [Cid.String], [cid.CidFromBytes] (the bytes read and the CID). *)
  cid_Parse : string → option cid;
  cid_Decode : string → option cid;
  cid_String : cid → string;
  cid_FromBytes : string → option (N * cid);
  cid_Defined : cid → bool;
  cid_Version : cid → N;
  (** [Cid.Prefix]: codec, multihash code and digest length. *)
  cid_Codec : cid → N;
  cid_MhType : cid → N;
  cid_MhLength : cid → Z;
  (** [Cid.Prefix().Sum(data)]. *)
  cid_Sum : cid → string → option cid;
  (** [multihash.Decode(Cid.Hash())], the digest. *)
  cid_Digest : cid → option string;
  (** [dagcbor.DecodeOptions{AllowLinks: true}.Decode] into [basicnode.Prototype.Any]. *)
  dagcbor_Decode : string → option (node cid);
  (** [dagcbor.EncodeOptions{AllowLinks: true, MapSortMode: RFC7049}.Encode]. *)
  dagcbor_Encode : node cid → option string
}.

(** [Sum] keeps the prefix it is called on, and the digest of a SHA-256 multihash is the
    SHA-256 of the data. *)
Class IpldLaws `{Ipld} : Prop := {
  cid_Sum_sha256 c data c' :
    cid_Sum c data = Some c' → cid_MhType c = SHA2_256 → cid_MhLength c = 32%Z →
    cid_Digest c' = Some (sha256 data) ∧ cid_Codec c' = cid_Codec c;
  (** The keys of a decoded map are distinct. *)
  dagcbor_Decode_keys s l : dagcbor_Decode s = Some (NMap l) → NoDup l.*1;
}.

Section nodes.
Context `{Ipld}.

(** [node.LookupByString] on a map. *)
Definition lookup_key (l : list (string * node cid)) (key : string) : option (node cid) :=
  snd <$> List.find (λ kv, String.eqb kv.1 key) l.
Definition LookupByString (n : node cid) (key : string) : option (node cid) :=
  match n with NMap l => lookup_key l key | _ => None end.

(** [AsInt] fails on integers outside int64, which the decoder keeps as unsigned. *)
Definition AsInt (n : node cid) : option Z :=
  match n with NInt z => if (z <? 2 ^ 63)%Z then Some z else None | _ => None end.
Definition AsString (n : node cid) : option string := match n with NString s => Some s | _ => None end.
Definition AsBytes (n : node cid) : option string := match n with NBytes s => Some s | _ => None end.

(** A CID of version 1 with a SHA-256 digest of full length, under a given codec. *)
Definition sha256_cid (codec : N) (c : cid) : bool :=
  (cid_Version c =? 1) && (cid_Codec c =? codec) && (cid_MhType c =? SHA2_256) && (cid_MhLength c =? 32)%Z.

End nodes.

(** ** An instance that runs *)

Record binary_cid : Type := MkCid { bcCodec : N; bcDigest : string }.
#[export] Instance binary_cid_eq_dec : EqDecision binary_cid.
Proof. solve_decision. Defined.

Definition binary_bytes (c : binary_cid) : string :=
  byte 1 +:+ byte (bcCodec c) +:+ byte SHA2_256 +:+ byte 32 +:+ bcDigest c.
Definition binary_from_bytes (s : string) : option (N * binary_cid) :=
  match s with
  | String v (String codec (String mh (String size rest))) =>
      if (N_of_ascii v =? 1) && (N_of_ascii mh =? SHA2_256) && (N_of_ascii size =? 32) && (32 <=? len rest)
      then Some (36, MkCid (N_of_ascii codec) (substring 0 32 rest)) else None
  | _ => None
  end.
Definition binary_string (c : binary_cid) : string := "f" +:+ hex_encode (binary_bytes c).
Definition binary_parse (s : string) : option binary_cid :=
  match hex_decode (TrimPrefix s "f") with
  | Some b => match binary_from_bytes b with
              | Some (n, c) => if (n =? len b) && String.eqb (binary_string c) s then Some c else None
              | None => None
              end
  | None => None
  end.

(** *** DAG-CBOR *)

Definition cbor_head (major argument : N) : string :=
  let initial (info : N) := byte (32 * major + info) in
  if argument <? 24 then initial argument
  else if argument <? 2 ^ 8 then initial 24 +:+ of_byte_values (be_bytes 1 argument)
  else if argument <? 2 ^ 16 then initial 25 +:+ of_byte_values (be_bytes 2 argument)
  else if argument <? 2 ^ 32 then initial 26 +:+ of_byte_values (be_bytes 4 argument)
  else initial 27 +:+ of_byte_values (be_bytes 8 argument).
Definition cbor_text (s : string) : string := cbor_head 3 (len s) +:+ s.
Definition cbor_bytes (s : string) : string := cbor_head 2 (len s) +:+ s.

(** The map order of RFC 7049: shorter keys first, then by their bytes. *)
Definition map_key_le (a b : string * string) : Prop :=
  len a.1 < len b.1 ∨ (len a.1 = len b.1 ∧ str_le a.1 b.1).
#[export] Instance map_key_le_dec : RelDecision map_key_le.
Proof. intros a b. unfold map_key_le. apply _. Defined.

Definition concat_all (l : list string) : string := fold_right append "" l.

Fixpoint cbor_encode (n : node binary_cid) : string :=
  match n with
  | NNull => byte 0xf6
  | NBool b => byte (if b then 0xf5 else 0xf4)
  | NInt z => if (z <? 0)%Z then cbor_head 1 (Z.to_N (-1 - z)) else cbor_head 0 (Z.to_N z)
  | NFloat bits => byte 0xfb +:+ of_byte_values (be_bytes 8 bits)
  | NString s => cbor_text s
  | NBytes s => cbor_bytes s
  | NList l => cbor_head 4 (llen l) +:+ concat_all (List.map cbor_encode l)
  | NMap l =>
      cbor_head 5 (llen l) +:+
      concat_all (List.map (λ kv, cbor_text kv.1 +:+ kv.2)
        (merge_sort map_key_le (List.map (λ kv, (kv.1, cbor_encode kv.2)) l)))
  | NLink c => byte 0xd8 +:+ byte 42 +:+ cbor_bytes (byte 0 +:+ binary_bytes c)
  end.

Fixpoint be_value (acc : N) (s : string) : N :=
  match s with EmptyString => acc | String c s' => be_value (256 * acc + N_of_ascii c) s' end.
Definition take_bytes (n : N) (s : string) : option (string * string) :=
  if n <=? len s then Some (substring 0 (N.to_nat n) s, skip (N.to_nat n) s) else None.
Definition cbor_argument (info : N) (s : string) : option (N * string) :=
  if info <? 24 then Some (info, s)
  else if info <? 28 then
    match take_bytes (2 ^ (info - 24)) s with Some (b, s) => Some (be_value 0 b, s) | None => None end
  else None.

(** Floats are not decoded; a tag is 42 and holds a CID. *)
Fixpoint cbor_value (fuel : nat) (s : string) : option (node binary_cid * string) :=
  match fuel, s with
  | S fuel, String c s' =>
      let major := N.shiftr (N_of_ascii c) 5 in
      match cbor_argument (N.land (N_of_ascii c) 31) s' with
      | None => None
      | Some (argument, s) =>
          match major with
          | 0 => Some (NInt (Z.of_N argument), s)
          | 1 => if argument <? 2 ^ 63 then Some (NInt (-1 - Z.of_N argument)%Z, s) else None
          | 2 => match take_bytes argument s with Some (b, s) => Some (NBytes b, s) | None => None end
          | 3 => match take_bytes argument s with Some (b, s) => Some (NString b, s) | None => None end
          | 4 => match cbor_values fuel argument s with Some (l, s) => Some (NList l, s) | None => None end
          | 5 => match cbor_pairs fuel argument s with
                 | Some (l, s) => if bool_decide (NoDup l.*1) then Some (NMap l, s) else None
                 | None => None
                 end
          | 6 => if argument =? 42 then
                   match cbor_value fuel s with
                   | Some (NBytes (String z b), s) =>
                       match binary_from_bytes b with
                       | Some (n, c) => if (N_of_ascii z =? 0) && (n =? len b) then Some (NLink c, s) else None
                       | None => None
                       end
                   | _ => None
                   end
                 else None
          | _ => if argument =? 20 then Some (NBool false, s)
                 else if argument =? 21 then Some (NBool true, s)
                 else if argument =? 22 then Some (NNull, s) else None
          end
      end
  | _, _ => None
  end
with cbor_values (fuel : nat) (n : N) (s : string) : option (list (node binary_cid) * string) :=
  match fuel with
  | O => None
  | S fuel =>
      if n =? 0 then Some ([], s)
      else match cbor_value fuel s with
      | Some (x, s) => match cbor_values fuel (n - 1) s with Some (l, s) => Some (x :: l, s) | None => None end
      | None => None
      end
  end
with cbor_pairs (fuel : nat) (n : N) (s : string) : option (list (string * node binary_cid) * string) :=
  match fuel with
  | O => None
  | S fuel =>
      if n =? 0 then Some ([], s)
      else match cbor_value fuel s with
      | Some (NString k, s) =>
          match cbor_value fuel s with
          | Some (x, s) => match cbor_pairs fuel (n - 1) s with Some (l, s) => Some ((k, x) :: l, s) | None => None end
          | None => None
          end
      | _ => None
      end
  end.

(** Every byte takes part in at most three rounds. *)
Definition cbor_decode (s : string) : option (node binary_cid) :=
  match cbor_value (3 * S (String.length s)) s with
  | Some (n, rest) => if String.eqb rest "" then Some n else None
  | None => None
  end.

#[export] Instance binary_ipld : Ipld := {
  cid := binary_cid;
  cid_Parse := binary_parse;
  cid_Decode := binary_parse;
  cid_String := binary_string;
  cid_FromBytes := binary_from_bytes;
  cid_Defined _ := true;
  cid_Version _ := 1;
  cid_Codec := bcCodec;
  cid_MhType _ := SHA2_256;
  cid_MhLength _ := 32%Z;
  cid_Sum c data := Some (MkCid (bcCodec c) (sha256 data));
  cid_Digest c := Some (bcDigest c);
  dagcbor_Decode := cbor_decode;
  dagcbor_Encode n := Some (cbor_encode n)
}.

Lemma cbor_value_keys fuel s l rest : cbor_value fuel s = Some (NMap l, rest) → NoDup l.*1.
Proof.
  destruct fuel as [|fuel]; [done|]. destruct s as [|c s]; [done|]. cbn [cbor_value].
  destruct (cbor_argument _ s) as [[argument s1]|]; [|done]. intros Hv.
  repeat case_match; simplify_eq; try done; by eapply (bool_decide_eq_true_1 _).
Qed.

#[export] Instance binary_ipld_laws : IpldLaws.
Proof.
  split.
  - intros c data c' [= <-] _ _. done.
  - intros s l. simpl. unfold cbor_decode.
    destruct (cbor_value _ s) as [[n rest]|] eqn:E; [|done]. case_match; [|done]. intros [= ->].
    by eapply cbor_value_keys.
Qed.

Example cbor_round :
  cbor_decode (cbor_encode (NMap [("b", NInt (-3)); ("a", NList [NBool true; NNull; NLink (MkCid 0x71 (sha256 ""))])])) =
  Some (NMap [("a", NList [NBool true; NNull; NLink (MkCid 0x71 (sha256 ""))]); ("b", NInt (-3))]).
Proof. vm_compute. reflexivity. Qed.
