(* ===== verification/Car.v ===== *)
(** * CAR streams and the structure of CBOR

    Models the readers of src/internal/providers/officialspaces/snapshot.go: the canonical
    varint, sections and blocks of a CAR stream ([readCanonicalUvarint], [readCARSection],
    [readCARBlock]) and the non-recursive pass over CBOR bytes that runs before the recursive
    decoder ([preflightCBORStructure], [readCBORArgument]), and the grammar of CBOR items it is
    proved against ([cbor_head], [cbor_sequence], [well_nested]), which is independent of it.

    A reader is the bytes that are left and what comes after them: the end of the stream, or a
    failure of the transport. *)
From S2P Require Import Prelude Sha256 GoStd Syntax Unicode Json Ipld.

Definition maxCBORNestingDepth : N := 128.
Definition maxCBORDataItems : N := 350000.

(** ** Readers *)

Record reader : Type := MkReader { rdLeft : string; rdBroken : bool }.
Definition at_end (r : reader) : error := if rdBroken r then ErrOther else ErrEOF.

Definition ReadByte (r : reader) : result (ascii * reader) :=
  match rdLeft r with
  | String c s => Ok (c, MkReader s (rdBroken r))
  | EmptyString => Err (at_end r)
  end.

(** [io.ReadFull] of [n > 0] bytes. *)
Definition ReadFull (n : N) (r : reader) : result (string * reader) :=
  if n <=? len (rdLeft r) then
    Ok (substring 0 (N.to_nat n) (rdLeft r), MkReader (skip (N.to_nat n) (rdLeft r)) (rdBroken r))
  else if rdBroken r then Err ErrOther
  else if String.eqb (rdLeft r) "" then Err ErrEOF else Err ErrUnexpectedEOF.

(** ** Varints *)

Definition MaxVarintLen64 : nat := 10.

(** [binary.Uvarint]: the value and the bytes it took; [None] stands for a count of zero or
    less, a text that is too short or a value over 64 bits. *)
Fixpoint Uvarint_from (i : nat) (x shift : N) (s : string) : option (N * nat) :=
  match s with
  | EmptyString => None
  | String c s' =>
      let b := N_of_ascii c in
      if Nat.eqb i MaxVarintLen64 then None
      else if b <? 0x80 then
        if Nat.eqb i (MaxVarintLen64 - 1) && (1 <? b) then None
        else Some (N.lor x (u64 (N.shiftl b shift)), S i)
      else Uvarint_from (S i) (N.lor x (u64 (N.shiftl (N.land b 0x7f) shift))) (shift + 7) s'
  end.
Definition Uvarint (s : string) : option (N * nat) := Uvarint_from 0 0 0 s.

(** The checks on the bytes read so far, the last of which ends the varint. *)
Definition canonical_uvarint (encoded : string) : result N :=
  match Uvarint encoded with
  | None => Err ErrSnapshotVerification
  | Some (decoded, consumed) =>
      fail_if negb (Nat.eqb consumed (String.length encoded)) with ErrSnapshotVerification ;;
      fail_if negb (String.eqb (uvarint decoded) encoded) with ErrSnapshotVerification ;;
      Ok decoded
  end.

Fixpoint read_uvarint (n : nat) (encoded : string) (r : reader) : result (N * reader) :=
  match n with
  | O => Err ErrSnapshotVerification
  | S n =>
      let? (c, r) := ReadByte r in
      let encoded := encoded +:+ String c "" in
      if 0x80 <=? N_of_ascii c then read_uvarint n encoded r
      else let? decoded := canonical_uvarint encoded in Ok (decoded, r)
  end.
Definition readCanonicalUvarint (r : reader) : result (N * reader) := read_uvarint MaxVarintLen64 "" r.

(** ** Sections and blocks *)

Definition readCARSection (limit : N) (r : reader) : result (string * reader) :=
  let? (length, r) := readCanonicalUvarint r in
  fail_if (length =? 0) || (limit <? length) with ErrSnapshotVerification ;;
  ReadFull length r.

Definition validDAGCBORCID `{Ipld} (value : cid) : bool := sha256_cid codec_DagCBOR value.

Definition readCARBlock `{Ipld} (dataLimit : N) (r : reader) : result (cid * string * reader) :=
  let? (section, r) := readCARSection (dataLimit + 256) r in
  let? (consumed, blockCID) := opt_result (cid_FromBytes section) ErrSnapshotVerification in
  fail_if (consumed =? 0) || (len section <=? consumed) || negb (validDAGCBORCID blockCID)
    with ErrSnapshotVerification ;;
  let data := skip (N.to_nat consumed) section in
  fail_if dataLimit <? len data with ErrSnapshotVerification ;;
  let? recomputed := opt_result (cid_Sum blockCID data) ErrSnapshotVerification in
  fail_if negb (bool_decide (recomputed = blockCID)) with ErrSnapshotVerification ;;
  Ok (blockCID, data, r).

(** ** The structure of CBOR *)

(** [binary.BigEndian] on the first [n] bytes. *)
Fixpoint big_endian (n : nat) (acc : N) (s : string) : option N :=
  match n, s with
  | O, _ => Some acc
  | S n, String c s' => big_endian n (256 * acc + N_of_ascii c) s'
  | S _, EmptyString => None
  end.

(** The argument of an initial byte and the number of bytes it takes. *)
Definition readCBORArgument (additional : N) (input : string) : result (N * nat) :=
  let fixed (n : nat) := let? value := opt_result (big_endian n 0 input) ErrSnapshotVerification in Ok (value, n) in
  if additional <? 24 then Ok (additional, 0%nat)
  else if additional =? 24 then fixed 1%nat
  else if additional =? 25 then fixed 2%nat
  else if additional =? 26 then fixed 4%nat
  else if additional =? 27 then fixed 8%nat
  else Err ErrSnapshotVerification.

(** One item: the bytes left after it, and the children it announces.  [depth] is the number
    of open containers. *)
Definition cbor_item (maxDepth depth : N) (input : string) : result (string * N) :=
  match input with
  | EmptyString => Err ErrSnapshotVerification
  | String initial rest =>
      let major := N.shiftr (N_of_ascii initial) 5 in
      let? (argument, consumed) := readCBORArgument (N.land (N_of_ascii initial) 0x1f) rest in
      let rest := skip consumed rest in
      if (major =? 0) || (major =? 1) || (major =? 7) then Ok (rest, 0)
      else if (major =? 2) || (major =? 3) then
        fail_if len rest <? argument with ErrSnapshotVerification ;;
        Ok (skip (N.to_nat argument) rest, 0)
      else if major =? 4 then
        fail_if (0 <? argument) && (maxDepth <? depth) with ErrSnapshotVerification ;;
        Ok (rest, argument)
      else if major =? 5 then
        fail_if (2 ^ 64 - 1) / 2 <? argument with ErrSnapshotVerification ;;
        fail_if (0 <? argument * 2) && (maxDepth <? depth) with ErrSnapshotVerification ;;
        Ok (rest, argument * 2)
      else
        fail_if maxDepth <? depth with ErrSnapshotVerification ;;
        Ok (rest, 1)
  end.

(** The loop: the stack of children still expected, innermost first. *)
Fixpoint preflight_loop (fuel : nat) (maxDepth maxItems : N) (remaining : list N) (items : N) (input : string) :
    option (result string) :=
  match fuel with
  | O => None
  | S fuel =>
      match remaining with
      | [] => Some (Ok input)
      | last :: outer =>
          if last =? 0 then preflight_loop fuel maxDepth maxItems outer items input
          else if maxItems <? items + 1 then Some (Err ErrSnapshotVerification)
          else match cbor_item maxDepth (llen remaining) input with
          | Err e => Some (Err e)
          | Ok (rest, children) =>
              let remaining := (last - 1) :: outer in
              preflight_loop fuel maxDepth maxItems
                (if 0 <? children then children :: remaining else remaining) (items + 1) rest
          end
      end
  end.

(** Every round reads an item or closes a container, so [2 * maxItems + 3] rounds are enough
    ([preflight_terminates]). *)
Definition preflight_fuel (maxItems : N) : nat := N.to_nat (2 * maxItems + 3).

Definition preflightCBORStructure (encoded : string) (maxDepth maxItems : N) : result unit :=
  fail_if (len encoded =? 0) || (maxDepth <? 1) || (maxItems <? 1) with ErrSnapshotVerification ;;
  match preflight_loop (preflight_fuel maxItems) maxDepth maxItems [1] 0 encoded with
  | Some (Ok rest) => fail_if negb (String.eqb rest "") with ErrSnapshotVerification ;; Ok tt
  | Some (Err e) => Err e
  | None => Err ErrOther
  end.

(** ** The structure pass as a recursion

    [items_of d n s rest k]: from the text [s] the code reads [n] items at nesting depth [d], with
    [k] items in all counting those inside, and [rest] is left. *)
Section structure.
Variable maxDepth : N.

Inductive items_of : N → N → string → string → N → Prop :=
  | items_none d s : items_of d 0 s s 0
  | items_more d n s children inner rest rest' k k' :
      n ≠ 0 → cbor_item maxDepth d s = Ok (inner, children) →
      items_of (d + 1) children inner rest k → items_of d (n - 1) rest rest' k' →
      items_of d n s rest' (1 + k + k').

(** What a stack of expected children still has to read. *)
Fixpoint stack_of (remaining : list N) (s rest : string) (k : N) : Prop :=
  match remaining with
  | [] => s = rest ∧ k = 0
  | n :: outer => ∃ mid k1 k2, items_of (llen remaining) n s mid k1 ∧ stack_of outer mid rest k2 ∧ k = k1 + k2
  end.

Lemma stack_push n children outer inner rest k :
  stack_of (if 0 <? children then children :: n :: outer else n :: outer) inner rest k ↔
  ∃ mid k1 k2, items_of (llen (n :: outer) + 1) children inner mid k1 ∧ stack_of (n :: outer) mid rest k2 ∧ k = k1 + k2.
Proof.
  destruct (N.ltb_spec 0 children) as [Hc|Hc].
  - cbn [stack_of]. replace (llen (children :: n :: outer)) with (llen (n :: outer) + 1) by (unfold llen; simpl; lia).
    done.
  - assert (children = 0) as -> by lia. split.
    + intros Hs. exists inner, 0, k. split; [constructor|]. split; [done|lia].
    + intros (mid & k1 & k2 & Hi & Hs & ->). inversion Hi; [|done]. subst. by rewrite N.add_0_l.
Qed.

(** Reading one item of the innermost container. *)
Lemma stack_item n outer s rest k :
  n ≠ 0 →
  stack_of (n :: outer) s rest k ↔
  ∃ inner children k', cbor_item maxDepth (llen (n :: outer)) s = Ok (inner, children) ∧ k = 1 + k' ∧
    stack_of (if 0 <? children then children :: (n - 1) :: outer else (n - 1) :: outer) inner rest k'.
Proof.
  intros Hn. split.
  - intros (mid & k1 & k2 & Hi & Hs & ->). inversion Hi as [|? ? ? children inner r ? ka kb _ Hc Ha Hb]; [by subst|].
    subst. exists inner, children, (ka + (kb + k2)). split; [done|]. split; [lia|].
    apply stack_push. exists r, ka, (kb + k2). split; [exact Ha|]. split; [|done]. by exists mid, kb, k2.
  - intros (inner & children & k' & Hc & -> & Hs). apply stack_push in Hs as (r & ka & kb & Ha & Hs & ->).
    destruct Hs as (mid & k1 & k2 & Hb & Hs & ->). exists mid, (1 + ka + k1), k2. split; [|split; [done|lia]].
    by eapply items_more.
Qed.

Lemma stack_close outer s rest k : stack_of (0 :: outer) s rest k ↔ stack_of outer s rest k.
Proof.
  split.
  - intros (mid & k1 & k2 & Hi & Hs & ->). inversion Hi; [|done]. subst. by rewrite N.add_0_l.
  - intros Hs. exists s, 0, k. split; [constructor|]. split; [done|lia].
Qed.

Lemma loop_sound maxItems fuel remaining items s rest :
  preflight_loop fuel maxDepth maxItems remaining items s = Some (Ok rest) → items ≤ maxItems →
  ∃ k, stack_of remaining s rest k ∧ items + k ≤ maxItems.
Proof.
  revert remaining items s. induction fuel as [|fuel IH]; intros remaining items s Hl Hi; [done|].
  cbn [preflight_loop] in Hl. destruct remaining as [|n outer]; [injection Hl as <-; exists 0; split; [done|lia]|].
  destruct (N.eqb_spec n 0) as [->|Hn].
  { apply IH in Hl as (k & Hs & Hk); [|done]. exists k. by rewrite stack_close. }
  destruct (N.ltb_spec maxItems (items + 1)) as [|Hm]; [done|].
  destruct (cbor_item maxDepth _ s) as [[inner children]|e] eqn:Ec; [|done].
  apply IH in Hl as (k & Hs & Hk); [|lia]. exists (1 + k). split; [|lia]. apply stack_item; [done|]. by exists inner, children, k.
Qed.

Lemma loop_complete maxItems fuel remaining items s rest k :
  stack_of remaining s rest k → items + k ≤ maxItems → 2 * k + llen remaining < N.of_nat fuel →
  preflight_loop fuel maxDepth maxItems remaining items s = Some (Ok rest).
Proof.
  revert remaining items s k. induction fuel as [|fuel IH]; intros remaining items s k Hs Hk Hf; [lia|].
  cbn [preflight_loop]. destruct remaining as [|n outer]; [by destruct Hs as [-> _]|].
  change (llen (n :: outer)) with (N.of_nat (S (List.length outer))) in Hf.
  destruct (N.eqb_spec n 0) as [->|Hn].
  { apply (proj1 (stack_close _ _ _ _)) in Hs. apply (IH _ _ _ k Hs Hk). unfold llen. lia. }
  apply stack_item in Hs as (inner & children & k' & -> & -> & Hs); [|done].
  rewrite (proj2 (N.ltb_ge _ _)) by lia. apply (IH _ _ _ k' Hs); [lia|].
  destruct (0 <? children); unfold llen; simpl List.length; lia.
Qed.

Lemma loop_terminates maxItems fuel remaining items s :
  2 * (maxItems - items) + llen remaining < N.of_nat fuel →
  preflight_loop fuel maxDepth maxItems remaining items s ≠ None.
Proof.
  revert remaining items s. induction fuel as [|fuel IH]; intros remaining items s Hf; [lia|].
  cbn [preflight_loop]. destruct remaining as [|n outer]; [done|].
  change (llen (n :: outer)) with (N.of_nat (S (List.length outer))) in Hf.
  destruct (n =? 0); [apply IH; unfold llen; lia|].
  destruct (N.ltb_spec maxItems (items + 1)) as [|Hm]; [done|].
  destruct (cbor_item maxDepth _ s) as [[inner children]|e]; [|done].
  apply IH. destruct (0 <? children); unfold llen; simpl List.length; lia.
Qed.

Lemma argument_error a s e : readCBORArgument a s = Err e → e = ErrSnapshotVerification.
Proof.
  unfold readCBORArgument. repeat case_match; try congruence; intros Ha;
    match type of Ha with context [big_endian ?n 0 s] => destruct (big_endian n 0 s) end; simpl in Ha; congruence.
Qed.

Lemma item_error depth s e : cbor_item maxDepth depth s = Err e → e = ErrSnapshotVerification.
Proof.
  unfold cbor_item. destruct s as [|initial rest]; [congruence|].
  destruct (readCBORArgument _ rest) as [[argument consumed]|e'] eqn:Ea.
  - cbn [result_bind]. repeat case_match; congruence.
  - cbn [result_bind]. apply argument_error in Ea. congruence.
Qed.

Lemma loop_error maxItems fuel remaining items s e :
  preflight_loop fuel maxDepth maxItems remaining items s = Some (Err e) → e = ErrSnapshotVerification.
Proof.
  revert remaining items s. induction fuel as [|fuel IH]; intros remaining items s Hl; [done|].
  cbn [preflight_loop] in Hl. destruct remaining as [|n outer]; [done|].
  destruct (n =? 0); [by eapply IH|]. destruct (maxItems <? items + 1); [congruence|].
  destruct (cbor_item maxDepth _ s) as [[inner children]|e'] eqn:Ec; [by eapply IH|]. injection Hl as ->.
  by eapply item_error.
Qed.
End structure.

(** ** Varints read back *)

Lemma lor_bound a b n : a < 2 ^ n → b < 2 ^ n → N.lor a b < 2 ^ n.
Proof.
  intros Ha Hb. destruct (N.eq_dec (N.lor a b) 0) as [E|E]; [rewrite E; lia|].
  apply N.log2_lt_pow2; [lia|]. rewrite N.log2_lor.
  destruct (N.eq_dec a 0) as [->|Ea], (N.eq_dec b 0) as [->|Eb]; try done;
    rewrite ?N.max_0_l, ?N.max_0_r; try (by apply N.log2_lt_pow2; lia).
  apply N.max_lub_lt; apply N.log2_lt_pow2; lia.
Qed.

Lemma u64_bound x : u64 x < 2 ^ 64.
Proof. apply N.mod_lt. done. Qed.

Lemma split_seven x shift :
  N.shiftl x shift = N.lor (N.shiftl (N.land x 0x7f) shift) (N.shiftl (N.shiftr x 7) (shift + 7)).
Proof.
  rewrite (N.add_comm shift 7), <- N.shiftl_shiftl, <- N.shiftl_lor. f_equal. apply N.bits_inj. intros n.
  rewrite N.lor_spec, N.land_spec. change 0x7f with (N.ones 7).
  destruct (N.lt_ge_cases n 7) as [Hn|Hn].
  - rewrite N.ones_spec_low, N.shiftl_spec_low by done. by rewrite andb_true_r, orb_false_r.
  - rewrite N.ones_spec_high, N.shiftl_spec_high' by done. rewrite andb_false_r, N.shiftr_spec'.
    simpl orb. f_equal. lia.
Qed.

Lemma shiftl_bound x shift : shift ≤ 64 → x < 2 ^ (64 - shift) → N.shiftl x shift < 2 ^ 64.
Proof.
  intros Hs Hx. rewrite N.shiftl_mul_pow2.
  assert (E : 2 ^ 64 = 2 ^ (64 - shift) * 2 ^ shift) by (rewrite <- N.pow_add_r; f_equal; lia). rewrite E.
  apply N.mul_lt_mono_pos_r; [|done]. apply N.neq_0_lt_0, N.pow_nonzero. done.
Qed.

Lemma u64_small x : x < 2 ^ 64 → u64 x = x.
Proof. apply N.mod_small. Qed.

Lemma byte_value b : b < 256 → N_of_ascii (ascii_of_N b) = b.
Proof. apply N_ascii_embedding. Qed.

Lemma Uvarint_put fuel i acc x :
  (i + fuel <= 10)%nat → x < 128 ^ N.of_nat fuel → x < 2 ^ (64 - 7 * N.of_nat i) → 7 * N.of_nat i ≤ 64 →
  (0 < fuel)%nat →
  Uvarint_from i acc (7 * N.of_nat i) (put_uvarint fuel x) =
  Some (N.lor acc (N.shiftl x (7 * N.of_nat i)), (i + String.length (put_uvarint fuel x))%nat).
Proof.
  revert i acc x. induction fuel as [|fuel IH]; intros i acc x Hi Hx Hs H64 H0; [lia|].
  pose proof (shiftl_bound _ _ H64 Hs) as Hshift.
  cbn [put_uvarint]. destruct (N.ltb_spec x 128) as [Hl|Hl].
  - cbn [byte Uvarint_from String.length]. rewrite byte_value, (proj2 (N.ltb_lt _ _)) by lia.
    rewrite (proj2 (Nat.eqb_neq _ _)) by (unfold MaxVarintLen64; lia).
    assert (Hlast : Nat.eqb i (MaxVarintLen64 - 1) && (1 <? x) = false).
    { destruct (Nat.eqb_spec i (MaxVarintLen64 - 1)) as [->|]; [|done]. apply N.ltb_ge.
      change (64 - 7 * N.of_nat (MaxVarintLen64 - 1)) with 1 in Hs. lia. }
    rewrite Hlast, u64_small by done. by rewrite Nat.add_1_r.
  - rewrite low_byte_lor. pose proof (N.mod_lt x 128 ltac:(lia)).
    change (byte (x mod 128 + 128) +:+ ?t) with (String (ascii_of_N (x mod 128 + 128)) t).
    cbn [Uvarint_from String.length]. rewrite byte_value by lia.
    rewrite (proj2 (N.ltb_ge (x mod 128 + 128) 0x80)) by apply N.le_add_l.
    rewrite (proj2 (Nat.eqb_neq _ _)) by (unfold MaxVarintLen64; lia).
    assert (Hfuel : (0 < fuel)%nat).
    { destruct fuel; [|lia]. change (128 ^ N.of_nat 1) with 128 in Hx. lia. }
    assert (Hland : N.land (x mod 128 + 128) 0x7f = N.land x 0x7f).
    { change 0x7f with (N.ones 7). rewrite !N.land_ones. change (2 ^ 7) with 128. dlia. }
    rewrite Hland. replace (7 * N.of_nat i + 7) with (7 * N.of_nat (S i)) by lia.
    assert (Hi2 : x < 2 ^ (64 - 7 * N.of_nat (S i)) * 128 ∧ 7 * N.of_nat (S i) ≤ 64).
    { destruct (N.le_gt_cases (7 * N.of_nat (S i)) 64) as [Hle|Hgt].
      - split; [|done]. change 128 with (2 ^ 7). rewrite <- N.pow_add_r.
        replace (64 - 7 * N.of_nat (S i) + 7) with (64 - 7 * N.of_nat i) by lia. done.
      - exfalso. assert (i = 9%nat) as -> by lia. change (64 - 7 * N.of_nat 9) with 1 in Hs. lia. }
    destruct Hi2 as [Hx2 H64']. rewrite IH; [|lia| | |done|done].
    + rewrite u64_small.
      * rewrite <- N.lor_assoc. rewrite (split_seven x (7 * N.of_nat i)).
        replace (7 * N.of_nat i + 7) with (7 * N.of_nat (S i)) by lia. f_equal. f_equal. lia.
      * eapply N.le_lt_trans; [|exact Hshift]. rewrite !N.shiftl_mul_pow2. apply N.mul_le_mono_r.
        change 0x7f with (N.ones 7). rewrite N.land_ones. apply N.Div0.mod_le.
    + rewrite N.shiftr_div_pow2. apply N.Div0.div_lt_upper_bound. change (2 ^ 7) with 128.
      rewrite Nat2N.inj_succ, N.pow_succ_r' in Hx. done.
    + rewrite N.shiftr_div_pow2. apply N.Div0.div_lt_upper_bound. change (2 ^ 7) with 128. lia.
Qed.

Lemma canonical_uvarint_ok x : x < 2 ^ 64 → canonical_uvarint (uvarint x) = Ok x.
Proof.
  intros Hx. unfold canonical_uvarint, Uvarint, uvarint.
  assert (H10 : x < 128 ^ N.of_nat 10) by (eapply N.lt_le_trans; [exact Hx|by vm_compute]).
  pose proof (Uvarint_put 10 0 0 x ltac:(lia) H10 Hx ltac:(lia) ltac:(lia)) as Hu.
  change (7 * N.of_nat 0) with 0 in Hu. rewrite Hu, N.shiftl_0_r, N.lor_0_l, Nat.add_0_l, Nat.eqb_refl.
  cbn [negb]. fold (uvarint x). by rewrite String.eqb_refl.
Qed.

Lemma read_uvarint_put n fuel acc x rest broken :
  (fuel <= n)%nat → (0 < fuel)%nat → x < 128 ^ N.of_nat fuel →
  read_uvarint n acc (MkReader (put_uvarint fuel x +:+ rest) broken) =
  (let? decoded := canonical_uvarint (acc +:+ put_uvarint fuel x) in Ok (decoded, MkReader rest broken)).
Proof.
  revert fuel acc x. induction n as [|n IH]; intros fuel acc x Hf H0 Hx; [lia|].
  destruct fuel as [|fuel]; [lia|]. cbn [put_uvarint]. destruct (N.ltb_spec x 128) as [Hl|Hl].
  - change (byte x +:+ rest) with (String (ascii_of_N x) rest). cbn [read_uvarint ReadByte rdLeft rdBroken result_bind].
    rewrite byte_value by lia. by rewrite (proj2 (N.leb_gt _ _)) by lia.
  - rewrite low_byte_lor. pose proof (N.mod_lt x 128 ltac:(lia)).
    rewrite app_assoc_s. change (byte (x mod 128 + 128) +:+ ?t) with (String (ascii_of_N (x mod 128 + 128)) t) at 1.
    cbn [read_uvarint ReadByte rdLeft rdBroken result_bind]. rewrite byte_value by lia.
    rewrite (proj2 (N.leb_le _ _)) by apply N.le_add_l.
    assert (Hfuel : (0 < fuel)%nat).
    { destruct fuel; [|lia]. change (128 ^ N.of_nat 1) with 128 in Hx. lia. }
    rewrite IH; [|lia|done|].
    + by rewrite app_assoc_s.
    + rewrite N.shiftr_div_pow2. apply N.Div0.div_lt_upper_bound. change (2 ^ 7) with 128.
      rewrite Nat2N.inj_succ, N.pow_succ_r' in Hx. done.
Qed.

Lemma readCanonicalUvarint_put x rest broken :
  x < 2 ^ 64 → readCanonicalUvarint (MkReader (uvarint x +:+ rest) broken) = Ok (x, MkReader rest broken).
Proof.
  intros Hx. unfold readCanonicalUvarint, uvarint. rewrite read_uvarint_put; [|done|lia|].
  - change ("" +:+ put_uvarint 10 x) with (uvarint x). by rewrite canonical_uvarint_ok.
  - eapply N.lt_le_trans; [exact Hx|]. by vm_compute.
Qed.

Lemma Uvarint_from_bound i x shift s v n : Uvarint_from i x shift s = Some (v, n) → x < 2 ^ 64 → v < 2 ^ 64.
Proof.
  revert i x shift. induction s as [|c s IH]; intros i x shift Hu Hx; [done|]. cbn [Uvarint_from] in Hu.
  repeat case_match; simplify_eq.
  - apply lor_bound; [done|apply u64_bound].
  - eapply IH; [exact Hu|]. apply lor_bound; [done|apply u64_bound].
Qed.

Lemma canonical_uvarint_inv s x : canonical_uvarint s = Ok x → s = uvarint x ∧ x < 2 ^ 64.
Proof.
  unfold canonical_uvarint, Uvarint. destruct (Uvarint_from 0 0 0 s) as [[v n]|] eqn:E; [|done].
  intros Hs. result_steps. bools. split; [done|]. by eapply Uvarint_from_bound.
Qed.

Lemma read_uvarint_inv n acc r x r' :
  read_uvarint n acc r = Ok (x, r') →
  ∃ p, rdLeft r = p +:+ rdLeft r' ∧ acc +:+ p = uvarint x ∧ x < 2 ^ 64 ∧ rdBroken r' = rdBroken r.
Proof.
  revert acc r. induction n as [|n IH]; intros acc [s broken] Hr; [done|].
  cbn [read_uvarint] in Hr. unfold ReadByte in Hr. cbn [rdLeft rdBroken] in *.
  destruct s as [|c s]; [done|]. cbn [result_bind] in Hr.
  destruct (0x80 <=? N_of_ascii c).
  - apply IH in Hr as (p & Hs & Hp & Hx & Hb). cbn [rdLeft rdBroken] in *. exists (String c p).
    rewrite Hs. rewrite app_assoc_s in Hp. done.
  - result_steps. match goal with E : canonical_uvarint _ = Ok _ |- _ => apply canonical_uvarint_inv in E as [E Hx] end.
    exists (String c ""). done.
Qed.

Lemma readCanonicalUvarint_inv r x r' :
  readCanonicalUvarint r = Ok (x, r') → rdLeft r = uvarint x +:+ rdLeft r' ∧ x < 2 ^ 64 ∧ rdBroken r' = rdBroken r.
Proof. intros (p & -> & Hp & Hx & Hb)%read_uvarint_inv. by rewrite <- Hp. Qed.

(** ** Sections *)

Lemma substring_skip_nat k s :
  (k <= String.length s)%nat → s = substring 0 k s +:+ skip k s ∧ String.length (substring 0 k s) = k.
Proof.
  revert s. induction k as [|k IH]; intros s Hk; [by destruct s|]. destruct s as [|c s]; [simpl in Hk; lia|].
  simpl in Hk. destruct (IH s ltac:(lia)) as [E L]. split.
  - change (String c s = String c (substring 0 k s +:+ skip k s)). by rewrite <- E.
  - cbn [substring String.length]. by rewrite L.
Qed.

Lemma substring_skip n s : n ≤ len s → s = substring 0 (N.to_nat n) s +:+ skip (N.to_nat n) s ∧
  len (substring 0 (N.to_nat n) s) = n.
Proof.
  unfold len. intros Hn. destruct (substring_skip_nat (N.to_nat n) s ltac:(lia)) as [E L].
  split; [done|]. rewrite L. lia.
Qed.

Lemma substring_app a b : substring 0 (String.length a) (a +:+ b) = a.
Proof. induction a as [|c a IH]; [by destruct b|]. simpl. by f_equal. Qed.

Lemma ReadFull_app a b broken : ReadFull (len a) (MkReader (a +:+ b) broken) = Ok (a, MkReader b broken).
Proof.
  unfold ReadFull. cbn [rdLeft rdBroken]. rewrite len_app, (proj2 (N.leb_le _ _)) by lia.
  unfold len. rewrite Nat2N.id, substring_app, skip_app. done.
Qed.

Lemma ReadFull_inv n r s r' :
  ReadFull n r = Ok (s, r') → rdLeft r = s +:+ rdLeft r' ∧ len s = n ∧ rdBroken r' = rdBroken r.
Proof.
  unfold ReadFull. destruct (N.leb_spec n (len (rdLeft r))) as [Hn|]; [|by repeat case_match].
  intros [= <- <-]. cbn [rdLeft rdBroken]. by destruct (substring_skip n (rdLeft r) Hn).
Qed.

(** A section as it is written: its length and its bytes. *)
Definition section (data : string) : string := uvarint (len data) +:+ data.

Lemma readCARSection_put limit data rest broken :
  data ≠ "" → len data ≤ limit → limit < 2 ^ 64 →
  readCARSection limit (MkReader (section data +:+ rest) broken) = Ok (data, MkReader rest broken).
Proof.
  intros Hne Hl Hm. unfold readCARSection, section. rewrite app_assoc_s, readCanonicalUvarint_put by lia.
  cbn [result_bind]. rewrite (proj2 (N.ltb_ge _ _)), orb_false_r by done.
  rewrite (proj2 (N.eqb_neq _ _)); [apply ReadFull_app|]. destruct data; [done|]. rewrite len_cons. lia.
Qed.

Lemma readCARSection_inv limit r data r' :
  readCARSection limit r = Ok (data, r') →
  rdLeft r = section data +:+ rdLeft r' ∧ 1 ≤ len data ≤ limit ∧ rdBroken r' = rdBroken r.
Proof.
  unfold readCARSection, section. intros Hr. destruct (readCanonicalUvarint r) as [[n r1]|] eqn:En; [|done].
  cbn [result_bind] in Hr. destruct ((n =? 0) || (limit <? n)) eqn:Eb; [done|]. bools.
  apply readCanonicalUvarint_inv in En as (-> & _ & Hb). apply ReadFull_inv in Hr as (-> & <- & Hb').
  rewrite app_assoc_s. split; [done|]. split; [lia|congruence].
Qed.

(** ** Properties *)

(** The varint reader accepts exactly the canonical encodings of 64-bit numbers: what
    [binary.PutUvarint] writes is read back with the rest of the stream untouched, and whatever
    is read was written that way, so no length has two encodings. *)
Theorem varint_round_trip (x : N) (rest : string) (broken : bool) (Hx : x < 2 ^ 64) :
  readCanonicalUvarint (MkReader (uvarint x +:+ rest) broken) = Ok (x, MkReader rest broken) ∧
  ∀ s y rest' broken', readCanonicalUvarint (MkReader s broken) = Ok (y, MkReader rest' broken') →
    s = uvarint y +:+ rest' ∧ y < 2 ^ 64 ∧ broken' = broken.
Proof.
  split; [by apply readCanonicalUvarint_put|]. intros s y rest' broken' Hr.
  by apply readCanonicalUvarint_inv in Hr.
Qed.

Lemma varint_round_trip_witness :
  readCanonicalUvarint (MkReader (uvarint 300 +:+ "tail") false) = Ok (300, MkReader "tail" false).
Proof. exact (proj1 (varint_round_trip 300 "tail" false ltac:(done))). Defined.

(** A redundant last byte, a value over 64 bits and a stream that ends inside. *)
Example varint_padded : readCanonicalUvarint (MkReader (byte 0x81 +:+ byte 0) false) = Err ErrSnapshotVerification.
Proof. vm_compute. reflexivity. Qed.
Example varint_over :
  readCanonicalUvarint (MkReader (of_byte_values [255;255;255;255;255;255;255;255;255;2]) false) =
  Err ErrSnapshotVerification.
Proof. vm_compute. reflexivity. Qed.
Example varint_cut : readCanonicalUvarint (MkReader (byte 0x81) false) = Err ErrEOF.
Proof. vm_compute. reflexivity. Qed.

Lemma sha256_cid_spec `{Ipld} codec c :
  sha256_cid codec c = true → cid_Codec c = codec ∧ cid_MhType c = SHA2_256 ∧ cid_MhLength c = 32%Z.
Proof. unfold sha256_cid. intros Hc. bools. by match goal with E : (_ =? _)%Z = true |- _ => apply Z.eqb_eq in E end. Qed.

Lemma readCARBlock_inv `{IpldLaws} limit r c data r' :
  readCARBlock limit r = Ok (c, data, r') →
  validDAGCBORCID c = true ∧ cid_Digest c = Some (sha256 data) ∧ 1 ≤ len data ≤ limit ∧
  ∃ prefix, rdLeft r = section (prefix +:+ data) +:+ rdLeft r' ∧ rdBroken r' = rdBroken r ∧
    cid_FromBytes (prefix +:+ data) = Some (len prefix, c).
Proof.
  unfold readCARBlock. intros Hr. destruct (readCARSection _ r) as [[s r1]|] eqn:Es; [|done]. cbn [result_bind] in Hr.
  destruct (cid_FromBytes s) as [[n b]|] eqn:Eb; [|done]. cbn [opt_result result_bind] in Hr.
  destruct ((n =? 0) || (len s <=? n) || negb (validDAGCBORCID b)) eqn:Ec; [done|]. bools.
  destruct (limit <? len (skip (N.to_nat n) s)) eqn:El; [done|].
  destruct (cid_Sum b _) as [c'|] eqn:Esum; [|done]. cbn [opt_result result_bind] in Hr.
  destruct (bool_decide (c' = b)) eqn:Ebc; [|done]. bools. subst c'. injection Hr as <- <- <-.
  apply readCARSection_inv in Es as (Hs & _ & Hb). destruct (substring_skip n s ltac:(lia)) as [E L].
  split; [done|]. split; [|split].
  - match goal with V : validDAGCBORCID b = true |- _ => apply sha256_cid_spec in V as (_ & Hm & Hlen) end.
    by apply (cid_Sum_sha256 b) in Esum as [? _].
  - split; [|done]. pose proof (len_app (substring 0 (N.to_nat n) s) (skip (N.to_nat n) s)) as Hlen.
    rewrite <- E, L in Hlen. lia.
  - exists (substring 0 (N.to_nat n) s). rewrite <- E, L. done.
Qed.

(** A block that is read is the block that was named: its CID is a version 1, SHA-256,
    DAG-CBOR one whose digest is the SHA-256 of the data, the data is not empty and within the
    limit, and the stream starts with exactly the section of that CID and data; two blocks read
    under one CID are equal, or an explicit SHA-256 collision. *)
Theorem car_block_verified `{IpldLaws} (limit1 limit2 : N) (r1 r2 r1' r2' : reader) (c : cid) (data1 data2 : string)
    (H1 : readCARBlock limit1 r1 = Ok (c, data1, r1')) (H2 : readCARBlock limit2 r2 = Ok (c, data2, r2')) :
  (data1 = data2 ∨ collision data1 data2) ∧
  cid_Codec c = codec_DagCBOR ∧ cid_Digest c = Some (sha256 data1) ∧ 1 ≤ len data1 ≤ limit1 ∧
  ∃ prefix, rdLeft r1 = section (prefix +:+ data1) +:+ rdLeft r1' ∧
    cid_FromBytes (prefix +:+ data1) = Some (len prefix, c).
Proof.
  apply readCARBlock_inv in H1 as (Hv & Hd1 & Hl & prefix & Hs & _ & Hp), H2 as (_ & Hd2 & _).
  split; [|split; [by apply sha256_cid_spec in Hv as [? _]|]].
  - destruct (decide (data1 = data2)); [by left|right]. split; [done|congruence].
  - do 2 (split; [done|]). by exists prefix.
Qed.

Definition example_block : string := section (binary_bytes (MkCid codec_DagCBOR (sha256 "data")) +:+ "data").
Lemma example_block_read :
  readCARBlock 64 (MkReader (example_block +:+ "next") false) =
  Ok (MkCid codec_DagCBOR (sha256 "data"), "data", MkReader "next" false).
Proof. vm_compute. reflexivity. Qed.

Lemma car_block_verified_witness :
  cid_Digest (MkCid codec_DagCBOR (sha256 "data") : cid) = Some (sha256 "data").
Proof.
  exact (proj1 (proj2 (proj2 (car_block_verified 64 64 _ _ _ _ _ _ _ example_block_read example_block_read)))).
Defined.

(** ** The structure pass decides a grammar

    The grammar of CBOR, apart from the code.  A head is a byte with the major type and either
    the argument itself or how many bytes, most significant first, follow with it. *)
Fixpoint network (n : nat) (a : N) : string :=
  match n with O => "" | S n => byte (a / 256 ^ N.of_nat n mod 256) +:+ network n a end.
Inductive cbor_head (major : N) : N → string → Prop :=
  | head_short a : a < 24 → cbor_head major a (byte (32 * major + a))
  | head_long code width a : (code, width) ∈ [(24, 1%nat); (25, 2%nat); (26, 4%nat); (27, 8%nat)] → a < 256 ^ N.of_nat width →
      cbor_head major a (byte (32 * major + code) +:+ network width a).
(** [cbor_sequence n depth k text]: the text is a sequence of [n] items with [k] items in all, those
    inside others counted, and [depth] is how deep containers with content lie in one another. *)
Inductive cbor_sequence : N → N → N → string → Prop :=
  | seq_none : cbor_sequence 0 0 0 ""
  | seq_plain major a h n depth k rest : major = 0 ∨ major = 1 ∨ major = 7 → cbor_head major a h → cbor_sequence n depth k rest →
      cbor_sequence (n + 1) depth (k + 1) (h +:+ rest)
  | seq_content major h data n depth k rest : major = 2 ∨ major = 3 → cbor_head major (len data) h → cbor_sequence n depth k rest →
      cbor_sequence (n + 1) depth (k + 1) (h +:+ data +:+ rest)
  | seq_array c h inside depth1 k1 n depth2 k2 rest : cbor_head 4 c h → cbor_sequence c depth1 k1 inside → cbor_sequence n depth2 k2 rest →
      cbor_sequence (n + 1) (N.max (if c =? 0 then 0 else depth1 + 1) depth2) (k1 + k2 + 1) (h +:+ inside +:+ rest)
  | seq_map pairs h inside depth1 k1 n depth2 k2 rest : cbor_head 5 pairs h → pairs < 2 ^ 63 → cbor_sequence (2 * pairs) depth1 k1 inside →
      cbor_sequence n depth2 k2 rest →
      cbor_sequence (n + 1) (N.max (if pairs =? 0 then 0 else depth1 + 1) depth2) (k1 + k2 + 1) (h +:+ inside +:+ rest)
  | seq_tagged tag h inside depth1 k1 n depth2 k2 rest : cbor_head 6 tag h → cbor_sequence 1 depth1 k1 inside → cbor_sequence n depth2 k2 rest →
      cbor_sequence (n + 1) (N.max (depth1 + 1) depth2) (k1 + k2 + 1) (h +:+ inside +:+ rest).
(** One item, and nothing after it. *)
Definition well_nested (maxDepth maxItems : N) (text : string) : Prop :=
  ∃ depth k, cbor_sequence 1 depth k text ∧ depth ≤ maxDepth ∧ k ≤ maxItems.

Lemma skip_app_length n pre s : String.length pre = n → skip n (pre +:+ s) = s.
Proof. intros <-. apply skip_app. Qed.
Lemma length_network n a : String.length (network n a) = n.
Proof. induction n as [|n IH]; [done|]. cbn [network]. change (S (String.length (network n a)) = S n). by rewrite IH. Qed.
Lemma network_small n a b : network n (b * 256 ^ N.of_nat n + a) = network n a.
Proof.
  revert b. induction n as [|n IH]; intros b; [done|]. cbn [network]. rewrite Nat2N.inj_succ, N.pow_succ_r', N.mul_assoc, (IH (b * 256)). f_equal. f_equal.
  rewrite N.add_comm, N.div_add by (apply N.pow_nonzero; lia). by rewrite N.Div0.mod_add.
Qed.
Lemma big_endian_network n : ∀ acc a rest, a < 256 ^ N.of_nat n → big_endian n acc (network n a +:+ rest) = Some (acc * 256 ^ N.of_nat n + a).
Proof.
  induction n as [|n IH]; intros acc a rest Ha.
  { cbn. change (256 ^ N.of_nat 0) with 1 in *. f_equal. lia. }
  cbn [network]. rewrite app_assoc_s. rewrite Nat2N.inj_succ, N.pow_succ_r' in *. set (p := 256 ^ N.of_nat n) in *.
  assert (Hp : p ≠ 0) by (apply N.pow_nonzero; lia).
  assert (Hd : a / p < 256) by (apply N.Div0.div_lt_upper_bound; lia). rewrite (N.mod_small _ _ Hd).
  change (byte (a / p) +:+ (network n a +:+ rest)) with (String (ascii_of_N (a / p)) (network n a +:+ rest)). cbn [big_endian]. rewrite byte_value by done.
  pose proof (N.div_mod a p Hp) as E. rewrite E at 2. rewrite (N.mul_comm p), network_small, IH by (apply N.mod_lt; done). f_equal. lia.
Qed.
Lemma big_endian_inv n : ∀ acc s v, big_endian n acc s = Some v → ∃ a rest, a < 256 ^ N.of_nat n ∧ s = network n a +:+ rest ∧ v = acc * 256 ^ N.of_nat n + a.
Proof.
  induction n as [|n IH]; intros acc s v; cbn [big_endian].
  { intros [= <-]. exists 0, s. change (256 ^ N.of_nat 0) with 1. split_and!; [lia|done|lia]. }
  destruct s as [|c s]; [done|]. intros (a & rest & Ha & -> & ->)%IH. set (p := 256 ^ N.of_nat n) in *. assert (Hp : p ≠ 0) by (apply N.pow_nonzero; lia).
  pose proof (N_ascii_bounded c) as Hc. exists (N_of_ascii c * p + a), rest. rewrite Nat2N.inj_succ, N.pow_succ_r'. fold p. split_and!; [nia| |lia].
  cbn [network]. fold p. rewrite network_small, N.div_add_l, (N.div_small a p), N.add_0_r, (N.mod_small (N_of_ascii c)) by lia.
  unfold byte. by rewrite ascii_N_embedding.
Qed.

(** The head of an item as the code reads it. *)
Definition read_head (s : string) : result (N * N * string) :=
  match s with
  | EmptyString => Err ErrSnapshotVerification
  | String initial rest =>
      let? (argument, consumed) := readCBORArgument (N.land (N_of_ascii initial) 0x1f) rest in
      Ok (N.shiftr (N_of_ascii initial) 5, argument, skip consumed rest)
  end.
Lemma initial_byte major code : major < 8 → code < 32 → N.shiftr (32 * major + code) 5 = major ∧ N.land (32 * major + code) 0x1f = code.
Proof.
  intros Hm Hc. rewrite N.shiftr_div_pow2. change 0x1f with (N.ones 5). rewrite N.land_ones. change (2 ^ 5) with 32. split; dlia.
Qed.
Lemma initial_split c : N_of_ascii c = 32 * N.shiftr (N_of_ascii c) 5 + N.land (N_of_ascii c) 0x1f ∧ N.shiftr (N_of_ascii c) 5 < 8 ∧
  N.land (N_of_ascii c) 0x1f < 32.
Proof.
  pose proof (N_ascii_bounded c) as Hc. rewrite N.shiftr_div_pow2. change 0x1f with (N.ones 5). rewrite N.land_ones. change (2 ^ 5) with 32. split_and!; dlia.
Qed.
Lemma argument_long code width rest a : (code, width) ∈ [(24, 1%nat); (25, 2%nat); (26, 4%nat); (27, 8%nat)] → a < 256 ^ N.of_nat width →
  readCBORArgument code (network width a +:+ rest) = Ok (a, width).
Proof.
  intros Hin Ha. pose proof (big_endian_network width 0 a rest Ha) as Hb. rewrite N.mul_0_l, N.add_0_l in Hb.
  repeat (apply elem_of_cons in Hin as [[= -> ->]|Hin]; [unfold readCBORArgument; cbn [N.ltb N.compare N.eqb Pos.compare Pos.compare_cont Pos.eqb]; by rewrite Hb|]).
  by apply elem_of_nil in Hin.
Qed.
Lemma argument_inv code s a n : readCBORArgument code s = Ok (a, n) →
  code < 24 ∧ a = code ∧ n = 0%nat ∨ (code, n) ∈ [(24, 1%nat); (25, 2%nat); (26, 4%nat); (27, 8%nat)] ∧ a < 256 ^ N.of_nat n ∧ ∃ rest, s = network n a +:+ rest.
Proof.
  unfold readCBORArgument. destruct (N.ltb_spec code 24); [intros [= <- <-]; by left|].
  assert (Hf : ∀ width, (let? value := opt_result (big_endian width 0 s) ErrSnapshotVerification in Ok (value, width)) = Ok (a, n) →
    n = width ∧ a < 256 ^ N.of_nat width ∧ ∃ rest, s = network width a +:+ rest).
  { intros width. destruct (big_endian width 0 s) as [v|] eqn:E; [|done]. cbn [opt_result result_bind]. intros [= -> <-].
    apply big_endian_inv in E as (a' & rest & Ha & -> & E). rewrite N.mul_0_l, N.add_0_l in E. subst a'. split_and!; [done|done|by exists rest]. }
  repeat (match goal with |- context [code =? ?k] => destruct (N.eqb_spec code k) as [->|]; [intros (-> & Ha & Hr)%Hf; right; split_and!; [|done|done]; set_solver|] end).
  done.
Qed.
Lemma read_head_iff s major a inner : read_head s = Ok (major, a, inner) ↔ major < 8 ∧ ∃ h, cbor_head major a h ∧ s = h +:+ inner.
Proof.
  split.
  - unfold read_head. destruct s as [|c s]; [done|]. destruct (readCBORArgument _ s) as [[argument n]|] eqn:Ea; [|done]. cbn [result_bind].
    intros [= <- <- <-]. destruct (initial_split c) as (Ec & Hm & _). split; [done|]. assert (Hbyte := f_equal byte Ec). apply argument_inv in Ea as [(Hs & -> & ->)|(Hin & Hb & rest & ->)].
    + exists (byte (N_of_ascii c)). split; [rewrite Hbyte; by constructor|]. unfold byte. by rewrite ascii_N_embedding.
    + exists (byte (N_of_ascii c) +:+ network n argument). split; [rewrite Hbyte; by econstructor|].
      rewrite app_assoc_s. unfold byte. rewrite ascii_N_embedding. rewrite skip_app_length by apply length_network. done.
  - intros (Hm & h & Hh & ->). destruct Hh as [a Ha|code width a Hin Ha].
    + change (byte (32 * major + a) +:+ inner) with (String (ascii_of_N (32 * major + a)) inner). unfold read_head. rewrite byte_value by lia.
      destruct (initial_byte major a) as [-> ->]; [done|lia|]. unfold readCBORArgument. rewrite (proj2 (N.ltb_lt _ _)) by done. done.
    + assert (Hc : code < 32) by (repeat (apply elem_of_cons in Hin as [[= -> _]|Hin]; [done|]); by apply elem_of_nil in Hin).
      rewrite app_assoc_s. change (byte ?x +:+ ?t) with (String (ascii_of_N x) t). unfold read_head. rewrite byte_value by lia.
      destruct (initial_byte major code) as [-> ->]; [done|done|]. rewrite (argument_long code width inner a Hin Ha). cbn [result_bind].
      by rewrite skip_app_length by apply length_network.
Qed.

Definition item_body (maxDepth depth major argument : N) (rest : string) : result (string * N) :=
  if (major =? 0) || (major =? 1) || (major =? 7) then Ok (rest, 0)
  else if (major =? 2) || (major =? 3) then
    fail_if len rest <? argument with ErrSnapshotVerification ;;
    Ok (skip (N.to_nat argument) rest, 0)
  else if major =? 4 then
    fail_if (0 <? argument) && (maxDepth <? depth) with ErrSnapshotVerification ;;
    Ok (rest, argument)
  else if major =? 5 then
    fail_if (2 ^ 64 - 1) / 2 <? argument with ErrSnapshotVerification ;;
    fail_if (0 <? argument * 2) && (maxDepth <? depth) with ErrSnapshotVerification ;;
    Ok (rest, argument * 2)
  else
    fail_if maxDepth <? depth with ErrSnapshotVerification ;;
    Ok (rest, 1).
Lemma cbor_item_head maxDepth depth s : cbor_item maxDepth depth s =
  (let? (major, argument, rest) := read_head s in item_body maxDepth depth major argument rest).
Proof. destruct s as [|c s]; [done|]. unfold cbor_item, read_head. by destruct (readCBORArgument _ s) as [[a n]|]. Qed.
Lemma item_head maxDepth depth h major a inner : major < 8 → cbor_head major a h →
  cbor_item maxDepth depth (h +:+ inner) = item_body maxDepth depth major a inner.
Proof. intros Hm Hh. rewrite cbor_item_head, (proj2 (read_head_iff _ major a inner)); [done|]. split; [done|]. by exists h. Qed.

(** How deep a sequence may be that starts inside [d - 1] open containers. *)
Definition fits (maxDepth d depth : N) : Prop := depth = 0 ∨ d + depth ≤ maxDepth + 1.
Lemma items_sound maxDepth d n s rest k : items_of maxDepth d n s rest k →
  ∃ depth text, s = text +:+ rest ∧ cbor_sequence n depth k text ∧ fits maxDepth d depth.
Proof.
  induction 1 as [d s|d n s children inner rest rest' k k' Hn Hc _ (depth1 & inside & -> & Hs1 & Hf1) _ (depth2 & text & -> & Hs2 & Hf2)].
  { exists 0, "". split_and!; [done|constructor|by left]. }
  rewrite cbor_item_head in Hc. destruct (read_head s) as [[[major a] r]|] eqn:Eh; [|done]. cbn [result_bind] in Hc.
  apply read_head_iff in Eh as (Hm & h & Hh & ->). replace n with (n - 1 + 1) by lia. replace (1 + k + k') with (k + k' + 1) by lia. unfold item_body in Hc.
  destruct ((major =? 0) || (major =? 1) || (major =? 7)) eqn:E1.
  { injection Hc as -> <-. inversion Hs1; subst; [|lia..]. exists depth2, (h +:+ text). split_and!; [by rewrite app_assoc_s| |done].
    rewrite N.add_0_l. apply (seq_plain major a); [rewrite !orb_true_iff, !N.eqb_eq in E1; lia|done|done]. }
  destruct ((major =? 2) || (major =? 3)) eqn:E2.
  { destruct (N.ltb_spec (len r) a) as [|Hl]; [done|]. injection Hc as Er <-. inversion Hs1; subst; [|lia..].
    destruct (substring_skip a r Hl) as [E El]. rewrite Er in E. change ("" +:+ (text +:+ rest')) with (text +:+ rest') in E.
    exists depth2, (h +:+ substring 0 (N.to_nat a) r +:+ text). split_and!; [by rewrite E at 1; rewrite !app_assoc_s| |done].
    rewrite N.add_0_l. apply (seq_content major); [rewrite !orb_true_iff, !N.eqb_eq in E2; lia|by rewrite El|done]. }
  assert (Hdeep : ∀ c, (0 <? c) && (maxDepth <? d) = false → fits maxDepth (d + 1) depth1 →
    fits maxDepth d (N.max (if c =? 0 then 0 else depth1 + 1) depth2)).
  { intros c Hc0 Hf. destruct (N.eqb_spec c 0) as [->|]; [by rewrite N.max_0_l|]. rewrite (proj2 (N.ltb_lt 0 c)) in Hc0 by lia.
    apply N.ltb_ge in Hc0. unfold fits in *. lia. }
  destruct (N.eqb_spec major 4) as [->|E4].
  { destruct (_ && _) eqn:Ed; [done|]. injection Hc as -> <-. eexists _, (h +:+ inside +:+ text).
    split_and!; [by rewrite !app_assoc_s|by apply seq_array|by apply Hdeep]. }
  destruct (N.eqb_spec major 5) as [->|E5].
  { destruct (N.ltb_spec ((2 ^ 64 - 1) / 2) a) as [|Hp]; [done|]. destruct (_ && _) eqn:Ed; [done|]. injection Hc as -> <-.
    change ((2 ^ 64 - 1) / 2) with (2 ^ 63 - 1) in Hp. rewrite N.mul_comm in Hs1. eexists _, (h +:+ inside +:+ text).
    split_and!; [by rewrite !app_assoc_s|apply (seq_map a); [done|lia|done|done]|]. apply Hdeep; [|done].
    destruct (N.ltb_spec 0 (a * 2)), (N.ltb_spec 0 a); try done; lia. }
  destruct (N.ltb_spec maxDepth d) as [|Hd]; [done|]. injection Hc as -> <-. eexists _, (h +:+ inside +:+ text).
  split_and!; [by rewrite !app_assoc_s| |].
  - apply (seq_tagged a); [|done|done]. rewrite !orb_false_iff, !N.eqb_neq in *. by replace 6 with major by lia.
  - unfold fits in *. lia.
Qed.
Lemma items_complete maxDepth n depth k text : cbor_sequence n depth k text → ∀ d rest, fits maxDepth d depth →
  items_of maxDepth d n (text +:+ rest) rest k.
Proof.
  assert (Hmore : ∀ d n s children inner rest rest' k k', cbor_item maxDepth d s = Ok (inner, children) →
    items_of maxDepth (d + 1) children inner rest k → items_of maxDepth d n rest rest' k' → items_of maxDepth d (n + 1) s rest' (k + k' + 1)).
  { intros d m s children inner rest rest' i j Hc H1 H2. replace (i + j + 1) with (1 + i + j) by lia. eapply items_more; [lia|exact Hc|exact H1|].
    by replace (m + 1 - 1) with m by lia. }
  assert (Hopen : ∀ d c depth1 depth2, fits maxDepth d (N.max (if c =? 0 then 0 else depth1 + 1) depth2) →
    (0 <? c) && (maxDepth <? d) = false ∧ (c ≠ 0 → fits maxDepth (d + 1) depth1) ∧ fits maxDepth d depth2).
  { intros d c depth1 depth2. unfold fits. destruct (N.eqb_spec c 0) as [->|]; [intros Hf; rewrite N.max_0_l in Hf; split_and!; [reflexivity|by intros []|exact Hf]|]. intros Hf.
    rewrite (proj2 (N.ltb_lt 0 c)), (proj2 (N.ltb_ge maxDepth d)) by lia. split_and!; [done|lia|lia]. }
  assert (Hempty : ∀ depth k text, cbor_sequence 0 depth k text → depth = 0) by (intros ? ? ? Hs; inversion Hs; [done|lia..]).
  induction 1 as [|major a h n depth k rest' Hm Hh _ IH|major h data n depth k rest' Hm Hh _ IH
    |c h inside depth1 k1 n depth2 k2 rest' Hh H1 IH1 _ IH2|c h inside depth1 k1 n depth2 k2 rest' Hh Hp H1 IH1 _ IH2
    |c h inside depth1 k1 n depth2 k2 rest' Hh _ IH1 _ IH2]; intros d rest Hf; rewrite ?app_assoc_s.
  - constructor.
  - rewrite <- (N.add_0_l k). eapply Hmore; [|apply items_none|by apply IH]. rewrite (item_head _ _ _ major a _ ltac:(lia) Hh). unfold item_body.
    by destruct Hm as [->|[->| ->]].
  - rewrite <- (N.add_0_l k). eapply Hmore; [|apply items_none|by apply IH]. rewrite (item_head _ _ _ major (len data) _ ltac:(lia) Hh). unfold item_body.
    assert (Hl : (len (data +:+ (rest' +:+ rest)) <? len data) = false) by (apply N.ltb_ge; rewrite len_app; lia).
    replace (N.to_nat (len data)) with (String.length data) by (unfold len; lia). rewrite skip_app, Hl. by destruct Hm as [->| ->].
  - apply Hopen in Hf as (Hg & Hf1 & Hf2). eapply Hmore; [|apply IH1|by apply IH2].
    + rewrite (item_head _ _ _ 4 c _ ltac:(lia) Hh). unfold item_body. cbn [N.eqb Pos.eqb orb]. by rewrite Hg.
    + destruct (N.eq_dec c 0) as [->|]; [left; by eapply Hempty|by apply Hf1].
  - apply Hopen in Hf as (Hg & Hf1 & Hf2). eapply Hmore; [|apply IH1|by apply IH2].
    + rewrite (item_head _ _ _ 5 c _ ltac:(lia) Hh). unfold item_body. cbn [N.eqb Pos.eqb orb]. rewrite (proj2 (N.ltb_ge _ _)) by (change ((2 ^ 64 - 1) / 2) with (2 ^ 63 - 1); lia).
      rewrite (N.mul_comm c 2). replace (0 <? 2 * c) with (0 <? c) by (destruct (N.ltb_spec 0 (2 * c)), (N.ltb_spec 0 c); try done; lia). by rewrite Hg.
    + destruct (N.eq_dec c 0) as [->|]; [left; by eapply Hempty|by apply Hf1].
  - assert (Hd : d ≤ maxDepth) by (unfold fits in Hf; lia). eapply Hmore; [|apply IH1|apply IH2]; [|unfold fits in *; lia..].
    rewrite (item_head _ _ _ 6 c _ ltac:(lia) Hh). unfold item_body. cbn [N.eqb Pos.eqb orb]. by rewrite (proj2 (N.ltb_ge _ _)).
Qed.
Lemma well_nested_items maxDepth maxItems text : 1 ≤ maxDepth →
  well_nested maxDepth maxItems text ↔ ∃ k, k ≤ maxItems ∧ items_of maxDepth 1 1 text "" k.
Proof.
  intros Hd. split.
  - intros (depth & k & Hs & Hdepth & Hk). exists k. split; [done|]. pose proof (items_complete maxDepth _ _ _ _ Hs 1 "") as Hi.
    rewrite app_nil_r_s in Hi. apply Hi. unfold fits. lia.
  - intros (k & Hk & (depth & text' & -> & Hs & Hf)%items_sound). exists depth, k. rewrite app_nil_r_s. split_and!; [done| |done]. unfold fits in Hf. lia.
Qed.

Lemma stack_single maxDepth s rest k : stack_of maxDepth [1] s rest k ↔ items_of maxDepth 1 1 s rest k.
Proof.
  split.
  - intros (mid & k1 & k2 & Hi & [-> ->] & ->). by rewrite N.add_0_r.
  - intros Hi. exists rest, k, 0. split; [done|]. split; [done|lia].
Qed.

Lemma preflight_loop_result maxDepth maxItems encoded :
  (∃ rest, preflight_loop (preflight_fuel maxItems) maxDepth maxItems [1] 0 encoded = Some (Ok rest)) ∨
  preflight_loop (preflight_fuel maxItems) maxDepth maxItems [1] 0 encoded = Some (Err ErrSnapshotVerification).
Proof.
  pose proof (loop_terminates maxDepth maxItems (preflight_fuel maxItems) [1] 0 encoded) as Ht.
  destruct (preflight_loop _ _ _ _ _ _) as [[rest|e]|] eqn:El.
  - left. by exists rest.
  - right. by apply loop_error in El as ->.
  - exfalso. apply Ht; [|done]. unfold preflight_fuel, llen. rewrite N2Nat.id. simpl List.length. lia.
Qed.

Lemma preflight_loop_iff maxDepth maxItems encoded rest :
  preflight_loop (preflight_fuel maxItems) maxDepth maxItems [1] 0 encoded = Some (Ok rest) ↔
  ∃ k, k ≤ maxItems ∧ items_of maxDepth 1 1 encoded rest k.
Proof.
  split.
  - intros El. apply loop_sound in El as (k & Hs & Hk); [|lia]. exists k. split; [lia|]. by apply stack_single.
  - intros (k & Hk & Hi%stack_single). apply (loop_complete _ _ _ _ _ _ _ k); [done|lia|].
    unfold preflight_fuel, llen. rewrite N2Nat.id. simpl List.length. lia.
Qed.

(** C38. The pass over CBOR bytes decides a recursive grammar without recursion: it accepts
    exactly the texts that are one well-formed item of at most [maxItems] items nested at most
    [maxDepth] deep, and refuses everything else with the verification error; its rounds never
    run out. *)
Theorem preflight_iff (encoded : string) (maxDepth maxItems : N) :
  (preflightCBORStructure encoded maxDepth maxItems = Ok tt ↔
   1 ≤ maxDepth ∧ 1 ≤ maxItems ∧ well_nested maxDepth maxItems encoded) ∧
  (preflightCBORStructure encoded maxDepth maxItems = Ok tt ∨
   preflightCBORStructure encoded maxDepth maxItems = Err ErrSnapshotVerification).
Proof.
  assert (E : 1 ≤ maxDepth ∧ 1 ≤ maxItems ∧ well_nested maxDepth maxItems encoded ↔
    1 ≤ maxDepth ∧ 1 ≤ maxItems ∧ ∃ k, k ≤ maxItems ∧ items_of maxDepth 1 1 encoded "" k).
  { split; intros (Hd & Hm & Hw); (split_and!; [done..|]); by apply (well_nested_items maxDepth maxItems encoded Hd). }
  rewrite E. clear E.
  unfold preflightCBORStructure. destruct ((len encoded =? 0) || (maxDepth <? 1) || (maxItems <? 1)) eqn:Eb.
  - split; [|by right]. split; [done|]. intros (Hd & Hm & k & _ & Hi). exfalso.
    rewrite (proj2 (N.ltb_ge maxDepth 1) Hd), (proj2 (N.ltb_ge maxItems 1) Hm), !orb_false_r in Eb.
    apply N.eqb_eq in Eb. destruct encoded; [|rewrite len_cons in Eb; lia].
    inversion Hi; done.
  - bools. rewrite <- (preflight_loop_iff maxDepth maxItems encoded "").
    destruct (preflight_loop_result maxDepth maxItems encoded) as [[rest -> ]| -> ].
    + destruct (String.eqb_spec rest "") as [->|Hne]; cbn [negb]; split; try (by auto); split; try done.
      intros (_ & _ & [= ->]). done.
    + split; [|by right]. split; [done|]. by intros (_ & _ & ?).
Qed.

(** An array of two numbers, nested too deep under a bound of one level. *)
Example preflight_nested : preflightCBORStructure (of_byte_values [0x82; 1; 0x81; 2]) 2 10 = Ok tt.
Proof. vm_compute. reflexivity. Qed.
Example preflight_too_deep :
  preflightCBORStructure (of_byte_values [0x81; 0x81; 2]) 1 10 = Err ErrSnapshotVerification.
Proof. vm_compute. reflexivity. Qed.
