(* ===== verification/Url.v ===== *)
(** * net/url and net, as far as this program uses them

    An executable transcription of [url.Parse], [URL.Hostname], [URL.Port] and [URL.String] for
    URLs without user info, query and path, and of the address parsers behind [net.ParseIP] and
    [netip.ParseAddr].  Every package of the program that is configured with a provider origin
    cleans it with them. *)
From S2P Require Import Prelude Sha256 GoStd Syntax Unicode Json.

(** ** Text helpers *)

Fixpoint last_cut (s : string) (sep : ascii) : option (string * string) :=
  match s with
  | EmptyString => None
  | String c s' =>
      match last_cut s' sep with
      | Some (a, b) => Some (String c a, b)
      | None => if Ascii.eqb c sep then Some ("", s') else None
      end
  end.
Definition HasSuffix (s suf : string) : bool := HasPrefix (rev_string s) (rev_string suf).
Definition TrimSuffix (s suf : string) : string :=
  if HasSuffix s suf then substring 0 (String.length s - String.length suf) s else s.
(** [strings.EqualFold] against an ASCII word without the letters k and s. *)
Definition EqualFold_ascii (s word : string) : bool := String.eqb (ToLower s) (ToLower word).
Definition is_digit (c : ascii) : bool := in_range 48 57 c.
Definition is_alpha (c : ascii) : bool := in_range 65 90 c || in_range 97 122 c.
Definition is_hex (c : ascii) : bool := is_some (hex_value c).

(** ** Paths

    [path.Clean] of a path that starts at the root. *)
Definition clean_segment (segments : list string) (segment : string) : list string :=
  if String.eqb segment "" || String.eqb segment "." then segments
  else if String.eqb segment ".." then List.removelast segments
  else segments ++ [segment].
Definition Clean (path : string) : string :=
  "/" +:+ join_with "/" (fold_left clean_segment (Split path "/") []).
(** [filepath.Dir] of such a path. *)
Definition Dir (path : string) : string := match last_cut path "/" with Some (dir, _) => Clean dir | None => "/" end.

(** ** Addresses *)

(** A decimal octet without leading zeros. *)
Definition octet (s : string) : option N :=
  if all_bytes is_digit s && negb (String.eqb s "") && (len s <=? 3) &&
     negb (HasPrefix s "0" && negb (String.eqb s "0")) then
    match parse_uint 64 s with Some n => if n <=? 255 then Some n else None | None => None end
  else None.
Definition ParseIPv4 (s : string) : option (N * N * N * N) :=
  match Split s "." with
  | [a; b; c; d] =>
      match octet a, octet b, octet c, octet d with
      | Some a, Some b, Some c, Some d => Some (a, b, c, d)
      | _, _, _, _ => None
      end
  | _ => None
  end.

Definition hex_nibble (c : ascii) : N := default 0 (hex_value c).
Fixpoint hex_number (acc : N) (s : string) : N :=
  match s with EmptyString => acc | String c s' => hex_number (16 * acc + hex_nibble c) s' end.
Definition hex_group (s : string) : option N :=
  if all_bytes is_hex s && negb (String.eqb s "") && (len s <=? 4) then Some (hex_number 0 s) else None.

(** The 16-bit groups of a list of ip_fields; the very last one may be an IPv4 address. *)
Fixpoint ip_groups (l : list string) (v4_last : bool) : option (list N) :=
  match l with
  | [] => Some []
  | [x] =>
      match hex_group x with
      | Some n => Some [n]
      | None =>
          match ParseIPv4 x with
          | Some (a, b, c, d) => if v4_last then Some [256 * a + b; 256 * c + d] else None
          | None => None
          end
      end
  | x :: l' => match hex_group x, ip_groups l' v4_last with Some n, Some r => Some (n :: r) | _, _ => None end
  end.
Definition ip_fields (s : string) : list string := if String.eqb s "" then [] else Split s ":".

Fixpoint cut_ellipsis (s : string) : option (string * string) :=
  match s with
  | String c s' =>
      if HasPrefix s "::" then Some ("", skip 2 s)
      else match cut_ellipsis s' with Some (a, b) => Some (String c a, b) | None => None end
  | EmptyString => None
  end.

Definition ParseIPv6 (s : string) : option (list N) :=
  match cut_ellipsis s with
  | Some (a, b) =>
      match ip_groups (ip_fields a) false, ip_groups (ip_fields b) true with
      | Some x, Some y =>
          if llen x + llen y <=? 7
          then Some (x ++ repeat 0 (8 - List.length x - List.length y) ++ y) else None
      | _, _ => None
      end
  | None =>
      match ip_groups (Split s ":") true with
      | Some x => if llen x =? 8 then Some x else None
      | None => None
      end
  end.

(** [net.ParseIP(host).IsLoopback()], false for what is no address. *)
Definition loopback_ip (host : string) : bool :=
  match ParseIPv4 host with
  | Some (a, _, _, _) => a =? 127
  | None =>
      match ParseIPv6 host with
      | Some [0; 0; 0; 0; 0; f; hi; _ as lo] =>
          if f =? 0xFFFF then N.shiftr hi 8 =? 127 else (f =? 0) && (hi =? 0) && (lo =? 1)
      | _ => false
      end
  end.

(** ** url.Parse *)

Record url : Type := MkUrl {
  uScheme : string;
  uOpaque : string;
  uUser : bool;
  uHost : string;
  uPath : string;
  uForceQuery : bool;
  uRawQuery : string;
  uFragment : string
}.

(** [getScheme]: the scheme, and what follows its colon. *)
Fixpoint get_scheme (first : bool) (acc s whole : string) : option (string * string) :=
  match s with
  | EmptyString => Some ("", whole)
  | String c s' =>
      if is_alpha c then get_scheme false (acc +:+ String c "") s' whole
      else if is_digit c || has_byte c "+-." then
        if first then Some ("", whole) else get_scheme false (acc +:+ String c "") s' whole
      else if Ascii.eqb c ":" then if first then None else Some (acc, s')
      else Some ("", whole)
  end.

(** Characters [shouldEscape] leaves alone in a host. *)
Definition host_char (c : ascii) : bool :=
  is_alpha c || is_digit c || has_byte c "-_.~!$&'()*+,;=:[]<>" || (N_of_ascii c =? 34).

(** [unescape] in mode [encodeHost]: percent escapes only of non-ASCII bytes (or of the percent
    sign), no other character a host must not have. *)
Fixpoint unescape_host (s : string) : option string :=
  match s with
  | EmptyString => Some ""
  | String c s' =>
      if Ascii.eqb c "%" then
        match s' with
        | String h (String l s'') =>
            if is_hex h && is_hex l && ((8 <=? hex_nibble h) || (hex_nibble h =? 2) && (hex_nibble l =? 5)) then
              match unescape_host s'' with
              | Some r => Some (byte (16 * hex_nibble h + hex_nibble l) +:+ r)
              | None => None
              end
            else None
        | _ => None
        end
      else if (N_of_ascii c <? 0x80) && negb (host_char c) then None
      else match unescape_host s' with Some r => Some (String c r) | None => None end
  end.

(** [unescape] of a path or fragment. *)
Fixpoint unescape_path (s : string) : option string :=
  match s with
  | EmptyString => Some ""
  | String c s' =>
      if Ascii.eqb c "%" then
        match s' with
        | String h (String l s'') =>
            if is_hex h && is_hex l then
              match unescape_path s'' with
              | Some r => Some (byte (16 * hex_nibble h + hex_nibble l) +:+ r)
              | None => None
              end
            else None
        | _ => None
        end
      else match unescape_path s' with Some r => Some (String c r) | None => None end
  end.

Definition validOptionalPort (port : string) : bool :=
  match port with
  | EmptyString => true
  | String c s => Ascii.eqb c ":" && all_bytes is_digit s
  end.

(** [parseHost]: a bracketed IPv6 address or a registered name, with an optional port.  Zones
    in brackets are not modelled: they are refused here. *)
Definition parseHost (host : string) : option string :=
  if HasPrefix host "[" then
    match last_cut host "]" with
    | Some (inner, port) =>
        let address := TrimPrefix inner "[" in
        if validOptionalPort port && is_some (ParseIPv6 address)
        then Some ("[" +:+ address +:+ "]" +:+ port) else None
    | None => None
    end
  else if has_byte "[" host then None
  else
    match Cut host ":" with
    | Some (_, port) => if all_bytes is_digit port then unescape_host host else None
    | None => unescape_host host
    end.

(** [parseAuthority]: whether there is user info, and the host. *)
Definition userinfo_char (c : ascii) : bool :=
  is_alpha c || is_digit c || has_byte c "-._:~!$&'()*+,;=%@".
Definition parseAuthority (authority : string) : option (bool * string) :=
  match last_cut authority "@" with
  | None => match parseHost authority with Some h => Some (false, h) | None => None end
  | Some (user, host) =>
      match parseHost host with
      | Some h => if all_bytes userinfo_char user && is_some (unescape_path user) then Some (true, h) else None
      | None => None
      end
  end.

Definition has_control (s : string) : bool := negb (all_bytes (λ c, (32 <=? N_of_ascii c) && negb (N_of_ascii c =? 127)) s).

Definition cut_before (s : string) (sep : ascii) : string := match Cut s sep with Some (a, _) => a | None => s end.
Definition cut_after (s : string) (sep : ascii) : string := match Cut s sep with Some (_, b) => b | None => "" end.

Definition parse_rest (scheme rest : string) (force : bool) (query : string) : option url :=
  if negb (HasPrefix rest "/") && negb (String.eqb scheme "") then
    Some (MkUrl scheme rest false "" "" force query "")
  else if negb (HasPrefix rest "/") && has_byte ":" (cut_before rest "/") then None
  else if HasPrefix rest "//" && (negb (String.eqb scheme "") || negb (HasPrefix rest "///")) then
    let authority := skip 2 rest in
    let path := match Cut authority "/" with Some (_, p) => String "/" p | None => "" end in
    match parseAuthority (cut_before authority "/"), unescape_path path with
    | Some (user, host), Some path => Some (MkUrl scheme "" user host path force query "")
    | _, _ => None
    end
  else match unescape_path rest with Some path => Some (MkUrl scheme "" false "" path force query "") | None => None end.

Definition url_Parse (raw : string) : option url :=
  let u := cut_before raw "#" in
  let frag := cut_after raw "#" in
  if has_control u then None
  else if String.eqb u "*" then Some (MkUrl "" "" false "" "*" false "" frag)
  else
    match get_scheme true "" u u with
    | None => None
    | Some (scheme, rest) =>
        let force := HasSuffix rest "?" && (Count rest "?" =? 1) in
        match parse_rest (ToLower scheme) (cut_before rest "?") force (cut_after rest "?"), unescape_path frag with
        | Some u, Some f => Some (MkUrl (uScheme u) (uOpaque u) (uUser u) (uHost u) (uPath u) (uForceQuery u)
                                    (uRawQuery u) f)
        | _, _ => None
        end
    end.

(** ** Host name and port *)

Definition split_host_port (hostport : string) : string * string :=
  let '(host, port) :=
    match last_cut hostport ":" with
    | Some (h, p) => if all_bytes is_digit p then (h, p) else (hostport, "")
    | None => (hostport, "")
    end in
  (if HasPrefix host "[" && HasSuffix host "]" then TrimSuffix (TrimPrefix host "[") "]" else host, port).
Definition Hostname (u : url) : string := (split_host_port (uHost u)).1.
Definition Port (u : url) : string := (split_host_port (uHost u)).2.

Definition hex_upper (n : N) : ascii := ascii_of_N (if n <? 10 then 48 + n else 55 + n).
(** [escape] in mode [encodeHost]. *)
Fixpoint escape_host (s : string) : string :=
  match s with
  | EmptyString => ""
  | String c s' =>
      (if host_char c then String c ""
       else "%" +:+ String (hex_upper (N.shiftr (N_of_ascii c) 4)) (String (hex_upper (N.land (N_of_ascii c) 15)) ""))
      +:+ escape_host s'
  end.

(** [URL.String] of a URL with a scheme and a host, and no user, path, query or fragment. *)
Definition origin_String (scheme host : string) (force : bool) : string :=
  scheme +:+ "://" +:+ escape_host host +:+ (if force then "?" else "").

(** ** Examples *)

Example url_plain :
  url_Parse "https://PDS.example:8443/" = Some (MkUrl "https" "" false "PDS.example:8443" "/" false "" "").
Proof. vm_compute. reflexivity. Qed.
Example url_mark : url_Parse "https://host?" = Some (MkUrl "https" "" false "host" "" true "" "").
Proof. vm_compute. reflexivity. Qed.
Example url_user : option_map uUser (url_Parse "https://a:b@host") = Some true.
Proof. vm_compute. reflexivity. Qed.
Example url_v6 : option_map Hostname (url_Parse "http://[::1]:80") = Some "::1".
Proof. vm_compute. reflexivity. Qed.
Example url_bad_host : url_Parse "https://ho st/" = None.
Proof. vm_compute. reflexivity. Qed.
Example url_opaque : option_map uOpaque (url_Parse "mailto:a@b") = Some "a@b".
Proof. vm_compute. reflexivity. Qed.
Example loopbacks :
  List.map loopback_ip ["127.0.0.1"; "::1"; "::ffff:127.9.9.9"; "10.0.0.1"; "127.0.0.01"; "localhost"] =
  [true; true; true; false; false; false].
Proof. vm_compute. reflexivity. Qed.
