(* ===== verification/SpacesWire.v ===== *)
(** * Official Spaces: targets, origins and identifiers

    Models the parts of src/internal/providers/officialspaces/client.go that need no network:
    the target, the cleaning of origins ([cleanOrigin], [isLoopbackHost]), the collections and
    the tests of record keys and CIDs. *)
From S2P Require Import Prelude Sha256 GoStd Syntax Unicode Json Mailbox Repository Canonical FolderRevision Ipld Url.

Definition PinnedEpoch : string := "atproto-89deb9faca20e56fa2a262fe9746ed52bc1095ba".

Record SpacesTarget : Type := MkSpacesTarget {
  otOrigin : string;
  otSpaceURI : string;
  otRepoDID : string;
  otEpoch : string
}.
#[export] Instance SpacesTarget_eq_dec : EqDecision SpacesTarget.
Proof. solve_decision. Defined.
Definition zero_spaces_target : SpacesTarget := MkSpacesTarget "" "" "" "".

Definition repositoryTarget (t : SpacesTarget) : Target :=
  MkTarget (otOrigin t) (otSpaceURI t) (otRepoDID t) (otEpoch t).

Definition allowedCollections : list string :=
  [MessageCollection; MessageStateRevisionCollection; MessageStateOperationCollection;
   FolderRevisionCollection; FolderOperationCollection].
Definition allowedCollection (collection : string) : bool := bool_decide (collection ∈ allowedCollections).

Section wire.
Context `{Syntax} `{Ipld}.

Definition validRecordKey (rkey : string) : bool := ParseRecordKey rkey && negb (String.eqb rkey "*").

Definition validRecordCID (raw : string) : bool :=
  match cid_Decode raw with Some c => sha256_cid codec_DagCBOR c | None => false end.
Definition validRawCID (raw : string) : bool :=
  match cid_Decode raw with
  | Some c => String.eqb (cid_String c) raw && sha256_cid codec_Raw c
  | None => false
  end.
Definition validBlobCID (raw data : string) : bool :=
  if negb (validRawCID raw) then false
  else match cid_Decode raw with
  | Some c => match cid_Sum c data with Some actual => bool_decide (c = actual) | None => false end
  | None => false
  end.

End wire.

(** ** Origins *)

Definition JoinHostPort (host port : string) : string :=
  if has_byte ":" host then "[" +:+ host +:+ "]:" +:+ port else host +:+ ":" +:+ port.

Section origin.
Context `{CaseOrbits}.

Definition isLoopbackHost (host : string) : bool :=
  String.eqb (fold_name host) (fold_name "localhost") || loopback_ip host.

(** Lower-casing is of ASCII letters; a host name with other letters keeps them. *)
Definition clean_host (scheme host port : string) : string :=
  let hostname := ToLower host in
  let port := if String.eqb scheme "https" && String.eqb port "443" || String.eqb scheme "http" && String.eqb port "80"
              then "" else port in
  if negb (String.eqb port "") then JoinHostPort hostname port
  else if has_byte ":" hostname then "[" +:+ hostname +:+ "]" else hostname.

Definition cleanOrigin (raw : string) (allowHTTP : bool) : result string :=
  let? origin := opt_result (url_Parse raw) ErrOther in
  fail_if String.eqb (Hostname origin) "" || uUser origin || negb (String.eqb (uRawQuery origin) "") ||
    negb (String.eqb (uFragment origin) "") ||
    negb (String.eqb (uPath origin) "") && negb (String.eqb (uPath origin) "/") with ErrOther ;;
  fail_if negb (String.eqb (uScheme origin) "https") &&
    (negb allowHTTP || negb (String.eqb (uScheme origin) "http") || negb (isLoopbackHost (Hostname origin)))
    with ErrOther ;;
  Ok (TrimSuffix (origin_String (uScheme origin) (clean_host (uScheme origin) (Hostname origin) (Port origin))
    (uForceQuery origin)) "/").

End origin.

Example clean_plain : cleanOrigin "HTTPS://PDS.Example:443/" false = Ok "https://pds.example".
Proof. vm_compute. reflexivity. Qed.
Example clean_loopback : cleanOrigin "http://[::1]:8080" true = Ok "http://[::1]:8080".
Proof. vm_compute. reflexivity. Qed.
Example clean_http : cleanOrigin "http://pds.example" true = Err ErrOther.
Proof. vm_compute. reflexivity. Qed.
Example clean_path : cleanOrigin "https://pds.example/xrpc" true = Err ErrOther.
Proof. vm_compute. reflexivity. Qed.
