(* ===== verification/Http.v ===== *)
(** * The HTTP layer of the Spaces transport

    What src/internal/providers/officialspaces/client.go asks of [net/http], [net/url], [mime]
    and [encoding/json] when it talks to a provider: the text of a URL with its query, media
    types, bodies read up to a limit, [json.RawMessage] fields, and the class [Transport], the
    calls that reach outside: acquiring a credential, sending a request, closing.

    A connection is a world [W]: every call may depend on it and change it.  Credentials and
    response bodies are named by handles, so that a handle that is never closed is visible. *)
From S2P Require Import Prelude Sha256 GoStd Syntax Unicode Json Mailbox Repository Canonical Revision Decode.
From S2P Require Import Ipld Car Url SpacesWire.

(** ** net/url *)

Definition unreserved (c : ascii) : bool := is_alpha c || is_digit c || has_byte c "-_.~".
Definition percent (c : ascii) : string :=
  "%" +:+ String (hex_upper (N.shiftr (N_of_ascii c) 4)) (String (hex_upper (N.land (N_of_ascii c) 15)) "").
Fixpoint escape_with (keep : ascii → bool) (s : string) : string :=
  match s with
  | EmptyString => ""
  | String c s' => (if keep c then String c "" else percent c) +:+ escape_with keep s'
  end.
(** [QueryEscape]: a blank becomes a plus sign. *)
Fixpoint QueryEscape (s : string) : string :=
  match s with
  | EmptyString => ""
  | String c s' =>
      (if unreserved c then String c "" else if Ascii.eqb c " " then "+" else percent c) +:+ QueryEscape s'
  end.

(** [url.Values] with one value per key, and [Values.Encode]. *)
Definition values : Type := gmap string string.
Definition Encode (q : values) : string :=
  join_with "&" (List.map (λ key, QueryEscape key +:+ "=" +:+ QueryEscape (default "" (q !! key))) (sortedMapKeys q)).

Definition set_uRawQuery (u : url) (query : string) : url :=
  MkUrl (uScheme u) (uOpaque u) (uUser u) (uHost u) (uPath u) (uForceQuery u) query (uFragment u).

(** [URL.String] of a URL without user info.  The path is written in its default encoding:
    the paths of this package are constants that need none. *)
Definition url_String (u : url) : string :=
  (if String.eqb (uScheme u) "" then "" else uScheme u +:+ ":") +:+
  (if negb (String.eqb (uOpaque u) "") then uOpaque u
   else (if (negb (String.eqb (uScheme u) "") || negb (String.eqb (uHost u) "")) &&
            (negb (String.eqb (uHost u) "") || negb (String.eqb (uPath u) ""))
         then "//" +:+ escape_host (uHost u) else "") +:+
        (if negb (String.eqb (uPath u) "") && negb (HasPrefix (uPath u) "/") && negb (String.eqb (uHost u) "")
         then "/" else "") +:+
        escape_with (λ c, unreserved c || has_byte c "$&+,/:;=@") (uPath u)) +:+
  (if uForceQuery u || negb (String.eqb (uRawQuery u) "") then "?" +:+ uRawQuery u else "") +:+
  (if String.eqb (uFragment u) "" then ""
   else "#" +:+ escape_with (λ c, unreserved c || has_byte c "$&+,/:;=?@!()*") (uFragment u)).

(** ** mime *)

Definition token_char (c : ascii) : bool :=
  (0x20 <? N_of_ascii c) && (N_of_ascii c <? 0x7f) && negb (has_byte c "()<>@,;:\/[]?=") && negb (N_of_ascii c =? 34).
Definition tspecial (c : ascii) : bool := has_byte c "()<>@,;:\/[]?=" || (N_of_ascii c =? 34).

(** [consumeToken]: the longest token at the front, and the rest. *)
Fixpoint consumeToken (s : string) : string * string :=
  match s with
  | EmptyString => ("", "")
  | String c s' => if token_char c then let '(t, r) := consumeToken s' in (String c t, r) else ("", s)
  end.

(** The inside of a quoted value; [whole] is what is returned when the quote is not closed. *)
Fixpoint quoted_value (s whole : string) (acc : string) : string * string :=
  match s with
  | EmptyString => ("", whole)
  | String c s' =>
      if N_of_ascii c =? 34 then (acc, s')
      else if Ascii.eqb c "\" then
        match s' with
        | String d s'' => if tspecial d then quoted_value s'' whole (acc +:+ String d "")
                          else quoted_value s' whole (acc +:+ String c "")
        | EmptyString => ("", whole)
        end
      else if (N_of_ascii c =? 13) || (N_of_ascii c =? 10) then ("", whole)
      else quoted_value s' whole (acc +:+ String c "")
  end.
Definition consumeValue (s : string) : string * string :=
  match s with
  | EmptyString => ("", "")
  | String c s' => if N_of_ascii c =? 34 then quoted_value s' s "" else consumeToken s
  end.

Definition TrimLeft (s : string) : string := trim_front space_runes (String.length s) s.
Definition cut_prefix (pre s : string) : option string := if HasPrefix s pre then Some (TrimPrefix s pre) else None.

(** [consumeMediaParam]: key, value and rest; [None] where Go returns an empty key. *)
Definition consumeMediaParam (v : string) : option (string * string * string) :=
  match cut_prefix ";" (TrimLeft v) with
  | None => None
  | Some rest =>
      let '(param, rest) := consumeToken (TrimLeft rest) in
      if String.eqb param "" then None
      else match cut_prefix "=" (TrimLeft rest) with
      | None => None
      | Some rest =>
          let rest := TrimLeft rest in
          let '(value, rest2) := consumeValue rest in
          if String.eqb value "" && String.eqb rest2 rest then None else Some (ToLower param, value, rest2)
      end
  end.

(** The parameters are well formed and no two with one key differ.  Every round but the last
    drops a byte of [v]. *)
Fixpoint media_params (fuel : nat) (seen : gmap string string) (v : string) : bool :=
  match fuel with
  | O => false
  | S f =>
      let v := TrimLeft v in
      if String.eqb v "" then true
      else match consumeMediaParam v with
      | None => String.eqb (TrimSpace v) ";"
      | Some (key, value, rest) =>
          match seen !! key with
          | Some other => if String.eqb other value then media_params f seen rest else false
          | None => media_params f (<[key := value]> seen) rest
          end
      end
  end.

(** [strings.ToLower] up to the letters that become ASCII: besides A to Z these are U+0130 and
    U+212A. *)
Definition lower_rune (r : N) : N :=
  if (65 <=? r) && (r <=? 90) then r + 32 else if r =? 0x130 then 105 else if r =? 0x212A then 107 else r.
Definition media_lower (s : string) : string := encode_runes (List.map lower_rune (runes s)).

Definition media_type_ok (s : string) : bool :=
  let '(type, rest) := consumeToken s in
  negb (String.eqb type "") &&
  (String.eqb rest "" ||
   match cut_prefix "/" rest with
   | None => false
   | Some rest => let '(subtype, rest) := consumeToken rest in negb (String.eqb subtype "") && String.eqb rest ""
   end).

(** [mime.ParseMediaType] without the parameters; [None] for every error. *)
Definition ParseMediaType (v : string) : option string :=
  let base := cut_before v ";" in
  let mediatype := TrimSpace (media_lower base) in
  if media_type_ok mediatype && media_params (S (String.length v)) ∅ (skip (String.length base) v)
  then Some mediatype else None.

Definition media_type_is (header wanted : string) : bool :=
  match ParseMediaType header with Some m => EqualFold_ascii m wanted | None => false end.

Example media_plain : ParseMediaType "Message/RFC822; charset=utf-8 ;" = Some "message/rfc822".
Proof. vm_compute. reflexivity. Qed.
Example media_twice : ParseMediaType "a/b; x=1; X=2" = None.
Proof. vm_compute. reflexivity. Qed.
Example media_bad : ParseMediaType "a b" = None.
Proof. vm_compute. reflexivity. Qed.
Example query_text :
  Encode (<["space" := "at://did:plc:a/space/x y"]> (<["limit" := "10"]> ∅)) =
  "limit=10&space=at%3A%2F%2Fdid%3Aplc%3Aa%2Fspace%2Fx+y".
Proof. vm_compute. reflexivity. Qed.
Example url_text :
  option_map (λ u, url_String (set_uRawQuery u "a=b")) (url_Parse "https://[::1]:80/xrpc/com.example.get") =
  Some "https://[::1]:80/xrpc/com.example.get?a=b".
Proof. vm_compute. reflexivity. Qed.

(** ** json.RawMessage

    A decoder that keeps the text of a member: [outline] is a value whose members or elements
    are still text, each a [JStr] of its bytes; a decoder of the whole is built from decoders of
    the parts by [nested]. *)

(** The text of the first value, and what follows it. *)
Definition raw_value (s : string) : option (string * string) :=
  let s := skip_ws s in
  match parse_value (S (String.length s)) s with
  | Some (_, rest) => Some (substring 0 (String.length s - String.length rest) s, rest)
  | None => None
  end.

Fixpoint raw_elements (fuel : nat) (s : string) : option (list json) :=
  match fuel with
  | O => None
  | S f =>
      match raw_value s with
      | None => None
      | Some (x, rest) =>
          match skip_ws rest with
          | EmptyString => None
          | String d s' => if N_of_ascii d =? 44 then option_map (cons (JStr x)) (raw_elements f s')
                           else Some [JStr x]
          end
      end
  end.

Fixpoint raw_members (fuel : nat) (s : string) : option (list (string * json)) :=
  match fuel with
  | O => None
  | S f =>
      match skip_ws s with
      | EmptyString => None
      | String _ s0 =>
          match unquote 0 s0 with
          | None => None
          | Some (key, s1) =>
              match raw_value (skip 1 (skip_ws s1)) with
              | None => None
              | Some (x, rest) =>
                  match skip_ws rest with
                  | EmptyString => None
                  | String d s' => if N_of_ascii d =? 44 then option_map (cons (key, JStr x)) (raw_members f s')
                                   else Some [(key, JStr x)]
                  end
              end
          end
      end
  end.

(** The text is one value: the scan comes first in Go too. *)
Definition outline (raw : string) : option json :=
  match parse raw with
  | Some (JArr (_ :: _)) => option_map JArr (raw_elements (String.length raw) (skip 1 (skip_ws raw)))
  | Some (JObj (_ :: _)) => option_map JObj (raw_members (String.length raw) (skip 1 (skip_ws raw)))
  | j => j
  end.

(** A part that is decoded as usual, as an outline, or kept as it is. *)
Definition parsed {A} (decode : json → A → option A) (j : json) (a : A) : option A :=
  match j with JStr raw => match parse raw with Some v => decode v a | None => None end | _ => None end.
Definition nested {A} (decode : json → A → option A) (j : json) (a : A) : option A :=
  match j with JStr raw => match outline raw with Some v => decode v a | None => None end | _ => None end.
Definition raw_message (j : json) (_ : option string) : option (option string) :=
  match j with JStr raw => Some (Some raw) | _ => None end.

Example outline_object :
  outline "{ 'a' : [1, 2] , 'b':null}" = None ∧
  outline ("{ " +:+ quote "a" +:+ " : [1, 2 ] , " +:+ quote "b" +:+ ":null}") =
  Some (JObj [("a", JStr "[1, 2 ]"); ("b", JStr "null")]).
Proof. split; vm_compute; reflexivity. Qed.

(** [json.Compact] with HTML escaping, as [json.Marshal] writes a [RawMessage]. *)
Fixpoint compact (in_string escaped : bool) (s : string) : string :=
  match s with
  | EmptyString => ""
  | String c s' =>
      let n := N_of_ascii c in
      let after := if in_string then if escaped then (true, false) else if n =? 92 then (true, true)
                                     else (negb (n =? 34), false)
                   else (n =? 34, false) in
      let rest := compact after.1 after.2 in
      if (n =? 60) || (n =? 62) || (n =? 38) then
        "\u00" +:+ String (hex_char (N.shiftr n 4)) (String (hex_char (N.land n 15)) "") +:+ rest s'
      else if n =? 0xE2 then
        match s' with
        | String d (String e s'') =>
            if (N_of_ascii d =? 0x80) && ((N_of_ascii e =? 0xA8) || (N_of_ascii e =? 0xA9)) then
              "\u202" +:+ String (hex_char (N.land (N_of_ascii e) 15)) "" +:+ compact after.1 after.2 s''
            else String c (rest s')
        | _ => String c (rest s')
        end
      else if negb in_string && is_space c then rest s'
      else String c (rest s')
  end.
Definition Compact (raw : string) : option string :=
  match parse raw with Some _ => Some (compact false false raw) | None => None end.

Example compact_text :
  Compact (" { " +:+ quote "a" +:+ " : " +:+ dquote +:+ "x < \" +:+ dquote +:+ " y" +:+ dquote +:+ " } ") =
  Some ("{" +:+ quote "a" +:+ ":" +:+ dquote +:+ "x \u003c \" +:+ dquote +:+ " y" +:+ dquote +:+ "}").
Proof. vm_compute. reflexivity. Qed.

(** ** Bodies *)

(** [io.ReadAll] of an [io.LimitReader] of [n] bytes: the bytes, and whether it failed. *)
Definition read_limited (n : N) (r : reader) : string * bool :=
  if n <=? len (rdLeft r) then (substring 0 (N.to_nat n) (rdLeft r), false) else (rdLeft r, rdBroken r).

(** [decodeStrictBoundedCount]: exactly one value of at most [limit] bytes; the number of bytes. *)
Definition decodeStrictBoundedCount {A} (decode : json → A → option A) (zero : A) (limit : N) (body : reader) :
    result (A * N) :=
  let '(data, failed) := read_limited (limit + 1) body in
  fail_if failed || (limit <? len data) with ErrOther ;;
  let? (raw, rest) := opt_result (raw_value data) ErrOther in
  let? a := opt_result (nested decode (JStr raw) zero) ErrOther in
  fail_if negb (String.eqb (skip_ws rest) "") with ErrOther ;;
  Ok (a, len data).
Definition decodeStrictBounded {A} (decode : json → A → option A) (zero : A) (limit : N) (body : reader) : result A :=
  let? (a, _) := decodeStrictBoundedCount decode zero limit body in Ok a.

(** ** Calls to the outside *)

Record http_request : Type := MkRequest {
  rqMethod : string;
  rqURL : string;
  rqBody : option string;
  rqContentType : string;
  rqAccept : string
}.

(** A response: status, media type, the body with its handle, and the URL and Host of the
    request it answers.  A nil body, request or URL is [None]. *)
Record http_response : Type := MkResponse {
  rsStatus : Z;
  rsContentType : string;
  rsBody : option (N * reader);
  rsRequest : option (url * string)
}.

Class Transport (W : Type) : Type := {
  (** [ctx.Err] as seen from the world: time passes while the provider answers *)
  now_context : W → context;
  AcquireWriter : SpacesTarget → W → (option N * option error) * W;
  AcquireReader : SpacesTarget → W → (option N * option error) * W;
  (** [ScopedDoer.Do] with the credential, the request and the endpoint *)
  Do : N → http_request → string → W → (option http_response * option error) * W;
  CloseDoer : N → W → W;
  CloseBody : N → W → W;
  (** not part of the Go interfaces: the handles not closed yet *)
  open_handles : W → gset N
}.

(** Opening returns a handle that was not open; closing closes one handle; nothing else does. *)
Definition opens {W} `{Transport W} (h : option N) (w w' : W) : Prop :=
  match h with
  | Some h => h ∉ open_handles w ∧ open_handles w' = {[h]} ∪ open_handles w
  | None => open_handles w' = open_handles w
  end.
Definition response_handle (r : option http_response) : option N :=
  match r with Some r => fst <$> rsBody r | None => None end.
Class TransportLaws (W : Type) `{Transport W} : Prop := {
  AcquireWriter_opens t w d e w' : AcquireWriter t w = ((d, e), w') → opens d w w';
  AcquireReader_opens t w d e w' : AcquireReader t w = ((d, e), w') → opens d w w';
  Do_opens d rq endpoint w r e w' : Do d rq endpoint w = ((r, e), w') → opens (response_handle r) w w';
  CloseDoer_closes d w : open_handles (CloseDoer d w) = open_handles w ∖ {[d]};
  CloseBody_closes b w : open_handles (CloseBody b w) = open_handles w ∖ {[b]}
}.

(** [defer close()] around the rest of a function. *)
Definition finally {W A} (close : W → W) (m : W → A * W) : W → A * W :=
  λ w, let '(r, w') := m w in (r, close w').

(** [ctx.Err] in the middle of the calls. *)
Definition ctx_Err {W} `{Transport W} : W → result unit * W :=
  λ w, (let? _ := poll (now_context w) in Ok tt, w).

(** ** Calls that succeeded *)

Lemma call_ok {W A B} (m : W → result A * W) (k : A → W → result B * W) w b w' :
  call_bind m k w = (Ok b, w') → ∃ a w1, m w = (Ok a, w1) ∧ k a w1 = (Ok b, w').
Proof. unfold call_bind. destruct (m w) as [[a|e] w1]; [|done]. by exists a, w1. Qed.
Lemma returns_ok {W A} (r : result A) (w w' : W) a : returns r w = (Ok a, w') → r = Ok a ∧ w' = w.
Proof. by intros [= -> <-]. Qed.
Lemma attempt_ok {W A} (m : W → result A * W) w r w' : attempt m w = (Ok r, w') → m w = (r, w').
Proof. unfold attempt. destruct (m w). by intros [= <- <-]. Qed.
Lemma finally_ok {W A} close (m : W → result A * W) w a w' :
  finally close m w = (Ok a, w') → ∃ w1, m w = (Ok a, w1) ∧ w' = close w1.
Proof. unfold finally. destruct (m w) as [r w1]. intros [= -> <-]. by exists w1. Qed.

(** Takes a successful sequence of calls apart, its tests included. *)
Ltac call_steps H :=
  repeat first
    [ match type of H with (if ?b then _ else _) _ = (Ok _, _) => destruct b eqn:?; [discriminate H|] end
    | let a := fresh "a" in let w := fresh "w" in let E := fresh "E" in
      apply call_ok in H as (a & w & E & H) ].

(** ** Calls that leave no handle open

    [balanced m]: whatever [m] does, the handles open after it are those open before it.  The
    rules follow the structure of the calls, so a whole operation is balanced by [auto]. *)
Section balance.
Context {W : Type} `{TransportLaws W}.

Definition balanced {A} (m : W → A * W) : Prop := ∀ w, open_handles (m w).2 = open_handles w.

Lemma balanced_returns {A} (r : result A) : balanced (returns r).
Proof. done. Qed.
Lemma balanced_ctx_Err : balanced ctx_Err.
Proof. done. Qed.
Lemma balanced_bind {A B} (m : W → result A * W) (k : A → W → result B * W) :
  balanced m → (∀ a, balanced (k a)) → balanced (call_bind m k).
Proof.
  intros Hm Hk w. unfold call_bind. specialize (Hm w). destruct (m w) as [[a|e] w1]; simpl in *; [|done].
  by rewrite Hk.
Qed.
Lemma balanced_attempt {A} (m : W → result A * W) : balanced m → balanced (attempt m).
Proof. intros Hm w. specialize (Hm w). unfold attempt. by destruct (m w). Qed.
Lemma balanced_on_error {A} f (m : W → result A * W) : balanced m → balanced (on_error f m).
Proof. intros Hm w. specialize (Hm w). unfold on_error. by destruct (m w) as [[]]. Qed.
Lemma balanced_if {A} (b : bool) (m n : W → A * W) : balanced m → balanced n → balanced (if b then m else n).
Proof. by destruct b. Qed.

(** A body that runs with one more handle open, which is closed at its end. *)
Lemma balanced_opened {A} (h : N) (w w' : W) (m : W → A * W) (close : W → W) :
  opens (Some h) w w' → balanced m → (∀ w, open_handles (close w) = open_handles w ∖ {[h]}) →
  open_handles (finally close m w').2 = open_handles w.
Proof.
  intros [Hn Ho] Hm Hc. unfold finally. specialize (Hm w'). destruct (m w') as [r w'']; simpl in *.
  rewrite Hc, Hm, Ho. set_solver.
Qed.

End balance.

Create HintDb balance.
#[export] Hint Resolve balanced_returns balanced_ctx_Err balanced_bind balanced_attempt balanced_on_error balanced_if
  : balance.

(** ** A scripted provider

    A concrete [Transport] for running the model: each request takes the next reply of the
    script (status, media type, body, whether the connection breaks after it); when the script
    is over the connection fails. *)
Record script : Type := MkScript {
  spNext : N;
  spOpen : gset N;
  spReplies : list (Z * string * string * bool);
  spRequests : list (string * http_request)
}.
(** The next handle is above every handle given out. *)
Definition fresh_handle (w : script) : N := fold_right N.max (spNext w) (elements (spOpen w)) + 1.
Definition open_one (w : script) : option N * script :=
  let h := fresh_handle w in (Some h, MkScript h ({[h]} ∪ spOpen w) (spReplies w) (spRequests w)).
Definition close_one (h : N) (w : script) : script :=
  MkScript (spNext w) (spOpen w ∖ {[h]}) (spReplies w) (spRequests w).

#[export] Instance script_transport : Transport script := {
  now_context _ := background;
  AcquireWriter _ w := let '(h, w) := open_one w in ((h, None), w);
  AcquireReader _ w := let '(h, w) := open_one w in ((h, None), w);
  Do _ rq endpoint w :=
    match spReplies w with
    | [] => ((None, Some ErrOther), w)
    | (status, type, body, broken) :: rest =>
        let '(h, w) := open_one w in
        let reader := MkReader body broken in
        ((Some (MkResponse status type (option_map (λ h, (h, reader)) h) (option_map (λ u, (u, "")) (url_Parse (rqURL rq)))),
          None),
         MkScript (spNext w) (spOpen w) rest (spRequests w ++ [(endpoint, rq)]))
    end;
  CloseDoer := close_one;
  CloseBody := close_one;
  open_handles := spOpen
}.

Lemma fresh_handle_new w : fresh_handle w ∉ spOpen w.
Proof.
  assert (Hm : ∀ l n h, h ∈ l → h < fold_right N.max n l + 1).
  { intros l n h. induction l as [|x l IH]; simpl; [by intros ?%elem_of_nil|].
    intros [->|Hl]%elem_of_cons; [lia|]. specialize (IH Hl). lia. }
  intros Hin. apply elem_of_elements in Hin. apply (Hm _ (spNext w)) in Hin. unfold fresh_handle in *. lia.
Qed.
Lemma open_one_opens w h w' : open_one w = (h, w') → opens h w w'.
Proof. intros [= <- <-]. split; [apply fresh_handle_new|done]. Qed.

#[export] Instance script_laws : TransportLaws script.
Proof.
  split; try done.
  - intros t w d e w' E. injection E as <- <- <-. by apply (open_one_opens w).
  - intros t w d e w' E. injection E as <- <- <-. by apply (open_one_opens w).
  - intros d rq endpoint w r e w'. unfold Do. simpl.
    destruct (spReplies w) as [|[[[status type] body] broken] rest]; intros E; injection E as <- <- <-; [done|].
    split; [apply fresh_handle_new|done].
Qed.

Definition start_script (replies : list (Z * string * string * bool)) : script := MkScript 0 ∅ replies [].
