(* ===== verification/Client.v ===== *)
(** * The official Spaces client

    Models src/internal/providers/officialspaces/client.go: construction, the scoped
    credentials, requests and the envelope of their answers, provider errors, the create batch
    with its receipts, record and blob inventories page by page, and the raw reads.

    The errors that reach a caller are sentinels: [redactAuthError] and [decodeProviderError]
    keep the identity of a known one and nothing else of what the other side said. *)
From S2P Require Import Prelude Sha256 GoStd Syntax Unicode Json Mailbox Repository Canonical Revision Decode.
From S2P Require Import FolderRevision Ipld Car Url SpacesWire Http.

Definition uploadBlobEndpoint : string := "com.atproto.repo.uploadBlob".
Definition applyWritesEndpoint : string := "com.atproto.space.applyWrites".
Definition getRecordEndpoint : string := "com.atproto.space.getRecord".
Definition listRecordsEndpoint : string := "com.atproto.space.listRecords".
Definition listBlobsEndpoint : string := "com.atproto.space.listBlobs".
Definition getBlobEndpoint : string := "com.atproto.space.getBlob".
Definition getRepoEndpoint : string := "com.atproto.space.getRepo".
Definition getLatestCommitEndpoint : string := "com.atproto.space.getLatestCommit".
Definition createType : string := applyWritesEndpoint +:+ "#create".
Definition createResultType : string := applyWritesEndpoint +:+ "#createResult".

Definition maxWrites : N := 200.
Definition maxWriteRequest : N := 1000000.
Definition maxJSONResponse : N := 2 * 1024 * 1024.
Definition maxErrorResponse : N := 64 * 1024.
Definition maxCursorBytes : N := 2048.
Definition maxInventoryItems : N := 100000.
Definition maxInventoryBytes : N := 64 * 1024 * 1024.
Definition maxInventoryPages : nat := 1000.
Definition maxCommitBytes : N := 64 * 1024.
Definition maxRepoStreamBytes : N := N.shiftl 512 20.

Definition StatusOK : Z := 200.
Definition StatusUnauthorized : Z := 401.
Definition StatusForbidden : Z := 403.

Definition knownProviderErrorCodes : list string :=
  ["BlobNotFound"; "RecordAlreadyExists"; "RecordNotFound"; "RepoDeactivated"; "RepoNotFound"; "RepoSuspended";
   "RepoTakendown"; "SpaceNotFound"].

Record ProviderError : Type := MkProviderError {
  peStatus : Z;
  peCode : string
}.
Definition ProviderError_Error (e : ProviderError) : string :=
  "officialspaces: HTTP " +:+ print_Z (peStatus e) +:+
  (if String.eqb (peCode e) "" then "" else " (" +:+ peCode e +:+ ")").

(** ** The client *)

Record Config : Type := MkConfig {
  cfOrigin : string;
  cfSpaceAuthorityDID : string;
  cfRepoDID : string;
  cfSpaceKey : string;
  cfEpoch : string;
  cfAllowHTTP : bool
}.

(** The writer and reader sources and the key resolver are calls of the world: [clRepoKeys] says
    whether there is a resolver. *)
Record Client_ : Type := MkClient {
  clOrigin : string;
  clTarget : SpacesTarget;
  clRepoKeys : bool
}.

Section new.
Context `{Syntax} `{CaseOrbits}.

(** The pointer of the configuration becomes an interface that is never nil. *)
Definition New (config : Config) (has_writer has_reader : bool) : result Client_ :=
  fail_if negb has_writer with ErrOther ;;
  fail_if negb has_reader with ErrOther ;;
  fail_if negb (String.eqb (cfEpoch config) PinnedEpoch) with ErrUnsupported ;;
  let? spaceDID := opt_result (ParseDID (cfSpaceAuthorityDID config)) ErrOther in
  let? repoDID := opt_result (ParseDID (cfRepoDID config)) ErrOther in
  fail_if negb (ParseRecordKey (cfSpaceKey config)) || String.eqb (cfSpaceKey config) "*" with ErrOther ;;
  let? origin := cleanOrigin (cfOrigin config) (cfAllowHTTP config) in
  let target := MkSpacesTarget origin ("at://" +:+ spaceDID +:+ "/space/" +:+ MailboxSpaceType +:+ "/" +:+ cfSpaceKey config)
    repoDID PinnedEpoch in
  fail_if negb (is_ok (Target_ValidateFor (repositoryTarget target) repoDID)) with ErrTarget ;;
  Ok (MkClient origin target true).

End new.

Definition TransportID : string := "official-spaces-transport@" +:+ PinnedEpoch.
Definition targetQuery (t : SpacesTarget) : values := <["space" := otSpaceURI t]> (<["repo" := otRepoDID t]> ∅).

(** ** Errors *)

(** The sentinels in the order of the code; any other error, or none, is opaque. *)
Definition first_sentinel (sentinels : list error) (e : option error) (default_ : error) : error :=
  match e with
  | Some e => default default_ (List.find (errors_Is e) sentinels)
  | None => default_
  end.
Definition auth_sentinels : list error :=
  [ErrCanceled; ErrDeadlineExceeded; ErrReauthorizationRequired; ErrUnauthorized; ErrRevoked; ErrTarget].
Definition redactAuthError (e : option error) : error := first_sentinel auth_sentinels e ErrOther.

Definition safeErrorCode (code : string) : bool := bool_decide (code ∈ knownProviderErrorCodes).

Section provider_error.
Context `{CaseOrbits}.

(** [json.Unmarshal] into a struct with the one field [error], its own error ignored: a member
    of the wrong type leaves the field as it is. *)
Definition error_field (data : string) : string :=
  match parse data with
  | Some (JObj l) =>
      fold_left (λ code kv, match find_field [("error", decode_string)] kv.1 with
                            | Some f => default code (f.2 kv.2 code)
                            | None => code
                            end) l ""
  | _ => ""
  end.

Definition provider_error (status : Z) (body : reader) : ProviderError :=
  let '(data, _) := read_limited (maxErrorResponse + 1) body in
  let code := error_field data in
  MkProviderError status (if safeErrorCode code then code else "").

(** The sentinel the error wraps; [ErrOther] is a bare [*ProviderError]. *)
Definition decodeProviderError (status : Z) (body : reader) : error :=
  let e := provider_error status body in
  if (status =? StatusUnauthorized)%Z || (status =? StatusForbidden)%Z then ErrUnauthorized
  else if String.eqb (peCode e) "RecordAlreadyExists" then ErrExists
  else if bool_decide (peCode e ∈ ["RecordNotFound"; "BlobNotFound"; "SpaceNotFound"; "RepoNotFound"]) then ErrNotFound
  else ErrOther.

End provider_error.

(** ** Requests *)

(** What the rest of the package sees of a response that answers its request. *)
Record answer : Type := MkAnswer {
  anStatus : Z;
  anContentType : string;
  anHandle : N;
  anBody : reader
}.

(** The response is to the request that was sent. *)
Definition answers `{CaseOrbits} (r : http_response) (u : url) : bool :=
  match rsRequest r with
  | Some (v, host) =>
      String.eqb (url_String v) (url_String u) &&
      (String.eqb host "" || String.eqb (fold_name host) (fold_name (uHost v)))
  | None => false
  end.

Section calls.
Context `{Syntax} `{Ipld} `{CaseOrbits} {W : Type} `{Transport W} (c : Client_).

Definition close_response (r : option http_response) : W → W :=
  match response_handle r with Some h => CloseBody h | None => id end.

Definition request (doer : N) (method endpoint : string) (query : option values) (body : option string)
    (contentType accept : string) : W → result answer * W :=
  match url_Parse (clOrigin c +:+ "/xrpc/" +:+ endpoint) with
  | None => returns (Err ErrOther)
  | Some target =>
      let target := match query with Some q => set_uRawQuery target (Encode q) | None => target end in
      match url_Parse (url_String target) with
      | None => returns (Err ErrOther)
      | Some u => λ w,
          let '((response, err), w) := Do doer (MkRequest method (url_String u) body contentType accept) endpoint w in
          match err, response with
          | Some e, _ => (Err (redactAuthError (Some e)), close_response response w)
          | None, None => (Err ErrTarget, w)
          | None, Some r =>
              match rsBody r with
              | Some (h, body) => if answers r u then (Ok (MkAnswer (rsStatus r) (rsContentType r) h body), w)
                                  else (Err ErrTarget, close_response response w)
              | None => (Err ErrTarget, w)
              end
          end
      end
  end.

(** The credential is closed when the operation returns, and also when it came with an error. *)
Definition with_credential {A} (acquire : SpacesTarget → W → (option N * option error) * W)
    (operation : N → W → result A * W) : W → result A * W := λ w,
  let '((credential, err), w) := acquire (clTarget c) w in
  match credential, err with
  | Some d, None => finally (CloseDoer d) (operation d) w
  | Some d, Some e => (Err (redactAuthError (Some e)), CloseDoer d w)
  | None, e => (Err (redactAuthError e), w)
  end.
Definition withWriter {A} : (N → W → result A * W) → W → result A * W := with_credential AcquireWriter.
Definition withReader {A} : (N → W → result A * W) → W → result A * W := with_credential AcquireReader.

(** A request whose answer is used by [use] while its body is open: [defer Body.Close()].  An
    answer with another status than 200 is the provider's error. *)
Definition exchange {A} (doer : N) (method endpoint : string) (query : option values) (body : option string)
    (contentType accept : string) (use : answer → W → result A * W) : W → result A * W :=
  call? a := request doer method endpoint query body contentType accept in
  finally (CloseBody (anHandle a))
    (return_if negb (anStatus a =? StatusOK)%Z with Err (decodeProviderError (anStatus a) (anBody a)) ;; use a).
Definition fetch {A} (doer : N) (endpoint : string) (query : values) (accept : string)
    (use : answer → W → result A * W) : W → result A * W :=
  exchange doer "GET" endpoint (Some query) None "" accept use.

End calls.

(** ** Uploads and creates *)

Record Create_ : Type := MkCreate {
  crCollection : string;
  crRKey : string;
  crValue : string
}.
Record CreateResult : Type := MkCreateResult {
  cuURI : string;
  cuCID : string
}.
Record UnverifiedRecord : Type := MkUnverifiedRecord {
  urURI : string;
  urCollection : string;
  urRKey : string;
  urCID : string;
  urValue : option string
}.
Record wireCreateResult : Type := MkWireCreateResult {
  wcType : string;
  wcURI : string;
  wcCID : string;
  wcValidationStatus : string
}.
Definition set_wcType (r : wireCreateResult) (x : string) := MkWireCreateResult x (wcURI r) (wcCID r) (wcValidationStatus r).
Definition set_wcURI (r : wireCreateResult) (x : string) := MkWireCreateResult (wcType r) x (wcCID r) (wcValidationStatus r).
Definition set_wcCID (r : wireCreateResult) (x : string) := MkWireCreateResult (wcType r) (wcURI r) x (wcValidationStatus r).
Definition set_wcValidationStatus (r : wireCreateResult) (x : string) := MkWireCreateResult (wcType r) (wcURI r) (wcCID r) x.

(** A field of the wire whose text is decoded as usual. *)
Definition wire_field {S A} (name : string) (decode : json → A → option A) (get : S → A) (set : S → A → S) : field S :=
  mk_field name (parsed decode) get set.
(** The only field of an answer. *)
Definition sole_field {A} (name : string) (decode : json → A → option A) : field A := mk_field name decode id (λ _ x, x).

Section values_.
Context `{Syntax} `{Ipld} `{CaseOrbits}.

Definition recordTypeMatches (value collection : string) : bool :=
  if (len value =? 0) || (maxWriteRequest <? len value) then false
  else match parse_value (S (String.length value)) value with
  | Some (j, rest) =>
      match decode_struct [sole_field "$type" decode_string] j "" with
      | Some type => String.eqb type collection && String.eqb (skip_ws rest) ""
      | None => false
      end
  | None => false
  end.

Definition validateCreate (create : Create_) : result unit :=
  fail_if negb (allowedCollection (crCollection create)) || negb (validRecordKey (crRKey create)) ||
    negb (recordTypeMatches (crValue create) (crCollection create)) with ErrInvalidRecord ;;
  Ok tt.

Definition create_identity (create : Create_) : string := crCollection create +:+ NUL +:+ crRKey create.
Definition check_create (seen : gset string) (create : Create_) : result (gset string) :=
  let? _ := validateCreate create in
  fail_if bool_decide (create_identity create ∈ seen) with ErrInvalidRecord ;;
  Ok ({[create_identity create]} ∪ seen).

(** The JSON text of a [wireCreate] and of the request. *)
Definition text_member (name text : string) : string := quote name +:+ ":" +:+ text.
Definition text_object (members : list string) : string := "{" +:+ join_with "," members +:+ "}".
Definition create_text (create : Create_) : option string :=
  value ← Compact (crValue create);
  Some (text_object [text_member "$type" (quote createType); text_member "collection" (quote (crCollection create));
    text_member "rkey" (quote (crRKey create)); text_member "value" value]).
Definition batch_text (target : SpacesTarget) (creates : list Create_) : option string :=
  writes ← mapM create_text creates;
  Some (text_object [text_member "space" (quote (otSpaceURI target)); text_member "repo" (quote (otRepoDID target));
    text_member "validate" "true"; text_member "writes" ("[" +:+ join_with "," writes +:+ "]")]).

Definition create_result_fields : list (field wireCreateResult) :=
  [wire_field "$type" decode_string wcType set_wcType; wire_field "uri" decode_string wcURI set_wcURI;
   wire_field "cid" decode_string wcCID set_wcCID;
   wire_field "validationStatus" decode_string wcValidationStatus set_wcValidationStatus].
Definition zero_create_result : wireCreateResult := MkWireCreateResult "" "" "" "".
Definition decode_results : json → backed wireCreateResult → option (backed wireCreateResult) :=
  decode_strict [sole_field "results"
    (nested (decode_array (nested (decode_strict create_result_fields)) zero_create_result))].

(** One receipt against the create at its place. *)
Definition check_receipt (target : SpacesTarget) (results : list CreateResult) (pair : Create_ * wireCreateResult) :
    result (list CreateResult) :=
  let '(create, r) := pair in
  let? expectedURI := or_error (RecordURI (repositoryTarget target) (crCollection create) (crRKey create)) ErrIntegrity in
  fail_if negb (String.eqb (wcType r) createResultType) || negb (String.eqb (wcURI r) expectedURI) ||
    negb (String.eqb (wcValidationStatus r) "valid") with ErrIntegrity ;;
  fail_if negb (validRecordCID (wcCID r)) with ErrIntegrity ;;
  Ok (results ++ [MkCreateResult (wcURI r) (wcCID r)]).

Definition read_receipts (target : SpacesTarget) (creates : list Create_) (body : reader) : result (list CreateResult) :=
  let? output := decodeStrictBounded decode_results (Backed None []) maxJSONResponse body in
  fail_if is_nil (bkVisible output) || negb (llen (elems (bkVisible output)) =? llen creates) with ErrIntegrity ;;
  range (check_receipt target) (combine creates (elems (bkVisible output))) [].

Definition check_upload (raw : string) (body : reader) : result BlobRef :=
  let? blob := decodeStrictBounded (decode_strict [sole_field "blob" (parsed (decode_strict strict_blob_fields))])
    zero_blob maxJSONResponse body in
  fail_if negb (String.eqb (brType blob) "blob") || negb (String.eqb (brMIMEType blob) MessageMIMEType) ||
    negb (brSize blob =? raw_size raw)%Z with ErrIntegrity ;;
  fail_if negb (validBlobCID (brLink blob) raw) with ErrIntegrity ;;
  Ok blob.

End values_.

Section writes.
Context `{Syntax} `{Ipld} `{CaseOrbits} {W : Type} `{Transport W} (c : Client_).

Definition UploadMessageBlob (raw : string) : W → result BlobRef * W :=
  return_if len raw =? 0 with Err ErrInvalidRecord ;;
  return_if MaxRawMessageBytes <? len raw with Err ErrMessageTooLarge ;;
  withWriter c (λ writer,
    exchange c writer "POST" uploadBlobEndpoint None (Some raw) MessageMIMEType "application/json"
      (λ a, returns (check_upload raw (anBody a)))).

Definition CreateBatch (creates : list Create_) : W → result (list CreateResult) * W :=
  return_if (llen creates =? 0) || (maxWrites <? llen creates) with Err ErrInvalidRecord ;;
  call? _ := returns (range check_create creates ∅) in
  call? body := returns (opt_result (batch_text (clTarget c) creates) ErrOther) in
  return_if maxWriteRequest <? len body with Err ErrInvalidRecord ;;
  withWriter c (λ writer,
    exchange c writer "POST" applyWritesEndpoint None (Some body) "application/json" "application/json"
      (λ a, returns (read_receipts (clTarget c) creates (anBody a)))).

End writes.

(** ** Reads *)

Definition set_urURI (r : UnverifiedRecord) (x : string) := MkUnverifiedRecord x (urCollection r) (urRKey r) (urCID r) (urValue r).
Definition set_urCollection (r : UnverifiedRecord) (x : string) := MkUnverifiedRecord (urURI r) x (urRKey r) (urCID r) (urValue r).
Definition set_urRKey (r : UnverifiedRecord) (x : string) := MkUnverifiedRecord (urURI r) (urCollection r) x (urCID r) (urValue r).
Definition set_urCID (r : UnverifiedRecord) (x : string) := MkUnverifiedRecord (urURI r) (urCollection r) (urRKey r) x (urValue r).
Definition set_urValue (r : UnverifiedRecord) (x : option string) :=
  MkUnverifiedRecord (urURI r) (urCollection r) (urRKey r) (urCID r) x.
Definition zero_record : UnverifiedRecord := MkUnverifiedRecord "" "" "" "" None.

(** One page of an inventory: its cursor and its items. *)
Record page (A : Type) : Type := MkPage {
  pgCursor : string;
  pgItems : backed A
}.
Arguments MkPage {A} _ _.
Arguments pgCursor {A} _.
Arguments pgItems {A} _.
Definition set_pgCursor {A} (p : page A) (x : string) : page A := MkPage x (pgItems p).
Definition set_pgItems {A} (p : page A) (x : backed A) : page A := MkPage (pgCursor p) x.

(** The state of a listing: what was seen, the bytes and items so far, and the next query. *)
Record listing (A : Type) : Type := MkListing {
  lsCursors : gset string;
  lsSeen : gset string;
  lsBytes : N;
  lsItems : list A;
  lsQuery : values
}.
Arguments MkListing {A} _ _ _ _ _.
Arguments lsCursors {A} _.
Arguments lsSeen {A} _.
Arguments lsBytes {A} _.
Arguments lsItems {A} _.
Arguments lsQuery {A} _.

(** [for { … }]: a page leads to the next one or ends the listing; the page after the last
    allowed one is an error. *)
Fixpoint paginate {W S} (pages : nat) (one : S → W → result (bool * S) * W) (s : S) : W → result S * W :=
  match pages with
  | O => returns (Err ErrInvalidRecord)
  | Datatypes.S pages' =>
      call? r := one s in
      match r with
      | (true, s') => paginate pages' one s'
      | (false, s') => returns (Ok s')
      end
  end.

Section pages.
Context `{Syntax} `{Ipld} `{CaseOrbits} (target : SpacesTarget).

Definition record_fields_wire : list (field UnverifiedRecord) :=
  [wire_field "uri" decode_string urURI set_urURI; wire_field "cid" decode_string urCID set_urCID;
   mk_field "value" raw_message urValue set_urValue].
Definition item_fields : list (field UnverifiedRecord) :=
  [wire_field "collection" decode_string urCollection set_urCollection; wire_field "rkey" decode_string urRKey set_urRKey;
   wire_field "cid" decode_string urCID set_urCID; mk_field "value" raw_message urValue set_urValue].
Definition decode_records : json → page UnverifiedRecord → option (page UnverifiedRecord) :=
  decode_strict [wire_field "cursor" decode_string pgCursor set_pgCursor;
    mk_field "records" (nested (decode_array (nested (decode_strict item_fields)) zero_record)) pgItems set_pgItems].
Definition decode_cids : json → page string → option (page string) :=
  decode_strict [wire_field "cursor" decode_string pgCursor set_pgCursor;
    mk_field "cids" (nested (decode_array (parsed decode_string) "")) pgItems set_pgItems].

Definition check_record (collection rkey : string) (body : reader) : result UnverifiedRecord :=
  let? output := decodeStrictBounded (decode_strict record_fields_wire) zero_record maxJSONResponse body in
  let expectedURI := default "" (match RecordURI (repositoryTarget target) collection rkey with Ok u => Some u | Err _ => None end) in
  fail_if negb (String.eqb (urURI output) expectedURI) with ErrTarget ;;
  fail_if negb (validRecordCID (urCID output)) || negb (recordTypeMatches (default "" (urValue output)) collection)
    with ErrIntegrity ;;
  Ok (MkUnverifiedRecord (urURI output) collection rkey (urCID output) (urValue output)).

(** [uri, _ := RecordURI(…)]: the empty string when there is none. *)
Definition item_uri (collection rkey : string) : string :=
  match RecordURI (repositoryTarget target) collection rkey with Ok u => u | Err _ => "" end.

Definition add_record (collection : string) (excludeValues : bool) (s : gset string * list UnverifiedRecord)
    (item : UnverifiedRecord) : result (gset string * list UnverifiedRecord) :=
  fail_if negb (allowedCollection (urCollection item)) ||
    (negb (String.eqb collection "") && negb (String.eqb (urCollection item) collection)) ||
    negb (validRecordKey (urRKey item)) || negb (validRecordCID (urCID item)) with ErrIntegrity ;;
  fail_if (if excludeValues then is_some (urValue item)
           else negb (recordTypeMatches (default "" (urValue item)) (urCollection item))) with ErrIntegrity ;;
  let uri := item_uri (urCollection item) (urRKey item) in
  fail_if bool_decide (uri ∈ s.1) with ErrIntegrity ;;
  let records := s.2 ++ [set_urURI item uri] in
  fail_if maxInventoryItems <? llen records with ErrInvalidRecord ;;
  Ok ({[uri]} ∪ s.1, records).

Definition add_cid (s : gset string * list string) (cid : string) : result (gset string * list string) :=
  fail_if negb (validRawCID cid) with ErrIntegrity ;;
  fail_if bool_decide (cid ∈ s.1) with ErrIntegrity ;;
  fail_if maxInventoryItems <? llen (s.2 ++ [cid]) with ErrInvalidRecord ;;
  Ok ({[cid]} ∪ s.1, s.2 ++ [cid]).

(** After the items of a page: the end, or the next query.  [check] compares the cursor with the
    last item. *)
Definition turn_page {A} (s : listing A) (seen : gset string) (items : list A) (bytes : N) (cursor : string)
    (empty : bool) (check : string → result unit) : result (bool * listing A) :=
  if String.eqb cursor "" then Ok (false, MkListing (lsCursors s) seen bytes items (lsQuery s))
  else
    fail_if (maxCursorBytes <? len cursor) || ContainsAny cursor newline_chars || empty with ErrIntegrity ;;
    let? _ := check cursor in
    fail_if bool_decide (cursor ∈ lsCursors s) with ErrIntegrity ;;
    Ok (true, MkListing ({[cursor]} ∪ lsCursors s) seen bytes items (<["cursor" := cursor]> (lsQuery s))).

Definition add_page {A} (add : gset string * list A → A → result (gset string * list A))
    (check : list A → string → result unit) (s : listing A) (out : page A * N) : result (bool * listing A) :=
  let '(output, pageBytes) := out in
  let bytes := lsBytes s + pageBytes in
  fail_if maxInventoryBytes <? bytes with ErrInvalidRecord ;;
  fail_if is_nil (bkVisible (pgItems output)) with ErrIntegrity ;;
  let? (seen, items) := range add (elems (bkVisible (pgItems output))) (lsSeen s, lsItems s) in
  turn_page s seen items bytes (pgCursor output) (llen (elems (bkVisible (pgItems output))) =? 0) (check items).

(** The cursor of a page of records is the URI of the last one. *)
Definition record_cursor (records : list UnverifiedRecord) (cursor : string) : result unit :=
  fail_if negb (String.eqb cursor (urURI (default zero_record (last records)))) with ErrTarget ;; Ok tt.
Definition cid_cursor (cids : list string) (cursor : string) : result unit :=
  fail_if negb (String.eqb cursor (default "" (last cids))) with ErrIntegrity ;; Ok tt.

End pages.

(** [fmt.Sprint] of a bool. *)
Definition Sprint_bool (b : bool) : string := if b then "true" else "false".

Section reads.
Context `{Syntax} `{Ipld} `{CaseOrbits} {W : Type} `{Transport W} (c : Client_).

Definition InspectRecord (collection rkey : string) : W → result UnverifiedRecord * W :=
  return_if negb (allowedCollection collection) || negb (validRecordKey rkey) with Err ErrInvalidRecord ;;
  withReader c (λ credential,
    fetch c credential getRecordEndpoint (<["rkey" := rkey]> (<["collection" := collection]> (targetQuery (clTarget c))))
      "application/json" (λ a, returns (check_record (clTarget c) collection rkey (anBody a)))).

(** One round of a listing. *)
Definition list_page {A} (credential : N) (endpoint : string) (decode : json → page A → option (page A))
    (turn : listing A → page A * N → result (bool * listing A)) (s : listing A) : W → result (bool * listing A) * W :=
  call? out := fetch c credential endpoint (lsQuery s) "application/json"
    (λ a, returns (decodeStrictBoundedCount decode (MkPage "" (Backed None [])) maxJSONResponse (anBody a))) in
  returns (turn s out).

Definition records_query (collection : string) (excludeValues : bool) : values :=
  let query := <["excludeValues" := Sprint_bool excludeValues]> (<["limit" := "1000"]> (targetQuery (clTarget c))) in
  if String.eqb collection "" then query else <["collection" := collection]> query.

Definition InspectRecords (collection : string) (excludeValues : bool) : W → result (list UnverifiedRecord) * W :=
  return_if negb (String.eqb collection "") && negb (allowedCollection collection) with Err ErrInvalidRecord ;;
  withReader c (λ credential,
    call? s := paginate maxInventoryPages
      (list_page credential listRecordsEndpoint decode_records
         (add_page (add_record (clTarget c) collection excludeValues) record_cursor))
      (MkListing ∅ ∅ 0 [] (records_query collection excludeValues)) in
    returns (Ok (lsItems s))).

Definition ListBlobs (since : string) : W → result (list string) * W :=
  return_if negb (String.eqb since "") && negb (ParseTID since) with Err ErrInvalidRecord ;;
  let query := <["limit" := "1000"]> (targetQuery (clTarget c)) in
  let query := if String.eqb since "" then query else <["since" := since]> query in
  withReader c (λ credential,
    call? s := paginate maxInventoryPages
      (list_page credential listBlobsEndpoint decode_cids (add_page add_cid cid_cursor))
      (MkListing ∅ ∅ 0 [] query) in
    returns (Ok (lsItems s))).

(** Models [readMessageBlob] of blob_stream.go. *)
Definition check_blob (blobCID contentType : string) (body : reader) : result string :=
  fail_if negb (media_type_is contentType MessageMIMEType) with ErrIntegrity ;;
  let '(data, failed) := read_limited (MaxRawMessageBytes + 1) body in
  fail_if failed with ErrOther ;;
  fail_if len data =? 0 with ErrIntegrity ;;
  fail_if MaxRawMessageBytes <? len data with ErrMessageTooLarge ;;
  fail_if negb (validBlobCID blobCID data) with ErrIntegrity ;;
  Ok data.
Definition readMessageBlob (credential : N) (blobCID : string) : W → result string * W :=
  fetch c credential getBlobEndpoint (<["cid" := blobCID]> (targetQuery (clTarget c))) MessageMIMEType
    (λ a, returns (check_blob blobCID (anContentType a) (anBody a))).

Definition GetBlob_ (cid : string) : W → result string * W :=
  return_if negb (validRawCID cid) with Err ErrInvalidRecord ;;
  withReader c (λ credential, readMessageBlob credential cid).

Definition decode_commit_text : json → option string → option (option string) :=
  decode_strict [sole_field "commit" raw_message].
Definition check_commit_text (body : reader) : result string :=
  let? output := decodeStrictBounded decode_commit_text None maxCommitBytes body in
  let commit := default "" output in
  fail_if (len commit =? 0) || String.eqb commit "null" || negb (HasPrefix commit "{") with ErrIntegrity ;;
  Ok commit.
Definition GetLatestCommit : W → result string * W :=
  withReader c (λ credential,
    fetch c credential getLatestCommitEndpoint (targetQuery (clTarget c)) "application/json"
      (λ a, returns (check_commit_text (anBody a)))).

(** [io.LimitedReader] of [n] bytes over a body. *)
Definition limited (n : N) (r : reader) : reader :=
  if n <=? len (rdLeft r) then MkReader (substring 0 (N.to_nat n) (rdLeft r)) false else r.

(** The consumer gets the limited reader and leaves what it did not read. *)
Definition StreamRepo (excludeValues : bool) (consume : option (reader → W → result reader * W)) : W → result unit * W :=
  match consume with
  | None => returns (Err ErrInvalidRecord)
  | Some consume =>
      withReader c (λ credential,
        fetch c credential getRepoEndpoint (<["excludeValues" := Sprint_bool excludeValues]> (targetQuery (clTarget c)))
          "application/vnd.ipld.car" (λ a,
            return_if negb (media_type_is (anContentType a) "application/vnd.ipld.car") with Err ErrIntegrity ;;
            let input := limited (maxRepoStreamBytes + 1) (anBody a) in
            call? rest := consume input in
            return_if maxRepoStreamBytes + 1 - (len (rdLeft input) - len (rdLeft rest)) <=? 0 with Err ErrInvalidRecord ;;
            return_if negb (String.eqb (rdLeft rest) "") || rdBroken rest with Err ErrIntegrity ;;
            returns (Ok tt)))
  end.

End reads.

(** ** Every handle is closed *)

Section closing.
Context `{Syntax} `{Ipld} `{CaseOrbits} {W : Type} `{TransportLaws W} (c : Client_).

(** Closing what a response opened restores the handles. *)
Lemma close_response_opens r w w' : opens (response_handle r) w w' → open_handles (close_response r w') = open_handles w.
Proof.
  unfold close_response. destruct (response_handle r) as [h|]; simpl; [|done].
  intros [Hn Ho]. rewrite CloseBody_closes, Ho. set_solver.
Qed.

(** A request leaves exactly the body of the answer it returns open. *)
Lemma request_opens doer method endpoint query body contentType accept w r w' :
  request c doer method endpoint query body contentType accept w = (r, w') →
  match r with Ok a => opens (Some (anHandle a)) w w' | Err _ => open_handles w' = open_handles w end.
Proof.
  unfold request. destruct (url_Parse _) as [target|]; [|by intros [= <- <-]].
  destruct (url_Parse (url_String _)) as [u|]; [|by intros [= <- <-]].
  destruct (Do _ _ _ w) as [[response err] w1] eqn:Ed. apply Do_opens in Ed.
  destruct err as [e|]; [intros [= <- <-]; by apply close_response_opens|].
  destruct response as [re|]; [|by intros [= <- <-]].
  unfold response_handle in Ed. destruct (rsBody re) as [[h b]|] eqn:Eb; [|by intros [= <- <-]].
  destruct (answers re u); intros [= <- <-]; [done|]. apply close_response_opens.
  unfold response_handle. by rewrite Eb.
Qed.

Lemma balanced_exchange {A} doer method endpoint query body contentType accept (use : answer → W → result A * W) :
  (∀ a, balanced (use a)) → balanced (exchange c doer method endpoint query body contentType accept use).
Proof.
  intros Hu w. unfold exchange, call_bind.
  destruct (request _ _ _ _ _ _ _ _ w) as [[a|e] w1] eqn:Er; apply request_opens in Er; [|done].
  apply balanced_opened with (anHandle a); [done| |intros w2; apply CloseBody_closes].
  auto with balance.
Qed.

Lemma balanced_with_credential {A} acquire (operation : N → W → result A * W) :
  (∀ t w d e w', acquire t w = ((d, e), w') → opens d w w') → (∀ d, balanced (operation d)) →
  balanced (with_credential c acquire operation).
Proof.
  intros Ha Ho w. unfold with_credential. destruct (acquire _ w) as [[[d|] err] w1] eqn:E; apply Ha in E.
  - destruct err as [e|].
    + simpl. rewrite CloseDoer_closes. destruct E as [Hn ->]. set_solver.
    + apply balanced_opened with d; [done|apply Ho|intros w2; apply CloseDoer_closes].
  - by destruct err.
Qed.

Lemma balanced_withWriter {A} (operation : N → W → result A * W) :
  (∀ d, balanced (operation d)) → balanced (withWriter c operation).
Proof. apply balanced_with_credential, AcquireWriter_opens. Qed.
Lemma balanced_withReader {A} (operation : N → W → result A * W) :
  (∀ d, balanced (operation d)) → balanced (withReader c operation).
Proof. apply balanced_with_credential, AcquireReader_opens. Qed.

Lemma balanced_paginate {S} pages (one : S → W → result (bool * S) * W) s :
  (∀ s, balanced (one s)) → balanced (paginate pages one s).
Proof.
  intros Ho. revert s. induction pages as [|pages IH]; intros s; cbn [paginate]; [auto with balance|].
  apply balanced_bind; [apply Ho|]. intros [[] s']; auto with balance.
Qed.

End closing.
#[export] Hint Resolve balanced_exchange balanced_withWriter balanced_withReader balanced_paginate : balance.

(** ** An example: a batch of one folder record *)

Definition example_client : Client_ :=
  MkClient "https://pds.example" (MkSpacesTarget "https://pds.example"
    "at://did:web:space.example/space/email.atmos.mailbox/inbox" "did:web:user.example" PinnedEpoch) true.
Definition example_create : Create_ :=
  MkCreate FolderRevisionCollection "k1" (print (JObj [("$type", JStr FolderRevisionCollection)])).
Definition example_cid : string := Eval vm_compute in binary_string (MkCid codec_DagCBOR (sha256 "value")).
Definition example_uri : string := Eval vm_compute in
  match RecordURI (repositoryTarget (clTarget example_client)) FolderRevisionCollection "k1" with Ok u => u | Err _ => "" end.
Definition example_receipt (uri : string) : string :=
  print (JObj [("results", JArr [JObj [("$type", JStr createResultType); ("uri", JStr uri); ("cid", JStr example_cid);
    ("validationStatus", JStr "valid")]])]).

Example batch_accepted :
  let w := start_script [(200, "application/json", example_receipt example_uri, false)]%Z in
  (CreateBatch example_client [example_create] w).1 = Ok [MkCreateResult example_uri example_cid].
Proof. vm_compute. reflexivity. Qed.
Example batch_misplaced :
  let w := start_script [(200, "application/json", example_receipt "at://elsewhere", false)]%Z in
  (CreateBatch example_client [example_create] w).1 = Err ErrIntegrity.
Proof. vm_compute. reflexivity. Qed.
Example batch_exists :
  let w := start_script [(400, "application/json", print (JObj [("error", JStr "RecordAlreadyExists")]), true)]%Z in
  (CreateBatch example_client [example_create] w).1 = Err ErrExists.
Proof. vm_compute. reflexivity. Qed.
