(* ===== verification/Inventory.v ===== *)
(** * What the calls of the Spaces client promise

    The contract of client.go: every handle is closed on every path, a create batch is accepted
    only with a receipt for each record at its place, and a paged listing is the concatenation
    of the pages served, no item twice, which a provider that serves an inventory honestly
    always completes. *)
From S2P Require Import Prelude Sha256 GoStd Syntax Unicode Json Mailbox Repository Canonical Revision Decode.
From S2P Require Import FolderRevision Ipld Car Url SpacesWire Http Client.

(** ** What a listing is *)

Section listings.
Context {A : Type} {W : Type} (fetch_page : values → W → result (page A * N) * W).
Context (name : A → string) (fix_item : A → A) (item_ok : A → bool).
Context (add : gset string * list A → A → result (gset string * list A)) (check : list A → string → result unit).

(** The pages a provider serves from a query on: the items, the cursor and the bytes of each;
    the cursor of a page asks for the next one. *)
Inductive served : values → W → list (list A * string * N) → W → Prop :=
  | served_last q w p n items w' :
      fetch_page q w = (Ok (p, n), w') → pgCursor p = "" → bkVisible (pgItems p) = Some items →
      served q w [(items, "", n)] w'
  | served_more q w p n items cursor w1 pages w' :
      fetch_page q w = (Ok (p, n), w1) → pgCursor p = cursor → cursor ≠ "" → bkVisible (pgItems p) = Some items →
      served (<["cursor" := cursor]> q) w1 pages w' →
      served q w ((items, cursor, n) :: pages) w'.

Definition page_items (pages : list (list A * string * N)) : list A := concat (fst ∘ fst <$> pages).
Definition page_bytes (pages : list (list A * string * N)) : N := fold_right N.add 0 (snd <$> pages).

(** The cursor of a page is the name of its last item. *)
Definition cursor_ok (p : list A * string * N) : Prop :=
  p.1.2 = "" ∨
  len p.1.2 ≤ maxCursorBytes ∧ ContainsAny p.1.2 newline_chars = false ∧ name <$> last p.1.1 = Some p.1.2.

(** A complete inventory: every item valid and named once, within the bounds. *)
Record inventory_ok (pages : list (list A * string * N)) : Prop := {
  iv_items : Forall (λ a, item_ok a = true) (page_items pages);
  iv_names : NoDup (name <$> page_items pages);
  iv_count : llen (page_items pages) ≤ maxInventoryItems;
  iv_bytes : page_bytes pages ≤ maxInventoryBytes;
  iv_cursors : Forall cursor_ok pages
}.

(** One item is added when it is valid, new and within the bound; the cursor is compared with
    the name of the last item. *)
Hypothesis add_spec : ∀ seen items a s', add (seen, items) a = Ok s' ↔
  item_ok a = true ∧ name a ∉ seen ∧ llen items + 1 ≤ maxInventoryItems ∧
  s' = ({[name a]} ∪ seen, items ++ [fix_item a]).
Hypothesis check_spec : ∀ items l cursor,
  l ≠ [] → check (items ++ (fix_item <$> l)) cursor = Ok tt ↔ name <$> last l = Some cursor.

Lemma add_items l seen items s' :
  llen items ≤ maxInventoryItems →
  range add l (seen, items) = Ok s' ↔
  Forall (λ a, item_ok a = true) l ∧ NoDup (name <$> l) ∧ (∀ a, a ∈ l → name a ∉ seen) ∧
  llen items + llen l ≤ maxInventoryItems ∧
  s' = (list_to_set (name <$> l) ∪ seen, items ++ (fix_item <$> l)).
Proof.
  revert seen items. induction l as [|a l IH]; intros seen items Hc; cbn [range].
  { change (llen (@nil A)) with 0. rewrite N.add_0_r. split.
    - intros [= <-]. repeat split; try constructor; [set_solver|done|]. f_equal; [set_solver|by rewrite app_nil_r].
    - intros (_ & _ & _ & _ & ->). rewrite app_nil_r. do 2 f_equal. simpl. set_solver. }
  assert (Hl : llen (a :: l) = 1 + llen l) by (unfold llen; simpl; lia). rewrite Hl. split.
  - destruct (add (seen, items) a) as [s1|] eqn:Ea; [|done]. apply add_spec in Ea as (Ho & Hn & Hb & ->).
    cbn [result_bind]. intros Hr. apply IH in Hr; [|rewrite llen_app; unfold llen at 2; simpl; lia].
    destruct Hr as (Hf & Hd & Hs & Hb' & ->). rewrite llen_app in Hb'. unfold llen at 2 in Hb'. simpl in Hb'.
    repeat split; [by constructor| |set_solver|lia|].
    + cbn. constructor; [|done]. intros (x & Hx & Hin)%list_elem_of_fmap. apply (Hs x Hin). set_solver.
    + f_equal; [set_solver|by rewrite <- app_assoc].
  - intros (Hf & Hd & Hs & Hb & ->). apply Forall_cons in Hf as [Ho Hf]. apply NoDup_cons in Hd as [Hnd Hd].
    assert (Ea : add (seen, items) a = Ok ({[name a]} ∪ seen, items ++ [fix_item a])).
    { apply add_spec. repeat split; [done| |lia]. apply Hs. set_solver. }
    rewrite Ea. cbn [result_bind].
    apply IH; [rewrite llen_app; unfold llen at 2; simpl; lia|].
    repeat split; [done..| | |].
    + intros x Hx [Hx'%elem_of_singleton|Hx']%elem_of_union; [|by apply (Hs x); [set_solver|]].
      apply Hnd. rewrite <- Hx'. by apply list_elem_of_fmap_2.
    + rewrite llen_app. unfold llen at 2. simpl. lia.
    + f_equal; [set_solver|by rewrite <- app_assoc].
Qed.

(** What a page must satisfy after the listing [s], and the listing with the page added. *)
Definition page_fits (s : listing A) (p : list A * string * N) : Prop :=
  lsBytes s + p.2 ≤ maxInventoryBytes ∧ Forall (λ a, item_ok a = true) p.1.1 ∧ NoDup (name <$> p.1.1) ∧
  (∀ a, a ∈ p.1.1 → name a ∉ lsSeen s) ∧ llen (lsItems s) + llen p.1.1 ≤ maxInventoryItems ∧ cursor_ok p.
Definition next_listing (s : listing A) (p : list A * string * N) : listing A :=
  MkListing (if String.eqb p.1.2 "" then lsCursors s else {[p.1.2]} ∪ lsCursors s)
    (list_to_set (name <$> p.1.1) ∪ lsSeen s) (lsBytes s + p.2) (lsItems s ++ (fix_item <$> p.1.1))
    (if String.eqb p.1.2 "" then lsQuery s else <["cursor" := p.1.2]> (lsQuery s)).

(** Every cursor seen is the name of an item seen, so a cursor never comes twice. *)
Definition listing_inv (s : listing A) : Prop :=
  lsCursors s ⊆ lsSeen s ∧ llen (lsItems s) ≤ maxInventoryItems.

Lemma cursor_named p : p.1.2 ≠ "" → cursor_ok p → ∃ a, a ∈ p.1.1 ∧ name a = p.1.2.
Proof.
  intros Hc [?|(_ & _ & Hl)]; [done|]. apply fmap_Some in Hl as (a & Ha & Hn).
  exists a. split; [|done]. apply last_Some in Ha as [l ->]. set_solver.
Qed.

Lemma listing_inv_next s p : listing_inv s → page_fits s p → listing_inv (next_listing s p).
Proof.
  intros [Hc Hn] (_ & _ & _ & _ & Hb & Hk). split; cbn.
  - destruct (String.eqb_spec p.1.2 ""); [set_solver|].
    destruct (cursor_named p) as (a & Ha & <-); [done..|].
    assert (name a ∈ name <$> p.1.1) by by apply list_elem_of_fmap_2. set_solver.
  - rewrite llen_app. unfold llen in *. rewrite length_fmap. lia.
Qed.

(** The end of a page: the cursor is one the listing can go on from. *)
Lemma turn_page_ok s seen items l bytes cursor r :
  (∀ a, a ∈ l → name a ∉ lsCursors s) →
  turn_page s seen (items ++ (fix_item <$> l)) bytes cursor (llen l =? 0) (check (items ++ (fix_item <$> l))) = Ok r ↔
  (∀ n, cursor_ok (l, cursor, n)) ∧
  r = (negb (String.eqb cursor ""),
       MkListing (if String.eqb cursor "" then lsCursors s else {[cursor]} ∪ lsCursors s) seen bytes
         (items ++ (fix_item <$> l)) (if String.eqb cursor "" then lsQuery s else <["cursor" := cursor]> (lsQuery s))).
Proof.
  intros Hnew. unfold turn_page, cursor_ok. cbn [fst snd].
  destruct (String.eqb_spec cursor "") as [->|Hc].
  { split; [intros [= <-]; split; [by intros _; left|done]|by intros [_ ->]]. }
  destruct (maxCursorBytes <? len cursor) eqn:E1; cbn [orb].
  { split; [done|]. intros [H _]. destruct (H 0) as [?|(? & _)]; [done|]. apply N.ltb_lt in E1. lia. }
  destruct (ContainsAny cursor newline_chars) eqn:E2; cbn [orb].
  { split; [done|]. intros [H _]. by destruct (H 0) as [?|(_ & ? & _)]. }
  destruct (decide (l = [])) as [->|Hl].
  { split; [done|]. intros [H _]. by destruct (H 0) as [?|(_ & _ & ?)]. }
  assert ((llen l =? 0) = false) as -> by (destruct l; [done|]; unfold llen; apply N.eqb_neq; simpl; lia).
  destruct (check (items ++ _) cursor) as [[]|e] eqn:Ek; cbn [result_bind].
  - apply check_spec in Ek; [|done]. apply fmap_Some in Ek as Ek'. destruct Ek' as (a & Ha & ->).
    rewrite bool_decide_eq_false_2; [|apply Hnew; apply last_Some in Ha as [l' ->]; set_solver].
    split; [intros [= <-]|by intros [_ ->]]. split; [|done]. intros _. right.
    apply N.ltb_ge in E1. done.
  - split; [done|]. intros [H _]. destruct (H 0) as [?|(_ & _ & Hn)]; [done|].
    by rewrite (proj2 (check_spec items l cursor Hl) Hn) in Ek.
Qed.

Lemma add_page_ok s p n r : listing_inv s →
  add_page add check s (p, n) = Ok r ↔
  ∃ items, bkVisible (pgItems p) = Some items ∧ page_fits s (items, pgCursor p, n) ∧
    r = (negb (String.eqb (pgCursor p) ""), next_listing s (items, pgCursor p, n)).
Proof.
  intros [Hc Hi]. unfold add_page, page_fits, next_listing. cbn [fst snd].
  destruct (maxInventoryBytes <? lsBytes s + n) eqn:Eb.
  { split; [done|]. intros (items & _ & (Hb & _) & _). apply N.ltb_lt in Eb. lia. }
  apply N.ltb_ge in Eb. destruct (bkVisible (pgItems p)) as [items|] eqn:Ev; cbn [is_nil elems default];
    [|split; [done|by intros (items & ? & _)]].
  change (id items) with items.
  destruct (range add items (lsSeen s, lsItems s)) as [s1|e] eqn:Er; cbn [result_bind].
  - apply add_items in Er as (Hf & Hd & Hs & Hb & ->); [|done].
    rewrite turn_page_ok by set_solver. split.
    + intros [Hk ->]. exists items. split_and!; try done.
    + intros (items' & [= <-] & (_ & _ & _ & _ & _ & Hk) & ->). by split.
  - split; [done|]. intros (items' & [= <-] & (_ & Hf & Hd & Hs & Hb & _) & _).
    assert (Hr : range add items (lsSeen s, lsItems s) =
      Ok (list_to_set (name <$> items) ∪ lsSeen s, lsItems s ++ (fix_item <$> items))) by (apply add_items; [done|by split_and!]).
    by rewrite Hr in Er.
Qed.

Lemma add_page_run s p n items : listing_inv s →
  bkVisible (pgItems p) = Some items → page_fits s (items, pgCursor p, n) →
  add_page add check s (p, n) = Ok (negb (String.eqb (pgCursor p) ""), next_listing s (items, pgCursor p, n)).
Proof. intros Hi Hv Hf. apply add_page_ok; [done|]. by exists items. Qed.

(** The pages that may follow the listing [s]. *)
Definition inventory_from (s : listing A) (pages : list (list A * string * N)) : Prop :=
  Forall (λ a, item_ok a = true) (page_items pages) ∧ NoDup (name <$> page_items pages) ∧
  (∀ a, a ∈ page_items pages → name a ∉ lsSeen s) ∧
  llen (lsItems s) + llen (page_items pages) ≤ maxInventoryItems ∧
  lsBytes s + page_bytes pages ≤ maxInventoryBytes ∧ Forall cursor_ok pages.

Lemma inventory_from_cons s p pages :
  inventory_from s (p :: pages) ↔ page_fits s p ∧ inventory_from (next_listing s p) pages.
Proof.
  unfold inventory_from, page_fits, next_listing, page_bytes, page_items. cbn.
  change (concat (p.1.1 :: (fst ∘ fst <$> pages))) with (p.1.1 ++ page_items pages).
  fold (page_items pages). rewrite Forall_app, fmap_app, NoDup_app, Forall_cons, !llen_app.
  replace (llen (fix_item <$> p.1.1)) with (llen p.1.1) by (unfold llen; by rewrite length_fmap).
  split.
  - intros ((Hf1 & Hf2) & (Hd1 & Hx & Hd2) & Hs & Hn & Hb & Hk & Hks).
    split_and!; try done; try lia; [set_solver|].
    intros a Ha [Hin%elem_of_list_to_set|Hin]%elem_of_union; [|by apply (Hs a); [set_solver|]].
    apply (Hx _ Hin). by apply list_elem_of_fmap_2.
  - intros ((Hb1 & Hf1 & Hd1 & Hs1 & Hn1 & Hk1) & Hf2 & Hd2 & Hs2 & Hn2 & Hb2 & Hk2).
    split_and!; try done; try lia.
    + intros x Hx (a & -> & Ha)%list_elem_of_fmap. apply (Hs2 a Ha). set_solver.
    + intros a [Ha|Ha]%elem_of_app; [by apply Hs1|]. specialize (Hs2 a Ha). set_solver.
Qed.

(** A listing is the concatenation of the pages served. *)
Lemma paginate_served (one : listing A → W → result (bool * listing A) * W) :
  (∀ s, one s = call? out := fetch_page (lsQuery s) in returns (add_page add check s out)) →
  ∀ fuel s w s' w', listing_inv s →
  paginate fuel one s w = (Ok s', w') →
  ∃ pages, served (lsQuery s) w pages w' ∧ (length pages <= fuel)%nat ∧ inventory_from s pages ∧
    lsItems s' = lsItems s ++ (fix_item <$> page_items pages).
Proof.
  intros Hone. induction fuel as [|fuel IH]; intros s w s' w' Hi; cbn [paginate]; [done|].
  unfold call_bind at 1. rewrite Hone. unfold call_bind.
  destruct (fetch_page (lsQuery s) w) as [[[p n]|e] w1] eqn:Ef; [|done]. unfold returns at 1.
  destruct (add_page add check s (p, n)) as [r|e] eqn:Ea; [|done].
  apply add_page_ok in Ea as (items & Hv & Hfit & ->); [|done].
  pose proof (listing_inv_next _ _ Hi Hfit) as Hi'.
  destruct (String.eqb_spec (pgCursor p) "") as [Hc|Hc]; cbn [negb].
  - intros [= <- <-]. exists [(items, "", n)]. rewrite Hc in *. split; [by econstructor|]. split; [simpl; lia|].
    split; [|cbn; by rewrite app_nil_r].
    apply inventory_from_cons. split; [done|]. destruct Hi' as [_ Hi']. destruct Hfit as (Hb & _).
    unfold inventory_from. cbn. unfold llen at 2. simpl.
    split_and!; try constructor; try (unfold next_listing in *; cbn in *; lia). set_solver.
  - intros Hp. apply IH in Hp as (pages & Hs & Hl & Hfrom & ->); [|done].
    exists ((items, pgCursor p, n) :: pages). split_and!.
    + econstructor; [done..|]. unfold next_listing in Hs. cbn in Hs.
      by rewrite (proj2 (String.eqb_neq _ _) Hc) in Hs.
    + simpl. lia.
    + by apply inventory_from_cons.
    + unfold page_items. cbn. by rewrite fmap_app, app_assoc.
Qed.

(** And the pages of an inventory are always listed to the end. *)
Lemma paginate_lists (one : listing A → W → result (bool * listing A) * W) :
  (∀ s, one s = call? out := fetch_page (lsQuery s) in returns (add_page add check s out)) →
  ∀ pages fuel s w w', listing_inv s →
  served (lsQuery s) w pages w' → (length pages <= fuel)%nat → inventory_from s pages →
  ∃ s', paginate fuel one s w = (Ok s', w') ∧ lsItems s' = lsItems s ++ (fix_item <$> page_items pages).
Proof.
  intros Hone. induction pages as [|p pages IH]; intros fuel s w w' Hi Hs Hl Hfrom; [inversion Hs|].
  destruct fuel as [|fuel]; [simpl in Hl; lia|]. cbn [paginate]. unfold call_bind at 1. rewrite Hone. unfold call_bind.
  apply inventory_from_cons in Hfrom as [Hfit Hfrom].
  pose proof (listing_inv_next _ _ Hi Hfit) as Hi'.
  inversion Hs as [q w0 out n items w1 Ef Hc Hv|q w0 out n items cursor w1 pages' w2 Ef <- Hc Hv Hs']; subst.
  - rewrite Ef. unfold returns at 1.
    rewrite (add_page_run s out n items) by (rewrite ?Hc; done). rewrite Hc. eexists. split; [done|]. unfold page_items. cbn. by rewrite app_nil_r.
  - rewrite Ef. unfold returns at 1.
    rewrite (add_page_run s out n items) by done.
    rewrite (proj2 (String.eqb_neq _ _) Hc). cbn [negb].
    destruct (IH fuel (next_listing s (items, pgCursor out, n)) w1 w') as (s' & Hp & Hs''); try done; [|simpl in Hl; lia|].
    + unfold next_listing. cbn. by rewrite (proj2 (String.eqb_neq _ _) Hc).
    + exists s'. split; [exact Hp|]. rewrite Hs''. unfold page_items. cbn. by rewrite fmap_app, app_assoc.
Qed.

End listings.

Arguments served {A W} fetch_page _ _ _ _.

(** An inventory from the start. *)
Lemma inventory_from_start {A} (name : A → string) item_ok (q : values) pages :
  inventory_from name item_ok (MkListing ∅ ∅ 0 [] q) pages ↔ inventory_ok name item_ok pages.
Proof.
  unfold inventory_from. cbn. change (llen (@nil A)) with 0. rewrite !N.add_0_l. split.
  - by intros (? & ? & _ & ? & ? & ?).
  - intros []. by split_and!.
Qed.

(** ** Records and blobs *)

Section inventories.
Context `{Syntax} `{Ipld} `{CaseOrbits} {W : Type} `{Transport W} (c : Client_).

Definition serve_records (d : N) (q : values) : W → result (page UnverifiedRecord * N) * W :=
  fetch c d listRecordsEndpoint q "application/json"
    (λ a, returns (decodeStrictBoundedCount decode_records (MkPage "" (Backed None [])) maxJSONResponse (anBody a))).
Definition serve_cids (d : N) (q : values) : W → result (page string * N) * W :=
  fetch c d listBlobsEndpoint q "application/json"
    (λ a, returns (decodeStrictBoundedCount decode_cids (MkPage "" (Backed None [])) maxJSONResponse (anBody a))).

(** The address of a listed record, and what a listed record must be. *)
Definition record_name (r : UnverifiedRecord) : string := item_uri (clTarget c) (urCollection r) (urRKey r).
Definition addressed (r : UnverifiedRecord) : UnverifiedRecord := set_urURI r (record_name r).
Definition record_listed (collection : string) (excludeValues : bool) (r : UnverifiedRecord) : bool :=
  allowedCollection (urCollection r) && (String.eqb collection "" || String.eqb (urCollection r) collection) &&
  validRecordKey (urRKey r) && validRecordCID (urCID r) &&
  (if excludeValues then negb (is_some (urValue r)) else recordTypeMatches (default "" (urValue r)) (urCollection r)).

Lemma add_record_spec collection excludeValues seen items r s' :
  add_record (clTarget c) collection excludeValues (seen, items) r = Ok s' ↔
  record_listed collection excludeValues r = true ∧ record_name r ∉ seen ∧ llen items + 1 ≤ maxInventoryItems ∧
  s' = ({[record_name r]} ∪ seen, items ++ [addressed r]).
Proof.
  unfold add_record, record_listed, addressed. cbn [fst snd]. fold (record_name r).
  rewrite llen_app. change (llen [set_urURI r (record_name r)]) with 1.
  destruct (allowedCollection (urCollection r)), (String.eqb collection ""), (String.eqb (urCollection r) collection),
    (validRecordKey (urRKey r)), (validRecordCID (urCID r)); cbn [negb andb orb]; try by (split; [done|intros [? _]; done]).
  all: destruct excludeValues;
    [destruct (is_some (urValue r))|destruct (recordTypeMatches (default "" (urValue r)) (urCollection r))];
    cbn [negb andb orb]; try by (split; [done|intros [? _]; done]).
  all: destruct (bool_decide_reflect (record_name r ∈ seen)); [split; [done|by intros (_ & ? & _)]|].
  all: destruct (N.ltb_spec maxInventoryItems (llen items + 1)); [split; [done|intros (_ & _ & ? & _); lia]|].
  all: split; [by intros [= <-]|by intros (_ & _ & _ & ->)].
Qed.

Lemma record_cursor_spec items l cursor : l ≠ [] →
  record_cursor (items ++ (addressed <$> l)) cursor = Ok tt ↔ record_name <$> last l = Some cursor.
Proof.
  intros Hl. destruct (last l) as [a|] eqn:Ea; [|by apply last_None in Ea].
  apply last_Some in Ea as [l' ->]. unfold record_cursor.
  rewrite fmap_app, app_assoc. change (addressed <$> [a]) with [addressed a]. rewrite !last_snoc. cbn. destruct (String.eqb_spec cursor (record_name a)) as [->|Hne]; cbn.
  - done.
  - split; [done|]. intros [= E]. by rewrite E in Hne.
Qed.

Lemma add_cid_spec seen items x s' :
  add_cid (seen, items) x = Ok s' ↔
  validRawCID x = true ∧ id x ∉ seen ∧ llen items + 1 ≤ maxInventoryItems ∧ s' = ({[id x]} ∪ seen, items ++ [id x]).
Proof.
  unfold add_cid, id. cbn [fst snd]. rewrite llen_app. change (llen [x]) with 1.
  destruct (validRawCID x); cbn [negb]; [|by split; [|intros [? _]]].
  destruct (bool_decide_reflect (x ∈ seen)); [split; [done|by intros (_ & ? & _)]|].
  destruct (N.ltb_spec maxInventoryItems (llen items + 1)); [split; [done|intros (_ & _ & ? & _); lia]|].
  split; [by intros [= <-]|by intros (_ & _ & _ & ->)].
Qed.

Lemma cid_cursor_spec items l cursor : l ≠ [] →
  cid_cursor (items ++ (id <$> l)) cursor = Ok tt ↔ id <$> last l = Some cursor.
Proof.
  intros Hl. rewrite list_fmap_id. destruct (last l) as [a|] eqn:Ea; [|by apply last_None in Ea].
  apply last_Some in Ea as [l' ->]. unfold cid_cursor. rewrite app_assoc, !last_snoc. cbn.
  destruct (String.eqb_spec cursor a) as [->|Hne]; cbn; [done|]. split; [done|]. intros [= E]. by rewrite E in Hne.
Qed.

(** A scoped read that succeeded. *)
Lemma withReader_ok {A} (operation : N → W → result A * W) w a w' :
  withReader c operation w = (Ok a, w') ↔
  ∃ d w1 w2, AcquireReader (clTarget c) w = ((Some d, None), w1) ∧ operation d w1 = (Ok a, w2) ∧ w' = CloseDoer d w2.
Proof.
  unfold withReader, with_credential, finally.
  destruct (AcquireReader _ w) as [[[d|] [e|]] w1]; try by (split; [done|by intros (? & ? & ? & [=] & _)]).
  split.
  - destruct (operation d w1) as [r w2] eqn:Eo. intros [= -> <-]. by exists d, w1, w2.
  - intros (? & ? & w2 & [= <- <-] & -> & ->). done.
Qed.

End inventories.

(** ** The receipts of a batch *)

Section receipts.
Context `{Syntax} `{Ipld} `{CaseOrbits}.

Definition create_key (create : Create_) : string * string := (crCollection create, crRKey create).

Lemma check_creates_ok creates seen seen' : range check_create creates seen = Ok seen' →
  Forall (λ create, validateCreate create = Ok tt) creates ∧ NoDup (create_key <$> creates) ∧
  ∀ create, create ∈ creates → create_identity create ∉ seen.
Proof.
  revert seen. induction creates as [|create creates IH]; intros seen; cbn [range].
  { intros _. split_and!; [constructor|constructor|]. by intros ? ?%elem_of_nil. }
  unfold check_create at 1. destruct (validateCreate create) as [[]|e] eqn:Ev; cbn [result_bind]; [|done].
  destruct (bool_decide_reflect (create_identity create ∈ seen)); cbn [result_bind]; [done|].
  intros (Hf & Hd & Hs)%IH. split_and!; [by constructor| |].
  - rewrite fmap_cons. constructor; [|done]. intros (x & Hk & Hx)%list_elem_of_fmap.
    apply (Hs x Hx). unfold create_identity. injection Hk as <- <-. set_solver.
  - intros x [->|Hx]%elem_of_cons; [done|]. specialize (Hs x Hx). set_solver.
Qed.

(** A receipt is for a create when it names its address and a record CID. *)
Definition receipt_for (target : SpacesTarget) (create : Create_) (r : CreateResult) : Prop :=
  RecordURI (repositoryTarget target) (crCollection create) (crRKey create) = Ok (cuURI r) ∧ validRecordCID (cuCID r) = true.

Lemma receipts_ok target creates outputs done_ results : length outputs = length creates →
  range (check_receipt target) (combine creates outputs) done_ = Ok results →
  ∃ rs, results = done_ ++ rs ∧ Forall2 (receipt_for target) creates rs.
Proof.
  revert outputs done_. induction creates as [|create creates IH]; intros [|out outputs] done_ Hl; try done; cbn [combine range].
  { intros [= <-]. exists []. by rewrite app_nil_r. }
  unfold check_receipt at 1.
  destruct (RecordURI _ _ _) as [uri|e] eqn:Eu; cbn [or_error result_bind]; [|done].
  destruct (String.eqb (wcType out) createResultType), (String.eqb_spec (wcURI out) uri) as [Hu|],
    (String.eqb (wcValidationStatus out) "valid"); cbn [negb orb result_bind]; try done.
  destruct (validRecordCID (wcCID out)) eqn:Ec; cbn [negb result_bind]; [|done].
  intros (rs & -> & Hrs)%IH; [|by injection Hl]. exists (MkCreateResult (wcURI out) (wcCID out) :: rs).
  split; [by rewrite <- app_assoc|]. constructor; [|done]. by split; [rewrite Hu|].
Qed.

End receipts.

(** ** The contract *)

(** C30. Whatever the provider answers, on every path, errors included, each call of the client
    leaves no credential and no response body open: the handles open after it are those open
    before it.  A stream's consumer must close what it opens itself. *)
Theorem client_closes_handles `{Syntax} `{Ipld} `{CaseOrbits} {W : Type} `{TransportLaws W} (c : Client_) :
  (∀ raw, balanced (UploadMessageBlob c raw)) ∧
  (∀ creates, balanced (CreateBatch c creates)) ∧
  (∀ collection rkey, balanced (InspectRecord c collection rkey)) ∧
  (∀ collection excludeValues, balanced (InspectRecords c collection excludeValues)) ∧
  (∀ since, balanced (ListBlobs c since)) ∧
  (∀ cid, balanced (GetBlob_ c cid)) ∧
  balanced (GetLatestCommit c) ∧
  (∀ excludeValues consume, (∀ r, balanced (consume r)) → balanced (StreamRepo c excludeValues (Some consume))).
Proof.
  repeat split; intros.
  all: unfold UploadMessageBlob, CreateBatch, InspectRecord, InspectRecords, ListBlobs, GetBlob_, GetLatestCommit,
    StreamRepo, list_page, readMessageBlob, fetch; auto 12 with balance.
Qed.

(** A create batch succeeds only when no two of its records share an address, each is a
    record of an allowed collection whose content names that collection, and the provider's
    answer has exactly one receipt per record, in order, for the record's own address. *)
Theorem batch_receipts_match `{Syntax} `{Ipld} `{CaseOrbits} {W : Type} `{Transport W} (c : Client_)
    (creates : list Create_) (w w' : W) (results : list CreateResult)
    (Hb : CreateBatch c creates w = (Ok results, w')) :
  0 < llen creates ≤ maxWrites ∧ NoDup (create_key <$> creates) ∧
  Forall (λ create, validateCreate create = Ok tt) creates ∧
  Forall2 (receipt_for (clTarget c)) creates results.
Proof.
  unfold CreateBatch in Hb. destruct (N.eqb_spec (llen creates) 0); [done|].
  destruct (N.ltb_spec maxWrites (llen creates)); [done|]. cbn [orb] in Hb. split; [lia|].
  unfold call_bind, returns at 1 in Hb. destruct (range check_create creates ∅) as [seen|] eqn:Es; [|done].
  apply check_creates_ok in Es as (Hf & Hd & _). split; [done|]. split; [done|].
  unfold returns at 1 in Hb. destruct (batch_text _ _) as [body|]; [|done]. cbn [opt_result] in Hb.
  destruct (maxWriteRequest <? len body); [done|].
  unfold withWriter, with_credential, finally, exchange, call_bind in Hb.
  destruct (AcquireWriter _ w) as [[[d|] [e|]] w1]; try done.
  destruct (request _ _ _ _ _ _ _ _ w1) as [[a|] w2]; [|done]. unfold finally in Hb.
  destruct (anStatus a =? StatusOK)%Z; [|done]. cbn [negb] in Hb. unfold returns in Hb. injection Hb as Hb _.
  unfold read_receipts in Hb. destruct (decodeStrictBounded _ _ _ _) as [output|]; [|done]. cbn [result_bind] in Hb.
  destruct (is_nil _); [done|]. cbn [orb] in Hb.
  destruct (N.eqb_spec (llen (elems (bkVisible output))) (llen creates)) as [Hl|]; [|done]. cbn [negb] in Hb.
  apply receipts_ok in Hb as (rs & -> & Hrs); [done|]. unfold llen in Hl. lia.
Qed.

Lemma client_closes_handles_witness :
  open_handles (StreamRepo example_client true (Some (λ r, returns (Ok r))) (start_script [])).2 = ∅.
Proof.
  destruct (client_closes_handles (W := script) example_client) as (_ & _ & _ & _ & _ & _ & _ & Hs).
  apply (Hs true (λ r, returns (Ok r))). intros r. apply balanced_returns.
Defined.

Lemma batch_receipts_match_witness :
  Forall2 (receipt_for (clTarget example_client)) [example_create] [MkCreateResult example_uri example_cid].
Proof.
  eapply (batch_receipts_match example_client [example_create]
    (start_script [(200, "application/json", example_receipt example_uri, false)]%Z)).
  vm_compute. reflexivity.
Defined.

(** A listing is what the provider served: on success there is a chain of at most a thousand
    pages, each asked for with the name of the last item of the page before, and the result is
    their concatenation; no item comes twice, each is well formed, and the bounds hold. *)
Theorem listing_is_served `{Syntax} `{Ipld} `{CaseOrbits} {W : Type} `{Transport W} (c : Client_) (w w' : W) :
  (∀ collection excludeValues records, InspectRecords c collection excludeValues w = (Ok records, w') →
     ∃ d w1 w2 pages, served (serve_records c d) (records_query c collection excludeValues) w1 pages w2 ∧
       (length pages <= maxInventoryPages)%nat ∧
       inventory_ok (record_name c) (record_listed collection excludeValues) pages ∧
       records = addressed c <$> page_items pages) ∧
  (∀ since cids, ListBlobs c since w = (Ok cids, w') →
     ∃ d q w1 w2 pages, served (serve_cids c d) q w1 pages w2 ∧ (length pages <= maxInventoryPages)%nat ∧
       inventory_ok id validRawCID pages ∧ cids = page_items pages).
Proof.
  split.
  - intros collection excludeValues records. unfold InspectRecords. destruct (_ && _); [done|].
    intros (d & w1 & w2 & _ & Hp & _)%withReader_ok. unfold call_bind in Hp.
    destruct (paginate _ _ _ w1) as [[s|] w3] eqn:E; [|done]. injection Hp as <- <-.
    apply (paginate_served (serve_records c d) _ _ _ _ _ (add_record_spec c collection excludeValues)
      (record_cursor_spec c)) in E as (pages & Hs & Hl & Hi & Hr); [|done|by split].
    exists d, w1, w3, pages. split_and!; [exact Hs|done| |exact Hr]. by apply inventory_from_start in Hi.
  - intros since cids. unfold ListBlobs. destruct (_ && _); [done|].
    intros (d & w1 & w2 & _ & Hp & _)%withReader_ok. unfold call_bind in Hp.
    destruct (paginate _ _ _ w1) as [[s|] w3] eqn:E; [|done]. injection Hp as <- <-.
    apply (paginate_served (serve_cids c d) _ _ _ _ _ add_cid_spec cid_cursor_spec)
      in E as (pages & Hs & Hl & Hi & Hr); [|done|by split].
    eexists d, _, w1, w3, pages. split_and!; [exact Hs|done| |by rewrite list_fmap_id in Hr].
    by apply inventory_from_start in Hi.
Qed.

(** A provider that serves an inventory honestly is always listed to the end: pages that
    chain by their cursors, hold well-formed items without a repetition and stay within the
    bounds are all returned. *)
Theorem listing_completes `{Syntax} `{Ipld} `{CaseOrbits} {W : Type} `{Transport W} (c : Client_) (w w1 w2 : W) (d : N)
    (Hd : AcquireReader (clTarget c) w = ((Some d, None), w1)) :
  (∀ collection excludeValues pages, String.eqb collection "" || allowedCollection collection = true →
     served (serve_records c d) (records_query c collection excludeValues) w1 pages w2 →
     (length pages <= maxInventoryPages)%nat →
     inventory_ok (record_name c) (record_listed collection excludeValues) pages →
     InspectRecords c collection excludeValues w = (Ok (addressed c <$> page_items pages), CloseDoer d w2)) ∧
  (∀ pages, served (serve_cids c d) (<["limit" := "1000"]> (targetQuery (clTarget c))) w1 pages w2 →
     (length pages <= maxInventoryPages)%nat → inventory_ok id validRawCID pages →
     ListBlobs c "" w = (Ok (page_items pages), CloseDoer d w2)).
Proof.
  split.
  - intros collection excludeValues pages Hc Hs Hl Hi. unfold InspectRecords.
    rewrite <- negb_orb, Hc. cbn [negb]. apply withReader_ok. exists d, w1, w2. split_and!; [done| |done].
    apply (inventory_from_start _ _ (records_query c collection excludeValues)) in Hi.
    edestruct (paginate_lists (serve_records c d) _ _ _ _ _ (add_record_spec c collection excludeValues)
      (record_cursor_spec c) (list_page c d listRecordsEndpoint decode_records
        (add_page (add_record (clTarget c) collection excludeValues) record_cursor)) (λ _, eq_refl) pages maxInventoryPages
      (MkListing ∅ ∅ 0 [] (records_query c collection excludeValues))) as (s & Hp & Hr);
      [by split|exact Hs|exact Hl|exact Hi|].
    unfold call_bind. rewrite Hp. unfold returns. by rewrite Hr.
  - intros pages Hs Hl Hi. unfold ListBlobs. cbn [String.eqb negb andb].
    apply withReader_ok. exists d, w1, w2. split_and!; [done| |done].
    apply (inventory_from_start _ _ (<["limit" := "1000"]> (targetQuery (clTarget c)))) in Hi.
    edestruct (paginate_lists (serve_cids c d) _ _ _ _ _ add_cid_spec cid_cursor_spec
      (list_page c d listBlobsEndpoint decode_cids (add_page add_cid cid_cursor)) (λ _, eq_refl) pages maxInventoryPages
      (MkListing ∅ ∅ 0 [] (<["limit" := "1000"]> (targetQuery (clTarget c))))) as (s & Hp & Hr);
      [by split|exact Hs|exact Hl|exact Hi|].
    unfold call_bind. rewrite Hp. unfold returns. by rewrite Hr, list_fmap_id.
Qed.

(** Two pages of two blobs. *)
Definition example_blob (data : string) : string := binary_string (MkCid codec_Raw (sha256 data)).
Definition example_blobs : list string := Eval vm_compute in [example_blob "a"; example_blob "b"; example_blob "c"].
Definition blob_page (cursor : string) (cids : list string) : Z * string * string * bool :=
  (200%Z, "application/json", print (JObj (omit_if (String.eqb cursor "") "cursor" (JStr cursor) ++ [("cids", json_strings cids)])), false).
Definition blobs_script : script := Eval vm_compute in
  start_script [blob_page (default "" (example_blobs !! 1%nat)) (take 2 example_blobs); blob_page "" (drop 2 example_blobs)].
Definition blobs_opened : script := Eval vm_compute in (AcquireReader (clTarget example_client) blobs_script).2.

Definition blob_pages : list (list string * string * N) := Eval vm_compute in
  [(take 2 example_blobs, default "" (example_blobs !! 1%nat), len (blob_page (default "" (example_blobs !! 1%nat)) (take 2 example_blobs)).1.2);
   (drop 2 example_blobs, "", len (blob_page "" (drop 2 example_blobs)).1.2)].

Lemma example_listing : (ListBlobs example_client "" blobs_script).1 = Ok example_blobs.
Proof. vm_compute. reflexivity. Qed.

Lemma listing_is_served_witness : NoDup example_blobs.
Proof.
  destruct (ListBlobs example_client "" blobs_script) as [r w'] eqn:E.
  pose proof example_listing as Hr. rewrite E in Hr. cbn [fst] in Hr. subst r.
  destruct (proj2 (listing_is_served example_client blobs_script w') _ _ E) as (d & q & w1 & w2 & pages & _ & _ & Hi & ->).
  destruct Hi as [_ Hn _ _ _]. by rewrite list_fmap_id in Hn.
Defined.

(** What is left of the script after its two pages. *)
Definition blobs_end : script :=
  let q := <["limit" := "1000"]> (targetQuery (clTarget example_client)) in
  let w := (serve_cids example_client 1 q blobs_opened).2 in
  (serve_cids example_client 1 (<["cursor" := default "" (example_blobs !! 1%nat)]> q) w).2.

Lemma example_served :
  served (serve_cids example_client 1) (<["limit" := "1000"]> (targetQuery (clTarget example_client))) blobs_opened
    blob_pages blobs_end.
Proof.
  eapply served_more; [vm_compute; reflexivity|reflexivity|done|reflexivity|].
  eapply served_last; [vm_compute; reflexivity|reflexivity|reflexivity].
Qed.

Lemma example_reader : AcquireReader (clTarget example_client) blobs_script = ((Some 1, None), blobs_opened).
Proof. vm_compute. reflexivity. Qed.

Lemma listing_completes_witness :
  ListBlobs example_client "" blobs_script = (Ok example_blobs, CloseDoer 1 blobs_end).
Proof.
  apply (proj2 (listing_completes example_client blobs_script blobs_opened blobs_end 1 example_reader) blob_pages).
  - exact example_served.
  - apply le_S_n, Nat.lt_le_incl. vm_compute. lia.
  - split; [repeat constructor|apply (bool_decide_unpack _); vm_compute; exact I|done|done|].
    constructor; [right; by vm_compute|]. constructor; [by left|constructor].
Defined.
