(* ===== verification/Base64.v ===== *)
(** * encoding/base64

    The standard alphabet without padding ([RawStdEncoding]), as snapshot.go reads bytes in JSON.
    Like Go's decoder, [RawStdDecode] skips carriage returns and line feeds and ignores the
    unused bits of the last character. *)
From S2P Require Import Prelude Sha256 GoStd.

Definition b64_alphabet : string := "ABCDEFGHIJKLMNOPQRSTUVWXYZabcdefghijklmnopqrstuvwxyz0123456789+/".
Definition b64_char (n : N) : ascii := default "A"%char (String.get (N.to_nat n) b64_alphabet).
Definition b64_value (c : ascii) : option N :=
  let n := N_of_ascii c in
  if in_range 65 90 c then Some (n - 65)
  else if in_range 97 122 c then Some (n - 71)
  else if in_range 48 57 c then Some (n + 4)
  else if n =? 43 then Some 62 else if n =? 47 then Some 63 else None.

Fixpoint RawStdEncode (s : string) : string :=
  match s with
  | EmptyString => ""
  | String a EmptyString =>
      let a := N_of_ascii a in String (b64_char (a / 4)) (String (b64_char (a mod 4 * 16)) "")
  | String a (String b EmptyString) =>
      let a := N_of_ascii a in let b := N_of_ascii b in
      String (b64_char (a / 4)) (String (b64_char (a mod 4 * 16 + b / 16)) (String (b64_char (b mod 16 * 4)) ""))
  | String a (String b (String c s')) =>
      let a := N_of_ascii a in let b := N_of_ascii b in let c := N_of_ascii c in
      String (b64_char (a / 4)) (String (b64_char (a mod 4 * 16 + b / 16))
        (String (b64_char (b mod 16 * 4 + c / 64)) (String (b64_char (c mod 64)) (RawStdEncode s'))))
  end.

Definition b64_byte1 (u v : N) : ascii := ascii_of_N (u * 4 + v / 16).
Definition b64_byte2 (v w : N) : ascii := ascii_of_N (v mod 16 * 16 + w / 4).
Definition b64_byte3 (w x : N) : ascii := ascii_of_N (w mod 4 * 64 + x).

Fixpoint decode_quads (s : string) : option string :=
  match s with
  | EmptyString => Some ""
  | String p (String q EmptyString) =>
      u ← b64_value p; v ← b64_value q; Some (String (b64_byte1 u v) "")
  | String p (String q (String r EmptyString)) =>
      u ← b64_value p; v ← b64_value q; w ← b64_value r; Some (String (b64_byte1 u v) (String (b64_byte2 v w) ""))
  | String p (String q (String r (String t s'))) =>
      u ← b64_value p; v ← b64_value q; w ← b64_value r; x ← b64_value t;
      rest ← decode_quads s';
      Some (String (b64_byte1 u v) (String (b64_byte2 v w) (String (b64_byte3 w x) rest)))
  | String _ EmptyString => None
  end.
Fixpoint strip_newlines (s : string) : string :=
  match s with
  | EmptyString => ""
  | String c s' => if (N_of_ascii c =? 13) || (N_of_ascii c =? 10) then strip_newlines s' else String c (strip_newlines s')
  end.
Definition RawStdDecode (s : string) : option string := decode_quads (strip_newlines s).

Lemma b64_value_char n : n < 64 → b64_value (b64_char n) = Some n ∧ strip_newlines (String (b64_char n) "") = String (b64_char n) "".
Proof.
  intros Hn. rewrite <- (N2Nat.id n). assert (N.to_nat n < 64)%nat as Hm by lia.
  generalize (N.to_nat n), Hm. clear. intros n Hn. do 64 (destruct n as [|n]; [done|]). lia.
Qed.
Lemma strip_char n s : n < 64 → strip_newlines (String (b64_char n) s) = String (b64_char n) (strip_newlines s).
Proof. intros [_ H]%b64_value_char. cbn in *. destruct (_ || _); [done|done]. Qed.

Lemma ascii_bound c : N_of_ascii c < 256.
Proof. apply N_ascii_bounded. Qed.
(** A byte is put together again from the parts that were taken out of it. *)
Lemma byte_again c x : x = N_of_ascii c → ascii_of_N x = c.
Proof. intros ->. apply ascii_N_embedding. Qed.

Ltac b64_bounds :=
  repeat match goal with c : ascii |- _ =>
    lazymatch goal with H : N_of_ascii c < 256 |- _ => fail | _ => pose proof (ascii_bound c) end end;
  dlia.

Lemma RawStd_round_trip s : RawStdDecode (RawStdEncode s) = Some s.
Proof.
  unfold RawStdDecode. assert (Hl : (String.length s < S (String.length s))%nat) by lia. revert Hl.
  generalize (S (String.length s)). intros n. revert s.
  induction n as [|n IH]; intros s Hl; [lia|].
  destruct s as [|a [|b [|c s]]]; [done| | |]; cbn [RawStdEncode].
  - rewrite !strip_char by b64_bounds. cbn [strip_newlines decode_quads].
    rewrite !(fun m H => proj1 (b64_value_char m H)) by b64_bounds. cbn. unfold b64_byte1.
    do 2 f_equal. apply byte_again. b64_bounds.
  - rewrite !strip_char by b64_bounds. cbn [strip_newlines decode_quads].
    rewrite !(fun m H => proj1 (b64_value_char m H)) by b64_bounds. cbn. unfold b64_byte1, b64_byte2.
    rewrite !byte_again with (c := a) by b64_bounds. rewrite !byte_again with (c := b) by b64_bounds. done.
  - rewrite !strip_char by b64_bounds. cbn [decode_quads].
    rewrite !(fun m H => proj1 (b64_value_char m H)) by b64_bounds. cbn [mbind option_bind].
    rewrite IH by (simpl in Hl; lia). cbn [mbind option_bind]. unfold b64_byte1, b64_byte2, b64_byte3.
    rewrite !byte_again with (c := a) by b64_bounds. rewrite !byte_again with (c := b) by b64_bounds.
    rewrite !byte_again with (c := c) by b64_bounds. done.
Qed.

Example b64_text : RawStdEncode "Man!" = "TWFuIQ" ∧ RawStdDecode ("TWFu" +:+ byte 10 +:+ "IR") = Some "Man!" ∧ RawStdDecode "T" = None.
Proof. repeat split. Qed.
