(* ===== verification/Snapshot.v ===== *)
(** * Source-authenticated repository snapshots

    Models src/internal/providers/officialspaces/snapshot.go, from the bytes of a repository
    export to the sealed capability: canonical DAG-CBOR, the signed commit with its MAC and
    signature, the index with its homomorphic set hash, the verification of the whole CAR
    stream, and [SourceAuthenticatedRepository] with its accessors and seal.

    The signing-key resolver and the signature scheme are the operations of the class
    [RepoKeys], the extensible output of BLAKE3 is the class [Blake3]: neither is part of this
    repository.  A resolver call may depend on and change the world. *)
From S2P Require Import Prelude Sha256 GoStd Syntax Unicode Json Mailbox Repository Canonical FolderRevision Ipld Car Url SpacesWire.

Definition commitVersion : Z := 1.
Definition commitContextDomain : string := "atproto-space-v1".
Definition ltHashStateBytes : N := 2048.
Definition maxCARHeaderBytes : N := 64 * 1024.
Definition maxCommitBlockBytes : N := 64 * 1024.
Definition maxIndexBlockBytes : N := 64 * 1024 * 1024.
Definition maxRecordBlockBytes : N := 1 * 1024 * 1024.
Definition maxRetainedRecordBytes : N := 64 * 1024 * 1024.
Definition maxRepoRecords : N := 100000.

Class Blake3 : Type := { blake3_xof : string → string }.

Class RepoKeys (W : Type) : Type := {
  pubkey : Type;
  (** [ResolveRepoSource]: the PDS endpoint of the repository and its signing key, if any. *)
  ResolveRepoSource : string → bool → W → result (string * option pubkey) * W;
  HashAndVerify : pubkey → string → string → bool
}.

(** ** HMAC-SHA256 *)

Fixpoint xor_pad (pad : N) (s : string) : string :=
  match s with
  | EmptyString => EmptyString
  | String c s' => String (ascii_of_N (N.lxor (N_of_ascii c) pad)) (xor_pad pad s')
  end.
Definition zeros (n : N) : string := of_byte_values (repeat 0 (N.to_nat n)).
Definition hmac_key (key : string) : string :=
  let k := if 64 <? len key then sha256 key else key in k +:+ zeros (64 - len k).
Definition hmac_sha256 (key msg : string) : string :=
  sha256 (xor_pad 0x5c (hmac_key key) +:+ sha256 (xor_pad 0x36 (hmac_key key) +:+ msg)).

(** ** Commits *)

Record signedRepoCommit : Type := MkCommit_ {
  scVersion : Z;
  scHash : string;
  scIKM : string;
  scSignature : string;
  scMAC : string;
  scRevision : string
}.

(** [binary.BigEndian.AppendUint16] keeps the low sixteen bits. *)
Definition uint16_be (n : N) : string := of_byte_values (be_bytes 2 (n mod 65536)).
Definition context_field (field : string) : string := uint16_be (len field) +:+ field.
Definition commitContext (space author revision ikm : string) : string :=
  commitContextDomain +:+ context_field space +:+ context_field author +:+ context_field revision +:+
  context_field ikm.
Definition computeCommitMAC (ikm contextBytes hash : string) : string :=
  hmac_sha256 (hmac_sha256 ikm (contextBytes +:+ byte 1)) hash.

Definition sameRepoState (l r : signedRepoCommit) : bool :=
  (scVersion l =? scVersion r)%Z && String.eqb (scRevision l) (scRevision r) && String.eqb (scHash l) (scHash r).

Section commits.
Context `{Syntax} `{CaseOrbits} {W : Type} `{RepoKeys W}.

Definition verifyCommitConsistency (commit : signedRepoCommit) (target : SpacesTarget) : W → result unit * W :=
  return_if negb (scVersion commit =? commitVersion)%Z || negb (len (scHash commit) =? 32) ||
    negb (len (scIKM commit) =? 32) || negb (len (scMAC commit) =? 32) || negb (len (scSignature commit) =? 64)
    with Err ErrSnapshotVerification ;;
  return_if negb (ParseTID (scRevision commit)) with Err ErrSnapshotVerification ;;
  return_if negb (is_some (ParseDID (otRepoDID target))) || negb (String.eqb (otEpoch target) PinnedEpoch) ||
    String.eqb (otSpaceURI target) "" || (0xffff <? len (otSpaceURI target)) ||
    (0xffff <? len (otRepoDID target)) || (0xffff <? len (scRevision commit)) with Err ErrSnapshotVerification ;;
  let contextBytes := commitContext (otSpaceURI target) (otRepoDID target) (scRevision commit) (scIKM commit) in
  return_if negb (String.eqb (computeCommitMAC (scIKM commit) contextBytes (scHash commit)) (scMAC commit))
    with Err ErrSnapshotVerification ;;
  call? resolved := attempt (ResolveRepoSource (default "" (ParseDID (otRepoDID target))) true) in
  match resolved with
  | Ok (repoHost, Some key) =>
      return_if negb (bool_decide (cleanOrigin repoHost true = Ok (otOrigin target)))
        with Err ErrSnapshotVerification ;;
      return_if negb (HashAndVerify key contextBytes (scSignature commit)) with Err ErrSnapshotVerification ;;
      returns (Ok tt)
  | _ => returns (Err ErrSnapshotVerification)
  end.

End commits.

(** ** The set hash *)

Fixpoint add_words (state expanded : string) : string :=
  match state, expanded with
  | String a (String b state'), String c (String d expanded') =>
      let current := N_of_ascii a + 256 * N_of_ascii b in
      let addition := N_of_ascii c + 256 * N_of_ascii d in
      let sum := (current + addition) mod 65536 in
      String (ascii_of_N (sum mod 256)) (String (ascii_of_N (sum / 256)) (add_words state' expanded'))
  | _, _ => state
  end.
Definition newLtHash : string := zeros ltHashStateBytes.
Definition ltHash_add `{Blake3} (state element : string) : string := add_words state (blake3_xof element).
Definition ltHash_digest (state : string) : string := sha256 state.
Definition ltHashDigest `{Blake3} (elements : list string) : string :=
  ltHash_digest (fold_left ltHash_add elements newLtHash).

(** ** Canonical blocks *)

Section blocks.
Context `{Syntax} `{Ipld} `{Blake3}.

Fixpoint validLexNode (n : node cid) : bool :=
  match n with
  | NMap l => forallb (λ kv, validLexNode kv.2) l
  | NList l => forallb validLexNode l
  | NFloat _ => false
  | _ => true
  end.

Definition decodeCanonicalDAGCBOR (encoded : string) : result (node cid) :=
  let? _ := preflightCBORStructure encoded maxCBORNestingDepth maxCBORDataItems in
  let? n := opt_result (dagcbor_Decode encoded) ErrOther in
  fail_if negb (validLexNode n) with ErrSnapshotVerification ;;
  fail_if negb (bool_decide (dagcbor_Encode n = Some encoded)) with ErrSnapshotVerification ;;
  Ok n.

(** The keys of a map, each exactly once among the expected ones. *)
Definition exactMapKeys (l : list (string * node cid)) (expected : list string) : bool :=
  bool_decide (fold_left (λ want kv, match want with
      | Some want => if bool_decide (kv.1 ∈ want) then Some (want ∖ {[kv.1]}) else None
      | None => None
      end) l (Some (list_to_set expected : gset string)) = Some ∅).

Definition nodeCID (n : node cid) : option cid := match n with NLink c => Some c | _ => None end.

(** The version is one and the roots are two links to DAG-CBOR blocks. *)
Definition parseCARHeader (encoded : string) : result (cid * cid) :=
  let? n := or_error (decodeCanonicalDAGCBOR encoded) ErrSnapshotVerification in
  match n with
  | NMap l =>
      fail_if negb (llen l =? 2) || negb (exactMapKeys l ["roots"; "version"]) with ErrSnapshotVerification ;;
      match lookup_key l "version" with
      | Some version => fail_if negb (bool_decide (AsInt version = Some 1%Z)) with ErrSnapshotVerification ;;
          match lookup_key l "roots" with
          | Some (NList [first; second]) =>
              match nodeCID first, nodeCID second with
              | Some commitCID, Some indexCID =>
                  fail_if negb (validDAGCBORCID commitCID) || negb (validDAGCBORCID indexCID)
                    with ErrSnapshotVerification ;;
                  Ok (commitCID, indexCID)
              | _, _ => Err ErrSnapshotVerification
              end
          | _ => Err ErrSnapshotVerification
          end
      | None => Err ErrSnapshotVerification
      end
  | _ => Err ErrSnapshotVerification
  end.

Definition field_bytes (l : list (string * node cid)) (name : string) : result string :=
  opt_result (match lookup_key l name with Some v => AsBytes v | None => None end) ErrSnapshotVerification.

Definition parseSignedCommit (encoded : string) : result signedRepoCommit :=
  let? n := or_error (decodeCanonicalDAGCBOR encoded) ErrSnapshotVerification in
  match n with
  | NMap l =>
      fail_if negb (llen l =? 6) || negb (exactMapKeys l ["ver"; "hash"; "ikm"; "sig"; "mac"; "rev"])
        with ErrSnapshotVerification ;;
      let? version := opt_result (match lookup_key l "ver" with Some v => AsInt v | None => None end)
                        ErrSnapshotVerification in
      let? hash := field_bytes l "hash" in
      let? ikm := field_bytes l "ikm" in
      let? sig := field_bytes l "sig" in
      let? mac := field_bytes l "mac" in
      let? revision := opt_result (match lookup_key l "rev" with Some v => AsString v | None => None end)
                         ErrSnapshotVerification in
      Ok (MkCommit_ version hash ikm sig mac revision)
  | _ => Err ErrSnapshotVerification
  end.

Definition parseRecordPath (path : string) : option (string * string) :=
  match Cut path "/" with
  | Some (collection, rkey) =>
      if String.eqb collection "" || String.eqb rkey "" || has_byte "/" rkey ||
         negb (ParseNSID collection) || negb (ParseRecordKey rkey) then None
      else Some (collection, rkey)
  | None => None
  end.

Record indexedRecord : Type := MkIndexed {
  ixCollection : string;
  ixRKey : string;
  ixCID : cid;
  ixValue : string
}.
Definition indexed_path (e : indexedRecord) : string := ixCollection e +:+ "/" +:+ ixRKey e.

Definition index_entry (s : list indexedRecord * string) (kv : string * node cid) :
    result (list indexedRecord * string) :=
  match parseRecordPath kv.1, nodeCID kv.2 with
  | Some (collection, rkey), Some recordCID =>
      fail_if negb (allowedCollection collection) || negb (validDAGCBORCID recordCID) with ErrSnapshotVerification ;;
      Ok (s.1 ++ [MkIndexed collection rkey recordCID ""],
          ltHash_add s.2 (kv.1 +:+ "/" +:+ cid_String recordCID))
  | _, _ => Err ErrSnapshotVerification
  end.

Definition parseRepoIndex (encoded : string) : result (list indexedRecord * string) :=
  let? n := or_error (decodeCanonicalDAGCBOR encoded) ErrSnapshotVerification in
  match n with
  | NMap l =>
      fail_if maxRepoRecords <? llen l with ErrSnapshotVerification ;;
      let? (entries, setHash) := range index_entry l ([], newLtHash) in
      Ok (entries, ltHash_digest setHash)
  | _ => Err ErrSnapshotVerification
  end.

Definition recordTypeMatchesNode (n : node cid) (collection : string) : bool :=
  match n with
  | NMap l => match lookup_key l "$type" with
              | Some t => bool_decide (AsString t = Some collection)
              | None => false
              end
  | _ => false
  end.

(** ** The whole stream *)

Record verifiedCAR : Type := MkVerifiedCAR {
  vcCommit : signedRepoCommit;
  vcCommitCID : cid;
  vcIndexCID : cid;
  vcRecords : list indexedRecord
}.

(** The records read so far, their bytes, the reader and the context. *)
Record car_state : Type := MkCarState {
  csRecords : list indexedRecord;
  csRetained : N;
  csReader : reader;
  csContext : context
}.

Definition car_record (s : car_state) (entry : indexedRecord) : result car_state :=
  let? ctx := poll (csContext s) in
  let? (block, r) := or_error (readCARBlock maxRecordBlockBytes (csReader s)) ErrSnapshotVerification in
  let '(blockCID, value) := block in
  fail_if negb (bool_decide (blockCID = ixCID entry)) with ErrSnapshotVerification ;;
  let? n := or_error (decodeCanonicalDAGCBOR value) ErrSnapshotVerification in
  fail_if negb (recordTypeMatchesNode n (ixCollection entry)) with ErrSnapshotVerification ;;
  let retained := csRetained s + len value in
  fail_if maxRetainedRecordBytes <? retained with ErrSnapshotVerification ;;
  Ok (MkCarState (csRecords s ++ [MkIndexed (ixCollection entry) (ixRKey entry) (ixCID entry) value])
        retained r ctx).

(** [errors.Is(err, io.EOF)] of one more read. *)
Definition stream_ends (r : reader) : bool :=
  match readCARSection maxRecordBlockBytes r with Err ErrEOF => true | _ => false end.

(** The signed commit and the reader behind it. *)
Definition read_commit (input : reader) : result (signedRepoCommit * cid * cid * reader) :=
  let? (headerBytes, r) := or_error (readCARSection maxCARHeaderBytes input) ErrSnapshotVerification in
  let? (commitRoot, indexRoot) := parseCARHeader headerBytes in
  let? (block, r) := or_error (readCARBlock maxCommitBlockBytes r) ErrSnapshotVerification in
  let '(commitCID, commitBytes) := block in
  fail_if negb (bool_decide (commitCID = commitRoot)) with ErrSnapshotVerification ;;
  let? commit := parseSignedCommit commitBytes in
  Ok (commit, commitCID, indexRoot, r).

(** The index, the records and the end of the stream. *)
Definition read_contents (ctx : context) (commit : signedRepoCommit) (commitCID indexRoot : cid) (r : reader) :
    result verifiedCAR :=
  let? (block, r) := or_error (readCARBlock maxIndexBlockBytes r) ErrSnapshotVerification in
  let '(indexCID, indexBytes) := block in
  fail_if negb (bool_decide (indexCID = indexRoot)) with ErrSnapshotVerification ;;
  let? (entries, setHash) := parseRepoIndex indexBytes in
  fail_if negb (String.eqb setHash (scHash commit)) with ErrSnapshotVerification ;;
  let? s := range car_record entries (MkCarState [] 0 r ctx) in
  fail_if negb (stream_ends (csReader s)) with ErrSnapshotVerification ;;
  Ok (MkVerifiedCAR commit commitCID indexCID (csRecords s)).

Context `{CaseOrbits} {W : Type} `{RepoKeys W}.

Definition verifyFullSourceCAR (ctx : context) (input : reader) (target : SpacesTarget) : W → result verifiedCAR * W :=
  call? read := returns (read_commit input) in
  let '(commit, commitCID, indexRoot, r) := read in
  call? _ := verifyCommitConsistency commit target in
  returns (read_contents ctx commit commitCID indexRoot r).

End blocks.

(** ** The sealed capability *)

Record SourceRecord : Type := MkSourceRecord {
  soCollection : string;
  soRKey : string;
  soCID : string;
  soValue : string
}.
#[export] Instance SourceRecord_eq_dec : EqDecision SourceRecord.
Proof. solve_decision. Defined.

Record SourceAuthenticatedRepository : Type := MkSourceRepository {
  saTarget : SpacesTarget;
  saRevision : string;
  saSnapshotID : string;
  saCommitCID : string;
  saIndexCID : string;
  saRepoHash : string;
  saRecords : list SourceRecord;
  saSeal : string
}.

Definition uint64_be (n : N) : string := of_byte_values (be_bytes 8 (u64 n)).
(** [writeSnapshotField], and the same layout for bytes. *)
Definition snapshot_field (value : string) : string := uint64_be (len value) +:+ value.
Definition concat_fields (l : list string) : string := concat_map snapshot_field l.
Definition record_fields (r : SourceRecord) : string :=
  concat_fields [soCollection r; soRKey r; soCID r; soValue r].

Definition source_seal_preimage (r : SourceAuthenticatedRepository) : string :=
  concat_fields ["comail-official-source-snapshot-v1"; otOrigin (saTarget r); otSpaceURI (saTarget r);
    otRepoDID (saTarget r); otEpoch (saTarget r); saRevision r; saSnapshotID r; saCommitCID r; saIndexCID r;
    saRepoHash r] +:+
  uint64_be (llen (saRecords r)) +:+ concat_map record_fields (saRecords r).
Definition source_snapshotSeal (r : SourceAuthenticatedRepository) : string := sha256 (source_seal_preimage r).

Definition source_valid (r : SourceAuthenticatedRepository) : bool :=
  negb (String.eqb (saSnapshotID r) "") && negb (String.eqb (saCommitCID r) "") &&
  negb (String.eqb (saIndexCID r) "") && (len (saRepoHash r) =? 32) &&
  String.eqb (otEpoch (saTarget r)) PinnedEpoch && String.eqb (saSeal r) (source_snapshotSeal r).

(** The accessors answer for a valid value only; a nil pointer is [None]. *)
Definition guarded {A} (r : option SourceAuthenticatedRepository) (zero : A)
    (get : SourceAuthenticatedRepository → A) : A :=
  match r with Some r => if source_valid r then get r else zero | None => zero end.
Definition source_Target (r : option SourceAuthenticatedRepository) : SpacesTarget := guarded r zero_spaces_target saTarget.
Definition source_Revision (r : option SourceAuthenticatedRepository) : string := guarded r "" saRevision.
Definition source_SnapshotID (r : option SourceAuthenticatedRepository) : string := guarded r "" saSnapshotID.
Definition source_CommitCID (r : option SourceAuthenticatedRepository) : string := guarded r "" saCommitCID.
Definition source_IndexCID (r : option SourceAuthenticatedRepository) : string := guarded r "" saIndexCID.
Definition source_Records (r : option SourceAuthenticatedRepository) : list SourceRecord := guarded r [] saRecords.
Definition source_ValidateSeal (r : option SourceAuthenticatedRepository) : result unit :=
  guarded r (Err ErrSnapshotVerification) (λ _, Ok tt).

Definition matchesCommit (r : SourceAuthenticatedRepository) (commit : signedRepoCommit) : bool :=
  (scVersion commit =? commitVersion)%Z && String.eqb (scRevision commit) (saRevision r) &&
  (len (saRepoHash r) =? 32) && String.eqb (scHash commit) (saRepoHash r).

Section capability.
Context `{Ipld}.

Definition snapshot_preimage (target : SpacesTarget) (snapshot : verifiedCAR) : string :=
  concat_fields ["comail-official-source-root-v1"; otOrigin target; otSpaceURI target; otRepoDID target;
    otEpoch target; scRevision (vcCommit snapshot); cid_String (vcCommitCID snapshot); cid_String (vcIndexCID snapshot)].
Definition sourceSnapshotID (target : SpacesTarget) (snapshot : verifiedCAR) : string :=
  "sha256-" +:+ hex_encode (sha256 (snapshot_preimage target snapshot)).

Definition source_record (e : indexedRecord) : SourceRecord :=
  MkSourceRecord (ixCollection e) (ixRKey e) (cid_String (ixCID e)) (ixValue e).

Definition seal_source (r : SourceAuthenticatedRepository) : SourceAuthenticatedRepository :=
  MkSourceRepository (saTarget r) (saRevision r) (saSnapshotID r) (saCommitCID r) (saIndexCID r)
    (saRepoHash r) (saRecords r) (source_snapshotSeal r).

(** The capability for a verified stream, sealed. *)
Definition source_of_car (target : SpacesTarget) (car : verifiedCAR) : SourceAuthenticatedRepository :=
  seal_source (MkSourceRepository target (scRevision (vcCommit car)) (sourceSnapshotID target car)
    (cid_String (vcCommitCID car)) (cid_String (vcIndexCID car)) (scHash (vcCommit car))
    (List.map source_record (vcRecords car)) "").

End capability.

(** ** Fixed-width lengths *)

Lemma be_bytes_cons n x : be_bytes (S n) x = N.land (N.shiftr x (8 * N.of_nat n)) 255 :: be_bytes n x.
Proof. unfold be_bytes. rewrite List.seq_S, rev_app_distr. done. Qed.

Lemma be_bytes_at n x y i :
  be_bytes n x = be_bytes n y → (i < n)%nat →
  N.land (N.shiftr x (8 * N.of_nat i)) 255 = N.land (N.shiftr y (8 * N.of_nat i)) 255.
Proof.
  induction n as [|n IH]; intros Hb Hi; [lia|]. rewrite !be_bytes_cons in Hb. injection Hb as Hh Ht.
  destruct (decide (i = n)) as [->|]; [done|]. apply IH; [done|lia].
Qed.

Lemma be_bytes_inj n x y :
  x < 2 ^ (8 * N.of_nat n) → y < 2 ^ (8 * N.of_nat n) → be_bytes n x = be_bytes n y → x = y.
Proof.
  intros Hx Hy Hb. apply N.bits_inj. intros m.
  destruct (N.lt_ge_cases m (8 * N.of_nat n)) as [Hm|Hm].
  - pose proof (N.mod_lt m 8 ltac:(lia)) as Hr. pose proof (N.Div0.div_mod m 8) as Hd.
    pose proof (be_bytes_at n x y (N.to_nat (m / 8)) Hb ltac:(dlia)) as Hi. rewrite N2Nat.id in Hi.
    apply (f_equal (λ z, N.testbit z (m mod 8))) in Hi. change 255 with (N.ones 8) in Hi.
    rewrite !N.land_spec, !N.shiftr_spec', !N.ones_spec_low, !andb_true_r in Hi by done.
    by replace (m mod 8 + 8 * (m / 8)) with m in Hi by lia.
  - assert (Hz : ∀ z, z < 2 ^ (8 * N.of_nat n) → N.testbit z m = false).
    { intros z Hz. destruct (N.eq_dec z 0) as [->|Hne]; [apply N.bits_0|].
      apply N.bits_above_log2. apply N.log2_lt_pow2 in Hz; lia. }
    by rewrite !Hz.
Qed.

Lemma of_byte_values_inj l k :
  Forall (λ b, b < 256) l → Forall (λ b, b < 256) k → of_byte_values l = of_byte_values k → l = k.
Proof.
  intros Hl. revert k. induction Hl as [|b l Hb _ IH]; intros [|c k] Hk E; try done.
  apply Forall_cons in Hk as [Hc Hk]. cbn [of_byte_values] in E. injection E as E1 E2.
  f_equal; [|by apply IH]. by rewrite <- (N_ascii_embedding b), <- (N_ascii_embedding c), E1.
Qed.

Lemma be_bytes_small n x : Forall (λ b, b < 256) (be_bytes n x).
Proof.
  induction n as [|n IH]; [constructor|]. rewrite be_bytes_cons. constructor; [|done].
  change 255 with (N.ones 8). rewrite N.land_ones. by apply N.mod_lt.
Qed.
Lemma length_be_bytes n x : List.length (be_bytes n x) = n.
Proof. unfold be_bytes. by rewrite length_map, length_rev, length_seq. Qed.

Lemma width_prefix_free n m : m = 2 ^ (8 * N.of_nat n) →
  PrefixFree (λ x, x < m) (λ x, of_byte_values (be_bytes n (x mod m))).
Proof.
  intros -> x y s t Hx Hy E. rewrite !N.mod_small in E by done.
  apply app_inj_len in E as [E Hs]; [|by rewrite !len_of_byte_values; unfold llen; rewrite !length_be_bytes].
  apply of_byte_values_inj in E; [|apply be_bytes_small..]. by apply be_bytes_inj in E.
Qed.
#[export] Instance uint16_prefix_free : PrefixFree (λ x, x < 65536) uint16_be.
Proof. by apply (width_prefix_free 2). Qed.
#[export] Instance uint64_prefix_free : PrefixFree (λ x, x < 2 ^ 64) uint64_be.
Proof. by apply (width_prefix_free 8). Qed.

#[export] Instance context_field_prefix_free : PrefixFree (λ v, len v < 65536) context_field.
Proof.
  intros x y s t Hx Hy E. unfold context_field in E. rewrite !app_assoc_s in E.
  apply (prefix_free (enc := uint16_be)) in E as [El E]; [|done..]. by apply app_inj_len.
Qed.
#[export] Instance snapshot_field_prefix_free : PrefixFree (λ v, len v < 2 ^ 64) snapshot_field.
Proof.
  intros x y s t Hx Hy E. unfold snapshot_field in E. rewrite !app_assoc_s in E.
  apply (prefix_free (enc := uint64_be)) in E as [El E]; [|done..]. by apply app_inj_len.
Qed.

Lemma commitContext_inj s1 a1 r1 i1 s2 a2 r2 i2 :
  Forall (λ v, len v < 65536) [s1; a1; r1; i1; s2; a2; r2; i2] →
  commitContext s1 a1 r1 i1 = commitContext s2 a2 r2 i2 → s1 = s2 ∧ a1 = a2 ∧ r1 = r2 ∧ i1 = i2.
Proof.
  intros Hl E. repeat match goal with F : Forall _ (_ :: _) |- _ => apply Forall_cons in F as [? F] end.
  unfold commitContext in E. apply app_inj_r in E.
  do 3 (apply (prefix_free (enc := context_field)) in E as [-> E]; [|done..]).
  rewrite <- (app_nil_r_s (context_field i1)), <- (app_nil_r_s (context_field i2)) in E.
  by apply (prefix_free (enc := context_field)) in E as [-> _].
Qed.

(** ** The set hash is a function of the set *)

Lemma add_words_cons a b st c d x :
  add_words (String a (String b st)) (String c (String d x)) =
  let sum := (N_of_ascii a + 256 * N_of_ascii b + (N_of_ascii c + 256 * N_of_ascii d)) mod 65536 in
  String (ascii_of_N (sum mod 256)) (String (ascii_of_N (sum / 256)) (add_words st x)).
Proof. done. Qed.

Lemma word_bytes sum : sum < 65536 →
  N_of_ascii (ascii_of_N (sum mod 256)) + 256 * N_of_ascii (ascii_of_N (sum / 256)) = sum.
Proof. intros Hs. rewrite !N_ascii_embedding by dlia. dlia. Qed.

Lemma add_words_comm : ∀ st x y, add_words (add_words st x) y = add_words (add_words st y) x.
Proof.
  fix IH 1. intros [|a [|b st]] x y; [reflexivity|reflexivity|].
  destruct x as [|c [|d x]]; [destruct y as [|e [|f y]]; reflexivity..|].
  destruct y as [|e [|f y]]; [reflexivity|reflexivity|].
  rewrite !add_words_cons. cbv zeta.
  rewrite !word_bytes by (apply N.mod_lt; done). rewrite (IH st x y), !N.Div0.add_mod_idemp_l.
  generalize (N_of_ascii a + 256 * N_of_ascii b), (N_of_ascii c + 256 * N_of_ascii d),
    (N_of_ascii e + 256 * N_of_ascii f). intros p q r. by rewrite <- !N.add_assoc, (N.add_comm q r).
Qed.

Lemma fold_left_perm {A B} (f : B → A → B) l k :
  (∀ b x y, f (f b x) y = f (f b y) x) → l ≡ₚ k → ∀ b, fold_left f l b = fold_left f k b.
Proof.
  intros Hf Hp. induction Hp as [|x l k _ IH|x y l|l k m _ IH1 _ IH2]; intros b; simpl; [done|by rewrite IH| |].
  - by rewrite Hf.
  - by rewrite IH1.
Qed.

Lemma ltHashDigest_perm `{Blake3} l k : l ≡ₚ k → ltHashDigest l = ltHashDigest k.
Proof.
  intros Hp. unfold ltHashDigest. f_equal. apply fold_left_perm; [|done]. intros b x y. apply add_words_comm.
Qed.

(** ** What a verified stream guarantees *)

Section verified.
Context `{Syntax} `{IpldLaws} `{Blake3}.

Definition index_element (e : indexedRecord) : string := indexed_path e +:+ "/" +:+ cid_String (ixCID e).

(** What the index guarantees of an entry. *)
Definition entry_ok (e : indexedRecord) : Prop :=
  allowedCollection (ixCollection e) = true ∧ ParseRecordKey (ixRKey e) = true ∧
  validDAGCBORCID (ixCID e) = true.

(** What the stream guarantees of a record. *)
Definition record_ok (e : indexedRecord) : Prop :=
  cid_Digest (ixCID e) = Some (sha256 (ixValue e)) ∧ 1 ≤ len (ixValue e) ≤ maxRecordBlockBytes ∧
  ∃ n, decodeCanonicalDAGCBOR (ixValue e) = Ok n ∧ recordTypeMatchesNode n (ixCollection e) = true.

Lemma index_entry_ok s kv s' :
  index_entry s kv = Ok s' →
  ∃ e, s' = (s.1 ++ [e], ltHash_add s.2 (index_element e)) ∧ indexed_path e = kv.1 ∧ entry_ok e.
Proof.
  unfold index_entry, parseRecordPath. destruct kv as [path n]. cbn [fst snd].
  destruct (Cut path "/") as [[collection rkey]|] eqn:Ec; [|done]. apply Cut_spec in Ec as [-> _].
  destruct (String.eqb collection "" || _ || _ || _ || _) eqn:Eb; [done|]. bools.
  destruct (nodeCID n) as [c|]; [|done]. intros Hs. result_steps. bools.
  by exists (MkIndexed collection rkey c "").
Qed.

Lemma index_entries_ok l s s' :
  range index_entry l s = Ok s' →
  ∃ es, s' = (s.1 ++ es, fold_left ltHash_add (List.map index_element es) s.2) ∧
    List.map indexed_path es = l.*1 ∧ Forall entry_ok es.
Proof.
  revert s. induction l as [|kv l IH]; intros s Hr; cbn [range] in Hr.
  - injection Hr as <-. exists []. rewrite app_nil_r. by destruct s.
  - destruct (index_entry s kv) as [s1|] eqn:E; [|done]. cbn [result_bind] in Hr.
    apply index_entry_ok in E as (e & -> & Hp & He). apply IH in Hr as (es & -> & Hps & Hes).
    exists (e :: es). cbn [fst snd List.map fold_left]. rewrite <- app_assoc. split; [done|].
    split; [|by constructor]. cbn [fmap list_fmap]. by rewrite Hp, Hps.
Qed.

Lemma parseRepoIndex_ok encoded entries hash :
  parseRepoIndex encoded = Ok (entries, hash) →
  NoDup (List.map indexed_path entries) ∧ Forall entry_ok entries ∧ llen entries ≤ maxRepoRecords ∧
  hash = ltHashDigest (List.map index_element entries).
Proof.
  unfold parseRepoIndex. intros Hp.
  destruct (decodeCanonicalDAGCBOR encoded) as [n|] eqn:En; [|done]. cbn [or_error result_bind] in Hp.
  destruct n as [| | | | | | |l|]; try done. destruct (maxRepoRecords <? llen l) eqn:El; [done|].
  destruct (range index_entry l _) as [[es h]|] eqn:Er; [|done]. injection Hp as -> <-.
  apply index_entries_ok in Er as (es & [= -> ->] & Hps & Hes). bools.
  assert (Hnd : NoDup l.*1).
  { unfold decodeCanonicalDAGCBOR in En. result_steps. by eapply dagcbor_Decode_keys. }
  split; [by rewrite Hps|]. split; [done|]. split; [|done].
  apply (f_equal (@List.length _)) in Hps. rewrite length_map, length_fmap in Hps. unfold llen in *. by rewrite Hps.
Qed.

(** The record an index entry became. *)
Definition filled (e r : indexedRecord) : Prop :=
  ixCollection r = ixCollection e ∧ ixRKey r = ixRKey e ∧ ixCID r = ixCID e ∧ record_ok r.

Lemma car_record_ok s e s' :
  car_record s e = Ok s' →
  ∃ r, csRecords s' = csRecords s ++ [r] ∧ filled e r ∧
    csRetained s' = csRetained s + len (ixValue r) ∧ csRetained s' ≤ maxRetainedRecordBytes.
Proof.
  unfold car_record. intros Hs. destruct (poll _) as [ctx|]; [|done]. cbn [result_bind] in Hs.
  destruct (readCARBlock _ _) as [[[c value] r]|] eqn:Eb; [|done]. cbn [or_error result_bind] in Hs.
  apply readCARBlock_inv in Eb as (_ & Hd & Hl & _).
  destruct (bool_decide (c = ixCID e)) eqn:Ec; [|done]. apply bool_decide_eq_true_1 in Ec as ->. cbn [negb] in Hs.
  destruct (decodeCanonicalDAGCBOR value) as [n|] eqn:En; [|done]. cbn [or_error result_bind] in Hs.
  destruct (recordTypeMatchesNode n _) eqn:Et; [|done]. cbn [negb] in Hs.
  destruct (maxRetainedRecordBytes <? _) eqn:Em; [done|]. injection Hs as <-. bools.
  exists (MkIndexed (ixCollection e) (ixRKey e) (ixCID e) value). split; [done|].
  split; [|done]. split_and!; try done. split; [done|]. split; [done|]. by exists n.
Qed.

Lemma car_records_ok es s s' :
  range car_record es s = Ok s' → csRetained s ≤ maxRetainedRecordBytes →
  ∃ rs, csRecords s' = csRecords s ++ rs ∧ Forall2 filled es rs ∧
    csRetained s' = csRetained s + fold_right (λ r n, len (ixValue r) + n) 0 rs ∧
    csRetained s' ≤ maxRetainedRecordBytes.
Proof.
  revert s. induction es as [|e es IH]; intros s Hr Hm; cbn [range] in Hr.
  - injection Hr as <-. exists []. rewrite app_nil_r. split; [done|]. split; [constructor|]. simpl. split; [lia|done].
  - destruct (car_record s e) as [s1|] eqn:E; [|done]. cbn [result_bind] in Hr.
    apply car_record_ok in E as (r & Er & Hf & Ht & Hm1). apply IH in Hr as (rs & Hrs & Hfs & Hts & Hm2); [|done].
    exists (r :: rs). rewrite Hrs, Er, <- app_assoc. split; [done|]. split; [by constructor|].
    split; [|done]. rewrite Hts, Ht. simpl. lia.
Qed.

Lemma filled_elements es rs : Forall2 filled es rs →
  List.map index_element rs = List.map index_element es ∧ List.map indexed_path rs = List.map indexed_path es.
Proof.
  induction 1 as [|e r es rs (Hc & Hk & Hi & _) _ [IH1 IH2]]; [done|]. cbn [List.map]. rewrite IH1, IH2.
  unfold index_element, indexed_path. by rewrite Hc, Hk, Hi.
Qed.
End verified.

Section stream.
Context `{Syntax} `{IpldLaws} `{Blake3} `{CaseOrbits} {W : Type} `{RepoKeys W}.

Lemma read_contents_ok ctx commit commitCID indexRoot r car :
  read_contents ctx commit commitCID indexRoot r = Ok car →
  vcCommit car = commit ∧ vcCommitCID car = commitCID ∧ vcIndexCID car = indexRoot ∧
  scHash commit = ltHashDigest (List.map index_element (vcRecords car)) ∧
  NoDup (List.map indexed_path (vcRecords car)) ∧
  Forall (λ e, entry_ok e ∧ record_ok e) (vcRecords car) ∧
  llen (vcRecords car) ≤ maxRepoRecords ∧
  fold_right (λ r n, len (ixValue r) + n) 0 (vcRecords car) ≤ maxRetainedRecordBytes.
Proof.
  unfold read_contents. intros Hr.
  destruct (readCARBlock _ r) as [[[indexCID indexBytes] r1]|] eqn:Eb; [|done]. cbn [or_error result_bind] in Hr.
  destruct (bool_decide (indexCID = indexRoot)) eqn:Ei; [|done]. bools. subst indexCID. cbn [negb] in Hr.
  destruct (parseRepoIndex indexBytes) as [[entries setHash]|] eqn:Ep; [|done]. cbn [result_bind] in Hr.
  apply parseRepoIndex_ok in Ep as (Hnd & He & Hl & ->).
  destruct (String.eqb _ (scHash commit)) eqn:Eh; [|done]. bools. cbn [negb] in Hr.
  destruct (range car_record entries _) as [s|] eqn:Es; [|done]. cbn [result_bind] in Hr.
  destruct (stream_ends _); [|done]. cbn [negb] in Hr. injection Hr as <-.
  apply car_records_ok in Es as (rs & Hrs & Hf & Ht & Hm); [|done]. cbn [csRecords csRetained app] in *.
  cbn [vcCommit vcCommitCID vcIndexCID vcRecords]. rewrite Hrs.
  pose proof (filled_elements _ _ Hf) as [Hel Hpa]. rewrite Hel, Hpa.
  do 3 (split; [done|]). split; [done|]. split; [done|]. split; [|split; [|lia]].
  - clear -He Hf. induction Hf as [|e x es rs (Hc & Hk & Hi & Hr) _ IH]; [constructor|].
    apply Forall_cons in He as [He Hes]. constructor; [|by apply IH]. split; [|done].
    unfold entry_ok in *. by rewrite Hc, Hk, Hi.
  - apply Forall2_length in Hf. unfold llen in *. by rewrite <- Hf.
Qed.

Lemma verifyFullSourceCAR_ok ctx input target w car w' :
  verifyFullSourceCAR ctx input target w = (Ok car, w') →
  ∃ commitCID indexRoot r,
    read_commit input = Ok (vcCommit car, commitCID, indexRoot, r) ∧
    verifyCommitConsistency (vcCommit car) target w = (Ok tt, w') ∧
    read_contents ctx (vcCommit car) commitCID indexRoot r = Ok car.
Proof.
  unfold verifyFullSourceCAR, call_bind, returns.
  destruct (read_commit input) as [[[[commit commitCID] indexRoot] r]|] eqn:Er; [|done].
  destruct (verifyCommitConsistency commit target w) as [[[]|] w1] eqn:Ev; [|done].
  intros [= Hc <-]. pose proof (read_contents_ok _ _ _ _ _ _ Hc) as (Hcommit & _).
  exists commitCID, indexRoot, r. by rewrite Hcommit.
Qed.

(** The conditions on a commit that need no resolver. *)
Definition commit_fits (commit : signedRepoCommit) (target : SpacesTarget) : Prop :=
  scVersion commit = commitVersion ∧ len (scHash commit) = 32 ∧ len (scIKM commit) = 32 ∧
  len (scMAC commit) = 32 ∧ len (scSignature commit) = 64 ∧ ParseTID (scRevision commit) = true ∧
  is_some (ParseDID (otRepoDID target)) = true ∧ otEpoch target = PinnedEpoch ∧ otSpaceURI target ≠ "" ∧
  len (otSpaceURI target) < 65536 ∧ len (otRepoDID target) < 65536 ∧ len (scRevision commit) < 65536.
Definition signed_context (commit : signedRepoCommit) (target : SpacesTarget) : string :=
  commitContext (otSpaceURI target) (otRepoDID target) (scRevision commit) (scIKM commit).

Lemma verifyCommitConsistency_ok commit target w w' :
  verifyCommitConsistency commit target w = (Ok tt, w') →
  commit_fits commit target ∧
  computeCommitMAC (scIKM commit) (signed_context commit target) (scHash commit) = scMAC commit ∧
  ∃ repoHost key, ResolveRepoSource (default "" (ParseDID (otRepoDID target))) true w = (Ok (repoHost, Some key), w') ∧
    cleanOrigin repoHost true = Ok (otOrigin target) ∧
    HashAndVerify key (signed_context commit target) (scSignature commit) = true.
Proof.
  unfold verifyCommitConsistency, call_bind, attempt, returns. intros Hv.
  repeat (case_match; try done); simplify_eq; bools.
  repeat match goal with E : (_ =? _)%Z = true |- _ => apply Z.eqb_eq in E end.
  split; [|split; [done|]].
  - unfold commit_fits. split_and!; done || lia.
  - by eexists _, _.
Qed.

End stream.

(** ** The seal determines the value *)

Definition source_fields (r : SourceAuthenticatedRepository) : list string :=
  ["comail-official-source-snapshot-v1"; otOrigin (saTarget r); otSpaceURI (saTarget r);
    otRepoDID (saTarget r); otEpoch (saTarget r); saRevision r; saSnapshotID r; saCommitCID r; saIndexCID r;
    saRepoHash r].
(** Lengths a machine can hold. *)
Definition fits64 (v : string) : Prop := len v < 2 ^ 64.
Definition source_record_fits (r : SourceRecord) : Prop :=
  Forall fits64 [soCollection r; soRKey r; soCID r; soValue r].
Definition source_fits (r : SourceAuthenticatedRepository) : Prop :=
  Forall fits64 (source_fields r) ∧ llen (saRecords r) < 2 ^ 64 ∧ Forall source_record_fits (saRecords r).

Lemma fields_inj l k s t :
  List.length l = List.length k → Forall fits64 l → Forall fits64 k →
  concat_fields l +:+ s = concat_fields k +:+ t → l = k ∧ s = t.
Proof. intros Hl Fl Fk. by apply (concat_map_inj fits64 snapshot_field). Qed.

#[export] Instance record_fields_prefix_free : PrefixFree source_record_fits record_fields.
Proof.
  intros [c1 k1 i1 v1] [c2 k2 i2 v2] s t H1 H2 E. apply fields_inj in E as [E ->]; [|done..].
  by injection E as -> -> -> ->.
Qed.

Lemma source_seal_inj r1 r2 :
  source_fits r1 → source_fits r2 → source_seal_preimage r1 = source_seal_preimage r2 → saSeal r1 = saSeal r2 → r1 = r2.
Proof.
  intros (F1 & N1 & R1) (F2 & N2 & R2) E Hs. unfold source_seal_preimage in E.
  apply (fields_inj (source_fields r1) (source_fields r2)) in E as [Ef E]; [|done..].
  apply (prefix_free (enc := uint64_be)) in E as [En E]; [|done..].
  rewrite <- (app_nil_r_s (concat_map _ (saRecords r1))), <- (app_nil_r_s (concat_map _ (saRecords r2))) in E.
  apply (concat_map_inj source_record_fits record_fields) in E as [Er _]; [|unfold llen in En; lia|done..].
  destruct r1 as [[o1 u1 d1 e1] ? ? ? ? ? ? ?], r2 as [[o2 u2 d2 e2] ? ? ? ? ? ? ?].
  unfold source_fields in Ef. cbn in Ef, Er, Hs. by simplify_eq.
Qed.

Lemma ValidateSeal_ok r : source_ValidateSeal (Some r) = Ok tt → saSeal r = sha256 (source_seal_preimage r).
Proof.
  unfold source_ValidateSeal, guarded. destruct (source_valid r) eqn:E; [|done]. intros _.
  unfold source_valid in E. by bools.
Qed.

(** ** Properties *)

(** The repository hash is a hash of a set: the order in which the index lists its entries
    does not change it. *)
Theorem set_hash_order_independent `{Blake3} (l k : list string) (Hp : l ≡ₚ k) :
  ltHashDigest l = ltHashDigest k.
Proof. by apply ltHashDigest_perm. Qed.

(** A commit is accepted only for the repository it was signed for: its MAC is the one its
    fields determine, the repository's declared key has signed a context under the declared
    PDS, and that context determines space, repository, revision and input key material, so it
    is the context of no other target or commit that fits. *)
Theorem commit_signature_binds `{Syntax} `{CaseOrbits} {W : Type} `{RepoKeys W} (commit : signedRepoCommit)
    (target : SpacesTarget) (w w' : W) (Hv : verifyCommitConsistency commit target w = (Ok tt, w')) :
  scMAC commit = computeCommitMAC (scIKM commit) (signed_context commit target) (scHash commit) ∧
  (∃ repoHost key, ResolveRepoSource (default "" (ParseDID (otRepoDID target))) true w = (Ok (repoHost, Some key), w') ∧
     cleanOrigin repoHost true = Ok (otOrigin target) ∧
     HashAndVerify key (signed_context commit target) (scSignature commit) = true) ∧
  ∀ commit' target', commit_fits commit' target' → signed_context commit' target' = signed_context commit target →
    otSpaceURI target' = otSpaceURI target ∧ otRepoDID target' = otRepoDID target ∧
    scRevision commit' = scRevision commit ∧ scIKM commit' = scIKM commit.
Proof.
  apply verifyCommitConsistency_ok in Hv as (Hf & Hm & Hk). split; [done|]. split; [done|].
  intros commit' target' Hf' E. unfold commit_fits in *.
  destruct Hf as (? & ? & ? & ? & ? & ? & ? & ? & ? & ? & ? & ?), Hf' as (? & ? & ? & ? & ? & ? & ? & ? & ? & ? & ? & ?).
  unfold signed_context in E. apply commitContext_inj in E; [exact E|]. do 8 (apply Forall_cons_2; [lia|]). apply Forall_nil_2.
Qed.

(** C29. A repository export is accepted only whole and only as committed: the commit passes its
    own checks, the set hash of the records' paths and CIDs, in any order, is the committed
    hash, no path occurs twice, every record is in an allowed collection under a valid key, its
    bytes have the digest its CID names and are canonical data of its collection, and the
    number and the total size of the records are within the limits. *)
Theorem verified_car_sound `{Syntax} `{IpldLaws} `{Blake3} `{CaseOrbits} {W : Type} `{RepoKeys W} (ctx : context)
    (input : reader) (target : SpacesTarget) (w w' : W) (car : verifiedCAR)
    (Hv : verifyFullSourceCAR ctx input target w = (Ok car, w')) :
  verifyCommitConsistency (vcCommit car) target w = (Ok tt, w') ∧
  (∀ elements, elements ≡ₚ List.map index_element (vcRecords car) →
     scHash (vcCommit car) = ltHashDigest elements) ∧
  NoDup (List.map indexed_path (vcRecords car)) ∧
  Forall (λ e, entry_ok e ∧ record_ok e) (vcRecords car) ∧
  llen (vcRecords car) ≤ maxRepoRecords ∧
  fold_right (λ r n, len (ixValue r) + n) 0 (vcRecords car) ≤ maxRetainedRecordBytes.
Proof.
  apply verifyFullSourceCAR_ok in Hv as (commitCID & indexRoot & r & _ & Hc & Hr).
  apply read_contents_ok in Hr as (_ & _ & _ & Hh & Hrest). split; [done|]. split; [|done].
  intros elements Hp. rewrite Hh. symmetry. by apply ltHashDigest_perm.
Qed.

(** The capability cannot be altered unnoticed: two values that both pass [ValidateSeal]
    with the same seal are equal, or their contents are an explicit SHA-256 collision. *)
Theorem source_seal_binds (r1 r2 : SourceAuthenticatedRepository) (F1 : source_fits r1) (F2 : source_fits r2)
    (V1 : source_ValidateSeal (Some r1) = Ok tt) (V2 : source_ValidateSeal (Some r2) = Ok tt)
    (E : saSeal r1 = saSeal r2) :
  r1 = r2 ∨ collision (source_seal_preimage r1) (source_seal_preimage r2).
Proof.
  apply ValidateSeal_ok in V1, V2.
  destruct (decide (source_seal_preimage r1 = source_seal_preimage r2)) as [Ep|Ep].
  - left. by apply source_seal_inj.
  - right. split; [done|congruence].
Qed.

(** ** A repository with one record *)

(** Stand-ins that run: 64 copies of a hash for the extensible output, and a signature that
    repeats the hash of what it signs.  The example data are kept evaluated. *)
#[export] Instance hashed_xof : Blake3 :=
  { blake3_xof s := let h := sha256 s in concat_all (List.repeat h 64) }.
#[export] Instance hashed_keys : RepoKeys unit := {
  pubkey := unit;
  ResolveRepoSource did refresh w := (Ok ("https://PDS.example/", Some tt), w);
  HashAndVerify key context sig := String.eqb sig (sha256 context +:+ sha256 context)
}.

Definition block_cid (data : string) : binary_cid := MkCid codec_DagCBOR (sha256 data).
Definition car_block (data : string) : string := section (binary_bytes (block_cid data) +:+ data).

Definition example_record_value : string := Eval vm_compute in
  cbor_encode (NMap [("$type", NString FolderRevisionCollection); ("name", NString "Inbox")]).
Definition example_path : string := FolderRevisionCollection +:+ "/k1".
Definition example_index : string := Eval vm_compute in cbor_encode (NMap [(example_path, NLink (block_cid example_record_value))]).
Definition example_spaces_target : SpacesTarget :=
  MkSpacesTarget "https://pds.example" "at://did:plc:alice/space/email.atmos.mailbox/inbox" "did:plc:alice" PinnedEpoch.
Definition example_ikm : string := zeros 32.
Definition example_revision_tid : string := "3lk5abcdefg2a".
Definition example_set_hash : string := Eval vm_compute in
  ltHashDigest [example_path +:+ "/" +:+ binary_string (block_cid example_record_value)].
Definition example_context : string := Eval vm_compute in
  commitContext (otSpaceURI example_spaces_target) (otRepoDID example_spaces_target) example_revision_tid example_ikm.
Definition example_commit_block : string := Eval vm_compute in
  cbor_encode (NMap [("ver", NInt 1); ("hash", NBytes example_set_hash); ("ikm", NBytes example_ikm);
    ("sig", NBytes (sha256 example_context +:+ sha256 example_context));
    ("mac", NBytes (computeCommitMAC example_ikm example_context example_set_hash));
    ("rev", NString example_revision_tid)]).
Definition example_header : string :=
  cbor_encode (NMap [("roots", NList [NLink (block_cid example_commit_block); NLink (block_cid example_index)]);
    ("version", NInt 1)]).
Definition example_car : string := Eval vm_compute in
  section example_header +:+ car_block example_commit_block +:+ car_block example_index +:+
  car_block example_record_value.

Definition verify_example (stream : string) : result verifiedCAR :=
  (verifyFullSourceCAR background (MkReader stream false) example_spaces_target tt).1.

(** A value read off a successful result. *)
Lemma ok_value {A} (m : result A) : is_ok m = true → ∃ a, m = Ok a.
Proof. destruct m as [a|e]; [by exists a|done]. Qed.

Lemma example_car_verifies : is_ok (verify_example example_car) = true.
Proof. vm_compute. reflexivity. Qed.
(** The capability an export gives, or why it gives none. *)
Definition example_capability (stream : string) : result SourceAuthenticatedRepository :=
  match verify_example stream with
  | Ok car => Ok (source_of_car example_spaces_target car)
  | Err e => Err e
  end.

Lemma set_hash_order_independent_witness : ltHashDigest ["a"; "b"] = ltHashDigest ["b"; "a"].
Proof. apply set_hash_order_independent. constructor. Defined.

Lemma verified_car_sound_witness :
  ∃ car : verifiedCAR, verify_example example_car = Ok car ∧
    scHash (vcCommit car) = ltHashDigest (List.map index_element (vcRecords car)).
Proof.
  destruct (ok_value _ example_car_verifies) as [car Hc]. exists car. split; [exact Hc|].
  destruct (verifyFullSourceCAR background (MkReader example_car false) example_spaces_target tt) as [r w'] eqn:E.
  unfold verify_example in Hc. rewrite E in Hc. cbn [fst] in Hc. subst r.
  exact (proj1 (proj2 (verified_car_sound background _ _ _ _ _ E)) _ (Permutation_refl _)).
Defined.

Definition example_commit : signedRepoCommit :=
  MkCommit_ 1 example_set_hash example_ikm (sha256 example_context +:+ sha256 example_context)
    (computeCommitMAC example_ikm example_context example_set_hash) example_revision_tid.
Lemma example_commit_verifies : verifyCommitConsistency example_commit example_spaces_target tt = (Ok tt, tt).
Proof. vm_compute. reflexivity. Qed.

Lemma commit_signature_binds_witness :
  scMAC example_commit = computeCommitMAC example_ikm (signed_context example_commit example_spaces_target) example_set_hash.
Proof. exact (proj1 (commit_signature_binds _ _ _ _ example_commit_verifies)). Defined.

Definition example_source : SourceAuthenticatedRepository :=
  seal_source (MkSourceRepository example_spaces_target example_revision_tid "sha256-1" "c1" "c2" example_set_hash
    [MkSourceRecord FolderRevisionCollection "k1" "c3" example_record_value] "").
Lemma example_source_fits : source_fits example_source.
Proof. split; [|split; [done|]]; repeat (apply Forall_cons_2 || apply Forall_nil_2); by vm_compute. Qed.
Lemma example_source_valid : source_ValidateSeal (Some example_source) = Ok tt.
Proof. vm_compute. reflexivity. Qed.

Lemma source_seal_binds_witness :
  example_source = example_source ∨ collision (source_seal_preimage example_source) (source_seal_preimage example_source).
Proof.
  exact (source_seal_binds _ _ example_source_fits example_source_fits example_source_valid example_source_valid eq_refl).
Defined.

(** The end of a repository export is not checked to the last byte: after the last record,
    a length without its section, or a length that is cut, passes for the end of the stream,
    so exports that differ in such trailing bytes are all accepted. *)
Theorem dangling_tail_accepted :
  example_capability (example_car +:+ uvarint 5) = example_capability example_car ∧
  example_capability (example_car +:+ byte 0x80) = example_capability example_car ∧
  is_ok (example_capability example_car) = true.
Proof. split; [|split]; vm_compute; reflexivity. Qed.
