(* ===== verification/SourceRead.v ===== *)
(** * Reading a repository from its authenticated source

    Models the reads of src/internal/providers/officialspaces that go through a credential:
    [ReadSourceAuthenticatedRepository] of snapshot.go (commit, export, commit again, under one
    credential) and [StreamSourceMessageBlobs] of blob_stream.go (the blobs of a source between
    two reads of its commit).

    The blob consumer is a state-passing function: the data it is given is its own copy, as the
    one consumer of this repository clones what it keeps. *)
From S2P Require Import Prelude Sha256 GoStd Syntax Unicode Json Base64 Mailbox Repository Canonical Revision Decode.
From S2P Require Import FolderRevision Ipld Car Url SpacesWire Http Client Snapshot.

Definition signedCommitType : string := "com.atproto.space.defs#signedCommit".
Definition maxRecoveryBlobBytes : Z := Z.shiftl 64 20.

(** ** The answer of getLatestCommit *)

Definition set_scVersion (r : signedRepoCommit) (x : Z) :=
  MkCommit_ x (scHash r) (scIKM r) (scSignature r) (scMAC r) (scRevision r).
Definition set_scHash (r : signedRepoCommit) (x : string) :=
  MkCommit_ (scVersion r) x (scIKM r) (scSignature r) (scMAC r) (scRevision r).
Definition set_scIKM (r : signedRepoCommit) (x : string) :=
  MkCommit_ (scVersion r) (scHash r) x (scSignature r) (scMAC r) (scRevision r).
Definition set_scSignature (r : signedRepoCommit) (x : string) :=
  MkCommit_ (scVersion r) (scHash r) (scIKM r) x (scMAC r) (scRevision r).
Definition set_scMAC (r : signedRepoCommit) (x : string) :=
  MkCommit_ (scVersion r) (scHash r) (scIKM r) (scSignature r) x (scRevision r).
Definition set_scRevision (r : signedRepoCommit) (x : string) :=
  MkCommit_ (scVersion r) (scHash r) (scIKM r) (scSignature r) (scMAC r) x.
Definition zero_commit : signedRepoCommit := MkCommit_ 0 "" "" "" "" "".

Section commits.
Context `{CaseOrbits}.

(** [strictJSONBytes.UnmarshalJSON]: one object with the member [$bytes], canonical base64. *)
Definition strictJSONBytes (j : json) (_ : string) : option string :=
  match j with
  | JStr raw =>
      v ← parse raw;
      encoded ← decode_strict [sole_field "$bytes" decode_string] v "";
      if String.eqb encoded "" then None
      else decoded ← RawStdDecode encoded; if String.eqb (RawStdEncode decoded) encoded then Some decoded else None
  | _ => None
  end.

(** A field of the commit inside the pair of type and commit. *)
Definition commit_field {A} (name : string) (decode : json → A → option A) (get : signedRepoCommit → A)
    (set : signedRepoCommit → A → signedRepoCommit) : field (string * signedRepoCommit) :=
  mk_field name decode (λ p, get p.2) (λ p x, (p.1, set p.2 x)).
Definition commit_fields : list (field (string * signedRepoCommit)) :=
  [wire_field "$type" decode_string fst (λ p x, (x, p.2));
   commit_field "ver" (parsed decode_int64) scVersion set_scVersion;
   commit_field "hash" strictJSONBytes scHash set_scHash; commit_field "ikm" strictJSONBytes scIKM set_scIKM;
   commit_field "sig" strictJSONBytes scSignature set_scSignature; commit_field "mac" strictJSONBytes scMAC set_scMAC;
   commit_field "rev" (parsed decode_string) scRevision set_scRevision].

Definition read_latest_commit (body : reader) : result signedRepoCommit :=
  let? (type, commit) := or_error (decodeStrictBounded
    (decode_strict [sole_field "commit" (nested (decode_strict commit_fields))]) ("", zero_commit) maxCommitBytes body)
    ErrSnapshotVerification in
  fail_if negb (String.eqb type signedCommitType) with ErrSnapshotVerification ;;
  Ok commit.

End commits.

Definition snapshot_sentinels : list error :=
  [ErrCanceled; ErrDeadlineExceeded; ErrUnauthorized; ErrRevoked; ErrNotFound; ErrTarget].
Definition normalizeSnapshotError (e : error) : error :=
  if existsb (errors_Is e) snapshot_sentinels then e
  else if errors_Is e ErrSnapshotVerification then e
  else ErrSnapshotVerification.

(** ** The reads *)

Section reads.
Context `{Syntax} `{Ipld} `{Blake3} `{CaseOrbits} {W : Type} `{Transport W} `{RepoKeys W} (c : Client_).

Definition validateRepoSourceOrigin : W → result unit * W :=
  return_if negb (clRepoKeys c) with Err ErrSnapshotVerification ;;
  match ParseDID (otRepoDID (clTarget c)) with
  | None => returns (Err ErrSnapshotVerification)
  | Some repoDID =>
      call? resolved := attempt (ResolveRepoSource repoDID true) in
      match resolved with
      | Err _ => returns (Err ErrSnapshotVerification)
      | Ok (repoHost, _) =>
          return_if negb (bool_decide (cleanOrigin repoHost true = Ok (clOrigin c))) with Err ErrTarget ;;
          returns (Ok tt)
      end
  end.

Definition readSourceCommit (credential : N) : W → result signedRepoCommit * W :=
  fetch c credential getLatestCommitEndpoint (targetQuery (clTarget c)) "application/json"
    (λ a, returns (read_latest_commit (anBody a))).

(** The context is read from the world when the verification starts.  Verification succeeds only
    at the end of its input, so the limit is used up exactly when the limited input has its
    full length. *)
Definition readSourceCAR (credential : N) : W → result verifiedCAR * W :=
  fetch c credential getRepoEndpoint (<["excludeValues" := "false"]> (targetQuery (clTarget c))) "application/vnd.ipld.car"
    (λ a,
      return_if negb (media_type_is (anContentType a) "application/vnd.ipld.car") with Err ErrSnapshotVerification ;;
      let input := limited (maxRepoStreamBytes + 1) (anBody a) in
      call? snapshot := (λ w, verifyFullSourceCAR (now_context w) input (clTarget c) w) in
      return_if maxRepoStreamBytes <? len (rdLeft input) with Err ErrSnapshotVerification ;;
      returns (Ok snapshot)).

Definition read_stable (credential : N) : W → result SourceAuthenticatedRepository * W :=
  call? before := readSourceCommit credential in
  call? _ := verifyCommitConsistency before (clTarget c) in
  call? car := readSourceCAR credential in
  return_if negb (sameRepoState before (vcCommit car)) with Err ErrSnapshotVerification ;;
  call? after := readSourceCommit credential in
  call? _ := verifyCommitConsistency after (clTarget c) in
  return_if negb (sameRepoState (vcCommit car) after) with Err ErrSnapshotVerification ;;
  returns (Ok (source_of_car (clTarget c) car)).

Definition ReadSourceAuthenticatedRepository : W → result SourceAuthenticatedRepository * W :=
  return_if negb (clRepoKeys c) with Err ErrSnapshotVerification ;;
  call? _ := validateRepoSourceOrigin in
  on_error normalizeSnapshotError (withReader c read_stable).

(** ** The stream of blobs *)

(** Raw CIDs in strictly ascending order. *)
Fixpoint ordered_cids (previous : option string) (cids : list string) : bool :=
  match cids with
  | [] => true
  | blobCID :: rest =>
      validRawCID blobCID && match previous with Some p => bool_decide (str_lt p blobCID) | None => true end &&
      ordered_cids (Some blobCID) rest
  end.

(** A commit read around the stream is verified and the source's own. *)
Definition check_source_commit (source : SourceAuthenticatedRepository) (commit : signedRepoCommit) : W → result unit * W :=
  call? verified := attempt (verifyCommitConsistency commit (clTarget c)) in
  return_if negb (is_ok verified) || negb (matchesCommit source commit) with Err ErrSnapshotVerification ;;
  returns (Ok tt).

(** The error of a consumer, of which only a cancellation shows. *)
Definition consumer_result {S} (r : result S) : result S :=
  match r with Err e => if is_ctx_error e then Err e else Err ErrOther | ok => ok end.

Fixpoint stream_blobs {S} (credential : N) (maxTotalBytes : Z) (consume : S → N → string → string → result S)
    (index : N) (totalBytes : Z) (s : S) (cids : list string) : W → result S * W :=
  match cids with
  | [] => returns (Ok s)
  | blobCID :: rest =>
      call? _ := ctx_Err in
      call? data := readMessageBlob c credential blobCID in
      return_if (maxTotalBytes - totalBytes <? raw_size data)%Z with Err ErrMessageTooLarge ;;
      call? s := returns (consumer_result (consume s index blobCID data)) in
      stream_blobs credential maxTotalBytes consume (index + 1) (totalBytes + raw_size data) s rest
  end.

Definition stream_between {S} (source : SourceAuthenticatedRepository) (cids : list string) (maxTotalBytes : Z)
    (consume : S → N → string → string → result S) (s : S) (credential : N) : W → result S * W :=
  call? before := readSourceCommit credential in
  call? _ := check_source_commit source before in
  call? s := stream_blobs credential maxTotalBytes consume 0 0 s cids in
  call? after := readSourceCommit credential in
  call? _ := check_source_commit source after in
  returns (Ok s).

Definition streamSourceMessageBlobs {S} (source : option SourceAuthenticatedRepository) (cids : list string)
    (maxTotalBytes : Z) (consume : option (S → N → string → string → result S)) (s : S) : W → result S * W :=
  call? _ := ctx_Err in
  match source with
  | None => returns (Err ErrSnapshotVerification)
  | Some repository =>
      return_if negb (bool_decide (saTarget repository = clTarget c)) with Err ErrTarget ;;
      return_if negb (is_ok (source_ValidateSeal source)) with Err ErrSnapshotVerification ;;
      match consume with
      | None => returns (Err ErrInvalidRecord)
      | Some consume =>
          return_if (maxInventoryItems <? llen cids) || (maxTotalBytes <? 1)%Z || (maxRecoveryBlobBytes <? maxTotalBytes)%Z
            with Err ErrInvalidRecord ;;
          return_if negb (ordered_cids None cids) with Err ErrInvalidRecord ;;
          call? _ := validateRepoSourceOrigin in
          call? s := withReader c (stream_between repository cids maxTotalBytes consume s) in
          return_if negb (is_ok (source_ValidateSeal source)) with Err ErrSnapshotVerification ;;
          returns (Ok s)
      end
  end.
Definition StreamSourceMessageBlobs {S} (source : option SourceAuthenticatedRepository) (cids : list string)
    (consume : option (S → N → string → string → result S)) (s : S) : W → result S * W :=
  streamSourceMessageBlobs source cids maxRecoveryBlobBytes consume s.

End reads.

(** ** What a successful read has seen *)

(** The resolver opens no handle. *)
Class ResolverLaws (W : Type) `{Transport W} `{RepoKeys W} : Prop :=
  ResolveRepoSource_keeps did refresh w : open_handles (ResolveRepoSource did refresh w).2 = open_handles w.

Section reads_ok.
Context `{Syntax} `{Ipld} `{Blake3} `{CaseOrbits} {W : Type} `{Transport W} `{RepoKeys W} (c : Client_).

(** Two commits say the same of the repository. *)
Definition agree (l r : signedRepoCommit) : Prop :=
  scVersion l = scVersion r ∧ scRevision l = scRevision r ∧ scHash l = scHash r.
(** Between two worlds the live commit was read under a credential, and verified. *)
Definition saw_commit (d : N) (commit : signedRepoCommit) (w w' : W) : Prop :=
  ∃ w1, readSourceCommit c d w = (Ok commit, w1) ∧ verifyCommitConsistency commit (clTarget c) w1 = (Ok tt, w').
(** Between two worlds the export was read under a credential, and verified as a whole. *)
Definition saw_export (d : N) (car : verifiedCAR) (w w' : W) : Prop :=
  readSourceCAR c d w = (Ok car, w') ∧ ∃ ctx input w1 w2, verifyFullSourceCAR ctx input (clTarget c) w1 = (Ok car, w2).
(** Between two worlds the blobs were read under a credential, one after the other. *)
Fixpoint saw_blobs (d : N) (blobs : list (string * string)) (w w' : W) : Prop :=
  match blobs with
  | [] => w' = w
  | (blobCID, data) :: rest => ∃ w1, readMessageBlob c d blobCID w = (Ok data, w1) ∧ saw_blobs d rest w1 w'
  end.
(** Between two worlds the origin was checked, and one credential was taken, used and closed. *)
Definition one_credential (during : N → W → W → Prop) (w w' : W) : Prop :=
  ∃ w0 d w1 w2, validateRepoSourceOrigin c w = (Ok tt, w0) ∧ AcquireReader (clTarget c) w0 = ((Some d, None), w1) ∧
    during d w1 w2 ∧ w' = CloseDoer d w2.

(** A stable read: commit, export and commit again, one after the other and under one credential,
    which all agree; it gives the source of the export. *)
Definition stable_read (src : SourceAuthenticatedRepository) : W → W → Prop := one_credential (λ d w w',
  ∃ before w1 car w2 after, saw_commit d before w w1 ∧ saw_export d car w1 w2 ∧ saw_commit d after w2 w' ∧
    agree before (vcCommit car) ∧ agree (vcCommit car) after ∧ src = source_of_car (clTarget c) car).
(** A commit is the one that the source was read at. *)
Definition of_source (src : SourceAuthenticatedRepository) (commit : signedRepoCommit) : Prop :=
  scVersion commit = commitVersion ∧ scRevision commit = saRevision src ∧ scHash commit = saRepoHash src.
(** The blobs were read while the repository stayed at the source: before the first and after the
    last of them, under the same credential, the live commit was that of the source. *)
Definition read_at_source (src : SourceAuthenticatedRepository) (blobs : list (string * string)) : W → W → Prop := one_credential (λ d w w',
  ∃ before w1 w2 after, saw_commit d before w w1 ∧ of_source src before ∧ saw_blobs d blobs w1 w2 ∧
    saw_commit d after w2 w' ∧ of_source src after).

Lemma same_agree l r : sameRepoState l r = true → agree l r.
Proof. unfold sameRepoState, agree. rewrite !andb_true_iff, Z.eqb_eq, !String.eqb_eq. tauto. Qed.
Lemma matches_source src commit : matchesCommit src commit = true → of_source src commit.
Proof. unfold matchesCommit, of_source. rewrite !andb_true_iff, Z.eqb_eq, !String.eqb_eq. tauto. Qed.
(** What ran with a reader ran between its taking and its closing. *)
Lemma reader_ok {A} (operation : N → W → result A * W) (during : N → W → W → Prop) w w0 x w' :
  validateRepoSourceOrigin c w = (Ok tt, w0) → withReader c operation w0 = (Ok x, w') →
  (∀ d w1 w2, operation d w1 = (Ok x, w2) → during d w1 w2) → one_credential during w w'.
Proof.
  intros Ho Hw Hd. unfold withReader, with_credential in Hw. destruct (AcquireReader _ w0) as [[[d|] [e|]] w1] eqn:Ea; try done.
  apply finally_ok in Hw as (w2 & Hw & ->). exists w0, d, w1, w2. split_and!; auto.
Qed.

(** A successful fetch is the use of a 200 answer. *)
Lemma fetch_ok {A} d endpoint query accept (use : answer → W → result A * W) w x w' :
  fetch c d endpoint query accept use w = (Ok x, w') →
  ∃ a w1 w2, anStatus a = StatusOK ∧ use a w1 = (Ok x, w2) ∧ w' = CloseBody (anHandle a) w2.
Proof.
  unfold fetch, exchange. intros (a & w1 & _ & Hu)%call_ok. apply finally_ok in Hu as (w2 & Hu & ->).
  destruct (Z.eqb_spec (anStatus a) StatusOK); [|done]. by exists a, w1, w2.
Qed.

Lemma ctx_ok w u w' : ctx_Err w = (Ok u, w') → is_ok (poll (now_context w)) = true ∧ w = w'.
Proof. unfold ctx_Err. by destruct (poll (now_context w)); intros [=]. Qed.
Lemma car_ok d w car w' : readSourceCAR c d w = (Ok car, w') → saw_export d car w w'.
Proof.
  intros Hcar. split; [exact Hcar|]. unfold readSourceCAR in Hcar. apply fetch_ok in Hcar as (a & w1 & w2 & _ & Hu & _).
  destruct (media_type_is _ _); [|done]. cbn [negb] in Hu. apply call_ok in Hu as (car' & w3 & Hv & Hu).
  destruct (maxRepoStreamBytes <? _); [done|]. apply returns_ok in Hu as [[= ->] _]. by eexists _, _, _, _.
Qed.
Lemma source_read_ok w src w' : ReadSourceAuthenticatedRepository c w = (Ok src, w') → stable_read src w w'.
Proof.
  unfold ReadSourceAuthenticatedRepository. destruct (negb _); [done|]. intros ([] & w0 & Ho & Hr)%call_ok.
  unfold on_error in Hr. destruct (withReader c (read_stable c) w0) as [[src'|e] w2] eqn:Ew; [|done].
  injection Hr as <- <-. apply (reader_ok _ _ _ _ _ _ Ho Ew). clear. intros d w w'.
  unfold read_stable. intros (before & w1 & Rb & Hr)%call_ok. apply call_ok in Hr as ([] & w2 & Vb & Hr).
  apply call_ok in Hr as (car & w3 & Hcar & Hr). destruct (sameRepoState before (vcCommit car)) eqn:S1; [|done].
  cbn [negb] in Hr. apply call_ok in Hr as (after & w4 & Ra & Hr). apply call_ok in Hr as ([] & w5 & Va & Hr).
  destruct (sameRepoState (vcCommit car) after) eqn:S2; [|done]. cbn [negb] in Hr. apply returns_ok in Hr as [[= <-] ->].
  exists before, w2, car, w3, after. split_and!; [by exists w1|by apply car_ok|by exists w4|by apply same_agree|by apply same_agree|done].
Qed.

(** The consumer ran over the blobs in order, each of them the bytes its CID names. *)
Fixpoint consumed {S} (consume : S → N → string → string → result S) (index : N) (s : S)
    (blobs : list (string * string)) (s' : S) : Prop :=
  match blobs with
  | [] => s' = s
  | (blobCID, data) :: rest =>
      validBlobCID blobCID data = true ∧ 0 < len data ≤ MaxRawMessageBytes ∧
      ∃ s1, consume s index blobCID data = Ok s1 ∧ consumed consume (index + 1) s1 rest s'
  end.
Definition blob_bytes (blobs : list (string * string)) : Z := fold_right Z.add 0%Z (raw_size ∘ snd <$> blobs).

Lemma check_blob_ok blobCID type body data : check_blob blobCID type body = Ok data →
  validBlobCID blobCID data = true ∧ 0 < len data ≤ MaxRawMessageBytes.
Proof.
  unfold check_blob. destruct (media_type_is _ _); cbn [negb]; [|done].
  destruct (read_limited _ body) as [d failed]. destruct failed; [done|].
  destruct (N.eqb_spec (len d) 0); [done|]. destruct (N.ltb_spec MaxRawMessageBytes (len d)); [done|].
  destruct (validBlobCID blobCID d) eqn:Ev; cbn [negb]; [|done]. intros [= <-]. split; [done|]. split; [lia|done].
Qed.

Lemma stream_blobs_ok {S} d maxTotal (consume : S → N → string → string → result S) cids index total s w s' w' :
  stream_blobs c d maxTotal consume index total s cids w = (Ok s', w') → (total <= maxTotal)%Z →
  ∃ datas, length datas = length cids ∧ saw_blobs d (combine cids datas) w w' ∧ consumed consume index s (combine cids datas) s' ∧
    (total + blob_bytes (combine cids datas) <= maxTotal)%Z.
Proof.
  revert index total s w. induction cids as [|blobCID cids IH]; intros index total s w; cbn [stream_blobs].
  { intros [[= <-] ->]%returns_ok Ht. exists []. split_and!; [done|done|done|]. unfold blob_bytes. cbn. lia. }
  intros (u & w1 & [_ <-]%ctx_ok & Hs)%call_ok Ht. apply call_ok in Hs as (data & w2 & Hd & Hs).
  destruct (Z.ltb_spec (maxTotal - total) (raw_size data)); [done|]. apply call_ok in Hs as (s1 & w3 & Hc & Hs).
  apply returns_ok in Hc as [Hc ->]. apply IH in Hs as (datas & Hl & Hsaw & Hcon & Hb); [|lia]. pose proof Hd as Hread.
  unfold readMessageBlob in Hd. apply fetch_ok in Hd as (a & w4 & w5 & _ & Hu & _).
  apply returns_ok in Hu as [[Hv Hlen]%check_blob_ok _]. exists (data :: datas). split; [by cbn; rewrite Hl|].
  unfold blob_bytes in *. cbn. split; [by exists w2|]. split; [|lia]. split; [done|]. split; [done|]. exists s1. split; [|done].
  unfold consumer_result in Hc. destruct (consume s index blobCID data) as [x|err]; [done|]. by destruct (is_ctx_error err).
Qed.

Lemma check_source_commit_ok src commit d w w1 w' : readSourceCommit c d w = (Ok commit, w1) →
  check_source_commit c src commit w1 = (Ok tt, w') → saw_commit d commit w w' ∧ of_source src commit.
Proof.
  intros Hread. unfold check_source_commit. intros (v & w2 & Hv%attempt_ok & Hr)%call_ok.
  destruct v as [[]|e]; cbn [is_ok negb orb] in Hr; [|done].
  destruct (matchesCommit src commit) eqn:Em; [|done]. apply returns_ok in Hr as [_ ->]. split; [by exists w1|by apply matches_source].
Qed.

Lemma stream_ok {S} source cids maxTotal (consume : S → N → string → string → result S) s w s' w' :
  streamSourceMessageBlobs c source cids maxTotal (Some consume) s w = (Ok s', w') →
  ∃ src datas, source = Some src ∧ saTarget src = clTarget c ∧ source_ValidateSeal source = Ok tt ∧
    read_at_source src (combine cids datas) w w' ∧
    length datas = length cids ∧ consumed consume 0 s (combine cids datas) s' ∧
    (blob_bytes (combine cids datas) <= maxTotal)%Z.
Proof.
  unfold streamSourceMessageBlobs. intros (u & w0 & [_ <-]%ctx_ok & Hs)%call_ok. destruct source as [src|]; [|done].
  destruct (bool_decide_reflect (saTarget src = clTarget c)); [|done]. cbn [negb] in Hs.
  destruct (source_ValidateSeal (Some src)) as [[]|] eqn:Es; [|done]. cbn [is_ok negb] in Hs.
  destruct ((maxInventoryItems <? llen cids) || (maxTotal <? 1)%Z) eqn:Eb; [done|].
  apply orb_false_elim in Eb as [_ Hm%Z.ltb_ge].
  destruct (maxRecoveryBlobBytes <? maxTotal)%Z; [done|]. cbn [orb] in Hs.
  destruct (ordered_cids None cids); [|done]. cbn [negb] in Hs.
  apply call_ok in Hs as ([] & w1 & Ho & Hs). apply call_ok in Hs as (s1 & w2 & Hw & Hs).
  apply returns_ok in Hs as [[= <-] ->].
  destruct (reader_ok _ (λ d w w', ∃ before w1 w2 after datas, saw_commit d before w w1 ∧ of_source src before ∧
    saw_blobs d (combine cids datas) w1 w2 ∧ saw_commit d after w2 w' ∧ of_source src after ∧
    length datas = length cids ∧ consumed consume 0 s (combine cids datas) s1 ∧ (blob_bytes (combine cids datas) <= maxTotal)%Z) _ _ _ _ Ho Hw)
    as (w3 & d & w4 & w5 & Ho' & Ha & (before & w6 & w7 & after & datas & Hbefore & Hb & Hblobs & Hafter & Ha' & Hl & Hc & Ht) & Hclose).
  - clear -Hm. intros d w w'. unfold stream_between. intros (before & w1 & Rb & Hw)%call_ok. apply call_ok in Hw as ([] & w2 & Cb & Hw).
    apply call_ok in Hw as (s2 & w3 & Hb & Hw). apply call_ok in Hw as (after & w4 & Ra & Hw).
    apply call_ok in Hw as ([] & w5 & Ca & Hw). apply returns_ok in Hw as [[= ->] ->].
    destruct (check_source_commit_ok _ _ _ _ _ _ Rb Cb), (check_source_commit_ok _ _ _ _ _ _ Ra Ca).
    apply stream_blobs_ok in Hb as (datas & Hl & Hsaw & Hc & Ht); [|lia]. by exists before, w2, w3, after, datas.
  - exists src, datas. split_and!; try done. exists w3, d, w4, w5. split_and!; try done. by exists before, w6, w7, after.
Qed.

End reads_ok.

(** ** Reads that complete *)

Section reads_run.
Context `{Syntax} `{Ipld} `{Blake3} `{CaseOrbits} {W : Type} `{Transport W} `{RepoKeys W} (c : Client_).

Lemma call_run {A B} (m : W → result A * W) (k : A → W → result B * W) w a w1 r :
  m w = (Ok a, w1) → k a w1 = r → call_bind m k w = r.
Proof. unfold call_bind. by intros -> <-. Qed.

Lemma reader_run {A} (operation : N → W → result A * W) w d w1 x w2 :
  AcquireReader (clTarget c) w = ((Some d, None), w1) → operation d w1 = (Ok x, w2) →
  withReader c operation w = (Ok x, CloseDoer d w2).
Proof. intros Ha Ho. unfold withReader, with_credential. rewrite Ha. unfold finally. by rewrite Ho. Qed.

Lemma stable_run d w before w1 w2 car w3 after w4 w5 :
  readSourceCommit c d w = (Ok before, w1) → verifyCommitConsistency before (clTarget c) w1 = (Ok tt, w2) →
  readSourceCAR c d w2 = (Ok car, w3) → sameRepoState before (vcCommit car) = true →
  readSourceCommit c d w3 = (Ok after, w4) → verifyCommitConsistency after (clTarget c) w4 = (Ok tt, w5) →
  sameRepoState (vcCommit car) after = true →
  read_stable c d w = (Ok (source_of_car (clTarget c) car), w5).
Proof.
  intros R1 R2 R3 R4 R5 R6 R7. unfold read_stable. eapply call_run; [exact R1|]. eapply call_run; [exact R2|].
  eapply call_run; [exact R3|]. rewrite R4. eapply call_run; [exact R5|]. eapply call_run; [exact R6|]. by rewrite R7.
Qed.

Lemma source_read_run w w0 d w1 src w2 :
  clRepoKeys c = true → validateRepoSourceOrigin c w = (Ok tt, w0) →
  AcquireReader (clTarget c) w0 = ((Some d, None), w1) → read_stable c d w1 = (Ok src, w2) →
  ReadSourceAuthenticatedRepository c w = (Ok src, CloseDoer d w2).
Proof.
  intros Hk Ho Ha Hr. unfold ReadSourceAuthenticatedRepository. rewrite Hk. eapply call_run; [exact Ho|].
  unfold on_error. by rewrite (reader_run _ _ _ _ _ _ Ha Hr).
Qed.

Lemma check_source_run src commit w w' : verifyCommitConsistency commit (clTarget c) w = (Ok tt, w') →
  matchesCommit src commit = true → check_source_commit c src commit w = (Ok tt, w').
Proof.
  intros Hv Hm. unfold check_source_commit. apply (call_run _ _ _ (Ok tt) w'); [unfold attempt; by rewrite Hv|]. by rewrite Hm.
Qed.

Lemma stream_run {S} src cids (consume : S → N → string → string → result S) s w w0 d w1 before w2 w3 s' w4 after w5 w6 :
  is_ok (poll (now_context w)) = true → saTarget src = clTarget c → source_valid src = true →
  llen cids ≤ maxInventoryItems → ordered_cids None cids = true → validateRepoSourceOrigin c w = (Ok tt, w0) →
  AcquireReader (clTarget c) w0 = ((Some d, None), w1) →
  readSourceCommit c d w1 = (Ok before, w2) → check_source_commit c src before w2 = (Ok tt, w3) →
  stream_blobs c d maxRecoveryBlobBytes consume 0 0 s cids w3 = (Ok s', w4) →
  readSourceCommit c d w4 = (Ok after, w5) → check_source_commit c src after w5 = (Ok tt, w6) →
  StreamSourceMessageBlobs c (Some src) cids (Some consume) s w = (Ok s', CloseDoer d w6).
Proof.
  intros Hp Ht Hv Hl Ho R0 Ha R1 R2 R3 R4 R5. unfold StreamSourceMessageBlobs, streamSourceMessageBlobs.
  apply (call_run _ _ _ tt w); [unfold ctx_Err; by destruct (poll (now_context w))|].
  rewrite bool_decide_true by done. unfold source_ValidateSeal, guarded. rewrite Hv. cbn [negb is_ok].
  rewrite (proj2 (N.ltb_ge _ _) Hl), Ho. change (_ || _) with false. cbn [negb].
  eapply call_run; [exact R0|]. apply (call_run _ _ _ s' (CloseDoer d w6)); [|done]. apply (reader_run _ _ _ _ _ _ Ha).
  unfold stream_between. eapply call_run; [exact R1|]. eapply call_run; [exact R2|]. eapply call_run; [exact R3|].
  eapply call_run; [exact R4|]. eapply call_run; [exact R5|]. done.
Qed.

End reads_run.

Section reads_balanced.
Context `{Syntax} `{Ipld} `{Blake3} `{CaseOrbits} {W : Type} `{TransportLaws W} `{RepoKeys W} `{!ResolverLaws W} (c : Client_).

Lemma balanced_resolve did refresh : balanced (ResolveRepoSource did refresh).
Proof. intros w. apply ResolveRepoSource_keeps. Qed.
Hint Resolve balanced_resolve : balance.

Lemma balanced_verify commit target : balanced (verifyCommitConsistency commit target).
Proof.
  unfold verifyCommitConsistency. repeat (apply balanced_if; [auto with balance|]). apply balanced_bind; [auto with balance|].
  intros [[host [key|]]|e]; auto with balance.
Qed.
Hint Resolve balanced_verify : balance.

Lemma balanced_origin : balanced (validateRepoSourceOrigin c).
Proof.
  unfold validateRepoSourceOrigin. apply balanced_if; [auto with balance|]. destruct (ParseDID _); [|auto with balance].
  apply balanced_bind; [auto with balance|]. intros [[host key]|e]; auto with balance.
Qed.
Hint Resolve balanced_origin : balance.

Lemma balanced_fetch {A} d endpoint query accept (use : answer → W → result A * W) :
  (∀ a, balanced (use a)) → balanced (fetch c d endpoint query accept use).
Proof. unfold fetch. auto with balance. Qed.
Hint Resolve balanced_fetch : balance.

Lemma balanced_commit d : balanced (readSourceCommit c d).
Proof. unfold readSourceCommit. auto with balance. Qed.
Lemma balanced_car d : balanced (readSourceCAR c d).
Proof.
  unfold readSourceCAR. apply balanced_fetch. intros a. apply balanced_if; [auto with balance|].
  apply balanced_bind; [|auto with balance]. intros w. apply (balanced_bind (returns (read_commit _))); [done|].
  intros [[[commit commitCID] indexRoot] r]. auto with balance.
Qed.
Hint Resolve balanced_commit balanced_car : balance.

Lemma balanced_source_read : balanced (ReadSourceAuthenticatedRepository c).
Proof. unfold ReadSourceAuthenticatedRepository, read_stable. auto 12 with balance. Qed.

Lemma balanced_check_source src commit : balanced (check_source_commit c src commit).
Proof. unfold check_source_commit. auto with balance. Qed.
Hint Resolve balanced_check_source : balance.

Lemma balanced_stream {S} source cids maxTotal (consume : option (S → N → string → string → result S)) s :
  balanced (streamSourceMessageBlobs c source cids maxTotal consume s).
Proof.
  assert (Hb : ∀ d m f i t (s : S), balanced (stream_blobs c d m f i t s cids)).
  { induction cids as [|x l IH]; intros d m f i t s0; cbn [stream_blobs]; [auto with balance|].
    unfold readMessageBlob. auto 10 with balance. }
  unfold streamSourceMessageBlobs, stream_between. apply balanced_bind; [auto with balance|]. intros _.
  destruct source; [|auto with balance]. destruct consume; auto 14 with balance.
Qed.

End reads_balanced.
#[export] Hint Resolve balanced_source_read balanced_stream : balance.
