(* ===== verification/Sample.v ===== *)
(** * A sample repository

    The six standard folders and one message as the records, the export, the commit and the
    provider's answers of one repository.  The witnesses of the recovery and of the content it
    verifies run on it; the data are kept evaluated. *)
From S2P Require Import Prelude Sha256 GoStd Syntax Unicode Json Base64 Mailbox Repository Canonical Revision.
From S2P Require Import FolderRevision Decode Ipld Car Url SpacesWire Http Client Snapshot SourceRead.

(** The canonical bytes of a JSON value, as the repository stores its records. *)
Fixpoint node_of_json (j : json) : node binary_cid :=
  match j with
  | JNull => NNull
  | JBool b => NBool b
  | JNum l => NInt (default 0%Z (decode_int64 (JNum l) 0%Z))
  | JStr s => NString s
  | JArr l => NList (List.map node_of_json l)
  | JObj [("$link", JStr s)] => match binary_parse s with Some c => NLink c | None => NString s end
  | JObj l => NMap (List.map (λ kv, (kv.1, node_of_json kv.2)) l)
  end.

(** An equation by evaluation, which leaves the types as they are. *)
Ltac exact_vm := match goal with |- @eq ?T _ ?v => vm_cast_no_check (@eq_refl T v) end.

(** ** The records *)

Definition sample_entry (collection rkey : string) (j : json) : indexedRecord :=
  let value := cbor_encode (node_of_json j) in MkIndexed collection rkey (block_cid value : cid) value.

(** A folder's first revision and its claim. *)
Definition sample_folder (role : string) : list indexedRecord :=
  let id := match StandardFolderID example_did role with Ok id => id | Err _ => "" end in
  let e := with_folder_key (MkFolderRevisionRecord FolderRevisionCollection id "create" (Some []) 1
             (standard_name role) role false false "2024-01-02T03:04:05Z") in
  match NewFolderOperationClaim example_did e with
  | Ok c => [sample_entry FolderRevisionCollection (fsRKey e) (folder_revision_json (fsRecord e));
             sample_entry FolderOperationCollection (focRKey c) (folder_claim_json (focRecord c))]
  | Err _ => []
  end.

Definition sample_raw : string := "Subject: hi".
Definition sample_version_key : string := Eval vm_compute in deliveryFingerprint example_did "imap:1" sample_raw.
Definition sample_message_id : string := Eval vm_compute in LogicalMessageID example_did "imap:1" sample_version_key.
Definition sample_message : MessageRecord := Eval vm_compute in
  MkMessageRecord MessageCollection
    (MkBlobRef "blob" (binary_string (MkCid codec_Raw (sha256 sample_raw))) MessageMIMEType 11)
    (hex_encode (sha256 sample_raw)) 11 sample_version_key sample_message_id "imap:1" "INBOX" "" "" "" "" None.
Definition sample_assignment : StateRevision :=
  with_key example_did (MkRevisionRecord MessageStateRevisionCollection sample_message_id "import" (Some []) 1
    sample_version_key (Some [example_inbox]) None None false false "2024-01-02T03:04:05Z").
Definition sample_message_records : list indexedRecord :=
  match NewOperationClaim example_did sample_assignment with
  | Ok c => [sample_entry MessageStateOperationCollection (ocRKey c) (claim_json (ocRecord c));
             sample_entry MessageStateRevisionCollection (srRKey sample_assignment)
               (revision_json (srRecord sample_assignment));
             sample_entry MessageCollection sample_version_key (message_json sample_message)]
  | Err _ => []
  end.

(** In the order of the index. *)
Definition sample_entries : list indexedRecord := Eval vm_compute in
  let records := sample_message_records ++ List.concat (List.map sample_folder standardFolderRoles) in
  snd <$> merge_sort (λ a b : string * indexedRecord, map_key_le (a.1, "") (b.1, "")) ((λ e, (indexed_path e, e)) <$> records).

(** ** The commit and the export *)

Definition sample_ikm : string := zeros 32.
Definition sample_revision : string := "3jzfcijpj2z2a".
Definition sample_index : string := Eval vm_compute in
  cbor_encode (NMap (List.map (λ e, (indexed_path e, NLink (ixCID e : binary_cid))) sample_entries)).
(** An extensible output that is cheap to evaluate. *)
#[export] Instance short_xof : Blake3 := { blake3_xof := sha256 }.
Definition sample_set_hash : string := Eval vm_compute in ltHashDigest (List.map index_element sample_entries).
Definition sample_context : string := Eval vm_compute in
  commitContext (otSpaceURI example_spaces_target) (otRepoDID example_spaces_target) sample_revision sample_ikm.
Definition sample_commit : signedRepoCommit := Eval vm_compute in
  MkCommit_ 1 sample_set_hash sample_ikm (sha256 sample_context +:+ sha256 sample_context)
    (computeCommitMAC sample_ikm sample_context sample_set_hash) sample_revision.
Definition sample_commit_block : string := Eval vm_compute in
  cbor_encode (NMap [("ver", NInt (scVersion sample_commit)); ("hash", NBytes (scHash sample_commit));
    ("ikm", NBytes (scIKM sample_commit)); ("sig", NBytes (scSignature sample_commit));
    ("mac", NBytes (scMAC sample_commit)); ("rev", NString (scRevision sample_commit))]).
Definition sample_car : verifiedCAR := Eval vm_compute in
  MkVerifiedCAR sample_commit (block_cid sample_commit_block : cid) (block_cid sample_index : cid) sample_entries.
Definition sample_export : string := Eval vm_compute in
  section (cbor_encode (NMap [("roots", NList [NLink (block_cid sample_commit_block); NLink (block_cid sample_index)]);
    ("version", NInt 1)])) +:+
  car_block sample_commit_block +:+ car_block sample_index +:+ concat_map car_block (ixValue <$> sample_entries).

(** The capability that reading the export gives. *)
Definition sample_snapshot_id : string := Eval vm_compute in sourceSnapshotID example_spaces_target sample_car.
Definition sample_records : list SourceRecord := Eval vm_compute in List.map source_record (vcRecords sample_car).
Definition sample_commit_cid : string := Eval vm_compute in cid_String (vcCommitCID sample_car).
Definition sample_index_cid : string := Eval vm_compute in cid_String (vcIndexCID sample_car).
Definition sample_source : SourceAuthenticatedRepository :=
  seal_source (MkSourceRepository example_spaces_target sample_revision sample_snapshot_id sample_commit_cid sample_index_cid
    sample_set_hash sample_records "").

Lemma sample_source_of_car : source_of_car example_spaces_target sample_car = sample_source.
Proof.
  assert (Hid : sourceSnapshotID example_spaces_target sample_car = sample_snapshot_id) by (vm_compute; reflexivity).
  assert (Hrecords : List.map source_record (vcRecords sample_car) = sample_records) by (vm_compute; reflexivity).
  assert (Hcommit : cid_String (vcCommitCID sample_car) = sample_commit_cid) by (vm_compute; reflexivity).
  assert (Hindex : cid_String (vcIndexCID sample_car) = sample_index_cid) by (vm_compute; reflexivity).
  unfold source_of_car. rewrite Hid, Hrecords, Hcommit, Hindex. exact eq_refl.
Qed.

(** A sealed value is valid when its fields are. *)
Lemma seal_source_valid r : saSnapshotID r ≠ "" → saCommitCID r ≠ "" → saIndexCID r ≠ "" → len (saRepoHash r) = 32 →
  otEpoch (saTarget r) = PinnedEpoch → source_valid (seal_source r) = true.
Proof.
  intros Hs Hc Hi Hh He. unfold source_valid. rewrite !andb_true_iff, !negb_true_iff, !String.eqb_neq.
  split_and!; [done|done|done|by apply N.eqb_eq|by apply String.eqb_eq|]. apply String.eqb_eq. exact eq_refl.
Qed.
Lemma sample_source_valid : source_valid sample_source = true.
Proof. apply seal_source_valid; [done..| |done]. vm_compute. reflexivity. Qed.

(** ** The provider's answers

    A full recovery read asks six times: commit, export and commit, then commit, blob and commit. *)

#[export] Instance script_keys : RepoKeys script := {
  pubkey := unit;
  ResolveRepoSource did refresh w := (Ok ("https://PDS.example/", Some tt), w);
  HashAndVerify key context sig := String.eqb sig (sha256 context +:+ sha256 context)
}.
#[export] Instance script_resolver_laws : ResolverLaws script.
Proof. done. Qed.

Definition sample_client : Client_ := MkClient "https://pds.example" example_spaces_target true.
Definition lex_bytes (data : string) : json := JObj [("$bytes", JStr (RawStdEncode data))].
Definition sample_commit_text : string := Eval vm_compute in
  print (JObj [("commit", JObj [("$type", JStr signedCommitType); ("ver", JNum (print_Z (scVersion sample_commit)));
    ("hash", lex_bytes (scHash sample_commit)); ("ikm", lex_bytes (scIKM sample_commit));
    ("sig", lex_bytes (scSignature sample_commit)); ("mac", lex_bytes (scMAC sample_commit));
    ("rev", JStr (scRevision sample_commit))])]).
Definition commit_reply : Z * string * string * bool := (200%Z, "application/json", sample_commit_text, false).
Definition export_reply : Z * string * string * bool := (200%Z, "application/vnd.ipld.car", sample_export, false).
Definition blob_reply : Z * string * string * bool := (200%Z, MessageMIMEType, sample_raw, false).

(** The first read runs under handle 1, the second under handle 5. *)
Definition source_script (rest : list (Z * string * string * bool)) : script :=
  start_script (commit_reply :: export_reply :: commit_reply :: rest).
Definition content_script : script := source_script [commit_reply; blob_reply; commit_reply].

(** The worlds between the calls of the recovery read. *)
Definition world_reader : script := Eval vm_compute in (AcquireReader (clTarget sample_client) content_script).2.
Definition world_before : script := Eval vm_compute in (readSourceCommit sample_client 1 world_reader).2.
Definition world_export : script := Eval vm_compute in (readSourceCAR sample_client 1 world_before).2.
Definition world_after : script := Eval vm_compute in (readSourceCommit sample_client 1 world_export).2.
Definition world_source : script := Eval vm_compute in CloseDoer 1 world_after.

Lemma sample_verifies w : verifyCommitConsistency sample_commit (clTarget sample_client) w = (Ok tt, w).
Proof. vm_compute. reflexivity. Qed.
Lemma sample_origin w : validateRepoSourceOrigin sample_client w = (Ok tt, w).
Proof. vm_compute. reflexivity. Qed.
Lemma sample_before : readSourceCommit sample_client 1 world_reader = (Ok sample_commit, world_before).
Proof. vm_compute. reflexivity. Qed.
Lemma sample_after : readSourceCommit sample_client 1 world_export = (Ok sample_commit, world_after).
Proof. vm_compute. reflexivity. Qed.
Lemma sample_exported : readSourceCAR sample_client 1 world_before = (Ok sample_car, world_export).
Proof. exact_vm. Qed.

Lemma sample_source_read :
  ReadSourceAuthenticatedRepository sample_client content_script = (Ok sample_source, world_source).
Proof.
  assert (world_source = CloseDoer 1 world_after) as -> by (vm_compute; reflexivity). rewrite <- sample_source_of_car.
  eapply source_read_run; [reflexivity|apply sample_origin|vm_compute; reflexivity|].
  eapply stable_run; [exact sample_before|apply sample_verifies|exact sample_exported| |exact sample_after|apply sample_verifies|];
    vm_compute; reflexivity.
Qed.
