(* ===== verification/Recovery.v ===== *)
(** * Recovery of a mailbox from a source-authenticated repository

    Models src/internal/mailboxstate/officialspaces_recovery.go: the records of one complete
    source read are validated, decoded from DAG-CBOR and grouped; every folder and every
    message history is reduced; and the result is sealed.  It composes the snapshot capability
    (Snapshot.v), the wire decoders (Decode.v), the message model (Mailbox.v) and the two
    reducers (Revision.v, FolderRevision.v).

    The maps of the reduction are built record by record as in the code; a context is polled
    where the code polls it. *)
From S2P Require Import Prelude Sha256 GoStd Syntax Unicode Json Mailbox Repository Canonical Causal Revision.
From S2P Require Import FolderRevision Decode Ipld Car Url SpacesWire Snapshot.

Definition maxOfficialSourceRecords : N := 100000.
Definition maxOfficialFolderMessageBindings : N := 1000000.

(** ** The reduced source *)

Record MessageVersion : Type := MkMessageVersion {
  mvRKey : string;
  mvCID : string;
  mvRecord : MessageRecord
}.
#[export] Instance MessageVersion_eq_dec : EqDecision MessageVersion.
Proof. solve_decision. Defined.

Record ReducedSourceState : Type := MkReducedSource {
  rzTarget : SpacesTarget;
  rzRevision : string;
  rzSnapshotID : string;
  rzCommitCID : string;
  rzIndexCID : string;
  rzMessages : list MessageVersion;
  rzMessageStates : list ReducedState;
  rzFolders : list ReducedFolderState;
  rzSeal : string
}.
#[export] Instance ReducedSourceState_eq_dec : EqDecision ReducedSourceState.
Proof. solve_decision. Defined.

(** A slice the reducers build by appending is nil when it is empty. *)
Definition json_appended (l : list string) : json := if llen l =? 0 then JNull else json_strings l.
Definition reduced_state_json (st : ReducedState) : json :=
  JObj [("logicalMessageId", JStr (rsLogicalMessageID st)); ("snapshotId", JStr (rsSnapshotID st));
        ("version", JStr (rsVersion st)); ("mailboxIds", json_appended (rsMailboxIDs st));
        ("keywords", json_appended (rsKeywords st)); ("deletePending", JBool (rsDeletePending st));
        ("tombstone", JBool (rsTombstone st)); ("heads", json_appended (rsHeads st));
        ("headsDigest", JStr (rsHeadsDigest st)); ("stateDigest", JStr (rsStateDigest st));
        ("height", json_N (rsHeight st)); ("revisionCount", json_N (rsRevisionCount st))].
Definition reduced_folder_json (st : ReducedFolderState) : json :=
  JObj ([("folderId", JStr (rfFolderID st)); ("snapshotId", JStr (rfSnapshotID st));
         ("name", JStr (rfName st))] ++
        omit_if (String.eqb (rfRole st) "") "role" (JStr (rfRole st)) ++
        [("tombstone", JBool (rfTombstone st)); ("heads", json_appended (rfHeads st));
         ("headsDigest", JStr (rfHeadsDigest st)); ("stateDigest", JStr (rfStateDigest st));
         ("height", json_N (rfHeight st)); ("revisionCount", json_N (rfRevisionCount st))]).

(** [writeSourceSealString] and [writeSourceSealJSON]: a varint length and the bytes. *)
Definition seal_json (j : json) : string := enc_string (print j).
Definition seal_message (m : MessageVersion) : string :=
  enc_string (mvRKey m) +:+ enc_string (mvCID m) +:+ seal_json (message_json (mvRecord m)).

Definition reduction_seal_preimage (st : ReducedSourceState) : string :=
  ("comail-official-source-reduction-v1" +:+ NUL) +:+
  concat_map enc_string [otOrigin (rzTarget st); otSpaceURI (rzTarget st); otRepoDID (rzTarget st);
    otEpoch (rzTarget st); rzRevision st; rzSnapshotID st; rzCommitCID st; rzIndexCID st] +:+
  enc_list seal_message (rzMessages st) +:+
  enc_list (λ s, seal_json (reduced_state_json s)) (rzMessageStates st) +:+
  enc_list (λ f, seal_json (reduced_folder_json f)) (rzFolders st).
Definition reduced_snapshotSeal (st : ReducedSourceState) : string := sha256 (reduction_seal_preimage st).

Definition set_rzSeal (st : ReducedSourceState) (seal : string) : ReducedSourceState :=
  MkReducedSource (rzTarget st) (rzRevision st) (rzSnapshotID st) (rzCommitCID st) (rzIndexCID st)
    (rzMessages st) (rzMessageStates st) (rzFolders st) seal.

Section reduced.
Context `{Syntax}.

Definition reduced_valid (st : ReducedSourceState) : bool :=
  String.eqb (otEpoch (rzTarget st)) PinnedEpoch && validCanonicalDID (otRepoDID (rzTarget st)) &&
  validSHA256Identifier (rzSnapshotID st) && negb (String.eqb (rzRevision st) "") &&
  negb (String.eqb (rzCommitCID st) "") && negb (String.eqb (rzIndexCID st) "") &&
  (0 <? llen (rzFolders st)) && String.eqb (rzSeal st) (reduced_snapshotSeal st).

(** The accessors answer for a valid value only; a nil pointer is [None].  The clones they
    return differ from the slices by identity only. *)
Definition reduced_guarded {A} (st : option ReducedSourceState) (zero : A) (get : ReducedSourceState → A) : A :=
  match st with Some st => if reduced_valid st then get st else zero | None => zero end.
Definition reduced_Target (st : option ReducedSourceState) : SpacesTarget := reduced_guarded st zero_spaces_target rzTarget.
Definition reduced_Revision (st : option ReducedSourceState) : string := reduced_guarded st "" rzRevision.
Definition reduced_SnapshotID (st : option ReducedSourceState) : string := reduced_guarded st "" rzSnapshotID.
Definition reduced_CommitCID (st : option ReducedSourceState) : string := reduced_guarded st "" rzCommitCID.
Definition reduced_IndexCID (st : option ReducedSourceState) : string := reduced_guarded st "" rzIndexCID.
Definition reduced_Messages (st : option ReducedSourceState) : list MessageVersion := reduced_guarded st [] rzMessages.
Definition reduced_MessageStates (st : option ReducedSourceState) : list ReducedState :=
  reduced_guarded st [] rzMessageStates.
Definition reduced_Folders (st : option ReducedSourceState) : list ReducedFolderState := reduced_guarded st [] rzFolders.
Definition reduced_ValidateSeal (st : option ReducedSourceState) : result unit :=
  reduced_guarded st (Err ErrSourceReduction) (λ _, Ok tt).

End reduced.

(** ** From DAG-CBOR to the records *)

(** A Go map marshalled as JSON: one member per key, sorted. *)
Definition map_json (m : gmap string json) : json :=
  JObj (List.map (λ key, (key, default JNull (m !! key))) (sortedMapKeys m)).

Section decoders.
Context `{Ipld} `{CaseOrbits}.

Fixpoint officialNodeToLexJSON (n : node cid) (depth : N) : result json :=
  if 128 <? depth then Err ErrResourceLimit
  else match n with
  | NMap l =>
      let? m := (fix members (l : list (string * node cid)) (m : gmap string json) : result (gmap string json) :=
        match l with
        | [] => Ok m
        | (key, value) :: l' => let? x := officialNodeToLexJSON value (depth + 1) in members l' (<[key := x]> m)
        end) l ∅ in
      Ok (map_json m)
  | NList l =>
      let? r := (fix elements (l : list (node cid)) : result (list json) :=
        match l with
        | [] => Ok []
        | value :: l' =>
            let? x := officialNodeToLexJSON value (depth + 1) in
            let? r := elements l' in Ok (x :: r)
        end) l in
      Ok (JArr r)
  | NBool b => Ok (JBool b)
  | NInt z => let? z := opt_result (AsInt n) ErrOther in Ok (json_Z z)
  | NString s => Ok (JStr s)
  | NLink c => fail_if negb (cid_Defined c) with ErrInvalidRevision ;; Ok (JObj [("$link", JStr (cid_String c))])
  | NNull | NFloat _ | NBytes _ => Err ErrInvalidRevision
  end.

Definition officialRecordJSON (encoded : string) : result (string * node cid) :=
  fail_if (len encoded =? 0) || (maxRevisionRecordBytes <? len encoded) with ErrResourceLimit ;;
  let? n := opt_result (dagcbor_Decode encoded) ErrInvalidRevision in
  fail_if match n with NMap _ => false | _ => true end with ErrInvalidRevision ;;
  let? lexValue := officialNodeToLexJSON n 0 in
  let jsonValue := print lexValue in
  fail_if maxRevisionRecordBytes <? len jsonValue with ErrResourceLimit ;;
  Ok (jsonValue, n).

Definition decodeOfficialMessageRevision (encoded : string) : result RevisionRecord :=
  let? (jsonValue, _) := officialRecordJSON encoded in DecodeRevisionRecord jsonValue.
Definition decodeOfficialMessageClaim (encoded : string) : result OperationClaimRecord :=
  let? (jsonValue, _) := officialRecordJSON encoded in DecodeOperationClaimRecord jsonValue.
Definition decodeOfficialFolderRevision (encoded : string) : result FolderRevisionRecord :=
  let? (jsonValue, _) := officialRecordJSON encoded in DecodeFolderRevisionRecord jsonValue.
Definition decodeOfficialFolderClaim (encoded : string) : result FolderOperationClaimRecord :=
  let? (jsonValue, _) := officialRecordJSON encoded in DecodeFolderOperationClaimRecord jsonValue.

(** The fields of a message record, strict at every level. *)
Definition strict_message_fields : list (field MessageRecord) :=
  List.map (λ f, if String.eqb f.1 "raw" then mk_field "raw" (decode_strict strict_blob_fields) mrRaw set_mrRaw else f)
    message_fields.
Definition decodeOfficialStrictJSON (encoded : string) : result MessageRecord :=
  decode_one (λ j, decode_strict strict_message_fields j zero_message) encoded.

Definition decodeOfficialMessage (encoded : string) : result MessageRecord :=
  let? (jsonValue, n) := officialRecordJSON encoded in
  match LookupByString n "raw" with
  | Some (NMap raw) =>
      match lookup_key raw "ref" with
      | Some (NLink _) => or_error (decodeOfficialStrictJSON jsonValue) ErrIntegrity
      | _ => Err ErrIntegrity
      end
  | _ => Err ErrIntegrity
  end.

End decoders.

(** ** Validation of a record *)

Definition validLowerHex (value : string) (byteLength : N) : bool :=
  if negb (len value =? byteLength * 2) || negb (String.eqb value (ToLower value)) then false
  else match hex_decode value with Some decoded => len decoded =? byteLength | None => false end.

Definition validOptionalText (value : string) (limit : N) : bool :=
  (len value <=? limit) && utf8_valid value && negb (ContainsAny value newline_chars).

Section validation.
Context `{Syntax} `{Ipld}.

Definition validOfficialRecordCID (value : cid) : bool := sha256_cid codec_DagCBOR value.

(** [time.Parse] is asked only about texts that are present. *)
Definition optional_time (value : string) : bool := String.eqb value "" || parse_RFC3339Nano value.

Definition validateOfficialMessage (repoDID rkey : string) (record : MessageRecord) : result unit :=
  fail_if negb (String.eqb (mrType record) MessageCollection) || negb (validSHA256Identifier rkey) ||
    negb (String.eqb (mrDeliveryFingerprint record) rkey) ||
    negb (validSHA256Identifier (mrLogicalMessageID record)) ||
    negb (String.eqb (mrLogicalMessageID record) (LogicalMessageID repoDID (mrSourceKey record) rkey)) ||
    negb (String.eqb (brType (mrRaw record)) "blob") ||
    negb (String.eqb (brMIMEType (mrRaw record)) MessageMIMEType) ||
    negb (brSize (mrRaw record) =? mrSize record)%Z || (mrSize record <? 1)%Z ||
    (Z.of_N MaxRawMessageBytes <? mrSize record)%Z ||
    negb (validLowerHex (mrSHA256 record) 32) || negb (validText (mrInitialMailbox record) 255) ||
    (512 <? len (mrSourceKey record)) || negb (utf8_valid (mrSourceKey record)) ||
    negb (validOptionalText (mrSourceMessageID record) 998) ||
    negb (validOptionalText (mrInReplyTo record) 998) || (100 <? llen (elems (mrReferences record)))
    with ErrIntegrity ;;
  let? _ := range_check (λ reference,
      fail_if negb (validOptionalText reference 998) || String.eqb reference "" with ErrIntegrity ;; Ok tt)
    (elems (mrReferences record)) in
  let? _ := range_check (λ value, fail_if negb (optional_time value) with ErrIntegrity ;; Ok tt)
    [mrDeliveredAt record; mrMessageDate record] in
  let? blobCID := opt_result (cid_Parse (brLink (mrRaw record))) ErrIntegrity in
  fail_if negb (sha256_cid codec_Raw blobCID) with ErrIntegrity ;;
  let? claimedHash := opt_result (hex_decode (mrSHA256 record)) ErrIntegrity in
  let? digest := opt_result (cid_Digest blobCID) ErrIntegrity in
  fail_if negb (String.eqb digest claimedHash) with ErrIntegrity ;;
  Ok tt.

Definition validateOfficialSourceRecord (record : SourceRecord) : result unit :=
  fail_if String.eqb (soCollection record) "" || String.eqb (soRKey record) "" || (len (soValue record) =? 0)
    with ErrIncompleteSnapshot ;;
  fail_if negb (ParseRecordKey (soRKey record)) with ErrIncompleteSnapshot ;;
  let? parsed := opt_result (cid_Parse (soCID record)) ErrIncompleteSnapshot in
  fail_if negb (validOfficialRecordCID parsed) with ErrIncompleteSnapshot ;;
  let? recomputed := opt_result (cid_Sum parsed (soValue record)) ErrIncompleteSnapshot in
  fail_if negb (bool_decide (recomputed = parsed)) with ErrIncompleteSnapshot ;;
  Ok tt.

Record officialSpacesInventory : Type := MkInventory {
  oiTarget : SpacesTarget;
  oiRevision : string;
  oiSnapshotID : string;
  oiCommitCID : string;
  oiIndexCID : string;
  oiRecords : list SourceRecord
}.

Definition validateOfficialInventoryIdentity (input : officialSpacesInventory) : result unit :=
  fail_if negb (String.eqb (otEpoch (oiTarget input)) PinnedEpoch) || String.eqb (otOrigin (oiTarget input)) "" ||
    String.eqb (otSpaceURI (oiTarget input)) "" || negb (validCanonicalDID (otRepoDID (oiTarget input))) ||
    negb (validSHA256Identifier (oiSnapshotID input)) || (maxOfficialSourceRecords <? llen (oiRecords input))
    with ErrIncompleteSnapshot ;;
  fail_if negb (ParseTID (oiRevision input)) with ErrIncompleteSnapshot ;;
  range_check (λ encoded,
    let? parsed := opt_result (cid_Parse encoded) ErrIncompleteSnapshot in
    fail_if negb (validOfficialRecordCID parsed) with ErrIncompleteSnapshot ;; Ok tt)
    [oiCommitCID input; oiIndexCID input].

End validation.
