(* ===== verification/Reduction.v ===== *)
(** * The reduction of a source-authenticated repository

    Models the reducing half of src/internal/mailboxstate/officialspaces_recovery.go: the loop
    over the records, [reduceOfficialFolders], [reduceOfficialMessages] and
    [ReduceOfficialSpacesSource].  Recovered.v states what it promises and proves it. *)
From S2P Require Import Prelude Sha256 GoStd Syntax Unicode Json Mailbox Repository Canonical Causal Revision.
From S2P Require Import FolderRevision Decode Ipld Car Url SpacesWire Snapshot Recovery.

(** ** Maps built by appending and by inserting *)

Section groups.
Context {A : Type}.

(** [m[key] = append(m[key], x)]. *)
Definition push (m : gmap string (list A)) (kx : string * A) : gmap string (list A) :=
  <[kx.1 := default [] (m !! kx.1) ++ [kx.2]]> m.
(** [if m[key] == nil { m[key] = make(...) }; m[key][k] = x]. *)
Definition put (m : gmap string (gmap string A)) (kx : string * (string * A)) : gmap string (gmap string A) :=
  <[kx.1 := <[kx.2.1 := kx.2.2]> (default ∅ (m !! kx.1))]> m.

(** A map filled in a loop. *)
Definition map_of (l : list (string * A)) : gmap string A := fold_left (λ m kv, <[kv.1 := kv.2]> m) l ∅.

(** [for … { if err := ctx.Err(); err != nil { return err }; … }] *)
Definition polled {S} (f : S → A → result S) (s : context * S) (a : A) : result (context * S) :=
  let? ctx := poll s.1 in
  let? s' := f s.2 a in
  Ok (ctx, s').

End groups.

(** ** The loop over the records *)

(** What the switch decodes a record into, before it updates the maps. *)
Inductive record_event : Type :=
  | MessageEvent (message : MessageVersion)
  | RevisionEvent (revision : StateRevision)
  | ClaimEvent (logicalMessageID rkey revisionRKey : string)
  | FolderEvent (revision : FolderStateRevision)
  | FolderClaimEvent (folderID rkey revisionRKey : string).

Section decoding.
Context `{Syntax} `{Ipld} `{CaseOrbits}.

Definition official_event (repoDID : string) (source : SourceRecord) : result record_event :=
  if String.eqb (soCollection source) MessageCollection then
    let? record := or_error (decodeOfficialMessage (soValue source)) ErrIntegrity in
    let? _ := or_error (validateOfficialMessage repoDID (soRKey source) record) ErrIntegrity in
    Ok (MessageEvent (MkMessageVersion (soRKey source) (soCID source) record))
  else if String.eqb (soCollection source) MessageStateRevisionCollection then
    let? record := decodeOfficialMessageRevision (soValue source) in
    Ok (RevisionEvent (MkStateRevision (soRKey source) record))
  else if String.eqb (soCollection source) MessageStateOperationCollection then
    let? record := or_error (decodeOfficialMessageClaim (soValue source)) ErrInvalidRevision in
    fail_if negb (String.eqb (ocType record) MessageStateOperationCollection) with ErrInvalidRevision ;;
    let? expected := or_error
      (OperationClaimRKey repoDID (ocLogicalMessageID record) (ocOperationID record)) ErrOperationCollision in
    fail_if negb (String.eqb expected (soRKey source)) with ErrOperationCollision ;;
    Ok (ClaimEvent (ocLogicalMessageID record) (soRKey source) (ocRevisionRKey record))
  else if String.eqb (soCollection source) FolderRevisionCollection then
    let? record := decodeOfficialFolderRevision (soValue source) in
    Ok (FolderEvent (MkFolderStateRevision (soRKey source) record))
  else if String.eqb (soCollection source) FolderOperationCollection then
    let? record := or_error (decodeOfficialFolderClaim (soValue source)) ErrInvalidRevision in
    fail_if negb (String.eqb (focType record) FolderOperationCollection) with ErrInvalidRevision ;;
    let? expected := or_error
      (FolderOperationClaimRKey repoDID (focFolderID record) (focOperationID record)) ErrOperationCollision in
    fail_if negb (String.eqb expected (soRKey source)) with ErrOperationCollision ;;
    Ok (FolderClaimEvent (focFolderID record) (soRKey source) (focRevisionRKey record))
  else Err ErrIncompleteSnapshot.

End decoding.

Record inventory_maps : Type := MkMaps {
  imMessages : list MessageVersion;
  imVersionOwners : gmap string string;
  imVersionsByLogical : gmap string (gmap string string);
  imMessageRevisions : gmap string (list StateRevision);
  imMessageClaims : gmap string (gmap string string);
  imFolderRevisions : gmap string (list FolderStateRevision);
  imFolderClaims : gmap string (gmap string string)
}.
Definition empty_maps : inventory_maps := MkMaps [] ∅ ∅ ∅ ∅ ∅ ∅.

(** The updates of the switch. *)
Definition add_event (s : inventory_maps) (e : record_event) : result inventory_maps :=
  let '(MkMaps messages owners versions revisions claims folders folderClaims) := s in
  match e with
  | MessageEvent m =>
      let logicalID := mrLogicalMessageID (mvRecord m) in
      fail_if is_some (owners !! mvRKey m) with ErrIncompleteSnapshot ;;
      Ok (MkMaps (messages ++ [m]) (<[mvRKey m := logicalID]> owners)
            (put versions (logicalID, (mvRKey m, logicalID))) revisions claims folders folderClaims)
  | RevisionEvent r =>
      Ok (MkMaps messages owners versions (push revisions (rrLogicalMessageID (srRecord r), r)) claims
            folders folderClaims)
  | ClaimEvent logicalID rkey revision =>
      Ok (MkMaps messages owners versions revisions (put claims (logicalID, (rkey, revision))) folders folderClaims)
  | FolderEvent f =>
      Ok (MkMaps messages owners versions revisions claims (push folders (frFolderID (fsRecord f), f)) folderClaims)
  | FolderClaimEvent folderID rkey revision =>
      Ok (MkMaps messages owners versions revisions claims folders (put folderClaims (folderID, (rkey, revision))))
  end.

Definition record_path (r : SourceRecord) : string := soCollection r +:+ "/" +:+ soRKey r.

Definition official_record `{Syntax} `{Ipld} `{CaseOrbits} (repoDID : string)
    (s : gset string * inventory_maps) (source : SourceRecord) : result (gset string * inventory_maps) :=
  let path := record_path source in
  fail_if bool_decide (path ∈ s.1) with ErrIncompleteSnapshot ;;
  let? _ := validateOfficialSourceRecord source in
  let? e := official_event repoDID source in
  let? maps := add_event s.2 e in
  Ok ({[path]} ∪ s.1, maps).

(** ** The two reductions *)

Definition seal_folder_snapshot (v : VerifiedFolderSnapshot) : VerifiedFolderSnapshot :=
  MkVerifiedFolderSnapshot (vfSnapshotID v) (vfFolderID v) (vfRevisionCount v) (vfOperationClaims v)
    (VerifiedFolderSnapshot_snapshotSeal v).
Definition seal_folder_set (v : VerifiedFolderSetSnapshot) : VerifiedFolderSetSnapshot :=
  MkVerifiedFolderSetSnapshot (vzSnapshotID v) (vzRepoDID v) (vzFolderCount v) (vzStateDigests v)
    (VerifiedFolderSetSnapshot_snapshotSeal v).
Definition seal_message_snapshot (v : VerifiedSnapshot) : VerifiedSnapshot :=
  MkVerifiedSnapshot (vsSnapshotID v) (vsLogicalMessageID v) (vsRevisionCount v) (vsOperationClaims v)
    (vsVersions v) (vsFolders v) (VerifiedSnapshot_snapshotSeal v).

(** The maps over the folder states. *)
Definition state_digests (states : list ReducedFolderState) : gmap string string :=
  map_of ((λ st, (rfFolderID st, rfStateDigest st)) <$> states).
Definition folder_references (states : list ReducedFolderState) : gmap string verifiedFolderReference :=
  map_of ((λ st, (rfFolderID st, MkFolderReference (rfStateDigest st) (rfTombstone st))) <$> states).

Section reductions.
Context `{Syntax} `{CaseOrbits} (repoDID snapshotID : string).

(** The body of the loop for one folder. *)
Definition reduced_folder (revisions : gmap string (list FolderStateRevision))
    (claims : gmap string (gmap string string)) (folderID : string) : result ReducedFolderState :=
  let folderRevisions := default [] (revisions !! folderID) in
  let? folderClaims := opt_result (claims !! folderID) ErrIncompleteSnapshot in
  fail_if negb (msize folderClaims =? llen folderRevisions) with ErrIncompleteSnapshot ;;
  ReduceFolder repoDID folderID folderRevisions
    (seal_folder_snapshot (MkVerifiedFolderSnapshot snapshotID folderID (llen folderRevisions) folderClaims "")).
Definition reduce_one_folder (revisions : gmap string (list FolderStateRevision))
    (claims : gmap string (gmap string string)) (states : list ReducedFolderState) (folderID : string) :
    result (list ReducedFolderState) :=
  let? state := reduced_folder revisions claims folderID in
  Ok (states ++ [state]).

Definition reduceOfficialFolders (ctx : context) (revisions : gmap string (list FolderStateRevision))
    (claims : gmap string (gmap string string)) :
    result (context * (list ReducedFolderState * gmap string verifiedFolderReference)) :=
  fail_if (msize revisions =? 0) || (maxFolderCount <? msize revisions) || negb (msize claims =? msize revisions)
    with ErrIncompleteSnapshot ;;
  let? (ctx, states) := range (polled (reduce_one_folder revisions claims)) (sortedMapKeys revisions) (ctx, []) in
  let setSnapshot := seal_folder_set
    (MkVerifiedFolderSetSnapshot snapshotID repoDID (llen states) (state_digests states) "") in
  let? _ := ValidateFolderSet repoDID states setSnapshot in
  Ok (ctx, (states, folder_references states)).

(** The versions the revisions of one message name. *)
Definition add_versions (referenced : gset string) (revisions : list StateRevision) : gset string :=
  fold_left (λ s r, if negb (String.eqb (rrVersion (srRecord r)) "") then {[rrVersion (srRecord r)]} ∪ s else s)
    revisions referenced.

Definition reduced_message (versions : gmap string (gmap string string))
    (revisions : gmap string (list StateRevision)) (claims : gmap string (gmap string string))
    (folders : gmap string verifiedFolderReference) (logicalID : string) : result ReducedState :=
  let messageRevisions := default [] (revisions !! logicalID) in
  let? logicalVersions := opt_result (versions !! logicalID) ErrIncompleteSnapshot in
  let? logicalClaims := opt_result (claims !! logicalID) ErrIncompleteSnapshot in
  fail_if negb (msize logicalClaims =? llen messageRevisions) with ErrIncompleteSnapshot ;;
  Reduce repoDID logicalID messageRevisions
    (seal_message_snapshot (MkVerifiedSnapshot snapshotID logicalID (llen messageRevisions) logicalClaims
       logicalVersions folders "")).
(** One round of the loop: a state is appended and the versions named are collected. *)
Definition reduce_one_message (versions : gmap string (gmap string string))
    (revisions : gmap string (list StateRevision)) (claims : gmap string (gmap string string))
    (folders : gmap string verifiedFolderReference) (s : list ReducedState * gset string) (logicalID : string) :
    result (list ReducedState * gset string) :=
  let? state := reduced_message versions revisions claims folders logicalID in
  Ok (s.1 ++ [state], add_versions s.2 (default [] (revisions !! logicalID))).

Definition reduceOfficialMessages (ctx : context) (versions : gmap string (gmap string string))
    (revisions : gmap string (list StateRevision)) (claims : gmap string (gmap string string))
    (folders : gmap string verifiedFolderReference) :
    result (context * (list ReducedState * gset string)) :=
  fail_if negb (msize revisions =? msize versions) || negb (msize claims =? msize revisions)
    with ErrIncompleteSnapshot ;;
  fail_if (0 <? msize folders) && (maxOfficialFolderMessageBindings / msize folders <? msize revisions)
    with ErrResourceLimit ;;
  range (polled (reduce_one_message versions revisions claims folders)) (sortedMapKeys revisions) (ctx, ([], ∅)).

End reductions.

(** ** The whole reduction *)

(** [slices.SortFunc] by a text key; the keys are distinct, so the order is determined. *)
Definition key_le {A} (key : A → string) (a b : A) : Prop := str_le (key a) (key b).
#[export] Instance key_le_dec {A} (key : A → string) : RelDecision (key_le key).
Proof. intros a b. unfold key_le. apply _. Defined.
Definition sort_by {A} (key : A → string) (l : list A) : list A := merge_sort (key_le key) l.

Section reduction.
Context `{Syntax} `{Ipld} `{CaseOrbits}.

Definition reduceOfficialSpacesInventory (ctx : context) (input : officialSpacesInventory) :
    result ReducedSourceState :=
  let repoDID := otRepoDID (oiTarget input) in
  let? _ := validateOfficialInventoryIdentity input in
  let? (ctx, (_, maps)) := range (polled (official_record repoDID)) (oiRecords input) (ctx, (∅, empty_maps)) in
  let? (ctx, (folders, references)) :=
    reduceOfficialFolders repoDID (oiSnapshotID input) ctx (imFolderRevisions maps) (imFolderClaims maps) in
  let? (_, (states, referencedVersions)) :=
    reduceOfficialMessages repoDID (oiSnapshotID input) ctx (imVersionsByLogical maps) (imMessageRevisions maps)
      (imMessageClaims maps) references in
  fail_if negb (llen states =? msize (imVersionsByLogical maps)) with ErrIncompleteSnapshot ;;
  let? _ := range_check (λ version,
      fail_if negb (bool_decide (version ∈ referencedVersions)) with ErrIncompleteSnapshot ;; Ok tt)
    (map_to_list (imVersionOwners maps)).*1 in
  let result := MkReducedSource (oiTarget input) (oiRevision input) (oiSnapshotID input) (oiCommitCID input)
    (oiIndexCID input) (sort_by mvRKey (imMessages maps)) (sort_by rsLogicalMessageID states)
    (sort_by rfFolderID folders) "" in
  Ok (set_rzSeal result (reduced_snapshotSeal result)).

Definition source_inventory (source : option SourceAuthenticatedRepository) : officialSpacesInventory :=
  MkInventory (source_Target source) (source_Revision source) (source_SnapshotID source)
    (source_CommitCID source) (source_IndexCID source) (source_Records source).

(** The capability is a value here, so the second check of its seal repeats the first. *)
Definition ReduceOfficialSpacesSource (ctx : context) (source : option SourceAuthenticatedRepository) :
    result ReducedSourceState :=
  let? ctx := poll ctx in
  fail_if negb (is_ok (source_ValidateSeal source)) with ErrSourceReduction ;;
  match reduceOfficialSpacesInventory ctx (source_inventory source) with
  | Err e => if is_ctx_error e then Err e else Err ErrSourceReduction
  | Ok result =>
      fail_if negb (is_ok (source_ValidateSeal source)) with ErrSourceReduction ;; Ok result
  end.

End reduction.
