(* ===== verification/Recovered.v ===== *)
(** * What the reduction of a source promises

    The abstract specification of Reduction.v and its proof.  The maps of the code are functions
    of the list of decoded records ([maps_of]); [complete_source] says which repositories are
    admissible and [recovered] what they mean.  The theorems: the reduction implements exactly
    that contract, does not depend on the order of the records, notices every withheld record,
    refers only to itself, and fails with one redacted error. *)
From S2P Require Import Prelude Sha256 GoStd Syntax Unicode Json Mailbox Repository Canonical Causal Revision.
From S2P Require Import FolderRevision Decode Ipld Car Url SpacesWire Http Client Snapshot SourceRead Sample Recovery Reduction.

(** ** Grouped lists

    The maps of the reduction as functions of the list of their insertions. *)

Definition of_key {A} (key : string) (l : list (string * A)) : list A := (filter (λ kx, kx.1 = key) l).*2.
(** The keys of a list of pairs, each once, in order. *)
Definition sorted_keys {A} (l : list (string * A)) : list string := sort_strings (remove_dups l.*1).

Definition nonempty_list {A} (l : list A) : option (list A) := match l with [] => None | _ => Some l end.

Section grouped.
Context {A : Type}.
Implicit Types (l : list (string * A)) (g : list (string * (string * A))).

Lemma of_key_snoc {B} k (l : list (string * B)) kx :
  of_key k (l ++ [kx]) = of_key k l ++ (if decide (kx.1 = k) then [kx.2] else []).
Proof.
  unfold of_key. rewrite filter_app, fmap_app. f_equal. rewrite filter_cons, filter_nil.
  by destruct (decide (kx.1 = k)).
Qed.

Lemma of_key_perm {B} k (l l' : list (string * B)) : l ≡ₚ l' → of_key k l ≡ₚ of_key k l'.
Proof. intros Hp. unfold of_key. by rewrite Hp. Qed.

Lemma elem_of_of_key {B} k (l : list (string * B)) x : x ∈ of_key k l ↔ (k, x) ∈ l.
Proof.
  unfold of_key. rewrite list_elem_of_fmap. split.
  - intros ([k' x'] & -> & Hin). apply list_elem_of_filter in Hin as [Hk Hin]. simpl in *. by subst.
  - intros Hin. exists (k, x). split; [done|]. by apply list_elem_of_filter.
Qed.

Lemma of_key_nil {B} k (l : list (string * B)) : of_key k l = [] ↔ k ∉ l.*1.
Proof.
  split.
  - intros He Hin. apply list_elem_of_fmap in Hin as ([k' x] & -> & Hin). simpl in He.
    apply elem_of_of_key in Hin. rewrite He in Hin. set_solver.
  - intros Hn. destruct (of_key k l) as [|x r] eqn:He; [done|]. destruct Hn.
    assert (Hx : x ∈ of_key k l) by (rewrite He; set_solver).
    apply elem_of_of_key in Hx. apply list_elem_of_fmap. by exists (k, x).
Qed.

Lemma push_lookup l (k : string) : fold_left push l ∅ !! k = nonempty_list (of_key k l).
Proof.
  induction l as [|kx l IH] using rev_ind; [done|].
  rewrite fold_left_app, of_key_snoc. simpl. unfold push at 1. case_decide as Hk.
  - rewrite <- Hk, lookup_insert_eq in *. rewrite IH. destruct (of_key kx.1 l); done.
  - rewrite lookup_insert_ne by done. by rewrite app_nil_r.
Qed.

Lemma map_of_snoc l kv : map_of (l ++ [kv]) = <[kv.1 := kv.2]> (map_of l).
Proof. unfold map_of. by rewrite fold_left_app. Qed.

Lemma put_lookup g (k : string) : fold_left put g ∅ !! k = map_of <$> nonempty_list (of_key k g).
Proof.
  induction g as [|kx g IH] using rev_ind; [done|].
  rewrite fold_left_app, of_key_snoc. simpl. unfold put at 1. case_decide as Hk.
  - rewrite <- Hk, lookup_insert_eq in *. rewrite IH.
    destruct (of_key kx.1 g) as [|y r] eqn:E; [done|]. rewrite <- app_comm_cons. simpl.
    by rewrite app_comm_cons, map_of_snoc.
  - rewrite lookup_insert_ne by done. by rewrite app_nil_r.
Qed.

Lemma put_lookup_in g (k : string) : k ∈ g.*1 → fold_left put g ∅ !! k = Some (map_of (of_key k g)).
Proof. rewrite put_lookup. intros Hk. destruct (of_key k g) eqn:E; [by apply of_key_nil in E|done]. Qed.
Lemma put_lookup_out g (k : string) : k ∉ g.*1 → fold_left put g ∅ !! k = None.
Proof. rewrite put_lookup. intros Hk. apply of_key_nil in Hk. by rewrite Hk. Qed.
Lemma push_default l (k : string) : default [] (fold_left push l ∅ !! k) = of_key k l.
Proof. rewrite push_lookup. by destruct (of_key k l). Qed.

Lemma map_of_None l (k : string) : map_of l !! k = None ↔ k ∉ l.*1.
Proof.
  induction l as [|kv l IH] using rev_ind; [split; [set_solver|done]|].
  rewrite map_of_snoc, fmap_app, lookup_insert_None, IH. set_solver.
Qed.

Lemma map_of_Some l (k : string) x : NoDup l.*1 → map_of l !! k = Some x ↔ (k, x) ∈ l.
Proof.
  induction l as [|kv l IH] using rev_ind; [intros _; split; [done|set_solver]|].
  rewrite map_of_snoc, fmap_app. intros Hnd. apply NoDup_app in Hnd as (Hnd & Hdis & _).
  rewrite elem_of_app, list_elem_of_singleton, <- IH by done. destruct kv as [k' x']. simpl in *.
  destruct (decide (k' = k)) as [->|Hne].
  - rewrite lookup_insert_eq. split; [intros [= ->]; auto|]. intros [Hl|[= ->]]; [|done].
    exfalso. apply (Hdis k); [|set_solver].
    destruct (decide (k ∈ l.*1)) as [|Hk]; [done|]. apply map_of_None in Hk. congruence.
  - rewrite lookup_insert_ne by done. naive_solver.
Qed.

Lemma map_of_perm l l' : NoDup l.*1 → l ≡ₚ l' → map_of l = map_of l'.
Proof.
  intros Hnd Hp. apply map_eq. intros k. apply option_eq. intros x.
  rewrite !map_of_Some by (by rewrite <- ?Hp). by rewrite Hp.
Qed.

Lemma dom_map_of l : dom (map_of l) = list_to_set l.*1.
Proof.
  apply set_eq. intros k. rewrite elem_of_dom, elem_of_list_to_set.
  destruct (decide (k ∈ l.*1)) as [Hk|Hk].
  - split; [done|]. intros _. destruct (map_of l !! k) eqn:E; [eauto|]. by apply map_of_None in E.
  - split; [|done]. intros [x Hx]. apply map_of_None in Hk. congruence.
Qed.

Lemma msize_map_of l : NoDup l.*1 → msize (map_of l) = llen l.
Proof.
  intros Hnd. unfold msize, llen. f_equal. rewrite <- size_dom, dom_map_of.
  rewrite size_list_to_set by done. by rewrite length_fmap.
Qed.

(** The sorted keys of any map with the right domain. *)
Lemma sortedMapKeys_dom {V} (m : gmap string V) l :
  (∀ k : string, is_Some (m !! k) ↔ k ∈ l.*1) → sortedMapKeys m = sorted_keys l.
Proof.
  intros Hd. apply sort_strings_proper. apply NoDup_Permutation.
  - apply NoDup_fst_map_to_list.
  - apply NoDup_remove_dups.
  - intros k. rewrite elem_of_remove_dups, <- Hd. rewrite list_elem_of_fmap. split.
    + intros ([k' v] & -> & Hin). apply elem_of_map_to_list in Hin. eauto.
    + intros [v Hv]. exists (k, v). split; [done|]. by apply elem_of_map_to_list.
Qed.

Lemma msize_sortedMapKeys {V} (m : gmap string V) : msize m = llen (sortedMapKeys m).
Proof.
  unfold msize, llen, sortedMapKeys. rewrite length_sort_strings, length_fmap. by rewrite length_map_to_list.
Qed.

Lemma elem_of_sorted_keys {B} (l : list (string * B)) k : k ∈ sorted_keys l ↔ k ∈ l.*1.
Proof. unfold sorted_keys. by rewrite elem_of_sort_strings, elem_of_remove_dups. Qed.

Lemma sorted_keys_perm {B} (l l' : list (string * B)) : l ≡ₚ l' → sorted_keys l = sorted_keys l'.
Proof.
  intros Hp. apply sort_strings_proper, NoDup_Permutation; try apply NoDup_remove_dups.
  intros k. rewrite !elem_of_remove_dups. by rewrite Hp.
Qed.

Lemma sorted_keys_nodup {B} (l : list (string * B)) : NoDup (sorted_keys l).
Proof. unfold sorted_keys. rewrite sort_strings_perm. apply NoDup_remove_dups. Qed.

Lemma push_dom l (k : string) : is_Some (fold_left push l ∅ !! k) ↔ k ∈ l.*1.
Proof.
  rewrite push_lookup. destruct (decide (k ∈ l.*1)) as [Hk|Hk].
  - split; [done|]. intros _. destruct (of_key k l) eqn:E; [by apply of_key_nil in E|simpl; eauto].
  - split; [|done]. apply of_key_nil in Hk. rewrite Hk. by intros [].
Qed.

Lemma put_dom g (k : string) : is_Some (fold_left put g ∅ !! k) ↔ k ∈ g.*1.
Proof.
  rewrite put_lookup. destruct (decide (k ∈ g.*1)) as [Hk|Hk].
  - split; [done|]. intros _. destruct (of_key k g) eqn:E; [by apply of_key_nil in E|simpl; eauto].
  - split; [|done]. apply of_key_nil in Hk. rewrite Hk. by intros [].
Qed.

End grouped.

(** ** Polled loops *)

Section polls.
Context {S A : Type} (f : S → A → result S).

Lemma polled_ok l ctx s ctx' s' : range (polled f) l (ctx, s) = Ok (ctx', s') → range f l s = Ok s'.
Proof.
  revert ctx s. induction l as [|a l IH]; intros ctx s Hr; simpl in *; [by result_steps|].
  unfold polled at 1 in Hr. simpl in Hr. result_steps. by eapply IH.
Qed.

Lemma polled_background l s : range (polled f) l (background, s) = (let? s' := range f l s in Ok (background, s')).
Proof. revert s. induction l as [|a l IH]; intros s; [done|]. simpl. unfold polled at 1. simpl. destruct (f s a) as [s'|]; simpl; [apply IH|done]. Qed.

End polls.

(** ** Specification: the decoded records *)

Definition event_path (e : record_event) : string :=
  match e with
  | MessageEvent m => MessageCollection +:+ "/" +:+ mvRKey m
  | RevisionEvent r => MessageStateRevisionCollection +:+ "/" +:+ srRKey r
  | ClaimEvent _ rkey _ => MessageStateOperationCollection +:+ "/" +:+ rkey
  | FolderEvent f => FolderRevisionCollection +:+ "/" +:+ fsRKey f
  | FolderClaimEvent _ rkey _ => FolderOperationCollection +:+ "/" +:+ rkey
  end.

(** The records of one kind, under the identity they are grouped by. *)
Definition message_of (e : record_event) : option MessageVersion :=
  match e with MessageEvent m => Some m | _ => None end.
Definition revision_of (e : record_event) : option (string * StateRevision) :=
  match e with RevisionEvent r => Some (rrLogicalMessageID (srRecord r), r) | _ => None end.
Definition claim_of (e : record_event) : option (string * (string * string)) :=
  match e with ClaimEvent id rkey revision => Some (id, (rkey, revision)) | _ => None end.
Definition folder_of (e : record_event) : option (string * FolderStateRevision) :=
  match e with FolderEvent f => Some (frFolderID (fsRecord f), f) | _ => None end.
Definition folder_claim_of (e : record_event) : option (string * (string * string)) :=
  match e with FolderClaimEvent id rkey revision => Some (id, (rkey, revision)) | _ => None end.
Definition version_entry (m : MessageVersion) : string * (string * string) :=
  (mrLogicalMessageID (mvRecord m), (mvRKey m, mrLogicalMessageID (mvRecord m))).
Definition owner_entry (m : MessageVersion) : string * string := (mvRKey m, mrLogicalMessageID (mvRecord m)).

Definition messages (evs : list record_event) : list MessageVersion := omap message_of evs.
Definition versions (evs : list record_event) : list (string * (string * string)) := version_entry <$> messages evs.
Definition revisions (evs : list record_event) : list (string * StateRevision) := omap revision_of evs.
Definition claims (evs : list record_event) : list (string * (string * string)) := omap claim_of evs.
Definition folder_revisions (evs : list record_event) : list (string * FolderStateRevision) := omap folder_of evs.
Definition folder_claims (evs : list record_event) : list (string * (string * string)) := omap folder_claim_of evs.

(** The maps of the code, as functions of the decoded records. *)
Definition maps_of (evs : list record_event) : inventory_maps :=
  MkMaps (messages evs) (map_of (owner_entry <$> messages evs)) (fold_left put (versions evs) ∅)
    (fold_left push (revisions evs) ∅) (fold_left put (claims evs) ∅)
    (fold_left push (folder_revisions evs) ∅) (fold_left put (folder_claims evs) ∅).

(** *** Folders *)

Section spec.
Context `{Syntax} `{Ipld} `{CaseOrbits} (repoDID snapshotID : string).
Implicit Types evs : list record_event.

Definition folder_snapshot evs (folderID : string) : VerifiedFolderSnapshot :=
  seal_folder_snapshot (MkVerifiedFolderSnapshot snapshotID folderID
    (llen (of_key folderID (folder_revisions evs))) (map_of (of_key folderID (folder_claims evs))) "").
Definition folder_of_id evs (folderID : string) : ReducedFolderState :=
  folder_state folderID (folder_snapshot evs folderID) (of_key folderID (folder_revisions evs)).
Definition folder_states evs : list ReducedFolderState := folder_of_id evs <$> sorted_keys (folder_revisions evs).
Definition folder_set_of evs : VerifiedFolderSetSnapshot :=
  seal_folder_set (MkVerifiedFolderSetSnapshot snapshotID repoDID (llen (folder_states evs))
    (state_digests (folder_states evs)) "").

(** Every folder that has a revision or a claim has a complete history, and the folders form a
    valid set. *)
Record complete_folders evs : Prop := {
  fs_each folderID : folderID ∈ (folder_revisions evs).*1 ∨ folderID ∈ (folder_claims evs).*1 →
    complete_folder repoDID folderID (folder_snapshot evs folderID) (of_key folderID (folder_revisions evs));
  fs_set : folder_set repoDID (folder_set_of evs) (folder_states evs)
}.

(** *** Messages *)

Definition message_snapshot evs (logicalID : string) : VerifiedSnapshot :=
  seal_message_snapshot (MkVerifiedSnapshot snapshotID logicalID (llen (of_key logicalID (revisions evs)))
    (map_of (of_key logicalID (claims evs))) (map_of (of_key logicalID (versions evs)))
    (folder_references (folder_states evs)) "").
Definition message_of_id evs (logicalID : string) : ReducedState :=
  reduced_state logicalID (message_snapshot evs logicalID) (of_key logicalID (revisions evs)).
Definition message_states evs : list ReducedState := message_of_id evs <$> sorted_keys (revisions evs).

(** Every message that has a version, a revision or a claim has a complete history; every version
    is named by a revision; and the work is bounded. *)
Record complete_messages evs : Prop := {
  ms_each logicalID : logicalID ∈ (revisions evs).*1 ∨ logicalID ∈ (claims evs).*1 ∨ logicalID ∈ (versions evs).*1 →
    complete_inventory repoDID logicalID (message_snapshot evs logicalID) (of_key logicalID (revisions evs));
  ms_bindings : llen (message_states evs) * llen (folder_states evs) ≤ maxOfficialFolderMessageBindings;
  ms_referenced m : m ∈ messages evs →
    ∃ r, r ∈ (revisions evs).*2 ∧ rrVersion (srRecord r) = mvRKey m
}.

End spec.

(** *** The contract of the reduction *)

Section source_spec.
Context `{Syntax} `{Ipld} `{CaseOrbits} (input : officialSpacesInventory).

Definition repo : string := otRepoDID (oiTarget input).
(** [e] is what the record [r] decodes to. *)
Definition decodes (r : SourceRecord) (e : record_event) : Prop :=
  validateOfficialSourceRecord r = Ok tt ∧ official_event repo r = Ok e.

Record complete_source (evs : list record_event) : Prop := {
  so_identity : validateOfficialInventoryIdentity input = Ok tt;
  so_paths : NoDup (record_path <$> oiRecords input);
  so_records : Forall2 decodes (oiRecords input) evs;
  so_folders : complete_folders repo (oiSnapshotID input) evs;
  so_messages : complete_messages repo (oiSnapshotID input) evs
}.

Definition recovered (evs : list record_event) : ReducedSourceState :=
  let result := MkReducedSource (oiTarget input) (oiRevision input) (oiSnapshotID input) (oiCommitCID input)
    (oiIndexCID input) (sort_by mvRKey (messages evs)) (message_states (oiSnapshotID input) evs)
    (folder_states (oiSnapshotID input) evs) "" in
  set_rzSeal result (reduced_snapshotSeal result).

End source_spec.

(** ** The loop over the records builds the maps of the decoded records *)

Section records_loop.
Context `{Syntax} `{Ipld} `{CaseOrbits} (input : officialSpacesInventory).
Notation repoDID := (otRepoDID (oiTarget input)).

Lemma official_event_path r e : official_event repoDID r = Ok e → event_path e = record_path r.
Proof.
  unfold official_event, record_path. intros He.
  repeat match type of He with
  | (if ?b then _ else _) = Ok _ => destruct b eqn:?
  end; result_steps; bools; simpl; congruence.
Qed.

Lemma decodes_path l evs : Forall2 (decodes input) l evs → record_path <$> l = event_path <$> evs.
Proof.
  induction 1 as [|r e l evs [_ He] _ IH]; [done|]. rewrite !fmap_cons, IH.
  by rewrite (official_event_path _ _ He).
Qed.

Lemma add_event_ok evs e s' :
  add_event (maps_of evs) e = Ok s' ↔
  (∀ m, message_of e = Some m → mvRKey m ∉ (mvRKey <$> messages evs)) ∧ s' = maps_of (evs ++ [e]).
Proof.
  unfold maps_of, messages, versions, revisions, claims, folder_revisions, folder_claims, messages.
  rewrite !omap_app. destruct e as [m|r|id rkey rev|f|id rkey rev]; simpl.
  2-5: rewrite ?app_nil_r, ?fold_left_app; simpl; split; [intros [= <-]; by split|by intros [_ ->]].
  rewrite !app_nil_r, !fmap_app. simpl. rewrite fold_left_app, map_of_snoc. simpl. split.
  - intros Ha. result_steps. split; [|done]. intros ? [= <-] Hin.
    destruct (map_of _ !! mvRKey m) eqn:E; [done|]. apply map_of_None in E. destruct E.
    rewrite <- list_fmap_compose. exact Hin.
  - intros [Hm ->]. specialize (Hm m eq_refl).
    rewrite (proj2 (map_of_None _ _)); [done|]. rewrite <- list_fmap_compose. exact Hm.
Qed.

Lemma message_path evs m : m ∈ messages evs → MessageCollection +:+ "/" +:+ mvRKey m ∈ (event_path <$> evs).
Proof.
  unfold messages. rewrite list_elem_of_omap. intros (e & He & Hm). apply list_elem_of_fmap. exists e.
  destruct e; simpl in *; try done. by injection Hm as ->.
Qed.

Lemma fresh_message evs e m : event_path e ∉ (event_path <$> evs) →
  message_of e = Some m → mvRKey m ∉ (mvRKey <$> messages evs).
Proof.
  intros Hp Hm. destruct e; try done. injection Hm as ->. rewrite list_elem_of_fmap.
  intros (m' & Hk & Hin). apply Hp. simpl. rewrite Hk. by apply message_path.
Qed.

Lemma official_record_ok seen evs r s' : event_path <$> evs = seen →
  official_record repoDID (list_to_set seen, maps_of evs) r = Ok s' ↔
  record_path r ∉ seen ∧ ∃ e, decodes input r e ∧
    s' = (list_to_set (seen ++ [record_path r]), maps_of (evs ++ [e])).
Proof.
  intros Hseen. unfold official_record, decodes, repo. cbn [fst snd].
  assert (Hset : {[record_path r]} ∪ list_to_set seen = (list_to_set (seen ++ [record_path r]) : gset string))
    by (apply set_eq; set_solver).
  split.
  - intros Ho. case_bool_decide as Hp; [done|]. rewrite elem_of_list_to_set in Hp.
    destruct (validateOfficialSourceRecord r) as [[]|] eqn:Hv; [|done]. cbn [result_bind] in Ho.
    destruct (official_event _ r) as [e|] eqn:He; [|done]. cbn [result_bind] in Ho.
    destruct (add_event _ e) as [maps|] eqn:Ha; [|done]. cbn [result_bind] in Ho. injection Ho as <-.
    apply add_event_ok in Ha as [_ ->]. rewrite Hset. eauto.
  - intros (Hp & e & [Hv He] & ->). rewrite bool_decide_eq_false_2 by (by rewrite elem_of_list_to_set).
    rewrite Hv. cbn [result_bind]. rewrite He. cbn [result_bind].
    assert (Hfresh : ∀ m, message_of e = Some m → mvRKey m ∉ (mvRKey <$> messages evs))
      by (intros m; apply fresh_message; rewrite (official_event_path _ _ He); by rewrite Hseen).
    rewrite (proj2 (add_event_ok evs e _) (conj Hfresh eq_refl)). cbn [result_bind]. by rewrite Hset.
Qed.

Lemma records_pass_from l evs seen s' : NoDup seen → event_path <$> evs = seen →
  range (official_record repoDID) l (list_to_set seen, maps_of evs) = Ok s' ↔
  NoDup (seen ++ (record_path <$> l)) ∧ ∃ evs', Forall2 (decodes input) l evs' ∧
    s' = (list_to_set (seen ++ (record_path <$> l)), maps_of (evs ++ evs')).
Proof.
  revert evs seen. induction l as [|r l IH]; intros evs seen Hnd Hseen; simpl.
  - rewrite app_nil_r. split.
    + intros [= <-]. split; [done|]. exists []. by rewrite app_nil_r.
    + intros (_ & evs' & Hf & ->). apply Forall2_nil_inv_l in Hf as ->. by rewrite app_nil_r.
  - rewrite (cons_middle (record_path r) seen), app_assoc. split.
    + intros Hr. destruct (official_record _ _ _) as [s|] eqn:Eo; [|done]. simpl in Hr.
      apply (official_record_ok seen) in Eo as (Hp & e & Hd & ->); [|done].
      apply IH in Hr as (Hn & evs' & Hf & ->).
      * split; [done|]. exists (e :: evs'). split; [by constructor|].
        by rewrite (eq_sym (app_assoc evs [e] evs')).
      * apply NoDup_app. split_and!; [done|set_solver|apply NoDup_singleton].
      * rewrite fmap_app, Hseen. simpl. by rewrite (official_event_path _ _ (proj2 Hd)).
    + intros (Hn & evs' & Hf & ->). inversion Hf as [|? e ? evs'' Hd Hf' E1 E2]; subst.
      pose proof Hn as Hn'. apply NoDup_app in Hn' as (Hn1 & _).
      assert (Hp : record_path r ∉ (event_path <$> evs)).
      { apply NoDup_app in Hn1 as (_ & Hdis & _). intros Hin. by apply (Hdis _ Hin), list_elem_of_singleton. }
      rewrite (proj2 (official_record_ok (event_path <$> evs) evs r _ eq_refl)
        (conj Hp (ex_intro _ e (conj Hd eq_refl)))). cbn [result_bind]. apply IH; [done| |].
      * rewrite fmap_app. simpl. by rewrite (official_event_path _ _ (proj2 Hd)).
      * split; [done|]. exists evs''. split; [done|].
        by rewrite (eq_sym (app_assoc evs [e] evs'')).
Qed.

Lemma records_pass l s' :
  range (official_record repoDID) l (∅, empty_maps) = Ok s' ↔
  NoDup (record_path <$> l) ∧ ∃ evs, Forall2 (decodes input) l evs ∧
    s' = (list_to_set (record_path <$> l), maps_of evs).
Proof. exact (records_pass_from l [] [] s' NoDup_nil_2 eq_refl). Qed.

End records_loop.

(** ** Record keys of one kind are distinct *)

Section distinct.
Context (evs : list record_event) (Hpaths : NoDup (event_path <$> evs)).

Lemma omap_keys_nodup {B} (f : record_event → option B) (key : B → string) (pre : string) :
  (∀ e b, f e = Some b → event_path e = pre +:+ key b) → NoDup (key <$> omap f evs).
Proof.
  intros Hf. clear -Hpaths Hf. induction evs as [|e l IH]; [constructor|].
  apply NoDup_cons in Hpaths as [He Hl]. specialize (IH Hl).
  destruct (f e) as [b|] eqn:E; csimpl; rewrite E; [|done]. csimpl. apply NoDup_cons. split; [|done].
  rewrite list_elem_of_fmap. intros (b' & Hb' & Hin). apply list_elem_of_omap in Hin as (e' & He' & Hf').
  apply He. apply list_elem_of_fmap. exists e'. split; [|done]. by rewrite (Hf _ _ E), (Hf _ _ Hf'), Hb'.
Qed.

Lemma of_key_keys_nodup {V} (l : list (string * (string * V))) id :
  NoDup ((λ kx, kx.2.1) <$> l) → NoDup (of_key id l).*1.
Proof.
  induction l as [|kx l IH]; [by constructor|]. intros [Hk Hl]%NoDup_cons. specialize (IH Hl).
  unfold of_key in *. rewrite filter_cons. case_decide; [|done]. rewrite !fmap_cons. apply NoDup_cons.
  split; [|done]. rewrite list_elem_of_fmap. intros (y & Hy & Hin). apply Hk.
  apply list_elem_of_fmap in Hin as (kx' & -> & Hin). apply list_elem_of_filter in Hin as [_ Hin].
  apply list_elem_of_fmap. by exists kx'.
Qed.

Lemma message_rkeys_nodup : NoDup (mvRKey <$> messages evs).
Proof. apply (omap_keys_nodup _ _ (MessageCollection +:+ "/")). by intros [] ? [= <-]. Qed.

Lemma versions_nodup id : NoDup (of_key id (versions evs)).*1.
Proof.
  apply of_key_keys_nodup. unfold versions. rewrite <- list_fmap_compose. exact message_rkeys_nodup.
Qed.
Lemma claims_nodup id : NoDup (of_key id (claims evs)).*1.
Proof.
  apply of_key_keys_nodup, (omap_keys_nodup _ _ (MessageStateOperationCollection +:+ "/")). by intros [] ? [= <-].
Qed.
Lemma folder_claims_nodup id : NoDup (of_key id (folder_claims evs)).*1.
Proof.
  apply of_key_keys_nodup, (omap_keys_nodup _ _ (FolderOperationCollection +:+ "/")). by intros [] ? [= <-].
Qed.

Lemma elem_of_versions id rkey v :
  map_of (of_key id (versions evs)) !! rkey = Some v ↔
  v = id ∧ ∃ m, m ∈ messages evs ∧ mrLogicalMessageID (mvRecord m) = id ∧ mvRKey m = rkey.
Proof.
  rewrite (map_of_Some _ _ _ (versions_nodup id)), elem_of_of_key. unfold versions, version_entry.
  rewrite list_elem_of_fmap. naive_solver.
Qed.

End distinct.

(** A loop that appends one result per element and collects into [s]. *)
Lemma range_append {A B S} (f : A → result B) (g : S → A → S) l acc s r :
  range (λ st a, let? b := f a in Ok (st.1 ++ [b], g st.2 a)) l (acc, s) = Ok r ↔
  ∃ bs, Forall2 (λ a b, f a = Ok b) l bs ∧ r = (acc ++ bs, fold_left g l s).
Proof.
  revert acc s. induction l as [|a l IH]; intros acc s; simpl.
  - split; [intros [= <-]; exists []; by rewrite app_nil_r|].
    intros (bs & Hf & ->). apply Forall2_nil_inv_l in Hf as ->. by rewrite app_nil_r.
  - destruct (f a) as [b|] eqn:E; simpl.
    + rewrite IH. split.
      * intros (bs & Hf & ->). exists (b :: bs). rewrite <- app_assoc. split; [by constructor|done].
      * intros (bs & Hf & ->). inversion Hf as [|? b' ? bs' Hb Hf' E1 E2]; subst. exists bs'.
        assert (b' = b) as -> by congruence. by rewrite <- app_assoc.
    + split; [done|]. intros (bs & Hf & _). inversion Hf; congruence.
Qed.

Lemma range_collect {A B} (f : A → result B) l acc r :
  range (λ acc a, let? b := f a in Ok (acc ++ [b])) l acc = Ok r ↔
  ∃ bs, Forall2 (λ a b, f a = Ok b) l bs ∧ r = acc ++ bs.
Proof.
  assert (Hsim : range (λ st a, let? b := f a in Ok (st.1 ++ [b], st.2)) l (acc, tt) =
                 (let? r := range (λ acc a, let? b := f a in Ok (acc ++ [b])) l acc in Ok (r, tt))).
  { revert acc. induction l as [|a l IH]; intros acc; [done|]. simpl. destruct (f a); simpl; [apply IH|done]. }
  pose proof (range_append f (λ s _, s) l acc tt (r, tt)) as Ha.
  cbv beta in Ha. rewrite Hsim in Ha.
  transitivity (∃ bs, Forall2 (λ a b, f a = Ok b) l bs ∧ (r, tt) = (acc ++ bs, fold_left (λ s _, s) l tt)).
  - rewrite <- Ha. destruct (range _ l acc); simpl; split; congruence.
  - split; intros (bs & Hf & E); exists bs; (split; [done|]).
    + by injection E as ->.
    + subst. by destruct (fold_left _ l tt).
Qed.

Lemma Forall2_fmap_eq {A B} (P : A → Prop) (g : A → B) (R : A → B → Prop) l bs :
  (∀ a b, a ∈ l → R a b ↔ P a ∧ b = g a) → Forall2 R l bs ↔ Forall P l ∧ bs = g <$> l.
Proof.
  revert bs. induction l as [|a l IH]; intros bs HR; simpl.
  - split; [by intros ->%Forall2_nil_inv_l|by intros [_ ->]].
  - specialize (IH (tail bs) (λ a b Ha, HR a b (list_elem_of_further _ _ _ Ha))). split.
    + intros Hf. inversion Hf as [|? b ? bs' Hb Hf' E1 E2]; subst.
      apply HR in Hb as [Hp ->]; [|set_solver]. apply IH in Hf' as [Hl Hbs]. simpl in Hbs. subst. by split; [constructor|].
    + intros [Hp ->]. apply Forall_cons_1 in Hp as [Ha Hl]. constructor; [|by apply IH].
      apply HR; [set_solver|done].
Qed.

Lemma same_domain {V W} (m : gmap string V) (n : gmap string W) :
  (msize m = msize n ∧ ∀ k : string, is_Some (m !! k) → is_Some (n !! k)) ↔
  (∀ k : string, is_Some (m !! k) ↔ is_Some (n !! k)).
Proof.
  assert (Hd : (∀ k : string, is_Some (m !! k) → is_Some (n !! k)) ↔ dom m ⊆ dom n)
    by (unfold subseteq, set_subseteq_instance; split; intros Hk k; specialize (Hk k); by rewrite !elem_of_dom in * ).
  assert (Hs : (∀ k : string, is_Some (m !! k) ↔ is_Some (n !! k)) ↔ dom m = dom n)
    by (rewrite set_eq; split; intros Hk k; specialize (Hk k); by rewrite !elem_of_dom in * ).
  rewrite Hd, Hs. unfold msize. rewrite <- !size_dom. split.
  - intros [Hn Hsub]. apply leibniz_equiv, set_subseteq_size_equiv; [done|lia].
  - intros ->. done.
Qed.

(** ** The reductions implement the specification *)

Lemma llen_fmap {A B} (f : A → B) l : llen (f <$> l) = llen l.
Proof. unfold llen. by rewrite length_fmap. Qed.

Section refinement.
Context `{Syntax} `{CaseOrbits} (repoDID snapshotID : string) (evs : list record_event)
  (Hpaths : NoDup (event_path <$> evs)).
Notation frevs := (fold_left push (folder_revisions evs) ∅).
Notation fclaims := (fold_left put (folder_claims evs) ∅).
Notation mrevs := (fold_left push (revisions evs) ∅).
Notation mclaims := (fold_left put (claims evs) ∅).
Notation mversions := (fold_left put (versions evs) ∅).

Lemma reduced_folder_ok id st : id ∈ (folder_revisions evs).*1 →
  reduced_folder repoDID snapshotID frevs fclaims id = Ok st ↔
  (id ∈ (folder_claims evs).*1 ∧
   complete_folder repoDID id (folder_snapshot snapshotID evs id) (of_key id (folder_revisions evs))) ∧
  st = folder_of_id snapshotID evs id.
Proof.
  intros Hid. unfold reduced_folder. cbn zeta. rewrite push_default.
  destruct (decide (id ∈ (folder_claims evs).*1)) as [Hin|Hout]; [|rewrite put_lookup_out by done; naive_solver].
  rewrite put_lookup_in by done. cbn [opt_result result_bind].
  match goal with |- (if negb ?b then _ else _) = _ ↔ _ => destruct b eqn:En end; simpl negb; cbv iota.
  - rewrite reduce_folder_ok. unfold folder_of_id, folder_snapshot. naive_solver.
  - split; [done|]. intros [[_ Hc] _]. apply N.eqb_neq in En. destruct En.
    pose proof (cf_sealed _ _ _ _ Hc) as Hs. unfold VerifiedFolderSnapshot_validFor in Hs. by bools.
Qed.

Lemma folder_state_ids : rfFolderID <$> folder_states snapshotID evs = sorted_keys (folder_revisions evs).
Proof.
  unfold folder_states. rewrite <- list_fmap_compose. rewrite <- (list_fmap_id (sorted_keys _)) at 2.
  by apply list_fmap_ext.
Qed.

Lemma folders_loop states :
  range (reduce_one_folder repoDID snapshotID frevs fclaims) (sortedMapKeys frevs) [] = Ok states ↔
  Forall (λ id, id ∈ (folder_claims evs).*1 ∧
    complete_folder repoDID id (folder_snapshot snapshotID evs id) (of_key id (folder_revisions evs)))
    (sorted_keys (folder_revisions evs)) ∧ states = folder_states snapshotID evs.
Proof.
  rewrite (sortedMapKeys_dom _ (folder_revisions evs)) by apply push_dom.
  unfold reduce_one_folder. rewrite range_collect. unfold folder_states.
  rewrite <- (Forall2_fmap_eq _ _ (λ id st, reduced_folder repoDID snapshotID frevs fclaims id = Ok st)).
  - split; [intros (bs & Hf & ->); done|]. intros Hf. by exists states.
  - intros id st Hid. apply elem_of_sorted_keys in Hid. by apply reduced_folder_ok.
Qed.

Lemma folder_count : llen (folder_states snapshotID evs) = msize frevs.
Proof.
  rewrite msize_sortedMapKeys, (sortedMapKeys_dom _ (folder_revisions evs)) by apply push_dom.
  apply llen_fmap.
Qed.

Lemma complete_folder_some id l v : complete_folder repoDID id v l → l ≠ [].
Proof. intros [[Hc _] _ _ _ _ _ _ _] ->. by vm_compute in Hc. Qed.

(** The identities with claims are those with revisions. *)
Lemma folder_domains :
  (∀ id, id ∈ (folder_revisions evs).*1 ∨ id ∈ (folder_claims evs).*1 →
     complete_folder repoDID id (folder_snapshot snapshotID evs id) (of_key id (folder_revisions evs))) ↔
  msize fclaims = msize frevs ∧
  Forall (λ id, id ∈ (folder_claims evs).*1 ∧
    complete_folder repoDID id (folder_snapshot snapshotID evs id) (of_key id (folder_revisions evs)))
    (sorted_keys (folder_revisions evs)).
Proof.
  rewrite Forall_forall. split.
  - intros Heach. assert (Hin : ∀ id, id ∈ (folder_revisions evs).*1 ↔ id ∈ (folder_claims evs).*1).
    { intros id. split; intros Hid.
      - specialize (Heach id (or_introl Hid)). pose proof (cf_sealed _ _ _ _ Heach) as Hs.
        pose proof (cf_count _ _ _ _ Heach) as Hn.
        destruct (decide (id ∈ (folder_claims evs).*1)) as [|Hout]; [done|]. apply of_key_nil in Hout.
        unfold VerifiedFolderSnapshot_validFor in Hs. bools. simpl in *. rewrite Hout in *.
        change (msize (map_of [])) with 0 in *. lia.
      - specialize (Heach id (or_intror Hid)). apply complete_folder_some in Heach.
        destruct (decide (id ∈ (folder_revisions evs).*1)) as [|Hout]; [done|]. by apply of_key_nil in Hout. }
    split.
    + symmetry. apply (same_domain frevs fclaims). intros k. by rewrite push_dom, put_dom.
    + intros id Hid. apply elem_of_sorted_keys in Hid. split; [by apply Hin|auto].
  - intros [Hn Hall]. assert (Hd : ∀ k : string, is_Some (frevs !! k) ↔ is_Some (fclaims !! k)).
    { apply same_domain. split; [done|]. intros k Hk. apply push_dom in Hk. apply put_dom, Hall.
      by apply elem_of_sorted_keys. }
    intros id Hid. apply Hall, elem_of_sorted_keys. destruct Hid as [|Hid]; [done|].
    by apply push_dom, Hd, put_dom.
Qed.

Lemma folders_ok ctx ctx' r :
  reduceOfficialFolders repoDID snapshotID ctx frevs fclaims = Ok (ctx', r) →
  complete_folders repoDID snapshotID evs ∧
  r = (folder_states snapshotID evs, folder_references (folder_states snapshotID evs)).
Proof.
  unfold reduceOfficialFolders. intros Hr. result_steps. bools. destruct a as [ctx1 states].
  match goal with E : range _ _ _ = _ |- _ => apply polled_ok, folders_loop in E as [Hall ->] end.
  result_steps. destruct a. split; [|done]. split.
  - by apply folder_domains.
  - by apply validate_folder_set_ok.
Qed.

Lemma folders_background : complete_folders repoDID snapshotID evs →
  reduceOfficialFolders repoDID snapshotID background frevs fclaims =
  Ok (background, (folder_states snapshotID evs, folder_references (folder_states snapshotID evs))).
Proof.
  intros [Heach Hset]. apply folder_domains in Heach as [Hn Hall]. unfold reduceOfficialFolders.
  assert (Hsome : msize frevs ≠ 0).
  { rewrite <- folder_count. destruct (fz_roles _ _ _ Hset "inbox") as (st & Hst & _); [set_solver|].
    destruct (folder_states snapshotID evs); [set_solver|]. unfold llen. simpl. lia. }
  pose proof (fz_count _ _ _ Hset) as Hmax. rewrite folder_count in Hmax.
  rewrite (proj2 (N.eqb_neq _ _) Hsome), (proj2 (N.ltb_ge _ _) Hmax), Hn, N.eqb_refl. simpl negb. cbn [orb].
  rewrite polled_background, (proj2 (folders_loop _) (conj Hall eq_refl)). cbn [result_bind].
  apply validate_folder_set_ok in Hset. unfold folder_set_of in Hset. rewrite Hset. done.
Qed.

(** *** Messages *)

Notation refs := (folder_references (folder_states snapshotID evs)).
Notation message_complete id :=
  (complete_inventory repoDID id (message_snapshot snapshotID evs id) (of_key id (revisions evs))).

Lemma reduced_message_ok id st : id ∈ (revisions evs).*1 →
  reduced_message repoDID snapshotID mversions mrevs mclaims refs id = Ok st ↔
  (id ∈ (versions evs).*1 ∧ id ∈ (claims evs).*1 ∧ message_complete id) ∧ st = message_of_id snapshotID evs id.
Proof.
  intros Hid. unfold reduced_message. cbn zeta. rewrite push_default.
  destruct (decide (id ∈ (versions evs).*1)) as [Hv|Hv]; [|rewrite (put_lookup_out (versions evs)) by done; naive_solver].
  rewrite (put_lookup_in (versions evs)) by done. cbn [opt_result result_bind].
  destruct (decide (id ∈ (claims evs).*1)) as [Hc|Hc]; [|rewrite (put_lookup_out (claims evs)) by done; naive_solver].
  rewrite (put_lookup_in (claims evs)) by done. cbn [opt_result result_bind].
  match goal with |- (if negb ?b then _ else _) = _ ↔ _ => destruct b eqn:En end; simpl negb; cbv iota.
  - rewrite reduce_ok. unfold message_of_id, message_snapshot. naive_solver.
  - split; [done|]. intros [(_ & _ & Hi) _]. apply N.eqb_neq in En. destruct En.
    exact (claims_counted _ _ _ (ci_sealed _ _ _ _ Hi)).
Qed.

Lemma message_state_ids : rsLogicalMessageID <$> message_states snapshotID evs = sorted_keys (revisions evs).
Proof.
  unfold message_states. rewrite <- list_fmap_compose. rewrite <- (list_fmap_id (sorted_keys _)) at 2.
  by apply list_fmap_ext.
Qed.

Lemma message_count : llen (message_states snapshotID evs) = msize mrevs.
Proof.
  rewrite msize_sortedMapKeys, (sortedMapKeys_dom _ (revisions evs)) by apply push_dom. apply llen_fmap.
Qed.

(** The versions collected from the revisions of all messages. *)
Definition referenced_versions : gset string :=
  fold_left (λ s id, add_versions s (of_key id (revisions evs))) (sorted_keys (revisions evs)) ∅.

Lemma messages_loop r :
  range (reduce_one_message repoDID snapshotID mversions mrevs mclaims refs) (sortedMapKeys mrevs) ([], ∅) = Ok r ↔
  Forall (λ id, id ∈ (versions evs).*1 ∧ id ∈ (claims evs).*1 ∧ message_complete id) (sorted_keys (revisions evs)) ∧
  r = (message_states snapshotID evs, referenced_versions).
Proof.
  rewrite (sortedMapKeys_dom _ (revisions evs)) by apply push_dom.
  unfold reduce_one_message.
  rewrite (range_append _ (λ s id, add_versions s (default [] (mrevs !! id)))).
  assert (Hg : ∀ l s, fold_left (λ s id, add_versions s (default [] (mrevs !! id))) l s =
                      fold_left (λ s id, add_versions s (of_key id (revisions evs))) l s).
  { induction l as [|id l IH]; intros s; [done|]. simpl. by rewrite push_default, IH. }
  rewrite Hg. fold referenced_versions. unfold message_states.
  assert (Hf : ∀ bs, Forall2 (λ id st, reduced_message repoDID snapshotID mversions mrevs mclaims refs id = Ok st)
                 (sorted_keys (revisions evs)) bs ↔
     Forall (λ id, id ∈ (versions evs).*1 ∧ id ∈ (claims evs).*1 ∧ message_complete id) (sorted_keys (revisions evs))
     ∧ bs = message_of_id snapshotID evs <$> sorted_keys (revisions evs)).
  { intros bs. apply Forall2_fmap_eq. intros id st Hid. apply elem_of_sorted_keys in Hid. by apply reduced_message_ok. }
  split; [intros (bs & Hbs & ->); by apply Hf in Hbs as [? ->]|].
  intros [Hall ->]. eexists. split; [by apply Hf|done].
Qed.

Lemma elem_of_add_versions x s l :
  x ∈ add_versions s l ↔ x ∈ s ∨ (x ≠ "" ∧ ∃ r, r ∈ l ∧ rrVersion (srRecord r) = x).
Proof.
  clear Hpaths. unfold add_versions. revert s. induction l as [|r l IH]; intros s; simpl; [set_solver|]. rewrite IH.
  destruct (String.eqb_spec (rrVersion (srRecord r)) "") as [E|E]; simpl negb; cbv iota; set_solver.
Qed.

Lemma elem_of_referenced x :
  x ∈ referenced_versions ↔ x ≠ "" ∧ ∃ r, r ∈ (revisions evs).*2 ∧ rrVersion (srRecord r) = x.
Proof.
  clear Hpaths. unfold referenced_versions.
  assert (Hg : ∀ l s, x ∈ fold_left (λ s id, add_versions s (of_key id (revisions evs))) l s ↔
    x ∈ s ∨ (x ≠ "" ∧ ∃ id r, id ∈ l ∧ (id, r) ∈ revisions evs ∧ rrVersion (srRecord r) = x)).
  { induction l as [|id l IH]; intros s; simpl; [set_solver|]. rewrite IH, elem_of_add_versions.
    setoid_rewrite elem_of_of_key. set_solver. }
  rewrite Hg. rewrite elem_of_empty. setoid_rewrite elem_of_sorted_keys. split.
  - intros [[]|(Hx & id & r & _ & Hin & Hv)]. split; [done|]. exists r. split; [|done].
    apply list_elem_of_fmap. by exists (id, r).
  - intros (Hx & r & Hin & Hv). right. split; [done|]. apply list_elem_of_fmap in Hin as ([id r'] & -> & Hin).
    exists id, r'. split; [|done]. apply list_elem_of_fmap. by exists (id, r').
Qed.

(** A complete message has versions, revisions and claims. *)
Lemma message_complete_parts id : message_complete id →
  id ∈ (revisions evs).*1 ∧ id ∈ (claims evs).*1 ∧ id ∈ (versions evs).*1.
Proof.
  intros Hc. pose proof (ci_count _ _ _ _ Hc) as Hn.
  split_and!; apply dec_stable; intros Hout%of_key_nil.
  - rewrite Hout in Hn. by destruct Hn.
  - pose proof (claims_counted _ _ _ (ci_sealed _ _ _ _ Hc)) as Hs. simpl in Hs. rewrite Hout in Hs.
    change (msize (map_of [])) with 0 in Hs. lia.
  - pose proof (merged_version _ _ _ _ Hc) as Hv. simpl in Hv. by rewrite Hout in Hv.
Qed.

Lemma message_domains :
  (∀ id, id ∈ (revisions evs).*1 ∨ id ∈ (claims evs).*1 ∨ id ∈ (versions evs).*1 → message_complete id) ↔
  msize mrevs = msize mversions ∧ msize mclaims = msize mrevs ∧
  Forall (λ id, id ∈ (versions evs).*1 ∧ id ∈ (claims evs).*1 ∧ message_complete id) (sorted_keys (revisions evs)).
Proof.
  rewrite Forall_forall. split.
  - intros Heach. split_and!.
    + apply (same_domain mrevs mversions). intros k. rewrite push_dom, put_dom.
      split; intros Hk; eapply message_complete_parts, Heach; eauto.
    + symmetry. apply (same_domain mrevs mclaims). intros k. rewrite push_dom, put_dom.
      split; intros Hk; eapply message_complete_parts, Heach; eauto.
    + intros id Hid%elem_of_sorted_keys.
      destruct (message_complete_parts id) as (? & ? & ?); [apply Heach; eauto|]. split_and!; [done..|apply Heach; eauto].
  - intros (Hv & Hc & Hall).
    assert (Hdv : ∀ k : string, is_Some (mrevs !! k) ↔ is_Some (mversions !! k)).
    { apply same_domain. split; [done|]. intros k Hk%push_dom. apply put_dom, Hall. by apply elem_of_sorted_keys. }
    assert (Hdc : ∀ k : string, is_Some (mrevs !! k) ↔ is_Some (mclaims !! k)).
    { apply same_domain. split; [done|]. intros k Hk%push_dom. apply put_dom, Hall. by apply elem_of_sorted_keys. }
    intros id Hid. apply Hall, elem_of_sorted_keys. destruct Hid as [|[Hid|Hid]]; [done| |].
    + by apply push_dom, Hdc, put_dom.
    + by apply push_dom, Hdv, put_dom.
Qed.

Lemma references_count : NoDup (rfFolderID <$> folder_states snapshotID evs) → msize refs = llen (folder_states snapshotID evs).
Proof.
  intros Hnd. unfold folder_references. rewrite msize_map_of; [apply llen_fmap|]. by rewrite <- list_fmap_compose.
Qed.

Lemma bindings_within n f : f ≠ 0 →
  (0 <? f) && (maxOfficialFolderMessageBindings / f <? n) = false ↔ n * f ≤ maxOfficialFolderMessageBindings.
Proof.
  intros Hf. rewrite (proj2 (N.ltb_lt 0 f)) by lia. cbn [andb]. rewrite N.ltb_ge. split.
  - intros Hn. etransitivity; [apply N.mul_le_mono_r, Hn|]. rewrite N.mul_comm. by apply N.Div0.mul_div_le.
  - intros Hn. apply N.div_le_lower_bound; lia.
Qed.

Hypothesis folders_complete : complete_folders repoDID snapshotID evs.

Lemma folders_some : llen (folder_states snapshotID evs) ≠ 0.
Proof.
  destruct (fz_roles _ _ _ (fs_set _ _ _ folders_complete) "inbox") as (st & Hst & _); [set_solver|].
  destruct (folder_states snapshotID evs); [set_solver|]. unfold llen. simpl. lia.
Qed.

(** What the code checks of the messages: the bound, the histories, and that every version is named. *)
Definition messages_checked : Prop :=
  llen (message_states snapshotID evs) * llen (folder_states snapshotID evs) ≤ maxOfficialFolderMessageBindings ∧
  (∀ id, id ∈ (revisions evs).*1 ∨ id ∈ (claims evs).*1 ∨ id ∈ (versions evs).*1 → message_complete id).

Lemma refs_size : msize refs = llen (folder_states snapshotID evs).
Proof. apply references_count. exact (fz_ids _ _ _ (fs_set _ _ _ folders_complete)). Qed.

Lemma messages_ok ctx ctx' r :
  reduceOfficialMessages repoDID snapshotID ctx mversions mrevs mclaims refs = Ok (ctx', r) →
  messages_checked ∧ r = (message_states snapshotID evs, referenced_versions).
Proof.
  unfold reduceOfficialMessages, messages_checked. intros Hr.
  match type of Hr with (if ?b then _ else _) = _ => destruct b eqn:Eg; [done|] end.
  match type of Hr with (if ?b then _ else _) = _ => destruct b eqn:Eb; [done|] end.
  bools. rewrite refs_size, <- message_count in Eb. apply bindings_within in Eb; [|exact folders_some].
  apply polled_ok, messages_loop in Hr as [Hall ->]. split; [|done]. split; [done|]. by apply message_domains.
Qed.

Lemma messages_background : messages_checked →
  reduceOfficialMessages repoDID snapshotID background mversions mrevs mclaims refs =
  Ok (background, (message_states snapshotID evs, referenced_versions)).
Proof.
  intros [Hb (Hv & Hc & Hall)%message_domains]. unfold reduceOfficialMessages.
  rewrite Hc, Hv, !N.eqb_refl. simpl negb. cbn [orb].
  rewrite refs_size, <- Hv, <- message_count, (proj2 (bindings_within _ _ folders_some) Hb).
  rewrite polled_background. by rewrite (proj2 (messages_loop _) (conj Hall eq_refl)).
Qed.

End refinement.

(** ** Sorting by a key *)

Section sort_by.
Context {A : Type} (key : A → string).
Implicit Types l : list A.

#[local] Instance key_le_trans : Transitive (key_le key).
Proof. unfold key_le. intros x y z. apply str_le_trans. Qed.
#[local] Instance key_le_total : Total (key_le key).
Proof. unfold key_le. intros x y. apply str_le_total. Qed.

Lemma sort_by_perm l : sort_by key l ≡ₚ l.
Proof. apply merge_sort_Permutation. Qed.

Lemma key_inj l a b : NoDup (key <$> l) → a ∈ l → b ∈ l → key a = key b → a = b.
Proof.
  induction l as [|x l IH]; [set_solver|]. rewrite fmap_cons, NoDup_cons. intros [Hx Hl] Ha Hb E.
  rewrite list_elem_of_fmap in Hx. apply elem_of_cons in Ha as [->|Ha], Hb as [->|Hb]; try done; [| |by apply IH].
  - destruct Hx. by exists b.
  - destruct Hx. by exists a.
Qed.

Lemma sort_by_unique l k : NoDup (key <$> l) → StronglySorted (key_le key) k → k ≡ₚ l → sort_by key l = k.
Proof.
  intros Hnd Hs Hp. apply (StronglySorted_unique_strong (key_le key)).
  - intros a b Ha Hb Hab Hba. rewrite sort_by_perm in Ha. rewrite Hp in Hb.
    apply (key_inj l); try done. by apply (anti_symm str_le).
  - apply StronglySorted_merge_sort; apply _.
  - done.
  - by rewrite sort_by_perm.
Qed.

Lemma sort_by_proper l k : NoDup (key <$> l) → l ≡ₚ k → sort_by key l = sort_by key k.
Proof.
  intros Hnd Hp. apply sort_by_unique; [done|apply StronglySorted_merge_sort; apply _|].
  by rewrite sort_by_perm.
Qed.

(** A list whose keys are sorted is sorted. *)
Lemma sort_by_sorted l : NoDup (key <$> l) → StronglySorted str_le (key <$> l) → sort_by key l = l.
Proof.
  intros Hnd Hs. apply sort_by_unique; [done| |done]. clear Hnd.
  induction l as [|a l IH]; [constructor|]. apply StronglySorted_inv in Hs as [Hs Hall].
  constructor; [by apply IH|]. exact (proj1 (Forall_fmap _ _ _) Hall).
Qed.

End sort_by.

Lemma sorted_keys_sorted {A} (l : list (string * A)) : StronglySorted str_le (sorted_keys l).
Proof. apply sort_strings_sorted. Qed.

(** ** The whole reduction *)

Section whole.
Context `{Syntax} `{Ipld} `{CaseOrbits} (input : officialSpacesInventory).
Notation snapshotID := (oiSnapshotID input).

Lemma decoded evs e : Forall2 (decodes input) (oiRecords input) evs → e ∈ evs →
  ∃ r, r ∈ oiRecords input ∧ decodes input r e.
Proof.
  intros Hf He. apply list_elem_of_lookup in He as [i Hi].
  destruct (Forall2_lookup_r _ _ _ _ _ Hf Hi) as (r & Hr & Hd). exists r. split; [|done].
  by eapply list_elem_of_lookup_2.
Qed.

(** A message version is the decoding of a message record. *)
Lemma decoded_message evs m : Forall2 (decodes input) (oiRecords input) evs → m ∈ messages evs →
  ∃ r, r ∈ oiRecords input ∧ soCollection r = MessageCollection ∧ soRKey r = mvRKey m ∧ soCID r = mvCID m ∧
    validateOfficialSourceRecord r = Ok tt ∧ decodeOfficialMessage (soValue r) = Ok (mvRecord m) ∧
    validateOfficialMessage (repo input) (mvRKey m) (mvRecord m) = Ok tt.
Proof.
  intros Hf Hm. unfold messages in Hm. apply list_elem_of_omap in Hm as (e & He & Hm).
  apply (decoded _ _ Hf) in He as (r & Hr & Hv & He). destruct e as [m'| | | |]; try done. injection Hm as ->.
  exists r. unfold official_event in He. split; [done|].
  destruct (String.eqb_spec (soCollection r) MessageCollection) as [Hc|_].
  2: { repeat match type of He with (if ?b then _ else _) = Ok _ => destruct b end; by result_steps. }
  destruct (decodeOfficialMessage (soValue r)) as [m0|]; [|done]. simpl in He.
  destruct (validateOfficialMessage _ _ m0) as [[]|] eqn:Evm; [|done]. simpl in He. injection He as <-. done.
Qed.

Lemma message_key_nonempty evs m : Forall2 (decodes input) (oiRecords input) evs → m ∈ messages evs → mvRKey m ≠ "".
Proof.
  intros Hf Hm. destruct (decoded_message _ _ Hf Hm) as (r & _ & _ & <- & _ & Hv & _).
  unfold validateOfficialSourceRecord in Hv. intros E. rewrite E, orb_true_r in Hv. done.
Qed.

(** Every version is in the set of versions the revisions name. *)
Lemma all_referenced evs : Forall2 (decodes input) (oiRecords input) evs →
  range_check (λ version, if negb (bool_decide (version ∈ referenced_versions evs)) then Err ErrIncompleteSnapshot
                          else Ok tt) (map_to_list (map_of (owner_entry <$> messages evs))).*1 = Ok tt ↔
  ∀ m, m ∈ messages evs → ∃ r, r ∈ (revisions evs).*2 ∧ rrVersion (srRecord r) = mvRKey m.
Proof.
  intros Hf. rewrite range_check_ok, Forall_forall.
  assert (Hk : ∀ x : string, x ∈ (map_to_list (map_of (owner_entry <$> messages evs))).*1 ↔ x ∈ (mvRKey <$> messages evs)).
  { intros x. assert (Ho : (owner_entry <$> messages evs).*1 = mvRKey <$> messages evs)
      by (by rewrite <- list_fmap_compose).
    rewrite list_elem_of_fmap. transitivity (is_Some (map_of (owner_entry <$> messages evs) !! x)).
    - split; [intros ([y v] & -> & Hin); apply elem_of_map_to_list in Hin; eauto|].
      intros [v Hv]. exists (x, v). split; [done|]. by apply elem_of_map_to_list.
    - by rewrite <- elem_of_dom, dom_map_of, elem_of_list_to_set, Ho. }
  setoid_rewrite Hk. split.
  - intros Hall m Hm. specialize (Hall (mvRKey m) (list_elem_of_fmap_2 _ _ _ Hm)).
    case_bool_decide as Hr; [|done]. exact (proj2 (proj1 (elem_of_referenced _ _) Hr)).
  - intros Hall x Hx. apply list_elem_of_fmap in Hx as (m & -> & Hm).
    rewrite bool_decide_eq_true_2; [done|]. apply elem_of_referenced. split; [|by apply Hall].
    by eapply message_key_nonempty.
Qed.

Lemma sealed_result evs :
  let result := MkReducedSource (oiTarget input) (oiRevision input) snapshotID (oiCommitCID input)
    (oiIndexCID input) (sort_by mvRKey (messages evs)) (sort_by rsLogicalMessageID (message_states snapshotID evs))
    (sort_by rfFolderID (folder_states snapshotID evs)) "" in
  set_rzSeal result (reduced_snapshotSeal result) = recovered input evs.
Proof.
  cbn zeta. unfold recovered. rewrite (sort_by_sorted rsLogicalMessageID), (sort_by_sorted rfFolderID); [done|..];
    rewrite ?message_state_ids, ?folder_state_ids; first [apply sorted_keys_nodup|apply sorted_keys_sorted].
Qed.

Lemma inventory_ok ctx st : reduceOfficialSpacesInventory ctx input = Ok st →
  ∃ evs, complete_source input evs ∧ st = recovered input evs.
Proof.
  unfold reduceOfficialSpacesInventory. intros Hr.
  destruct (validateOfficialInventoryIdentity input) as [[]|] eqn:Eid; [|done]. cbn [result_bind] in Hr.
  destruct (range _ (oiRecords input) _) as [[ctx1 [seen maps]]|] eqn:Er; [|done]. cbn [result_bind] in Hr.
  apply polled_ok, records_pass in Er as (Hnd & evs & Hf & [= -> ->]).
  assert (Hpaths : NoDup (event_path <$> evs)) by (by rewrite <- (decodes_path _ _ _ Hf)).
  cbn [maps_of imMessages imVersionOwners imVersionsByLogical imMessageRevisions imMessageClaims
    imFolderRevisions imFolderClaims] in Hr.
  destruct (reduceOfficialFolders _ _ _ _ _) as [[ctx2 [folders references]]|] eqn:Ef; [|done]. cbn [result_bind] in Hr.
  apply folders_ok in Ef as (Hfolders & [= -> ->]).
  destruct (reduceOfficialMessages _ _ _ _ _ _ _) as [[ctx3 [states referenced]]|] eqn:Em; [|done].
  cbn [result_bind] in Hr. apply messages_ok in Em as ([Hb Heach] & [= -> ->]); [|done..].
  match type of Hr with (if ?b then _ else _) = _ => destruct b eqn:En; [done|] end.
  destruct (range_check _ _) as [[]|] eqn:Eref in Hr; [|done]. cbn [result_bind] in Hr.
  pose proof (proj1 (all_referenced evs Hf) Eref) as Href. exists evs. split; [by split|].
  rewrite <- sealed_result. cbn zeta. by injection Hr as <-.
Qed.

Lemma inventory_complete evs : complete_source input evs →
  reduceOfficialSpacesInventory background input = Ok (recovered input evs).
Proof.
  intros [Hid Hnd Hf Hfolders [Heach Hb Href]].
  assert (Hpaths : NoDup (event_path <$> evs)) by (by rewrite <- (decodes_path _ _ _ Hf)).
  unfold reduceOfficialSpacesInventory. rewrite Hid. cbn [result_bind].
  rewrite polled_background. unfold repo in *.
  rewrite (proj2 (records_pass input _ _) (conj Hnd (ex_intro _ evs (conj Hf eq_refl)))). cbn [result_bind].
  cbn [maps_of imMessages imVersionOwners imVersionsByLogical imMessageRevisions imMessageClaims
    imFolderRevisions imFolderClaims].
  rewrite folders_background by done. cbn [result_bind].
  rewrite messages_background by done. cbn [result_bind].
  pose proof (proj1 (message_domains _ _ _) Heach) as (Hv & _).
  rewrite message_count, Hv, N.eqb_refl. simpl negb. cbv iota.
  rewrite (proj2 (all_referenced evs Hf) Href). cbn [result_bind].
  exact (f_equal Ok (sealed_result evs)).
Qed.

End whole.

(** ** The order of the records does not matter *)

Lemma llen_perm {A} (l k : list A) : l ≡ₚ k → llen l = llen k.
Proof. intros Hp. unfold llen. by rewrite Hp. Qed.

Lemma omap_perm {A B} (f : A → option B) l k : l ≡ₚ k → omap f l ≡ₚ omap f k.
Proof. by intros ->. Qed.

Section permuted.
Context `{Syntax} `{CaseOrbits} (repoDID snapshotID : string) (evs evs' : list record_event)
  (Hpaths : NoDup (event_path <$> evs)) (Hp : evs ≡ₚ evs').

Lemma folder_snapshot_perm id : folder_snapshot snapshotID evs id = folder_snapshot snapshotID evs' id.
Proof.
  unfold folder_snapshot. do 2 f_equal.
  - apply llen_perm, of_key_perm, omap_perm, Hp.
  - apply map_of_perm; [by apply folder_claims_nodup|]. apply of_key_perm, omap_perm, Hp.
Qed.

Lemma folder_states_perm : complete_folders repoDID snapshotID evs →
  folder_states snapshotID evs = folder_states snapshotID evs'.
Proof.
  intros [Heach _]. unfold folder_states. rewrite (sorted_keys_perm (folder_revisions evs) (folder_revisions evs') (omap_perm _ _ _ Hp)).
  apply list_fmap_ext. intros i id Hid%list_elem_of_lookup_2. unfold folder_of_id. rewrite <- folder_snapshot_perm.
  apply folder_state_perm; [|apply of_key_perm, omap_perm, Hp].
  eapply complete_folder_ops, Heach. left. rewrite elem_of_sorted_keys in Hid.
  unfold folder_revisions in *. by rewrite (omap_perm folder_of _ _ Hp).
Qed.

Lemma complete_folders_perm : complete_folders repoDID snapshotID evs → complete_folders repoDID snapshotID evs'.
Proof.
  intros Hc. pose proof (folder_states_perm Hc) as Hs. destruct Hc as [Heach Hset]. split.
  - intros id Hid. rewrite <- folder_snapshot_perm.
    eapply complete_folder_perm; [apply of_key_perm, omap_perm, Hp|]. apply Heach.
    unfold folder_revisions, folder_claims in *. by rewrite !(omap_perm _ _ _ Hp).
  - unfold folder_set_of in *. by rewrite <- Hs.
Qed.

Hypothesis folders_complete : complete_folders repoDID snapshotID evs.

Lemma messages_perm : messages evs ≡ₚ messages evs'.
Proof. apply omap_perm, Hp. Qed.
Lemma versions_perm : versions evs ≡ₚ versions evs'.
Proof. unfold versions. by rewrite messages_perm. Qed.

Lemma message_snapshot_perm id : message_snapshot snapshotID evs id = message_snapshot snapshotID evs' id.
Proof.
  unfold message_snapshot. rewrite (folder_states_perm folders_complete). do 2 f_equal.
  - apply llen_perm, of_key_perm, omap_perm, Hp.
  - apply map_of_perm; [by apply claims_nodup|]. apply of_key_perm, omap_perm, Hp.
  - apply map_of_perm; [by apply versions_nodup|]. apply of_key_perm, versions_perm.
Qed.

Lemma message_states_perm : complete_messages repoDID snapshotID evs →
  message_states snapshotID evs = message_states snapshotID evs'.
Proof.
  intros [Heach _ _]. unfold message_states. rewrite (sorted_keys_perm (revisions evs) (revisions evs') (omap_perm _ _ _ Hp)).
  apply list_fmap_ext. intros i id Hid%list_elem_of_lookup_2. unfold message_of_id. rewrite <- message_snapshot_perm.
  apply reduced_state_perm; [|apply of_key_perm, omap_perm, Hp].
  eapply complete_ops, Heach. left. rewrite elem_of_sorted_keys in Hid.
  unfold revisions in *. by rewrite (omap_perm revision_of _ _ Hp).
Qed.

Lemma complete_messages_perm : complete_messages repoDID snapshotID evs → complete_messages repoDID snapshotID evs'.
Proof.
  intros Hc. pose proof (message_states_perm Hc) as Hs. destruct Hc as [Heach Hb Href]. split.
  - intros id Hid. rewrite <- message_snapshot_perm.
    eapply complete_inventory_perm; [apply of_key_perm, omap_perm, Hp|]. apply Heach.
    rewrite versions_perm. unfold revisions, claims in *. by rewrite !(omap_perm _ _ _ Hp).
  - by rewrite <- Hs, <- (folder_states_perm folders_complete).
  - intros m Hm. rewrite <- messages_perm in Hm. destruct (Href m Hm) as (r & Hr & Hv). exists r. split; [|done].
    unfold revisions. by rewrite <- (omap_perm revision_of _ _ Hp).
Qed.

End permuted.

Definition with_records (input : officialSpacesInventory) (records : list SourceRecord) : officialSpacesInventory :=
  MkInventory (oiTarget input) (oiRevision input) (oiSnapshotID input) (oiCommitCID input) (oiIndexCID input) records.

Section reordered.
Context `{Syntax} `{Ipld} `{CaseOrbits} (input : officialSpacesInventory) (records : list SourceRecord)
  (Hp : oiRecords input ≡ₚ records).

Lemma complete_source_perm evs : complete_source input evs →
  ∃ evs', complete_source (with_records input records) evs' ∧ recovered (with_records input records) evs' = recovered input evs.
Proof.
  intros [Hid Hnd Hf Hfolders Hmessages].
  destruct (Permutation_Forall2 Hp Hf) as (evs' & Hpe & Hf').
  assert (Hpaths : NoDup (event_path <$> evs)) by (by rewrite <- (decodes_path _ _ _ Hf)).
  exists evs'. split.
  - split; [| |done| |].
    + unfold validateOfficialInventoryIdentity in *. simpl. by rewrite <- (llen_perm _ _ Hp).
    + simpl. by rewrite <- Hp.
    + by eapply complete_folders_perm.
    + by eapply complete_messages_perm.
  - unfold recovered, with_records. cbn [oiTarget oiRevision oiSnapshotID oiCommitCID oiIndexCID].
    rewrite <- (folder_states_perm _ _ _ _ Hpaths Hpe Hfolders).
    rewrite <- (message_states_perm _ _ _ _ Hpaths Hpe Hfolders Hmessages).
    rewrite (sort_by_proper mvRKey _ _ (message_rkeys_nodup _ Hpaths) (messages_perm _ _ Hpe)). done.
Qed.

End reordered.

(** ** Every record counts *)

Section counted.
Context `{Syntax} `{CaseOrbits} (repoDID snapshotID : string) (evs : list record_event)
  (Hpaths : NoDup (event_path <$> evs)).

Lemma claims_match id : complete_messages repoDID snapshotID evs →
  llen (of_key id (claims evs)) = llen (of_key id (revisions evs)).
Proof.
  intros [Heach _ _]. destruct (decide (id ∈ (revisions evs).*1 ∨ id ∈ (claims evs).*1)) as [Hin|Hout].
  - assert (Hc : complete_inventory repoDID id (message_snapshot snapshotID evs id) (of_key id (revisions evs)))
      by (apply Heach; tauto).
    pose proof (claims_counted _ _ _ (ci_sealed _ _ _ _ Hc)) as Hn. simpl in Hn.
    by rewrite msize_map_of in Hn by by apply claims_nodup.
  - rewrite (proj2 (of_key_nil id (revisions evs))), (proj2 (of_key_nil id (claims evs))) by tauto. done.
Qed.

Lemma folder_claims_match id : complete_folders repoDID snapshotID evs →
  llen (of_key id (folder_claims evs)) = llen (of_key id (folder_revisions evs)).
Proof.
  intros [Heach _].
  destruct (decide (id ∈ (folder_revisions evs).*1 ∨ id ∈ (folder_claims evs).*1)) as [Hin|Hout].
  - pose proof (cf_sealed _ _ _ _ (Heach id Hin)) as Hs. unfold VerifiedFolderSnapshot_validFor in Hs. bools.
    simpl in *. by rewrite msize_map_of in * by by apply folder_claims_nodup.
  - rewrite (proj2 (of_key_nil id (folder_revisions evs))), (proj2 (of_key_nil id (folder_claims evs))) by tauto. done.
Qed.

(** A version that a revision names is there. *)
Lemma named_version r : complete_messages repoDID snapshotID evs →
  r ∈ (revisions evs).*2 → rrVersion (srRecord r) ≠ "" →
  ∃ m, m ∈ messages evs ∧ mvRKey m = rrVersion (srRecord r).
Proof.
  intros [Heach _ _] Hr Hv. apply list_elem_of_fmap in Hr as ([id r'] & -> & Hr). simpl in *.
  assert (Hid : id ∈ (revisions evs).*1) by (apply list_elem_of_fmap; by exists (id, r')).
  pose proof (complete_events_wf _ _ _ _ (Heach id (or_introl Hid)) r' (proj2 (elem_of_of_key _ _ _) Hr)) as Hwf.
  pose proof (ev_version _ _ _ Hwf Hv) as Hver. simpl in Hver.
  apply elem_of_versions in Hver as (_ & m & Hm & _ & Hk); [|done]. by exists m.
Qed.

End counted.

Lemma of_key_cons {B} k (l : list (string * B)) kx :
  of_key k (kx :: l) = (if decide (kx.1 = k) then [kx.2] else []) ++ of_key k l.
Proof. unfold of_key. rewrite filter_cons. by destruct (decide (kx.1 = k)). Qed.

Section withheld.
Context `{Syntax} `{Ipld} `{CaseOrbits} (input : officialSpacesInventory).

Lemma decodes_functional l evs evs' : Forall2 (decodes input) l evs → Forall2 (decodes input) l evs' → evs = evs'.
Proof.
  intros Hf. revert evs'. induction Hf as [|r e l evs [_ He] _ IH]; intros evs' Hf'.
  - by apply Forall2_nil_inv_l in Hf' as ->.
  - apply Forall2_cons_inv_l in Hf' as (e' & k & [_ He'] & Hf' & ->). f_equal; [congruence|by apply IH].
Qed.

Lemma one_record_less r rest evs : oiRecords input = r :: rest → complete_source input evs →
  ¬ ∃ evs', complete_source (with_records input rest) evs'.
Proof.
  intros Hrec [_ Hnd Hf Hfolders Hmessages] (evs' & [_ _ Hf' Hfolders' Hmessages']).
  assert (Hpaths : NoDup (event_path <$> evs)) by (by rewrite <- (decodes_path _ _ _ Hf)).
  pose proof (λ m, message_key_nonempty input evs m Hf) as Hkey.
  rewrite Hrec in Hf. apply Forall2_cons_inv_l in Hf as (e & k & [_ He] & Hf & ->).
  assert (k = evs') as -> by (eapply decodes_functional; done).
  unfold repo in *. cbn [with_records oiTarget oiSnapshotID] in *.
  pose proof Hpaths as Hpaths'. apply NoDup_cons in Hpaths' as [Hfresh Hpaths'].
  pose proof (λ id, claims_match _ _ _ Hpaths id Hmessages) as Hc.
  pose proof (λ id, claims_match _ _ _ Hpaths' id Hmessages') as Hc'.
  pose proof (λ id, folder_claims_match _ _ _ Hpaths id Hfolders) as Hd.
  pose proof (λ id, folder_claims_match _ _ _ Hpaths' id Hfolders') as Hd'.
  destruct e as [m|v|id rkey rev|v|id rkey rev].
  - destruct (ms_referenced _ _ _ Hmessages m) as (v & Hv & Ev); [set_solver|].
    destruct (named_version _ _ _ Hpaths' v Hmessages' Hv) as (m' & Hm' & Ek).
    + rewrite Ev. apply Hkey. set_solver.
    + apply (fresh_message evs' (MessageEvent m) m Hfresh eq_refl). rewrite <- Ev, <- Ek. by apply list_elem_of_fmap_2.
  - specialize (Hc (rrLogicalMessageID (srRecord v))). specialize (Hc' (rrLogicalMessageID (srRecord v))).
    unfold claims, revisions in *. csimpl in *. rewrite of_key_cons, decide_True in Hc by done.
    rewrite llen_app in Hc. unfold llen in *. simpl in Hc. lia.
  - specialize (Hc id). specialize (Hc' id).
    unfold claims, revisions in *. csimpl in *. rewrite of_key_cons, decide_True in Hc by done.
    rewrite llen_app in Hc. unfold llen in *. simpl in Hc. lia.
  - specialize (Hd (frFolderID (fsRecord v))). specialize (Hd' (frFolderID (fsRecord v))).
    unfold folder_claims, folder_revisions in *. csimpl in *. rewrite of_key_cons, decide_True in Hd by done.
    rewrite llen_app in Hd. unfold llen in *. simpl in Hd. lia.
  - specialize (Hd id). specialize (Hd' id).
    unfold folder_claims, folder_revisions in *. csimpl in *. rewrite of_key_cons, decide_True in Hd by done.
    rewrite llen_app in Hd. unfold llen in *. simpl in Hd. lia.
Qed.
End withheld.

(** ** The recovered state refers only to itself *)

Section integrity.
Context `{Syntax} `{CaseOrbits} (repoDID snapshotID : string) (evs : list record_event)
  (Hpaths : NoDup (event_path <$> evs)) (Hfolders : complete_folders repoDID snapshotID evs)
  (Hmessages : complete_messages repoDID snapshotID evs).

Lemma folder_reference f ref : folder_references (folder_states snapshotID evs) !! f = Some ref →
  ∃ st, st ∈ folder_states snapshotID evs ∧ rfFolderID st = f ∧ frTombstone ref = rfTombstone st.
Proof.
  unfold folder_references. rewrite map_of_Some.
  - intros Hin. apply list_elem_of_fmap in Hin as (st & [= -> ->] & Hst). by exists st.
  - rewrite <- list_fmap_compose. exact (fz_ids _ _ _ (fs_set _ _ _ Hfolders)).
Qed.

Lemma message_state_refers st : st ∈ message_states snapshotID evs →
  (∃ m, m ∈ messages evs ∧ mvRKey m = rsVersion st ∧ mrLogicalMessageID (mvRecord m) = rsLogicalMessageID st) ∧
  (∀ f, f ∈ rsMailboxIDs st → ∃ folder, folder ∈ folder_states snapshotID evs ∧ rfFolderID folder = f ∧
     (rsTombstone st = false → rfTombstone folder = false)).
Proof.
  unfold message_states. intros Hst. apply list_elem_of_fmap in Hst as (id & -> & Hid).
  apply elem_of_sorted_keys in Hid. pose proof (ms_each _ _ _ Hmessages id (or_introl Hid)) as Hc.
  unfold message_of_id, reduced_state. cbn zeta. cbn [set_rsStateDigest rsVersion rsLogicalMessageID rsMailboxIDs rsTombstone].
  split.
  - pose proof (merged_version _ _ _ _ Hc) as Hv. apply elem_of_versions in Hv as (_ & m & Hm & Hl & Hk); [|done].
    by exists m.
  - intros f Hf. destruct (merged_folder _ _ _ _ Hc f Hf) as (ref & Href & _ & Ht).
    apply folder_reference in Href as (folder & Hin & Hk & Et). exists folder. rewrite <- Et. done.
Qed.

Lemma message_has_state m : m ∈ messages evs →
  ∃ st, st ∈ message_states snapshotID evs ∧ rsLogicalMessageID st = mrLogicalMessageID (mvRecord m).
Proof.
  intros Hm. assert (Hv : mrLogicalMessageID (mvRecord m) ∈ (versions evs).*1).
  { unfold versions. rewrite <- list_fmap_compose. apply (list_elem_of_fmap_2 (λ m, mrLogicalMessageID (mvRecord m)) _ _ Hm). }
  pose proof (ms_each _ _ _ Hmessages _ (or_intror (or_intror Hv))) as Hc.
  apply message_complete_parts in Hc as (Hr & _ & _).
  exists (message_of_id snapshotID evs (mrLogicalMessageID (mvRecord m))). split; [|done].
  apply list_elem_of_fmap_2. by apply elem_of_sorted_keys.
Qed.

End integrity.

Lemma validated_blob `{Syntax} `{Ipld} d rkey record : validateOfficialMessage d rkey record = Ok tt →
  ∃ c, cid_Parse (brLink (mrRaw record)) = Some c ∧ cid_Digest c = hex_decode (mrSHA256 record).
Proof.
  unfold validateOfficialMessage. intros Hv. match type of Hv with (if ?b then _ else _) = _ => destruct b; [done|] end.
  do 2 (destruct (range_check _ _) as [[]|] in Hv; [|done]; cbn [result_bind] in Hv).
  destruct (cid_Parse _) as [c|]; [|done]. cbn [opt_result result_bind] in Hv. exists c. split; [done|].
  destruct (negb _); [done|]. destruct (hex_decode _) as [h|]; [|done]. cbn [opt_result result_bind] in Hv.
  destruct (cid_Digest c) as [g|]; [|done]. cbn [opt_result result_bind] in Hv.
  destruct (String.eqb g h) eqn:Eg; [|done]. apply String.eqb_eq in Eg. by rewrite Eg.
Qed.

(** ** Errors

    [plain m]: a failure of [m] is never the context's, so only the polls of the loops can end a
    reduction with [context.Canceled] or [context.DeadlineExceeded]. *)

Definition plain {A} (m : result A) : Prop := ∀ e, m = Err e → is_ctx_error e = false.

Lemma plain_ok {A} (a : A) : plain (Ok a).
Proof. done. Qed.
Lemma plain_err {A} e : is_ctx_error e = false → plain (Err (A := A) e).
Proof. intros He ? [= <-]. done. Qed.
Lemma plain_bind {A B} (m : result A) (k : A → result B) : plain m → (∀ a, plain (k a)) → plain (result_bind m k).
Proof. intros Hm Hk e He. destruct m as [a|e']; simpl in He; [exact (Hk a e He)|]. injection He as ->. exact (Hm e eq_refl). Qed.
Lemma plain_or_error {A} (m : result A) e : is_ctx_error e = false → plain (or_error m e).
Proof. intros He e' Hm. destruct m; simpl in Hm; [done|by injection Hm as <-]. Qed.
Lemma plain_opt {A} (o : option A) e : is_ctx_error e = false → plain (opt_result o e).
Proof. intros He e' Hm. destruct o; simpl in Hm; [done|by injection Hm as <-]. Qed.
Lemma plain_range {A S} (f : S → A → result S) l s : (∀ s a, plain (f s a)) → plain (range f l s).
Proof. intros Hf. revert s. induction l as [|a l IH]; intros s; simpl; [apply plain_ok|by apply plain_bind]. Qed.
Lemma plain_check {A} (f : A → result unit) l : (∀ a, plain (f a)) → plain (range_check f l).
Proof. intros Hf. induction l as [|a l IH]; simpl; [apply plain_ok|by apply plain_bind]. Qed.

Create HintDb plain.
(** Follows the control flow of a fallible call. *)
Ltac plain :=
  intros; cbn zeta beta;
  lazymatch goal with
  | |- plain (Ok _) => apply plain_ok
  | |- plain (Err _) => apply plain_err; reflexivity
  | |- plain (result_bind _ _) => apply plain_bind; plain
  | |- plain (or_error _ _) => apply plain_or_error; reflexivity
  | |- plain (opt_result _ _) => apply plain_opt; reflexivity
  | |- plain (range _ _ _) => apply plain_range; plain
  | |- plain (range_check _ _) => apply plain_check; plain
  | |- plain (if ?b then _ else _) => destruct b; plain
  | |- plain (match ?x with _ => _ end) => destruct x; plain
  | |- _ => solve [eauto with plain]
  end.

Section plain_errors.
Context `{Syntax} `{Ipld} `{CaseOrbits}.

Lemma plain_bounded limit value : plain (bounded_utf8 limit value).
Proof. unfold bounded_utf8. plain. Qed.
#[local] Hint Resolve plain_bounded : plain.
Lemma plain_canonical record : plain (CanonicalRevisionBytes record).
Proof. unfold CanonicalRevisionBytes. plain. Qed.
Lemma plain_canonical_folder record : plain (CanonicalFolderRevisionBytes record).
Proof. unfold CanonicalFolderRevisionBytes. plain. Qed.
Lemma plain_claim_key d m o : plain (OperationClaimRKey d m o).
Proof. unfold OperationClaimRKey. plain. Qed.
Lemma plain_folder_claim_key d m o : plain (FolderOperationClaimRKey d m o).
Proof. unfold FolderOperationClaimRKey. plain. Qed.
#[local] Hint Resolve plain_canonical plain_canonical_folder plain_claim_key plain_folder_claim_key : plain.

Lemma plain_claim d e : plain (NewOperationClaim d e).
Proof. unfold NewOperationClaim. plain. Qed.
Lemma plain_folder_claim d e : plain (NewFolderOperationClaim d e).
Proof. unfold NewFolderOperationClaim. plain. Qed.
Lemma plain_validate_revision d id e v : plain (validateRevision d id e v).
Proof. unfold validateRevision. plain. Qed.
Lemma plain_validate_folder d id e : plain (validateFolderRevision d id e).
Proof. unfold validateFolderRevision. plain. Qed.
#[local] Hint Resolve plain_claim plain_folder_claim plain_validate_revision plain_validate_folder : plain.

Lemma plain_causal_event {E} `{CausalEvent E} root_ok byKey s (e : E) : plain (causal_event root_ok byKey s e).
Proof. unfold causal_event, parent_step. plain. Qed.
Lemma plain_tombstone_event {E} `{CausalEvent E} m (e : E) : plain (tombstone_event m e).
Proof. unfold tombstone_event. plain. Qed.
#[local] Hint Resolve plain_causal_event plain_tombstone_event : plain.

Lemma plain_reduce d id l v : plain (Reduce d id l v).
Proof. unfold Reduce, scan_event, revision_bytes, admit_revision. plain. Qed.
Lemma plain_reduce_folder d id l v : plain (ReduceFolder d id l v).
Proof. unfold ReduceFolder, scan_event, folder_bytes, admit_folder, folder_event. plain. Qed.
Lemma plain_folder_set d l v : plain (ValidateFolderSet d l v).
Proof. unfold ValidateFolderSet, folder_set_step. plain. Qed.
#[local] Hint Resolve plain_reduce plain_reduce_folder plain_folder_set : plain.

(** The decoders. *)
Lemma plain_lex (n : node cid) depth : plain (officialNodeToLexJSON n depth).
Proof.
  revert depth. induction n as [|b|z|f|s|s|l Hl|l Hl|c] using node_nested_ind; intros depth; simpl;
    destruct (128 <? depth); try (by plain).
  - apply plain_bind; [|plain]. induction Hl as [|x l Hx _ IH]; [plain|].
    apply plain_bind; [done|]. intros j. apply plain_bind; [done|plain].
  - apply plain_bind; [|plain]. generalize (∅ : gmap string json).
    induction Hl as [|[k x] l Hx _ IH]; intros m; [plain|]. apply plain_bind; [apply Hx|]. intros j. apply IH.
Qed.
#[local] Hint Resolve plain_lex : plain.
Lemma plain_record_json encoded : plain (officialRecordJSON encoded).
Proof. unfold officialRecordJSON. plain. Qed.
#[local] Hint Resolve plain_record_json : plain.
Lemma plain_event d r : plain (official_event d r).
Proof.
  unfold official_event, decodeOfficialMessageRevision, decodeOfficialFolderRevision, DecodeRevisionRecord,
    DecodeFolderRevisionRecord, decode_one, requireJSONEOF. plain.
Qed.
#[local] Hint Resolve plain_event : plain.
Lemma plain_add_event s e : plain (add_event s e).
Proof. unfold add_event. plain. Qed.
#[local] Hint Resolve plain_add_event : plain.
Lemma plain_official_record d s r : plain (official_record d s r).
Proof. unfold official_record, validateOfficialSourceRecord. plain. Qed.
#[local] Hint Resolve plain_official_record : plain.

(** Without a cancelled context no failure is the context's. *)
Lemma plain_background {A S} (f : S → A → result S) l s : (∀ s a, plain (f s a)) →
  plain (range (polled f) l (background, s)).
Proof. intros Hf. rewrite polled_background. apply plain_bind; [by apply plain_range|plain]. Qed.

Lemma polled_stays {A S} (f : S → A → result S) l s ctx s' :
  range (polled f) l (background, s) = Ok (ctx, s') → ctx = background.
Proof. rewrite polled_background. intros Hr. by destruct (range f l s); simpl in Hr; [injection Hr as <- _|]. Qed.

Lemma plain_reduction input : plain (reduceOfficialSpacesInventory background input).
Proof.
  unfold reduceOfficialSpacesInventory. apply plain_bind; [unfold validateOfficialInventoryIdentity; plain|].
  intros _. intros e He. cbn zeta in He.
  destruct (range _ (oiRecords input) _) as [[ctx [seen maps]]|e1] eqn:E1.
  2: { injection He as <-. eapply (plain_background (official_record _)); [|exact E1]. plain. }
  apply polled_stays in E1 as ->. cbn [result_bind] in He. revert e He. fold (plain (A := ReducedSourceState)).
  unfold reduceOfficialFolders. intros e He.
  match type of He with result_bind (if ?b then _ else _) _ = _ => destruct b; [by injection He as <-|] end.
  destruct (range _ (sortedMapKeys (imFolderRevisions maps)) _) as [[ctx states]|e1] eqn:E1.
  2: { injection He as <-. eapply (plain_background (reduce_one_folder _ _ _ _)); [|exact E1].
       unfold reduce_one_folder, reduced_folder. plain. }
  apply polled_stays in E1 as ->. cbn [result_bind] in He.
  destruct (ValidateFolderSet _ _ _) as [u|e1] eqn:Es; cbn [result_bind] in He.
  2: { injection He as <-. by eapply plain_folder_set. }
  revert e He. apply plain_bind; [|plain]. unfold reduceOfficialMessages.
  repeat match goal with |- plain (if ?b then Err _ else _) => destruct b; [plain|] end.
  apply plain_background. unfold reduce_one_message, reduced_message. plain.
Qed.

End plain_errors.
(** ** The sealed result *)

Section outcome.
Context `{Syntax} `{Ipld} `{CaseOrbits}.

Lemma identity_ok input : validateOfficialInventoryIdentity input = Ok tt →
  otEpoch (oiTarget input) = PinnedEpoch ∧ validCanonicalDID (otRepoDID (oiTarget input)) = true ∧
  validSHA256Identifier (oiSnapshotID input) = true ∧ ParseTID (oiRevision input) = true ∧
  llen (oiRecords input) ≤ maxOfficialSourceRecords.
Proof. unfold validateOfficialInventoryIdentity. intros Hv. result_steps. by bools. Qed.

Lemma sealed_again st seal : reduced_snapshotSeal (set_rzSeal st seal) = reduced_snapshotSeal st.
Proof. unfold reduced_snapshotSeal. by destruct st. Qed.

(** The seal of a reduced source covers a valid value. *)
Lemma recovered_valid `{!SyntaxLaws} input evs : complete_source input evs →
  oiCommitCID input ≠ "" → oiIndexCID input ≠ "" → reduced_valid (recovered input evs) = true.
Proof.
  intros [Hid Hnd Hf Hfolders _] Hcommit Hindex.
  assert (Hpaths : NoDup (event_path <$> evs)) by (by rewrite <- (decodes_path _ _ _ Hf)).
  destruct (identity_ok _ Hid) as (Hepoch & Hdid & Hsnap & Htid & _).
  assert (Hrev : oiRevision input ≠ "") by (intros E; apply ParseTID_length in Htid; by rewrite E in Htid).
  pose proof (folders_some _ _ _ Hpaths Hfolders) as Hn.
  unfold reduced_valid, recovered. cbn zeta. rewrite sealed_again.
  cbn [set_rzSeal rzTarget rzRevision rzSnapshotID rzCommitCID rzIndexCID rzFolders rzSeal].
  rewrite Hdid, Hsnap, Hepoch, !String.eqb_refl, (proj2 (N.ltb_lt 0 _)) by lia.
  rewrite (proj2 (String.eqb_neq _ _) Hrev), (proj2 (String.eqb_neq _ _) Hcommit).
  by rewrite (proj2 (String.eqb_neq _ _) Hindex).
Qed.

Lemma source_text_present r : source_valid r = true → saCommitCID r ≠ "" ∧ saIndexCID r ≠ "".
Proof. unfold source_valid. intros Hv. by bools. Qed.

Lemma reduced_from_source `{!SyntaxLaws} ctx source st : source_ValidateSeal source = Ok tt →
  reduceOfficialSpacesInventory ctx (source_inventory source) = Ok st →
  reduced_ValidateSeal (Some st) = Ok tt ∧
  reduced_Target (Some st) = source_Target source ∧ reduced_Revision (Some st) = source_Revision source ∧
  reduced_SnapshotID (Some st) = source_SnapshotID source ∧
  reduced_CommitCID (Some st) = source_CommitCID source ∧ reduced_IndexCID (Some st) = source_IndexCID source.
Proof.
  intros Hs Hr. apply inventory_ok in Hr as (evs & Hc & ->).
  assert (Htext : oiCommitCID (source_inventory source) ≠ "" ∧ oiIndexCID (source_inventory source) ≠ "").
  { destruct source as [r|]; [|done]. unfold source_ValidateSeal, guarded in Hs.
    destruct (source_valid r) eqn:Hv; [|done]. unfold source_inventory, source_CommitCID, source_IndexCID, guarded.
    rewrite Hv. by apply source_text_present. }
  pose proof (recovered_valid _ _ Hc (proj1 Htext) (proj2 Htext)) as Hvalid.
  unfold reduced_ValidateSeal, reduced_Target, reduced_Revision, reduced_SnapshotID, reduced_CommitCID,
    reduced_IndexCID, reduced_guarded. rewrite Hvalid. done.
Qed.

End outcome.

(** ** The sample repository reduced *)

Section example.

Definition example_input : officialSpacesInventory :=
  MkInventory example_spaces_target sample_revision sample_snapshot_id sample_commit_cid sample_index_cid sample_records.

Definition example_reduction : result ReducedSourceState := reduceOfficialSpacesInventory background example_input.
(** Plain data of a result, for the evaluations. *)
Definition state_outline (r : result ReducedSourceState) :
    option (list MessageVersion * SpacesTarget * list ReducedState * list ReducedFolderState * string) :=
  match r with
  | Ok st => Some (rzMessages st, rzTarget st, rzMessageStates st, rzFolders st, rzSnapshotID st)
  | Err _ => None
  end.
Definition reduced_or_empty (r : result ReducedSourceState) : ReducedSourceState :=
  match r with Ok st => st | Err _ => MkReducedSource zero_spaces_target "" "" "" "" [] [] [] "" end.
Definition example_recovered : ReducedSourceState := reduced_or_empty example_reduction.

Definition example_version : MessageVersion := Eval vm_compute in
  match List.find (λ r, String.eqb (soCollection r) MessageCollection) sample_records with
  | Some r => MkMessageVersion (soRKey r) (soCID r) sample_message
  | None => MkMessageVersion "" "" sample_message
  end.
Definition example_states : list ReducedState * list ReducedFolderState := Eval vm_compute in
  (rzMessageStates example_recovered, rzFolders example_recovered).
Lemma example_outline_value : state_outline example_reduction =
  Some ([example_version], example_spaces_target, example_states.1, example_states.2, sample_snapshot_id).
Proof. vm_compute. reflexivity. Qed.

Lemma example_reduction_ok : example_reduction = Ok example_recovered.
Proof. unfold example_recovered. pose proof example_outline_value as Ho. by destruct example_reduction. Qed.
Lemma state_outline_fields r st messages target states folders id :
  r = Ok st → state_outline r = Some (messages, target, states, folders, id) →
  rzMessages st = messages ∧ rzTarget st = target ∧ rzMessageStates st = states ∧ rzFolders st = folders ∧ rzSnapshotID st = id.
Proof. intros -> [= -> -> -> -> ->]. done. Qed.
Lemma example_recovered_value : rzMessages example_recovered = [example_version] ∧ rzTarget example_recovered = example_spaces_target ∧
  rzMessageStates example_recovered = example_states.1 ∧ rzFolders example_recovered = example_states.2 ∧
  rzSnapshotID example_recovered = sample_snapshot_id.
Proof. exact (state_outline_fields _ _ _ _ _ _ _ example_reduction_ok example_outline_value). Qed.

End example.

(** ** Properties *)

(** C1. The reduction of a source implements its specification exactly.  With an uncancelled
    context it succeeds on a repository if and only if the repository is complete: the identity
    is well formed, the record paths are distinct, every record is authentic and decodes, every
    folder and every message has a complete history under exactly its own claims, the folders
    form a valid set, every version is named by a revision, and the work is bounded.  The result
    is then the state the specification determines.  A cancellable context can only turn that
    result into an error, never into another state. *)
Theorem reduction_refines_contract `{Syntax} `{Ipld} `{CaseOrbits} (ctx : context)
    (input : officialSpacesInventory) (st : ReducedSourceState) :
  (reduceOfficialSpacesInventory background input = Ok st ↔
   ∃ evs, complete_source input evs ∧ st = recovered input evs) ∧
  (reduceOfficialSpacesInventory ctx input = Ok st → reduceOfficialSpacesInventory background input = Ok st).
Proof.
  assert (Hiff : reduceOfficialSpacesInventory background input = Ok st ↔
    ∃ evs, complete_source input evs ∧ st = recovered input evs).
  { split; [apply inventory_ok|]. intros (evs & Hc & ->). by apply inventory_complete. }
  split; [done|]. intros Hr. by apply Hiff, (inventory_ok input ctx).
Qed.

(** The recovered state does not depend on the order in which the repository lists its
    records: any permutation of a repository that reduces gives the same sealed state. *)
Theorem reduction_order_independent `{Syntax} `{Ipld} `{CaseOrbits} (ctx : context)
    (input : officialSpacesInventory) (records : list SourceRecord) (st : ReducedSourceState)
    (Hr : reduceOfficialSpacesInventory ctx input = Ok st)
    (Hp : oiRecords input ≡ₚ records) :
  reduceOfficialSpacesInventory background (with_records input records) = Ok st.
Proof.
  apply inventory_ok in Hr as (evs & Hc & ->).
  destruct (complete_source_perm input records Hp evs Hc) as (evs' & Hc' & <-).
  by apply inventory_complete.
Qed.

Lemma reduction_order_independent_witness :
  reduceOfficialSpacesInventory background (with_records example_input (List.rev (oiRecords example_input))) =
  Ok example_recovered.
Proof.
  exact (reduction_order_independent background example_input _ _ example_reduction_ok
    (Permutation_rev (oiRecords example_input))).
Defined.

(** C2. No record can be withheld or injected unnoticed: when a repository reduces, it does not
    reduce without any one of its records, whatever the context.  A missing or surplus message
    version, revision or claim is always an error. *)
Theorem withheld_record_detected `{Syntax} `{Ipld} `{CaseOrbits} (ctx ctx' : context)
    (input : officialSpacesInventory) (r : SourceRecord) (rest : list SourceRecord) (st st' : ReducedSourceState)
    (Hr : reduceOfficialSpacesInventory ctx input = Ok st)
    (Hp : oiRecords input ≡ₚ r :: rest) :
  reduceOfficialSpacesInventory ctx' (with_records input rest) ≠ Ok st'.
Proof.
  apply inventory_ok in Hr as (evs & Hc & _).
  destruct (complete_source_perm input _ Hp evs Hc) as (evs1 & Hc1 & _). intros Hr'.
  apply inventory_ok in Hr' as (evs2 & Hc2 & _).
  apply (one_record_less (with_records input (r :: rest)) r rest evs1 eq_refl Hc1). by exists evs2.
Qed.

Lemma withheld_record_detected_witness :
  reduceOfficialSpacesInventory background (with_records example_input (tail (oiRecords example_input))) ≠
  Ok example_recovered.
Proof.
  apply (withheld_record_detected background background example_input
    (hd (MkSourceRecord "" "" "" "") (oiRecords example_input)) _ _ _ example_reduction_ok).
  exact (Permutation_refl _).
Defined.

(** C3. A recovered state refers only to itself.  Every message state names a recovered version
    of the same message, and only recovered folders, none of them tombstoned while the message
    lives; every recovered version belongs to a message that has a state; and the blob every
    version refers to is named by a CID whose digest is the version's SHA-256. *)
Theorem recovered_state_closed `{Syntax} `{Ipld} `{CaseOrbits} (ctx : context)
    (input : officialSpacesInventory) (st : ReducedSourceState)
    (Hr : reduceOfficialSpacesInventory ctx input = Ok st) :
  (∀ s, s ∈ rzMessageStates st →
     (∃ m, m ∈ rzMessages st ∧ mvRKey m = rsVersion s ∧ mrLogicalMessageID (mvRecord m) = rsLogicalMessageID s) ∧
     (∀ f, f ∈ rsMailboxIDs s → ∃ folder, folder ∈ rzFolders st ∧ rfFolderID folder = f ∧
        (rsTombstone s = false → rfTombstone folder = false))) ∧
  (∀ m, m ∈ rzMessages st →
     (∃ s, s ∈ rzMessageStates st ∧ rsLogicalMessageID s = mrLogicalMessageID (mvRecord m)) ∧
     (∃ c, cid_Parse (brLink (mrRaw (mvRecord m))) = Some c ∧ cid_Digest c = hex_decode (mrSHA256 (mvRecord m)))).
Proof.
  apply inventory_ok in Hr as (evs & [_ Hnd Hf Hfolders Hmessages] & ->).
  assert (Hpaths : NoDup (event_path <$> evs)) by (by rewrite <- (decodes_path _ _ _ Hf)).
  unfold recovered. cbn zeta. cbn [set_rzSeal rzMessageStates rzMessages rzFolders]. split.
  - intros s Hs. destruct (message_state_refers _ _ _ Hpaths Hfolders Hmessages s Hs) as [(m & Hm & ?) Hfold].
    split; [|done]. exists m. by rewrite sort_by_perm.
  - intros m Hm. rewrite sort_by_perm in Hm. split; [by eapply message_has_state|].
    destruct (decoded_message _ _ _ Hf Hm) as (r & _ & _ & _ & _ & _ & _ & Hv).
    by apply validated_blob in Hv.
Qed.

Lemma recovered_state_closed_witness :
  Forall (λ m, ∃ s, s ∈ rzMessageStates example_recovered ∧
    rsLogicalMessageID s = mrLogicalMessageID (mvRecord m)) (rzMessages example_recovered).
Proof.
  apply Forall_forall. intros m Hm.
  exact (proj1 (proj2 (recovered_state_closed background example_input _ example_reduction_ok) m Hm)).
Defined.

(** The public boundary: [ReduceOfficialSpacesSource] either returns a state whose own seal
    is valid and whose identity is that of the authenticated source, for a source whose seal is
    valid; or it fails with the one redacted error [ErrSourceReduction].  Only a cancelled
    context shows through. *)
Theorem source_reduction_outcome `{SyntaxLaws} `{Ipld} `{CaseOrbits} (ctx : context)
    (source : option SourceAuthenticatedRepository) :
  match ReduceOfficialSpacesSource ctx source with
  | Ok st =>
      source_ValidateSeal source = Ok tt ∧ reduced_ValidateSeal (Some st) = Ok tt ∧
      reduced_Target (Some st) = source_Target source ∧ reduced_Revision (Some st) = source_Revision source ∧
      reduced_SnapshotID (Some st) = source_SnapshotID source ∧
      reduced_CommitCID (Some st) = source_CommitCID source ∧ reduced_IndexCID (Some st) = source_IndexCID source
  | Err e => e = ErrSourceReduction ∨ (is_ctx_error e = true ∧ ctx ≠ background)
  end.
Proof.
  unfold ReduceOfficialSpacesSource.
  destruct (poll ctx) as [ctx'|e] eqn:Epoll; cbn [result_bind].
  2: { right. split; [by destruct (poll_error _ _ Epoll) as [->| ->]|by intros ->]. }
  destruct (source_ValidateSeal source) as [[]|e] eqn:Eseal; simpl negb; cbv iota; [|by left].
  destruct (reduceOfficialSpacesInventory ctx' (source_inventory source)) as [st|e] eqn:Er.
  - split; [done|]. by apply reduced_from_source in Er.
  - destruct (is_ctx_error e) eqn:Ee; [|by left]. right. split; [done|]. intros ->. injection Epoll as <-.
    apply plain_reduction in Er. congruence.
Qed.

(** The reduction of the sample source. *)
Lemma sample_inventory : source_inventory (Some sample_source) = example_input.
Proof.
  unfold source_inventory, source_Target, source_Revision, source_SnapshotID, source_CommitCID, source_IndexCID,
    source_Records, guarded. rewrite sample_source_valid. reflexivity.
Qed.
Lemma sample_reduces : ReduceOfficialSpacesSource background (Some sample_source) = Ok example_recovered.
Proof.
  unfold ReduceOfficialSpacesSource. rewrite sample_inventory. unfold source_ValidateSeal, guarded.
  rewrite sample_source_valid. change (poll background) with (Ok background). cbn [result_bind is_ok negb].
  change (reduceOfficialSpacesInventory background example_input) with example_reduction.
  rewrite example_reduction_ok. exact eq_refl.
Qed.

Lemma source_reduction_outcome_witness :
  ReduceOfficialSpacesSource background (Some sample_source) = Ok example_recovered ∧
  reduced_ValidateSeal (Some example_recovered) = Ok tt.
Proof.
  split; [exact sample_reduces|]. pose proof (source_reduction_outcome background (Some sample_source)) as Hs.
  rewrite sample_reduces in Hs. exact (proj1 (proj2 Hs)).
Defined.
