(* ===== verification/Content.v ===== *)
(** * Verified content of a recovered mailbox

    Models src/internal/mailboxstate/officialspaces_content.go: the complete read (source,
    reduction, blobs) that makes a [ContentVerifiedSource], and that object with its seal, its
    accessors, its visits and its closing.

    [content_source] is the object's fields; every method body that runs under its mutex is one
    transition of it.  The blob map is a reference in Go: it is read through the current object,
    never copied.  [clear] overwrites bytes in place; what was shared with a callback is
    modelled by [clear_raw]. *)
From S2P Require Import Prelude Sha256 GoStd Syntax Unicode Json Mailbox Repository Canonical Causal Revision.
From S2P Require Import FolderRevision Decode Ipld Car Url SpacesWire Http Client Snapshot SourceRead Recovery Reduction.

Definition maxContentVerifiedBytes : Z := Z.shiftl 64 20.

Record ContentVerificationSummary : Type := MkSummary {
  smTarget : SpacesTarget;
  smRevision : string;
  smSnapshotID : string;
  smMessageVersions : N;
  smUniqueBlobs : N;
  smTotalBytes : Z;
  smManifestSHA256 : string
}.
Definition zero_summary : ContentVerificationSummary := MkSummary zero_spaces_target "" "" 0 0 0 "".

Record content_source : Type := MkContent {
  cvState : option ReducedSourceState;
  cvBlobs : gmap string string;
  cvTotalBytes : Z;
  cvManifest : string;
  cvSeal : string;
  cvClosed : bool;
  cvActiveVisits : Z;
  cvClosePending : bool
}.

Record ContentVerifiedMessage : Type := MkContentMessage {
  cmTarget : SpacesTarget;
  cmSnapshotID : string;
  cmVersion : MessageVersion;
  cmRaw : string;
  cmSeal : string
}.

(** ** Selecting the blobs *)

Definition blob_link (m : MessageVersion) : string := brLink (mrRaw (mvRecord m)).

(** The groups by blob, the declared sizes and their total. *)
Record content_plan : Type := MkPlan {
  cpGroups : gmap string (list MessageVersion);
  cpSizes : gmap string Z;
  cpTotal : Z
}.
Definition plan_message (p : content_plan) (m : MessageVersion) : result content_plan :=
  let blobCID := blob_link m in
  let size := mrSize (mvRecord m) in
  fail_if String.eqb blobCID "" || (size <? 1)%Z || (Z.of_N MaxRawMessageBytes <? size)%Z with ErrIntegrity ;;
  let groups := push (cpGroups p) (blobCID, m) in
  match cpSizes p !! blobCID with
  | Some prior => fail_if negb (prior =? size)%Z with ErrIntegrity ;; Ok (MkPlan groups (cpSizes p) (cpTotal p))
  | None =>
      fail_if (maxContentVerifiedBytes - cpTotal p <? size)%Z with ErrResourceLimit ;;
      Ok (MkPlan groups (<[blobCID := size]> (cpSizes p)) (cpTotal p + size))
  end.
Definition prepareOfficialContent (messages : list MessageVersion) :
    result (list string * gmap string (list MessageVersion) * Z) :=
  let? p := range plan_message messages (MkPlan ∅ ∅ 0) in
  Ok (sortedMapKeys (cpGroups p), cpGroups p, cpTotal p).

(** ** Manifest and seals *)

Definition manifest_message (m : MessageVersion) : string :=
  enc_string (mvRKey m) +:+ enc_string (mvCID m) +:+ enc_string (blob_link m) +:+ enc_string (mrSHA256 (mvRecord m)) +:+
  uvarint (Z.to_N (mrSize (mvRecord m) mod 2 ^ 64)).
Definition manifest_preimage (st : ReducedSourceState) (blobs : gmap string string) : string :=
  ("comail-official-content-manifest-v1" +:+ NUL) +:+
  concat_map enc_string [otOrigin (rzTarget st); otSpaceURI (rzTarget st); otRepoDID (rzTarget st);
    otEpoch (rzTarget st); rzRevision st; rzSnapshotID st] +:+
  enc_list manifest_message (rzMessages st) +:+ uvarint (msize blobs).
Definition officialContentManifest (st : ReducedSourceState) (blobs : gmap string string) : string :=
  "sha256-" +:+ hex_encode (sha256 (manifest_preimage st blobs)).

Definition seal_blob (blobs : gmap string string) (blobCID : string) : string :=
  enc_string blobCID +:+ enc_string (default "" (blobs !! blobCID)).
Definition content_seal_preimage (src : content_source) : string :=
  ("comail-official-content-source-v1" +:+ NUL) +:+
  (match cvState src with Some st => rzSeal st | None => "" end) +:+
  enc_string (cvManifest src) +:+ uvarint (Z.to_N (cvTotalBytes src mod 2 ^ 64)) +:+
  enc_list (seal_blob (cvBlobs src)) (sortedMapKeys (cvBlobs src)).
Definition snapshotSealLocked (src : content_source) : string := sha256 (content_seal_preimage src).

Definition message_seal_preimage (m : ContentVerifiedMessage) : string :=
  ("comail-official-content-message-v1" +:+ NUL) +:+
  concat_map enc_string [otOrigin (cmTarget m); otSpaceURI (cmTarget m); otRepoDID (cmTarget m); otEpoch (cmTarget m);
    cmSnapshotID m; mvRKey (cmVersion m); mvCID (cmVersion m)] +:+
  seal_json (message_json (mvRecord (cmVersion m))) +:+ enc_string (cmRaw m).
Definition message_snapshotSeal (m : ContentVerifiedMessage) : string := sha256 (message_seal_preimage m).

(** [cloneMessageVersions] of one version: an empty slice of references becomes nil. *)
Definition clone_version (m : MessageVersion) : MessageVersion :=
  MkMessageVersion (mvRKey m) (mvCID m) (set_mrReferences (mvRecord m) (copy_slice (elems (mrReferences (mvRecord m))))).

(** ** The object *)

Definition zero_seal : string := zeros 32.
Definition set_cvClosed (src : content_source) (closed pending : bool) : content_source :=
  MkContent (cvState src) (cvBlobs src) (cvTotalBytes src) (cvManifest src) (cvSeal src) closed (cvActiveVisits src) pending.
Definition set_cvActiveVisits (src : content_source) (n : Z) : content_source :=
  MkContent (cvState src) (cvBlobs src) (cvTotalBytes src) (cvManifest src) (cvSeal src) (cvClosed src) n (cvClosePending src).

Definition clearLocked (src : content_source) : content_source :=
  MkContent None ∅ 0 "" zero_seal (cvClosed src) (cvActiveVisits src) false.
Definition Close (src : content_source) : content_source :=
  if cvClosed src then src
  else if (0 <? cvActiveVisits src)%Z then set_cvClosed src true true
  else clearLocked (set_cvClosed src true (cvClosePending src)).
Definition finishVisit (src : content_source) : content_source :=
  let src := set_cvActiveVisits src (cvActiveVisits src - 1) in
  if (cvActiveVisits src =? 0)%Z && cvClosePending src then clearLocked src else src.

Section content.
Context `{Syntax} `{Ipld}.

Definition validLocked (src : content_source) : bool :=
  negb (cvClosed src) &&
  match cvState src with Some st => reduced_valid st | None => false end &&
  negb (String.eqb (cvManifest src) "") && validSHA256Identifier (cvManifest src) &&
  (0 <=? cvTotalBytes src)%Z && (cvTotalBytes src <=? maxContentVerifiedBytes)%Z &&
  String.eqb (cvSeal src) (snapshotSealLocked src).

(** The accessors answer for a valid source only; a nil pointer is [None]. *)
Definition content_guarded {A} (src : option content_source) (zero : A) (get : content_source → ReducedSourceState → A) : A :=
  match src with
  | Some src => match cvState src with Some st => if validLocked src then get src st else zero | None => zero end
  | None => zero
  end.
Definition content_Summary (src : option content_source) : ContentVerificationSummary :=
  content_guarded src zero_summary (λ src st,
    MkSummary (rzTarget st) (rzRevision st) (rzSnapshotID st) (llen (rzMessages st)) (msize (cvBlobs src))
      (cvTotalBytes src) (cvManifest src)).
Definition content_Folders (src : option content_source) : list ReducedFolderState :=
  content_guarded src [] (λ _ st, rzFolders st).
Definition content_MessageStates (src : option content_source) : list ReducedState :=
  content_guarded src [] (λ _ st, rzMessageStates st).
Definition content_ValidateSeal (src : option content_source) : result unit :=
  content_guarded src (Err ErrContentVerification) (λ _ _, Ok tt).

Definition validOfficialContentCID (blobCID raw : string) : bool :=
  match cid_Parse blobCID with
  | Some parsed => String.eqb (cid_String parsed) blobCID && bool_decide (cid_Sum parsed raw = Some parsed)
  | None => false
  end.

(** ** Messages handed to a visitor *)

Definition content_message_valid (m : ContentVerifiedMessage) : bool :=
  String.eqb (otEpoch (cmTarget m)) PinnedEpoch && validSHA256Identifier (cmSnapshotID m) &&
  is_ok (ValidateStoredMessage (otRepoDID (cmTarget m)) (mvRKey (cmVersion m)) (mvRecord (cmVersion m)) (cmRaw m)) &&
  validOfficialContentCID (blob_link (cmVersion m)) (cmRaw m) && String.eqb (cmSeal m) (message_snapshotSeal m).
Definition Open (m : ContentVerifiedMessage) : result (MessageVersion * string) :=
  fail_if negb (content_message_valid m) with ErrContentVerification ;;
  Ok (clone_version (cmVersion m), cmRaw m).

Definition seal_content_message (m : ContentVerifiedMessage) : ContentVerifiedMessage :=
  MkContentMessage (cmTarget m) (cmSnapshotID m) (cmVersion m) (cmRaw m) (message_snapshotSeal m).
(** The message for one stored version; a link that is not in the map gives no bytes. *)
Definition content_message (st : ReducedSourceState) (blobs : gmap string string) (stored : MessageVersion) :
    ContentVerifiedMessage :=
  let version := clone_version stored in
  seal_content_message (MkContentMessage (rzTarget st) (rzSnapshotID st) version (default "" (blobs !! blob_link version)) "").
(** What a retained message is after its callback has returned: its bytes are zeros. *)
Definition clear_raw (m : ContentVerifiedMessage) : ContentVerifiedMessage :=
  MkContentMessage (cmTarget m) (cmSnapshotID m) (cmVersion m) (zeros (len (cmRaw m))) (cmSeal m).

(** [visit] works on the shared source and on its own state [S]; it may close the source. *)
Section visit.
Context {S : Type} (visit : ContentVerifiedMessage → content_source * S → result unit * (content_source * S)).

Fixpoint visit_messages (ctx : context) (st : ReducedSourceState) (messages : list MessageVersion)
    (s : content_source * S) : result unit * (content_source * S) :=
  match messages with
  | [] => (Ok tt, s)
  | stored :: rest =>
      match poll ctx with
      | Err e => (Err e, s)
      | Ok ctx =>
          let '(r, s) := visit (content_message st (cvBlobs s.1) stored) s in
          match r with
          | Err e => (Err (if errors_Is e ErrCanceled then ErrCanceled
                           else if errors_Is e ErrDeadlineExceeded then ErrDeadlineExceeded
                           else ErrContentVerification), s)
          | Ok _ => visit_messages ctx st rest s
          end
      end
  end.

Definition VisitMessages (ctx : context) (s : content_source * S) : result unit * (content_source * S) :=
  match poll ctx with
  | Err e => (Err e, s)
  | Ok ctx =>
      match cvState s.1 with
      | Some st =>
          if validLocked s.1 then
            let '(r, (src, x)) :=
              visit_messages ctx st (rzMessages st) (set_cvActiveVisits s.1 (cvActiveVisits s.1 + 1), s.2) in
            (r, (finishVisit src, x))
          else (Err ErrContentVerification, s)
      | None => (Err ErrContentVerification, s)
      end
  end.
End visit.

(** ** The complete read *)

(** The consumer of the blob stream: the bytes so far and the blobs. *)
Definition content_blob (repoDID : string) (cids : list string) (groups : gmap string (list MessageVersion))
    (s : Z * gmap string string) (index : N) (blobCID raw : string) : result (Z * gmap string string) :=
  fail_if negb (bool_decide (cids !! N.to_nat index = Some blobCID)) || negb (validOfficialContentCID blobCID raw)
    with ErrIntegrity ;;
  let? _ := range_check (λ version,
      or_error (ValidateStoredMessage repoDID (mvRKey version) (mvRecord version) raw) ErrIntegrity)
    (default [] (groups !! blobCID)) in
  fail_if (maxContentVerifiedBytes - s.1 <? raw_size raw)%Z with ErrResourceLimit ;;
  Ok ((s.1 + raw_size raw)%Z, <[blobCID := raw]> s.2).

Definition seal_content (src : content_source) : content_source :=
  MkContent (cvState src) (cvBlobs src) (cvTotalBytes src) (cvManifest src) (snapshotSealLocked src) (cvClosed src)
    (cvActiveVisits src) (cvClosePending src).
Definition content_of (st : ReducedSourceState) (blobs : gmap string string) (total : Z) : content_source :=
  seal_content (MkContent (Some st) blobs total (officialContentManifest st blobs) "" false 0 false).

End content.

Definition content_sentinels : list error :=
  [ErrCanceled; ErrDeadlineExceeded; ErrReauthorizationRequired; ErrUnauthorized; ErrRevoked; ErrNotFound; ErrTarget].
Definition normalizeContentVerificationError (e : error) : error := first_sentinel content_sentinels (Some e) ErrContentVerification.

Section recovery.
Context `{Syntax} `{Ipld} `{Blake3} `{CaseOrbits} {W : Type} `{Transport W} `{RepoKeys W}.

Definition readOfficialSpacesRecoverySource (client : option Client_) : W → result content_source * W :=
  call? _ := ctx_Err in
  match client with
  | None => returns (Err ErrContentVerification)
  | Some c =>
      call? source := ReadSourceAuthenticatedRepository c in
      call? reduced := (λ w, (ReduceOfficialSpacesSource (now_context w) (Some source), w)) in
      call? plan := returns (prepareOfficialContent (rzMessages reduced)) in
      let '(cids, groups, declaredTotal) := plan in
      call? streamed := StreamSourceMessageBlobs c (Some source) cids
        (Some (content_blob (otRepoDID (rzTarget reduced)) cids groups)) (0%Z, ∅) in
      let '(actualTotal, blobs) := streamed in
      return_if negb (actualTotal =? declaredTotal)%Z || negb (is_ok (source_ValidateSeal (Some source))) ||
        negb (is_ok (reduced_ValidateSeal (Some reduced))) with Err ErrContentVerification ;;
      returns (Ok (content_of reduced blobs actualTotal))
  end.

Definition ReadOfficialSpacesRecoverySource (client : option Client_) : W → result content_source * W :=
  on_error normalizeContentVerificationError (readOfficialSpacesRecoverySource client).

End recovery.
