(* ===== verification/Verified.v ===== *)
(** * What verified content promises

    The contract of officialspaces_content.go: a complete read yields a source whose every
    message has its bytes, checked against the message and against the blob's CID; visits,
    however they interleave with each other and with [Close], see those bytes until they end;
    and what a visitor keeps afterwards does not open. *)
From S2P Require Import Prelude Sha256 GoStd Syntax Unicode Json Mailbox Repository Canonical Causal Revision.
From S2P Require Import FolderRevision Decode Ipld Car Url SpacesWire Http Client Snapshot SourceRead Sample Recovery Reduction.
From S2P Require Import Recovered Content.

Section selection.
Context `{Syntax} `{Ipld}.

(** ** The blobs selected *)

Definition linked (messages : list MessageVersion) : list (string * MessageVersion) :=
  (λ m, (blob_link m, m)) <$> messages.

Lemma plan_groups messages p p' : range plan_message messages p = Ok p' →
  cpGroups p' = fold_left push (linked messages) (cpGroups p).
Proof.
  revert p. induction messages as [|m messages IH]; intros p; cbn [range]; [by intros [= <-]|].
  unfold plan_message at 1. destruct (_ || _); cbn [result_bind]; [done|].
  destruct (cpSizes p !! blob_link m) as [prior|].
  - destruct (negb _); cbn [result_bind]; [done|]. by intros ->%IH.
  - destruct (_ <? _)%Z; cbn [result_bind]; [done|]. by intros ->%IH.
Qed.

Lemma prepare_ok messages cids groups total : prepareOfficialContent messages = Ok (cids, groups, total) →
  cids = sortedMapKeys groups ∧ ∀ k, groups !! k = nonempty_list (of_key k (linked messages)).
Proof.
  unfold prepareOfficialContent. destruct (range plan_message messages _) as [p|] eqn:Ep; cbn [result_bind]; [|done].
  apply plan_groups in Ep. intros [= <- <- _]. split; [done|]. intros k. rewrite Ep. apply push_lookup.
Qed.

Lemma linked_in messages m : m ∈ messages → m ∈ of_key (blob_link m) (linked messages).
Proof.
  intros Hm. apply elem_of_of_key. unfold linked. apply list_elem_of_fmap. by exists m.
Qed.

(** ** The bytes received *)

(** The bytes [raw] under [blobCID] are checked against every version that refers to them. *)
Definition bytes_checked (repoDID : string) (versions : list MessageVersion) (blobCID raw : string) : Prop :=
  validOfficialContentCID blobCID raw = true ∧
  ∀ m, m ∈ versions → ValidateStoredMessage repoDID (mvRKey m) (mvRecord m) raw = Ok tt.

Lemma range_check_in {A} (f : A → result unit) l a : range_check f l = Ok tt → a ∈ l → f a = Ok tt.
Proof.
  induction l as [|x l IH]; simpl; [by intros _ ?%elem_of_nil|].
  destruct (f x) as [[]|] eqn:Ef; cbn [result_bind]; [|done]. intros Hr [->|Hin]%elem_of_cons; [done|by apply IH].
Qed.

Lemma content_blob_ok repoDID cids groups total blobs index blobCID raw s' :
  content_blob repoDID cids groups (total, blobs) index blobCID raw = Ok s' →
  s' = ((total + raw_size raw)%Z, <[blobCID := raw]> blobs) ∧ (total + raw_size raw <= maxContentVerifiedBytes)%Z ∧
  bytes_checked repoDID (default [] (groups !! blobCID)) blobCID raw.
Proof.
  unfold content_blob. cbn [fst snd]. destruct (bool_decide (_ !! _ = _)); cbn [negb orb]; [|done].
  destruct (validOfficialContentCID blobCID raw) eqn:Ec; cbn [negb orb]; [|done].
  destruct (range_check _ _) as [[]|] eqn:Er; cbn [result_bind]; [|done].
  destruct (Z.ltb_spec (maxContentVerifiedBytes - total) (raw_size raw)); [done|]. intros [= <-].
  split; [done|]. split; [lia|]. split; [done|]. intros m Hm. apply (range_check_in _ _ _ Er) in Hm.
  destruct (ValidateStoredMessage _ _ _ _) as [[]|]; done.
Qed.

(** After the stream every blob delivered is in the map, and nothing else was put there. *)
Lemma consumed_blobs repoDID cids groups pairs index total blobs total' blobs' :
  NoDup pairs.*1 → consumed (content_blob repoDID cids groups) index (total, blobs) pairs (total', blobs') →
  (total <= maxContentVerifiedBytes)%Z →
  total' = (total + blob_bytes pairs)%Z ∧ (total' <= maxContentVerifiedBytes)%Z ∧
  (∀ k raw, (k, raw) ∈ pairs → blobs' !! k = Some raw ∧ bytes_checked repoDID (default [] (groups !! k)) k raw) ∧
  (∀ k, k ∉ pairs.*1 → blobs' !! k = blobs !! k).
Proof.
  revert index total blobs. induction pairs as [|[k raw] pairs IH]; intros index total blobs Hnd; cbn [consumed].
  { intros [= -> ->] Ht. unfold blob_bytes. cbn. split_and!; [lia|done| |done]. by intros k raw ?%elem_of_nil. }
  intros (_ & _ & s1 & Hc & Hrest) Ht. apply content_blob_ok in Hc as (-> & Hb & Hk).
  rewrite fmap_cons in Hnd. apply NoDup_cons in Hnd as [Hn Hnd]. cbn [fst] in Hn.
  apply IH in Hrest as (-> & Hmax & Hin & Hout); [|done|done].
  split_and!; [unfold blob_bytes; cbn; lia|done| |].
  - intros k' raw' [[= -> ->]|Hp]%elem_of_cons; [|by apply Hin].
    split; [|done]. rewrite Hout by done. apply lookup_insert_eq.
  - intros k' Hk'. rewrite Hout by set_solver. apply lookup_insert_ne. set_solver.
Qed.

Lemma combine_keys {A B} (l : list A) (l' : list B) : length l' = length l → (combine l l').*1 = l.
Proof. revert l'. induction l as [|a l IH]; intros [|b l'] Hl; try done. cbn. f_equal. apply IH. by injection Hl. Qed.

Lemma sortedMapKeys_nodup {V} (m : gmap string V) : NoDup (sortedMapKeys m) ∧ ∀ k, k ∈ sortedMapKeys m ↔ is_Some (m !! k).
Proof.
  unfold sortedMapKeys. split.
  - rewrite sort_strings_perm. apply NoDup_fst_map_to_list.
  - intros k. rewrite elem_of_sort_strings, list_elem_of_fmap. split.
    + intros ([k' v] & -> & Hin%elem_of_map_to_list). by exists v.
    + intros [v Hv]. exists (k, v). split; [done|]. by apply elem_of_map_to_list.
Qed.

End selection.

(** ** A complete read *)

Definition map_bytes (blobs : gmap string string) : Z := blob_bytes (map_to_list blobs).

Lemma blob_bytes_perm l l' : l ≡ₚ l' → blob_bytes l = blob_bytes l'.
Proof. unfold blob_bytes. induction 1; cbn in *; lia. Qed.

(** Every message has its bytes, checked, and there are no other blobs. *)
Definition content_complete `{Syntax} `{Ipld} (src : content_source) (st : ReducedSourceState) : Prop :=
  cvState src = Some st ∧
  (∀ m, m ∈ rzMessages st → ∃ raw, cvBlobs src !! blob_link m = Some raw ∧
     validOfficialContentCID (blob_link m) raw = true ∧
     ValidateStoredMessage (otRepoDID (rzTarget st)) (mvRKey m) (mvRecord m) raw = Ok tt) ∧
  (∀ k, is_Some (cvBlobs src !! k) → ∃ m, m ∈ rzMessages st ∧ blob_link m = k) ∧
  cvTotalBytes src = map_bytes (cvBlobs src).

Section complete.
Context `{Syntax} `{Ipld}.

Lemma seal_ignored src : snapshotSealLocked (seal_content src) = cvSeal (seal_content src).
Proof. done. Qed.

Lemma content_of_valid st blobs total : reduced_valid st = true → (0 <= total <= maxContentVerifiedBytes)%Z →
  validLocked (content_of st blobs total) = true.
Proof.
  intros Hr Ht. pose proof (digestBytes_valid (manifest_preimage st blobs)) as Hd.
  change (digestBytes (manifest_preimage st blobs)) with (officialContentManifest st blobs) in Hd.
  unfold validLocked. rewrite !andb_true_iff. split_and!; try done; try (apply Z.leb_le; cbn; lia).
  apply String.eqb_eq. symmetry. apply seal_ignored.
Qed.

(** Blobs in the order of the sorted links, each checked, make complete content. *)
Lemma streamed_complete st cids groups declared datas total blobs :
  prepareOfficialContent (rzMessages st) = Ok (cids, groups, declared) → length datas = length cids →
  consumed (content_blob (otRepoDID (rzTarget st)) cids groups) 0 (0%Z, ∅) (combine cids datas) (total, blobs) →
  content_complete (content_of st blobs total) st ∧ (0 <= total <= maxContentVerifiedBytes)%Z ∧
  map_to_list blobs ≡ₚ combine cids datas.
Proof.
  intros (-> & Hg)%prepare_ok Hl Hc. destruct (sortedMapKeys_nodup groups) as [Hnd Hk].
  pose proof (combine_keys _ _ Hl) as Hfst.
  apply consumed_blobs in Hc as (Ht & Hmax & Hin & Hout); [|by rewrite Hfst|done].
  assert (Hperm : map_to_list blobs ≡ₚ combine (sortedMapKeys groups) datas).
  { assert (blobs = list_to_map (combine (sortedMapKeys groups) datas)) as ->.
    { apply map_eq. intros k. destruct (decide (k ∈ sortedMapKeys groups)) as [Hs|Hs].
      - rewrite <- Hfst in Hs. apply list_elem_of_fmap in Hs as ([k' raw] & -> & Hp). cbn [fst].
        rewrite (proj1 (Hin _ _ Hp)). symmetry. apply elem_of_list_to_map; [by rewrite Hfst|done].
      - rewrite Hout, lookup_empty by by rewrite Hfst. symmetry. apply not_elem_of_list_to_map. by rewrite Hfst. }
    apply map_to_list_to_map. by rewrite Hfst. }
  assert (Hbytes : (total = map_bytes blobs)%Z) by (unfold map_bytes; rewrite (blob_bytes_perm _ _ Hperm); lia).
  split; [|split; [split; [|done]|exact Hperm]].
  - split_and!; [done| | |exact Hbytes].
    + intros m Hm. assert (Hs : blob_link m ∈ sortedMapKeys groups).
      { apply Hk. rewrite Hg. pose proof (linked_in _ _ Hm) as Hlm. destruct (of_key _ _); [by apply elem_of_nil in Hlm|done]. }
      rewrite <- Hfst in Hs. apply list_elem_of_fmap in Hs as ([k raw] & Hke & Hp). cbn [fst] in Hke. subst k.
      destruct (Hin _ _ Hp) as (Hb & Hv & Hall). exists raw. split; [done|]. split; [done|]. apply Hall.
      rewrite Hg. pose proof (linked_in _ _ Hm) as Hlm. by destruct (of_key _ _).
    + intros k [raw Hr]. destruct (decide (k ∈ sortedMapKeys groups)) as [Hs|Hs].
      * apply Hk in Hs as [l Hgl]. rewrite Hg in Hgl. destruct (of_key k (linked (rzMessages st))) as [|m r] eqn:Eo; [done|].
        assert (Hm : m ∈ of_key k (linked (rzMessages st))) by (rewrite Eo; set_solver).
        apply elem_of_of_key in Hm. unfold linked in Hm. apply list_elem_of_fmap in Hm as (m' & [= -> ->] & Hm). by exists m'.
      * rewrite <- Hfst in Hs. cbn in Hr. by rewrite Hout, lookup_empty in Hr.
  - rewrite Ht. unfold blob_bytes, raw_size. clear. induction (combine (sortedMapKeys groups) datas); cbn in *; lia.
Qed.

End complete.

(** ** The lifecycle: visits and closing, in any order *)

Record visitor : Type := MkVisitor {
  viState : ReducedSourceState;
  viRest : list MessageVersion
}.
(** The shared object, the visits that have begun and not ended, and the messages delivered. *)
Record system : Type := MkSystem {
  syObject : content_source;
  syVisitors : gmap N visitor;
  syDelivered : list ContentVerifiedMessage
}.

Section lifecycle.
Context `{Syntax} `{Ipld}.

(** Each step is what one goroutine does under the mutex, or one delivery between.  A visit may
    end at any point: after its last message, or because its context or its callback failed. *)
Inductive content_step : system → system → Prop :=
  | step_begin src vs ds id st :
      vs !! id = None → cvState src = Some st → validLocked src = true →
      content_step (MkSystem src vs ds)
        (MkSystem (set_cvActiveVisits src (cvActiveVisits src + 1)) (<[id := MkVisitor st (rzMessages st)]> vs) ds)
  | step_deliver src vs ds id st m rest :
      vs !! id = Some (MkVisitor st (m :: rest)) →
      content_step (MkSystem src vs ds)
        (MkSystem src (<[id := MkVisitor st rest]> vs) (ds ++ [content_message st (cvBlobs src) m]))
  | step_end src vs ds id v :
      vs !! id = Some v → content_step (MkSystem src vs ds) (MkSystem (finishVisit src) (delete id vs) ds)
  | step_close src vs ds : content_step (MkSystem src vs ds) (MkSystem (Close src) vs ds).

(** The object while it holds its content, and after it was cleared. *)
Definition holding (src0 : content_source) (closed : bool) (visits : Z) : content_source :=
  set_cvActiveVisits (set_cvClosed src0 closed closed) visits.
Definition cleared : content_source := MkContent None ∅ 0 "" zero_seal true 0 false.

Definition visits (vs : gmap N visitor) : Z := Z.of_nat (size vs).

(** What the object is, from whether it was closed and which visits are open. *)
Definition life_object (src0 : content_source) (closed : bool) (vs : gmap N visitor) : content_source :=
  if closed && bool_decide (vs = ∅) then cleared else holding src0 closed (visits vs).

Record life_inv (src0 : content_source) (st0 : ReducedSourceState) (s : system) : Prop := {
  li_object : syObject s = life_object src0 (cvClosed (syObject s)) (syVisitors s);
  li_visitors : ∀ id v, syVisitors s !! id = Some v → viState v = st0 ∧ ∀ m, m ∈ viRest v → m ∈ rzMessages st0;
  li_delivered : ∀ d, d ∈ syDelivered s → ∃ m, m ∈ rzMessages st0 ∧ d = content_message st0 (cvBlobs src0) m
}.

Context (src0 : content_source) (st0 : ReducedSourceState).
Hypothesis Hopen : src0 = holding src0 false 0.
Hypothesis Hstate : cvState src0 = Some st0.

Lemma visits_insert vs id v : vs !! id = None → visits (<[id := v]> vs) = (visits vs + 1)%Z.
Proof. intros Hn. unfold visits. rewrite map_size_insert_None by done. lia. Qed.
Lemma visits_replace vs id v v' : vs !! id = Some v → visits (<[id := v']> vs) = visits vs.
Proof. intros Hn. unfold visits. rewrite map_size_insert. by rewrite Hn. Qed.
Lemma visits_delete vs id v : vs !! id = Some v → visits (delete id vs) = (visits vs - 1)%Z.
Proof.
  intros Hn. unfold visits. rewrite map_size_delete, Hn. cbn.
  assert (size vs ≠ 0%nat) by (intros Hz; apply map_size_empty_inv in Hz; subst; by rewrite lookup_empty in Hn). lia.
Qed.
Lemma visits_zero vs : visits vs = 0%Z ↔ vs = ∅.
Proof. unfold visits. rewrite <- map_size_empty_iff. lia. Qed.
Lemma life_open closed vs : vs ≠ ∅ ∨ closed = false → life_object src0 closed vs = holding src0 closed (visits vs).
Proof. unfold life_object. intros [Hn| ->]; [|done]. by rewrite bool_decide_false, andb_false_r. Qed.

Lemma life_begin closed vs id v : vs !! id = None → validLocked (life_object src0 closed vs) = true →
  closed = false ∧
  set_cvActiveVisits (life_object src0 closed vs) (cvActiveVisits (life_object src0 closed vs) + 1) =
  life_object src0 false (<[id := v]> vs).
Proof.
  intros Hn Hv. destruct closed.
  - unfold life_object in Hv. destruct (bool_decide _) in Hv; done.
  - split; [done|]. rewrite !life_open, (visits_insert vs id v Hn) by auto. done.
Qed.

Lemma life_end closed vs id v : vs !! id = Some v →
  finishVisit (life_object src0 closed vs) = life_object src0 closed (delete id vs).
Proof.
  intros Hv. assert (Hne : vs ≠ ∅) by (intros ->; by rewrite lookup_empty in Hv).
  rewrite life_open by auto. unfold finishVisit. cbn [cvActiveVisits holding set_cvActiveVisits].
  rewrite <- (visits_delete _ _ _ Hv). unfold life_object.
  destruct closed; cbn [andb].
  - destruct (bool_decide_reflect (delete id vs = ∅)) as [He|He].
    + rewrite (proj2 (visits_zero _) He). done.
    + rewrite (proj2 (Z.eqb_neq _ _)); [done|]. by rewrite visits_zero.
  - rewrite andb_false_r. done.
Qed.

Lemma life_close closed vs : Close (life_object src0 closed vs) = life_object src0 true vs.
Proof.
  destruct closed.
  - unfold life_object. by destruct (bool_decide _).
  - rewrite life_open by auto. unfold Close. cbn [cvClosed holding set_cvActiveVisits set_cvClosed cvActiveVisits].
    unfold life_object. destruct (bool_decide_reflect (vs = ∅)) as [->|He]; cbn [andb]; [done|].
    rewrite (proj2 (Z.ltb_lt _ _)); [done|]. rewrite <- visits_zero in He. unfold visits in *. lia.
Qed.

Lemma life_closed closed vs : cvClosed (life_object src0 closed vs) = closed.
Proof. unfold life_object. destruct closed; [|done]. by destruct (bool_decide _). Qed.

Lemma life_inv_start : cvClosed src0 = false → life_inv src0 st0 (MkSystem src0 ∅ []).
Proof.
  intros Hc. split; cbn; [|by intros id v ?%lookup_empty_Some|by intros d ?%elem_of_nil].
  rewrite Hc, life_open by auto. exact Hopen.
Qed.

Lemma life_inv_step s s' : life_inv src0 st0 s → content_step s s' → life_inv src0 st0 s'.
Proof.
  intros [Ho Hvs Hds] Hs. destruct Hs as [src vs ds id st Hn Hst Hv|src vs ds id st m rest Hv|src vs ds id v Hv|src vs ds];
    cbn [syObject syVisitors syDelivered] in *; set (closed := cvClosed src) in *; clearbody closed; subst src.
  - destruct (life_begin closed vs id (MkVisitor st (rzMessages st)) Hn Hv) as [-> He].
    assert (st = st0) as -> by (rewrite life_open in Hst by auto; cbn in Hst; congruence).
    split; cbn [syObject syVisitors syDelivered]; [|intros id' v' Hl|done].
    + rewrite He, life_closed. done.
    + apply lookup_insert_Some in Hl as [[_ <-]|[_ Hl]]; [done|by apply (Hvs id')].
  - assert (Hne : vs ≠ ∅) by (intros ->; by rewrite lookup_empty in Hv).
    destruct (Hvs _ _ Hv) as [Hst Hin]. cbn in Hst, Hin. subst st.
    split; cbn [syObject syVisitors syDelivered]; rewrite ?life_closed.
    + rewrite !life_open by (left; first [apply insert_non_empty|done]). by rewrite (visits_replace _ _ _ _ Hv).
    + intros id' v' [[_ <-]|[_ Hl]]%lookup_insert_Some; [|by apply (Hvs id')]. cbn. split; [done|]. intros x Hx. apply Hin. set_solver.
    + intros d [Hd| ->%list_elem_of_singleton]%elem_of_app; [by apply Hds|]. exists m. split; [apply Hin; set_solver|].
      by rewrite life_open by auto.
  - split; cbn [syObject syVisitors syDelivered]; [|intros id' v' Hl|done].
    + rewrite (life_end _ _ _ _ Hv). by rewrite life_closed.
    + apply lookup_delete_Some in Hl as [_ Hl]. by apply (Hvs id').
  - split; cbn [syObject syVisitors syDelivered]; [|done..]. by rewrite life_close, life_closed.
Qed.

Lemma life_inv_reachable s s' : life_inv src0 st0 s → rtc content_step s s' → life_inv src0 st0 s'.
Proof. intros Hi Hr. induction Hr; [done|]. apply IHHr. by eapply life_inv_step. Qed.

(** ** The code's visit is a run of these steps *)

Section run.
Context {X : Type} (visit : ContentVerifiedMessage → content_source * X → result unit * (content_source * X)).
(** A callback may leave the source alone or close it. *)
Hypothesis visit_source : ∀ m src x r src' x', visit m (src, x) = (r, (src', x')) → src' = src ∨ src' = Close src.

Lemma visit_messages_run id st messages ctx src x r src' x' vs ds :
  visit_messages visit ctx st messages (src, x) = (r, (src', x')) → vs !! id = Some (MkVisitor st messages) →
  ∃ rest ds', rtc content_step (MkSystem src vs ds) (MkSystem src' (<[id := MkVisitor st rest]> vs) ds').
Proof.
  revert ctx src x vs ds. induction messages as [|m messages IH]; intros ctx src x vs ds; cbn [visit_messages].
  { intros [= <- <- <-] Hv. exists [], ds. rewrite insert_id by done. apply rtc_refl. }
  destruct (poll ctx) as [ctx'|e]; [|intros [= <- <- <-] Hv; exists (m :: messages), ds; rewrite insert_id by done; apply rtc_refl].
  destruct (visit _ (src, x)) as [r1 [src1 x1]] eqn:Ev. apply visit_source in Ev. intros Hr Hv.
  set (ds1 := ds ++ [content_message st (cvBlobs src) m]).
  assert (Hstep : rtc content_step (MkSystem src vs ds) (MkSystem src1 (<[id := MkVisitor st messages]> vs) ds1)).
  { eapply rtc_l; [by apply step_deliver|]. destruct Ev as [->| ->]; [apply rtc_refl|]. apply rtc_once, step_close. }
  destruct r1 as [u|e].
  - apply (IH _ _ _ (<[id := MkVisitor st messages]> vs) ds1) in Hr as (rest & ds' & Hr); [|apply lookup_insert_eq].
    exists rest, ds'. rewrite insert_insert_eq in Hr. by etrans.
  - injection Hr as <- <- <-. by exists messages, ds1.
Qed.

Lemma visit_run id ctx src x r src' x' vs ds :
  VisitMessages visit ctx (src, x) = (r, (src', x')) → vs !! id = None →
  ∃ ds', rtc content_step (MkSystem src vs ds) (MkSystem src' vs ds').
Proof.
  unfold VisitMessages. cbn [fst snd].
  destruct (poll ctx) as [ctx'|e]; [|intros [= <- <- <-] _; exists ds; apply rtc_refl].
  destruct (cvState src) as [st|] eqn:Est; [|intros [= <- <- <-] _; exists ds; apply rtc_refl].
  destruct (validLocked src) eqn:Ev; [|intros [= <- <- <-] _; exists ds; apply rtc_refl].
  destruct (visit_messages _ _ _ _ _) as [r1 [src1 x1]] eqn:Em. intros [= <- <- <-] Hn.
  apply (visit_messages_run id _ _ _ _ _ _ _ _ (<[id := MkVisitor st (rzMessages st)]> vs) ds) in Em
    as (rest & ds' & Hr); [|apply lookup_insert_eq].
  exists ds'. eapply rtc_l; [by apply step_begin|]. etrans; [exact Hr|]. rewrite insert_insert_eq.
  pose proof (step_end src1 (<[id := MkVisitor st rest]> vs) ds' id _ (lookup_insert_eq _ _ _)) as He.
  rewrite delete_insert_id in He by done. by apply rtc_once.
Qed.

End run.

(** ** Delivered messages open *)

Lemma clone_version_twice m : clone_version (clone_version m) = clone_version m.
Proof. destruct m as [k c []]. unfold clone_version. cbn. f_equal. by destruct mrReferences as [[]|]. Qed.

Lemma content_message_opens st blobs m raw : reduced_valid st = true → blobs !! blob_link m = Some raw →
  validOfficialContentCID (blob_link m) raw = true →
  ValidateStoredMessage (otRepoDID (rzTarget st)) (mvRKey m) (mvRecord m) raw = Ok tt →
  Open (content_message st blobs m) = Ok (clone_version m, raw).
Proof.
  intros Hr Hb Hc Hv. unfold reduced_valid in Hr. rewrite !andb_true_iff in Hr.
  destruct Hr as (((((((He & _) & Hs) & _) & _) & _) & _) & _).
  assert (Hraw : cmRaw (content_message st blobs m) = raw).
  { unfold content_message, seal_content_message. cbn [cmRaw]. change (blob_link (clone_version m)) with (blob_link m). by rewrite Hb. }
  unfold Open. change (cmVersion (content_message st blobs m)) with (clone_version m). rewrite Hraw, clone_version_twice.
  assert (content_message_valid (content_message st blobs m) = true) as ->; [|done].
  unfold content_message_valid. rewrite Hraw, !andb_true_iff. split_and!; [exact He|exact Hs| |exact Hc|].
  - change (ValidateStoredMessage _ _ _ raw) with
      (ValidateStoredMessage (otRepoDID (rzTarget st)) (mvRKey m) (mvRecord m) raw). by rewrite Hv.
  - apply String.eqb_eq. reflexivity.
Qed.

End lifecycle.

(** ** What a successful read has seen *)

Lemma content_read_ok `{SyntaxLaws} `{Ipld} `{Blake3} `{CaseOrbits} {W : Type} `{Transport W} `{RepoKeys W}
    (client : option Client_) (w w' : W) (src : content_source)
    (Hr : ReadOfficialSpacesRecoverySource client w = (Ok src, w')) :
  ∃ c source w1 st blobs, client = Some c ∧ stable_read c source w w1 ∧
    ReduceOfficialSpacesSource (now_context w1) (Some source) = Ok st ∧ read_at_source c source blobs w1 w' ∧
    map_to_list (cvBlobs src) ≡ₚ blobs ∧ content_complete src st ∧ validLocked src = true ∧ (cvTotalBytes src <= maxContentVerifiedBytes)%Z.
Proof.
  unfold ReadOfficialSpacesRecoverySource, on_error in Hr.
  destruct (readOfficialSpacesRecoverySource client w) as [[src'|e] w0] eqn:E; [|done]. injection Hr as -> <-.
  unfold readOfficialSpacesRecoverySource in E. apply call_ok in E as ([] & w1 & [_ <-]%ctx_ok & E). destruct client as [c|]; [|done].
  apply call_ok in E as (source & w2 & Hs & E). apply call_ok in E as (st & w3 & Hred & E).
  apply call_ok in E as ([[cids groups] declared] & w4 & Hp & E). apply call_ok in E as ([total blobs] & w5 & Hst & E).
  injection Hred as Hred <-. apply returns_ok in Hp as [Hp ->]. apply source_read_ok in Hs.
  destruct (negb (total =? declared)%Z || _); [done|]. cbn [orb] in E.
  destruct (reduced_ValidateSeal (Some st)) as [[]|] eqn:Ev; [|done]. cbn [is_ok negb] in E.
  apply returns_ok in E as [[= <-] ->].
  apply stream_ok in Hst as (s & datas & [= <-] & _ & _ & Hat & Hl & Hc & _).
  destruct (streamed_complete _ _ _ _ _ _ _ Hp Hl Hc) as (Hcomplete & Ht & Hperm).
  assert (Hv : reduced_valid st = true) by (unfold reduced_ValidateSeal, reduced_guarded in Ev; by destruct (reduced_valid st)).
  exists c, source, w2, st, (combine cids datas). split_and!; try done; [by apply content_of_valid|apply Ht].
Qed.

(** ** A read that completes *)

Lemma content_read_run `{Syntax} `{Ipld} `{Blake3} `{CaseOrbits} {W : Type} `{Transport W} `{RepoKeys W}
    (c : Client_) (w w1 w2 : W) src st cids groups total blobs :
  is_ok (poll (now_context w)) = true → ReadSourceAuthenticatedRepository c w = (Ok src, w1) →
  ReduceOfficialSpacesSource (now_context w1) (Some src) = Ok st → prepareOfficialContent (rzMessages st) = Ok (cids, groups, total) →
  StreamSourceMessageBlobs c (Some src) cids (Some (content_blob (otRepoDID (rzTarget st)) cids groups)) (0%Z, ∅) w1 =
    (Ok (total, blobs), w2) →
  source_valid src = true → reduced_valid st = true →
  ReadOfficialSpacesRecoverySource (Some c) w = (Ok (content_of st blobs total), w2).
Proof.
  intros Hp Hs Hr Hpl Hst Hv Hd. unfold ReadOfficialSpacesRecoverySource, on_error.
  assert (readOfficialSpacesRecoverySource (Some c) w = (Ok (content_of st blobs total), w2)) as ->; [|done].
  unfold readOfficialSpacesRecoverySource. apply (call_run _ _ _ tt w); [unfold ctx_Err; by destruct (poll (now_context w))|].
  eapply call_run; [exact Hs|]. apply (call_run _ _ _ st w1); [by rewrite Hr|].
  apply (call_run _ _ _ (cids, groups, total) w1); [unfold returns; by rewrite Hpl|].
  eapply call_run; [exact Hst|]. cbv beta iota zeta. rewrite Z.eqb_refl. unfold source_ValidateSeal, guarded, reduced_ValidateSeal, reduced_guarded.
  by rewrite Hv, Hd.
Qed.

(** The sample repository read, with its one message. *)
Definition sample_cid : string := Eval vm_compute in blob_link example_version.
Definition sample_groups : gmap string (list MessageVersion) := Eval vm_compute in {[sample_cid := [example_version]]}.
Definition sample_blobs : gmap string string := Eval vm_compute in {[sample_cid := sample_raw]}.
Definition sample_content : content_source := content_of example_recovered sample_blobs 11.

Definition world_second : script := Eval vm_compute in (AcquireReader (clTarget sample_client) world_source).2.
Definition world_start : script := Eval vm_compute in (readSourceCommit sample_client 5 world_second).2.
Definition world_blob : script := Eval vm_compute in (readMessageBlob sample_client 5 sample_cid world_start).2.
Definition world_end : script := Eval vm_compute in (readSourceCommit sample_client 5 world_blob).2.

Lemma seal_source_commit r commit : matchesCommit (seal_source r) commit = matchesCommit r commit.
Proof. exact eq_refl. Qed.
Lemma sample_source_commit w : check_source_commit sample_client sample_source sample_commit w = (Ok tt, w).
Proof.
  apply check_source_run; [apply sample_verifies|]. unfold sample_source. rewrite seal_source_commit. vm_compute. reflexivity.
Qed.
Lemma sample_start : readSourceCommit sample_client 5 world_second = (Ok sample_commit, world_start).
Proof. vm_compute. reflexivity. Qed.
Lemma sample_end : readSourceCommit sample_client 5 world_blob = (Ok sample_commit, world_end).
Proof. vm_compute. reflexivity. Qed.
Lemma sample_blob_read :
  stream_blobs sample_client 5 maxRecoveryBlobBytes (content_blob (otRepoDID example_spaces_target) [sample_cid] sample_groups)
    0 0 (0%Z, ∅) [sample_cid] world_start = (Ok (11%Z, sample_blobs), world_blob).
Proof. exact_vm. Qed.

Lemma sample_streamed :
  StreamSourceMessageBlobs sample_client (Some sample_source) [sample_cid]
    (Some (content_blob (otRepoDID example_spaces_target) [sample_cid] sample_groups)) (0%Z, ∅) world_source =
  (Ok (11%Z, sample_blobs), CloseDoer 5 world_end).
Proof.
  eapply stream_run; [reflexivity|reflexivity|exact sample_source_valid|done|vm_compute; reflexivity|apply sample_origin
    |vm_compute; reflexivity|exact sample_start|apply sample_source_commit|exact sample_blob_read|exact sample_end
    |apply sample_source_commit].
Qed.

Lemma reduced_sealed st : reduced_ValidateSeal (Some st) = Ok tt → reduced_valid st = true.
Proof. unfold reduced_ValidateSeal, reduced_guarded. by destruct (reduced_valid st). Qed.
Lemma source_sealed r : source_valid r = true → source_ValidateSeal (Some r) = Ok tt.
Proof. unfold source_ValidateSeal, guarded. by intros ->. Qed.

Lemma sample_reduced_valid : reduced_valid example_recovered = true.
Proof.
  apply reduced_sealed, (proj1 (reduced_from_source background (Some sample_source) example_recovered
    (source_sealed _ sample_source_valid) (eq_trans (f_equal _ sample_inventory) example_reduction_ok))).
Qed.
Lemma sample_plan : prepareOfficialContent (rzMessages example_recovered) = Ok ([sample_cid], sample_groups, 11%Z).
Proof. rewrite (proj1 example_recovered_value). exact_vm. Qed.
Lemma sample_content_streamed :
  StreamSourceMessageBlobs sample_client (Some sample_source) [sample_cid]
    (Some (content_blob (otRepoDID (rzTarget example_recovered)) [sample_cid] sample_groups)) (0%Z, ∅) world_source =
  (Ok (11%Z, sample_blobs), CloseDoer 5 world_end).
Proof. rewrite (proj1 (proj2 example_recovered_value)). exact sample_streamed. Qed.

Lemma sample_content_read :
  ReadOfficialSpacesRecoverySource (Some sample_client) content_script = (Ok sample_content, CloseDoer 5 world_end).
Proof.
  exact (content_read_run sample_client content_script world_source (CloseDoer 5 world_end) sample_source example_recovered
    [sample_cid] sample_groups 11 sample_blobs eq_refl sample_source_read sample_reduces sample_plan sample_content_streamed
    sample_source_valid sample_reduced_valid).
Qed.

Lemma complete_state `{Syntax} `{Ipld} src st st' : content_complete src st → cvState src = Some st' → content_complete src st'.
Proof. intros Hc Hst. pose proof (proj1 Hc) as E. rewrite Hst in E. injection E as <-. exact Hc. Qed.
Lemma sample_content_complete : content_complete sample_content example_recovered ∧ validLocked sample_content = true.
Proof.
  destruct (content_read_ok (Some sample_client) content_script _ _ sample_content_read)
    as (c & source & w1 & st & blobs & _ & _ & _ & _ & _ & Hc & Hv & _).
  split; [exact (complete_state _ _ example_recovered Hc eq_refl)|exact Hv].
Qed.
Lemma content_of_open st blobs total : content_of st blobs total = holding (content_of st blobs total) false 0.
Proof. exact eq_refl. Qed.

(** One visit: it begins, is handed the first message, the source is closed, and it ends. *)
Lemma one_visit `{Syntax} `{Ipld} src st m rest : cvState src = Some st → validLocked src = true → rzMessages st = m :: rest →
  rtc content_step (MkSystem src ∅ [])
    (MkSystem (finishVisit (Close (set_cvActiveVisits src (cvActiveVisits src + 1)))) ∅ [content_message st (cvBlobs src) m]).
Proof.
  intros Hst Hv Hm. eapply rtc_l; [apply (step_begin _ _ _ 0%N st); [apply lookup_empty|done|done]|].
  eapply rtc_l; [apply (step_deliver _ _ _ 0%N st m rest); rewrite Hm; apply lookup_insert_eq|].
  eapply rtc_l; [apply step_close|]. rewrite insert_insert_eq.
  pose proof (λ src ds, step_end src (<[0%N := MkVisitor st rest]> ∅) ds 0%N _ (lookup_insert_eq _ _ _)) as He.
  rewrite delete_insert_id in He by apply lookup_empty. apply rtc_once, He.
Qed.

(** ** The contract *)

(** C9. A successful recovery read is stable, complete and authentic. Its calls ran in this order:
    under one credential the commit of the repository, its export and its commit again, each
    verified and all agreeing; under a second one the commit again, the blobs, and after the last
    of them the commit, both verified and both still that of the source. The reduction of the
    export is the state, the blobs that were read are the blobs of the content; every message
    version has its bytes, checked against the message record and against the CID of its blob;
    there are no other blobs, and they stay within 64 MiB. *)
Theorem content_read_sound `{SyntaxLaws} `{Ipld} `{Blake3} `{CaseOrbits} {W : Type} `{Transport W} `{RepoKeys W}
    (client : option Client_) (w w' : W) (src : content_source)
    (Hr : ReadOfficialSpacesRecoverySource client w = (Ok src, w')) :
  ∃ c source w1 st blobs, client = Some c ∧ stable_read c source w w1 ∧
    ReduceOfficialSpacesSource (now_context w1) (Some source) = Ok st ∧ read_at_source c source blobs w1 w' ∧
    map_to_list (cvBlobs src) ≡ₚ blobs ∧ content_complete src st ∧ validLocked src = true ∧ (cvTotalBytes src <= maxContentVerifiedBytes)%Z.
Proof. exact (content_read_ok client w w' src Hr). Qed.

(** C10. The lifecycle of the content, for every interleaving of visits and closings from a
    complete source: the counter is the number of open visits; the content is cleared exactly
    when the source was closed and the last visit has ended, and untouched before that; once
    closed no visit begins; and every message ever delivered opens to a stored version with the
    bytes of its blob. *)
Theorem content_lifecycle `{Syntax} `{Ipld} (src0 : content_source) (st0 : ReducedSourceState) (s : system)
    (Hc : content_complete src0 st0) (Hv : validLocked src0 = true) (Ho : src0 = holding src0 false 0)
    (Hr : rtc content_step (MkSystem src0 ∅ []) s) :
  cvActiveVisits (syObject s) = visits (syVisitors s) ∧
  (cvState (syObject s) = None ↔ cvClosed (syObject s) = true ∧ syVisitors s = ∅) ∧
  (if decide (cvState (syObject s) = None) then cvBlobs (syObject s) = ∅
   else cvState (syObject s) = Some st0 ∧ cvBlobs (syObject s) = cvBlobs src0) ∧
  (cvClosed (syObject s) = true → validLocked (syObject s) = false) ∧
  (∀ d, d ∈ syDelivered s → ∃ m raw, m ∈ rzMessages st0 ∧ cvBlobs src0 !! blob_link m = Some raw ∧
     Open d = Ok (clone_version m, raw)).
Proof.
  destruct Hc as (Hst & Hblobs & _ & _).
  assert (Hi : life_inv src0 st0 s).
  { eapply life_inv_reachable; [exact Ho|exact Hst| |exact Hr]. apply life_inv_start; [exact Ho|]. by rewrite Ho. }
  destruct Hi as [Hobj _ Hds]. split_and!; cycle 4.
  - intros d Hd. destruct (Hds d Hd) as (m & Hm & ->). destruct (Hblobs m Hm) as (raw & Hb & Hcid & Hval).
    exists m, raw. split_and!; [done|done|]. apply content_message_opens; try done.
    unfold validLocked in Hv. rewrite Hst, !andb_true_iff in Hv. tauto.
  - rewrite Hobj. unfold life_object. destruct (_ && _) eqn:Eb; [|done]. apply andb_true_iff in Eb as [_ Eb].
    apply bool_decide_eq_true in Eb. by rewrite Eb.
  - rewrite Hobj, life_closed. unfold life_object. split.
    + destruct (_ && _) eqn:Eb; [|cbn; by rewrite Hst]. intros _. apply andb_true_iff in Eb as [Ec Eb].
      split; [by rewrite Ec|by apply bool_decide_eq_true in Eb].
    + intros [-> ->]. done.
  - rewrite Hobj. unfold life_object. destruct (_ && _); [done|]. rewrite decide_False; [done|]. cbn. by rewrite Hst.
  - intros Hcl. unfold validLocked. by rewrite Hcl.
Qed.

(** The visit of the code is one run of that lifecycle: whatever the callback does, if it
    leaves the shared source alone or closes it, a call of [VisitMessages] takes the system from
    a reachable state to a reachable state, with the same visits open as before. *)
Theorem visit_refines_lifecycle `{Syntax} `{Ipld} {X : Type}
    (visit : ContentVerifiedMessage → content_source * X → result unit * (content_source * X))
    (Hvisit : ∀ m src x r src' x', visit m (src, x) = (r, (src', x')) → src' = src ∨ src' = Close src)
    (ctx : context) (src src' : content_source) (x x' : X) (r : result unit) (id : N) (vs : gmap N visitor)
    (ds : list ContentVerifiedMessage) (Hid : vs !! id = None)
    (Hr : VisitMessages visit ctx (src, x) = (r, (src', x'))) :
  ∃ ds', rtc content_step (MkSystem src vs ds) (MkSystem src' vs ds').
Proof. by apply (visit_run visit Hvisit id ctx src x r src' x'). Qed.

(** A message a visitor keeps does not open after the callback has returned: its bytes were
    overwritten with zeros, and a message that is not itself all zeros then fails its own check
    (or gives an explicit SHA-256 collision). *)
Theorem retained_message_fails `{Syntax} `{Ipld} (d : ContentVerifiedMessage) (v : MessageVersion) (raw : string)
    (Ho : Open d = Ok (v, raw)) (Hz : raw ≠ zeros (len raw)) :
  Open (clear_raw d) = Err ErrContentVerification ∨ collision raw (zeros (len raw)).
Proof.
  assert (Hsha : ∀ m, content_message_valid m = true → mrSHA256 (mvRecord (cmVersion m)) = RawSHA256 (cmRaw m)).
  { intros m. unfold content_message_valid. rewrite !andb_true_iff. intros ((((_ & _) & Hv) & _) & _).
    destruct (ValidateStoredMessage _ _ _ _) as [[]|] eqn:E; [|done]. by apply ValidateStoredMessage_ok in E as (_ & _ & E & _). }
  unfold Open in *. destruct (content_message_valid d) eqn:Ed; [|done]. cbn [negb] in Ho.
  injection Ho as _ Hraw. destruct (content_message_valid (clear_raw d)) eqn:Ec; [|by left].
  apply Hsha in Ed, Ec. change (cmVersion (clear_raw d)) with (cmVersion d) in Ec. rewrite Ed in Ec.
  unfold clear_raw in Ec. cbn [cmRaw] in Ec. rewrite Hraw in Ec.
  destruct (hex_sha256_inj _ _ Ec) as [E|E]; [destruct (Hz E)|right; exact E].
Qed.

(** The errors of a recovery read are redacted: whatever the provider, the resolver or the
    content made fail, a caller sees one of seven sentinels or the one opaque failure. *)
Theorem content_error_redacted `{Syntax} `{Ipld} `{Blake3} `{CaseOrbits} {W : Type} `{Transport W} `{RepoKeys W}
    (client : option Client_) (w w' : W) (e : error) (Hr : ReadOfficialSpacesRecoverySource client w = (Err e, w')) :
  e ∈ content_sentinels ∨ e = ErrContentVerification.
Proof.
  unfold ReadOfficialSpacesRecoverySource, on_error in Hr.
  destruct (readOfficialSpacesRecoverySource client w) as [[src|e0] w0]; [done|]. injection Hr as <- _.
  unfold normalizeContentVerificationError, first_sentinel.
  destruct (List.find (errors_Is e0) content_sentinels) as [s|] eqn:Ef; [|by right].
  apply List.find_some in Ef as [Hin _]. left. by apply list_elem_of_In.
Qed.

(** C11. A demand to authorize again does not reach the caller of a recovery read: the broker's
    error is kept by every listing of the client, and [normalizeContentVerificationError] would
    pass it on, but [normalizeSnapshotError] between them turns it into a failed verification. *)
Theorem reauthorization_hidden `{Syntax} `{Ipld} `{Blake3} `{CaseOrbits} {W : Type} `{Transport W} `{RepoKeys W}
    (c : Client_) (w w1 w2 : W) (h : option N) (Hp : is_ok (poll (now_context w)) = true) (Hk : clRepoKeys c = true)
    (Ho : validateRepoSourceOrigin c w = (Ok tt, w1))
    (Ha : AcquireReader (clTarget c) w1 = ((h, Some ErrReauthorizationRequired), w2)) :
  (ReadOfficialSpacesRecoverySource (Some c) w).1 = Err ErrContentVerification ∧
  (ListBlobs c "" w1).1 = Err ErrReauthorizationRequired ∧
  normalizeContentVerificationError ErrReauthorizationRequired = ErrReauthorizationRequired.
Proof.
  assert (Hw : ∀ A (operation : N → W → result A * W), (withReader c operation w1).1 = Err ErrReauthorizationRequired).
  { intros A operation. unfold withReader, with_credential. rewrite Ha. by destruct h. }
  split; [|by split; [apply Hw|]].
  assert (Hr : (ReadSourceAuthenticatedRepository c w).1 = Err ErrSnapshotVerification).
  { unfold ReadSourceAuthenticatedRepository. rewrite Hk. cbn [negb]. unfold call_bind. rewrite Ho. unfold on_error.
    specialize (Hw _ (read_stable c)). destruct (withReader c (read_stable c) w1) as [r w3]. cbn [fst] in Hw. by subst r. }
  unfold ReadOfficialSpacesRecoverySource, on_error, readOfficialSpacesRecoverySource, call_bind at 1, ctx_Err.
  destruct (poll (now_context w)); [|done]. cbn [result_bind]. unfold call_bind at 1.
  destruct (ReadSourceAuthenticatedRepository c w) as [r w3]. cbn [fst] in Hr. by subst r.
Qed.

(** ** The theorems on the sample *)

Lemma content_read_sound_witness : ∃ c source w1 st blobs, Some sample_client = Some c ∧ stable_read c source content_script w1 ∧
  read_at_source c source blobs w1 (CloseDoer 5 world_end) ∧ map_to_list (cvBlobs sample_content) ≡ₚ blobs ∧ content_complete sample_content st.
Proof.
  destruct (content_read_sound (Some sample_client) content_script _ _ sample_content_read)
    as (c & source & w1 & st & blobs & Hclient & Hstable & _ & Hat & Hblobs & Hc & _).
  exists c, source, w1, st, blobs. split; [exact Hclient|]. split; [exact Hstable|]. split; [exact Hat|]. split; [exact Hblobs|exact Hc].
Defined.

Lemma content_lifecycle_witness :
  ∃ m raw, m ∈ rzMessages example_recovered ∧ cvBlobs sample_content !! blob_link m = Some raw ∧
    Open (content_message example_recovered sample_blobs example_version) = Ok (clone_version m, raw).
Proof.
  destruct (content_lifecycle sample_content example_recovered _ (proj1 sample_content_complete) (proj2 sample_content_complete)
    (content_of_open _ _ _) (one_visit sample_content example_recovered example_version [] (proj1 (proj1 sample_content_complete))
      (proj2 sample_content_complete) (proj1 example_recovered_value))) as (_ & _ & _ & _ & Hd).
  apply (Hd (content_message example_recovered sample_blobs example_version)). apply list_elem_of_here.
Defined.

Lemma visit_refines_lifecycle_witness :
  ∃ ds, rtc content_step (MkSystem sample_content ∅ [])
    (MkSystem (VisitMessages (λ _ s, (Ok tt, (Close s.1, s.2 + 1))) background (sample_content, 0)).2.1 ∅ ds).
Proof.
  destruct (VisitMessages (λ _ s, (Ok tt, (Close s.1, s.2 + 1))) background (sample_content, 0)) as [r [src' n]] eqn:E.
  cbn [fst snd].
  refine (visit_refines_lifecycle (λ _ s, (Ok tt, (Close s.1, s.2 + 1))) _ background sample_content src' 0 n r 0 ∅ []
    (lookup_empty _) E).
  intros m src x r' src'' x' [= <- <- <-]. by right.
Defined.

Lemma retained_message_fails_witness :
  Open (clear_raw (content_message example_recovered sample_blobs example_version)) = Err ErrContentVerification ∨
  collision sample_raw (zeros (len sample_raw)).
Proof.
  apply (retained_message_fails _ (clone_version example_version)).
  - apply content_message_opens; [exact sample_reduced_valid|vm_compute; reflexivity|vm_compute; reflexivity|].
    rewrite (proj1 (proj2 example_recovered_value)). vm_compute. reflexivity.
  - discriminate.
Defined.

(** A broker that only ever asks to authorize again. *)
#[local] Instance reauthorizing : Transport unit := {
  now_context _ := background;
  AcquireWriter _ w := ((None, Some ErrReauthorizationRequired), w);
  AcquireReader _ w := ((None, Some ErrReauthorizationRequired), w);
  Do _ _ _ w := ((None, Some ErrOther), w);
  CloseDoer _ w := w;
  CloseBody _ w := w;
  open_handles _ := ∅
}.
Lemma reauthorization_hidden_witness :
  (ReadOfficialSpacesRecoverySource (Some sample_client) tt).1 = Err ErrContentVerification.
Proof. exact (proj1 (reauthorization_hidden sample_client tt tt tt None eq_refl eq_refl eq_refl eq_refl)). Defined.
