(* ===== verification/Append.v ===== *)
(** * Extending a history

    What appending one revision to a complete history does.  The revision names all heads as its
    parents and is one higher than the state it extends; then the longer history is complete
    again, and its state is the old state with the assignments of the revision. *)
From S2P Require Import Prelude Sha256 GoStd Syntax Canonical Causal Revision.

(** ** Causal histories *)

Section order.
Context {E : Type} `{CausalEvent E} (l : list E) (e : E).

Lemma sort_events_snoc : NoDup (ce_op <$> l ++ [e]) → (∀ x, x ∈ l → ce_revision x < ce_revision e) →
  sort_events (l ++ [e]) = sort_events l ++ [e].
Proof.
  intros Hops Hlow. symmetry. apply sort_events_unique; [done| |by rewrite sort_events_perm].
  assert (Hs : ∀ s, StronglySorted event_le s → (∀ x, x ∈ s → ce_revision x < ce_revision e) →
    StronglySorted event_le (s ++ [e])).
  { induction s as [|x s IH]; intros Hs Hx; [by repeat constructor|]. inversion_clear Hs as [|? ? Hs' Hall].
    cbn. constructor; [apply IH; [done|intros; apply Hx; set_solver]|]. apply Forall_app. split; [done|].
    apply Forall_singleton. left. apply Hx. set_solver. }
  apply Hs; [apply sort_events_sorted|]. intros x Hx. apply Hlow. by rewrite elem_of_sort_events in Hx.
Qed.

Lemma parent_max_ge m ps n p (pe : E) : p ∈ ps → m !! p = Some pe → ce_revision pe ≤ parent_max m ps n.
Proof.
  assert (Hn : ∀ ps n, n ≤ parent_max m ps n).
  { unfold parent_max. induction ps0 as [|q qs IH]; intros n'; cbn [fold_left]; [lia|]. etrans; [|apply IH]. lia. }
  unfold parent_max. revert n. induction ps as [|q ps IH]; intros n Hp Hl; [by apply elem_of_nil in Hp|]. cbn [fold_left]. apply elem_of_cons in Hp as [<-|Hp].
  - rewrite Hl. etrans; [|apply Hn]. cbn. lia.
  - by apply IH.
Qed.

End order.

Section causal.
Context {E : Type} `{CausalEvent E} (root_ok : E → bool) (l : list E) (e : E).
Hypothesis keys_unique : NoDup (ce_key <$> l).
Hypothesis fresh : ce_key e ∉ (ce_key <$> l).
Hypothesis causal : Forall (causal_ok root_ok (by_key l)) l.

Lemma parent_known x p : x ∈ l → p ∈ ce_parents x → p ∈ (ce_key <$> l).
Proof.
  intros Hx Hp. destruct (parent_is_lower root_ok l keys_unique causal x p Hx Hp) as (pe & Hpe & <- & _).
  apply list_elem_of_fmap. by exists pe.
Qed.
Lemma by_key_old p : p ∈ (ce_key <$> l) → by_key (l ++ [e]) !! p = by_key l !! p.
Proof. intros Hp. rewrite by_key_snoc. apply lookup_insert_ne. intros <-. done. Qed.

Lemma parent_max_old ps n : (∀ p, p ∈ ps → p ∈ (ce_key <$> l)) → parent_max (by_key (l ++ [e])) ps n = parent_max (by_key l) ps n.
Proof.
  unfold parent_max. revert n. induction ps as [|p ps IH]; intros n Hps; [done|]. cbn [fold_left].
  rewrite by_key_old by (apply Hps; set_solver). apply IH. intros q Hq. apply Hps. set_solver.
Qed.

(** Old events keep their parents, and the new one has its own among them. *)
Lemma causal_old x : causal_ok root_ok (by_key l) x → (∀ p, p ∈ ce_parents x → p ∈ (ce_key <$> l)) →
  causal_ok root_ok (by_key (l ++ [e])) x.
Proof.
  unfold causal_ok. intros Hx Hps. destruct (decide (is_root x)); [done|]. destruct Hx as [Hall Hrev]. split.
  - intros p Hp. rewrite by_key_old by auto. by apply Hall.
  - by rewrite parent_max_old.
Qed.
Lemma causal_snoc : causal_ok root_ok (by_key l) e → ¬ is_root e →
  Forall (causal_ok root_ok (by_key (l ++ [e]))) (l ++ [e]).
Proof.
  intros He Hr. apply Forall_app. split.
  - apply Forall_forall. intros x Hx. apply causal_old; [by rewrite Forall_forall in causal; apply causal|].
    intros p Hp. by apply (parent_known x).
  - apply Forall_singleton, causal_old; [done|]. unfold causal_ok in He. rewrite decide_False in He by done.
    intros p Hp. destruct (proj1 He p Hp) as (pe & Hpe & _). apply by_key_Some in Hpe as [Hpe <-]; [|done].
    apply list_elem_of_fmap. by exists pe.
Qed.

Lemma ancestor_old a x : ancestor (l ++ [e]) a x → x ∈ l → ancestor l a x.
Proof.
  assert (Hp : ∀ p x, parent_of (l ++ [e]) p x → x ∈ l → parent_of l p x).
  { intros p y [[Hp| ->%list_elem_of_singleton]%elem_of_app Hk] Hy; [done|]. destruct fresh. by apply (parent_known y). }
  induction 1 as [x Hpar|p x Ha IH Hpar]; intros Hx; [by apply ancestor_parent, Hp|].
  apply Hp in Hpar; [|done]. eapply ancestor_step; [|exact Hpar]. apply IH, Hpar.
Qed.

(** The new event descends from old ones only. *)
Lemma ancestor_new a x : ancestor (l ++ [e]) a x → (∀ p, p ∈ ce_parents e → p ∈ (ce_key <$> l)) →
  x ∈ l ++ [e] → a ∈ l.
Proof.
  intros Ha He. assert (Hp : ∀ p y, parent_of (l ++ [e]) p y → y ∈ l ++ [e] → p ∈ l).
  { intros p y [[Hp| ->%list_elem_of_singleton]%elem_of_app Hk] [Hy| ->%list_elem_of_singleton]%elem_of_app; [done..| |].
    - destruct fresh. by apply (parent_known y).
    - destruct fresh. by apply He. }
  induction Ha as [x Hpar|p x Ha IH Hpar]; intros Hx; [by apply (Hp a x)|]. apply IH. apply elem_of_app. left. by apply (Hp p x).
Qed.

(** Naming every head makes the new event the only head. *)
Lemma heads_snoc : (∀ p, p ∈ ce_parents e ↔ p ∈ head_keys (all_parents l) l) →
  head_keys (all_parents (l ++ [e])) (l ++ [e]) = [ce_key e].
Proof.
  intros Hps. unfold head_keys. rewrite fmap_app, filter_app.
  assert (Hall : ∀ k, k ∈ all_parents (l ++ [e]) ↔ k ∈ all_parents l ∨ k ∈ ce_parents e).
  { intros k. rewrite !elem_of_all_parents. setoid_rewrite elem_of_app. setoid_rewrite list_elem_of_singleton. naive_solver. }
  assert (Hold : filter (λ key, key ∉ all_parents (l ++ [e])) (ce_key <$> l) = []).
  { apply elem_of_nil_inv. intros k [Hn Hk]%list_elem_of_filter. apply Hn, Hall.
    destruct (decide (k ∈ all_parents l)) as [?|Hnp]; [by left|right]. apply Hps. unfold head_keys.
    rewrite elem_of_sort_strings. by apply list_elem_of_filter. }
  rewrite Hold. cbn [fmap list_fmap app]. rewrite filter_cons_True, filter_nil; [done|].
  rewrite Hall, elem_of_all_parents. intros [(x & Hx & Hp)|Hp].
  - apply fresh. by apply (parent_known x).
  - apply Hps in Hp. unfold head_keys in Hp. rewrite elem_of_sort_strings in Hp. by apply list_elem_of_filter in Hp as [_ ?].
Qed.

End causal.

(** ** Message-state histories *)

Section extension.
Context `{Syntax} (repoDID logicalMessageID : string) (old new : VerifiedSnapshot) (l : list StateRevision) (e : StateRevision).
Local Abbreviation merged := (merge_events (sort_events l)).

(** The new inventory is the old one with one revision, its claim and perhaps a version more. *)
Record extension : Prop := {
  ex_claim : ∃ c, NewOperationClaim repoDID e = Ok c ∧ vsOperationClaims old !! ocRKey c = None ∧
    vsOperationClaims new = <[ocRKey c := srRKey e]> (vsOperationClaims old);
  ex_versions : vsVersions old ⊆ vsVersions new;
  ex_folders : vsFolders new = vsFolders old;
  ex_sealed : VerifiedSnapshot_validFor new logicalMessageID (llen l + 1) = true;
  ex_fresh : srRKey e ∉ (ce_key <$> l);
  ex_valid : validateRevision repoDID logicalMessageID e new = Ok tt;
  ex_count : llen l < maxRevisionCount;
  ex_bytes : is_ok (revision_bytes e) = true ∧ total_size revision_bytes l + size_of revision_bytes e ≤ maxRevisionInventoryBytes;
  ex_parents : elems (rrParents (srRecord e)) = head_keys (all_parents l) l;
  ex_revision : rrRevision (srRecord e) = meHeight merged + 1;
  ex_alive : meTombstone merged = false;
  ex_live : live_reference_ok new (merge_event merged e)
}.

Hypothesis complete : complete_inventory repoDID logicalMessageID old l.
Hypothesis ext : extension.

(** What is known of a folder or version stays known. *)
Lemma validate_mono x : validateRevision repoDID logicalMessageID x old = Ok tt → validateRevision repoDID logicalMessageID x new = Ok tt.
Proof.
  intros Hv. pose proof (ev_version _ _ _ (validateRevision_wf _ _ _ _ Hv)) as Hver. rewrite <- Hv.
  assert (Hf : folder_known new = folder_known old) by (unfold folder_known; by rewrite (ex_folders ext)).
  unfold validateRevision. rewrite Hf. destruct (String.eqb_spec (rrVersion (srRecord x)) "") as [_|Hn]; [reflexivity|].
  rewrite (bool_decide_true (vsVersions old !! _ = _)) by exact (Hver Hn).
  rewrite (bool_decide_true (vsVersions new !! _ = _)) by exact (lookup_weaken _ _ _ _ (Hver Hn) (ex_versions ext)). reflexivity.
Qed.

Lemma admit_old x : x ∈ l → admit_revision repoDID logicalMessageID new x = Ok tt.
Proof.
  intros Hx. pose proof (sc_admissible _ _ _ _ (ci_events _ _ _ _ complete)) as Hadm. rewrite Forall_forall in Hadm.
  destruct (Hadm x Hx) as [_ Ha]. clear Hadm. unfold admit_revision in *.
  destruct (validateRevision repoDID logicalMessageID x old) as [[]|] eqn:Ev; cbn [result_bind] in Ha; [|done].
  rewrite (validate_mono x Ev). cbn [result_bind]. destruct (NewOperationClaim repoDID x) as [c|]; cbn [result_bind] in *; [|done].
  destruct (ex_claim ext) as (ce & _ & Hn & Hc). rewrite Hc. destruct (decide (ocRKey ce = ocRKey c)) as [E|E].
  - rewrite <- E, Hn in Ha. done.
  - by rewrite lookup_insert_ne.
Qed.
Lemma admit_new : admit_revision repoDID logicalMessageID new e = Ok tt.
Proof.
  unfold admit_revision. rewrite (ex_valid ext). cbn [result_bind]. destruct (ex_claim ext) as (c & -> & _ & Hc).
  cbn [result_bind]. rewrite Hc, lookup_insert_eq. cbn [opt_result result_bind]. by rewrite String.eqb_refl.
Qed.

Lemma new_above x : x ∈ l → ce_revision x < ce_revision e.
Proof.
  intros Hx. destruct (complete_height _ _ _ _ complete) as [Hle _]. specialize (Hle x Hx).
  change (rrRevision (srRecord x) < rrRevision (srRecord e)). rewrite (ex_revision ext). lia.
Qed.

(** The operation is new, since its claim is. *)
Lemma new_operation : ce_op e ∉ (ce_op <$> l).
Proof.
  intros (x & Ho & Hx)%list_elem_of_fmap. destruct (complete_admitted _ _ _ _ complete x Hx) as (_ & ck & Hck & Hl).
  destruct (ex_claim ext) as (c & Hc & Hn & _). apply NewOperationClaim_ok in Hc as (_ & Hk & _).
  rewrite (ev_message _ _ _ (validateRevision_wf _ _ _ _ (ex_valid ext))) in Hk. change (ce_op e) with (rrOperationID (srRecord e)) in Ho.
  rewrite Ho in Hk. change (ce_op x) with (rrOperationID (srRecord x)) in Hk. rewrite Hck in Hk. injection Hk as E. congruence.
Qed.

Lemma extended_scannable :
  scannable revision_bytes (admit_revision repoDID logicalMessageID new) maxRevisionInventoryBytes (l ++ [e]).
Proof.
  pose proof (ci_events _ _ _ _ complete) as Hs. apply scannable_snoc. split; [|split_and!].
  - split; [apply Hs|apply Hs| |apply Hs]. apply Forall_forall. intros x Hx. split; [|by apply admit_old].
    pose proof (sc_admissible _ _ _ _ Hs) as Ha. rewrite Forall_forall in Ha. apply Ha, Hx.
  - exact new_operation.
  - exact (ex_fresh ext).
  - split; [apply (ex_bytes ext)|exact admit_new].
  - apply (ex_bytes ext).
Qed.

Lemma parents_are_heads p : p ∈ ce_parents e ↔ p ∈ head_keys (all_parents l) l.
Proof. change (ce_parents e) with (elems (rrParents (srRecord e))). by rewrite (ex_parents ext). Qed.

Lemma new_not_root : ¬ is_root e.
Proof.
  destruct (complete_height _ _ _ _ complete) as [Hle (top & Htop & Eh)].
  pose proof (top_is_head root_revision_ok l (complete_keys _ _ _ _ complete) (ci_causal _ _ _ _ complete) top Htop) as Hh.
  intros Hr. unfold is_root in Hr. apply (not_elem_of_nil (ce_key top)). rewrite <- Hr. apply parents_are_heads, Hh.
  intros x Hx. specialize (Hle x Hx). change (rrRevision (srRecord x) ≤ rrRevision (srRecord top)). by rewrite Eh.
Qed.

Lemma head_event p : p ∈ ce_parents e → ∃ x, x ∈ l ∧ ce_key x = p ∧ by_key l !! p = Some x.
Proof.
  intros (x & Hx & Hk & _)%parents_are_heads%elem_of_heads. exists x. split; [done|]. split; [done|].
  apply by_key_Some; [exact (complete_keys _ _ _ _ complete)|done].
Qed.

Lemma new_causal : causal_ok root_revision_ok (by_key l) e.
Proof.
  unfold causal_ok. rewrite decide_False by exact new_not_root. split.
  - intros p Hp. destruct (head_event p Hp) as (x & Hx & _ & Hl). exists x. split; [done|]. by apply new_above.
  - destruct (complete_height _ _ _ _ complete) as [Hle (top & Htop & Eh)].
    assert (Hmax : parent_max (by_key l) (ce_parents e) 0 = meHeight merged).
    { destruct (parent_max_reached root_revision_ok l (complete_keys _ _ _ _ complete) (ci_causal _ _ _ _ complete) (complete_bounded _ _ _ _ complete) (ce_parents e)) as (p & pe & Hp & Hpe & Em).
      - intros p Hp. destruct (head_event p Hp) as (x & _ & _ & Hl). by exists x.
      - exact new_not_root.
      - rewrite <- Em. apply by_key_Some in Hpe as [Hpe _]; [|exact (complete_keys _ _ _ _ complete)].
        apply N.le_antisymm; [exact (Hle pe Hpe)|]. rewrite <- Eh, Em.
        refine (parent_max_ge (by_key l) (ce_parents e) 0 (ce_key top) top _ _); [apply parents_are_heads|apply by_key_Some; [exact (complete_keys _ _ _ _ complete)|done]].
        apply (top_is_head root_revision_ok); [exact (complete_keys _ _ _ _ complete)|exact (ci_causal _ _ _ _ complete)|done|].
        intros x Hx. change (rrRevision (srRecord x) ≤ rrRevision (srRecord top)). rewrite Eh. by apply Hle. }
    rewrite Hmax. change (ce_revision e) with (rrRevision (srRecord e)). rewrite (ex_revision ext). symmetry. apply N.mod_small.
    pose proof (complete_bounded _ _ _ _ complete top Htop) as Hb. change (ce_revision top) with (rrRevision (srRecord top)) in Hb.
    rewrite Eh in Hb. lia.
Qed.

Lemma extended_ops : NoDup (ce_op <$> l ++ [e]).
Proof. exact (sc_ops _ _ _ _ extended_scannable). Qed.
Lemma extended_merge : merge_events (sort_events (l ++ [e])) = merge_event merged e.
Proof. rewrite sort_events_snoc; [|exact extended_ops|exact new_above]. unfold merge_events. by rewrite fold_left_app. Qed.

Lemma extended_tombstones x : x ∈ l ++ [e] → tombstoned_before (l ++ [e]) x → hasLiveAssignments (srRecord x) = false.
Proof.
  pose proof (complete_keys _ _ _ _ complete) as Hk. pose proof (ci_causal _ _ _ _ complete) as Hc.
  intros Hx (a & Ha & Ht). assert (Hal : a ∈ l).
  { apply (ancestor_new root_revision_ok l e Hk (ex_fresh ext) Hc a x Ha); [|done].
    intros p Hp. destruct (head_event p Hp) as (y & Hy & <- & _). apply list_elem_of_fmap. by exists y. }
  assert (Htomb : meTombstone merged = true) by (apply tombstone_register; by exists a).
  rewrite (ex_alive ext) in Htomb. done.
Qed.

(** The longer history is complete. *)
Lemma extension_complete : complete_inventory repoDID logicalMessageID new (l ++ [e]).
Proof.
  pose proof (complete_keys _ _ _ _ complete) as Hk. pose proof (ci_causal _ _ _ _ complete) as Hc.
  assert (Hlen : llen (l ++ [e]) = llen l + 1) by (unfold llen; rewrite length_app; cbn; lia).
  split.
  - rewrite Hlen. pose proof (ex_count ext). lia.
  - apply complete.
  - apply complete.
  - rewrite Hlen. apply ext.
  - exact extended_scannable.
  - exact (causal_snoc root_revision_ok l e Hk (ex_fresh ext) Hc new_causal new_not_root).
  - rewrite filter_app, filter_cons_False, filter_nil, app_nil_r by exact new_not_root. apply complete.
  - exact extended_tombstones.
  - rewrite extended_merge. apply ext.
Qed.

(** Its state: the assignments of the revision on the old state, one head, one higher. *)
Lemma extension_state : reduced_state logicalMessageID new (l ++ [e]) =
  let merged' := merge_event merged e in
  let state := MkReducedState logicalMessageID (vsSnapshotID new) (meVersion merged') (meMailboxIDs merged')
    (present_keywords (meKeywords merged')) (if meTombstone merged' then false else meDeletePending merged')
    (meTombstone merged') [srRKey e] (digestStringList ("comail-message-state-heads-v1" +:+ NUL) [srRKey e]) ""
    (meHeight merged + 1) (llen l + 1) in
  set_rsStateDigest state (digestReducedState state).
Proof.
  unfold reduced_state. rewrite extended_merge.
  rewrite (heads_snoc root_revision_ok l e (complete_keys _ _ _ _ complete) (ex_fresh ext) (ci_causal _ _ _ _ complete)
    parents_are_heads).
  assert (llen (l ++ [e]) = llen l + 1) as -> by (unfold llen; rewrite length_app; cbn; lia).
  assert (meHeight (merge_event merged e) = meHeight merged + 1) as ->; [|done].
  change (N.max (meHeight merged) (rrRevision (srRecord e)) = meHeight merged + 1). rewrite (ex_revision ext). lia.
Qed.

End extension.
