(* ===== verification/Engine.v ===== *)
(** * internal/authorityv3: the append-only authority

    contract.go and official_engine.go: the [Engine] that a mail relay drives.  It stores a message
    or appends a state revision with one create batch, between two source-authenticated
    snapshots: the first decides whether the write is admissible, the second whether it took
    effect.  The provider is a record of calls ([officialWriter]), as in the code; the official
    client is one ([client_writer]).

    [clearSnapshot] overwrites message bytes that nothing refers to any more, so it has no effect
    on the values here. *)
From S2P Require Import Prelude Sha256 GoStd Syntax Unicode Json Time Mailbox Repository Canonical Revision.
From S2P Require Import FolderRevision Decode Ipld Car Url SpacesWire Http Client Snapshot SourceRead Recovery Reduction Content.

(** ** The contract *)

Module v3.

Definition ProtocolVersion : Z := 3.
Definition AuthorityGeneration : string := "official-v3".

Record Target : Type := MkTarget {
  tProviderID : string;
  tOrigin : string;
  tSpaceURI : string;
  tRepoDID : string;
  tEpoch : string;
  tCertificateSHA256 : string;
  tCertificateGeneration : string
}.
#[global] Instance Target_eq_dec : EqDecision Target.
Proof. solve_decision. Defined.

Record Capabilities : Type := MkCapabilities {
  cpPrivateRecords : bool;
  cpReferencedBlobs : bool;
  cpAtomicCreateBatch : bool;
  cpIdempotentOperationClaims : bool;
  cpAuthenticatedStableRead : bool;
  cpCompleteInventory : bool;
  cpConcurrentHeads : bool;
  cpTombstones : bool;
  cpSourceVersioning : bool;
  cpCertificateSHA256 : string;
  cpGeneration : string
}.

(** The code converts the reducers' states to these types, whose fields are the same. *)
Definition FolderState : Type := ReducedFolderState.
Definition MessageState : Type := ReducedState.

Record MessageVersion : Type := MkVersion {
  vURI : string;
  vRKey : string;
  vFingerprint : string;
  vLogicalMessageID : string;
  vSourceKey : string;
  vSHA256 : string;
  vSize : Z;
  vRaw : string
}.
Record Snapshot : Type := MkSnapshot {
  sVersion : Z;
  sTarget : Target;
  sRevision : string;
  sSnapshotID : string;
  sManifestSHA256 : string;
  sFolders : list FolderState;
  sMessages : list MessageVersion;
  sStates : list MessageState
}.

Record FolderSelection : Type := MkSelection { fsSourceKey : string; fsName : string; fsRole : string }.
Record Placement : Type := MkPlacement {
  pSourceKey : string;
  pFolders : list FolderSelection;
  pKeywords : list string
}.
Record StateMutation : Type := MkMutation {
  mSnapshotID : string;
  mLogicalMessageID : string;
  mOperationID : string;
  mExpectedHeads : list string;
  mExpectedHeadsDigest : string;
  mExpectedStateDigest : string;
  mExpectedHeight : N;
  mExpectedRevisionCount : Z;
  mVersion : string;
  mMailboxIDs : list string;
  mKeywords : list string;
  mDeletePending : bool;
  mTombstone : bool
}.
Record Receipt : Type := MkReceipt {
  rTarget : Target;
  rFingerprint : string;
  rSHA256 : string;
  rSize : Z;
  rVerified : bool
}.
Record StoreInput : Type := MkStoreInput { siRecipientDID : string; siPlacement : Placement; siRaw : string }.

End v3.

(** ** Pure parts of the engine *)

(** Role and name. *)
Definition standardFolders : list (string * string) :=
  [("archive", "Archive"); ("drafts", "Drafts"); ("important", "Important"); ("inbox", "Inbox"); ("junk", "Junk");
   ("sent", "Sent"); ("trash", "Trash")].

Definition validLowerSHA256 (value : string) : bool :=
  hex_decodable value && (len value =? 64) && String.eqb value (ToLower value).

Definition portable_preimage (repoDID sourceKey : string) : string :=
  ("comail-portable-folder-v1" +:+ NUL) +:+ repoDID +:+ NUL +:+ sourceKey.

(** The assignments that turn the keywords [current] into [desired], by name. *)
Definition keywordAssignments (current desired : list string) : list KeywordAssignment :=
  let wanted := fold_left (λ m k, <[k := true]> m) desired (fold_left (λ m k, <[k := false]> m) current (∅ : gmap string bool)) in
  List.map (λ k, MkKeywordAssignment k (default false (wanted !! k))) (sortedMapKeys wanted).

Definition findVersion (snapshot : v3.Snapshot) (rkey : string) : option v3.MessageVersion :=
  List.find (λ version, String.eqb (v3.vRKey version) rkey) (v3.sMessages snapshot).
Definition findState (snapshot : v3.Snapshot) (logicalID : string) : option v3.MessageState :=
  List.find (λ state, String.eqb (rsLogicalMessageID state) logicalID) (v3.sStates snapshot).

Definition liveFolderSet (folders : list v3.FolderState) (selected : list string) : bool :=
  let available := fold_left (λ m folder, <[rfFolderID folder := negb (rfTombstone folder)]> m) folders (∅ : gmap string bool) in
  negb (llen selected =? 0) && forallb (λ folderID, default false (available !! folderID)) selected.

Definition equalStrings (left right : list string) : bool := bool_decide (left = right).

Section pure.
Context `{Syntax}.

Definition folderIDFor (repoDID : string) (selection : v3.FolderSelection) : result string :=
  let '(v3.MkSelection sourceKey name role) := selection in
  fail_if String.eqb sourceKey "" || String.eqb name "" || (512 <? len sourceKey) || (255 <? len name) ||
    ContainsAny (sourceKey +:+ name +:+ role) (of_byte_values [13; 10; 0]) with ErrInvalidRecord ;;
  if negb (String.eqb role "") then
    match List.find (λ standard, String.eqb role standard.1 && String.eqb name standard.2) standardFolders with
    | Some _ => StandardFolderID repoDID role
    | None => Err ErrInvalidRecord
    end
  else Ok ("folder-" +:+ hex_encode (sha256 (portable_preimage repoDID sourceKey))).

(** The revision and its claim as records to create. *)
Definition buildStateCreates (repoDID : string) (record : RevisionRecord) : result (Create_ * Create_) :=
  let? rkey := StateRevisionRKey repoDID record in
  let? claim := NewOperationClaim repoDID (MkStateRevision rkey record) in
  Ok (MkCreate MessageStateRevisionCollection rkey (print (revision_json record)),
      MkCreate MessageStateOperationCollection (ocRKey claim) (print (claim_json (ocRecord claim)))).

End pure.

(** ** The engine over its provider *)

Record officialWriter (W : Type) : Type := MkWriter {
  owTransportID : string;
  owTarget : SpacesTarget;
  owUploadMessageBlob : string → W → result BlobRef * W;
  owCreateBatch : list Create_ → W → result (list CreateResult) * W;
  owInspectRecord : string → string → W → result UnverifiedRecord * W
}.
Arguments owTransportID {W}. Arguments owTarget {W}. Arguments owUploadMessageBlob {W}. Arguments owCreateBatch {W}.
Arguments owInspectRecord {W}. Arguments MkWriter {W}.

(** [readSnapshot] and [now] are function values, the first of which may be nil. *)
Record OfficialEngine (W : Type) : Type := MkEngine {
  enTarget : v3.Target;
  enClient : officialWriter W;
  enReadSnapshot : option (W → result v3.Snapshot * W);
  enNow : W → time * W
}.
Arguments enTarget {W}. Arguments enClient {W}. Arguments enReadSnapshot {W}. Arguments enNow {W}. Arguments MkEngine {W}.

Section construction.
Context `{Syntax} {W : Type}.

Definition newOfficialEngine (client : option (officialWriter W)) (target : v3.Target)
    (reader : option (W → result v3.Snapshot * W)) (now : W → time * W) : result (OfficialEngine W) :=
  match client with
  | None => Err ErrOther
  | Some client =>
      fail_if String.eqb (v3.tProviderID target) "" || ContainsAny (v3.tProviderID target) (of_byte_values [32; 9; 13; 10]) ||
        negb (String.eqb (v3.tCertificateGeneration target) v3.AuthorityGeneration) ||
        negb (validLowerSHA256 (v3.tCertificateSHA256 target)) with ErrOther ;;
      let wireTarget := owTarget client in
      let repositoryTarget := MkTarget (v3.tOrigin target) (v3.tSpaceURI target) (v3.tRepoDID target) (v3.tEpoch target) in
      fail_if negb (String.eqb (owTransportID client) (v3.tProviderID target)) ||
        negb (String.eqb (otOrigin wireTarget) (v3.tOrigin target)) ||
        negb (String.eqb (otSpaceURI wireTarget) (v3.tSpaceURI target)) ||
        negb (String.eqb (otRepoDID wireTarget) (v3.tRepoDID target)) ||
        negb (String.eqb (otEpoch wireTarget) (v3.tEpoch target)) || negb (String.eqb (v3.tEpoch target) PinnedEpoch) ||
        negb (is_ok (Target_ValidateFor repositoryTarget (v3.tRepoDID target))) with ErrTarget ;;
      Ok (MkEngine target client reader now)
  end.

End construction.

Section engine.
Context `{Syntax} `{CaseOrbits} {W : Type} (engine : OfficialEngine W).
Let target := enTarget engine.
Let repoDID := v3.tRepoDID target.
Let client := enClient engine.

Definition engine_Capabilities : v3.Capabilities :=
  v3.MkCapabilities true true true true true true true true true (v3.tCertificateSHA256 target) v3.AuthorityGeneration.

Definition engine_Snapshot : W → result v3.Snapshot * W :=
  match enReadSnapshot engine with
  | None => returns (Err ErrOther)
  | Some read =>
      call? snapshot := read in
      return_if negb (bool_decide (v3.sTarget snapshot = target)) || negb (v3.sVersion snapshot =? v3.ProtocolVersion)%Z
        with Err ErrTarget ;;
      returns (Ok snapshot)
  end.

Definition engine_now : W → result time * W := λ w, let '(t, w) := enNow engine w in (Ok t, w).

Definition receipt (fingerprint raw : string) : v3.Receipt :=
  v3.MkReceipt target fingerprint (RawSHA256 raw) (raw_size raw) true.

(** *** Folder initialisation *)

Definition initialFolderCreates (selection : v3.FolderSelection) (folderID : string) :
    W → result (FolderStateRevision * Create_ * Create_) * W :=
  call? now := engine_now in
  let record := MkFolderRevisionRecord FolderRevisionCollection folderID "initial" (Some []) 1
                  (v3.fsName selection) (v3.fsRole selection) false false (format_RFC3339Nano now) in
  returns (
    let? rkey := FolderRevisionRKey repoDID record in
    let revision := MkFolderStateRevision rkey record in
    let? claim := NewFolderOperationClaim repoDID revision in
    Ok (revision, MkCreate FolderRevisionCollection rkey (print (folder_revision_json record)),
        MkCreate FolderOperationCollection (focRKey claim) (print (folder_claim_json (focRecord claim))))).

(** The text of a claim, if the claim is stored. *)
Definition stored_claim (collection rkey : string) : W → result (option string) * W :=
  call? stored := attempt (owInspectRecord client collection rkey) in
  match stored with
  | Ok record => returns (Ok (Some (default "" (urValue record))))
  | Err e => returns (if errors_Is e ErrNotFound then Ok None else Err e)
  end.

Definition folderInitializationExists (expected : FolderStateRevision) : W → result bool * W :=
  let record := fsRecord expected in
  call? claimKey := returns (FolderOperationClaimRKey repoDID (frFolderID record) (frOperationID record)) in
  call? stored := stored_claim FolderOperationCollection claimKey in
  match stored with
  | None => returns (Ok false)
  | Some value =>
      call? claim := returns (or_error (DecodeFolderOperationClaimRecord value) ErrIntegrity) in
      return_if negb (String.eqb (focFolderID claim) (frFolderID record)) ||
        negb (String.eqb (focOperationID claim) (frOperationID record)) with Err ErrIntegrity ;;
      call? storedRevision := owInspectRecord client FolderRevisionCollection (focRevisionRKey claim) in
      call? decoded := returns (or_error (DecodeFolderRevisionRecord (default "" (urValue storedRevision))) ErrIntegrity) in
      let actual := MkFolderStateRevision (urRKey storedRevision) decoded in
      return_if negb (is_ok (VerifyFolderRevisionRetry repoDID expected actual)) with Err ErrIntegrity ;;
      returns (Ok true)
  end.

Fixpoint missing_folders (selections : list v3.FolderSelection) (creates : list Create_) : W → result (list Create_) * W :=
  match selections with
  | [] => returns (Ok creates)
  | selection :: rest =>
      call? folderID := returns (folderIDFor repoDID selection) in
      call? initial := initialFolderCreates selection folderID in
      let '(expected, revisionCreate, claimCreate) := initial in
      call? exists_ := folderInitializationExists expected in
      missing_folders rest (if exists_ then creates else creates ++ [revisionCreate; claimCreate])
  end.

(** One pass; [again] is what follows a batch that failed. *)
Definition create_missing_folders (selections : list v3.FolderSelection) (again : error → W → result unit * W) :
    W → result unit * W :=
  call? creates := missing_folders selections [] in
  return_if llen creates =? 0 with Ok tt ;;
  call? created := attempt (owCreateBatch client creates) in
  match created with Ok _ => returns (Ok tt) | Err e => again e end.

Definition ensureInitialFolderRecords (selections : list v3.FolderSelection) (retried : bool) : W → result unit * W :=
  create_missing_folders selections (λ e,
    if negb (errors_Is e ErrExists) || retried then returns (Err e)
    else create_missing_folders selections (λ e, returns (Err e))).

(** One selection of a placement against the folders of the snapshot. *)
Definition select_folder (byID : gmap string v3.FolderState) (s : gset string * list v3.FolderState)
    (selection : v3.FolderSelection) : result (gset string * list v3.FolderState) :=
  let? folderID := folderIDFor repoDID selection in
  fail_if bool_decide (folderID ∈ s.1) with ErrInvalidRecord ;;
  let? prior := opt_result (byID !! folderID) ErrInvalidRecord in
  fail_if negb (String.eqb (rfName prior) (v3.fsName selection)) || negb (String.eqb (rfRole prior) (v3.fsRole selection)) ||
    rfTombstone prior with ErrInvalidRecord ;;
  Ok ({[folderID]} ∪ s.1, s.2 ++ [prior]).

Definition ensureFolders (selections : list v3.FolderSelection) : W → result (list v3.FolderState) * W :=
  let standards := List.map (λ standard, v3.MkSelection ("role:" +:+ standard.1) standard.2 standard.1) standardFolders in
  call? _ := ensureInitialFolderRecords standards false in
  call? current := engine_Snapshot in
  let byID := fold_left (λ m folder, <[rfFolderID folder := folder]> m) (v3.sFolders current) ∅ in
  call? s := returns (range (select_folder byID) selections (∅, [])) in
  returns (Ok s.2).

(** *** State revisions *)

Definition stateAppendExists (expected : RevisionRecord) : W → result bool * W :=
  call? claimKey := returns (OperationClaimRKey repoDID (rrLogicalMessageID expected) (rrOperationID expected)) in
  call? stored := stored_claim MessageStateOperationCollection claimKey in
  match stored with
  | None => returns (Ok false)
  | Some value =>
      call? claim := returns (or_error (DecodeOperationClaimRecord value) ErrIntegrity) in
      return_if negb (String.eqb (ocLogicalMessageID claim) (rrLogicalMessageID expected)) ||
        negb (String.eqb (ocOperationID claim) (rrOperationID expected)) with Err ErrIntegrity ;;
      call? storedRevision := owInspectRecord client MessageStateRevisionCollection (ocRevisionRKey claim) in
      call? record := returns (or_error (DecodeRevisionRecord (default "" (urValue storedRevision))) ErrIntegrity) in
      call? rkey := returns (StateRevisionRKey repoDID expected) in
      return_if negb (is_ok (VerifyRevisionRetry repoDID (MkStateRevision rkey expected) (MkStateRevision (urRKey storedRevision) record)))
        with Err ErrAppendConflict ;;
      returns (Ok true)
  end.

(** A batch whose append may already be there. *)
Definition create_once (creates : list Create_) (record : RevisionRecord) : W → result unit * W :=
  call? created := attempt (owCreateBatch client creates) in
  match created with
  | Ok _ => returns (Ok tt)
  | Err e =>
      return_if negb (errors_Is e ErrExists) with Err e ;;
      call? exists_ := stateAppendExists record in
      return_if negb exists_ with Err ErrAppendConflict ;;
      returns (Ok tt)
  end.

(** *** AppendState *)

(** Whether the mutation may be appended to the snapshot it was made for. *)
Definition admit_mutation (current : v3.Snapshot) (mutation : v3.StateMutation) : result v3.MessageState :=
  let? state := opt_result (findState current (v3.mLogicalMessageID mutation)) ErrAppendConflict in
  fail_if negb (String.eqb (v3.sSnapshotID current) (v3.mSnapshotID mutation)) ||
    negb (String.eqb (rsSnapshotID state) (v3.mSnapshotID mutation)) ||
    negb (String.eqb (rsHeadsDigest state) (v3.mExpectedHeadsDigest mutation)) ||
    negb (String.eqb (rsStateDigest state) (v3.mExpectedStateDigest mutation)) ||
    negb (rsHeight state =? v3.mExpectedHeight mutation) ||
    negb (Z.of_N (rsRevisionCount state) =? v3.mExpectedRevisionCount mutation)%Z ||
    negb (equalStrings (rsHeads state) (v3.mExpectedHeads mutation)) with ErrAppendConflict ;;
  fail_if rsTombstone state with ErrAppendConflict ;;
  fail_if v3.mTombstone mutation &&
    (negb (String.eqb (v3.mVersion mutation) (rsVersion state)) ||
     negb (equalStrings (v3.mMailboxIDs mutation) (rsMailboxIDs state)) ||
     negb (equalStrings (v3.mKeywords mutation) (rsKeywords state)) || v3.mDeletePending mutation) with ErrAppendConflict ;;
  fail_if negb (v3.mTombstone mutation) &&
    (negb (match findVersion current (v3.mVersion mutation) with
           | Some selected => String.eqb (v3.vLogicalMessageID selected) (v3.mLogicalMessageID mutation)
           | None => false
           end) || negb (liveFolderSet (v3.sFolders current) (v3.mMailboxIDs mutation))) with ErrInvalidRecord ;;
  Ok state.

Definition mutation_record (state : v3.MessageState) (mutation : v3.StateMutation) (now : time) : RevisionRecord :=
  let live := negb (v3.mTombstone mutation) in
  MkRevisionRecord MessageStateRevisionCollection (v3.mLogicalMessageID mutation) (v3.mOperationID mutation)
    (copy_slice (v3.mExpectedHeads mutation)) (u64 (v3.mExpectedHeight mutation + 1))
    (if live then v3.mVersion mutation else "")
    (if live then copy_slice (v3.mMailboxIDs mutation) else None)
    (if live then Some (keywordAssignments (rsKeywords state) (v3.mKeywords mutation)) else None)
    (if live then Some (v3.mDeletePending mutation) else None)
    (v3.mTombstone mutation) false (format_RFC3339Nano now).

(** Whether the state in the second snapshot is the one the mutation asked for. *)
Definition mutation_settled (mutation : v3.StateMutation) (result : v3.MessageState) : bool :=
  negb (String.eqb (rsSnapshotID result) (v3.mSnapshotID mutation)) &&
  String.eqb (rsVersion result) (v3.mVersion mutation) &&
  equalStrings (rsMailboxIDs result) (v3.mMailboxIDs mutation) &&
  equalStrings (rsKeywords result) (v3.mKeywords mutation) &&
  Bool.eqb (rsDeletePending result) (v3.mDeletePending mutation) &&
  Bool.eqb (rsTombstone result) (v3.mTombstone mutation) &&
  (rsHeight result =? u64 (v3.mExpectedHeight mutation + 1)) &&
  (Z.of_N (rsRevisionCount result) =? v3.mExpectedRevisionCount mutation + 1)%Z.

Definition AppendState (mutation : v3.StateMutation) : W → result v3.MessageState * W :=
  call? current := engine_Snapshot in
  call? state := returns (admit_mutation current mutation) in
  call? now := engine_now in
  let record := mutation_record state mutation now in
  call? creates := returns (buildStateCreates repoDID record) in
  call? _ := create_once [creates.1; creates.2] record in
  call? verified := engine_Snapshot in
  match findState verified (v3.mLogicalMessageID mutation) with
  | Some result => return_if negb (mutation_settled mutation result) with Err ErrAppendConflict ;; returns (Ok result)
  | None => returns (Err ErrAppendConflict)
  end.

(** *** Store *)

Definition stored_import (input : v3.StoreInput) (now : time) : ImportedMessage :=
  MkImportedMessage (v3.siRecipientDID input) (v3.pSourceKey (v3.siPlacement input)) (v3.siRaw input)
    (default "" (v3.fsName <$> head (v3.pFolders (v3.siPlacement input)))) [] "" zero_time "" []
    (v3.pKeywords (v3.siPlacement input)) false 0 0 0 now.

(** The first revision of a message, or the next version of one that is there. *)
Definition version_record (prior : option v3.MessageState) (logicalID fingerprint version : string)
    (mailboxIDs keywords : list string) (now : time) : RevisionRecord :=
  let '(operationID, parents, revision, assigned) :=
    match prior with
    | None => ("initial", Some [], 1, [])
    | Some prior => ("version-" +:+ TrimPrefix fingerprint "sha256-", copy_slice (rsHeads prior),
                     u64 (rsHeight prior + 1), rsKeywords prior)
    end in
  MkRevisionRecord MessageStateRevisionCollection logicalID operationID parents revision version (Some mailboxIDs)
    (Some (keywordAssignments assigned keywords)) None false false (format_RFC3339Nano now).

(** Whether the second snapshot has the message and the state that was stored. *)
Definition store_settled (verified : v3.Snapshot) (input : v3.StoreInput) (fingerprint logicalID : string)
    (mailboxIDs keywords : list string) : result unit :=
  match findVersion verified fingerprint with
  | Some version =>
      fail_if negb (String.eqb (v3.vLogicalMessageID version) logicalID) || negb (String.eqb (v3.vRaw version) (v3.siRaw input))
        with ErrIntegrity ;;
      match findState verified logicalID with
      | Some state =>
          fail_if negb (String.eqb (rsVersion state) fingerprint) || negb (equalStrings (rsMailboxIDs state) mailboxIDs) ||
            negb (equalStrings (rsKeywords state) keywords) with ErrAppendConflict ;;
          Ok tt
      | None => Err ErrAppendConflict
      end
  | None => Err ErrIntegrity
  end.

Definition Store (input : v3.StoreInput) : W → result v3.Receipt * W :=
  let placement := v3.siPlacement input in
  let raw := v3.siRaw input in
  return_if negb (String.eqb (v3.siRecipientDID input) repoDID) || (len raw =? 0) || (MaxRawMessageBytes <? len raw) ||
    (llen (v3.pFolders placement) =? 0) with Err ErrInvalidRecord ;;
  call? folders := ensureFolders (v3.pFolders placement) in
  call? current := engine_Snapshot in
  call? delivered := engine_now in
  let imported := stored_import input delivered in
  let fingerprint := ImportedFingerprint imported in
  let logicalID := LogicalMessageID (v3.siRecipientDID input) (v3.pSourceKey placement) fingerprint in
  match findVersion current fingerprint with
  | Some version =>
      return_if negb (String.eqb (v3.vLogicalMessageID version) logicalID) || negb (String.eqb (v3.vRaw version) raw)
        with Err ErrIntegrity ;;
      returns (Ok (receipt fingerprint raw))
  | None =>
      let prior := findState current logicalID in
      return_if match prior with Some state => rsTombstone state | None => false end with Err ErrAppendConflict ;;
      call? blob := owUploadMessageBlob client raw in
      call? built := returns (NewMessagePair imported blob) in
      let mailboxIDs := sort_strings (rfFolderID <$> folders) in
      let keywords := sort_strings (v3.pKeywords placement) in
      call? now := engine_now in
      let record := version_record prior logicalID fingerprint (mpRKey built) mailboxIDs keywords now in
      call? creates := returns (buildStateCreates repoDID record) in
      call? _ := create_once [MkCreate MessageCollection (mpRKey built) (print (message_json (mpMessage built))); creates.1; creates.2]
        record in
      call? verified := engine_Snapshot in
      call? _ := returns (store_settled verified input fingerprint logicalID mailboxIDs keywords) in
      returns (Ok (receipt fingerprint raw))
  end.

End engine.

(** ** The official client behind the engine *)

Section official.
Context `{Syntax} `{Ipld} `{Blake3} `{CaseOrbits} {W : Type} `{Transport W} `{RepoKeys W}.

Definition client_writer (c : Client_) : officialWriter W :=
  MkWriter TransportID (clTarget c) (UploadMessageBlob c) (CreateBatch c) (InspectRecord c).

Definition snapshot_version (target : v3.Target) (version : MessageVersion) (raw : string) : v3.MessageVersion :=
  v3.MkVersion (v3.tSpaceURI target +:+ "/" +:+ v3.tRepoDID target +:+ "/" +:+ MessageCollection +:+ "/" +:+ mvRKey version)
    (mvRKey version) (mvRKey version) (mrLogicalMessageID (mvRecord version)) (mrSourceKey (mvRecord version))
    (mrSHA256 (mvRecord version)) (mrSize (mvRecord version)) raw.

(** The callback of the visit: it opens the message and collects it. *)
Definition collect_message (target : v3.Target) (message : ContentVerifiedMessage)
    (s : content_source * list v3.MessageVersion) : result unit * (content_source * list v3.MessageVersion) :=
  match Open message with
  | Err e => (Err e, s)
  | Ok (version, raw) => (Ok tt, (s.1, s.2 ++ [snapshot_version target version raw]))
  end.

(** What is read from the content, which is closed at the end. *)
Definition snapshot_of_content (ctx : context) (c : Client_) (target : v3.Target) (source : content_source) : result v3.Snapshot :=
  let summary := content_Summary (Some source) in
  fail_if negb (bool_decide (smTarget summary = clTarget c)) ||
    negb (String.eqb (otOrigin (smTarget summary)) (v3.tOrigin target)) ||
    negb (String.eqb (otSpaceURI (smTarget summary)) (v3.tSpaceURI target)) ||
    negb (String.eqb (otRepoDID (smTarget summary)) (v3.tRepoDID target)) ||
    negb (String.eqb (otEpoch (smTarget summary)) (v3.tEpoch target)) with ErrTarget ;;
  let folders := content_Folders (Some source) in
  let states := content_MessageStates (Some source) in
  let '(visited, (source, messages)) := VisitMessages (collect_message target) ctx (source, []) in
  let? _ := visited in
  fail_if negb (is_ok (content_ValidateSeal (Some source))) with ErrIntegrity ;;
  Ok (v3.MkSnapshot v3.ProtocolVersion target (smRevision summary) (smSnapshotID summary) (smManifestSHA256 summary)
        (sort_by rfFolderID folders) (sort_by v3.vRKey messages) (sort_by rsLogicalMessageID states)).

Definition readOfficialSnapshot (c : Client_) (target : v3.Target) : W → result v3.Snapshot * W :=
  call? source := ReadOfficialSpacesRecoverySource (Some c) in
  λ w, (snapshot_of_content (now_context w) c target source, w).

Definition NewOfficialEngine (c : option Client_) (target : v3.Target) (now : W → time * W) : result (OfficialEngine W) :=
  match c with
  | None => Err ErrOther
  | Some c => newOfficialEngine (Some (client_writer c)) target (Some (readOfficialSnapshot c target)) now
  end.

End official.
