(* ===== verification/Handler.v ===== *)
(** * internal/authorityv3/handler.go: the relay-facing HTTP contract

    The handler authenticates a request, decodes it strictly, checks every field against the
    certified target and the reducer's limits, calls the [Engine], and checks the engine's answer
    before any of it is written.  A response is a value; the headers every response has are left
    out.  The engine is an interface, of which [OfficialEngine] is the implementation. *)
From S2P Require Import Prelude Sha256 GoStd Syntax Unicode Json Base64 Time Mailbox Repository Canonical Revision.
From S2P Require Import FolderRevision Decode Ipld Car Url SpacesWire Http Client Snapshot Recovery Reduction Content State Engine.

Definition maxRequestBytes : N := 14 * 1024 * 1024.
Definition maxSnapshotBytes : Z := 64 * 1024 * 1024.
Definition maxSnapshotResponseBytes : Z := Z.shiftl 128 20.
Definition maxFolders : N := 4096.
Definition maxMessages : N := 100000.
Definition maxStateMailboxIDs : N := 32.
Definition maxStateKeywords : N := 128.
Definition maxStateRevisions : N := 4096.

Record Engine (W : Type) : Type := MkEngineOf {
  egCapabilities : W → result v3.Capabilities * W;
  egStore : v3.StoreInput → W → result v3.Receipt * W;
  egSnapshot : W → result v3.Snapshot * W;
  egAppendState : v3.StateMutation → W → result v3.MessageState * W
}.
Arguments egCapabilities {W}. Arguments egStore {W}. Arguments egSnapshot {W}. Arguments egAppendState {W}.
Arguments MkEngineOf {W}.

Definition official_engine `{Syntax} `{CaseOrbits} {W : Type} (engine : OfficialEngine W) : Engine W :=
  MkEngineOf (returns (Ok (engine_Capabilities engine))) (Store engine) (engine_Snapshot engine) (AppendState engine).

(** ** Digests, written again for the relay's side *)

Definition prefixedDigest (encoded : string) : string := "sha256-" +:+ hex_encode (sha256 encoded).
Definition sourceFingerprint (recipient sourceKey raw : string) : string :=
  "sha256-" +:+ hex_encode (sha256 (("comail-habitat-delivery-v2" +:+ NUL) +:+ recipient +:+ NUL +:+ sourceKey +:+ NUL +:+ raw)).
Definition logicalMessageID (recipient sourceKey fingerprint : string) : string :=
  if String.eqb sourceKey "" then fingerprint
  else "sha256-" +:+ hex_encode (sha256 (("comail-logical-message-v1" +:+ NUL) +:+ recipient +:+ NUL +:+ sourceKey)).
Definition rawSHA256 (raw : string) : string := hex_encode (sha256 raw).

(** The handler's own [canonicalWriter]. *)
Definition w_boolean (bytes : string) (value : bool) : string := bytes +:+ byte (if value then 1 else 0).
Definition w_uint64 (bytes : string) (value : N) : string := bytes +:+ uvarint value.
Definition w_string (bytes value : string) : string := w_uint64 bytes (len value) +:+ value.
Definition w_strings (bytes : string) (values : list string) : string := fold_left w_string values (w_uint64 bytes (llen values)).

Definition headsDigest (domain : string) (heads : list string) : string := prefixedDigest (w_strings domain heads).
Definition state_heads_domain : string := "comail-message-state-heads-v1" +:+ NUL.
Definition folder_heads_domain : string := "comail-folder-state-heads-v1" +:+ NUL.
Definition messageStateDigest (state : v3.MessageState) : string :=
  let w := w_string ("comail-message-state-reduced-v1" +:+ NUL) (rsLogicalMessageID state) in
  let w := w_string w (rsVersion state) in
  let w := w_strings w (rsMailboxIDs state) in
  let w := w_strings w (rsKeywords state) in
  let w := w_boolean w (rsDeletePending state) in
  let w := w_boolean w (rsTombstone state) in
  let w := w_strings w (rsHeads state) in
  let w := w_string w (rsHeadsDigest state) in
  let w := w_uint64 w (rsHeight state) in
  prefixedDigest (w_uint64 w (rsRevisionCount state)).
Definition folderStateDigest (state : v3.FolderState) : string :=
  let w := w_string ("comail-folder-state-reduced-v1" +:+ NUL) (rfFolderID state) in
  let w := w_string w (rfName state) in
  let w := w_string w (rfRole state) in
  let w := w_boolean w (rfTombstone state) in
  let w := w_strings w (rfHeads state) in
  let w := w_string w (rfHeadsDigest state) in
  let w := w_uint64 w (rfHeight state) in
  prefixedDigest (w_uint64 w (rfRevisionCount state)).
Definition standardFolderID (repoDID role : string) : string :=
  let w := w_string ("comail-standard-folder-v1" +:+ NUL) repoDID in
  "folder-" +:+ TrimPrefix (prefixedDigest (w_string w role)) "sha256-".

(** ** Validation *)

Definition handler_validText (value : string) (limit : N) : bool :=
  negb (String.eqb value "") && (len value <=? limit) && utf8_valid value && negb (ContainsAny value line_breaks).
Definition validOptionalText (value : string) (limit : N) : bool := String.eqb value "" || handler_validText value limit.
Definition standardFolderName (role : string) : string :=
  match List.find (λ standard, String.eqb role standard.1) standardFolders with Some standard => standard.2 | None => "" end.
Definition validRole (role : string) : bool :=
  String.eqb role "" || existsb (String.eqb role) ["archive"; "drafts"; "important"; "inbox"; "junk"; "sent"; "trash"].
Definition validRawSHA256 (value : string) : bool := hex_decodable value && (len value =? 64) && String.eqb value (ToLower value).
Definition validPrefixedSHA256 (value pre : string) : bool := HasPrefix value pre && validRawSHA256 (TrimPrefix value pre).

Fixpoint sorted_unique_after (validate : string → bool) (previous : option string) (values : list string) : bool :=
  match values with
  | [] => true
  | value :: rest =>
      validate value && match previous with Some p => bool_decide (str_lt p value) | None => true end &&
      sorted_unique_after validate (Some value) rest
  end.
Definition validSortedUnique (values : list string) (validate : string → bool) : bool := sorted_unique_after validate None values.
Definition validHeadSet (values : list string) (pre : string) : bool :=
  (0 <? llen values) && (llen values <=? 64) && validSortedUnique values (λ value, validPrefixedSHA256 value pre).

Definition place_folder (seen : gset string) (folder : v3.FolderSelection) : result (gset string) :=
  fail_if negb (handler_validText (v3.fsSourceKey folder) 512) || negb (handler_validText (v3.fsName folder) 255) ||
    negb (validRole (v3.fsRole folder)) ||
    (negb (String.eqb (v3.fsRole folder) "") && negb (String.eqb (v3.fsName folder) (standardFolderName (v3.fsRole folder))))
    with ErrOther ;;
  fail_if bool_decide (v3.fsSourceKey folder ∈ seen) with ErrOther ;;
  Ok ({[v3.fsSourceKey folder]} ∪ seen).
Definition validPlacement (placement : v3.Placement) : bool :=
  negb ((512 <? len (v3.pSourceKey placement)) || ContainsAny (v3.pSourceKey placement) line_breaks ||
    (llen (v3.pFolders placement) =? 0) || (maxStateMailboxIDs <? llen (v3.pFolders placement)) ||
    (maxStateKeywords <? llen (v3.pKeywords placement)) ||
    negb (validSortedUnique (v3.pKeywords placement) (λ value, handler_validText value 255))) &&
  is_ok (range place_folder (v3.pFolders placement) ∅).

Definition validMutation (m : v3.StateMutation) : bool :=
  validPrefixedSHA256 (v3.mSnapshotID m) "sha256-" && validPrefixedSHA256 (v3.mLogicalMessageID m) "sha256-" &&
  handler_validText (v3.mOperationID m) 128 && validHeadSet (v3.mExpectedHeads m) "state-" &&
  String.eqb (v3.mExpectedHeadsDigest m) (headsDigest state_heads_domain (v3.mExpectedHeads m)) &&
  validPrefixedSHA256 (v3.mExpectedStateDigest m) "sha256-" && (0 <? v3.mExpectedHeight m) &&
  (Z.of_N (llen (v3.mExpectedHeads m)) <=? v3.mExpectedRevisionCount m)%Z &&
  (v3.mExpectedRevisionCount m <? Z.of_N maxStateRevisions)%Z &&
  (v3.mExpectedHeight m <=? Z.to_N (v3.mExpectedRevisionCount m mod 2 ^ 64)) &&
  validPrefixedSHA256 (v3.mVersion m) "sha256-" && (llen (v3.mMailboxIDs m) <=? maxStateMailboxIDs) &&
  validSortedUnique (v3.mMailboxIDs m) (λ value, validPrefixedSHA256 value "folder-") &&
  (llen (v3.mKeywords m) <=? maxStateKeywords) && validSortedUnique (v3.mKeywords m) (λ value, handler_validText value 255) &&
  (v3.mTombstone m || (0 <? llen (v3.mMailboxIDs m))).

Definition validMutationResult (m : v3.StateMutation) (state : v3.MessageState) : bool :=
  negb (String.eqb (rsSnapshotID state) (v3.mSnapshotID m)) && validPrefixedSHA256 (rsSnapshotID state) "sha256-" &&
  String.eqb (rsLogicalMessageID state) (v3.mLogicalMessageID m) && String.eqb (rsVersion state) (v3.mVersion m) &&
  equalStrings (rsMailboxIDs state) (v3.mMailboxIDs m) && equalStrings (rsKeywords state) (v3.mKeywords m) &&
  Bool.eqb (rsDeletePending state) (v3.mDeletePending m) && Bool.eqb (rsTombstone state) (v3.mTombstone m) &&
  (rsHeight state =? u64 (v3.mExpectedHeight m + 1)) &&
  (Z.of_N (rsRevisionCount state) =? v3.mExpectedRevisionCount m + 1)%Z && (rsRevisionCount state <=? maxStateRevisions) &&
  (llen (rsHeads state) =? 1) && validPrefixedSHA256 (default "" (head (rsHeads state))) "state-" &&
  String.eqb (rsHeadsDigest state) (headsDigest state_heads_domain (rsHeads state)) &&
  String.eqb (rsStateDigest state) (messageStateDigest state).

(** *** Targets *)

(** The text of the path of a URL with a scheme and an authority, before it is unescaped. *)
Definition path_text (raw : string) : string :=
  match get_scheme true "" (cut_before raw "#") (cut_before raw "#") with
  | Some (_, rest) => match Cut (skip 2 (cut_before rest "?")) "/" with Some (_, p) => String "/" p | None => "" end
  | None => ""
  end.
(** [escape] in mode [encodePath]. *)
Definition path_char (c : ascii) : bool := is_alpha c || is_digit c || has_byte c "-_.~$&+,/:;=@".
Fixpoint escape_path (s : string) : string :=
  match s with
  | EmptyString => ""
  | String c s' =>
      (if path_char c then String c ""
       else "%" +:+ String (hex_upper (N.shiftr (N_of_ascii c) 4)) (String (hex_upper (N.land (N_of_ascii c) 15)) ""))
      +:+ escape_path s'
  end.
(** [URL.RawPath]: the path as written where escaping the decoded path does not give it back. *)
Definition RawPath (u : url) (raw : string) : string :=
  if String.eqb (escape_path (uPath u)) (path_text raw) then "" else path_text raw.

Section targets.
Context `{Syntax}.

Definition validTarget (target : v3.Target) : bool :=
  negb (String.eqb (v3.tProviderID target) "" || String.eqb (v3.tOrigin target) "" || String.eqb (v3.tSpaceURI target) "" ||
    String.eqb (v3.tRepoDID target) "" || String.eqb (v3.tEpoch target) "" ||
    negb (String.eqb (v3.tCertificateGeneration target) v3.AuthorityGeneration) ||
    negb (validRawSHA256 (v3.tCertificateSHA256 target)) ||
    ContainsAny (v3.tProviderID target +:+ v3.tRepoDID target +:+ v3.tEpoch target) blanks) &&
  is_some (ParseDID (v3.tRepoDID target)) &&
  match url_Parse (v3.tOrigin target) with
  | None => false
  | Some origin =>
      negb (negb (String.eqb (uScheme origin) "https") || String.eqb (Hostname origin) "" || uUser origin ||
        negb (String.eqb (uRawQuery origin) "") || negb (String.eqb (uFragment origin) "") ||
        negb (String.eqb (RawPath origin (v3.tOrigin target)) "") ||
        (negb (String.eqb (uPath origin) "") &&
         (String.eqb (uPath origin) "/" || negb (String.eqb (Clean (uPath origin)) (uPath origin)) || HasSuffix (uPath origin) "/")))
  end &&
  HasPrefix (v3.tSpaceURI target) "at://" &&
  match Cut (TrimPrefix (v3.tSpaceURI target) "at://") "/" with
  | None => false
  | Some (authority, spacePath) =>
      is_some (ParseDID authority) &&
      match Split spacePath "/" with
      | [space; type; key] =>
          String.eqb space "space" && String.eqb type "email.atmos.mailbox" && negb (ContainsAny spacePath "?#") &&
          ParseNSID type && ParseRecordKey key
      | _ => false
      end
  end.

End targets.

Definition supports (c : v3.Capabilities) (target : v3.Target) : bool :=
  v3.cpPrivateRecords c && v3.cpReferencedBlobs c && v3.cpAtomicCreateBatch c && v3.cpIdempotentOperationClaims c &&
  v3.cpAuthenticatedStableRead c && v3.cpCompleteInventory c && v3.cpConcurrentHeads c && v3.cpTombstones c &&
  v3.cpSourceVersioning c && String.eqb (v3.cpGeneration c) v3.AuthorityGeneration &&
  String.eqb (v3.cpCertificateSHA256 c) (v3.tCertificateSHA256 target).

(** *** Snapshots: the three loops *)

(** Whether a count of revisions is plausible for its heads and height. *)
Definition valid_counts (heads height count : N) : bool :=
  negb ((height =? 0) || (count <? heads) || (maxStateRevisions <? count) || (count <? height)).

Definition snapshot_folder (snapshot : v3.Snapshot) (target : v3.Target)
    (s : gmap string v3.FolderState * gset string) (folder : v3.FolderState) :
    result (gmap string v3.FolderState * gset string) :=
  fail_if negb (String.eqb (rfSnapshotID folder) (v3.sSnapshotID snapshot)) ||
    negb (validPrefixedSHA256 (rfFolderID folder) "folder-") || negb (handler_validText (rfName folder) 255) ||
    negb (validRole (rfRole folder)) || negb (validHeadSet (rfHeads folder) "folder-state-") ||
    negb (String.eqb (rfHeadsDigest folder) (headsDigest folder_heads_domain (rfHeads folder))) ||
    negb (String.eqb (rfStateDigest folder) (folderStateDigest folder)) ||
    negb (valid_counts (llen (rfHeads folder)) (rfHeight folder) (rfRevisionCount folder)) with ErrOther ;;
  fail_if is_some (s.1 !! rfFolderID folder) with ErrOther ;;
  let folders := <[rfFolderID folder := folder]> s.1 in
  if String.eqb (rfRole folder) "" then Ok (folders, s.2)
  else
    fail_if negb (String.eqb (rfFolderID folder) (standardFolderID (v3.tRepoDID target) (rfRole folder))) ||
      negb (String.eqb (rfName folder) (standardFolderName (rfRole folder))) with ErrOther ;;
    fail_if bool_decide (rfRole folder ∈ s.2) with ErrOther ;;
    Ok (folders, {[rfRole folder]} ∪ s.2).

Record message_scan : Type := MkMessageScan {
  msVersions : gmap string v3.MessageVersion;
  msLogical : gset string;
  msTotal : Z
}.
Definition snapshot_message (target : v3.Target) (s : message_scan) (m : v3.MessageVersion) : result message_scan :=
  fail_if negb (validPrefixedSHA256 (v3.vRKey m) "sha256-") || negb (String.eqb (v3.vFingerprint m) (v3.vRKey m)) ||
    negb (String.eqb (v3.vURI m) (v3.tSpaceURI target +:+ "/" +:+ v3.tRepoDID target +:+ "/email.atmos.message/" +:+ v3.vRKey m)) ||
    negb (validPrefixedSHA256 (v3.vLogicalMessageID m) "sha256-") || negb (validOptionalText (v3.vSourceKey m) 512) ||
    (len (v3.vRaw m) =? 0) || (MaxRawMessageBytes <? len (v3.vRaw m)) || negb (v3.vSize m =? raw_size (v3.vRaw m))%Z ||
    negb (String.eqb (v3.vSHA256 m) (rawSHA256 (v3.vRaw m))) ||
    negb (String.eqb (v3.vFingerprint m) (sourceFingerprint (v3.tRepoDID target) (v3.vSourceKey m) (v3.vRaw m))) ||
    negb (String.eqb (v3.vLogicalMessageID m) (logicalMessageID (v3.tRepoDID target) (v3.vSourceKey m) (v3.vFingerprint m))) ||
    (maxSnapshotBytes - msTotal s <? raw_size (v3.vRaw m))%Z with ErrOther ;;
  fail_if is_some (msVersions s !! v3.vRKey m) with ErrOther ;;
  Ok (MkMessageScan (<[v3.vRKey m := m]> (msVersions s)) ({[v3.vLogicalMessageID m]} ∪ msLogical s)
        (msTotal s + raw_size (v3.vRaw m))).

Definition snapshot_state (snapshot : v3.Snapshot) (folders : gmap string v3.FolderState)
    (versions : gmap string v3.MessageVersion) (states : gset string) (state : v3.MessageState) : result (gset string) :=
  fail_if negb (String.eqb (rsSnapshotID state) (v3.sSnapshotID snapshot)) ||
    negb (validPrefixedSHA256 (rsLogicalMessageID state) "sha256-") ||
    negb (match versions !! rsVersion state with
          | Some selected => String.eqb (v3.vLogicalMessageID selected) (rsLogicalMessageID state)
          | None => false
          end) ||
    (maxStateMailboxIDs <? llen (rsMailboxIDs state)) ||
    negb (validSortedUnique (rsMailboxIDs state) (λ value, validPrefixedSHA256 value "folder-")) ||
    (maxStateKeywords <? llen (rsKeywords state)) ||
    negb (validSortedUnique (rsKeywords state) (λ value, handler_validText value 255)) ||
    negb (validHeadSet (rsHeads state) "state-") ||
    negb (String.eqb (rsHeadsDigest state) (headsDigest state_heads_domain (rsHeads state))) ||
    negb (String.eqb (rsStateDigest state) (messageStateDigest state)) ||
    negb (valid_counts (llen (rsHeads state)) (rsHeight state) (rsRevisionCount state)) ||
    (negb (rsTombstone state) && (llen (rsMailboxIDs state) =? 0)) with ErrOther ;;
  fail_if bool_decide (rsLogicalMessageID state ∈ states) with ErrOther ;;
  fail_if negb (rsTombstone state) &&
    negb (forallb (λ folderID, match folders !! folderID with Some folder => negb (rfTombstone folder) | None => false end)
            (rsMailboxIDs state)) with ErrOther ;;
  Ok ({[rsLogicalMessageID state]} ∪ states).

(** The loops in order; the result only says whether they all passed. *)
Definition scan_snapshot (snapshot : v3.Snapshot) (target : v3.Target) : result unit :=
  fail_if negb (v3.sVersion snapshot =? v3.ProtocolVersion)%Z || negb (bool_decide (v3.sTarget snapshot = target)) ||
    negb (handler_validText (v3.sRevision snapshot) 512) || negb (validPrefixedSHA256 (v3.sSnapshotID snapshot) "sha256-") ||
    negb (validPrefixedSHA256 (v3.sManifestSHA256 snapshot) "sha256-") || (maxFolders <? llen (v3.sFolders snapshot)) ||
    (maxMessages <? llen (v3.sMessages snapshot)) || (maxMessages <? llen (v3.sStates snapshot)) with ErrOther ;;
  let? (folders, standardRoles) := range (snapshot_folder snapshot target) (v3.sFolders snapshot) (∅, ∅) in
  fail_if negb (N.of_nat (size standardRoles) =? 7) with ErrOther ;;
  let? messages := range (snapshot_message target) (v3.sMessages snapshot) (MkMessageScan ∅ ∅ 0) in
  let? states := range (snapshot_state snapshot folders (msVersions messages)) (v3.sStates snapshot) ∅ in
  fail_if negb (bool_decide (size states = size (msLogical messages))) with ErrOther ;;
  fail_if negb (bool_decide (msLogical messages ⊆ states)) with ErrOther ;;
  Ok tt.
Definition validSnapshot (snapshot : v3.Snapshot) (target : v3.Target) : bool := is_ok (scan_snapshot snapshot target).

(** ** The JSON of the protocol

    Requests are decoded strictly; a slice being decoded carries the memory behind it
    ([backed]), a nested struct the value it had.  [[]byte] is padded base64. *)

Definition StdEncode (s : string) : string :=
  let raw := RawStdEncode s in
  raw +:+ (if N.of_nat (String.length raw) mod 4 =? 2 then "==" else if N.of_nat (String.length raw) mod 4 =? 3 then "=" else "").
(** Newlines are skipped; the text is whole groups of four, the last padded. *)
Definition StdDecode (s : string) : option string :=
  let s := strip_newlines s in
  if negb (len s mod 4 =? 0) then None
  else if HasSuffix s "==" then decode_quads (TrimSuffix s "==")
  else decode_quads (TrimSuffix s "=").
Definition decode_bytes (j : json) (_ : string) : option string :=
  match j with JNull => Some "" | JStr s => StdDecode s | _ => None end.
Definition json_bytes (s : string) : json := JStr (StdEncode s).

Definition set_tProviderID (r : v3.Target) (x : string) : v3.Target :=
  v3.MkTarget x (v3.tOrigin r) (v3.tSpaceURI r) (v3.tRepoDID r) (v3.tEpoch r)
    (v3.tCertificateSHA256 r) (v3.tCertificateGeneration r).
Definition set_tOrigin (r : v3.Target) (x : string) : v3.Target :=
  v3.MkTarget (v3.tProviderID r) x (v3.tSpaceURI r) (v3.tRepoDID r) (v3.tEpoch r)
    (v3.tCertificateSHA256 r) (v3.tCertificateGeneration r).
Definition set_tSpaceURI (r : v3.Target) (x : string) : v3.Target :=
  v3.MkTarget (v3.tProviderID r) (v3.tOrigin r) x (v3.tRepoDID r) (v3.tEpoch r)
    (v3.tCertificateSHA256 r) (v3.tCertificateGeneration r).
Definition set_tRepoDID (r : v3.Target) (x : string) : v3.Target :=
  v3.MkTarget (v3.tProviderID r) (v3.tOrigin r) (v3.tSpaceURI r) x (v3.tEpoch r)
    (v3.tCertificateSHA256 r) (v3.tCertificateGeneration r).
Definition set_tEpoch (r : v3.Target) (x : string) : v3.Target :=
  v3.MkTarget (v3.tProviderID r) (v3.tOrigin r) (v3.tSpaceURI r) (v3.tRepoDID r) x
    (v3.tCertificateSHA256 r) (v3.tCertificateGeneration r).
Definition set_tCertificateSHA256 (r : v3.Target) (x : string) : v3.Target :=
  v3.MkTarget (v3.tProviderID r) (v3.tOrigin r) (v3.tSpaceURI r) (v3.tRepoDID r) (v3.tEpoch r) x
    (v3.tCertificateGeneration r).
Definition set_tCertificateGeneration (r : v3.Target) (x : string) : v3.Target :=
  v3.MkTarget (v3.tProviderID r) (v3.tOrigin r) (v3.tSpaceURI r) (v3.tRepoDID r) (v3.tEpoch r)
    (v3.tCertificateSHA256 r) x.
Definition zero_v3_target : v3.Target := v3.MkTarget "" "" "" "" "" "" "".
Definition v3_target_fields : list (field v3.Target) :=
  [mk_field "providerId" decode_string v3.tProviderID set_tProviderID;
   mk_field "origin" decode_string v3.tOrigin set_tOrigin;
   mk_field "spaceUri" decode_string v3.tSpaceURI set_tSpaceURI;
   mk_field "repoDid" decode_string v3.tRepoDID set_tRepoDID;
   mk_field "epoch" decode_string v3.tEpoch set_tEpoch;
   mk_field "authorityCertificateSha256" decode_string v3.tCertificateSHA256 set_tCertificateSHA256;
   mk_field "authorityCertificateGeneration" decode_string v3.tCertificateGeneration set_tCertificateGeneration].
Definition v3_target_json (t : v3.Target) : json :=
  JObj ([("providerId", JStr (v3.tProviderID t)); ("origin", JStr (v3.tOrigin t)); ("spaceUri", JStr (v3.tSpaceURI t));
         ("repoDid", JStr (v3.tRepoDID t)); ("epoch", JStr (v3.tEpoch t))] ++
        omit_if (String.eqb (v3.tCertificateSHA256 t) "") "authorityCertificateSha256" (JStr (v3.tCertificateSHA256 t)) ++
        omit_if (String.eqb (v3.tCertificateGeneration t) "") "authorityCertificateGeneration" (JStr (v3.tCertificateGeneration t))).

Definition set_fsSourceKey (r : v3.FolderSelection) (x : string) : v3.FolderSelection :=
  v3.MkSelection x (v3.fsName r) (v3.fsRole r).
Definition set_fsName (r : v3.FolderSelection) (x : string) : v3.FolderSelection :=
  v3.MkSelection (v3.fsSourceKey r) x (v3.fsRole r).
Definition set_fsRole (r : v3.FolderSelection) (x : string) : v3.FolderSelection :=
  v3.MkSelection (v3.fsSourceKey r) (v3.fsName r) x.
Definition selection_fields : list (field v3.FolderSelection) :=
  [mk_field "sourceKey" decode_string v3.fsSourceKey set_fsSourceKey; mk_field "name" decode_string v3.fsName set_fsName;
   mk_field "role" decode_string v3.fsRole set_fsRole].

Record placement_decoding : Type := MkPlacementDecoding {
  pdSourceKey : string;
  pdFolders : backed v3.FolderSelection;
  pdKeywords : backed string
}.
Definition set_pdSourceKey (r : placement_decoding) (x : string) : placement_decoding :=
  MkPlacementDecoding x (pdFolders r) (pdKeywords r).
Definition set_pdFolders (r : placement_decoding) (x : backed v3.FolderSelection) : placement_decoding :=
  MkPlacementDecoding (pdSourceKey r) x (pdKeywords r).
Definition set_pdKeywords (r : placement_decoding) (x : backed string) : placement_decoding :=
  MkPlacementDecoding (pdSourceKey r) (pdFolders r) x.
Definition visible {A} (b : backed A) : list A := elems (bkVisible b).
Definition decoded_placement (p : placement_decoding) : v3.Placement :=
  v3.MkPlacement (pdSourceKey p) (visible (pdFolders p)) (visible (pdKeywords p)).

(** The three lists of a mutation being decoded. *)
Record mutation_decoding : Type := MkMutationDecoding {
  mdMutation : v3.StateMutation;
  mdHeads : backed string;
  mdMailboxIDs : backed string;
  mdKeywords : backed string
}.
Definition set_mdMutation (r : mutation_decoding) (x : v3.StateMutation) : mutation_decoding :=
  MkMutationDecoding x (mdHeads r) (mdMailboxIDs r) (mdKeywords r).
Definition set_mdHeads (r : mutation_decoding) (x : backed string) : mutation_decoding :=
  MkMutationDecoding (mdMutation r) x (mdMailboxIDs r) (mdKeywords r).
Definition set_mdMailboxIDs (r : mutation_decoding) (x : backed string) : mutation_decoding :=
  MkMutationDecoding (mdMutation r) (mdHeads r) x (mdKeywords r).
Definition set_mdKeywords (r : mutation_decoding) (x : backed string) : mutation_decoding :=
  MkMutationDecoding (mdMutation r) (mdHeads r) (mdMailboxIDs r) x.
Definition set_mSnapshotID (r : v3.StateMutation) (x : string) : v3.StateMutation :=
  v3.MkMutation x (v3.mLogicalMessageID r) (v3.mOperationID r) (v3.mExpectedHeads r)
    (v3.mExpectedHeadsDigest r) (v3.mExpectedStateDigest r) (v3.mExpectedHeight r)
    (v3.mExpectedRevisionCount r) (v3.mVersion r) (v3.mMailboxIDs r) (v3.mKeywords r)
    (v3.mDeletePending r) (v3.mTombstone r).
Definition set_mLogicalMessageID (r : v3.StateMutation) (x : string) : v3.StateMutation :=
  v3.MkMutation (v3.mSnapshotID r) x (v3.mOperationID r) (v3.mExpectedHeads r)
    (v3.mExpectedHeadsDigest r) (v3.mExpectedStateDigest r) (v3.mExpectedHeight r)
    (v3.mExpectedRevisionCount r) (v3.mVersion r) (v3.mMailboxIDs r) (v3.mKeywords r)
    (v3.mDeletePending r) (v3.mTombstone r).
Definition set_mOperationID (r : v3.StateMutation) (x : string) : v3.StateMutation :=
  v3.MkMutation (v3.mSnapshotID r) (v3.mLogicalMessageID r) x (v3.mExpectedHeads r)
    (v3.mExpectedHeadsDigest r) (v3.mExpectedStateDigest r) (v3.mExpectedHeight r)
    (v3.mExpectedRevisionCount r) (v3.mVersion r) (v3.mMailboxIDs r) (v3.mKeywords r)
    (v3.mDeletePending r) (v3.mTombstone r).
Definition set_mExpectedHeads (r : v3.StateMutation) (x : list string) : v3.StateMutation :=
  v3.MkMutation (v3.mSnapshotID r) (v3.mLogicalMessageID r) (v3.mOperationID r) x
    (v3.mExpectedHeadsDigest r) (v3.mExpectedStateDigest r) (v3.mExpectedHeight r)
    (v3.mExpectedRevisionCount r) (v3.mVersion r) (v3.mMailboxIDs r) (v3.mKeywords r)
    (v3.mDeletePending r) (v3.mTombstone r).
Definition set_mExpectedHeadsDigest (r : v3.StateMutation) (x : string) : v3.StateMutation :=
  v3.MkMutation (v3.mSnapshotID r) (v3.mLogicalMessageID r) (v3.mOperationID r)
    (v3.mExpectedHeads r) x (v3.mExpectedStateDigest r) (v3.mExpectedHeight r)
    (v3.mExpectedRevisionCount r) (v3.mVersion r) (v3.mMailboxIDs r) (v3.mKeywords r)
    (v3.mDeletePending r) (v3.mTombstone r).
Definition set_mExpectedStateDigest (r : v3.StateMutation) (x : string) : v3.StateMutation :=
  v3.MkMutation (v3.mSnapshotID r) (v3.mLogicalMessageID r) (v3.mOperationID r)
    (v3.mExpectedHeads r) (v3.mExpectedHeadsDigest r) x (v3.mExpectedHeight r)
    (v3.mExpectedRevisionCount r) (v3.mVersion r) (v3.mMailboxIDs r) (v3.mKeywords r)
    (v3.mDeletePending r) (v3.mTombstone r).
Definition set_mExpectedHeight (r : v3.StateMutation) (x : N) : v3.StateMutation :=
  v3.MkMutation (v3.mSnapshotID r) (v3.mLogicalMessageID r) (v3.mOperationID r)
    (v3.mExpectedHeads r) (v3.mExpectedHeadsDigest r) (v3.mExpectedStateDigest r) x
    (v3.mExpectedRevisionCount r) (v3.mVersion r) (v3.mMailboxIDs r) (v3.mKeywords r)
    (v3.mDeletePending r) (v3.mTombstone r).
Definition set_mExpectedRevisionCount (r : v3.StateMutation) (x : Z) : v3.StateMutation :=
  v3.MkMutation (v3.mSnapshotID r) (v3.mLogicalMessageID r) (v3.mOperationID r)
    (v3.mExpectedHeads r) (v3.mExpectedHeadsDigest r) (v3.mExpectedStateDigest r)
    (v3.mExpectedHeight r) x (v3.mVersion r) (v3.mMailboxIDs r) (v3.mKeywords r)
    (v3.mDeletePending r) (v3.mTombstone r).
Definition set_mVersion (r : v3.StateMutation) (x : string) : v3.StateMutation :=
  v3.MkMutation (v3.mSnapshotID r) (v3.mLogicalMessageID r) (v3.mOperationID r)
    (v3.mExpectedHeads r) (v3.mExpectedHeadsDigest r) (v3.mExpectedStateDigest r)
    (v3.mExpectedHeight r) (v3.mExpectedRevisionCount r) x (v3.mMailboxIDs r) (v3.mKeywords r)
    (v3.mDeletePending r) (v3.mTombstone r).
Definition set_mMailboxIDs (r : v3.StateMutation) (x : list string) : v3.StateMutation :=
  v3.MkMutation (v3.mSnapshotID r) (v3.mLogicalMessageID r) (v3.mOperationID r)
    (v3.mExpectedHeads r) (v3.mExpectedHeadsDigest r) (v3.mExpectedStateDigest r)
    (v3.mExpectedHeight r) (v3.mExpectedRevisionCount r) (v3.mVersion r) x (v3.mKeywords r)
    (v3.mDeletePending r) (v3.mTombstone r).
Definition set_mKeywords (r : v3.StateMutation) (x : list string) : v3.StateMutation :=
  v3.MkMutation (v3.mSnapshotID r) (v3.mLogicalMessageID r) (v3.mOperationID r)
    (v3.mExpectedHeads r) (v3.mExpectedHeadsDigest r) (v3.mExpectedStateDigest r)
    (v3.mExpectedHeight r) (v3.mExpectedRevisionCount r) (v3.mVersion r) (v3.mMailboxIDs r) x
    (v3.mDeletePending r) (v3.mTombstone r).
Definition set_mDeletePending (r : v3.StateMutation) (x : bool) : v3.StateMutation :=
  v3.MkMutation (v3.mSnapshotID r) (v3.mLogicalMessageID r) (v3.mOperationID r)
    (v3.mExpectedHeads r) (v3.mExpectedHeadsDigest r) (v3.mExpectedStateDigest r)
    (v3.mExpectedHeight r) (v3.mExpectedRevisionCount r) (v3.mVersion r) (v3.mMailboxIDs r)
    (v3.mKeywords r) x (v3.mTombstone r).
Definition set_mTombstone (r : v3.StateMutation) (x : bool) : v3.StateMutation :=
  v3.MkMutation (v3.mSnapshotID r) (v3.mLogicalMessageID r) (v3.mOperationID r)
    (v3.mExpectedHeads r) (v3.mExpectedHeadsDigest r) (v3.mExpectedStateDigest r)
    (v3.mExpectedHeight r) (v3.mExpectedRevisionCount r) (v3.mVersion r) (v3.mMailboxIDs r)
    (v3.mKeywords r) (v3.mDeletePending r) x.
Definition zero_mutation : v3.StateMutation := v3.MkMutation "" "" "" [] "" "" 0 0 "" [] [] false false.
Definition new_mutation : mutation_decoding := MkMutationDecoding zero_mutation (Backed None []) (Backed None []) (Backed None []).
Definition decoded_mutation (s : mutation_decoding) : v3.StateMutation :=
  set_mKeywords (set_mMailboxIDs (set_mExpectedHeads (mdMutation s) (visible (mdHeads s))) (visible (mdMailboxIDs s)))
    (visible (mdKeywords s)).
Definition on_mutation {A} (name : string) (decode : json → A → option A) (get : v3.StateMutation → A)
    (set : v3.StateMutation → A → v3.StateMutation) : field mutation_decoding :=
  mk_field name decode (λ s, get (mdMutation s)) (λ s x, set_mdMutation s (set (mdMutation s) x)).
Definition mutation_fields : list (field mutation_decoding) :=
  [on_mutation "snapshotId" decode_string v3.mSnapshotID set_mSnapshotID;
   on_mutation "logicalMessageId" decode_string v3.mLogicalMessageID set_mLogicalMessageID;
   on_mutation "operationId" decode_string v3.mOperationID set_mOperationID;
   mk_field "expectedHeads" (decode_array decode_string "") mdHeads set_mdHeads;
   on_mutation "expectedHeadsDigest" decode_string v3.mExpectedHeadsDigest set_mExpectedHeadsDigest;
   on_mutation "expectedStateDigest" decode_string v3.mExpectedStateDigest set_mExpectedStateDigest;
   on_mutation "expectedHeight" (decode_uint 64) v3.mExpectedHeight set_mExpectedHeight;
   on_mutation "expectedRevisionCount" decode_int64 v3.mExpectedRevisionCount set_mExpectedRevisionCount;
   on_mutation "version" decode_string v3.mVersion set_mVersion;
   mk_field "mailboxIds" (decode_array decode_string "") mdMailboxIDs set_mdMailboxIDs;
   mk_field "keywords" (decode_array decode_string "") mdKeywords set_mdKeywords;
   on_mutation "deletePending" decode_bool v3.mDeletePending set_mDeletePending;
   on_mutation "tombstone" decode_bool v3.mTombstone set_mTombstone].

Record storeRequest : Type := MkStoreRequest {
  sqVersion : Z;
  sqTarget : v3.Target;
  sqRecipientDID : string;
  sqPlacement : placement_decoding;
  sqRaw : string
}.
Definition set_sqVersion (r : storeRequest) (x : Z) : storeRequest :=
  MkStoreRequest x (sqTarget r) (sqRecipientDID r) (sqPlacement r) (sqRaw r).
Definition set_sqTarget (r : storeRequest) (x : v3.Target) : storeRequest :=
  MkStoreRequest (sqVersion r) x (sqRecipientDID r) (sqPlacement r) (sqRaw r).
Definition set_sqRecipientDID (r : storeRequest) (x : string) : storeRequest :=
  MkStoreRequest (sqVersion r) (sqTarget r) x (sqPlacement r) (sqRaw r).
Definition set_sqPlacement (r : storeRequest) (x : placement_decoding) : storeRequest :=
  MkStoreRequest (sqVersion r) (sqTarget r) (sqRecipientDID r) x (sqRaw r).
Definition set_sqRaw (r : storeRequest) (x : string) : storeRequest :=
  MkStoreRequest (sqVersion r) (sqTarget r) (sqRecipientDID r) (sqPlacement r) x.
Definition zero_store_request : storeRequest :=
  MkStoreRequest 0 zero_v3_target "" (MkPlacementDecoding "" (Backed None []) (Backed None [])) "".

Section requests.
Context `{CaseOrbits}.

Definition placement_fields : list (field placement_decoding) :=
  [mk_field "sourceKey" decode_string pdSourceKey set_pdSourceKey;
   mk_field "folders" (decode_array (decode_strict selection_fields) (v3.MkSelection "" "" "")) pdFolders set_pdFolders;
   mk_field "keywords" (decode_array decode_string "") pdKeywords set_pdKeywords].

(** A request of a version and a target, and perhaps more. *)
Definition request_fields {A} (more : list (field (Z * v3.Target * A))) : list (field (Z * v3.Target * A)) :=
  [wire_field "version" decode_int64 (λ s, s.1.1) (λ s x, (x, s.1.2, s.2));
   wire_field "target" (decode_strict v3_target_fields) (λ s, s.1.2) (λ s x, (s.1.1, x, s.2))] ++ more.

(** [decodeStrict] over the body, whose reader fails after [maxRequestBytes]. *)
Definition decodeStrict {A} (decode : json → A → option A) (zero : A) (body : reader) : result A :=
  decodeStrictBounded decode zero maxRequestBytes body.
Definition decode_target_request (body : reader) : result (Z * v3.Target * unit) :=
  decodeStrict (decode_strict (request_fields [])) (0%Z, zero_v3_target, tt) body.
Definition decode_state_request (body : reader) : result (Z * v3.Target * v3.StateMutation) :=
  let? (p, m) := decodeStrict (decode_strict (request_fields
      [wire_field "mutation" (decode_strict mutation_fields) snd (λ s x, (s.1, x))])) (0%Z, zero_v3_target, new_mutation) body in
  Ok (p, decoded_mutation m).
Definition decode_store_request (body : reader) : result storeRequest :=
  decodeStrict (decode_strict
    [wire_field "version" decode_int64 sqVersion set_sqVersion;
     wire_field "target" (decode_strict v3_target_fields) sqTarget set_sqTarget;
     wire_field "recipientDid" decode_string sqRecipientDID set_sqRecipientDID;
     wire_field "placement" (decode_strict placement_fields) sqPlacement set_sqPlacement;
     wire_field "message" (decode_strict [sole_field "raw" decode_bytes]) sqRaw set_sqRaw]) zero_store_request body.

End requests.

Definition capabilities_json (c : v3.Capabilities) : json :=
  JObj [("privateRecords", JBool (v3.cpPrivateRecords c)); ("referencedBlobs", JBool (v3.cpReferencedBlobs c));
        ("atomicCreateBatch", JBool (v3.cpAtomicCreateBatch c));
        ("idempotentOperationClaims", JBool (v3.cpIdempotentOperationClaims c));
        ("authenticatedStableRead", JBool (v3.cpAuthenticatedStableRead c));
        ("completeInventory", JBool (v3.cpCompleteInventory c)); ("concurrentHeads", JBool (v3.cpConcurrentHeads c));
        ("tombstones", JBool (v3.cpTombstones c)); ("sourceVersioning", JBool (v3.cpSourceVersioning c));
        ("authorityCertificateSha256", JStr (v3.cpCertificateSHA256 c));
        ("authorityCertificateGeneration", JStr (v3.cpGeneration c))].
Definition receipt_json (r : v3.Receipt) : json :=
  JObj [("target", v3_target_json (v3.rTarget r)); ("fingerprint", JStr (v3.rFingerprint r)); ("sha256", JStr (v3.rSHA256 r));
        ("size", json_Z (v3.rSize r)); ("verified", JBool (v3.rVerified r))].
Definition version_json (m : v3.MessageVersion) : json :=
  JObj ([("uri", JStr (v3.vURI m)); ("rkey", JStr (v3.vRKey m)); ("fingerprint", JStr (v3.vFingerprint m));
         ("logicalMessageId", JStr (v3.vLogicalMessageID m))] ++
        omit_if (String.eqb (v3.vSourceKey m) "") "sourceKey" (JStr (v3.vSourceKey m)) ++
        [("sha256", JStr (v3.vSHA256 m)); ("size", json_Z (v3.vSize m)); ("raw", json_bytes (v3.vRaw m))]).
(** A slice that was built by appending. *)
Definition appended_json (l : list json) : json := match l with [] => JNull | _ => JArr l end.
Definition snapshot_header (s : v3.Snapshot) : list (string * json) :=
  [("version", json_Z (v3.sVersion s)); ("target", v3_target_json (v3.sTarget s)); ("revision", JStr (v3.sRevision s));
   ("snapshotId", JStr (v3.sSnapshotID s)); ("manifestSha256", JStr (v3.sManifestSHA256 s))].
Definition snapshot_json (s : v3.Snapshot) : json :=
  JObj (snapshot_header s ++
        [("folders", appended_json (List.map reduced_folder_json (v3.sFolders s)));
         ("messages", appended_json (List.map version_json (v3.sMessages s)));
         ("states", appended_json (List.map reduced_state_json (v3.sStates s)))]).
(** A response: the version, the provider and the target, and what is asked for. *)
Definition response_header (target : v3.Target) : list (string * json) :=
  [("version", json_Z v3.ProtocolVersion); ("providerId", JStr (v3.tProviderID target)); ("target", v3_target_json target)].


(** ** The bounded response of a snapshot

    Fragments are encoded one item at a time, and none is kept beyond the limit. *)

Record boundedSnapshotJSON : Type := MkBounded { bsChunks : list string; bsSize : Z; bsLimit : Z }.

Definition appendChunk (e : boundedSnapshotJSON) (chunk : string) : result boundedSnapshotJSON :=
  fail_if (bsLimit e - bsSize e <? raw_size chunk)%Z with ErrOther ;;
  Ok (MkBounded (bsChunks e ++ [chunk]) (bsSize e + raw_size chunk) (bsLimit e)).
(** An object without its closing brace. *)
Definition appendObjectPrefix (e : boundedSnapshotJSON) (value : json) : result boundedSnapshotJSON :=
  let chunk := print value in
  fail_if (len chunk <? 2) || negb (HasPrefix chunk "{") || negb (HasSuffix chunk "}") with ErrOther ;;
  appendChunk e (substring 0 (String.length chunk - 1) chunk).
Definition append_item (s : boundedSnapshotJSON * bool) (value : json) : result (boundedSnapshotJSON * bool) :=
  let? e := if s.2 then Ok s.1 else appendChunk s.1 "," in
  let? e := appendChunk e (print value) in
  Ok (e, false).
Definition appendSnapshotArray (e : boundedSnapshotJSON) (values : list json) : result boundedSnapshotJSON :=
  match values with
  | [] => appendChunk e "null"
  | _ =>
      let? e := appendChunk e "[" in
      let? (e, _) := range append_item values (e, true) in
      appendChunk e "]"
  end.

Definition encodeBoundedSnapshotJSON (target : v3.Target) (snapshot : v3.Snapshot) (limit : Z) : result boundedSnapshotJSON :=
  fail_if (limit <=? 0)%Z with ErrOther ;;
  let? e := appendObjectPrefix (MkBounded [] 0 limit) (JObj (response_header target)) in
  let? e := appendChunk e ("," +:+ quote "snapshot" +:+ ":") in
  let? e := appendObjectPrefix e (JObj (snapshot_header snapshot)) in
  let? e := appendChunk e ("," +:+ quote "folders" +:+ ":") in
  let? e := appendSnapshotArray e (List.map reduced_folder_json (v3.sFolders snapshot)) in
  let? e := appendChunk e ("," +:+ quote "messages" +:+ ":") in
  let? e := appendSnapshotArray e (List.map version_json (v3.sMessages snapshot)) in
  let? e := appendChunk e ("," +:+ quote "states" +:+ ":") in
  let? e := appendSnapshotArray e (List.map reduced_state_json (v3.sStates snapshot)) in
  appendChunk e ("}}" +:+ byte 10).

(** ** Requests and responses *)

Record Handler (W : Type) : Type := MkHandler {
  hdTokenHash : string;
  hdTarget : v3.Target;
  hdEngine : Engine W
}.
Arguments hdTokenHash {W}. Arguments hdTarget {W}. Arguments hdEngine {W}. Arguments MkHandler {W}.

Record server_request : Type := MkServerRequest {
  srMethod : string;
  srAuthorization : string;
  srRawQuery : string;
  srContentType : string;
  srPath : string;
  srBody : reader
}.
(** The status, whether the [Allow] header is set, and the body. *)
Record server_response : Type := MkServerResponse { spStatus : Z; spAllow : bool; spBody : string }.

Definition writeJSON (value : json) : server_response := MkServerResponse 200 false (print value +:+ byte 10).
Definition writeError (status : Z) (code : string) : server_response :=
  MkServerResponse status false (print (JObj [("error", JStr code)]) +:+ byte 10).
Definition isJSONContentType (value : string) : bool :=
  match ParseMediaType value with Some m => String.eqb m "application/json" | None => false end.

Definition NewHandler `{Syntax} {W : Type} (token : string) (target : v3.Target) (engine : option (Engine W)) : result (Handler W) :=
  fail_if String.eqb token "" || (16 * 1024 <? len token) || ContainsAny token line_breaks with ErrOther ;;
  let? engine := opt_result engine ErrOther in
  fail_if negb (validTarget target) with ErrOther ;;
  Ok (MkHandler (sha256 token) target engine).

Section handler.
Context `{CaseOrbits} {W : Type} (handler : Handler W).
Let target := hdTarget handler.
Let engine := hdEngine handler.

Definition authorized (header : string) : bool :=
  let pre := "Bearer " in
  if negb (HasPrefix header pre) || (len header <=? len pre) || (len pre + 16 * 1024 <? len header) then false
  else String.eqb (sha256 (TrimPrefix header pre)) (hdTokenHash handler).

(** A request for this protocol version and this target. *)
Definition for_target (version : Z) (t : v3.Target) : bool := (version =? v3.ProtocolVersion)%Z && bool_decide (t = target).

Definition serve_capabilities (body : reader) (w : W) : server_response * W :=
  match decode_target_request body with
  | Ok (version, t, _) =>
      if negb (for_target version t) then (writeError 400 "InvalidTarget", w)
      else
        let '(r, w) := egCapabilities engine w in
        match r with
        | Ok capabilities =>
            if negb (supports capabilities target) then (writeError 502 "ProviderUnavailable", w)
            else (writeJSON (JObj (response_header target ++ [("capabilities", capabilities_json capabilities)])), w)
        | Err _ => (writeError 502 "ProviderUnavailable", w)
        end
  | Err _ => (writeError 400 "InvalidTarget", w)
  end.

(** Whether the receipt is for the bytes that came with the request. *)
Definition receipt_matches (recipientDID sourceKey raw : string) (r : v3.Receipt) : bool :=
  bool_decide (v3.rTarget r = target) && v3.rVerified r &&
  String.eqb (v3.rFingerprint r) (sourceFingerprint recipientDID sourceKey raw) &&
  String.eqb (v3.rSHA256 r) (rawSHA256 raw) && (v3.rSize r =? raw_size raw)%Z.
Definition valid_store_request (input : storeRequest) : bool :=
  for_target (sqVersion input) (sqTarget input) && String.eqb (sqRecipientDID input) (v3.tRepoDID target) &&
  negb ((len (sqRaw input) =? 0) || (MaxRawMessageBytes <? len (sqRaw input))) &&
  validPlacement (decoded_placement (sqPlacement input)).
Definition serve_store (body : reader) (w : W) : server_response * W :=
  match decode_store_request body with
  | Ok input =>
      if negb (valid_store_request input) then (writeError 400 "InvalidRequest", w)
      else
        let placement := decoded_placement (sqPlacement input) in
        let '(r, w) := egStore engine (v3.MkStoreInput (sqRecipientDID input) placement (sqRaw input)) w in
        match r with
        | Ok receipt =>
            if negb (receipt_matches (sqRecipientDID input) (v3.pSourceKey placement) (sqRaw input) receipt)
            then (writeError 502 "StoreFailed", w)
            else (writeJSON (JObj (response_header target ++ [("receipt", receipt_json receipt)])), w)
        | Err _ => (writeError 502 "StoreFailed", w)
        end
  | Err _ => (writeError 400 "InvalidRequest", w)
  end.

Definition serve_snapshot (body : reader) (w : W) : server_response * W :=
  match decode_target_request body with
  | Ok (version, t, _) =>
      if negb (for_target version t) then (writeError 400 "InvalidTarget", w)
      else
        let '(r, w) := egSnapshot engine w in
        match r with
        | Ok snapshot =>
            if negb (validSnapshot snapshot target) then (writeError 502 "SnapshotFailed", w)
            else match encodeBoundedSnapshotJSON target snapshot maxSnapshotResponseBytes with
                 | Ok encoded => (MkServerResponse 200 false (concat_all (bsChunks encoded)), w)
                 | Err _ => (writeError 502 "SnapshotTooLarge", w)
                 end
        | Err _ => (writeError 502 "SnapshotFailed", w)
        end
  | Err _ => (writeError 400 "InvalidTarget", w)
  end.

Definition serve_append (body : reader) (w : W) : server_response * W :=
  match decode_state_request body with
  | Ok (version, t, mutation) =>
      if negb (for_target version t) || negb (validMutation mutation) then (writeError 400 "InvalidRequest", w)
      else
        let '(r, w) := egAppendState engine mutation w in
        match r with
        | Ok state =>
            if negb (validMutationResult mutation state) then (writeError 502 "AppendFailed", w)
            else (writeJSON (JObj (response_header target ++
                    [("operationId", JStr (v3.mOperationID mutation)); ("state", reduced_state_json state)])), w)
        | Err e => (if errors_Is e ErrAppendConflict then writeError 409 "Conflict" else writeError 502 "AppendFailed", w)
        end
  | Err _ => (writeError 400 "InvalidRequest", w)
  end.

Definition ServeHTTP (request : server_request) (w : W) : server_response * W :=
  if negb (String.eqb (srMethod request) "POST") then
    (MkServerResponse 405 true (spBody (writeError 405 "MethodNotAllowed")), w)
  else if negb (authorized (srAuthorization request)) then (writeError 401 "Unauthorized", w)
  else if negb (String.eqb (srRawQuery request) "") || negb (isJSONContentType (srContentType request)) then
    (writeError 400 "InvalidRequest", w)
  else if String.eqb (srPath request) "/v3/capabilities" then serve_capabilities (srBody request) w
  else if String.eqb (srPath request) "/v3/messages/store" then serve_store (srBody request) w
  else if String.eqb (srPath request) "/v3/snapshot" then serve_snapshot (srBody request) w
  else if String.eqb (srPath request) "/v3/state/append" then serve_append (srBody request) w
  else (writeError 404 "NotFound", w).

End handler.
