(* ===== verification/Extended.v ===== *)
(** * A repository extended by one revision

    What a create batch of a revision and its claim does to a complete repository, seen by the
    next recovery read: every folder and every other message is as it was, and the message of the
    revision has the extended history of Append.v.  The snapshot identity is another one. *)
From S2P Require Import Prelude Sha256 GoStd Syntax Unicode Json Mailbox Repository Canonical Causal Revision.
From S2P Require Import FolderRevision Decode Ipld Car Url SpacesWire Http Client Snapshot SourceRead Sample Recovery Reduction.
From S2P Require Import Recovered Append.

(** ** Histories under another snapshot *)

Section resealed.
Context `{Syntax} (repoDID : string).

(** A history is judged by the claims, versions and folders of its snapshot. *)
Lemma resealed_inventory id old new l : vsOperationClaims new = vsOperationClaims old → vsVersions new = vsVersions old →
  vsFolders new = vsFolders old → VerifiedSnapshot_validFor new id (llen l) = true →
  complete_inventory repoDID id old l → complete_inventory repoDID id new l.
Proof.
  destruct old, new; cbn. intros -> -> -> Hs [? ? ? _ ? ? ? ? ?]. by split.
Qed.
Lemma resealed_folder id old new l : vfOperationClaims new = vfOperationClaims old →
  VerifiedFolderSnapshot_validFor new id (llen l) = true →
  complete_folder repoDID id old l → complete_folder repoDID id new l.
Proof. destruct old, new; cbn. intros -> Hs [? ? ? _ ? ? ? ?]. by split. Qed.

Lemma message_snapshot_valid s evs id : validIdentifier s maxIdentifierBytes = true →
  1 ≤ llen (of_key id (revisions evs)) → msize (map_of (of_key id (claims evs))) = llen (of_key id (revisions evs)) →
  VerifiedSnapshot_validFor (message_snapshot s evs id) id (llen (of_key id (revisions evs))) = true.
Proof.
  intros Hs Hn Hc. unfold VerifiedSnapshot_validFor. cbn [message_snapshot seal_message_snapshot vsSnapshotID vsLogicalMessageID
    vsRevisionCount vsOperationClaims vsSeal]. rewrite Hs, Hc, String.eqb_refl, N.eqb_refl.
  rewrite (proj2 (N.ltb_ge _ _)) by lia. cbn [negb orb]. apply String.eqb_eq. reflexivity.
Qed.
Lemma folder_snapshot_valid s evs id : validIdentifier s maxIdentifierBytes = true →
  1 ≤ llen (of_key id (folder_revisions evs)) →
  msize (map_of (of_key id (folder_claims evs))) = llen (of_key id (folder_revisions evs)) →
  VerifiedFolderSnapshot_validFor (folder_snapshot s evs id) id (llen (of_key id (folder_revisions evs))) = true.
Proof.
  intros Hs Hn Hc. unfold VerifiedFolderSnapshot_validFor. cbn [folder_snapshot seal_folder_snapshot vfSnapshotID vfFolderID
    vfRevisionCount vfOperationClaims vfSeal]. rewrite Hs, Hc, String.eqb_refl, N.eqb_refl.
  rewrite (proj2 (N.ltb_lt _ _)) by lia. apply String.eqb_eq. reflexivity.
Qed.
Lemma folder_set_valid s evs : validIdentifier s maxIdentifierBytes = true → validCanonicalDID repoDID = true →
  1 ≤ llen (folder_states s evs) → msize (state_digests (folder_states s evs)) = llen (folder_states s evs) →
  VerifiedFolderSetSnapshot_validFor (folder_set_of repoDID s evs) repoDID (llen (folder_states s evs)) = true.
Proof.
  intros Hs Hd Hn Hc. unfold VerifiedFolderSetSnapshot_validFor. cbn [folder_set_of seal_folder_set vzRepoDID vzSnapshotID
    vzFolderCount vzStateDigests vzSeal]. rewrite Hs, Hd, Hc, String.eqb_refl, N.eqb_refl.
  rewrite (proj2 (N.ltb_lt _ _)) by lia. apply String.eqb_eq. reflexivity.
Qed.

End resealed.

(** ** The folders *)

Section folders.
Context `{Syntax} `{CaseOrbits} (repoDID s s' : string) (evs evs' : list record_event).
Hypothesis same_revisions : folder_revisions evs' = folder_revisions evs.
Hypothesis same_claims : folder_claims evs' = folder_claims evs.
Hypothesis new_id : validIdentifier s' maxIdentifierBytes = true.

Definition renamed (st : ReducedFolderState) : ReducedFolderState :=
  MkReducedFolderState (rfFolderID st) s' (rfName st) (rfRole st) (rfTombstone st) (rfHeads st) (rfHeadsDigest st)
    (rfStateDigest st) (rfHeight st) (rfRevisionCount st).

Lemma folder_states_renamed : folder_states s' evs' = renamed <$> folder_states s evs.
Proof. unfold folder_states. rewrite same_revisions, <- list_fmap_compose. apply list_fmap_ext. intros _ id _. cbn. unfold folder_of_id. by rewrite same_revisions. Qed.

Lemma folder_references_renamed : folder_references (folder_states s' evs') = folder_references (folder_states s evs).
Proof. unfold folder_references. rewrite folder_states_renamed, <- list_fmap_compose. done. Qed.
Lemma state_digests_renamed : state_digests (folder_states s' evs') = state_digests (folder_states s evs).
Proof. unfold state_digests. rewrite folder_states_renamed, <- list_fmap_compose. done. Qed.

Lemma folders_carry_over : complete_folders repoDID s evs → complete_folders repoDID s' evs'.
Proof.
  intros [Heach [Hcount Hsealed Hfolders Hids Hnames Hroles]]. split.
  - intros id Hid. rewrite same_revisions, same_claims in Hid. specialize (Heach id Hid).
    rewrite same_revisions. refine (resealed_folder _ _ (folder_snapshot s evs id) _ _ _ _ Heach).
    + cbn. by rewrite same_claims.
    + rewrite <- same_revisions. apply folder_snapshot_valid; rewrite ?same_revisions, ?same_claims; [done|apply Heach|].
      pose proof (cf_sealed _ _ _ _ Heach) as Hs. unfold VerifiedFolderSnapshot_validFor in Hs. by bools.
  - assert (Hl : llen (folder_states s' evs') = llen (folder_states s evs)) by (rewrite folder_states_renamed; apply llen_fmap).
    split; rewrite ?Hl.
    + done.
    + rewrite <- Hl. unfold VerifiedFolderSetSnapshot_validFor in Hsealed. bools. apply folder_set_valid; [done..| |].
      * rewrite Hl. lia.
      * by rewrite state_digests_renamed, Hl.
    + rewrite folder_states_renamed. apply Forall_fmap. eapply Forall_impl; [exact Hfolders|]. intros st [? ? ? ? Hp ? ?].
      split; try done. cbn in *. rewrite state_digests_renamed. exact Hp.
    + rewrite folder_states_renamed, <- list_fmap_compose. exact Hids.
    + intros i j st st'. rewrite folder_states_renamed, !(list_lookup_fmap renamed). intros (x & Hi & ->)%fmap_Some (y & Hj & ->)%fmap_Some.
      exact (Hnames i j x y Hi Hj).
    + intros role (st & Hst & Hr)%Hroles. exists (renamed st). rewrite folder_states_renamed. split; [by apply list_elem_of_fmap_2|done].
Qed.

End folders.

(** ** The messages *)

(** A revision that may be appended to the history [l] of a message. *)
Record appendable `{Syntax} (repoDID id : string) (old : VerifiedSnapshot) (l : list StateRevision) (e : StateRevision) : Prop := {
  ap_message : rrLogicalMessageID (srRecord e) = id;
  ap_valid : validateRevision repoDID id e old = Ok tt;
  ap_count : llen l < maxRevisionCount;
  ap_bytes : is_ok (revision_bytes e) = true ∧ total_size revision_bytes l + size_of revision_bytes e ≤ maxRevisionInventoryBytes;
  ap_parents : elems (rrParents (srRecord e)) = head_keys (all_parents l) l;
  ap_revision : rrRevision (srRecord e) = meHeight (merge_events (sort_events l)) + 1;
  ap_alive : meTombstone (merge_events (sort_events l)) = false;
  ap_live : live_reference_ok old (merge_event (merge_events (sort_events l)) e)
}.

Section messages.
Context `{Syntax} `{CaseOrbits} (repoDID s s' id : string) (evs : list record_event) (e : StateRevision) (c : OperationClaim).
Definition appended : list record_event := evs ++ [RevisionEvent e; ClaimEvent id (ocRKey c) (srRKey e)].
Hypothesis of_message : rrLogicalMessageID (srRecord e) = id.
Local Abbreviation l := (of_key id (revisions evs)).

Lemma appended_messages : messages appended = messages evs.
Proof. unfold messages, appended. rewrite omap_app. cbn. by rewrite app_nil_r. Qed.
Lemma appended_versions : versions appended = versions evs.
Proof. unfold versions. by rewrite appended_messages. Qed.
Lemma appended_revisions : revisions appended = revisions evs ++ [(id, e)].
Proof. unfold revisions, appended. rewrite omap_app. cbn. by rewrite of_message. Qed.
Lemma appended_claims : claims appended = claims evs ++ [(id, (ocRKey c, srRKey e))].
Proof. unfold claims, appended. by rewrite omap_app. Qed.
Lemma appended_folder_revisions : folder_revisions appended = folder_revisions evs.
Proof. unfold folder_revisions, appended. rewrite omap_app. cbn. by rewrite app_nil_r. Qed.
Lemma appended_folder_claims : folder_claims appended = folder_claims evs.
Proof. unfold folder_claims, appended. rewrite omap_app. cbn. by rewrite app_nil_r. Qed.

Lemma appended_of_key : of_key id (revisions appended) = l ++ [e].
Proof. rewrite appended_revisions, of_key_snoc. by rewrite decide_True. Qed.
Lemma appended_other id' : id' ≠ id → of_key id' (revisions appended) = of_key id' (revisions evs).
Proof. intros Hn. rewrite appended_revisions, of_key_snoc. cbn. by rewrite decide_False, app_nil_r. Qed.
Lemma appended_claims_of_key : map_of (of_key id (claims appended)) = <[ocRKey c := srRKey e]> (map_of (of_key id (claims evs))).
Proof. rewrite appended_claims, of_key_snoc, decide_True by done. apply (map_of_snoc _ (ocRKey c, srRKey e)). Qed.
Lemma appended_claims_other id' : id' ≠ id → of_key id' (claims appended) = of_key id' (claims evs).
Proof. intros Hn. rewrite appended_claims, of_key_snoc. cbn. by rewrite decide_False, app_nil_r. Qed.

Hypothesis paths : NoDup (event_path <$> appended).

Lemma old_paths : NoDup (event_path <$> evs).
Proof. unfold appended in paths. rewrite fmap_app in paths. by apply NoDup_app in paths as [? _]. Qed.
Lemma new_paths e' : e' ∈ [RevisionEvent e; ClaimEvent id (ocRKey c) (srRKey e)] → event_path e' ∉ (event_path <$> evs).
Proof.
  unfold appended in paths. rewrite fmap_app in paths. apply NoDup_app in paths as (_ & Hd & _). intros He Hin.
  apply (Hd _ Hin). by apply list_elem_of_fmap_2.
Qed.

Lemma fresh_revision : srRKey e ∉ (ce_key <$> l).
Proof.
  intros (x & Hk & Hx)%list_elem_of_fmap. apply elem_of_of_key in Hx. apply (new_paths (RevisionEvent e)); [set_solver|].
  unfold revisions in Hx. apply list_elem_of_omap in Hx as (ev & Hev & Hr). destruct ev as [|r| | |]; try done. injection Hr as _ <-.
  apply list_elem_of_fmap. exists (RevisionEvent r). split; [|done]. cbn. by rewrite Hk.
Qed.
Lemma fresh_claim : map_of (of_key id (claims evs)) !! ocRKey c = None.
Proof.
  apply map_of_None. intros ([k v] & Hk & Hx)%list_elem_of_fmap. cbn in Hk. apply (proj1 (elem_of_of_key id _ _)) in Hx.
  apply (new_paths (ClaimEvent id (ocRKey c) (srRKey e))); [set_solver|].
  unfold claims in Hx. apply list_elem_of_omap in Hx as (ev & Hev & Hr). destruct ev as [| |i k' v'| |]; try done. injection Hr as <- <- <-.
  apply list_elem_of_fmap. exists (ClaimEvent i k' v'). split; [|done]. cbn. by rewrite Hk.
Qed.

Hypothesis new_id : validIdentifier s' maxIdentifierBytes = true.
Hypothesis folders : complete_folders repoDID s evs.
Hypothesis messages_complete : complete_messages repoDID s evs.
Hypothesis known : id ∈ (revisions evs).*1.
Hypothesis claim : NewOperationClaim repoDID e = Ok c.
Hypothesis admissible : appendable repoDID id (message_snapshot s evs id) l e.

Lemma old_history id' : id' ∈ (revisions evs).*1 →
  complete_inventory repoDID id' (message_snapshot s evs id') (of_key id' (revisions evs)).
Proof. intros Hid. apply messages_complete. by left. Qed.
Lemma claims_count id' : id' ∈ (revisions evs).*1 →
  msize (map_of (of_key id' (claims evs))) = llen (of_key id' (revisions evs)).
Proof. intros Hid. exact (claims_counted _ _ _ (ci_sealed _ _ _ _ (old_history id' Hid))). Qed.

Lemma appended_extension :
  extension repoDID id (message_snapshot s evs id) (message_snapshot s' appended id) l e.
Proof.
  assert (Hf : folder_references (folder_states s' appended) = folder_references (folder_states s evs))
    by (apply folder_references_renamed; exact appended_folder_revisions).
  pose proof (ci_count _ _ _ _ (old_history id known)) as Hn.
  destruct admissible as [_ Hv Hcount Hbytes Hparents Hrev Halive Hlive]. split; try done.
  - exists c. split; [done|]. split; [exact fresh_claim|]. cbn. exact appended_claims_of_key.
  - cbn. by rewrite appended_versions.
  - assert (Hlen : llen (of_key id (revisions appended)) = llen l + 1) by (rewrite appended_of_key; unfold llen; rewrite length_app; cbn; lia).
    rewrite <- Hlen. apply message_snapshot_valid; [done|rewrite Hlen; lia|]. rewrite Hlen, appended_claims_of_key.
    unfold msize. rewrite map_size_insert_None by exact fresh_claim. pose proof (claims_count id known) as Hc. unfold msize in Hc. lia.
  - exact fresh_revision.
  - rewrite <- Hv. unfold validateRevision, folder_known. cbn [message_snapshot seal_message_snapshot vsVersions vsFolders].
    by rewrite Hf, appended_versions.
  - destruct Hlive as [?|Hlive]; [by left|right]. eapply Forall_impl; [exact Hlive|]. intros f. unfold folder_live.
    cbn [message_snapshot seal_message_snapshot vsFolders]. by rewrite Hf.
Qed.

Lemma messages_carry_over : complete_messages repoDID s' appended.
Proof.
  pose proof appended_extension as Hext. destruct messages_complete as [Heach Hb Href].
  assert (Hf : folder_references (folder_states s' appended) = folder_references (folder_states s evs))
    by (apply folder_references_renamed; exact appended_folder_revisions).
  split.
  - intros id' Hid. destruct (decide (id' = id)) as [->|Hne].
    + rewrite appended_of_key. exact (extension_complete _ _ _ _ _ _ (old_history id known) Hext).
    + assert (Hc : complete_inventory repoDID id' (message_snapshot s evs id') (of_key id' (revisions evs))).
      { apply Heach. rewrite appended_revisions, appended_claims, appended_versions, !fmap_app in Hid. set_solver. }
      rewrite appended_other by done. refine (resealed_inventory _ _ (message_snapshot s evs id') _ _ _ _ _ _ Hc); cbn.
      * by rewrite appended_claims_other.
      * by rewrite appended_versions.
      * exact Hf.
      * rewrite <- (appended_other id') by done. apply message_snapshot_valid; [done|..]; rewrite !appended_other, ?appended_claims_other by done.
        -- apply Hc.
        -- exact (claims_counted _ _ _ (ci_sealed _ _ _ _ Hc)).
  - assert (Hs : llen (message_states s' appended) = llen (message_states s evs)).
    { unfold message_states. rewrite !llen_fmap. unfold sorted_keys. rewrite appended_revisions, fmap_app. cbn.
      unfold llen. rewrite !length_sort_strings. f_equal. apply Permutation_length, NoDup_Permutation; try apply NoDup_remove_dups.
      intros x. rewrite !elem_of_remove_dups, elem_of_app. set_solver. }
    rewrite Hs, (folder_states_renamed s s' evs appended) by exact appended_folder_revisions. rewrite llen_fmap. done.
  - intros m Hm. rewrite appended_messages in Hm. destruct (Href m Hm) as (r & Hr & Ev). exists r. split; [|done].
    rewrite appended_revisions, fmap_app. set_solver.
Qed.

Lemma appended_state : message_of_id s' appended id = reduced_state id (message_snapshot s' appended id) (l ++ [e]).
Proof. unfold message_of_id. by rewrite appended_of_key. Qed.

End messages.
