(* ===== verification/Authority.v ===== *)
(** * What the authority promises about appends

    [AppendState] makes one irreversible write: a revision and its claim.  Here it is shown that a
    mutation the handler and the engine let through never spoils the repository it is written to,
    and takes effect as asked for; that a repeated append is recognised by its stored claim, but
    for one case; and what the engine does not check before it writes. *)
From S2P Require Import Prelude Sha256 GoStd Syntax Unicode Json Time Mailbox Repository Canonical Causal Revision.
From S2P Require Import FolderRevision Decode Ipld Car Url SpacesWire Http Client Snapshot SourceRead Sample Recovery Reduction.
From S2P Require Import Recovered Content Append Extended Engine Handler.

(** ** Checked texts *)

Definition hex_char (c : ascii) : bool := is_some (hex_value c).

Lemma hex_decodable_bytes : ∀ h, hex_decodable h = true → all_bytes hex_char h = true.
Proof.
  fix IH 1. intros [|c [|d t]]; [done|done|]. unfold hex_decodable. cbn [hex_decode all_bytes]. unfold hex_char at 1 2.
  destruct (hex_value c); [|done]. destruct (hex_value d); [|done]. destruct (hex_decode t) eqn:E; [|done]. intros _.
  cbn [is_some andb]. apply IH. unfold hex_decodable. by rewrite E.
Qed.
Lemma hex_char_plain c : hex_char c = true → (N_of_ascii c <? 0x80) = true ∧ has_byte c blank_chars = false.
Proof. each_byte c. Qed.

(** A digest in lower-case hexadecimal after a prefix. *)
Lemma prefixed_digest v pre : validPrefixedSHA256 v pre = true →
  ∃ h, v = pre +:+ h ∧ hex_decodable h = true ∧ len h = 64 ∧ h = ToLower h.
Proof.
  unfold validPrefixedSHA256, validRawSHA256. intros Hv. bools. match goal with E : HasPrefix _ _ = true |- _ => apply HasPrefix_spec in E as [h ->] end.
  rewrite TrimPrefix_app in *. by exists h.
Qed.

Lemma prefixed_identifier v pre : validPrefixedSHA256 v pre = true → len pre ≤ 400 → String.eqb pre "" = false →
  all_bytes (λ c, N_of_ascii c <? 0x80) pre = true → ContainsAny pre blank_chars = false → validIdentifier v maxIdentifierBytes = true.
Proof.
  intros (h & -> & Hh & Hl & _)%prefixed_digest Hp Hn Ha Hb. apply hex_decodable_bytes in Hh.
  assert (Hu : utf8_valid (pre +:+ h) = true).
  { apply ascii_utf8. rewrite all_bytes_app, Ha. eapply all_bytes_impl; [|exact Hh]. intros c Hc. by apply hex_char_plain. }
  assert (Hc : ContainsAny (pre +:+ h) blank_chars = false).
  { rewrite ContainsAny_app, Hb. unfold ContainsAny. apply negb_false_iff. eapply all_bytes_impl; [|exact Hh].
    intros c Hc. apply negb_true_iff. by apply hex_char_plain. }
  unfold validIdentifier. rewrite Hu, Hc, len_app, Hl. rewrite (proj2 (N.leb_le _ _)) by (unfold maxIdentifierBytes; lia).
  by destruct pre.
Qed.
Lemma prefixed_sha v : validPrefixedSHA256 v "sha256-" = true → validSHA256Identifier v = true.
Proof.
  intros (h & -> & Hh & Hl & Hlow)%prefixed_digest. unfold validSHA256Identifier. rewrite HasPrefix_app, TrimPrefix_app, len_app, Hl, Hh.
  by rewrite <- Hlow, String.eqb_refl.
Qed.
Lemma prefixed_state v : validPrefixedSHA256 v "state-" = true → validStateRKey v = true.
Proof. intros (h & -> & Hh & Hl & _)%prefixed_digest. unfold validStateRKey. by rewrite HasPrefix_app, TrimPrefix_app, len_app, Hl, Hh. Qed.
Lemma prefixed_folder v : validPrefixedSHA256 v "folder-" = true → validFolderID v = true.
Proof.
  intros (h & -> & Hh & Hl & Hlow)%prefixed_digest. unfold validFolderID. rewrite HasPrefix_app, TrimPrefix_app, len_app, Hl, Hh.
  by rewrite <- Hlow, String.eqb_refl.
Qed.
Lemma state_identifier v : validPrefixedSHA256 v "state-" = true → validIdentifier v maxIdentifierBytes = true.
Proof. intros Hv. by apply (prefixed_identifier v "state-"). Qed.
Lemma folder_identifier v : validPrefixedSHA256 v "folder-" = true → validIdentifier v maxIdentifierBytes = true.
Proof. intros Hv. by apply (prefixed_identifier v "folder-"). Qed.
Lemma digest_prefixed b pre : validPrefixedSHA256 (pre +:+ hex_encode (sha256 b)) pre = true.
Proof.
  unfold validPrefixedSHA256, validRawSHA256. rewrite HasPrefix_app, TrimPrefix_app, hex_decodable_encode, len_hex_sha256, hex_encode_lower.
  by rewrite String.eqb_refl.
Qed.

(** Sorted lists without repetition. *)
Lemma sorted_unique_canonical validate p l : sorted_unique_after validate p l = true →
  (∀ v, validate v = true → validIdentifier v maxIdentifierBytes = true) → strictly_sorted_after p l = true.
Proof.
  intros Hs Hv. revert p Hs. induction l as [|x l IH]; intros p Hs; [done|]. cbn in *. bools. rewrite Hv, IH by done.
  match goal with E : match p with Some _ => _ | None => _ end = true |- _ => by rewrite E end.
Qed.
Lemma sorted_unique_all validate p l : sorted_unique_after validate p l = true → Forall (λ v, validate v = true) l.
Proof. revert p. induction l as [|x l IH]; intros p Hs; [constructor|]. cbn in Hs. bools. constructor; [done|by eapply IH]. Qed.
Lemma sorted_unique_lt validate p l : sorted_unique_after validate (Some p) l = true → Forall (str_lt p) l ∧ StronglySorted str_lt l.
Proof.
  revert p. induction l as [|x l IH]; intros p Hs; [split; constructor|]. cbn in Hs. bools. destruct (IH x) as [Hx Hl]; [done|].
  assert (Hpx : str_lt p x) by (bools; done).
  split; [|by constructor]. constructor; [done|]. eapply Forall_impl; [exact Hx|]. intros y Hy. exact (str_lt_trans p x y Hpx Hy).
Qed.
Lemma sorted_unique_sorted validate l : validSortedUnique l validate = true → StronglySorted str_lt l.
Proof. destruct l as [|x l]; [constructor|]. unfold validSortedUnique. cbn. intros Hs. bools. constructor; by eapply sorted_unique_lt. Qed.

Lemma strict_nodup l : StronglySorted str_lt l → NoDup l.
Proof.
  induction 1 as [|x l _ IH Hx]; constructor; [|done]. intros Hin. rewrite Forall_forall in Hx. by apply (str_lt_irrefl x), Hx.
Qed.
Lemma strict_le l : StronglySorted str_lt l → StronglySorted str_le l.
Proof. induction 1 as [|x l _ IH Hx]; constructor; [done|]. eapply Forall_impl; [exact Hx|]. intros y Hy. apply str_le_lt. by left. Qed.
Lemma le_strict l : StronglySorted str_le l → NoDup l → StronglySorted str_lt l.
Proof.
  induction 1 as [|x l _ IH Hx]; intros Hn; [constructor|]. apply NoDup_cons in Hn as [Hnx Hn]. constructor; [by apply IH|].
  rewrite Forall_forall in *. intros y Hy. destruct (proj1 (str_le_lt x y) (Hx y Hy)) as [|<-]; done.
Qed.

(** ** Keywords *)

Section keywords.
Context (current desired : list string).
Local Abbreviation wanted :=
  (fold_left (λ m k, <[k := true]> m) desired (fold_left (λ m k, <[k := false]> m) current (∅ : gmap string bool))).

Lemma fold_insert_lookup (b : bool) l (m : gmap string bool) k :
  fold_left (λ m k, <[k := b]> m) l m !! k = if bool_decide (k ∈ l) then Some b else m !! k.
Proof.
  revert m. induction l as [|x l IH]; intros m; cbn [fold_left]; [done|]. rewrite IH.
  destruct (decide (k ∈ l)) as [Hl|Hl].
  - rewrite !bool_decide_true by set_solver. done.
  - rewrite bool_decide_false by done. destruct (decide (x = k)) as [<-|Hn].
    + rewrite lookup_insert_eq, bool_decide_true by set_solver. done.
    + rewrite lookup_insert_ne, bool_decide_false by set_solver. done.
Qed.
Lemma wanted_lookup k : wanted !! k =
  if bool_decide (k ∈ desired) then Some true else if bool_decide (k ∈ current) then Some false else None.
Proof. rewrite !fold_insert_lookup. done. Qed.

Lemma assignment_names : kaName <$> keywordAssignments current desired = sortedMapKeys wanted.
Proof. unfold keywordAssignments. rewrite List.map_map. cbn. apply List.map_id. Qed.
Lemma assignment_strict : StronglySorted str_lt (kaName <$> keywordAssignments current desired).
Proof.
  rewrite assignment_names. apply le_strict; [apply sort_strings_sorted|]. unfold sortedMapKeys. rewrite sort_strings_perm.
  apply NoDup_fst_map_to_list.
Qed.
Lemma elem_of_assignments k b : MkKeywordAssignment k b ∈ keywordAssignments current desired ↔ wanted !! k = Some b.
Proof.
  unfold keywordAssignments. rewrite list_elem_of_In, in_map_iff. setoid_rewrite <- list_elem_of_In.
  unfold sortedMapKeys. setoid_rewrite elem_of_sort_strings. split.
  - intros (x & [= -> <-] & ([y c] & -> & Hx)%list_elem_of_fmap). apply elem_of_map_to_list in Hx. cbn. by rewrite Hx.
  - intros Hk. exists k. split; [cbn; by rewrite Hk|]. apply list_elem_of_fmap. exists (k, b). split; [done|]. by apply elem_of_map_to_list.
Qed.

(** Assigning them to a map in which [current] is present leaves exactly [desired] present. *)
Lemma assigned_keywords m : present_keywords m = current → StronglySorted str_lt desired →
  present_keywords (assign_all m (keywordAssignments current desired)) = desired.
Proof.
  intros Hm Hd. pose proof (strict_nodup _ assignment_strict) as Hnd. unfold present_keywords.
  symmetry. apply sort_strings_unique; [by apply strict_le|]. apply NoDup_Permutation; [by apply strict_nodup|apply NoDup_fst_map_to_list|].
  intros k. rewrite <- (elem_of_sort_strings k (map_to_list _).*1).
  change (k ∈ desired ↔ k ∈ present_keywords (assign_all m (keywordAssignments current desired))). rewrite elem_of_present_keywords. destruct (decide (is_Some (wanted !! k))) as [[b Hb]|Hn].
  - rewrite (assign_all_in m _ k b) by (done || by apply elem_of_assignments). rewrite wanted_lookup in Hb.
    destruct (bool_decide_reflect (k ∈ desired)); [naive_solver|]. by case_bool_decide; simplify_eq.
  - rewrite assign_all_other.
    + rewrite <- elem_of_present_keywords, Hm. rewrite wanted_lookup in Hn. do 2 (case_bool_decide; [destruct Hn; by eexists|]). done.
    + intros ([k' b] & -> & Hin)%list_elem_of_fmap. apply elem_of_assignments in Hin. destruct Hn. by eexists.
Qed.

Lemma canonical_assignments p ks : StronglySorted str_lt (p :: (kaName <$> ks)) → Forall (λ k, validText (kaName k) 255 = true) ks →
  keywords_canonical p ks = true.
Proof.
  revert p. induction ks as [|k ks IH]; intros p Hs Hv; [done|]. cbn in *. inversion_clear Hs as [|? ? Hs' Hp]. inversion_clear Hv as [|? ? Hk Hks].
  inversion_clear Hp as [|? ? Hpk _]. rewrite Hk, bool_decide_true, IH; done.
Qed.
Lemma assignments_canonical : Forall (λ k, validText k 255 = true) current → Forall (λ k, validText k 255 = true) desired →
  keywords_canonical "" (keywordAssignments current desired) = true.
Proof.
  intros Hc Hd. assert (Hv : Forall (λ k, validText (kaName k) 255 = true) (keywordAssignments current desired)).
  { rewrite Forall_forall in Hc. rewrite Forall_forall in Hd. apply Forall_forall. intros [k b] Hk. cbn. apply elem_of_assignments in Hk. rewrite wanted_lookup in Hk.
    do 2 (case_bool_decide; [auto|]). done. }
  apply canonical_assignments; [|done]. constructor; [exact assignment_strict|]. apply Forall_fmap. eapply Forall_impl; [exact Hv|].
  intros [k b] Hk. cbn in *. unfold validText in Hk. bools. unfold str_lt. by destruct k.
Qed.

End keywords.

(** ** The record on the wire *)

(** A record is stored without an empty list of keywords. *)
Definition stored_keywords (keywords : slice KeywordAssignment) : slice KeywordAssignment :=
  match keywords with Some [] => None | _ => keywords end.
Definition stored (r : RevisionRecord) : RevisionRecord :=
  MkRevisionRecord (rrType r) (rrLogicalMessageID r) (rrOperationID r) (rrParents r) (rrRevision r) (rrVersion r)
    (rrMailboxIDs r) (stored_keywords (rrKeywords r)) (rrDeletePending r) (rrTombstone r) (rrMerge r) (rrCreatedAt r).

Lemma stored_elems s : elems (stored_keywords s) = elems s.
Proof. by destruct s as [[|]|]. Qed.
Lemma stored_bytes r : CanonicalRevisionBytes (stored r) = CanonicalRevisionBytes r.
Proof. destruct r as [? ? ? ? ? ? ? [[|]|] ? ? ? ?]; reflexivity. Qed.
Lemma stored_json r : revision_json (stored r) = revision_json r.
Proof. destruct r as [? ? ? ? ? ? ? [[|]|] ? ? ? ?]; reflexivity. Qed.
Lemma stored_key `{Syntax} repoDID r : StateRevisionRKey repoDID (stored r) = StateRevisionRKey repoDID r.
Proof. unfold StateRevisionRKey. by rewrite stored_bytes. Qed.
Lemma stored_claim_of `{Syntax} repoDID k r :
  NewOperationClaim repoDID (MkStateRevision k (stored r)) = NewOperationClaim repoDID (MkStateRevision k r).
Proof. unfold NewOperationClaim. cbn [srRecord]. rewrite stored_key. done. Qed.

(** What [json.Marshal] wrote is read back as the stored record, when it is not too long. *)
Lemma stored_decodes `{Syntax} `{CaseOrbits} repoDID r k : StateRevisionRKey repoDID r = Ok k →
  rrRevision r < 2 ^ 64 → rrMailboxIDs r ≠ Some [] →
  Forall valid_text [rrType r; rrLogicalMessageID r; rrOperationID r; rrVersion r; rrCreatedAt r] →
  len (print (revision_json r)) ≤ maxRevisionRecordBytes →
  DecodeRevisionRecord (print (revision_json r)) = Ok (stored r).
Proof.
  intros Hk Hrev Hm Ht Hlen. unfold StateRevisionRKey in Hk.
  match type of Hk with (if ?b then _ else _) = _ => destruct b; [done|] end.
  destruct (CanonicalRevisionBytes r) as [b|] eqn:Hb; [|done]. apply CanonicalRevisionBytes_ok in Hb as (_ & Hfits & _).
  rewrite <- stored_json. apply revision_decodes. split.
  - split; [done|done|]. cbn. by destruct (rrKeywords r) as [[|]|].
  - split; cbn; rewrite ?app_nil_r, ?stored_elems; [done|..|done].
    + eapply Forall_impl; [exact (proj2 (fits_parents _ Hfits))|]. by intros v [_ ?].
    + eapply Forall_impl; [exact (proj2 (fits_mailboxes _ Hfits))|]. by intros v [_ ?].
    + pose proof (proj2 (fits_keywords _ Hfits)) as Hkw. rewrite <- stored_elems in Hkw. eapply Forall_impl; [exact Hkw|]. by intros v [_ ?].
  - by rewrite stored_json.
Qed.

(** ** A revision that is valid *)

Section valid.
Context `{Syntax} (repoDID id : string) (e : StateRevision) (inventory : VerifiedSnapshot).
Local Abbreviation record := (srRecord e).

Record revision_admissible (ps : list string) : Prop := {
  ra_type : rrType record = MessageStateRevisionCollection;
  ra_message : rrLogicalMessageID record = id;
  ra_key : StateRevisionRKey repoDID record = Ok (srRKey e);
  ra_parents : rrParents record = Some ps;
  ra_heads : validHeadSet ps "state-" = true;
  ra_fresh : srRKey e ∉ ps;
  ra_revision : 1 ≤ rrRevision record ≤ maxPortableRevision;
  ra_created : parse_RFC3339Nano (rrCreatedAt record) = true;
  ra_version : rrVersion record = "" ∨
    validSHA256Identifier (rrVersion record) = true ∧ vsVersions inventory !! rrVersion record = Some id;
  ra_mailboxes ids : rrMailboxIDs record = Some ids → ids ≠ [] ∧ llen ids ≤ maxMailboxes ∧
    validSortedUnique ids (λ v, validPrefixedSHA256 v "folder-") = true ∧ Forall (λ f, folder_known inventory f = true) ids;
  ra_keywords : keywords_canonical "" (elems (rrKeywords record)) = true;
  ra_tombstone : rrTombstone record = negb (hasLiveAssignments record);
  ra_merge : rrMerge record = false
}.

Lemma llen_some {A} (l : list A) : l ≠ [] → (llen l =? 0) = false.
Proof. destruct l; [done|]. intros _. apply N.eqb_neq. unfold llen. cbn. lia. Qed.

Lemma admissible_valid ps : revision_admissible ps → validateRevision repoDID id e inventory = Ok tt.
Proof.
  intros [Ht Hm Hk Hp Hh Hf Hr Hc Hv Hb Hw Htomb Hmerge]. unfold validateRevision.
  pose proof (StateRevisionRKey_ok _ _ _ Hk) as (_ & _ & Hop & Hbytes & _).
  apply CanonicalRevisionBytes_ok in Hbytes as (_ & Hfits & _).
  unfold validHeadSet in Hh. bools. match goal with E : validSortedUnique ps _ = true |- _ => rename E into Hs end.
  rewrite Ht, Hm, Hk, !String.eqb_refl, bool_decide_true, Hop, Hp by done. cbn [negb orb is_nil].
  change (elems (Some ps)) with ps. rewrite (proj2 (N.eqb_neq (rrRevision record) 0)) by lia.
  rewrite (proj2 (N.ltb_ge maxPortableRevision _)), (proj2 (N.ltb_ge maxParents _)) by (unfold maxParents; lia). cbn [orb]. rewrite Hc. cbn [negb].
  assert (Hsorted : strictlySortedUnique ps = true).
  { eapply sorted_unique_canonical; [exact Hs|]. exact state_identifier. }
  rewrite Hsorted. cbn [negb]. rewrite (proj2 (range_check_ok _ ps)).
  2: { rewrite Forall_forall. intros p Hx. pose proof (sorted_unique_all _ _ _ Hs) as Hall. rewrite Forall_forall in Hall.
       rewrite prefixed_state by by apply Hall. cbn [negb orb]. destruct (String.eqb_spec p (srRKey e)) as [->|]; done. }
  cbn [result_bind]. assert (Hver : (if negb (String.eqb (rrVersion record) "") then
      (if negb (validSHA256Identifier (rrVersion record)) then Err ErrInvalidRevision
       else if negb (bool_decide (vsVersions inventory !! rrVersion record = Some id)) then Err ErrInvalidReference else Ok tt)
      else Ok tt) = Ok tt).
  { destruct Hv as [->|[Hv1 Hv2]]; [done|]. rewrite Hv1, bool_decide_true by done. by destruct (String.eqb _ _). }
  rewrite Hver. cbn [result_bind].
  match goal with |- result_bind ?x _ = _ => assert (x = Ok tt) as -> end.
  { destruct (rrMailboxIDs record) as [ids|]; [|done]. destruct (Hb ids eq_refl) as (Hn & Hl & Hsu & Hknown).
    rewrite llen_some, (proj2 (N.ltb_ge _ _)) by done. cbn [orb].
    assert (strictlySortedUnique ids = true) as ->.
    { eapply sorted_unique_canonical; [exact Hsu|]. exact folder_identifier. }
    cbn [negb]. apply range_check_ok. pose proof (sorted_unique_all _ _ _ Hsu) as Hall. rewrite Forall_forall in Hall.
    rewrite Forall_forall in Hknown. apply Forall_forall. intros f Hx. by rewrite prefixed_folder, Hknown by auto. }
  cbn [result_bind]. rewrite (proj2 (N.ltb_ge _ _)) by exact (proj1 (fits_keywords _ Hfits)). rewrite Hw, Htomb, Hmerge.
  by destruct (hasLiveAssignments record).
Qed.

End valid.

(** ** A snapshot and the repository it was read from *)

(** The snapshot shows the folders, states and versions of the records [evs]. *)
Record describes `{Syntax} (s : string) (evs : list record_event) (current : v3.Snapshot) : Prop := {
  ds_id : v3.sSnapshotID current = s;
  ds_folders : v3.sFolders current ≡ₚ folder_states s evs;
  ds_states : v3.sStates current ≡ₚ message_states s evs;
  ds_messages : (λ v, (v3.vRKey v, v3.vLogicalMessageID v)) <$> v3.sMessages current ≡ₚ owner_entry <$> messages evs
}.

Lemma keywords_canonical_text p ks : keywords_canonical p ks = true → Forall (λ k, validText (kaName k) 255 = true) ks.
Proof. revert p. induction ks as [|k ks IH]; intros p Hk; [constructor|]. cbn in Hk. bools. constructor; [done|by eapply IH]. Qed.

Lemma available_folder folders (m : gmap string bool) f b :
  fold_left (λ m folder, <[rfFolderID folder := negb (rfTombstone folder)]> m) folders m !! f = Some b →
  m !! f = Some b ∨ ∃ folder, folder ∈ folders ∧ rfFolderID folder = f ∧ b = negb (rfTombstone folder).
Proof.
  revert m. induction folders as [|x folders IH]; intros m Hf; [by left|]. cbn [fold_left] in Hf. apply IH in Hf as [Hf|(y & ? & ? & ?)].
  - destruct (decide (rfFolderID x = f)) as [<-|Hn].
    + rewrite lookup_insert_eq in Hf. right. exists x. injection Hf as <-. set_solver.
    + rewrite lookup_insert_ne in Hf by done. by left.
  - right. exists y. set_solver.
Qed.

Section read.
Context `{Syntax} `{CaseOrbits} (repoDID s : string) (evs : list record_event) (current : v3.Snapshot).
Hypothesis paths : NoDup (event_path <$> evs).
Hypothesis folders : complete_folders repoDID s evs.
Hypothesis complete : complete_messages repoDID s evs.
Hypothesis shown : describes s evs current.

Lemma shown_state id st : findState current id = Some st → id ∈ (revisions evs).*1 ∧ st = message_of_id s evs id.
Proof.
  intros (Hin & Hid)%List.find_some. apply String.eqb_eq in Hid. apply list_elem_of_In in Hin. rewrite (ds_states _ _ _ shown) in Hin.
  unfold message_states in Hin. apply list_elem_of_fmap in Hin as (id' & -> & Hin). apply elem_of_sorted_keys in Hin.
  change (id' = id) in Hid. by subst.
Qed.

Lemma shown_version rkey v : findVersion current rkey = Some v →
  vsVersions (message_snapshot s evs (v3.vLogicalMessageID v)) !! rkey = Some (v3.vLogicalMessageID v).
Proof.
  intros (Hin & Hid)%List.find_some. apply String.eqb_eq in Hid. apply list_elem_of_In in Hin.
  assert (Hp : (v3.vRKey v, v3.vLogicalMessageID v) ∈ owner_entry <$> messages evs).
  { rewrite <- (ds_messages _ _ _ shown). exact (list_elem_of_fmap_2 (λ v, (v3.vRKey v, v3.vLogicalMessageID v)) _ _ Hin). }
  apply list_elem_of_fmap in Hp as (mv & Hmv & Hin'). injection Hmv as Hk Hl.
  apply elem_of_versions; [done|]. split; [done|]. exists mv. by rewrite <- Hl, <- Hk.
Qed.

Lemma shown_live ids id : liveFolderSet (v3.sFolders current) ids = true →
  ids ≠ [] ∧ Forall (λ f, folder_live (message_snapshot s evs id) f = true) ids ∧
  Forall (λ f, folder_known (message_snapshot s evs id) f = true) ids.
Proof.
  unfold liveFolderSet. intros Hl. apply andb_true_iff in Hl as [Hn Hl].
  assert (Hlive : ∀ f, f ∈ ids → folder_live (message_snapshot s evs id) f = true).
  { intros f Hf. rewrite forallb_forall in Hl. specialize (Hl f (proj1 (list_elem_of_In _ _) Hf)).
    destruct (_ !! f) as [b|] eqn:Ea in Hl; [|done]. cbn in Hl. subst b.
    apply available_folder in Ea as [Ea|(folder & Hin & Hk & Ht)]; [by rewrite lookup_empty in Ea|].
    rewrite (ds_folders _ _ _ shown) in Hin. pose proof (fs_set _ _ _ folders) as Hset.
    pose proof (fz_folders _ _ _ Hset) as Hok. rewrite Forall_forall in Hok. pose proof (fo_digest _ _ _ (Hok folder Hin)) as Hd.
    assert (Href : folder_references (folder_states s evs) !! f = Some (MkFolderReference (rfStateDigest folder) (rfTombstone folder))).
    { unfold folder_references. apply map_of_Some; [rewrite <- list_fmap_compose; exact (fz_ids _ _ _ Hset)|].
      apply list_elem_of_fmap. exists folder. by rewrite Hk. }
    unfold folder_live. cbn [message_snapshot seal_message_snapshot vsFolders]. rewrite Href. cbn [frTombstone frStateDigest].
    rewrite Hd, <- Ht. apply digestBytes_valid. }
  split_and!.
  - intros ->. done.
  - by apply Forall_forall.
  - apply Forall_forall. intros f Hf. specialize (Hlive f Hf). unfold folder_live, folder_known in *. destruct (_ !! f); [|done]. by bools.
Qed.

Lemma shown_keywords id : id ∈ (revisions evs).*1 →
  Forall (λ k, validText k 255 = true) (present_keywords (meKeywords (merge_events (sort_events (of_key id (revisions evs)))))).
Proof.
  intros Hid. pose proof (ms_each _ _ _ complete id (or_introl Hid)) as Hc. apply Forall_forall. intros k Hk.
  apply elem_of_present_keywords, (keyword_register _ _ _ _ Hc) in Hk as (w & (Hw & _ & _) & Hin).
  pose proof (ev_keywords _ _ _ (complete_events_wf _ _ _ _ Hc w Hw)) as Hkw. apply keywords_canonical_text in Hkw.
  rewrite Forall_forall in Hkw. exact (Hkw _ Hin).
Qed.

End read.

(** ** A mutation that is let through *)

Section mutation.
Context `{Syntax} `{CaseOrbits} (repoDID s : string) (evs : list record_event) (current : v3.Snapshot).
Context (m : v3.StateMutation) (st : v3.MessageState) (now : time).
Local Abbreviation id := (v3.mLogicalMessageID m).
Local Abbreviation l := (of_key (v3.mLogicalMessageID m) (revisions evs)).
Local Abbreviation record := (mutation_record st m now).
Local Abbreviation merged := (merge_events (sort_events (of_key (v3.mLogicalMessageID m) (revisions evs)))).
Hypothesis paths : NoDup (event_path <$> evs).
Hypothesis folders : complete_folders repoDID s evs.
Hypothesis complete : complete_messages repoDID s evs.
Hypothesis shown : describes s evs current.
Hypothesis valid : validMutation m = true.
Hypothesis admitted : admit_mutation current m = Ok st.

(** What the engine has compared. *)
Record admission : Prop := {
  ad_known : id ∈ (revisions evs).*1;
  ad_state : st = message_of_id s evs id;
  ad_heads : head_keys (all_parents l) l = v3.mExpectedHeads m;
  ad_height : meHeight merged = v3.mExpectedHeight m;
  ad_count : Z.of_N (llen l) = v3.mExpectedRevisionCount m;
  ad_alive : meTombstone merged = false;
  ad_snapshot : v3.mSnapshotID m = s;
  ad_tombstone : v3.mTombstone m = true → v3.mVersion m = meVersion merged ∧ v3.mMailboxIDs m = meMailboxIDs merged ∧
    v3.mKeywords m = present_keywords (meKeywords merged) ∧ v3.mDeletePending m = false;
  ad_live : v3.mTombstone m = false → vsVersions (message_snapshot s evs id) !! v3.mVersion m = Some id ∧
    v3.mMailboxIDs m ≠ [] ∧ Forall (λ f, folder_live (message_snapshot s evs id) f = true) (v3.mMailboxIDs m) ∧
    Forall (λ f, folder_known (message_snapshot s evs id) f = true) (v3.mMailboxIDs m)
}.

Lemma admission_facts : admission.
Proof.
  unfold admit_mutation in admitted. destruct (findState current id) as [st'|] eqn:Ef; [|done]. cbn [opt_result result_bind] in admitted.
  apply (shown_state _ _ _ shown) in Ef as [Hk Hst]. result_steps. bools. unfold equalStrings in *. bools.
  split; try done.
  - by apply Z.eqb_eq.
  - intros Ht. rewrite Ht in *. cbn [andb] in *. bools. done.
  - intros Ht. rewrite Ht in *. cbn [andb negb] in *. bools.
    destruct (findVersion current _) as [v|] eqn:Ev; [|done]. apply (shown_version _ _ _ paths shown) in Ev. bools.
    match goal with E : v3.vLogicalMessageID v = _ |- _ => rewrite E in Ev end. split; [done|].
    by eapply shown_live.
Qed.

(** The parts of [validMutation] that matter for the record. *)
Record mutation_checked : Prop := {
  mc_version : validSHA256Identifier (v3.mVersion m) = true;
  mc_heads : validHeadSet (v3.mExpectedHeads m) "state-" = true;
  mc_height : 1 ≤ v3.mExpectedHeight m < maxStateRevisions;
  mc_count : (v3.mExpectedRevisionCount m < Z.of_N maxStateRevisions)%Z;
  mc_mailboxes : llen (v3.mMailboxIDs m) ≤ maxStateMailboxIDs ∧
    validSortedUnique (v3.mMailboxIDs m) (λ v, validPrefixedSHA256 v "folder-") = true;
  mc_keywords : Forall (λ k, validText k 255 = true) (v3.mKeywords m) ∧ StronglySorted str_lt (v3.mKeywords m)
}.
Lemma mutation_checks : mutation_checked.
Proof.
  unfold validMutation in valid. bools.
  match goal with E : validSortedUnique (v3.mKeywords m) _ = true |- _ => rename E into Hkw end.
  repeat match goal with E : Z.ltb _ _ = true |- _ => apply Z.ltb_lt in E | E : Z.leb _ _ = true |- _ => apply Z.leb_le in E end.
  split; try done.
  - by apply prefixed_sha.
  - split; [lia|]. unfold maxStateRevisions in *. rewrite Z.mod_small in * by lia. lia.
  - split; [exact (sorted_unique_all _ _ _ Hkw)|exact (sorted_unique_sorted _ _ Hkw)].
Qed.

(** *** The revision it becomes *)

Context (k : string).
Local Abbreviation e := (MkStateRevision k (stored record)).
Hypothesis keyed : StateRevisionRKey repoDID record = Ok k.
Hypothesis clock : parse_RFC3339Nano (format_RFC3339Nano now) = true.
Hypothesis fresh : k ∉ (ce_key <$> l).

Lemma next_height : rrRevision record = v3.mExpectedHeight m + 1.
Proof. pose proof (mc_height mutation_checks) as Hh. unfold maxStateRevisions in Hh. apply N.mod_small. lia. Qed.
Lemma mutation_parents : rrParents record = Some (v3.mExpectedHeads m).
Proof.
  pose proof (mc_heads mutation_checks) as Hh. unfold validHeadSet in Hh. bools. cbn. unfold copy_slice.
  destruct (v3.mExpectedHeads m); [|done]. by match goal with E : 0 < llen [] |- _ => vm_compute in E end.
Qed.
Lemma mutation_mailboxes : v3.mTombstone m = false → rrMailboxIDs record = Some (v3.mMailboxIDs m) ∧ v3.mMailboxIDs m ≠ [].
Proof.
  intros Ht. destruct (ad_live admission_facts Ht) as (_ & Hn & _). cbn. rewrite Ht. cbn [negb]. split; [|done].
  unfold copy_slice. by destruct (v3.mMailboxIDs m).
Qed.

Lemma mutation_live : hasLiveAssignments (stored record) = negb (v3.mTombstone m).
Proof.
  unfold hasLiveAssignments, stored. cbn [rrVersion rrMailboxIDs rrKeywords rrDeletePending mutation_record].
  destruct (v3.mTombstone m); cbn [negb stored_keywords]; [reflexivity|]. by rewrite orb_true_r.
Qed.

Lemma mutation_admissible :
  revision_admissible repoDID id e (message_snapshot s evs id) (v3.mExpectedHeads m).
Proof.
  pose proof admission_facts as Had. pose proof mutation_checks as Hc. pose proof next_height as Hn.
  pose proof (mc_height Hc) as Hh. unfold maxStateRevisions in Hh.
  split; cbn [srRecord srRKey]; [done|done|rewrite stored_key; exact keyed|exact mutation_parents|..|done].
  - exact (mc_heads Hc).
  - intros Hin. apply fresh. rewrite <- (ad_heads Had) in Hin. unfold head_keys in Hin. rewrite elem_of_sort_strings in Hin.
    by apply list_elem_of_filter in Hin as [_ ?].
  - change (rrRevision (stored record)) with (rrRevision record). rewrite Hn. unfold maxPortableRevision. lia.
  - exact clock.
  - cbn. destruct (v3.mTombstone m) eqn:Ht; [by left|right]. cbn [negb]. split; [exact (mc_version Hc)|]. by apply (ad_live Had).
  - intros ids. change (rrMailboxIDs (stored record)) with (rrMailboxIDs record). destruct (v3.mTombstone m) eqn:Ht.
    + cbn. by rewrite Ht.
    + rewrite (proj1 (mutation_mailboxes Ht)). intros [= <-]. destruct (ad_live Had Ht) as (_ & Hne & _ & Hknown).
      destruct (mc_mailboxes Hc) as [Hl Hs]. done.
  - cbn [stored rrKeywords]. rewrite stored_elems. cbn. destruct (v3.mTombstone m); [done|]. cbn [negb elems from_option default].
    apply assignments_canonical; [|exact (proj1 (mc_keywords Hc))]. rewrite (ad_state Had).
    exact (shown_keywords _ _ _ complete _ (ad_known Had)).
  - rewrite mutation_live. cbn. by rewrite negb_involutive.
Qed.

(** The message after it. *)
Lemma mutation_merge : let merged' := merge_event merged e in
  meVersion merged' = v3.mVersion m ∧ meMailboxIDs merged' = v3.mMailboxIDs m ∧
  present_keywords (meKeywords merged') = v3.mKeywords m ∧ meTombstone merged' = v3.mTombstone m ∧
  (if meTombstone merged' then false else meDeletePending merged') = v3.mDeletePending m.
Proof.
  pose proof admission_facts as Had. pose proof mutation_checks as Hc. cbn zeta. unfold merge_event. cbn [srRecord meVersion
    meMailboxIDs meKeywords meTombstone meDeletePending]. rewrite (ad_alive Had). cbn [orb].
  change (rrTombstone (stored record)) with (v3.mTombstone m). cbn [stored rrKeywords rrVersion rrMailboxIDs rrDeletePending].
  rewrite stored_elems. destruct (v3.mTombstone m) eqn:Ht.
  - cbn. rewrite Ht. cbn. destruct (ad_tombstone Had Ht) as (-> & -> & -> & ->). done.
  - change (rrMailboxIDs record) with (rrMailboxIDs record). rewrite (proj1 (mutation_mailboxes Ht)). cbn. rewrite Ht. cbn.
    destruct (String.eqb_spec (v3.mVersion m) "") as [Ev|_].
    { pose proof (mc_version Hc) as Hv. by rewrite Ev in Hv. }
    split_and!; try done. rewrite (ad_state Had). apply assigned_keywords; [done|apply (mc_keywords Hc)].
Qed.

Lemma mutation_appendable : is_ok (revision_bytes e) = true ∧
    total_size revision_bytes l + size_of revision_bytes e ≤ maxRevisionInventoryBytes →
  appendable repoDID id (message_snapshot s evs id) l e.
Proof.
  intros Hbytes. pose proof admission_facts as Had. pose proof mutation_checks as Hc. pose proof (mc_count Hc) as Hn.
  rewrite <- (ad_count Had) in Hn. unfold maxStateRevisions in Hn. split; try done.
  - exact (admissible_valid _ _ _ _ _ mutation_admissible).
  - unfold maxRevisionCount. lia.
  - cbn [srRecord stored rrParents]. rewrite mutation_parents. cbn. by rewrite (ad_heads Had).
  - cbn [srRecord stored rrRevision]. rewrite next_height, (ad_height Had). done.
  - exact (ad_alive Had).
  - destruct mutation_merge as (_ & Hids & _ & Ht & _). unfold live_reference_ok. rewrite Hids, Ht.
    destruct (v3.mTombstone m) eqn:Et; [by left|right]. by apply (ad_live Had).
Qed.

End mutation.

(** ** Digests

    The handler computes every digest again; it computes the same. *)

Lemma heads_digest_agrees domain heads : headsDigest domain heads = digestStringList domain heads.
Proof. reflexivity. Qed.
Lemma state_digest_agrees st : messageStateDigest st = digestReducedState st.
Proof. destruct st as [? ? ? ? ? [] [] ? ? ? ? ?]; reflexivity. Qed.
Lemma folder_digest_agrees st : folderStateDigest st = digestReducedFolderState st.
Proof. destruct st as [? ? ? ? [] ? ? ? ? ?]; reflexivity. Qed.

(** ** The repository after the batch *)

Section batch.
Context `{Syntax} `{Ipld} `{CaseOrbits}.

(** A provider keeps a created record if what it stores reads back like the text it was given. *)
Definition keeps {A} (decode : string → result A) (create : Create_) (r : SourceRecord) : Prop :=
  validateOfficialSourceRecord r = Ok tt ∧ soCollection r = crCollection create ∧ soRKey r = crRKey create ∧
  ∃ text n, officialRecordJSON (soValue r) = Ok (text, n) ∧ decode text = decode (crValue create).

(** The repository after a batch of a revision and its claim: those two records more, under a
    new snapshot identity. *)
Record batch_stored (input input' : officialSpacesInventory) (creates : Create_ * Create_) : Prop := {
  bs_target : oiTarget input' = oiTarget input;
  bs_identity : validateOfficialInventoryIdentity input' = Ok tt;
  bs_snapshot : oiSnapshotID input' ≠ oiSnapshotID input;
  bs_paths : NoDup (record_path <$> oiRecords input');
  bs_records : ∃ r1 r2, oiRecords input' ≡ₚ oiRecords input ++ [r1; r2] ∧
    keeps DecodeRevisionRecord creates.1 r1 ∧ keeps DecodeOperationClaimRecord creates.2 r2
}.

(** The canonical bytes of the revisions of one message. *)
Definition decoded_events (repoDID : string) (records : list SourceRecord) : list record_event :=
  omap (λ r, match official_event repoDID r with Ok e => Some e | Err _ => None end) records.
Definition history_bytes (repoDID : string) (records : list SourceRecord) (id : string) : N :=
  total_size revision_bytes (of_key id (revisions (decoded_events repoDID records))).

Lemma decoded_events_of input l evs : Forall2 (decodes input) l evs → decoded_events (repo input) l = evs.
Proof. unfold decoded_events. induction 1 as [|r e l evs [_ He] _ IH]; [done|]. csimpl. by rewrite He, IH. Qed.

Lemma within_budget input evs id : complete_source input evs → id ∈ (revisions evs).*1 →
  history_bytes (repo input) (oiRecords input) id ≤ maxRevisionInventoryBytes.
Proof.
  intros [_ _ Hf _ Hm] Hid. unfold history_bytes. rewrite (decoded_events_of _ _ _ Hf).
  exact (sc_total _ _ _ _ (ci_events _ _ _ _ (ms_each _ _ _ Hm id (or_introl Hid)))).
Qed.

Lemma sha_prefixed v : validSHA256Identifier v = true → validPrefixedSHA256 v "sha256-" = true.
Proof.
  unfold validSHA256Identifier, validPrefixedSHA256, validRawSHA256. case_match; [done|]. intros Hv. bools.
  match goal with E : HasPrefix v _ = true |- _ => apply HasPrefix_spec in E as [h ->] end. rewrite TrimPrefix_app, HasPrefix_app, len_app in *.
  match goal with E : hex_decodable h = true |- _ => rewrite E end. cbn [andb]. apply andb_true_iff. split; [apply N.eqb_eq; lia|by apply String.eqb_eq].
Qed.
Lemma sha_identifier v : validSHA256Identifier v = true → validIdentifier v maxIdentifierBytes = true.
Proof. intros Hv%sha_prefixed. by apply (prefixed_identifier v "sha256-"). Qed.

(** The two records are decoded to a revision and a claim exactly when the texts are not too long. *)
Lemma kept_revision input create r k record : keeps DecodeRevisionRecord create r →
  create = MkCreate MessageStateRevisionCollection k (print (revision_json record)) →
  DecodeRevisionRecord (print (revision_json record)) = Ok (stored record) →
  decodes input r (RevisionEvent (MkStateRevision k (stored record))).
Proof.
  intros (Hv & Hc & Hk & text & n & Hj & Hd) -> Hrec. split; [done|]. unfold official_event. rewrite Hc. cbn [crCollection].
  change (String.eqb MessageStateRevisionCollection MessageCollection) with false. rewrite String.eqb_refl.
  unfold decodeOfficialMessageRevision. rewrite Hj. cbn [result_bind]. cbn [crValue] in Hd. by rewrite Hd, Hrec, Hk.
Qed.
Lemma kept_claim input create r c : keeps DecodeOperationClaimRecord create r →
  create = MkCreate MessageStateOperationCollection (ocRKey c) (print (claim_json (ocRecord c))) →
  DecodeOperationClaimRecord (print (claim_json (ocRecord c))) = Ok (ocRecord c) →
  ocType (ocRecord c) = MessageStateOperationCollection →
  OperationClaimRKey (repo input) (ocLogicalMessageID (ocRecord c)) (ocOperationID (ocRecord c)) = Ok (ocRKey c) →
  decodes input r (ClaimEvent (ocLogicalMessageID (ocRecord c)) (ocRKey c) (ocRevisionRKey (ocRecord c))).
Proof.
  intros (Hv & Hc & Hk & text & n & Hj & Hd) -> Hrec Ht Hkey. split; [done|]. unfold official_event. rewrite Hc. cbn [crCollection].
  change (String.eqb MessageStateOperationCollection MessageCollection) with false.
  change (String.eqb MessageStateOperationCollection MessageStateRevisionCollection) with false. rewrite String.eqb_refl.
  unfold decodeOfficialMessageClaim. rewrite Hj. cbn [result_bind]. cbn [crValue crRKey] in *. rewrite Hd, Hrec. cbn [or_error result_bind].
  rewrite Ht, Hkey, String.eqb_refl. cbn [negb or_error result_bind]. by rewrite Hk, String.eqb_refl.
Qed.

(** And a record that is decoded has a text within the limit. *)
Lemma decoded_length_revision create r d e : keeps DecodeRevisionRecord create r →
  crCollection create = MessageStateRevisionCollection → official_event d r = Ok e → len (crValue create) ≤ maxRevisionRecordBytes.
Proof.
  intros (_ & Hc & _ & text & n & Hj & Hd) Hcol. unfold official_event. rewrite Hc, Hcol.
  change (String.eqb MessageStateRevisionCollection MessageCollection) with false. rewrite String.eqb_refl.
  unfold decodeOfficialMessageRevision. rewrite Hj. cbn [result_bind]. rewrite Hd. unfold DecodeRevisionRecord.
  destruct (N.ltb_spec maxRevisionRecordBytes (len (crValue create))); [by rewrite orb_true_r|done].
Qed.
Lemma decoded_length_claim create r d e : keeps DecodeOperationClaimRecord create r →
  crCollection create = MessageStateOperationCollection → official_event d r = Ok e → len (crValue create) ≤ maxRevisionRecordBytes.
Proof.
  intros (_ & Hc & _ & text & n & Hj & Hd) Hcol. unfold official_event. rewrite Hc, Hcol.
  change (String.eqb MessageStateOperationCollection MessageCollection) with false.
  change (String.eqb MessageStateOperationCollection MessageStateRevisionCollection) with false. rewrite String.eqb_refl.
  unfold decodeOfficialMessageClaim. rewrite Hj. cbn [result_bind]. rewrite Hd. unfold DecodeOperationClaimRecord.
  destruct (N.ltb_spec maxRevisionRecordBytes (len (crValue create))); [by rewrite orb_true_r|done].
Qed.

Lemma buildStateCreates_ok d record creates : buildStateCreates d record = Ok creates →
  ∃ k c, StateRevisionRKey d record = Ok k ∧ NewOperationClaim d (MkStateRevision k record) = Ok c ∧
    creates = (MkCreate MessageStateRevisionCollection k (print (revision_json record)),
               MkCreate MessageStateOperationCollection (ocRKey c) (print (claim_json (ocRecord c)))).
Proof.
  unfold buildStateCreates. destruct (StateRevisionRKey d record) as [k|]; [|done]. cbn [result_bind].
  destruct (NewOperationClaim d _) as [c|] eqn:Ec; [|done]. cbn [result_bind]. intros [= <-]. by exists k, c.
Qed.

(** *** From one repository to the next *)

Definition renamed_state (s : string) (st : ReducedState) : ReducedState :=
  MkReducedState (rsLogicalMessageID st) s (rsVersion st) (rsMailboxIDs st) (rsKeywords st) (rsDeletePending st) (rsTombstone st)
    (rsHeads st) (rsHeadsDigest st) (rsStateDigest st) (rsHeight st) (rsRevisionCount st).

Lemma other_state s s' evs id e c id' : rrLogicalMessageID (srRecord e) = id → id' ≠ id →
  message_of_id s' (appended id evs e c) id' = renamed_state s' (message_of_id s evs id').
Proof. intros Hid Hn. unfold message_of_id. by rewrite (appended_other id evs e c Hid id' Hn). Qed.

Section next.
Context (input input' : officialSpacesInventory) (evs : list record_event) (r1 r2 : SourceRecord).
Context (id : string) (e : StateRevision) (c : OperationClaim).
Local Abbreviation next := (with_records input' (oiRecords input ++ [r1; r2])).
Hypothesis complete : complete_source input evs.
Hypothesis same_target : oiTarget input' = oiTarget input.
Hypothesis identity : validateOfficialInventoryIdentity next = Ok tt.
Hypothesis next_paths : NoDup (record_path <$> oiRecords input ++ [r1; r2]).
Hypothesis revision_kept : decodes input r1 (RevisionEvent e).
Hypothesis claim_kept : decodes input r2 (ClaimEvent id (ocRKey c) (srRKey e)).
Hypothesis of_message : rrLogicalMessageID (srRecord e) = id.
Hypothesis known : id ∈ (revisions evs).*1.
Hypothesis claimed : NewOperationClaim (repo input) e = Ok c.

Lemma next_decodes : Forall2 (decodes next) (oiRecords next) (appended id evs e c).
Proof.
  pose proof (so_records _ _ complete) as Hf. unfold decodes, repo in *. cbn [with_records oiTarget oiRecords]. rewrite same_target.
  apply Forall2_app; [exact Hf|]. apply Forall2_cons_2; [exact revision_kept|]. apply Forall2_cons_2; [exact claim_kept|]. apply Forall2_nil_2.
Qed.
Lemma next_event_paths : NoDup (event_path <$> appended id evs e c).
Proof. rewrite <- (decodes_path _ _ _ next_decodes). exact next_paths. Qed.

Lemma next_complete : appendable (repo input) id (message_snapshot (oiSnapshotID input) evs id) (of_key id (revisions evs)) e →
  complete_source next (appended id evs e c).
Proof.
  intros Hap. pose proof (identity_ok _ identity) as (_ & _ & Hs & _). apply sha_identifier in Hs. cbn [with_records oiSnapshotID] in Hs.
  destruct complete as [_ _ _ Hfolders Hmessages]. assert (Hrepo : repo next = repo input) by (unfold repo; cbn; by rewrite same_target).
  split; [exact identity|exact next_paths|exact next_decodes|rewrite Hrepo|rewrite Hrepo]; cbn [with_records oiSnapshotID].
  - refine (folders_carry_over (repo input) (oiSnapshotID input) (oiSnapshotID input') evs _ _ _ Hs Hfolders).
    + exact (appended_folder_revisions id evs e c).
    + exact (appended_folder_claims id evs e c).
  - exact (messages_carry_over (repo input) (oiSnapshotID input) (oiSnapshotID input') id evs e c of_message next_event_paths Hs
      Hfolders Hmessages known claimed Hap).
Qed.

Lemma next_bytes : history_bytes (repo input) (oiRecords next) id =
  total_size revision_bytes (of_key id (revisions evs)) + size_of revision_bytes e.
Proof.
  unfold history_bytes. assert (Hrepo : repo next = repo input) by (unfold repo; cbn; by rewrite same_target).
  pose proof (decoded_events_of _ _ _ next_decodes) as Hd. rewrite Hrepo in Hd. rewrite Hd, (appended_of_key id evs e c of_message).
  by rewrite total_size_snoc.
Qed.

End next.

End batch.

(** ** An append, end to end *)

(** What a snapshot shows of a recovered state. *)
Record shows (reduced : ReducedSourceState) (current : v3.Snapshot) : Prop := {
  sh_id : v3.sSnapshotID current = rzSnapshotID reduced;
  sh_folders : v3.sFolders current ≡ₚ rzFolders reduced;
  sh_states : v3.sStates current ≡ₚ rzMessageStates reduced;
  sh_messages : (λ v, (v3.vRKey v, v3.vLogicalMessageID v)) <$> v3.sMessages current ≡ₚ owner_entry <$> rzMessages reduced
}.

Lemma revision_bytes_keyed `{Syntax} d e k : StateRevisionRKey d (srRecord e) = Ok k → is_ok (revision_bytes e) = true.
Proof.
  unfold StateRevisionRKey, revision_bytes. intros Hk. match type of Hk with (if ?b then _ else _) = _ => destruct b; [done|] end.
  destruct (CanonicalRevisionBytes (srRecord e)) as [b|] eqn:Eb; [|done]. apply CanonicalRevisionBytes_ok in Eb as (_ & _ & Hl).
  cbn [or_error result_bind]. by rewrite (proj2 (N.ltb_ge _ _) Hl).
Qed.

Lemma ok_inj {A} (a b : A) : Ok a = Ok b → a = b.
Proof. by intros [= ->]. Qed.
Lemma utf8_claim t a o k : valid_text t → valid_text a → valid_text o → valid_text k →
  utf8_json (claim_json (MkOperationClaimRecord t a o k)) = true.
Proof.
  unfold valid_text, claim_json. intros Ht Ha Ho Hk. cbn [utf8_json forallb fst snd ocType ocLogicalMessageID ocOperationID ocRevisionRKey].
  by rewrite Ht, Ha, Ho, Hk.
Qed.
Lemma revision_key_text `{Syntax} d r k : StateRevisionRKey d r = Ok k → valid_text k.
Proof.
  unfold StateRevisionRKey. intros Hk. match type of Hk with (if ?b then _ else _) = _ => destruct b; [done|] end.
  destruct (CanonicalRevisionBytes r) as [b|]; [|done]. cbn [result_bind] in Hk. injection Hk as <-.
  apply ascii_utf8. rewrite all_bytes_app. apply andb_true_iff. split; [reflexivity|]. eapply all_bytes_impl; [|apply hex_encode_bytes].
  intros x Hx. revert Hx. each_byte x.
Qed.

(** The state of a message whose registers are those a mutation asks for, one revision later. *)
Lemma state_as_asked (m : v3.StateMutation) (s k : string) state :
  state = MkReducedState (v3.mLogicalMessageID m) s (v3.mVersion m) (v3.mMailboxIDs m) (v3.mKeywords m) (v3.mDeletePending m)
    (v3.mTombstone m) [k] (digestStringList state_heads_domain [k]) "" (u64 (v3.mExpectedHeight m + 1))
    (Z.to_N (v3.mExpectedRevisionCount m + 1)) →
  s ≠ v3.mSnapshotID m → validSHA256Identifier s = true → validPrefixedSHA256 k "state-" = true →
  (0 ≤ v3.mExpectedRevisionCount m < Z.of_N maxStateRevisions)%Z →
  mutation_settled m (set_rsStateDigest state (digestReducedState state)) = true ∧
  validMutationResult m (set_rsStateDigest state (digestReducedState state)) = true.
Proof.
  intros E Hs Hid Hk Hn. apply sha_prefixed in Hid.
  assert (Hd : String.eqb (rsStateDigest (set_rsStateDigest state (digestReducedState state)))
    (messageStateDigest (set_rsStateDigest state (digestReducedState state))) = true)
    by (rewrite state_digest_agrees; apply String.eqb_refl).
  assert (Hneq : String.eqb s (v3.mSnapshotID m) = false) by by apply String.eqb_neq.
  assert (Hc : (Z.of_N (Z.to_N (v3.mExpectedRevisionCount m + 1)) =? v3.mExpectedRevisionCount m + 1)%Z = true) by (apply Z.eqb_eq; lia).
  unfold mutation_settled, validMutationResult. rewrite Hd. clear Hd. rewrite E. unfold set_rsStateDigest, equalStrings.
  cbn [rsSnapshotID rsVersion rsMailboxIDs rsKeywords rsDeletePending rsTombstone rsHeight rsRevisionCount rsLogicalMessageID rsHeads
    rsHeadsDigest head default from_option]. rewrite Hneq, Hid, !String.eqb_refl, !bool_decide_true, !Bool.eqb_reflx, N.eqb_refl, Hc by done.
  cbn [negb andb]. split; [done|]. cbn [default]. rewrite ?heads_digest_agrees, ?String.eqb_refl.
  rewrite (proj2 (N.leb_le _ _)) by lia. change (llen [k] =? 1) with true. change (Datatypes.id k) with k. by rewrite Hk.
Qed.

Lemma shows_describes `{Syntax} `{Ipld} `{CaseOrbits} input evs current :
  shows (recovered input evs) current → describes (oiSnapshotID input) evs current.
Proof.
  intros [Hid Hf Hs Hm]. split; [exact Hid|exact Hf|exact Hs|]. rewrite Hm. cbn [recovered set_rzSeal rzMessages].
  apply fmap_Permutation, sort_by_perm.
Qed.

Section settled.
Context `{Syntax} `{Ipld} `{CaseOrbits} (input input' : officialSpacesInventory) (evs : list record_event).
Context (r1 r2 : SourceRecord) (id : string) (e : StateRevision) (c : OperationClaim) (reduced' : ReducedSourceState).
Hypothesis of_message : rrLogicalMessageID (srRecord e) = id.
Hypothesis known : id ∈ (revisions evs).*1.
Hypothesis result : reduced' = recovered (with_records input' (oiRecords input ++ [r1; r2])) (appended id evs e c).

(** What an append leaves as it was. *)
Lemma next_messages : rzMessages reduced' = rzMessages (recovered input evs).
Proof. rewrite result. cbn [recovered set_rzSeal rzMessages]. by rewrite appended_messages. Qed.
Lemma next_folders : rzFolders reduced' = renamed (oiSnapshotID input') <$> rzFolders (recovered input evs).
Proof.
  rewrite result. cbn [recovered set_rzSeal rzFolders with_records oiSnapshotID]. apply folder_states_renamed.
  exact (appended_folder_revisions id evs e c).
Qed.
Lemma next_state : message_of_id (oiSnapshotID input') (appended id evs e c) id ∈ rzMessageStates reduced'.
Proof.
  rewrite result. cbn [recovered set_rzSeal rzMessageStates with_records oiSnapshotID]. apply list_elem_of_fmap_2, elem_of_sorted_keys.
  rewrite (appended_revisions id evs e c of_message), fmap_app. set_solver.
Qed.
Lemma next_others x : x ∈ rzMessageStates reduced' → x = message_of_id (oiSnapshotID input') (appended id evs e c) id ∨
  ∃ y, y ∈ rzMessageStates (recovered input evs) ∧ x = renamed_state (oiSnapshotID input') y.
Proof.
  rewrite result. cbn [recovered set_rzSeal rzMessageStates with_records oiSnapshotID]. unfold message_states.
  intros (id' & -> & Hid)%list_elem_of_fmap. apply elem_of_sorted_keys in Hid. rewrite (appended_revisions id evs e c of_message), fmap_app in Hid.
  destruct (decide (id' = id)) as [->|Hn]; [by left|right]. exists (message_of_id (oiSnapshotID input) evs id').
  rewrite (other_state (oiSnapshotID input) (oiSnapshotID input') evs id e c id' of_message Hn). split; [|exact eq_refl].
  apply list_elem_of_fmap_2, elem_of_sorted_keys. set_solver.
Qed.

End settled.

Section append.
Context `{Syntax} `{Ipld} `{CaseOrbits} (input input' : officialSpacesInventory) (evs : list record_event).
Context (current : v3.Snapshot) (m : v3.StateMutation) (st : v3.MessageState) (now : time) (r1 r2 : SourceRecord).
Context (k : string) (c : OperationClaim).
Local Abbreviation id := (v3.mLogicalMessageID m).
Local Abbreviation record := (mutation_record st m now).
Local Abbreviation e := (MkStateRevision k (stored (mutation_record st m now))).
Local Abbreviation next := (with_records input' (oiRecords input ++ [r1; r2])).
Local Abbreviation evs' := (appended (v3.mLogicalMessageID m) evs (MkStateRevision k (stored (mutation_record st m now))) c).
Hypothesis complete : complete_source input evs.
Hypothesis shown : describes (oiSnapshotID input) evs current.
Hypothesis valid : validMutation m = true.
Hypothesis admitted : admit_mutation current m = Ok st.
Hypothesis clock : parse_RFC3339Nano (format_RFC3339Nano now) = true.
Hypothesis keyed : StateRevisionRKey (repo input) record = Ok k.
Hypothesis claimed : NewOperationClaim (repo input) (MkStateRevision k record) = Ok c.
Hypothesis same_target : oiTarget input' = oiTarget input.
Hypothesis identity : validateOfficialInventoryIdentity input' = Ok tt.
Hypothesis next_paths : NoDup (record_path <$> oiRecords input').
Hypothesis records : oiRecords input' ≡ₚ oiRecords input ++ [r1; r2].
Hypothesis kept1 : keeps DecodeRevisionRecord (MkCreate MessageStateRevisionCollection k (print (revision_json record))) r1.
Hypothesis kept2 : keeps DecodeOperationClaimRecord
  (MkCreate MessageStateOperationCollection (ocRKey c) (print (claim_json (ocRecord c)))) r2.
Local Abbreviation fits := (len (print (revision_json (mutation_record st m now))) ≤ maxRevisionRecordBytes ∧
  len (print (claim_json (ocRecord c))) ≤ maxRevisionRecordBytes).

Lemma claim_record : ocRecord c = MkOperationClaimRecord MessageStateOperationCollection id (v3.mOperationID m) k.
Proof. apply NewOperationClaim_ok in claimed as (_ & _ & ->). done. Qed.
Lemma claim_key : OperationClaimRKey (repo input) id (v3.mOperationID m) = Ok (ocRKey c).
Proof. by apply NewOperationClaim_ok in claimed as (_ & ? & _). Qed.
Lemma source_paths : NoDup (event_path <$> evs).
Proof. rewrite <- (decodes_path _ _ _ (so_records _ _ complete)). exact (so_paths _ _ complete). Qed.

Lemma record_texts : Forall valid_text [rrType record; rrLogicalMessageID record; rrOperationID record; rrVersion record; rrCreatedAt record].
Proof.
  unfold StateRevisionRKey in keyed. match type of keyed with (if ?b then _ else _) = _ => destruct b; [done|] end.
  unfold CanonicalRevisionBytes in keyed. match type of keyed with context [if ?b then Err ErrResourceLimit else _] => destruct b; [done|] end.
  match type of keyed with context [if ?b then Err ErrInvalidRevision else _] => destruct b eqn:Eb; [done|] end.
  bools. by repeat constructor.
Qed.

Lemma batch_decodes : fits →
  decodes input r1 (RevisionEvent e) ∧ decodes input r2 (ClaimEvent id (ocRKey c) (srRKey e)).
Proof.
  intros [Hf1 Hf2]. pose proof source_paths as Hp. destruct complete as [_ _ _ Hfolders Hmessages].
  pose proof (StateRevisionRKey_ok _ _ _ keyed) as (_ & Hid & Hop & _). split.
  - eapply kept_revision; [exact kept1|reflexivity|]. eapply stored_decodes; [exact keyed| | |exact record_texts|exact Hf1].
    + rewrite (next_height m st now valid). pose proof (mc_height _ (mutation_checks m valid)) as Hh. unfold maxStateRevisions in Hh. lia.
    + destruct (v3.mTombstone m) eqn:Ht; [cbn; by rewrite Ht|].
      destruct (mutation_mailboxes _ _ _ current m st now Hp Hfolders shown admitted Ht) as [-> Hn]. congruence.
  - pose proof claim_record as Hr. pose proof claim_key as Hk.
    assert (Hd : decodes input r2 (ClaimEvent (ocLogicalMessageID (ocRecord c)) (ocRKey c) (ocRevisionRKey (ocRecord c)))).
    2: { rewrite Hr in Hd. exact Hd. }
    eapply kept_claim; [exact kept2|reflexivity| |by rewrite Hr|by rewrite Hr].
    apply claim_decodes; [|exact Hf2]. pose proof record_texts as Ht. rewrite Hr.
    apply Forall_cons in Ht as [Ht0 Ht]. apply Forall_cons in Ht as [Ht1 Ht]. apply Forall_cons in Ht as [Ht2 _].
    apply utf8_claim; [reflexivity|exact Ht1|exact Ht2|exact (revision_key_text _ _ _ keyed)].
Qed.

Lemma next_identity : validateOfficialInventoryIdentity next = Ok tt.
Proof.
  revert identity. unfold validateOfficialInventoryIdentity. cbn [with_records oiTarget oiSnapshotID oiRecords oiRevision oiCommitCID oiIndexCID].
  by rewrite (llen_perm _ _ records).
Qed.
Lemma next_nodup : NoDup (record_path <$> oiRecords input ++ [r1; r2]).
Proof. by rewrite <- records. Qed.

Lemma append_known : id ∈ (revisions evs).*1.
Proof. exact (ad_known _ _ _ _ (admission_facts _ _ _ current m st source_paths (so_folders _ _ complete) shown admitted)). Qed.

Lemma stored_claimed : NewOperationClaim (repo input) e = Ok c.
Proof. by rewrite stored_claim_of. Qed.

(** The history of the message in the new repository. *)
Lemma history_bytes_next : fits → history_bytes (repo input) (oiRecords input') id =
  total_size revision_bytes (of_key id (revisions evs)) + size_of revision_bytes e.
Proof.
  intros Hfits. destruct (batch_decodes Hfits) as [Hd1 Hd2].
  rewrite <- (next_bytes input input' evs r1 r2 id e c complete same_target Hd1 Hd2 eq_refl). unfold history_bytes.
  apply total_size_perm, of_key_perm, omap_perm, omap_perm, records.
Qed.

Lemma append_fresh : fits → k ∉ (ce_key <$> of_key id (revisions evs)).
Proof.
  intros Hfits. destruct (batch_decodes Hfits) as [Hd1 Hd2].
  refine (fresh_revision id evs e c eq_refl (next_event_paths input input' evs r1 r2 id e c complete same_target next_nodup Hd1 Hd2)).
Qed.

Lemma append_complete : fits → history_bytes (repo input) (oiRecords input') id ≤ maxRevisionInventoryBytes →
  complete_source next evs'.
Proof.
  intros Hfits Hroom. rewrite (history_bytes_next Hfits) in Hroom. destruct (batch_decodes Hfits) as [Hd1 Hd2].
  apply (next_complete input input' evs r1 r2 id e c complete same_target next_identity next_nodup Hd1 Hd2 eq_refl append_known stored_claimed).
  apply (mutation_appendable (repo input) (oiSnapshotID input) evs current m st now source_paths (so_folders _ _ complete)
    (so_messages _ _ complete) shown valid admitted k keyed clock (append_fresh Hfits)).
  split; [|exact Hroom]. apply (revision_bytes_keyed (repo input) _ k). cbn [srRecord]. rewrite stored_key. exact keyed.
Qed.

(** A repository that reduces has room for both records. *)
Lemma append_room evs1 : complete_source input' evs1 → fits ∧ history_bytes (repo input) (oiRecords input') id ≤ maxRevisionInventoryBytes.
Proof.
  intros Hc. assert (Hrepo : repo input' = repo input) by (unfold repo; by rewrite same_target).
  assert (Hin : ∀ r, r ∈ [r1; r2] → ∃ e, official_event (repo input) r = Ok e ∧ e ∈ evs1).
  { intros r Hr. assert (Hin : r ∈ oiRecords input') by (rewrite records; set_solver).
    apply list_elem_of_lookup in Hin as [i Hi]. destruct (Forall2_lookup_l _ _ _ _ _ (so_records _ _ Hc) Hi) as (e & He & _ & Hd).
    exists e. rewrite <- Hrepo. split; [exact Hd|]. by eapply list_elem_of_lookup_2. }
  destruct (Hin r1 ltac:(set_solver)) as (e1 & He1 & Hin1). destruct (Hin r2 ltac:(set_solver)) as (e2 & He2 & _).
  assert (Hfits : fits).
  { split; [exact (decoded_length_revision _ _ _ _ kept1 eq_refl He1)|exact (decoded_length_claim _ _ _ _ kept2 eq_refl He2)]. }
  split; [done|]. destruct (batch_decodes Hfits) as [[_ Hd] _].
  pose proof (ok_inj _ _ (eq_trans (eq_sym He1) Hd)) as E1. clear He1 Hd. subst e1.
  rewrite <- Hrepo. apply (within_budget _ _ _ Hc). apply list_elem_of_fmap. exists (id, e). split; [done|].
  unfold revisions. apply list_elem_of_omap. by exists (RevisionEvent e).
Qed.

(** What it reduces to. *)
Lemma append_recovered reduced' : reduceOfficialSpacesInventory background input' = Ok reduced' → reduced' = recovered next evs'.
Proof.
  intros (evs1 & Hc & ->)%inventory_ok. destruct (append_room _ Hc) as [Hfits Hroom].
  destruct (complete_source_perm input' _ records _ Hc) as (evs2 & Hc2 & <-). apply (f_equal (recovered next)).
  destruct (batch_decodes Hfits) as [Hd1 Hd2].
  apply (decodes_functional next (oiRecords next)); [exact (so_records _ _ Hc2)|exact (next_decodes input input' evs r1 r2 id e c complete same_target Hd1 Hd2)].
Qed.

Lemma append_state_value reduced' : reduceOfficialSpacesInventory background input' = Ok reduced' →
  message_of_id (oiSnapshotID input') evs' id =
  let state := MkReducedState id (oiSnapshotID input') (v3.mVersion m) (v3.mMailboxIDs m) (v3.mKeywords m) (v3.mDeletePending m)
    (v3.mTombstone m) [k] (digestStringList state_heads_domain [k]) "" (u64 (v3.mExpectedHeight m + 1))
    (Z.to_N (v3.mExpectedRevisionCount m + 1)) in
  set_rsStateDigest state (digestReducedState state).
Proof.
  intros (evs1 & Hc & _)%inventory_ok. destruct (append_room _ Hc) as [Hfits Hroom]. clear evs1 Hc.
  pose proof (append_fresh Hfits) as Hfresh. rewrite (history_bytes_next Hfits) in Hroom. destruct (batch_decodes Hfits) as [Hd1 Hd2].
  pose proof complete as [_ _ _ Hfolders Hmessages]. pose proof source_paths as Hp.
  pose proof (admission_facts (repo input) (oiSnapshotID input) evs current m st Hp Hfolders shown admitted) as Had.
  pose proof (mc_height _ (mutation_checks m valid)) as Hh. unfold maxStateRevisions in Hh.
  pose proof (mutation_merge (repo input) (oiSnapshotID input) evs current m st now Hp Hfolders shown valid admitted k) as (Ev & Em & Ek & Et & Ed).
  assert (Hap : appendable (repo input) id (message_snapshot (oiSnapshotID input) evs id) (of_key id (revisions evs)) e).
  { apply (mutation_appendable (repo input) (oiSnapshotID input) evs current m st now Hp Hfolders Hmessages shown valid admitted k keyed clock Hfresh).
    split; [|exact Hroom]. apply (revision_bytes_keyed (repo input) _ k). cbn [srRecord]. rewrite stored_key. exact keyed. }
  pose proof (identity_ok _ identity) as (_ & _ & Hs & _). apply sha_identifier in Hs.
  pose proof (appended_extension (repo input) (oiSnapshotID input) (oiSnapshotID input') id evs e c eq_refl
    (next_event_paths input input' evs r1 r2 id e c complete same_target next_nodup Hd1 Hd2) Hs Hmessages append_known stored_claimed Hap) as Hext.
  rewrite (appended_state (oiSnapshotID input') id evs e c eq_refl).
  rewrite (extension_state _ _ _ _ _ _ (ms_each _ _ _ Hmessages id (or_introl append_known)) Hext). cbn zeta.
  rewrite Ev, Em, Ek, Et in *. rewrite Ed, (ad_height _ _ _ _ Had).
  assert (v3.mExpectedHeight m + 1 = u64 (v3.mExpectedHeight m + 1)) as <- by (symmetry; apply N.mod_small; lia).
  rewrite <- (ad_count _ _ _ _ Had). replace (Z.to_N (Z.of_N (llen (of_key id (revisions evs))) + 1)) with (llen (of_key id (revisions evs)) + 1) by lia.
  exact eq_refl.
Qed.

Lemma append_reduces : is_ok (reduceOfficialSpacesInventory background input') = true ↔
  fits ∧ history_bytes (repo input) (oiRecords input') id ≤ maxRevisionInventoryBytes.
Proof.
  split.
  - destruct (reduceOfficialSpacesInventory background input') as [reduced'|] eqn:Er; [|done]. intros _.
    apply inventory_ok in Er as (evs1 & Hc1 & _). exact (append_room _ Hc1).
  - intros [Hfits Hroom]. pose proof (append_complete Hfits Hroom) as Hnext.
    destruct (complete_source_perm next (oiRecords input') (symmetry records) _ Hnext) as (evs2 & Hc2 & _).
    apply inventory_complete in Hc2. replace (with_records next (oiRecords input')) with input' in Hc2 by by destruct input'.
    exact (f_equal is_ok Hc2).
Qed.

Hypothesis new_snapshot : oiSnapshotID input' ≠ oiSnapshotID input.

Lemma append_effect reduced' : reduceOfficialSpacesInventory background input' = Ok reduced' →
  rzMessages reduced' = rzMessages (recovered input evs) ∧
  rzFolders reduced' = renamed (oiSnapshotID input') <$> rzFolders (recovered input evs) ∧
  ∃ result, result ∈ rzMessageStates reduced' ∧ rsLogicalMessageID result = id ∧
    mutation_settled m result = true ∧ validMutationResult m result = true ∧
    ∀ x, x ∈ rzMessageStates reduced' → x = result ∨
      ∃ y, y ∈ rzMessageStates (recovered input evs) ∧ x = renamed_state (oiSnapshotID input') y.
Proof.
  intros Hr. pose proof (append_recovered _ Hr) as Hrec. pose proof (append_state_value _ Hr) as Hv.
  split; [exact (next_messages input input' evs r1 r2 id e c reduced' Hrec)|].
  split; [exact (next_folders input input' evs r1 r2 id e c reduced' Hrec)|].
  exists (message_of_id (oiSnapshotID input') evs' id).
  split; [exact (next_state input input' evs r1 r2 id e c reduced' eq_refl append_known Hrec)|].
  split; [exact eq_refl|].
  assert (Hboth : mutation_settled m (message_of_id (oiSnapshotID input') evs' id) = true ∧
    validMutationResult m (message_of_id (oiSnapshotID input') evs' id) = true).
  2: { destruct Hboth as [H1' H2']. split; [exact H1'|]. split; [exact H2'|].
       exact (next_others input input' evs r1 r2 id e c reduced' eq_refl append_known Hrec). }
  rewrite Hv. pose proof source_paths as Hp.
  pose proof (admission_facts (repo input) (oiSnapshotID input) evs current m st Hp (so_folders _ _ complete) shown admitted) as Had.
  refine (state_as_asked m _ k _ eq_refl _ _ _ _).
  - rewrite (ad_snapshot _ _ _ _ Had). exact new_snapshot.
  - exact (proj1 (proj2 (proj2 (identity_ok _ identity)))).
  - apply StateRevisionRKey_ok in keyed as (_ & _ & _ & _ & ->). apply digest_prefixed.
  - split; [rewrite <- (ad_count _ _ _ _ Had); lia|exact (mc_count _ (mutation_checks m valid))].
Qed.

End append.


(** The part of it that the engine relies on. *)
Lemma append_settles `{Syntax} `{Ipld} `{CaseOrbits} input input' reduced reduced' current m st now creates :
  reduceOfficialSpacesInventory background input = Ok reduced → shows reduced current → validMutation m = true →
  admit_mutation current m = Ok st → parse_RFC3339Nano (format_RFC3339Nano now) = true →
  buildStateCreates (otRepoDID (oiTarget input)) (mutation_record st m now) = Ok creates → batch_stored input input' creates →
  reduceOfficialSpacesInventory background input' = Ok reduced' →
  rzMessages reduced' = rzMessages reduced ∧
  rzFolders reduced' = renamed (oiSnapshotID input') <$> rzFolders reduced ∧
  ∃ result, result ∈ rzMessageStates reduced' ∧ rsLogicalMessageID result = v3.mLogicalMessageID m ∧
    mutation_settled m result = true ∧ validMutationResult m result = true ∧
    ∀ x, x ∈ rzMessageStates reduced' → x = result ∨
      ∃ y, y ∈ rzMessageStates reduced ∧ x = renamed_state (oiSnapshotID input') y.
Proof.
  intros (evs & Hc & ->)%inventory_ok Hshown%shows_describes Hvalid Hadmitted Hclock (k & c & Hk & Hcl & ->)%buildStateCreates_ok.
  intros [Ht Hi Hs Hp (r1 & r2 & Hrec & K1 & K2)]. by apply (append_effect input input' evs current m st now r1 r2 k c).
Qed.

Lemma append_fits `{Syntax} `{Ipld} `{CaseOrbits} input input' reduced current m st now creates :
  reduceOfficialSpacesInventory background input = Ok reduced → shows reduced current → validMutation m = true →
  admit_mutation current m = Ok st → parse_RFC3339Nano (format_RFC3339Nano now) = true →
  buildStateCreates (otRepoDID (oiTarget input)) (mutation_record st m now) = Ok creates → batch_stored input input' creates →
  is_ok (reduceOfficialSpacesInventory background input') = true ↔
   len (crValue creates.1) ≤ maxRevisionRecordBytes ∧ len (crValue creates.2) ≤ maxRevisionRecordBytes ∧
   history_bytes (otRepoDID (oiTarget input)) (oiRecords input') (v3.mLogicalMessageID m) ≤ maxRevisionInventoryBytes.
Proof.
  intros (evs & Hc & ->)%inventory_ok Hshown%shows_describes Hvalid Hadmitted Hclock (k & c & Hk & Hcl & ->)%buildStateCreates_ok.
  intros [Ht Hi Hs Hp (r1 & r2 & Hrec & K1 & K2)].
  assert (Hiff : ∀ A B C D : Prop, (A ↔ (B ∧ C) ∧ D) → (A ↔ B ∧ C ∧ D)) by tauto. apply Hiff.
  by apply (append_reduces input input' evs current m st now r1 r2 k c).
Qed.

(** C4. An append never spoils the repository unless there is no room for it, and then takes effect
    exactly as asked.  For a mutation that the handler's checks and the engine's comparison with
    the snapshot let through, and a provider that keeps the two created records: the next recovery
    read reduces if and only if both record texts and the history of the message stay within the
    reducer's limits, which nothing checks before the write.  When it reduces, the messages and
    the folders are those of before, the message has the state the mutation asks for, which the
    engine and the handler accept, and every other message state is unchanged but for the
    identity of the snapshot. *)
Theorem append_keeps_repository `{Syntax} `{Ipld} `{CaseOrbits} (input input' : officialSpacesInventory)
    (reduced : ReducedSourceState) (current : v3.Snapshot) (m : v3.StateMutation) (st : v3.MessageState) (now : time)
    (creates : Create_ * Create_)
    (Hreduced : reduceOfficialSpacesInventory background input = Ok reduced) (Hshown : shows reduced current)
    (Hvalid : validMutation m = true) (Hadmitted : admit_mutation current m = Ok st)
    (Hclock : parse_RFC3339Nano (format_RFC3339Nano now) = true)
    (Hbuilt : buildStateCreates (otRepoDID (oiTarget input)) (mutation_record st m now) = Ok creates)
    (Hstored : batch_stored input input' creates) :
  let id := v3.mLogicalMessageID m in
  (is_ok (reduceOfficialSpacesInventory background input') = true ↔
   len (crValue creates.1) ≤ maxRevisionRecordBytes ∧ len (crValue creates.2) ≤ maxRevisionRecordBytes ∧
   history_bytes (otRepoDID (oiTarget input)) (oiRecords input') id ≤ maxRevisionInventoryBytes) ∧
  ∀ reduced', reduceOfficialSpacesInventory background input' = Ok reduced' →
    rzMessages reduced' = rzMessages reduced ∧
    rzFolders reduced' = renamed (oiSnapshotID input') <$> rzFolders reduced ∧
    ∃ result, result ∈ rzMessageStates reduced' ∧ rsLogicalMessageID result = id ∧
      mutation_settled m result = true ∧ validMutationResult m result = true ∧
      ∀ x, x ∈ rzMessageStates reduced' → x = result ∨
        ∃ y, y ∈ rzMessageStates reduced ∧ x = renamed_state (oiSnapshotID input') y.
Proof.
  split; [by apply (append_fits input input' reduced current m st now creates)|].
  intros reduced'. by apply (append_settles input input' reduced reduced' current m st now creates).
Qed.

(** ** The engine around the write *)

(** The calls of one [AppendState] in which the provider does its part: it serves a snapshot of
    [reduced], takes the batch, and then serves a snapshot of [reduced']. *)
Record append_run `{Syntax} {W : Type} (engine : OfficialEngine W) (creates : Create_ * Create_)
    (reduced reduced' : ReducedSourceState) (now : time) (current : v3.Snapshot) (w w' : W) : Prop := {
  ar_run : ∃ read verified receipts w1 w2 w3, enReadSnapshot engine = Some read ∧ read w = (Ok current, w1) ∧
    enNow engine w1 = (now, w2) ∧ owCreateBatch (enClient engine) [creates.1; creates.2] w2 = (Ok receipts, w3) ∧
    read w3 = (Ok verified, w') ∧ v3.sTarget verified = enTarget engine ∧ v3.sVersion verified = v3.ProtocolVersion ∧
    shows reduced' verified;
  ar_target : v3.sTarget current = enTarget engine;
  ar_version : v3.sVersion current = v3.ProtocolVersion;
  ar_shows : shows reduced current
}.

Lemma find_unique {A} (key : A → string) l x : NoDup (key <$> l) → x ∈ l →
  List.find (λ y, String.eqb (key y) (key x)) l = Some x.
Proof.
  intros Hn Hx. destruct (List.find _ l) as [y|] eqn:E.
  - apply List.find_some in E as [Hy Hk]. apply String.eqb_eq in Hk. apply list_elem_of_In in Hy.
    f_equal. by apply (key_inj key l).
  - apply list_elem_of_In in Hx. apply List.find_none with (x := x) in E; [|done]. by rewrite String.eqb_refl in E.
Qed.

Lemma snapshot_passes {W} (engine : OfficialEngine W) read s w w' : enReadSnapshot engine = Some read → read w = (Ok s, w') →
  v3.sTarget s = enTarget engine → v3.sVersion s = v3.ProtocolVersion → engine_Snapshot engine w = (Ok s, w').
Proof.
  intros Hr Hw Ht Hv. unfold engine_Snapshot. rewrite Hr. unfold call_bind. rewrite Hw. rewrite Ht, Hv, bool_decide_true by done. reflexivity.
Qed.

Lemma reduced_ids `{Syntax} `{Ipld} `{CaseOrbits} input reduced : reduceOfficialSpacesInventory background input = Ok reduced →
  NoDup (rsLogicalMessageID <$> rzMessageStates reduced) ∧ otRepoDID (rzTarget reduced) = otRepoDID (oiTarget input).
Proof.
  intros (evs & _ & ->)%inventory_ok. cbn [recovered set_rzSeal rzMessageStates rzTarget]. split; [|done].
  rewrite message_state_ids. apply sorted_keys_nodup.
Qed.

(** C5. An append that is let through completes: when the provider serves a snapshot, takes the
    batch, keeps the two records and serves the repository that holds them, [AppendState] returns
    the state the mutation asks for, and the handler accepts it as the answer to the request. *)
Theorem append_state_succeeds `{Syntax} `{Ipld} `{CaseOrbits} {W : Type} (engine : OfficialEngine W)
    (input input' : officialSpacesInventory) (reduced reduced' : ReducedSourceState) (current : v3.Snapshot)
    (m : v3.StateMutation) (st : v3.MessageState) (now : time) (creates : Create_ * Create_) (w w' : W)
    (Hreduced : reduceOfficialSpacesInventory background input = Ok reduced)
    (Hreduced' : reduceOfficialSpacesInventory background input' = Ok reduced')
    (Hrun : append_run engine creates reduced reduced' now current w w')
    (Hvalid : validMutation m = true) (Hadmitted : admit_mutation current m = Ok st)
    (Hclock : parse_RFC3339Nano (format_RFC3339Nano now) = true)
    (Hrepo : v3.tRepoDID (enTarget engine) = otRepoDID (oiTarget input))
    (Hbuilt : buildStateCreates (otRepoDID (oiTarget input)) (mutation_record st m now) = Ok creates)
    (Hstored : batch_stored input input' creates) :
  ∃ result, AppendState engine m w = (Ok result, w') ∧ result ∈ rzMessageStates reduced' ∧
    rsLogicalMessageID result = v3.mLogicalMessageID m ∧ validMutationResult m result = true.
Proof.
  destruct Hrun as [(read & verified & receipts & w1 & w2 & w3 & Hread & R1 & R2 & R3 & R4 & Ht & Hv & Hs') Htc Hvc Hs].
  destruct (append_settles input input' reduced reduced' current m st now creates) as (_ & _ & result & Hin & Hid & Hset & Hres & _); try done.
  exists result. split; [|done]. pose proof (reduced_ids _ _ Hreduced') as [Hnd _].
  assert (Hfind : findState verified (v3.mLogicalMessageID m) = Some result).
  { unfold findState. rewrite <- Hid. apply find_unique; [by rewrite (sh_states _ _ Hs')|]. by rewrite (sh_states _ _ Hs'). }
  unfold AppendState, call_bind. rewrite (snapshot_passes engine read current w w1) by done. rewrite Hadmitted. unfold returns at 1.
  unfold engine_now. rewrite R2. rewrite Hrepo, Hbuilt. unfold returns at 1. unfold create_once, call_bind, attempt. rewrite R3.
  unfold returns at 1 2. rewrite (snapshot_passes engine read verified w3 w') by done. by rewrite Hfind, Hset.
Qed.

(** ** Repeated appends *)

(** The provider holds a claim of the operation of [record], and the revision it names. *)
Record holds_append `{Syntax} `{CaseOrbits} {W : Type} (engine : OfficialEngine W) (record held : RevisionRecord) (w w' : W) : Prop := {
  ha_claim : ∃ claimKey r1 w1 claim r2, OperationClaimRKey (v3.tRepoDID (enTarget engine)) (rrLogicalMessageID record)
      (rrOperationID record) = Ok claimKey ∧
    owInspectRecord (enClient engine) MessageStateOperationCollection claimKey w = (Ok r1, w1) ∧
    DecodeOperationClaimRecord (default "" (urValue r1)) = Ok claim ∧
    ocLogicalMessageID claim = rrLogicalMessageID record ∧ ocOperationID claim = rrOperationID record ∧
    owInspectRecord (enClient engine) MessageStateRevisionCollection (ocRevisionRKey claim) w1 = (Ok r2, w') ∧
    DecodeRevisionRecord (default "" (urValue r2)) = Ok held ∧
    StateRevisionRKey (v3.tRepoDID (enTarget engine)) held = Ok (urRKey r2)
}.

Lemma append_exists_value `{Syntax} `{CaseOrbits} {W} (engine : OfficialEngine W) record held k w w' :
  holds_append engine record held w w' → StateRevisionRKey (v3.tRepoDID (enTarget engine)) record = Ok k →
  ∃ e, srRecord e = held ∧ StateRevisionRKey (v3.tRepoDID (enTarget engine)) held = Ok (srRKey e) ∧
    stateAppendExists engine record w =
    (if is_ok (VerifyRevisionRetry (v3.tRepoDID (enTarget engine)) (MkStateRevision k record) e) then Ok true else Err ErrAppendConflict, w').
Proof.
  intros [(ck & r1 & w1 & claim & r2 & Hck & I1 & D1 & Em & Eo & I2 & D2 & Hk2)] Hk. exists (MkStateRevision (urRKey r2) held).
  split; [done|]. split; [exact Hk2|]. unfold stateAppendExists, call_bind. rewrite Hck. unfold returns at 1.
  unfold stored_claim, call_bind, attempt. rewrite I1. unfold returns at 1 2. rewrite D1. unfold returns at 1. cbn [or_error].
  rewrite Em, Eo, !String.eqb_refl. cbn [negb orb]. rewrite I2, D2. unfold returns at 1. cbn [or_error]. rewrite Hk. unfold returns at 1.
  by destruct (is_ok _).
Qed.

Lemma stored_is_itself record t : record = set_rrCreatedAt (stored (set_rrCreatedAt record t)) (rrCreatedAt record) ↔ rrKeywords record ≠ Some [].
Proof.
  unfold stored, set_rrCreatedAt, stored_keywords. destruct record as [? ? ? ? ? ? ? kws ? ? ? ?]. cbn.
  destruct kws as [[|x l]|]; split; naive_solver.
Qed.

(** C6. A repeated append, whose batch is refused because its claim exists, is recognised exactly
    when the revision the claim names carries its own key and differs at most in its time of
    creation; any other revision under the claim is a conflict.  So an exact repetition is
    recognised, but for one case that is not meant: a record whose list of keywords is empty is
    stored without the list and read back without it, and its repetition is a conflict. *)
Theorem retry_recognised `{Syntax} `{CaseOrbits} {W : Type} (engine : OfficialEngine W) (record held : RevisionRecord) (k t : string)
    (w w' : W) (Hheld : holds_append engine record held w w')
    (Hkey : StateRevisionRKey (v3.tRepoDID (enTarget engine)) record = Ok k) :
  let answer := (stateAppendExists engine record w).1 in
  (answer = Ok true ∨ answer = Err ErrAppendConflict) ∧
  (answer = Ok true ↔ record = set_rrCreatedAt held (rrCreatedAt record)) ∧
  (held = stored (set_rrCreatedAt record t) → (answer = Ok true ↔ rrKeywords record ≠ Some [])).
Proof.
  destruct (append_exists_value engine record held k w w' Hheld Hkey) as (e & <- & He & ->). cbn [fst]. cbn zeta.
  pose proof (revision_retry_iff (v3.tRepoDID (enTarget engine)) (MkStateRevision k record) e) as [_ Hiff]. cbn [srRecord srRKey] in Hiff.
  assert (Hanswer : (if is_ok (VerifyRevisionRetry (v3.tRepoDID (enTarget engine)) (MkStateRevision k record) e) then Ok true
      else Err ErrAppendConflict) = Ok true ↔ record = set_rrCreatedAt (srRecord e) (rrCreatedAt record)).
  { destruct (VerifyRevisionRetry _ _ e) as [[]|]; cbn [is_ok]; [split; [intros _; by apply Hiff|done]|].
    split; [done|]. intros Hr. pose proof (proj2 Hiff (conj Hkey (conj He Hr))). done. }
  split; [by destruct (is_ok _); [left|right]|]. split; [exact Hanswer|]. intros Hs. rewrite Hanswer, Hs. apply stored_is_itself.
Qed.

(** ** The sample repository, one mutation later *)

Definition sample_state : ReducedState := Eval vm_compute in
  match example_states.1 with [st] => st | _ => MkReducedState "" "" "" [] [] false false [] "" "" 0 0 end.
Definition sample_target : v3.Target :=
  v3.MkTarget "official-spaces" (otOrigin example_spaces_target) (otSpaceURI example_spaces_target) (otRepoDID example_spaces_target)
    (otEpoch example_spaces_target) (hex_encode (sha256 "certificate")) v3.AuthorityGeneration.
Definition sample_v3 : v3.Snapshot :=
  v3.MkSnapshot v3.ProtocolVersion sample_target sample_revision sample_snapshot_id (digestBytes "manifest") example_states.2
    [snapshot_version sample_target example_version sample_raw] [sample_state].
(** Mark as read, keep in the inbox. *)
Definition sample_mutation : v3.StateMutation := Eval vm_compute in
  v3.MkMutation sample_snapshot_id sample_message_id "op-1" (rsHeads sample_state) (rsHeadsDigest sample_state)
    (rsStateDigest sample_state) (rsHeight sample_state) 1 sample_version_key (rsMailboxIDs sample_state) ["$seen"] false false.
Definition sample_now : time := time_Unix 1709210096 0.
Definition sample_creates : Create_ * Create_ := Eval vm_compute in
  match buildStateCreates example_did (mutation_record sample_state sample_mutation sample_now) with
  | Ok creates => creates
  | Err _ => (MkCreate "" "" "", MkCreate "" "" "")
  end.
Definition kept_record (create : Create_) : SourceRecord :=
  match parse (crValue create) with
  | Some j => source_record (sample_entry (crCollection create) (crRKey create) j)
  | None => MkSourceRecord "" "" "" ""
  end.
Definition sample_kept : list SourceRecord := Eval vm_compute in [kept_record sample_creates.1; kept_record sample_creates.2].
Definition sample_next_id : string := Eval vm_compute in digestBytes "next".
Definition sample_next : officialSpacesInventory :=
  MkInventory example_spaces_target sample_revision sample_next_id sample_commit_cid sample_index_cid (sample_records ++ sample_kept).

Lemma sample_shown : shows example_recovered sample_v3.
Proof.
  destruct example_recovered_value as (Hm & _ & Hs & Hf & Hid). split; rewrite ?Hm, ?Hs, ?Hf, ?Hid; try reflexivity.
Qed.
Lemma sample_valid : validMutation sample_mutation = true.
Proof. vm_compute. reflexivity. Qed.
Lemma sample_admitted : admit_mutation sample_v3 sample_mutation = Ok sample_state.
Proof. vm_compute. reflexivity. Qed.
Lemma sample_built : buildStateCreates example_did (mutation_record sample_state sample_mutation sample_now) = Ok sample_creates.
Proof. vm_compute. reflexivity. Qed.
Lemma sample_stored : batch_stored example_input sample_next sample_creates.
Proof.
  split; [reflexivity|exact_vm|discriminate| |].
  - apply (bool_decide_eq_true_1 (NoDup (record_path <$> oiRecords sample_next))). vm_compute. reflexivity.
  - exists (nth 0 sample_kept (MkSourceRecord "" "" "" "")), (nth 1 sample_kept (MkSourceRecord "" "" "" "")).
    split; [exact (reflexivity _)|]. split.
    + split; [exact_vm|]. split; [reflexivity|]. split; [reflexivity|].
      eexists _, _. split; [vm_compute; reflexivity|]. vm_compute. reflexivity.
    + split; [exact_vm|]. split; [reflexivity|]. split; [reflexivity|].
      eexists _, _. split; [vm_compute; reflexivity|]. vm_compute. reflexivity.
Qed.
Lemma sample_room : history_bytes example_did (oiRecords sample_next) sample_message_id ≤ maxRevisionInventoryBytes.
Proof. vm_compute. discriminate. Qed.

Lemma append_keeps_repository_witness : is_ok (reduceOfficialSpacesInventory background sample_next) = true.
Proof.
  refine (proj2 (proj1 (append_keeps_repository example_input sample_next example_recovered sample_v3 sample_mutation sample_state
    sample_now sample_creates example_reduction_ok sample_shown sample_valid sample_admitted eq_refl sample_built sample_stored)) _).
  split; [vm_compute; discriminate|]. split; [vm_compute; discriminate|exact sample_room].
Defined.

Definition sample_next_reduced : ReducedSourceState := reduced_or_empty (reduceOfficialSpacesInventory background sample_next).
Lemma sample_next_ok : reduceOfficialSpacesInventory background sample_next = Ok sample_next_reduced.
Proof.
  assert (Hok : is_ok (reduceOfficialSpacesInventory background sample_next) = true).
  { apply (append_fits example_input sample_next example_recovered sample_v3 sample_mutation sample_state
      sample_now sample_creates example_reduction_ok sample_shown sample_valid sample_admitted eq_refl sample_built sample_stored).
    split; [vm_compute; discriminate|]. split; [vm_compute; discriminate|exact sample_room]. }
  unfold sample_next_reduced. by destruct (reduceOfficialSpacesInventory background sample_next).
Qed.
Definition sample_after : v3.Snapshot :=
  v3.MkSnapshot v3.ProtocolVersion sample_target sample_revision (rzSnapshotID sample_next_reduced) "" (rzFolders sample_next_reduced)
    ((λ mv, snapshot_version sample_target mv "") <$> rzMessages sample_next_reduced) (rzMessageStates sample_next_reduced).
(** A provider that counts the batches it took. *)
Definition sample_writer : officialWriter nat :=
  MkWriter "official-spaces" example_spaces_target (λ _ w, (Err ErrOther, w)) (λ _ w, (Ok [], S w)) (λ _ _ w, (Err ErrNotFound, w)).
Definition sample_engine : OfficialEngine nat :=
  MkEngine sample_target sample_writer (Some (λ w, (Ok match w with O => sample_v3 | S _ => sample_after end, w))) (λ w, (sample_now, w)).

Lemma sample_run : append_run sample_engine sample_creates example_recovered sample_next_reduced sample_now sample_v3 0%nat 1%nat.
Proof.
  split; [|reflexivity|reflexivity|exact sample_shown].
  exists (λ w, (Ok match w with O => sample_v3 | S _ => sample_after end, w)), sample_after, [], 0%nat, 0%nat, 1%nat.
  do 7 (split; [exact eq_refl|]). split; [exact eq_refl|exact (reflexivity _)|exact (reflexivity _)|].
  cbn [sample_after v3.sMessages]. rewrite <- list_fmap_compose. exact (reflexivity _).
Qed.

Lemma append_state_succeeds_witness : ∃ result, AppendState sample_engine sample_mutation 0%nat = (Ok result, 1%nat) ∧
  result ∈ rzMessageStates sample_next_reduced ∧ rsLogicalMessageID result = v3.mLogicalMessageID sample_mutation ∧
  validMutationResult sample_mutation result = true.
Proof.
  exact (append_state_succeeds sample_engine example_input sample_next example_recovered sample_next_reduced sample_v3 sample_mutation
    sample_state sample_now sample_creates 0%nat 1%nat example_reduction_ok sample_next_ok sample_run sample_valid sample_admitted
    eq_refl eq_refl sample_built sample_stored).
Defined.

(** The same mutation without keywords, appended and repeated a second later. *)
Definition plain_mutation : v3.StateMutation := Eval vm_compute in
  v3.MkMutation sample_snapshot_id sample_message_id "op-2" (rsHeads sample_state) (rsHeadsDigest sample_state)
    (rsStateDigest sample_state) (rsHeight sample_state) 1 sample_version_key (rsMailboxIDs sample_state) [] true false.
Definition plain_record : RevisionRecord := mutation_record sample_state plain_mutation sample_now.
Definition plain_creates : Create_ * Create_ := Eval vm_compute in
  match buildStateCreates example_did plain_record with Ok creates => creates | Err _ => sample_creates end.
Definition plain_retry : RevisionRecord := mutation_record sample_state plain_mutation (sample_now + 1000000000)%Z.
Definition holding_writer : officialWriter nat :=
  MkWriter "official-spaces" example_spaces_target (λ _ w, (Err ErrOther, w)) (λ _ w, (Err ErrExists, w))
    (λ collection rkey w,
       let create := if String.eqb collection MessageStateRevisionCollection then plain_creates.1 else plain_creates.2 in
       (Ok (MkUnverifiedRecord "" collection rkey "" (Some (crValue create))), w)).
Definition holding_engine : OfficialEngine nat :=
  MkEngine sample_target holding_writer (Some (λ w, (Ok sample_v3, w))) (λ w, (sample_now, w)).
Lemma holding : holds_append holding_engine plain_retry (stored plain_record) 0%nat 0%nat.
Proof. split. eexists _, _, _, _, _. repeat (split; [vm_compute; reflexivity|]). vm_compute. reflexivity. Qed.
Lemma plain_retry_key : ∃ k, StateRevisionRKey example_did plain_retry = Ok k.
Proof. eexists. vm_compute. reflexivity. Qed.

Lemma retry_recognised_witness : (stateAppendExists holding_engine plain_retry 0%nat).1 = Err ErrAppendConflict.
Proof.
  destruct plain_retry_key as [k Hk].
  destruct (retry_recognised holding_engine plain_retry (stored plain_record) k (rrCreatedAt plain_record) 0%nat 0%nat holding Hk)
    as ([Hc|Hc] & _ & Hr); [|exact Hc].
  destruct (proj1 (Hr eq_refl) Hc). reflexivity.
Defined.
