(* ===== verification/Serving.v ===== *)
(** * What the handler promises

    The snapshot response is bounded before anything of it is written, and is the JSON of the
    whole response; a request reaches the engine only authenticated, decoded and checked, and
    every answer of the engine is checked before it is served. *)
From S2P Require Import Prelude Sha256 GoStd Syntax Unicode Json Base64 Time Mailbox Repository Canonical Revision.
From S2P Require Import FolderRevision Decode Ipld Car Url SpacesWire Http Client Snapshot Recovery Reduction Content State Engine Handler Append Extended Authority.

(** ** The bounded encoding *)

Section encoding.
Context (limit : Z).

(** The encoder has written the text [t], or the text is beyond the limit. *)
Definition encodes (t : string) (r : result boundedSnapshotJSON) : Prop :=
  match r with
  | Ok e => concat_all (bsChunks e) = t ∧ bsSize e = raw_size t ∧ bsLimit e = limit ∧ (raw_size t ≤ limit)%Z
  | Err _ => (limit < raw_size t)%Z
  end.

Lemma app_nil_l_s (t : string) : "" +:+ t = t.
Proof. reflexivity. Qed.
Lemma raw_size_app a b : raw_size (a +:+ b) = (raw_size a + raw_size b)%Z.
Proof. unfold raw_size. rewrite len_app. lia. Qed.
Lemma raw_size_nonneg a : (0 ≤ raw_size a)%Z.
Proof. unfold raw_size. lia. Qed.
Lemma concat_all_snoc l c : concat_all (l ++ [c]) = concat_all l +:+ c.
Proof. unfold concat_all. induction l as [|x l IH]; cbn; [by rewrite app_nil_r_s|]. by rewrite IH, app_assoc_s. Qed.

Lemma encodes_chunk t e c : encodes t (Ok e) → encodes (t +:+ c) (appendChunk e c).
Proof.
  intros (Ht & Hs & Hl & Hle). unfold appendChunk. rewrite Hs, Hl. destruct (Z.ltb_spec (limit - raw_size t) (raw_size c)); cbn.
  - rewrite raw_size_app. lia.
  - rewrite concat_all_snoc, Ht, raw_size_app. split_and!; [done|lia|done|lia].
Qed.
Lemma encodes_bind t u r k : encodes t r → (∀ e, encodes t (Ok e) → encodes (t +:+ u) (k e)) → encodes (t +:+ u) (result_bind r k).
Proof.
  intros Hr Hk. destruct r as [e|err]; cbn [result_bind]; [by apply Hk|]. cbn in *. rewrite raw_size_app. pose proof (raw_size_nonneg u). lia.
Qed.
Lemma encodes_eq t t' r : t = t' → encodes t r → encodes t' r.
Proof. by intros ->. Qed.

(** Objects without their closing brace. *)
Definition opened (l : list (string * json)) : string := "{" +:+ join_with "," (List.map print_member l).
Lemma print_opened l : print (JObj l) = opened l +:+ "}".
Proof. unfold opened. cbn [print]. by rewrite app_assoc_s. Qed.

Lemma substring_prefix a b : substring 0 (String.length a) (a +:+ b) = a.
Proof. induction a as [|c a IH]; [by destruct b|]. exact (f_equal (String c) IH). Qed.
Lemma suffix_app a b : HasSuffix (a +:+ b) b = true.
Proof. unfold HasSuffix. rewrite rev_string_app. apply HasPrefix_app. Qed.

Lemma encodes_prefix t e l : encodes t (Ok e) → encodes (t +:+ opened l) (appendObjectPrefix e (JObj l)).
Proof.
  intros He. unfold appendObjectPrefix. rewrite print_opened. rewrite (suffix_app (opened l)).
  assert (Hp : HasPrefix (opened l +:+ "}") "{" = true) by (unfold opened; rewrite app_assoc_s; apply (HasPrefix_app "{")).
  rewrite Hp. rewrite len_app.
  assert (Hl : (len (opened l) + len "}" <? 2) = false).
  { apply N.ltb_ge. unfold opened. rewrite len_app. change (len "{") with 1. change (len "}") with 1. lia. }
  rewrite Hl. cbn [negb orb]. rewrite length_app_s. change (String.length "}") with 1%nat.
  rewrite Nat.add_sub, substring_prefix. by apply encodes_chunk.
Qed.

Definition array_rest (l : list json) : string := concat_all (List.map (λ v, "," +:+ print v) l).
Lemma array_rest_cons v l : array_rest (v :: l) = "," +:+ print v +:+ array_rest l.
Proof. unfold array_rest, concat_all. cbn [List.map fold_right]. by rewrite app_assoc_s. Qed.
Lemma array_items v l : join_with "," (List.map print (v :: l)) = print v +:+ array_rest l.
Proof.
  revert v. induction l as [|x l IH]; intros v; [by rewrite app_nil_r_s|].
  change (List.map print (v :: x :: l)) with (print v :: print x :: List.map print l). rewrite join_cons.
  change (print x :: List.map print l) with (List.map print (x :: l)). by rewrite IH, array_rest_cons.
Qed.

Lemma encodes_rest l : ∀ t e, encodes t (Ok e) →
  match range append_item l (e, false) with Ok s => encodes (t +:+ array_rest l) (Ok s.1) | Err err => encodes (t +:+ array_rest l) (Err err) end.
Proof.
  induction l as [|v l IH]; intros t e He; [by rewrite app_nil_r_s|]. cbn [range]. unfold append_item at 1. cbn [fst snd].
  pose proof (encodes_chunk t e "," He) as H1. destruct (appendChunk e ",") as [e1|err]; cbn [result_bind].
  - pose proof (encodes_chunk _ e1 (print v) H1) as H2. destruct (appendChunk e1 (print v)) as [e2|err]; cbn [result_bind].
    + specialize (IH _ e2 H2). replace (t +:+ array_rest (v :: l)) with (((t +:+ ",") +:+ print v) +:+ array_rest l); [done|].
      by rewrite array_rest_cons, !app_assoc_s.
    + unfold encodes in *. rewrite !raw_size_app in *. rewrite array_rest_cons, !raw_size_app.
      pose proof (raw_size_nonneg (array_rest l)). lia.
  - unfold encodes in *. rewrite !raw_size_app in *. rewrite array_rest_cons, !raw_size_app.
    pose proof (raw_size_nonneg (array_rest l)). pose proof (raw_size_nonneg (print v)). lia.
Qed.

Lemma encodes_array t e l : encodes t (Ok e) → encodes (t +:+ print (appended_json l)) (appendSnapshotArray e l).
Proof.
  intros He. unfold appendSnapshotArray. destruct l as [|v l]; [by apply encodes_chunk|].
  replace (t +:+ print (appended_json (v :: l))) with ((t +:+ "[") +:+ (print v +:+ array_rest l +:+ "]")).
  2: { cbn [appended_json print]. rewrite array_items. by rewrite !app_assoc_s. }
  apply encodes_bind; [by apply encodes_chunk|]. intros e1 H1. cbn [range]. unfold append_item at 1. cbn [fst snd result_bind].
  pose proof (encodes_chunk _ e1 (print v) H1) as H2. destruct (appendChunk e1 (print v)) as [e2|err]; cbn [result_bind].
  - pose proof (encodes_rest l _ e2 H2) as H3. destruct (range append_item l (e2, false)) as [[e3 b]|err]; cbn [result_bind fst] in *.
    + rewrite !app_assoc_s. rewrite !app_assoc_s in H3. pose proof (encodes_chunk _ e3 "]" H3) as H4. by rewrite !app_assoc_s in H4.
    + unfold encodes in *. rewrite !raw_size_app in *. change (raw_size "]") with 1%Z. lia.
  - unfold encodes in *. rewrite !raw_size_app in *. pose proof (raw_size_nonneg (array_rest l)). change (raw_size "]") with 1%Z. lia.
Qed.

(** A member after others. *)
Lemma opened_more l k v : l ≠ [] → opened (l ++ [(k, v)]) = opened l +:+ ("," +:+ quote k +:+ ":") +:+ print v.
Proof.
  intros Hl. unfold opened. rewrite !app_assoc_s. f_equal. rewrite List.map_app. cbn [List.map]. unfold print_member at 2. cbn [fst snd].
  induction l as [|x l IH]; [done|]. destruct l as [|y l].
  - cbn [List.map app join_with]. by rewrite ?app_assoc_s.
  - change (List.map print_member (x :: y :: l)) with (print_member x :: print_member y :: List.map print_member l).
    cbn [app]. rewrite !join_cons. change (print_member y :: List.map print_member l ++ ?z) with (List.map print_member (y :: l) ++ z).
    rewrite IH by done. cbn [List.map]. by rewrite !app_assoc_s.
Qed.

End encoding.

Definition snapshot_response (target : v3.Target) (snapshot : v3.Snapshot) : json :=
  JObj (response_header target ++ [("snapshot", snapshot_json snapshot)]).

(** The text of the response in the pieces the encoder writes. *)
Lemma response_pieces target snapshot :
  print (snapshot_response target snapshot) +:+ byte 10 =
  opened (response_header target) +:+ ("," +:+ quote "snapshot" +:+ ":") +:+ opened (snapshot_header snapshot) +:+
  ("," +:+ quote "folders" +:+ ":") +:+ print (appended_json (List.map reduced_folder_json (v3.sFolders snapshot))) +:+
  ("," +:+ quote "messages" +:+ ":") +:+ print (appended_json (List.map version_json (v3.sMessages snapshot))) +:+
  ("," +:+ quote "states" +:+ ":") +:+ print (appended_json (List.map reduced_state_json (v3.sStates snapshot))) +:+
  ("}}" +:+ byte 10).
Proof.
  unfold snapshot_response, snapshot_json. rewrite print_opened, opened_more by done. rewrite print_opened.
  change (?a ++ [?x; ?y; ?z]) with (a ++ ([x] ++ [y] ++ [z])). rewrite !app_assoc.
  rewrite !opened_more by (try done; by destruct (snapshot_header snapshot)). by rewrite !app_assoc_s.
Qed.

(** The encoder writes a piece after the text [t], which is then any text. *)
Ltac write_piece lemma :=
  match goal with
  | He : encodes ?limit ?t (Ok ?e) |- encodes ?limit (?t +:+ (?p +:+ ?q)) (result_bind ?r ?k) =>
      rewrite <- (app_assoc_s t p q);
      refine (encodes_bind limit (t +:+ p) q r k (lemma _ _ _ He) _);
      clear He; generalize (t +:+ p); clear t e;
      let t' := fresh "t" in let e' := fresh "e" in let He' := fresh "He" in intros t' e' He'; cbv beta
  end.

Lemma encodes_response target snapshot limit : (0 < limit)%Z →
  encodes limit (print (snapshot_response target snapshot) +:+ byte 10) (encodeBoundedSnapshotJSON target snapshot limit).
Proof.
  intros Hl. rewrite response_pieces. unfold encodeBoundedSnapshotJSON. rewrite (proj2 (Z.leb_gt _ _) Hl).
  assert (He : encodes limit "" (Ok (MkBounded [] 0 limit))) by (repeat split; exact (Z.lt_le_incl _ _ Hl)).
  match goal with |- encodes _ ?text (result_bind (appendObjectPrefix ?e0 ?j) ?k) =>
    rewrite <- (app_nil_l_s text);
    enough (Hall : ∀ t e, encodes limit t (Ok e) → encodes limit (t +:+ text) (result_bind (appendObjectPrefix e j) k))
      by exact (Hall _ _ He)
  end.
  clear He. intros t e He. write_piece (encodes_prefix limit). write_piece (encodes_chunk limit).
  write_piece (encodes_prefix limit). do 3 (write_piece (encodes_chunk limit); write_piece (encodes_array limit)).
  exact (encodes_chunk limit _ _ _ He).
Qed.

(** C8. The snapshot response is encoded within its limit or not at all: for every limit the bounded
    encoder succeeds exactly when the JSON of the whole response, with its newline, fits a
    positive limit; its chunks are then that text and its size is the recorded one. *)
Theorem bounded_encoding target snapshot limit :
  let text := print (snapshot_response target snapshot) +:+ byte 10 in
  match encodeBoundedSnapshotJSON target snapshot limit with
  | Ok e => concat_all (bsChunks e) = text ∧ bsSize e = raw_size text ∧ (raw_size text ≤ limit)%Z
  | Err _ => (limit < raw_size text)%Z
  end.
Proof.
  cbv zeta. destruct (Z.ltb_spec 0 limit) as [Hl|Hl].
  - pose proof (encodes_response target snapshot limit Hl) as H. destruct (encodeBoundedSnapshotJSON target snapshot limit) as [e|err]; [|exact H].
    destruct H as (H1 & H2 & _ & H4). exact (conj H1 (conj H2 H4)).
  - unfold encodeBoundedSnapshotJSON. rewrite (proj2 (Z.leb_le _ _) Hl). cbv iota. rewrite raw_size_app.
    change (raw_size (byte 10)) with 1%Z. pose proof (raw_size_nonneg (print (snapshot_response target snapshot))). lia.
Qed.

(** ** What is served *)

(** The request a path asks for, decoded and found valid for the target. *)
Inductive asked : Type :=
  | AskCapabilities
  | AskStore (recipientDID : string) (placement : v3.Placement) (raw : string)
  | AskSnapshot
  | AskAppend (mutation : v3.StateMutation).

Section served.
Context `{CaseOrbits}.

Inductive requests (target : v3.Target) (body : reader) : string → asked → Prop :=
  | requests_capabilities : decode_target_request body = Ok (v3.ProtocolVersion, target, tt) →
      requests target body "/v3/capabilities" AskCapabilities
  | requests_store placement raw :
      decode_store_request body = Ok (MkStoreRequest v3.ProtocolVersion target (v3.tRepoDID target) placement raw) →
      0 < len raw ≤ MaxRawMessageBytes → validPlacement (decoded_placement placement) = true →
      requests target body "/v3/messages/store" (AskStore (v3.tRepoDID target) (decoded_placement placement) raw)
  | requests_snapshot : decode_target_request body = Ok (v3.ProtocolVersion, target, tt) →
      requests target body "/v3/snapshot" AskSnapshot
  | requests_append mutation : decode_state_request body = Ok (v3.ProtocolVersion, target, mutation) →
      validMutation mutation = true → requests target body "/v3/state/append" (AskAppend mutation).

(** The engine's answer to it, checked, with the members of the response it gives. *)
Inductive answers {W} (engine : Engine W) (target : v3.Target) (w w' : W) : asked → list (string * json) → Prop :=
  | answers_capabilities c : egCapabilities engine w = (Ok c, w') → supports c target = true →
      answers engine target w w' AskCapabilities [("capabilities", capabilities_json c)]
  | answers_store recipientDID placement raw r :
      egStore engine (v3.MkStoreInput recipientDID placement raw) w = (Ok r, w') →
      r = v3.MkReceipt target (deliveryFingerprint recipientDID (v3.pSourceKey placement) raw) (RawSHA256 raw) (raw_size raw) true →
      answers engine target w w' (AskStore recipientDID placement raw) [("receipt", receipt_json r)]
  | answers_snapshot s : egSnapshot engine w = (Ok s, w') → validSnapshot s target = true →
      (raw_size (print (snapshot_response target s) +:+ byte 10) ≤ maxSnapshotResponseBytes)%Z →
      answers engine target w w' AskSnapshot [("snapshot", snapshot_json s)]
  | answers_append mutation state : egAppendState engine mutation w = (Ok state, w') → validMutationResult mutation state = true →
      answers engine target w w' (AskAppend mutation)
        [("operationId", JStr (v3.mOperationID mutation)); ("state", reduced_state_json state)].

(** The bearer token is the configured one, up to a collision of its hash. *)
Definition bears (token header : string) : Prop :=
  ∃ presented, header = "Bearer " +:+ presented ∧ presented ≠ "" ∧ (presented = token ∨ collision presented token).

Lemma authorized_bears {W} token target (engine : Engine W) header :
  authorized (MkHandler (sha256 token) target engine) header = true → bears token header.
Proof.
  unfold authorized. destruct (HasPrefix header "Bearer ") eqn:Hp; [|discriminate]. cbn [negb orb].
  apply HasPrefix_spec in Hp as [presented ->]. rewrite len_app, TrimPrefix_app. cbn [hdTokenHash].
  destruct (N.leb_spec (len "Bearer " + len presented) (len "Bearer ")) as [|Hl]; [discriminate|]. cbn [orb].
  destruct (_ <? _); [discriminate|]. intros Hs%String.eqb_eq. exists presented. split_and!; [done| |].
  - intros ->. change (len "") with 0 in Hl. lia.
  - destruct (decide (presented = token)) as [|Hne]; [by left|right; exact (conj Hne Hs)].
Qed.
Lemma token_authorized {W} token target (engine : Engine W) : token ≠ "" → len token ≤ 16 * 1024 →
  authorized (MkHandler (sha256 token) target engine) ("Bearer " +:+ token) = true.
Proof.
  intros Hne Hl. unfold authorized. rewrite HasPrefix_app, TrimPrefix_app, len_app. cbn [negb orb hdTokenHash].
  assert (Hpos : 0 < len token) by (destruct token; [done|unfold len; cbn [String.length]; lia]).
  rewrite (proj2 (N.leb_gt _ _)) by lia. rewrite (proj2 (N.ltb_ge _ _)) by lia. apply String.eqb_refl.
Qed.

Definition served (target : v3.Target) (members : list (string * json)) : server_response :=
  MkServerResponse 200 false (print (JObj (response_header target ++ members)) +:+ byte 10).

(** Every route either serves a checked answer, or refuses the request untouched, or reports a failure. *)
Definition outcome {W} (engine : Engine W) (target : v3.Target) (body : reader) (w : W) (path : string)
    (r : server_response * W) : Prop :=
  (∃ ask members, requests target body path ask ∧ answers engine target w r.2 ask members ∧ r.1 = served target members) ∨
  (∃ ask, requests target body path ask ∧ (spStatus r.1 = 409%Z ∨ spStatus r.1 = 502%Z) ∧ ∀ members, ¬ answers engine target w r.2 ask members) ∨
  (spStatus r.1 = 400%Z ∧ r.2 = w ∧ ∀ ask, ¬ requests target body path ask).

Lemma for_target_spec {W} token target (engine : Engine W) version t :
  for_target (MkHandler token target engine) version t = true ↔ version = v3.ProtocolVersion ∧ t = target.
Proof. unfold for_target. cbn [hdTarget]. by rewrite andb_true_iff, Z.eqb_eq, bool_decide_eq_true. Qed.

(** The body does not hold a valid request for the target; the engine's answer is not one to serve. *)
Ltac refused := right; right; split_and!; [done|done|let ask := fresh "ask" in let Hr := fresh "Hr" in intros ask Hr; inversion Hr; congruence].
Ltac unanswered := let ms := fresh "ms" in let Ha := fresh "Ha" in intros ms Ha; inversion Ha; cbn in *; congruence.
Ltac not_for_target token target engine version t :=
  let ask := fresh "ask" in let Hr := fresh "Hr" in let Ht := fresh "Ht" in
  right; right; split_and!; [done|done|intros ask Hr;
    assert (version = v3.ProtocolVersion ∧ t = target) as Ht by (inversion Hr; split; congruence);
    apply (for_target_spec token target engine) in Ht; congruence].

Lemma serve_capabilities_outcome {W} token target (engine : Engine W) body w :
  outcome engine target body w "/v3/capabilities" (serve_capabilities (MkHandler token target engine) body w).
Proof.
  unfold serve_capabilities. destruct (decode_target_request body) as [[[version t] []]|e] eqn:Hd.
  2: { refused. }
  destruct (for_target _ _ _) eqn:Hf; cbn [negb].
  2: { not_for_target token target engine version t. }
  apply for_target_spec in Hf as [-> ->]. cbn [hdEngine hdTarget].
  destruct (egCapabilities engine w) as [[c|e] w'] eqn:He.
  2: { right. left. exists AskCapabilities. split_and!; [by constructor|by right|unanswered]. }
  destruct (supports c target) eqn:Hs; cbn [negb].
  - left. exists AskCapabilities, [("capabilities", capabilities_json c)]. split_and!; [by constructor|by constructor|done].
  - right. left. exists AskCapabilities. split_and!; [by constructor|by right|unanswered].
Qed.

Lemma serve_snapshot_outcome {W} token target (engine : Engine W) body w :
  outcome engine target body w "/v3/snapshot" (serve_snapshot (MkHandler token target engine) body w).
Proof.
  unfold serve_snapshot. destruct (decode_target_request body) as [[[version t] []]|e] eqn:Hd.
  2: { refused. }
  destruct (for_target _ _ _) eqn:Hf; cbn [negb].
  2: { not_for_target token target engine version t. }
  apply for_target_spec in Hf as [-> ->]. cbn [hdEngine hdTarget].
  destruct (egSnapshot engine w) as [[s|e] w'] eqn:He.
  2: { right. left. exists AskSnapshot. split_and!; [by constructor|by right|unanswered]. }
  destruct (validSnapshot s target) eqn:Hs; cbn [negb].
  2: { right. left. exists AskSnapshot. split_and!; [by constructor|by right|unanswered]. }
  pose proof (encodes_response target s maxSnapshotResponseBytes eq_refl) as Hb.
  destruct (encodeBoundedSnapshotJSON target s maxSnapshotResponseBytes) as [e|err].
  - destruct Hb as (Ht & _ & _ & Hle). left. exists AskSnapshot, [("snapshot", snapshot_json s)].
    split_and!; [by constructor|by constructor|]. exact (f_equal (MkServerResponse 200 false) Ht).
  - right. left. exists AskSnapshot. split_and!; [by constructor|by right|]. intros ms Ha.
    inversion Ha as [| |s' Hs' _ Hle|]. cbn [snd] in Hs'. rewrite He in Hs'. injection Hs' as <-. exact (proj1 (Z.lt_nge _ _) Hb Hle).
Qed.

Lemma serve_append_outcome {W} token target (engine : Engine W) body w :
  outcome engine target body w "/v3/state/append" (serve_append (MkHandler token target engine) body w).
Proof.
  unfold serve_append. destruct (decode_state_request body) as [[[version t] m]|e] eqn:Hd.
  2: { refused. }
  destruct (for_target _ _ _) eqn:Hf; cbn [negb orb].
  2: { not_for_target token target engine version t. }
  apply for_target_spec in Hf as [-> ->]. destruct (validMutation m) eqn:Hm; cbn [negb].
  2: { refused. }
  cbn [hdEngine hdTarget]. destruct (egAppendState engine m w) as [[state|e] w'] eqn:He.
  2: { right. left. exists (AskAppend m). split_and!; [by constructor| |].
       - destruct (errors_Is e ErrAppendConflict); [by left|by right].
       - unanswered. }
  destruct (validMutationResult m state) eqn:Hs; cbn [negb].
  - left. eexists (AskAppend m), _. split_and!; [by constructor|by constructor|done].
  - right. left. exists (AskAppend m). split_and!; [by constructor|by right|unanswered].
Qed.

Lemma receipt_matches_spec {W} token target (engine : Engine W) recipient key raw r :
  receipt_matches (MkHandler token target engine) recipient key raw r = true ↔
  r = v3.MkReceipt target (deliveryFingerprint recipient key raw) (RawSHA256 raw) (raw_size raw) true.
Proof.
  unfold receipt_matches. cbn [hdTarget]. rewrite !andb_true_iff, bool_decide_eq_true, !String.eqb_eq, Z.eqb_eq.
  change (sourceFingerprint recipient key raw) with (deliveryFingerprint recipient key raw).
  change (rawSHA256 raw) with (RawSHA256 raw). destruct r as [t f h n v]. cbn. split; [intros ((((-> & ->) & ->) & ->) & ->)|intros [= -> -> -> -> ->]]; done.
Qed.

Lemma serve_store_outcome {W} token target (engine : Engine W) body w :
  outcome engine target body w "/v3/messages/store" (serve_store (MkHandler token target engine) body w).
Proof.
  unfold serve_store. destruct (decode_store_request body) as [[version t recipient placement raw]|e] eqn:Hd.
  2: { refused. }
  destruct (valid_store_request _ _) eqn:Hf; cbn [negb].
  2: { right. right. split_and!; [done|done|]. intros ask Hr. inversion Hr as [|placement' raw' Hd' Hl Hp| |]. rewrite Hd in Hd'.
       injection Hd' as -> -> -> -> ->. unfold valid_store_request in Hf. cbn [sqVersion sqTarget sqRecipientDID sqRaw sqPlacement] in Hf.
       rewrite (proj2 (for_target_spec _ _ _ _ _) (conj eq_refl eq_refl)), String.eqb_refl, Hp in Hf. cbn [andb] in Hf.
       rewrite (proj2 (N.eqb_neq _ _)), (proj2 (N.ltb_ge _ _)) in Hf by lia. discriminate. }
  unfold valid_store_request in Hf. cbn [sqVersion sqTarget sqRecipientDID sqRaw sqPlacement hdTarget] in Hf.
  apply andb_true_iff in Hf as [(((-> & ->)%for_target_spec & ->%String.eqb_eq)%andb_true_iff & Hl)%andb_true_iff Hp].
  assert (Hreq : requests target body "/v3/messages/store" (AskStore (v3.tRepoDID target) (decoded_placement placement) raw)).
  { constructor; [done| |done]. apply negb_true_iff, orb_false_iff in Hl as [?%N.eqb_neq ?%N.ltb_ge]. lia. }
  cbn [hdEngine hdTarget sqRecipientDID sqPlacement sqRaw].
  destruct (egStore engine _ w) as [[r|e] w'] eqn:He.
  2: { right. left. eexists. split_and!; [exact Hreq|by right|unanswered]. }
  destruct (receipt_matches _ _ _ _ _) eqn:Hs; cbn [negb].
  - left. eexists _, _. split_and!; [exact Hreq|econstructor; [exact He|]|done]. by apply receipt_matches_spec in Hs.
  - right. left. eexists. split_and!; [exact Hreq|by right|]. intros ms Ha.
    inversion Ha as [|? ? ? r' Hr' Heq| |]. cbn [snd] in Hr'. rewrite He in Hr'. injection Hr' as ->.
    apply (receipt_matches_spec token target engine) in Heq. congruence.
Qed.

Lemma requests_unique target body path a b : requests target body path a → requests target body path b → a = b.
Proof. intros Ha Hb. inversion Ha; subst; inversion Hb; subst; congruence. Qed.
Lemma answers_unique {W} (engine : Engine W) target w w' ask m n :
  answers engine target w w' ask m → answers engine target w w' ask n → m = n.
Proof. intros Ha Hb. inversion Ha; subst; inversion Hb; subst; congruence. Qed.
Lemma outcome_answered {W} (engine : Engine W) target body w path r ask members :
  outcome engine target body w path r → requests target body path ask → answers engine target w r.2 ask members → r.1 = served target members.
Proof.
  intros [(a & m & Hr & Ha & ->)|[(a & Hr & _ & Hn)|(_ & _ & Hn)]] Hr' Ha'.
  - rewrite (requests_unique _ _ _ _ _ Hr' Hr) in Ha'. by rewrite (answers_unique _ _ _ _ _ _ _ Ha' Ha).
  - rewrite (requests_unique _ _ _ _ _ Hr' Hr) in Ha'. by destruct (Hn _ Ha').
  - by destruct (Hn _ Hr').
Qed.

Definition routes : list string := ["/v3/capabilities"; "/v3/messages/store"; "/v3/snapshot"; "/v3/state/append"].
Lemma requests_routed target body path ask : requests target body path ask → path ∈ routes.
Proof. intros Hr. inversion Hr; unfold routes; set_solver. Qed.

(** A well-formed exchange: POST, no query, JSON. *)
Definition proper (request : server_request) : Prop :=
  srMethod request = "POST" ∧ srRawQuery request = "" ∧ isJSONContentType (srContentType request) = true.

Lemma serve_outcome {W} token target (engine : Engine W) request w :
  let handler := MkHandler (sha256 token) target engine in
  let r := ServeHTTP handler request w in
  (proper request ∧ authorized handler (srAuthorization request) = true ∧ outcome engine target (srBody request) w (srPath request) r) ∨
  (proper request ∧ authorized handler (srAuthorization request) = true ∧ srPath request ∉ routes ∧ spStatus r.1 = 404%Z ∧ r.2 = w) ∨
  (¬ (proper request ∧ authorized handler (srAuthorization request) = true) ∧
   spStatus r.1 ∈ [400; 401; 405]%Z ∧ r.2 = w).
Proof.
  cbv zeta. unfold ServeHTTP, proper. destruct (String.eqb_spec (srMethod request) "POST") as [->|Hm]; cbn [negb].
  2: { right. right. split_and!; [by intros [[? _] _]|cbn; set_solver|done]. }
  destruct (authorized _ _) eqn:Ha; cbn [negb].
  2: { right. right. split_and!; [by intros [_ ?]|cbn; set_solver|done]. }
  destruct (String.eqb_spec (srRawQuery request) "") as [->|Hq]; cbn [negb orb].
  2: { right. right. split_and!; [by intros [(_ & ? & _) _]|cbn; set_solver|done]. }
  destruct (isJSONContentType _) eqn:Hj; cbn [negb].
  2: { right. right. split_and!; [by intros [(_ & _ & ?) _]|cbn; set_solver|done]. }
  unfold routes.
  destruct (String.eqb_spec (srPath request) "/v3/capabilities") as [->|]; [left; split_and!; try done; apply serve_capabilities_outcome|].
  destruct (String.eqb_spec (srPath request) "/v3/messages/store") as [->|]; [left; split_and!; try done; apply serve_store_outcome|].
  destruct (String.eqb_spec (srPath request) "/v3/snapshot") as [->|]; [left; split_and!; try done; apply serve_snapshot_outcome|].
  destruct (String.eqb_spec (srPath request) "/v3/state/append") as [->|]; [left; split_and!; try done; apply serve_append_outcome|].
  right. left. split_and!; [done..| |done|done]. set_solver.
Qed.

(** C7. The handler serves checked answers to authenticated, valid requests and to nothing else.
    Unless the request is a POST of JSON without a query whose bearer token is the configured one
    (or collides with its SHA-256) and whose body decodes to a valid request for this target, the
    engine is not called at all and the status is 400, 401, 404 or 405.  Status 200 is given only with
    an answer of the engine that passed its check: capabilities the target needs, a receipt for exactly
    the bytes sent, a valid snapshot within the response limit, or the state the mutation asked for.
    Conversely every such answer to such a request is served. *)
Theorem handler_serves_checked {W} token target (engine : Engine W) handler request w :
  NewHandler token target (Some engine) = Ok handler →
  let r := ServeHTTP handler request w in
  ((proper request ∧ bears token (srAuthorization request) ∧ ∃ ask, requests target (srBody request) (srPath request) ask) ∨
   (r.2 = w ∧ spStatus r.1 ∈ [400; 401; 404; 405]%Z)) ∧
  (spStatus r.1 = 200%Z → ∃ ask members, requests target (srBody request) (srPath request) ask ∧
     answers engine target w r.2 ask members ∧ r.1 = served target members) ∧
  (proper request → srAuthorization request = "Bearer " +:+ token → ∀ ask members,
     requests target (srBody request) (srPath request) ask → answers engine target w r.2 ask members → r.1 = served target members).
Proof.
  intros Hnew. unfold NewHandler in Hnew. destruct (String.eqb_spec token "") as [|Hne]; [discriminate|].
  destruct (N.ltb_spec (16 * 1024) (len token)) as [|Hl]; [discriminate|]. destruct (ContainsAny token line_breaks); [discriminate|].
  cbn [orb opt_result result_bind] in Hnew. destruct (validTarget target); [|discriminate]. injection Hnew as <-.
  cbv zeta. destruct (serve_outcome token target engine request w) as [(Hp & Ha & Ho)|[(Hp & Ha & Hr & Hs & Hw)|(Hn & Hs & Hw)]].
  - split_and!; [|destruct Ho as [(a & m & H1 & H2 & H3)|[(a & H1 & H2 & _)|(H1 & _)]]|].
    + apply authorized_bears in Ha. destruct Ho as [(a & m & H1 & _)|[(a & H1 & _)|(H1 & H2 & _)]]; [eauto|eauto|].
      right. split; [done|]. rewrite H1. set_solver.
    + by exists a, m.
    + intros Hs. rewrite Hs in H2. by destruct H2.
    + intros Hs. congruence.
    + intros _ _ ask members. by apply outcome_answered with (path := srPath request) (body := srBody request).
  - split_and!; [right; rewrite Hs; split; [done|set_solver]|congruence|].
    intros _ _ ask members Hreq%requests_routed. by destruct Hr.
  - split_and!; [right; split; [done|set_solver]|intros H2; rewrite H2 in Hs; set_solver|].
    intros Hp Hb. destruct Hn. split; [done|]. rewrite Hb. by apply token_authorized.
Qed.

End served.

(** A request for the capabilities of the sample repository. *)
Definition sample_handler : Handler nat := MkHandler (sha256 "secret") sample_target (official_engine sample_engine).
Definition capabilities_body : string :=
  print (JObj [("version", JNum "3"); ("target", v3_target_json sample_target)]).
Definition capabilities_request : server_request :=
  MkServerRequest "POST" "Bearer secret" "" "application/json; charset=utf-8" "/v3/capabilities" (MkReader capabilities_body false).
Lemma capabilities_asked : requests sample_target (srBody capabilities_request) "/v3/capabilities" AskCapabilities.
Proof. constructor. vm_compute. reflexivity. Qed.

Lemma sample_handler_new : NewHandler "secret" sample_target (Some (official_engine sample_engine)) = Ok sample_handler.
Proof.
  unfold NewHandler. assert (Hv : validTarget sample_target = true) by (vm_compute; reflexivity). rewrite Hv. exact eq_refl.
Qed.

Lemma handler_serves_checked_witness : spStatus (ServeHTTP sample_handler capabilities_request 0%nat).1 = 200%Z.
Proof.
  refine (f_equal spStatus (proj2 (proj2 (handler_serves_checked "secret" sample_target (official_engine sample_engine) sample_handler
    capabilities_request 0%nat sample_handler_new)) _ _ AskCapabilities _ capabilities_asked _)).
  - split; [reflexivity|]. split; [reflexivity|]. vm_compute. reflexivity.
  - reflexivity.
  - apply (answers_capabilities _ _ _ _ (engine_Capabilities sample_engine)); [vm_compute; reflexivity|]. vm_compute. reflexivity.
Defined.
