(* ===== verification/Projection.v ===== *)
(** * internal/projection/projection.go: the disposable SQLite projection

    [Rebuild] reads every folder, state and message of a mailbox, refuses an inconsistent record
    graph, gives every message of a folder an IMAP UID, and writes one fresh database.  The file
    system and the database are an interface, [Files]: what the rebuild relies on of them is
    stated by [FilesLaws].  A map is ranged over in the order of [map_to_list]; nothing below
    depends on which order that is. *)
From S2P Require Import Prelude Sha256 GoStd Syntax Unicode Json Url Mailbox Repository Reduction Recovered.

(** ** The database

    What [Rebuild] executes, with the columns it fills. *)

Record message_row : Type := MkMessageRow {
  rwRKey : string;
  rwRaw : string;
  rwSHA256 : string;
  rwSize : Z;
  rwKeywords : string;
  rwDeletePending : bool;
  rwSourceMessageID : string;
  rwMessageDate : string;
  rwInReplyTo : string;
  rwReferences : string
}.
Inductive statement : Type :=
  | CreateTables
  | InsertMeta (target : Target)
  | Begin
  | InsertFolder (rkey : string) (folder : FolderRecord)
  | InsertMessage (row : message_row)
  | InsertMembership (rkey mailbox : string) (identity : ProjectionIdentity)
  | CommitTx.

Class Files (W : Type) : Type := {
  (** whether there is something at a path *)
  Lstat : string → W → result bool * W;
  MkdirAll : string → W → result unit * W;
  Chmod : string → W → result unit * W;
  (** its error is ignored *)
  RemoveFile : string → W → W;
  db_Open : string → W → result N * W;
  db_Exec : N → statement → W → result unit * W;
  db_Close : N → W → result unit * W;
  (** not part of the Go interface: the statements that succeeded on a handle *)
  executed : W → N → list statement
}.

(** ** Reports *)

Record Mismatch : Type := MkMismatch { mtKind : string; mtKey : string }.
Record Report : Type := MkReport {
  rtVersion : Z;
  rtTarget : Target;
  rtFolders : Z;
  rtMessages : Z;
  rtStates : Z;
  rtTombstones : Z;
  rtTotalBytes : Z;
  rtManifestSHA256 : string;
  rtMismatches : list Mismatch
}.
Definition Passed (r : Report) : bool :=
  (match rtMismatches r with [] => true | _ => false end) && (rtMessages r =? rtStates r)%Z && negb (String.eqb (rtManifestSHA256 r) "").

Definition outcome : Type := (Report * option error)%type.
(** A call whose error ends the rebuild with the report so far. *)
Definition guarded {W A} (report : Report) (m : W → result A * W) (k : A → W → outcome * W) : W → outcome * W := λ w,
  match m w with (Ok a, w) => k a w | (Err e, w) => ((report, Some e), w) end.
Notation "'guard' x := m 'else' r 'in' k" := (guarded r m (λ x, k))
  (at level 10, x pattern, m at level 99, r at level 99, k at level 200,
   format "'[v' 'guard'  x  :=  m  'else'  r  'in' '/' k ']'") : go_scope.

(** ** The record graph *)

Record decodedMessage : Type := MkDecodedMessage {
  dmRecord : Record_;
  dmValue : MessageRecord;
  dmState : MessageStateRecord
}.
Definition dm_key (item : decodedMessage) : string := rcRKey (dmRecord item).
Definition dm_folders (item : decodedMessage) : list string := elems (msMailboxIDs (dmState item)).

Definition read_folder (record : Record_) : option FolderRecord :=
  match unmarshal_folder (rcValue record) with
  | Some folder =>
      if negb (String.eqb (fdType folder) FolderCollection) || String.eqb (fdName folder) "" ||
        negb (String.eqb (rcRKey record) (FolderRKey (fdName folder))) then None else Some folder
  | None => None
  end.
Definition scan_folder (s : gmap string FolderRecord * list Mismatch) (record : Record_) :
    gmap string FolderRecord * list Mismatch :=
  match read_folder record with
  | Some folder => (<[rcRKey record := folder]> s.1, s.2)
  | None => (s.1, s.2 ++ [MkMismatch "folder-integrity" (rcRKey record)])
  end.

Definition read_state (record : Record_) : option MessageStateRecord :=
  match unmarshal_state (rcValue record) with
  | Some state =>
      if negb (String.eqb (msType state) MessageStateCollection) || negb (String.eqb (msMessage state) (rcRKey record)) ||
        (msRevision state =? 0) || (llen (elems (msMailboxIDs state)) =? 0) || (msTombstone state && msDeletePending state)
      then None else Some state
  | None => None
  end.
(** Every folder is known and named once. *)
Fixpoint valid_folders (folders : gmap string FolderRecord) (seenFolderIDs : gset string) (folderIDs : list string) : bool :=
  match folderIDs with
  | [] => true
  | folderID :: rest =>
      if bool_decide (folderID ∈ seenFolderIDs) then false
      else if is_some (folders !! folderID) then valid_folders folders ({[folderID]} ∪ seenFolderIDs) rest
      else false
  end.
(** A preserved identity is of the one folder's own generation. *)
Definition preserved_uid (folderIDs : list string) (p : ProjectionIdentity) : bool := (llen folderIDs =? 1) && (0 <? piUID p).
Definition folder_validity (folders : gmap string FolderRecord) (folderID : string) : N :=
  match folders !! folderID with Some folder => fdUIDValidity folder | None => 0 end.
Definition state_mismatch (folders : gmap string FolderRecord) (state : MessageStateRecord) : option string :=
  let folderIDs := elems (msMailboxIDs state) in
  if negb (valid_folders folders ∅ folderIDs) then Some "state-folder"
  else if preserved_uid folderIDs (msProjection state) &&
    negb (piUIDValidity (msProjection state) =? folder_validity folders (default "" (head folderIDs))) then Some "projection-identity"
  else None.
Definition scan_state (folders : gmap string FolderRecord) (s : gmap string MessageStateRecord * list Mismatch)
    (record : Record_) : gmap string MessageStateRecord * list Mismatch :=
  match read_state record with
  | None => (s.1, s.2 ++ [MkMismatch "state-integrity" (rcRKey record)])
  | Some state =>
      match state_mismatch folders state with
      | Some kind => (s.1, s.2 ++ [MkMismatch kind (rcRKey record)])
      | None => (<[rcRKey record := state]> s.1, s.2)
      end
  end.

Definition scan_message (states : gmap string MessageStateRecord)
    (s : list decodedMessage * gset string * list Mismatch) (record : Record_) :
    list decodedMessage * gset string * list Mismatch :=
  let '(messages, seen, mismatches) := s in
  match unmarshal_message (rcValue record) with
  | None => (messages, seen, mismatches ++ [MkMismatch "message-record" (rcRKey record)])
  | Some message =>
      match states !! rcRKey record with
      | None => (messages, seen, mismatches ++ [MkMismatch "missing-state" (rcRKey record)])
      | Some state => (messages ++ [MkDecodedMessage record message state], {[rcRKey record]} ∪ seen, mismatches)
      end
  end.
Definition scan_orphans (states : gmap string MessageStateRecord) (seen : gset string) : list Mismatch :=
  List.map (λ kv, MkMismatch "orphan-state" kv.1) (List.filter (λ kv, negb (bool_decide (kv.1 ∈ seen))) (map_to_list states)).

Definition mismatch_key (m : Mismatch) : string := mtKind m +:+ NUL +:+ mtKey m.
Definition sortMismatches (items : list Mismatch) : list Mismatch := sort_by mismatch_key items.

(** ** Identities: the UIDs of the messages of each folder *)

Notation identity_map := (gmap string (gmap string ProjectionIdentity)).
Definition identity_of (identities : identity_map) (rkey folderID : string) : option ProjectionIdentity :=
  identities !! rkey ≫= lookup folderID.

Definition by_folder (s : identity_map * gmap string (list decodedMessage)) (item : decodedMessage) :
    identity_map * gmap string (list decodedMessage) :=
  if msTombstone (dmState item) then s
  else (<[dm_key item := ∅]> s.1, fold_left push (List.map (λ folderID, (folderID, item)) (dm_folders item)) s.2).

Definition dm_preserved (item : decodedMessage) : bool := preserved_uid (dm_folders item) (msProjection (dmState item)).
(** The identity a state preserves: a zero modification sequence becomes one. *)
Definition preserved_identity (item : decodedMessage) : ProjectionIdentity :=
  let identity := msProjection (dmState item) in
  if piModSeq identity =? 0 then MkProjectionIdentity (piUID identity) (piUIDValidity identity) 1 else identity.
Definition keep_identity (folderID : string) (s : identity_map * gset N) (item : decodedMessage) : result (identity_map * gset N) :=
  if dm_preserved item then
    fail_if bool_decide (piUID (msProjection (dmState item)) ∈ s.2) with ErrIntegrity ;;
    let identity := preserved_identity item in
    Ok (put s.1 (dm_key item, (folderID, identity)), {[piUID identity]} ∪ s.2)
  else Ok s.

(** [for next != 0 && used[next] { next++ }]; one more step than there are used UIDs is enough. *)
Fixpoint skip_used (fuel : nat) (used : gset N) (next : N) : N :=
  match fuel with
  | O => next
  | S fuel => if negb (next =? 0) && bool_decide (next ∈ used) then skip_used fuel used (u32 (next + 1)) else next
  end.
Definition give_identity (folderID : string) (uidValidity : N) (s : identity_map * gset N * N) (item : decodedMessage) :
    result (identity_map * gset N * N) :=
  let '(identities, used, next) := s in
  if is_some (identity_of identities (dm_key item) folderID) then Ok s
  else
    let next := skip_used (S (size used)) used next in
    fail_if next =? 0 with ErrIntegrity ;;
    Ok (put identities (dm_key item, (folderID, MkProjectionIdentity next uidValidity 1)), {[next]} ∪ used, u32 (next + 1)).

Definition allocate_folder (folders : gmap string FolderRecord) (identities : identity_map)
    (group : string * list decodedMessage) : result identity_map :=
  let items := sort_by dm_key group.2 in
  let? (identities, used) := range (keep_identity group.1) items (identities, ∅) in
  let? (identities, _, _) := range (give_identity group.1 (folder_validity folders group.1)) items (identities, used, 1) in
  Ok identities.
Definition allocateProjectionIdentities (messages : list decodedMessage) (folders : gmap string FolderRecord) : result identity_map :=
  let '(identities, byFolder) := fold_left by_folder messages (∅, ∅) in
  range (allocate_folder folders) (map_to_list byFolder) identities.

(** ** Rebuild *)

Section rebuild.
Context `{Syntax} {W : Type} `{Repository W} `{Files W}.

Definition new_report (target : Target) : Report := MkReport 1 target 0 0 0 0 0 "" [].
Definition set_counts (r : Report) (folders states messages : Z) (mismatches : list Mismatch) : Report :=
  MkReport (rtVersion r) (rtTarget r) folders messages states (rtTombstones r) (rtTotalBytes r) (rtManifestSHA256 r) mismatches.
Definition set_rtManifestSHA256 (r : Report) (x : string) : Report :=
  MkReport (rtVersion r) (rtTarget r) (rtFolders r) (rtMessages r) (rtStates r) (rtTombstones r) (rtTotalBytes r) x (rtMismatches r).
Definition add_bytes (r : Report) (raw : string) : Report :=
  MkReport (rtVersion r) (rtTarget r) (rtFolders r) (rtMessages r) (rtStates r) (rtTombstones r)
    (rtTotalBytes r + raw_size raw) (rtManifestSHA256 r) (rtMismatches r).
Definition add_tombstone (r : Report) : Report :=
  MkReport (rtVersion r) (rtTarget r) (rtFolders r) (rtMessages r) (rtStates r) (rtTombstones r + 1) (rtTotalBytes r)
    (rtManifestSHA256 r) (rtMismatches r).

Definition row_of (item : decodedMessage) (raw : string) : message_row :=
  let message := dmValue item in
  let state := dmState item in
  MkMessageRow (dm_key item) raw (mrSHA256 message) (mrSize message) (print (json_slice (msKeywords state))) (msDeletePending state)
    (mrSourceMessageID message) (mrMessageDate message) (mrInReplyTo message) (print (json_slice (mrReferences message))).
Definition membership (folders : gmap string FolderRecord) (identities : identity_map) (rkey folderID : string) : statement :=
  InsertMembership rkey (match folders !! folderID with Some folder => fdName folder | None => "" end)
    (default (MkProjectionIdentity 0 0 0) (identity_of identities rkey folderID)).
(** What the manifest hashes of a message. *)
Definition manifest_entry (item : decodedMessage) : string :=
  dm_key item +:+ NUL +:+ mrSHA256 (dmValue item) +:+ NUL +:+ print (state_json (dmState item)) +:+ NUL.

(** Statements in order, up to the first that fails. *)
Fixpoint exec_all (db : N) (statements : list statement) : W → result unit * W :=
  match statements with
  | [] => returns (Ok tt)
  | st :: rest => call? _ := db_Exec db st in exec_all db rest
  end.

Fixpoint insert_messages (db : N) (target : Target) (folders : gmap string FolderRecord) (identities : identity_map)
    (items : list decodedMessage) (manifest : string) (report : Report) (k : string → Report → W → outcome * W) : W → outcome * W :=
  match items with
  | [] => k manifest report
  | item :: rest =>
      guard raw := GetBlob target (brLink (mrRaw (dmValue item))) else report in
      guard _ := returns (ValidateStoredMessage (tgRepoDID target) (dm_key item) (dmValue item) raw) else report in
      let manifest := manifest +:+ manifest_entry item in
      let report := add_bytes report raw in
      if msTombstone (dmState item) then insert_messages db target folders identities rest manifest (add_tombstone report) k
      else
        guard _ := db_Exec db (InsertMessage (row_of item raw)) else report in
        guard _ := exec_all db (List.map (membership folders identities (dm_key item)) (dm_folders item)) else report in
        insert_messages db target folders identities rest manifest report k
  end.

(** From the schema to the last mode change. *)
Definition fill (db : N) (target : Target) (destination : string) (folders : gmap string FolderRecord)
    (messages : list decodedMessage) (report : Report) : W → outcome * W :=
  guard _ := exec_all db [CreateTables; InsertMeta target; Begin] else report in
  guard _ := exec_all db (List.map (λ kv, InsertFolder kv.1 kv.2) (map_to_list folders)) else report in
  let messages := sort_by dm_key messages in
  guard identities := returns (allocateProjectionIdentities messages folders) else report in
  insert_messages db target folders identities messages "" report (λ manifest report,
    guard _ := db_Exec db CommitTx else report in
    guard _ := db_Close db else report in
    guard _ := Chmod destination else report in
    λ w, ((set_rtManifestSHA256 report (hex_encode (sha256 manifest)), None), w)).

(** Close, and remove what was written; the deferred rollback is part of closing. *)
Definition discard (db : N) (destination : string) (w : W) : W :=
  let w := (db_Close db w).2 in
  RemoveFile (destination +:+ "-shm") (RemoveFile (destination +:+ "-wal") (RemoveFile destination w)).
Definition write_projection (target : Target) (destination : string) (folders : gmap string FolderRecord)
    (messages : list decodedMessage) (report : Report) : W → outcome * W :=
  guard _ := MkdirAll (Dir destination) else report in
  guard db := db_Open destination else report in
  λ w, match fill db target destination folders messages report w with
       | ((report, Some e), w) => ((report, Some e), discard db destination w)
       | done => done
       end.

Definition Rebuild (target : Target) (destination : string) : W → outcome * W :=
  let report := new_report target in
  guard _ := returns (if HasPrefix destination "/" then Ok tt else Err ErrOther) else report in
  guard _ := returns (Target_ValidateFor target (tgRepoDID target)) else report in
  guard there := Lstat destination else report in
  guard _ := returns (if there : bool then Err ErrOther else Ok tt) else report in
  guard folderRecords := ListRecords target FolderCollection else report in
  let '(folders, mismatches) := fold_left scan_folder folderRecords (∅, []) in
  let nfolders := Z.of_nat (List.length folderRecords) in
  let report := set_counts report nfolders 0 0 mismatches in
  guard stateRecords := ListRecords target MessageStateCollection else report in
  let '(states, mismatches) := fold_left (scan_state folders) stateRecords (∅, mismatches) in
  let nstates := Z.of_nat (List.length stateRecords) in
  let report := set_counts report nfolders nstates 0 mismatches in
  guard messageRecords := ListRecords target MessageCollection else report in
  let '(messages, seen, mismatches) := fold_left (scan_message states) messageRecords ([], ∅, mismatches) in
  let mismatches := sortMismatches (mismatches ++ scan_orphans states seen) in
  let report := set_counts report nfolders nstates (Z.of_nat (List.length messageRecords)) mismatches in
  guard _ := returns (match mismatches with [] => Ok tt | _ => Err ErrIntegrity end) else report in
  write_projection target destination folders messages report.

End rebuild.
