(* ===== verification/Identities.v ===== *)
(** * The UIDs of a projection

    The allocation of projection identities gives every live message of a folder its own UID,
    keeps the identities the records preserve, and fails exactly when that cannot be done. *)
From S2P Require Import Prelude Sha256 GoStd Syntax Unicode Json Url Mailbox Repository Reduction Recovered Projection.

Lemma identity_of_put ids k f i k' f' :
  identity_of (put ids (k, (f, i))) k' f' = if decide (k' = k ∧ f' = f) then Some i else identity_of ids k' f'.
Proof.
  unfold identity_of, put. cbn [fst snd]. destruct (decide (k' = k)) as [->|Hk].
  - rewrite lookup_insert_eq. change (Some ?m ≫= lookup f') with (m !! f'). destruct (decide (f' = f)) as [->|Hf].
    + rewrite lookup_insert_eq. by rewrite decide_True.
    + rewrite lookup_insert_ne by done. rewrite decide_False by tauto. by destruct (ids !! k).
  - rewrite lookup_insert_ne by done. by rewrite decide_False by tauto.
Qed.

(** A set that holds every number from one up to [n] has at least as many elements. *)
Lemma size_prefix (used : gset N) n : (∀ u, 1 ≤ u < n → u ∈ used) → n ≤ N.of_nat (size used) + 1.
Proof.
  intros Hu. assert (Hs : list_to_set (N.of_nat <$> seq 1 (N.to_nat (n - 1))) ⊆ used).
  { intros u (m & -> & [? ?]%elem_of_seq)%elem_of_list_to_set%list_elem_of_fmap. apply Hu. lia. }
  apply subseteq_size in Hs. rewrite size_list_to_set in Hs.
  - rewrite length_fmap, length_seq in Hs. lia.
  - apply NoDup_fmap; [intros a b; lia|apply NoDup_seq].
Qed.

(** The least number from [next] on that is not used; 0 when none is left below [2 ^ 32]. *)
Definition above (next : N) : N := if next =? 0 then 2 ^ 32 else next.
Lemma skip_used_spec (used : gset N) : ∀ fuel next, next < 2 ^ 32 → (∀ u, 1 ≤ u < above next → u ∈ used) →
  N.of_nat (size used) < N.of_nat fuel + above next - 1 →
  let r := skip_used fuel used next in
  r < 2 ^ 32 ∧ (∀ u, 1 ≤ u < above r → u ∈ used) ∧ (r = 0 ∨ r ∉ used).
Proof.
  induction fuel as [|fuel IH]; intros next Hn Hu Hs; cbn [skip_used].
  - apply size_prefix in Hu. lia.
  - destruct (N.eqb_spec next 0) as [->|Hz]; cbn [negb andb]; [by split_and!; [|..|left]|].
    destruct (bool_decide_reflect (next ∈ used)) as [Hin|Hout]; [|by split_and!; [..|right]].
    unfold above in Hu, Hs. rewrite (proj2 (N.eqb_neq _ _) Hz) in Hu, Hs. unfold u32.
    assert (Ha : above ((next + 1) mod 2 ^ 32) = next + 1).
    { unfold above. destruct (decide (next + 1 = 2 ^ 32)) as [->|Hne]; [done|]. rewrite N.mod_small by lia.
      by rewrite (proj2 (N.eqb_neq _ _)) by lia. }
    apply IH; rewrite ?Ha.
    + by apply N.mod_lt.
    + intros u Hr. destruct (decide (u = next)) as [->|]; [done|]. apply Hu. lia.
    + lia.
Qed.

(** ** One folder *)

Section folder.
Context (folderID : string) (validity : N) (items : list decodedMessage) (before : identity_map).

(** What an identity of an item is: the preserved one, or a new one of the folder's generation. *)
Definition identity_kind (item : decodedMessage) (i : ProjectionIdentity) : Prop :=
  if dm_preserved item then i = preserved_identity item else i = MkProjectionIdentity (piUID i) validity 1.

(** Some of the items have their identities, under the UIDs that are used. *)
Record filling (ids : identity_map) (used : gset N) (keys : gset string) : Prop := {
  fl_other k f : f ≠ folderID → identity_of ids k f = identity_of before k f;
  fl_keys k : k ∈ keys ↔ is_Some (identity_of ids k folderID);
  fl_items k : k ∈ keys → ∃ item, item ∈ items ∧ dm_key item = k;
  fl_size : size used = size keys;
  fl_used u : u ∈ used ↔ ∃ k i, identity_of ids k folderID = Some i ∧ piUID i = u;
  fl_inj k k' i i' : identity_of ids k folderID = Some i → identity_of ids k' folderID = Some i' → piUID i = piUID i' → k = k';
  fl_bound u : u ∈ used → 0 < u < 2 ^ 32;
  fl_kind item i : item ∈ items → identity_of ids (dm_key item) folderID = Some i → identity_kind item i
}.

Lemma filling_start : (∀ k, identity_of before k folderID = None) → filling before ∅ ∅.
Proof.
  intros before_empty. split.
  - done.
  - intros k. rewrite before_empty. split; [set_solver|]. by intros [? ?].
  - intros k Hk. by apply not_elem_of_empty in Hk.
  - done.
  - intros u. split; [set_solver|]. intros (k & i & Hi & _). by rewrite before_empty in Hi.
  - intros k k' i i' Hi. by rewrite before_empty in Hi.
  - intros u Hu. by apply not_elem_of_empty in Hu.
  - intros item i _ Hi. by rewrite before_empty in Hi.
Qed.

Hypothesis items_keys : NoDup (dm_key <$> items).

(** One more item, under a UID that was not used. *)
Lemma filling_put ids used keys item i : filling ids used keys → item ∈ items → dm_key item ∉ keys →
  piUID i ∉ used → 0 < piUID i < 2 ^ 32 → identity_kind item i →
  filling (put ids (dm_key item, (folderID, i))) ({[piUID i]} ∪ used) ({[dm_key item]} ∪ keys).
Proof.
  intros Hf Hin Hk Hu Hb Hi. pose proof (fl_keys _ _ _ Hf) as Hkeys. pose proof (fl_used _ _ _ Hf) as Hused.
  assert (Hnone : identity_of ids (dm_key item) folderID = None).
  { destruct (identity_of _ _ _) eqn:E; [|done]. destruct Hk. apply Hkeys. by rewrite E. }
  split.
  - intros k f Hne. rewrite identity_of_put, decide_False by tauto. by apply (fl_other _ _ _ Hf).
  - intros k. rewrite identity_of_put. destruct (decide (k = dm_key item)) as [->|Hne].
    + rewrite decide_True by done. set_solver.
    + rewrite decide_False by tauto. rewrite <- Hkeys. set_solver.
  - intros k [->%elem_of_singleton|Hin']%elem_of_union; [by exists item|by apply (fl_items _ _ _ Hf)].
  - rewrite !size_union by set_solver. rewrite !size_singleton. by rewrite (fl_size _ _ _ Hf).
  - intros u. rewrite elem_of_union, elem_of_singleton, Hused. split.
    + intros [->|(k & j & Hj & <-)]; [exists (dm_key item), i; by rewrite identity_of_put, decide_True|].
      exists k, j. rewrite identity_of_put, decide_False; [done|]. intros [-> _]. congruence.
    + intros (k & j & Hj & <-). rewrite identity_of_put in Hj. destruct (decide _) as [[-> _]|_]; [injection Hj as ->; by left|].
      right. by exists k, j.
  - intros k k' j j'. rewrite !identity_of_put. intros Hj Hj' E.
    destruct (decide (k = dm_key item ∧ _)) as [[-> _]|H1], (decide (k' = dm_key item ∧ _)) as [[-> _]|H2]; simplify_eq; try done.
    + destruct Hu. rewrite Hused. by exists k', j'.
    + destruct Hu. rewrite Hused. exists k, j. by rewrite E.
    + by eapply (fl_inj _ _ _ Hf).
  - intros u [->%elem_of_singleton|Hu']%elem_of_union; [done|by apply (fl_bound _ _ _ Hf)].
  - intros item' j Hin'. rewrite identity_of_put. destruct (decide _) as [[E _]|_]; [|by apply (fl_kind _ _ _ Hf)].
    intros [= <-]. by rewrite (key_inj dm_key items item' item items_keys Hin' Hin E).
Qed.

Lemma filling_keys_size ids used keys item : filling ids used keys → item ∈ items → dm_key item ∉ keys →
  N.of_nat (size used) < llen items.
Proof.
  intros Hf Hin Hk. rewrite (fl_size _ _ _ Hf). unfold llen.
  assert (Hs : {[dm_key item]} ∪ keys ⊆ list_to_set (dm_key <$> items)).
  { intros k Hk'. apply elem_of_list_to_set, list_elem_of_fmap. apply elem_of_union in Hk' as [->%elem_of_singleton|Hk'].
    - by exists item.
    - destruct (fl_items _ _ _ Hf k Hk') as (y & Hy & <-). by exists y. }
  apply subseteq_size in Hs. rewrite size_union, size_singleton, size_list_to_set, length_fmap in Hs; [lia|done|set_solver].
Qed.

Hypothesis preserved_bound : ∀ item, item ∈ items → piUID (msProjection (dmState item)) < 2 ^ 32.

(** Two items want one UID. *)
Definition uid_collision : Prop := ∃ a b, a ∈ items ∧ b ∈ items ∧ dm_key a ≠ dm_key b ∧
  dm_preserved a = true ∧ dm_preserved b = true ∧ piUID (msProjection (dmState a)) = piUID (msProjection (dmState b)).

Lemma preserved_identity_uid item : piUID (preserved_identity item) = piUID (msProjection (dmState item)).
Proof. unfold preserved_identity. by destruct (_ =? 0). Qed.
Lemma dm_preserved_pos item : dm_preserved item = true → 0 < piUID (msProjection (dmState item)).
Proof. unfold dm_preserved, preserved_uid. intros H. bools. done. Qed.

Lemma keep_all l : ∀ ids used keys, l ⊆ items → NoDup (dm_key <$> l) → (∀ x, x ∈ l → dm_key x ∉ keys) →
  filling ids used keys → (∀ x, x ∈ items → dm_key x ∈ keys → dm_preserved x = true) →
  match range (keep_identity folderID) l (ids, used) with
  | Ok (ids', used') => ∃ keys', filling ids' used' keys' ∧ keys ⊆ keys' ∧
      (∀ x, x ∈ items → dm_key x ∈ keys' → dm_preserved x = true) ∧ (∀ x, x ∈ l → dm_preserved x = true → dm_key x ∈ keys')
  | Err e => e = ErrIntegrity ∧ uid_collision
  end.
Proof.
  induction l as [|x l IH]; intros ids used keys Hl Hnd Hfresh Hf Hp; cbn [range].
  { exists keys. split_and!; [done..|]. intros x Hx. by apply not_elem_of_nil in Hx. }
  rewrite fmap_cons, NoDup_cons in Hnd. destruct Hnd as [Hx Hnd]. assert (Hxi : x ∈ items) by set_solver. assert (Hli : l ⊆ items) by set_solver.
  assert (Hfresh' : ∀ y, y ∈ l → dm_key y ∉ keys ∧ dm_key y ≠ dm_key x).
  { intros y Hy. split; [set_solver|]. intros E. destruct Hx. rewrite <- E. apply list_elem_of_fmap. by exists y. }
  unfold keep_identity at 1. cbn [fst snd]. destruct (dm_preserved x) eqn:Hpx; cbn [result_bind].
  2: { specialize (IH ids used keys Hli Hnd (λ y Hy, proj1 (Hfresh' y Hy)) Hf Hp).
       destruct (range _ l _) as [[ids' used']|e]; [|done]. destruct IH as (keys' & H1 & H2 & H3 & H4). exists keys'.
       split_and!; [done..|]. intros y [->|Hy]%elem_of_cons; [congruence|by apply H4]. }
  destruct (bool_decide_reflect (piUID (msProjection (dmState x)) ∈ used)) as [Hin|Hout].
  - cbn [result_bind]. split; [done|]. apply (fl_used _ _ _ Hf) in Hin as (k & i & Hi & Hu).
    assert (Hk : k ∈ keys) by (apply (fl_keys _ _ _ Hf); by rewrite Hi).
    destruct (fl_items _ _ _ Hf k Hk) as (y & Hy & <-). exists x, y.
    refine (conj Hxi (conj Hy (conj _ (conj Hpx (conj (Hp y Hy Hk) _))))); [intros E; apply (Hfresh x); [by left|by rewrite E]|].
    pose proof (fl_kind _ _ _ Hf y i Hy Hi) as Hkind. unfold identity_kind in Hkind. rewrite (Hp y Hy Hk) in Hkind.
    subst i. by rewrite preserved_identity_uid in Hu.
  - cbn [result_bind fst snd]. pose proof (filling_put ids used keys x (preserved_identity x) Hf Hxi) as Hput.
    rewrite preserved_identity_uid in *. specialize (Hput ltac:(set_solver) Hout).
    assert (Hf' : filling (put ids (dm_key x, (folderID, preserved_identity x)))
      ({[piUID (msProjection (dmState x))]} ∪ used) ({[dm_key x]} ∪ keys)).
    { apply Hput; [split; [by apply dm_preserved_pos|by apply preserved_bound]|]. unfold identity_kind. by rewrite Hpx. }
    assert (Hp' : ∀ y, y ∈ items → dm_key y ∈ {[dm_key x]} ∪ keys → dm_preserved y = true).
    { intros y Hy [E%elem_of_singleton|Hk]%elem_of_union; [|by apply Hp]. by rewrite (key_inj dm_key items y x items_keys Hy Hxi E). }
    assert (Hfr : ∀ y, y ∈ l → dm_key y ∉ {[dm_key x]} ∪ keys) by (intros y Hy; destruct (Hfresh' y Hy); set_solver).
    specialize (IH _ _ _ Hli Hnd Hfr Hf' Hp').
    destruct (range _ l _) as [[ids' used']|e]; [|done]. destruct IH as (keys' & H1 & H2 & H3 & H4). exists keys'.
    split_and!; [done|set_solver|done|]. intros y [->|Hy]%elem_of_cons; [set_solver|by apply H4].
Qed.

Lemma give_all l : ∀ ids used keys next, l ⊆ items → filling ids used keys →
  (∀ x, x ∈ items → dm_preserved x = true → dm_key x ∈ keys) → next < 2 ^ 32 → (∀ u, 1 ≤ u < above next → u ∈ used) →
  match range (give_identity folderID validity) l (ids, used, next) with
  | Ok (ids', used', _) => ∃ keys', filling ids' used' keys' ∧ keys ⊆ keys' ∧ (∀ x, x ∈ l → dm_key x ∈ keys')
  | Err e => e = ErrIntegrity ∧ 2 ^ 32 ≤ llen items
  end.
Proof.
  induction l as [|x l IH]; intros ids used keys next Hl Hf Hp Hn Hu; cbn [range].
  { exists keys. split_and!; [done..|]. intros x Hx. by apply not_elem_of_nil in Hx. }
  assert (Hxi : x ∈ items) by set_solver. assert (Hli : l ⊆ items) by set_solver.
  unfold give_identity at 1. destruct (identity_of ids (dm_key x) folderID) as [i|] eqn:Hi; cbn [is_some result_bind].
  - specialize (IH ids used keys next Hli Hf Hp Hn Hu). destruct (range _ l _) as [[[ids' used'] next']|e]; [|done].
    destruct IH as (keys' & H1 & H2 & H3). exists keys'. split_and!; [done..|]. intros y [->|Hy]%elem_of_cons; [|by apply H3].
    apply H2, (fl_keys _ _ _ Hf). by rewrite Hi.
  - assert (Hk : dm_key x ∉ keys) by (rewrite (fl_keys _ _ _ Hf), Hi; by intros [? ?]).
    destruct (skip_used_spec used (S (size used)) next Hn Hu) as (Hr & Hur & Hfree); [unfold above; destruct (N.eqb_spec next 0); lia|].
    destruct (N.eqb_spec (skip_used (S (size used)) used next) 0) as [Hz|Hz].
    + cbn [result_bind]. split; [done|]. rewrite Hz in Hur. apply size_prefix in Hur. pose proof (filling_keys_size _ _ _ x Hf Hxi Hk).
      change (above 0) with (2 ^ 32) in Hur. lia.
    + destruct Hfree as [Hfree|Hfree]; [done|]. set (r := skip_used _ _ _) in *. clearbody r. cbn [result_bind].
      pose proof (filling_put ids used keys x (MkProjectionIdentity r validity 1) Hf Hxi Hk Hfree ltac:(cbn; lia)) as Hput.
      assert (Hf' := Hput ltac:(unfold identity_kind; destruct (dm_preserved x) eqn:E; [by destruct Hk; apply Hp|done])).
      assert (Hp' : ∀ y, y ∈ items → dm_preserved y = true → dm_key y ∈ {[dm_key x]} ∪ keys) by (intros y Hy E; apply elem_of_union_r; by apply Hp).
      specialize (IH _ _ _ (u32 (r + 1)) Hli Hf' Hp' ltac:(by apply N.mod_lt)).
      assert (Ha : above (u32 (r + 1)) = r + 1).
      { unfold above, u32. destruct (decide (r + 1 = 2 ^ 32)) as [->|Hne]; [done|]. rewrite N.mod_small by lia.
        by rewrite (proj2 (N.eqb_neq _ _)) by lia. }
      rewrite Ha in IH. unfold above in Hur. rewrite (proj2 (N.eqb_neq _ _) Hz) in Hur.
      specialize (IH ltac:(intros u Hr'; destruct (decide (u = r)) as [->|]; [set_solver|apply elem_of_union_r, Hur; lia])).
      cbn [piUID] in IH. destruct (range _ l _) as [[[ids' used'] next']|e]; [|done].
      destruct IH as (keys' & H1 & H2 & H3). exists keys'. split_and!; [done|set_solver|].
      intros y [->|Hy]%elem_of_cons; [set_solver|by apply H3].
Qed.

End folder.

(** A set of positive numbers below [n] has fewer than [n] elements. *)
Lemma size_below (used : gset N) n : 0 < n → (∀ u, u ∈ used → 0 < u < n) → N.of_nat (size used) < n.
Proof.
  intros Hn Hu. assert (Hs : used ⊆ list_to_set (N.of_nat <$> seq 1 (N.to_nat (n - 1)))).
  { intros u Hin. apply Hu in Hin. apply elem_of_list_to_set, list_elem_of_fmap. exists (N.to_nat u). split; [lia|]. apply elem_of_seq. lia. }
  apply subseteq_size in Hs. rewrite size_list_to_set, length_fmap, length_seq in Hs; [lia|].
  apply NoDup_fmap; [intros a b; lia|apply NoDup_seq].
Qed.

(** ** A group of a folder *)

(** Every item of the group has its identity, and nothing else has one in this folder. *)
Record group_done (folderID : string) (validity : N) (group : list decodedMessage) (ids : identity_map) : Prop := {
  gd_total item : item ∈ group → is_Some (identity_of ids (dm_key item) folderID);
  gd_only k i : identity_of ids k folderID = Some i →
    ∃ item, item ∈ group ∧ dm_key item = k ∧ identity_kind validity item i ∧ 0 < piUID i < 2 ^ 32;
  gd_inj k k' i i' : identity_of ids k folderID = Some i → identity_of ids k' folderID = Some i' → piUID i = piUID i' → k = k'
}.

Lemma group_fits folderID validity group ids : NoDup (dm_key <$> group) → group_done folderID validity group ids →
  ¬ uid_collision group ∧ llen group < 2 ^ 32.
Proof.
  intros Hnd Hg.
  assert (Hid : ∀ item, item ∈ group → ∃ i, identity_of ids (dm_key item) folderID = Some i ∧ identity_kind validity item i ∧ 0 < piUID i < 2 ^ 32).
  { intros item Hin. destruct (gd_total _ _ _ _ Hg item Hin) as [i Hi]. exists i. split; [done|].
    destruct (gd_only _ _ _ _ Hg _ _ Hi) as (item' & Hin' & E & Hk & Hb). by rewrite <- (key_inj dm_key group item' item Hnd Hin' Hin E). }
  split.
  - intros (a & b & Ha & Hb & Hne & Hpa & Hpb & E). destruct (Hid a Ha) as (i & Hi & Hki & _), (Hid b Hb) as (j & Hj & Hkj & _).
    unfold identity_kind in Hki, Hkj. rewrite Hpa in Hki. rewrite Hpb in Hkj. apply Hne.
    apply (gd_inj _ _ _ _ Hg _ _ _ _ Hi Hj). by rewrite Hki, Hkj, !preserved_identity_uid.
  - set (uid := λ item, match identity_of ids (dm_key item) folderID with Some i => piUID i | None => 0 end).
    assert (Huid : ∀ a, a ∈ group → 0 < uid a < 2 ^ 32) by (intros a Ha; destruct (Hid a Ha) as (i & Hi & _ & Hb); unfold uid; by rewrite Hi).
    assert (Hdist : NoDup (uid <$> group)).
    { apply NoDup_fmap_2_strong; [|by apply NoDup_fmap_1 in Hnd]. intros a b Ha Hb E.
      destruct (Hid a Ha) as (i & Hi & _), (Hid b Hb) as (j & Hj & _). unfold uid in E. rewrite Hi, Hj in E.
      apply (key_inj dm_key group); [done..|]. by apply (gd_inj _ _ _ _ Hg _ _ _ _ Hi Hj). }
    pose proof (size_below (list_to_set (uid <$> group)) (2 ^ 32) ltac:(lia)) as Hs.
    rewrite size_list_to_set, length_fmap in Hs by done. apply Hs. intros u (a & -> & Ha)%elem_of_list_to_set%list_elem_of_fmap. by apply Huid.
Qed.

Lemma allocate_folder_spec folders folderID group before : NoDup (dm_key <$> group) →
  (∀ k, identity_of before k folderID = None) → (∀ item, item ∈ group → piUID (msProjection (dmState item)) < 2 ^ 32) →
  match allocate_folder folders before (folderID, group) with
  | Ok ids => group_done folderID (folder_validity folders folderID) group ids ∧
      ∀ k f, f ≠ folderID → identity_of ids k f = identity_of before k f
  | Err e => e = ErrIntegrity ∧ (uid_collision group ∨ 2 ^ 32 ≤ llen group)
  end.
Proof.
  intros Hnd Hempty Hb. unfold allocate_folder. cbn [fst snd].
  pose proof (sort_by_perm dm_key group) as Hperm. set (items := sort_by dm_key group) in *. clearbody items.
  assert (Hin : ∀ x, x ∈ items ↔ x ∈ group) by (intros x; by rewrite Hperm).
  assert (Hndi : NoDup (dm_key <$> items)) by (by rewrite Hperm).
  assert (Hbi : ∀ x, x ∈ items → piUID (msProjection (dmState x)) < 2 ^ 32) by (intros x Hx; by apply Hb, Hin).
  set (v := folder_validity folders folderID).
  pose proof (keep_all folderID v items before Hndi Hbi items before ∅ ∅ ltac:(done) Hndi ltac:(set_solver)
    (filling_start folderID v items before Hempty) ltac:(set_solver)) as Hk.
  destruct (range (keep_identity folderID) items (before, ∅)) as [[ids used]|e]; cbn [result_bind].
  2: { destruct Hk as [-> (a & b & Ha & Hb' & Hc)]. split; [done|]. left. exists a, b. rewrite <- !Hin. done. }
  destruct Hk as (keys & Hf & _ & _ & Hpres).
  pose proof (give_all folderID v items before Hndi Hbi items ids used keys 1 ltac:(done) Hf Hpres ltac:(lia) ltac:(unfold above; cbn; lia)) as Hg.
  destruct (range (give_identity folderID v) items (ids, used, 1)) as [[[ids' used'] next']|e]; cbn [result_bind].
  2: { destruct Hg as [-> Hg]. split; [done|]. right. unfold llen in *. by rewrite <- (Permutation_length Hperm). }
  destruct Hg as (keys' & Hf' & _ & Hall). split; [split|apply (fl_other _ _ _ _ _ _ _ Hf')].
  - intros item Hi. apply (fl_keys _ _ _ _ _ _ _ Hf'). by apply Hall, Hin.
  - intros k i Hi. assert (Hk : k ∈ keys') by (apply (fl_keys _ _ _ _ _ _ _ Hf'); by rewrite Hi).
    destruct (fl_items _ _ _ _ _ _ _ Hf' k Hk) as (item & Hit & <-). exists item. refine (conj (proj1 (Hin item) Hit) (conj eq_refl (conj _ _))).
    + by apply (fl_kind _ _ _ _ _ _ _ Hf').
    + apply (fl_bound _ _ _ _ _ _ _ Hf'), (fl_used _ _ _ _ _ _ _ Hf'). by exists (dm_key item), i.
  - apply (fl_inj _ _ _ _ _ _ _ Hf').
Qed.

(** ** The whole allocation *)

(** The live messages of a folder. *)
Definition members (messages : list decodedMessage) (folderID : string) : list decodedMessage :=
  List.filter (λ item, negb (msTombstone (dmState item)) && bool_decide (folderID ∈ dm_folders item)) messages.
Lemma elem_of_members messages f item :
  item ∈ members messages f ↔ item ∈ messages ∧ msTombstone (dmState item) = false ∧ f ∈ dm_folders item.
Proof.
  unfold members. rewrite (list_elem_of_In _ item), filter_In, <- (list_elem_of_In _ item), andb_true_iff, negb_true_iff, bool_decide_eq_true. done.
Qed.
Lemma members_keys messages f : NoDup (dm_key <$> messages) → NoDup (dm_key <$> members messages f).
Proof.
  induction messages as [|x l IH]; [done|]. rewrite fmap_cons, NoDup_cons. intros [Hx Hl]. unfold members. cbn [List.filter].
  destruct (_ && _); [|by apply IH]. rewrite fmap_cons, NoDup_cons. split; [|by apply IH].
  intros (y & E & Hy)%list_elem_of_fmap. apply Hx, list_elem_of_fmap. exists y. split; [done|]. by apply (elem_of_members l f y).
Qed.

Lemma push_all (item : decodedMessage) fs : ∀ (m : gmap string (list decodedMessage)) (g : string), NoDup fs →
  default [] (fold_left push (List.map (λ f, (f, item)) fs) m !! g) = default [] (m !! g) ++ (if bool_decide (g ∈ fs) then [item] else []).
Proof.
  induction fs as [|f fs IH]; intros m g Hnd; cbn [List.map fold_left]; [by rewrite app_nil_r|]. apply NoDup_cons in Hnd as [Hf Hnd].
  rewrite IH by done. unfold push. cbn [fst snd]. destruct (decide (g = f)) as [->|Hne].
  - rewrite lookup_insert_eq. cbn [default]. rewrite (bool_decide_eq_false_2 (f ∈ fs)) by done.
    rewrite (bool_decide_eq_true_2 (f ∈ f :: fs)) by by left. by rewrite app_nil_r.
  - rewrite lookup_insert_ne by done. f_equal. destruct (bool_decide_reflect (g ∈ fs)) as [Hg|Hg].
    + by rewrite bool_decide_eq_true_2 by by right.
    + by rewrite bool_decide_eq_false_2 by by intros [?|?]%elem_of_cons.
Qed.

Lemma by_folder_groups messages : ∀ ids (m : gmap string (list decodedMessage)), Forall (λ item, NoDup (dm_folders item)) messages → (∀ k f, identity_of ids k f = None) →
  let s := fold_left by_folder messages (ids, m) in
  (∀ k f, identity_of s.1 k f = None) ∧ ∀ f, default [] (s.2 !! f) = default [] (m !! f) ++ members messages f.
Proof.
  induction messages as [|x l IH]; intros ids m Hnd Hi; cbn [fold_left]; [split; [done|]; intros f; by rewrite app_nil_r|].
  apply Forall_cons_1 in Hnd as [Hx Hnd]. unfold by_folder at 2 4. unfold members at 1. cbn [List.filter].
  destruct (msTombstone (dmState x)); cbn [negb andb]; [by apply IH|].
  destruct (IH (<[dm_key x:=∅]> ids) (fold_left push (List.map (λ f, (f, x)) (dm_folders x)) m)) as [H1 H2]; [done| |].
  - intros k f. unfold identity_of. destruct (decide (k = dm_key x)) as [->|Hne].
    + by rewrite lookup_insert_eq.
    + rewrite lookup_insert_ne by done. apply Hi.
  - split; [exact H1|]. intros f. cbn [fst snd]. rewrite H2, push_all by done. rewrite <- app_assoc. f_equal.
    by destruct (bool_decide (f ∈ dm_folders x)).
Qed.

Lemma allocate_groups folders groups : ∀ before, NoDup groups.*1 →
  (∀ f g, (f, g) ∈ groups → NoDup (dm_key <$> g) ∧ (∀ item, item ∈ g → piUID (msProjection (dmState item)) < 2 ^ 32)) →
  (∀ k f, f ∈ groups.*1 → identity_of before k f = None) →
  match range (allocate_folder folders) groups before with
  | Ok ids => (∀ k f, f ∉ groups.*1 → identity_of ids k f = identity_of before k f) ∧
      ∀ f g, (f, g) ∈ groups → group_done f (folder_validity folders f) g ids
  | Err e => e = ErrIntegrity ∧ ∃ f g, (f, g) ∈ groups ∧ (uid_collision g ∨ 2 ^ 32 ≤ llen g)
  end.
Proof.
  induction groups as [|[f g] groups IH]; intros before Hnd Hg Hb; cbn [range].
  { split; [done|]. intros f g Hin. by apply not_elem_of_nil in Hin. }
  cbn in Hnd. apply NoDup_cons in Hnd as [Hf Hnd]. destruct (Hg f g ltac:(by left)) as [Hk Hu].
  pose proof (allocate_folder_spec folders f g before Hk (λ k, Hb k f ltac:(by left)) Hu) as Ha.
  destruct (allocate_folder folders before (f, g)) as [ids|e]; cbn [result_bind].
  2: { destruct Ha as [-> Ha]. split; [done|]. exists f, g. split; [by left|done]. }
  destruct Ha as [Hdone Hother].
  specialize (IH ids Hnd (λ f' g' Hin, Hg f' g' ltac:(by right))). destruct (range _ groups ids) as [ids'|e].
  - destruct IH as [H1 H2].
    { intros k f' Hin. rewrite Hother; [apply Hb; by right|]. intros ->. by apply Hf. }
    split.
    + intros k f' [Hne Hin]%not_elem_of_cons. rewrite H1 by done. by apply Hother.
    + intros f' g' [[= -> ->]|Hin]%elem_of_cons; [|by apply H2]. split; intros *; rewrite !H1 by done; apply Hdone.
  - destruct IH as [-> (f' & g' & Hin & H')].
    { intros k f' Hin. rewrite Hother; [apply Hb; by right|]. intros ->. by apply Hf. }
    split; [done|]. exists f', g'. split; [by right|done].
Qed.

(** Every membership of a live message has an identity and nothing else has one; the identity is
    the preserved one, or of the folder's generation; no two messages of a folder share a UID. *)
Record allocated (messages : list decodedMessage) (folders : gmap string FolderRecord) (ids : identity_map) : Prop := {
  al_total item f : item ∈ members messages f → is_Some (identity_of ids (dm_key item) f);
  al_only k f i : identity_of ids k f = Some i →
    ∃ item, item ∈ members messages f ∧ dm_key item = k ∧ identity_kind (folder_validity folders f) item i ∧ 0 < piUID i < 2 ^ 32;
  al_distinct f k k' i i' : identity_of ids k f = Some i → identity_of ids k' f = Some i' → piUID i = piUID i' → k = k'
}.
(** Messages under their own keys, in folders named once, with 32-bit UIDs. *)
Record allocatable (messages : list decodedMessage) : Prop := {
  ab_keys : NoDup (dm_key <$> messages);
  ab_folders : Forall (λ item, NoDup (dm_folders item)) messages;
  ab_uids : Forall (λ item, piUID (msProjection (dmState item)) < 2 ^ 32) messages
}.

Lemma allocation_spec messages folders : allocatable messages →
  match allocateProjectionIdentities messages folders with
  | Ok ids => allocated messages folders ids
  | Err e => e = ErrIntegrity ∧ ∃ f, uid_collision (members messages f) ∨ 2 ^ 32 ≤ llen (members messages f)
  end.
Proof.
  intros [Hk Hf Hu]. unfold allocateProjectionIdentities.
  pose proof (by_folder_groups messages ∅ ∅ Hf (λ k f, eq_refl)) as Hg. destruct (fold_left by_folder messages (∅, ∅)) as [ids0 groups].
  cbn [fst snd] in Hg. destruct Hg as [Hempty Hgroups].
  assert (Hgroup : ∀ f, default [] (groups !! f) = members messages f) by (intros f; by rewrite Hgroups, lookup_empty).
  assert (Hin : ∀ f g, (f, g) ∈ map_to_list groups → g = members messages f).
  { intros f g Hfg%elem_of_map_to_list. by rewrite <- Hgroup, Hfg. }
  assert (Hdom : ∀ f, f ∉ (map_to_list groups).*1 → members messages f = []).
  { intros f Hn. rewrite <- Hgroup. destruct (groups !! f) as [g|] eqn:E; [|done]. destruct Hn. apply list_elem_of_fmap.
    exists (f, g). split; [done|by apply elem_of_map_to_list]. }
  pose proof (allocate_groups folders (map_to_list groups) ids0 (NoDup_fst_map_to_list groups)) as Ha.
  destruct (range _ _ ids0) as [ids|e].
  2: { destruct Ha as [-> (f & g & Hfg & Hc)]; [|by intros; apply Hempty|split; [done|]; exists f; by rewrite <- (Hin f g Hfg)].
       intros f g ->%Hin. split; [by apply members_keys|]. intros item (Hm & _)%elem_of_members. by apply (proj1 (Forall_forall _ _) Hu). }
  destruct Ha as [Hout Hdone]; [|by intros; apply Hempty|].
  { intros f g ->%Hin. split; [by apply members_keys|]. intros item (Hm & _)%elem_of_members. by apply (proj1 (Forall_forall _ _) Hu). }
  assert (Hall : ∀ f, group_done f (folder_validity folders f) (members messages f) ids).
  { intros f. destruct (decide (f ∈ (map_to_list groups).*1)) as [Hi|Hn].
    - apply list_elem_of_fmap in Hi as ([f' g] & -> & Hfg). cbn [fst]. rewrite <- (Hin _ _ Hfg). by apply Hdone.
    - rewrite (Hdom f Hn). assert (Hnone : ∀ k, identity_of ids k f = None) by (intros k; rewrite Hout by done; apply Hempty).
      split; [intros item Hi; by apply not_elem_of_nil in Hi|intros k i Hi|intros k k' i i' Hi]; by rewrite Hnone in Hi. }
  split.
  - intros item f. apply Hall.
  - intros k f. apply Hall.
  - intros f. apply Hall.
Qed.

Lemma allocation_contract_iff messages folders : allocatable messages →
  match allocateProjectionIdentities messages folders with
  | Ok ids => allocated messages folders ids
  | Err e => e = ErrIntegrity
  end ∧
  (is_ok (allocateProjectionIdentities messages folders) = true ↔
   ∀ f, ¬ uid_collision (members messages f) ∧ llen (members messages f) < 2 ^ 32).
Proof.
  intros Ha. pose proof (allocation_spec messages folders Ha) as Hs.
  destruct (allocateProjectionIdentities messages folders) as [ids|e]; cbn [is_ok].
  - split; [done|]. split; [|done]. intros _ f. apply (group_fits f (folder_validity folders f) _ ids).
    + apply members_keys, Ha.
    + split.
      * intros item. apply (al_total _ _ _ Hs).
      * intros k i. apply (al_only _ _ _ Hs).
      * apply (al_distinct _ _ _ Hs).
  - destruct Hs as [-> (f & Hc)]. split; [done|]. split; [done|]. intros Hall. destruct (Hall f) as [H1 H2]. destruct Hc; [done|lia].
Qed.

(** C25. The allocation of UIDs, complete and correct: for messages under distinct keys it succeeds exactly
    when no two live messages preserve one UID in one folder and no folder has [2 ^ 32] live messages.
    It then gives an identity to every membership of a live message and to nothing else; a preserved
    identity is kept, a new one is of its folder's generation, every UID is between 1 and [2 ^ 32 - 1],
    and no two messages of a folder share one. *)
Theorem allocation_contract messages folders : allocatable messages →
  match allocateProjectionIdentities messages folders with
  | Ok ids => allocated messages folders ids
  | Err e => e = ErrIntegrity
  end ∧
  (is_ok (allocateProjectionIdentities messages folders) = true ↔
   ∀ f, ¬ uid_collision (members messages f) ∧ llen (members messages f) < 2 ^ 32).
Proof. exact (allocation_contract_iff messages folders). Qed.

(** ** Three messages in two folders *)

Definition sample_item (key : string) (folders : list string) (uid : N) : decodedMessage :=
  MkDecodedMessage (MkRecord "" MessageCollection key "" "")
    (MkMessageRecord MessageCollection (MkBlobRef "" "" "" 0) "" 0 "" "" "" "" "" "" "" "" None)
    (MkMessageStateRecord MessageStateCollection key (Some folders) None false false 1 "" "" (MkProjectionIdentity uid 17 0)).
Definition sample_items : list decodedMessage := [sample_item "a" ["f"; "g"] 0; sample_item "b" ["f"] 1; sample_item "c" ["f"] 0].
Definition sample_folders : gmap string FolderRecord :=
  <["f" := MkFolderRecord FolderCollection "f" "" 17 1 ""]> (<["g" := MkFolderRecord FolderCollection "g" "" 23 1 ""]> ∅).
Definition sample_identities : identity_map := Eval vm_compute in
  match allocateProjectionIdentities sample_items sample_folders with Ok ids => ids | Err _ => ∅ end.

Lemma sample_allocatable : allocatable sample_items.
Proof.
  split.
  - apply (bool_decide_eq_true_1 (NoDup (dm_key <$> sample_items))). vm_compute. reflexivity.
  - apply (bool_decide_eq_true_1 (Forall (λ item, NoDup (dm_folders item)) sample_items)). vm_compute. reflexivity.
  - repeat constructor.
Qed.
Lemma allocation_contract_witness : allocated sample_items sample_folders sample_identities ∧
  identity_of sample_identities "c" "f" = Some (MkProjectionIdentity 3 17 1).
Proof.
  split; [|reflexivity].
  destruct (allocation_contract sample_items sample_folders sample_allocatable) as [Ha _].
  assert (E : allocateProjectionIdentities sample_items sample_folders = Ok sample_identities) by (vm_compute; reflexivity).
  rewrite E in Ha. exact Ha.
Defined.

(** The UID of a message without a preserved identity moves when a message with a smaller key
    arrives, although the folder's generation stays. *)
Example new_uid_moves :
  (let? ids := allocateProjectionIdentities [sample_item "c" ["f"] 0] sample_folders in Ok (identity_of ids "c" "f")) =
    Ok (Some (MkProjectionIdentity 1 17 1)) ∧
  (let? ids := allocateProjectionIdentities [sample_item "a" ["f"] 0; sample_item "c" ["f"] 0] sample_folders in
   Ok (identity_of ids "c" "f")) = Ok (Some (MkProjectionIdentity 2 17 1)).
Proof. split; vm_compute; reflexivity. Qed.
