(* ===== verification/Projected.v ===== *)
(** * What a rebuilt projection holds

    [Rebuild] succeeds exactly on consistent repositories, and then the database holds exactly
    the folders, the live messages and their memberships; none of its statements can violate a
    constraint of the schema. *)
From S2P Require Import Prelude Sha256 GoStd Syntax Unicode Json Time Url Mailbox Repository Memory Reduction Recovered Projection Identities.

(** ** What the rebuild relies on *)

(** The constraints of the schema, against the statements that ran before. *)
Definition violates (log : list statement) (st : statement) : Prop :=
  match st with
  | CreateTables => CreateTables ∈ log
  | InsertFolder rkey folder => ∃ rkey' folder', InsertFolder rkey' folder' ∈ log ∧ (rkey' = rkey ∨ fdName folder' = fdName folder)
  | InsertMessage row => ∃ row', InsertMessage row' ∈ log ∧ rwRKey row' = rwRKey row
  | InsertMembership rkey mailbox identity =>
      (∃ rkey' identity', InsertMembership rkey' mailbox identity' ∈ log ∧ (rkey' = rkey ∨ piUID identity' = piUID identity)) ∨
      (∀ row, InsertMessage row ∈ log → rwRKey row ≠ rkey) ∨
      (∀ key folder, InsertFolder key folder ∈ log → fdName folder ≠ mailbox)
  | _ => False
  end.

Definition same_blobs {W} `{Repository W} (w w' : W) : Prop := ∀ t cid, (GetBlob t cid w').1 = (GetBlob t cid w).1.

Class FilesLaws (W : Type) `{Repository W} `{Files W} : Prop := {
  Lstat_keeps path w r w' : Lstat path w = (r, w') → w' = w;
  MkdirAll_blobs path w r w' : MkdirAll path w = (r, w') → same_blobs w w';
  db_Open_fresh path w db w' : db_Open path w = (Ok db, w') → executed w' db = [] ∧ same_blobs w w';
  db_Exec_done db st w w' : db_Exec db st w = (Ok tt, w') → executed w' db = executed w db ++ [st] ∧ same_blobs w w';
  db_Close_keeps db w r w' : db_Close db w = (r, w') → executed w' db = executed w db;
  Chmod_keeps path w r w' db : Chmod path w = (r, w') → executed w' db = executed w db
}.
(** Files that fail only for a reason: a statement only when it violates a constraint. *)
Class ReliableFiles (W : Type) `{Files W} : Prop := {
  MkdirAll_works path w : ∃ w', MkdirAll path w = (Ok tt, w');
  db_Open_works path w : ∃ db w', db_Open path w = (Ok db, w');
  db_Exec_works db st w : ¬ violates (executed w db) st → ∃ w', db_Exec db st w = (Ok tt, w');
  db_Close_works db w : ∃ w', db_Close db w = (Ok tt, w');
  Chmod_works path w : ∃ w', Chmod path w = (Ok tt, w')
}.

(** ** The contract *)

Definition state_fits (folders : gmap string FolderRecord) (state : MessageStateRecord) : Prop :=
  NoDup (elems (msMailboxIDs state)) ∧ (∀ f, f ∈ elems (msMailboxIDs state) → is_Some (folders !! f)) ∧
  (preserved_uid (elems (msMailboxIDs state)) (msProjection state) = true →
   ∀ f, f ∈ elems (msMailboxIDs state) → piUIDValidity (msProjection state) = folder_validity folders f).

(** The three listings of a consistent record graph, read. *)
Record graph (folderRecords stateRecords messageRecords : list Record_)
    (folders : gmap string FolderRecord) (items : list decodedMessage) : Prop := {
  gr_folders k folder : folders !! k = Some folder ↔ ∃ record, record ∈ folderRecords ∧ rcRKey record = k ∧ read_folder record = Some folder;
  gr_folders_all record : record ∈ folderRecords → is_Some (read_folder record);
  gr_states_all record : record ∈ stateRecords → ∃ state, read_state record = Some state ∧ state_fits folders state;
  gr_states_have_messages : list_to_set (rcRKey <$> stateRecords) =@{gset string} list_to_set (rcRKey <$> messageRecords);
  gr_items : Forall2 (λ record item, dmRecord item = record ∧ unmarshal_message (rcValue record) = Some (dmValue item) ∧
    ∃ stateRecord, stateRecord ∈ stateRecords ∧ rcRKey stateRecord = rcRKey record ∧ read_state stateRecord = Some (dmState item))
    messageRecords items
}.

Section contract.
Context `{Syntax} {W : Type} `{Repository W} `{Files W}.

Definition blob_of (w : W) (target : Target) (item : decodedMessage) : string :=
  match (GetBlob target (brLink (mrRaw (dmValue item))) w).1 with Ok raw => raw | Err _ => "" end.
Definition blob_valid (w : W) (target : Target) (item : decodedMessage) : Prop :=
  ∃ raw, (GetBlob target (brLink (mrRaw (dmValue item))) w).1 = Ok raw ∧
    ValidateStoredMessage (tgRepoDID target) (dm_key item) (dmValue item) raw = Ok tt.

(** A repository whose mailbox can be projected. *)
Record projectable (w : W) (target : Target) (folderRecords stateRecords messageRecords : list Record_)
    (folders : gmap string FolderRecord) (items : list decodedMessage) : Prop := {
  pj_folders : (ListRecords target FolderCollection w).1 = Ok folderRecords;
  pj_states : (ListRecords target MessageStateCollection w).1 = Ok stateRecords;
  pj_messages : (ListRecords target MessageCollection w).1 = Ok messageRecords;
  pj_graph : graph folderRecords stateRecords messageRecords folders items;
  pj_blobs : Forall (blob_valid w target) items;
  pj_uids f : ¬ uid_collision (members items f) ∧ llen (members items f) < 2 ^ 32
}.

(** The rows of a message, and the whole database. *)
Definition item_rows (w : W) (target : Target) (folders : gmap string FolderRecord) (ids : identity_map) (item : decodedMessage) :
    list statement :=
  if msTombstone (dmState item) then []
  else InsertMessage (row_of item (blob_of w target item)) :: List.map (membership folders ids (dm_key item)) (dm_folders item).
Definition projected_log (w : W) (target : Target) (folders : gmap string FolderRecord) (ids : identity_map)
    (items : list decodedMessage) : list statement :=
  [CreateTables; InsertMeta target; Begin] ++ List.map (λ kv, InsertFolder kv.1 kv.2) (map_to_list folders) ++
  mjoin (item_rows w target folders ids <$> items) ++ [CommitTx].
Definition sum_by (f : decodedMessage → Z) (items : list decodedMessage) : Z := fold_left (λ n item, (n + f item)%Z) items 0%Z.
Definition manifest_text (manifest : string) (items : list decodedMessage) : string :=
  fold_left (λ manifest item, manifest +:+ manifest_entry item) items manifest.
Definition projected_report (w : W) (target : Target) (nfolders : nat) (items : list decodedMessage) : Report :=
  let count := Z.of_nat (List.length items) in
  MkReport 1 target (Z.of_nat nfolders) count count
    (sum_by (λ item, if msTombstone (dmState item) then 1 else 0)%Z items)
    (sum_by (λ item, raw_size (blob_of w target item)) items)
    (hex_encode (sha256 (manifest_text "" items))) [].

End contract.

(** ** Reading the listings *)

(** A loop that indexes what it can read by key and reports the rest. *)
Section index.
Context {V : Type} (read : Record_ → V + Mismatch).
Definition index_step (s : gmap string V * list Mismatch) (record : Record_) : gmap string V * list Mismatch :=
  match read record with inl v => (<[rcRKey record := v]> s.1, s.2) | inr m => (s.1, s.2 ++ [m]) end.

Lemma index_loop l : ∀ m mm, NoDup (rcRKey <$> l) → (∀ r, r ∈ l → m !! rcRKey r = None) →
  let s := fold_left index_step l (m, mm) in
  (s.2 = [] ↔ mm = [] ∧ ∀ r, r ∈ l → ∃ v, read r = inl v) ∧
  (∀ k v, s.1 !! k = Some v ↔ m !! k = Some v ∨ ∃ r, r ∈ l ∧ rcRKey r = k ∧ read r = inl v).
Proof.
  induction l as [|r l IH]; intros m mm Hnd Hm; cbv zeta; cbn [fold_left fst snd].
  { split; [split; [intros ->; split; [done|intros r Hr; by apply not_elem_of_nil in Hr]|by intros [-> _]]|]. intros k v. split; [by left|]. intros [?|(r & Hr & _)]; [done|by apply not_elem_of_nil in Hr]. }
  rewrite fmap_cons, NoDup_cons in Hnd. destruct Hnd as [Hr Hnd].
  assert (Hne : ∀ r', r' ∈ l → rcRKey r' ≠ rcRKey r) by (intros r' Hr' E; apply Hr, list_elem_of_fmap; by exists r').
  unfold index_step at 2 4. cbn [fst snd]. destruct (read r) as [v0|x] eqn:E.
  - destruct (IH (<[rcRKey r:=v0]> m) mm Hnd) as [H1 H2]; [intros r' Hr'; rewrite lookup_insert_ne by (symmetry; by apply Hne); apply Hm; by right|].
    split.
    + rewrite H1. split; intros [-> Hall]; (split; [done|]); [|by intros; apply Hall; right].
      intros r' [->|Hr']%elem_of_cons; [by exists v0|by apply Hall].
    + intros k v. rewrite H2. destruct (decide (k = rcRKey r)) as [->|Hk].
      * rewrite lookup_insert_eq, (Hm r ltac:(by left)). split.
        -- intros [[= ->]|(r' & Hr' & E' & _)]; [right; exists r; split_and!; [by left|done..]|by destruct (Hne r' Hr')].
        -- intros [?|(r' & [->|Hr']%elem_of_cons & E' & Er)]; [done|left; congruence|by destruct (Hne r' Hr')].
      * rewrite lookup_insert_ne by done. split; (intros [?|(r' & Hr' & ? & ?)]; [by left|right; exists r']).
        -- split_and!; [by right|done..].
        -- apply elem_of_cons in Hr' as [->|Hr']; [by destruct Hk|done].
  - destruct (IH m (mm ++ [x]) Hnd) as [H1 H2]; [intros r' Hr'; apply Hm; by right|]. split.
    + rewrite H1. split; [intros [Happ _]; by destruct mm|]. intros [_ Hall]. destruct (Hall r ltac:(by left)) as [v Hv]. congruence.
    + intros k v. rewrite H2. split; (intros [?|(r' & Hr' & ? & ?)]; [by left|right; exists r']).
      * split_and!; [by right|done..].
      * apply elem_of_cons in Hr' as [->|Hr']; [congruence|done].
Qed.
End index.

Definition folder_reader (record : Record_) : FolderRecord + Mismatch :=
  match read_folder record with Some folder => inl folder | None => inr (MkMismatch "folder-integrity" (rcRKey record)) end.
Definition state_reader (folders : gmap string FolderRecord) (record : Record_) : MessageStateRecord + Mismatch :=
  match read_state record with
  | None => inr (MkMismatch "state-integrity" (rcRKey record))
  | Some state => match state_mismatch folders state with Some kind => inr (MkMismatch kind (rcRKey record)) | None => inl state end
  end.
Lemma fold_left_ext {A B} (f g : A → B → A) l : (∀ a b, f a b = g a b) → ∀ a, fold_left f l a = fold_left g l a.
Proof. intros E. induction l as [|b l IH]; intros a; [done|]. cbn [fold_left]. by rewrite E, IH. Qed.
Lemma scan_folder_index l s : fold_left scan_folder l s = fold_left (index_step folder_reader) l s.
Proof. apply fold_left_ext. intros a r. unfold scan_folder, index_step, folder_reader. by destruct (read_folder r). Qed.
Lemma scan_state_index folders l s : fold_left (scan_state folders) l s = fold_left (index_step (state_reader folders)) l s.
Proof.
  apply fold_left_ext. intros a r. unfold scan_state, index_step, state_reader. destruct (read_state r); [|done]. by destruct (state_mismatch _ _).
Qed.

Lemma valid_folders_iff folders ids : ∀ seen, valid_folders folders seen ids = true ↔
  NoDup ids ∧ (∀ f, f ∈ ids → f ∉ seen ∧ is_Some (folders !! f)).
Proof.
  induction ids as [|f ids IH]; intros seen; cbn [valid_folders].
  { split; [|done]. intros _. split; [constructor|]. intros f Hf. by apply not_elem_of_nil in Hf. }
  rewrite NoDup_cons. destruct (bool_decide_reflect (f ∈ seen)) as [Hs|Hs].
  { split; [done|]. intros [_ Hall]. by destruct (Hall f ltac:(by left)). }
  destruct (folders !! f) as [folder|] eqn:E; cbn [is_some].
  2: { split; [done|]. intros [_ Hall]. destruct (Hall f ltac:(by left)) as [_ [? ?]]. congruence. }
  rewrite IH. split.
  - intros [Hnd Hall]. split; [split; [|done]|].
    + intros Hf. destruct (Hall f Hf) as [Hn _]. set_solver.
    + intros g [->|Hg]%elem_of_cons; [split; [done|by rewrite E]|]. destruct (Hall g Hg). split; [set_solver|done].
  - intros [[Hf Hnd] Hall]. split; [done|]. intros g Hg. destruct (Hall g ltac:(by right)) as [Hn Hk]. split; [|done].
    intros [->%elem_of_singleton|?]%elem_of_union; done.
Qed.

Lemma state_fits_iff folders state : elems (msMailboxIDs state) ≠ [] → state_mismatch folders state = None ↔ state_fits folders state.
Proof.
  intros Hne. unfold state_mismatch, state_fits. destruct (valid_folders _ _ _) eqn:Hv; cbn [negb].
  2: { split; [done|]. intros (Hnd & Hall & _). assert (valid_folders folders ∅ (elems (msMailboxIDs state)) = true); [|congruence].
       apply valid_folders_iff. split; [done|]. intros f Hf. split; [set_solver|by apply Hall]. }
  apply valid_folders_iff in Hv as [Hnd Hall].
  destruct (preserved_uid _ _) eqn:Hp; cbn [andb].
  2: { split; [|done]. intros _. split; [done|]. split; [intros f Hf; by apply Hall|done]. }
  assert (Hone : ∃ f, elems (msMailboxIDs state) = [f]).
  { unfold preserved_uid in Hp. bools. destruct (elems _) as [|f [|g l]]; [done|by exists f|]. unfold llen in *. cbn [List.length] in *. lia. }
  destruct Hone as [f Hf]. rewrite Hf in *. change (default "" (head [f])) with f. destruct (N.eqb_spec (piUIDValidity (msProjection state)) (folder_validity folders f)) as [E|E]; cbn [negb].
  - split; [|done]. intros _. split_and!; [done|intros g Hg; by apply Hall|]. by intros _ g ->%list_elem_of_singleton.
  - split; [done|]. intros (_ & _ & H'). by destruct E; apply H'; [|left].
Qed.

(** The messages, with the states they are found with. *)
Definition message_read (states : gmap string MessageStateRecord) (record : Record_) (item : decodedMessage) : Prop :=
  dmRecord item = record ∧ unmarshal_message (rcValue record) = Some (dmValue item) ∧ states !! rcRKey record = Some (dmState item).
Lemma scan_messages states l : ∀ messages seen mm,
  let s := fold_left (scan_message states) l (messages, seen, mm) in
  (s.2 = [] ↔ mm = [] ∧ ∃ items, Forall2 (message_read states) l items) ∧
  (∀ items, Forall2 (message_read states) l items → s.1.1 = messages ++ items ∧ s.1.2 = list_to_set (rcRKey <$> l) ∪ seen).
Proof.
  induction l as [|r l IH]; intros messages seen mm; cbv zeta; cbn [fold_left fst snd].
  { split.
    - split; [intros ->; split; [done|]; exists []; constructor|by intros [-> _]].
    - intros items Hi. inversion Hi. rewrite app_nil_r. split; [done|]. set_solver. }
  unfold scan_message at 2 4 6. destruct (unmarshal_message (rcValue r)) as [message|] eqn:Em.
  2: { destruct (IH messages seen (mm ++ [MkMismatch "message-record" (rcRKey r)])) as [H1 _]. split.
       - rewrite H1. split; [intros [Happ _]; by destruct mm|]. intros [_ [items Hi]]. inversion Hi as [|? ? ? ? (_ & E & _)]. congruence.
       - intros items Hi. inversion Hi as [|? ? ? ? (_ & E & _)]. congruence. }
  destruct (states !! rcRKey r) as [state|] eqn:Es.
  2: { destruct (IH messages seen (mm ++ [MkMismatch "missing-state" (rcRKey r)])) as [H1 _]. split.
       - rewrite H1. split; [intros [Happ _]; by destruct mm|]. intros [_ [items Hi]]. inversion Hi as [|? ? ? ? (_ & _ & E)]. congruence.
       - intros items Hi. inversion Hi as [|? ? ? ? (_ & _ & E)]. congruence. }
  destruct (IH (messages ++ [MkDecodedMessage r message state]) ({[rcRKey r]} ∪ seen) mm) as [H1 H2].
  assert (Hread : message_read states r (MkDecodedMessage r message state)) by done.
  assert (Huniq : ∀ item, message_read states r item → item = MkDecodedMessage r message state).
  { intros [r' m' st'] (E1 & E2 & E3). cbn in *. congruence. }
  split.
  - rewrite H1. split; intros [-> [items Hi]]; (split; [done|]).
    + by exists (MkDecodedMessage r message state :: items); constructor.
    + inversion Hi as [|? ? ? items' _ Hi']. by exists items'.
  - intros items Hi. inversion Hi as [|? item ? items' Hit Hi']. subst. destruct (H2 items' Hi') as [-> ->].
    rewrite (Huniq item Hit), <- app_assoc. split; [done|]. rewrite fmap_cons. cbn [list_to_set]. set_solver.
Qed.

Lemma scan_orphans_none states seen : scan_orphans states seen = [] ↔ ∀ k, is_Some (states !! k) → k ∈ seen.
Proof.
  unfold scan_orphans. split.
  - intros E k [st Hst]. destruct (decide (k ∈ seen)) as [|Hn]; [done|].
    assert (Hin : In (k, st) (List.filter (λ kv, negb (bool_decide (kv.1 ∈ seen))) (map_to_list states))).
    { apply filter_In. split; [by apply list_elem_of_In, elem_of_map_to_list|]. by rewrite bool_decide_eq_false_2. }
    destruct (List.filter _ _); [done|]. discriminate.
  - intros Hall. assert (E : List.filter (λ kv : string * MessageStateRecord, negb (bool_decide (kv.1 ∈ seen))) (map_to_list states) = []); [|by rewrite E].
    destruct (List.filter _ _) as [|[k st] rest] eqn:E; [done|]. assert (Hin : In (k, st) ((k, st) :: rest)) by by left.
    rewrite <- E in Hin. apply filter_In in Hin as [Hin Hb]. cbn [fst] in Hb. apply list_elem_of_In, elem_of_map_to_list in Hin.
    rewrite bool_decide_eq_true_2 in Hb; [done|]. apply Hall. by rewrite Hin.
Qed.
Lemma sortMismatches_none l : sortMismatches l = [] ↔ l = [].
Proof.
  pose proof (sort_by_perm mismatch_key l) as Hp. unfold sortMismatches. split.
  - intros E. rewrite E in Hp. by apply Permutation_nil in Hp.
  - intros ->. done.
Qed.

Lemma folder_reader_iff r folder : folder_reader r = inl folder ↔ read_folder r = Some folder.
Proof. unfold folder_reader. destruct (read_folder r); naive_solver. Qed.
Lemma read_state_folders r state : read_state r = Some state → elems (msMailboxIDs state) ≠ [].
Proof.
  unfold read_state. destruct (unmarshal_state _) as [st|]; [|done]. destruct (_ || _) eqn:E; [done|]. intros [= <-]. bools.
  intros Hn. rewrite Hn in *. done.
Qed.
Lemma state_reader_iff folders r state : state_reader folders r = inl state ↔ read_state r = Some state ∧ state_fits folders state.
Proof.
  unfold state_reader. destruct (read_state r) as [st|] eqn:E; [|split; [done|by intros [? _]]].
  pose proof (state_fits_iff folders st (read_state_folders r st E)) as Hfit. destruct (state_mismatch folders st) as [kind|].
  - split; [done|]. intros [[= ->] Hs]. by apply Hfit in Hs.
  - split; [intros [= ->]; split; [done|by apply Hfit]|by intros [[= ->] _]].
Qed.

(** The whole scan: no mismatch is left exactly for a consistent graph, and what was read is it. *)
Lemma scan_graph folderRecords stateRecords messageRecords :
  NoDup (rcRKey <$> folderRecords) → NoDup (rcRKey <$> stateRecords) → NoDup (rcRKey <$> messageRecords) →
  let f := fold_left scan_folder folderRecords (∅, []) in
  let s := fold_left (scan_state f.1) stateRecords (∅, f.2) in
  let m := fold_left (scan_message s.1) messageRecords ([], ∅, s.2) in
  (sortMismatches (m.2 ++ scan_orphans s.1 m.1.2) = [] → graph folderRecords stateRecords messageRecords f.1 m.1.1) ∧
  (∀ folders items, graph folderRecords stateRecords messageRecords folders items →
     sortMismatches (m.2 ++ scan_orphans s.1 m.1.2) = [] ∧ folders = f.1 ∧ items = m.1.1).
Proof.
  intros Hf Hs Hm f s m. rewrite sortMismatches_none.
  destruct (index_loop folder_reader folderRecords ∅ [] Hf (λ r _, lookup_empty _)) as [Hf1 Hf2].
  rewrite <- scan_folder_index in Hf1, Hf2. fold f in Hf1, Hf2.
  destruct (index_loop (state_reader f.1) stateRecords ∅ f.2 Hs (λ r _, lookup_empty _)) as [Hs1 Hs2].
  rewrite <- scan_state_index in Hs1, Hs2. fold s in Hs1, Hs2.
  destruct (scan_messages s.1 messageRecords [] ∅ s.2) as [Hm1 Hm2]. fold m in Hm1, Hm2. clearbody m s f.
  split.
  - intros [Em Eo]%app_eq_nil. apply Hm1 in Em as [Es [items Hi]]. destruct (Hm2 items Hi) as [Eitems Eseen]. cbn [app] in Eitems.
    apply Hs1 in Es as [Ef Hsr]. apply Hf1 in Ef as [_ Hfr]. rewrite Eitems.
    assert (Hst : ∀ k st, s.1 !! k = Some st → ∃ r, r ∈ stateRecords ∧ rcRKey r = k ∧ read_state r = Some st ∧ state_fits f.1 st).
    { intros k st [Hk|(r & Hr & Ek & Er)]%Hs2; [by rewrite lookup_empty in Hk|]. apply state_reader_iff in Er. by exists r. }
    split.
    + intros k folder. rewrite Hf2, lookup_empty. setoid_rewrite folder_reader_iff. naive_solver.
    + intros r Hr. destruct (Hfr r Hr) as [folder Hv]. apply folder_reader_iff in Hv. by rewrite Hv.
    + intros r Hr. destruct (Hsr r Hr) as [st Hv]. apply state_reader_iff in Hv. by exists st.
    + apply set_eq. intros k. rewrite !elem_of_list_to_set. split.
      * intros (r & -> & Hr)%list_elem_of_fmap. destruct (Hsr r Hr) as [st Hv].
        assert (Hk : is_Some (s.1 !! rcRKey r)) by (exists st; apply Hs2; right; by exists r).
        pose proof (proj1 (scan_orphans_none _ _) Eo _ Hk) as Hin. rewrite Eseen in Hin. set_solver.
      * intros (r & -> & Hr)%list_elem_of_fmap. apply list_elem_of_lookup_1 in Hr as [n Hn].
        destruct (Forall2_lookup_l _ _ _ _ _ Hi Hn) as (item & _ & _ & _ & Hk).
        destruct (Hst _ _ Hk) as (r' & Hr' & E & _). apply list_elem_of_fmap. by exists r'.
    + eapply Forall2_impl; [exact Hi|]. intros r item (E1 & E2 & E3). split_and!; [done..|].
      destruct (Hst _ _ E3) as (r' & Hr' & E & Er & _). by exists r'.
  - intros folders items [G1 G2 G3 G4 G5].
    assert (Efold : folders = f.1).
    { apply map_eq. intros k. apply option_eq. intros folder. rewrite G1, Hf2, lookup_empty. setoid_rewrite folder_reader_iff. naive_solver. }
    subst folders.
    assert (Hst : ∀ r st, r ∈ stateRecords → read_state r = Some st → s.1 !! rcRKey r = Some st).
    { intros r st Hr Er. apply Hs2. right. exists r. split_and!; [done..|]. apply state_reader_iff. split; [done|].
      destruct (G3 r Hr) as (st' & Er' & Hfit). congruence. }
    assert (Hi : Forall2 (message_read s.1) messageRecords items).
    { eapply Forall2_impl; [exact G5|]. intros r item (E1 & E2 & r' & Hr' & E3 & E4). split_and!; [done..|]. rewrite <- E3. by apply Hst. }
    destruct (Hm2 items Hi) as [Eitems Eseen]. refine (conj _ (conj eq_refl (eq_sym Eitems))). apply sortMismatches_none. assert (m.2 = [] ∧ scan_orphans s.1 m.1.2 = []) as [E1 E2]; [split|by rewrite E1, E2].
    + apply Hm1. split; [|by exists items]. apply Hs1. split.
      * apply Hf1. split; [done|]. intros r Hr. destruct (G2 r Hr) as [folder E]. exists folder. by apply folder_reader_iff.
      * intros r Hr. destruct (G3 r Hr) as (st & E). exists st. exact (proj2 (state_reader_iff _ _ _) E).
    + apply scan_orphans_none. intros k [st [Hk|(r & Hr & <- & _)]%Hs2]; [by rewrite lookup_empty in Hk|]. rewrite Eseen.
      apply elem_of_union_l. rewrite <- G4. apply elem_of_list_to_set, list_elem_of_fmap. by exists r.
Qed.

(** ** No statement violates a constraint *)

Fixpoint accepts (log sts : list statement) : Prop :=
  match sts with [] => True | st :: rest => ¬ violates log st ∧ accepts (log ++ [st]) rest end.
Lemma accepts_app log a b : accepts log (a ++ b) ↔ accepts log a ∧ accepts (log ++ a) b.
Proof.
  revert log. induction a as [|st a IH]; intros log; cbn [app accepts]; [by rewrite app_nil_r; tauto|].
  rewrite IH, <- app_assoc. cbn [app]. tauto.
Qed.

Lemma accepts_folders l : ∀ log, NoDup l.*1 →
  (∀ k k' folder folder', (k, folder) ∈ l → (k', folder') ∈ l → fdName folder = fdName folder' → k = k') →
  (∀ k folder k' folder', (k, folder) ∈ l → InsertFolder k' folder' ∈ log → k' ≠ k ∧ fdName folder' ≠ fdName folder) →
  accepts log (List.map (λ kv, InsertFolder kv.1 kv.2) l).
Proof.
  induction l as [|[k folder] l IH]; intros log Hnd Hkey Hlog; cbn [List.map accepts]; [done|].
  cbn in Hnd. apply NoDup_cons in Hnd as [Hk Hnd]. split.
  - intros (k' & folder' & Hin & Hc). destruct (Hlog k folder k' folder' ltac:(by left) Hin) as [H1 H2]. by destruct Hc.
  - apply IH; [done|intros k1 k2 f1 f2 Hin1 Hin2; apply Hkey; by right|]. intros k1 f1 k2 f2 Hin [Hin'|Hin']%elem_of_app; [apply (Hlog k1 f1); [by right|done]|].
    apply list_elem_of_singleton in Hin' as [= -> ->]. assert (Hne : k ≠ k1).
    { intros ->. apply Hk, list_elem_of_fmap. by exists (k1, f1). }
    split; [done|]. intros E. apply Hne. apply (Hkey k k1 folder f1); [by left|by right|done].
Qed.

Section rows.
Context `{Syntax} {W : Type} `{Repository W} (w : W) (target : Target).
Context (folders : gmap string FolderRecord) (ids : identity_map).
Hypothesis folder_names : ∀ k k' folder folder', folders !! k = Some folder → folders !! k' = Some folder' → fdName folder = fdName folder' → k = k'.
Hypothesis distinct : ∀ f k k' i i', identity_of ids k f = Some i → identity_of ids k' f = Some i' → piUID i = piUID i' → k = k'.

(** The memberships inserted so far are those of the pairs of a list. *)
Definition inserted (log : list statement) (pairs : list (string * string)) : Prop :=
  ∀ rkey mailbox i, InsertMembership rkey mailbox i ∈ log → ∃ f folder, folders !! f = Some folder ∧ fdName folder = mailbox ∧
    identity_of ids rkey f = Some i ∧ (rkey, f) ∈ pairs.

Lemma membership_accepted log pairs rkey f : inserted log pairs → is_Some (folders !! f) → is_Some (identity_of ids rkey f) →
  (rkey, f) ∉ pairs → (∃ row, InsertMessage row ∈ log ∧ rwRKey row = rkey) → (∀ k folder, folders !! k = Some folder → InsertFolder k folder ∈ log) →
  ¬ violates log (membership folders ids rkey f) ∧ inserted (log ++ [membership folders ids rkey f]) (pairs ++ [(rkey, f)]).
Proof.
  intros Hins [folder Hf] [i Hi] Hnew (row & Hrow & Erow) Hfolders. unfold membership. rewrite Hf, Hi. cbn [default]. split.
  - intros [(rkey' & i' & Hin & Hc)|[Hn|Hn]].
    + destruct (Hins _ _ _ Hin) as (f' & folder' & Hf' & En & Hi' & Hp).
      assert (f' = f) as -> by (by eapply folder_names).
      apply Hnew. destruct Hc as [<-|Hu]; [done|]. by rewrite <- (distinct _ _ _ _ _ Hi' Hi Hu).
    + by apply (Hn row Hrow).
    + by apply (Hn f folder); [apply Hfolders|].
  - intros rkey' mailbox' i' [Hin|Hin]%elem_of_app.
    + destruct (Hins _ _ _ Hin) as (f' & folder' & ? & ? & ? & ?). exists f', folder'. split_and!; try done. apply elem_of_app. by left.
    + apply list_elem_of_singleton in Hin as [= -> -> ->]. exists f, folder. split_and!; try done. apply elem_of_app. right. by left.
Qed.

Lemma memberships_accepted rkey fs : ∀ log pairs, inserted log pairs → NoDup fs → (∀ f, f ∈ fs → is_Some (folders !! f) ∧
    is_Some (identity_of ids rkey f) ∧ (rkey, f) ∉ pairs) → (∃ row, InsertMessage row ∈ log ∧ rwRKey row = rkey) →
  (∀ k folder, folders !! k = Some folder → InsertFolder k folder ∈ log) →
  accepts log (List.map (membership folders ids rkey) fs) ∧ inserted (log ++ List.map (membership folders ids rkey) fs) (pairs ++ ((λ f, (rkey, f)) <$> fs)).
Proof.
  induction fs as [|f fs IH]; intros log pairs Hins Hnd Hfs Hrow Hfolders; cbn [List.map accepts]; [by rewrite !app_nil_r|].
  apply NoDup_cons in Hnd as [Hf Hnd]. destruct (Hfs f ltac:(by left)) as (H1 & H2 & H3).
  destruct (membership_accepted log pairs rkey f Hins H1 H2 H3 Hrow Hfolders) as [Hv Hins'].
  destruct (IH _ _ Hins' Hnd) as [Ha Hins''].
  - intros g Hg. destruct (Hfs g ltac:(by right)) as (? & ? & Hp). split_and!; [done..|].
    intros [?|[= ->]%list_elem_of_singleton]%elem_of_app; done.
  - destruct Hrow as (row & ? & ?). exists row. split; [|done]. apply elem_of_app. by left.
  - intros k folder Hk. apply elem_of_app. left. by apply Hfolders.
  - split; [done|]. rewrite <- !app_assoc in Hins''. exact Hins''.
Qed.

(** Messages whose live memberships have identities, in known folders named once. *)
Definition placed (item : decodedMessage) : Prop := msTombstone (dmState item) = false →
  NoDup (dm_folders item) ∧ ∀ f, f ∈ dm_folders item → is_Some (folders !! f) ∧ is_Some (identity_of ids (dm_key item) f).

Lemma rows_accepted items : ∀ log pairs, inserted log pairs → NoDup (dm_key <$> items) → Forall placed items →
  (∀ item f, item ∈ items → (dm_key item, f) ∉ pairs) → (∀ item row, item ∈ items → InsertMessage row ∈ log → rwRKey row ≠ dm_key item) →
  (∀ k folder, folders !! k = Some folder → InsertFolder k folder ∈ log) →
  accepts log (mjoin (item_rows w target folders ids <$> items)).
Proof.
  induction items as [|item items IH]; intros log pairs Hins Hnd Hp Hpairs Hrows Hfolders; [done|].
  rewrite fmap_cons, NoDup_cons in Hnd. destruct Hnd as [Hk Hnd]. apply Forall_cons_1 in Hp as [Hitem Hp].
  change (mjoin (item_rows w target folders ids <$> item :: items)) with
    (item_rows w target folders ids item ++ mjoin (item_rows w target folders ids <$> items)).
  assert (Hother : ∀ x, x ∈ items → dm_key x ≠ dm_key item) by (intros x Hx E; apply Hk, list_elem_of_fmap; by exists x).
  unfold item_rows at 1. destruct (msTombstone (dmState item)) eqn:Ht.
  { apply (IH log pairs); try done; intros; [apply Hpairs|apply Hrows]; try done; by right. }
  destruct (Hitem Ht) as [Hfs Hids]. set (row := row_of item _). cbn [app accepts]. split.
  { intros (row' & Hin & E). by apply (Hrows item row' ltac:(by left) Hin). }
  rewrite accepts_app.
  assert (Hins' : inserted (log ++ [InsertMessage row]) pairs).
  { intros k mb i [Hin|Hin%list_elem_of_singleton]%elem_of_app; [by apply Hins|done]. }
  destruct (memberships_accepted (dm_key item) (dm_folders item) _ pairs Hins' Hfs) as [Ha Hins''].
  - intros f Hf. destruct (Hids f Hf). split_and!; try done. apply Hpairs. by left.
  - exists row. split; [apply elem_of_app; right; by left|done].
  - intros k folder Hf. apply elem_of_app. left. by apply Hfolders.
  - split; [exact Ha|]. apply (IH _ _ Hins'' Hnd Hp).
    + intros x f Hx [Hin|(f' & [= E _] & _)%list_elem_of_fmap]%elem_of_app; [by apply (Hpairs x f); [right|]|by apply (Hother x Hx)].
    + intros x row' Hx [[Hin|Hin%list_elem_of_singleton]%elem_of_app|Hin]%elem_of_app.
      * apply Hrows; [by right|done].
      * injection Hin as ->. cbn. symmetry. by apply Hother.
      * apply list_elem_of_fmap in Hin as (f & E & _). done.
    + intros k folder Hf. apply elem_of_app. left. apply elem_of_app. left. by apply Hfolders.
Qed.

End rows.

(** ** Running the statements *)

Section run.
Context `{Syntax} {W : Type} `{RepositoryLaws W} `{Files W} `{!FilesLaws W}.
Implicit Types w : W.

Lemma same_blobs_refl w : same_blobs w w.
Proof. done. Qed.
Lemma same_blobs_trans w1 w2 w3 : same_blobs w1 w2 → same_blobs w2 w3 → same_blobs w1 w3.
Proof. intros S1 S2 t cid. by rewrite S2. Qed.
Lemma blob_of_same w w' target item : same_blobs w w' → blob_of w' target item = blob_of w target item.
Proof. intros Hs. unfold blob_of. by rewrite Hs. Qed.
Lemma blob_valid_same w w' target item : same_blobs w w' → blob_valid w' target item ↔ blob_valid w target item.
Proof. intros Hs. unfold blob_valid. by rewrite Hs. Qed.
Lemma rows_same w w' target folders ids item : same_blobs w w' → item_rows w' target folders ids item = item_rows w target folders ids item.
Proof. intros Hs. unfold item_rows. by rewrite (blob_of_same w w'). Qed.

Lemma exec_all_done db sts : ∀ w w', exec_all db sts w = (Ok tt, w') → executed w' db = executed w db ++ sts ∧ same_blobs w w'.
Proof.
  induction sts as [|st sts IH]; intros w w'; cbn [exec_all].
  - intros [= <-]. by rewrite app_nil_r.
  - unfold call_bind. destruct (db_Exec db st w) as [[[]|e] w1] eqn:E; [|done]. intros Hr.
    destruct (db_Exec_done _ _ _ _ E) as [E1 S1]. destruct (IH _ _ Hr) as [E2 S2].
    rewrite E2, E1, <- app_assoc. split; [done|by eapply same_blobs_trans].
Qed.
Lemma exec_all_works `{!ReliableFiles W} db sts : ∀ w, accepts (executed w db) sts → ∃ w', exec_all db sts w = (Ok tt, w').
Proof.
  induction sts as [|st sts IH]; intros w; cbn [exec_all accepts]; [by exists w|]. intros [Hv Ha].
  destruct (db_Exec_works db st w Hv) as [w1 E]. destruct (db_Exec_done _ _ _ _ E) as [E1 _].
  destruct (IH w1) as [w' Hw']; [by rewrite E1|]. exists w'. unfold call_bind. by rewrite E.
Qed.

Definition tally (w : W) (target : Target) (report : Report) (item : decodedMessage) : Report :=
  let report := add_bytes report (blob_of w target item) in
  if msTombstone (dmState item) then add_tombstone report else report.

(** The loop over the messages ends in its continuation, after every row, or in an error. *)
Lemma insert_messages_done db target folders ids k items : ∀ w manifest report,
  (Forall (blob_valid w target) items ∧ ∃ w', executed w' db = executed w db ++ mjoin (item_rows w target folders ids <$> items) ∧
     same_blobs w w' ∧ insert_messages db target folders ids items manifest report k w =
       k (manifest_text manifest items) (fold_left (tally w target) items report) w') ∨
  (∃ report' e w', insert_messages db target folders ids items manifest report k w = ((report', Some e), w')).
Proof.
  induction items as [|item items IH]; intros w manifest report; cbn [insert_messages].
  { left. split; [constructor|]. exists w. by rewrite app_nil_r. }
  unfold guarded. rewrite (readonly_run _ w (readonly_GetBlob target (brLink (mrRaw (dmValue item))))).
  destruct (GetBlob _ _ w).1 as [raw|e] eqn:Eb; [|right; by eexists _, _, _].
  unfold guarded. unfold returns. destruct (ValidateStoredMessage _ _ _ raw) as [[]|e] eqn:Ev; [|right; by eexists _, _, _].
  assert (Hv : blob_valid w target item) by (by exists raw). assert (Hb : blob_of w target item = raw) by (unfold blob_of; by rewrite Eb).
  assert (Hrest : ∀ w1 report1 pre, executed w1 db = executed w db ++ pre → same_blobs w w1 → pre = item_rows w target folders ids item →
    report1 = tally w target report item →
    (Forall (blob_valid w target) (item :: items) ∧ ∃ w', executed w' db = executed w db ++ mjoin (item_rows w target folders ids <$> item :: items) ∧
     same_blobs w w' ∧ insert_messages db target folders ids items (manifest +:+ manifest_entry item) report1 k w1 =
       k (manifest_text manifest (item :: items)) (fold_left (tally w target) (item :: items) report) w') ∨
    (∃ report' e w', insert_messages db target folders ids items (manifest +:+ manifest_entry item) report1 k w1 = ((report', Some e), w'))).
  { intros w1 report1 pre E1 S1 -> ->. destruct (IH w1 (manifest +:+ manifest_entry item) (tally w target report item)) as [(Hall & w' & E2 & S2 & Hr)|Hr]; [|by right].
    left. split; [constructor; [done|]; eapply Forall_impl; [exact Hall|]; intros x Hx; exact (proj1 (blob_valid_same w w1 target x S1) Hx)|]. exists w'.
    split; [|split; [by eapply same_blobs_trans|]].
    - rewrite E2, E1, <- app_assoc. f_equal. cbn. f_equal. f_equal. apply list_fmap_ext. intros i x _. by apply rows_same.
    - rewrite Hr. cbn [fold_left]. f_equal. apply fold_left_ext. intros r x. unfold tally. by rewrite (blob_of_same w w1). }
  destruct (msTombstone (dmState item)) eqn:Ht.
  - apply (Hrest _ _ []); [by rewrite app_nil_r|done|unfold item_rows; by rewrite Ht|unfold tally; by rewrite Ht, Hb].
  - unfold guarded. destruct (db_Exec db _ w) as [[[]|e] w1] eqn:E1; [|right; by eexists _, _, _].
    destruct (db_Exec_done _ _ _ _ E1) as [X1 S1].
    unfold guarded. destruct (exec_all db _ w1) as [[[]|e] w2] eqn:E2; [|right; by eexists _, _, _].
    destruct (exec_all_done _ _ _ _ E2) as [X2 S2].
    apply (Hrest _ _ (item_rows w target folders ids item)); [|by eapply same_blobs_trans|done|unfold tally; by rewrite Ht, Hb].
    unfold item_rows. rewrite Ht, Hb, X2, X1, <- app_assoc. done.
Qed.
Lemma insert_messages_works `{!ReliableFiles W} db target folders ids k items : ∀ w manifest report,
  Forall (blob_valid w target) items → accepts (executed w db) (mjoin (item_rows w target folders ids <$> items)) →
  ∃ w', executed w' db = executed w db ++ mjoin (item_rows w target folders ids <$> items) ∧ same_blobs w w' ∧
    insert_messages db target folders ids items manifest report k w =
      k (manifest_text manifest items) (fold_left (tally w target) items report) w'.
Proof.
  induction items as [|item items IH]; intros w manifest report Hall Ha; cbn [insert_messages].
  { exists w. by rewrite app_nil_r. }
  apply Forall_cons_1 in Hall as [(raw & Eb & Ev) Hall].
  change (mjoin (item_rows w target folders ids <$> item :: items)) with
    (item_rows w target folders ids item ++ mjoin (item_rows w target folders ids <$> items)) in *.
  apply accepts_app in Ha as [Ha Harest]. assert (Hb : blob_of w target item = raw) by (unfold blob_of; by rewrite Eb).
  assert (Hrest : ∀ w1 report1, executed w1 db = executed w db ++ item_rows w target folders ids item → same_blobs w w1 →
    report1 = tally w target report item →
    ∃ w', executed w' db = executed w db ++ item_rows w target folders ids item ++ mjoin (item_rows w target folders ids <$> items) ∧
     same_blobs w w' ∧ insert_messages db target folders ids items (manifest +:+ manifest_entry item) report1 k w1 =
       k (manifest_text manifest (item :: items)) (fold_left (tally w target) (item :: items) report) w').
  { intros w1 report1 E1 S1 ->. assert (Hrows : item_rows w1 target folders ids <$> items = item_rows w target folders ids <$> items).
    { apply list_fmap_ext. intros i x _. by apply rows_same. }
    destruct (IH w1 (manifest +:+ manifest_entry item) (tally w target report item)) as (w' & E2 & S2 & Hr).
    - eapply Forall_impl; [exact Hall|]. intros x Hx. exact (proj2 (blob_valid_same w w1 target x S1) Hx).
    - by rewrite Hrows, E1.
    - exists w'. split; [by rewrite E2, E1, Hrows, <- app_assoc|split; [by eapply same_blobs_trans|]].
      rewrite Hr. cbn [fold_left]. f_equal. apply fold_left_ext. intros r x. unfold tally. by rewrite (blob_of_same w w1). }
  unfold guarded. rewrite (readonly_run _ w (readonly_GetBlob target (brLink (mrRaw (dmValue item))))). rewrite Eb.
  unfold returns. rewrite Ev. unfold item_rows in Ha, Hrest. unfold tally in Hrest. rewrite Hb in *.
  destruct (msTombstone (dmState item)) eqn:Ht.
  - assert (Hi : item_rows w target folders ids item = []) by (unfold item_rows; by rewrite Ht). rewrite Hi in *.
    apply (Hrest w); [by rewrite app_nil_r|done|done].
  - assert (Hi : item_rows w target folders ids item =
      InsertMessage (row_of item raw) :: List.map (membership folders ids (dm_key item)) (dm_folders item)) by (unfold item_rows; by rewrite Ht, Hb).
    rewrite Hi. cbn [accepts] in Ha. destruct Ha as [Hv Ha]. destruct (db_Exec_works _ _ _ Hv) as [w1 E1]. rewrite E1.
    destruct (db_Exec_done _ _ _ _ E1) as [X1 S1]. rewrite <- X1 in Ha.
    destruct (exec_all_works _ _ _ Ha) as [w2 E2]. rewrite E2. destruct (exec_all_done _ _ _ _ E2) as [X2 S2].
    apply Hrest; [by rewrite X2, X1, <- app_assoc|by eapply same_blobs_trans|done].
Qed.

Lemma tally_fields w target items : ∀ r, fold_left (tally w target) items r =
  MkReport (rtVersion r) (rtTarget r) (rtFolders r) (rtMessages r) (rtStates r)
    (fold_left (λ n item, n + if msTombstone (dmState item) then 1 else 0)%Z items (rtTombstones r))
    (fold_left (λ n item, n + raw_size (blob_of w target item))%Z items (rtTotalBytes r)) (rtManifestSHA256 r) (rtMismatches r).
Proof.
  induction items as [|item items IH]; intros r; cbn [fold_left]; [by destruct r|]. rewrite IH. unfold tally.
  destruct (msTombstone (dmState item)); cbn; by rewrite ?Z.add_0_r.
Qed.

(** The statements that [fill] runs, for the messages in the order of their keys. *)
Definition filled (w : W) (target : Target) (report : Report) (items : list decodedMessage) : Report :=
  set_rtManifestSHA256 (fold_left (tally w target) items report) (hex_encode (sha256 (manifest_text "" items))).

Lemma fill_done db target destination folders messages report w r w' :
  fill db target destination folders messages report w = ((r, None), w') →
  let items := sort_by dm_key messages in
  ∃ ids, allocateProjectionIdentities items folders = Ok ids ∧ Forall (blob_valid w target) items ∧
    executed w' db = executed w db ++ projected_log w target folders ids items ∧ r = filled w target report items.
Proof.
  unfold fill, guarded, returns. cbv zeta. generalize (sort_by dm_key messages). intros items Hr.
  destruct (exec_all db [_; _; _] w) as [[[]|e] w1] eqn:E1; [|done].
  destruct (exec_all db (List.map _ _) w1) as [[[]|e] w2] eqn:E2; [|done].
  destruct (exec_all_done _ _ _ _ E1) as [X1 S1], (exec_all_done _ _ _ _ E2) as [X2 S2].
  assert (S12 : same_blobs w w2) by by eapply same_blobs_trans.
  destruct (allocateProjectionIdentities items folders) as [ids|e]; [|done]. exists ids. split; [done|].
  match type of Hr with insert_messages _ _ _ _ _ _ _ ?k _ = _ => set (k' := k) in Hr end.
  destruct (insert_messages_done db target folders ids k' items w2 "" report) as [(Hall & w3 & X3 & S3 & Hk)|(r' & e & w3 & Hk)];
    rewrite Hk in Hr; [|done].
  assert (Hall' : Forall (blob_valid w target) items).
  { eapply Forall_impl; [exact Hall|]. intros x Hx. exact (proj1 (blob_valid_same w w2 target x S12) Hx). }
  unfold k' in Hr. destruct (db_Exec db CommitTx w3) as [[[]|e] w4] eqn:E4; [|done]. destruct (db_Exec_done _ _ _ _ E4) as [X4 _].
  destruct (db_Close db w4) as [[[]|e] w5] eqn:E5; [|done]. destruct (Chmod destination w5) as [[[]|e] w6] eqn:E6; [|done].
  injection Hr as <- <-. split_and!; [done| |].
  - rewrite (Chmod_keeps _ _ _ _ _ E6), (db_Close_keeps _ _ _ _ E5), X4, X3, X2, X1. unfold projected_log. rewrite <- !app_assoc.
    f_equal. f_equal. f_equal. f_equal. f_equal. apply list_fmap_ext. intros i x _. by apply rows_same.
  - unfold filled. f_equal. apply fold_left_ext. intros r x. unfold tally. by rewrite (blob_of_same w w2).
Qed.

Lemma fill_works `{!ReliableFiles W} db target destination folders messages report w ids :
  let items := sort_by dm_key messages in
  allocateProjectionIdentities items folders = Ok ids → Forall (blob_valid w target) items →
  accepts (executed w db) (projected_log w target folders ids items) →
  ∃ r w', fill db target destination folders messages report w = ((r, None), w').
Proof.
  unfold fill, guarded, returns. cbv zeta. generalize (sort_by dm_key messages). intros items Hids Hall Ha.
  unfold projected_log in Ha. rewrite !accepts_app in Ha. destruct Ha as (A1 & A2 & A3 & A4).
  destruct (exec_all_works _ _ _ A1) as [w1 E1]. destruct (exec_all_done _ _ _ _ E1) as [X1 S1]. rewrite E1.
  rewrite <- X1 in A2. destruct (exec_all_works _ _ _ A2) as [w2 E2]. destruct (exec_all_done _ _ _ _ E2) as [X2 S2]. rewrite E2, Hids.
  assert (S12 : same_blobs w w2) by by eapply same_blobs_trans.
  assert (Hrows : item_rows w2 target folders ids <$> items = item_rows w target folders ids <$> items).
  { apply list_fmap_ext. intros i x _. by apply rows_same. }
  match goal with |- ∃ r w', insert_messages _ _ _ _ _ _ _ ?k _ = _ => set (k' := k) end.
  destruct (insert_messages_works db target folders ids k' items w2 "" report) as (w3 & X3 & S3 & Hk).
  - eapply Forall_impl; [exact Hall|]. intros x Hx. exact (proj2 (blob_valid_same w w2 target x S12) Hx).
  - by rewrite Hrows, X2, X1.
  - rewrite Hk. unfold k'. rewrite Hrows in X3.
    destruct (db_Exec_works db CommitTx w3) as [w4 E4]; [by intros []|]. rewrite E4.
    destruct (db_Close_works db w4) as [w5 E5]. rewrite E5. destruct (Chmod_works destination w5) as [w6 E6]. rewrite E6. by eexists _, _.
Qed.

End run.

(** ** The rebuild as a whole *)

Lemma graph_keys frs srs mrs folders items : graph frs srs mrs folders items → dm_key <$> items = rcRKey <$> mrs.
Proof.
  intros Hg. pose proof (gr_items _ _ _ _ _ Hg) as Hi. clear Hg.
  induction Hi as [|r item l k (E & _) _ IH]; [done|]. rewrite !fmap_cons, IH. unfold dm_key at 1. by rewrite E.
Qed.
Lemma graph_states frs srs mrs folders items item : graph frs srs mrs folders items → item ∈ items →
  state_fits folders (dmState item) ∧ piUID (msProjection (dmState item)) < 2 ^ 32.
Proof.
  intros [_ _ Hs _ Hi] Hin. apply list_elem_of_lookup_1 in Hin as [n Hn].
  destruct (Forall2_lookup_r _ _ _ _ _ Hi Hn) as (r & _ & _ & _ & sr & Hsr & _ & Er).
  destruct (Hs sr Hsr) as (st & Est & Hfit). rewrite Er in Est. injection Est as <-. split; [done|].
  unfold read_state in Er. destruct (unmarshal_state (rcValue sr)) as [st|] eqn:Eu; [|done].
  destruct (_ || _); [done|]. injection Er as ->. apply unmarshal_state_typed in Eu. apply (st_projection _ Eu).
Qed.
Lemma graph_allocatable frs srs mrs folders items : NoDup (rcRKey <$> mrs) → graph frs srs mrs folders items →
  allocatable (sort_by dm_key items).
Proof.
  intros Hnd Hg. pose proof (sort_by_perm dm_key items) as Hp. split.
  - rewrite Hp. by rewrite (graph_keys _ _ _ _ _ Hg).
  - rewrite Hp. apply Forall_forall. intros item Hin. apply (graph_states _ _ _ _ _ item Hg Hin).
  - rewrite Hp. apply Forall_forall. intros item Hin. apply (graph_states _ _ _ _ _ item Hg Hin).
Qed.
Lemma graph_folder_keys frs srs mrs folders items k folder : graph frs srs mrs folders items →
  folders !! k = Some folder → k = FolderRKey (fdName folder).
Proof.
  intros [Hf _ _ _ _] (r & _ & <- & Er)%Hf. unfold read_folder in Er. destruct (unmarshal_folder _) as [fd|]; [|done].
  destruct (_ || _) eqn:E; [done|]. injection Er as ->. bools. done.
Qed.
Lemma graph_folder_names frs srs mrs folders items k k' folder folder' : graph frs srs mrs folders items →
  folders !! k = Some folder → folders !! k' = Some folder' → fdName folder = fdName folder' → k = k'.
Proof. intros Hg Hk%(graph_folder_keys _ _ _ _ _ _ _ Hg) Hk'%(graph_folder_keys _ _ _ _ _ _ _ Hg) E. congruence. Qed.

(** Two lists of the same messages allocate alike. *)
Lemma members_perm l k f : l ≡ₚ k → members l f ≡ₚ members k f.
Proof.
  unfold members. induction 1; cbn [List.filter]; [done| | |by etrans].
  - destruct (_ && _); [by apply perm_skip|done].
  - repeat destruct (_ && _); try done. apply perm_swap.
Qed.
Lemma collisions_perm l k f : l ≡ₚ k → (¬ uid_collision (members l f) ∧ llen (members l f) < 2 ^ 32) →
  ¬ uid_collision (members k f) ∧ llen (members k f) < 2 ^ 32.
Proof.
  intros Hm%(members_perm _ _ f) [Hc Hl]. split.
  - intros (a & b & Ha & Hb & Hr). apply Hc. exists a, b. rewrite Hm. split; [done|]. split; [done|exact Hr].
  - unfold llen in *. by rewrite <- (Permutation_length Hm).
Qed.

(** Nothing the rebuild executes violates the schema. *)
Lemma log_accepted `{Syntax} {W : Type} `{Repository W} (w : W) target frs srs mrs folders items ids :
  NoDup (rcRKey <$> mrs) → graph frs srs mrs folders items → allocated (sort_by dm_key items) folders ids →
  accepts [] (projected_log w target folders ids (sort_by dm_key items)).
Proof.
  intros Hnd Hg Hids. pose proof (graph_allocatable _ _ _ _ _ Hnd Hg) as [Hk _ _]. pose proof (sort_by_perm dm_key items) as Hp.
  set (start := [CreateTables; InsertMeta target; Begin]).
  assert (Hstart : ∀ st, st ∈ start → match st with InsertFolder _ _ | InsertMessage _ | InsertMembership _ _ _ => False | _ => True end).
  { intros st Hin. unfold start in Hin. by repeat (apply elem_of_cons in Hin as [->|Hin]; [done|]); apply not_elem_of_nil in Hin. }
  assert (Hfolders : ∀ k folder, folders !! k = Some folder →
    InsertFolder k folder ∈ start ++ List.map (λ kv, InsertFolder kv.1 kv.2) (map_to_list folders)).
  { intros k folder Hf. apply elem_of_app. right. apply list_elem_of_fmap. exists (k, folder). split; [done|by apply elem_of_map_to_list]. }
  assert (Hno : ∀ st, st ∈ start ++ List.map (λ kv, InsertFolder kv.1 kv.2) (map_to_list folders) →
    match st with InsertMessage _ | InsertMembership _ _ _ => False | _ => True end).
  { intros st [Hin%Hstart|Hin]%elem_of_app; [by destruct st|]. by apply list_elem_of_fmap in Hin as (kv & -> & _). }
  unfold projected_log. fold start. rewrite !accepts_app. cbn [app].
  refine (conj _ (conj _ (conj _ _))).
  - cbn. refine (conj _ (conj _ (conj _ I))); [by intros Hin%not_elem_of_nil|by intros []..].
  - apply accepts_folders; [apply NoDup_fst_map_to_list| |].
    + intros k k' folder folder' Hin%elem_of_map_to_list Hin'%elem_of_map_to_list. by apply (graph_folder_names _ _ _ _ _ _ _ _ _ Hg).
    + intros k folder k' folder' _ Hin. by apply Hstart in Hin.
  - apply (rows_accepted w target folders ids (λ k k' folder folder', graph_folder_names _ _ _ _ _ k k' folder folder' Hg) (al_distinct _ _ _ Hids) _ _ []).
    + intros k mb i Hin. by apply Hno in Hin.
    + done.
    + rewrite Forall_forall. intros item Hin Ht. assert (Hin' : item ∈ items) by by rewrite <- Hp.
      destruct (graph_states _ _ _ _ _ item Hg Hin') as [(Hnf & Hall & _) _]. split; [done|]. intros f Hf.
      split; [by apply Hall|]. apply (al_total _ _ _ Hids). by apply elem_of_members.
    + intros item f _. apply not_elem_of_nil.
    + intros item row _ Hin. by apply Hno in Hin.
    + done.
  - cbn. split; [by intros []|done].
Qed.

Section whole.
Context `{Syntax} {W : Type} `{RepositoryLaws W} `{Files W} `{!FilesLaws W} `{!ReliableFiles W}.
Implicit Types w : W.

Lemma projected_report_passed w target n items : Passed (projected_report w target n items) = true.
Proof.
  unfold Passed, projected_report. cbn [rtMismatches rtMessages rtStates rtManifestSHA256]. rewrite Z.eqb_refl. cbn [andb].
  apply negb_true_iff, String.eqb_neq. intros E. pose proof (len_hex_sha256 (manifest_text "" items)) as Hl. rewrite E in Hl. done.
Qed.

Lemma listing_keys w target collection l : (ListRecords target collection w).1 = Ok l → NoDup (rcRKey <$> l).
Proof.
  destruct (ListRecords target collection w) as [r w'] eqn:E. cbn [fst]. intros ->. by apply (ListRecords_held _ _ _ _ _ E).
Qed.

(** The writing half, on a consistent graph. *)
Lemma write_projection_outcome w target destination frs srs mrs folders items report :
  NoDup (rcRKey <$> mrs) → graph frs srs mrs folders items →
  let sorted := sort_by dm_key items in
  match write_projection target destination folders items report w with
  | ((r, None), w') => Forall (blob_valid w target) items ∧ (∀ f, ¬ uid_collision (members items f) ∧ llen (members items f) < 2 ^ 32) ∧
      ∃ ids db, allocated sorted folders ids ∧ executed w' db = projected_log w target folders ids sorted ∧ r = filled w target report sorted
  | ((_, Some _), _) => ¬ (Forall (blob_valid w target) items ∧ ∀ f, ¬ uid_collision (members items f) ∧ llen (members items f) < 2 ^ 32)
  end.
Proof.
  intros Hnd Hg. cbv zeta. pose proof (graph_allocatable _ _ _ _ _ Hnd Hg) as Hal. pose proof (sort_by_perm dm_key items) as Hp.
  destruct (allocation_contract_iff (sort_by dm_key items) folders Hal) as [Hc Hiff].
  unfold write_projection, guarded. destruct (MkdirAll_works (Dir destination) w) as [w1 E1]. rewrite E1. pose proof (MkdirAll_blobs _ _ _ _ E1) as S1.
  destruct (db_Open_works destination w1) as (db & w2 & E2). rewrite E2. destruct (db_Open_fresh _ _ _ _ E2) as [X2 S2].
  assert (S12 : same_blobs w w2) by by eapply same_blobs_trans.
  assert (Hall : Forall (blob_valid w2 target) (sort_by dm_key items) ↔ Forall (blob_valid w target) items).
  { rewrite Hp. rewrite !Forall_forall. split; intros Hf x Hx; [apply (blob_valid_same w w2 target x S12)|apply (blob_valid_same w w2 target x S12)]; by apply Hf. }
  assert (Hlog : ∀ ids, projected_log w2 target folders ids (sort_by dm_key items) = projected_log w target folders ids (sort_by dm_key items)).
  { intros ids. unfold projected_log. do 3 f_equal. f_equal. apply list_fmap_ext. intros i x _. by apply rows_same. }
  destruct (fill db target destination folders items report w2) as [[r [e|]] w'] eqn:Ef.
  - intros [Hb Hu]. assert (Hok : is_ok (allocateProjectionIdentities (sort_by dm_key items) folders) = true).
    { apply Hiff. intros f. by apply (collisions_perm items). }
    destruct (allocateProjectionIdentities (sort_by dm_key items) folders) as [ids|e'] eqn:Ea; [|done].
    destruct (fill_works db target destination folders items report w2 ids Ea (proj2 Hall Hb)) as (r' & w'' & Ef'); [|congruence].
    rewrite X2, Hlog. by apply (log_accepted w target frs srs mrs).
  - destruct (fill_done _ _ _ _ _ _ _ _ _ Ef) as (ids & Ea & Hb & Hx & Hr). rewrite Ea in Hc, Hiff. split; [by apply Hall|]. split.
    + intros f. apply (collisions_perm (sort_by dm_key items)); [done|]. by apply Hiff.
    + exists ids, db. split; [done|]. split; [by rewrite Hx, X2, Hlog|]. rewrite Hr. unfold filled. f_equal. apply fold_left_ext.
      intros r' x. unfold tally. by rewrite (blob_of_same w w2).
Qed.

Lemma filled_report w target n items (scanned : list Record_) : Z.of_nat (List.length items) = Z.of_nat (List.length scanned) →
  filled w target (set_counts (new_report target) (Z.of_nat n) (Z.of_nat (List.length scanned)) (Z.of_nat (List.length scanned)) []) items =
  projected_report w target n items.
Proof. intros E. unfold filled, projected_report. by rewrite tally_fields, E. Qed.

(** States and messages of a consistent graph come in equal numbers. *)
Lemma graph_lengths frs srs mrs folders items : NoDup (rcRKey <$> srs) → NoDup (rcRKey <$> mrs) → graph frs srs mrs folders items →
  List.length srs = List.length mrs ∧ List.length items = List.length mrs.
Proof.
  intros Hs Hm Hg. split.
  - pose proof (f_equal size (gr_states_have_messages _ _ _ _ _ Hg)) as E. rewrite !size_list_to_set, !length_fmap in E by done. done.
  - pose proof (f_equal List.length (graph_keys _ _ _ _ _ Hg)) as E. by rewrite !length_fmap in E.
Qed.

(** The rebuild on a free path and on a path that is taken. *)
Lemma rebuild_runs w target destination :
  Target_ValidateFor target (tgRepoDID target) = Ok tt → HasPrefix destination "/" = true →
  ((Lstat destination w).1 = Ok true → ∃ report e, Rebuild target destination w = ((report, Some e), w)) ∧
  ((Lstat destination w).1 = Ok false →
   match Rebuild target destination w with
   | ((report, None), w') => ∃ frs srs mrs folders items ids db, projectable w target frs srs mrs folders items ∧
       allocated (sort_by dm_key items) folders ids ∧ executed w' db = projected_log w target folders ids (sort_by dm_key items) ∧
       report = projected_report w target (List.length frs) (sort_by dm_key items) ∧ Passed report = true
   | ((_, Some _), _) => ¬ ∃ frs srs mrs folders items, projectable w target frs srs mrs folders items
   end).
Proof.
  intros Ht Hd. assert (Hl : Lstat destination w = ((Lstat destination w).1, w)).
  { destruct (Lstat destination w) as [r w'] eqn:E. by rewrite (Lstat_keeps _ _ _ _ E). }
  unfold Rebuild. rewrite Hd, Ht. unfold guarded, returns. rewrite Hl. cbn [fst].
  split; intros ->; [by eexists _, _|].
  rewrite (readonly_run _ w (readonly_ListRecords target FolderCollection)).
  destruct (ListRecords target FolderCollection w).1 as [frs|e] eqn:Ef.
  2: { cbv beta iota. intros (frs & srs & mrs & folders & items & []). congruence. }
  pose proof (listing_keys w target FolderCollection frs Ef) as Hnf.
  pose proof (scan_graph frs) as Hscan. destruct (fold_left scan_folder frs (∅, [])) as [folders mm1]. cbv zeta beta iota. cbn [fst snd] in Hscan.
  rewrite (readonly_run _ w (readonly_ListRecords target MessageStateCollection)).
  destruct (ListRecords target MessageStateCollection w).1 as [srs|e] eqn:Es.
  2: { intros (frs' & srs & mrs & folders' & items & []). congruence. }
  pose proof (listing_keys w target MessageStateCollection srs Es) as Hns. specialize (Hscan srs).
  destruct (fold_left (scan_state folders) srs (∅, mm1)) as [states mm2]. cbv zeta beta iota. cbn [fst snd] in Hscan.
  rewrite (readonly_run _ w (readonly_ListRecords target MessageCollection)).
  destruct (ListRecords target MessageCollection w).1 as [mrs|e] eqn:Em.
  2: { intros (frs' & srs' & mrs & folders' & items & []). congruence. }
  pose proof (listing_keys w target MessageCollection mrs Em) as Hnm. specialize (Hscan mrs Hnf Hns Hnm).
  destruct (fold_left (scan_message states) mrs ([], ∅, mm2)) as [[items seen] mm3]. cbv zeta beta iota. cbn [fst snd] in Hscan.
  destruct Hscan as [Hgraph Huniq].
  destruct (sortMismatches (mm3 ++ scan_orphans states seen)) as [|x rest]; cbv beta iota.
  2: { intros (frs' & srs' & mrs' & folders' & items' & [P1 P2 P3 P4 _ _]).
       assert (frs' = frs ∧ srs' = srs ∧ mrs' = mrs) as (-> & -> & ->) by (split_and!; congruence).
       by destruct (Huniq _ _ P4) as [? _]. }
  specialize (Hgraph eq_refl). destruct (graph_lengths _ _ _ _ _ Hns Hnm Hgraph) as [L1 L2].
  match goal with |- context [write_projection _ _ _ _ ?r _] => pose proof (write_projection_outcome w target destination frs srs mrs folders items r Hnm Hgraph) as Ho end.
  cbv zeta in Ho. destruct (write_projection _ _ _ _ _ w) as [[r [e|]] w'].
  - intros (frs' & srs' & mrs' & folders' & items' & [P1 P2 P3 P4 P5 P6]).
    assert (frs' = frs ∧ srs' = srs ∧ mrs' = mrs) as (-> & -> & ->) by (split_and!; congruence).
    destruct (Huniq _ _ P4) as (_ & -> & ->). by apply Ho.
  - destruct Ho as (Hb & Hu & ids & db & Hids & Hx & Hr). exists frs, srs, mrs, folders, items, ids, db.
    assert (Hreport : r = projected_report w target (List.length frs) (sort_by dm_key items)).
    { rewrite Hr. pose proof (filled_report w target (List.length frs) (sort_by dm_key items) mrs) as Hfr.
      rewrite L1. apply Hfr. by rewrite (Permutation_length (sort_by_perm dm_key items)), L2. }
    split; [by split|]. split; [done|]. split; [done|]. split; [done|]. rewrite Hreport. apply projected_report_passed.
Qed.

(** C24. A rebuild is complete and correct.  On a path that is taken it fails and changes nothing.  On a
    free absolute path, with files that fail only for a reason, it succeeds exactly when the mailbox is
    consistent: every folder record is valid under its key, every state is of a known message and in
    known folders, states and messages correspond, every blob is the stored message, and no two
    messages preserve one UID.  The database then holds exactly the folders, the live messages with
    their bytes and every membership under its allocated identity, in a log that violates no
    constraint of the schema, and the report counts them. *)
Theorem rebuild_contract w target destination :
  Target_ValidateFor target (tgRepoDID target) = Ok tt → HasPrefix destination "/" = true →
  ((Lstat destination w).1 = Ok true → ∃ report e, Rebuild target destination w = ((report, Some e), w)) ∧
  ((Lstat destination w).1 = Ok false →
   match Rebuild target destination w with
   | ((report, None), w') => ∃ frs srs mrs folders items ids db, projectable w target frs srs mrs folders items ∧
       allocated (sort_by dm_key items) folders ids ∧ executed w' db = projected_log w target folders ids (sort_by dm_key items) ∧
       report = projected_report w target (List.length frs) (sort_by dm_key items) ∧ Passed report = true
   | ((_, Some _), _) => ¬ ∃ frs srs mrs folders items, projectable w target frs srs mrs folders items
   end).
Proof. exact (rebuild_runs w target destination). Qed.

End whole.

(** ** A file system and a database over the in-memory repository *)

Record disk_world : Type := MkDiskWorld {
  dwMail : memory_world;
  dwPaths : gset string;
  dwLog : list statement
}.
Definition on_mail {A} (m : memory_world → A * memory_world) (w : disk_world) : A * disk_world :=
  let '(r, mail) := m (dwMail w) in (r, MkDiskWorld mail (dwPaths w) (dwLog w)).

#[export] Instance disk_repository : Repository disk_world := {
  ProviderID := ProviderID (W := memory_world);
  Capabilities_ := on_mail Capabilities_;
  EnsureMailbox did key := on_mail (EnsureMailbox did key);
  UploadBlob t data mime := on_mail (UploadBlob t data mime);
  ApplyWrites t writes := on_mail (ApplyWrites t writes);
  PutRecordCAS t c k v cid := on_mail (PutRecordCAS t c k v cid);
  GetRecord t c k := on_mail (GetRecord t c k);
  ListRecords t c := on_mail (ListRecords t c);
  GetBlob t cid := on_mail (GetBlob t cid);
  held w := held (dwMail w)
}.
Lemma on_mail_inv {A} (m : memory_world → A * memory_world) w r w' : on_mail m w = (r, w') →
  ∃ mail, m (dwMail w) = (r, mail) ∧ w' = MkDiskWorld mail (dwPaths w) (dwLog w).
Proof. unfold on_mail. destruct (m (dwMail w)) as [a mail]. intros [= <- <-]. by exists mail. Qed.
#[export] Instance disk_repository_laws : RepositoryLaws disk_world.
Proof.
  split.
  - intros w r w' (mail & E & ->)%on_mail_inv. apply Capabilities_keeps in E as ->. by destruct w.
  - intros t c k w r w' (mail & E & ->)%on_mail_inv. apply GetRecord_keeps in E as ->. by destruct w.
  - intros t c k w rec w' (mail & E & ->)%on_mail_inv. by apply GetRecord_held in E.
  - intros t c w r w' (mail & E & ->)%on_mail_inv. apply ListRecords_keeps in E as ->. by destruct w.
  - intros t c w l w' (mail & E & ->)%on_mail_inv. by apply ListRecords_held in E.
  - intros t c w l w' c' k (mail & E & ->)%on_mail_inv. change (on_mail (GetRecord t c' k) w = (opt_result (held (dwMail w) t c' k) ErrNotFound, w)).
    unfold on_mail. rewrite (ListRecords_reads _ _ _ _ _ c' k E). by destruct w.
  - intros t c k w rec. exact (held_key t c k (dwMail w) rec).
  - intros t cid w r w' (mail & E & ->)%on_mail_inv. apply GetBlob_keeps in E as ->. by destruct w.
  - intros did key w r w' (mail & E & ->)%on_mail_inv. exact (EnsureMailbox_held _ _ _ _ _ E).
  - intros t data mime w r w' (mail & E & ->)%on_mail_inv. exact (UploadBlob_held _ _ _ _ _ _ E).
  - intros t ws w r w' (mail & E & ->)%on_mail_inv. exact (ApplyWrites_creates _ _ _ _ _ E).
  - intros t c k v cid w e w' (mail & E & ->)%on_mail_inv. apply PutRecordCAS_failed in E as [->|(rec & Hd)]; [left; by destruct w|right; by exists rec].
  - intros t c k v cid w rec w' (mail & E & ->)%on_mail_inv. exact (PutRecordCAS_done _ _ _ _ _ _ _ _ E).
  - intros t c k v cid w rec w' c' k' (mail & E & ->)%on_mail_inv. set (w' := MkDiskWorld mail _ _).
    change (on_mail (GetRecord t c' k') w' = (opt_result (held mail t c' k') ErrNotFound, w')).
    unfold on_mail. change (dwMail w') with mail. by rewrite (PutRecordCAS_reads _ _ _ _ _ _ _ _ c' k' E).
  - intros t c k v cid w rec w' (mail & E & ->)%on_mail_inv. exact (PutRecordCAS_capabilities _ _ _ _ _ _ _ _ E).
Qed.

(** The constraints, decided. *)
Definition violatesb (log : list statement) (st : statement) : bool :=
  match st with
  | CreateTables => existsb (λ s, match s with CreateTables => true | _ => false end) log
  | InsertFolder rkey folder =>
      existsb (λ s, match s with InsertFolder k f => String.eqb k rkey || String.eqb (fdName f) (fdName folder) | _ => false end) log
  | InsertMessage row => existsb (λ s, match s with InsertMessage r => String.eqb (rwRKey r) (rwRKey row) | _ => false end) log
  | InsertMembership rkey mailbox identity =>
      existsb (λ s, match s with
        | InsertMembership k mb i => String.eqb mb mailbox && (String.eqb k rkey || (piUID i =? piUID identity)) | _ => false end) log ||
      negb (existsb (λ s, match s with InsertMessage r => String.eqb (rwRKey r) rkey | _ => false end) log) ||
      negb (existsb (λ s, match s with InsertFolder _ f => String.eqb (fdName f) mailbox | _ => false end) log)
  | _ => false
  end.
Lemma existsb_elem (p : statement → bool) log : existsb p log = true ↔ ∃ s, s ∈ log ∧ p s = true.
Proof. rewrite existsb_exists. by setoid_rewrite list_elem_of_In. Qed.
Lemma violatesb_violates log st : violatesb log st = true → violates log st.
Proof.
  destruct st as [| | |rkey folder|row|rkey mailbox i|]; cbn [violatesb violates]; try done.
  - intros ([] & Hin & ?)%existsb_elem; done.
  - intros ([] & Hin & Hb)%existsb_elem; try done. eexists _, _. split; [exact Hin|]. apply orb_true_iff in Hb as [?%String.eqb_eq|?%String.eqb_eq]; auto.
  - intros ([] & Hin & Hb)%existsb_elem; try done. apply String.eqb_eq in Hb. by eexists.
  - intros [[([] & Hin & Hb)%existsb_elem|Hn]%orb_true_iff|Hn]%orb_true_iff; try done.
    + left. apply andb_true_iff in Hb as [->%String.eqb_eq Hb]. eexists _, _. split; [exact Hin|].
      apply orb_true_iff in Hb as [?%String.eqb_eq|?%N.eqb_eq]; auto.
    + right. left. intros row Hin E. apply negb_true_iff, not_true_iff_false in Hn. apply Hn, existsb_elem. exists (InsertMessage row).
      split; [done|]. by apply String.eqb_eq.
    + right. right. intros k f Hin E. apply negb_true_iff, not_true_iff_false in Hn. apply Hn, existsb_elem. exists (InsertFolder k f).
      split; [done|]. by apply String.eqb_eq.
Qed.

#[export] Instance disk_files : Files disk_world := {
  Lstat path w := (Ok (bool_decide (path ∈ dwPaths w)), w);
  MkdirAll _ := returns (Ok tt);
  Chmod _ := returns (Ok tt);
  RemoveFile path w := MkDiskWorld (dwMail w) (dwPaths w ∖ {[path]}) (dwLog w);
  db_Open path w := (Ok 0, MkDiskWorld (dwMail w) ({[path]} ∪ dwPaths w) []);
  db_Exec _ st w := if violatesb (dwLog w) st then (Err ErrOther, w)
    else (Ok tt, MkDiskWorld (dwMail w) (dwPaths w) (dwLog w ++ [st]));
  db_Close _ := returns (Ok tt);
  executed w _ := dwLog w
}.
#[export] Instance disk_files_laws : FilesLaws disk_world.
Proof.
  assert (Hsame : ∀ w paths log, same_blobs w (MkDiskWorld (dwMail w) paths log)).
  { intros w paths log t cid. cbn. unfold on_mail. cbn [dwMail]. by destruct (GetBlob t cid (dwMail w)). }
  split.
  - by intros path w r w' [= _ <-].
  - intros path w r w' [= _ <-]. done.
  - intros path w db w' [= _ <-]. split; [done|apply Hsame].
  - intros db st w w'. cbn. destruct (violatesb _ _); [done|]. intros [= <-]. split; [done|apply Hsame].
  - by intros db w r w' [= _ <-].
  - by intros path w r w' db [= _ <-].
Qed.
#[export] Instance disk_reliable : ReliableFiles disk_world.
Proof.
  split; try by intros; eexists.
  - intros path w. by eexists _, _.
  - intros db st w Hv. cbn. destruct (violatesb (dwLog w) st) eqn:E; [|by eexists]. by apply violatesb_violates in E.
Qed.

(** ** A mailbox of two folders and two messages: one with an IMAP identity, one in both folders *)

Definition sample_imports : list ImportedMessage :=
  [MkImportedMessage "did:plc:alice" "legacy:r1" "Subject: hi" "INBOX" [] "<1@x>" zero_time "" [] [] false 4 17 9 zero_time;
   MkImportedMessage "did:plc:alice" "jmap:r2" "Subject: both" "INBOX" ["INBOX"; "Archive"] "<2@x>" zero_time "" [] ["$seen"] false 0 0 0 zero_time].
Definition after {A} (m : result A * memory_world) (k : A → memory_world → memory_world) : memory_world :=
  match m with (Ok a, w) => k a w | (Err _, w) => w end.
Definition keep_folder (folder : Folder) (w : memory_world) : memory_world :=
  (ApplyWrites example_target [MkWrite Create FolderCollection (fdRKey folder) (Some (folder_json (fdRecord folder))) ""] w).2.
Definition keep_message (src : ImportedMessage) (w : memory_world) : memory_world :=
  after (UploadBlob example_target (imRaw src) MessageMIMEType w) (λ blob w,
    match NewMessagePair src blob with
    | Ok pair_ => (ApplyWrites example_target
        [MkWrite Create MessageCollection (mpRKey pair_) (Some (message_json (mpMessage pair_))) "";
         MkWrite Create MessageStateCollection (mpRKey pair_) (Some (state_json (mpState pair_))) ""] w).2
    | Err _ => w
    end).
Definition sample_mail : memory_world :=
  fold_left (λ w src, keep_message src w) sample_imports
    (fold_left (λ w folder, keep_folder folder w) [NewFolder "INBOX" "inbox" 17; NewFolder "Archive" "archive" 23]
      (MkMemoryWorld alice example_backend)).
Definition sample_disk : disk_world := MkDiskWorld sample_mail ∅ [].
Definition sample_path : string := "/var/mail/projection.sqlite".

Lemma sample_rebuilds : (Rebuild example_target sample_path sample_disk).1.2 = None.
Proof. vm_compute. reflexivity. Qed.

Lemma rebuild_contract_witness : ∃ frs srs mrs folders items, projectable sample_disk example_target frs srs mrs folders items.
Proof.
  pose proof (proj2 (rebuild_contract sample_disk example_target sample_path eq_refl eq_refl) eq_refl) as Hr.
  pose proof sample_rebuilds as Hn. destruct (Rebuild example_target sample_path sample_disk) as [[r e] w']. cbn [fst snd] in Hn.
  subst e. destruct Hr as (frs & srs & mrs & folders & items & ids & db & Hp & _). by exists frs, srs, mrs, folders, items.
Defined.
