(* ===== verification/SpaceScope.v ===== *)
(** * internal/oauthclient/spacescope.go: the OAuth scopes of a mailbox

    The scopes that are asked for, and the validation of the scopes that are granted: a steady grant
    may read and create in one exact mailbox space and nothing else; a provisioning grant may
    only create that space.  The texts of scopes have a grammar of their own ([unescapes], [says],
    [grants]), against which the parser is proved. *)
From S2P Require Import Prelude Sha256 GoStd Syntax Unicode Json Url Mailbox Canonical FolderRevision.

Definition maxSpaceScopeBytes : N := 4096.
Definition appendOnlyMailboxCollections : list string :=
  [FolderOperationCollection; FolderRevisionCollection; MessageCollection; MessageStateOperationCollection;
   MessageStateRevisionCollection].

Record spaceGrant : Type := MkSpaceGrant {
  sgSpaceType : string;
  sgAuthority : string;
  sgSkey : string;
  sgCollection : list string;
  sgAction : list string;
  sgManage : list string
}.

(** [url.QueryUnescape]. *)
Fixpoint QueryUnescape (s : string) : option string :=
  match s with
  | EmptyString => Some ""
  | String c s' =>
      if Ascii.eqb c "%" then
        match s' with
        | String h (String l s'') =>
            if is_hex h && is_hex l then
              match QueryUnescape s'' with
              | Some r => Some (byte (16 * hex_nibble h + hex_nibble l) +:+ r)
              | None => None
              end
            else None
        | _ => None
        end
      else match QueryUnescape s' with Some r => Some (String (if Ascii.eqb c "+" then " "%char else c) r) | None => None end
  end.

Definition parameters (name : string) (values : list string) : string :=
  fold_left (λ text value, text +:+ "&" +:+ name +:+ "=" +:+ value) values "".
Definition formatSpaceGrant (grant : spaceGrant) : string :=
  "space:" +:+ sgSpaceType grant +:+ "?authority=" +:+ sgAuthority grant +:+ "&skey=" +:+ sgSkey grant +:+
  parameters "collection" (sgCollection grant) +:+ parameters "action" (sgAction grant) +:+ parameters "manage" (sgManage grant).

Definition containsString (values : list string) (target : string) : bool := existsb (λ value, String.eqb value target) values.
Fixpoint distinct_values (seen : gset string) (values : list string) : option (gset string) :=
  match values with
  | [] => Some seen
  | value :: rest => if bool_decide (value ∈ seen) then None else distinct_values ({[value]} ∪ seen) rest
  end.
Definition sameStringSet (actual expected : list string) : bool :=
  if negb (llen actual =? llen expected) then false
  else match distinct_values ∅ actual with
       | None => false
       | Some seen => forallb (λ value, bool_decide (value ∈ seen)) expected
       end.

Definition set_sgAuthority (g : spaceGrant) (x : string) : spaceGrant :=
  MkSpaceGrant (sgSpaceType g) x (sgSkey g) (sgCollection g) (sgAction g) (sgManage g).
Definition set_sgSkey (g : spaceGrant) (x : string) : spaceGrant :=
  MkSpaceGrant (sgSpaceType g) (sgAuthority g) x (sgCollection g) (sgAction g) (sgManage g).
Definition add_collection (g : spaceGrant) (x : string) : spaceGrant :=
  MkSpaceGrant (sgSpaceType g) (sgAuthority g) (sgSkey g) (sgCollection g ++ [x]) (sgAction g) (sgManage g).
Definition add_action (g : spaceGrant) (x : string) : spaceGrant :=
  MkSpaceGrant (sgSpaceType g) (sgAuthority g) (sgSkey g) (sgCollection g) (sgAction g ++ [x]) (sgManage g).
Definition add_manage (g : spaceGrant) (x : string) : spaceGrant :=
  MkSpaceGrant (sgSpaceType g) (sgAuthority g) (sgSkey g) (sgCollection g) (sgAction g) (sgManage g ++ [x]).

Definition known_actions : list string := ["read_self"; "read"; "create"; "update"; "delete"].
Definition known_manage : list string := ["create"; "update"; "delete"].

Section scopes.
Context `{Syntax}.

(** One parameter of the query, after those before it. *)
Definition set_parameter (key value : string) (s : spaceGrant * gset string) : result (spaceGrant * gset string) :=
  if String.eqb key "authority" then
    fail_if bool_decide (key ∈ s.2) with ErrOther ;;
    let? _ := opt_result (ParseDID value) ErrOther in
    Ok (set_sgAuthority s.1 value, {[key]} ∪ s.2)
  else if String.eqb key "skey" then
    fail_if bool_decide (key ∈ s.2) with ErrOther ;;
    fail_if negb (String.eqb value "*") && negb (ParseRecordKey value) with ErrOther ;;
    Ok (set_sgSkey s.1 value, {[key]} ∪ s.2)
  else if String.eqb key "collection" then
    fail_if negb (ParseNSID value) with ErrOther ;;
    Ok (add_collection s.1 value, s.2)
  else if String.eqb key "action" then
    fail_if negb (containsString known_actions value) with ErrOther ;;
    Ok (add_action s.1 value, s.2)
  else if String.eqb key "manage" then
    fail_if negb (containsString known_manage value) with ErrOther ;;
    Ok (add_manage s.1 value, s.2)
  else Err ErrOther.
Definition parse_parameter (s : spaceGrant * gset string) (field : string) : result (spaceGrant * gset string) :=
  let? (rawKey, rawValue) := opt_result (Cut field "=") ErrOther in
  fail_if String.eqb rawKey "" || String.eqb rawValue "" with ErrOther ;;
  let? key := opt_result (QueryUnescape rawKey) ErrOther in
  let? value := opt_result (QueryUnescape rawValue) ErrOther in
  set_parameter key value s.

Definition parseSpaceGrant (scope : string) : result spaceGrant :=
  fail_if (len scope =? 0) || (maxSpaceScopeBytes <? len scope) || ContainsAny scope (" " +:+ of_byte_values [9; 13; 10]) with ErrOther ;;
  let? (position, query) := opt_result (Cut (TrimPrefix scope "space:") "?") ErrOther in
  fail_if String.eqb position "" || String.eqb query "" || has_byte "?" query with ErrOther ;;
  let? spaceType := opt_result (QueryUnescape position) ErrOther in
  fail_if negb (ParseNSID spaceType) with ErrOther ;;
  let? (grant, _) := range parse_parameter (Split query "&") (MkSpaceGrant spaceType "" "" [] [] [], ∅) in
  fail_if String.eqb (sgAuthority grant) "" || String.eqb (sgSkey grant) "" with ErrOther ;;
  Ok grant.

Definition parseSteadyTarget (authorityDID spaceKey : string) : result (string * string) :=
  let? did := opt_result (ParseDID authorityDID) ErrOther in
  fail_if negb (ParseRecordKey spaceKey) || String.eqb spaceKey "*" with ErrOther ;;
  Ok (did, spaceKey).

Definition blob_scope : string := "blob:" +:+ MessageMIMEType.
Definition steady_grant (did rkey : string) : spaceGrant :=
  MkSpaceGrant MailboxSpaceType did rkey appendOnlyMailboxCollections ["read"; "create"] [].
Definition provisioning_grant (did rkey : string) : spaceGrant :=
  MkSpaceGrant MailboxSpaceType did rkey appendOnlyMailboxCollections ["read_self"] ["create"].

Definition MailboxScopes (authorityDID spaceKey : string) : result (list string) :=
  let? (did, rkey) := parseSteadyTarget authorityDID spaceKey in
  Ok ["atproto"; blob_scope; formatSpaceGrant (steady_grant did rkey)].
Definition ProvisioningScopes (authorityDID spaceKey : string) : result (list string) :=
  let? (did, rkey) := parseSteadyTarget authorityDID spaceKey in
  Ok ["atproto"; formatSpaceGrant (provisioning_grant did rkey)].

(** The counts of the scopes of each kind. *)
Definition targets_mailbox (did rkey : string) (parsed : spaceGrant) : bool :=
  String.eqb (sgSpaceType parsed) MailboxSpaceType && String.eqb (sgAuthority parsed) did && String.eqb (sgSkey parsed) rkey.
Definition steady_scope (did rkey : string) (s : N * N * N) (scope : string) : result (N * N * N) :=
  let '(atprotoCount, blobCount, spaceCount) := s in
  if String.eqb scope "atproto" then Ok (atprotoCount + 1, blobCount, spaceCount)
  else if String.eqb scope blob_scope then Ok (atprotoCount, blobCount + 1, spaceCount)
  else if HasPrefix scope "space:" then
    let? parsed := parseSpaceGrant scope in
    fail_if negb (targets_mailbox did rkey parsed) with ErrOther ;;
    fail_if negb (sameStringSet (sgCollection parsed) appendOnlyMailboxCollections) with ErrOther ;;
    fail_if negb (sameStringSet (sgAction parsed) ["read"; "create"]) || negb (llen (sgManage parsed) =? 0) with ErrOther ;;
    Ok (atprotoCount, blobCount, spaceCount + 1)
  else Err ErrOther.
Definition ValidateSteadyGrant (granted : list string) (authorityDID spaceKey : string) : result unit :=
  let? (did, rkey) := parseSteadyTarget authorityDID spaceKey in
  fail_if negb (llen granted =? 3) with ErrOther ;;
  let? (atprotoCount, blobCount, spaceCount) := range (steady_scope did rkey) granted (0, 0, 0) in
  fail_if negb (atprotoCount =? 1) || negb (blobCount =? 1) || negb (spaceCount =? 1) with ErrOther ;;
  Ok tt.

Definition provisioning_scope (did rkey : string) (s : N * N) (scope : string) : result (N * N) :=
  let '(atprotoCount, spaceCount) := s in
  if String.eqb scope "atproto" then Ok (atprotoCount + 1, spaceCount)
  else if HasPrefix scope "space:" then
    let? parsed := parseSpaceGrant scope in
    fail_if negb (targets_mailbox did rkey parsed) with ErrOther ;;
    fail_if negb (sameStringSet (sgCollection parsed) appendOnlyMailboxCollections) with ErrOther ;;
    fail_if negb (sameStringSet (sgAction parsed) ["read_self"]) || negb (sameStringSet (sgManage parsed) ["create"]) with ErrOther ;;
    Ok (atprotoCount, spaceCount + 1)
  else Err ErrOther.
Definition ValidateProvisioningGrant (granted : list string) (authorityDID spaceKey : string) : result unit :=
  let? (did, rkey) := parseSteadyTarget authorityDID spaceKey in
  fail_if negb (llen granted =? 2) with ErrOther ;;
  let? (atprotoCount, spaceCount) := range (provisioning_scope did rkey) granted (0, 0) in
  fail_if negb (atprotoCount =? 1) || negb (spaceCount =? 1) with ErrOther ;;
  Ok tt.

End scopes.

(** ** Sets of values *)

Lemma distinct_values_spec values : ∀ seen, match distinct_values seen values with
  | Some all => NoDup values ∧ (∀ v, v ∈ values → v ∉ seen) ∧ ∀ v, v ∈ all ↔ v ∈ seen ∨ v ∈ values
  | None => ¬ (NoDup values ∧ ∀ v, v ∈ values → v ∉ seen)
  end.
Proof.
  induction values as [|value rest IH]; intros seen; cbn [distinct_values].
  - split; [constructor|]. split; [intros v Hv; by apply not_elem_of_nil in Hv|]. intros v. split; [by left|]. intros [?|Hv]; [done|by apply not_elem_of_nil in Hv].
  - destruct (bool_decide_reflect (value ∈ seen)) as [Hin|Hout].
    + intros [_ Hall]. by apply (Hall value ltac:(by left)).
    + specialize (IH ({[value]} ∪ seen)). destruct (distinct_values _ rest) as [all|].
      * destruct IH as (Hnd & Hall & Hin). split; [constructor; [|done]; intros Hv; apply Hall in Hv; set_solver|].
        split; [intros v [->|Hv]%elem_of_cons; [done|]; apply Hall in Hv; set_solver|]. intros v. rewrite Hin, elem_of_cons. set_solver.
      * intros [[Hv Hnd]%NoDup_cons Hall]. apply IH. split; [done|]. intros v Hv' [->%elem_of_singleton|Hs]%elem_of_union; [done|].
        by apply (Hall v ltac:(by right)).
Qed.

(** Two lists are the same set without repetitions: one is a permutation of the other. *)
Lemma sameStringSet_iff actual expected : NoDup expected → sameStringSet actual expected = true ↔ actual ≡ₚ expected.
Proof.
  intros Hnd. unfold sameStringSet. pose proof (distinct_values_spec actual ∅) as Hd. unfold llen.
  destruct (N.eqb_spec (N.of_nat (List.length actual)) (N.of_nat (List.length expected))) as [E|E]; cbn [negb].
  2: { split; [done|]. intros Hp%Permutation_length. lia. }
  destruct (distinct_values ∅ actual) as [seen|].
  - destruct Hd as (Hna & _ & Hs). rewrite forallb_forall. split.
    + intros Hall. symmetry. apply submseteq_length_Permutation; [|lia]. apply NoDup_submseteq; [done|]. intros v Hv.
      apply list_elem_of_In, Hall, bool_decide_eq_true_1, Hs in Hv. set_solver.
    + intros Hp v Hv%list_elem_of_In. apply bool_decide_eq_true_2, Hs. right. by rewrite Hp.
  - split; [done|]. intros Hp. destruct Hd. split; [by rewrite Hp|]. intros v _. apply not_elem_of_empty.
Qed.

(** ** Text that escapes leave alone *)

Definition plain (s : string) : Prop := has_byte "%" s = false ∧ has_byte "+" s = false.
Lemma QueryUnescape_plain s : plain s → QueryUnescape s = Some s.
Proof.
  intros [Hp Hq]. induction s as [|c s IH]; [done|]. cbn [has_byte] in Hp, Hq. cbn [QueryUnescape].
  apply orb_false_iff in Hp as [Hc Hp], Hq as [Hd Hq]. rewrite Ascii.eqb_sym, Hc, IH by done. by rewrite Ascii.eqb_sym, Hd.
Qed.
Lemma QueryUnescape_shorter n s t : (String.length s ≤ n)%nat → QueryUnescape s = Some t →
  (String.length t ≤ String.length s)%nat ∧ (has_byte "%" s = true → (String.length t < String.length s)%nat).
Proof.
  revert s t. induction n as [|n IH]; intros [|c s] t Hn; cbn [QueryUnescape String.length] in *; try lia; try (intros [= <-]; done).
  destruct (Ascii.eqb_spec c "%") as [->|Hc].
  - destruct s as [|h [|l s]]; try done. destruct (_ && _); [|done]. destruct (QueryUnescape s) as [r|] eqn:E; [|done].
    intros [= <-]. cbn [String.length] in *. destruct (IH s r ltac:(lia) E) as [Hl _]. rewrite length_app_s. cbn [byte String.length]. lia.
  - destruct (QueryUnescape s) as [r|] eqn:E; [|done]. intros [= <-]. destruct (IH s r ltac:(lia) E) as [H1 H2]. cbn [String.length has_byte].
    split; [lia|]. intros Hs. apply orb_true_iff in Hs as [Hs|Hs]; [apply Ascii.eqb_eq in Hs; congruence|]. specialize (H2 Hs). lia.
Qed.
(** A text with an escape in it does not come back. *)
Lemma QueryUnescape_escaped s : has_byte "%" s = true → QueryUnescape s ≠ Some s.
Proof. intros Hs E. destruct (QueryUnescape_shorter _ s s (le_n _) E) as [_ Hl]. specialize (Hl Hs). lia. Qed.

(** ** What a grant must be *)

(** An iteration whose steps commute does not depend on the order of its elements. *)
Lemma range_permutation {A S} (f : S → A → result S) (l l' : list A) :
  (∀ x y s s', range f [x; y] s = Ok s' → range f [y; x] s = Ok s') →
  l ≡ₚ l' → ∀ s s', range f l s = Ok s' → range f l' s = Ok s'.
Proof.
  intros Hf Hp. induction Hp as [|x l l' _ IH|x y l|l1 l2 l3 _ IH1 _ IH2]; intros s s'; [done| | |by intros Hs%IH1%IH2].
  - cbn [range]. destruct (f s x); [apply IH|done].
  - change (y :: x :: l) with ([y; x] ++ l). change (x :: y :: l) with ([x; y] ++ l). rewrite !range_app.
    destruct (range f [y; x] s) as [r|] eqn:E; [|done]. by rewrite (Hf _ _ _ _ E).
Qed.

Section exact.
Context `{Syntax}.

(** The scope is read as a space grant of exactly these operations in exactly this space. *)
Definition parsed_as (did rkey : string) (actions manages : list string) (scope : string) : Prop :=
  HasPrefix scope "space:" = true ∧ ∃ g, parseSpaceGrant scope = Ok g ∧
    sgSpaceType g = MailboxSpaceType ∧ sgAuthority g = did ∧ sgSkey g = rkey ∧
    sgCollection g ≡ₚ appendOnlyMailboxCollections ∧ sgAction g ≡ₚ actions ∧ sgManage g ≡ₚ manages.

Lemma targets_mailbox_iff did rkey g :
  targets_mailbox did rkey g = true ↔ sgSpaceType g = MailboxSpaceType ∧ sgAuthority g = did ∧ sgSkey g = rkey.
Proof. unfold targets_mailbox. rewrite !andb_true_iff, !String.eqb_eq. tauto. Qed.
Lemma collections_distinct : NoDup appendOnlyMailboxCollections.
Proof. apply (bool_decide_eq_true_1 _). vm_compute. reflexivity. Qed.
Lemma no_values (l : list string) : (llen l =? 0) = true ↔ l ≡ₚ [].
Proof. unfold llen. rewrite N.eqb_eq. split; [destruct l; [done|cbn; lia]|intros ->%Permutation_nil_r; done]. Qed.

(** The checks of a parsed space scope, in the order of the code. *)
Lemma scope_checked {S} did rkey actions scope (manages_checked : list string → bool) manages (s s' : S) :
  NoDup actions → (∀ l, manages_checked l = true ↔ l ≡ₚ manages) → HasPrefix scope "space:" = true →
  (let? parsed := parseSpaceGrant scope in
   fail_if negb (targets_mailbox did rkey parsed) with ErrOther ;;
   fail_if negb (sameStringSet (sgCollection parsed) appendOnlyMailboxCollections) with ErrOther ;;
   fail_if negb (sameStringSet (sgAction parsed) actions) || negb (manages_checked (sgManage parsed)) with ErrOther ;;
   Ok s) = Ok s' ↔ parsed_as did rkey actions manages scope ∧ s' = s.
Proof.
  intros Hna Hm Hs. unfold parsed_as. destruct (parseSpaceGrant scope) as [g|]; cbn [result_bind].
  2: { split; [done|]. intros [(_ & g & ? & _) _]. done. }
  transitivity ((targets_mailbox did rkey g = true ∧ sameStringSet (sgCollection g) appendOnlyMailboxCollections = true ∧
                 sameStringSet (sgAction g) actions = true ∧ manages_checked (sgManage g) = true) ∧ s' = s).
  - destruct (targets_mailbox did rkey g), (sameStringSet (sgCollection g) _), (sameStringSet (sgAction g) _), (manages_checked _);
      cbn; intuition congruence.
  - rewrite targets_mailbox_iff, (sameStringSet_iff _ _ collections_distinct), (sameStringSet_iff _ _ Hna), Hm.
    split; [intros [? ->]; split; [|done]; split; [done|]; exists g; tauto|].
    intros [(_ & g' & [= <-] & ?) ->]. tauto.
Qed.

Lemma steady_scope_iff did rkey a b c scope s' : steady_scope did rkey (a, b, c) scope = Ok s' ↔
  (scope = "atproto" ∧ s' = (a + 1, b, c)) ∨ (scope = blob_scope ∧ s' = (a, b + 1, c)) ∨
  (parsed_as did rkey ["read"; "create"] [] scope ∧ s' = (a, b, c + 1)).
Proof.
  unfold steady_scope. destruct (String.eqb_spec scope "atproto") as [->|Ha].
  { split; [intros [= <-]; by left|]. intros [[_ ->]|[[? _]|[[? _] _]]]; done. }
  destruct (String.eqb_spec scope blob_scope) as [->|Hb].
  { split; [intros [= <-]; right; by left|]. intros [[? _]|[[_ ->]|[[? _] _]]]; done. }
  destruct (HasPrefix scope "space:") eqn:Hs.
  - rewrite (scope_checked _ _ _ _ (λ l, llen l =? 0) [] (a, b, c + 1) s'); [tauto|apply (bool_decide_eq_true_1 _); reflexivity|apply no_values|done].
  - split; [done|]. intros [[? _]|[[? _]|[[? _] _]]]; congruence.
Qed.
Lemma provisioning_scope_iff did rkey a c scope s' : provisioning_scope did rkey (a, c) scope = Ok s' ↔
  (scope = "atproto" ∧ s' = (a + 1, c)) ∨ (parsed_as did rkey ["read_self"] ["create"] scope ∧ s' = (a, c + 1)).
Proof.
  unfold provisioning_scope. destruct (String.eqb_spec scope "atproto") as [->|Ha].
  { split; [intros [= <-]; by left|]. intros [[_ ->]|[[? _] _]]; done. }
  destruct (HasPrefix scope "space:") eqn:Hs.
  - rewrite (scope_checked _ _ _ _ (λ l, sameStringSet l ["create"]) ["create"] (a, c + 1) s'); [tauto|apply (bool_decide_eq_true_1 _); reflexivity| |done].
    intros l. apply sameStringSet_iff. apply (bool_decide_eq_true_1 _); reflexivity.
  - split; [done|]. intros [[? _]|[[? _] _]]; congruence.
Qed.

Lemma range_step {A S} (f : S → A → result S) x l s s' :
  range f (x :: l) s = Ok s' ↔ ∃ s1, f s x = Ok s1 ∧ range f l s1 = Ok s'.
Proof. cbn [range]. destruct (f s x) as [s1|]; split; try done; [by exists s1|by intros (? & [= <-] & ?)|by intros (? & ? & _)]. Qed.

Lemma steady_commutes did rkey x y s s' :
  range (steady_scope did rkey) [x; y] s = Ok s' → range (steady_scope did rkey) [y; x] s = Ok s'.
Proof.
  destruct s as [[a b] c]. rewrite !range_step. intros ([[a1 b1] c1] & H1 & ([[a2 b2] c2] & H2 & Hs)%range_step).
  apply steady_scope_iff in H1, H2. injection Hs as <-.
  destruct H1 as [[? [= -> -> ->]]|[[? [= -> -> ->]]|[? [= -> -> ->]]]], H2 as [[? [= -> -> ->]]|[[? [= -> -> ->]]|[? [= -> -> ->]]]];
    eexists (_, _, _); rewrite steady_scope_iff, range_step; (split; [naive_solver|]); eexists (_, _, _); rewrite steady_scope_iff; naive_solver.
Qed.
Lemma provisioning_commutes did rkey x y s s' :
  range (provisioning_scope did rkey) [x; y] s = Ok s' → range (provisioning_scope did rkey) [y; x] s = Ok s'.
Proof.
  destruct s as [a c]. rewrite !range_step. intros ([a1 c1] & H1 & ([a2 c2] & H2 & Hs)%range_step).
  apply provisioning_scope_iff in H1, H2. injection Hs as <-.
  destruct H1 as [[? [= -> ->]]|[? [= -> ->]]], H2 as [[? [= -> ->]]|[? [= -> ->]]];
    eexists (_, _); rewrite provisioning_scope_iff, range_step; (split; [naive_solver|]); eexists (_, _); rewrite provisioning_scope_iff; naive_solver.
Qed.

Lemma counted_steady did rkey granted : llen granted = 3 →
  range (steady_scope did rkey) granted (0, 0, 0) = Ok (1, 1, 1) ↔
  ∃ scope, granted ≡ₚ ["atproto"; blob_scope; scope] ∧ parsed_as did rkey ["read"; "create"] [] scope.
Proof.
  intros Hl. split.
  - destruct granted as [|x [|y [|z [|]]]]; unfold llen in Hl; cbn [List.length] in Hl; try lia. rewrite range_step.
    intros ([[a1 b1] c1] & H1 & ([[a2 b2] c2] & H2 & ([[a3 b3] c3] & H3 & Hs)%range_step)%range_step). injection Hs as -> -> ->.
    apply steady_scope_iff in H1, H2, H3.
    destruct H1 as [[Hx [= -> -> ->]]|[[Hx [= -> -> ->]]|[Hx [= -> -> ->]]]],
      H2 as [[Hy [= -> -> ->]]|[[Hy [= -> -> ->]]|[Hy [= -> -> ->]]]],
      H3 as [[Hz Hq]|[[Hz Hq]|[Hz Hq]]]; vm_compute in Hq; try discriminate Hq; subst;
      (eexists; split; [|eassumption]); solve_Permutation.
  - intros (scope & Hp & Hg). eapply range_permutation; [apply steady_commutes|symmetry; exact Hp|].
    rewrite range_step. eexists (_, _, _). rewrite steady_scope_iff, range_step. split; [by left|].
    eexists (_, _, _). rewrite steady_scope_iff, range_step. split; [right; by left|].
    eexists (_, _, _). rewrite steady_scope_iff. split; [right; by right|]. done.
Qed.
Lemma counted_provisioning did rkey granted : llen granted = 2 →
  range (provisioning_scope did rkey) granted (0, 0) = Ok (1, 1) ↔
  ∃ scope, granted ≡ₚ ["atproto"; scope] ∧ parsed_as did rkey ["read_self"] ["create"] scope.
Proof.
  intros Hl. split.
  - destruct granted as [|x [|y [|]]]; unfold llen in Hl; cbn [List.length] in Hl; try lia. rewrite range_step.
    intros ([a1 c1] & H1 & ([a2 c2] & H2 & Hs)%range_step). injection Hs as -> ->. apply provisioning_scope_iff in H1, H2.
    destruct H1 as [[Hx [= -> ->]]|[Hx [= -> ->]]], H2 as [[Hy Hq]|[Hy Hq]]; vm_compute in Hq; try discriminate Hq; subst;
      (eexists; split; [|eassumption]); solve_Permutation.
  - intros (scope & Hp & Hg). eapply range_permutation; [apply provisioning_commutes|symmetry; exact Hp|].
    rewrite range_step. eexists (_, _). rewrite provisioning_scope_iff, range_step. split; [by left|].
    eexists (_, _). rewrite provisioning_scope_iff. split; [by right|]. done.
Qed.

Lemma valid_steady granted authorityDID spaceKey did rkey : parseSteadyTarget authorityDID spaceKey = Ok (did, rkey) →
  ValidateSteadyGrant granted authorityDID spaceKey = Ok tt ↔
  ∃ scope, granted ≡ₚ ["atproto"; blob_scope; scope] ∧ parsed_as did rkey ["read"; "create"] [] scope.
Proof.
  intros Ht. unfold ValidateSteadyGrant. rewrite Ht. cbn [result_bind].
  destruct (N.eqb_spec (llen granted) 3) as [Hl|Hl]; cbn [negb].
  2: { split; [done|]. intros (? & Hp%Permutation_length & _). unfold llen in Hl. cbn in Hp. lia. }
  rewrite <- (counted_steady _ _ _ Hl).
  destruct (range _ granted _) as [[[a b] c]|]; cbn [result_bind]; [|done].
  destruct (N.eqb_spec a 1), (N.eqb_spec b 1), (N.eqb_spec c 1); cbn; intuition congruence.
Qed.
Lemma valid_provisioning granted authorityDID spaceKey did rkey : parseSteadyTarget authorityDID spaceKey = Ok (did, rkey) →
  ValidateProvisioningGrant granted authorityDID spaceKey = Ok tt ↔
  ∃ scope, granted ≡ₚ ["atproto"; scope] ∧ parsed_as did rkey ["read_self"] ["create"] scope.
Proof.
  intros Ht. unfold ValidateProvisioningGrant. rewrite Ht. cbn [result_bind].
  destruct (N.eqb_spec (llen granted) 2) as [Hl|Hl]; cbn [negb].
  2: { split; [done|]. intros (? & Hp%Permutation_length & _). unfold llen in Hl. cbn in Hp. lia. }
  rewrite <- (counted_provisioning _ _ _ Hl).
  destruct (range _ granted _) as [[a c]|]; cbn [result_bind]; [|done].
  destruct (N.eqb_spec a 1), (N.eqb_spec c 1); cbn; intuition congruence.
Qed.

End exact.

(** ** The least grant, as a grammar

    What a scope says, apart from the code that reads it.  In a text of a URL query two hex digits
    after a percent sign stand for a byte, a plus sign for a blank, and every other byte for itself. *)
Inductive unescapes : string → string → Prop :=
  | unescapes_nil : unescapes "" ""
  | unescapes_byte h l x y s t : hex_value h = Some x → hex_value l = Some y → unescapes s t →
      unescapes (String "%" (String h (String l s))) (byte (16 * x + y) +:+ t)
  | unescapes_blank s t : unescapes s t → unescapes (String "+" s) (String " " t)
  | unescapes_itself c s t : c ≠ "%"%char → c ≠ "+"%char → unescapes s t → unescapes (String c s) (String c t).
(** A parameter: a name and a value that is not empty, each of them perhaps with escapes. *)
Definition says (parameter : string) (pair : string * string) : Prop :=
  ∃ name value, parameter = name +:+ "=" +:+ value ∧ has_byte "=" name = false ∧ has_byte "&" parameter = false ∧
    unescapes name pair.1 ∧ unescapes value pair.2 ∧ value ≠ "".
Definition parameters_of (did rkey : string) (actions manages : list string) : list (string * string) :=
  [("authority", did); ("skey", rkey)] ++ List.map (pair "collection") appendOnlyMailboxCollections ++
  List.map (pair "action") actions ++ List.map (pair "manage") manages.
(** The scope names the space type of a mailbox and has exactly these parameters, each of them once
    and in any order; it is not too long and has no white space. *)
Definition grants (did rkey : string) (actions manages : list string) (scope : string) : Prop :=
  ∃ position query pairs, scope = "space:" +:+ position +:+ "?" +:+ joined "&" query ∧
    has_byte "?" (position +:+ joined "&" query) = false ∧ len scope ≤ 4096 ∧
    (∀ blank, blank ∈ [" "%char; "009"%char; "013"%char; "010"%char] → has_byte blank scope = false) ∧
    unescapes position MailboxSpaceType ∧ Forall2 says query pairs ∧ pairs ≡ₚ parameters_of did rkey actions manages.

Lemma unescapes_iff s t : QueryUnescape s = Some t ↔ unescapes s t.
Proof.
  split.
  - remember (String.length s) as n eqn:En. revert s t En. induction n as [n IH] using lt_wf_ind. intros [|c s] t En; cbn [QueryUnescape].
    { intros [= <-]. constructor. }
    destruct (Ascii.eqb_spec c "%") as [->|Hc].
    + destruct s as [|h [|l s]]; try done. destruct (hex_value h) as [x|] eqn:Eh; [|unfold is_hex; by rewrite Eh].
      destruct (hex_value l) as [y|] eqn:El; [|unfold is_hex; by rewrite Eh, El]. unfold is_hex, hex_nibble. rewrite Eh, El. cbn [is_some andb default].
      destruct (QueryUnescape s) as [r|] eqn:E; [|done]. intros [= <-]. apply unescapes_byte; [done|done|]. apply (IH (String.length s)); [cbn in En; lia|done|done].
    + destruct (QueryUnescape s) as [r|] eqn:E; [|done]. intros [= <-]. apply (IH (String.length s)) in E; [|cbn in En; lia|done].
      destruct (Ascii.eqb_spec c "+") as [->|Hp]; by constructor.
  - induction 1 as [|h l x y s t Hh Hl _ IH|s t _ IH|c s t Hc Hp _ IH]; cbn [QueryUnescape]; [done| | |].
    + cbn [Ascii.eqb Bool.eqb]. unfold is_hex, hex_nibble. rewrite Hh, Hl. cbn [is_some andb default]. by rewrite IH.
    + cbn [Ascii.eqb Bool.eqb]. by rewrite IH.
    + destruct (Ascii.eqb_spec c "%"); [done|]. rewrite IH. by destruct (Ascii.eqb_spec c "+").
Qed.
Lemma unescapes_empty s t : unescapes s t → s = "" ↔ t = "".
Proof. by inversion 1. Qed.

Lemma no_blanks scope : ContainsAny scope (" " +:+ of_byte_values [9; 13; 10]) = false ↔
  ∀ blank, blank ∈ [" "%char; "009"%char; "013"%char; "010"%char] → has_byte blank scope = false.
Proof.
  unfold ContainsAny. rewrite negb_false_iff. induction scope as [|c scope IH]; [done|]. cbn [all_bytes has_byte]. rewrite andb_true_iff, IH. split.
  - intros [Hc Hs] blank Hb. apply orb_false_iff. split; [|by apply Hs]. apply Ascii.eqb_neq. intros ->.
    rewrite !elem_of_cons, elem_of_nil in Hb. destruct Hb as [->|[->|[->|[->|[]]]]]; vm_compute in Hc; discriminate Hc.
  - intros Hs. split; [|intros blank Hb; apply Hs in Hb; apply orb_false_iff in Hb as [_ Hb]; exact Hb].
    apply negb_true_iff. change (" " +:+ of_byte_values [9; 13; 10]) with (String " " (String "009" (String "013" (String "010" "")))). cbn [has_byte].
    assert (Hn : ∀ blank, blank ∈ [" "%char; "009"%char; "013"%char; "010"%char] → Ascii.eqb c blank = false).
    { intros blank Hb. apply Hs in Hb. apply orb_false_iff in Hb as [Hb _]. by rewrite Ascii.eqb_sym. }
    rewrite !Hn by (rewrite !elem_of_cons; tauto). done.
Qed.

(** ** Fields and their pairs *)

(** The mailbox's own identifiers are identifiers. *)
Definition mailbox_identifiers `{Syntax} : Prop :=
  ParseNSID MailboxSpaceType = true ∧ Forall (λ c, ParseNSID c = true) appendOnlyMailboxCollections.
Lemma parseSteadyTarget_ok `{SyntaxLaws} a s did rkey : parseSteadyTarget a s = Ok (did, rkey) →
  ParseDID did = Some did ∧ ParseRecordKey rkey = true ∧ rkey ≠ "*".
Proof.
  unfold parseSteadyTarget. destruct (ParseDID a) as [d|] eqn:Hd; [|done]. cbn [opt_result result_bind].
  destruct (ParseRecordKey s) eqn:Hk; [|done]. destruct (String.eqb_spec s "*"); [done|]. cbn. intros [= <- <-].
  pose proof (ParseDID_text _ _ Hd) as ->. done.
Qed.

Section least.
Context `{Syntax}.

Definition set_pair (s : spaceGrant * gset string) (pair : string * string) : result (spaceGrant * gset string) :=
  set_parameter pair.1 pair.2 s.
Lemma parse_parameter_says s field s' : has_byte "&" field = false →
  parse_parameter s field = Ok s' ↔ ∃ pair, says field pair ∧ set_pair s pair = Ok s'.
Proof.
  intros Ha. unfold parse_parameter. split.
  - destruct (Cut field "=") as [[name value]|] eqn:Ec; [|done]. apply Cut_spec in Ec as [-> Hn]. cbn [opt_result result_bind].
    destruct (String.eqb_spec name ""), (String.eqb_spec value ""); try done. cbn [orb].
    destruct (QueryUnescape name) as [key|] eqn:Ek; [|done]. destruct (QueryUnescape value) as [v|] eqn:Ev; [|done]. cbn [opt_result result_bind].
    intros Hs. exists (key, v). split; [|exact Hs]. apply unescapes_iff in Ek, Ev. by exists name, value.
  - intros ([key v] & (name & value & -> & Hn & _ & Hk & Hv & Hne) & Hs). cbn [fst snd] in *. change ("=" +:+ value) with (String "=" value).
    rewrite (Cut_app _ _ _ Hn). cbn [opt_result result_bind]. apply String.eqb_neq in Hne. rewrite Hne, orb_false_r.
    destruct (String.eqb_spec name "") as [->|_]; [inversion Hk; subst; discriminate Hs|].
    apply unescapes_iff in Hk, Hv. rewrite Hk, Hv. exact Hs.
Qed.
Lemma parse_fields query s s' : Forall (λ f, has_byte "&" f = false) query →
  range parse_parameter query s = Ok s' ↔ ∃ pairs, Forall2 says query pairs ∧ range set_pair pairs s = Ok s'.
Proof.
  intros Hq. revert s. induction Hq as [|field query Hf _ IH]; intros s.
  { split; [intros Hs; exists []; by split; [constructor|]|]. intros (pairs & Hp & Hs). by inversion Hp; subst. }
  rewrite range_step. split.
  - intros (s1 & (pair & Hp & H1)%parse_parameter_says & (pairs & Hps & Hs)%IH); [|done]. exists (pair :: pairs). split; [by constructor|].
    rewrite range_step. by exists s1.
  - intros (pairs & Hp & Hs). inversion Hp as [|? pair ? pairs' Hsay Hrest]; subst. apply range_step in Hs as (s1 & H1 & Hs). exists s1.
    split; [apply parse_parameter_says; [done|by exists pair]|]. apply IH. by exists pairs'.
Qed.

(** The values of one name, in order. *)
Definition values_of (name : string) (pairs : list (string * string)) : list string := (filter (λ p, p.1 = name) pairs).*2.
Lemma values_cons name key v pairs : values_of name ((key, v) :: pairs) = (if decide (key = name) then [v] else []) ++ values_of name pairs.
Proof. unfold values_of. rewrite filter_cons. cbn [fst]. by case_decide. Qed.
Definition scalar_fits (name : string) (seen : gset string) (values : list string) : Prop := values = [] ∨ name ∉ seen ∧ ∃ v, values = [v].
Definition last_or (old : string) (values : list string) : string := match values with [v] => v | _ => old end.
Definition valid_value (pair : string * string) : Prop :=
  pair.1 = "authority" ∧ is_Some (ParseDID pair.2) ∨ pair.1 = "skey" ∧ (pair.2 = "*" ∨ ParseRecordKey pair.2 = true) ∨
  pair.1 = "collection" ∧ ParseNSID pair.2 = true ∨ pair.1 = "action" ∧ containsString known_actions pair.2 = true ∨
  pair.1 = "manage" ∧ containsString known_manage pair.2 = true.
(** What a grant becomes by the parameters of a query. *)
Definition filled (g : spaceGrant) (pairs : list (string * string)) : spaceGrant :=
  MkSpaceGrant (sgSpaceType g) (last_or (sgAuthority g) (values_of "authority" pairs)) (last_or (sgSkey g) (values_of "skey" pairs))
    (sgCollection g ++ values_of "collection" pairs) (sgAction g ++ values_of "action" pairs) (sgManage g ++ values_of "manage" pairs).
Definition pairs_fit (seen : gset string) (pairs : list (string * string)) : Prop :=
  Forall valid_value pairs ∧ scalar_fits "authority" seen (values_of "authority" pairs) ∧ scalar_fits "skey" seen (values_of "skey" pairs).

Ltac pick_names := repeat first [rewrite decide_True by done|rewrite decide_False by done].
Lemma fits_other name other seen values : name ≠ other → scalar_fits name ({[other]} ∪ seen) values ↔ scalar_fits name seen values.
Proof. intros Hne. unfold scalar_fits. set_solver. Qed.
Lemma fits_first name seen v values : scalar_fits name seen (v :: values) ↔ name ∉ seen ∧ values = [].
Proof.
  unfold scalar_fits. split; [|intros [Hs ->]; right; split; [done|by exists v]]. intros [?|[Hs [w [= -> ->]]]]; done.
Qed.
Lemma fits_taken name seen values : scalar_fits name ({[name]} ∪ seen) values ↔ values = [].
Proof. unfold scalar_fits. set_solver. Qed.
Lemma set_pairs_cons pairs key v g seen g' :
  match set_pair (g, seen) (key, v) with
  | Ok (g1, seen1) => (∃ seen', range set_pair ((key, v) :: pairs) (g, seen) = Ok (g', seen')) ↔
      ∃ seen', range set_pair pairs (g1, seen1) = Ok (g', seen')
  | Err _ => ¬ ∃ seen', range set_pair ((key, v) :: pairs) (g, seen) = Ok (g', seen')
  end.
Proof. cbn [range]. destruct (set_pair _ _) as [[g1 seen1]|e]; [done|]. by intros [? ?]. Qed.
Lemma set_pairs_iff pairs : ∀ g seen g', (∃ seen', range set_pair pairs (g, seen) = Ok (g', seen')) ↔ pairs_fit seen pairs ∧ g' = filled g pairs.
Proof.
  induction pairs as [|[key v] pairs IH]; intros g seen g'.
  { unfold filled, pairs_fit, scalar_fits. cbn. rewrite !app_nil_r. split.
    - intros (seen' & [= <- <-]). split; [split_and!; [constructor|by left|by left]|by destruct g].
    - intros [_ ->]. exists seen. by destruct g. }
  pose proof (set_pairs_cons pairs key v g seen g') as Hres. unfold set_pair at 1, set_parameter in Hres. cbn [fst snd] in Hres. revert Hres.
  unfold pairs_fit, filled. rewrite Forall_cons, !values_cons.
  destruct (String.eqb_spec key "authority") as [->|N1]; [|destruct (String.eqb_spec key "skey") as [->|N2];
    [|destruct (String.eqb_spec key "collection") as [->|N3]; [|destruct (String.eqb_spec key "action") as [->|N4];
    [|destruct (String.eqb_spec key "manage") as [->|N5]]]]]; pick_names; cbn [app].
  - rewrite fits_first. destruct (bool_decide_reflect ("authority" ∈ seen)) as [Hs|Hs]; [intros Hres; naive_solver|].
    assert (Hval : valid_value ("authority", v) ↔ is_Some (ParseDID v)) by (unfold valid_value; cbn; naive_solver).
    destruct (ParseDID v) as [d|]; cbn [opt_result result_bind]; intros Hres; [|rewrite is_Some_alt in Hval; naive_solver]. rewrite Hres, IH.
    unfold pairs_fit, filled. rewrite fits_taken, fits_other by done. cbn [set_sgAuthority sgSpaceType sgAuthority sgSkey sgCollection sgAction sgManage].
    rewrite is_Some_alt in Hval. split; [intros [(? & E & ?) ->]|intros [(? & [? E] & ?) ->]]; rewrite E; naive_solver.
  - rewrite fits_first. destruct (bool_decide_reflect ("skey" ∈ seen)) as [Hs|Hs]; [intros Hres; naive_solver|].
    assert (Hval : valid_value ("skey", v) ↔ negb (String.eqb v "*") && negb (ParseRecordKey v) = false).
    { unfold valid_value. cbn. rewrite andb_false_iff, !negb_false_iff, String.eqb_eq. naive_solver. }
    destruct (negb _ && negb _); intros Hres; [naive_solver|]. rewrite Hres, IH.
    unfold pairs_fit, filled. rewrite fits_taken, fits_other by done. cbn [set_sgSkey sgSpaceType sgAuthority sgSkey sgCollection sgAction sgManage].
    split; [intros [(? & ? & E) ->]|intros [(? & ? & [? E]) ->]]; rewrite E; naive_solver.
  - assert (Hval : valid_value ("collection", v) ↔ ParseNSID v = true) by (unfold valid_value; cbn; naive_solver).
    destruct (ParseNSID v); cbn [negb]; intros Hres; [|naive_solver]. rewrite Hres, IH.
    unfold pairs_fit, filled. cbn [add_collection sgSpaceType sgAuthority sgSkey sgCollection sgAction sgManage]. rewrite <- app_assoc. naive_solver.
  - assert (Hval : valid_value ("action", v) ↔ containsString known_actions v = true) by (unfold valid_value; cbn [fst snd]; naive_solver).
    destruct (containsString known_actions v); cbn [negb]; intros Hres; [|naive_solver]. rewrite Hres, IH.
    unfold pairs_fit, filled. cbn [add_action sgSpaceType sgAuthority sgSkey sgCollection sgAction sgManage]. rewrite <- app_assoc. naive_solver.
  - assert (Hval : valid_value ("manage", v) ↔ containsString known_manage v = true) by (unfold valid_value; cbn [fst snd]; naive_solver).
    destruct (containsString known_manage v); cbn [negb]; intros Hres; [|naive_solver]. rewrite Hres, IH.
    unfold pairs_fit, filled. cbn [add_manage sgSpaceType sgAuthority sgSkey sgCollection sgAction sgManage]. rewrite <- app_assoc. naive_solver.
  - intros Hres. split; [done|]. intros [([Hv _] & _) _]. unfold valid_value in Hv. cbn in Hv. naive_solver.
Qed.

(** The pairs, name by name. *)
Lemma pairs_by_name pairs : Forall valid_value pairs → pairs ≡ₚ
  List.map (pair "authority") (values_of "authority" pairs) ++ List.map (pair "skey") (values_of "skey" pairs) ++
  List.map (pair "collection") (values_of "collection" pairs) ++ List.map (pair "action") (values_of "action" pairs) ++
  List.map (pair "manage") (values_of "manage" pairs).
Proof.
  induction 1 as [|[key v] pairs Hv _ IH]; [done|]. rewrite !values_cons. rewrite IH at 1. unfold valid_value in Hv. cbn [fst] in Hv.
  destruct Hv as [[-> _]|[[-> _]|[[-> _]|[[-> _]|[-> _]]]]]; pick_names; cbn [app List.map]; solve_Permutation.
Qed.
Lemma values_perm name pairs pairs' : pairs ≡ₚ pairs' → values_of name pairs ≡ₚ values_of name pairs'.
Proof. unfold values_of. by intros ->. Qed.
Lemma values_app name l l' : values_of name (l ++ l') = values_of name l ++ values_of name l'.
Proof. unfold values_of. by rewrite filter_app, fmap_app. Qed.
Lemma values_map name other l : values_of name (List.map (pair other) l) = if decide (other = name) then l else [].
Proof. induction l as [|v l IH]; cbn [List.map]; [by case_decide|]. rewrite values_cons, IH. by case_decide. Qed.
Lemma values_parameters did rkey actions manages :
  values_of "authority" (parameters_of did rkey actions manages) = [did] ∧ values_of "skey" (parameters_of did rkey actions manages) = [rkey] ∧
  values_of "collection" (parameters_of did rkey actions manages) = appendOnlyMailboxCollections ∧
  values_of "action" (parameters_of did rkey actions manages) = actions ∧ values_of "manage" (parameters_of did rkey actions manages) = manages.
Proof.
  unfold parameters_of. rewrite !values_app, !values_map, !values_cons. pick_names. cbn [app]. change (values_of _ []) with (@nil string).
  rewrite ?app_nil_r. done.
Qed.

(** ** The parser reads the grammar *)

Lemma Split_no_sep s sep : Forall (λ f, has_byte sep f = false) (Split s sep).
Proof.
  induction s as [|c s IH]; cbn [Split]; [by repeat constructor|]. destruct (Ascii.eqb_spec c sep) as [->|Hc]; [by constructor|].
  destruct (Split s sep) as [|x l]; [constructor; [|constructor]|inversion IH; subst; constructor; [|done]]; cbn [has_byte]; apply orb_false_iff;
    (split; [apply Ascii.eqb_neq; congruence|done]).
Qed.
Lemma Split_joined sep l : l ≠ [] → Forall (λ f, has_byte sep f = false) l → Split (joined sep l) sep = l.
Proof.
  intros Hne Hl. induction Hl as [|x l Hx Hl IH]; [done|]. destruct l as [|y l]; cbn [joined]; [by apply Split_none|].
  rewrite Split_app by done. f_equal. by apply IH.
Qed.
Lemma has_byte_app c a b : has_byte c (a +:+ b) = has_byte c a || has_byte c b.
Proof.
  induction a as [|d a IH]; [done|]. change (String d a +:+ b) with (String d (a +:+ b)). cbn [has_byte]. by rewrite IH, orb_assoc.
Qed.

Context (did rkey : string) (actions manages : list string).
Hypothesis Hdid : is_Some (ParseDID did).
Hypothesis Hkey : ParseRecordKey rkey = true.
Hypothesis Hids : mailbox_identifiers.
Hypothesis Hactions : Forall (λ a, containsString known_actions a = true) actions.
Hypothesis Hmanages : Forall (λ a, containsString known_manage a = true) manages.

Lemma parameters_valid : Forall valid_value (parameters_of did rkey actions manages).
Proof.
  destruct Hids as [_ Hcs]. unfold parameters_of, valid_value. cbn [app]. constructor; [by left|]. constructor; [right; left; by split; [|right]|].
  rewrite !Forall_app, !Forall_map. cbn [fst snd]. split_and!; [eapply Forall_impl; [exact Hcs|]|eapply Forall_impl; [exact Hactions|]|eapply Forall_impl; [exact Hmanages|]];
    cbn beta; intros x Hx; tauto.
Qed.
Lemma filled_exactly pairs g : pairs_fit ∅ pairs → g = filled (MkSpaceGrant MailboxSpaceType "" "" [] [] []) pairs → sgAuthority g ≠ "" → sgSkey g ≠ "" →
  sgAuthority g = did → sgSkey g = rkey → sgCollection g ≡ₚ appendOnlyMailboxCollections → sgAction g ≡ₚ actions → sgManage g ≡ₚ manages →
  pairs ≡ₚ parameters_of did rkey actions manages.
Proof.
  intros (Hv & Ha & Hk) -> Hna Hnk. cbn [filled sgAuthority sgSkey sgCollection sgAction sgManage app] in *. intros Ea Ek Hc Hact Hman.
  rewrite (pairs_by_name pairs Hv). unfold parameters_of. destruct Ha as [Ha|[_ [v Ha]]], Hk as [Hk|[_ [k Hk]]]; rewrite ?Ha, ?Hk in *; cbn [last_or] in *; try done.
  subst v k. cbn [List.map app]. by rewrite Hc, Hact, Hman.
Qed.
Lemma exactly_filled pairs : pairs ≡ₚ parameters_of did rkey actions manages →
  let g := filled (MkSpaceGrant MailboxSpaceType "" "" [] [] []) pairs in
  pairs_fit ∅ pairs ∧ sgAuthority g = did ∧ sgSkey g = rkey ∧
  sgCollection g ≡ₚ appendOnlyMailboxCollections ∧ sgAction g ≡ₚ actions ∧ sgManage g ≡ₚ manages.
Proof.
  intros Hp. destruct (values_parameters did rkey actions manages) as (E1 & E2 & E3 & E4 & E5).
  pose proof (λ name, values_perm name _ _ Hp) as Hv.
  assert (Ha : values_of "authority" pairs = [did]) by (apply Permutation_singleton_r; by rewrite Hv, E1).
  assert (Hk : values_of "skey" pairs = [rkey]) by (apply Permutation_singleton_r; by rewrite Hv, E2).
  cbn [filled sgAuthority sgSkey sgCollection sgAction sgManage app]. unfold pairs_fit. rewrite Ha, Hk, !Hv, E3, E4, E5. split_and!; try done.
  - rewrite Hp. apply parameters_valid.
  - right. split; [set_solver|by eexists].
  - right. split; [set_solver|by eexists].
Qed.
Lemma said_not_empty query pairs key v : Forall2 says query pairs → (key, v) ∈ pairs → v ≠ "".
Proof.
  intros Hs. induction Hs as [|f p query pairs (name & value & _ & _ & _ & _ & Hv & Hne) _ IH]; [by intros ?%not_elem_of_nil|].
  intros [<-|?]%elem_of_cons; [|by apply IH]. cbn in Hv. by rewrite <- (unescapes_empty _ _ Hv).
Qed.

Lemma grants_parsed scope : grants did rkey actions manages scope ↔ parsed_as did rkey actions manages scope.
Proof.
  unfold parsed_as, parseSpaceGrant. destruct Hids as [Hns _]. split.
  - intros (position & query & pairs & -> & Hq & Hlen & Hblank & Hpos & Hsays & Hperm). split; [apply HasPrefix_app|].
    rewrite TrimPrefix_app. rewrite has_byte_app, orb_false_iff in Hq. destruct Hq as [Hqp Hqq].
    apply no_blanks in Hblank. rewrite Hblank, (proj2 (N.ltb_ge maxSpaceScopeBytes _)) by exact Hlen.
    rewrite (proj2 (N.eqb_neq _ _)) by (rewrite len_app; change (len "space:") with 6; lia). cbn [orb].
    change ("?" +:+ joined "&" query) with (String "?" (joined "&" query)). rewrite (Cut_app _ _ _ Hqp). cbn [opt_result result_bind].
    destruct (exactly_filled pairs Hperm) as (Hfit & Ea & Ek & Hrest). set (g := filled _ pairs) in *.
    assert (Hda : did ≠ "") by (eapply (said_not_empty _ _ "authority"); [exact Hsays|]; rewrite Hperm; unfold parameters_of; set_solver).
    assert (Hdk : rkey ≠ "") by (eapply (said_not_empty _ _ "skey"); [exact Hsays|]; rewrite Hperm; unfold parameters_of; set_solver).
    assert (Hand : Forall (λ f, has_byte "&" f = false) query).
    { clear -Hsays. induction Hsays as [|f p query pairs (n & v & _ & _ & Hamp & _) _ IH]; by constructor. }
    assert (Hne : query ≠ [] ∧ joined "&" query ≠ "").
    { destruct Hsays as [|f p query pairs (n & v & -> & _) _]; [by apply Permutation_nil_l in Hperm|]. split; [done|].
      destruct query; cbn [joined]; rewrite ?app_assoc_s; by destruct n. }
    destruct Hne as [Hne Hj]. apply String.eqb_neq in Hj. rewrite Hj, Hqq.
    destruct (String.eqb_spec position "") as [->|_]; [inversion Hpos|]. cbn [orb]. apply unescapes_iff in Hpos. rewrite Hpos. cbn [opt_result result_bind].
    rewrite Hns. cbn [negb]. rewrite (Split_joined _ _ Hne Hand).
    destruct (proj2 (set_pairs_iff pairs (MkSpaceGrant MailboxSpaceType "" "" [] [] []) ∅ g)) as [seen Hr]; [done|].
    rewrite (proj2 (parse_fields query _ (g, seen) Hand)) by (by exists pairs). cbn [result_bind].
    rewrite Ea, Ek. apply String.eqb_neq in Hda, Hdk. rewrite Hda, Hdk. exists g. split; [done|]. split; [done|]. split; [done|]. by split.
  - intros (Hp & g & Hg & Ht & Ea & Ek & Hc & Hact & Hman). apply HasPrefix_spec in Hp as [rest ->]. rewrite TrimPrefix_app in Hg.
    destruct (len _ =? 0); [done|]. destruct (N.ltb_spec maxSpaceScopeBytes (len ("space:" +:+ rest))) as [|Hlen]; [done|]. cbn [orb] in Hg.
    destruct (ContainsAny _ _) eqn:Hblank; [done|]. destruct (Cut rest "?") as [[position q]|] eqn:Ec; [|done]. apply Cut_spec in Ec as [-> Hqp].
    cbn [opt_result result_bind] in Hg. destruct (String.eqb position ""), (String.eqb q ""); try done. cbn [orb] in Hg.
    destruct (has_byte "?" q) eqn:Hqq; [done|]. destruct (QueryUnescape position) as [type|] eqn:Eu; [|done]. cbn [opt_result result_bind] in Hg.
    destruct (ParseNSID type); [|done]. cbn [negb] in Hg. destruct (range _ _ _) as [[g' seen]|] eqn:Er; [|done]. cbn [result_bind] in Hg.
    destruct (String.eqb_spec (sgAuthority g') "") as [|Hna], (String.eqb_spec (sgSkey g') "") as [|Hnk]; try done. injection Hg as <-.
    apply parse_fields in Er as (pairs & Hsays & Hr); [|apply Split_no_sep].
    assert (Hfit : ∃ seen', range set_pair pairs (MkSpaceGrant type "" "" [] [] [], ∅) = Ok (g', seen')) by (by exists seen).
    apply set_pairs_iff in Hfit as [Hfit Eg]. assert (type = MailboxSpaceType) as -> by (rewrite <- Ht, Eg; done).
    exists position, (Split q "&"), pairs. rewrite joined_Split. split; [done|]. split; [by rewrite has_byte_app, Hqp, Hqq|]. split; [exact Hlen|].
    split; [by apply no_blanks|]. split; [by apply unescapes_iff|]. split; [done|].
    by apply (filled_exactly pairs g').
Qed.
End least.


(** C26. The validation of a grant accepts exactly the least one. A steady grant is, in some order, the
    account's scope, the upload of messages and one space scope; and that is a text of the grammar above
    which names exactly the mailbox's space, its five collections, reading and creating, each of
    them once, and has no other parameter. A provisioning grant is the account's scope and one that
    reads only its own and may only create the space. *)
Theorem grants_exact `{SyntaxLaws} (Hids : mailbox_identifiers) granted authorityDID spaceKey :
  (ValidateSteadyGrant granted authorityDID spaceKey = Ok tt ↔ ∃ did rkey scope,
     parseSteadyTarget authorityDID spaceKey = Ok (did, rkey) ∧
     granted ≡ₚ ["atproto"; blob_scope; scope] ∧ grants did rkey ["read"; "create"] [] scope) ∧
  (ValidateProvisioningGrant granted authorityDID spaceKey = Ok tt ↔ ∃ did rkey scope,
     parseSteadyTarget authorityDID spaceKey = Ok (did, rkey) ∧
     granted ≡ₚ ["atproto"; scope] ∧ grants did rkey ["read_self"] ["create"] scope).
Proof.
  destruct (parseSteadyTarget authorityDID spaceKey) as [[did rkey]|] eqn:Ht.
  - destruct (parseSteadyTarget_ok _ _ _ _ Ht) as (Hd & Hk & _).
    assert (Hsteady : ∀ scope, grants did rkey ["read"; "create"] [] scope ↔ parsed_as did rkey ["read"; "create"] [] scope).
    { intros scope. apply grants_parsed; try done; by repeat constructor. }
    assert (Hprovisioning : ∀ scope, grants did rkey ["read_self"] ["create"] scope ↔ parsed_as did rkey ["read_self"] ["create"] scope).
    { intros scope. apply grants_parsed; try done; by repeat constructor. }
    rewrite (valid_steady _ _ _ _ _ Ht), (valid_provisioning _ _ _ _ _ Ht). split; split.
    + intros (scope & Hp & Hg). exists did, rkey, scope. split_and!; [done|done|by apply Hsteady].
    + intros (d & k & scope & [= <- <-] & Hp & Hg). exists scope. split; [done|by apply Hsteady].
    + intros (scope & Hp & Hg). exists did, rkey, scope. split_and!; [done|done|by apply Hprovisioning].
    + intros (d & k & scope & [= <- <-] & Hp & Hg). exists scope. split; [done|by apply Hprovisioning].
  - unfold ValidateSteadyGrant, ValidateProvisioningGrant. rewrite Ht. split; (split; [done|]); intros (? & ? & ? & ? & _); done.
Qed.

(** ** The grants that are asked for *)

Fixpoint fields (l : list string) : string :=
  match l with [] => "" | f :: l' => String "&" (f +:+ fields l') end.
Definition named (name value : string) : string := name +:+ "=" +:+ value.
Lemma fields_app l1 l2 : fields (l1 ++ l2) = fields l1 +:+ fields l2.
Proof. induction l1 as [|f l1 IH]; [done|]. cbn [fields app]. rewrite IH, <- app_assoc_s. done. Qed.
Lemma parameters_fields name values : parameters name values = fields (map (named name) values).
Proof.
  unfold parameters. assert (∀ s, fold_left (λ text value, text +:+ "&" +:+ name +:+ "=" +:+ value) values s =
    s +:+ fields (map (named name) values)) as Hf; [|exact (Hf "")].
  induction values as [|v values IH]; intros s; [by rewrite app_nil_r_s|].
  cbn [fold_left map fields]. rewrite IH. unfold named. rewrite !app_assoc_s. done.
Qed.
Lemma Split_fields f l : Forall (λ g, has_byte "&" g = false) (f :: l) → Split (f +:+ fields l) "&" = f :: l.
Proof.
  revert f. induction l as [|g l IH]; intros f Hl; apply Forall_cons in Hl as [Hf Hl]; cbn [fields].
  - by rewrite app_nil_r_s, Split_none.
  - by rewrite Split_app, IH.
Qed.

Definition query_fields (g : spaceGrant) : list string :=
  named "skey" (sgSkey g) :: map (named "collection") (sgCollection g) ++ map (named "action") (sgAction g) ++
  map (named "manage") (sgManage g).
Lemma formatted g : formatSpaceGrant g =
  "space:" +:+ (sgSpaceType g +:+ String "?" (named "authority" (sgAuthority g) +:+ fields (query_fields g))).
Proof.
  unfold formatSpaceGrant, query_fields, named. rewrite !parameters_fields. cbn [fields]. rewrite !fields_app.
  repeat (rewrite app_assoc_s || f_equal).
Qed.

(** The characters of the values that name a space. *)
Definition value_char : ascii → bool := in_class "_~.:%-*".

Section issued.
Context `{SyntaxLaws}.

(** A grant of values that parse, as the issued grants are. *)
Record well_formed (g : spaceGrant) : Prop := {
  wf_type : ParseNSID (sgSpaceType g) = true ∧ sgSpaceType g ≠ "";
  wf_authority : ParseDID (sgAuthority g) = Some (sgAuthority g) ∧ sgAuthority g ≠ "";
  wf_skey : ParseRecordKey (sgSkey g) = true ∧ sgSkey g ≠ "";
  wf_collection : Forall (λ c, ParseNSID c = true ∧ c ≠ "") (sgCollection g);
  wf_action : Forall (λ a, containsString known_actions a = true) (sgAction g);
  wf_manage : Forall (λ a, containsString known_manage a = true) (sgManage g);
  wf_length : len (formatSpaceGrant g) ≤ maxSpaceScopeBytes;
}.

Lemma value_of_class extra v : all_bytes (in_class extra) v = true →
  all_bytes (λ c, negb (has_byte c extra) || value_char c) extra = true → all_bytes value_char v = true.
Proof.
  intros Hv He. eapply all_bytes_impl; [|exact Hv]. intros c. unfold value_char, in_class. intros Hc.
  apply orb_true_iff in Hc as [->|Hc]; [done|].
  assert (∀ s, all_bytes (λ c, negb (has_byte c extra) || value_char c) s = true → has_byte c s = true →
    (negb (has_byte c extra) || value_char c) = true) as Hin.
  { induction s as [|d s IH]; [done|]. cbn [all_bytes has_byte]. intros [Hd Hs]%andb_true_iff [Hx|Hx]%orb_true_iff.
    - apply Ascii.eqb_eq in Hx as ->. done.
    - auto. }
  specialize (Hin _ He Hc). rewrite Hc in Hin. exact Hin.
Qed.
Lemma value_DID v d : ParseDID v = Some d → all_bytes value_char v = true.
Proof. intros Hv%ParseDID_chars. exact (value_of_class "._:%-" v Hv eq_refl). Qed.
Lemma value_key v : ParseRecordKey v = true → all_bytes value_char v = true ∧ plain v.
Proof.
  intros Hv%ParseRecordKey_chars. split; [exact (value_of_class "_~.:-" v Hv eq_refl)|].
  split; (eapply all_bytes_has_byte; [exact Hv|reflexivity]).
Qed.
Lemma value_NSID v : ParseNSID v = true → all_bytes value_char v = true ∧ plain v.
Proof.
  intros Hv%ParseNSID_chars. split; [exact (value_of_class ".-" v Hv eq_refl)|].
  split; (eapply all_bytes_has_byte; [exact Hv|reflexivity]).
Qed.
Lemma value_known l v : forallb (λ w, all_bytes value_char w && negb (has_byte "%" w) && negb (has_byte "+" w) && negb (String.eqb w "")) l = true →
  containsString l v = true → (all_bytes value_char v = true ∧ plain v) ∧ v ≠ "".
Proof.
  intros Hl Hv. apply existsb_exists in Hv as (w & Hw & ->%String.eqb_eq). rewrite forallb_forall in Hl. specialize (Hl v Hw).
  unfold plain. bools. tauto.
Qed.

(** The characters of a field and of a whole scope. *)
Definition field_char (c : ascii) : bool := value_char c || Ascii.eqb c "=".
Definition scope_char (c : ascii) : bool := field_char c || Ascii.eqb c "&" || Ascii.eqb c "?".

Lemma named_field name v : all_bytes value_char v = true → all_bytes field_char name = true → all_bytes field_char (named name v) = true.
Proof.
  intros Hv Hn. unfold named. rewrite !all_bytes_app, Hn. cbn [andb all_bytes]. apply andb_true_iff. split; [done|].
  eapply all_bytes_impl; [|exact Hv]. intros c Hc. unfold field_char. by rewrite Hc.
Qed.
Lemma named_fields name l : all_bytes field_char name = true → Forall (λ v, all_bytes value_char v = true) l →
  Forall (λ f, all_bytes field_char f = true) (map (named name) l).
Proof. intros Hn Hl. apply Forall_map. eapply Forall_impl; [exact Hl|]. intros v Hv. by apply named_field. Qed.
Lemma fields_chars l : Forall (λ f, all_bytes field_char f = true) l → all_bytes (λ c, field_char c || Ascii.eqb c "&") (fields l) = true.
Proof.
  induction 1 as [|f l Hf _ IH]; [done|]. cbn [fields all_bytes]. rewrite all_bytes_app, IH, andb_true_r. apply andb_true_iff. split; [done|].
  eapply all_bytes_impl; [|exact Hf]. intros c Hc. by rewrite Hc.
Qed.

Lemma query_chars g : well_formed g →
  Forall (λ f, all_bytes field_char f = true) (named "authority" (sgAuthority g) :: query_fields g).
Proof.
  intros [_ [Ha _] [Hk _] Hc Hact Hman _]. unfold query_fields.
  apply Forall_cons; split; [apply named_field; [by eapply value_DID|reflexivity]|].
  apply Forall_cons; split; [apply named_field; [by apply value_key|reflexivity]|].
  rewrite !Forall_app. split_and!; (apply named_fields; [reflexivity|]); [refine (Forall_impl _ _ _ Hc _)|refine (Forall_impl _ _ _ Hact _)|refine (Forall_impl _ _ _ Hman _)].
  - intros v [Hv _]. by apply value_NSID.
  - intros v Hv. by apply (value_known known_actions v eq_refl Hv).
  - intros v Hv. by apply (value_known known_manage v eq_refl Hv).
Qed.
Lemma well_formed_bytes g : well_formed g → all_bytes scope_char (formatSpaceGrant g) = true.
Proof.
  intros Hg. pose proof (query_chars g Hg) as Hq. apply fields_chars in Hq. cbn [fields all_bytes] in Hq.
  rewrite formatted, all_bytes_app. apply andb_true_iff. split; [reflexivity|].
  rewrite all_bytes_app. cbn [all_bytes]. apply andb_true_iff. split; [|apply andb_true_iff; split; [reflexivity|]].
  - destruct Hg as [[Ht _] _ _ _ _ _ _]. eapply all_bytes_impl; [|exact (proj1 (value_NSID _ Ht))].
    intros c Hc. unfold scope_char, field_char. by rewrite Hc.
  - apply andb_true_iff in Hq as [_ Hq]. eapply all_bytes_impl; [|exact Hq]. intros c Hc. unfold scope_char. by rewrite Hc.
Qed.

(** What is left of the parse of an issued scope: its parameters, one by one. *)
Lemma parse_format g : well_formed g → parseSpaceGrant (formatSpaceGrant g) =
  let? (grant, _) := range parse_parameter (named "authority" (sgAuthority g) :: query_fields g)
                       (MkSpaceGrant (sgSpaceType g) "" "" [] [] [], ∅) in
  fail_if String.eqb (sgAuthority grant) "" || String.eqb (sgSkey grant) "" with ErrOther ;;
  Ok grant.
Proof.
  intros Hg. pose proof (well_formed_bytes g Hg) as Hb. pose proof (query_chars g Hg) as Hq.
  destruct Hg as [[Ht Htn] _ _ _ _ _ Hl]. unfold parseSpaceGrant.
  replace (ContainsAny (formatSpaceGrant g) _) with false.
  2: { unfold ContainsAny. symmetry. apply negb_false_iff. eapply all_bytes_impl; [|exact Hb]. intros c. by each_byte c. }
  replace (len (formatSpaceGrant g) =? 0) with false.
  2: { rewrite formatted, len_app. symmetry. apply N.eqb_neq. change (len "space:") with 6. lia. }
  replace (maxSpaceScopeBytes <? len (formatSpaceGrant g)) with false by (symmetry; by apply N.ltb_ge).
  cbn [orb]. rewrite formatted, TrimPrefix_app. destruct (value_NSID _ Ht) as [Hv Hp].
  rewrite Cut_app by (by eapply all_bytes_has_byte). cbn [opt_result result_bind].
  replace (String.eqb (sgSpaceType g) "") with false by (symmetry; by apply String.eqb_neq).
  replace (has_byte "?" _) with false.
  2: { symmetry. apply fields_chars in Hq. cbn [fields all_bytes] in Hq. apply andb_true_iff in Hq as [_ Hq].
       by eapply all_bytes_has_byte. }
  replace (String.eqb (named "authority" (sgAuthority g) +:+ fields (query_fields g)) "") with false by reflexivity.
  cbn [orb]. rewrite (QueryUnescape_plain _ Hp). cbn [opt_result result_bind]. rewrite Ht. cbn [negb].
  rewrite Split_fields; [done|]. eapply Forall_impl; [exact Hq|]. intros f Hf. exact (all_bytes_has_byte field_char "&" f Hf eq_refl).
Qed.

Definition scalars : list string := ["authority"; "skey"].
Definition names : list string := scalars ++ ["collection"; "action"; "manage"].
Lemma parse_named name v s : name ∈ names → v ≠ "" →
  parse_parameter s (named name v) = (let? value := opt_result (QueryUnescape v) ErrOther in set_parameter name value s).
Proof.
  intros Hn Hv. unfold parse_parameter, named. change ("=" +:+ v) with (String "=" v).
  assert (has_byte "=" name = false ∧ name ≠ "" ∧ QueryUnescape name = Some name) as (He & Hne & Hu).
  { unfold names, scalars in Hn. cbn [app] in Hn. rewrite !elem_of_cons, elem_of_nil in Hn.
    by destruct Hn as [->|[->|[->|[->|[->|[]]]]]]. }
  rewrite Cut_app by done. cbn [opt_result result_bind].
  apply String.eqb_neq in Hne, Hv. rewrite Hne, Hv. cbn [orb]. by rewrite Hu.
Qed.
Lemma parse_values name add l : name ∈ names → Forall (λ v, plain v ∧ v ≠ "") l →
  (∀ v s, v ∈ l → set_parameter name v s = Ok (add s.1 v, s.2)) →
  ∀ g seen, range parse_parameter (map (named name) l) (g, seen) = Ok (fold_left add l g, seen).
Proof.
  intros Hn Hl. induction Hl as [|v l [Hp Hv] _ IH]; intros Hset g seen; [done|]. cbn [map range fold_left].
  rewrite (parse_named _ _ _ Hn Hv), (QueryUnescape_plain _ Hp). cbn [opt_result result_bind].
  rewrite Hset by by left. cbn [fst snd result_bind]. apply IH. intros w s Hw. apply Hset. by right.
Qed.

Lemma add_collections l g : fold_left add_collection l g =
  MkSpaceGrant (sgSpaceType g) (sgAuthority g) (sgSkey g) (sgCollection g ++ l) (sgAction g) (sgManage g).
Proof. revert g. induction l as [|v l IH]; intros g; cbn [fold_left]; [by rewrite app_nil_r; destruct g|]. rewrite IH. cbn. by rewrite <- app_assoc. Qed.
Lemma add_actions l g : fold_left add_action l g =
  MkSpaceGrant (sgSpaceType g) (sgAuthority g) (sgSkey g) (sgCollection g) (sgAction g ++ l) (sgManage g).
Proof. revert g. induction l as [|v l IH]; intros g; cbn [fold_left]; [by rewrite app_nil_r; destruct g|]. rewrite IH. cbn. by rewrite <- app_assoc. Qed.
Lemma add_manages l g : fold_left add_manage l g =
  MkSpaceGrant (sgSpaceType g) (sgAuthority g) (sgSkey g) (sgCollection g) (sgAction g) (sgManage g ++ l).
Proof. revert g. induction l as [|v l IH]; intros g; cbn [fold_left]; [by rewrite app_nil_r; destruct g|]. rewrite IH. cbn. by rewrite <- app_assoc. Qed.

(** The parameters after the authority, of a well-formed grant. *)
Lemma parse_query_fields g g0 : well_formed g → sgCollection g0 = [] → sgAction g0 = [] → sgManage g0 = [] →
  ∃ seen, range parse_parameter (query_fields g) (g0, {["authority"]}) =
    Ok (MkSpaceGrant (sgSpaceType g0) (sgAuthority g0) (sgSkey g) (sgCollection g) (sgAction g) (sgManage g), seen).
Proof.
  intros [_ _ [Hk Hkn] Hc Ha Hm _] Ec Ea Em. destruct (value_key _ Hk) as [_ Hkp]. unfold query_fields. cbn [range].
  rewrite (parse_named "skey") by (done || (apply (bool_decide_eq_true_1 _); reflexivity)).
  rewrite (QueryUnescape_plain _ Hkp). cbn [opt_result result_bind set_parameter]. unfold set_parameter. cbn [String.eqb Ascii.eqb Bool.eqb].
  rewrite bool_decide_eq_false_2 by set_solver. rewrite Hk. cbn [negb andb fst snd]. rewrite andb_false_r.
  eexists. cbn [result_bind]. rewrite range_app.
  rewrite (parse_values "collection" add_collection); [|apply (bool_decide_eq_true_1 _); reflexivity| |].
  2: { eapply Forall_impl; [exact Hc|]. intros v [Hv Hvn]. split; [by apply value_NSID|done]. }
  2: { intros v s Hv. rewrite Forall_forall in Hc. destruct (Hc v Hv) as [Hn _]. unfold set_parameter. cbn [String.eqb Ascii.eqb Bool.eqb]. by rewrite Hn. }
  cbn [result_bind]. rewrite range_app, (parse_values "action" add_action); [|apply (bool_decide_eq_true_1 _); reflexivity| |].
  2: { eapply Forall_impl; [exact Ha|]. intros v Hv. by destruct (value_known known_actions v eq_refl Hv) as [[_ ?] ?]. }
  2: { intros v s Hv. rewrite Forall_forall in Ha. unfold set_parameter. cbn [String.eqb Ascii.eqb Bool.eqb]. by rewrite (Ha v Hv). }
  cbn [result_bind]. rewrite (parse_values "manage" add_manage); [|apply (bool_decide_eq_true_1 _); reflexivity| |].
  2: { eapply Forall_impl; [exact Hm|]. intros v Hv. by destruct (value_known known_manage v eq_refl Hv) as [[_ ?] ?]. }
  2: { intros v s Hv. rewrite Forall_forall in Hm. unfold set_parameter. cbn [String.eqb Ascii.eqb Bool.eqb]. by rewrite (Hm v Hv). }
  rewrite add_manages, add_actions, add_collections. cbn. rewrite Ec, Ea, Em. done.
Qed.

(** The parse of an issued scope: the grant, with the escapes of its authority replaced. *)
Lemma parse_issued g : well_formed g → parseSpaceGrant (formatSpaceGrant g) =
  let? value := opt_result (QueryUnescape (sgAuthority g)) ErrOther in
  let? _ := opt_result (ParseDID value) ErrOther in
  fail_if String.eqb value "" with ErrOther ;;
  Ok (set_sgAuthority g value).
Proof.
  intros Hg. rewrite (parse_format g Hg). cbn [range].
  rewrite (parse_named "authority"); [|apply (bool_decide_eq_true_1 _); reflexivity|apply wf_authority, Hg].
  destruct (QueryUnescape (sgAuthority g)) as [v|]; cbn [opt_result result_bind]; [|done].
  unfold set_parameter. cbn [String.eqb Ascii.eqb Bool.eqb snd fst]. rewrite bool_decide_eq_false_2 by set_solver.
  destruct (ParseDID v) as [d|]; cbn [opt_result result_bind]; [|done]. rewrite union_empty_r_L.
  destruct (parse_query_fields g (set_sgAuthority (MkSpaceGrant (sgSpaceType g) "" "" [] [] []) v) Hg eq_refl eq_refl eq_refl) as [seen ->].
  cbn [result_bind sgAuthority sgSkey set_sgAuthority sgSpaceType]. destruct Hg as [_ _ [_ Hk] _ _ _ _].
  apply String.eqb_neq in Hk. by rewrite Hk, orb_false_r.
Qed.
Lemma parse_plain g : well_formed g → has_byte "%" (sgAuthority g) = false → parseSpaceGrant (formatSpaceGrant g) = Ok g.
Proof.
  intros Hg Hp. rewrite (parse_issued g Hg), QueryUnescape_plain.
  - destruct Hg as [_ [Ha Hn] _ _ _ _ _]. cbn [opt_result result_bind]. rewrite Ha. cbn [opt_result result_bind].
    apply String.eqb_neq in Hn. rewrite Hn. by destruct g.
  - destruct Hg as [_ [Ha _] _ _ _ _ _]. split; [done|]. apply ParseDID_chars in Ha. by eapply all_bytes_has_byte.
Qed.
Lemma parse_authority g g' : well_formed g → parseSpaceGrant (formatSpaceGrant g) = Ok g' →
  sgAuthority g' = sgAuthority g → has_byte "%" (sgAuthority g) = false.
Proof.
  intros Hg. rewrite (parse_issued g Hg). destruct (QueryUnescape (sgAuthority g)) as [v|] eqn:E; [|done]. cbn [opt_result result_bind].
  destruct (ParseDID v); [|done]. cbn [opt_result result_bind]. destruct (String.eqb v ""); [done|]. intros [= <-]. cbn. intros ->.
  apply not_true_iff_false. intros Hp. by apply QueryUnescape_escaped in Hp.
Qed.

(** The parser accepts an issued grant exactly when the account's identifier has no escape. *)
Lemma issued_grants g actions manages : well_formed g →
  sgSpaceType g = MailboxSpaceType → sgCollection g = appendOnlyMailboxCollections → sgAction g = actions → sgManage g = manages →
  parsed_as (sgAuthority g) (sgSkey g) actions manages (formatSpaceGrant g) ↔ has_byte "%" (sgAuthority g) = false.
Proof.
  intros Hg Ht Hc <- <-. unfold parsed_as. split.
  - intros (_ & g' & Hp & _ & Ha & _). by apply (parse_authority g g').
  - intros Hp. split; [rewrite formatted; apply HasPrefix_app|]. exists g. split; [by apply parse_plain|]. by rewrite Hc.
Qed.

Definition target_bounds (did rkey : string) : Prop :=
  did ≠ "" ∧ len did ≤ 2048 ∧ rkey ≠ "" ∧ len rkey ≤ 512.

Lemma issued_well_formed did rkey actions manages : mailbox_identifiers → target_bounds did rkey →
  ParseDID did = Some did → ParseRecordKey rkey = true →
  Forall (λ a, containsString known_actions a = true) actions → Forall (λ a, containsString known_manage a = true) manages →
  len (parameters "action" actions) + len (parameters "manage" manages) ≤ 64 →
  well_formed (MkSpaceGrant MailboxSpaceType did rkey appendOnlyMailboxCollections actions manages).
Proof.
  intros [Ht Hc] (Hd & Hdl & Hk & Hkl) Hpd Hpk Ha Hm Hl. split; cbn [sgSpaceType sgAuthority sgSkey sgCollection sgAction sgManage]; try done.
  - apply Forall_and. split; [done|]. apply Forall_forall. intros c Hin ->.
    apply (bool_decide_eq_true_2 _) in Hin. vm_compute in Hin. done.
  - unfold formatSpaceGrant. cbn [sgSpaceType sgAuthority sgSkey sgCollection sgAction sgManage]. rewrite !len_app.
    assert (len (parameters "collection" appendOnlyMailboxCollections) ≤ 1000) by (vm_compute; discriminate).
    assert (len MailboxSpaceType ≤ 200) by (vm_compute; discriminate).
    change (len "space:") with 6. change (len "?authority=") with 11. change (len "&skey=") with 6. unfold maxSpaceScopeBytes. lia.
Qed.
Lemma last_scope (f scope : string) l : l ++ [f] ≡ₚ l ++ [scope] → scope = f.
Proof. intros Hp%Permutation_app_inv_l. by apply Permutation_singleton_inj in Hp. Qed.

(** C27. The scopes that are asked for and the validation of the granted ones agree on every mailbox
    whose account has an identifier without an escape, and on no other: the scope's text holds the identifier as it is, and
    its parser decodes it. *)
Theorem issued_scopes_accepted authorityDID spaceKey did rkey : mailbox_identifiers →
  parseSteadyTarget authorityDID spaceKey = Ok (did, rkey) → target_bounds did rkey →
  ∃ steady provisioning,
    MailboxScopes authorityDID spaceKey = Ok steady ∧ ProvisioningScopes authorityDID spaceKey = Ok provisioning ∧
    (ValidateSteadyGrant steady authorityDID spaceKey = Ok tt ↔ has_byte "%" did = false) ∧
    (ValidateProvisioningGrant provisioning authorityDID spaceKey = Ok tt ↔ has_byte "%" did = false).
Proof.
  intros Hm Ht Hb. destruct (parseSteadyTarget_ok _ _ _ _ Ht) as (Hd & Hk & _).
  unfold MailboxScopes, ProvisioningScopes. rewrite Ht. cbn [result_bind]. eexists _, _. split; [done|]. split; [done|].
  rewrite (valid_steady _ _ _ _ _ Ht), (valid_provisioning _ _ _ _ _ Ht). split.
  - transitivity (parsed_as did rkey ["read"; "create"] [] (formatSpaceGrant (steady_grant did rkey))).
    + split; [|by eexists]. intros (scope & Hp & Hg). apply (last_scope _ _ ["atproto"; blob_scope]) in Hp as ->. done.
    + apply (issued_grants (steady_grant did rkey)); try done. apply issued_well_formed; try done; vm_compute; repeat constructor; discriminate.
  - transitivity (parsed_as did rkey ["read_self"] ["create"] (formatSpaceGrant (provisioning_grant did rkey))).
    + split; [|by eexists]. intros (scope & Hp & Hg). apply (last_scope _ _ ["atproto"]) in Hp as ->. done.
    + apply (issued_grants (provisioning_grant did rkey)); try done. apply issued_well_formed; try done; vm_compute; repeat constructor; discriminate.
Qed.
End issued.

Lemma sample_identifiers : mailbox_identifiers.
Proof. split; [|repeat constructor]; vm_compute; reflexivity. Qed.
Definition least_scopes : list string := default [] (match MailboxScopes "did:plc:alice" "inbox" with Ok l => Some l | Err _ => None end).
(** The parameters in another order, with escapes; and what must be refused. *)
Lemma scopes_tried : List.map (λ scope, is_ok (ValidateSteadyGrant [blob_scope; scope; "atproto"] "did:plc:alice" "inbox"))
  (let five := parameters "collection" appendOnlyMailboxCollections in let start := "space:" +:+ MailboxSpaceType +:+ "?" in
   [start +:+ "skey=inb%6Fx&action=create" +:+ five +:+ "&authority=did:plc:alice&action=read";
    start +:+ "authority=did:plc:alice&authority=did:plc:alice&skey=inbox&action=read&action=create" +:+ five;
    start +:+ "authority=did:plc:alice&skey=inbox&unknown=value&action=read&action=create" +:+ five;
    start +:+ "authority=did:plc:alice&skey=inbox?&action=read&action=create" +:+ five;
    start +:+ "authority=did:plc:alice&skey=inbox%26manage%3Dcreate&action=read&action=create" +:+ five]) = [true; false; false; false; false].
Proof. vm_compute. reflexivity. Qed.
Lemma grants_exact_witness : ∃ did rkey scope,
  parseSteadyTarget "did:plc:alice" "inbox" = Ok (did, rkey) ∧
  least_scopes ≡ₚ ["atproto"; blob_scope; scope] ∧ grants did rkey ["read"; "create"] [] scope.
Proof. apply (proj1 (grants_exact sample_identifiers least_scopes "did:plc:alice" "inbox")). vm_compute. reflexivity. Defined.

Lemma issued_scopes_accepted_witness :
  (∃ steady provisioning,
    MailboxScopes "did:plc:alice" "inbox" = Ok steady ∧
    ProvisioningScopes "did:plc:alice" "inbox" = Ok provisioning ∧
    (ValidateSteadyGrant steady "did:plc:alice" "inbox" = Ok tt ↔ has_byte "%" "did:plc:alice" = false) ∧
    (ValidateProvisioningGrant provisioning "did:plc:alice" "inbox" = Ok tt ↔ has_byte "%" "did:plc:alice" = false)) ∧
  (∃ steady provisioning,
    MailboxScopes "did:web:localhost%3A3000" "inbox" = Ok steady ∧
    ProvisioningScopes "did:web:localhost%3A3000" "inbox" = Ok provisioning ∧
    (ValidateSteadyGrant steady "did:web:localhost%3A3000" "inbox" = Ok tt ↔ has_byte "%" "did:web:localhost%3A3000" = false) ∧
    (ValidateProvisioningGrant provisioning "did:web:localhost%3A3000" "inbox" = Ok tt ↔
     has_byte "%" "did:web:localhost%3A3000" = false)) ∧ has_byte "%" "did:web:localhost%3A3000" = true.
Proof.
  pose proof sample_identifiers as Hm.
  split; [|split; [|reflexivity]];
    (eapply issued_scopes_accepted; [exact Hm|vm_compute; reflexivity|repeat split; vm_compute; discriminate]).
Defined.
