(* ===== verification/OfficialProjection.v ===== *)
(** * internal/projection/officialspaces.go: the projection of a verified recovery

    [RebuildOfficial] writes a fresh database from the one sealed capability of a complete
    recovery.  The capability is an interface, [ProjectionSource], which
    [ContentVerifiedSource] implements; files and database are those of [Projection], with an
    exclusive creation.  The state is the source, which a visit may change, and the world.

    In the code a projected state is shared by pointer between the map of selected versions and
    the members of the folders; here the map of selected versions is the store, and the version
    is the pointer. *)
From S2P Require Import Prelude Sha256 GoStd Syntax Unicode Json Url Mailbox Repository Canonical Revision FolderRevision.
From S2P Require Import Ipld SpacesWire Recovery Reduction Content Projection.

(** [unicode.ToLower]: Unicode's table of lower-case letters, which Go carries as generated data. *)
Class LowerTable : Type := unicode_ToLower : N → N.
(** [strings.ToLower]; its shortcut for ASCII gives the same. *)
Definition strings_ToLower `{LowerTable} (s : string) : string := encode_runes (List.map unicode_ToLower (runes s)).

(** ** The source *)

Class ProjectionSource (X : Type) : Type := {
  src_Summary : X → ContentVerificationSummary;
  src_Folders : X → list ReducedFolderState;
  src_MessageStates : X → list ReducedState;
  src_VisitMessages {S} : (MessageVersion → string → X * S → result unit * (X * S)) → context → X * S → result unit * (X * S);
  src_ValidateSeal : X → result unit
}.
#[export] Instance sealedOfficialProjectionSource `{Syntax} `{Ipld} : ProjectionSource content_source := {
  src_Summary source := content_Summary (Some source);
  src_Folders source := content_Folders (Some source);
  src_MessageStates source := content_MessageStates (Some source);
  src_VisitMessages S visit := VisitMessages (λ message s,
    match Content.Open message with
    | Ok (version, raw) => visit version raw s
    | Err e => (Err e, s)
    end);
  src_ValidateSeal source := content_ValidateSeal (Some source)
}.

(** Exclusive creation, and the close of the new file. *)
Class NewFiles (W : Type) : Type := {
  OpenNew : string → W → result N * W;
  CloseFile : N → W → result unit * W
}.

(** ** The graph *)

Record officialProjectionFolder : Type := MkOfficialFolder {
  pfState : ReducedFolderState;
  pfUIDValidity : N
}.
Record officialProjectionState : Type := MkOfficialState {
  psState : ReducedState;
  psUIDs : gmap string N
}.
Record officialProjectionGraph : Type := MkOfficialGraph {
  pgFolders : list officialProjectionFolder;
  pgFolderByID : gmap string officialProjectionFolder;
  pgSelected : gmap string officialProjectionState;
  pgLiveStates : Z;
  pgMessageDeletes : Z
}.

Definition validOfficialDigest (value : string) : bool :=
  if negb (len value =? 71) || negb (HasPrefix value "sha256-") then false
  else hex_decodable (TrimPrefix value "sha256-").

Section graph.
Context `{Syntax} `{LowerTable}.

Definition validateOfficialSummary (summary : ContentVerificationSummary) (target : Target) : result unit :=
  fail_if negb (String.eqb (tgEpoch target) PinnedEpoch) || negb (is_ok (Target_ValidateFor target (tgRepoDID target))) ||
    String.eqb (smRevision summary) "" || negb (validOfficialDigest (smSnapshotID summary)) ||
    negb (validOfficialDigest (smManifestSHA256 summary)) || (smTotalBytes summary <? 0)%Z with ErrOther ;;
  Ok tt.

(** The live folders so far, all folders by identifier, the identifiers by folded name. *)
Definition projected_folder (repoDID : string) (state : ReducedFolderState) : officialProjectionFolder :=
  MkOfficialFolder state (StableFolderUIDValidity repoDID (rfFolderID state)).
Definition graph_folder (repoDID snapshotID : string)
    (s : list officialProjectionFolder * gmap string officialProjectionFolder * gmap string string) (state : ReducedFolderState) :
    result (list officialProjectionFolder * gmap string officialProjectionFolder * gmap string string) :=
  let '(folders, folderByID, liveNames) := s in
  fail_if String.eqb (rfFolderID state) "" || negb (String.eqb (rfSnapshotID state) snapshotID) ||
    String.eqb (rfName state) "" || (rfHeight state =? 0) || negb (validOfficialDigest (rfStateDigest state)) with ErrIntegrity ;;
  fail_if is_some (folderByID !! rfFolderID state) with ErrIntegrity ;;
  let folder := projected_folder repoDID state in
  let folderByID := <[rfFolderID state := folder]> folderByID in
  if rfTombstone state then Ok (folders, folderByID, liveNames)
  else
    let foldedName := strings_ToLower (rfName state) in
    fail_if match liveNames !! foldedName with Some prior => negb (String.eqb prior (rfFolderID state)) | None => false end
      with ErrIntegrity ;;
    Ok (folders ++ [folder], folderByID, <[foldedName := rfFolderID state]> liveNames).

(** The folders of a message: each once, and live. *)
Fixpoint check_membership (folderByID : gmap string officialProjectionFolder) (prior : option string) (folderIDs : list string) :
    result unit :=
  match folderIDs with
  | [] => Ok tt
  | folderID :: rest =>
      fail_if bool_decide (prior = Some folderID) with ErrIntegrity ;;
      let? folder := opt_result (folderByID !! folderID) ErrIntegrity in
      fail_if rfTombstone (pfState folder) with ErrIntegrity ;;
      check_membership folderByID (Some folderID) rest
  end.
(** The state with its folders and keywords sorted. *)
Definition sorted_state (state : ReducedState) : ReducedState :=
  MkReducedState (rsLogicalMessageID state) (rsSnapshotID state) (rsVersion state) (sort_strings (rsMailboxIDs state))
    (sort_strings (rsKeywords state)) (rsDeletePending state) (rsTombstone state) (rsHeads state) (rsHeadsDigest state)
    (rsStateDigest state) (rsHeight state) (rsRevisionCount state).

Record message_scan : Type := MkMessageScan {
  mcLogical : gset string;
  mcSelected : gmap string officialProjectionState;
  mcByFolder : gmap string (list ReducedState);
  mcLive : Z;
  mcDeletes : Z
}.
Definition graph_message (snapshotID : string) (folderByID : gmap string officialProjectionFolder) (s : message_scan)
    (state : ReducedState) : result message_scan :=
  fail_if negb (validOfficialDigest (rsLogicalMessageID state)) || negb (String.eqb (rsSnapshotID state) snapshotID) ||
    negb (validOfficialDigest (rsStateDigest state)) || (rsHeight state =? 0) with ErrIntegrity ;;
  fail_if bool_decide (rsLogicalMessageID state ∈ mcLogical s) with ErrIntegrity ;;
  let seenLogical := {[rsLogicalMessageID state]} ∪ mcLogical s in
  if rsTombstone state then Ok (MkMessageScan seenLogical (mcSelected s) (mcByFolder s) (mcLive s) (mcDeletes s + 1))
  else
    fail_if negb (validOfficialDigest (rsVersion state)) || (llen (rsMailboxIDs state) =? 0) with ErrIntegrity ;;
    let projected := sorted_state state in
    let? _ := check_membership folderByID None (rsMailboxIDs projected) in
    let byFolder := fold_left push (List.map (λ folderID, (folderID, projected)) (rsMailboxIDs projected)) (mcByFolder s) in
    fail_if is_some (mcSelected s !! rsVersion state) with ErrIntegrity ;;
    Ok (MkMessageScan seenLogical (<[rsVersion state := MkOfficialState projected ∅]> (mcSelected s)) byFolder
          (mcLive s + 1) (mcDeletes s)).

(** By logical identity, then by version. *)
Definition uid_le (left right : ReducedState) : Prop :=
  if String.eqb (rsLogicalMessageID left) (rsLogicalMessageID right) then str_le (rsVersion left) (rsVersion right)
  else str_le (rsLogicalMessageID left) (rsLogicalMessageID right).
#[export] Instance uid_le_dec : RelDecision uid_le.
Proof. intros left right. unfold uid_le. destruct (String.eqb _ _); apply _. Defined.
Definition set_uid (folderID : string) (uid : N) (state : officialProjectionState) : officialProjectionState :=
  MkOfficialState (psState state) (<[folderID := uid]> (psUIDs state)).
Definition give_uid (folderID : string) (selected : gmap string officialProjectionState) (index : nat) (state : ReducedState) :
    gmap string officialProjectionState :=
  alter (set_uid folderID (u32 (N.of_nat index + 1))) (rsVersion state) selected.
Fixpoint give_uids (folderID : string) (index : nat) (states : list ReducedState) (selected : gmap string officialProjectionState) :
    gmap string officialProjectionState :=
  match states with
  | [] => selected
  | state :: rest => give_uids folderID (S index) rest (give_uid folderID selected index state)
  end.
Definition folder_uids (selected : gmap string officialProjectionState) (group : string * list ReducedState) :
    gmap string officialProjectionState :=
  give_uids group.1 0 (merge_sort uid_le group.2) selected.

Definition folder_id (folder : officialProjectionFolder) : string := rfFolderID (pfState folder).
Definition buildOfficialProjectionGraph (summary : ContentVerificationSummary) (folders : list ReducedFolderState)
    (states : list ReducedState) : result officialProjectionGraph :=
  let? (live, folderByID, _) := range (graph_folder (otRepoDID (smTarget summary)) (smSnapshotID summary)) folders ([], ∅, ∅) in
  let? scan := range (graph_message (smSnapshotID summary) folderByID) states (MkMessageScan ∅ ∅ ∅ 0 0) in
  let selected := fold_left folder_uids (map_to_list (mcByFolder scan)) (mcSelected scan) in
  Ok (MkOfficialGraph (sort_by folder_id live) folderByID selected (mcLive scan) (mcDeletes scan)).
End graph.

(** ** The manifest *)

Record officialManifestFolder : Type := MkManifestFolder {
  mfFolderID : string;
  mfName : string;
  mfRole : string;
  mfUIDValidity : N;
  mfRevision : N
}.
Record officialManifestMembership : Type := MkManifestMembership {
  mbFolderID : string;
  mbMailbox : string;
  mbUID : N;
  mbUIDValidity : N;
  mbModSeq : N
}.
Record officialManifestMessage : Type := MkManifestMessage {
  mmRKey : string;
  mmSHA256 : string;
  mmSize : Z;
  mmKeywords : list string;
  mmDeletePending : bool;
  mmSourceMessageID : string;
  mmMessageDate : string;
  mmInReplyTo : string;
  mmReferences : list string;
  mmMemberships : list officialManifestMembership
}.
Record officialManifest : Type := MkManifest {
  omVersion : Z;
  omTarget : Target;
  omFolders : list officialManifestFolder;
  omMessages : list officialManifestMessage
}.

(** A nil slice, which an empty list of appended values is, is [null]. *)
Definition json_appended {A} (f : A → json) (l : list A) : json := match l with [] => JNull | _ => JArr (List.map f l) end.
Definition target_json (t : Target) : json :=
  JObj [("providerOrigin", JStr (tgProviderOrigin t)); ("spaceUri", JStr (tgSpaceURI t)); ("repoDid", JStr (tgRepoDID t));
        ("epoch", JStr (tgEpoch t))].
Definition manifest_folder_json (f : officialManifestFolder) : json :=
  JObj ([("folderId", JStr (mfFolderID f)); ("name", JStr (mfName f))] ++ omit_string "role" (mfRole f) ++
        [("uidValidity", json_N (mfUIDValidity f)); ("revision", json_N (mfRevision f))]).
Definition manifest_membership_json (m : officialManifestMembership) : json :=
  JObj [("folderId", JStr (mbFolderID m)); ("mailbox", JStr (mbMailbox m)); ("uid", json_N (mbUID m));
        ("uidValidity", json_N (mbUIDValidity m)); ("modSeq", json_N (mbModSeq m))].
Definition manifest_message_json (m : officialManifestMessage) : json :=
  JObj ([("rkey", JStr (mmRKey m)); ("sha256", JStr (mmSHA256 m)); ("size", json_Z (mmSize m));
         ("keywords", json_strings (mmKeywords m)); ("deletePending", JBool (mmDeletePending m))] ++
        omit_string "sourceMessageId" (mmSourceMessageID m) ++ omit_string "messageDate" (mmMessageDate m) ++
        omit_string "inReplyTo" (mmInReplyTo m) ++
        omit_if (llen (mmReferences m) =? 0) "references" (json_strings (mmReferences m)) ++
        [("memberships", json_appended manifest_membership_json (mmMemberships m))]).
Definition manifest_json (m : officialManifest) : json :=
  JObj [("version", json_Z (omVersion m)); ("target", target_json (omTarget m));
        ("folders", json_appended manifest_folder_json (omFolders m));
        ("messages", json_appended manifest_message_json (omMessages m))].
Definition officialSemanticManifest (manifest : officialManifest) : string :=
  hex_encode (sha256 (("comail-official-sqlite-projection-v1" +:+ NUL) +:+ print (manifest_json manifest))).

(** ** The rebuild *)

Section rebuild.
Context `{Syntax} `{LowerTable} {W : Type} `{Files W} `{NewFiles W}.

Definition references_of (version : MessageVersion) : list string := elems (mrReferences (mvRecord version)).
(** The row of a message: its keywords and references are never nil. *)
Definition official_row (version : MessageVersion) (raw : string) (state : officialProjectionState) : message_row :=
  let record := mvRecord version in
  MkMessageRow (mvRKey version) raw (mrSHA256 record) (mrSize record) (print (json_strings (rsKeywords (psState state))))
    (rsDeletePending (psState state)) (mrSourceMessageID record) (mrMessageDate record) (mrInReplyTo record)
    (print (json_strings (references_of version))).
Definition folder_of (folderByID : gmap string officialProjectionFolder) (folderID : string) : string * N :=
  match folderByID !! folderID with Some folder => (rfName (pfState folder), pfUIDValidity folder) | None => ("", 0) end.
Definition official_membership (folderByID : gmap string officialProjectionFolder) (state : officialProjectionState)
    (folderID : string) : officialManifestMembership :=
  let '(name, uidValidity) := folder_of folderByID folderID in
  MkManifestMembership folderID name (default 0 (psUIDs state !! folderID)) uidValidity (rsHeight (psState state)).
Definition insert_membership (rkey : string) (m : officialManifestMembership) : statement :=
  InsertMembership rkey (mbMailbox m) (MkProjectionIdentity (mbUID m) (mbUIDValidity m) (mbModSeq m)).
Definition official_memberships (folderByID : gmap string officialProjectionFolder) (state : officialProjectionState) :
    list officialManifestMembership :=
  List.map (official_membership folderByID state) (rsMailboxIDs (psState state)).
(** The message that is appended to the manifest. *)
Definition official_manifest_message (version : MessageVersion) (state : officialProjectionState)
    (memberships : list officialManifestMembership) : officialManifestMessage :=
  let record := mvRecord version in
  MkManifestMessage (mvRKey version) (mrSHA256 record) (mrSize record) (rsKeywords (psState state)) (rsDeletePending (psState state))
    (mrSourceMessageID record) (mrMessageDate record) (mrInReplyTo record) (references_of version) memberships.
Definition insertOfficialMessage (db : N) (version : MessageVersion) (raw : string) (state : officialProjectionState)
    (folderByID : gmap string officialProjectionFolder) : W → result officialManifestMessage * W :=
  call? _ := db_Exec db (InsertMessage (official_row version raw state)) in
  let memberships := official_memberships folderByID state in
  call? _ := exec_all db (List.map (insert_membership (mvRKey version)) memberships) in
  returns (Ok (official_manifest_message version state memberships)).

(** What a visit has gathered. *)
Record visit_state : Type := MkVisitState {
  vtVersions : gset string;
  vtSelected : gset string;
  vtMessages : list officialManifestMessage;
  vtReport : Report
}.
Definition see_version (s : visit_state) (rkey : string) : visit_state :=
  MkVisitState ({[rkey]} ∪ vtVersions s) (vtSelected s) (vtMessages s) (vtReport s).
Definition see_selected (s : visit_state) (rkey : string) (message : officialManifestMessage) (raw : string) : visit_state :=
  MkVisitState (vtVersions s) ({[rkey]} ∪ vtSelected s) (vtMessages s ++ [message]) (add_bytes (vtReport s) raw).
Definition visit_official (db : N) (repoDID : string) (graph : officialProjectionGraph) (version : MessageVersion) (raw : string)
    (s : W * visit_state) : result unit * (W * visit_state) :=
  let '(w, s) := s in
  if bool_decide (mvRKey version ∈ vtVersions s) then (Err ErrIntegrity, (w, s))
  else
    let s := see_version s (mvRKey version) in
    match ValidateStoredMessage repoDID (mvRKey version) (mvRecord version) raw with
    | Err e => (Err e, (w, s))
    | Ok _ =>
        match pgSelected graph !! mvRKey version with
        | None => (Ok tt, (w, s))
        | Some selected =>
            if negb (String.eqb (mrLogicalMessageID (mvRecord version)) (rsLogicalMessageID (psState selected)))
            then (Err ErrIntegrity, (w, s))
            else match insertOfficialMessage db version raw selected (pgFolderByID graph) w with
                 | (Err e, w) => (Err e, (w, s))
                 | (Ok message, w) => (Ok tt, (w, see_selected s (mvRKey version) message raw))
                 end
        end
    end.

Definition set_rtTarget (r : Report) (x : Target) : Report :=
  MkReport (rtVersion r) x (rtFolders r) (rtMessages r) (rtStates r) (rtTombstones r) (rtTotalBytes r) (rtManifestSHA256 r) (rtMismatches r).
Definition set_graph_counts (r : Report) (graph : officialProjectionGraph) : Report :=
  MkReport (rtVersion r) (rtTarget r) (Z.of_nat (List.length (pgFolders graph))) (rtMessages r) (pgLiveStates graph)
    (pgMessageDeletes graph) (rtTotalBytes r) (rtManifestSHA256 r) (rtMismatches r).
Definition set_rtMessages (r : Report) (x : Z) : Report :=
  MkReport (rtVersion r) (rtTarget r) (rtFolders r) x (rtStates r) (rtTombstones r) (rtTotalBytes r) (rtManifestSHA256 r) (rtMismatches r).

Definition target_of (t : SpacesTarget) : Target := MkTarget (otOrigin t) (otSpaceURI t) (otRepoDID t) (otEpoch t).
(** The columns of a folder; the type of a folder record is not one. *)
Definition folder_columns (folder : officialProjectionFolder) : FolderRecord :=
  MkFolderRecord "" (rfName (pfState folder)) (rfRole (pfState folder)) (pfUIDValidity folder) (rfHeight (pfState folder)) "".
Definition insert_folder (folder : officialProjectionFolder) : statement := InsertFolder (folder_id folder) (folder_columns folder).
Definition official_manifest_folder (folder : officialProjectionFolder) : officialManifestFolder :=
  MkManifestFolder (folder_id folder) (rfName (pfState folder)) (rfRole (pfState folder)) (pfUIDValidity folder)
    (rfHeight (pfState folder)).

Definition suffixes : list string := ["-journal"; "-wal"; "-shm"; ""].
Definition removeProjectionArtifacts (destination : string) (w : W) : W :=
  fold_left (λ w suffix, RemoveFile (destination +:+ suffix) w) suffixes w.
Fixpoint refuse_existing (artifacts : list string) : W → result unit * W :=
  match artifacts with
  | [] => returns (Ok tt)
  | artifact :: rest =>
      call? there := Lstat artifact in
      return_if there with Err ErrOther ;;
      refuse_existing rest
  end.
Definition refuseExistingOfficialProjectionArtifacts (destination : string) : W → result unit * W :=
  refuse_existing (List.map (append destination) [""; "-journal"; "-wal"; "-shm"]).

Section with_source.
Context {X : Type} `{ProjectionSource X}.

(** A step that leaves the source alone, a call of the world, and a result of the source. *)
Definition beside {S A} (f : S → A * S) (s : X * S) : A * (X * S) := let '(r, s') := f s.2 in (r, (s.1, s')).
Definition in_world {A} (m : W → A * W) : X * W → A * (X * W) := beside m.
Definition of_source {A} (f : X → A) (s : X * W) : A * (X * W) := (f s.1, s).
(** A deferred call, of the paths that end with an error. *)
Definition undo {S} (f : S → S) (m : S → outcome * S) : S → outcome * S := λ s,
  match m s with ((r, Some e), s) => ((r, Some e), f s) | done => done end.

(** From the schema to the close of the database. *)
Definition write_official (ctx : context) (db : N) (summary : ContentVerificationSummary) (graph : officialProjectionGraph)
    (report : Report) : X * W → outcome * (X * W) :=
  guard _ := in_world (exec_all db [CreateTables; InsertMeta (rtTarget report); Begin]) else report in
  guard _ := in_world (exec_all db (List.map insert_folder (pgFolders graph))) else report in
  λ s,
  let '(visited, (x, (w, seen))) :=
    src_VisitMessages (λ version raw, beside (visit_official db (tgRepoDID (rtTarget report)) graph version raw)) ctx (s.1, (s.2, MkVisitState ∅ ∅ [] report)) in
  let report := vtReport seen in
  (guard _ := returns visited else report in
   guard _ := returns (if negb (N.of_nat (size (vtVersions seen)) =? smMessageVersions summary) ||
       negb (size (vtSelected seen) =? size (pgSelected graph))%nat then Err ErrIntegrity else Ok tt) else report in
   guard _ := of_source src_ValidateSeal else report in
   let report := set_rtMessages report (Z.of_nat (size (vtSelected seen))) in
   let manifest := MkManifest 1 (rtTarget report) (List.map official_manifest_folder (pgFolders graph))
     (sort_by mmRKey (vtMessages seen)) in
   let report := set_rtManifestSHA256 report (officialSemanticManifest manifest) in
   guard _ := in_world (db_Exec db CommitTx) else report in
   guard _ := in_world (db_Close db) else report in
   λ s, ((report, None), s)) (x, w).

Definition rebuildOfficialSpaces (ctx : context) (destination : string) : X * W → outcome * (X * W) :=
  let report := MkReport 3 (MkTarget "" "" "" "") 0 0 0 0 0 "" [] in
  guard _ := returns (if HasPrefix destination "/" then Ok tt else Err ErrOther) else report in
  guard ctx := returns (poll ctx) else report in
  guard _ := in_world (refuseExistingOfficialProjectionArtifacts destination) else report in
  guard _ := of_source src_ValidateSeal else report in
  guard summary := of_source (λ x, Ok (src_Summary x)) else report in
  let report := set_rtTarget report (target_of (smTarget summary)) in
  guard _ := returns (validateOfficialSummary summary (rtTarget report)) else report in
  guard graph := of_source (λ x, buildOfficialProjectionGraph summary (src_Folders x) (src_MessageStates x)) else report in
  let report := set_graph_counts report graph in
  guard _ := in_world (MkdirAll (Dir destination)) else report in
  guard _ := in_world (refuseExistingOfficialProjectionArtifacts destination) else report in
  guard file := in_world (OpenNew destination) else report in
  undo (λ s, (s.1, removeProjectionArtifacts destination s.2)) (
    guard _ := in_world (CloseFile file) else report in
    guard db := in_world (db_Open destination) else report in
    λ s, match undo (λ s, (s.1, (db_Close db s.2).2)) (write_official ctx db summary graph report) s with
         | ((report, Some e), s) => ((report, Some e), s)
         | ((report, None), s) =>
             (guard _ := in_world (Chmod destination) else report in λ s, ((report, None), s)) s
         end).
End with_source.

(** A nil capability is [None]. *)
Definition RebuildOfficial `{Ipld} (ctx : context) (source : option content_source) (destination : string) (w : W) :
    outcome * (option content_source * W) :=
  match source with
  | None => ((MkReport 3 (MkTarget "" "" "" "") 0 0 0 0 0 "" [], Some ErrOther), (None, w))
  | Some source =>
      let '(r, (source, w)) := rebuildOfficialSpaces ctx destination (source, w) in (r, (Some source, w))
  end.

End rebuild.
