(* ===== verification/OfficialGraph.v ===== *)
(** * The record graph of an official projection

    [buildOfficialProjectionGraph] succeeds exactly on consistent reduced states, and then the
    UIDs of a folder are the ranks of its messages. *)
From S2P Require Import Prelude Sha256 GoStd Syntax Unicode Json Url Mailbox Repository Canonical Revision FolderRevision.
From S2P Require Import Ipld SpacesWire Recovery Reduction Recovered Content Projection OfficialProjection.

(** ** What a graph is built from *)

Definition live_folders (folders : list ReducedFolderState) : list ReducedFolderState := filter (λ f, rfTombstone f = false) folders.
Definition live_states (states : list ReducedState) : list ReducedState := filter (λ s, rsTombstone s = false) states.

Definition folder_fits (snapshotID : string) (f : ReducedFolderState) : Prop :=
  rfFolderID f ≠ "" ∧ rfSnapshotID f = snapshotID ∧ rfName f ≠ "" ∧ rfHeight f ≠ 0 ∧ validOfficialDigest (rfStateDigest f) = true.
Definition message_fits (snapshotID : string) (s : ReducedState) : Prop :=
  validOfficialDigest (rsLogicalMessageID s) = true ∧ rsSnapshotID s = snapshotID ∧ validOfficialDigest (rsStateDigest s) = true ∧
  rsHeight s ≠ 0.
Definition live_fits (folders : list ReducedFolderState) (s : ReducedState) : Prop :=
  validOfficialDigest (rsVersion s) = true ∧ rsMailboxIDs s ≠ [] ∧ NoDup (rsMailboxIDs s) ∧
  ∀ f, f ∈ rsMailboxIDs s → f ∈ rfFolderID <$> live_folders folders.

(** The reduced states that can be projected. *)
Record consistent `{LowerTable} (snapshotID : string) (folders : list ReducedFolderState) (states : list ReducedState) : Prop := {
  cn_folders : Forall (folder_fits snapshotID) folders;
  cn_folder_ids : NoDup (rfFolderID <$> folders);
  cn_names : NoDup ((λ f, strings_ToLower (rfName f)) <$> live_folders folders);
  cn_messages : Forall (message_fits snapshotID) states;
  cn_logical : NoDup (rsLogicalMessageID <$> states);
  cn_live : Forall (live_fits folders) (live_states states);
  cn_versions : NoDup (rsVersion <$> live_states states)
}.

(** The UID of a message in a folder: its rank among the folder's messages by logical identity. *)
Definition uid_rank (states : list ReducedState) (folderID : string) (s : ReducedState) : N :=
  1 + llen (filter (λ t, folderID ∈ rsMailboxIDs t ∧ str_lt (rsLogicalMessageID t) (rsLogicalMessageID s)) (live_states states)).

(** ** The folders *)

(** A loop succeeds exactly on the good lists, with a known result. *)
Lemma range_good {A S} (f : S → A → result S) (good : list A → Prop) (res : list A → S) :
  good [] → (∀ l a t, good l → f (res l) a = Ok t ↔ good (l ++ [a]) ∧ t = res (l ++ [a])) → (∀ l a, good (l ++ [a]) → good l) →
  ∀ l t, range f l (res []) = Ok t ↔ good l ∧ t = res l.
Proof.
  intros H0 Hstep Hmono l. induction l as [|a l IH] using rev_ind; intros t; [cbn; split; [by intros [= <-]|by intros [_ ->]]|].
  rewrite range_app. destruct (range f l (res [])) as [s|e].
  - destruct (proj1 (IH s) eq_refl) as [Hg ->]. cbn [result_bind]. rewrite <- (Hstep l a t Hg). cbn [range].
    by destruct (f (res l) a).
  - split; [done|]. intros [Hg%Hmono _]. discriminate (proj2 (IH (res l)) (conj Hg eq_refl)).
Qed.

Lemma live_folders_snoc l f : live_folders (l ++ [f]) = live_folders l ++ (if rfTombstone f then [] else [f]).
Proof. unfold live_folders. rewrite filter_app, filter_cons, filter_nil. by destruct (rfTombstone f). Qed.

Section folders.
Context `{LowerTable} (repoDID snapshotID : string).
Local Notation fold_name := (λ f, strings_ToLower (rfName f)).

Definition index_folders (folders : list ReducedFolderState) : gmap string officialProjectionFolder :=
  fold_left (λ m f, <[rfFolderID f := projected_folder repoDID f]> m) folders ∅.
Definition index_names (folders : list ReducedFolderState) : gmap string string :=
  fold_left (λ m f, <[fold_name f := rfFolderID f]> m) (live_folders folders) ∅.
Definition good_folders (l : list ReducedFolderState) : Prop :=
  Forall (folder_fits snapshotID) l ∧ NoDup (rfFolderID <$> l) ∧ NoDup (fold_name <$> live_folders l).

Lemma fold_left_insert_lookup {A V} (key : A → string) (value : A → V) l k v :
  NoDup (key <$> l) → fold_left (λ m a, <[key a := value a]> m) l (∅ : gmap string V) !! k = Some v ↔ ∃ a, a ∈ l ∧ key a = k ∧ v = value a.
Proof.
  induction l as [|a l IH] using rev_ind; [intros _; split; [done|]; by intros (a & Ha%not_elem_of_nil & _)|].
  rewrite fmap_app, fold_left_app, NoDup_app. cbn [fmap list_fmap fold_left]. intros (Hnd & Hout & _). specialize (IH Hnd).
  setoid_rewrite elem_of_app. setoid_rewrite list_elem_of_singleton. destruct (decide (k = key a)) as [->|Hk].
  - rewrite lookup_insert_eq. split; [intros [= <-]; exists a; by split_and!; [right|..]|].
    intros (b & [Hb| ->] & E & ->); [|done]. destruct (Hout (key b)); [by apply list_elem_of_fmap_2|rewrite E; by left].
  - rewrite lookup_insert_ne by done. rewrite IH. split; intros (b & Hb & E & ->); exists b; [by split_and!; [left|..]|].
    destruct Hb as [Hb| ->]; [done|congruence].
Qed.
Lemma fold_left_insert_None {A V} (key : A → string) (value : A → V) l k :
  fold_left (λ m a, <[key a := value a]> m) l (∅ : gmap string V) !! k = None ↔ k ∉ key <$> l.
Proof.
  induction l as [|a l IH] using rev_ind; [split; [intros _; apply not_elem_of_nil|done]|].
  rewrite fmap_app, fold_left_app, elem_of_app. cbn [fmap list_fmap fold_left]. rewrite list_elem_of_singleton. destruct (decide (k = key a)) as [->|Hk].
  - rewrite lookup_insert_eq. split; [done|]. intros Hn. destruct Hn. by right.
  - rewrite lookup_insert_ne by done. rewrite IH. tauto.
Qed.

Lemma folder_checked f :
  (String.eqb (rfFolderID f) "" || negb (String.eqb (rfSnapshotID f) snapshotID) || String.eqb (rfName f) "" ||
    (rfHeight f =? 0) || negb (validOfficialDigest (rfStateDigest f))) = false ↔ folder_fits snapshotID f.
Proof. unfold folder_fits. rewrite !orb_false_iff, !negb_false_iff, !String.eqb_neq, String.eqb_eq, N.eqb_neq. tauto. Qed.

Lemma good_folders_snoc l f : good_folders (l ++ [f]) ↔ good_folders l ∧ folder_fits snapshotID f ∧ rfFolderID f ∉ rfFolderID <$> l ∧
  (rfTombstone f = false → fold_name f ∉ fold_name <$> live_folders l).
Proof.
  unfold good_folders. rewrite live_folders_snoc, !fmap_app, !NoDup_app, Forall_app, Forall_singleton. cbn [fmap list_fmap].
  destruct (rfTombstone f); cbn [fmap list_fmap]; setoid_rewrite list_elem_of_singleton.
  - pose proof (NoDup_singleton (rfFolderID f)). pose proof (@NoDup_nil_2 string). setoid_rewrite elem_of_nil. naive_solver.
  - pose proof (NoDup_singleton (rfFolderID f)). pose proof (NoDup_singleton (fold_name f)). naive_solver.
Qed.

Definition folders_result (l : list ReducedFolderState) :
    list officialProjectionFolder * gmap string officialProjectionFolder * gmap string string :=
  (projected_folder repoDID <$> live_folders l, index_folders l, index_names l).
Lemma graph_folder_step l f t : good_folders l →
  graph_folder repoDID snapshotID (folders_result l) f = Ok t ↔ good_folders (l ++ [f]) ∧ t = folders_result (l ++ [f]).
Proof.
  intros Hl. rewrite good_folders_snoc. unfold folders_result, graph_folder. rewrite live_folders_snoc, fmap_app.
  destruct (_ || _) eqn:Hc; [split; [done|]; intros ((_ & Hf & _) & _); apply folder_checked in Hf; congruence|]. apply folder_checked in Hc.
  unfold index_names. rewrite live_folders_snoc, fold_left_app. unfold index_folders. rewrite fold_left_app. cbn [fold_left].
  pose proof (fold_left_insert_None rfFolderID (projected_folder repoDID) l (rfFolderID f)) as Hid.
  destruct (fold_left _ l ∅ !! rfFolderID f) as [x|]; cbn [is_some].
  { split; [done|]. intros ((_ & _ & Hout & _) & _). apply Hid in Hout. done. }
  apply proj1 in Hid. specialize (Hid eq_refl).
  destruct (rfTombstone f); cbn [fmap list_fmap fold_left]; [rewrite app_nil_r; split; [intros [= <-]; naive_solver|by intros [_ ->]]|].
  pose proof (fold_left_insert_None fold_name rfFolderID (live_folders l) (fold_name f)) as Hname.
  pose proof (fold_left_insert_lookup fold_name rfFolderID (live_folders l) (fold_name f)) as Hprior.
  cbv beta in Hname, Hprior |- *.
  revert Hname Hprior. generalize (fold_left (λ (m : gmap string string) a, <[strings_ToLower (rfName a):=rfFolderID a]> m) (live_folders l) ∅).
  intros names Hname Hprior. destruct (names !! strings_ToLower (rfName f)) as [prior|].
  - assert (prior ≠ rfFolderID f) as ->%String.eqb_neq.
    { intros ->. destruct (proj1 (Hprior (rfFolderID f) (proj2 (proj2 Hl))) eq_refl) as (g & Hg & _ & E).
      apply list_elem_of_filter in Hg as [_ Hg]. apply Hid. rewrite E. by apply list_elem_of_fmap_2. }
    cbn [negb]. split; [done|]. intros ((_ & _ & _ & Hout) & _). specialize (Hout eq_refl). apply Hname in Hout. done.
  - split; [intros [= <-]; split; [|done]; split; [done|]; split; [done|]; split; [done|]; intros _; by apply Hname|by intros [_ ->]].
Qed.
Lemma graph_folders_ok l t : range (graph_folder repoDID snapshotID) l ([], ∅, ∅) = Ok t ↔ good_folders l ∧ t = folders_result l.
Proof.
  apply (range_good _ good_folders folders_result).
  - repeat split; constructor.
  - intros l' a t'. apply graph_folder_step.
  - intros l' a. rewrite good_folders_snoc. tauto.
Qed.
End folders.

(** ** The messages *)

Lemma live_states_snoc l s : live_states (l ++ [s]) = live_states l ++ (if rsTombstone s then [] else [s]).
Proof. unfold live_states. rewrite filter_app, filter_cons, filter_nil. by destruct (rsTombstone s). Qed.
Lemma elem_of_live_states s l : s ∈ live_states l ↔ s ∈ l ∧ rsTombstone s = false.
Proof. unfold live_states. rewrite list_elem_of_filter. tauto. Qed.
Lemma elem_of_live_folders f l : f ∈ live_folders l ↔ f ∈ l ∧ rfTombstone f = false.
Proof. unfold live_folders. rewrite list_elem_of_filter. tauto. Qed.

Section messages.
Context (repoDID snapshotID : string) (folders : list ReducedFolderState) (Hids : NoDup (rfFolderID <$> folders)).
Notation byID := (index_folders repoDID folders).

Lemma folder_lookup k folder : byID !! k = Some folder ↔ ∃ f, f ∈ folders ∧ rfFolderID f = k ∧ folder = projected_folder repoDID f.
Proof. by apply fold_left_insert_lookup. Qed.
Lemma folder_live k : k ∈ rfFolderID <$> live_folders folders ↔ ∃ folder, byID !! k = Some folder ∧ rfTombstone (pfState folder) = false.
Proof.
  rewrite list_elem_of_fmap. split.
  - intros (f & -> & [Hf Ht]%elem_of_live_folders). exists (projected_folder repoDID f). split; [|done]. apply folder_lookup. by exists f.
  - intros (folder & (f & Hf & <- & ->)%folder_lookup & Ht). exists f. split; [done|]. by apply elem_of_live_folders.
Qed.

Lemma check_membership_ok ids : ∀ prior, (∀ p, prior = Some p → Forall (str_le p) ids) → StronglySorted str_le ids →
  check_membership byID prior ids = Ok tt ↔
  (∀ p, prior = Some p → p ∉ ids) ∧ NoDup ids ∧ ∀ f, f ∈ ids → f ∈ rfFolderID <$> live_folders folders.
Proof.
  induction ids as [|f ids IH]; intros prior Hp Hs; cbn [check_membership].
  { split; [|done]. intros _. split; [intros p _; apply not_elem_of_nil|]. split; [constructor|]. intros f Hf. by apply not_elem_of_nil in Hf. }
  apply StronglySorted_inv in Hs as [Hs Hf].
  destruct (bool_decide_reflect (prior = Some f)) as [->|Hne].
  { split; [done|]. intros (Hn & _ & _). destruct (Hn f eq_refl). by left. }
  pose proof (folder_live f) as Hlive. destruct (byID !! f) as [folder|] eqn:E; cbn [opt_result result_bind].
  2: { split; [done|]. intros (_ & _ & Hall). destruct (proj1 Hlive (Hall f ltac:(by left))) as (? & ? & _). congruence. }
  destruct (rfTombstone (pfState folder)) eqn:Et.
  { split; [done|]. intros (_ & _ & Hall). destruct (proj1 Hlive (Hall f ltac:(by left))) as (? & ? & ?). congruence. }
  rewrite IH; [|by intros ? [= <-]|done]. rewrite NoDup_cons. split.
  - intros (Hn & Hnd & Hall). specialize (Hn f eq_refl). split_and!; [|done..|].
    + intros p -> [->|Hin]%elem_of_cons; [done|]. specialize (Hp p eq_refl). apply Forall_cons in Hp as [Hpf _].
      rewrite Forall_forall in Hf. apply Hne. f_equal. apply (anti_symm str_le); [done|]. by apply Hf.
    + intros g [->|Hg]%elem_of_cons; [|by apply Hall]. apply Hlive. by exists folder.
  - intros (Hn & [Hout Hnd] & Hall). split_and!; [by intros ? [= <-]|done|]. intros g Hg. apply Hall. by right.
Qed.

Lemma check_sorted ids : check_membership byID None (sort_strings ids) = Ok tt ↔
  NoDup ids ∧ ∀ f, f ∈ ids → f ∈ rfFolderID <$> live_folders folders.
Proof.
  rewrite check_membership_ok; [|done|apply sort_strings_sorted]. rewrite (NoDup_Permutation_proper _ _ (sort_strings_perm ids)).
  setoid_rewrite (sort_strings_perm ids). naive_solver.
Qed.

Definition live_groups (states : list ReducedState) : list (string * ReducedState) :=
  List.flat_map (λ s, List.map (λ f, (f, sorted_state s)) (rsMailboxIDs (sorted_state s))) (live_states states).
Definition index_selected (states : list ReducedState) : gmap string officialProjectionState :=
  fold_left (λ m s, <[rsVersion s := MkOfficialState (sorted_state s) ∅]> m) (live_states states) ∅.
Definition seen_logical (states : list ReducedState) : gset string :=
  fold_left (λ seen s, {[rsLogicalMessageID s]} ∪ seen) states ∅.
Definition messages_result (states : list ReducedState) : message_scan :=
  MkMessageScan (seen_logical states) (index_selected states) (fold_left push (live_groups states) ∅)
    (Z.of_nat (List.length (live_states states))) (Z.of_nat (List.length states - List.length (live_states states))).
Definition good_messages (states : list ReducedState) : Prop :=
  Forall (message_fits snapshotID) states ∧ NoDup (rsLogicalMessageID <$> states) ∧
  Forall (live_fits folders) (live_states states) ∧ NoDup (rsVersion <$> live_states states).

Lemma elem_of_seen_logical x states : x ∈ seen_logical states ↔ x ∈ rsLogicalMessageID <$> states.
Proof.
  induction states as [|s states IH] using rev_ind; [unfold seen_logical; cbn; set_solver|].
  unfold seen_logical in *. rewrite fold_left_app, fmap_app, elem_of_app. cbn [fold_left fmap list_fmap]. rewrite list_elem_of_singleton. set_solver.
Qed.
Lemma good_messages_snoc l s : good_messages (l ++ [s]) ↔ good_messages l ∧ message_fits snapshotID s ∧
  rsLogicalMessageID s ∉ rsLogicalMessageID <$> l ∧
  (rsTombstone s = false → live_fits folders s ∧ rsVersion s ∉ rsVersion <$> live_states l).
Proof.
  unfold good_messages. rewrite live_states_snoc, !fmap_app, !NoDup_app, !Forall_app, Forall_singleton. cbn [fmap list_fmap].
  pose proof (NoDup_singleton (rsLogicalMessageID s)). pose proof (NoDup_singleton (rsVersion s)). pose proof (@NoDup_nil_2 string).
  destruct (rsTombstone s); cbn [fmap list_fmap]; rewrite ?Forall_singleton; setoid_rewrite list_elem_of_singleton.
  - pose proof (Forall_nil_2 (live_fits folders)). setoid_rewrite elem_of_nil. naive_solver.
  - naive_solver.
Qed.

Lemma message_checked s :
  (negb (validOfficialDigest (rsLogicalMessageID s)) || negb (String.eqb (rsSnapshotID s) snapshotID) ||
    negb (validOfficialDigest (rsStateDigest s)) || (rsHeight s =? 0)) = false ↔ message_fits snapshotID s.
Proof. unfold message_fits. rewrite !orb_false_iff, !negb_false_iff, String.eqb_eq, N.eqb_neq. tauto. Qed.
Lemma live_length l : (List.length (live_states l) <= List.length l)%nat.
Proof. apply length_filter. Qed.

Lemma graph_message_step l s t : good_messages l →
  graph_message snapshotID byID (messages_result l) s = Ok t ↔ good_messages (l ++ [s]) ∧ t = messages_result (l ++ [s]).
Proof.
  intros Hl. rewrite good_messages_snoc. unfold graph_message. cbn [messages_result mcLogical mcSelected mcByFolder mcLive mcDeletes].
  destruct (_ || _) eqn:Hc; [split; [done|]; intros ((_ & Hf & _) & _); apply message_checked in Hf; congruence|]. apply message_checked in Hc.
  destruct (bool_decide_reflect (rsLogicalMessageID s ∈ seen_logical l)) as [Hin|Hout]; rewrite elem_of_seen_logical in *.
  { split; [done|]. by intros ((_ & _ & Hn & _) & _). }
  unfold messages_result, index_selected, live_groups. rewrite live_states_snoc.
  replace (seen_logical (l ++ [s])) with ({[rsLogicalMessageID s]} ∪ seen_logical l) by (unfold seen_logical; by rewrite fold_left_app).
  pose proof (live_length l) as Hlen. rewrite !length_app, flat_map_app, !fold_left_app. destruct (rsTombstone s) eqn:Et; cbn [fold_left List.flat_map List.length].
  { split.
    - intros [= <-]. split; [done|]. f_equal; lia.
    - intros [_ ->]. f_equal. f_equal; lia. }
  unfold live_fits. destruct (validOfficialDigest (rsVersion s)); cbn [negb orb]; [|split; [done|]; by intros ((_ & _ & _ & Hlf) & _); destruct (Hlf eq_refl) as [[? _] _]].
  assert (Hempty : (llen (rsMailboxIDs s) =? 0) = true ↔ rsMailboxIDs s = []) by (unfold llen; rewrite N.eqb_eq; destruct (rsMailboxIDs s); cbn; naive_solver lia).
  destruct (llen (rsMailboxIDs s) =? 0).
  { split; [done|]. intros ((_ & _ & _ & Hlf) & _). by destruct (Hlf eq_refl) as [(_ & Hne & _) _]; destruct Hne; apply Hempty. }
  assert (rsMailboxIDs s ≠ []) as Hne by (intros E; by apply Hempty in E). clear Hempty.
  pose proof (check_sorted (rsMailboxIDs s)) as Hcheck. cbn [sorted_state rsMailboxIDs].
  destruct (check_membership _ _ _) as [[]|]; cbn [result_bind].
  2: { split; [done|]. intros ((_ & _ & _ & Hlf) & _). destruct (Hlf eq_refl) as [(_ & _ & Hin) _]. discriminate (proj2 Hcheck Hin). }
  pose proof (proj1 Hcheck eq_refl) as [Hnd Hall]. rewrite app_nil_r.
  pose proof (fold_left_insert_None rsVersion (λ s, MkOfficialState (sorted_state s) ∅) (live_states l) (rsVersion s)) as Hver.
  cbv beta in Hver. revert Hver. generalize (fold_left (λ (m : gmap string officialProjectionState) a, <[rsVersion a:=MkOfficialState (sorted_state a) ∅]> m) (live_states l) ∅).
  intros selected Hver. destruct (selected !! rsVersion s) as [x|] eqn:Ex; cbn [is_some].
  { split; [done|]. intros ((_ & _ & _ & Hlf) & _). destruct (Hlf eq_refl) as [_ Hout']. apply Hver in Hout'. cbv beta in Hout'. congruence. }
  apply proj1 in Hver. specialize (Hver eq_refl). split.
  - intros [= <-]. split; [naive_solver|]. f_equal; lia.
  - intros [_ ->]. f_equal. f_equal; lia.
Qed.
Lemma graph_messages_ok l t :
  range (graph_message snapshotID byID) l (MkMessageScan ∅ ∅ ∅ 0 0) = Ok t ↔ good_messages l ∧ t = messages_result l.
Proof.
  apply (range_good _ good_messages messages_result).
  - repeat split; constructor.
  - intros l' a t'. apply graph_message_step.
  - intros l' a. rewrite good_messages_snoc. tauto.
Qed.
End messages.

(** ** The UIDs *)

Lemma uid_le_ne a b : rsLogicalMessageID a ≠ rsLogicalMessageID b → uid_le a b ↔ str_lt (rsLogicalMessageID a) (rsLogicalMessageID b).
Proof.
  intros Hne. unfold uid_le. rewrite (proj2 (String.eqb_neq _ _) Hne), str_le_lt. split; [intros [?|?]; [done|by destruct Hne]|by left].
Qed.
Lemma str_lt_not_le a b : str_lt a b → ¬ str_le b a.
Proof. intros Hlt Hle. apply str_le_lt in Hle as [Hle| ->]; [by apply (irreflexivity str_lt a), (str_lt_trans a b a)|by apply (irreflexivity str_lt a)]. Qed.
#[export] Instance uid_le_total : Total uid_le.
Proof.
  intros a b. unfold uid_le. rewrite (String.eqb_sym (rsLogicalMessageID b)). destruct (String.eqb _ _); apply (total str_le).
Qed.
#[export] Instance uid_le_trans : Transitive uid_le.
Proof.
  intros a b c. unfold uid_le.
  destruct (String.eqb_spec (rsLogicalMessageID a) (rsLogicalMessageID b)) as [Eab|Nab],
    (String.eqb_spec (rsLogicalMessageID b) (rsLogicalMessageID c)) as [Ebc|Nbc].
  - rewrite Eab, Ebc, String.eqb_refl. apply transitivity.
  - rewrite Eab. apply String.eqb_neq in Nbc as ->. done.
  - rewrite <- Ebc. apply String.eqb_neq in Nab as ->. done.
  - intros Hab Hbc. destruct (String.eqb_spec (rsLogicalMessageID a) (rsLogicalMessageID c)) as [E|_]; [|by transitivity (rsLogicalMessageID b)].
    destruct Nab. apply (anti_symm str_le); [done|by rewrite E].
Qed.

(** In a sorted list the position of a state is the number of the states before it. *)
Lemma sorted_rank l k x : StronglySorted uid_le l → NoDup (rsLogicalMessageID <$> l) → l !! k = Some x →
  List.length (filter (λ y, str_lt (rsLogicalMessageID y) (rsLogicalMessageID x)) l) = k.
Proof.
  revert k. induction l as [|a l IH]; intros k Hs Hnd Hk; [done|]. rewrite fmap_cons, NoDup_cons in Hnd. destruct Hnd as [Ha Hnd].
  apply StronglySorted_inv in Hs as [Hs Hf]. rewrite Forall_forall in Hf. rewrite filter_cons.
  assert (Hlt : ∀ y, y ∈ l → str_lt (rsLogicalMessageID a) (rsLogicalMessageID y)).
  { intros y Hy. apply uid_le_ne; [|by apply Hf]. intros E. apply Ha. rewrite E. by apply list_elem_of_fmap_2. }
  destruct k as [|k].
  - injection Hk as <-. rewrite decide_False by apply (irreflexivity str_lt).
    assert (Hnil : filter (λ y, str_lt (rsLogicalMessageID y) (rsLogicalMessageID a)) l = []); [|by rewrite Hnil].
    apply elem_of_nil_inv. intros y Hy. apply list_elem_of_filter in Hy as [Hya Hy].
    apply (irreflexivity str_lt (rsLogicalMessageID a)). eapply str_lt_trans; [by apply Hlt|done].
  - cbn [lookup list_lookup] in Hk. rewrite decide_True by (apply Hlt; by eapply list_elem_of_lookup_2). cbn [List.length]. f_equal. by apply IH.
Qed.

Lemma give_uids_state folderID states : ∀ i selected v,
  (∀ p, selected !! v = Some p → ∃ p', give_uids folderID i states selected !! v = Some p' ∧ psState p' = psState p ∧
    (∀ f, f ≠ folderID → psUIDs p' !! f = psUIDs p !! f) ∧ (v ∉ rsVersion <$> states → p' = p) ∧
    (∀ k s, NoDup (rsVersion <$> states) → states !! k = Some s → rsVersion s = v →
       psUIDs p' !! folderID = Some (u32 (N.of_nat (i + k) + 1)))) ∧
  (selected !! v = None → give_uids folderID i states selected !! v = None).
Proof.
  induction states as [|s states IH]; intros i selected v; cbn [give_uids].
  { split; [|done]. intros p Hp. exists p. split_and!; try done. }
  specialize (IH (S i) (give_uid folderID selected i s) v). unfold give_uid at 1 3 in IH. rewrite fmap_cons.
  destruct (decide (rsVersion s = v)) as [<-|Hv].
  - rewrite lookup_alter_eq in IH. destruct IH as [IH1 IH2]. split; [|intros Hn; apply IH2; by rewrite Hn].
    intros p Hp. rewrite Hp in IH1. destruct (IH1 _ eq_refl) as (p' & Hp' & Hst & Hother & Hout & Hin). exists p'. cbn [psState psUIDs set_uid] in *.
    split_and!; try done.
    + intros f Hf. rewrite Hother by done. by rewrite lookup_insert_ne.
    + intros Hn. destruct Hn. by left.
    + intros [|k] s' [Hns Hnd]%NoDup_cons Hk Hs'.
      * rewrite (Hout Hns). cbn. rewrite lookup_insert_eq. by rewrite Nat.add_0_r.
      * cbn in Hk. destruct Hns. rewrite <- Hs'. apply list_elem_of_fmap_2. by eapply list_elem_of_lookup_2.
  - rewrite lookup_alter_ne in IH by done. destruct IH as [IH1 IH2]. split; [|done].
    intros p Hp. destruct (IH1 _ Hp) as (p' & Hp' & Hst & Hother & Hout & Hin). exists p'. split_and!; try done.
    + intros Hn. apply Hout. intros Hin'. apply Hn. by right.
    + intros [|k] s' [Hns Hnd]%NoDup_cons Hk Hs'; cbn in Hk; [congruence|].
      rewrite (Hin k s' Hnd Hk Hs'). f_equal. f_equal. lia.
Qed.

Lemma folder_uids_state groups : NoDup groups.*1 → ∀ selected v,
  (∀ g, g ∈ groups → NoDup (rsVersion <$> g.2)) →
  (∀ p, selected !! v = Some p → ∃ p', fold_left folder_uids groups selected !! v = Some p' ∧ psState p' = psState p ∧
    (∀ f, (∀ g, g ∈ groups → g.1 = f → v ∉ rsVersion <$> g.2) → psUIDs p' !! f = psUIDs p !! f) ∧
    (∀ g k s, g ∈ groups → merge_sort uid_le g.2 !! k = Some s → rsVersion s = v → psUIDs p' !! g.1 = Some (u32 (N.of_nat k + 1)))) ∧
  (selected !! v = None → fold_left folder_uids groups selected !! v = None).
Proof.
  induction groups as [|g groups IH]; intros Hnd selected v Hg; cbn [fold_left].
  { split; [|done]. intros p Hp. exists p. split_and!; try done. intros g k s Hg'. by apply not_elem_of_nil in Hg'. }
  rewrite fmap_cons, NoDup_cons in Hnd. destruct Hnd as [Hout Hnd].
  destruct (IH Hnd (folder_uids selected g) v ltac:(intros g' Hg'; apply Hg; by right)) as [IH1 IH2].
  destruct (give_uids_state g.1 (merge_sort uid_le g.2) 0 selected v) as [H1 H2].
  pose proof (merge_sort_Permutation uid_le g.2) as Hperm.
  split; [|by intros Hn%H2; apply IH2]. intros p Hp. destruct (H1 p Hp) as (q & Hq & Hqs & Hqo & Hqn & Hqi).
  destruct (IH1 q Hq) as (p' & Hp' & Hs & Ho & Hi). exists p'. split_and!; [done|congruence| |].
  - intros f Hf. rewrite Ho by (intros g' Hg'; apply Hf; by right). destruct (decide (f = g.1)) as [->|Hne]; [|by apply Hqo].
    rewrite Hqn; [done|]. rewrite Hperm. apply Hf; [by left|done].
  - intros g' k s [->|Hg']%elem_of_cons Hk Hs'; [|by eapply Hi].
    rewrite Ho.
    + rewrite (Hqi k s); [done| |done..]. rewrite Hperm. apply Hg. by left.
    + intros g' Hg' E. destruct Hout. rewrite <- E. by apply list_elem_of_fmap_2.
Qed.

(** ** The contract of the graph *)

Record graph_of (repoDID : string) (folders : list ReducedFolderState) (states : list ReducedState)
    (g : officialProjectionGraph) : Prop := {
  gf_folders : pgFolders g = sort_by folder_id (projected_folder repoDID <$> live_folders folders);
  gf_index k folder : pgFolderByID g !! k = Some folder ↔ ∃ f, f ∈ folders ∧ rfFolderID f = k ∧ folder = projected_folder repoDID f;
  gf_selected v p : pgSelected g !! v = Some p ↔ ∃ s, s ∈ live_states states ∧ rsVersion s = v ∧ psState p = sorted_state s ∧
    ∀ f, psUIDs p !! f = if decide (f ∈ rsMailboxIDs s) then Some (u32 (uid_rank states f s)) else None;
  gf_live : pgLiveStates g = Z.of_nat (List.length (live_states states));
  gf_deletes : pgMessageDeletes g = Z.of_nat (List.length states - List.length (live_states states))
}.

Section uids.
Context (folders : list ReducedFolderState) (states : list ReducedState).
Context (Hlogical : NoDup (rsLogicalMessageID <$> states)) (Hversions : NoDup (rsVersion <$> live_states states)).
Context (Hboxes : Forall (λ s, NoDup (rsMailboxIDs s)) (live_states states)).

Lemma fmap_filter_nodup {A B} (f : A → B) (P : A → Prop) `{∀ x, Decision (P x)} l : NoDup (f <$> l) → NoDup (f <$> filter P l).
Proof.
  induction l as [|a l IH]; [done|]. rewrite fmap_cons, filter_cons. intros [Ha Hl]%NoDup_cons. destruct (decide (P a)); [|by apply IH].
  rewrite fmap_cons. apply NoDup_cons. split; [|by apply IH]. intros (b & E & [_ Hb]%list_elem_of_filter)%list_elem_of_fmap.
  apply Ha. rewrite E. by apply list_elem_of_fmap_2.
Qed.

Lemma members_of_key (f : string) (l : list ReducedState) : Forall (λ s, NoDup (rsMailboxIDs s)) l →
  of_key f (List.flat_map (λ s, List.map (λ g, (g, sorted_state s)) (rsMailboxIDs (sorted_state s))) l) =
  sorted_state <$> filter (λ s, f ∈ rsMailboxIDs s) l.
Proof.
  induction l as [|s l IH]; [done|]. intros [Hs Hl]%Forall_cons. cbn [List.flat_map]. rewrite filter_cons.
  unfold of_key in *. rewrite filter_app, fmap_app, IH by done.
  assert (Hone : ∀ fs, NoDup fs → (filter (λ kx : string * ReducedState, kx.1 = f) (List.map (λ g, (g, sorted_state s)) fs)).*2 =
    if decide (f ∈ fs) then [sorted_state s] else []).
  { clear. induction fs as [|g fs IH]; [done|]. intros [Hg Hfs]%NoDup_cons. cbn [List.map]. rewrite filter_cons. cbn [fst].
    destruct (decide (g = f)) as [->|Hne].
    - rewrite fmap_cons, IH by done. rewrite decide_False by done. by rewrite decide_True by (by left).
    - rewrite IH by done. destruct (decide (f ∈ fs)); [by rewrite decide_True by (by right)|].
      rewrite decide_False; [done|]. intros [->|?]%elem_of_cons; done. }
  rewrite Hone; [|cbn [sorted_state rsMailboxIDs]; by rewrite sort_strings_perm].
  cbn [sorted_state rsMailboxIDs]. destruct (decide (f ∈ rsMailboxIDs s)) as [Hf|Hf].
  - rewrite decide_True by (by rewrite sort_strings_perm). done.
  - rewrite decide_False by (by rewrite sort_strings_perm). done.
Qed.

Lemma group_lookup f g : (f, g) ∈ map_to_list (fold_left push (live_groups states) ∅) →
  g = sorted_state <$> filter (λ s, f ∈ rsMailboxIDs s) (live_states states).
Proof.
  intros Hg%elem_of_map_to_list. rewrite <- members_of_key by done. pose proof (push_default (live_groups states) f) as E. by rewrite Hg in E.
Qed.
Lemma group_exists f s : s ∈ live_states states → f ∈ rsMailboxIDs s → ∃ g, (f, g) ∈ map_to_list (fold_left push (live_groups states) ∅).
Proof.
  intros Hs Hf. assert (is_Some (fold_left push (live_groups states) ∅ !! f)) as [g Hg].
  { apply push_dom, list_elem_of_fmap. exists (f, sorted_state s). split; [done|]. apply list_elem_of_In, in_flat_map.
    exists s. split; [by apply list_elem_of_In|]. apply list_elem_of_In, list_elem_of_fmap. exists f. split; [done|].
    cbn [sorted_state rsMailboxIDs]. by rewrite sort_strings_perm. }
  exists g. by apply elem_of_map_to_list.
Qed.

(** The rank among the members of a folder, in the sorted group. *)
Lemma group_rank f s k : s ∈ live_states states → f ∈ rsMailboxIDs s →
  merge_sort uid_le (sorted_state <$> filter (λ s, f ∈ rsMailboxIDs s) (live_states states)) !! k = Some (sorted_state s) →
  1 + N.of_nat k = uid_rank states f s.
Proof.
  intros Hs Hf Hk. set (l := sorted_state <$> _) in *.
  assert (Hperm : merge_sort uid_le l ≡ₚ l) by apply merge_sort_Permutation.
  assert (Hnd : NoDup (rsLogicalMessageID <$> l)).
  { unfold l. rewrite <- list_fmap_compose. apply (fmap_filter_nodup rsLogicalMessageID), fmap_filter_nodup. done. }
  apply sorted_rank in Hk; [|apply StronglySorted_merge_sort; apply _|by rewrite Hperm].
  rewrite <- Hk, Hperm. unfold uid_rank, llen, l. do 2 f_equal. clear. cbn [sorted_state rsLogicalMessageID].
  generalize (live_states states) as ls. induction ls as [|t ls IH]; [done|]. rewrite !filter_cons.
  destruct (decide (f ∈ rsMailboxIDs t)) as [Ht|Ht].
  - rewrite fmap_cons, filter_cons. cbn [sorted_state rsLogicalMessageID].
    destruct (decide (str_lt (rsLogicalMessageID t) (rsLogicalMessageID s))) as [Hl|Hl];
      [rewrite decide_True by done; cbn [List.length]; by rewrite IH|by rewrite decide_False by tauto].
  - by rewrite decide_False by tauto.
Qed.
End uids.

Section contract.
Context `{LowerTable}.

Definition selected_of (states : list ReducedState) : gmap string officialProjectionState :=
  fold_left folder_uids (map_to_list (fold_left push (live_groups states) ∅)) (index_selected states).
Definition built_graph (repoDID : string) (folders : list ReducedFolderState) (states : list ReducedState) : officialProjectionGraph :=
  MkOfficialGraph (sort_by folder_id (projected_folder repoDID <$> live_folders folders)) (index_folders repoDID folders)
    (selected_of states) (Z.of_nat (List.length (live_states states)))
    (Z.of_nat (List.length states - List.length (live_states states))).

Lemma consistent_good snapshotID folders states : consistent snapshotID folders states ↔
  good_folders snapshotID folders ∧ good_messages snapshotID folders states.
Proof. split; [intros []; by unfold good_folders, good_messages|]. intros [(? & ? & ?) (? & ? & ? & ?)]. by split. Qed.

Lemma build_ok summary folders states g :
  buildOfficialProjectionGraph summary folders states = Ok g ↔
  consistent (smSnapshotID summary) folders states ∧ g = built_graph (otRepoDID (smTarget summary)) folders states.
Proof.
  set (repoDID := otRepoDID (smTarget summary)). set (snapshotID := smSnapshotID summary). rewrite consistent_good.
  unfold buildOfficialProjectionGraph. fold repoDID snapshotID.
  pose proof (graph_folders_ok repoDID snapshotID folders) as Hf. destruct (range (graph_folder _ _) folders _) as [r|]; cbn [result_bind].
  2: { split; [done|]. intros [[Hg _] _]. discriminate (proj2 (Hf _) (conj Hg eq_refl)). }
  destruct (proj1 (Hf r) eq_refl) as [Hgf ->]. unfold folders_result.
  pose proof (graph_messages_ok repoDID snapshotID folders (proj1 (proj2 Hgf)) states) as Hm.
  destruct (range (graph_message _ _) states _) as [r|]; cbn [result_bind].
  2: { split; [done|]. intros [[_ Hg] _]. discriminate (proj2 (Hm _) (conj Hg eq_refl)). }
  destruct (proj1 (Hm r) eq_refl) as [Hgm ->]. split; [intros [= <-]; done|by intros [_ ->]].
Qed.

Lemma selected_uids states s : NoDup (rsLogicalMessageID <$> states) → NoDup (rsVersion <$> live_states states) →
  Forall (λ s, NoDup (rsMailboxIDs s)) (live_states states) → s ∈ live_states states →
  ∃ p, selected_of states !! rsVersion s = Some p ∧ psState p = sorted_state s ∧
    ∀ f, psUIDs p !! f = if decide (f ∈ rsMailboxIDs s) then Some (u32 (uid_rank states f s)) else None.
Proof.
  intros Hl Hv Hb Hs. set (groups := map_to_list (fold_left push (live_groups states) ∅)).
  assert (Hgroup : ∀ g, g ∈ groups → g.2 = sorted_state <$> filter (λ s, g.1 ∈ rsMailboxIDs s) (live_states states)).
  { intros [f g] Hg. by apply (group_lookup _ Hb). }
  assert (Hnv : ∀ g, g ∈ groups → NoDup (rsVersion <$> g.2)).
  { intros g Hg. rewrite (Hgroup g Hg), <- list_fmap_compose. by apply (fmap_filter_nodup rsVersion). }
  destruct (folder_uids_state groups (NoDup_fst_map_to_list _) (index_selected states) (rsVersion s) Hnv) as [H1 _].
  destruct (H1 (MkOfficialState (sorted_state s) ∅)) as (p & Hp & Hst & Hother & Hin).
  { apply (fold_left_insert_lookup rsVersion); [done|]. by exists s. }
  exists p. split; [done|]. split; [done|]. intros f. destruct (decide (f ∈ rsMailboxIDs s)) as [Hf|Hf].
  - destruct (group_exists states f s Hs Hf) as [g Hg]. pose proof (Hgroup _ Hg) as Eg. cbn [fst snd] in Eg.
    assert (Hsg : sorted_state s ∈ merge_sort uid_le g).
    { rewrite merge_sort_Permutation, Eg. apply list_elem_of_fmap_2, list_elem_of_filter. done. }
    apply list_elem_of_lookup_1 in Hsg as [k Hk]. pose proof (Hin (f, g) k (sorted_state s) Hg Hk eq_refl) as Hu.
    cbn [fst] in Hu. rewrite Hu. rewrite Eg in Hk.
    rewrite <- (group_rank states Hl f s k Hs Hf Hk). f_equal. f_equal. lia.
  - rewrite Hother; [done|]. intros g Hg Ef Hin'. rewrite (Hgroup g Hg), <- list_fmap_compose in Hin'.
    apply list_elem_of_fmap in Hin' as (t & Et & [Htf Ht]%list_elem_of_filter). cbn in Et.
    assert (t = s) as -> by (by apply (key_inj rsVersion (live_states states))). by rewrite Ef in Htf.
Qed.
Lemma selected_none states v : v ∉ rsVersion <$> live_states states → Forall (λ s, NoDup (rsMailboxIDs s)) (live_states states) →
  NoDup (rsVersion <$> live_states states) → selected_of states !! v = None.
Proof.
  intros Hout Hb Hv.
  destruct (folder_uids_state (map_to_list (fold_left push (live_groups states) ∅)) (NoDup_fst_map_to_list _) (index_selected states) v) as [_ H2].
  { intros [f g] Hg. rewrite (group_lookup _ Hb f g Hg). cbn [snd]. rewrite <- list_fmap_compose. by apply (fmap_filter_nodup rsVersion). }
  apply H2. by apply (fold_left_insert_None rsVersion).
Qed.

Lemma built_graph_of snapshotID repoDID folders states : consistent snapshotID folders states →
  graph_of repoDID folders states (built_graph repoDID folders states).
Proof.
  intros [Hf Hid Hn Hm Hl Hlive Hv].
  assert (Hb : Forall (λ s, NoDup (rsMailboxIDs s)) (live_states states)) by (eapply Forall_impl; [exact Hlive|]; by intros s (_ & _ & ? & _)).
  split; cbn [built_graph pgFolders pgFolderByID pgSelected pgLiveStates pgMessageDeletes]; try done.
  - intros k folder. by apply folder_lookup.
  - intros v p. split.
    + intros Hp. destruct (decide (v ∈ rsVersion <$> live_states states)) as [Hin|Hout].
      * apply list_elem_of_fmap in Hin as (s & -> & Hs). exists s. destruct (selected_uids states s Hl Hv Hb Hs) as (p' & Hp' & ? & ?).
        assert (p' = p) as -> by congruence. done.
      * pose proof (selected_none states v Hout Hb Hv). congruence.
    + intros (s & Hs & <- & Hst & Hu). destruct (selected_uids states s Hl Hv Hb Hs) as (p' & -> & Hst' & Hu').
      f_equal. destruct p as [st uids], p' as [st' uids']. cbn in *. f_equal; [congruence|]. apply map_eq. intros f. by rewrite Hu, Hu'.
Qed.

(** The messages of a folder have different ranks, of at most their number. *)
Lemma uid_rank_lt states f s t : s ∈ live_states states → f ∈ rsMailboxIDs s →
  str_lt (rsLogicalMessageID s) (rsLogicalMessageID t) → uid_rank states f s < uid_rank states f t.
Proof.
  intros Hs Hf Hlt. unfold uid_rank, llen.
  assert (Hsub : s :: filter (λ x, f ∈ rsMailboxIDs x ∧ str_lt (rsLogicalMessageID x) (rsLogicalMessageID s)) (live_states states) ⊆+
    filter (λ x, f ∈ rsMailboxIDs x ∧ str_lt (rsLogicalMessageID x) (rsLogicalMessageID t)) (live_states states)).
  { apply elem_of_Permutation in Hs as [rest ->]. rewrite !filter_cons.
    rewrite decide_False by (intros [_ Hi]; by apply (irreflexivity str_lt) in Hi). rewrite decide_True by done.
    apply submseteq_skip. clear -Hlt. induction rest as [|x l IH]; [done|]. rewrite !filter_cons. destruct (decide _) as [[? ?]|Hn].
    - rewrite decide_True by (split; [done|by eapply str_lt_trans]). by apply submseteq_skip.
    - destruct (decide (f ∈ rsMailboxIDs x ∧ _)); [by apply submseteq_cons|done]. }
  apply submseteq_length in Hsub. cbn [List.length] in Hsub. lia.
Qed.
Lemma str_lt_total a b : a ≠ b → str_lt a b ∨ str_lt b a.
Proof. intros Hne. destruct (total str_le a b) as [H1|H1]; apply str_le_lt in H1 as [?| ->]; auto; by destruct Hne. Qed.
Lemma uid_rank_inj states f s t : NoDup (rsLogicalMessageID <$> states) → s ∈ live_states states → t ∈ live_states states →
  f ∈ rsMailboxIDs s → f ∈ rsMailboxIDs t → uid_rank states f s = uid_rank states f t → s = t.
Proof.
  intros Hl Hs Ht Hfs Hft E. apply elem_of_live_states in Hs as Hs', Ht as Ht'.
  apply (key_inj rsLogicalMessageID states); [done|tauto|tauto|].
  destruct (decide (rsLogicalMessageID s = rsLogicalMessageID t)) as [|Hne]; [done|].
  destruct (str_lt_total _ _ Hne) as [Hlt|Hlt]; [pose proof (uid_rank_lt states f s t)|pose proof (uid_rank_lt states f t s)]; intuition lia.
Qed.
Lemma uid_rank_bounds states f s : s ∈ live_states states → 1 ≤ uid_rank states f s ≤ llen (live_states states).
Proof.
  intros Hs. unfold uid_rank, llen. apply elem_of_Permutation in Hs as [rest ->]. rewrite filter_cons.
  rewrite decide_False by (intros [_ Hi]; by apply (irreflexivity str_lt) in Hi). cbn [List.length].
  pose proof (length_filter (λ t, f ∈ rsMailboxIDs t ∧ str_lt (rsLogicalMessageID t) (rsLogicalMessageID s)) rest). lia.
Qed.
End contract.

(** C13. The graph of an official projection: [buildOfficialProjectionGraph] accepts exactly the
    consistent states. Its folders are then the live ones in order, every folder is indexed, the
    selected versions are those of the live messages with their folders and keywords in order,
    the UIDs of a message are its ranks in its folders, and two messages of a folder never have
    the same rank. *)
Theorem graph_contract `{Syntax} `{LowerTable} (summary : ContentVerificationSummary) (folders : list ReducedFolderState)
    (states : list ReducedState) :
  match buildOfficialProjectionGraph summary folders states with
  | Ok g => consistent (smSnapshotID summary) folders states ∧ graph_of (otRepoDID (smTarget summary)) folders states g ∧
      ∀ f s t, s ∈ live_states states → t ∈ live_states states → f ∈ rsMailboxIDs s → f ∈ rsMailboxIDs t →
        uid_rank states f s = uid_rank states f t → s = t
  | Err _ => ¬ consistent (smSnapshotID summary) folders states
  end.
Proof.
  pose proof (build_ok summary folders states) as Hb. destruct (buildOfficialProjectionGraph summary folders states) as [g|e].
  - destruct (proj1 (Hb g) eq_refl) as [Hc ->]. split; [exact Hc|]. split; [exact (built_graph_of _ _ _ _ Hc)|].
    intros f s t. apply uid_rank_inj, (cn_logical _ _ _ Hc).
  - intros Hc. discriminate (proj2 (Hb _) (conj Hc eq_refl)).
Qed.
