(* ===== verification/OfficialRebuild.v ===== *)
(** * What an official projection holds

    The database that [rebuildOfficialSpaces] commits is a function of the reduced states and the
    messages of its source, and the rebuild succeeds exactly when these are consistent. *)
From S2P Require Import Prelude Sha256 GoStd Syntax Unicode Json Url Mailbox Repository Canonical Revision FolderRevision.
From S2P Require Import Ipld SpacesWire Recovery Reduction Recovered Content Projection Identities Projected OfficialProjection OfficialGraph.

(** ** What the rebuild relies on *)

(** What is executed on a handle; nothing else is said of the files. *)
Class LogLaws (W : Type) `{Files W} : Prop := {
  log_Lstat path w r w' : Lstat path w = (r, w') → w' = w;
  log_Open path w db w' : db_Open path w = (Ok db, w') → executed w' db = [];
  log_Exec db st w w' : db_Exec db st w = (Ok tt, w') → executed w' db = executed w db ++ [st];
  log_Close db w r w' : db_Close db w = (r, w') → executed w' db = executed w db;
  log_Chmod path w r w' db : Chmod path w = (r, w') → executed w' db = executed w db
}.
#[export] Instance files_log {W} `{Repository W} `{Files W} `{!FilesLaws W} : LogLaws W.
Proof.
  split.
  - apply Lstat_keeps.
  - intros path w db w' E. by apply db_Open_fresh in E as [? _].
  - intros db st w w' E. by apply db_Exec_done in E as [? _].
  - apply db_Close_keeps.
  - apply Chmod_keeps.
Qed.
Class ReliableNew (W : Type) `{Files W} `{NewFiles W} : Prop := {
  OpenNew_works path w : (Lstat path w).1 = Ok false → ∃ file w', OpenNew path w = (Ok file, w');
  CloseFile_works file w : ∃ w', CloseFile file w = (Ok tt, w')
}.

(** A source that holds these messages and hands out each of them, in order, until a callback fails. *)
Fixpoint visit_all {S} (step : MessageVersion → string → S → result unit * S) (held : list (MessageVersion * string)) (s : S) :
    result unit * S :=
  match held with
  | [] => (Ok tt, s)
  | (version, raw) :: rest =>
      match step version raw s with (Ok _, s) => visit_all step rest s | (Err e, s) => (Err e, s) end
  end.
Record serves {X} `{ProjectionSource X} (x : X) (held : list (MessageVersion * string)) : Prop := {
  sv_seal : src_ValidateSeal x = Ok tt;
  sv_visit S (step : MessageVersion → string → S → result unit * S) (s : S) :
    ∃ r, src_VisitMessages (λ version raw, beside (step version raw)) background (x, s) = (r, (x, (visit_all step held s).2)) ∧
      is_ok r = is_ok (visit_all step held s).1
}.

(** ** The contract *)

Definition version_key (m : MessageVersion * string) : string := mvRKey m.1.
Section contract.
Context `{Syntax} `{LowerTable}.

Record projectable_source {X} `{ProjectionSource X} (x : X) (held : list (MessageVersion * string)) : Prop := {
  ps_summary : validateOfficialSummary (src_Summary x) (target_of (smTarget (src_Summary x))) = Ok tt;
  ps_consistent : consistent (smSnapshotID (src_Summary x)) (src_Folders x) (src_MessageStates x);
  ps_stored : Forall (λ m, ValidateStoredMessage (otRepoDID (smTarget (src_Summary x))) (version_key m) (mvRecord m.1) m.2 = Ok tt) held;
  ps_keys : NoDup (version_key <$> held);
  ps_count : llen held = smMessageVersions (src_Summary x);
  ps_selected s : s ∈ live_states (src_MessageStates x) → ∃ m, m ∈ held ∧ version_key m = rsVersion s ∧
    mrLogicalMessageID (mvRecord m.1) = rsLogicalMessageID s
}.

Definition held_rows (g : officialProjectionGraph) (m : MessageVersion * string) : list statement :=
  match pgSelected g !! version_key m with
  | Some selected =>
      InsertMessage (official_row m.1 m.2 selected) ::
      List.map (insert_membership (version_key m)) (official_memberships (pgFolderByID g) selected)
  | None => []
  end.
Definition official_log (target : Target) (g : officialProjectionGraph) (held : list (MessageVersion * string)) : list statement :=
  [CreateTables; InsertMeta target; Begin] ++ List.map insert_folder (pgFolders g) ++ mjoin (held_rows g <$> held) ++ [CommitTx].

Definition held_entry (g : officialProjectionGraph) (m : MessageVersion * string) : list officialManifestMessage :=
  match pgSelected g !! version_key m with
  | Some selected => [official_manifest_message m.1 selected (official_memberships (pgFolderByID g) selected)]
  | None => []
  end.
Definition held_bytes (g : officialProjectionGraph) (m : MessageVersion * string) : Z :=
  match pgSelected g !! version_key m with Some _ => raw_size m.2 | None => 0 end.
Definition official_report (target : Target) (g : officialProjectionGraph) (held : list (MessageVersion * string)) : Report :=
  MkReport 3 target (Z.of_nat (List.length (pgFolders g))) (Z.of_nat (size (pgSelected g))) (pgLiveStates g) (pgMessageDeletes g)
    (fold_left (λ n m, (n + held_bytes g m)%Z) held 0%Z)
    (officialSemanticManifest (MkManifest 1 target (List.map official_manifest_folder (pgFolders g))
       (sort_by mmRKey (mjoin (held_entry g <$> held))))) [].
End contract.

(** ** Running statements *)

Section run.
Context {W : Type} `{LogLaws W} `{!ReliableFiles W}.
Implicit Types w : W.

Lemma exec_all_outcome db sts : ∀ w, match exec_all db sts w with
  | (Ok _, w') => executed w' db = executed w db ++ sts
  | (Err _, _) => ¬ accepts (executed w db) sts
  end.
Proof.
  induction sts as [|st sts IH]; intros w; cbn [exec_all accepts].
  - cbn. by rewrite app_nil_r.
  - unfold call_bind. destruct (db_Exec db st w) as [[[]|e] w1] eqn:E.
    + apply log_Exec in E. specialize (IH w1). destruct (exec_all db sts w1) as [[?|?] w2].
      * by rewrite IH, E, <- app_assoc.
      * intros [_ Ha]. apply IH. by rewrite E.
    + intros [Hv _]. destruct (db_Exec_works db st w Hv) as [w' E']. congruence.
Qed.
Lemma refuse_keeps artifacts w r w' : refuse_existing artifacts w = (r, w') → w' = w.
Proof.
  revert w. induction artifacts as [|a artifacts IH]; intros w; cbn [refuse_existing]; [by intros [= _ <-]|].
  unfold call_bind. destruct (Lstat a w) as [[there|e] w1] eqn:E; apply log_Lstat in E as ->; [|by intros [= _ <-]].
  destruct there; [by intros [= _ <-]|apply IH].
Qed.
End run.

(** ** The rows of the messages *)

Section rows.
Context `{Syntax} `{LowerTable} {W : Type} `{LogLaws W} `{!NewFiles W} `{!ReliableFiles W}.
Context (db : N) (repoDID : string) (g : officialProjectionGraph).

Lemma insertOfficialMessage_rows version raw selected (w : W) : pgSelected g !! mvRKey version = Some selected →
  insertOfficialMessage db version raw selected (pgFolderByID g) w =
  match exec_all db (held_rows g (version, raw)) w with
  | (Ok _, w') => (Ok (official_manifest_message version selected (official_memberships (pgFolderByID g) selected)), w')
  | (Err e, w') => (Err e, w')
  end.
Proof.
  intros Hs. unfold held_rows, version_key. cbn [fst snd]. rewrite Hs. unfold insertOfficialMessage. cbn [exec_all]. unfold call_bind.
  destruct (db_Exec db _ w) as [[[]|e] w1]; [|done]. by destruct (exec_all db _ w1) as [[[]|e] w2].
Qed.

Definition see_held (s : visit_state) (m : MessageVersion * string) : visit_state :=
  let s := see_version s (version_key m) in
  match pgSelected g !! version_key m with
  | Some selected => see_selected s (version_key m) (official_manifest_message m.1 selected (official_memberships (pgFolderByID g) selected)) m.2
  | None => s
  end.
Definition storable (m : MessageVersion * string) : Prop :=
  ValidateStoredMessage repoDID (version_key m) (mvRecord m.1) m.2 = Ok tt ∧
  ∀ selected, pgSelected g !! version_key m = Some selected → mrLogicalMessageID (mvRecord m.1) = rsLogicalMessageID (psState selected).

Lemma see_held_versions s m : vtVersions (see_held s m) = {[version_key m]} ∪ vtVersions s.
Proof. unfold see_held. by destruct (pgSelected g !! _). Qed.

Definition visit_good (s : visit_state) (held : list (MessageVersion * string)) : Prop :=
  NoDup (version_key <$> held) ∧ (∀ m, m ∈ held → version_key m ∉ vtVersions s) ∧ Forall storable held.
Lemma visit_good_cons s m held : visit_good s (m :: held) ↔
  version_key m ∉ vtVersions s ∧ storable m ∧ visit_good (see_held s m) held.
Proof.
  unfold visit_good. rewrite fmap_cons, NoDup_cons, Forall_cons, see_held_versions. split.
  - intros ([Hm Hnd] & Hn & Hst & Hall). split_and!; try done; [apply Hn; by left|]. intros x Hx.
    apply not_elem_of_union. split; [|apply Hn; by right]. intros E%elem_of_singleton. apply Hm. rewrite <- E. by apply list_elem_of_fmap_2.
  - intros (Hm & Hst & Hnd & Hn & Hall). split_and!; try done.
    + intros (x & E & Hx)%list_elem_of_fmap. specialize (Hn x Hx). rewrite E in Hn. set_solver.
    + intros x [->|Hx]%elem_of_cons; [done|]. specialize (Hn x Hx). set_solver.
Qed.

(** One message: its checks, then its rows. *)
Lemma visit_step version raw (w : W) s : match visit_official db repoDID g version raw (w, s) with
  | (Ok _, (w', s')) => mvRKey version ∉ vtVersions s ∧ storable (version, raw) ∧
      executed w' db = executed w db ++ held_rows g (version, raw) ∧ s' = see_held s (version, raw)
  | (Err _, _) => ¬ (mvRKey version ∉ vtVersions s ∧ storable (version, raw) ∧ accepts (executed w db) (held_rows g (version, raw)))
  end.
Proof.
  unfold visit_official, storable, see_held, version_key. cbn [fst snd].
  destruct (bool_decide_reflect (mvRKey version ∈ vtVersions s)) as [Hin|Hout]; [by intros [Hn _]|].
  destruct (ValidateStoredMessage _ _ _ raw) as [[]|e]; [|by intros (_ & [? _] & _)].
  destruct (pgSelected g !! mvRKey version) as [selected|] eqn:Es.
  - destruct (String.eqb_spec (mrLogicalMessageID (mvRecord version)) (rsLogicalMessageID (psState selected))) as [El|El]; cbn [negb].
    2: { intros (_ & [_ Hn] & _). by apply El, Hn. }
    rewrite (insertOfficialMessage_rows _ _ _ _ Es). pose proof (exec_all_outcome db (held_rows g (version, raw)) w) as Hx.
    destruct (exec_all db _ w) as [[?|?] w']; [|by intros (_ & _ & ?)].
    split_and!; try done. by intros ? [= <-].
  - unfold held_rows, version_key. cbn [fst snd]. rewrite Es, app_nil_r. by split_and!.
Qed.

Lemma visit_outcome held : ∀ (w : W) s, match visit_all (visit_official db repoDID g) held (w, s) with
  | (Ok _, (w', s')) => visit_good s held ∧ executed w' db = executed w db ++ mjoin (held_rows g <$> held) ∧ s' = fold_left see_held held s
  | (Err _, _) => ¬ (visit_good s held ∧ accepts (executed w db) (mjoin (held_rows g <$> held)))
  end.
Proof.
  induction held as [|[version raw] held IH]; intros w s; cbn [visit_all].
  { split; [split; [constructor|]; split; [|constructor]; intros m Hm; by apply not_elem_of_nil in Hm|]. cbn. by rewrite app_nil_r. }
  change (mjoin (held_rows g <$> (version, raw) :: held)) with (held_rows g (version, raw) ++ mjoin (held_rows g <$> held)).
  pose proof (visit_step version raw w s) as Hstep. change (mvRKey version) with (version_key (version, raw)) in Hstep.
  destruct (visit_official _ _ _ _ _ _) as [[?|?] [w1 s1]].
  - destruct Hstep as (Hn & Hst & X1 & ->). specialize (IH w1 (see_held s (version, raw))).
    destruct (visit_all _ held _) as [[?|?] [w' s']].
    + destruct IH as (Hg & X & ->). rewrite X, X1, <- app_assoc. by rewrite visit_good_cons.
    + rewrite visit_good_cons, accepts_app, <- X1. tauto.
  - rewrite visit_good_cons, accepts_app. tauto.
Qed.

(** What has been seen at the end. *)
Lemma seen_versions held s : vtVersions (fold_left see_held held s) = list_to_set (version_key <$> held) ∪ vtVersions s.
Proof.
  revert s. induction held as [|m held IH]; intros s; [cbn; set_solver|]. cbn [fold_left]. rewrite IH, see_held_versions, fmap_cons. cbn [list_to_set]. set_solver.
Qed.
Lemma seen_selected held s k : k ∈ vtSelected (fold_left see_held held s) ↔
  (k ∈ version_key <$> held ∧ is_Some (pgSelected g !! k)) ∨ k ∈ vtSelected s.
Proof.
  revert s. induction held as [|m held IH]; intros s; [cbn; rewrite elem_of_nil; tauto|]. cbn [fold_left]. rewrite IH, fmap_cons, elem_of_cons.
  unfold see_held. destruct (pgSelected g !! version_key m) as [selected|] eqn:E; cbn [see_selected see_version vtSelected].
  - rewrite elem_of_union, elem_of_singleton. split; [intros [?|[->|?]]; [tauto|left; split; [by left|by eexists]|tauto]|].
    intros [[[->|?] ?]|?]; [right; by left|by left|right; by right].
  - split; [intros [[? ?]|?]; [left; split; [by right|done]|by right]|]. intros [[[->|?] Hk]|?]; [destruct Hk; congruence|by left|by right].
Qed.
Lemma seen_report held s : vtMessages (fold_left see_held held s) = vtMessages s ++ mjoin (held_entry g <$> held) ∧
  vtReport (fold_left see_held held s) = MkReport (rtVersion (vtReport s)) (rtTarget (vtReport s)) (rtFolders (vtReport s)) (rtMessages (vtReport s))
    (rtStates (vtReport s)) (rtTombstones (vtReport s)) (fold_left (λ n m, (n + held_bytes g m)%Z) held (rtTotalBytes (vtReport s)))
    (rtManifestSHA256 (vtReport s)) (rtMismatches (vtReport s)).
Proof.
  revert s. induction held as [|m held IH]; intros s; cbn [fold_left]; [cbn; rewrite app_nil_r; by destruct (vtReport s)|].
  destruct (IH (see_held s m)) as [-> ->].
  change (mjoin (held_entry g <$> m :: held)) with (held_entry g m ++ mjoin (held_entry g <$> held)).
  unfold see_held, held_entry at 2, held_bytes at 3. destruct (pgSelected g !! version_key m) as [selected|];
    cbn [see_selected see_version vtMessages vtReport add_bytes rtVersion rtTarget rtFolders rtMessages rtStates rtTombstones rtTotalBytes rtManifestSHA256 rtMismatches].
  - by rewrite <- app_assoc.
  - split; [done|]. by rewrite Z.add_0_r.
Qed.
End rows.

(** ** No statement violates a constraint *)

Section accepted.
Context `{LowerTable} (repoDID snapshotID : string) (folders : list ReducedFolderState) (states : list ReducedState).
Context (Hc : consistent snapshotID folders states) (Hsmall : llen (live_states states) < 2 ^ 32).
Local Notation g := (built_graph repoDID folders states).

Definition graph_columns (g : officialProjectionGraph) : gmap string FolderRecord :=
  list_to_map ((λ f, (folder_id f, folder_columns f)) <$> pgFolders g).
Definition graph_identities (g : officialProjectionGraph) : identity_map :=
  (λ p, map_imap (λ f uid, Some (MkProjectionIdentity uid (folder_of (pgFolderByID g) f).2 (rsHeight (psState p)))) (psUIDs p)) <$> pgSelected g.

Lemma graph_spec : graph_of repoDID folders states g.
Proof. exact (built_graph_of _ _ _ _ Hc). Qed.
Lemma graph_folders_perm : pgFolders g ≡ₚ projected_folder repoDID <$> live_folders folders.
Proof. rewrite (gf_folders _ _ _ _ graph_spec). apply sort_by_perm. Qed.
Lemma live_ids : NoDup (rfFolderID <$> live_folders folders).
Proof. apply fmap_filter_nodup, (cn_folder_ids _ _ _ Hc). Qed.
Lemma graph_folder_ids : NoDup (folder_id <$> pgFolders g).
Proof. rewrite graph_folders_perm, <- list_fmap_compose. exact live_ids. Qed.
Lemma in_graph_folders f : f ∈ pgFolders g ↔ ∃ s, s ∈ live_folders folders ∧ f = projected_folder repoDID s.
Proof. rewrite graph_folders_perm, list_elem_of_fmap. naive_solver. Qed.
Lemma live_names s t : s ∈ live_folders folders → t ∈ live_folders folders → rfName s = rfName t → s = t.
Proof. intros Hs Ht E. apply (key_inj _ _ _ _ (cn_names _ _ _ Hc) Hs Ht). by rewrite E. Qed.

Lemma columns_lookup k r : graph_columns g !! k = Some r ↔ ∃ s, s ∈ live_folders folders ∧ rfFolderID s = k ∧
  r = folder_columns (projected_folder repoDID s).
Proof.
  unfold graph_columns. rewrite <- elem_of_list_to_map; [|rewrite <- list_fmap_compose; exact graph_folder_ids].
  rewrite list_elem_of_fmap. split.
  - intros (f & [= -> ->] & (s & Hs & ->)%in_graph_folders). by exists s.
  - intros (s & Hs & <- & ->). exists (projected_folder repoDID s). split; [done|]. apply in_graph_folders. by exists s.
Qed.
Lemma columns_names k k' r r' : graph_columns g !! k = Some r → graph_columns g !! k' = Some r' → fdName r = fdName r' → k = k'.
Proof.
  intros (s & Hs & <- & ->)%columns_lookup (t & Ht & <- & ->)%columns_lookup. cbn. intros E. by rewrite (live_names s t Hs Ht E).
Qed.
Lemma columns_of f s : s ∈ live_folders folders → rfFolderID s = f → folder_of (pgFolderByID g) f = (rfName s, StableFolderUIDValidity repoDID f) ∧
  graph_columns g !! f = Some (folder_columns (projected_folder repoDID s)).
Proof.
  intros Hs <-. split.
  - unfold folder_of. rewrite (proj2 (gf_index _ _ _ _ graph_spec (rfFolderID s) (projected_folder repoDID s))); [done|].
    apply elem_of_live_folders in Hs as [Hs _]. by exists s.
  - apply columns_lookup. by exists s.
Qed.

Lemma identity_lookup k f i : identity_of (graph_identities g) k f = Some i ↔ ∃ s, s ∈ live_states states ∧ rsVersion s = k ∧
  f ∈ rsMailboxIDs s ∧ i = MkProjectionIdentity (u32 (uid_rank states f s)) (folder_of (pgFolderByID g) f).2 (rsHeight s).
Proof.
  unfold identity_of, graph_identities. rewrite lookup_fmap. destruct (pgSelected g !! k) as [p|] eqn:Ep.
  - change ((λ p, map_imap _ (psUIDs p)) <$> Some p) with (Some (map_imap (λ f uid, Some (MkProjectionIdentity uid (folder_of (pgFolderByID g) f).2 (rsHeight (psState p)))) (psUIDs p))).
    change (Some ?m ≫= lookup f) with (m !! f). rewrite map_lookup_imap.
    apply (gf_selected _ _ _ _ graph_spec) in Ep as (s & Hs & Hk & Est & Hu). rewrite Hu, Est.
    destruct (decide (f ∈ rsMailboxIDs s)) as [Hf|Hf]; cbn.
    + split; [intros [= <-]; by exists s|]. intros (t & Ht & Et & _ & ->).
      by rewrite (key_inj rsVersion _ t s (cn_versions _ _ _ Hc) Ht Hs) by congruence.
    + split; [done|]. intros (t & Ht & Et & Hf' & _). destruct Hf.
      by rewrite <- (key_inj rsVersion _ t s (cn_versions _ _ _ Hc) Ht Hs) by congruence.
  - cbn. split; [done|]. intros (s & Hs & Hk & _).
    destruct (selected_uids states s (cn_logical _ _ _ Hc) (cn_versions _ _ _ Hc)) as (p & Hp & _); [|done|].
    { eapply Forall_impl; [exact (cn_live _ _ _ Hc)|]. by intros t (_ & _ & ? & _). }
    cbn in Ep. congruence.
Qed.
Lemma rank_small s f : s ∈ live_states states → u32 (uid_rank states f s) = uid_rank states f s.
Proof. intros Hs. pose proof (uid_rank_bounds states f s Hs). unfold u32. apply N.mod_small. lia. Qed.
Lemma identities_distinct f k k' i i' : identity_of (graph_identities g) k f = Some i → identity_of (graph_identities g) k' f = Some i' →
  piUID i = piUID i' → k = k'.
Proof.
  intros (s & Hs & <- & Hf & ->)%identity_lookup (t & Ht & <- & Hf' & ->)%identity_lookup. cbn [piUID]. rewrite !rank_small by done.
  intros E. by rewrite (uid_rank_inj states f s t (cn_logical _ _ _ Hc) Hs Ht Hf Hf' E).
Qed.

Lemma membership_statement k p f : pgSelected g !! k = Some p → f ∈ rsMailboxIDs (psState p) →
  insert_membership k (official_membership (pgFolderByID g) p f) = membership (graph_columns g) (graph_identities g) k f.
Proof.
  intros Hp Hf. pose proof (proj1 (gf_selected _ _ _ _ graph_spec k p) Hp) as (s & Hs & Hk & Est & Hu).
  assert (Hfs : f ∈ rsMailboxIDs s) by (rewrite Est in Hf; cbn in Hf; by rewrite sort_strings_perm in Hf).
  pose proof (cn_live _ _ _ Hc) as Hall. rewrite Forall_forall in Hall. destruct (Hall s Hs) as (_ & _ & _ & Hlive).
  pose proof (Hlive f Hfs) as (fd & Ef & Hfd)%list_elem_of_fmap. destruct (columns_of f fd Hfd (eq_sym Ef)) as [Hof Hcol].
  unfold membership, official_membership, insert_membership. rewrite Hcol.
  rewrite (proj2 (identity_lookup k f _)) by (by exists s). cbn [default]. rewrite Hof. cbn [mbMailbox mbUID mbUIDValidity mbModSeq snd].
  rewrite Hu, decide_True by done. by rewrite Est.
Qed.

Lemma held_rows_membership m selected : pgSelected g !! version_key m = Some selected →
  held_rows g m = InsertMessage (official_row m.1 m.2 selected) ::
    List.map (membership (graph_columns g) (graph_identities g) (version_key m)) (rsMailboxIDs (psState selected)).
Proof.
  intros Hs. unfold held_rows. rewrite Hs. f_equal. unfold official_memberships. rewrite List.map_map.
  apply List.map_ext_in. intros f Hf%list_elem_of_In. by apply membership_statement.
Qed.
Lemma selected_folders k selected : pgSelected g !! k = Some selected → NoDup (rsMailboxIDs (psState selected)) ∧
  ∀ f, f ∈ rsMailboxIDs (psState selected) → is_Some (graph_columns g !! f) ∧ is_Some (identity_of (graph_identities g) k f).
Proof.
  intros (s & Hs & Hk & -> & _)%(gf_selected _ _ _ _ graph_spec).
  pose proof (cn_live _ _ _ Hc) as Hall. rewrite Forall_forall in Hall. destruct (Hall s Hs) as (_ & _ & Hnd & Hlive).
  cbn [sorted_state rsMailboxIDs]. rewrite sort_strings_perm. split; [done|]. intros f Hf. rewrite sort_strings_perm in Hf.
  pose proof (Hlive f Hf) as (fd & Ef & Hfd)%list_elem_of_fmap. destruct (columns_of f fd Hfd (eq_sym Ef)) as [_ ->].
  split; [by eexists|]. eexists. apply identity_lookup. by exists s.
Qed.

Lemma held_accepted held : ∀ log pairs, inserted (graph_columns g) (graph_identities g) log pairs → NoDup (version_key <$> held) →
  (∀ m f, m ∈ held → (version_key m, f) ∉ pairs) → (∀ m row, m ∈ held → InsertMessage row ∈ log → rwRKey row ≠ version_key m) →
  (∀ k folder, graph_columns g !! k = Some folder → InsertFolder k folder ∈ log) →
  accepts log (mjoin (held_rows g <$> held)).
Proof.
  induction held as [|m held IH]; intros log pairs Hins Hnd Hpairs Hrows Hfolders; [done|].
  rewrite fmap_cons, NoDup_cons in Hnd. destruct Hnd as [Hk Hnd].
  change (mjoin (held_rows g <$> m :: held)) with (held_rows g m ++ mjoin (held_rows g <$> held)).
  assert (Hother : ∀ x, x ∈ held → version_key x ≠ version_key m) by (intros x Hx E; apply Hk; rewrite <- E; by apply list_elem_of_fmap_2).
  destruct (pgSelected g !! version_key m) as [selected|] eqn:Es.
  2: { unfold held_rows at 1. rewrite Es. apply (IH log pairs); try done; intros; [apply Hpairs|apply Hrows]; try done; by right. }
  rewrite (held_rows_membership m selected Es). destruct (selected_folders _ _ Es) as [Hfs Hids]. set (row := official_row _ _ _). cbn [app accepts]. split.
  { intros (row' & Hin & E). by apply (Hrows m row' ltac:(by left) Hin). }
  rewrite accepts_app.
  assert (Hins' : inserted (graph_columns g) (graph_identities g) (log ++ [InsertMessage row]) pairs).
  { intros k mb i [Hin|Hin%list_elem_of_singleton]%elem_of_app; [by apply Hins|done]. }
  destruct (memberships_accepted (graph_columns g) (graph_identities g) columns_names identities_distinct
    (version_key m) (rsMailboxIDs (psState selected)) _ pairs Hins' Hfs) as [Ha Hins''].
  - intros f Hf. destruct (Hids f Hf). split_and!; try done. apply Hpairs. by left.
  - exists row. split; [apply elem_of_app; right; by left|done].
  - intros k folder Hf. apply elem_of_app. left. by apply Hfolders.
  - split; [exact Ha|]. apply (IH _ _ Hins'' Hnd).
    + intros x f Hx [Hin|(f' & [= E _] & _)%list_elem_of_fmap]%elem_of_app; [by apply (Hpairs x f); [right|]|by apply (Hother x Hx)].
    + intros x row' Hx [[Hin|Hin%list_elem_of_singleton]%elem_of_app|Hin]%elem_of_app.
      * apply Hrows; [by right|done].
      * injection Hin as ->. intros E. by apply (Hother x Hx).
      * apply list_elem_of_fmap in Hin as (f & E & _). done.
    + intros k folder Hf. apply elem_of_app. left. apply elem_of_app. left. by apply Hfolders.
Qed.

Lemma insert_folders_map : List.map insert_folder (pgFolders g) =
  List.map (λ kv, InsertFolder kv.1 kv.2) ((λ f, (folder_id f, folder_columns f)) <$> pgFolders g).
Proof. change (?f <$> pgFolders g) with (List.map f (pgFolders g)). by rewrite List.map_map. Qed.
Lemma graph_column_pairs k r : (k, r) ∈ (λ f, (folder_id f, folder_columns f)) <$> pgFolders g → graph_columns g !! k = Some r.
Proof. intros Hin. apply elem_of_list_to_map; [rewrite <- list_fmap_compose; exact graph_folder_ids|done]. Qed.

(** The three parts of the log, each after those before it. *)
Lemma official_log_accepted target held : NoDup (version_key <$> held) → accepts [] (official_log target g held).
Proof.
  intros Hnd. set (start := [CreateTables; InsertMeta target; Begin]).
  assert (Hstart : ∀ st, st ∈ start → match st with InsertFolder _ _ | InsertMessage _ | InsertMembership _ _ _ => False | _ => True end).
  { intros st Hin. unfold start in Hin. by repeat (apply elem_of_cons in Hin as [->|Hin]; [done|]); apply not_elem_of_nil in Hin. }
  assert (Hno : ∀ st, st ∈ start ++ List.map insert_folder (pgFolders g) → match st with InsertMessage _ | InsertMembership _ _ _ => False | _ => True end).
  { intros st [Hin%Hstart|Hin]%elem_of_app; [by destruct st|]. by apply list_elem_of_fmap in Hin as (f & -> & _). }
  unfold official_log. fold start. rewrite !accepts_app. cbn [app]. refine (conj _ (conj _ (conj _ _))).
  - cbn. refine (conj _ (conj _ (conj _ I))); [by intros Hin%not_elem_of_nil|by intros []..].
  - rewrite insert_folders_map. apply accepts_folders.
    + rewrite <- list_fmap_compose. exact graph_folder_ids.
    + intros k k' r r' Hin%graph_column_pairs Hin'%graph_column_pairs. by apply columns_names.
    + intros k r k' r' _ Hin. by apply Hstart in Hin.
  - apply (held_accepted held _ []); [|done| | |].
    + intros k mb i Hin. by apply Hno in Hin.
    + intros m f _. apply not_elem_of_nil.
    + intros m row _ Hin. by apply Hno in Hin.
    + intros k r (s & Hs & <- & ->)%columns_lookup. apply elem_of_app. right. apply list_elem_of_fmap.
      exists (projected_folder repoDID s). split; [done|]. apply in_graph_folders. by exists s.
  - cbn. split; [by intros []|done].
Qed.
End accepted.

(** ** From the schema to the close *)

Section write.
Context `{Syntax} `{LowerTable} {W : Type} `{LogLaws W} `{!NewFiles W} `{!ReliableFiles W} {X : Type} `{ProjectionSource X}.
Context (repoDID snapshotID : string) (folders : list ReducedFolderState) (states : list ReducedState) (held : list (MessageVersion * string)).
Context (Hc : consistent snapshotID folders states) (Hsmall : llen (live_states states) < 2 ^ 32).
Local Notation g := (built_graph repoDID folders states).

(** What the messages of a source must be, for the states. *)
Record held_fits (count : N) : Prop := {
  hf_stored : Forall (λ m, ValidateStoredMessage repoDID (version_key m) (mvRecord m.1) m.2 = Ok tt) held;
  hf_keys : NoDup (version_key <$> held);
  hf_count : llen held = count;
  hf_selected s : s ∈ live_states states → ∃ m, m ∈ held ∧ version_key m = rsVersion s ∧
    mrLogicalMessageID (mvRecord m.1) = rsLogicalMessageID s
}.

Lemma selected_state k selected : pgSelected g !! k = Some selected → ∃ s, s ∈ live_states states ∧ rsVersion s = k ∧
  rsLogicalMessageID (psState selected) = rsLogicalMessageID s.
Proof.
  intros (s & Hs & Hk & -> & _)%(gf_selected _ _ _ _ (graph_spec repoDID snapshotID folders states Hc)). by exists s.
Qed.
Lemma state_selected s : s ∈ live_states states → ∃ selected, pgSelected g !! rsVersion s = Some selected ∧
  rsLogicalMessageID (psState selected) = rsLogicalMessageID s.
Proof.
  intros Hs. destruct (selected_uids states s (cn_logical _ _ _ Hc) (cn_versions _ _ _ Hc)) as (p & Hp & Est & _); [|done|].
  { eapply Forall_impl; [exact (cn_live _ _ _ Hc)|]. by intros t (_ & _ & ? & _). }
  exists p. split; [exact Hp|]. by rewrite Est.
Qed.

Lemma held_fits_good count report : held_fits count → visit_good repoDID g (MkVisitState ∅ ∅ [] report) held.
Proof.
  intros [Hst Hk _ Hs]. split; [done|]. split; [intros m _; apply not_elem_of_empty|].
  rewrite Forall_forall in Hst |- *. intros m Hm. split; [by apply Hst|]. intros selected Hsel.
  destruct (selected_state _ _ Hsel) as (s & Hin & Hv & ->). destruct (Hs s Hin) as (m' & Hm' & E & <-).
  by rewrite (key_inj version_key held m m' Hk Hm Hm') by congruence.
Qed.
(** The counts that are compared after the visit. *)
Lemma held_fits_iff count report (s := fold_left (see_held g) held (MkVisitState ∅ ∅ [] report)) :
  visit_good repoDID g (MkVisitState ∅ ∅ [] report) held →
  (N.of_nat (size (vtVersions s)) = count ∧ size (vtSelected s) = size (pgSelected g)) ↔ held_fits count.
Proof.
  intros (Hk & _ & Hst). rewrite Forall_forall in Hst.
  assert (Hv : vtVersions s = list_to_set (version_key <$> held)) by (unfold s; rewrite seen_versions; cbn; set_solver).
  assert (Hsel : ∀ k, k ∈ vtSelected s ↔ k ∈ version_key <$> held ∧ is_Some (pgSelected g !! k)).
  { intros k. unfold s. rewrite seen_selected. cbn. set_solver. }
  assert (Hsize : N.of_nat (size (vtVersions s)) = llen held) by (rewrite Hv, size_list_to_set, length_fmap by done; done).
  rewrite Hsize, <- size_dom. split.
  - intros [Hn Hd].
    assert (Hall : vtSelected s = dom (pgSelected g)).
    { apply set_subseteq_size_eq; [|by rewrite Hd]. intros k [_ ?]%Hsel. by apply elem_of_dom. }
    split; try done.
    + apply Forall_forall. intros m Hm. by apply Hst.
    + intros st Hin. destruct (state_selected st Hin) as (selected & Hs & El).
      assert (Hin' : rsVersion st ∈ vtSelected s) by (rewrite Hall; apply elem_of_dom; by eexists).
      apply Hsel in Hin' as [(m & E & Hm)%list_elem_of_fmap _]. exists m. split_and!; [done..|].
      rewrite <- El. apply (Hst m Hm). by rewrite <- E.
  - intros [_ _ Hn Hs]. split; [done|]. f_equal. apply set_eq. intros k. rewrite Hsel, elem_of_dom. split; [tauto|].
    intros [selected Hk']. split; [|by eexists]. destruct (selected_state _ _ Hk') as (st & Hin & <- & _).
    destruct (Hs st Hin) as (m & Hm & <- & _). by apply list_elem_of_fmap_2.
Qed.

Definition start_report (target : Target) : Report :=
  MkReport 3 target (Z.of_nat (List.length (pgFolders g))) 0 (pgLiveStates g) (pgMessageDeletes g) 0 "" [].
Lemma exec_split db a b w : executed w db = [] → accepts [] (a ++ b) →
  match exec_all db a w with (Ok _, w') => executed w' db = a ∧ accepts (executed w' db) b | (Err _, _) => False end.
Proof.
  intros Hx [Ha Hb]%accepts_app. pose proof (exec_all_outcome db a w) as Ho. destruct (exec_all db a w) as [[?|?] w'].
  - rewrite Ho, Hx. done.
  - apply Ho. by rewrite Hx.
Qed.

(** The transaction commits exactly when the messages fit the states. *)
Lemma write_official_outcome db summary target (x : X) (w : W) : serves x held → executed w db = [] → tgRepoDID target = repoDID →
  match write_official background db summary g (start_report target) (x, w) with
  | ((r, None), (x', w')) => x' = x ∧ held_fits (smMessageVersions summary) ∧ executed w' db = official_log target g held ∧ r = official_report target g held
  | ((_, Some _), (x', _)) => x' = x ∧ ¬ held_fits (smMessageVersions summary)
  end.
Proof.
  intros [Hseal Hvisit] Hx Hdid. unfold write_official, guarded, in_world, of_source, returns. cbn [fst snd rtTarget start_report]. rewrite Hdid.
  unfold beside at 1. cbn [snd].
  set (one := [CreateTables; InsertMeta target; Begin]). set (two := List.map insert_folder (pgFolders g)).
  set (three := mjoin (held_rows g <$> held)).
  assert (Hacc : NoDup (version_key <$> held) → accepts [] (one ++ two ++ three ++ [CommitTx])).
  { intros Hnd. exact (official_log_accepted repoDID snapshotID folders states Hc Hsmall target held Hnd). }
  pose proof (exec_all_outcome db one w) as Hx1. destruct (exec_all db one w) as [[?|e] w1].
  2: { exfalso. apply Hx1. rewrite Hx. cbn. refine (conj _ (conj _ (conj _ I))); [by intros Hin%not_elem_of_nil|by intros []..]. }
  rewrite Hx in Hx1. cbn [app fst] in Hx1 |- *. unfold beside at 1. cbn [snd fst].
  pose proof (exec_all_outcome db two w1) as Hx2. destruct (exec_all db two w1) as [[?|e] w2].
  2: { split; [done|]. intros Hf. apply Hx2. rewrite Hx1. specialize (Hacc (hf_keys _ Hf)). rewrite !accepts_app in Hacc. by apply Hacc. }
  rewrite Hx1 in Hx2. cbn [fst snd].
  destruct (Hvisit _ (visit_official db repoDID g) (w2, MkVisitState ∅ ∅ [] (start_report target))) as (r & Hrun & Hok).
  rewrite Hrun. pose proof (visit_outcome db repoDID g held w2 (MkVisitState ∅ ∅ [] (start_report target))) as Hx3. fold three in Hx3.
  destruct (visit_all _ held _) as [[?|e] [w3 seen]]; cbn [fst snd is_ok] in Hok |- *.
  2: { destruct r; [done|]. split; [done|]. intros Hf. apply Hx3. split; [by eapply held_fits_good|].
       rewrite Hx2. specialize (Hacc (hf_keys _ Hf)). rewrite app_assoc, !accepts_app in Hacc. by apply Hacc. }
  destruct r; [|done]. destruct Hx3 as (Hgood & Hx3 & ->). rewrite Hx2 in Hx3.
  pose proof (held_fits_iff (smMessageVersions summary) (start_report target) Hgood) as Hcount. cbv zeta in Hcount.
  destruct (N.eqb_spec (N.of_nat (size (vtVersions (fold_left (see_held g) held (MkVisitState ∅ ∅ [] (start_report target)))))) (smMessageVersions summary)) as [Ec|Ec]; cbn [negb orb].
  2: { split; [done|]. by intros [? _]%Hcount. }
  destruct (Nat.eqb_spec (size (vtSelected (fold_left (see_held g) held (MkVisitState ∅ ∅ [] (start_report target))))) (size (pgSelected g))) as [Es|Es]; cbn [negb].
  2: { split; [done|]. by intros [_ ?]%Hcount. }
  pose proof (proj1 Hcount (conj Ec Es)) as Hfits. rewrite Hseal. unfold beside at 1. cbn [fst snd].
  destruct (db_Exec_works db CommitTx w3) as [w4 E4]; [by intros []|]. rewrite E4. apply log_Exec in E4. rewrite Hx3 in E4.
  cbn [fst snd]. unfold beside. cbn [fst snd]. destruct (db_Close_works db w4) as [w5 E5]. rewrite E5. apply log_Close in E5. rewrite E4 in E5. cbn [fst snd].
  split; [done|]. split; [done|]. split; [rewrite E5; unfold official_log; fold one two three; by rewrite !app_assoc|].
  destruct (seen_report g held (MkVisitState ∅ ∅ [] (start_report target))) as [Em Er]. rewrite Em, Er, Es. done.
Qed.
End write.

(** ** The rebuild as a whole *)

Definition artifacts (destination : string) : list string := List.map (append destination) [""; "-journal"; "-wal"; "-shm"].
Definition free {W} `{Files W} (destination : string) (w : W) : Prop := ∀ path, path ∈ artifacts destination → (Lstat path w).1 = Ok false.
(** Nothing is at the destination or beside it, before and after its directory is made. *)
Definition writable {W} `{Files W} (destination : string) (w : W) : Prop :=
  free destination w ∧ ∃ w1, MkdirAll (Dir destination) w = (Ok tt, w1) ∧ free destination w1.

Section whole.
Context `{Syntax} `{LowerTable} {W : Type} `{LogLaws W} `{!NewFiles W} `{!ReliableFiles W} `{!ReliableNew W} {X : Type} `{ProjectionSource X}.

Lemma refuse_free destination w : free destination w → refuseExistingOfficialProjectionArtifacts destination w = (Ok tt, w).
Proof.
  unfold free, refuseExistingOfficialProjectionArtifacts, artifacts. generalize (List.map (append destination) [""; "-journal"; "-wal"; "-shm"]) as l.
  induction l as [|a l IH]; intros Hf; cbn [refuse_existing]; [done|]. unfold call_bind.
  destruct (Lstat a w) as [r w1] eqn:E. pose proof (log_Lstat _ _ _ _ E) as ->. specialize (Hf a ltac:(by left)) as Ha.
  rewrite E in Ha. cbn in Ha. subst r. apply IH. intros path Hp. apply Hf. by right.
Qed.

Lemma projectable_split (x : X) held : projectable_source x held ↔
  validateOfficialSummary (src_Summary x) (target_of (smTarget (src_Summary x))) = Ok tt ∧
  consistent (smSnapshotID (src_Summary x)) (src_Folders x) (src_MessageStates x) ∧
  held_fits (otRepoDID (smTarget (src_Summary x))) (src_MessageStates x) held (smMessageVersions (src_Summary x)).
Proof. split; [intros []; split; [done|]; split; [done|by split]|]. intros (? & ? & []). by split. Qed.

(** The rebuild, for a source that serves its messages. *)
Lemma rebuild_outcome (x : X) held w destination : HasPrefix destination "/" = true → serves x held →
  llen (live_states (src_MessageStates x)) < 2 ^ 32 → writable destination w →
  let target := target_of (smTarget (src_Summary x)) in
  let g := built_graph (otRepoDID (smTarget (src_Summary x))) (src_Folders x) (src_MessageStates x) in
  match rebuildOfficialSpaces background destination (x, w) with
  | ((r, None), (x', w')) => x' = x ∧ projectable_source x held ∧ (∃ db, executed w' db = official_log target g held) ∧
      r = official_report target g held
  | ((_, Some _), (x', _)) => x' = x ∧ ¬ projectable_source x held
  end.
Proof.
  intros Hd Hserves Hsmall (Hfree & w1 & Hmk & Hfree1) target g. pose proof (projectable_split x held) as Hsplit. fold target in Hsplit.
  unfold rebuildOfficialSpaces, guarded, returns. rewrite Hd. cbn [poll background]. unfold in_world, of_source, beside. cbn [snd fst].
  rewrite (refuse_free _ _ Hfree). cbv beta iota. cbn [fst snd]. rewrite (sv_seal _ _ Hserves). cbn [set_rtTarget rtTarget rtVersion rtFolders rtMessages rtStates rtTombstones rtTotalBytes rtManifestSHA256 rtMismatches]. fold target.
  destruct (validateOfficialSummary _ target) as [[]|e]; [|split; [done|]; rewrite Hsplit; by intros [? _]].
  pose proof (build_ok (src_Summary x) (src_Folders x) (src_MessageStates x)) as Hbuild.
  destruct (buildOfficialProjectionGraph _ _ _) as [g'|e].
  2: { split; [done|]. rewrite Hsplit. intros (_ & Hc & _). discriminate (proj2 (Hbuild _) (conj Hc eq_refl)). }
  destruct (proj1 (Hbuild g') eq_refl) as [Hc ->]. fold g. rewrite Hmk. cbv beta iota. cbn [fst snd]. rewrite (refuse_free _ _ Hfree1). cbv beta iota. cbn [fst snd].
  destruct (OpenNew_works destination w1) as (file & w2 & Eo).
  { apply Hfree1. apply list_elem_of_fmap. exists "". split; [by rewrite app_nil_r_s|by left]. }
  rewrite Eo. unfold undo. cbv beta iota. cbn [fst snd]. destruct (CloseFile_works file w2) as [w3 Ec]. rewrite Ec.
  cbv beta iota. cbn [fst snd]. destruct (db_Open_works destination w3) as (db & w4 & Ed). rewrite Ed. cbv beta iota. cbn [fst snd].
  pose proof (write_official_outcome (otRepoDID (smTarget (src_Summary x))) (smSnapshotID (src_Summary x)) (src_Folders x) (src_MessageStates x)
    held Hc Hsmall db (src_Summary x) target x w4 Hserves (log_Open _ _ _ _ Ed) eq_refl) as Hw. unfold start_report in Hw. fold g in Hw.
  unfold set_graph_counts. cbn [rtTarget rtVersion rtFolders rtMessages rtStates rtTombstones rtTotalBytes rtManifestSHA256 rtMismatches].
  destruct (write_official _ _ _ _ _ _) as [[r [e|]] [x' w5]]; cbn [fst snd].
  - destruct Hw as [-> Hn]. split; [done|]. rewrite Hsplit. intros (_ & _ & ?). done.
  - destruct Hw as (-> & Hf & Hlog & ->). destruct (Chmod_works destination w5) as [w6 Ech]. rewrite Ech. cbv beta iota.
    split; [done|]. split; [by apply Hsplit|]. split; [|done]. exists db. by rewrite (log_Chmod _ _ _ _ _ Ech).
Qed.
End whole.
