(* ===== verification/OfficialRecovery.v ===== *)
(** * From a recovery to a database

    A recovered state is consistent but for the names of its folders, which the projection folds
    in its own way; so a verified recovery can be projected exactly when no two live folders have
    names that [strings.ToLower] makes equal. *)
From S2P Require Import Prelude Sha256 GoStd Syntax Unicode Json Url Mailbox Repository Memory Canonical Causal Revision FolderRevision.
From S2P Require Import Decode Ipld Car SpacesWire Http Client Snapshot SourceRead Recovery Reduction Recovered Content Verified.
From S2P Require Import Sample Projection Identities Projected OfficialProjection OfficialGraph OfficialRebuild.

(** ** A recovered state is consistent *)

Lemma identifier_digest v : validSHA256Identifier v = true → validOfficialDigest v = true.
Proof.
  unfold validSHA256Identifier, validOfficialDigest. change (len "sha256-" + 64) with 71.
  destruct (_ || _); [done|]. intros [? _]%andb_true_iff. done.
Qed.
Lemma strictly_sorted_nodup l : ∀ previous, strictly_sorted_after previous l = true →
  NoDup l ∧ ∀ p, previous = Some p → Forall (str_lt p) l.
Proof.
  induction l as [|v l IH]; intros previous; cbn [strictly_sorted_after]; [split; [constructor|done]|].
  rewrite !andb_true_iff. intros [[_ Hp] Hl]. destruct (IH (Some v) Hl) as [Hnd Hv]. specialize (Hv v eq_refl). split.
  - apply NoDup_cons. split; [|done]. intros Hin. rewrite Forall_forall in Hv. by apply (irreflexivity str_lt v), Hv.
  - intros p ->. apply bool_decide_eq_true in Hp. constructor; [done|]. eapply Forall_impl; [exact Hv|]. intros x. by apply str_lt_trans.
Qed.

Section consistent.
Context `{Syntax} `{Ipld} `{CaseOrbits} `{LowerTable} (repoDID snapshotID : string) (evs : list record_event).
Context (Hpaths : NoDup (event_path <$> evs)) (Hfolders : complete_folders repoDID snapshotID evs)
  (Hmessages : complete_messages repoDID snapshotID evs).
Local Notation folders := (folder_states snapshotID evs).
Local Notation states := (message_states snapshotID evs).

Lemma recovered_folder_fits f : f ∈ folders → folder_fits snapshotID f.
Proof.
  intros Hf. pose proof (fz_folders _ _ _ (fs_set _ _ _ Hfolders)) as Hall. rewrite Forall_forall in Hall.
  pose proof (Hall f Hf) as [Hid Hs Hn Hd _ _ _]. split_and!.
  - intros E. rewrite E in Hid. done.
  - exact Hs.
  - intros E. rewrite E in Hn. done.
  - apply list_elem_of_fmap in Hf as (id & -> & Hin%elem_of_sorted_keys).
    pose proof (fs_each _ _ _ Hfolders id (or_introl Hin)) as Hc.
    destruct (folder_height _ _ _ _ Hc) as (_ & e & He & Hh). pose proof (fe_revision _ _ _ (complete_folder_wf _ _ _ _ Hc e He)) as Hb.
    unfold folder_of_id, folder_state. cbn zeta. cbn [set_rfStateDigest rfHeight]. lia.
  - rewrite Hd. apply identifier_digest, digestBytes_valid.
Qed.

Section one.
Context (id : string) (Hid : id ∈ (revisions evs).*1).
Local Notation s := (message_of_id snapshotID evs id).
Lemma recovered_history : complete_inventory repoDID id (message_snapshot snapshotID evs id) (of_key id (revisions evs)).
Proof. exact (ms_each _ _ _ Hmessages id (or_introl Hid)). Qed.
Lemma recovered_message_fits : message_fits snapshotID s.
Proof.
  pose proof recovered_history as Hc. split_and!.
  - apply identifier_digest, (ci_message _ _ _ _ Hc).
  - done.
  - apply identifier_digest, digestBytes_valid.
  - destruct (complete_height _ _ _ _ Hc) as (_ & e & He & Hh). pose proof (ev_revision _ _ _ (complete_events_wf _ _ _ _ Hc e He)) as Hb.
    unfold message_of_id, reduced_state. cbn zeta. cbn [set_rsStateDigest rsHeight]. lia.
Qed.

Lemma admitted_version e : admit_revision repoDID id (message_snapshot snapshotID evs id) e = Ok tt → rrVersion (srRecord e) ≠ "" →
  validSHA256Identifier (rrVersion (srRecord e)) = true.
Proof.
  unfold admit_revision. intros Ha Hver. destruct (validateRevision _ _ _ _) as [[]|] eqn:Hv; [|done]. clear Ha.
  unfold validateRevision in Hv. result_steps. destruct (String.eqb_spec (rrVersion (srRecord e)) "") as [|_]; [done|]. cbn [negb] in *.
  result_steps. by bools.
Qed.
Lemma recovered_version : validOfficialDigest (rsVersion s) = true.
Proof.
  pose proof recovered_history as Hc. destruct (version_register _ _ _ _ Hc) as (w & (Hw & Ha & _) & E).
  unfold message_of_id, reduced_state. cbn zeta. cbn [set_rsStateDigest rsVersion]. rewrite E. apply identifier_digest.
  pose proof (sc_admissible _ _ _ _ (ci_events _ _ _ _ Hc)) as Hadm. rewrite Forall_forall in Hadm.
  apply (admitted_version w); [by apply Hadm|exact Ha].
Qed.
Lemma recovered_mailboxes : rsMailboxIDs s ≠ [] ∧ NoDup (rsMailboxIDs s).
Proof.
  pose proof recovered_history as Hc. destruct (mailbox_register _ _ _ _ Hc) as (w & (Hw & _ & _) & E).
  destruct (ev_mailboxes _ _ _ (complete_events_wf _ _ _ _ Hc w Hw) _ E) as (Hne & Hs & _). split; [exact Hne|].
  by apply (strictly_sorted_nodup _ None).
Qed.
End one.

Lemma in_states st : st ∈ states ↔ ∃ id, id ∈ (revisions evs).*1 ∧ st = message_of_id snapshotID evs id.
Proof. unfold message_states. rewrite list_elem_of_fmap. setoid_rewrite elem_of_sorted_keys. naive_solver. Qed.
Lemma states_logical : NoDup (rsLogicalMessageID <$> states).
Proof.
  unfold message_states. rewrite <- list_fmap_compose.
  rewrite (list_fmap_ext (rsLogicalMessageID ∘ message_of_id snapshotID evs) id); [|done]. rewrite list_fmap_id. apply sorted_keys_nodup.
Qed.
Lemma states_live st : st ∈ live_states states → live_fits folders st.
Proof.
  intros [Hst Ht]%elem_of_live_states. pose proof Hst as (id & Hid & E)%in_states. split_and!.
  - rewrite E. by apply recovered_version.
  - rewrite E. by apply recovered_mailboxes.
  - rewrite E. by apply recovered_mailboxes.
  - intros f Hf. destruct (message_state_refers repoDID snapshotID evs Hpaths Hfolders Hmessages st Hst) as [_ Hfold].
    destruct (Hfold f Hf) as (folder & Hin & <- & Htomb). apply list_elem_of_fmap_2, elem_of_live_folders. auto.
Qed.
(** A version belongs to one message, so it is selected once. *)
Lemma states_versions : NoDup (rsVersion <$> live_states states).
Proof.
  assert (Hinj : ∀ a b, a ∈ states → b ∈ states → rsVersion a = rsVersion b → a = b).
  { intros a b Ha Hb E. destruct (message_state_refers repoDID snapshotID evs Hpaths Hfolders Hmessages a Ha) as [(m & Hm & Ek & El) _].
    destruct (message_state_refers repoDID snapshotID evs Hpaths Hfolders Hmessages b Hb) as [(n & Hn & Fk & Fl) _].
    apply (key_inj rsLogicalMessageID states); [exact states_logical|done..|].
    assert (m = n) as -> by (apply (key_inj mvRKey (messages evs)); [exact (message_rkeys_nodup evs Hpaths)|done|done|congruence]). congruence. }
  assert (Hnd : NoDup (live_states states)) by (apply NoDup_filter, (NoDup_fmap_1 rsLogicalMessageID), states_logical).
  assert (Hall : ∀ x, x ∈ live_states states → x ∈ states) by (intros x Hx; exact (proj1 (proj1 (elem_of_live_states _ _) Hx))).
  revert Hnd Hall. generalize (live_states states) as l. induction l as [|a l IH]; intros Hnd Hall; [constructor|].
  apply NoDup_cons in Hnd as [Ha Hnd]. rewrite fmap_cons. apply NoDup_cons. split; [|apply IH; [done|intros; apply Hall; by right]].
  intros (b & E & Hb)%list_elem_of_fmap. apply Ha. by rewrite (Hinj a b) by (done || apply Hall; by (left || right)).
Qed.

Lemma recovered_consistent : consistent snapshotID folders states ↔
  NoDup ((λ f, strings_ToLower (rfName f)) <$> live_folders folders).
Proof.
  split; [by intros []|]. intros Hn. split; try done.
  - apply Forall_forall. intros f. apply recovered_folder_fits.
  - exact (fz_ids _ _ _ (fs_set _ _ _ Hfolders)).
  - apply Forall_forall. intros st (id & Hid & ->)%in_states. by apply recovered_message_fits.
  - exact states_logical.
  - apply Forall_forall. exact states_live.
  - exact states_versions.
Qed.
Lemma recovered_count : llen (live_states states) < 2 ^ 32.
Proof.
  pose proof (ms_bindings _ _ _ Hmessages) as Hb. unfold maxOfficialFolderMessageBindings in Hb.
  pose proof (folders_some repoDID snapshotID evs Hpaths Hfolders) as Hf.
  assert (llen (live_states states) ≤ llen states) by (unfold llen, live_states; pose proof (length_filter (λ s, rsTombstone s = false) states); lia).
  nia.
Qed.
End consistent.

(** ** The sealed source serves its messages *)

Section sealed.
Context `{Syntax} `{Ipld}.

Definition held_message (src : content_source) (m : MessageVersion) : MessageVersion * string :=
  (clone_version m, default "" (cvBlobs src !! blob_link m)).
Definition held_of (src : content_source) (st : ReducedSourceState) : list (MessageVersion * string) :=
  held_message src <$> rzMessages st.

Lemma visit_held {S} (step : MessageVersion → string → S → result unit * S) (src : content_source) (st : ReducedSourceState) messages :
  reduced_valid st = true →
  Forall (λ m, ∃ raw, cvBlobs src !! blob_link m = Some raw ∧ validOfficialContentCID (blob_link m) raw = true ∧
    ValidateStoredMessage (otRepoDID (rzTarget st)) (mvRKey m) (mvRecord m) raw = Ok tt) messages →
  ∀ s, ∃ r, visit_messages (λ message s, match Content.Open message with
      | Ok (version, raw) => beside (step version raw) s | Err e => (Err e, s) end) background st messages (src, s) =
    (r, (src, (visit_all step (held_message src <$> messages) s).2)) ∧ is_ok r = is_ok (visit_all step (held_message src <$> messages) s).1.
Proof.
  intros Hr Hall. induction Hall as [|m messages (raw & Hb & Hc & Hv) _ IH]; intros s; cbn [visit_messages fmap list_fmap visit_all]; [by eexists|].
  change (poll background) with (Ok background). cbn [fst]. rewrite (content_message_opens st _ m raw Hr Hb Hc Hv).
  assert (held_message src m = (clone_version m, raw)) as -> by (unfold held_message; by rewrite Hb).
  unfold beside at 1. cbn [fst snd].
  destruct (step (clone_version m) raw s) as [[u|e] s']; cbn [fst snd]; [apply IH|]. by eexists.
Qed.

Lemma set_visits_back src : set_cvActiveVisits (set_cvActiveVisits src (cvActiveVisits src + 1)) (cvActiveVisits src + 1 - 1) = src.
Proof. rewrite Z.add_simpl_r. by destruct src. Qed.
Lemma content_serves (src : content_source) (st : ReducedSourceState) : content_complete src st → validLocked src = true →
  cvClosePending src = false → serves src (held_of src st).
Proof.
  intros (Hst & Hall & _) Hv Hp. assert (Hr : reduced_valid st = true).
  { unfold validLocked in Hv. rewrite Hst in Hv. destruct (reduced_valid st); [done|]. rewrite andb_false_r in Hv. done. }
  split.
  - cbn. unfold content_ValidateSeal, content_guarded. by rewrite Hst, Hv.
  - intros S step s. cbn [src_VisitMessages sealedOfficialProjectionSource]. unfold VisitMessages. change (poll background) with (Ok background).
    cbn [fst snd]. rewrite Hst, Hv.
    destruct (visit_held step (set_cvActiveVisits src (cvActiveVisits src + 1)) st (rzMessages st) Hr) with (s := s) as (r & Hrun & Hok).
    { apply Forall_forall. intros m Hm. apply Hall, Hm. }
    rewrite Hrun. exists r. split; [|exact Hok]. unfold finishVisit. cbn [cvActiveVisits set_cvActiveVisits cvClosePending]. rewrite Hp, andb_false_r.
    rewrite (set_visits_back src). reflexivity.
Qed.
End sealed.

(** ** From the read to the database *)

(** The names of the live folders, as the projection compares them. *)
Definition projected_names `{LowerTable} (folders : list ReducedFolderState) : list string :=
  (λ f, strings_ToLower (rfName f)) <$> live_folders folders.

Section project.
Context `{SyntaxLaws} `{Ipld} `{CaseOrbits} `{LowerTable}.

Lemma reduced_source ctx source st : ReduceOfficialSpacesSource ctx (Some source) = Ok st →
  ∃ input evs, complete_source input evs ∧ st = recovered input evs.
Proof.
  unfold ReduceOfficialSpacesSource. destruct (poll ctx) as [ctx'|]; cbn [result_bind]; [|done].
  destruct (negb (is_ok (source_ValidateSeal (Some source)))); [done|].
  destruct (reduceOfficialSpacesInventory ctx' _) as [r|] eqn:Er; [intros [= <-]|by destruct (is_ctx_error _)].
  apply inventory_ok in Er. by eexists.
Qed.

Lemma content_accessors src st : cvState src = Some st → validLocked src = true →
  src_Summary src = MkSummary (rzTarget st) (rzRevision st) (rzSnapshotID st) (llen (rzMessages st)) (msize (cvBlobs src)) (cvTotalBytes src) (cvManifest src) ∧
  src_Folders src = rzFolders st ∧ src_MessageStates src = rzMessageStates st.
Proof. intros Hs Hv. cbn. unfold content_Summary, content_Folders, content_MessageStates, content_guarded. by rewrite Hs, Hv. Qed.

Lemma summary_valid src st : cvState src = Some st → validLocked src = true →
  validateOfficialSummary (MkSummary (rzTarget st) (rzRevision st) (rzSnapshotID st) (llen (rzMessages st)) (msize (cvBlobs src)) (cvTotalBytes src) (cvManifest src))
    (target_of (rzTarget st)) = Ok tt ↔ Target_ValidateFor (target_of (rzTarget st)) (otRepoDID (rzTarget st)) = Ok tt.
Proof.
  intros Hs Hv. unfold validLocked in Hv. rewrite Hs, !andb_true_iff in Hv. destruct Hv as ((((((_ & Hr) & _) & Hm) & Ht) & _) & _).
  unfold reduced_valid in Hr. rewrite !andb_true_iff in Hr. destruct Hr as (((((((He & _) & Hsn) & Hrev) & _) & _) & _) & _).
  unfold validateOfficialSummary. cbn [smRevision smSnapshotID smManifestSHA256 smTotalBytes target_of tgEpoch tgRepoDID].
  apply identifier_digest in Hm, Hsn. apply negb_true_iff in Hrev. rewrite He, Hrev, Hsn, Hm. apply Z.leb_le in Ht.
  assert ((cvTotalBytes src <? 0)%Z = false) as -> by (apply Z.ltb_ge; lia). cbn [negb orb]. rewrite !orb_false_r.
  destruct (Target_ValidateFor _ _) as [[]|]; done.
Qed.

Lemma recovered_projectable src input evs : complete_source input evs → content_complete src (recovered input evs) → validLocked src = true →
  projectable_source src (held_of src (recovered input evs)) ↔
  Target_ValidateFor (target_of (oiTarget input)) (otRepoDID (oiTarget input)) = Ok tt ∧
  NoDup (projected_names (folder_states (oiSnapshotID input) evs)).
Proof.
  intros Hc Hcomplete Hv. pose proof (proj1 Hcomplete) as Hst. destruct (content_accessors src _ Hst Hv) as (Es & Ef & Em).
  destruct Hc as [_ Hnd Hdec Hfolders Hmessages].
  assert (Hpaths : NoDup (event_path <$> evs)) by (by rewrite <- (decodes_path _ _ _ Hdec)).
  assert (Hkeys : NoDup (version_key <$> held_of src (recovered input evs))).
  { unfold held_of. rewrite <- list_fmap_compose. change (version_key ∘ held_message src) with mvRKey.
    change (rzMessages (recovered input evs)) with (sort_by mvRKey (messages evs)). rewrite sort_by_perm. exact (message_rkeys_nodup evs Hpaths). }
  pose proof (recovered_consistent (repo input) (oiSnapshotID input) evs Hpaths Hfolders Hmessages) as Hcons.
  pose proof (summary_valid src _ Hst Hv) as Hsum. rewrite <- Es in Hsum.
  change (rzTarget (recovered input evs)) with (oiTarget input) in *.
  assert (Et : smTarget (src_Summary src) = oiTarget input) by (by rewrite Es).
  split.
  - intros [P1 P2 _ _ _ _]. rewrite Et in P1. rewrite Es, Ef, Em in P2. exact (conj (proj1 Hsum P1) (proj1 Hcons P2)).
  - intros [Ht Hn]. split.
    + rewrite Et. exact (proj2 Hsum Ht).
    + rewrite Es, Ef, Em. exact (proj2 Hcons Hn).
    + rewrite Et. apply Forall_forall. intros x (m & -> & Hm)%list_elem_of_fmap.
      destruct (proj1 (proj2 Hcomplete) m Hm) as (raw & Hb & _ & Hval). unfold held_message. rewrite Hb. exact Hval.
    + exact Hkeys.
    + rewrite Es. unfold held_of. apply llen_fmap.
    + rewrite Em. intros s Hs. apply elem_of_live_states in Hs as [Hs _].
      destruct (message_state_refers (repo input) (oiSnapshotID input) evs Hpaths Hfolders Hmessages s Hs) as [(m & Hm & Ek & El) _].
      exists (held_message src m). split; [|done]. apply list_elem_of_fmap_2.
      change (rzMessages (recovered input evs)) with (sort_by mvRKey (messages evs)). by rewrite sort_by_perm.
Qed.

Lemma content_read_shape `{Blake3} {W : Type} `{Transport W} `{RepoKeys W} (client : option Client_) (w w' : W) (src : content_source) :
  ReadOfficialSpacesRecoverySource client w = (Ok src, w') → ∃ st blobs total, src = content_of st blobs total.
Proof.
  unfold ReadOfficialSpacesRecoverySource, on_error. intros E.
  destruct (readOfficialSpacesRecoverySource client w) as [[src'|e] w0] eqn:Er; [|done]. injection E as -> _.
  unfold readOfficialSpacesRecoverySource in Er. apply call_ok in Er as ([] & w1 & _ & Er). destruct client as [c|]; [|done].
  apply call_ok in Er as (source & w2 & _ & Er). apply call_ok in Er as (st & w3 & _ & Er).
  apply call_ok in Er as ([[cids groups] declared] & w4 & _ & Er). apply call_ok in Er as ([total blobs] & w5 & _ & Er).
  destruct (negb (total =? declared)%Z || _); [done|]. cbn [orb] in Er. destruct (negb _); [done|].
  apply returns_ok in Er as [[= <-] _]. by exists st, blobs, total.
Qed.

(** What the projection of a completed read gives. *)
Definition projects {F : Type} `{Files F} (src : content_source) (st : ReducedSourceState) (o : outcome * (option content_source * F)) : Prop :=
  let did := otRepoDID (rzTarget st) in
  let target := target_of (rzTarget st) in
  match o with
  | ((report, None), (source, w)) => source = Some src ∧ ∃ g db, graph_of did (rzFolders st) (rzMessageStates st) g ∧
      executed w db = official_log target g (held_of src st) ∧ report = official_report target g (held_of src st)
  | ((_, Some _), (source, _)) => source = Some src ∧
      ¬ (Target_ValidateFor target did = Ok tt ∧ NoDup (projected_names (rzFolders st)))
  end.

Lemma complete_projects {F : Type} `{LogLaws F} `{!NewFiles F} `{!ReliableFiles F} `{!ReliableNew F} src input evs destination (f : F) :
  complete_source input evs → content_complete src (recovered input evs) → validLocked src = true → cvClosePending src = false →
  HasPrefix destination "/" = true → writable destination f →
  projects src (recovered input evs) (RebuildOfficial background (Some src) destination f).
Proof.
  intros Hc Hcomplete Hv Hp Hd Hw. destruct (content_accessors src _ (proj1 Hcomplete) Hv) as (Es & Ef & Em).
  pose proof (recovered_projectable src input evs Hc Hcomplete Hv) as Hproj. pose proof Hc as [_ Hnd Hdec Hfolders Hmessages].
  assert (Hpaths : NoDup (event_path <$> evs)) by (by rewrite <- (decodes_path _ _ _ Hdec)).
  pose proof (rebuild_outcome src (held_of src (recovered input evs)) f destination Hd (content_serves src _ Hcomplete Hv Hp)) as Ho.
  rewrite Em in Ho. specialize (Ho (recovered_count (repo input) (oiSnapshotID input) evs Hpaths Hfolders Hmessages) Hw).
  cbv zeta in Ho. rewrite Ef in Ho. assert (Et : smTarget (src_Summary src) = rzTarget (recovered input evs)) by (by rewrite Es).
  rewrite Et in Ho. unfold RebuildOfficial, projects. cbv zeta.
  destruct (rebuildOfficialSpaces background destination (src, f)) as [[r [e|]] [x' w']].
  - destruct Ho as [-> Hn]. split; [done|]. intros Hgood. exact (Hn (proj2 Hproj Hgood)).
  - destruct Ho as (-> & Hps & [db Hlog] & ->). split; [done|]. eexists _, db. split; [|split; [exact Hlog|exact eq_refl]].
    apply (built_graph_of (oiSnapshotID input)). pose proof (ps_consistent _ _ Hps) as Hcons. rewrite Es, Ef, Em in Hcons. exact Hcons.
Qed.
End project.

(** C12. A verified recovery can be projected. From the read of a mailbox to the database: when the
    destination can be written, the projection leaves the recovered content as it is, and either
    commits exactly the log of the reduced states and of every stored message, each with its
    recovered bytes, or fails; and it fails only when the target names another repository or the
    names of two live folders have the same lower case. *)
Theorem recovered_mailbox_projects `{SyntaxLaws} `{Ipld} `{Blake3} `{CaseOrbits} `{LowerTable} {W : Type} `{Transport W} `{RepoKeys W}
    {F : Type} `{LogLaws F} `{!NewFiles F} `{!ReliableFiles F} `{!ReliableNew F}
    (client : option Client_) (w w' : W) (src : content_source) (destination : string) (f : F)
    (Hr : ReadOfficialSpacesRecoverySource client w = (Ok src, w'))
    (Hd : HasPrefix destination "/" = true) (Hw : writable destination f) :
  ∃ c source w1 st, client = Some c ∧ stable_read c source w w1 ∧ ReduceOfficialSpacesSource (now_context w1) (Some source) = Ok st ∧
    content_complete src st ∧ projects src st (RebuildOfficial background (Some src) destination f).
Proof.
  destruct (content_read_shape _ _ _ _ Hr) as (st' & blobs & total & Eshape).
  destruct (content_read_ok client w w' src Hr) as (c & source & w1 & st & bs & Hclient & Hs & Hred & _ & _ & Hcomplete & Hv & _).
  exists c, source, w1, st. do 4 (split; [assumption|]).
  destruct (reduced_source _ _ _ Hred) as (input & evs & Hc & ->).
  apply complete_projects; try assumption. by rewrite Eshape.
Qed.

(** ** The sample recovery, projected *)

#[export] Instance disk_new : NewFiles disk_world := {
  OpenNew path w := if bool_decide (path ∈ dwPaths w) then (Err ErrOther, w)
    else (Ok 0, MkDiskWorld (dwMail w) ({[path]} ∪ dwPaths w) (dwLog w));
  CloseFile _ := returns (Ok tt)
}.
#[export] Instance disk_reliable_new : ReliableNew disk_world.
Proof.
  split.
  - intros path w. cbn. intros [= E]. rewrite E. by eexists _, _.
  - intros file w. by exists w.
Qed.
#[export] Instance ascii_lower : LowerTable := lower_rune.
Lemma sample_writable : writable sample_path sample_disk.
Proof. split; [|exists sample_disk; split; [done|]]; intros path _; done. Qed.

Lemma recovered_mailbox_projects_witness : ∃ st, content_complete sample_content st ∧
  projects sample_content st (RebuildOfficial background (Some sample_content) sample_path sample_disk).
Proof.
  destruct (recovered_mailbox_projects (Some sample_client) content_script _ sample_content sample_path sample_disk
    sample_content_read eq_refl sample_writable) as (c & source & ctx & st & _ & _ & _ & Hc & Hp).
  exists st. split; [exact Hc|exact Hp].
Defined.
