(* ===== verification/SecureFile.v ===== *)
(** * internal/securefile/securefile.go: bounded private files

    [Read] looks at a path, opens it and looks at the handle, so that what it reads is a private
    regular file whatever happens to the path in between.  The file system is a class of
    state-passing calls, and nothing is assumed of what other processes do to it between two
    calls. *)
From S2P Require Import Prelude GoStd Json Url Mailbox Repository.

(** What the code observes of an [os.FileInfo]; [os.SameFile] compares identities. *)
Record FileInfo : Type := MkFileInfo {
  fiRegular : bool;
  fiDir : bool;
  fiPerm : N;
  fiIdentity : N
}.

Class FileSystem (W : Type) : Type := {
  os_Lstat : string → W → result FileInfo * W;
  os_Open : string → W → result N * W;
  file_Stat : N → W → result FileInfo * W;
  (** [io.ReadAll(io.LimitReader(file, n))] *)
  file_ReadAll : N → Z → W → result string * W;
  file_Close : N → W → result unit * W;
  os_Getenv : string → W → string;
  (** not part of the Go interface: the open handles, and what is to be read from one *)
  handles : W → gset N;
  content_at : W → N → string
}.

(** Addition of [int64]. *)
Definition i64_add (a b : Z) : Z := ((a + b + 2 ^ 63) mod 2 ^ 64 - 2 ^ 63)%Z.

Section read.
Context {W : Type} `{FileSystem W}.

(** The permission bits 0177 and the mode 0440. *)
Definition others_bits : N := 127.
Definition credential_mode : N := 288.
Definition safe (path : string) (info : FileInfo) : W → bool * W := λ w,
  if negb (fiRegular info) then (false, w)
  else if N.land (fiPerm info) others_bits =? 0 then (true, w)
  else
    let credentialDirectory := TrimSpace (os_Getenv "CREDENTIALS_DIRECTORY" w) in
    if negb (fiPerm info =? credential_mode) || String.eqb credentialDirectory "" || negb (HasPrefix credentialDirectory "/")
    then (false, w)
    else
      let cleanDirectory := Clean credentialDirectory in
      match os_Lstat cleanDirectory w with
      | (Err _, w) => (false, w)
      | (Ok directoryInfo, w) =>
          if negb (fiDir directoryInfo) then (false, w)
          else
            let cleanPath := Clean path in
            (negb (String.eqb cleanPath cleanDirectory) && String.eqb (Dir cleanPath) cleanDirectory, w)
      end.

Definition checked_safe (path : string) (info : FileInfo) : W → result unit * W := λ w,
  let '(ok, w) := safe path info w in (if ok then Ok tt else Err ErrOther, w).
(** The handle is of a safe file, and of the file that was looked at. *)
Definition check_opened (path : string) (info : FileInfo) (file : N) : W → result unit * W :=
  call? opened := file_Stat file in
  call? _ := checked_safe path opened in
  return_if negb (fiIdentity info =? fiIdentity opened) with Err ErrOther ;;
  returns (Ok tt).

Definition Read (path : string) (maxBytes : Z) : W → result string * W :=
  return_if negb (HasPrefix path "/") || String.eqb path "/" with Err ErrOther ;;
  return_if (maxBytes <=? 0)%Z with Err ErrOther ;;
  call? info := os_Lstat path in
  call? _ := checked_safe path info in
  call? file := os_Open path in
  λ w,
  match check_opened path info file w with
  | (Err e, w) => (Err e, (file_Close file w).2)
  | (Ok _, w) =>
      let '(data, w) := file_ReadAll file (i64_add maxBytes 1) w in
      let '(closed, w) := file_Close file w in
      (let? data := data in
       let? _ := closed in
       fail_if (maxBytes <? raw_size data)%Z with ErrOther ;;
       Ok data, w)
  end.
End read.

(** ** What a successful read means *)

(** Documented behaviour of the file system: a handle is fresh, and it is gone once closed, even
    when closing fails; a limited read gives the bytes up to the limit. *)
Class FileSystemLaws (W : Type) `{FileSystem W} : Prop := {
  Lstat_handles path w r w' : os_Lstat path w = (r, w') → handles w' = handles w;
  Open_handles path w file w' : os_Open path w = (Ok file, w') → file ∉ handles w ∧ handles w' = {[file]} ∪ handles w;
  Open_failed path w e w' : os_Open path w = (Err e, w') → handles w' = handles w;
  Stat_handles file w r w' : file_Stat file w = (r, w') → handles w' = handles w;
  ReadAll_handles file n w r w' : file_ReadAll file n w = (r, w') → handles w' = handles w;
  ReadAll_reads file n w data w' : file_ReadAll file n w = (Ok data, w') → data = substring 0 (Z.to_nat n) (content_at w file);
  Close_handles file w r w' : file_Close file w = (r, w') → handles w' = handles w ∖ {[file]}
}.

Lemma substring_full n s : (String.length (substring 0 n s) < n)%nat → substring 0 n s = s.
Proof.
  revert s. induction n as [|n IH]; intros s; [lia|]. destruct s as [|c s]; [done|]. cbn [substring String.length].
  intros Hl. f_equal. apply IH. lia.
Qed.
Lemma i64_add_small a b : (- 2 ^ 63 <= a + b < 2 ^ 63)%Z → i64_add a b = (a + b)%Z.
Proof. intros Hr. unfold i64_add. rewrite Z.mod_small; lia. Qed.

Section laws.
Context {W : Type} `{FileSystemLaws W}.

Lemma safe_handles path info w : handles (safe path info w).2 = handles w.
Proof.
  unfold safe. destruct (negb _); [done|]. destruct (_ =? 0); [done|]. destruct (_ || _); [done|].
  destruct (os_Lstat _ w) as [[dir|e] w1] eqn:E; apply Lstat_handles in E; [|done]. by destruct (negb (fiDir dir)).
Qed.
Lemma checked_safe_spec path info w : checked_safe path info w =
  (if (safe path info w).1 then Ok tt else Err ErrOther, (safe path info w).2).
Proof. unfold checked_safe. by destruct (safe path info w). Qed.

(** What is called when the second look passes, and what it leaves open. *)
Lemma check_opened_steps path info file w w' : check_opened path info file w = (Ok tt, w') ↔
  ∃ opened w1, file_Stat file w = (Ok opened, w1) ∧ safe path opened w1 = (true, w') ∧ fiIdentity info = fiIdentity opened.
Proof.
  unfold check_opened, call_bind, returns. destruct (file_Stat file w) as [[opened|e] w1].
  2: { split; [done|]. by intros (? & ? & [=] & _). }
  rewrite checked_safe_spec. destruct (safe path opened w1) as [[] w2] eqn:Es; cbn [fst snd].
  2: { split; [done|]. intros (? & ? & [= <- <-] & E & _). congruence. }
  destruct (N.eqb_spec (fiIdentity info) (fiIdentity opened)); cbn [negb].
  - split; [intros [= <-]; by exists opened, w1|]. intros (? & ? & [= <- <-] & E & _). congruence.
  - split; [done|]. intros (? & ? & [= <- <-] & _ & ?). done.
Qed.
Lemma check_opened_handles path info file w : handles (check_opened path info file w).2 = handles w.
Proof.
  unfold check_opened, call_bind, returns. destruct (file_Stat file w) as [[opened|e] w1] eqn:E; apply Stat_handles in E as Eh; [|done].
  rewrite checked_safe_spec. pose proof (safe_handles path opened w1) as Hs. destruct (safe path opened w1) as [[] w2]; cbn [fst snd] in *; [|congruence].
  destruct (negb _); cbn [snd]; congruence.
Qed.
Lemma read_handles path maxBytes w : handles (Read path maxBytes w).2 = handles w.
Proof.
  unfold Read. do 2 (destruct (_ : bool); [done|]). unfold call_bind.
  destruct (os_Lstat path w) as [[info|e] w1] eqn:El; apply Lstat_handles in El as Hl; [|done].
  rewrite checked_safe_spec. pose proof (safe_handles path info w1) as Hs. destruct (safe path info w1) as [[] w1']; cbn [fst snd] in *; [|congruence].
  destruct (os_Open path w1') as [[file|e] w2] eqn:Eo; [|apply Open_failed in Eo; cbn [snd]; congruence].
  apply Open_handles in Eo as [Hf Ho]. pose proof (check_opened_handles path info file w2) as Hc.
  assert (Hback : ∀ w3 r w4, handles w3 = handles w2 → file_Close file w3 = (r, w4) → handles w4 = handles w).
  { intros w3 r w4 E Ec%Close_handles. rewrite Ec, E, Ho. set_solver. }
  destruct (check_opened path info file w2) as [[?|e] w3]; cbn [snd] in Hc.
  - destruct (file_ReadAll file _ w3) as [data w4] eqn:Er. apply ReadAll_handles in Er. destruct (file_Close file w4) as [closed w5] eqn:Ec.
    apply (Hback w4 closed w5); [congruence|done].
  - destruct (file_Close file w3) as [r w4] eqn:Ec. exact (Hback _ _ _ Hc Ec).
Qed.
(** The calls of a read that succeeds. *)
Lemma read_steps path maxBytes w data w' : Read path maxBytes w = (Ok data, w') ↔
  (HasPrefix path "/" = true ∧ path ≠ "/") ∧ (0 < maxBytes)%Z ∧ (raw_size data <= maxBytes)%Z ∧
  ∃ info w1 w2 file w3 opened w4 w5 w6, os_Lstat path w = (Ok info, w1) ∧ safe path info w1 = (true, w2) ∧
    os_Open path w2 = (Ok file, w3) ∧ file_Stat file w3 = (Ok opened, w4) ∧ safe path opened w4 = (true, w5) ∧
    fiIdentity info = fiIdentity opened ∧ file_ReadAll file (i64_add maxBytes 1) w5 = (Ok data, w6) ∧ file_Close file w6 = (Ok tt, w').
Proof.
  unfold Read, returns. destruct (HasPrefix path "/"); [|by split; [|intros [[]]]]. destruct (String.eqb_spec path "/") as [|Hne]; [by split; [|intros [[]]]|].
  cbn [negb orb]. destruct (Z.leb_spec maxBytes 0) as [|Hm]; [by split; [|intros (_ & ? & _); lia]|]. split.
  - unfold call_bind. destruct (os_Lstat path w) as [[info|e] w1] eqn:El; [|done]. rewrite checked_safe_spec.
    destruct (safe path info w1) as [[] w2] eqn:Es; cbn [fst snd]; [|done]. destruct (os_Open path w2) as [[file|e] w3] eqn:Eo; [|done].
    destruct (check_opened path info file w3) as [[[]|e] w5] eqn:Ec; [|done]. apply check_opened_steps in Ec as (opened & w4 & Hst & Hs & Hid).
    destruct (file_ReadAll file _ w5) as [r w6] eqn:Er. destruct (file_Close file w6) as [c w7] eqn:Ecl.
    destruct r as [d|]; cbn [result_bind]; [|done]. destruct c as [[]|]; cbn [result_bind]; [|done].
    destruct (Z.ltb_spec maxBytes (raw_size d)); [done|]. intros [= <- <-]. split_and!; try done.
    exists info, w1, w2, file, w3, opened, w4, w5, w6. split_and!; done.
  - intros (_ & _ & Hs & info & w1 & w2 & file & w3 & opened & w4 & w5 & w6 & Hl & H1 & Ho & Hst & H2 & Hid & Hr & Hc).
    unfold call_bind. rewrite Hl, checked_safe_spec, H1. cbn [fst snd]. rewrite Ho.
    rewrite (proj2 (check_opened_steps path info file w3 w5)) by (by exists opened, w4). rewrite Hr, Hc. cbn [result_bind].
    by destruct (Z.ltb_spec maxBytes (raw_size data)); [lia|].
Qed.
Lemma absolute path : HasPrefix path "/" = true ∧ path ≠ "/" ↔ ∃ rest, path = "/" +:+ rest ∧ rest ≠ "".
Proof.
  rewrite HasPrefix_spec. split.
  - intros [[rest ->] Hn]. exists rest. split; [done|]. by intros ->.
  - intros (rest & -> & Hr). split; [by exists rest|]. intros E. change (String "/" rest = String "/" "") in E. congruence.
Qed.

Lemma limited_content file maxBytes w data w' : file_ReadAll file (i64_add maxBytes 1) w = (Ok data, w') →
  (0 < maxBytes < 2 ^ 63 - 1)%Z → (raw_size data <= maxBytes)%Z → data = content_at w file.
Proof.
  intros ->%ReadAll_reads Hm Hs. rewrite i64_add_small in * by lia. apply substring_full. unfold raw_size, len in Hs. lia.
Qed.
End laws.

(** What private means, apart from the code: a regular file that nobody but its owner may touch
    and that is not a program, or a credential that the service manager has given to the service.
    Bits 0 to 5 of a mode are those of the others and of the group, bit 6 lets the owner execute;
    bits 8 and 5 let the owner and the group read. *)
Definition owner_only (info : FileInfo) : Prop := ∀ bit, bit ≤ 6 → N.testbit (fiPerm info) bit = false.
Definition read_only_by_group (info : FileInfo) : Prop := ∀ bit, N.testbit (fiPerm info) bit = true ↔ bit = 8 ∨ bit = 5.
Section private.
Context {W : Type} `{FileSystem W}.

(** The file lies directly in the directory that the manager names, which is absolute and is one. *)
Definition service_credential (path : string) (info : FileInfo) (w w' : W) : Prop :=
  let named := TrimSpace (os_Getenv "CREDENTIALS_DIRECTORY" w) in
  read_only_by_group info ∧ (∃ rest, named = "/" +:+ rest) ∧
  (∃ seen, os_Lstat (Clean named) w = (Ok seen, w') ∧ fiDir seen = true) ∧
  Clean path ≠ Clean named ∧ Dir (Clean path) = Clean named.
Definition private (path : string) (info : FileInfo) (w w' : W) : Prop :=
  fiRegular info = true ∧ (owner_only info ∧ w' = w ∨ service_credential path info w w').

Lemma owner_only_spec info : N.land (fiPerm info) others_bits = 0 ↔ owner_only info.
Proof.
  assert (Ho : ∀ bit, N.testbit others_bits bit = (bit <=? 6)).
  { intros bit. change others_bits with (N.ones 7). destruct (N.leb_spec bit 6); [apply N.ones_spec_low; lia|apply N.ones_spec_high; lia]. }
  split.
  - intros E bit Hb. assert (Ht := f_equal (λ n, N.testbit n bit) E). cbv beta in Ht. rewrite N.land_spec, Ho, N.bits_0 in Ht.
    rewrite (proj2 (N.leb_le _ _) Hb) in Ht. by rewrite andb_true_r in Ht.
  - intros Hp. apply N.bits_inj. intros bit. rewrite N.land_spec, Ho, N.bits_0. destruct (N.leb_spec bit 6); [by rewrite Hp|apply andb_false_r].
Qed.
Lemma read_only_by_group_spec info : fiPerm info = credential_mode ↔ read_only_by_group info.
Proof.
  unfold read_only_by_group.
  assert (Hc : ∀ bit, N.testbit credential_mode bit = (bit =? 8) || (bit =? 5)).
  { intros bit. replace credential_mode with (N.lor (2 ^ 8) (2 ^ 5)) by reflexivity. by rewrite N.lor_spec, !N.pow2_bits_eqb, (N.eqb_sym 8), (N.eqb_sym 5). }
  split.
  - intros -> bit. by rewrite Hc, orb_true_iff, !N.eqb_eq.
  - intros Hb. apply N.bits_inj. intros bit. apply eq_bool_prop_intro. rewrite !Is_true_true, Hb, Hc, orb_true_iff, !N.eqb_eq. done.
Qed.
(** The test of the code accepts exactly the private files. *)
Lemma safe_private path info w w' : safe path info w = (true, w') ↔ private path info w w'.
Proof.
  unfold safe, private, service_credential. destruct (fiRegular info); cbn [negb]; [|by split; [|intros []]].
  destruct (N.eqb_spec (N.land (fiPerm info) others_bits) 0) as [Ho|Ho].
  - apply owner_only_spec in Ho. split; [intros [= <-]; split; [done|by left]|]. intros (_ & [[_ ->]|[Hg _]]); [done|].
    assert (N.testbit (fiPerm info) 5 = true) as E by (apply Hg; lia). by rewrite Ho in E by lia.
  - assert (Hn : ¬ owner_only info) by (by rewrite <- owner_only_spec).
    destruct (N.eqb_spec (fiPerm info) credential_mode) as [Hm|Hm]; cbn [negb orb].
    2: { split; [done|]. rewrite read_only_by_group_spec in Hm. by intros (_ & [[? _]|[? _]]). }
    apply read_only_by_group_spec in Hm. set (named := TrimSpace _).
    destruct (HasPrefix named "/") eqn:Hr.
    2: { replace (String.eqb named "" || negb false) with true by (by rewrite orb_true_r). split; [done|].
         intros (_ & [[? _]|(_ & Hx & _)]); [done|]. apply HasPrefix_spec in Hx. congruence. }
    replace (String.eqb named "" || negb true) with false by (by destruct named). apply HasPrefix_spec in Hr.
    destruct (os_Lstat (Clean named) w) as [[dir|e] w1] eqn:El.
    2: { split; [done|]. by intros (_ & [[? _]|(_ & _ & (? & [=] & _) & _)]). }
    destruct (fiDir dir) eqn:Ed; cbn [negb].
    2: { split; [done|]. intros (_ & [[? _]|(_ & _ & (? & [= <- <-] & ?) & _)]); [done|congruence]. }
    destruct (String.eqb_spec (Clean path) (Clean named)) as [E|E]; cbn [negb andb].
    1: { split; [done|]. by intros (_ & [[? _]|(_ & _ & _ & ? & _)]). }
    destruct (String.eqb_spec (Dir (Clean path)) (Clean named)) as [E'|E'].
    2: { split; [done|]. by intros (_ & [[? _]|(_ & _ & _ & _ & ?)]). }
    split; [intros [= <-]; split; [done|]; right; split_and!; try done; by exists dir|].
    intros (_ & [[? _]|(_ & _ & (? & [= <- <-] & _) & _)]); done.
Qed.
End private.

(** C23. A private read is of one private file, and it succeeds exactly then. Whatever the file
    system does between the calls, no handle is left open. Data is returned exactly when, one
    after the other: an absolute path names a private file (owner-only and regular, or a
    credential of the service manager), it is opened, what was opened is private and the very file
    that was seen, all of it up to one byte over the bound is read from the handle, the handle is
    closed, and the bound is kept; so the data is the whole content of that file at the moment of
    reading, never a part of a longer one. *)
Theorem read_is_private {W : Type} `{FileSystemLaws W} (path : string) (maxBytes : Z) (w : W) :
  handles (Read path maxBytes w).2 = handles w ∧
  ∀ data w', Read path maxBytes w = (Ok data, w') ↔
    ((∃ rest, path = "/" +:+ rest ∧ rest ≠ "") ∧ (0 < maxBytes)%Z ∧ (raw_size data <= maxBytes)%Z ∧
    ∃ info w1 w2 file w3 opened w4 w5 w6, os_Lstat path w = (Ok info, w1) ∧ private path info w1 w2 ∧
      os_Open path w2 = (Ok file, w3) ∧ file_Stat file w3 = (Ok opened, w4) ∧ private path opened w4 w5 ∧
      fiIdentity info = fiIdentity opened ∧
      file_ReadAll file (i64_add maxBytes 1) w5 = (Ok data, w6) ∧ ((maxBytes < 2 ^ 63 - 1)%Z → data = content_at w5 file) ∧
      file_Close file w6 = (Ok tt, w')).
Proof.
  split; [apply read_handles|]. intros data w'. split.
  - intros (Hp & Hm & Hs & info & w1 & w2 & file & w3 & opened & w4 & w5 & w6 & Hl & H1 & Ho & Hst & H2 & Hid & Hr & Hc)%read_steps.
    apply safe_private in H1, H2. split_and!; try done; [by apply absolute|]. exists info, w1, w2, file, w3, opened, w4, w5, w6. split_and!; try done.
    intros Hx. by eapply limited_content.
  - intros (Hp & Hm & Hs & info & w1 & w2 & file & w3 & opened & w4 & w5 & w6 & Hl & H1 & Ho & Hst & H2 & Hid & Hr & _ & Hc).
    apply safe_private in H1, H2. apply read_steps. split_and!; try done; [by apply absolute|by apply absolute|]. exists info, w1, w2, file, w3, opened, w4, w5, w6. split_and!; done.
Qed.

(** ** A file system without other processes *)

Record plain_disk : Type := MkPlainDisk {
  pdFiles : gmap string (FileInfo * string);
  pdOpen : gmap N (FileInfo * string)
}.
#[export] Instance plain_file_system : FileSystem plain_disk := {
  os_Lstat path w := (opt_result (fst <$> pdFiles w !! path) ErrOther, w);
  os_Open path w := match pdFiles w !! path with
    | Some file => let h := fresh (dom (pdOpen w)) in (Ok h, MkPlainDisk (pdFiles w) (<[h := file]> (pdOpen w)))
    | None => (Err ErrOther, w)
    end;
  file_Stat h w := (opt_result (fst <$> pdOpen w !! h) ErrOther, w);
  file_ReadAll h n w := (Ok (substring 0 (Z.to_nat n) (default "" (snd <$> pdOpen w !! h))), w);
  file_Close h w := (Ok tt, MkPlainDisk (pdFiles w) (delete h (pdOpen w)));
  os_Getenv _ _ := "";
  handles w := dom (pdOpen w);
  content_at w h := default "" (snd <$> pdOpen w !! h)
}.
#[export] Instance plain_file_system_laws : FileSystemLaws plain_disk.
Proof.
  split; cbn.
  - by intros path w r w' [= _ <-].
  - intros path w file w'. destruct (pdFiles w !! path); [|done]. intros [= <- <-]. cbn. split; [apply is_fresh|]. by rewrite dom_insert_L.
  - intros path w e w'. destruct (pdFiles w !! path); [done|]. by intros [= _ <-].
  - by intros file w r w' [= _ <-].
  - by intros file n w r w' [= _ <-].
  - by intros file n w data w' [= <- _].
  - intros file w r w' [= _ <-]. cbn. by rewrite dom_delete_L.
Qed.

Definition private_file : FileInfo := MkFileInfo true false 384 7.
Definition private_disk (path content : string) : plain_disk := MkPlainDisk {[path := (private_file, content)]} ∅.
Definition private_disk_read : plain_disk := (Read "/etc/key" 16 (private_disk "/etc/key" "secret")).2.
Lemma private_read : Read "/etc/key" 16 (private_disk "/etc/key" "secret") = (Ok "secret", private_disk_read).
Proof. reflexivity. Qed.
(** A file that its group may read is refused, and so is one that the owner may execute. *)
Lemma broad_files_refused : List.map (λ mode, is_ok (Read "/etc/key" 16 (MkPlainDisk {["/etc/key" := (MkFileInfo true false mode 7, "secret")]} ∅)).1) [384; 256; 288; 416; 448] =
  [true; true; false; false; false].
Proof. vm_compute. reflexivity. Qed.
Lemma read_is_private_witness : (0 < 16)%Z ∧ ∃ info w1 w2 file w3 opened w4 w5 w6, os_Lstat "/etc/key" (private_disk "/etc/key" "secret") = (Ok info, w1) ∧
  private "/etc/key" info w1 w2 ∧ os_Open "/etc/key" w2 = (Ok file, w3) ∧ file_Stat file w3 = (Ok opened, w4) ∧ private "/etc/key" opened w4 w5 ∧
  fiIdentity info = fiIdentity opened ∧ file_ReadAll file (i64_add 16 1) w5 = (Ok "secret", w6) ∧
  ((16 < 2 ^ 63 - 1)%Z → "secret" = content_at w5 file) ∧ file_Close file w6 = (Ok tt, private_disk_read).
Proof.
  destruct (proj1 (proj2 (read_is_private "/etc/key" 16 (private_disk "/etc/key" "secret")) "secret" private_disk_read) private_read) as (_ & Hm & _ & Ht).
  split; [exact Hm|exact Ht].
Defined.
