(* ===== verification/Certificate.v ===== *)
(** * internal/authoritycert/cert.go: the certification of a provider

    [Run] drives a repository through the life of one synthetic message and projects the result
    twice; [LoadProviderEvidence] accepts a stored report.  A run acts on the report so far and on
    the world, so that every error returns the report as it is then. *)
From S2P Require Import Prelude Sha256 GoStd Syntax Unicode Json Url Time Mailbox Repository Decode State Projection OfficialProjection SecureFile.

Record Options : Type := MkOptions {
  opRecipientDID : string;
  opSpaceKey : string;
  opRunID : string;
  opWorkDir : string;
  (** in UTC, as [time.Now().UTC()] gives it *)
  opNow : time
}.
Record Checks : Type := MkChecks {
  ckByteExactReadback : bool;
  ckAtomicMessageState : bool;
  ckProviderCASConflict : bool;
  ckIdempotentStateRetry : bool;
  ckMailboxMove : bool;
  ckSourceVersionReplacement : bool;
  ckRebuildBeforeDelete : bool;
  ckTombstoneRecovery : bool
}.
Record ProjectionSummary : Type := MkProjectionSummary {
  pmFolders : Z;
  pmMessages : Z;
  pmStates : Z;
  pmTombstones : Z;
  pmTotalBytes : Z;
  pmManifestSHA256 : string
}.
Record CertificateReport : Type := MkCertificate {
  crVersion : Z;
  crProviderID : string;
  crProviderEpoch : string;
  crTargetSHA256 : string;
  crCapabilities : Capabilities;
  crChecks : Checks;
  crBeforeDelete : ProjectionSummary;
  crAfterDelete : ProjectionSummary;
  crPassed : bool
}.

Definition no_capabilities : Capabilities := MkCapabilities false false false false false false.
Definition no_checks : Checks := MkChecks false false false false false false false false.
Definition no_summary : ProjectionSummary := MkProjectionSummary 0 0 0 0 0 "".
Definition zero_certificate : CertificateReport :=
  MkCertificate 0 "" "" "" no_capabilities no_checks no_summary no_summary false.

(** ** Assignments to the fields *)

Definition set_crVersion (r : CertificateReport) (x : Z) := MkCertificate x (crProviderID r) (crProviderEpoch r) (crTargetSHA256 r) (crCapabilities r) (crChecks r) (crBeforeDelete r) (crAfterDelete r) (crPassed r).
Definition set_crProviderID (r : CertificateReport) (x : string) := MkCertificate (crVersion r) x (crProviderEpoch r) (crTargetSHA256 r) (crCapabilities r) (crChecks r) (crBeforeDelete r) (crAfterDelete r) (crPassed r).
Definition set_crProviderEpoch (r : CertificateReport) (x : string) := MkCertificate (crVersion r) (crProviderID r) x (crTargetSHA256 r) (crCapabilities r) (crChecks r) (crBeforeDelete r) (crAfterDelete r) (crPassed r).
Definition set_crTargetSHA256 (r : CertificateReport) (x : string) := MkCertificate (crVersion r) (crProviderID r) (crProviderEpoch r) x (crCapabilities r) (crChecks r) (crBeforeDelete r) (crAfterDelete r) (crPassed r).
Definition set_crCapabilities (r : CertificateReport) (x : Capabilities) := MkCertificate (crVersion r) (crProviderID r) (crProviderEpoch r) (crTargetSHA256 r) x (crChecks r) (crBeforeDelete r) (crAfterDelete r) (crPassed r).
Definition set_crChecks (r : CertificateReport) (x : Checks) := MkCertificate (crVersion r) (crProviderID r) (crProviderEpoch r) (crTargetSHA256 r) (crCapabilities r) x (crBeforeDelete r) (crAfterDelete r) (crPassed r).
Definition set_crBeforeDelete (r : CertificateReport) (x : ProjectionSummary) := MkCertificate (crVersion r) (crProviderID r) (crProviderEpoch r) (crTargetSHA256 r) (crCapabilities r) (crChecks r) x (crAfterDelete r) (crPassed r).
Definition set_crAfterDelete (r : CertificateReport) (x : ProjectionSummary) := MkCertificate (crVersion r) (crProviderID r) (crProviderEpoch r) (crTargetSHA256 r) (crCapabilities r) (crChecks r) (crBeforeDelete r) x (crPassed r).
Definition set_crPassed (r : CertificateReport) (x : bool) := MkCertificate (crVersion r) (crProviderID r) (crProviderEpoch r) (crTargetSHA256 r) (crCapabilities r) (crChecks r) (crBeforeDelete r) (crAfterDelete r) x.

Definition set_ckByteExactReadback (c : Checks) (x : bool) := MkChecks x (ckAtomicMessageState c) (ckProviderCASConflict c) (ckIdempotentStateRetry c) (ckMailboxMove c) (ckSourceVersionReplacement c) (ckRebuildBeforeDelete c) (ckTombstoneRecovery c).
Definition set_ckAtomicMessageState (c : Checks) (x : bool) := MkChecks (ckByteExactReadback c) x (ckProviderCASConflict c) (ckIdempotentStateRetry c) (ckMailboxMove c) (ckSourceVersionReplacement c) (ckRebuildBeforeDelete c) (ckTombstoneRecovery c).
Definition set_ckProviderCASConflict (c : Checks) (x : bool) := MkChecks (ckByteExactReadback c) (ckAtomicMessageState c) x (ckIdempotentStateRetry c) (ckMailboxMove c) (ckSourceVersionReplacement c) (ckRebuildBeforeDelete c) (ckTombstoneRecovery c).
Definition set_ckIdempotentStateRetry (c : Checks) (x : bool) := MkChecks (ckByteExactReadback c) (ckAtomicMessageState c) (ckProviderCASConflict c) x (ckMailboxMove c) (ckSourceVersionReplacement c) (ckRebuildBeforeDelete c) (ckTombstoneRecovery c).
Definition set_ckMailboxMove (c : Checks) (x : bool) := MkChecks (ckByteExactReadback c) (ckAtomicMessageState c) (ckProviderCASConflict c) (ckIdempotentStateRetry c) x (ckSourceVersionReplacement c) (ckRebuildBeforeDelete c) (ckTombstoneRecovery c).
Definition set_ckSourceVersionReplacement (c : Checks) (x : bool) := MkChecks (ckByteExactReadback c) (ckAtomicMessageState c) (ckProviderCASConflict c) (ckIdempotentStateRetry c) (ckMailboxMove c) x (ckRebuildBeforeDelete c) (ckTombstoneRecovery c).
Definition set_ckRebuildBeforeDelete (c : Checks) (x : bool) := MkChecks (ckByteExactReadback c) (ckAtomicMessageState c) (ckProviderCASConflict c) (ckIdempotentStateRetry c) (ckMailboxMove c) (ckSourceVersionReplacement c) x (ckTombstoneRecovery c).
Definition set_ckTombstoneRecovery (c : Checks) (x : bool) := MkChecks (ckByteExactReadback c) (ckAtomicMessageState c) (ckProviderCASConflict c) (ckIdempotentStateRetry c) (ckMailboxMove c) (ckSourceVersionReplacement c) (ckRebuildBeforeDelete c) x.

Definition set_pmFolders (s : ProjectionSummary) (x : Z) := MkProjectionSummary x (pmMessages s) (pmStates s) (pmTombstones s) (pmTotalBytes s) (pmManifestSHA256 s).
Definition set_pmMessages (s : ProjectionSummary) (x : Z) := MkProjectionSummary (pmFolders s) x (pmStates s) (pmTombstones s) (pmTotalBytes s) (pmManifestSHA256 s).
Definition set_pmStates (s : ProjectionSummary) (x : Z) := MkProjectionSummary (pmFolders s) (pmMessages s) x (pmTombstones s) (pmTotalBytes s) (pmManifestSHA256 s).
Definition set_pmTombstones (s : ProjectionSummary) (x : Z) := MkProjectionSummary (pmFolders s) (pmMessages s) (pmStates s) x (pmTotalBytes s) (pmManifestSHA256 s).
Definition set_pmTotalBytes (s : ProjectionSummary) (x : Z) := MkProjectionSummary (pmFolders s) (pmMessages s) (pmStates s) (pmTombstones s) x (pmManifestSHA256 s).
Definition set_pmManifestSHA256 (s : ProjectionSummary) (x : string) := MkProjectionSummary (pmFolders s) (pmMessages s) (pmStates s) (pmTombstones s) (pmTotalBytes s) x.

Definition set_cpAtomicApplyWrites (c : Capabilities) (x : bool) := MkCapabilities x (cpCompareAndSwap c) (cpReferencedBlobs c) (cpRepoOplog c) (cpCARExport c) (cpNotifications c).
Definition set_cpCompareAndSwap (c : Capabilities) (x : bool) := MkCapabilities (cpAtomicApplyWrites c) x (cpReferencedBlobs c) (cpRepoOplog c) (cpCARExport c) (cpNotifications c).
Definition set_cpReferencedBlobs (c : Capabilities) (x : bool) := MkCapabilities (cpAtomicApplyWrites c) (cpCompareAndSwap c) x (cpRepoOplog c) (cpCARExport c) (cpNotifications c).
Definition set_cpRepoOplog (c : Capabilities) (x : bool) := MkCapabilities (cpAtomicApplyWrites c) (cpCompareAndSwap c) (cpReferencedBlobs c) x (cpCARExport c) (cpNotifications c).
Definition set_cpCARExport (c : Capabilities) (x : bool) := MkCapabilities (cpAtomicApplyWrites c) (cpCompareAndSwap c) (cpReferencedBlobs c) (cpRepoOplog c) x (cpNotifications c).
Definition set_cpNotifications (c : Capabilities) (x : bool) := MkCapabilities (cpAtomicApplyWrites c) (cpCompareAndSwap c) (cpReferencedBlobs c) (cpRepoOplog c) (cpCARExport c) x.

(** ** The JSON form *)

Definition provider_capabilities_json (c : Capabilities) : json :=
  JObj [("atomicApplyWrites", JBool (cpAtomicApplyWrites c)); ("compareAndSwap", JBool (cpCompareAndSwap c));
        ("referencedBlobs", JBool (cpReferencedBlobs c)); ("repoOplog", JBool (cpRepoOplog c));
        ("carExport", JBool (cpCARExport c)); ("notifications", JBool (cpNotifications c))].
Definition checks_json (c : Checks) : json :=
  JObj [("byteExactReadback", JBool (ckByteExactReadback c)); ("atomicMessageState", JBool (ckAtomicMessageState c));
        ("providerCasConflict", JBool (ckProviderCASConflict c)); ("idempotentStateRetry", JBool (ckIdempotentStateRetry c));
        ("mailboxMove", JBool (ckMailboxMove c)); ("sourceVersionReplacement", JBool (ckSourceVersionReplacement c));
        ("rebuildBeforeDelete", JBool (ckRebuildBeforeDelete c)); ("tombstoneRecovery", JBool (ckTombstoneRecovery c))].
Definition summary_json (s : ProjectionSummary) : json :=
  JObj [("folders", json_Z (pmFolders s)); ("messages", json_Z (pmMessages s)); ("states", json_Z (pmStates s));
        ("tombstones", json_Z (pmTombstones s)); ("totalBytes", json_Z (pmTotalBytes s)); ("manifestSha256", JStr (pmManifestSHA256 s))].
Definition certificate_json (r : CertificateReport) : json :=
  JObj [("version", json_Z (crVersion r)); ("providerId", JStr (crProviderID r)); ("providerEpoch", JStr (crProviderEpoch r));
        ("targetSha256", JStr (crTargetSHA256 r)); ("capabilities", provider_capabilities_json (crCapabilities r));
        ("checks", checks_json (crChecks r)); ("beforeDelete", summary_json (crBeforeDelete r));
        ("afterDelete", summary_json (crAfterDelete r)); ("passed", JBool (crPassed r))].

Section fields.
Context `{CaseOrbits}.

Definition capabilities_fields : list (field Capabilities) :=
  [mk_field "atomicApplyWrites" decode_bool cpAtomicApplyWrites set_cpAtomicApplyWrites;
   mk_field "compareAndSwap" decode_bool cpCompareAndSwap set_cpCompareAndSwap;
   mk_field "referencedBlobs" decode_bool cpReferencedBlobs set_cpReferencedBlobs;
   mk_field "repoOplog" decode_bool cpRepoOplog set_cpRepoOplog;
   mk_field "carExport" decode_bool cpCARExport set_cpCARExport;
   mk_field "notifications" decode_bool cpNotifications set_cpNotifications].
Definition checks_fields : list (field Checks) :=
  [mk_field "byteExactReadback" decode_bool ckByteExactReadback set_ckByteExactReadback;
   mk_field "atomicMessageState" decode_bool ckAtomicMessageState set_ckAtomicMessageState;
   mk_field "providerCasConflict" decode_bool ckProviderCASConflict set_ckProviderCASConflict;
   mk_field "idempotentStateRetry" decode_bool ckIdempotentStateRetry set_ckIdempotentStateRetry;
   mk_field "mailboxMove" decode_bool ckMailboxMove set_ckMailboxMove;
   mk_field "sourceVersionReplacement" decode_bool ckSourceVersionReplacement set_ckSourceVersionReplacement;
   mk_field "rebuildBeforeDelete" decode_bool ckRebuildBeforeDelete set_ckRebuildBeforeDelete;
   mk_field "tombstoneRecovery" decode_bool ckTombstoneRecovery set_ckTombstoneRecovery].
Definition summary_fields : list (field ProjectionSummary) :=
  [mk_field "folders" decode_int64 pmFolders set_pmFolders; mk_field "messages" decode_int64 pmMessages set_pmMessages;
   mk_field "states" decode_int64 pmStates set_pmStates; mk_field "tombstones" decode_int64 pmTombstones set_pmTombstones;
   mk_field "totalBytes" decode_int64 pmTotalBytes set_pmTotalBytes;
   mk_field "manifestSha256" decode_string pmManifestSHA256 set_pmManifestSHA256].
Definition certificate_fields : list (field CertificateReport) :=
  [mk_field "version" decode_int64 crVersion set_crVersion; mk_field "providerId" decode_string crProviderID set_crProviderID;
   mk_field "providerEpoch" decode_string crProviderEpoch set_crProviderEpoch;
   mk_field "targetSha256" decode_string crTargetSHA256 set_crTargetSHA256;
   mk_field "capabilities" (decode_strict capabilities_fields) crCapabilities set_crCapabilities;
   mk_field "checks" (decode_strict checks_fields) crChecks set_crChecks;
   mk_field "beforeDelete" (decode_strict summary_fields) crBeforeDelete set_crBeforeDelete;
   mk_field "afterDelete" (decode_strict summary_fields) crAfterDelete set_crAfterDelete;
   mk_field "passed" decode_bool crPassed set_crPassed].
(** One value, every member known, and nothing after it. *)
Definition decode_certificate (data : string) : option CertificateReport :=
  match parse data with Some j => decode_strict certificate_fields j zero_certificate | None => None end.
End fields.

Definition allChecks (checks : Checks) : bool :=
  forallb id [ckByteExactReadback checks; ckAtomicMessageState checks; ckProviderCASConflict checks; ckIdempotentStateRetry checks;
    ckMailboxMove checks; ckSourceVersionReplacement checks; ckRebuildBeforeDelete checks; ckTombstoneRecovery checks].
Definition summarize (report : Report) : ProjectionSummary :=
  MkProjectionSummary (rtFolders report) (rtMessages report) (rtStates report) (rtTombstones report) (rtTotalBytes report)
    (rtManifestSHA256 report).
Definition targetHash (target : Target) : string := hex_encode (sha256 (print (target_json target))).

(** ** Evidence *)

Section evidence.
Context `{Syntax} `{CaseOrbits} {W : Type} `{FileSystem W}.

Definition certifies (report : CertificateReport) (providerID epoch : string) : bool :=
  negb (negb (crVersion report =? 2)%Z || negb (crPassed report) || negb (allChecks (crChecks report)) ||
    negb (String.eqb (crProviderID report) providerID) || negb (String.eqb (crProviderEpoch report) epoch) ||
    String.eqb (crTargetSHA256 report) "" || negb (cpAtomicApplyWrites (crCapabilities report)) ||
    negb (cpCompareAndSwap (crCapabilities report)) || negb (cpReferencedBlobs (crCapabilities report))).
Definition check_evidence (data providerID epoch : string) : result string :=
  fail_if String.eqb data "" with ErrOther ;;
  let? report := opt_result (decode_certificate data) ErrOther in
  fail_if negb (certifies report providerID epoch) with ErrOther ;;
  Ok (hex_encode (sha256 data)).
Definition LoadProviderEvidence (path providerID epoch : string) : W → result string * W :=
  return_if negb (HasPrefix path "/") || String.eqb path "/" || String.eqb providerID "" || String.eqb epoch "" ||
    ContainsAny (providerID +:+ epoch) blanks with Err ErrOther ;;
  call? data := Read path 65536 in
  returns (check_evidence data providerID epoch).
Definition LoadEvidence (path providerID : string) (target : Target) : W → result string * W :=
  return_if negb (is_ok (Target_ValidateFor target (tgRepoDID target))) with Err ErrOther ;;
  LoadProviderEvidence path providerID (tgEpoch target).
End evidence.

(** ** The run *)

(** [os.Mkdir] fails when there is something at the path. *)
Class MakeDir (W : Type) : Type := os_Mkdir : string → W → result unit * W.

Definition path_characters : string := "/?# " +:+ of_byte_values [9; 13; 10].
Definition validOptions (options : Options) : bool :=
  HasPrefix (opRecipientDID options) "did:" && negb (ContainsAny (opRecipientDID options) path_characters) &&
  negb (String.eqb (opSpaceKey options) "") && (len (opSpaceKey options) <=? 128) && negb (ContainsAny (opSpaceKey options) path_characters) &&
  negb (String.eqb (opRunID options) "") && (len (opRunID options) <=? 96) && negb (ContainsAny (opRunID options) blanks) &&
  HasPrefix (opWorkDir options) "/" && negb (String.eqb (opWorkDir options) "/") && negb (IsZero (opNow options)).
(** [options.Now.Add(n * time.Second)] *)
Definition later (options : Options) (n : Z) : time := (opNow options + n * 1000000000)%Z.

Definition CRLF : string := of_byte_values [13; 10].
Definition synthetic_message (runID : string) : string :=
  "From: sender@example.test" +:+ CRLF +:+ "To: mailbox@example.test" +:+ CRLF +:+ "Subject: Comail authority certification" +:+ CRLF +:+
  "Message-ID: <" +:+ runID +:+ "@example.test>" +:+ CRLF +:+ CRLF +:+ "Synthetic certification message." +:+ CRLF.
Definition edited_message (raw : string) : string := raw +:+ "Edited synthetic version." +:+ CRLF.
Definition source_key (options : Options) : string := "authority-cert-source:" +:+ opRunID options.
Definition synthetic_import (options : Options) (raw mailbox : string) (keywords : list string) (delivered : time) : ImportedMessage :=
  MkImportedMessage (opRecipientDID options) (source_key options) raw mailbox [] "" zero_time "" [] keywords false 0 0 0 delivered.
Definition inbox (options : Options) : Folder := NewFolder "INBOX" "inbox" (StableUIDValidity (opRecipientDID options) "INBOX").
Definition archive (options : Options) : Folder := NewFolder "Archive" "archive" (StableUIDValidity (opRecipientDID options) "Archive").

Section run.
Context `{Syntax} `{CaseOrbits} {W : Type} `{Repository W} `{Files W} `{MakeDir W} (options : Options).
Local Notation S := (CertificateReport * W)%type.

(** An assignment to the report. *)
Definition note (f : CertificateReport → CertificateReport) : S → result unit * S := λ s, (Ok tt, (f s.1, s.2)).
Definition passes (set : Checks → bool → Checks) : S → result unit * S :=
  note (λ report, set_crChecks report (set (crChecks report) true)).

Definition complete_capabilities (c : Capabilities) : bool := cpAtomicApplyWrites c && cpCompareAndSwap c && cpReferencedBlobs c.
Fixpoint empty_collections (target : Target) (collections : list string) : W → result unit * W :=
  match collections with
  | [] => returns (Ok tt)
  | collection :: rest =>
      call? records := ListRecords target collection in
      return_if negb (llen records =? 0) with Err ErrOther ;;
      empty_collections target rest
  end.
(** A fresh space, known to be empty, and the work directory. *)
Definition prepare_space : S → result Target * S :=
  call? capabilities := in_world Capabilities_ in
  call? _ := note (λ report, set_crCapabilities (set_crProviderID report (ProviderID (W := W))) capabilities) in
  return_if negb (complete_capabilities capabilities) with Err ErrUnsupported ;;
  call? target := in_world (EnsureMailbox (opRecipientDID options) (opSpaceKey options)) in
  call? _ := returns (Target_ValidateFor target (opRecipientDID options)) in
  call? _ := note (λ report, set_crTargetSHA256 (set_crProviderEpoch report (tgEpoch target)) (targetHash target)) in
  call? _ := in_world (empty_collections target [FolderCollection; MessageCollection; MessageStateCollection]) in
  call? _ := in_world (os_Mkdir (opWorkDir options)) in
  returns (Ok target).

Definition create_record (collection rkey : string) (value : json) : Write := MkWrite Create collection rkey (Some value) "".
Definition create_pair (pair_ : MessagePair) : list Write :=
  [create_record MessageCollection (mpRKey pair_) (message_json (mpMessage pair_));
   create_record MessageStateCollection (mpRKey pair_) (state_json (mpState pair_))].
(** The bytes that are read back are those of the message, and valid for its record. *)
Definition read_back (target : Target) (rkey raw : string) (message : MessageRecord) : W → result unit * W := λ w,
  match GetBlob target (brLink (mrRaw message)) w with
  | (Ok readback, w) =>
      (if negb (String.eqb readback raw) || negb (is_ok (ValidateStoredMessage (opRecipientDID options) rkey message readback))
       then Err ErrIntegrity else Ok tt, w)
  | (Err _, w) => (Err ErrIntegrity, w)
  end.

Definition create_message (target : Target) : S → result (MessagePair * Record_) * S :=
  call? _ := in_world (ApplyWrites target
    [create_record FolderCollection (fdRKey (inbox options)) (folder_json (fdRecord (inbox options)));
     create_record FolderCollection (fdRKey (archive options)) (folder_json (fdRecord (archive options)))]) in
  let raw := synthetic_message (opRunID options) in
  call? blob := in_world (UploadBlob target raw MessageMIMEType) in
  call? pair_ := returns (NewMessagePair (synthetic_import options raw "INBOX" [] (opNow options)) blob) in
  call? _ := in_world (ApplyWrites target (create_pair pair_)) in
  call? messageStored := attempt (in_world (GetRecord target MessageCollection (mpRKey pair_))) in
  call? stateStored := attempt (in_world (GetRecord target MessageStateCollection (mpRKey pair_))) in
  call? messageStored := returns (or_error messageStored ErrOther) in
  call? stateStored := returns (or_error stateStored ErrOther) in
  call? message := returns (opt_result (unmarshal_message (rcValue messageStored)) ErrIntegrity) in
  call? _ := in_world (read_back target (mpRKey pair_) raw message) in
  call? _ := passes set_ckByteExactReadback in
  call? _ := passes set_ckAtomicMessageState in
  returns (Ok (pair_, stateStored)).

(** The two writers of the compare-and-swap start from the same state. *)
Definition contender (base : MessageStateRecord) (keyword suffix : string) (seconds : Z) : MessageStateRecord :=
  set_msLastOperation (set_msUpdatedAt (set_msRevision (set_msKeywords base (Some [keyword])) 2)
    (format_RFC3339Nano (later options seconds))) (opRunID options +:+ suffix).
Definition contend (target : Target) (pair_ : MessagePair) (stateStored : Record_) : S → result unit * S :=
  call? base := returns (opt_result (unmarshal_state (rcValue stateStored)) ErrIntegrity) in
  return_if negb (msRevision base =? 1) with Err ErrIntegrity ;;
  let winner := contender base "$seen" ":cas-winner" 1 in
  call? _ := in_world (PutRecordCAS target MessageStateCollection (mpRKey pair_) (Some (state_json winner)) (rcCID stateStored)) in
  let loser := contender base "$flagged" ":cas-loser" 2 in
  call? lost := attempt (in_world (PutRecordCAS target MessageStateCollection (mpRKey pair_) (Some (state_json loser)) (rcCID stateStored))) in
  return_if match lost with Err e => negb (errors_Is e ErrConflict) | Ok _ => true end with Err ErrOther ;;
  passes set_ckProviderCASConflict.

Definition mutation (rkey : string) (revision : N) (suffix : string) (operation : Operation) (mailbox : string) (seconds : Z) : Mutation :=
  MkMutation rkey revision (opRunID options +:+ suffix) operation mailbox (later options seconds).
(** An operation that is repeated changes nothing; a move ends in the other folder. *)
Definition flag_and_move (target : Target) (pair_ : MessagePair) : S → result MessageStateRecord * S :=
  call? flagged := in_world (Apply target (mutation (mpRKey pair_) 2 ":flag" Flag "" 3)) in
  call? replayed := attempt (in_world (Apply target (mutation (mpRKey pair_) 2 ":flag" Flag "" 4))) in
  return_if match replayed with
    | Err _ => true
    | Ok replayed => negb (msRevision replayed =? msRevision flagged) || negb (String.eqb (msUpdatedAt replayed) (msUpdatedAt flagged))
    end with Err ErrOther ;;
  call? _ := passes set_ckIdempotentStateRetry in
  call? moved := on_error (λ _, ErrOther) (in_world (Apply target (mutation (mpRKey pair_) (msRevision flagged) ":move" Move "Archive" 5))) in
  return_if match elems (msMailboxIDs moved) with [id] => negb (String.eqb id (fdRKey (archive options))) | _ => true end with Err ErrOther ;;
  call? _ := passes set_ckMailboxMove in
  returns (Ok moved).

(** The new version is created and the prior one is buried in one write. *)
Definition buried (moved : MessageStateRecord) : MessageStateRecord :=
  set_msLastOperation (set_msUpdatedAt (set_msRevision (set_msDeletePending (set_msTombstone moved true) false)
    (u64 (msRevision moved + 1))) (format_RFC3339Nano (later options 7))) (opRunID options +:+ ":source-version").
(** Exactly one of the two versions is live. *)
Definition one_live (prior edited : result Record_) : bool :=
  match prior, edited with
  | Ok prior, Ok edited =>
      match unmarshal_state (rcValue prior), unmarshal_state (rcValue edited) with
      | Some prior, Some edited => msTombstone prior && negb (msTombstone edited)
      | _, _ => false
      end
  | _, _ => false
  end.
Definition replace_version (target : Target) (pair_ : MessagePair) (moved : MessageStateRecord) : S → result MessagePair * S :=
  call? priorState := in_world (GetRecord target MessageStateCollection (mpRKey pair_)) in
  let editedRaw := edited_message (synthetic_message (opRunID options)) in
  call? editedBlob := in_world (UploadBlob target editedRaw MessageMIMEType) in
  call? editedPair := returns (NewMessagePair
    (synthetic_import options editedRaw "Archive" (elems (msKeywords moved)) (later options 6)) editedBlob) in
  call? _ := in_world (ApplyWrites target (create_pair editedPair ++
    [MkWrite Update MessageStateCollection (mpRKey pair_) (Some (state_json (buried moved))) (rcCID priorState)])) in
  call? storedPrior := attempt (in_world (GetRecord target MessageStateCollection (mpRKey pair_))) in
  call? storedEdited := attempt (in_world (GetRecord target MessageStateCollection (mpRKey editedPair))) in
  return_if negb (one_live storedPrior storedEdited) with Err ErrOther ;;
  call? storedEditedMessage := on_error (λ _, ErrOther) (in_world (GetRecord target MessageCollection (mpRKey editedPair))) in
  call? editedMessage := returns (opt_result (unmarshal_message (rcValue storedEditedMessage)) ErrIntegrity) in
  return_if negb (String.eqb (mrSourceKey editedMessage) (source_key options)) with Err ErrIntegrity ;;
  call? _ := in_world (read_back target (mpRKey editedPair) editedRaw editedMessage) in
  call? _ := passes set_ckSourceVersionReplacement in
  returns (Ok editedPair).

(** A rebuild of the two messages and states, with so many tombstones. *)
Definition rebuilt (target : Target) (name : string) (tombstones : Z) : S → result Report * S := λ s,
  let '((report, err), s) := in_world (Rebuild target (Clean (opWorkDir options +:+ "/" +:+ name))) s in
  (if negb (match err with None => true | Some _ => false end) || negb (Passed report) || negb (rtMessages report =? 2)%Z ||
      negb (rtStates report =? 2)%Z || negb (rtTombstones report =? tombstones)%Z
   then Err ErrOther else Ok report, s).
Definition delete_and_rebuild (target : Target) (editedPair : MessagePair) : S → result unit * S :=
  call? before := rebuilt target "before-delete.sqlite" 1 in
  call? _ := note (λ report, set_crBeforeDelete report (summarize before)) in
  call? _ := passes set_ckRebuildBeforeDelete in
  call? deleted := on_error (λ _, ErrOther)
    (in_world (Apply target (mutation (mpRKey editedPair) (msRevision (mpState editedPair)) ":delete" Tombstone "" 8))) in
  return_if negb (msTombstone deleted) with Err ErrOther ;;
  call? after := rebuilt target "after-delete.sqlite" 2 in
  call? _ := note (λ report, set_crAfterDelete report (summarize after)) in
  call? _ := passes set_ckTombstoneRecovery in
  note (λ report, set_crPassed report (allChecks (crChecks report))).

Definition certify : S → result unit * S :=
  return_if negb (validOptions options) with Err ErrOther ;;
  call? target := prepare_space in
  call? (pair_, stateStored) := create_message target in
  call? _ := contend target pair_ stateStored in
  call? moved := flag_and_move target pair_ in
  call? editedPair := replace_version target pair_ moved in
  delete_and_rebuild target editedPair.
Definition Run (w : W) : (CertificateReport * option error) * W :=
  let '(r, (report, w)) := certify (set_crVersion zero_certificate 2, w) in
  ((report, match r with Ok _ => None | Err e => Some e end), w).
End run.
