(* ===== verification/Certified.v ===== *)
(** * What a certificate shows

    The outcome of a certification run, and that its report is accepted as evidence for exactly
    the provider and the epoch that it names. *)
From S2P Require Import Prelude Sha256 GoStd Syntax Unicode Json Url Time Mailbox Repository Memory Decode Recovery Reduction Recovered State Projection Identities.
From S2P Require Import Projected OfficialProjection SecureFile Certificate.

(** ** Runs that fail do not pass *)

Section holds.
Context `{Syntax} `{CaseOrbits} {W : Type}.
Local Notation S := (CertificateReport * W)%type.

(** A step that ends well satisfies [Q]; one that fails leaves a report that has not passed. *)
Definition holds {A} (m : S → result A * S) (s : S) (Q : A → S → Prop) : Prop :=
  match m s with (Ok a, s') => Q a s' | (Err _, s') => crPassed s'.1 = false end.

Lemma holds_bind {A B} (m : S → result A * S) (k : A → S → result B * S) s Q :
  holds m s (λ a s', holds (k a) s' Q) → holds (call? a := m in k a) s Q.
Proof. unfold holds, call_bind. by destruct (m s) as [[a|e] s']. Qed.
Lemma holds_mono {A} (m : S → result A * S) s (Q Q' : A → S → Prop) : (∀ a s', Q a s' → Q' a s') → holds m s Q → holds m s Q'.
Proof. unfold holds. intros HQ. destruct (m s) as [[a|e] s']; [apply HQ|done]. Qed.
Lemma holds_world {A} (m : W → result A * W) r w (Q : A → S → Prop) : crPassed r = false →
  (∀ a w', m w = (Ok a, w') → Q a (r, w')) → holds (in_world m) (r, w) Q.
Proof. intros Hr HQ. unfold holds, in_world, beside. cbn [fst snd]. destruct (m w) as [[a|e] w'] eqn:E; [by apply HQ|done]. Qed.
Lemma holds_attempt {A} (m : W → result A * W) r w (Q : result A → S → Prop) :
  (∀ a w', m w = (a, w') → Q a (r, w')) → holds (attempt (in_world m)) (r, w) Q.
Proof. intros HQ. unfold holds, attempt, in_world, beside. cbn [fst snd]. destruct (m w) as [a w'] eqn:E. by apply HQ. Qed.
Lemma holds_on_error {A} f (m : S → result A * S) s Q : holds m s Q → holds (on_error f m) s Q.
Proof. unfold holds, on_error. by destruct (m s) as [[a|e] s']. Qed.
Lemma holds_returns {A} (x : result A) r w (Q : A → S → Prop) : crPassed r = false → (∀ a, x = Ok a → Q a (r, w)) →
  holds (returns x) (r, w) Q.
Proof. intros Hr HQ. unfold holds, returns. destruct x; [by apply HQ|done]. Qed.
Lemma holds_if {A} (b : bool) e (m : S → result A * S) r w Q : crPassed r = false → (b = false → holds m (r, w) Q) →
  holds (return_if b with Err e ;; m) (r, w) Q.
Proof. intros Hr HQ. unfold holds in *. destruct b; [done|by apply HQ]. Qed.
Lemma holds_note f r w (Q : unit → S → Prop) : Q tt (f r, w) → holds (note f) (r, w) Q.
Proof. done. Qed.
End holds.

(** The rules, applied while the report is known. *)
Ltac certify_step := first
  [ apply holds_bind | apply holds_on_error | apply holds_note
  | apply holds_world; [done|intros ? ? ?] | apply holds_attempt; intros ? ? ?
  | apply holds_returns; [done|intros ? ?] | apply holds_if; [done|intros ?] ].
Ltac certify_steps := repeat (certify_step; cbn beta iota).

Section outcome.
Context `{Syntax} `{CaseOrbits} {W : Type} `{Repository W} `{Files W} `{MakeDir W} (options : Options).

(** The report once the space is prepared, with the checks so far. *)
Definition report_with (target : Target) (capabilities : Capabilities) (checks : Checks) : CertificateReport :=
  MkCertificate 2 (ProviderID (W := W)) (tgEpoch target) (targetHash target) capabilities checks no_summary no_summary false.
Definition empty_space (w : W) (target : Target) : Prop :=
  ∃ w', empty_collections target [FolderCollection; MessageCollection; MessageStateCollection] w = (Ok tt, w').

Lemma prepare_holds w : holds (prepare_space options) (set_crVersion zero_certificate 2, w) (λ target s, ∃ capabilities w1,
  complete_capabilities capabilities = true ∧ Target_ValidateFor target (opRecipientDID options) = Ok tt ∧
  empty_space w1 target ∧ s.1 = report_with target capabilities no_checks).
Proof.
  unfold prepare_space. certify_steps.
  repeat match goal with u : unit |- _ => destruct u | E : Ok _ = Ok _ |- _ => injection E as <- | E : negb _ = false |- _ => apply negb_false_iff in E end.
  eexists _, _. split; [done|]. split; [done|]. split; [|done]. eexists. eassumption.
Qed.

(** What the steps have seen of the provider. *)
Definition bytes_read (target : Target) (raw : string) : Prop := ∃ rkey message (w w' : W),
  GetBlob target (brLink (mrRaw message)) w = (Ok raw, w') ∧ ValidateStoredMessage (opRecipientDID options) rkey message raw = Ok tt.
Definition conflict_seen (target : Target) : Prop := ∃ rkey cid base (w w1 w2 : W) stored e,
  PutRecordCAS target MessageStateCollection rkey (Some (state_json (contender options base "$seen" ":cas-winner" 1))) cid w = (Ok stored, w1) ∧
  PutRecordCAS target MessageStateCollection rkey (Some (state_json (contender options base "$flagged" ":cas-loser" 2))) cid w1 = (Err e, w2) ∧
  errors_Is e ErrConflict = true.
Definition replay_seen (target : Target) : Prop := ∃ rkey (w w1 w2 : W) flagged replayed,
  Apply target (mutation options rkey 2 ":flag" Flag "" 3) w = (Ok flagged, w1) ∧
  Apply target (mutation options rkey 2 ":flag" Flag "" 4) w1 = (Ok replayed, w2) ∧
  msRevision replayed = msRevision flagged ∧ msUpdatedAt replayed = msUpdatedAt flagged.

Lemma read_back_ok target rkey raw message w w' : read_back options target rkey raw message w = (Ok tt, w') → bytes_read target raw.
Proof.
  unfold read_back. destruct (GetBlob _ _ w) as [[readback|e] w1] eqn:E; [|done].
  destruct (String.eqb_spec readback raw) as [->|]; [|done]. cbn [negb orb].
  destruct (ValidateStoredMessage _ _ _ _) as [[]|] eqn:Ev; [|done]. intros _. by exists rkey, message, w, w1.
Qed.
Lemma create_holds target capabilities w : holds (create_message options target) (report_with target capabilities no_checks, w)
  (λ _ s, bytes_read target (synthetic_message (opRunID options)) ∧
     s.1 = report_with target capabilities (MkChecks true true false false false false false false)).
Proof.
  unfold create_message, passes. certify_steps. split; [|done].
  match goal with E : read_back _ _ _ _ _ _ = (Ok ?u, _) |- _ => destruct u; by apply read_back_ok in E end.
Qed.
Lemma contend_holds target capabilities pair_ stored w :
  holds (contend options target pair_ stored) (report_with target capabilities (MkChecks true true false false false false false false), w)
  (λ _ s, conflict_seen target ∧ s.1 = report_with target capabilities (MkChecks true true true false false false false false)).
Proof.
  unfold contend, passes. certify_steps. split; [|done].
  match goal with E : match ?lost with Ok _ => true | Err _ => _ end = false |- _ => destruct lost as [|e]; [done|apply negb_false_iff in E] end.
  unfold conflict_seen. eauto 12.
Qed.
Lemma flag_holds target capabilities pair_ w :
  holds (flag_and_move options target pair_) (report_with target capabilities (MkChecks true true true false false false false false), w)
  (λ _ s, replay_seen target ∧ s.1 = report_with target capabilities (MkChecks true true true true true false false false)).
Proof.
  unfold flag_and_move, passes. certify_steps. split; [|done].
  match goal with E : match ?x with Ok _ => _ | Err _ => true end = false |- _ =>
    destruct x as [replayed|]; [|done]; apply orb_false_iff in E as [Er%negb_false_iff%N.eqb_eq Eu%negb_false_iff%String.eqb_eq] end.
  unfold replay_seen. eauto 10.
Qed.
Lemma replace_holds target capabilities pair_ moved w :
  holds (replace_version options target pair_ moved) (report_with target capabilities (MkChecks true true true true true false false false), w)
  (λ _ s, bytes_read target (edited_message (synthetic_message (opRunID options))) ∧
     s.1 = report_with target capabilities (MkChecks true true true true true true false false)).
Proof.
  unfold replace_version, passes. certify_steps. split; [|done].
  match goal with E : read_back _ _ _ _ _ _ = (Ok ?u, _) |- _ => destruct u; by apply read_back_ok in E end.
Qed.

(** A rebuild that is accepted. *)
Definition accepted_rebuild (target : Target) (name : string) (tombstones : Z) (w : W) (report : Report) : Prop :=
  ∃ w', Rebuild target (Clean (opWorkDir options +:+ "/" +:+ name)) w = ((report, None), w') ∧ Passed report = true ∧
    rtMessages report = 2%Z ∧ rtStates report = 2%Z ∧ rtTombstones report = tombstones.
Lemma rebuilt_holds target name tombstones r w (Q : Report → CertificateReport * W → Prop) : crPassed r = false →
  (∀ report w', accepted_rebuild target name tombstones w report → Q report (r, w')) → holds (rebuilt options target name tombstones) (r, w) Q.
Proof.
  intros Hr HQ. unfold holds, rebuilt, in_world, beside. cbn [fst snd]. destruct (Rebuild _ _ w) as [[report err] w'] eqn:E.
  destruct (negb _ || _ || _ || _ || _) eqn:Eb; [done|]. rewrite !orb_false_iff, !negb_false_iff in Eb.
  destruct Eb as ((((Ee & Hp) & Hm) & Hs) & Ht). destruct err; [done|]. apply HQ. exists w'.
  split; [done|]. split; [done|]. by rewrite <- !Z.eqb_eq.
Qed.
Definition final_report (target : Target) (capabilities : Capabilities) (before after : Report) : CertificateReport :=
  MkCertificate 2 (ProviderID (W := W)) (tgEpoch target) (targetHash target) capabilities
    (MkChecks true true true true true true true true) (summarize before) (summarize after) true.
Lemma delete_holds target capabilities edited w :
  holds (delete_and_rebuild options target edited) (report_with target capabilities (MkChecks true true true true true true false false), w)
  (λ _ s, ∃ before w1 after w2, accepted_rebuild target "before-delete.sqlite" 1 w1 before ∧
     accepted_rebuild target "after-delete.sqlite" 2 w2 after ∧ s.1 = final_report target capabilities before after).
Proof.
  unfold delete_and_rebuild, passes. apply holds_bind, rebuilt_holds; [done|]. intros before w1 Hbefore. certify_steps.
  apply rebuilt_holds; [done|]. intros after w3 Hafter. certify_steps. by eexists before, _, after, _.
Qed.

Record observed (target : Target) (capabilities : Capabilities) : Prop := {
  ob_capabilities : complete_capabilities capabilities = true;
  ob_target : Target_ValidateFor target (opRecipientDID options) = Ok tt;
  ob_empty : ∃ w, empty_space w target;
  ob_bytes : bytes_read target (synthetic_message (opRunID options));
  ob_conflict : conflict_seen target;
  ob_replay : replay_seen target;
  ob_edited : bytes_read target (edited_message (synthetic_message (opRunID options)))
}.
Lemma certify_holds w : holds (certify options) (set_crVersion zero_certificate 2, w) (λ _ s,
  ∃ target capabilities before w1 after w2, observed target capabilities ∧
    accepted_rebuild target "before-delete.sqlite" 1 w1 before ∧ accepted_rebuild target "after-delete.sqlite" 2 w2 after ∧
    s.1 = final_report target capabilities before after).
Proof.
  unfold certify. apply holds_if; [done|]. intros _. apply holds_bind.
  eapply holds_mono; [|apply prepare_holds]. intros target [r w1] (capabilities & w0 & Hcap & Ht & He & Er). cbn [fst] in Er. subst r.
  apply holds_bind. eapply holds_mono; [|apply create_holds]. intros [pair_ stored] [r w2] [Hbytes Er]. cbn [fst] in Er. subst r.
  apply holds_bind. eapply holds_mono; [|apply contend_holds]. intros _ [r w3] [Hconflict Er]. cbn [fst] in Er. subst r.
  apply holds_bind. eapply holds_mono; [|apply flag_holds]. intros moved [r w4] [Hreplay Er]. cbn [fst] in Er. subst r.
  apply holds_bind. eapply holds_mono; [|apply replace_holds]. intros edited [r w5] [Hedited Er]. cbn [fst] in Er. subst r.
  eapply holds_mono; [|apply delete_holds]. intros _ s (before & w6 & after & w7 & Hb & Ha & Es).
  exists target, capabilities, before, w6, after, w7. split; [split; eauto|]. split; [exact Hb|]. split; [exact Ha|exact Es].
Qed.
End outcome.

(** ** What the two rebuilds have seen *)

Lemma sum_by_count (p : decodedMessage → bool) items :
  sum_by (λ item, if p item then 1 else 0)%Z items = Z.of_nat (List.length (filter (λ item, p item = true) items)).
Proof.
  assert (Hn : ∀ n, fold_left (λ n item, (n + (if p item then 1 else 0))%Z) items n =
    (n + Z.of_nat (List.length (filter (λ item, p item = true) items)))%Z); [|exact (Hn 0%Z)].
  induction items as [|item items IH]; intros n; cbn [fold_left]; [rewrite filter_nil; cbn; lia|].
  rewrite IH, filter_cons. destruct (p item); [rewrite decide_True by done; cbn [List.length]; lia|rewrite decide_False by done; lia].
Qed.

Section certified.
Context `{Syntax} `{CaseOrbits} {W : Type} `{RepositoryLaws W} `{Files W} `{!FilesLaws W} `{!ReliableFiles W} `{MakeDir W}.
Context (options : Options).

(** The space holds two messages, so many of them deleted, and every blob is the stored message. *)
Definition holds_two (w : W) (target : Target) (deleted : nat) (report : Report) : Prop :=
  ∃ frs srs mrs folders items, projectable w target frs srs mrs folders items ∧ List.length mrs = 2%nat ∧
    List.length (filter (λ item, msTombstone (dmState item) = true) items) = deleted ∧
    report = projected_report w target (List.length frs) (sort_by dm_key items).

Lemma accepted_holds target name deleted w report : accepted_rebuild options target name (Z.of_nat deleted) w report →
  holds_two w target deleted report.
Proof.
  intros (w' & Hrun & _ & Hm & _ & Ht). set (path := Clean _) in Hrun.
  assert (Hd : HasPrefix path "/" = true) by apply HasPrefix_app.
  assert (Hv : Target_ValidateFor target (tgRepoDID target) = Ok tt).
  { unfold Rebuild, guarded, returns in Hrun. rewrite Hd in Hrun. by destruct (Target_ValidateFor _ _) as [[]|]. }
  assert (Hl : (Lstat path w).1 = Ok false).
  { unfold Rebuild, guarded, returns in Hrun. rewrite Hd, Hv in Hrun. by destruct (Lstat path w) as [[[]|] ?]. }
  pose proof (proj2 (rebuild_runs w target path Hv Hd) Hl) as Ho. rewrite Hrun in Ho.
  destruct Ho as (frs & srs & mrs & folders & items & ids & db & Hp & _ & _ & Hr & _). exists frs, srs, mrs, folders, items.
  pose proof (Forall2_length _ _ _ (gr_items _ _ _ _ _ (pj_graph _ _ _ _ _ _ _ Hp))) as Hlen.
  rewrite Hr in Hm, Ht. cbn [projected_report rtMessages rtTombstones] in Hm, Ht. rewrite sum_by_count in Ht.
  rewrite (Permutation_length (sort_by_perm dm_key items)) in Hm.
  rewrite (Permutation_length (filter_Permutation _ _ _ (sort_by_perm dm_key items))) in Ht. split_and!; [done|lia|lia|done].
Qed.

(** C14. A certificate means what it says. A run that ends without an error returns a report that
    passes, and has seen: the capabilities; a fresh space; the bytes of both versions read back;
    of two writes from one state the first kept and the second refused as a conflict; a
    repeated operation without effect; and, in the worlds of its two rebuilds, a space of two
    messages with valid blobs, of which one is deleted and then both, as the summaries count
    them. A run that ends with an error returns a report that does not pass. *)
Theorem certificate_contract (w : W) :
  match Run options w with
  | ((report, None), _) => ∃ target capabilities before w1 after w2, observed options target capabilities ∧
      holds_two w1 target 1 before ∧ holds_two w2 target 2 after ∧ report = final_report target capabilities before after
  | ((report, Some _), _) => crPassed report = false
  end.
Proof.
  pose proof (certify_holds options w) as Hc. unfold holds in Hc. unfold Run.
  destruct (certify options _) as [[u|e] [report w']]; cbn [fst] in Hc; [|done].
  destruct Hc as (target & capabilities & before & w1 & after & w2 & Hob & Hb & Ha & ->).
  exists target, capabilities, before, w1, after, w2. split; [done|].
  split; [exact (accepted_holds target _ 1 w1 before Hb)|]. split; [exact (accepted_holds target _ 2 w2 after Ha)|done].
Qed.
End certified.

(** ** The report as evidence *)

(** A report of machine-width numbers whose strings are valid UTF-8. *)
Definition summary_typed (s : ProjectionSummary) : Prop :=
  Forall (λ z, - 2 ^ 63 <= z < 2 ^ 63)%Z [pmFolders s; pmMessages s; pmStates s; pmTombstones s; pmTotalBytes s] ∧ valid_text (pmManifestSHA256 s).
Record certificate_typed (r : CertificateReport) : Prop := {
  cy_version : (- 2 ^ 63 <= crVersion r < 2 ^ 63)%Z;
  cy_texts : Forall valid_text [crProviderID r; crProviderEpoch r; crTargetSHA256 r];
  cy_before : summary_typed (crBeforeDelete r);
  cy_after : summary_typed (crAfterDelete r)
}.

Lemma printable_certificate r : printable (certificate_json r).
Proof. unfold certificate_json, provider_capabilities_json, checks_json, summary_json. solve_printable. Qed.
Lemma utf8_certificate r : certificate_typed r → utf8_json (certificate_json r) = true.
Proof.
  intros [_ Ht [_ Hb] [_ Ha]]. unfold valid_text in *. apply Forall_cons in Ht as [H1 Ht]. apply Forall_cons in Ht as [H2 Ht]. apply Forall_cons in Ht as [H3 _].
  unfold certificate_json, provider_capabilities_json, checks_json, summary_json. cbn [utf8_json forallb fst snd].
  by rewrite H1, H2, H3, Hb, Ha.
Qed.

Section evidence.
Context `{Syntax} `{CaseOrbits}.

Lemma decode_capabilities_json c old : decode_strict capabilities_fields (provider_capabilities_json c) old = Some c.
Proof. by destruct c, old. Qed.
Lemma decode_checks_json c old : decode_strict checks_fields (checks_json c) old = Some c.
Proof. by destruct c, old. Qed.
Lemma decode_summary_json s old : summary_typed s → decode_strict summary_fields (summary_json s) old = Some s.
Proof.
  destruct s as [a b c d e m], old as [a1 b1 c1 d1 e1 m1]. intros [Hz _]. cbn [pmFolders pmMessages pmStates pmTombstones pmTotalBytes] in Hz.
  repeat match type of Hz with Forall _ (_ :: _) => apply Forall_cons in Hz as [? Hz] end.
  unfold decode_strict. change (known summary_fields _) with true. cbv iota.
  cbn -[json_Z decode_int64]. by rewrite !decode_int64_json by done.
Qed.
Lemma decode_certificate_json r : certificate_typed r → decode_certificate (print (certificate_json r)) = Some r.
Proof.
  intros Ht. unfold decode_certificate. rewrite parse_print_utf8 by (apply printable_certificate || by apply utf8_certificate).
  destruct Ht as [Hv _ Hb Ha]. destruct r as [v p e t c k b a passed]. cbn [crVersion crBeforeDelete crAfterDelete] in *.
  unfold decode_strict at 1. change (known certificate_fields _) with true. cbv iota.
  cbn -[json_Z decode_int64 provider_capabilities_json checks_json summary_json capabilities_fields checks_fields summary_fields decode_strict].
  rewrite decode_int64_json by done.
  cbn -[provider_capabilities_json checks_json summary_json capabilities_fields checks_fields summary_fields decode_strict].
  rewrite decode_capabilities_json.
  cbn -[checks_json summary_json checks_fields summary_fields decode_strict]. rewrite decode_checks_json.
  cbn -[summary_json summary_fields decode_strict]. rewrite decode_summary_json by done.
  cbn -[summary_json summary_fields decode_strict]. by rewrite decode_summary_json by done.
Qed.

Context {W F : Type} `{Repository W} `{Files W} `{MakeDir W} `{FileSystem F}.

Lemma certifies_final target capabilities before after providerID epoch : complete_capabilities capabilities = true →
  certifies (final_report (W := W) target capabilities before after) providerID epoch = true ↔
  providerID = ProviderID (W := W) ∧ epoch = tgEpoch target.
Proof.
  unfold complete_capabilities. rewrite !andb_true_iff. intros [[Hc1 Hc2] Hc3].
  assert (Hh : targetHash target ≠ "").
  { intros E. pose proof (f_equal len E) as El. unfold targetHash in El. by rewrite len_hex_sha256 in El. }
  unfold certifies, final_report. cbn [crVersion crPassed crChecks crProviderID crProviderEpoch crTargetSHA256 crCapabilities].
  rewrite Hc1, Hc2, Hc3. change (allChecks _) with true. cbn [negb orb]. change (2 =? 2)%Z with true. cbn [negb orb].
  apply String.eqb_neq in Hh. rewrite Hh.
  destruct (String.eqb_spec (ProviderID (W := W)) providerID) as [E1|E1], (String.eqb_spec (tgEpoch target) epoch) as [E2|E2]; cbn; naive_solver.
Qed.

(** C15. Evidence is exact. The report of a run that succeeded, stored in a private file, is
    accepted for the provider and the epoch that were certified, when these are names without
    blanks, and for no others; what is returned is the digest of the stored text. *)
Theorem evidence_exact (options : Options) (w w' : W) (report : CertificateReport) (path providerID epoch digest : string) (f f' : F)
    (Hrun : Run options w = ((report, None), w')) (Htyped : certificate_typed report)
    (Hread : Read path 65536 f = (Ok (print (certificate_json report)), f')) :
  (LoadProviderEvidence path providerID epoch f).1 = Ok digest ↔
  providerID = crProviderID report ∧ epoch = crProviderEpoch report ∧ digest = hex_encode (sha256 (print (certificate_json report))) ∧
  providerID ≠ "" ∧ epoch ≠ "" ∧ ContainsAny (providerID +:+ epoch) blanks = false.
Proof.
  pose proof (certify_holds options w) as Hc. unfold holds in Hc. unfold Run in Hrun.
  destruct (certify options _) as [[u|e] [report' w2]]; cbn [fst] in Hc; [|done]. injection Hrun as <- <-.
  destruct Hc as (target & capabilities & before & w1 & after & w3 & Hob & _ & _ & Er). cbn [fst] in Er. subst report'.
  set (report := final_report target capabilities before after) in *. set (data := print (certificate_json report)) in *.
  pose proof (certifies_final target capabilities before after providerID epoch (ob_capabilities _ _ _ Hob)) as Hcert. fold report in Hcert.
  change (crProviderID report) with (ProviderID (W := W)). change (crProviderEpoch report) with (tgEpoch target).
  assert (Hpath : negb (HasPrefix path "/") || String.eqb path "/" = false).
  { unfold Read in Hread. by destruct (negb (HasPrefix path "/") || String.eqb path "/"). }
  assert (Hcheck : check_evidence data providerID epoch = Ok digest ↔
    certifies report providerID epoch = true ∧ digest = hex_encode (sha256 data)).
  { unfold check_evidence. assert (String.eqb data "" = false) as -> by done. unfold data at 1. rewrite decode_certificate_json by done.
    cbn [opt_result result_bind]. destruct (certifies _ _ _); cbn [negb]; [|split; [discriminate|intros [? _]; discriminate]]. split; [by intros [= <-]|by intros [_ ->]]. }
  unfold LoadProviderEvidence. rewrite Hpath. cbn [orb].
  generalize dependent (hex_encode (sha256 data)). intros hash Hcheck.
  destruct (String.eqb_spec providerID "") as [Hp|Hp]; [split; [discriminate|]; intros (_ & _ & _ & Hn & _); by destruct Hn|].
  destruct (String.eqb_spec epoch "") as [He|He]; [split; [discriminate|]; intros (_ & _ & _ & _ & Hn & _); by destruct Hn|].
  cbn [orb]. destruct (ContainsAny (providerID +:+ epoch) blanks); [split; [discriminate|]; intros (_ & _ & _ & _ & _ & Hn); discriminate Hn|].
  unfold call_bind, returns. rewrite Hread. cbn [fst]. rewrite Hcheck, Hcert. split.
  - intros [[-> ->] ->]. exact (conj eq_refl (conj eq_refl (conj eq_refl (conj Hp (conj He eq_refl))))).
  - intros (-> & -> & -> & _). exact (conj (conj eq_refl eq_refl) eq_refl).
Qed.
End evidence.

(** ** The in-memory provider is certified *)

#[export] Instance disk_mkdir : MakeDir disk_world := λ path w,
  if bool_decide (path ∈ dwPaths w) then (Err ErrOther, w) else (Ok tt, MkDiskWorld (dwMail w) ({[path]} ∪ dwPaths w) (dwLog w)).
Definition sample_options : Options := MkOptions "did:plc:alice" "cert-run-1" "run-1" "/tmp/artifacts" (time_Unix 1784235600 0).
Definition fresh_disk : disk_world := MkDiskWorld (MkMemoryWorld alice NewBackend) ∅ [].
Definition sample_report : CertificateReport := Eval vm_compute in (Run sample_options fresh_disk).1.1.
Lemma sample_certified : (Run sample_options fresh_disk).1 = (sample_report, None).
Proof. vm_compute. reflexivity. Qed.

Lemma certificate_contract_witness : ∃ (target : Target) capabilities, observed (W := disk_world) sample_options target capabilities.
Proof.
  pose proof (certificate_contract sample_options fresh_disk) as Hc. pose proof sample_certified as Hn.
  destruct (Run sample_options fresh_disk) as [[report e] w']. cbn [fst] in Hn. injection Hn as _ ->.
  destruct Hc as (target & capabilities & before & w1 & after & w2 & Hob & _). by exists target, capabilities.
Defined.

Definition evidence_path : string := "/etc/comail/evidence.json".
Definition evidence_disk : plain_disk := private_disk evidence_path (print (certificate_json sample_report)).
Lemma sample_typed : certificate_typed sample_report.
Proof. split; [done|repeat constructor|split; [|done]; repeat constructor; done|split; [|done]; repeat constructor; done]. Qed.
Lemma evidence_read : Read evidence_path 65536 evidence_disk =
  (Ok (print (certificate_json sample_report)), (Read evidence_path 65536 evidence_disk).2).
Proof. vm_compute. reflexivity. Qed.

Lemma evidence_exact_witness : ∃ digest, (LoadProviderEvidence evidence_path "memory-v1" "memory-v1" evidence_disk).1 = Ok digest.
Proof.
  pose proof sample_certified as Hr. destruct (Run sample_options fresh_disk) as [o w'] eqn:E. cbn [fst] in Hr. subst o.
  exists (hex_encode (sha256 (print (certificate_json sample_report)))).
  refine (proj2 (evidence_exact sample_options fresh_disk w' sample_report evidence_path "memory-v1" "memory-v1"
    (hex_encode (sha256 (print (certificate_json sample_report)))) evidence_disk _ E sample_typed evidence_read) _).
  do 3 (split; [exact eq_refl|]). do 2 (split; [discriminate|]). exact eq_refl.
Defined.
