(* ===== verification/Broker.v ===== *)
(** * internal/onboardingbroker/handler.go: the browser handoff

    The broker hands a browser through two logins and keeps, per account, the handles of the
    sessions that it has to revoke one day.  Its records live in a store with compare-and-swap;
    the store and the login driver are classes of state-passing calls, and a call may find the
    world changed by others.  A response is a value; the headers every response has and the
    deadlines of single calls are left out. *)
From S2P Require Import Prelude Sha256 GoStd Syntax Unicode Json Base64 Time Url Mailbox Repository Decode Car Http State.

Definition flowTTL : Z := 15 * 60 * 1000000000.
Definition maxStartBodyBytes : N := 4096.
Definition maxRevokeBodyBytes : N := 4096.
Definition maxRetiredSessions : N := 16.
Definition maxRevokeCASAttempts : nat := 8.

Record Account : Type := MkAccount {
  acDID : string;
  acHandle : string;
  acPDSOrigin : string;
  acSpaceKey : string
}.
Record StartResult : Type := MkStartResult { sgState : string; sgAuthorizationURL : string }.
Record ClientMetadata : Type := MkClientMetadata { cmClientID : string; cmRedirectURIs : list string; cmEncoded : json }.
Definition url_values : Type := gmap string (list string).

(** The two kinds of sessions, which never share a record or a way to revoke them. *)
Inductive grant : Type := Provisioning | Steady.
#[export] Instance grant_eq_dec : EqDecision grant.
Proof. solve_decision. Defined.
#[export] Instance grant_countable : Countable grant.
Proof. refine (inj_countable' (λ g, match g with Provisioning => true | Steady => false end)
  (λ b : bool, if b then Provisioning else Steady) _). by intros []. Defined.

(** [expected] is [None] for a record that must not be there; records stay without a time limit
    but for those of [store_Create]. *)
Class RecordStore (W : Type) : Type := {
  store_Create : string → string → time → W → result unit * W;
  store_Get : string → W → result string * W;
  store_Consume : string → W → result string * W;
  store_CompareAndSwap : string → option string → string → W → result bool * W;
  store_CompareAndDelete : string → string → W → result bool * W;
  (** not part of the Go interface: the record under a name *)
  stored : W → string → option string
}.
(** A login that is finished may give a session together with an error. *)
Class OAuthDriver (W : Type) : Type := {
  driver_StartProvisioning : Account → W → result StartResult * W;
  driver_FinishProvisioning : Account → url_values → W → (string * option error) * W;
  driver_RetireProvisioning : Account → string → W → result unit * W;
  driver_StartSteady : Account → W → result StartResult * W;
  driver_FinishSteady : Account → url_values → W → (string * option error) * W;
  driver_CheckSteady : Account → string → W → result unit * W;
  driver_RetireSteady : Account → string → W → result unit * W;
  driver_ClientMetadata : string → option ClientMetadata;
  (** not part of the Go interface: the sessions that have been retired *)
  retired : W → gset (grant * string)
}.
(** The deadline of a request, the clock and the random source. *)
Class Ambient (W : Type) : Type := {
  request_Err : W → result unit * W;
  now_UTC : W → time * W;
  random_bytes : N → W → result string * W
}.

(** ** Records *)

Record flowRecord : Type := MkFlow { fwVersion : Z; fwAccountFingerprint : string }.
Record readyRecord : Type := MkReady {
  ryVersion : Z;
  ryAccountFingerprint : string;
  rySessionID : string;
  ryRetiredSessionIDs : slice string
}.
Record discardedRecord : Type := MkDiscarded {
  dcVersion : Z;
  dcAccountFingerprint : string;
  dcSessionIDs : slice string
}.
Definition set_fwVersion (r : flowRecord) (x : Z) := MkFlow x (fwAccountFingerprint r).
Definition set_fwAccountFingerprint (r : flowRecord) (x : string) := MkFlow (fwVersion r) x.
Definition set_ryVersion (r : readyRecord) (x : Z) := MkReady x (ryAccountFingerprint r) (rySessionID r) (ryRetiredSessionIDs r).
Definition set_ryAccountFingerprint (r : readyRecord) (x : string) := MkReady (ryVersion r) x (rySessionID r) (ryRetiredSessionIDs r).
Definition set_rySessionID (r : readyRecord) (x : string) := MkReady (ryVersion r) (ryAccountFingerprint r) x (ryRetiredSessionIDs r).
Definition set_ryRetiredSessionIDs (r : readyRecord) (x : slice string) := MkReady (ryVersion r) (ryAccountFingerprint r) (rySessionID r) x.
Definition set_dcVersion (r : discardedRecord) (x : Z) := MkDiscarded x (dcAccountFingerprint r) (dcSessionIDs r).
Definition set_dcAccountFingerprint (r : discardedRecord) (x : string) := MkDiscarded (dcVersion r) x (dcSessionIDs r).
Definition set_dcSessionIDs (r : discardedRecord) (x : slice string) := MkDiscarded (dcVersion r) (dcAccountFingerprint r) x.

Definition flow_json (r : flowRecord) : json :=
  JObj [("version", json_Z (fwVersion r)); ("accountFingerprint", JStr (fwAccountFingerprint r))].
Definition ready_json (r : readyRecord) : json :=
  JObj ([("version", json_Z (ryVersion r)); ("accountFingerprint", JStr (ryAccountFingerprint r)); ("sessionId", JStr (rySessionID r))] ++
        omit_if (llen (elems (ryRetiredSessionIDs r)) =? 0) "retiredSessionIds" (json_slice (ryRetiredSessionIDs r))).
Definition discarded_json (r : discardedRecord) : json :=
  JObj [("version", json_Z (dcVersion r)); ("accountFingerprint", JStr (dcAccountFingerprint r)); ("sessionIds", json_slice (dcSessionIDs r))].

Section records.
Context `{CaseOrbits}.

(** [decodeRecord]: one value, every member known, into a value that keeps what is not named. *)
Definition decodeRecord {S} (fields : list (field S)) (data : string) (s : S) : option S :=
  match parse data with Some j => decode_strict fields j s | None => None end.
Definition flow_fields : list (field flowRecord) :=
  [mk_field "version" decode_int64 fwVersion set_fwVersion;
   mk_field "accountFingerprint" decode_string fwAccountFingerprint set_fwAccountFingerprint].
Definition ready_fields : list (field readyRecord) :=
  [mk_field "version" decode_int64 ryVersion set_ryVersion;
   mk_field "accountFingerprint" decode_string ryAccountFingerprint set_ryAccountFingerprint;
   mk_field "sessionId" decode_string rySessionID set_rySessionID;
   mk_field "retiredSessionIds" decode_strings ryRetiredSessionIDs set_ryRetiredSessionIDs].
Definition discarded_fields : list (field discardedRecord) :=
  [mk_field "version" decode_int64 dcVersion set_dcVersion;
   mk_field "accountFingerprint" decode_string dcAccountFingerprint set_dcAccountFingerprint;
   mk_field "sessionIds" decode_strings dcSessionIDs set_dcSessionIDs].
Definition decode_ready (data : string) : option readyRecord := decodeRecord ready_fields data (MkReady 0 "" "" None).
End records.

Definition accountFingerprint (account : Account) : string :=
  "sha256-" +:+ hex_encode (sha256 (("comail-onboarding-account-v1" +:+ NUL) +:+ acDID account +:+ NUL +:+ acPDSOrigin account +:+ NUL +:+
    acSpaceKey account)).
Definition recordName (kind secret : string) : string := kind +:+ ":" +:+ hex_encode (sha256 (kind +:+ NUL +:+ secret)).
Definition readyRecordName (did : string) : string := recordName "ready" did.
Definition discardedRecordName (did : string) : string := recordName "discarded" did.
Definition provisioningDiscardedRecordName (did : string) : string := recordName "discarded-provisioning" did.

Definition validSessionID (sessionID : string) : bool :=
  negb (String.eqb sessionID "") && (len sessionID <=? 1024) && negb (ContainsAny sessionID line_breaks).
(** Valid and not seen before. *)
Fixpoint fresh_sessions (seen : gset string) (sessionIDs : list string) : bool :=
  match sessionIDs with
  | [] => true
  | sessionID :: rest =>
      validSessionID sessionID && negb (bool_decide (sessionID ∈ seen)) && fresh_sessions ({[sessionID]} ∪ seen) rest
  end.
Definition validReadyRecord (ready : readyRecord) (account : Account) : bool :=
  negb (negb (ryVersion ready =? 1)%Z || negb (String.eqb (ryAccountFingerprint ready) (accountFingerprint account)) ||
    negb (validSessionID (rySessionID ready)) || (maxRetiredSessions <? llen (elems (ryRetiredSessionIDs ready)))) &&
  fresh_sessions {[rySessionID ready]} (elems (ryRetiredSessionIDs ready)).
Definition validDiscardedRecord (discarded : discardedRecord) (account : Account) : bool :=
  negb (negb (dcVersion discarded =? 1)%Z || negb (String.eqb (dcAccountFingerprint discarded) (accountFingerprint account)) ||
    (maxRetiredSessions <? llen (elems (dcSessionIDs discarded)))) &&
  fresh_sessions ∅ (elems (dcSessionIDs discarded)).

Definition unique_step (s : gset string * list string) (sessionID : string) : gset string * list string :=
  if bool_decide (sessionID ∈ s.1) then s else ({[sessionID]} ∪ s.1, s.2 ++ [sessionID]).
Definition uniqueSessionIDs (input : list string) (active : string) : list string := (fold_left unique_step input ({[active]}, [])).2.

(** ** The sessions of an account *)

Section sessions.
Context `{CaseOrbits} {W : Type} `{RecordStore W} `{OAuthDriver W} `{Ambient W}.

(** A failed read that is [authvault.ErrNotFound] is the absence of the record. *)
Definition get_record (name : string) : W → result (option string) * W := λ w,
  match store_Get name w with
  | (Ok encoded, w) => (Ok (Some encoded), w)
  | (Err e, w) => (if errors_Is e ErrRecordNotFound then Ok None else Err e, w)
  end.
Definition join_error (combined : option error) (e : error) : option error :=
  match combined with Some c => Some (ErrJoin c e) | None => Some e end.

(** Every session is tried; those whose retirement fails are returned. *)
Fixpoint retire_remaining (retire : string → W → result unit * W) (sessionIDs : list string) (w : W) : list string * W :=
  match sessionIDs with
  | [] => ([], w)
  | sessionID :: rest =>
      let '(r, w) := retire sessionID w in
      let '(remaining, w) := retire_remaining retire rest w in
      ((match r with Ok _ => [] | Err _ => [sessionID] end) ++ remaining, w)
  end.
Definition cleanupRetired (name encoded : string) (account : Account) (ready : readyRecord) (w : W) : W :=
  let sessionIDs := elems (ryRetiredSessionIDs ready) in
  match sessionIDs with
  | [] => w
  | _ =>
      let '(remaining, w) := retire_remaining (driver_RetireSteady account) sessionIDs w in
      if llen remaining =? llen sessionIDs then w
      else (store_CompareAndSwap name (Some encoded) (print (ready_json (set_ryRetiredSessionIDs ready (Some remaining)))) w).2
  end.

Definition next_ready (previous : readyRecord) (account : Account) (sessionID : string) : readyRecord :=
  let retired := elems (ryRetiredSessionIDs previous) ++
    (if negb (String.eqb (rySessionID previous) "") && negb (String.eqb (rySessionID previous) sessionID) then [rySessionID previous] else []) in
  MkReady 1 (accountFingerprint account) sessionID (Some (uniqueSessionIDs retired sessionID)).
Definition read_ready (account : Account) (current : option string) : result readyRecord :=
  match current with
  | None => Ok (MkReady 0 "" "" None)
  | Some encoded =>
      match decode_ready encoded with
      | Some previous => if validReadyRecord previous account then Ok previous else Err ErrOther
      | None => Err ErrOther
      end
  end.
Fixpoint replace_attempts (fuel : nat) (name : string) (account : Account) (sessionID : string) : W → result unit * W :=
  match fuel with
  | O => returns (Err ErrOther)
  | S fuel =>
      call? current := get_record name in
      call? previous := returns (read_ready account current) in
      let next := next_ready previous account sessionID in
      return_if maxRetiredSessions <? llen (elems (ryRetiredSessionIDs next)) with Err ErrOther ;;
      let nextEncoded := print (ready_json next) in
      call? swapped := store_CompareAndSwap name current nextEncoded in
      if swapped : bool then λ w, (Ok tt, cleanupRetired name nextEncoded account next w)
      else replace_attempts fuel name account sessionID
  end.
Definition replaceReadySession (name : string) (account : Account) (sessionID : string) : W → result unit * W :=
  replace_attempts 8 name account sessionID.

(** Each session once, as long as the request may go on; every error is kept. *)
Fixpoint retire_each (retire : string → W → result unit * W) (sessionIDs : list string) (combined : option error) (w : W) : option error * W :=
  match sessionIDs with
  | [] => (combined, w)
  | sessionID :: rest =>
      match request_Err w with
      | (Err e, w) => retire_each retire rest (join_error combined e) w
      | (Ok _, w) =>
          match retire sessionID w with
          | (Ok _, w) => retire_each retire rest combined w
          | (Err e, w) => retire_each retire rest (join_error combined e) w
          end
      end
  end.
Definition retireSessions (account : Account) (sessionIDs : list string) (w : W) : option error * W :=
  retire_each (driver_RetireSteady account) (uniqueSessionIDs sessionIDs "") None w.
Definition retireProvisioningSessions (account : Account) (sessionIDs : list string) (w : W) : option error * W :=
  retire_each (driver_RetireProvisioning account) (uniqueSessionIDs sessionIDs "") None w.

(** The sessions of one snapshot of the record are retired, and the record is deleted when it is
    still that snapshot. *)
Fixpoint revoke_attempts (fuel : nat) (name : string) (sessions : string → option (list string))
    (retire : list string → W → option error * W) : W → result unit * W :=
  match fuel with
  | O => returns (Err errRevocationIncomplete)
  | S fuel =>
      call? current := get_record name in
      match current with
      | None => returns (Ok tt)
      | Some encoded =>
          call? sessionIDs := returns (opt_result (sessions encoded) ErrOther) in
          λ w,
          match retire sessionIDs w with
          | (Some e, w) => (Err (ErrJoin errRevocationIncomplete e), w)
          | (None, w) =>
              (call? deleted := store_CompareAndDelete name encoded in
               if deleted : bool then returns (Ok tt) else revoke_attempts fuel name sessions retire) w
          end
      end
  end.
Definition ready_sessions (account : Account) (encoded : string) : option (list string) :=
  match decode_ready encoded with
  | Some ready => if validReadyRecord ready account then Some (rySessionID ready :: elems (ryRetiredSessionIDs ready)) else None
  | None => None
  end.
Definition no_discarded : discardedRecord := MkDiscarded 0 "" None.
Definition discarded_sessions (account : Account) (encoded : string) : option (list string) :=
  match decodeRecord discarded_fields encoded no_discarded with
  | Some discarded => if validDiscardedRecord discarded account then Some (elems (dcSessionIDs discarded)) else None
  | None => None
  end.
Definition revokeReadyState (account : Account) : W → result unit * W :=
  revoke_attempts maxRevokeCASAttempts (readyRecordName (acDID account)) (ready_sessions account) (retireSessions account).
Definition revokeDiscardedState (account : Account) : W → result unit * W :=
  revoke_attempts maxRevokeCASAttempts (discardedRecordName (acDID account)) (discarded_sessions account) (retireSessions account).
Definition revokeProvisioningDiscardedState (account : Account) : W → result unit * W :=
  revoke_attempts maxRevokeCASAttempts (provisioningDiscardedRecordName (acDID account)) (discarded_sessions account)
    (retireProvisioningSessions account).

(** A queue that is there is decoded over the empty queue of the account. *)
Definition read_queue (account : Account) (current : option string) : result discardedRecord :=
  let empty := MkDiscarded 1 (accountFingerprint account) None in
  match current with
  | None => Ok empty
  | Some encoded =>
      match decodeRecord discarded_fields encoded empty with
      | Some discarded => if validDiscardedRecord discarded account then Ok discarded else Err ErrOther
      | None => Err ErrOther
      end
  end.
Fixpoint enqueue_attempts (fuel : nat) (name : string) (account : Account) (sessionID : string) : W → result unit * W :=
  match fuel with
  | O => returns (Err ErrOther)
  | S fuel =>
      call? current := get_record name in
      call? discarded := returns (read_queue account current) in
      let sessionIDs := uniqueSessionIDs (elems (dcSessionIDs discarded) ++ [sessionID]) "" in
      return_if maxRetiredSessions <? llen sessionIDs with Err ErrOther ;;
      call? swapped := store_CompareAndSwap name current (print (discarded_json (set_dcSessionIDs discarded (Some sessionIDs)))) in
      if swapped : bool then returns (Ok tt) else enqueue_attempts fuel name account sessionID
  end.
Definition enqueueDiscarded (account : Account) (sessionID : string) : W → result unit * W :=
  enqueue_attempts 8 (discardedRecordName (acDID account)) account sessionID.
Definition enqueueDiscardedProvisioning (account : Account) (sessionID : string) : W → result unit * W :=
  enqueue_attempts 8 (provisioningDiscardedRecordName (acDID account)) account sessionID.

(** What can be retired leaves the queue; every error is ignored. *)
Definition cleanup_queue (name : string) (account : Account) (retire : string → W → result unit * W) (w : W) : W :=
  match store_Get name w with
  | (Err _, w) => w
  | (Ok encoded, w) =>
      match decodeRecord discarded_fields encoded no_discarded with
      | None => w
      | Some discarded =>
          let sessionIDs := elems (dcSessionIDs discarded) in
          if negb (validDiscardedRecord discarded account) || (llen sessionIDs =? 0) then w
          else
            let '(remaining, w) := retire_remaining retire sessionIDs w in
            if llen remaining =? llen sessionIDs then w
            else (store_CompareAndSwap name (Some encoded) (print (discarded_json (set_dcSessionIDs discarded (Some remaining)))) w).2
      end
  end.
Definition cleanupDiscarded (account : Account) (w : W) : W :=
  cleanup_queue (discardedRecordName (acDID account)) account (driver_RetireSteady account) w.
Definition cleanupDiscardedProvisioning (account : Account) (w : W) : W :=
  cleanup_queue (provisioningDiscardedRecordName (acDID account)) account (driver_RetireProvisioning account) w.
End sessions.

(** ** The handler *)

Record BrokerHandler : Type := MkBroker {
  bkOrigin : string;
  bkRelayToken : string;
  bkReturnURL : string;
  bkAccounts : list Account
}.
(** The parts of a request that are read; the query is parsed, and the media type is that of the
    [Content-Type] header. *)
Record broker_request : Type := MkBrokerRequest {
  bqMethod : string;
  bqPath : string;
  bqRawQuery : string;
  bqFragment : string;
  bqQuery : url_values;
  bqAuthorization : string;
  bqContentType : string;
  bqBody : reader
}.
Inductive reply : Type :=
  | Unauthorized
  | Problem (status : N) (message : string)
  | WriteJSON (value : json)
  | Redirect (location : string)
  | NotFound.

Definition revoke_response : json := JObj [("version", JNum "1"); ("status", JStr "revoked")].
Definition start_response (status authorizationURL : string) : json :=
  JObj ([("version", JNum "1"); ("status", JStr status)] ++ omit_if (String.eqb authorizationURL "") "authorizationUrl" (JStr authorizationURL)).

Definition get_value (values : url_values) (key : string) : string := match values !! key with Some (v :: _) => v | _ => "" end.
Definition callback_keys : list string := ["state"; "iss"; "code"; "error"; "error_description"; "error_uri"].
Definition validCallbackValues (values : url_values) : bool :=
  negb (String.eqb (get_value values "state") "") &&
  forallb (λ kv, existsb (String.eqb kv.1) callback_keys && (llen kv.2 =? 1) && (len (default "" (head kv.2)) <=? 4096)) (map_to_list values) &&
  (if is_some (values !! "error") then
     negb (String.eqb (get_value values "error") "" || is_some (values !! "code") ||
           (is_some (values !! "iss") && String.eqb (get_value values "iss") ""))
   else if is_some (values !! "error_description") || is_some (values !! "error_uri") then false
   else is_some (values !! "iss") && negb (String.eqb (get_value values "iss") "") && is_some (values !! "code") &&
        negb (String.eqb (get_value values "code") "")).

(** [base64.RawURLEncoding], by the two letters in which it differs. *)
Definition url_letter (c : ascii) : ascii := if Ascii.eqb c "+" then "-"%char else if Ascii.eqb c "/" then "_"%char else c.
Definition std_letter (c : ascii) : ascii := if Ascii.eqb c "-" then "+"%char else if Ascii.eqb c "_" then "/"%char else c.
Fixpoint map_letters (f : ascii → ascii) (s : string) : string :=
  match s with EmptyString => EmptyString | String c s => String (f c) (map_letters f s) end.
Definition RawURLEncode (s : string) : string := map_letters url_letter (RawStdEncode s).
Definition RawURLDecode (s : string) : option string :=
  if has_byte "+" s || has_byte "/" s then None else RawStdDecode (map_letters std_letter s).
Definition validToken (token : string) : bool :=
  (len token =? 43) && match RawURLDecode token with Some decoded => len decoded =? 32 | None => false end.

Section handler.
Context `{CaseOrbits} {W : Type} `{RecordStore W} `{OAuthDriver W} `{Ambient W} (h : BrokerHandler).

Definition broker_authorized (header : string) : bool :=
  HasPrefix header "Bearer " && (len header =? len "Bearer " + len (bkRelayToken h)) && String.eqb (TrimPrefix header "Bearer ") (bkRelayToken h).
Definition account_for (did handle : string) : option Account :=
  List.find (λ account, String.eqb (acDID account) did && (String.eqb handle "" || String.eqb (acHandle account) handle)) (bkAccounts h).
Definition account_by_did (did : string) : option Account := List.find (λ account, String.eqb (acDID account) did) (bkAccounts h).

(** [decodeStrictBounded] *)
Definition decode_body {S} (fields : list (field S)) (max : N) (body : reader) (s : S) : option S :=
  let '(data, failed) := read_limited (max + 1) body in
  if failed || (max <? len data) then None else decodeRecord fields data s.
Definition revoke_fields : list (field (Z * string)) :=
  [mk_field "version" decode_int64 fst (λ s x, (x, s.2)); mk_field "did" decode_string snd (λ s x, (s.1, x))].
Record startRequest : Type := MkStartRequest { stVersion : Z; stDID : string; stHandle : string }.
Definition start_fields : list (field startRequest) :=
  [mk_field "version" decode_int64 stVersion (λ s x, MkStartRequest x (stDID s) (stHandle s));
   mk_field "did" decode_string stDID (λ s x, MkStartRequest (stVersion s) x (stHandle s));
   mk_field "handle" decode_string stHandle (λ s x, MkStartRequest (stVersion s) (stDID s) x)].
Definition json_body (request : broker_request) : bool :=
  match ParseMediaType (bqContentType request) with Some m => String.eqb m "application/json" | None => false end.

Definition errors_of (rs : list (result unit)) : list error := List.flat_map (λ r, match r with Ok _ => [] | Err e => [e] end) rs.
Definition handleRevoke (request : broker_request) (w : W) : reply * W :=
  if negb (broker_authorized (bqAuthorization request)) then (Unauthorized, w)
  else if negb (json_body request) then (Problem 415 "JSON required", w)
  else match decode_body revoke_fields maxRevokeBodyBytes (bqBody request) (0%Z, "") with
  | None => (Problem 400 "invalid request", w)
  | Some (version, did) =>
      if negb (version =? 1)%Z then (Problem 400 "invalid request", w)
      else match account_by_did did with
      | None => (Problem 403 "account is not enabled", w)
      | Some account =>
          let '(ready, w) := revokeReadyState account w in
          let '(discarded, w) := revokeDiscardedState account w in
          let '(provisioning, w) := revokeProvisioningDiscardedState account w in
          (match errors_of [ready; discarded; provisioning] with
           | [] => WriteJSON revoke_response
           | combined =>
               if existsb (λ e, errors_Is e errRevocationIncomplete) combined
               then Problem 503 "authorization revocation incomplete" else Problem 500 "authorization state is unavailable"
           end, w)
      end
  end.

Definition entry_record (account : Account) : string := print (flow_json (MkFlow 1 (accountFingerprint account))).
(** A one-time link for the browser. *)
Definition start_flow (account : Account) (w : W) : reply * W :=
  match random_bytes 32 w with
  | (Err _, w) => (Problem 500 "unable to start authorization", w)
  | (Ok data, w) =>
      let token := RawURLEncode data in
      let '(now, w) := now_UTC w in
      match store_Create (recordName "entry" token) (entry_record account) (now + flowTTL)%Z w with
      | (Err _, w) => (Problem 500 "unable to start authorization", w)
      | (Ok _, w) => (WriteJSON (start_response "authorization_required" (bkOrigin h +:+ "/onboarding/" +:+ token)), w)
      end
  end.
(** What a ready record says: an answer, or that a new login is needed. *)
Definition check_ready (account : Account) (name encoded : string) (w : W) : option reply * W :=
  match decode_ready encoded with
  | None => (Some (Problem 500 "authorization state is unavailable"), w)
  | Some ready =>
      if negb (validReadyRecord ready account) then (Some (Problem 500 "authorization state is unavailable"), w)
      else match driver_CheckSteady account (rySessionID ready) w with
      | (Ok _, w) => (Some (WriteJSON (start_response "ready" "")), cleanupRetired name encoded account ready w)
      | (Err e, w) =>
          (if negb (errors_Is e ErrSteadyReauthorizationRequired) then Some (Problem 503 "authorization provider unavailable")
           else if maxRetiredSessions <=? llen (elems (ryRetiredSessionIDs ready)) then Some (Problem 503 "authorization cleanup required")
           else None, w)
      end
  end.
Definition handleStart (request : broker_request) (w : W) : reply * W :=
  if negb (broker_authorized (bqAuthorization request)) then (Unauthorized, w)
  else if negb (json_body request) then (Problem 415 "JSON required", w)
  else match decode_body start_fields maxStartBodyBytes (bqBody request) (MkStartRequest 0 "" "") with
  | None => (Problem 400 "invalid request", w)
  | Some input =>
      if negb (stVersion input =? 1)%Z then (Problem 400 "invalid request", w)
      else match account_for (stDID input) (stHandle input) with
      | None => (Problem 403 "account is not enabled", w)
      | Some account =>
          let w := cleanupDiscarded account w in
          let w := cleanupDiscardedProvisioning account w in
          let name := readyRecordName (acDID account) in
          match store_Get name w with
          | (Ok encoded, w) =>
              match check_ready account name encoded w with
              | (Some r, w) => (r, w)
              | (None, w) => start_flow account w
              end
          | (Err e, w) =>
              if errors_Is e ErrRecordNotFound then start_flow account w else (Problem 500 "authorization state is unavailable", w)
          end
      end
  end.

Definition decodeFlow (encoded : string) : option (flowRecord * Account) :=
  match decodeRecord flow_fields encoded (MkFlow 0 "") with
  | Some flow =>
      if negb (fwVersion flow =? 1)%Z || String.eqb (fwAccountFingerprint flow) "" then None
      else option_map (pair flow) (List.find (λ account, String.eqb (accountFingerprint account) (fwAccountFingerprint flow)) (bkAccounts h))
  | None => None
  end.
Definition saveOAuthFlow (stage state : string) (flow : flowRecord) : W → result unit * W :=
  return_if String.eqb state "" || (1024 <? len state) || ContainsAny state line_breaks with Err ErrOther ;;
  λ w, let '(now, w) := now_UTC w in store_Create (recordName stage state) (print (flow_json flow)) (now + flowTTL)%Z w.
Definition sameOrigin (target : url) (rawOrigin : string) : bool :=
  match url_Parse rawOrigin with
  | Some origin => String.eqb (fold_name (uScheme target)) (fold_name (uScheme origin)) && String.eqb (fold_name (uHost target)) (fold_name (uHost origin))
  | None => false
  end.
Definition validateOAuthStart (account : Account) (started : StartResult) : bool :=
  if String.eqb (sgState started) "" || String.eqb (sgAuthorizationURL started) "" then false
  else match url_Parse (sgAuthorizationURL started) with
  | Some target => sameOrigin target (acPDSOrigin account) && String.eqb (uScheme target) "https" && negb (uUser target) &&
      String.eqb (uFragment target) ""
  | None => false
  end.
(** The browser goes on to a login whose start is kept as a flow of the stage. *)
Definition continue_with (stage unavailable : string) (account : Account) (flow : flowRecord) (started : result StartResult) (w : W) : reply * W :=
  match started with
  | Err _ => (Problem 502 unavailable, w)
  | Ok started =>
      if negb (validateOAuthStart account started) then (Problem 502 unavailable, w)
      else match saveOAuthFlow stage (sgState started) flow w with
      | (Err _, w) => (Problem 500 "unable to persist authorization", w)
      | (Ok _, w) => (Redirect (sgAuthorizationURL started), w)
      end
  end.

Definition handleBrowserEntry (request : broker_request) (w : W) : reply * W :=
  let token := TrimPrefix (bqPath request) "/onboarding/" in
  if negb (String.eqb (bqRawQuery request) "") || negb (String.eqb (bqFragment request) "") || has_byte "/" token || negb (validToken token)
  then (NotFound, w)
  else match store_Consume (recordName "entry" token) w with
  | (Err _, w) => (Problem 410 "authorization link expired", w)
  | (Ok encoded, w) =>
      match decodeFlow encoded with
      | None => (Problem 400 "invalid authorization flow", w)
      | Some (flow, account) =>
          let '(started, w) := driver_StartProvisioning account w in
          continue_with "provision" "authorization provider unavailable" account flow started w
      end
  end.
Definition consumeCallback (request : broker_request) (stage : string) (w : W) : option (flowRecord * Account) * W :=
  if negb (validCallbackValues (bqQuery request)) then (None, w)
  else match store_Consume (recordName stage (get_value (bqQuery request) "state")) w with
  | (Err _, w) => (None, w)
  | (Ok encoded, w) => (decodeFlow encoded, w)
  end.
Definition handleProvisioningCallback (request : broker_request) (w : W) : reply * W :=
  match consumeCallback request "provision" w with
  | (None, w) => (Problem 400 "invalid OAuth callback", w)
  | (Some (flow, account), w) =>
      match driver_FinishProvisioning account (bqQuery request) w with
      | ((sessionID, Some _), w) =>
          if String.eqb sessionID "" then (Problem 400 "provisioning authorization rejected", w)
          else if negb (validSessionID sessionID) then (Problem 500 "unable to retain rejected authorization", w)
          else match enqueueDiscardedProvisioning account sessionID w with
          | (Err _, w) => (Problem 500 "unable to retain rejected authorization", w)
          | (Ok _, w) => (Problem 400 "provisioning authorization rejected", cleanupDiscardedProvisioning account w)
          end
      | ((_, None), w) =>
          let '(started, w) := driver_StartSteady account w in
          continue_with "steady" "steady authorization unavailable" account flow started w
      end
  end.
Definition handleSteadyCallback (request : broker_request) (w : W) : reply * W :=
  match consumeCallback request "steady" w with
  | (None, w) => (Problem 400 "invalid OAuth callback", w)
  | (Some (_, account), w) =>
      match driver_FinishSteady account (bqQuery request) w with
      | ((sessionID, Some _), w) =>
          if validSessionID sessionID then
            match enqueueDiscarded account sessionID w with
            | (Err _, w) => (Problem 500 "unable to retain rejected authorization", w)
            | (Ok _, w) => (Problem 400 "steady authorization rejected", cleanupDiscarded account w)
            end
          else (Problem 400 "steady authorization rejected", w)
      | ((sessionID, None), w) =>
          if negb (validSessionID sessionID) then (Problem 400 "steady authorization rejected", w)
          else match replaceReadySession (readyRecordName (acDID account)) account sessionID w with
          | (Err _, w) => (Problem 500 "unable to persist authorization", w)
          | (Ok _, w) => (Redirect (bkReturnURL h), w)
          end
      end
  end.
Definition handleClientMetadata (request : broker_request) : reply :=
  if negb (String.eqb (bqRawQuery request) "") then NotFound
  else match driver_ClientMetadata (bqPath request) with
  | Some metadata =>
      match cmRedirectURIs metadata with
      | [uri] =>
          if String.eqb (cmClientID metadata) (bkOrigin h +:+ bqPath request) &&
             (String.eqb uri (bkOrigin h +:+ "/oauth/provision/callback") || String.eqb uri (bkOrigin h +:+ "/oauth/steady/callback"))
          then WriteJSON (cmEncoded metadata) else NotFound
      | _ => NotFound
      end
  | None => NotFound
  end.
Definition broker_ServeHTTP (request : broker_request) (w : W) : reply * W :=
  let exactly method path := String.eqb (bqMethod request) method && String.eqb (bqPath request) path in
  let under path := String.eqb (bqMethod request) "GET" && HasPrefix (bqPath request) path in
  if exactly "POST" "/v1/onboarding/start" then handleStart request w
  else if exactly "POST" "/v1/onboarding/revoke" then handleRevoke request w
  else if under "/onboarding/" then handleBrowserEntry request w
  else if exactly "GET" "/oauth/provision/callback" then handleProvisioningCallback request w
  else if exactly "GET" "/oauth/steady/callback" then handleSteadyCallback request w
  else if under "/oauth/client/" then (handleClientMetadata request, w)
  else (NotFound, w).
End handler.
