(* ===== verification/Sessions.v ===== *)
(** * No session of the broker is lost

    Whatever other requests do between two calls of this one, a session that a record of the
    broker names stays named there until it has been retired; and a revocation that is confirmed
    has retired every session of the account. *)
From S2P Require Import Prelude Sha256 GoStd Syntax Unicode Json Base64 Time Url Mailbox Repository Decode Car Http State Broker.

(** ** The sessions that a record names *)

Section listed.
Context `{CaseOrbits}.

Definition ready_listed (encoded : string) : list string :=
  match decode_ready encoded with Some ready => rySessionID ready :: elems (ryRetiredSessionIDs ready) | None => [] end.
Definition queue_listed (encoded : string) : list string :=
  match decodeRecord discarded_fields encoded no_discarded with Some discarded => elems (dcSessionIDs discarded) | None => [] end.
Definition listed (name encoded : string) : list string :=
  if HasPrefix name "ready:" then ready_listed encoded else if HasPrefix name "discarded" then queue_listed encoded else [].
Definition kind_of (name : string) : grant := if HasPrefix name "discarded-provisioning:" then Provisioning else Steady.

Record ready_text (r : readyRecord) : Prop := {
  rx_version : (- 2 ^ 63 <= ryVersion r < 2 ^ 63)%Z;
  rx_fingerprint : valid_text (ryAccountFingerprint r);
  rx_session : valid_text (rySessionID r);
  rx_retired : valid_texts (ryRetiredSessionIDs r)
}.
Record queue_text (r : discardedRecord) : Prop := {
  qx_version : (- 2 ^ 63 <= dcVersion r < 2 ^ 63)%Z;
  qx_fingerprint : valid_text (dcAccountFingerprint r);
  qx_sessions : valid_texts (dcSessionIDs r)
}.

Lemma decode_int64_range j a a' : decode_int64 j a = Some a' → (- 2 ^ 63 <= a < 2 ^ 63)%Z → (- 2 ^ 63 <= a' < 2 ^ 63)%Z.
Proof. destruct j; try done; cbn; [by intros [= <-]|]. unfold parse_int64. intros Hp _. repeat case_match; simplify_eq; bools; lia. Qed.
Lemma ready_fields_keep : Forall (keeps ready_text) ready_fields.
Proof.
  repeat (apply Forall_cons_2; [|try apply Forall_nil_2]).
  - apply (keeps_mk _ (λ z, - 2 ^ 63 <= z < 2 ^ 63)%Z); [intros ? ? ? _; apply decode_int64_range|by intros s []|by intros s a [] ?; split].
  - apply (keeps_mk _ valid_text); [apply decode_string_valid|by intros s []|by intros s a [] ?; split].
  - apply (keeps_mk _ valid_text); [apply decode_string_valid|by intros s []|by intros s a [] ?; split].
  - apply (keeps_mk _ valid_texts); [apply decode_strings_valid|by intros s []|by intros s a [] ?; split].
Qed.
Lemma discarded_fields_keep : Forall (keeps queue_text) discarded_fields.
Proof.
  repeat (apply Forall_cons_2; [|try apply Forall_nil_2]).
  - apply (keeps_mk _ (λ z, - 2 ^ 63 <= z < 2 ^ 63)%Z); [intros ? ? ? _; apply decode_int64_range|by intros s []|by intros s a [] ?; split].
  - apply (keeps_mk _ valid_text); [apply decode_string_valid|by intros s []|by intros s a [] ?; split].
  - apply (keeps_mk _ valid_texts); [apply decode_strings_valid|by intros s []|by intros s a [] ?; split].
Qed.
Lemma decode_record_keeps {S} (P : S → Prop) (fields : list (field S)) data s s' :
  Forall (keeps P) fields → decodeRecord fields data s = Some s' → P s → P s'.
Proof.
  intros Hf Hd. unfold decodeRecord, decode_strict in Hd. destruct (parse data) as [j|] eqn:Ej; [|done].
  destruct (known fields j); [|done]. by apply (decode_struct_keeps P fields j s s' Hf (parse_valid _ _ Ej)).
Qed.
Lemma decode_ready_text data r : decode_ready data = Some r → ready_text r.
Proof. intros Hd. apply (decode_record_keeps _ _ _ _ _ ready_fields_keep Hd). split; [cbn; lia|done|done|constructor]. Qed.
Lemma decode_queue_text data init r : queue_text init → decodeRecord discarded_fields data init = Some r → queue_text r.
Proof. intros Hi Hd. by apply (decode_record_keeps _ _ _ _ _ discarded_fields_keep Hd). Qed.

(** What is written is read back. *)
Lemma ready_round_trip r : ready_text r → ready_listed (print (ready_json r)) = rySessionID r :: elems (ryRetiredSessionIDs r).
Proof.
  intros [Hv Hf Hs Hr]. unfold ready_listed, decode_ready, decodeRecord.
  rewrite parse_print_utf8; [|unfold ready_json; solve_printable|].
  2: { unfold ready_json. cbn [utf8_json]. rewrite forallb_app. cbn [forallb fst snd utf8_json]. unfold valid_text in *. rewrite Hf, Hs.
       rewrite utf8_omit; [done|done|by apply utf8_slice]. }
  destruct r as [v f s ids]. cbn in Hv. unfold ready_json, omit_if. cbn [ryVersion ryAccountFingerprint rySessionID ryRetiredSessionIDs].
  destruct (N.eqb_spec (llen (elems ids)) 0) as [E|_].
  - unfold decode_strict. change (known ready_fields _) with true. cbv iota. cbn -[json_Z decode_int64]. rewrite decode_int64_json by done.
    cbn. destruct ids as [[|]|]; done.
  - unfold decode_strict. change (known ready_fields _) with true. cbv iota. cbn -[json_Z decode_int64 json_slice decode_strings].
    rewrite decode_int64_json by done. cbn -[json_slice decode_strings]. by rewrite decode_strings_slice.
Qed.
Lemma queue_round_trip r : queue_text r → queue_listed (print (discarded_json r)) = elems (dcSessionIDs r).
Proof.
  intros [Hv Hf Hs]. unfold queue_listed, decodeRecord.
  rewrite parse_print_utf8; [|unfold discarded_json; solve_printable|].
  2: { unfold discarded_json. cbn [utf8_json forallb fst snd]. unfold valid_text in *. rewrite Hf, (utf8_slice _ Hs). done. }
  destruct r as [v f ids]. cbn in Hv. unfold discarded_json, decode_strict. change (known discarded_fields _) with true. cbv iota.
  cbn -[json_Z decode_int64 json_slice decode_strings]. rewrite decode_int64_json by done. cbn -[json_slice decode_strings]. by rewrite decode_strings_slice.
Qed.

(** The sessions that are read do not depend on the value that is decoded over. *)
Lemma queue_decode_over (init : discardedRecord) data : dcSessionIDs init = None →
  match decodeRecord discarded_fields data init with Some d => queue_listed data = elems (dcSessionIDs d) | None => True end.
Proof.
  intros Hi. unfold queue_listed, decodeRecord, decode_strict. destruct (parse data) as [j|]; [|done]. destruct (known _ _); [|done].
  destruct j as [| | | | |l]; try done; cbn [decode_struct]; [by rewrite Hi|].
  assert (Hl : ∀ a b, dcSessionIDs a = dcSessionIDs b →
    option_map dcSessionIDs (decode_members discarded_fields l a) = option_map dcSessionIDs (decode_members discarded_fields l b)).
  { induction l as [|[k x] l IH]; intros a b E; [cbn; by rewrite E|]. cbn [decode_members]. unfold decode_member. cbn [fst snd].
    destruct (find_field discarded_fields k) as [f|] eqn:Ef; [|by apply IH].
    apply find_field_in in Ef as [<-|[<-|[<-|[]]]]; cbn [mk_field snd].
    - assert (Hd : ∀ z, is_Some (decode_int64 x z) ↔ is_Some (decode_int64 x 0)) by (intros z; destruct x; cbn; split; intros []; by eexists).
      destruct (decode_int64 x (dcVersion a)) eqn:Ea, (decode_int64 x (dcVersion b)) eqn:Eb; [by apply IH| | |done].
      + exfalso. destruct (proj2 (Hd (dcVersion b)) (proj1 (Hd (dcVersion a)) (mk_is_Some _ _ Ea))). congruence.
      + exfalso. destruct (proj2 (Hd (dcVersion a)) (proj1 (Hd (dcVersion b)) (mk_is_Some _ _ Eb))). congruence.
    - destruct x; cbn; try done; by apply IH.
    - destruct (decode_strings x (dcSessionIDs a)) as [v|] eqn:Ea; rewrite E in Ea; rewrite Ea; [by apply IH|done]. }
  specialize (Hl init no_discarded Hi). destruct (decode_members _ l init), (decode_members _ l no_discarded); try done. cbn in Hl. by injection Hl as ->.
Qed.
End listed.

(** ** Worlds that lose nothing *)

Section kept.
Context `{CaseOrbits} {W : Type} `{RecordStore W} `{OAuthDriver W} `{Ambient W}.

Definition owed (w : W) (name sessionID : string) : Prop := ∃ encoded, stored w name = Some encoded ∧ sessionID ∈ listed name encoded.
Definition secured (w : W) (name sessionID : string) : Prop := owed w name sessionID ∨ (kind_of name, sessionID) ∈ retired w.
(** Every session stays named until it is retired, and retired ones stay so. *)
Definition kept (w w' : W) : Prop := retired w ⊆ retired w' ∧ ∀ name sessionID, owed w name sessionID → secured w' name sessionID.

#[export] Instance kept_preorder : PreOrder kept.
Proof.
  split; [intros w; split; [done|by left]|]. intros w1 w2 w3 [Hr Ho] [Hr' Ho']. split; [set_solver|].
  intros n s [Hs|Hs]%Ho; [by apply Ho'|]. right. set_solver.
Qed.
Lemma kept_secured w w' name sessionID : kept w w' → secured w name sessionID → secured w' name sessionID.
Proof. intros [Hr Ho] [Hs|Hs]; [by apply Ho|]. right. set_solver. Qed.
Lemma kept_retired w w' x : kept w w' → x ∈ retired w → x ∈ retired w'.
Proof. intros [Hr _]. set_solver. Qed.

(** One record is written, or deleted, at a moment between two stretches in which others act. *)
Definition writes (name : string) (before after : option string) (w w' : W) : Prop :=
  ∃ w1 w2, kept w w1 ∧ stored w1 name = before ∧ stored w2 name = after ∧ (∀ other, other ≠ name → stored w2 other = stored w1 other) ∧
    retired w2 = retired w1 ∧ kept w2 w'.
Definition reads (name : string) (value : option string) (w w' : W) : Prop := ∃ w1, kept w w1 ∧ stored w1 name = value ∧ kept w1 w'.

(** The store acts on one record at one moment, and says so when it says that it did; an error
    may hide a write that was done. Others keep the sessions that they find. *)
Class StoreLaws : Prop := {
  store_Get_reads name w r w' : store_Get name w = (r, w') →
    match r with
    | Ok encoded => reads name (Some encoded) w w'
    | Err e => kept w w' ∧ (errors_Is e ErrRecordNotFound = true → reads name None w w')
    end;
  store_Create_writes name value expires w r w' : store_Create name value expires w = (r, w') →
    kept w w' ∨ writes name None (Some value) w w';
  store_Consume_writes name w r w' : store_Consume name w = (r, w') → kept w w' ∨ ∃ before, writes name before None w w';
  store_Swap_writes name expected value w r w' : store_CompareAndSwap name expected value w = (r, w') →
    (r ≠ Ok true ∧ kept w w') ∨ writes name expected (Some value) w w';
  store_Delete_writes name expected w r w' : store_CompareAndDelete name expected w = (r, w') →
    (r ≠ Ok true ∧ kept w w') ∨ writes name (Some expected) None w w';
  request_Err_keeps w : kept w (request_Err w).2;
  now_keeps w : kept w (now_UTC w).2;
  random_keeps n w : kept w (random_bytes n w).2
}.
(** The driver retires what it says that it retired. *)
Class DriverLaws : Prop := {
  RetireSteady_retires account sessionID w r w' : driver_RetireSteady account sessionID w = (r, w') →
    kept w w' ∧ (r = Ok tt → (Steady, sessionID) ∈ retired w');
  RetireProvisioning_retires account sessionID w r w' : driver_RetireProvisioning account sessionID w = (r, w') →
    kept w w' ∧ (r = Ok tt → (Provisioning, sessionID) ∈ retired w');
  CheckSteady_keeps account sessionID w : kept w (driver_CheckSteady account sessionID w).2;
  StartProvisioning_keeps account w : kept w (driver_StartProvisioning account w).2;
  StartSteady_keeps account w : kept w (driver_StartSteady account w).2;
  (** the identifier of a session is text *)
  FinishProvisioning_keeps account values w : kept w (driver_FinishProvisioning account values w).2 ∧
    valid_text (driver_FinishProvisioning account values w).1.1;
  FinishSteady_keeps account values w : kept w (driver_FinishSteady account values w).2 ∧
    valid_text (driver_FinishSteady account values w).1.1
}.
Class BrokerLaws : Prop := { #[global] bl_store :: StoreLaws; #[global] bl_driver :: DriverLaws }.

Definition named (name : string) (value : option string) : list string := match value with Some encoded => listed name encoded | None => [] end.
Lemma owed_named w name sessionID : owed w name sessionID ↔ sessionID ∈ named name (stored w name).
Proof.
  unfold owed, named. destruct (stored w name) as [v|]; [|split; [by intros (? & ? & _)|by intros ?%not_elem_of_nil]].
  split; [by intros (? & [= <-] & ?)|]. intros Hs. by exists v.
Qed.
(** A write keeps the sessions when what it drops is retired. *)
Lemma writes_kept name before after w w' :
  (∀ s, s ∈ named name before → s ∈ named name after ∨ (kind_of name, s) ∈ retired w) → writes name before after w w' → kept w w'.
Proof.
  intros Hs (w1 & w2 & Hk & Hb & Ha & Ho & Hr & Hk'). etrans; [exact Hk|]. etrans; [|exact Hk']. split; [by rewrite Hr|].
  intros n s Hn. rewrite owed_named in Hn. destruct (decide (n = name)) as [->|Hne].
  - rewrite Hb in Hn. apply Hs in Hn as [Hn|Hn]; [left; by rewrite owed_named, Ha|]. right. rewrite Hr. by eapply kept_retired.
  - left. by rewrite owed_named, Ho.
Qed.
Lemma writes_secured name before after w w' s : writes name before after w w' → s ∈ named name after → secured w' name s.
Proof. intros (w1 & w2 & _ & _ & Ha & _ & _ & Hk) Hs. eapply kept_secured; [exact Hk|]. left. by rewrite owed_named, Ha. Qed.
Lemma reads_kept name value w w' : reads name value w w' → kept w w'.
Proof. intros (w1 & ? & _ & ?). by etrans. Qed.
(** What is secured at a read of the record is in what was read, or retired. *)
Lemma reads_secured name value w w' s : reads name value w w' → secured w name s → s ∈ named name value ∨ (kind_of name, s) ∈ retired w'.
Proof.
  intros (w1 & Hk & Hv & Hk') Hs. eapply kept_secured in Hs as [Hs|Hs]; [|right; by eapply kept_retired|exact Hk].
  left. by rewrite owed_named, Hv in Hs.
Qed.
End kept.

(** ** The operations keep the sessions *)

Section operations.
Context `{CaseOrbits} {W : Type} `{RecordStore W} `{OAuthDriver W} `{Ambient W} `{!BrokerLaws (W := W)}.
Implicit Types w : W.

Lemma get_record_reads name w : match get_record name w with
  | (Ok current, w') => reads name current w w'
  | (Err _, w') => kept w w'
  end.
Proof.
  unfold get_record. destruct (store_Get name w) as [[encoded|e] w'] eqn:E; apply store_Get_reads in E; [done|].
  destruct E as [Hk Hr]. destruct (errors_Is e ErrRecordNotFound); [by apply Hr|done].
Qed.
Lemma swap_kept name expected value w :
  (∀ s, s ∈ named name expected → s ∈ listed name value ∨ (kind_of name, s) ∈ retired w) →
  match store_CompareAndSwap name expected value w with
  | (r, w') => kept w w' ∧ (r = Ok true → ∀ s, s ∈ listed name value → secured w' name s)
  end.
Proof.
  intros Hs. destruct (store_CompareAndSwap name expected value w) as [r w'] eqn:E. apply store_Swap_writes in E as [[Hr Hk]|E]; [done|].
  split; [exact (writes_kept name expected (Some value) w w' Hs E)|]. intros _ s. exact (writes_secured name expected (Some value) w w' s E).
Qed.

(** A way to retire the sessions of a name. *)
Definition retires (name : string) (retire : string → W → result unit * W) : Prop :=
  ∀ s w r w', retire s w = (r, w') → kept w w' ∧ (r = Ok tt → (kind_of name, s) ∈ retired w').
Lemma retire_remaining_kept name retire sessionIDs : retires name retire → ∀ w,
  match retire_remaining retire sessionIDs w with
  | (remaining, w') => kept w w' ∧ (∀ s, s ∈ sessionIDs → s ∈ remaining ∨ (kind_of name, s) ∈ retired w') ∧ (∀ s, s ∈ remaining → s ∈ sessionIDs)
  end.
Proof.
  intros Hr. induction sessionIDs as [|s ids IH]; intros w; cbn [retire_remaining]; [split; [done|split; intros s Hs; by apply not_elem_of_nil in Hs]|].
  destruct (retire s w) as [r w1] eqn:E. apply Hr in E as [Hk Hok]. specialize (IH w1). destruct (retire_remaining retire ids w1) as [remaining w2].
  destruct IH as (Hk' & Hin & Hsub). split; [by etrans|]. split.
  - intros x [->|Hx]%elem_of_cons; [|by destruct (Hin x Hx) as [?|?]; [left; apply elem_of_app; right|right]].
    destruct r as [[]|e]; [right; eapply kept_retired; [exact Hk'|by apply Hok]|left; by left].
  - intros x [Hx|Hx]%elem_of_app; [destruct r; [by apply not_elem_of_nil in Hx|apply list_elem_of_singleton in Hx as ->; by left]|right; by apply Hsub].
Qed.
Lemma retire_each_kept name retire sessionIDs : retires name retire → ∀ combined w,
  match retire_each retire sessionIDs combined w with
  | (r, w') => kept w w' ∧ (r = None → combined = None ∧ ∀ s, s ∈ sessionIDs → (kind_of name, s) ∈ retired w')
  end.
Proof.
  intros Hr. induction sessionIDs as [|s ids IH]; intros combined w; cbn [retire_each].
  { split; [done|]. intros ->. split; [done|]. intros s Hs. by apply not_elem_of_nil in Hs. }
  assert (Hjoin : ∀ e, join_error combined e ≠ None) by (intros e; by destruct combined).
  pose proof (request_Err_keeps w) as Hk. destruct (request_Err w) as [[?|e] w1]; cbn [snd] in Hk.
  2: { specialize (IH (join_error combined e) w1). destruct (retire_each _ _ _ _) as [r w2]. destruct IH as [Hk' Hn].
       split; [by etrans|]. intros Hnone. destruct (Hn Hnone) as [Hj _]. by destruct (Hjoin e). }
  destruct (retire s w1) as [[u|e] w2] eqn:E; apply Hr in E as [Hk1 Hok].
  - specialize (IH combined w2). destruct (retire_each _ _ _ _) as [r w3]. destruct IH as [Hk' Hn].
    split; [do 2 (etrans; [eassumption|]); done|]. intros Hnone. destruct (Hn Hnone) as [-> Hall]. split; [done|].
    intros x [->|Hx]%elem_of_cons; [|by apply Hall]. destruct u. eapply kept_retired; [exact Hk'|by apply Hok].
  - specialize (IH (join_error combined e) w2). destruct (retire_each _ _ _ _) as [r w3]. destruct IH as [Hk' Hn].
    split; [do 2 (etrans; [eassumption|]); done|]. intros Hnone. destruct (Hn Hnone) as [Hj _]. by destruct (Hjoin e).
Qed.

Lemma unique_elem input active s : s ∈ uniqueSessionIDs input active ↔ s ∈ input ∧ s ≠ active.
Proof.
  assert (Hl : ∀ seen acc, (∀ x, x ∈ acc → x ∈ seen) →
    s ∈ (fold_left unique_step input (seen, acc)).2 ↔ s ∈ acc ∨ (s ∈ input ∧ s ∉ seen)).
  { induction input as [|x input IH]; intros seen acc Hsub; cbn [fold_left]; [set_solver|]. unfold unique_step at 2. cbn [fst snd].
    case_bool_decide as Hx; rewrite IH; [set_solver|done| |]; [destruct (decide (s = x)) as [->|]; set_solver|set_solver]. }
  unfold uniqueSessionIDs. rewrite Hl; set_solver.
Qed.

(** *** The ready record *)

Lemma fingerprint_text account : valid_text (accountFingerprint account).
Proof.
  apply ascii_utf8. unfold accountFingerprint. rewrite all_bytes_app. apply andb_true_iff. split; [done|].
  eapply all_bytes_impl; [|apply hex_encode_bytes]. intros [[] [] [] [] [] [] [] []]; vm_compute; done.
Qed.
Lemma ready_name did : listed (readyRecordName did) = ready_listed ∧ kind_of (readyRecordName did) = Steady.
Proof. done. Qed.
Lemma queue_name did : listed (discardedRecordName did) = queue_listed ∧ kind_of (discardedRecordName did) = Steady.
Proof. done. Qed.
Lemma provisioning_queue_name did :
  listed (provisioningDiscardedRecordName did) = queue_listed ∧ kind_of (provisioningDiscardedRecordName did) = Provisioning.
Proof. done. Qed.
Lemma steady_retires name account : kind_of name = Steady → retires name (driver_RetireSteady account).
Proof. intros Hk s w r w' E. rewrite Hk. by apply RetireSteady_retires in E. Qed.
Lemma provisioning_retires name account : kind_of name = Provisioning → retires name (driver_RetireProvisioning account).
Proof. intros Hk s w r w' E. rewrite Hk. by apply RetireProvisioning_retires in E. Qed.

Lemma valid_texts_subset ids ids' : valid_texts (Some ids) → (∀ s, s ∈ ids' → s ∈ ids) → valid_texts (Some ids').
Proof. unfold valid_texts. cbn [elems]. rewrite !Forall_forall. auto. Qed.

Lemma cleanupRetired_kept name encoded account ready w : listed name = ready_listed → kind_of name = Steady → ready_text ready →
  ready_listed encoded = rySessionID ready :: elems (ryRetiredSessionIDs ready) → kept w (cleanupRetired name encoded account ready w).
Proof.
  intros Hn Hk Ht He. unfold cleanupRetired. destruct (elems (ryRetiredSessionIDs ready)) as [|x ids] eqn:Ei; [done|]. cbv beta iota zeta. rewrite <- Ei in *. clear x ids Ei.
  pose proof (retire_remaining_kept name _ (elems (ryRetiredSessionIDs ready)) (steady_retires name account Hk) w) as Hr.
  destruct (retire_remaining _ _ w) as [remaining w1]. destruct Hr as (Hk1 & Hin & Hsub). destruct (_ =? _); [done|]. etrans; [exact Hk1|].
  set (next := set_ryRetiredSessionIDs ready (Some remaining)).
  assert (Hnext : ready_text next).
  { destruct Ht. split; try done. by eapply (valid_texts_subset (elems (ryRetiredSessionIDs ready))). }
  pose proof (swap_kept name (Some encoded) (print (ready_json next)) w1) as Hs.
  destruct (store_CompareAndSwap _ _ _ w1) as [r w2]. apply Hs. intros s. cbn [named]. rewrite Hn, He, (ready_round_trip next Hnext).
  intros [->|Hx]%elem_of_cons; [left; by left|]. destruct (Hin s Hx) as [?|?]; [left; by right|by right].
Qed.

Lemma read_ready_ok account current previous : read_ready account current = Ok previous →
  ready_text previous ∧ ∀ s, s ∈ named (readyRecordName (acDID account)) current →
    (s = rySessionID previous ∧ rySessionID previous ≠ "") ∨ s ∈ elems (ryRetiredSessionIDs previous).
Proof.
  unfold read_ready. destruct current as [encoded|].
  2: { intros [= <-]. split; [split; [cbn; lia|done|done|constructor]|]. intros s Hs. by apply not_elem_of_nil in Hs. }
  destruct (decode_ready encoded) as [r|] eqn:Ed; [|done]. destruct (validReadyRecord r account) eqn:Ev; [|done]. intros [= <-].
  split; [by apply (decode_ready_text encoded)|]. intros s Hs. cbn [named] in Hs. rewrite (proj1 (ready_name _)) in Hs. unfold ready_listed in Hs. rewrite Ed in Hs.
  apply elem_of_cons in Hs as [->|Hs]; [left|by right]. split; [done|]. intros E.
  unfold validReadyRecord in Ev. rewrite E in Ev. rewrite andb_true_iff, negb_true_iff, !orb_false_iff in Ev. by destruct Ev as [[[_ Hv] _] _].
Qed.
Lemma next_ready_spec previous account sessionID : ready_text previous → valid_text sessionID →
  ready_text (next_ready previous account sessionID) ∧
  ∀ s, (s = rySessionID previous ∧ s ≠ "") ∨ s ∈ elems (ryRetiredSessionIDs previous) ∨ s = sessionID →
    s ∈ rySessionID (next_ready previous account sessionID) :: elems (ryRetiredSessionIDs (next_ready previous account sessionID)).
Proof.
  intros [Hv Hf Hs Hr] Ht. unfold next_ready. cbn [rySessionID ryRetiredSessionIDs elems]. split.
  - split; cbn [ryVersion ryAccountFingerprint rySessionID ryRetiredSessionIDs]; [lia|apply fingerprint_text|done|].
    unfold valid_texts in *. cbn [elems]. rewrite Forall_forall in Hr |- *. intros s [Hin _]%unique_elem.
    apply elem_of_app in Hin as [Hin|Hin]; [by apply Hr|]. destruct (_ && _); [apply list_elem_of_singleton in Hin as ->|by apply not_elem_of_nil in Hin]. done.
  - intros s Hin. destruct (decide (s = sessionID)) as [->|Hne]; [by left|]. right. apply unique_elem. split; [|done]. apply elem_of_app.
    destruct Hin as [[-> Hne']|[Hin| ->]]; [right|by left|done].
    apply String.eqb_neq in Hne, Hne'. rewrite Hne, Hne'. cbn. by left.
Qed.

Lemma replace_kept fuel account sessionID : valid_text sessionID → ∀ w,
  match replace_attempts fuel (readyRecordName (acDID account)) account sessionID w with
  | (r, w') => kept w w' ∧ (r = Ok tt → secured w' (readyRecordName (acDID account)) sessionID)
  end.
Proof.
  intros Ht. set (name := readyRecordName (acDID account)). induction fuel as [|fuel IH]; intros w; cbn [replace_attempts]; [done|].
  unfold call_bind, returns. pose proof (get_record_reads name w) as Hg. destruct (get_record name w) as [[current|e] w1]; [|done].
  destruct (read_ready account current) as [previous|] eqn:Ep; [|by apply reads_kept in Hg].
  destruct (read_ready_ok account current previous Ep) as [Hp Hnamed]. destruct (next_ready_spec previous account sessionID Hp Ht) as [Hnext Hin].
  set (next := next_ready previous account sessionID) in *. destruct (maxRetiredSessions <? _); [by apply reads_kept in Hg|].
  assert (Hlisted : listed name (print (ready_json next)) = rySessionID next :: elems (ryRetiredSessionIDs next)) 
    by (unfold name; rewrite (proj1 (ready_name _)); exact (ready_round_trip next Hnext)).
  assert (Hpre : ∀ s, s ∈ named name current → s ∈ listed name (print (ready_json next)) ∨ (kind_of name, s) ∈ retired w1).
  { intros s Hs. left. rewrite Hlisted. apply Hin. destruct (Hnamed s Hs) as [[-> ?]|?]; auto. }
  pose proof (swap_kept name current (print (ready_json next)) w1 Hpre) as Hs.
  destruct (store_CompareAndSwap _ _ _ w1) as [[swapped|e] w2]; destruct Hs as [Hk Hsec].
  all: apply reads_kept in Hg; assert (Hk2 : kept w w2) by (by etrans).
  2: { done. }
  destruct swapped; [|specialize (IH w2); destruct (replace_attempts _ _ _ _ w2) as [r w3]; destruct IH as [Hk3 Hok]; split; [by etrans|done]].
  pose proof (cleanupRetired_kept name (print (ready_json next)) account next w2 (proj1 (ready_name _)) (proj2 (ready_name _)) Hnext (ready_round_trip next Hnext)) as Hk3.
  split; [by etrans|]. intros _. eapply kept_secured; [exact Hk3|]. apply Hsec; [done|]. rewrite Hlisted. apply Hin. auto.
Qed.

(** *** The queues *)

Definition empty_queue (account : Account) : discardedRecord := MkDiscarded 1 (accountFingerprint account) None.
Lemma empty_queue_text account : queue_text (empty_queue account).
Proof. split; [cbn; lia|apply fingerprint_text|constructor]. Qed.
Lemma no_discarded_text : queue_text no_discarded.
Proof. split; [cbn; lia|done|constructor]. Qed.
Lemma fresh_not_empty ids : ∀ seen, fresh_sessions seen ids = true → "" ∉ ids.
Proof.
  induction ids as [|s ids IH]; intros seen; cbn [fresh_sessions]; [intros _; apply not_elem_of_nil|]. rewrite !andb_true_iff.
  intros [[Hv _] Hf]. apply not_elem_of_cons. split; [|by eapply IH]. intros <-. done.
Qed.
Lemma queue_not_empty discarded account : validDiscardedRecord discarded account = true → "" ∉ elems (dcSessionIDs discarded).
Proof. unfold validDiscardedRecord. intros [_ Hf]%andb_true_iff. by eapply fresh_not_empty. Qed.

Lemma read_queue_ok name account current discarded : listed name = queue_listed → read_queue account current = Ok discarded →
  queue_text discarded ∧ named name current = elems (dcSessionIDs discarded) ∧ "" ∉ elems (dcSessionIDs discarded).
Proof.
  intros Hn. unfold read_queue. fold (empty_queue account). destruct current as [encoded|].
  2: { intros [= <-]. split; [apply empty_queue_text|]. split; [done|apply not_elem_of_nil]. }
  pose proof (queue_decode_over (empty_queue account) encoded eq_refl) as Ho. cbn [named]. rewrite Hn.
  destruct (decodeRecord discarded_fields encoded (empty_queue account)) as [r|] eqn:Ed; [|done].
  destruct (validDiscardedRecord r account) eqn:Ev; [|done]. intros [= <-].
  split; [exact (decode_queue_text _ _ _ (empty_queue_text account) Ed)|]. split; [exact Ho|]. by eapply queue_not_empty.
Qed.
Lemma enqueue_kept fuel name account sessionID : listed name = queue_listed → valid_text sessionID → sessionID ≠ "" → ∀ w,
  match enqueue_attempts fuel name account sessionID w with
  | (r, w') => kept w w' ∧ (r = Ok tt → secured w' name sessionID)
  end.
Proof.
  intros Hn Ht Hne. induction fuel as [|fuel IH]; intros w; cbn [enqueue_attempts]; [done|].
  unfold call_bind, returns. pose proof (get_record_reads name w) as Hg. destruct (get_record name w) as [[current|e] w1]; [|done].
  destruct (read_queue account current) as [discarded|] eqn:Ed; [|by apply reads_kept in Hg].
  destruct (read_queue_ok name account current discarded Hn Ed) as (Htext & Hnamed & Hempty). cbv zeta.
  set (ids := uniqueSessionIDs _ ""). destruct (maxRetiredSessions <? _); [by apply reads_kept in Hg|]. set (next := set_dcSessionIDs discarded (Some ids)).
  assert (Hnext : queue_text next).
  { destruct Htext as [Hv Hf Hs]. split; try done. unfold valid_texts in *. cbn [dcSessionIDs next set_dcSessionIDs elems].
    rewrite Forall_forall in Hs |- *. intros s [Hin _]%unique_elem. apply elem_of_app in Hin as [Hin|Hin%list_elem_of_singleton]; [by apply Hs|by subst s]. }
  assert (Hlisted : listed name (print (discarded_json next)) = ids) by (rewrite Hn; exact (queue_round_trip next Hnext)).
  assert (Hpre : ∀ s, s ∈ named name current → s ∈ listed name (print (discarded_json next)) ∨ (kind_of name, s) ∈ retired w1).
  { intros s Hs. left. rewrite Hlisted. rewrite Hnamed in Hs. apply unique_elem. split; [apply elem_of_app; by left|]. by intros ->. }
  pose proof (swap_kept name current (print (discarded_json next)) w1 Hpre) as Hs. apply reads_kept in Hg.
  destruct (store_CompareAndSwap _ _ _ w1) as [[swapped|e] w2]; destruct Hs as [Hk Hsec]; assert (Hk2 : kept w w2) by (by etrans).
  2: { done. }
  destruct swapped; [|specialize (IH w2); destruct (enqueue_attempts _ _ _ _ w2) as [r w3]; destruct IH as [Hk3 Hok]; split; [by etrans|done]].
  split; [done|]. intros _. apply Hsec; [done|]. rewrite Hlisted. apply unique_elem. split; [apply elem_of_app; right; by left|done].
Qed.

Lemma cleanup_queue_kept name account retire w : listed name = queue_listed → retires name retire → kept w (cleanup_queue name account retire w).
Proof.
  intros Hn Hr. unfold cleanup_queue. destruct (store_Get name w) as [[encoded|e] w1] eqn:E; apply store_Get_reads in E; [|by destruct E].
  apply reads_kept in E. destruct (decodeRecord discarded_fields encoded no_discarded) as [discarded|] eqn:Ed; [|done]. cbv zeta.
  destruct (negb _ || _); [done|]. pose proof (retire_remaining_kept name retire (elems (dcSessionIDs discarded)) Hr w1) as Hrem.
  destruct (retire_remaining retire _ w1) as [remaining w2]. destruct Hrem as (Hk & Hin & Hsub). assert (Hk2 : kept w w2) by (by etrans).
  destruct (_ =? _); [done|]. etrans; [exact Hk2|]. set (next := set_dcSessionIDs discarded (Some remaining)).
  assert (Hnext : queue_text next).
  { destruct (decode_queue_text _ _ _ no_discarded_text Ed). split; try done. by eapply (valid_texts_subset (elems (dcSessionIDs discarded))). }
  pose proof (swap_kept name (Some encoded) (print (discarded_json next)) w2) as Hs.
  destruct (store_CompareAndSwap _ _ _ w2) as [r w3]. apply Hs. intros s. cbn [named]. rewrite Hn, (queue_round_trip next Hnext).
  unfold queue_listed. rewrite Ed. apply Hin.
Qed.
Lemma cleanupDiscarded_kept account w : kept w (cleanupDiscarded account w).
Proof. apply cleanup_queue_kept; [apply queue_name|apply steady_retires, queue_name]. Qed.
Lemma cleanupDiscardedProvisioning_kept account w : kept w (cleanupDiscardedProvisioning account w).
Proof. apply cleanup_queue_kept; [apply provisioning_queue_name|apply provisioning_retires, provisioning_queue_name]. Qed.

(** *** Revocation *)

(** The sessions that are retired are those that the snapshot names. *)
Definition covers (name : string) (sessions : string → option (list string)) (retire : list string → W → option error * W) : Prop :=
  (∀ encoded ids, sessions encoded = Some ids → listed name encoded = ids ∧ "" ∉ ids) ∧
  ∀ ids w, match retire ids w with (r, w') => kept w w' ∧ (r = None → ∀ s, s ∈ ids → s ≠ "" → (kind_of name, s) ∈ retired w') end.
Lemma revoke_kept fuel name sessions retire : covers name sessions retire → ∀ w,
  match revoke_attempts fuel name sessions retire w with
  | (r, w') => kept w w' ∧ (r = Ok tt → ∀ s, secured w name s → (kind_of name, s) ∈ retired w')
  end.
Proof.
  intros [Hsessions Hretire]. induction fuel as [|fuel IH]; intros w; cbn [revoke_attempts]; [done|].
  unfold call_bind, returns. pose proof (get_record_reads name w) as Hg. destruct (get_record name w) as [[current|e] w1]; [|done].
  pose proof (reads_kept _ _ _ _ Hg) as Hk1. destruct current as [encoded|].
  2: { split; [done|]. intros _ s Hs. destruct (reads_secured _ _ _ _ s Hg Hs) as [Hin|?]; [by apply not_elem_of_nil in Hin|done]. }
  destruct (sessions encoded) as [ids|] eqn:Es; cbn [opt_result]; [|done]. destruct (Hsessions encoded ids Es) as [Hl Hempty].
  pose proof (Hretire ids w1) as Hr. destruct (retire ids w1) as [[e|] w2]; destruct Hr as [Hk2 Hall]; assert (Hk : kept w w2) by (by etrans).
  1: { done. }
  destruct (store_CompareAndDelete name encoded w2) as [deleted w3] eqn:Ed. apply store_Delete_writes in Ed as [[Hne Hk3]|Hw].
  - assert (Hk' : kept w w3) by (by etrans). destruct deleted as [[]|e]; [done| |done].
    specialize (IH w3). destruct (revoke_attempts fuel _ _ _ w3) as [r w4]. destruct IH as [Hk4 Hok]. split; [by etrans|].
    intros Hr s Hs. apply Hok; [done|]. by eapply kept_secured.
  - assert (Hgone : ∀ s, s ∈ ids → (kind_of name, s) ∈ retired w2) by (intros s Hs; apply Hall; [reflexivity|exact Hs|by intros ->]).
    assert (Hk3 : kept w2 w3).
    { apply (writes_kept name (Some encoded) None); [|done]. intros s Hs. right. apply Hgone. cbn [named] in Hs. by rewrite Hl in Hs. }
    assert (Hdone : ∀ s, secured w name s → (kind_of name, s) ∈ retired w3).
    { intros s Hs. eapply kept_retired; [exact Hk3|].
      destruct (reads_secured _ _ _ _ s Hg Hs) as [Hin|Hin]; [apply Hgone; cbn [named] in Hin; by rewrite Hl in Hin|exact (kept_retired _ _ _ Hk2 Hin)]. }
    assert (Hk' : kept w w3) by (by etrans). destruct deleted as [[]|e]; [done| |done].
    specialize (IH w3). destruct (revoke_attempts fuel _ _ _ w3) as [r w4]. destruct IH as [Hk4 _]. split; [by etrans|].
    intros _ s Hs. eapply kept_retired; [exact Hk4|by apply Hdone].
Qed.

Lemma retire_sessions_covers name retire ids w : retires name retire →
  match retire_each retire (uniqueSessionIDs ids "") None w with
  | (r, w') => kept w w' ∧ (r = None → ∀ s, s ∈ ids → s ≠ "" → (kind_of name, s) ∈ retired w')
  end.
Proof.
  intros Hr. pose proof (retire_each_kept name retire (uniqueSessionIDs ids "") Hr None w) as Hk.
  destruct (retire_each _ _ _ w) as [r w']. destruct Hk as [Hk Hall]. split; [done|]. intros Hn s Hs Hne. apply Hall; [done|]. by apply unique_elem.
Qed.
Lemma ready_covers account : covers (readyRecordName (acDID account)) (ready_sessions account) (retireSessions account).
Proof.
  destruct (ready_name (acDID account)) as [Hn Hk]. split; [|intros ids w; by apply retire_sessions_covers, steady_retires].
  intros encoded ids. rewrite Hn. unfold ready_sessions, ready_listed. destruct (decode_ready encoded) as [r|]; [|done].
  destruct (validReadyRecord r account) eqn:Ev; [|done]. intros [= <-]. split; [done|].
  unfold validReadyRecord in Ev. apply andb_true_iff in Ev as [Ev Hf]. rewrite negb_true_iff, !orb_false_iff in Ev. destruct Ev as [[_ Hv] _].
  apply not_elem_of_cons. split; [|by eapply fresh_not_empty]. intros E. by rewrite <- E in Hv.
Qed.
Lemma queue_covers name account retire : listed name = queue_listed → retires name retire →
  covers name (discarded_sessions account) (λ ids, retire_each retire (uniqueSessionIDs ids "") None).
Proof.
  intros Hn Hr. split; [|intros ids w; by apply retire_sessions_covers]. intros encoded ids. rewrite Hn. unfold discarded_sessions, queue_listed.
  destruct (decodeRecord discarded_fields encoded no_discarded) as [r|]; [|done]. destruct (validDiscardedRecord r account) eqn:Ev; [|done].
  intros [= <-]. split; [done|]. by eapply queue_not_empty.
Qed.
End operations.

(** ** The requests *)

Section requests.
Context `{CaseOrbits} {W : Type} `{RecordStore W} `{OAuthDriver W} `{Ambient W} `{!BrokerLaws (W := W)} (h : BrokerHandler).
Implicit Types w : W.

Lemma revokeReadyState_kept account w : match revokeReadyState account w with (r, w') => kept w w' ∧
  (r = Ok tt → ∀ s, secured w (readyRecordName (acDID account)) s → (Steady, s) ∈ retired w') end.
Proof. unfold revokeReadyState. rewrite <- (proj2 (ready_name (acDID account))). apply revoke_kept, ready_covers. Qed.
Lemma revokeDiscardedState_kept account w : match revokeDiscardedState account w with (r, w') => kept w w' ∧
  (r = Ok tt → ∀ s, secured w (discardedRecordName (acDID account)) s → (Steady, s) ∈ retired w') end.
Proof.
  unfold revokeDiscardedState. destruct (queue_name (acDID account)) as [Hn Hk]. rewrite <- Hk.
  apply revoke_kept, (queue_covers _ _ (driver_RetireSteady account)); [done|by apply steady_retires].
Qed.
Lemma revokeProvisioning_kept account w : match revokeProvisioningDiscardedState account w with (r, w') => kept w w' ∧
  (r = Ok tt → ∀ s, secured w (provisioningDiscardedRecordName (acDID account)) s → (Provisioning, s) ∈ retired w') end.
Proof.
  unfold revokeProvisioningDiscardedState. destruct (provisioning_queue_name (acDID account)) as [Hn Hk]. rewrite <- Hk.
  apply revoke_kept, (queue_covers _ _ (driver_RetireProvisioning account)); [done|by apply provisioning_retires].
Qed.

(** Every session of the account that was secured before has been retired. *)
Definition all_retired (account : Account) (w w' : W) : Prop :=
  (∀ s, secured w (readyRecordName (acDID account)) s → (Steady, s) ∈ retired w') ∧
  (∀ s, secured w (discardedRecordName (acDID account)) s → (Steady, s) ∈ retired w') ∧
  (∀ s, secured w (provisioningDiscardedRecordName (acDID account)) s → (Provisioning, s) ∈ retired w').
Lemma revoke_all account w :
  let '(ready, w1) := revokeReadyState account w in
  let '(discarded, w2) := revokeDiscardedState account w1 in
  let '(provisioning, w3) := revokeProvisioningDiscardedState account w2 in
  kept w w3 ∧ (errors_of [ready; discarded; provisioning] = [] → all_retired account w w3).
Proof.
  pose proof (revokeReadyState_kept account w) as Hx1. destruct (revokeReadyState account w) as [r1 w1]. destruct Hx1 as [Hk1 Hx1].
  pose proof (revokeDiscardedState_kept account w1) as Hx2. destruct (revokeDiscardedState account w1) as [r2 w2]. destruct Hx2 as [Hk2 Hx2].
  pose proof (revokeProvisioning_kept account w2) as Hx3. destruct (revokeProvisioningDiscardedState account w2) as [r3 w3]. destruct Hx3 as [Hk3 Hx3].
  assert (Hk12 : kept w w2) by (by etrans). split; [by etrans|]. destruct r1 as [[]|], r2 as [[]|], r3 as [[]|]; cbn; try done. intros _. split_and!.
  - intros s Hs. eapply kept_retired, kept_retired, Hx1; done.
  - intros s Hs. eapply kept_retired, Hx2; [done|done|]. by eapply kept_secured.
  - intros s Hs. apply Hx3; [done|]. by eapply kept_secured.
Qed.
Lemma handleRevoke_kept request w : kept w (handleRevoke h request w).2.
Proof.
  unfold handleRevoke. destruct (negb (broker_authorized _ _)); [done|]. destruct (negb (json_body _)); [done|].
  destruct (decode_body _ _ _ _) as [[version did]|]; [|done]. destruct (negb _); [done|]. destruct (account_by_did h did) as [account|]; [|done].
  pose proof (revoke_all account w) as Hr. destruct (revokeReadyState account w) as [r1 w1]. destruct (revokeDiscardedState account w1) as [r2 w2].
  destruct (revokeProvisioningDiscardedState account w2) as [r3 w3]. by destruct Hr.
Qed.

(** The other records name no session. *)
Lemma plain_name kind secret value : kind ∈ ["entry"; "provision"; "steady"] → named (recordName kind secret) value = [].
Proof. intros Hk. destruct value as [v|]; [|done]. by repeat (apply elem_of_cons in Hk as [->|Hk]; [done|]); apply not_elem_of_nil in Hk. Qed.
Lemma create_kept name value expires w : kept w (store_Create name value expires w).2.
Proof.
  destruct (store_Create name value expires w) as [r w'] eqn:E. apply store_Create_writes in E as [?|Hw]; [done|].
  apply (writes_kept name None (Some value)); [|done]. intros s Hs. by apply not_elem_of_nil in Hs.
Qed.
Lemma consume_kept kind secret w : kind ∈ ["entry"; "provision"; "steady"] → kept w (store_Consume (recordName kind secret) w).2.
Proof.
  intros Hk. destruct (store_Consume _ w) as [r w'] eqn:E. apply store_Consume_writes in E as [?|[before Hw]]; [done|].
  apply (writes_kept (recordName kind secret) before None); [|done]. intros s. rewrite plain_name by done. by intros ?%not_elem_of_nil.
Qed.
Lemma start_flow_kept account w : kept w (start_flow h account w).2.
Proof.
  unfold start_flow. pose proof (random_keeps 32 w) as Hk. destruct (random_bytes 32 w) as [[data|e] w1]; [|done]. cbn [snd] in Hk.
  pose proof (now_keeps w1) as Hk1. destruct (now_UTC w1) as [now w2]. cbn [snd] in Hk1.
  pose proof (create_kept (recordName "entry" (RawURLEncode data)) (entry_record account) (now + flowTTL)%Z w2) as Hk2.
  cbv zeta. destruct (store_Create _ _ _ w2) as [[|] w3]; cbn [snd] in Hk2 |- *; do 2 (etrans; [eassumption|]); done.
Qed.
Lemma check_ready_kept account encoded w : kept w (check_ready account (readyRecordName (acDID account)) encoded w).2.
Proof.
  unfold check_ready. destruct (decode_ready encoded) as [ready|] eqn:Ed; [|done]. destruct (negb _); [done|].
  pose proof (CheckSteady_keeps account (rySessionID ready) w) as Hk. destruct (driver_CheckSteady _ _ w) as [[|e] w1]; cbn [snd] in Hk; [|done].
  etrans; [exact Hk|]. cbn [snd]. destruct (ready_name (acDID account)) as [Hn Hkind]. apply cleanupRetired_kept; [done..|by apply (decode_ready_text encoded)|].
  unfold ready_listed. by rewrite Ed.
Qed.
Lemma handleStart_kept request w : kept w (handleStart h request w).2.
Proof.
  unfold handleStart. destruct (negb (broker_authorized _ _)); [done|]. destruct (negb (json_body _)); [done|].
  destruct (decode_body _ _ _ _) as [input|]; [|done]. destruct (negb _); [done|]. destruct (account_for _ _ _) as [account|]; [|done]. cbv zeta.
  pose proof (cleanupDiscarded_kept account w) as Hk1. set (w1 := cleanupDiscarded account w) in *.
  pose proof (cleanupDiscardedProvisioning_kept account w1) as Hk2. set (w2 := cleanupDiscardedProvisioning account w1) in *.
  assert (Hk : kept w w2) by (by etrans). etrans; [exact Hk|].
  destruct (store_Get _ w2) as [[encoded|e] w3] eqn:Eg; apply store_Get_reads in Eg.
  - apply reads_kept in Eg. etrans; [exact Eg|]. pose proof (check_ready_kept account encoded w3) as Hc.
    destruct (check_ready _ _ _ w3) as [[r|] w4]; [done|]. etrans; [exact Hc|]. apply start_flow_kept.
  - destruct Eg as [Hg _]. etrans; [exact Hg|]. destruct (errors_Is _ _); [apply start_flow_kept|done].
Qed.
Lemma continue_kept stage unavailable account flow started w : kept w (continue_with stage unavailable account flow started w).2.
Proof.
  unfold continue_with. destruct started as [started|]; [|done]. destruct (negb _); [done|]. unfold saveOAuthFlow. destruct (_ || _); [done|].
  pose proof (now_keeps w) as Hk1. destruct (now_UTC w) as [now w2]. cbn [snd] in Hk1.
  pose proof (create_kept (recordName stage (sgState started)) (print (flow_json flow)) (now + flowTTL)%Z w2) as Hk2.
  destruct (store_Create _ _ _ w2) as [[|] w3]; by etrans.
Qed.
Lemma handleBrowserEntry_kept request w : kept w (handleBrowserEntry h request w).2.
Proof.
  unfold handleBrowserEntry. cbv zeta. destruct (_ || _); [done|].
  pose proof (consume_kept "entry" (TrimPrefix (bqPath request) "/onboarding/") w ltac:(by left)) as Hk.
  destruct (store_Consume _ w) as [[encoded|e] w1]; [|done]. destruct (decodeFlow h encoded) as [[flow account]|]; [|done].
  etrans; [exact Hk|]. pose proof (StartProvisioning_keeps account w1) as Hk1. destruct (driver_StartProvisioning account w1) as [started w2].
  etrans; [exact Hk1|]. apply continue_kept.
Qed.
Lemma consumeCallback_kept request stage w : stage ∈ ["entry"; "provision"; "steady"] → kept w (consumeCallback h request stage w).2.
Proof.
  intros Hs. unfold consumeCallback. destruct (negb _); [done|].
  pose proof (consume_kept stage (get_value (bqQuery request) "state") w Hs) as Hk. by destruct (store_Consume _ w) as [[encoded|e] w1].
Qed.
Lemma valid_not_empty s : validSessionID s = true → s ≠ "".
Proof. by intros Hv ->. Qed.

(** A session that a finished login gave is named, or retired, unless the reply is an error of the server. *)
Definition server_error (r : reply) : Prop := match r with Problem 500 _ => True | _ => False end.
Lemma handleProvisioningCallback_kept request w : kept w (handleProvisioningCallback h request w).2.
Proof.
  unfold handleProvisioningCallback. pose proof (consumeCallback_kept request "provision" w ltac:(right; by left)) as Hk.
  destruct (consumeCallback _ _ _ w) as [[[flow account]|] w1]; [|done]. etrans; [exact Hk|].
  destruct (FinishProvisioning_keeps account (bqQuery request) w1) as [Hk1 Ht]. destruct (driver_FinishProvisioning _ _ w1) as [[s err] w2]. cbn [fst snd] in *.
  etrans; [exact Hk1|]. destruct err as [e|].
  - destruct (String.eqb s ""); [done|]. destruct (validSessionID s) eqn:Ev; [|done]. cbn [negb].
    pose proof (enqueue_kept 8 _ account s (proj1 (provisioning_queue_name (acDID account))) Ht (valid_not_empty s Ev) w2) as He.
    fold (enqueueDiscardedProvisioning account s) in He. destruct (enqueueDiscardedProvisioning account s w2) as [[|] w3]; destruct He as [He _]; [|done].
    etrans; [exact He|]. apply cleanupDiscardedProvisioning_kept.
  - pose proof (StartSteady_keeps account w2) as Hk2. destruct (driver_StartSteady account w2) as [started w3]. etrans; [exact Hk2|]. apply continue_kept.
Qed.
Lemma steady_outcome request w : match handleSteadyCallback h request w with
  | (r, w') => kept w w' ∧
      match consumeCallback h request "steady" w with
      | (Some (_, account), w1) =>
          let '((s, err), _) := driver_FinishSteady account (bqQuery request) w1 in
          validSessionID s = true → ¬ server_error r →
          secured w' (match err with Some _ => discardedRecordName (acDID account) | None => readyRecordName (acDID account) end) s
      | (None, _) => True
      end
  end.
Proof.
  unfold handleSteadyCallback. pose proof (consumeCallback_kept request "steady" w ltac:(right; right; by left)) as Hk.
  destruct (consumeCallback _ _ _ w) as [[[flow account]|] w1]; [|done]. cbn [snd] in Hk.
  destruct (FinishSteady_keeps account (bqQuery request) w1) as [Hk1 Ht]. destruct (driver_FinishSteady _ _ w1) as [[s err] w2]. cbn [fst snd] in *.
  assert (Hk2 : kept w w2) by (by etrans). destruct (validSessionID s) eqn:Ev; destruct err as [e|]; cbn [negb]; try done.
  - pose proof (enqueue_kept 8 _ account s (proj1 (queue_name (acDID account))) Ht (valid_not_empty s Ev) w2) as He.
    fold (enqueueDiscarded account s) in He. destruct (enqueueDiscarded account s w2) as [[[]|] w3]; destruct He as [He Hs].
    2: { split; [by etrans|]. intros _ Hn. by destruct Hn. }
    pose proof (cleanupDiscarded_kept account w3) as Hk3. split; [do 2 (etrans; [eassumption|]); done|]. intros _ _. eapply kept_secured; [exact Hk3|by apply Hs].
  - pose proof (replace_kept 8 account s Ht w2) as Hr. fold (replaceReadySession (readyRecordName (acDID account)) account s) in Hr.
    destruct (replaceReadySession _ account s w2) as [[[]|] w3]; destruct Hr as [Hr Hs]; (split; [by etrans|]); [intros _ _; by apply Hs|intros _ Hn; by destruct Hn].
Qed.
Lemma authorized_header header : broker_authorized h header = true → header = "Bearer " +:+ bkRelayToken h.
Proof.
  unfold broker_authorized. rewrite !andb_true_iff. intros [[Hp _] Ht%String.eqb_eq]. rewrite <- Ht.
  apply HasPrefix_spec in Hp as [r ->]. by rewrite TrimPrefix_app.
Qed.
End requests.

(** ** The contract *)

(** C16. No session is lost. Whatever a request asks for and however it ends, and whatever other
    requests do in between: every session that a ready record or a queue of the broker names is
    named under that record afterwards, or has been retired. *)
Theorem sessions_kept `{CaseOrbits} {W : Type} `{RecordStore W} `{OAuthDriver W} `{Ambient W} `{!BrokerLaws (W := W)}
    (h : BrokerHandler) (request : broker_request) (w : W) : kept w (broker_ServeHTTP h request w).2.
Proof.
  unfold broker_ServeHTTP. destruct (_ && _); [apply handleStart_kept|]. destruct (_ && _); [apply handleRevoke_kept|].
  destruct (_ && _); [apply handleBrowserEntry_kept|]. destruct (_ && _); [apply handleProvisioningCallback_kept|].
  destruct (_ && _); [|destruct (_ && _); reflexivity]. pose proof (steady_outcome h request w) as Hs.
  destruct (handleSteadyCallback h request w). by destruct Hs.
Qed.

(** C17. A confirmed revocation is complete. The broker answers that an account is revoked only to a
    request with the relay's token for a configured account, and only when every session that the
    three records of the account named at the start, or that was moved among them since, has been
    retired in its own way. *)
Theorem revocation_complete `{CaseOrbits} {W : Type} `{RecordStore W} `{OAuthDriver W} `{Ambient W} `{!BrokerLaws (W := W)}
    (h : BrokerHandler) (request : broker_request) (w w' : W)
    (Hr : handleRevoke h request w = (WriteJSON revoke_response, w')) :
  bqAuthorization request = "Bearer " +:+ bkRelayToken h ∧
  ∃ did account, decode_body revoke_fields maxRevokeBodyBytes (bqBody request) (0%Z, "") = Some (1%Z, did) ∧
    account_by_did h did = Some account ∧ all_retired account w w'.
Proof.
  unfold handleRevoke in Hr. destruct (broker_authorized h (bqAuthorization request)) eqn:Ea; [|done]. cbn [negb] in Hr.
  split; [by apply authorized_header|]. destruct (negb (json_body request)); [done|].
  destruct (decode_body _ _ _ _) as [[version did]|] eqn:Ed; [|done]. destruct (Z.eqb_spec version 1) as [->|]; [|done]. cbn [negb] in Hr.
  destruct (account_by_did h did) as [account|] eqn:Eb; [|done]. exists did, account. do 2 (split; [done|]).
  pose proof (revoke_all account w) as Ho. destruct (revokeReadyState account w) as [r1 w1]. destruct (revokeDiscardedState account w1) as [r2 w2].
  destruct (revokeProvisioningDiscardedState account w2) as [r3 w3]. destruct Ho as [_ Hall]. injection Hr as Hr <-. apply Hall.
  destruct r1 as [[]|], r2 as [[]|], r3 as [[]|]; cbn in Hr; try done; by destruct (errors_Is _ _ || _).
Qed.

(** C18. A new session is secured before the browser goes on. When the last login was finished with
    a valid session, the reply is an error of the server, or the session is named in the ready
    record, or in the queue when the session failed its proof, or has been retired. *)
Theorem new_session_secured `{CaseOrbits} {W : Type} `{RecordStore W} `{OAuthDriver W} `{Ambient W} `{!BrokerLaws (W := W)}
    (h : BrokerHandler) (request : broker_request) (w w1 w2 : W) (flow : flowRecord) (account : Account) (sessionID : string) (err : option error)
    (Hc : consumeCallback h request "steady" w = (Some (flow, account), w1))
    (Hf : driver_FinishSteady account (bqQuery request) w1 = ((sessionID, err), w2)) (Hv : validSessionID sessionID = true) :
  server_error (handleSteadyCallback h request w).1 ∨
  secured (handleSteadyCallback h request w).2
    (match err with Some _ => discardedRecordName (acDID account) | None => readyRecordName (acDID account) end) sessionID.
Proof.
  pose proof (steady_outcome h request w) as Ho. rewrite Hc, Hf in Ho. destruct (handleSteadyCallback h request w) as [r w3]. destruct Ho as [_ Ho].
  cbn [fst snd]. destruct r as [|status m|v|l|]; try (right; apply Ho; [done|by intros []]).
  destruct (decide (status = 500)) as [->|Hne]; [by left|]. right. apply Ho; [done|]. cbn.
  intros Hx. apply Hne. by repeat (case_match; try done).
Qed.

(** ** A broker without other requests *)

(** [bwFull]: the store takes no new record. *)
Record broker_world : Type := MkBrokerWorld {
  bwRecords : gmap string string;
  bwRetired : gset (grant * string);
  bwFull : bool
}.
Definition put_record (name value : string) (w : broker_world) : broker_world :=
  MkBrokerWorld (<[name := value]> (bwRecords w)) (bwRetired w) (bwFull w).
Definition drop_record (name : string) (w : broker_world) : broker_world :=
  MkBrokerWorld (delete name (bwRecords w)) (bwRetired w) (bwFull w).
Definition retire_session (kind : grant) (sessionID : string) (w : broker_world) : broker_world :=
  MkBrokerWorld (bwRecords w) ({[(kind, sessionID)]} ∪ bwRetired w) (bwFull w).

#[export] Instance broker_store : RecordStore broker_world := {
  store_Create name value _ w := if is_some (bwRecords w !! name) then (Err ErrExists, w)
    else if bwFull w then (Err ErrOther, w) else (Ok tt, put_record name value w);
  store_Get name w := (opt_result (bwRecords w !! name) ErrRecordNotFound, w);
  store_Consume name w := match bwRecords w !! name with Some v => (Ok v, drop_record name w) | None => (Err ErrRecordNotFound, w) end;
  store_CompareAndSwap name expected value w :=
    if negb (bool_decide (bwRecords w !! name = expected)) then (Ok false, w)
    else if bwFull w && negb (is_some expected) then (Err ErrOther, w) else (Ok true, put_record name value w);
  store_CompareAndDelete name expected w :=
    if bool_decide (bwRecords w !! name = Some expected) then (Ok true, drop_record name w) else (Ok false, w);
  stored w name := bwRecords w !! name
}.
Definition sample_start_result : StartResult := MkStartResult "state-2" "https://pds.example/authorize".
#[export] Instance broker_driver : OAuthDriver broker_world := {
  driver_StartProvisioning _ := returns (Ok sample_start_result);
  driver_FinishProvisioning _ _ w := (("", None), w);
  driver_RetireProvisioning _ sessionID w := (Ok tt, retire_session Provisioning sessionID w);
  driver_StartSteady _ := returns (Ok sample_start_result);
  driver_FinishSteady _ _ w := (("session-2", None), w);
  driver_CheckSteady _ _ := returns (Ok tt);
  driver_RetireSteady _ sessionID w := (Ok tt, retire_session Steady sessionID w);
  driver_ClientMetadata _ := None;
  retired := bwRetired
}.
#[export] Instance broker_ambient : Ambient broker_world := {
  request_Err := returns (Ok tt);
  now_UTC w := (time_Unix 1784235600 0, w);
  random_bytes n := returns (Ok "0123456789abcdef0123456789abcdef")
}.

Section laws.
Context `{CaseOrbits}.
Lemma put_writes name before value w : bwRecords w !! name = before → writes name before (Some value) w (put_record name value w).
Proof.
  intros Hb. exists w, (put_record name value w). split; [done|]. split; [done|]. split; [apply lookup_insert_eq|].
  split; [intros other Hne; by apply lookup_insert_ne|]. by split.
Qed.
Lemma drop_writes name before w : bwRecords w !! name = before → writes name before None w (drop_record name w).
Proof.
  intros Hb. exists w, (drop_record name w). split; [done|]. split; [done|]. split; [apply lookup_delete_eq|].
  split; [intros other Hne; by apply lookup_delete_ne|]. by split.
Qed.
Lemma retire_kept kind sessionID w : kept w (retire_session kind sessionID w).
Proof. split; [cbn; set_solver|]. intros n s Hs. left. exact Hs. Qed.
#[export] Instance broker_store_laws : StoreLaws (W := broker_world).
Proof.
  split; cbn.
  - intros name w r w' [= <- <-]. destruct (bwRecords w !! name) as [v|] eqn:E; cbn; [by exists w|]. split; [done|]. intros _. by exists w.
  - intros name value _ w r w'. destruct (bwRecords w !! name) eqn:E; cbn; [intros [= _ <-]; by left|].
    destruct (bwFull w); intros [= _ <-]; [by left|]. right. by apply put_writes.
  - intros name w r w'. destruct (bwRecords w !! name) eqn:E; intros [= _ <-]; [right; eexists; by apply drop_writes|by left].
  - intros name expected value w r w'. case_bool_decide as E; cbn; [|intros [= <- <-]; by left].
    destruct (bwFull w && _); intros [= <- <-]; [by left|]. right. by apply put_writes.
  - intros name expected w r w'. case_bool_decide as E; intros [= <- <-]; [right; by apply drop_writes|by left].
  - done.
  - done.
  - done.
Qed.
#[export] Instance broker_driver_laws : DriverLaws (W := broker_world).
Proof. split; cbn; [intros a s w r w' [= <- <-]; split; [apply retire_kept|intros _; set_solver]..|done|done|done|done|done]. Qed.
#[export] Instance broker_laws : BrokerLaws (W := broker_world) := Build_BrokerLaws _ _.
End laws.

Definition broker_account : Account := MkAccount "did:plc:alice" "alice.example" "https://pds.example" "default".
Definition sample_broker : BrokerHandler :=
  MkBroker "https://broker.example" "0123456789abcdef01234567" "https://comail.at/webmail/login" [broker_account].
Definition ready_before : readyRecord := MkReady 1 (accountFingerprint broker_account) "session-1" (Some ["session-0"]).
Definition broker_before : broker_world :=
  MkBrokerWorld {[readyRecordName "did:plc:alice" := print (ready_json ready_before);
                  recordName "steady" "state-2" := entry_record broker_account]} ∅ false.
Definition revoke_request : broker_request :=
  MkBrokerRequest "POST" "/v1/onboarding/revoke" "" "" ∅ "Bearer 0123456789abcdef01234567" "application/json"
    (MkReader (print (JObj [("version", JNum "1"); ("did", JStr "did:plc:alice")])) false).
Definition callback_request : broker_request :=
  MkBrokerRequest "GET" "/oauth/steady/callback" "" ""
    {["state" := ["state-2"]; "iss" := ["https://pds.example"]; "code" := ["c"]]} "" "" (MkReader "" false).

Lemma sample_revoked : (handleRevoke sample_broker revoke_request broker_before).1 = WriteJSON revoke_response.
Proof. vm_compute. reflexivity. Qed.
Lemma sample_redirected : (handleSteadyCallback sample_broker callback_request broker_before).1 = Redirect "https://comail.at/webmail/login".
Proof. vm_compute. reflexivity. Qed.

Lemma sessions_kept_witness : kept broker_before (broker_ServeHTTP sample_broker callback_request broker_before).2.
Proof. exact (sessions_kept sample_broker callback_request broker_before). Defined.
Lemma revocation_complete_witness : ∃ w', all_retired broker_account broker_before w'.
Proof.
  pose proof sample_revoked as Hr. destruct (handleRevoke sample_broker revoke_request broker_before) as [r w'] eqn:E. cbn [fst] in Hr. subst r.
  destruct (revocation_complete sample_broker revoke_request broker_before w' E) as (_ & did & account & _ & Ha & Hall).
  exists w'. unfold account_by_did, sample_broker in Ha. cbn [bkAccounts List.find] in Ha.
  destruct (String.eqb (acDID broker_account) did); [injection Ha as <-; exact Hall|discriminate Ha].
Defined.
Lemma sample_consumed : (consumeCallback sample_broker callback_request "steady" broker_before).1 = Some (MkFlow 1 (accountFingerprint broker_account), broker_account).
Proof. vm_compute. reflexivity. Qed.
Lemma new_session_secured_witness :
  secured (handleSteadyCallback sample_broker callback_request broker_before).2 (readyRecordName "did:plc:alice") "session-2".
Proof.
  pose proof sample_consumed as Hc. destruct (consumeCallback sample_broker callback_request "steady" broker_before) as [r w1] eqn:E. cbn [fst] in Hc. subst r.
  assert (Hf : driver_FinishSteady broker_account (bqQuery callback_request) w1 = (("session-2", None), w1)) by reflexivity.
  destruct (new_session_secured sample_broker callback_request broker_before w1 w1 _ _ "session-2" None E Hf (eq_refl true)) as [He|Hs].
  - rewrite sample_redirected in He. destruct He.
  - exact Hs.
Defined.

(** The reply that is an error of the server is needed: here the store takes no new record, the
    last login gives the live session [session-2], and the only handle of it is dropped, neither
    named nor retired. *)
Definition full_store : broker_world := MkBrokerWorld {[recordName "steady" "state-2" := entry_record broker_account]} ∅ true.
Lemma session_orphaned :
  (handleSteadyCallback sample_broker callback_request full_store).1 = Problem 500 "unable to persist authorization" ∧
  bwRecords (handleSteadyCallback sample_broker callback_request full_store).2 = ∅ ∧
  bwRetired (handleSteadyCallback sample_broker callback_request full_store).2 = ∅.
Proof. split; [vm_compute; reflexivity|]. split; vm_compute; reflexivity. Qed.
