(* ===== verification/ExactDriver.v ===== *)
(** * The configuration of the broker, and internal/onboardingbroker/driver.go

    What [New] accepts (handler.go), and the driver that binds every account to its own login
    managers. A manager is a class of calls; [ExactOAuthDriver] is an implementation of the
    interface [OAuthDriver] of the handler over it. The nil driver is not modelled. *)
From S2P Require Import Prelude Sha256 GoStd Syntax Unicode Json Base64 Time Url Mailbox Repository Decode Car Http State SpacesWire Broker Sessions.

(** ** The configuration *)

Definition fixedReturnURL : string := "https://comail.at/webmail/login".
Record BrokerConfig : Type := MkBrokerConfig {
  bcBrokerOrigin : string;
  bcRelayToken : string;
  bcReturnURL : string;
  bcAccounts : list Account;
  bcAllowHTTP : bool
}.
(** [syntax.ParseHandle(s)], as the text of the parsed handle. *)
Class HandleSyntax : Type := { ParseHandle : string → option string }.
(** [net.ParseIP(host) != nil] *)
Definition is_ip (host : string) : bool := is_some (ParseIPv4 host) || is_some (ParseIPv6 host).
(** [strings.Contains] *)
Fixpoint Contains (s sub : string) : bool :=
  HasPrefix s sub || match s with String _ s' => Contains s' sub | EmptyString => false end.

Section config.
Context `{Syntax} `{HandleSyntax}.

Definition validateAccount (account : Account) : bool :=
  match ParseDID (acDID account), ParseHandle (acHandle account) with
  | Some did, Some handle =>
      String.eqb did (acDID account) && String.eqb handle (acHandle account) &&
      ParseRecordKey (acSpaceKey account) && negb (String.eqb (acSpaceKey account) "*") &&
      match url_Parse (acPDSOrigin account) with
      | Some pds =>
          negb (negb (String.eqb (uScheme pds) "https") || String.eqb (uHost pds) "" || uUser pds ||
                negb (String.eqb (uPath pds) "") || negb (String.eqb (uRawQuery pds) "") || negb (String.eqb (uFragment pds) ""))
      | None => false
      end
  | _, _ => false
  end.
Definition cleanBrokerOrigin (raw : string) (allowHTTP : bool) : result string :=
  let? origin := opt_result (url_Parse raw) ErrOther in
  fail_if String.eqb (uHost origin) "" || uUser origin || negb (String.eqb (uPath origin) "") ||
    negb (String.eqb (uRawQuery origin) "") || negb (String.eqb (uFragment origin) "") with ErrOther ;;
  fail_if (if String.eqb (uScheme origin) "http" then
             negb allowHTTP || String.eqb (Port origin) "" || negb (loopback_ip (Hostname origin))
           else negb (String.eqb (uScheme origin) "https") || negb (String.eqb (Port origin) "") || is_ip (Hostname origin) ||
             negb (Contains (Hostname origin) ".")) with ErrOther ;;
  Ok (TrimSuffix (origin_String (uScheme origin) (uHost origin) (uForceQuery origin)) "/").

Definition admit_account (seen : gset string) (account : Account) : result (gset string) :=
  fail_if negb (validateAccount account) with ErrOther ;;
  fail_if bool_decide (acDID account ∈ seen) with ErrOther ;;
  Ok ({[acDID account]} ∪ seen).
Definition New (config : BrokerConfig) (has_store has_driver : bool) : result BrokerHandler :=
  let? origin := cleanBrokerOrigin (bcBrokerOrigin config) (bcAllowHTTP config) in
  fail_if (len (bcRelayToken config) <? 24) || negb (String.eqb (TrimSpace (bcRelayToken config)) (bcRelayToken config)) ||
    ContainsAny (bcRelayToken config) line_breaks with ErrOther ;;
  fail_if negb (String.eqb (bcReturnURL config) fixedReturnURL) with ErrOther ;;
  fail_if negb has_store || negb has_driver with ErrOther ;;
  fail_if (llen (bcAccounts config) =? 0) || (1024 <? llen (bcAccounts config)) with ErrOther ;;
  let? _ := range admit_account (bcAccounts config) ∅ in
  Ok (MkBroker origin (bcRelayToken config) (bcReturnURL config) (bcAccounts config)).
End config.

(** ** The driver *)

(** The two managers of an account, with the metadata of each when it is there, and whether there
    is a proof. *)
Record OAuthRuntime : Type := MkRuntime {
  rtAccount : Account;
  rtProvisioningMetadataPath : string;
  rtSteadyMetadataPath : string;
  rtProvisioning : option ClientMetadata;
  rtSteady : option ClientMetadata;
  rtProveSteady : bool
}.
Record ExactOAuthDriver : Type := MkDriver {
  edRuntimes : gmap string OAuthRuntime;
  edMetadata : gmap string ClientMetadata
}.
(** A session of the login library; [csSessionID] is that of its data, when there is any. *)
Record ClientSession : Type := MkClientSession { csSessionID : option string }.
Record ProvisioningOutcome : Type := MkOutcome { poSpaceURI : string; poRetainedSessionID : string }.

(** The managers of a runtime and its proof of a live session; a session may be nil. *)
Class OAuthManagers (W : Type) : Type := {
  provisioning_StartDetailed : OAuthRuntime → W → result StartResult * W;
  provisioning_FinishDetailed : OAuthRuntime → url_values → W → (ProvisioningOutcome * option error) * W;
  provisioning_RetryCleanup : OAuthRuntime → string → W → result unit * W;
  steady_StartDetailed : OAuthRuntime → W → result StartResult * W;
  steady_Finish : OAuthRuntime → url_values → W → result (option ClientSession) * W;
  steady_Resume : OAuthRuntime → string → W → result (option ClientSession) * W;
  steady_RevokeAndDelete : OAuthRuntime → string → W → result unit * W;
  runtime_ProveSteady : OAuthRuntime → option ClientSession → W → result unit * W;
  (** not part of the Go interfaces: the sessions that have been revoked or are gone *)
  revoked_sessions : W → gset (grant * string)
}.

Definition account_eqb (a b : Account) : bool :=
  String.eqb (acDID a) (acDID b) && String.eqb (acHandle a) (acHandle b) && String.eqb (acPDSOrigin a) (acPDSOrigin b) &&
  String.eqb (acSpaceKey a) (acSpaceKey b).
Definition runtimeKey (account : Account) : string :=
  acDID account +:+ NUL +:+ acHandle account +:+ NUL +:+ acPDSOrigin account +:+ NUL +:+ acSpaceKey account.
Definition validMetadataPath (path : string) : bool :=
  if (len path <? len "/oauth/client/a/x.json") || (256 <? len path) || negb (HasPrefix path "/") then false
  else match url_Parse path with
  | Some parsed =>
      String.eqb (uScheme parsed) "" && String.eqb (uHost parsed) "" && String.eqb (uRawQuery parsed) "" && String.eqb (uFragment parsed) "" &&
      String.eqb (uPath parsed) path && (len (uPath parsed) =? len path) && negb (String.eqb path "/oauth/client/") &&
      (len "/oauth/client/" <? len path) && HasPrefix path "/oauth/client/"
  | None => false
  end.
Definition classifySteadyProofError (err : error) : error :=
  if errors_Is err ErrReauthorizationRequired || errors_Is err ErrUnauthorized || errors_Is err ErrRecordNotFound
  then ErrJoin ErrSteadyReauthorizationRequired err else err.

Section build.
Context `{Syntax} `{HandleSyntax}.

(** One of the two metadata documents of a runtime. *)
Definition add_profile (brokerOrigin : string) (account : Account) (known : gmap string ClientMetadata)
    (profile : string * string * ClientMetadata) : result (gmap string ClientMetadata) :=
  let '(path, callback, metadata) := profile in
  fail_if negb (validMetadataPath path) || Contains path (acDID account) || Contains path (acHandle account) ||
    negb (String.eqb (cmClientID metadata) (brokerOrigin +:+ path)) ||
    negb (bool_decide (cmRedirectURIs metadata = [brokerOrigin +:+ callback])) with ErrOther ;;
  fail_if is_some (known !! path) with ErrOther ;;
  Ok (<[path := metadata]> known).
Definition add_runtime (brokerOrigin : string) (driver : ExactOAuthDriver) (rt : OAuthRuntime) : result ExactOAuthDriver :=
  match rtProvisioning rt, rtSteady rt with
  | Some provisioning, Some steady =>
      fail_if negb (validateAccount (rtAccount rt)) || negb (rtProveSteady rt) with ErrOther ;;
      let key := runtimeKey (rtAccount rt) in
      fail_if is_some (edRuntimes driver !! key) with ErrOther ;;
      let? metadata := range (add_profile brokerOrigin (rtAccount rt))
        [(rtProvisioningMetadataPath rt, "/oauth/provision/callback", provisioning);
         (rtSteadyMetadataPath rt, "/oauth/steady/callback", steady)] (edMetadata driver) in
      Ok (MkDriver (<[key := rt]> (edRuntimes driver)) metadata)
  | _, _ => Err ErrOther
  end.
Definition NewExactOAuthDriver (brokerOrigin : string) (runtimes : list OAuthRuntime) : result ExactOAuthDriver :=
  fail_if llen runtimes =? 0 with ErrOther ;;
  range (add_runtime brokerOrigin) runtimes (MkDriver ∅ ∅).
End build.

Section driver.
Context {W : Type} `{OAuthManagers W} (d : ExactOAuthDriver).

Definition runtime (account : Account) : result OAuthRuntime :=
  match edRuntimes d !! runtimeKey account with
  | Some rt => if account_eqb (rtAccount rt) account then Ok rt else Err ErrOther
  | None => Err ErrOther
  end.
Definition StartProvisioning (account : Account) : W → result StartResult * W :=
  call? rt := returns (runtime account) in provisioning_StartDetailed rt.
Definition FinishProvisioning (account : Account) (values : url_values) (w : W) : (string * option error) * W :=
  match runtime account with
  | Err e => (("", Some e), w)
  | Ok rt =>
      match provisioning_FinishDetailed rt values w with
      | ((outcome, Some e), w) => ((poRetainedSessionID outcome, Some e), w)
      | ((outcome, None), w) =>
          (("", if String.eqb (poSpaceURI outcome) ("at://" +:+ acDID account +:+ "/space/email.atmos.mailbox/" +:+ acSpaceKey account)
                then None else Some ErrOther), w)
      end
  end.
(** A session that is not there is retired. *)
Definition absent_is_done (r : result unit) : result unit :=
  match r with Err e => if errors_Is e ErrRecordNotFound then Ok tt else r | Ok _ => r end.
Definition RetireProvisioning (account : Account) (sessionID : string) : W → result unit * W :=
  call? rt := returns (runtime account) in
  λ w, let '(r, w) := provisioning_RetryCleanup rt sessionID w in (absent_is_done r, w).
Definition StartSteady (account : Account) : W → result StartResult * W :=
  call? rt := returns (runtime account) in steady_StartDetailed rt.
Definition FinishSteady (account : Account) (values : url_values) (w : W) : (string * option error) * W :=
  match runtime account with
  | Err e => (("", Some e), w)
  | Ok rt =>
      match steady_Finish rt values w with
      | (Err e, w) => (("", Some e), w)
      | (Ok session, w) =>
          match session with
          | Some (MkClientSession (Some sessionID)) =>
              if String.eqb sessionID "" then (("", Some ErrOther), w)
              else match runtime_ProveSteady rt session w with
              | (Err e, w) => ((sessionID, Some (classifySteadyProofError e)), w)
              | (Ok _, w) => ((sessionID, None), w)
              end
          | _ => (("", Some ErrOther), w)
          end
      end
  end.
Definition CheckSteady (account : Account) (sessionID : string) : W → result unit * W :=
  call? rt := returns (runtime account) in
  call? session := on_error classifySteadyProofError (steady_Resume rt sessionID) in
  on_error classifySteadyProofError (runtime_ProveSteady rt session).
Definition RetireSteady (account : Account) (sessionID : string) : W → result unit * W :=
  call? rt := returns (runtime account) in
  λ w, let '(r, w) := steady_RevokeAndDelete rt sessionID w in (absent_is_done r, w).
Definition ClientMetadata_of (path : string) : option ClientMetadata := edMetadata d !! path.

(** [var _ OAuthDriver = ( *ExactOAuthDriver)(nil)] *)
Definition exact_driver : OAuthDriver W := {|
  driver_StartProvisioning := StartProvisioning;
  driver_FinishProvisioning := FinishProvisioning;
  driver_RetireProvisioning := RetireProvisioning;
  driver_StartSteady := StartSteady;
  driver_FinishSteady := FinishSteady;
  driver_CheckSteady := CheckSteady;
  driver_RetireSteady := RetireSteady;
  driver_ClientMetadata := ClientMetadata_of;
  retired := revoked_sessions
|}.
End driver.

(** ** The driver that is built *)

Lemma account_eqb_eq a b : account_eqb a b = true ↔ a = b.
Proof.
  unfold account_eqb. rewrite !andb_true_iff, !String.eqb_eq. destruct a, b; cbn. split; [by intros [[[-> ->] ->] ->]|by intros [=]].
Qed.

Section built.
Context `{Syntax} `{HandleSyntax} (origin : string).

(** A document of the runtime under its path. *)
Definition profile_of (rt : OAuthRuntime) (path callback : string) (m : ClientMetadata) : Prop :=
  (path = rtProvisioningMetadataPath rt ∧ callback = "/oauth/provision/callback" ∧ rtProvisioning rt = Some m) ∨
  (path = rtSteadyMetadataPath rt ∧ callback = "/oauth/steady/callback" ∧ rtSteady rt = Some m).
(** A document names the broker, under a path that does not name the account. *)
Definition bound_profile (account : Account) (path callback : string) (m : ClientMetadata) : Prop :=
  validMetadataPath path = true ∧ Contains path (acDID account) = false ∧ Contains path (acHandle account) = false ∧
  cmClientID m = origin +:+ path ∧ cmRedirectURIs m = [origin +:+ callback].
Record built (runtimes : list OAuthRuntime) (d : ExactOAuthDriver) : Prop := {
  bt_runtimes key rt : edRuntimes d !! key = Some rt ↔ rt ∈ runtimes ∧ runtimeKey (rtAccount rt) = key;
  bt_metadata path m : edMetadata d !! path = Some m ↔ ∃ rt callback, rt ∈ runtimes ∧ profile_of rt path callback m;
  bt_bound rt path callback m : rt ∈ runtimes → profile_of rt path callback m → bound_profile (rtAccount rt) path callback m;
  bt_complete rt : rt ∈ runtimes →
    validateAccount (rtAccount rt) = true ∧ is_some (rtProvisioning rt) = true ∧ is_some (rtSteady rt) = true ∧ rtProveSteady rt = true
}.

Lemma add_profile_ok account known path callback m known' : add_profile origin account known (path, callback, m) = Ok known' →
  bound_profile account path callback m ∧ known !! path = None ∧ known' = <[path := m]> known.
Proof.
  unfold add_profile, bound_profile. destruct (negb (validMetadataPath path) || _ || _ || _ || _) eqn:E; [done|]. rewrite !orb_false_iff, !negb_false_iff in E.
  destruct E as [[[[? ?] ?] ?%String.eqb_eq] ?%bool_decide_eq_true]. destruct (known !! path) eqn:Ek; [done|]. by intros [= <-].
Qed.
Lemma add_runtime_built runtimes d rt d' : built runtimes d → add_runtime origin d rt = Ok d' → built (runtimes ++ [rt]) d'.
Proof.
  intros [Hr Hm Hb Hc]. unfold add_runtime. destruct (rtProvisioning rt) as [mp|] eqn:Ep; [|done]. destruct (rtSteady rt) as [ms|] eqn:Es; [|done].
  destruct (negb _ || _) eqn:Ev; [done|]. rewrite orb_false_iff, !negb_false_iff in Ev. destruct Ev as [Ev Epr].
  destruct (edRuntimes d !! runtimeKey (rtAccount rt)) eqn:Ek; [done|]. cbn [is_some range].
  destruct (add_profile _ _ (edMetadata d) _) as [m1|] eqn:E1; [|done]. cbn [result_bind].
  destruct (add_profile _ _ m1 _) as [m2|] eqn:E2; [|done]. intros [= <-].
  apply add_profile_ok in E1 as (Hb1 & Hf1 & ->). apply add_profile_ok in E2 as (Hb2 & Hf2 & ->). rewrite lookup_insert_None in Hf2. destruct Hf2 as [Hf2 Hne].
  split; cbn [edRuntimes edMetadata].
  - intros key rt'. rewrite lookup_insert_Some, Hr, elem_of_app, list_elem_of_singleton. split; [intros [[<- <-]|[_ [Hin Hk]]]; auto|].
    intros [[Hin| ->] <-]; [|by left]. right. split; [|done]. intros E. assert (edRuntimes d !! runtimeKey (rtAccount rt) = Some rt') by (by apply Hr). congruence.
  - intros path m. rewrite !lookup_insert_Some, Hm. setoid_rewrite elem_of_app. setoid_rewrite list_elem_of_singleton. split.
    + intros [[<- <-]|[_ [[<- <-]|[_ (rt' & c & Hin & Hp)]]]]; [| |by exists rt', c; auto].
      * exists rt, "/oauth/steady/callback". split; [by right|]. by right.
      * exists rt, "/oauth/provision/callback". split; [by right|]. by left.
    + intros (rt' & c & [Hin| ->] & Hp).
      * assert (Hd : edMetadata d !! path = Some m) by (apply Hm; by exists rt', c). right. split; [intros <-; congruence|]. right. split; [intros <-; congruence|].
        by exists rt', c.
      * destruct Hp as [(-> & _ & Hx)|(-> & _ & Hx)]; [right; split; [congruence|left]|left]; split; congruence.
  - intros rt' path c m [Hin| ->%list_elem_of_singleton]%elem_of_app; [by apply Hb|].
    intros [(-> & -> & Hx)|(-> & -> & Hx)]; [by replace m with mp by congruence|by replace m with ms by congruence].
  - intros rt' [Hin| ->%list_elem_of_singleton]%elem_of_app; [by apply Hc|]. by rewrite Ep, Es.
Qed.
Lemma range_built l : ∀ runtimes d d', built runtimes d → range (add_runtime origin) l d = Ok d' → built (runtimes ++ l) d'.
Proof.
  induction l as [|rt l IH]; intros runtimes d d' Hb; cbn [range]; [intros [= <-]; by rewrite app_nil_r|].
  destruct (add_runtime origin d rt) as [d1|] eqn:E; [|done]. cbn [result_bind]. intros Hl. pose proof (add_runtime_built _ _ _ _ Hb E) as Hb1.
  specialize (IH _ _ _ Hb1 Hl). by rewrite <- app_assoc in IH.
Qed.
Lemma built_nothing : built [] (MkDriver ∅ ∅).
Proof. split; cbn; intros *; rewrite ?lookup_empty; set_solver. Qed.

(** C20. The driver is exact. A driver that is built finds for an account the runtime that was given
    for exactly that account, and no other; under a path of metadata it gives the document of the
    manager that was given with the path, and that document is bound to the broker; every account
    is valid and has both managers and a proof. *)
Theorem driver_exact (runtimes : list OAuthRuntime) (d : ExactOAuthDriver) (Hd : NewExactOAuthDriver origin runtimes = Ok d) :
  (∀ account rt, runtime d account = Ok rt ↔ rt ∈ runtimes ∧ rtAccount rt = account) ∧
  (∀ path m, ClientMetadata_of d path = Some m ↔ ∃ rt callback, rt ∈ runtimes ∧ profile_of rt path callback m) ∧
  ∀ rt, rt ∈ runtimes →
    validateAccount (rtAccount rt) = true ∧ rtProveSteady rt = true ∧
    ∃ provisioning steady, rtProvisioning rt = Some provisioning ∧ rtSteady rt = Some steady ∧
      bound_profile (rtAccount rt) (rtProvisioningMetadataPath rt) "/oauth/provision/callback" provisioning ∧
      bound_profile (rtAccount rt) (rtSteadyMetadataPath rt) "/oauth/steady/callback" steady.
Proof.
  unfold NewExactOAuthDriver in Hd. destruct (llen runtimes =? 0); [done|]. apply (range_built _ [] _ _ built_nothing) in Hd as [Hr Hm Hb Hc].
  cbn [app] in *. split; [|split; [exact Hm|]].
  - intros account rt. unfold runtime. destruct (edRuntimes d !! runtimeKey account) as [rt'|] eqn:E.
    + destruct (account_eqb (rtAccount rt') account) eqn:Ea.
      * apply account_eqb_eq in Ea. apply Hr in E as [Hin _]. split; [by intros [= <-]|]. intros [Hin' Hacc]. f_equal.
        assert (E1 : edRuntimes d !! runtimeKey account = Some rt') by (apply Hr; by rewrite Ea).
        assert (E2 : edRuntimes d !! runtimeKey account = Some rt) by (apply Hr; by rewrite Hacc). congruence.
      * split; [done|]. intros [Hin Hacc]. assert (E2 : edRuntimes d !! runtimeKey account = Some rt) by (apply Hr; by rewrite Hacc).
        replace rt' with rt in Ea by congruence. by rewrite (proj2 (account_eqb_eq _ _) Hacc) in Ea.
    + split; [done|]. intros [Hin <-]. assert (edRuntimes d !! runtimeKey (rtAccount rt) = Some rt) by (by apply Hr). congruence.
  - intros rt Hin. destruct (Hc rt Hin) as (Hv & Hp & Hs & Ht). destruct (rtProvisioning rt) as [mp|] eqn:Ep; [|done]. destruct (rtSteady rt) as [ms|] eqn:Es; [|done].
    do 2 (split; [done|]). exists mp, ms. do 2 (split; [done|]). split; apply Hb; [done|by left|done|by right].
Qed.
End built.

(** ** What [New] accepts *)

Section accepted.
Context `{Syntax} `{HandleSyntax}.

Lemma admitted_accounts l : ∀ seen seen', range admit_account l seen = Ok seen' →
  NoDup (List.map acDID l) ∧ Forall (λ a, validateAccount a = true ∧ acDID a ∉ seen) l.
Proof.
  induction l as [|a l IH]; intros seen seen'; cbn [range List.map]; [by split; constructor|]. unfold admit_account at 1.
  destruct (validateAccount a) eqn:Ev; [|done]. case_bool_decide as Es; [done|]. cbn [negb result_bind]. intros Hr%IH. destruct Hr as [Hn Hf].
  rewrite Forall_forall in Hf. split.
  - constructor; [|done]. intros Hin. apply list_elem_of_In, in_map_iff in Hin as (b & Hb & Hin). apply list_elem_of_In, Hf in Hin as [_ Hin]. set_solver.
  - constructor; [done|]. apply Forall_forall. intros b Hb%Hf. set_solver.
Qed.
Lemma find_account l a : NoDup (List.map acDID l) → a ∈ l → List.find (λ b, String.eqb (acDID b) (acDID a)) l = Some a.
Proof.
  induction l as [|b l IH]; [by intros _ ?%not_elem_of_nil|]. cbn [List.map List.find]. intros [Hb Hn]%NoDup_cons Hin.
  destruct (String.eqb_spec (acDID b) (acDID a)) as [E|Hne]; apply elem_of_cons in Hin as [->|Hin]; try done; [|by apply IH].
  exfalso. apply Hb. rewrite E. by apply list_elem_of_In, in_map, list_elem_of_In.
Qed.
(** A broker that is configured is given valid accounts with different DIDs, so that a request finds
    each of them by its DID. *)
Lemma configured_accounts config has_store has_driver h : New config has_store has_driver = Ok h →
  bkAccounts h = bcAccounts config ∧ bkReturnURL h = fixedReturnURL ∧ 24 ≤ len (bkRelayToken h) ∧
  ∀ a, a ∈ bkAccounts h → validateAccount a = true ∧ account_by_did h (acDID a) = Some a.
Proof.
  unfold New. destruct (cleanBrokerOrigin _ _) as [origin|]; [|done]. cbn [result_bind].
  destruct (N.ltb_spec (len (bcRelayToken config)) 24) as [|Ht]; [done|]. cbn [orb]. destruct (_ || _); [done|].
  destruct (String.eqb_spec (bcReturnURL config) fixedReturnURL) as [Hu|]; [|done]. cbn [negb]. do 2 (destruct (_ || _); [done|]).
  destruct (range admit_account _ _) as [seen|] eqn:E; [|done]. cbn [result_bind]. intros [= <-].
  apply admitted_accounts in E as [Hn Hf]. rewrite Forall_forall in Hf. do 3 (split; [done|]). cbn [bkAccounts]. intros a Ha.
  split; [by apply Hf|]. by apply find_account.
Qed.
End accepted.

(** ** The driver keeps what the broker relies on *)

Section laws.
Context `{CaseOrbits} {W : Type} `{RecordStore W} `{OAuthManagers W} (d : ExactOAuthDriver).
#[local] Existing Instance exact_driver.
#[local] Instance the_driver : OAuthDriver W := exact_driver d.

(** What a manager's answer to a revocation says: that it was done, or that there is no such
    session. Any other error says nothing. *)
Definition says_gone (r : result unit) : Prop := r = Ok tt ∨ ∃ e, r = Err e ∧ errors_Is e ErrRecordNotFound = true.

(** The managers revoke what they say, lose no session, and name sessions by text. A session that
    is not there is gone. *)
Class ManagerLaws : Prop := {
  provisioning_Start_keeps rt w : kept w (provisioning_StartDetailed rt w).2;
  provisioning_Finish_keeps rt values w : kept w (provisioning_FinishDetailed rt values w).2 ∧
    valid_text (poRetainedSessionID (provisioning_FinishDetailed rt values w).1.1);
  provisioning_Cleanup_revokes rt sessionID w r w' : provisioning_RetryCleanup rt sessionID w = (r, w') →
    kept w w' ∧ (says_gone r → (Provisioning, sessionID) ∈ revoked_sessions w');
  steady_Start_keeps rt w : kept w (steady_StartDetailed rt w).2;
  steady_Finish_keeps rt values w r w' : steady_Finish rt values w = (r, w') →
    kept w w' ∧ ∀ sessionID, r = Ok (Some (MkClientSession (Some sessionID))) → valid_text sessionID;
  steady_Resume_keeps rt sessionID w : kept w (steady_Resume rt sessionID w).2;
  steady_Revoke_revokes rt sessionID w r w' : steady_RevokeAndDelete rt sessionID w = (r, w') →
    kept w w' ∧ (says_gone r → (Steady, sessionID) ∈ revoked_sessions w');
  ProveSteady_keeps rt session w : kept w (runtime_ProveSteady rt session w).2
}.

Context `{!ManagerLaws}.
Implicit Types w : W.

Lemma absent_done r : absent_is_done r = Ok tt ↔ says_gone r.
Proof.
  unfold says_gone, absent_is_done. destruct r as [[]|e]; [split; [by left|done]|].
  destruct (errors_Is e _) eqn:E; (split; [|try done]); try (by intros; right; exists e); intros [|(e' & [= <-] & E')]; congruence.
Qed.
Lemma runtime_err account e : runtime d account = Err e → e = ErrOther.
Proof. unfold runtime. repeat case_match; congruence. Qed.
Lemma exact_RetireSteady account sessionID w r w' : RetireSteady d account sessionID w = (r, w') →
  kept w w' ∧ (r = Ok tt → (Steady, sessionID) ∈ revoked_sessions w').
Proof.
  unfold RetireSteady, call_bind, returns. destruct (runtime d account) as [rt|e]; [|by intros [= <- <-]].
  destruct (steady_RevokeAndDelete rt sessionID w) as [r1 w1] eqn:E. intros [= <- <-]. rewrite absent_done. by apply (steady_Revoke_revokes rt sessionID w).
Qed.
Lemma exact_RetireProvisioning account sessionID w r w' : RetireProvisioning d account sessionID w = (r, w') →
  kept w w' ∧ (r = Ok tt → (Provisioning, sessionID) ∈ revoked_sessions w').
Proof.
  unfold RetireProvisioning, call_bind, returns. destruct (runtime d account) as [rt|e]; [|by intros [= <- <-]].
  destruct (provisioning_RetryCleanup rt sessionID w) as [r1 w1] eqn:E. intros [= <- <-]. rewrite absent_done. by apply (provisioning_Cleanup_revokes rt sessionID w).
Qed.
Lemma exact_CheckSteady account sessionID w : kept w (CheckSteady d account sessionID w).2.
Proof.
  unfold CheckSteady, call_bind, on_error, returns. destruct (runtime d account) as [rt|e]; [|done].
  pose proof (steady_Resume_keeps rt sessionID w) as Hk. destruct (steady_Resume rt sessionID w) as [[session|e] w1]; [|done]. cbn [snd] in Hk.
  etrans; [exact Hk|]. pose proof (ProveSteady_keeps rt session w1) as Hk1. by destruct (runtime_ProveSteady rt session w1) as [[|] w2].
Qed.
Lemma exact_FinishProvisioning account values w : kept w (FinishProvisioning d account values w).2 ∧
  valid_text (FinishProvisioning d account values w).1.1.
Proof.
  unfold FinishProvisioning. destruct (runtime d account) as [rt|e]; [|done]. pose proof (provisioning_Finish_keeps rt values w) as Hk.
  by destruct (provisioning_FinishDetailed rt values w) as [[outcome [e|]] w1]; destruct Hk.
Qed.
Lemma exact_FinishSteady account values w : kept w (FinishSteady d account values w).2 ∧ valid_text (FinishSteady d account values w).1.1.
Proof.
  unfold FinishSteady. destruct (runtime d account) as [rt|e]; [|done]. destruct (steady_Finish rt values w) as [[session|e] w1] eqn:E;
    apply steady_Finish_keeps in E as [Hk Ht]; [|done].
  destruct session as [[[s|]]|]; [|done|done]. destruct (String.eqb s ""); [done|].
  pose proof (ProveSteady_keeps rt (Some (MkClientSession (Some s))) w1) as Hk1.
  destruct (runtime_ProveSteady rt _ w1) as [[|] w2]; (split; [by etrans|by apply Ht]).
Qed.
Lemma exact_Start account w : kept w (StartProvisioning d account w).2 ∧ kept w (StartSteady d account w).2.
Proof.
  unfold StartProvisioning, StartSteady, call_bind, returns. destruct (runtime d account) as [rt|e]; [|done].
  split; [apply provisioning_Start_keeps|apply steady_Start_keeps].
Qed.
Lemma exact_driver_laws : DriverLaws.
Proof.
  split; cbn.
  - apply exact_RetireSteady.
  - apply exact_RetireProvisioning.
  - apply exact_CheckSteady.
  - intros account w. apply exact_Start.
  - intros account w. apply exact_Start.
  - apply exact_FinishProvisioning.
  - apply exact_FinishSteady.
Qed.
Lemma classified e : errors_Is (classifySteadyProofError e) ErrReauthorizationRequired = true ∨
    errors_Is (classifySteadyProofError e) ErrUnauthorized = true ∨ errors_Is (classifySteadyProofError e) ErrRecordNotFound = true →
  errors_Is (classifySteadyProofError e) ErrSteadyReauthorizationRequired = true.
Proof. unfold classifySteadyProofError. destruct (_ || _) eqn:E; [done|]. rewrite !orb_false_iff in E. destruct E as [[-> ->] ->]. by intros [|[|]]. Qed.
End laws.

(** C19. The driver implements what the broker relies on, over managers that revoke what they say:
    a session that it retires has been revoked or is gone, no call loses a session. A login that
    gave a session is reported with that session whatever its proof says, and without an error
    exactly when the proof holds; a check that fails because the grant is gone says that a new
    login is needed. *)
Theorem exact_driver_contract `{CaseOrbits} {W : Type} `{RecordStore W} `{OAuthManagers W} (d : ExactOAuthDriver) `{!ManagerLaws d} :
  @DriverLaws _ W _ (exact_driver d) ∧
  (∀ account rt values sessionID w w1, runtime d account = Ok rt →
     steady_Finish rt values w = (Ok (Some (MkClientSession (Some sessionID))), w1) → sessionID ≠ "" →
     (FinishSteady d account values w).1.1 = sessionID ∧
     ((FinishSteady d account values w).1.2 = None ↔ (runtime_ProveSteady rt (Some (MkClientSession (Some sessionID))) w1).1 = Ok tt)) ∧
  (∀ account sessionID w e, (CheckSteady d account sessionID w).1 = Err e →
     errors_Is e ErrReauthorizationRequired = true ∨ errors_Is e ErrUnauthorized = true ∨ errors_Is e ErrRecordNotFound = true →
     errors_Is e ErrSteadyReauthorizationRequired = true).
Proof.
  split; [apply exact_driver_laws; assumption|]. split.
  - intros account rt values s w w1 Hr Hf Hs. unfold FinishSteady. rewrite Hr, Hf. apply String.eqb_neq in Hs. rewrite Hs.
    by destruct (runtime_ProveSteady _ _ w1) as [[[]|e] w2].
  - intros account s w e. unfold CheckSteady, call_bind, on_error, returns. destruct (runtime d account) as [rt|e0] eqn:Er.
    + destruct (steady_Resume rt s w) as [[session|e0] w1]; [|intros [= <-]; apply classified].
      destruct (runtime_ProveSteady rt session w1) as [[|e0] w2]; [done|intros [= <-]; apply classified].
    + apply runtime_err in Er as ->. by intros [= <-] [|[|]].
Qed.

(** ** A driver for one account *)

(** The handles of the specification: a domain name of at least two labels. *)
#[export] Instance reference_handles : HandleSyntax := {
  ParseHandle s := if (len s <=? 253) && (2 <=? llen (Split s ".")) && forallb reference_label (Split s ".") then Some s else None
}.
#[export] Instance broker_managers : OAuthManagers broker_world := {
  provisioning_StartDetailed _ := returns (Ok sample_start_result);
  provisioning_FinishDetailed _ _ w := ((MkOutcome "at://did:plc:alice/space/email.atmos.mailbox/default" "", None), w);
  provisioning_RetryCleanup _ sessionID w := (Ok tt, retire_session Provisioning sessionID w);
  steady_StartDetailed _ := returns (Ok sample_start_result);
  steady_Finish _ _ w := (Ok (Some (MkClientSession (Some "session-2"))), w);
  steady_Resume _ sessionID w := (Ok (Some (MkClientSession (Some sessionID))), w);
  steady_RevokeAndDelete _ sessionID w := (Ok tt, retire_session Steady sessionID w);
  runtime_ProveSteady _ _ := returns (Err ErrUnauthorized);
  revoked_sessions := bwRetired
}.
#[export] Instance broker_manager_laws d : ManagerLaws (W := broker_world) d.
Proof.
  split; cbn.
  - done.
  - done.
  - intros rt s w r w' [= <- <-]. split; [apply retire_kept|intros _; set_solver].
  - done.
  - intros rt values w r w' [= <- <-]. split; [done|]. by intros s [= <-].
  - done.
  - intros rt s w r w' [= <- <-]. split; [apply retire_kept|intros _; set_solver].
  - done.
Qed.

Definition sample_metadata (path callback : string) : ClientMetadata :=
  MkClientMetadata ("https://broker.example" +:+ path) ["https://broker.example" +:+ callback] JNull.
Definition sample_runtime : OAuthRuntime :=
  MkRuntime broker_account "/oauth/client/a/p.json" "/oauth/client/a/s.json"
    (Some (sample_metadata "/oauth/client/a/p.json" "/oauth/provision/callback"))
    (Some (sample_metadata "/oauth/client/a/s.json" "/oauth/steady/callback")) true.
Definition sample_driver : ExactOAuthDriver :=
  match NewExactOAuthDriver "https://broker.example" [sample_runtime] with Ok d => d | Err _ => MkDriver ∅ ∅ end.
Lemma sample_driver_built : NewExactOAuthDriver "https://broker.example" [sample_runtime] = Ok sample_driver.
Proof. vm_compute. reflexivity. Qed.
Lemma sample_runtime_found : runtime sample_driver broker_account = Ok sample_runtime.
Proof. vm_compute. reflexivity. Qed.
(** The metadata of the two managers under one path is refused, and so is a path with the DID. *)
Lemma shared_path_refused : NewExactOAuthDriver "https://broker.example"
  [MkRuntime broker_account "/oauth/client/a/p.json" "/oauth/client/a/p.json"
    (Some (sample_metadata "/oauth/client/a/p.json" "/oauth/provision/callback"))
    (Some (sample_metadata "/oauth/client/a/p.json" "/oauth/steady/callback")) true] = Err ErrOther.
Proof. vm_compute. reflexivity. Qed.
Lemma sample_configured : New (MkBrokerConfig "https://broker.example" "0123456789abcdef01234567" fixedReturnURL [broker_account] false) true true =
  Ok sample_broker.
Proof. vm_compute. reflexivity. Qed.
Lemma loopback_broker : List.map (λ raw, cleanBrokerOrigin raw true) ["http://127.0.0.1:8080"; "http://broker.example:80"; "https://broker.example/"; "https://10.0.0.1"] =
  [Ok "http://127.0.0.1:8080"; Err ErrOther; Err ErrOther; Err ErrOther].
Proof. vm_compute. reflexivity. Qed.

Lemma driver_exact_witness : runtime sample_driver broker_account = Ok sample_runtime.
Proof.
  destruct (driver_exact "https://broker.example" [sample_runtime] sample_driver sample_driver_built) as [Hr _].
  apply Hr. split; [by apply list_elem_of_singleton|reflexivity].
Defined.
Lemma exact_driver_contract_witness : @DriverLaws _ broker_world _ (exact_driver sample_driver) ∧
  (FinishSteady sample_driver broker_account ∅ broker_before).1.1 = "session-2".
Proof.
  destruct (exact_driver_contract (W := broker_world) sample_driver) as (Hl & Hf & _). split; [exact Hl|].
  refine (proj1 (Hf broker_account sample_runtime ∅ "session-2" broker_before broker_before sample_runtime_found _ _)); [reflexivity|discriminate].
Defined.
