(* ===== verification/Vault.v ===== *)
(** * internal/authvault/store.go: the encrypted vault

    One file holds the sessions and the pending requests of the login library and the records of
    the broker, encrypted under a key in another file.  Every operation takes a file lock, reads
    the whole vault, changes it and replaces the file.  The file system, the cipher (AES-256-GCM)
    and the data of the login library are classes; the mutex of a [Store] is not modelled, the
    file lock includes what it does. *)
From S2P Require Import Prelude Sha256 GoStd Syntax Unicode Json Base64 Time Url Mailbox Repository Decode SecureFile Broker.

(** ** The standard library *)

(** [base64.StdEncoding]: padded with [=]. *)
Definition StdEncode (s : string) : string :=
  RawStdEncode s +:+ (if len s mod 3 =? 1 then "==" else if len s mod 3 =? 2 then "=" else "").
Fixpoint decode_padded (s : string) : option string :=
  match s with
  | EmptyString => Some ""
  | String p (String q (String r (String t rest))) =>
      if String.eqb rest "" && Ascii.eqb t "=" then
        decode_quads (if Ascii.eqb r "=" then String p (String q "") else String p (String q (String r "")))
      else
        first ← decode_quads (String p (String q (String r (String t ""))));
        others ← decode_padded rest;
        Some (first +:+ others)
  | _ => None
  end.
Definition StdDecode (s : string) : option string := decode_padded (strip_newlines s).

(** The value of a text that [time.Parse(time.RFC3339Nano, s)] accepts. *)
Definition days_before (year month day : Z) : Z :=
  let y := if (month <=? 2)%Z then (year - 1)%Z else year in
  let doy := ((153 * (if (month <=? 2)%Z then month + 9 else month - 3) + 2) / 5 + day - 1)%Z in
  let yoe := (y mod 400)%Z in
  (y / 400 * 146097 + yoe * 365 + yoe / 4 - yoe / 100 + doy - 306)%Z.
Fixpoint nano_digits (n : nat) (acc : N) (s : string) : N :=
  match n with
  | O => acc
  | S n =>
      match s with
      | String c s' => match digit c with Some d => nano_digits n (10 * acc + d) s' | None => nano_digits n (10 * acc) s end
      | EmptyString => nano_digits n (10 * acc) s
      end
  end.
(** The nanoseconds of a fraction, and the offset of a zone in seconds. *)
Definition fraction_value (s : string) : N :=
  match s with
  | String p s' => if Ascii.eqb p "." || Ascii.eqb p "," then nano_digits 9 0 s' else 0
  | EmptyString => 0
  end.
Definition zone_value (s : string) : Z :=
  match s with
  | String z s1 =>
      match digits 2 0 s1 with
      | Some (hh, String _ s3) =>
          match digits 2 0 s3 with
          | Some (mm, _) => ((if Ascii.eqb z "-" then -1 else 1) * (Z.of_N hh * 3600 + Z.of_N mm * 60))%Z
          | None => 0%Z
          end
      | _ => 0%Z
      end
  | EmptyString => 0%Z
  end.
Definition time_Parse (s : string) : option time :=
  if negb (parse_RFC3339Nano s) then None
  else
    '(year, s) ← digits 4 0 s; '(month, s) ← digits 2 0 (skip 1 s); '(day, s) ← digits 2 0 (skip 1 s);
    '(hour, s) ← one_or_two_digits (skip 1 s); '(minute, s) ← digits 2 0 (skip 1 s); '(second, s) ← digits 2 0 (skip 1 s);
    Some ((days_before (Z.of_N year) (Z.of_N month) (Z.of_N day) * 86400 + Z.of_N hour * 3600 + Z.of_N minute * 60 + Z.of_N second -
           zone_value (skip_fraction s)) * 1000000000 + Z.of_N (fraction_value s))%Z.

Example parse_back : List.map (λ t, time_Parse (format_RFC3339Nano t)) [time_Unix 1784235600 0; time_Unix 1709210096 120000000; zero_time] =
  [Some (time_Unix 1784235600 0); Some (time_Unix 1709210096 120000000); Some zero_time].
Proof. vm_compute. reflexivity. Qed.
Example parse_offset : time_Parse "2026-07-16T23:00:00.5+02:00" = Some (time_Unix 1784235600 500000000).
Proof. vm_compute. reflexivity. Qed.

(** ** What is not in this repository *)

(** [cipher.NewGCM]: sealing and opening under a key, a nonce and additional data. *)
Class AEAD : Type := {
  aead_Seal : string → string → string → string → string;
  aead_Open : string → string → string → string → option string
}.
(** The session and request data of the login library, with their JSON. *)
Class OAuthData : Type := {
  ClientSessionData : Type;
  AuthRequestData : Type;
  csd_AccountDID : ClientSessionData → string;
  csd_SessionID : ClientSessionData → string;
  ard_State : AuthRequestData → string;
  no_session : ClientSessionData;
  no_request : AuthRequestData;
  session_json : ClientSessionData → json;
  request_json : AuthRequestData → json;
  decode_session : json → ClientSessionData → option ClientSessionData;
  decode_request : json → AuthRequestData → option AuthRequestData
}.
(** The calls on files beside those of [FileSystem]. *)
Class VaultFiles (W : Type) : Type := {
  (** [os.OpenFile] with [O_CREATE|O_RDWR], and with [O_WRONLY|O_CREATE|O_EXCL], in mode 0600 *)
  os_OpenLock : string → W → result N * W;
  os_OpenNew : string → W → result N * W;
  os_Stat : string → W → result FileInfo * W;
  os_MkdirAll : string → W → result unit * W;
  os_ReadFile : string → W → result string * W;
  os_CreateTemp : string → W → result (N * string) * W;
  file_Chmod : N → N → W → result unit * W;
  file_Write : N → string → W → result unit * W;
  file_Sync : N → W → result unit * W;
  os_Rename : string → string → W → result unit * W;
  os_Remove : string → W → W;
  flock : N → W → result unit * W;
  funlock : N → W → W;
  (** not part of the Go interface: what the file under a path contains, whether this process holds
      the lock, and how often it has taken it *)
  on_disk : W → string → option string;
  locked : W → bool;
  lockings : W → N
}.

(** ** The state *)

Definition formatVersion : Z := 2.
Definition keyBytes : N := 32.
Definition maxVaultBytes : N := 8 * 1024 * 1024.
Definition maxRecordBytes : N := 64 * 1024.
Definition maxRecords : N := 4096.
Definition authRequestTTL : Z := 15 * 60 * 1000000000.
Definition magic : string := "CMPDSV02".
Definition nonceSize : N := 12.
Definition overhead : N := 16.

(** A nil value is [None]. *)
Record storedRecord : Type := MkStoredRecord { srValue : option string; srExpiresAt : string }.
Record storedAuthRequest `{OAuthData} : Type := MkStoredRequest { saData : AuthRequestData; saSavedAt : string }.
(** A nil map is [None]. *)
Record diskState `{OAuthData} : Type := MkDiskState {
  dsVersion : Z;
  dsSessions : option (gmap string ClientSessionData);
  dsRequests : option (gmap string storedAuthRequest);
  dsRecords : option (gmap string storedRecord)
}.
Definition entries {A} (m : option (gmap string A)) : gmap string A := default ∅ m.

Section state.
Context `{OAuthData}.

Definition set_dsVersion (s : diskState) (x : Z) := MkDiskState _ x (dsSessions s) (dsRequests s) (dsRecords s).
Definition set_dsSessions (s : diskState) (x : option (gmap string ClientSessionData)) := MkDiskState _ (dsVersion s) x (dsRequests s) (dsRecords s).
Definition set_dsRequests (s : diskState) (x : option (gmap string storedAuthRequest)) := MkDiskState _ (dsVersion s) (dsSessions s) x (dsRecords s).
Definition set_dsRecords (s : diskState) (x : option (gmap string storedRecord)) := MkDiskState _ (dsVersion s) (dsSessions s) (dsRequests s) x.
Definition newDiskState : diskState := MkDiskState _ formatVersion (Some ∅) (Some ∅) (Some ∅).

(** A map is written in the order of its keys. *)
Definition json_map {A} (f : A → json) (m : option (gmap string A)) : json :=
  match m with
  | None => JNull
  | Some m => JObj (omap (λ k, option_map (λ x, (k, f x)) (m !! k)) (sort_strings (map_to_list m).*1))
  end.
Definition json_bytes (b : option string) : json := match b with None => JNull | Some b => JStr (StdEncode b) end.
Definition record_json (r : storedRecord) : json :=
  JObj (("value", json_bytes (srValue r)) :: omit_if (String.eqb (srExpiresAt r) "") "expiresAt" (JStr (srExpiresAt r))).
Definition auth_request_json (r : storedAuthRequest) : json :=
  JObj [("data", request_json (saData r)); ("savedAt", JStr (saSavedAt r))].
Definition state_json (s : diskState) : json :=
  JObj ([("version", json_Z (dsVersion s)); ("sessions", json_map session_json (dsSessions s)); ("requests", json_map auth_request_json (dsRequests s))] ++
        omit_if (bool_decide (entries (dsRecords s) = ∅)) "records" (json_map record_json (dsRecords s))).

(** A map keeps what it has and gets the members one after the other. *)
Fixpoint decode_entries {A} (decode : json → A → option A) (zero : A) (l : list (string * json)) (m : gmap string A) : option (gmap string A) :=
  match l with
  | [] => Some m
  | (k, j) :: l => match decode j zero with Some x => decode_entries decode zero l (<[k := x]> m) | None => None end
  end.
Definition decode_map {A} (decode : json → A → option A) (zero : A) (j : json) (old : option (gmap string A)) : option (option (gmap string A)) :=
  match j with
  | JNull => Some None
  | JObj l => option_map Some (decode_entries decode zero l (entries old))
  | _ => None
  end.
Definition decode_bytes (j : json) (_ : option string) : option (option string) :=
  match j with
  | JNull => Some None
  | JStr s => option_map Some (StdDecode s)
  | _ => None
  end.

Context `{CaseOrbits}.
Definition record_fields : list (field storedRecord) :=
  [mk_field "value" decode_bytes srValue (λ r x, MkStoredRecord x (srExpiresAt r));
   mk_field "expiresAt" decode_string srExpiresAt (λ r x, MkStoredRecord (srValue r) x)].
Definition auth_request_fields : list (field storedAuthRequest) :=
  [mk_field "data" decode_request saData (λ r x, MkStoredRequest _ x (saSavedAt r));
   mk_field "savedAt" decode_string saSavedAt (λ r x, MkStoredRequest _ (saData r) x)].
Definition state_fields : list (field diskState) :=
  [mk_field "version" decode_int64 dsVersion set_dsVersion;
   mk_field "sessions" (decode_map decode_session no_session) dsSessions set_dsSessions;
   mk_field "requests" (decode_map (decode_struct auth_request_fields) (MkStoredRequest _ no_request "")) dsRequests set_dsRequests;
   mk_field "records" (decode_map (decode_struct record_fields) (MkStoredRecord None "")) dsRecords set_dsRecords].
(** The check of what was decrypted. *)
Definition decode_state (plaintext : string) : result diskState :=
  match parse plaintext with
  | Some j =>
      match decode_struct state_fields j (MkDiskState _ 0 None None None) with
      | Some state =>
          if negb (dsVersion state =? formatVersion)%Z || negb (is_some (dsSessions state)) || negb (is_some (dsRequests state)) then Err ErrDecrypt
          else Ok (if is_some (dsRecords state) then state else set_dsRecords state (Some ∅))
      | None => Err ErrDecrypt
      end
  | None => Err ErrDecrypt
  end.

(** ** Records *)

Definition recordExpired (record : storedRecord) (now : time) : bool :=
  if String.eqb (srExpiresAt record) "" then false
  else match time_Parse (srExpiresAt record) with Some expiresAt => negb (now <? expiresAt)%Z | None => true end.
Definition request_live (now : time) (request : storedAuthRequest) : bool :=
  match time_Parse (saSavedAt request) with Some savedAt => (now <? savedAt + authRequestTTL)%Z | None => false end.
Definition pruneExpired (now : time) (state : diskState) : diskState :=
  MkDiskState _ (dsVersion state) (dsSessions state)
    (Some (filter (λ kv, request_live now kv.2 = true) (entries (dsRequests state))))
    (Some (filter (λ kv, recordExpired kv.2 now = false) (entries (dsRecords state)))).

Definition name_blanks : string := NUL +:+ byte 13 +:+ byte 10 +:+ byte 9 +:+ " ".
Definition validateRecordName (name : string) : bool :=
  negb ((len name =? 0) || (160 <? len name) || negb (String.eqb (TrimSpace name) name) || ContainsAny name name_blanks).
Definition validateRecord (name value : string) (expiresAt now : time) : bool :=
  validateRecordName name && negb ((len value =? 0) || (maxRecordBytes <? len value)) &&
  negb (negb (IsZero expiresAt) && negb (now <? expiresAt)%Z).
Definition newStoredRecord (value : string) (expiresAt : time) : storedRecord :=
  MkStoredRecord (if String.eqb value "" then None else Some value) (if IsZero expiresAt then "" else format_RFC3339Nano expiresAt).
Definition sessionKey (did sessionID : string) : string := did +:+ NUL +:+ sessionID.
Definition value_of (record : storedRecord) : string := default "" (srValue record).
Definition record_count (state : diskState) : N := N.of_nat (size (entries (dsRecords state))).
Definition put_entry (state : diskState) (name : string) (record : storedRecord) : diskState :=
  set_dsRecords state (Some (<[name := record]> (entries (dsRecords state)))).
Definition drop_entry (state : diskState) (name : string) : diskState :=
  set_dsRecords state (Some (delete name (entries (dsRecords state)))).

(** The changes of the operations; the flag of a comparison is set before the vault is written. *)
Definition create_change (name value : string) (expiresAt now : time) (state : diskState) : result diskState :=
  let state := pruneExpired now state in
  fail_if is_some (entries (dsRecords state) !! name) with ErrRecordExists ;;
  fail_if maxRecords <=? record_count state with ErrOther ;;
  Ok (put_entry state name (newStoredRecord value expiresAt)).
Definition set_change (name value : string) (expiresAt now : time) (state : diskState) : result diskState :=
  let state := pruneExpired now state in
  fail_if negb (is_some (entries (dsRecords state) !! name)) && (maxRecords <=? record_count state) with ErrOther ;;
  Ok (put_entry state name (newStoredRecord value expiresAt)).
(** [expected] is [None] for nil. *)
Definition matches (expected : option string) (current : option storedRecord) : bool :=
  match expected, current with
  | None, None => true
  | Some expected, Some current => String.eqb (value_of current) expected
  | _, _ => false
  end.
Definition swap_change (name : string) (expected : option string) (replacement : string) (expiresAt now : time) (state : diskState) : bool * result diskState :=
  let state := pruneExpired now state in
  let current := entries (dsRecords state) !! name in
  if negb (matches expected current) then (false, Ok state)
  else if negb (is_some current) && (maxRecords <=? record_count state) then (false, Err ErrOther)
  else (true, Ok (put_entry state name (newStoredRecord replacement expiresAt))).
Definition compare_delete_change (name expected : string) (now : time) (state : diskState) : bool * result diskState :=
  let state := pruneExpired now state in
  if negb (matches (Some expected) (entries (dsRecords state) !! name)) then (false, Ok state)
  else (true, Ok (drop_entry state name)).
Definition live_record (name : string) (now : time) (state : diskState) : option string :=
  match entries (dsRecords state) !! name with
  | Some record => if recordExpired record now then None else Some (value_of record)
  | None => None
  end.
Definition consume_change (name : string) (now : time) (state : diskState) : string * result diskState :=
  match live_record name now state with
  | None => ("", Err ErrRecordNotFound)
  | Some value => (value, Ok (drop_entry state name))
  end.
Definition request_change (info : AuthRequestData) (pruned saved : time) (state : diskState) : result diskState :=
  let state := pruneExpired pruned state in
  fail_if is_some (entries (dsRequests state) !! ard_State info) with ErrRecordExists ;;
  Ok (set_dsRequests state (Some (<[ard_State info := MkStoredRequest _ info (format_RFC3339Nano saved)]> (entries (dsRequests state))))).
End state.

(** ** The store *)

Record Store : Type := MkStore { vsVaultPath : string; vsKeyPath : string; vsLockPath : string; vsKey : string }.

Section store.
Context `{OAuthData} `{CaseOrbits} `{AEAD} {W : Type} `{FileSystem W} `{VaultFiles W} `{Ambient W}.

(** The permission bits 0077. *)
Definition group_bits : N := 63.
Definition requirePrivateFile (file : N) : W → result unit * W :=
  call? info := file_Stat file in
  return_if negb (fiRegular info) || negb (N.land (fiPerm info) group_bits =? 0) with Err ErrPermissions ;;
  returns (Ok tt).
Definition requirePrivateRegular (path : string) : W → result unit * W :=
  call? file := os_Open path in
  λ w, let '(r, w) := requirePrivateFile file w in (r, (file_Close file w).2).

(** A closure that sets a captured variable gives its value beside its error; [unset] is the value
    when it does not run. *)
Definition with_lock {A} (unset : A) (s : Store) (fn : W → (A * result unit) * W) (w : W) : (A * result unit) * W :=
  match request_Err w with
  | (Err e, w) => ((unset, Err e), w)
  | (Ok _, w) =>
      match os_OpenLock (vsLockPath s) w with
      | (Err e, w) => ((unset, Err e), w)
      | (Ok lock, w) =>
          let '(r, w) :=
            match requirePrivateFile lock w with
            | (Err e, w) => ((unset, Err e), w)
            | (Ok _, w) =>
                match flock lock w with
                | (Err e, w) => ((unset, Err e), w)
                | (Ok _, w) =>
                    let '(r, w) := match request_Err w with (Err e, w) => ((unset, Err e), w) | (Ok _, w) => fn w end in
                    (r, funlock lock w)
                end
            end in
          (r, (file_Close lock w).2)
      end
  end.

Definition valid_key (key : string) : bool := (len key =? 16) || (len key =? 24) || (len key =? 32).
(** The state that the bytes of a vault hold. *)
Definition open_vault (key data : string) : result diskState :=
  fail_if (maxVaultBytes <? len data) || (len data <? len magic + 12 + 16) || negb (HasPrefix data magic) with ErrDecrypt ;;
  fail_if negb (valid_key key) with ErrOther ;;
  fail_if len data <? len magic + nonceSize + overhead with ErrDecrypt ;;
  let rest := skip (String.length magic) data in
  match aead_Open key (substring 0 12 rest) (skip 12 rest) magic with
  | Some plaintext => decode_state plaintext
  | None => Err ErrDecrypt
  end.
Definition seal_vault (key nonce : string) (state : diskState) : string :=
  magic +:+ nonce +:+ aead_Seal key nonce (print (state_json state)) magic.
Definition readLocked (s : Store) : W → result diskState * W :=
  call? _ := requirePrivateRegular (vsVaultPath s) in
  call? data := os_ReadFile (vsVaultPath s) in
  returns (open_vault (vsKey s) data).

(** Each step after the creation of the temporary file; the file is closed on every path. *)
Definition fill_temp (tmp : N) (data : string) (w : W) : result unit * W :=
  match (call? _ := file_Chmod tmp 384 in call? _ := file_Write tmp data in file_Sync tmp) w with
  | (Err e, w) => (Err e, (file_Close tmp w).2)
  | (Ok _, w) => file_Close tmp w
  end.
Definition replace_file (tmpPath path : string) : W → result unit * W :=
  call? _ := os_Rename tmpPath path in
  call? dir := os_Open (Dir path) in
  λ w, let '(r, w) := file_Sync dir w in (r, (file_Close dir w).2).
Definition writeLocked (s : Store) (state : diskState) : W → result unit * W :=
  return_if negb (valid_key (vsKey s)) with Err ErrOther ;;
  call? nonce := random_bytes nonceSize in
  let data := seal_vault (vsKey s) nonce state in
  return_if maxVaultBytes <? len data with Err ErrOther ;;
  call? tmp := os_CreateTemp (Dir (vsVaultPath s)) in
  λ w,
  let '(r, w) := (call? _ := fill_temp tmp.1 data in replace_file tmp.2 (vsVaultPath s)) w in
  (r, os_Remove tmp.2 w).

Definition vault_read {A} (unset : A) (s : Store) (use : diskState → W → (A * result unit) * W) : W → (A * result unit) * W :=
  with_lock unset s (λ w,
    match readLocked s w with
    | (Err e, w) => ((unset, Err e), w)
    | (Ok state, w) => use state w
    end).
Definition mutate {A} (unset : A) (s : Store) (change : diskState → W → (A * result diskState) * W) : W → (A * result unit) * W :=
  with_lock unset s (λ w,
    match readLocked s w with
    | (Err e, w) => ((unset, Err e), w)
    | (Ok state, w) =>
        match change state w with
        | ((a, Err e), w) => ((a, Err e), w)
        | ((a, Ok state), w) => let '(r, w) := writeLocked s state w in ((a, r), w)
        end
    end).
(** A change that needs no captured variable, and one that looks at the clock. *)
Definition update (s : Store) (change : diskState → W → result diskState * W) (w : W) : result unit * W :=
  let '((_, r), w) := mutate tt s (λ state w, let '(r, w) := change state w in ((tt, r), w)) w in (r, w).
Definition at_now {A} (f : time → diskState → A) (state : diskState) (w : W) : A * W := let '(now, w) := now_UTC w in (f now state, w).
(** The value, or the error when there is one. *)
Definition value_or_err {A} (r : (A * result unit) * W) : result A * W := (let? _ := r.1.2 in Ok r.1.1, r.2).

(** ** The operations *)

Definition GetSession (s : Store) (did sessionID : string) : W → result ClientSessionData * W := λ w,
  value_or_err (vault_read no_session s (λ state w,
    (match entries (dsSessions state) !! sessionKey did sessionID with
     | Some value => (value, Ok tt)
     | None => (no_session, Err ErrRecordNotFound)
     end, w)) w).
Definition SaveSession (s : Store) (session : ClientSessionData) : W → result unit * W :=
  return_if String.eqb (csd_AccountDID session) "" || String.eqb (csd_SessionID session) "" with Err ErrOther ;;
  update s (λ state, returns (Ok
    (set_dsSessions state (Some (<[sessionKey (csd_AccountDID session) (csd_SessionID session) := session]> (entries (dsSessions state))))))).
Definition DeleteSession (s : Store) (did sessionID : string) : W → result unit * W :=
  update s (λ state, returns (Ok (set_dsSessions state (Some (delete (sessionKey did sessionID) (entries (dsSessions state))))))).
Definition GetAuthRequestInfo (s : Store) (stateID : string) : W → result AuthRequestData * W := λ w,
  value_or_err (vault_read no_request s (λ state w,
    match entries (dsRequests state) !! stateID with
    | None => ((no_request, Err ErrRecordNotFound), w)
    | Some value =>
        match time_Parse (saSavedAt value) with
        | None => ((no_request, Err ErrRecordNotFound), w)
        | Some savedAt =>
            let '(now, w) := now_UTC w in
            (if (now <? savedAt + authRequestTTL)%Z then (saData value, Ok tt) else (no_request, Err ErrRecordNotFound), w)
        end
    end) w).
Definition SaveAuthRequestInfo (s : Store) (info : AuthRequestData) : W → result unit * W :=
  return_if String.eqb (ard_State info) "" with Err ErrOther ;;
  update s (λ state w,
    let '(pruned, w) := now_UTC w in
    if is_some (entries (dsRequests (pruneExpired pruned state)) !! ard_State info) then (Err ErrRecordExists, w)
    else let '(saved, w) := now_UTC w in (request_change info pruned saved state, w)).
Definition DeleteAuthRequestInfo (s : Store) (stateID : string) : W → result unit * W :=
  update s (λ state, returns (Ok (set_dsRequests state (Some (delete stateID (entries (dsRequests state))))))).

Definition CreateRecord (s : Store) (name value : string) (expiresAt : time) (w : W) : result unit * W :=
  let '(now, w) := now_UTC w in
  if negb (validateRecord name value expiresAt now) then (Err ErrOther, w)
  else update s (at_now (create_change name value expiresAt)) w.
Definition SetRecord (s : Store) (name value : string) (expiresAt : time) (w : W) : result unit * W :=
  let '(now, w) := now_UTC w in
  if negb (validateRecord name value expiresAt now) then (Err ErrOther, w)
  else update s (at_now (set_change name value expiresAt)) w.
(** The flag may be set although the vault could not be written. *)
Definition CompareAndSwapRecord (s : Store) (name : string) (expected : option string) (replacement : string) (expiresAt : time) (w : W) :
    (bool * result unit) * W :=
  let '(now, w) := now_UTC w in
  if negb (validateRecord name replacement expiresAt now) then ((false, Err ErrOther), w)
  else mutate false s (at_now (swap_change name expected replacement expiresAt)) w.
Definition CompareAndDeleteRecord (s : Store) (name expected : string) (w : W) : (bool * result unit) * W :=
  if negb (validateRecordName name) then ((false, Err ErrOther), w)
  else if (len expected =? 0) || (maxRecordBytes <? len expected) then ((false, Err ErrOther), w)
  else mutate false s (at_now (compare_delete_change name expected)) w.
Definition GetRecord (s : Store) (name : string) (w : W) : (string * result unit) * W :=
  if negb (validateRecordName name) then (("", Err ErrOther), w)
  else vault_read "" s (at_now (λ now state,
    match live_record name now state with Some value => (value, Ok tt) | None => ("", Err ErrRecordNotFound) end)) w.
Definition ConsumeRecord (s : Store) (name : string) (w : W) : (string * result unit) * W :=
  if negb (validateRecordName name) then (("", Err ErrOther), w)
  else mutate "" s (at_now (consume_change name)) w.
Definition DeleteRecord (s : Store) (name : string) (w : W) : result unit * W :=
  if negb (validateRecordName name) then (Err ErrOther, w)
  else update s (λ state, returns (Ok (drop_entry state name))) w.

(** ** Creating and opening *)

Definition validatePaths (vaultPath keyPath : string) : bool :=
  negb (String.eqb vaultPath "" || String.eqb keyPath "" || String.eqb vaultPath keyPath || negb (HasPrefix vaultPath "/") ||
        negb (HasPrefix keyPath "/")).
Definition ensurePrivateParent (path : string) : W → result unit * W :=
  call? _ := os_MkdirAll (Dir path) in
  call? info := os_Stat (Dir path) in
  return_if negb (fiDir info) || negb (N.land (fiPerm info) group_bits =? 0) with Err ErrPermissions ;;
  returns (Ok tt).
Definition writeNewKey (path : string) : W → result unit * W :=
  call? key := random_bytes keyBytes in
  call? file := os_OpenNew path in
  λ w,
  match (call? _ := file_Write file key in file_Sync file) w with
  | (Err e, w) => (Err e, os_Remove path (file_Close file w).2)
  | (Ok _, w) => file_Close file w
  end.
Definition readKey (path : string) : W → result string * W :=
  call? _ := requirePrivateRegular path in
  call? key := os_ReadFile path in
  return_if negb (len key =? keyBytes) with Err ErrOther ;;
  returns (Ok key).
Definition new_store (vaultPath keyPath key : string) : Store := MkStore vaultPath keyPath (vaultPath +:+ ".lock") key.
Definition write_first (s : Store) (w : W) : (unit * result unit) * W :=
  match os_Lstat (vsVaultPath s) w with
  | (Ok _, w) => ((tt, Err ErrFileExist), w)
  | (Err e, w) =>
      if negb (errors_Is e ErrFileNotExist) then ((tt, Err e), w)
      else let '(r, w) := writeLocked s newDiskState w in ((tt, r), w)
  end.
Definition Create (vaultPath keyPath : string) : W → result Store * W :=
  return_if negb (validatePaths vaultPath keyPath) with Err ErrOther ;;
  call? _ := ensurePrivateParent vaultPath in
  call? _ := (if negb (String.eqb (Dir vaultPath) (Dir keyPath)) then ensurePrivateParent keyPath else returns (Ok tt)) in
  call? _ := writeNewKey keyPath in
  call? key := readKey keyPath in
  λ w,
  let s := new_store vaultPath keyPath key in
  match with_lock tt s (write_first s) w with
  | ((_, Err e), w) => (Err e, os_Remove keyPath w)
  | ((_, Ok _), w) => (Ok s, w)
  end.
Definition Open (vaultPath keyPath : string) : W → result Store * W :=
  return_if negb (validatePaths vaultPath keyPath) with Err ErrOther ;;
  call? _ := requirePrivateRegular vaultPath in
  call? key := readKey keyPath in
  λ w,
  let s := new_store vaultPath keyPath key in
  match with_lock tt s (λ w, let '(r, w) := readLocked s w in ((tt, let? _ := r in Ok tt), w)) w with
  | ((_, Err e), w) => (Err e, w)
  | ((_, Ok _), w) => (Ok s, w)
  end.
End store.
