(* ===== verification/Vaulted.v ===== *)
(** * What the vault promises

    A vault that is written is read back as it was; every operation is one critical section, with
    one taking and one release of the file lock around the read and the write, and does to the live records what the abstract map of
    records does. *)
From S2P Require Import Prelude Sha256 GoStd Syntax Unicode Json Base64 Time Url Mailbox Repository Decode Ipld Car SecureFile Broker Vault.

(** ** Encoded bytes *)

Lemma append_cons c s t : String c s +:+ t = String c (s +:+ t).
Proof. done. Qed.
Lemma append_nil t : "" +:+ t = t.
Proof. done. Qed.
Lemma decode_quads_padding p q r t rest : decode_quads (String p (String q (String r (String t "")))) ≠ None →
  decode_padded (String p (String q (String r (String t rest)))) =
  match decode_quads (String p (String q (String r (String t "")))), decode_padded rest with Some a, Some b => Some (a +:+ b) | _, _ => None end.
Proof.
  intros Hd. cbn [decode_padded]. destruct (Ascii.eqb_spec t "=") as [->|].
  - exfalso. apply Hd. cbn. destruct (b64_value p), (b64_value q), (b64_value r); done.
  - rewrite andb_false_r. destruct (decode_quads _); [|done]. cbn [mbind option_bind]. by destruct (decode_padded rest).
Qed.
Lemma b64_not_pad n : n < 64 → Ascii.eqb (b64_char n) "=" = false.
Proof. intros Hn. apply b64_value_char in Hn as [Hv _]. apply Ascii.eqb_neq. by intros E; rewrite E in Hv. Qed.
Lemma Std_round_trip s : StdDecode (StdEncode s) = Some s.
Proof.
  unfold StdDecode, StdEncode. assert (Hl : (String.length s < S (String.length s))%nat) by lia. revert Hl.
  generalize (S (String.length s)). intros n. revert s. induction n as [|n IH]; intros s Hl; [lia|].
  destruct s as [|a [|b [|c s]]]; [done| | |]; cbn [RawStdEncode].
  - change (len (String a "") mod 3 =? 1) with true. cbv iota. rewrite ?append_cons, ?append_nil.
    rewrite !strip_char by b64_bounds. change (strip_newlines "==") with "==". cbn -[b64_char N.div N.modulo N.mul].
    rewrite !(fun m H => proj1 (b64_value_char m H)) by b64_bounds. cbn. unfold b64_byte1. do 2 f_equal. apply byte_again. b64_bounds.
  - change (len (String a (String b "")) mod 3 =? 1) with false. change (len (String a (String b "")) mod 3 =? 2) with true. cbv iota. rewrite ?append_cons, ?append_nil.
    rewrite !strip_char by b64_bounds. change (strip_newlines "=") with "=". cbn -[b64_char N.div N.modulo N.mul]. rewrite b64_not_pad by b64_bounds.
    cbn -[b64_char N.div N.modulo N.mul]. rewrite !(fun m H => proj1 (b64_value_char m H)) by b64_bounds. cbn. unfold b64_byte1, b64_byte2.
    rewrite !byte_again with (c := a) by b64_bounds. rewrite !byte_again with (c := b) by b64_bounds. done.
  - assert (Hlen : len (String a (String b (String c s))) mod 3 = len s mod 3).
    { unfold len. cbn [String.length]. rewrite !Nat2N.inj_succ. pose proof (N.Div0.mod_add (N.of_nat (String.length s)) 1 3) as E. rewrite <- E. f_equal. lia. }
    rewrite Hlen. rewrite ?append_cons, ?append_nil. rewrite !strip_char by b64_bounds.
    assert (Hq : ∀ w x y z, w < 64 → x < 64 → y < 64 → z < 64 →
      decode_quads (String (b64_char w) (String (b64_char x) (String (b64_char y) (String (b64_char z) "")))) =
      Some (String (b64_byte1 w x) (String (b64_byte2 x y) (String (b64_byte3 y z) "")))).
    { intros w x y z ????. cbn -[b64_char]. by rewrite !(fun m H => proj1 (b64_value_char m H)) by done. }
    rewrite decode_quads_padding by (rewrite Hq by b64_bounds; done). rewrite Hq by b64_bounds. rewrite IH by (simpl in Hl; lia). rewrite ?append_cons, ?append_nil.
    unfold b64_byte1, b64_byte2, b64_byte3.
    rewrite !byte_again with (c := a) by b64_bounds. rewrite !byte_again with (c := b) by b64_bounds.
    rewrite !byte_again with (c := c) by b64_bounds. done.
Qed.
Lemma b64_char_ascii n : N_of_ascii (b64_char n) <? 0x80 = true.
Proof.
  unfold b64_char. destruct (String.get (N.to_nat n) b64_alphabet) as [c|] eqn:E; [|done]. cbn [default]. revert E. generalize (N.to_nat n). clear n.
  intros n. do 64 (destruct n as [|n]; [by intros [= <-]|]). by destruct n.
Qed.
Lemma StdEncode_ascii s : utf8_valid (StdEncode s) = true.
Proof.
  apply ascii_utf8. change (all_bytes ascii_char (StdEncode s) = true). unfold StdEncode. rewrite all_bytes_app.
  apply andb_true_iff. split; [|by repeat case_match]. assert (Hl : (String.length s < S (String.length s))%nat) by lia. revert Hl.
  generalize (S (String.length s)). intros n. revert s. induction n as [|n IH]; intros s Hl; [lia|].
  assert (Hc : ∀ m t, all_bytes ascii_char (String (b64_char m) t) = all_bytes ascii_char t).
  { intros m t. cbn [all_bytes]. unfold ascii_char at 1. by rewrite b64_char_ascii. }
  destruct s as [|a [|b [|c s]]]; [done| | |]; cbn [RawStdEncode]; rewrite !Hc; [done|done|]. apply IH. simpl in Hl. lia.
Qed.

(** ** Maps of members *)

Definition take_over {A} (m acc : gmap string A) (k : string) : gmap string A := match m !! k with Some x => <[k := x]> acc | None => acc end.
Lemma decode_entries_omap {A} (decode : json → A → option A) (zero : A) (f : A → json) (m : gmap string A) :
  map_Forall (λ _ x, decode (f x) zero = Some x) m → ∀ keys m0,
  decode_entries decode zero (omap (λ k, option_map (λ x, (k, f x)) (m !! k)) keys) m0 =
  Some (fold_left (take_over m) keys m0).
Proof.
  intros Hm. induction keys as [|k keys IH]; intros m0; [done|]. cbn [omap list_omap fold_left]. unfold take_over at 2.
  destruct (m !! k) as [x|] eqn:E; cbn [option_map]; [|apply IH]. cbn [decode_entries]. rewrite (Hm k x E). apply IH.
Qed.
Lemma fold_entries {A} (m : gmap string A) keys : ∀ (m0 : gmap string A) i,
  fold_left (take_over m) keys m0 !! i =
  if bool_decide (i ∈ keys) then match m !! i with Some x => Some x | None => m0 !! i end else m0 !! i.
Proof.
  induction keys as [|k keys IH]; intros m0 i; [done|]. cbn [fold_left]. rewrite IH. unfold take_over. destruct (decide (i = k)) as [->|Hne].
  - rewrite (bool_decide_eq_true_2 (k ∈ k :: keys)) by (by left). destruct (m !! k) as [x|] eqn:E; [rewrite lookup_insert_eq|]; by case_bool_decide.
  - rewrite (bool_decide_ext (i ∈ k :: keys) (i ∈ keys)) by set_solver.
    destruct (m !! k) as [x|] eqn:E; [|done]. by rewrite lookup_insert_ne by congruence.
Qed.
Lemma map_round_trip {A} (decode : json → A → option A) (zero : A) (f : A → json) (m : gmap string A) :
  map_Forall (λ _ x, decode (f x) zero = Some x) m → decode_map decode zero (json_map f (Some m)) None = Some (Some m).
Proof.
  intros Hm. unfold decode_map, json_map. rewrite decode_entries_omap by done. cbn [option_map]. do 2 f_equal. apply map_eq. intros i.
  rewrite fold_entries. change (entries None) with (∅ : gmap string A). rewrite lookup_empty. case_bool_decide as Hi; [by destruct (m !! i)|].
  destruct (m !! i) as [x|] eqn:E; [|done]. exfalso. apply Hi. apply elem_of_sort_strings, list_elem_of_fmap. exists (i, x). split; [done|].
  by apply elem_of_map_to_list.
Qed.
Lemma json_map_Forall {A} (f : A → json) (P : string * json → Prop) m : map_Forall (λ k x, P (k, f x)) m →
  match json_map f (Some m) with JObj l => Forall P l | _ => False end.
Proof.
  intros Hm. cbn [json_map]. apply Forall_forall. intros [k j] (k' & _ & E)%list_elem_of_omap. destruct (m !! k') as [x|] eqn:Ek; [|done].
  injection E as <- <-. by apply Hm.
Qed.

(** ** What the vault relies on *)

(** Documented behaviour of GCM: only what was sealed under the same key, nonce and data is opened. *)
Class AEADLaws `{AEAD} : Prop := {
  aead_open_only key nonce ciphertext ad plaintext : aead_Open key nonce ciphertext ad = Some plaintext → ciphertext = aead_Seal key nonce plaintext ad;
  aead_open_seal key nonce plaintext ad : aead_Open key nonce (aead_Seal key nonce plaintext ad) ad = Some plaintext;
  aead_seal_length key nonce plaintext ad : len (aead_Seal key nonce plaintext ad) = len plaintext + overhead
}.
(** The data of the login library is text and numbers: what is decoded is such data, and such data
    survives its JSON. *)
Class OAuthDataLaws `{OAuthData} : Type := {
  session_text : ClientSessionData → Prop;
  request_text : AuthRequestData → Prop;
  session_survives x : session_text x → printable (session_json x) ∧ utf8_json (session_json x) = true ∧ decode_session (session_json x) no_session = Some x;
  request_survives x : request_text x → printable (request_json x) ∧ utf8_json (request_json x) = true ∧ decode_request (request_json x) no_request = Some x;
  no_data_text : session_text no_session ∧ request_text no_request;
  session_decoded j x x' : utf8_json j = true → decode_session j x = Some x' → session_text x → session_text x';
  request_decoded j x x' : utf8_json j = true → decode_request j x = Some x' → request_text x → request_text x'
}.

Section text.
Context `{OAuthDataLaws} `{CaseOrbits}.

Definition record_text (r : storedRecord) : Prop := valid_text (srExpiresAt r).
Definition stored_request_text (r : storedAuthRequest) : Prop := request_text (saData r) ∧ valid_text (saSavedAt r).
Definition keyed_text {A} (P : A → Prop) (m : option (gmap string A)) : Prop := map_Forall (λ k x, valid_text k ∧ P x) (entries m).
Record state_text (s : diskState) : Prop := {
  sx_version : (- 2 ^ 63 <= dsVersion s < 2 ^ 63)%Z;
  sx_sessions : keyed_text session_text (dsSessions s);
  sx_requests : keyed_text stored_request_text (dsRequests s);
  sx_records : keyed_text record_text (dsRecords s)
}.
(** A state that the vault keeps. *)
Definition state_ok (s : diskState) : Prop :=
  state_text s ∧ dsVersion s = formatVersion ∧ is_some (dsSessions s) = true ∧ is_some (dsRequests s) = true ∧ is_some (dsRecords s) = true.

(** *** What is decoded is such a state *)
Lemma decode_entries_text {A} (P : A → Prop) decode zero l : (∀ j x, utf8_json j = true → decode j zero = Some x → P x) →
  forallb (λ kv, utf8_valid kv.1 && utf8_json kv.2) l = true → ∀ m m', decode_entries decode zero l m = Some m' →
  map_Forall (λ k x, valid_text k ∧ P x) m → map_Forall (λ k x, valid_text k ∧ P x) m'.
Proof.
  intros Hd. induction l as [|[k j] l IH]; intros Hl m m'; cbn [decode_entries]; [by intros [= <-]|].
  cbn [forallb fst snd] in Hl. rewrite !andb_true_iff in Hl. destruct Hl as [[Hk Hj] Hl].
  destruct (decode j zero) as [x|] eqn:E; [|done]. intros Hm Hm0. apply (IH Hl _ _ Hm). apply map_Forall_insert_2; [|done]. split; [done|by eapply Hd].
Qed.
Lemma decode_map_text {A} (P : A → Prop) decode zero j m m' : (∀ j x, utf8_json j = true → decode j zero = Some x → P x) →
  utf8_json j = true → decode_map decode zero j m = Some m' → keyed_text P m → keyed_text P m'.
Proof.
  intros Hd Hj. destruct j as [| | | | |l]; try done; cbn [decode_map]; [by intros [= <-] _|].
  destruct (decode_entries _ _ _ _) as [m1|] eqn:E; [|done]. intros [= <-]. by apply (decode_entries_text P decode zero l).
Qed.
Lemma record_fields_text : Forall (keeps record_text) record_fields.
Proof.
  repeat (apply Forall_cons_2; [|try apply Forall_nil_2]).
  - apply (keeps_mk _ (λ _, True)); [done|done|by intros s a ? _].
  - apply (keeps_mk _ valid_text); [apply decode_string_valid|by intros s|by intros s a _ ?].
Qed.
Lemma auth_request_fields_text : Forall (keeps stored_request_text) auth_request_fields.
Proof.
  repeat (apply Forall_cons_2; [|try apply Forall_nil_2]).
  - apply (keeps_mk _ request_text); [apply request_decoded|by intros s []|by intros s a [] ?; split].
  - apply (keeps_mk _ valid_text); [apply decode_string_valid|by intros s []|by intros s a [] ?; split].
Qed.
Lemma state_fields_text : Forall (keeps state_text) state_fields.
Proof.
  repeat (apply Forall_cons_2; [|try apply Forall_nil_2]).
  - apply (keeps_mk _ (λ z, - 2 ^ 63 <= z < 2 ^ 63)%Z); [|by intros s []|by intros s a [] ?; split].
    intros j a a' _ Hd Ha. destruct j; try done; cbn in Hd; [by injection Hd as <-|]. unfold parse_int64 in Hd. repeat case_match; simplify_eq; bools; lia.
  - apply (keeps_mk _ (keyed_text session_text)); [|by intros s []|by intros s a [] ?; split].
    intros j a a'. apply decode_map_text. intros j' x Hj Hd. eapply session_decoded; [done..|apply no_data_text].
  - apply (keeps_mk _ (keyed_text stored_request_text)); [|by intros s []|by intros s a [] ?; split].
    intros j a a'. apply decode_map_text. intros j' x Hj Hd. eapply (decode_struct_keeps _ _ _ _ _ auth_request_fields_text Hj Hd).
    split; [apply no_data_text|done].
  - apply (keeps_mk _ (keyed_text record_text)); [|by intros s []|by intros s a [] ?; split].
    intros j a a'. apply decode_map_text. intros j' x Hj Hd. by eapply (decode_struct_keeps _ _ _ _ _ record_fields_text Hj Hd).
Qed.
Lemma decode_state_ok plaintext s : decode_state plaintext = Ok s → state_ok s.
Proof.
  unfold decode_state. destruct (parse plaintext) as [j|] eqn:Ej; [|done]. destruct (decode_struct _ _ _) as [s1|] eqn:Ed; [|done].
  destruct (negb _ || _ || _) eqn:Ec; [done|]. rewrite !orb_false_iff, !negb_false_iff in Ec. destruct Ec as [[Hv%Z.eqb_eq Hs] Hr].
  assert (Ht : state_text s1).
  { apply (decode_struct_keeps _ _ _ _ _ state_fields_text (parse_valid _ _ Ej) Ed). split; [cbn; lia|by apply map_Forall_empty..]. }
  intros [= <-]. destruct (dsRecords s1) as [m|] eqn:Em; cbn [is_some].
  - split; [done|]. by rewrite Em.
  - split; [|done]. destruct Ht. split; [done..|]. intros k x E. cbn in E. by rewrite lookup_empty in E.
Qed.

(** *** What is written is read back *)
Lemma record_round_trip r : printable (record_json r) ∧ (record_text r → utf8_json (record_json r) = true) ∧
  decode_struct record_fields (record_json r) (MkStoredRecord None "") = Some r.
Proof.
  destruct r as [v e]. unfold record_json, record_text. cbn [srValue srExpiresAt]. split_and!.
  - constructor. apply Forall_cons_2; [destruct v; constructor|]. unfold omit_if. case_match; [constructor|]. by repeat constructor.
  - intros He. cbn [utf8_json forallb fst snd]. rewrite utf8_omit by done. destruct v as [v|]; cbn; [by rewrite StdEncode_ascii|done].
  - unfold omit_if. destruct (String.eqb_spec e "") as [->|Hne]; destruct v as [v|]; cbn -[StdEncode StdDecode]; rewrite ?Std_round_trip; done.
Qed.
Lemma auth_request_round_trip r : stored_request_text r → printable (auth_request_json r) ∧ utf8_json (auth_request_json r) = true ∧
  decode_struct auth_request_fields (auth_request_json r) (MkStoredRequest _ no_request "") = Some r.
Proof.
  destruct r as [x t]. intros [Hx Ht]. cbn [saData saSavedAt] in *. apply request_survives in Hx as (Hp & Hu & Hd). unfold auth_request_json. cbn [saData saSavedAt].
  split_and!; [by repeat constructor| |].
  - unfold valid_text in Ht. cbn [utf8_json forallb fst snd]. rewrite Hu, Ht. done.
  - cbn. by rewrite Hd.
Qed.
Lemma keyed_map_json {A} (P : A → Prop) (f : A → json) m : (∀ x, P x → printable (f x) ∧ utf8_json (f x) = true) → keyed_text P m →
  printable (json_map f m) ∧ utf8_json (json_map f m) = true.
Proof.
  intros Hf Hm. destruct m as [m|]; [|by split; [constructor|]].
  pose proof (json_map_Forall f (λ kv, printable kv.2 ∧ utf8_valid kv.1 && utf8_json kv.2 = true) m) as Hall. cbn [json_map] in *. 
  assert (Hl : Forall (λ kv, printable kv.2 ∧ utf8_valid kv.1 && utf8_json kv.2 = true)
    (omap (λ k, option_map (λ x, (k, f x)) (m !! k)) (sort_strings (map_to_list m).*1))).
  { apply Hall. intros k x E. destruct (Hm k x E) as [Hk Hx]. destruct (Hf x Hx) as [Hp Hu]. cbn [fst snd]. rewrite Hu. split; [done|].
    unfold valid_text in Hk. by rewrite Hk. }
  rewrite Forall_forall in Hl. split; [constructor; apply Forall_forall; intros kv Hkv; by apply Hl|]. cbn [utf8_json]. apply forallb_forall. intros kv Hkv%list_elem_of_In.
  by apply Hl.
Qed.
Lemma state_json_text s : state_text s → printable (state_json s) ∧ utf8_json (state_json s) = true.
Proof.
  intros [Hv Hs Hr Hc]. unfold state_json.
  destruct (keyed_map_json session_text session_json (dsSessions s)) as [Hp1 Hu1]; [intros x Hx; split; by apply session_survives|done|].
  destruct (keyed_map_json stored_request_text auth_request_json (dsRequests s)) as [Hp2 Hu2]; [intros x Hx; split; by apply auth_request_round_trip|done|].
  destruct (keyed_map_json record_text record_json (dsRecords s)) as [Hp3 Hu3]; [intros x Hx; split; by apply record_round_trip|done|].
  split.
  - constructor. apply Forall_app. split; [repeat (apply Forall_cons_2); try done; apply printable_num|]. unfold omit_if. case_match; [constructor|by constructor].
  - cbn [utf8_json]. rewrite forallb_app. cbn [forallb fst snd utf8_json]. rewrite Hu1, Hu2. rewrite utf8_omit by done. done.
Qed.
Lemma state_read_back s : state_ok s → decode_state (print (state_json s)) = Ok s.
Proof.
  intros (Ht & Hv & Hs & Hr & Hc). destruct (state_json_text s Ht) as [Hp Hu]. unfold decode_state. rewrite parse_print_utf8 by done.
  destruct Ht as [_ Hs1 Hr1 Hc1]. destruct s as [v [ms|] [mr|] [mc|]]; try done. cbn [dsVersion dsSessions dsRequests dsRecords] in *. subst v.
  assert (E1 : decode_map decode_session no_session (json_map session_json (Some ms)) None = Some (Some ms)).
  { apply map_round_trip. intros k x E. by apply session_survives, (Hs1 k). }
  assert (E2 : decode_map (decode_struct auth_request_fields) (MkStoredRequest _ no_request "") (json_map auth_request_json (Some mr)) None = Some (Some mr)).
  { apply map_round_trip. intros k x E. by apply auth_request_round_trip, (Hr1 k). }
  assert (E3 : decode_map (decode_struct record_fields) (MkStoredRecord None "") (json_map record_json (Some mc)) None = Some (Some mc)).
  { apply map_round_trip. intros k x E. apply record_round_trip. }
  unfold state_json, omit_if. cbn [dsVersion dsSessions dsRequests dsRecords]. change (entries (Some mc)) with mc.
  case_bool_decide as Hm; cbn -[json_Z decode_int64 json_map decode_map auth_request_fields record_fields]; rewrite decode_int64_json by done;
    cbn -[json_map decode_map auth_request_fields record_fields]; rewrite E1; cbn -[json_map decode_map auth_request_fields record_fields];
    rewrite E2; cbn -[json_map decode_map record_fields]; [by subst|by rewrite E3].
Qed.

Context `{AEADLaws}.
(** A vault that is not too long is opened to what was sealed. *)
Lemma open_sealed key nonce plaintext : valid_key key = true → String.length nonce = 12%nat →
  len (magic +:+ nonce +:+ aead_Seal key nonce plaintext magic) <= maxVaultBytes →
  open_vault key (magic +:+ nonce +:+ aead_Seal key nonce plaintext magic) = decode_state plaintext.
Proof.
  intros Hk Hn Hl. unfold open_vault. set (data := magic +:+ nonce +:+ _) in *.
  assert (Hlen : len data = 8 + 12 + (len plaintext + 16)).
  { unfold data. rewrite !len_app, aead_seal_length. unfold len at 2. rewrite Hn. unfold overhead. change (len magic) with 8. lia. }
  destruct (N.ltb_spec maxVaultBytes (len data)); [lia|]. destruct (N.ltb_spec (len data) (len magic + 12 + 16)) as [Hx|_].
  { rewrite Hlen in Hx. change (len magic) with 8 in Hx. lia. }
  unfold data at 1. rewrite HasPrefix_app. cbn [orb negb]. rewrite Hk. cbn [negb]. destruct (N.ltb_spec (len data) (len magic + nonceSize + overhead)) as [Hx|_].
  { rewrite Hlen in Hx. change (len magic + nonceSize + overhead) with 36 in Hx. lia. }
  unfold data. rewrite skip_app. rewrite <- Hn. by rewrite skip_app, substring_app, aead_open_seal.
Qed.
Lemma seal_round_trip key nonce s : state_ok s → valid_key key = true → String.length nonce = 12%nat →
  len (seal_vault key nonce s) <= maxVaultBytes → open_vault key (seal_vault key nonce s) = Ok s.
Proof. intros Hs Hk Hn Hl. unfold seal_vault in *. rewrite open_sealed by done. by apply state_read_back. Qed.
Lemma open_ok key data s : open_vault key data = Ok s → state_ok s.
Proof.
  unfold open_vault. do 3 (destruct (_ : bool); [done|]). cbv zeta. destruct (aead_Open _ _ _ _) as [plaintext|]; [|done]. apply decode_state_ok.
Qed.
End text.

(** ** The map of live records *)

(** The operations on records, what they report beside an error, and what they do to the map of
    the live records. *)
Inductive record_op : Type :=
  | OpCreate (name value : string) (expiresAt : time)
  | OpSet (name value : string) (expiresAt : time)
  | OpSwap (name : string) (expected : option string) (replacement : string) (expiresAt : time)
  | OpCompareDelete (name expected : string)
  | OpGet (name : string)
  | OpConsume (name : string)
  | OpDelete (name : string).
Inductive outcome : Type := Done | Flag (set : bool) | Value (value : string).
Definition op_name (op : record_op) : string :=
  match op with
  | OpCreate n _ _ | OpSet n _ _ | OpSwap n _ _ _ | OpCompareDelete n _ | OpGet n | OpConsume n | OpDelete n => n
  end.
Notation live_map := (gmap string storedRecord) (only parsing).
(** A record is there until its time limit. *)
Definition keep_until (now : time) (name : string) (record : storedRecord) (m : live_map) : live_map :=
  if recordExpired record now then delete name m else <[name := record]> m.
Definition full (m : live_map) : bool := maxRecords <=? N.of_nat (size m).
Definition op_spec (now : time) (op : record_op) (m : live_map) : outcome * result live_map :=
  match op with
  | OpCreate name value expiresAt =>
      (Done, match m !! name with
             | Some _ => Err ErrRecordExists
             | None => if full m then Err ErrOther else Ok (keep_until now name (newStoredRecord value expiresAt) m)
             end)
  | OpSet name value expiresAt =>
      (Done, if negb (is_some (m !! name)) && full m then Err ErrOther else Ok (keep_until now name (newStoredRecord value expiresAt) m))
  | OpSwap name expected replacement expiresAt =>
      if negb (matches expected (m !! name)) then (Flag false, Ok m)
      else if negb (is_some (m !! name)) && full m then (Flag false, Err ErrOther)
      else (Flag true, Ok (keep_until now name (newStoredRecord replacement expiresAt) m))
  | OpCompareDelete name expected =>
      if matches (Some expected) (m !! name) then (Flag true, Ok (delete name m)) else (Flag false, Ok m)
  | OpGet name => match m !! name with Some r => (Value (value_of r), Ok m) | None => (Value "", Err ErrRecordNotFound) end
  | OpConsume name => match m !! name with Some r => (Value (value_of r), Ok (delete name m)) | None => (Value "", Err ErrRecordNotFound) end
  | OpDelete name => (Done, Ok (delete name m))
  end.

Section changes.
Context `{OAuthData}.

Definition live (now : time) (state : diskState) : live_map := filter (λ kv, recordExpired kv.2 now = false) (entries (dsRecords state)).
Definition op_change (now : time) (op : record_op) (state : diskState) : outcome * result diskState :=
  match op with
  | OpCreate name value expiresAt => (Done, create_change name value expiresAt now state)
  | OpSet name value expiresAt => (Done, set_change name value expiresAt now state)
  | OpSwap name expected replacement expiresAt => let '(b, r) := swap_change name expected replacement expiresAt now state in (Flag b, r)
  | OpCompareDelete name expected => let '(b, r) := compare_delete_change name expected now state in (Flag b, r)
  | OpGet name => match live_record name now state with Some value => (Value value, Ok state) | None => (Value "", Err ErrRecordNotFound) end
  | OpConsume name => let '(v, r) := consume_change name now state in (Value v, r)
  | OpDelete name => (Done, Ok (drop_entry state name))
  end.

Lemma pruned_records now state : entries (dsRecords (pruneExpired now state)) = live now state.
Proof. done. Qed.
Lemma live_prune now state : live now (pruneExpired now state) = live now state.
Proof.
  unfold live at 1. rewrite pruned_records. unfold live. rewrite map_filter_filter. apply map_filter_ext. intros i x _. cbn. tauto.
Qed.
Lemma live_put now state name record : live now (put_entry state name record) = keep_until now name record (live now state).
Proof.
  unfold live, put_entry, keep_until. cbn [dsRecords set_dsRecords]. change (entries (Some ?m)) with m. destruct (recordExpired record now) eqn:E.
  - rewrite map_filter_insert_False by (cbn; congruence). by rewrite map_filter_delete.
  - by rewrite map_filter_insert_True.
Qed.
Lemma live_drop now state name : live now (drop_entry state name) = delete name (live now state).
Proof. unfold live, drop_entry. cbn [dsRecords set_dsRecords]. change (entries (Some ?m)) with m. by rewrite map_filter_delete. Qed.
Lemma live_record_lookup name now state : live_record name now state = option_map value_of (live now state !! name).
Proof.
  unfold live_record, live. rewrite map_lookup_filter. destruct (entries (dsRecords state) !! name) as [r|]; [|done]. cbn [mbind option_bind].
  destruct (recordExpired r now) eqn:E; [by rewrite option_guard_False by (cbn; congruence)|by rewrite option_guard_True by done].
Qed.

(** The change of an operation is that of the map of live records. *)
Lemma op_change_refines now op state :
  op_spec now op (live now state) =
  match op_change now op state with (out, r) => (out, match r with Ok state' => Ok (live now state') | Err e => Err e end) end.
Proof.
  destruct op as [name value e|name value e|name expected value e|name expected|name|name|name]; cbn [op_spec op_change].
  - unfold create_change, record_count. rewrite pruned_records. fold (full (live now state)).
    destruct (live now state !! name); [done|]. cbn [is_some]. destruct (full _); [done|]. by rewrite live_put, live_prune.
  - unfold set_change, record_count. rewrite pruned_records. fold (full (live now state)). destruct (_ && _); [done|]. by rewrite live_put, live_prune.
  - unfold swap_change, record_count. rewrite pruned_records. fold (full (live now state)). destruct (negb (matches _ _)); [by rewrite live_prune|].
    destruct (_ && _); [done|]. by rewrite live_put, live_prune.
  - unfold compare_delete_change. rewrite pruned_records. destruct (matches _ _); cbn [negb]; [by rewrite live_drop, live_prune|by rewrite live_prune].
  - rewrite live_record_lookup. by destruct (live now state !! name).
  - unfold consume_change. rewrite live_record_lookup. destruct (live now state !! name); [|done]. cbn. by rewrite live_drop.
  - by rewrite live_drop.
Qed.
End changes.

(** ** Transactions *)

Section transactions.
Context `{OAuthData} `{CaseOrbits} `{AEAD} {W : Type} `{FileSystem W} `{VaultFiles W} `{Ambient W}.

(** While the lock is held, nobody else touches the vault or a temporary file that was made
    meanwhile; [temps] are those files by their handles. Without the lock nothing is known. *)
Record still (path : string) (temps : W → gmap N string) (w w' : W) : Prop := {
  st_locked : (locked w', lockings w') = (locked w, lockings w);
  st_disk : locked w = true → temps w' = temps w ∧
    ∀ p, p = path ∨ (∃ f, temps w !! f = Some p) → on_disk w' p = on_disk w p
}.
(** A call that may change temporary files, but not the vault. *)
Definition vault_kept (path : string) (w w' : W) : Prop :=
  (locked w', lockings w') = (locked w, lockings w) ∧ (locked w = true → on_disk w' path = on_disk w path).

Class VaultLaws (path : string) (temps : W → gmap N string) : Prop := {
  vl_Lstat p w : still path temps w (os_Lstat p w).2;
  vl_Open p w : still path temps w (os_Open p w).2;
  vl_Stat f w : still path temps w (file_Stat f w).2;
  vl_Close f w : still path temps w (file_Close f w).2;
  vl_ReadFile p w : still path temps w (os_ReadFile p w).2;
  vl_OpenLock p w : still path temps w (os_OpenLock p w).2;
  vl_Chmod f n w : still path temps w (file_Chmod f n w).2;
  vl_Sync f w : still path temps w (file_Sync f w).2;
  vl_Err w : still path temps w (request_Err w).2;
  vl_now w : still path temps w (now_UTC w).2;
  vl_random n w : still path temps w (random_bytes n w).2;
  vl_random_length n w data w' : random_bytes n w = (Ok data, w') → len data = n;
  vl_reads p w data w' : os_ReadFile p w = (Ok data, w') → on_disk w p = Some data;
  vl_CreateTemp dir w r w' : os_CreateTemp dir w = (r, w') → vault_kept path w w' ∧
    (∀ f p, r = Ok (f, p) → p ≠ path ∧ (locked w = true → temps w' = <[f := p]> (temps w) ∧ on_disk w' p = Some ""));
  vl_Write f data w r w' : file_Write f data w = (r, w') → vault_kept path w w' ∧
    (r = Ok tt → locked w = true → temps w' = temps w ∧ ∀ p, temps w !! f = Some p → on_disk w' p = Some (default "" (on_disk w p) +:+ data));
  vl_Rename f p w r w' : os_Rename p path w = (r, w') → locked w = true → temps w !! f = Some p →
    (locked w', lockings w') = (locked w, lockings w) ∧ on_disk w' path = (match r with Ok _ => on_disk w p | Err _ => on_disk w path end);
  vl_Remove p w : p ≠ path → vault_kept path w (os_Remove p w);
  vl_flock f w r w' : flock f w = (r, w') →
    (locked w', lockings w') = (match r with Ok _ => (true, lockings w + 1) | Err _ => (locked w, lockings w) end);
  vl_funlock f w : locked (funlock f w) = false ∧ lockings (funlock f w) = lockings w
}.

Context (s : Store) (temps : W → gmap N string) `{!VaultLaws (vsVaultPath s) temps}.
Notation path := (vsVaultPath s).
Implicit Types w : W.

#[local] Instance still_preorder : PreOrder (still path temps).
Proof.
  split; [by split|]. intros w1 w2 w3 [Hl Hd] [Hl' Hd']. split; [congruence|]. intros Hlock. destruct (Hd Hlock) as [Ht Hp].
  destruct (Hd' ltac:(congruence)) as [Ht' Hp']. split; [congruence|]. intros p Hin. rewrite Hp' by (by rewrite Ht). by apply Hp.
Qed.
#[local] Instance vault_kept_preorder : PreOrder (vault_kept path).
Proof. split; [by split|]. intros w1 w2 w3 [Hl Hd] [Hl' Hd']. split; [congruence|]. intros Hlock. rewrite Hd' by congruence. by apply Hd. Qed.
Lemma still_kept w w' : still path temps w w' → vault_kept path w w'.
Proof. intros [Hl Hd]. split; [done|]. intros Hlock. apply Hd; [done|by left]. Qed.

Lemma private_file_still f w : still path temps w (requirePrivateFile f w).2.
Proof. unfold requirePrivateFile, call_bind. pose proof (vl_Stat f w) as Hs. destruct (file_Stat f w) as [[info|] w1]; [|done]. by destruct (_ || _). Qed.
Lemma private_regular_still p w : still path temps w (requirePrivateRegular p w).2.
Proof.
  unfold requirePrivateRegular, call_bind. pose proof (vl_Open p w) as Ho. destruct (os_Open p w) as [[f|] w1]; [|done]. cbn [snd] in Ho.
  pose proof (private_file_still f w1) as Hp. destruct (requirePrivateFile f w1) as [r w2]. cbn [snd] in *.
  do 2 (etrans; [eassumption|]). apply vl_Close.
Qed.

(** The state under the lock. *)
Definition held w : result diskState :=
  match on_disk w path with Some data => open_vault (vsKey s) data | None => Err ErrOther end.
Lemma readLocked_spec w : locked w = true → match readLocked s w with (r, w') => still path temps w w' ∧ ∀ state, r = Ok state → held w = Ok state end.
Proof.
  intros Hl. unfold readLocked, call_bind, returns. pose proof (private_regular_still path w) as Hp.
  destruct (requirePrivateRegular path w) as [[|] w1]; [|done]. cbn [snd] in Hp.
  pose proof (vl_ReadFile path w1) as Hr. destruct (os_ReadFile path w1) as [[data|e] w2] eqn:E; cbn [snd] in Hr; [|split; [by etrans|done]].
  split; [by etrans|]. intros state Ho. apply vl_reads in E. unfold held. destruct Hp as [_ Hd]. rewrite <- (proj2 (Hd Hl) path) by (by left). by rewrite E.
Qed.

Lemma fill_temp_spec f p data w : locked w = true → temps w !! f = Some p → on_disk w p = Some "" →
  match fill_temp f data w with
  | (r, w') => vault_kept path w w' ∧ (r = Ok tt → temps w' !! f = Some p ∧ on_disk w' p = Some data)
  end.
Proof.
  intros Hl Hf Hp. unfold fill_temp, call_bind. pose proof (vl_Chmod f 384 w) as Hc. destruct (file_Chmod f 384 w) as [r1 w1]. cbn [snd] in Hc.
  assert (Hclose : ∀ w0, vault_kept path w w0 → vault_kept path w (file_Close f w0).2) by (intros w0 Hk; etrans; [exact Hk|apply still_kept, vl_Close]).
  pose proof (still_kept _ _ Hc) as Hk1. destruct r1 as [[]|e]; [|split; [by apply Hclose|done]].
  assert (Hl1 : locked w1 = true) by (destruct Hk1; congruence). destruct Hc as [_ Hd1]. destruct (Hd1 Hl) as [Ht1 Hp1].
  assert (Hon : on_disk w1 p = Some "") by (rewrite Hp1 by (right; by exists f); done).
  destruct (file_Write f data w1) as [r2 w2] eqn:E2. apply vl_Write in E2 as [Hk2 Hw2]. assert (Hk12 : vault_kept path w w2) by (by etrans).
  destruct r2 as [[]|e]; [|split; [by apply Hclose|done]]. destruct (Hw2 eq_refl Hl1) as [Ht2 Hon2]. specialize (Hon2 p ltac:(congruence)). rewrite Hon in Hon2. cbn [default] in Hon2.
  pose proof (vl_Sync f w2) as Hs. destruct (file_Sync f w2) as [r3 w3]. cbn [snd] in Hs. assert (Hk13 : vault_kept path w w3) by (etrans; [done|by apply still_kept]).
  destruct r3 as [[]|e]; [|split; [by apply Hclose|done]]. pose proof (vl_Close f w3) as Hcl. specialize (Hclose w3 Hk13).
  assert (Hall : still path temps w2 (file_Close f w3).2) by (by etrans). destruct (file_Close f w3) as [r4 w4]. cbn [snd] in *.
  split; [done|]. intros _. destruct Hall as [_ Hd4]. destruct (Hd4 ltac:(destruct Hk12; congruence)) as [Ht4 Hp4].
  split; [congruence|]. rewrite Hp4; [done|]. right. exists f. congruence.
Qed.
Lemma replace_file_spec f p w : locked w = true → temps w !! f = Some p →
  match replace_file p path w with
  | (r, w') => (locked w', lockings w') = (locked w, lockings w) ∧ (on_disk w' path = on_disk w p ∨ r ≠ Ok tt ∧ on_disk w' path = on_disk w path)
  end.
Proof.
  intros Hl Hf. unfold replace_file, call_bind. destruct (os_Rename p path w) as [r w1] eqn:E. destruct (vl_Rename f p w r w1 E Hl Hf) as [Hl1 Hd1].
  destruct r as [[]|e]; [|split; [done|by right]].
  pose proof (vl_Open (Dir path) w1) as Ho. destruct (os_Open (Dir path) w1) as [[dir|e] w2]; cbn [snd] in Ho; apply still_kept in Ho as [Hlo Hdo].
  2: { split; [congruence|]. left. rewrite Hdo by congruence. done. }
  pose proof (vl_Sync dir w2) as Hs. destruct (file_Sync dir w2) as [r w3]. cbn [snd] in Hs. apply still_kept in Hs as [Hls Hds].
  pose proof (vl_Close dir w3) as Hc. apply still_kept in Hc as [Hlc Hdc]. split; [congruence|]. left.
  rewrite Hdc, Hds, Hdo by congruence. done.
Qed.
Lemma writeLocked_spec state w : locked w = true →
  match writeLocked s state w with
  | (r, w') => (locked w', lockings w') = (locked w, lockings w) ∧ (r ≠ Ok tt ∧ on_disk w' path = on_disk w path ∨
      ∃ nonce, valid_key (vsKey s) = true ∧ String.length nonce = 12%nat ∧ len (seal_vault (vsKey s) nonce state) <= maxVaultBytes ∧
        on_disk w' path = Some (seal_vault (vsKey s) nonce state))
  end.
Proof.
  intros Hl. unfold writeLocked. destruct (valid_key (vsKey s)) eqn:Hkey; cbn [negb]; [|unfold returns; split; [done|by left]]. unfold call_bind at 1.
  pose proof (vl_random nonceSize w) as Hr. destruct (random_bytes nonceSize w) as [[nonce|e] w1] eqn:E; cbn [snd] in Hr; apply still_kept in Hr as [Hl1 Hd1].
  2: { split; [congruence|]. left. split; [done|by apply Hd1]. }
  apply vl_random_length in E. cbv zeta. set (data := seal_vault (vsKey s) nonce state).
  destruct (N.ltb_spec maxVaultBytes (len data)) as [|Hlen]; [unfold returns; split; [congruence|]; left; split; [done|by apply Hd1]|]. unfold call_bind at 1.
  destruct (os_CreateTemp (Dir path) w1) as [r w2] eqn:Et. apply vl_CreateTemp in Et as [[Hl2 Hd2] Htmp].
  assert (Hdisk2 : on_disk w2 path = on_disk w path) by (rewrite Hd2 by congruence; by apply Hd1).
  destruct r as [[f p]|e]; [|split; [congruence|]; left; by split]. destruct (Htmp f p eq_refl) as [Hne Htemps]. destruct (Htemps ltac:(congruence)) as [Ht2 Hon].
  assert (Hl2' : locked w2 = true) by congruence. assert (Hf : temps w2 !! f = Some p) by (rewrite Ht2; apply lookup_insert_eq).
  cbn [fst snd]. unfold call_bind. pose proof (fill_temp_spec f p data w2 Hl2' Hf Hon) as Hfill. destruct (fill_temp f data w2) as [r3 w3].
  destruct Hfill as [[Hl3 Hd3] Hfill]. assert (Hrem : ∀ w0, vault_kept path w0 (os_Remove p w0)) by (intros w0; by apply vl_Remove).
  destruct r3 as [[]|e]; [|destruct (Hrem w3) as [Hl4 Hd4]; split; [congruence|]; left; split; [done|]; rewrite Hd4, Hd3 by congruence; done].
  destruct (Hfill eq_refl) as [Hf3 Hon3]. pose proof (replace_file_spec f p w3 ltac:(congruence) Hf3) as Hrep. destruct (replace_file p path w3) as [r4 w4].
  destruct Hrep as [Hl4 Hrep]. destruct (Hrem w4) as [Hl5 Hd5]. split; [congruence|]. rewrite Hd5 by congruence. destruct Hrep as [->|[Hne4 ->]].
  - right. exists nonce. split_and!; [done| |done|done]. unfold len, nonceSize in E. lia.
  - left. split; [done|]. rewrite Hd3 by done. done.
Qed.

(** The lock is released, and its handle closed. *)
Definition released w w' : Prop := ∃ lock, w' = (file_Close lock (funlock lock w)).2.
(** Between [w] and [w'] the lock was taken once: it was held from [w1] to [w2], never given up in
    between, and released right after. *)
Definition critical_section w w1 w2 w' : Prop :=
  locked w1 = true ∧ locked w2 = true ∧
  lockings w1 = lockings w + 1 ∧ lockings w2 = lockings w + 1 ∧ lockings w' = lockings w + 1 ∧ released w2 w'.
(** Nothing was done: the lock was not taken, or the vault was left as it was while it was held. *)
Definition idle w w' : Prop :=
  lockings w' = lockings w ∨ ∃ w1 w2, critical_section w w1 w2 w' ∧ on_disk w2 path = on_disk w1 path.
(** What ran between the taking and the release of the lock; or an error before. *)
Lemma with_lock_spec {A} (unset : A) fn w : locked w = false →
  (∀ w1, locked w1 = true → (locked (fn w1).2, lockings (fn w1).2) = (locked w1, lockings w1)) →
  match with_lock unset s fn w with
  | ((a, r), w') => locked w' = false ∧
      (a = unset ∧ r ≠ Ok tt ∧ idle w w' ∨ ∃ w1 w2, critical_section w w1 w2 w' ∧ fn w1 = ((a, r), w2))
  end.
Proof.
  intros Hl Hkeeps. unfold with_lock. pose proof (st_locked _ _ _ _ (vl_Err w)) as He. destruct (request_Err w) as [[|e] w0]; cbn [snd] in He.
  2: { split; [congruence|left; split_and!; [done..|]; left; congruence]. }
  pose proof (st_locked _ _ _ _ (vl_OpenLock (vsLockPath s) w0)) as Ho. destruct (os_OpenLock (vsLockPath s) w0) as [[lock|e] w1]; cbn [snd] in Ho.
  2: { split; [congruence|left; split_and!; [done..|]; left; congruence]. }
  pose proof (st_locked _ _ _ _ (private_file_still lock w1)) as Hp. destruct (requirePrivateFile lock w1) as [[|e] w2]; cbn [snd] in Hp.
  2: { pose proof (st_locked _ _ _ _ (vl_Close lock w2)). split; [congruence|left; split_and!; [done..|]; left; congruence]. }
  destruct (flock lock w2) as [[|e] w3] eqn:E; apply vl_flock in E.
  2: { pose proof (st_locked _ _ _ _ (vl_Close lock w3)). split; [congruence|left; split_and!; [done..|]; left; congruence]. }
  assert (Hrel : ∀ w0, locked (file_Close lock (funlock lock w0)).2 = false ∧ lockings (file_Close lock (funlock lock w0)).2 = lockings w0).
  { intros w'. pose proof (st_locked _ _ _ _ (vl_Close lock (funlock lock w'))) as Hc. destruct (vl_funlock lock w'). split; congruence. }
  assert (Hsection : ∀ w4 w5, (locked w4, lockings w4) = (locked w3, lockings w3) → (locked w5, lockings w5) = (locked w3, lockings w3) →
    critical_section w w4 w5 (file_Close lock (funlock lock w5)).2).
  { intros w4 w5 E4 E5. unfold critical_section. rewrite (proj2 (Hrel w5)). split_and!; try congruence. by exists lock. }
  pose proof (vl_Err w3) as He3. destruct (request_Err w3) as [[u|e] w4]; cbn [snd] in He3.
  2: { split; [apply Hrel|]. left. split_and!; [done..|]. right. exists w3, w4. split; [apply Hsection; [done|by apply st_locked in He3]|].
       destruct He3 as [_ Hd]. apply Hd; [congruence|by left]. }
  apply st_locked in He3. specialize (Hkeeps w4 ltac:(congruence)). destruct (fn w4) as [[x r] w5] eqn:Ef. cbn [snd] in Hkeeps.
  split; [apply Hrel|]. right. exists w4, w5. split; [apply Hsection; congruence|done].
Qed.
Definition change_outcome {A} (change : diskState → W → (A * result diskState) * W) (state : diskState) (a : A) (r : result unit) w1 w2 w3 : Prop :=
  match change state w2 with
  | ((a', Err e), _) => a' = a ∧ r = Err e ∧ on_disk w3 path = on_disk w1 path
  | ((a', Ok state'), _) => a' = a ∧ (r ≠ Ok tt ∧ on_disk w3 path = on_disk w1 path ∨
      ∃ nonce, valid_key (vsKey s) = true ∧ String.length nonce = 12%nat ∧ len (seal_vault (vsKey s) nonce state') <= maxVaultBytes ∧
        on_disk w3 path = Some (seal_vault (vsKey s) nonce state'))
  end.
(** What runs under the lock, on the state that is there when it starts. *)
Lemma change_spec {A} (unset : A) (change : diskState → W → (A * result diskState) * W) w1 :
  locked w1 = true → (∀ state w, still path temps w (change state w).2) →
  match match readLocked s w1 with
    | (Err e, w) => ((unset, Err e), w)
    | (Ok state, w) =>
        match change state w with
        | ((a, Err e), w) => ((a, Err e), w)
        | ((a, Ok state), w) => let '(r, w) := writeLocked s state w in ((a, r), w)
        end
    end with
  | ((a, r), w3) => (locked w3, lockings w3) = (locked w1, lockings w1) ∧
      (a = unset ∧ r ≠ Ok tt ∧ on_disk w3 path = on_disk w1 path ∨
       ∃ w2 state, held w1 = Ok state ∧ still path temps w1 w2 ∧ change_outcome change state a r w1 w2 w3)
  end.
Proof.
  intros Hl1 Hchange. pose proof (readLocked_spec w1 Hl1) as Hread. destruct (readLocked s w1) as [[state|e] w2]; destruct Hread as [Hs2 Hheld].
  2: { apply still_kept in Hs2 as [Hk Hd]. split; [done|]. left. split_and!; [done..|by apply Hd]. }
  pose proof (Hchange state w2) as Hc. pose proof Hs2 as Hstill. destruct (change state w2) as [[a' [state'|e]] w4] eqn:Ec; cbn [snd] in Hc;
    apply still_kept in Hs2 as [Hl2 Hd2]; apply still_kept in Hc as [Hl4 Hd4].
  - pose proof (writeLocked_spec state' w4 ltac:(congruence)) as Hwrite. destruct (writeLocked s state' w4) as [r' w5].
    destruct Hwrite as [Hl5 Hwrite]. split; [congruence|]. right. exists w2, state. split_and!; [by apply Hheld|done|]. unfold change_outcome. rewrite Ec.
    split; [done|]. destruct Hwrite as [[Hne Hd]|Hnew]; [left|by right]. split; [done|]. rewrite Hd, Hd4, Hd2 by congruence. done.
  - split; [congruence|]. right. exists w2, state. split_and!; [by apply Hheld|done|]. unfold change_outcome. rewrite Ec.
    split_and!; [done..|]. rewrite Hd4, Hd2 by congruence. done.
Qed.
Lemma mutate_spec {A} (unset : A) change w : locked w = false → (∀ state w, still path temps w (change state w).2) →
  match mutate unset s change w with
  | ((a, r), w') => locked w' = false ∧
      (a = unset ∧ r ≠ Ok tt ∧ idle w w' ∨
       ∃ w1 w2 w3 state, critical_section w w1 w3 w' ∧ held w1 = Ok state ∧ still path temps w1 w2 ∧ change_outcome change state a r w1 w2 w3)
  end.
Proof.
  intros Hl Hchange.
  set (fn := λ w,
    match readLocked s w with
    | (Err e, w) => ((unset, Err e), w)
    | (Ok state, w) =>
        match change state w with
        | ((a, Err e), w) => ((a, Err e), w)
        | ((a, Ok state), w) => let '(r, w) := writeLocked s state w in ((a, r), w)
        end
    end).
  assert (Hspec : ∀ w1, locked w1 = true → match fn w1 with ((a, r), w3) => (locked w3, lockings w3) = (locked w1, lockings w1) ∧
      (a = unset ∧ r ≠ Ok tt ∧ on_disk w3 path = on_disk w1 path ∨
       ∃ w2 state, held w1 = Ok state ∧ still path temps w1 w2 ∧ change_outcome change state a r w1 w2 w3) end)
    by (intros w1 Hl1; by apply change_spec).
  pose proof (with_lock_spec unset fn w Hl) as Hw. replace (mutate unset s change w) with (with_lock unset s fn w) by reflexivity.
  destruct (with_lock unset s fn w) as [[a r] w']. destruct Hw as [Hl' Hw].
  { intros w1 Hl1. specialize (Hspec w1 Hl1). destruct (fn w1) as [[a1 r1] w3]. apply Hspec. }
  split; [done|]. destruct Hw as [?|(w1 & w3 & Hsec & Hfn)]; [by left|]. specialize (Hspec w1 (proj1 Hsec)). rewrite Hfn in Hspec.
  destruct Hspec as [_ [(Ha & Hr & Hd)|(w2 & state & Hheld & Hs2 & Hout)]].
  - left. split_and!; [done..|]. right. by exists w1, w3.
  - right. by exists w1, w2, w3, state.
Qed.
Lemma read_spec {A} (unset : A) (use : diskState → W → (A * result unit) * W) w : locked w = false → (∀ state w, still path temps w (use state w).2) →
  match vault_read unset s use w with
  | ((a, r), w') => locked w' = false ∧
      (a = unset ∧ r ≠ Ok tt ∧ idle w w' ∨ ∃ w1 w2 w3 state, critical_section w w1 w3 w' ∧ held w1 = Ok state ∧ still path temps w1 w2 ∧
         (use state w2).1 = (a, r) ∧ on_disk w3 path = on_disk w1 path)
  end.
Proof.
  intros Hl Huse. unfold vault_read. set (fn := λ w, match readLocked s w with (Err e, w) => ((unset, Err e), w) | (Ok state, w) => use state w end).
  assert (Hspec : ∀ w1, locked w1 = true → still path temps w1 (fn w1).2 ∧
    (fn w1).1.1 = unset ∧ (fn w1).1.2 ≠ Ok tt ∨ still path temps w1 (fn w1).2 ∧ ∃ w2 state, held w1 = Ok state ∧ still path temps w1 w2 ∧ (use state w2).1 = (fn w1).1).
  { intros w1 Hl1. unfold fn. pose proof (readLocked_spec w1 Hl1) as Hread. destruct (readLocked s w1) as [[state|e] w2]; destruct Hread as [Hs2 Hheld].
    - right. split; [etrans; [exact Hs2|apply Huse]|]. exists w2, state. by split_and!; [apply Hheld|..].
    - by left. }
  assert (Hs : ∀ w1, locked w1 = true → still path temps w1 (fn w1).2) by (intros w1 Hl1; destruct (Hspec w1 Hl1) as [[? _]|[? _]]; done).
  pose proof (with_lock_spec unset fn w Hl (λ w1 Hl1, st_locked _ _ _ _ (Hs w1 Hl1))) as Hw.
  destruct (with_lock unset s fn w) as [[a r] w']. destruct Hw as [Hl' Hw]. split; [done|]. destruct Hw as [?|(w1 & w3 & Hsec & Hfn)]; [by left|].
  assert (Hl1 : locked w1 = true) by apply Hsec. specialize (Hspec w1 Hl1). specialize (Hs w1 Hl1). rewrite Hfn in *. cbn [fst snd] in *.
  assert (Hd : on_disk w3 path = on_disk w1 path) by (destruct Hs as [_ Hd]; apply Hd; [done|by left]).
  destruct Hspec as [(_ & Ha & Hr)|(_ & w2 & state & Hheld & Hs2 & Hu)].
  - left. split_and!; [done..|]. right. by exists w1, w3.
  - right. by exists w1, w2, w3, state.
Qed.
End transactions.

(** ** The operations *)

Section operations.
Context `{OAuthDataLaws} `{CaseOrbits} `{AEADLaws} {W : Type} `{FileSystem W} `{VaultFiles W} `{Ambient W} (s : Store).
Implicit Types w : W.

Definition run_op (op : record_op) (w : W) : (outcome * result unit) * W :=
  match op with
  | OpCreate name value expiresAt => let '(r, w) := CreateRecord s name value expiresAt w in ((Done, r), w)
  | OpSet name value expiresAt => let '(r, w) := SetRecord s name value expiresAt w in ((Done, r), w)
  | OpSwap name expected replacement expiresAt => let '((b, r), w) := CompareAndSwapRecord s name expected replacement expiresAt w in ((Flag b, r), w)
  | OpCompareDelete name expected => let '((b, r), w) := CompareAndDeleteRecord s name expected w in ((Flag b, r), w)
  | OpGet name => let '((v, r), w) := GetRecord s name w in ((Value v, r), w)
  | OpConsume name => let '((v, r), w) := ConsumeRecord s name w in ((Value v, r), w)
  | OpDelete name => let '(r, w) := DeleteRecord s name w in ((Done, r), w)
  end.
(** What is reported when the change did not run. *)
Definition not_run (op : record_op) : outcome :=
  match op with
  | OpCreate _ _ _ | OpSet _ _ _ | OpDelete _ => Done
  | OpSwap _ _ _ _ | OpCompareDelete _ _ => Flag false
  | OpGet _ | OpConsume _ => Value ""
  end.

Lemma keyed_put {A} (P : A → Prop) name x (m : gmap string A) : valid_text name → P x → keyed_text P (Some m) → keyed_text P (Some (<[name := x]> m)).
Proof. intros Hn Hx Hm. by apply map_Forall_insert_2. Qed.
Lemma keyed_filter {A} (P : A → Prop) (Q : string * A → Prop) `{∀ x, Decision (Q x)} (m : gmap string A) :
  keyed_text P (Some m) → keyed_text P (Some (filter Q m)).
Proof. intros Hm k x [E _]%map_lookup_filter_Some. by apply Hm. Qed.
Lemma pruned_ok now state : state_ok state → state_ok (pruneExpired now state).
Proof.
  intros ([Hv Hs Hr Hc] & Hver & Hs' & _). split; [|done]. split; [done|done| |]; cbn [pruneExpired dsRequests dsRecords]; by apply keyed_filter.
Qed.
Lemma put_ok name value expiresAt state : valid_text name → state_ok state → state_ok (put_entry state name (newStoredRecord value expiresAt)).
Proof.
  intros Hn ([Hv Hs Hr Hc] & Hrest & Hs' & Hr' & _). split; [|done]. split; [done..|]. apply keyed_put; [done| |done].
  unfold record_text, newStoredRecord. cbn [srExpiresAt]. destruct (IsZero expiresAt); [done|apply format_utf8].
Qed.
Lemma drop_ok name state : state_ok state → state_ok (drop_entry state name).
Proof. intros ([Hv Hs Hr Hc] & Hrest & Hs' & Hr' & _). split; [|done]. split; [done..|]. by apply map_Forall_delete. Qed.
Lemma op_change_ok now op state out state' : valid_text (op_name op) → state_ok state → op_change now op state = (out, Ok state') →
  state_ok state' ∧ dsSessions state' = dsSessions state.
Proof.
  intros Hn Hs. pose proof (pruned_ok now state Hs) as Hp.
  destruct op as [name value e|name value e|name expected value e|name expected|name|name|name]; cbn [op_change op_name] in *.
  - unfold create_change. do 2 (destruct (_ : bool); [done|]). intros [= _ <-]. split; [by apply put_ok|done].
  - unfold set_change. destruct (_ && _); [done|]. intros [= _ <-]. split; [by apply put_ok|done].
  - unfold swap_change. destruct (negb _); [by intros [= _ <-]|]. destruct (_ && _); [done|]. intros [= _ <-]. split; [by apply put_ok|done].
  - unfold compare_delete_change. destruct (negb _); [by intros [= _ <-]|]. intros [= _ <-]. split; [by apply drop_ok|done].
  - destruct (live_record _ _ _); [by intros [= _ <-]|done].
  - unfold consume_change. destruct (live_record _ _ _); [|done]. intros [= _ <-]. split; [by apply drop_ok|done].
  - intros [= _ <-]. split; [by apply drop_ok|done].
Qed.
Lemma held_ok w state : held s w = Ok state → state_ok state.
Proof. unfold held. destruct (on_disk w (vsVaultPath s)) as [data|]; [|done]. apply open_ok. Qed.

(** The operation was one transaction on the live records, in one critical section of the call that
    began in [w]; an error leaves the state, or hides that it was written. *)
Definition transaction (op : record_op) (out : outcome) (r : result unit) w w' : Prop :=
  ∃ w1 w2 now state state', critical_section w w1 w2 w' ∧ held s w1 = Ok state ∧ held s w2 = Ok state' ∧
    dsSessions state' = dsSessions state ∧ (op_spec now op (live now state)).1 = out ∧
    match r with
    | Ok _ => (op_spec now op (live now state)).2 = Ok (live now state')
    | Err e => state' = state ∨ (op_spec now op (live now state)).2 = Ok (live now state')
    end.
Lemma transacted op out r res w w1 w2 w' now state : valid_text (op_name op) → critical_section w w1 w2 w' → held s w1 = Ok state →
  op_change now op state = (out, res) →
  match res with
  | Err e => r = Err e ∧ on_disk w2 (vsVaultPath s) = on_disk w1 (vsVaultPath s)
  | Ok state' => r ≠ Ok tt ∧ on_disk w2 (vsVaultPath s) = on_disk w1 (vsVaultPath s) ∨
      ∃ nonce, valid_key (vsKey s) = true ∧ String.length nonce = 12%nat ∧ len (seal_vault (vsKey s) nonce state') <= maxVaultBytes ∧
        on_disk w2 (vsVaultPath s) = Some (seal_vault (vsKey s) nonce state')
  end → transaction op out r w w'.
Proof.
  intros Hn Hsec Hheld Hop Hres. pose proof (held_ok _ _ Hheld) as Hok. pose proof (op_change_refines now op state) as Hspec. rewrite Hop in Hspec.
  assert (Hback : on_disk w2 (vsVaultPath s) = on_disk w1 (vsVaultPath s) → held s w2 = Ok state) by (unfold held in *; by intros ->).
  destruct res as [state'|e].
  - destruct Hres as [[Hr Hd]|(nonce & Hk & Hno & Hlen & Hd)].
    + exists w1, w2, now, state, state. rewrite Hspec. split_and!; auto. destruct r as [[]|]; [done|by left].
    + destruct (op_change_ok _ _ _ _ _ Hn Hok Hop) as [Hok' Hsess]. exists w1, w2, now, state, state'. rewrite Hspec. split_and!; auto.
      * unfold held. rewrite Hd. by apply seal_round_trip.
      * destruct r as [[]|]; [done|by right].
  - destruct Hres as [-> Hd]. exists w1, w2, now, state, state. rewrite Hspec. split_and!; auto.
Qed.

Context (temps : W → gmap N string) `{!VaultLaws (vsVaultPath s) temps}.

(** What an operation that runs a change promises, and what one promises that was rejected. *)
Definition promised (op : record_op) w (x : (outcome * result unit) * W) : Prop :=
  let '((out, r), w') := x in locked w' = false ∧ (out = not_run op ∧ r ≠ Ok tt ∧ idle s w w' ∨ transaction op out r w w').
Lemma now_still w : ∀ now w', now_UTC w = (now, w') → still (vsVaultPath s) temps w w'.
Proof. intros now w' E. pose proof (vl_now w) as Hn. by rewrite E in Hn. Qed.
Lemma rejected op w e : locked w = false → promised op w ((not_run op, Err e), w).
Proof. intros Hl. split; [done|]. left. split_and!; [done..|]. by left. Qed.
(** Looking at the clock before the call leaves the promise. *)
Lemma promised_later op w0 w x : lockings w = lockings w0 → promised op w x → promised op w0 x.
Proof.
  destruct x as [[out r] w']. unfold promised, transaction, idle, critical_section. intros ->. done.
Qed.
(** A change that looks at the clock first. *)
Lemma changed {A} (unset : A) (report : A → outcome) (f : time → diskState → A * result diskState) op w :
  locked w = false → valid_text (op_name op) → report unset = not_run op →
  (∀ now state, op_change now op state = (report (f now state).1, (f now state).2)) →
  promised op w (let '((a, r), w') := mutate unset s (at_now f) w in ((report a, r), w')).
Proof.
  intros Hl Hn Hunset Hf. pose proof (mutate_spec s temps unset (at_now f) w Hl) as Hm.
  assert (Hstill : ∀ state w, still (vsVaultPath s) temps w (at_now f state w).2).
  { intros state w1. unfold at_now. destruct (now_UTC w1) as [now w2] eqn:E. by apply (now_still w1 now). }
  specialize (Hm Hstill). destruct (mutate _ _ _ w) as [[a r] w']. destruct Hm as [Hl' Hm]. split; [done|].
  destruct Hm as [(-> & Hr & Hi)|(w1 & w2 & w3 & state & Hsec & Hheld & _ & Hres)]; [left; by split_and!|]. right.
  unfold change_outcome, at_now in Hres. destruct (now_UTC w2) as [now w2']. pose proof (Hf now state) as Hop. destruct (f now state) as [a' res]. cbn [fst snd] in Hop.
  apply (transacted op _ r res w w1 w3 w' now state Hn Hsec Hheld); [|destruct res; tauto]. rewrite Hop. destruct res; by destruct Hres as [-> _].
Qed.
Lemma mutate_ext {A} (unset : A) change change' w : (∀ state w, change state w = change' state w) → mutate unset s change w = mutate unset s change' w.
Proof.
  intros Hc. unfold mutate, with_lock. destruct (request_Err w) as [[|] w0]; [|done]. destruct (os_OpenLock _ w0) as [[lock|] w1]; [|done].
  destruct (requirePrivateFile lock w1) as [[|] w2]; [|done]. destruct (flock lock w2) as [[|] w3]; [|done]. destruct (request_Err w3) as [[|] w4]; [|done].
  destruct (readLocked s w4) as [[state|] w5]; [|done]. by rewrite Hc.
Qed.
Lemma updated (f : time → diskState → result diskState) op w :
  locked w = false → valid_text (op_name op) → not_run op = Done → (∀ now state, op_change now op state = (Done, f now state)) →
  promised op w (let '(r, w') := update s (at_now f) w in ((Done, r), w')).
Proof.
  intros Hl Hn Hunset Hf. pose proof (changed tt (λ _, Done) (λ now state, (tt, f now state)) op w Hl Hn (eq_sym Hunset) Hf) as Hc. unfold update.
  rewrite (mutate_ext _ _ (at_now (λ now state, (tt, f now state)))); [by destruct (mutate _ _ _ w) as [[[] r] w']|].
  intros state w0. unfold at_now. by destruct (now_UTC w0).
Qed.

Lemma deleted name w : locked w = false → valid_text name →
  promised (OpDelete name) w (let '(r, w') := update s (λ state, returns (Ok (drop_entry state name))) w in ((Done, r), w')).
Proof.
  intros Hl Hn. unfold update. set (change := λ (state : diskState) (w : W), let '(r, w) := returns (Ok (drop_entry state name)) w in ((tt, r), w)).
  pose proof (mutate_spec s temps tt change w Hl) as Hm. assert (Hstill : ∀ state w, still (vsVaultPath s) temps w (change state w).2) by (by split).
  specialize (Hm Hstill). destruct (mutate tt s change w) as [[[] r] w']. destruct Hm as [Hl' Hm]. split; [done|].
  destruct Hm as [(_ & Hr & Hi)|(w1 & w2 & w3 & state & Hsec & Hheld & _ & [_ Hres])]; [by left|]. right.
  by apply (transacted (OpDelete name) _ r (Ok (drop_entry state name)) w w1 w3 w' 0%Z state Hn Hsec Hheld).
Qed.
Lemma got name w : locked w = false → valid_text name →
  promised (OpGet name) w (let '((v, r), w') := vault_read "" s (at_now (λ now state,
    match live_record name now state with Some value => (value, Ok tt) | None => ("", Err ErrRecordNotFound) end)) w in ((Value v, r), w')).
Proof.
  intros Hl Hn. set (use := at_now _). pose proof (read_spec s temps "" use w Hl) as Hm.
  assert (Hstill : ∀ state w, still (vsVaultPath s) temps w (use state w).2).
  { intros state w1. unfold use, at_now. destruct (now_UTC w1) as [now w2] eqn:E. by apply (now_still w1 now). }
  specialize (Hm Hstill). destruct (vault_read "" s use w) as [[v r] w']. destruct Hm as [Hl' Hm]. split; [done|].
  destruct Hm as [(-> & Hr & Hi)|(w1 & w2 & w3 & state & Hsec & Hheld & _ & Huse & Hd)]; [by left|]. right. unfold use, at_now in Huse.
  destruct (now_UTC w2) as [now w2']. assert (Hheld3 : held s w3 = Ok state) by (unfold held in *; by rewrite Hd).
  exists w1, w3, now, state, state. do 4 (split; [done|]). cbn [op_spec]. rewrite live_record_lookup in Huse.
  destruct (live now state !! name) as [record|]; injection Huse as <- <-; [done|]. split; [done|by left].
Qed.
End operations.

(** C21. Every operation on a record of the vault is one transaction. It ends without the lock. It
    takes the lock once; the state that it reads right after taking it and the state that it leaves
    right before releasing it belong to that one critical section, and between them it reports and
    does what the operation means for the map of the records whose time has not come: an operation
    without an error has done it, one with an error has left the state as it was or has done it all
    the same, and one that did not get so far reports nothing but the error and leaves the vault. The
    sessions are never touched, and the vault that is written can be opened. *)
Theorem vault_transactional `{OAuthDataLaws} `{CaseOrbits} `{AEADLaws} {W : Type} `{FileSystem W} `{VaultFiles W} `{Ambient W} (s : Store)
    (temps : W → gmap N string) `{!VaultLaws (vsVaultPath s) temps} (op : record_op) (w : W)
    (Hfree : locked w = false) (Hname : valid_text (op_name op)) :
  let '((out, r), w') := run_op s op w in
  locked w' = false ∧ (out = not_run op ∧ r ≠ Ok tt ∧ idle s w w' ∨ transaction s op out r w w').
Proof.
  enough (Hp : promised s op w (run_op s op w)) by exact Hp. pose proof (λ op w e, rejected s op w e) as Hrej.
  destruct op as [name value e|name value e|name expected value e|name expected|name|name|name]; cbn [run_op op_name] in *.
  1-3: unfold CreateRecord, SetRecord, CompareAndSwapRecord; destruct (now_UTC w) as [now w1] eqn:En;
    pose proof (st_locked _ _ _ _ (now_still s temps w now w1 En)) as Hk; assert (Hl1 : locked w1 = false) by congruence;
    apply (promised_later s _ w w1); [congruence|];
    destruct (negb _); [by apply Hrej|].
  - by apply (updated s temps (create_change name value e) (OpCreate name value e)).
  - by apply (updated s temps (set_change name value e) (OpSet name value e)).
  - apply (changed s temps false Flag (swap_change name expected value e) (OpSwap name expected value e)); try done.
    intros now' state. cbn [op_change]. by destruct (swap_change _ _ _ _ _ _).
  - unfold CompareAndDeleteRecord. destruct (negb _); [by apply Hrej|]. destruct (_ || _); [by apply Hrej|].
    apply (changed s temps false Flag (compare_delete_change name expected) (OpCompareDelete name expected)); try done.
    intros now' state. cbn [op_change]. by destruct (compare_delete_change _ _ _ _).
  - unfold GetRecord. destruct (negb _); [by apply Hrej|]. by apply (got s temps).
  - unfold ConsumeRecord. destruct (negb _); [by apply Hrej|]. apply (changed s temps "" Value (consume_change name) (OpConsume name)); try done.
    intros now' state. cbn [op_change]. by destruct (consume_change _ _ _).
  - unfold DeleteRecord. destruct (negb _); [by apply Hrej|]. by apply (deleted s temps).
Qed.

(** C22. The vault is sealed. Bytes open as a state exactly when they are the magic, a nonce and a
    text sealed under the key and the magic that decodes to the state, within the limit; every
    state that opens is one that the vault keeps, and such a state opens again from the bytes that
    are written for it. *)
Theorem vault_sealed `{OAuthDataLaws} `{CaseOrbits} `{AEADLaws} (key : string) (Hkey : valid_key key = true) :
  (∀ data state, open_vault key data = Ok state ↔
     len data <= maxVaultBytes ∧ ∃ nonce plaintext, String.length nonce = 12%nat ∧
       data = magic +:+ nonce +:+ aead_Seal key nonce plaintext magic ∧ decode_state plaintext = Ok state) ∧
  (∀ data state, open_vault key data = Ok state → state_ok state) ∧
  (∀ nonce state, state_ok state → String.length nonce = 12%nat → len (seal_vault key nonce state) <= maxVaultBytes →
     open_vault key (seal_vault key nonce state) = Ok state).
Proof.
  split; [|split].
  - intros data state. split.
    + unfold open_vault. destruct (N.ltb_spec maxVaultBytes (len data)) as [|Hmax]; [done|]. destruct (N.ltb_spec (len data) (len magic + 12 + 16)) as [|Hmin]; [done|].
      destruct (HasPrefix data magic) eqn:Hp; [|done]. apply HasPrefix_spec in Hp as [rest ->]. rewrite Hkey. cbn [orb negb]. destruct (_ <? _); [done|].
      rewrite skip_app. destruct (aead_Open _ _ _ _) as [plaintext|] eqn:Eo; [|done]. apply aead_open_only in Eo. intros Hd. split; [done|].
      assert (Hn : 12 <= len rest) by (rewrite len_app in Hmin; change (len magic) with 8 in Hmin; lia). apply substring_skip in Hn as [E El].
      change (N.to_nat 12) with 12%nat in E, El. exists (substring 0 12 rest), plaintext. split_and!; [unfold len in El; lia| |done]. rewrite <- Eo. by rewrite <- E.
    + intros (Hmax & nonce & plaintext & Hn & -> & Hd). by rewrite open_sealed.
  - intros data state. apply open_ok.
  - intros nonce state Hs Hn Hl. by apply seal_round_trip.
Qed.

(** ** A vault without other processes *)

(** A cipher that only appends a tag; the session data of the login library as two names. *)
Definition sample_tag : string := "0123456789abcdef".
#[export] Instance tagging : AEAD := {
  aead_Seal _ _ plaintext _ := plaintext +:+ sample_tag;
  aead_Open _ _ ciphertext _ :=
    let n := (String.length ciphertext - 16)%nat in
    if String.eqb (skip n ciphertext) sample_tag then Some (substring 0 n ciphertext) else None
}.
#[export] Instance tagging_laws : AEADLaws.
Proof.
  split; cbn [aead_Open aead_Seal tagging].
  - intros _ _ c _ p. destruct (String.eqb_spec (skip (String.length c - 16) c) sample_tag) as [E|]; [|done]. intros [= <-]. rewrite <- E.
    apply substring_skip_nat. lia.
  - intros _ _ p _. rewrite length_app_s. replace (String.length p + String.length sample_tag - 16)%nat with (String.length p) by (cbn; lia).
    by rewrite skip_app, substring_app.
  - intros _ _ p _. by rewrite len_app.
Qed.
Definition names_json (x : string * string) : json := JObj [("did", JStr x.1); ("id", JStr x.2)].
Definition name_fields : list (field (string * string)) :=
  [mk_field "did" decode_string fst (λ x a, (a, x.2)); mk_field "id" decode_string snd (λ x a, (x.1, a))].
#[export] Instance named_data : OAuthData := {
  ClientSessionData := string * string;
  AuthRequestData := string * string;
  csd_AccountDID := fst;
  csd_SessionID := snd;
  ard_State := snd;
  no_session := ("", "");
  no_request := ("", "");
  session_json := names_json;
  request_json := names_json;
  decode_session := decode_struct name_fields;
  decode_request := decode_struct name_fields
}.
Definition names_text (x : string * string) : Prop := valid_text x.1 ∧ valid_text x.2.
Lemma names_survive x : names_text x → printable (names_json x) ∧ utf8_json (names_json x) = true ∧ decode_struct name_fields (names_json x) ("", "") = Some x.
Proof.
  destruct x as [a b]. intros [Ha Hb]. unfold valid_text in *. cbn [fst snd] in *. unfold names_json. cbn [fst snd]. split_and!; [by repeat constructor| |done].
  cbn [utf8_json forallb fst snd]. by rewrite Ha, Hb.
Qed.
Lemma names_decoded j x x' : utf8_json j = true → decode_struct name_fields j x = Some x' → names_text x → names_text x'.
Proof.
  intros Hj Hd. apply (decode_struct_keeps names_text name_fields j x x'); [|done..]. repeat (apply Forall_cons_2; [|try apply Forall_nil_2]).
  - apply (keeps_mk _ valid_text); [apply decode_string_valid|by intros ? []|by intros ? ? [] ?; split].
  - apply (keeps_mk _ valid_text); [apply decode_string_valid|by intros ? []|by intros ? ? [] ?; split].
Qed.
#[export] Instance named_data_laws : OAuthDataLaws := {|
  session_text := names_text;
  request_text := names_text;
  session_survives := names_survive;
  request_survives := names_survive;
  no_data_text := conj (conj eq_refl eq_refl) (conj eq_refl eq_refl);
  session_decoded := names_decoded;
  request_decoded := names_decoded
|}.

Record vault_world : Type := MkVaultWorld { vwFiles : gmap string string; vwTemps : gmap N string; vwLocked : bool; vwLockings : N; vwNow : time }.
Definition set_files (w : vault_world) (files : gmap string string) : vault_world := MkVaultWorld files (vwTemps w) (vwLocked w) (vwLockings w) (vwNow w).
Definition sample_path : string := "/v/vault".
Definition sample_temp : string := "/v/.oauth-vault-1".
Fixpoint letters (n : nat) : string := match n with O => "" | S n => String "n" (letters n) end.
Definition vault_file : FileInfo := MkFileInfo true false 384 1.
#[export] Instance vault_fs : FileSystem vault_world := {
  os_Lstat path w := (match vwFiles w !! path with Some _ => Ok vault_file | None => Err ErrFileNotExist end, w);
  os_Open path := returns (Ok 1%N);
  file_Stat _ := returns (Ok vault_file);
  file_ReadAll _ _ := returns (Err ErrOther);
  file_Close _ := returns (Ok tt);
  os_Getenv _ _ := "";
  handles _ := ∅;
  content_at _ _ := ""
}.
#[export] Instance vault_files : VaultFiles vault_world := {
  os_OpenLock _ := returns (Ok 2%N);
  os_OpenNew path w := (Ok 3%N, MkVaultWorld (<[path := ""]> (vwFiles w)) (<[3%N := path]> (vwTemps w)) (vwLocked w) (vwLockings w) (vwNow w));
  os_Stat _ := returns (Ok (MkFileInfo false true 448 2));
  os_MkdirAll _ := returns (Ok tt);
  os_ReadFile path w := (opt_result (vwFiles w !! path) ErrFileNotExist, w);
  os_CreateTemp _ w := (Ok (4%N, sample_temp), MkVaultWorld (<[sample_temp := ""]> (vwFiles w)) (<[4%N := sample_temp]> (vwTemps w)) (vwLocked w) (vwLockings w) (vwNow w));
  file_Chmod _ _ := returns (Ok tt);
  file_Write f data w := match vwTemps w !! f with
    | Some p => if String.eqb p sample_path then (Err ErrOther, w) else (Ok tt, set_files w (<[p := default "" (vwFiles w !! p) +:+ data]> (vwFiles w)))
    | None => (Err ErrOther, w)
    end;
  file_Sync _ := returns (Ok tt);
  os_Rename from to w := match vwFiles w !! from with Some data => (Ok tt, set_files w (<[to := data]> (vwFiles w))) | None => (Err ErrFileNotExist, w) end;
  os_Remove path w := set_files w (delete path (vwFiles w));
  flock _ w := (Ok tt, MkVaultWorld (vwFiles w) (vwTemps w) true (vwLockings w + 1) (vwNow w));
  funlock _ w := MkVaultWorld (vwFiles w) (vwTemps w) false (vwLockings w) (vwNow w);
  on_disk w path := vwFiles w !! path;
  locked := vwLocked;
  lockings := vwLockings
}.
#[export] Instance vault_ambient : Ambient vault_world := {
  request_Err := returns (Ok tt);
  now_UTC w := (vwNow w, w);
  random_bytes n := returns (Ok (letters (N.to_nat n)))
}.
Lemma length_letters n : String.length (letters n) = n.
Proof. induction n as [|n IH]; [done|]. cbn. by rewrite IH. Qed.
#[export] Instance vault_laws : VaultLaws (W := vault_world) sample_path vwTemps.
Proof.
  split; try (intros; by split).
  - intros n w data w' [= <- _]. unfold len. rewrite length_letters. lia.
  - intros p w data w'. cbn. destruct (vwFiles w !! p) eqn:E; [|done]. by intros [= <- _].
  - intros dir w r w' [= <- <-]. split; [split; [done|]; intros _; cbn; by rewrite lookup_insert_ne|]. intros f p [= <- <-]. split; [done|]. intros _.
    split; [done|]. apply lookup_insert_eq.
  - intros f data w r w'. cbn. destruct (vwTemps w !! f) as [p|] eqn:E; [|intros [= <- <-]; by split]. destruct (String.eqb_spec p sample_path) as [->|Hne]; intros [= <- <-]; [by split|].
    split; [split; [done|]; intros _; cbn; by rewrite lookup_insert_ne|]. intros _ _. split; [done|]. intros p' [= <-]. apply lookup_insert_eq.
  - intros f p w r w'. cbn. destruct (vwFiles w !! p) eqn:E; intros [= <- <-] Hl _; (split; [done|]); [|done]. cbn. apply lookup_insert_eq.
  - intros p w Hne. split; [done|]. intros _. cbn. by rewrite lookup_delete_ne.
  - by intros f w r w' [= <- <-].
Qed.

Definition sample_key : string := "0123456789abcdef0123456789abcdef".
Definition sample_store : Store := MkStore sample_path "/v/key" "/v/vault.lock" sample_key.
Definition sample_state : diskState := put_entry newDiskState "ready:a" (newStoredRecord "x" zero_time).
Definition sample_world : vault_world := MkVaultWorld {[sample_path := seal_vault sample_key (letters 12) sample_state]} ∅ false 0 (time_Unix 1784235600 0).
(** The world after an operation. *)
Definition after (op : record_op) (w : vault_world) : vault_world := (run_op sample_store op w).2.
Definition outcome_of (op : record_op) (w : vault_world) : outcome * result unit := (run_op sample_store op w).1.

Lemma sample_swap : outcome_of (OpSwap "ready:a" (Some "x") "y" zero_time) sample_world = (Flag true, Ok tt) ∧
  outcome_of (OpGet "ready:a") (after (OpSwap "ready:a" (Some "x") "y" zero_time) sample_world) = (Value "y", Ok tt) ∧
  outcome_of (OpSwap "ready:a" (Some "z") "y" zero_time) sample_world = (Flag false, Ok tt).
Proof. split_and!; vm_compute; reflexivity. Qed.

(** *** What the code does that its comments do not say *)

(** A comparison that fails writes the vault all the same: without the records whose time has come. *)
Definition expired_state : diskState := put_entry sample_state "entry:b" (MkStoredRecord (Some "f") "2026-07-16T20:59:59Z").
Definition expired_world : vault_world := MkVaultWorld {[sample_path := seal_vault sample_key (letters 12) expired_state]} ∅ false 0 (time_Unix 1784235600 0).
Lemma failed_swap_writes : outcome_of (OpSwap "ready:a" (Some "z") "y" zero_time) expired_world = (Flag false, Ok tt) ∧
  on_disk (after (OpSwap "ready:a" (Some "z") "y" zero_time) expired_world) sample_path = Some (seal_vault sample_key (letters 12) sample_state) ∧
  String.eqb (seal_vault sample_key (letters 12) sample_state) (seal_vault sample_key (letters 12) expired_state) = false.
Proof. split_and!; vm_compute; reflexivity. Qed.
(** A name that is no UTF-8 is accepted, and the record is then not found under it. *)
Definition broken_name : string := "ready:" +:+ byte 255.
Lemma broken_name_lost : outcome_of (OpSet broken_name "x" zero_time) sample_world = (Done, Ok tt) ∧
  outcome_of (OpGet broken_name) (after (OpSet broken_name "x" zero_time) sample_world) = (Value "", Err ErrRecordNotFound).
Proof. split; vm_compute; reflexivity. Qed.
(** A time limit after the year 9999 has come as soon as it is set. *)
Definition far_future : time := time_Unix 253402300800 0.
Lemma far_future_lost : outcome_of (OpSet "ready:b" "x" far_future) sample_world = (Done, Ok tt) ∧
  outcome_of (OpGet "ready:b") (after (OpSet "ready:b" "x" far_future) sample_world) = (Value "", Err ErrRecordNotFound).
Proof. split; vm_compute; reflexivity. Qed.

Definition sample_op : record_op := OpSwap "ready:a" (Some "x") "y" zero_time.
Lemma sample_op_run : (run_op sample_store sample_op sample_world).1 = (Flag true, Ok tt).
Proof. vm_compute. reflexivity. Qed.
Lemma vault_transactional_witness : ∃ w', transaction sample_store sample_op (Flag true) (Ok tt) sample_world w'.
Proof.
  assert (Hf : locked sample_world = false) by reflexivity. assert (Hn : valid_text (op_name sample_op)) by (vm_compute; reflexivity).
  pose proof (vault_transactional (W := vault_world) sample_store vwTemps sample_op sample_world Hf Hn) as Ht. pose proof sample_op_run as Hr.
  destruct (run_op sample_store sample_op sample_world) as [[out r] w']. cbn [fst] in Hr. injection Hr as -> ->. exists w'.
  destruct Ht as [_ [(_ & Ht & _)|Ht]]; [destruct (Ht eq_refl)|exact Ht].
Defined.
Lemma sample_state_ok : state_ok sample_state.
Proof.
  apply put_ok; [reflexivity|]. split; [|done]. split; [change (- 2 ^ 63 <= 2 < 2 ^ 63)%Z; lia| | |]; intros k x E; cbn in E; by rewrite lookup_empty in E.
Qed.
Lemma sample_key_valid : valid_key sample_key = true.
Proof. vm_compute. reflexivity. Qed.
Lemma sample_size : len (seal_vault sample_key (letters 12) sample_state) <= maxVaultBytes.
Proof. apply N.leb_le. vm_compute. reflexivity. Qed.
Lemma vault_sealed_witness : open_vault sample_key (seal_vault sample_key (letters 12) sample_state) = Ok sample_state.
Proof.
  destruct (vault_sealed sample_key sample_key_valid) as (_ & _ & Hback). exact (Hback (letters 12) sample_state sample_state_ok (length_letters 12) sample_size).
Defined.
