(* ===== verification/ShadowAgent.v ===== *)
(** * internal/shadowagent: the shadow agent

    [handler.go] serves one exact mailbox of a repository over HTTP: it mirrors and captures
    messages, reads them back before it gives a receipt, lists the mailbox in pages and changes
    the state of a message.  [multiplexer.go] routes a request to the handler of its target.
    A response is a value; the headers every response has are left out. *)
From S2P Require Import Broker Vault.
From S2P Require Import Prelude Sha256 GoStd Syntax Unicode Json Time Decode Car Client Http State Mailbox Repository.

Definition ProtocolVersion : Z := 1.
Definition AuthorityProtocolVersion : Z := 2.
Definition maxRequestBytes : N := 14 * 1024 * 1024.
Definition maxInventoryPageJSON : N := 15 * 1024 * 1024.

(** The clock that [time.Now] reads. *)
Class Clock (W : Type) : Type := { time_Now : W → time }.

(** ** The handler and its configuration *)

Record ShadowConfig (W : Type) : Type := MkShadowConfig {
  scToken : string;
  scDID : string;
  scTarget : Target;
  scRepository : option (Repository W);
  scCertificate : string;
  scSourceVersioning : bool
}.
Arguments MkShadowConfig {W}. Arguments scToken {W}. Arguments scDID {W}. Arguments scTarget {W}.
Arguments scRepository {W}. Arguments scCertificate {W}. Arguments scSourceVersioning {W}.
Record ShadowHandler (W : Type) : Type := MkShadow {
  shTokenHash : string;
  shDID : string;
  shTarget : Target;
  shRepo : Repository W;
  shCertificate : string;
  shSourceVersioning : bool
}.
Arguments MkShadow {W}. Arguments shTokenHash {W}. Arguments shDID {W}. Arguments shTarget {W}.
Arguments shRepo {W}. Arguments shCertificate {W}. Arguments shSourceVersioning {W}.

(** ** The protocol *)

Record wireTarget : Type := MkWireTarget {
  wtProviderID : string;
  wtOrigin : string;
  wtSpaceURI : string;
  wtRepoDID : string;
  wtEpoch : string;
  wtCertificate : string
}.
Definition set_wtProviderID (r : wireTarget) (x : string) : wireTarget :=
  MkWireTarget x (wtOrigin r) (wtSpaceURI r) (wtRepoDID r) (wtEpoch r) (wtCertificate r).
Definition set_wtOrigin (r : wireTarget) (x : string) : wireTarget :=
  MkWireTarget (wtProviderID r) x (wtSpaceURI r) (wtRepoDID r) (wtEpoch r) (wtCertificate r).
Definition set_wtSpaceURI (r : wireTarget) (x : string) : wireTarget :=
  MkWireTarget (wtProviderID r) (wtOrigin r) x (wtRepoDID r) (wtEpoch r) (wtCertificate r).
Definition set_wtRepoDID (r : wireTarget) (x : string) : wireTarget :=
  MkWireTarget (wtProviderID r) (wtOrigin r) (wtSpaceURI r) x (wtEpoch r) (wtCertificate r).
Definition set_wtEpoch (r : wireTarget) (x : string) : wireTarget :=
  MkWireTarget (wtProviderID r) (wtOrigin r) (wtSpaceURI r) (wtRepoDID r) x (wtCertificate r).
Definition set_wtCertificate (r : wireTarget) (x : string) : wireTarget :=
  MkWireTarget (wtProviderID r) (wtOrigin r) (wtSpaceURI r) (wtRepoDID r) (wtEpoch r) x.
#[export] Instance wireTarget_eq_dec : EqDecision wireTarget.
Proof. solve_decision. Defined.
#[export] Instance wireTarget_countable : Countable wireTarget.
Proof.
  refine (inj_countable' (λ t, (wtProviderID t, wtOrigin t, wtSpaceURI t, wtRepoDID t, wtEpoch t, wtCertificate t))
    (λ '(a, b, c, d, e, f), MkWireTarget a b c d e f) _). by intros [].
Defined.

Record mirrorRequest : Type := MkMirror {
  mqVersion : Z;
  mqTarget : wireTarget;
  mqRecipientDID : string;
  mqMailbox : string;
  mqRaw : option string
}.
Definition set_mqVersion (r : mirrorRequest) (x : Z) : mirrorRequest :=
  MkMirror x (mqTarget r) (mqRecipientDID r) (mqMailbox r) (mqRaw r).
Definition set_mqTarget (r : mirrorRequest) (x : wireTarget) : mirrorRequest :=
  MkMirror (mqVersion r) x (mqRecipientDID r) (mqMailbox r) (mqRaw r).
Definition set_mqRecipientDID (r : mirrorRequest) (x : string) : mirrorRequest :=
  MkMirror (mqVersion r) (mqTarget r) x (mqMailbox r) (mqRaw r).
Definition set_mqMailbox (r : mirrorRequest) (x : string) : mirrorRequest :=
  MkMirror (mqVersion r) (mqTarget r) (mqRecipientDID r) x (mqRaw r).
Definition set_mqRaw (r : mirrorRequest) (x : option string) : mirrorRequest :=
  MkMirror (mqVersion r) (mqTarget r) (mqRecipientDID r) (mqMailbox r) x.
Record captureRequest : Type := MkCapture {
  cqVersion : Z;
  cqTarget : wireTarget;
  cqRecipientDID : string;
  cqMailbox : string;
  cqKeywords : backed string;
  cqSourceKey : string;
  cqRaw : option string
}.
Definition set_cqVersion (r : captureRequest) (x : Z) : captureRequest :=
  MkCapture x (cqTarget r) (cqRecipientDID r) (cqMailbox r) (cqKeywords r) (cqSourceKey r)
    (cqRaw r).
Definition set_cqTarget (r : captureRequest) (x : wireTarget) : captureRequest :=
  MkCapture (cqVersion r) x (cqRecipientDID r) (cqMailbox r) (cqKeywords r) (cqSourceKey r)
    (cqRaw r).
Definition set_cqRecipientDID (r : captureRequest) (x : string) : captureRequest :=
  MkCapture (cqVersion r) (cqTarget r) x (cqMailbox r) (cqKeywords r) (cqSourceKey r) (cqRaw r).
Definition set_cqMailbox (r : captureRequest) (x : string) : captureRequest :=
  MkCapture (cqVersion r) (cqTarget r) (cqRecipientDID r) x (cqKeywords r) (cqSourceKey r)
    (cqRaw r).
Definition set_cqKeywords (r : captureRequest) (x : backed string) : captureRequest :=
  MkCapture (cqVersion r) (cqTarget r) (cqRecipientDID r) (cqMailbox r) x (cqSourceKey r)
    (cqRaw r).
Definition set_cqSourceKey (r : captureRequest) (x : string) : captureRequest :=
  MkCapture (cqVersion r) (cqTarget r) (cqRecipientDID r) (cqMailbox r) (cqKeywords r) x
    (cqRaw r).
Definition set_cqRaw (r : captureRequest) (x : option string) : captureRequest :=
  MkCapture (cqVersion r) (cqTarget r) (cqRecipientDID r) (cqMailbox r) (cqKeywords r)
    (cqSourceKey r) x.
Record inventoryRequest : Type := MkInventory {
  iqVersion : Z;
  iqTarget : wireTarget;
  iqCursor : string;
  iqLimit : Z
}.
Definition set_iqVersion (r : inventoryRequest) (x : Z) : inventoryRequest :=
  MkInventory x (iqTarget r) (iqCursor r) (iqLimit r).
Definition set_iqTarget (r : inventoryRequest) (x : wireTarget) : inventoryRequest :=
  MkInventory (iqVersion r) x (iqCursor r) (iqLimit r).
Definition set_iqCursor (r : inventoryRequest) (x : string) : inventoryRequest :=
  MkInventory (iqVersion r) (iqTarget r) x (iqLimit r).
Definition set_iqLimit (r : inventoryRequest) (x : Z) : inventoryRequest :=
  MkInventory (iqVersion r) (iqTarget r) (iqCursor r) x.
Record stateMutation : Type := MkStateMutation {
  smFingerprint : string;
  smExpectedRevision : N;
  smOperationID : string;
  smMailbox : string;
  smKeywords : backed string;
  smTombstoned : bool
}.
Definition set_smFingerprint (r : stateMutation) (x : string) : stateMutation :=
  MkStateMutation x (smExpectedRevision r) (smOperationID r) (smMailbox r) (smKeywords r)
    (smTombstoned r).
Definition set_smExpectedRevision (r : stateMutation) (x : N) : stateMutation :=
  MkStateMutation (smFingerprint r) x (smOperationID r) (smMailbox r) (smKeywords r)
    (smTombstoned r).
Definition set_smOperationID (r : stateMutation) (x : string) : stateMutation :=
  MkStateMutation (smFingerprint r) (smExpectedRevision r) x (smMailbox r) (smKeywords r)
    (smTombstoned r).
Definition set_smMailbox (r : stateMutation) (x : string) : stateMutation :=
  MkStateMutation (smFingerprint r) (smExpectedRevision r) (smOperationID r) x (smKeywords r)
    (smTombstoned r).
Definition set_smKeywords (r : stateMutation) (x : backed string) : stateMutation :=
  MkStateMutation (smFingerprint r) (smExpectedRevision r) (smOperationID r) (smMailbox r) x
    (smTombstoned r).
Definition set_smTombstoned (r : stateMutation) (x : bool) : stateMutation :=
  MkStateMutation (smFingerprint r) (smExpectedRevision r) (smOperationID r) (smMailbox r)
    (smKeywords r) x.
Record shadow_receipt : Type := MkShadowReceipt {
  reTarget : wireTarget;
  reFingerprint : string;
  reSHA256 : string;
  reSize : Z;
  reVerified : bool
}.
Record messageSnapshot : Type := MkMessageSnapshot {
  snURI : string;
  snRKey : string;
  snFingerprint : string;
  snLogicalMessageID : string;
  snSourceKey : string;
  snSHA256 : string;
  snSize : Z;
  snMailbox : string;
  snKeywords : slice string;
  snRevision : N;
  snTombstoned : bool;
  snRaw : option string
}.
Record messageState : Type := MkMessageState {
  meFingerprint : string;
  meMailbox : string;
  meKeywords : slice string;
  meRevision : N;
  meTombstoned : bool;
  meLastOperationID : string
}.

Definition target_json (t : wireTarget) : json :=
  JObj ([("providerId", JStr (wtProviderID t)); ("origin", JStr (wtOrigin t)); ("spaceUri", JStr (wtSpaceURI t));
         ("repoDid", JStr (wtRepoDID t)); ("epoch", JStr (wtEpoch t))] ++
        omit_if (String.eqb (wtCertificate t) "") "authorityCertificateSha256" (JStr (wtCertificate t))).
Definition receipt_json (r : shadow_receipt) : json :=
  JObj [("target", target_json (reTarget r)); ("fingerprint", JStr (reFingerprint r)); ("sha256", JStr (reSHA256 r));
        ("size", json_Z (reSize r)); ("verified", JBool (reVerified r))].
Definition snapshot_json (m : messageSnapshot) : json :=
  JObj ([("uri", JStr (snURI m)); ("rkey", JStr (snRKey m)); ("fingerprint", JStr (snFingerprint m));
         ("logicalMessageId", JStr (snLogicalMessageID m))] ++
        omit_if (String.eqb (snSourceKey m) "") "sourceKey" (JStr (snSourceKey m)) ++
        [("sha256", JStr (snSHA256 m)); ("size", json_Z (snSize m)); ("mailbox", JStr (snMailbox m));
         ("keywords", json_slice (snKeywords m)); ("revision", json_N (snRevision m));
         ("tombstoned", JBool (snTombstoned m)); ("raw", json_bytes (snRaw m))]).
Definition message_state_json (s : messageState) : json :=
  JObj [("fingerprint", JStr (meFingerprint s)); ("mailbox", JStr (meMailbox s)); ("keywords", json_slice (meKeywords s));
        ("revision", json_N (meRevision s)); ("tombstoned", JBool (meTombstoned s)); ("lastOperationId", JStr (meLastOperationID s))].
(** A response names the version, the provider and the target. *)
Definition response_head (version : Z) (provider : string) (t : wireTarget) : list (string * json) :=
  [("version", json_Z version); ("providerId", JStr provider); ("target", target_json t)].

Section wire.
Context `{CaseOrbits}.

Definition target_fields : list (field wireTarget) :=
  [mk_field "providerId" decode_string wtProviderID set_wtProviderID;
   mk_field "origin" decode_string wtOrigin set_wtOrigin;
   mk_field "spaceUri" decode_string wtSpaceURI set_wtSpaceURI;
   mk_field "repoDid" decode_string wtRepoDID set_wtRepoDID;
   mk_field "epoch" decode_string wtEpoch set_wtEpoch;
   mk_field "authorityCertificateSha256" decode_string wtCertificate set_wtCertificate].
Definition message_field {S} (get : S → option string) (set : S → option string → S) : field S :=
  mk_field "message" (decode_strict [sole_field "raw" decode_bytes]) get set.
Definition capability_fields : list (field (Z * wireTarget)) :=
  [mk_field "version" decode_int64 fst (λ s x, (x, s.2));
   mk_field "target" (decode_strict target_fields) snd (λ s x, (s.1, x))].
Definition mirror_fields : list (field mirrorRequest) :=
  [mk_field "version" decode_int64 mqVersion set_mqVersion;
   mk_field "target" (decode_strict target_fields) mqTarget set_mqTarget;
   mk_field "recipientDid" decode_string mqRecipientDID set_mqRecipientDID;
   mk_field "mailbox" decode_string mqMailbox set_mqMailbox;
   message_field mqRaw set_mqRaw].
Definition capture_fields : list (field captureRequest) :=
  [mk_field "version" decode_int64 cqVersion set_cqVersion;
   mk_field "target" (decode_strict target_fields) cqTarget set_cqTarget;
   mk_field "recipientDid" decode_string cqRecipientDID set_cqRecipientDID;
   mk_field "mailbox" decode_string cqMailbox set_cqMailbox;
   mk_field "keywords" (decode_array decode_string "") cqKeywords set_cqKeywords;
   mk_field "sourceKey" decode_string cqSourceKey set_cqSourceKey;
   message_field cqRaw set_cqRaw].
Definition inventory_fields : list (field inventoryRequest) :=
  [mk_field "version" decode_int64 iqVersion set_iqVersion;
   mk_field "target" (decode_strict target_fields) iqTarget set_iqTarget;
   mk_field "cursor" decode_string iqCursor set_iqCursor;
   mk_field "limit" decode_int64 iqLimit set_iqLimit].
Definition mutation_fields : list (field stateMutation) :=
  [mk_field "fingerprint" decode_string smFingerprint set_smFingerprint;
   mk_field "expectedRevision" (decode_uint 64) smExpectedRevision set_smExpectedRevision;
   mk_field "operationId" decode_string smOperationID set_smOperationID;
   mk_field "mailbox" decode_string smMailbox set_smMailbox;
   mk_field "keywords" (decode_array decode_string "") smKeywords set_smKeywords;
   mk_field "tombstoned" decode_bool smTombstoned set_smTombstoned].
Definition state_fields : list (field (Z * wireTarget * stateMutation)) :=
  [mk_field "version" decode_int64 (λ s, s.1.1) (λ s x, (x, s.1.2, s.2));
   mk_field "target" (decode_strict target_fields) (λ s, s.1.2) (λ s x, (s.1.1, x, s.2));
   mk_field "mutation" (decode_strict mutation_fields) snd (λ s x, (s.1, x))].

Definition zero_target : wireTarget := MkWireTarget "" "" "" "" "" "".
Definition no_strings : backed string := Backed None [].
Definition strings_of (b : backed string) : list string := elems (bkVisible b).
Definition raw_of (raw : option string) : string := default "" raw.

(** [decodeStrict] of a body whose reader fails after [maxRequestBytes]. *)
Definition decodeStrict {S} (fields : list (field S)) (body : reader) (zero : S) : option S :=
  decode_body fields maxRequestBytes body zero.

(** ** Checks *)

Definition canonicalMailbox (value : string) : string :=
  if String.eqb value "" || String.eqb (fold_name value) (fold_name "inbox") then "INBOX"
  else if String.eqb (fold_name value) (fold_name "junk") then "Junk"
  else "".
End wire.

Definition validPortableMailbox (value : string) : bool :=
  negb (String.eqb (TrimSpace value) "") && (len value <=? 255) && negb (ContainsAny value line_breaks).
Fixpoint valid_keywords_after (seen : gset string) (keywords : list string) : bool :=
  match keywords with
  | [] => true
  | keyword :: rest =>
      if String.eqb keyword "" || (255 <? len keyword) || ContainsAny keyword line_breaks then false
      else if bool_decide (keyword ∈ seen) then false
      else valid_keywords_after ({[keyword]} ∪ seen) rest
  end.
Definition validKeywords (keywords : list string) : bool := valid_keywords_after ∅ keywords.
Definition rawSHA256 (raw : string) : string := hex_encode (sha256 raw).
Definition validSHA256 (value : string) : bool := hex_decodable value && (len value =? 64) && String.eqb value (ToLower value).
Fixpoint sameStrings (l1 l2 : list string) : bool :=
  match l1, l2 with
  | [], [] => true
  | x :: l1, y :: l2 => String.eqb x y && sameStrings l1 l2
  | _, _ => false
  end.
(** The [switch] on [strings.ToLower] of the name, whose words are ASCII. *)
Definition standard_role (name : string) : string :=
  let lower := media_lower name in
  if existsb (String.eqb lower) ["inbox"; "junk"; "sent"; "drafts"; "trash"; "archive"; "important"] then lower else "".
Definition portableFolderName (folder : FolderRecord) : option string :=
  if existsb (String.eqb (fdRole folder)) ["inbox"; "junk"; "sent"; "drafts"; "trash"; "archive"; "important"]
  then Some (fdRole folder)
  else if String.eqb (fdRole folder) "" then
    if validPortableMailbox (fdName folder) then Some (fdName folder) else None
  else None.
Definition targetView (providerID : string) (configured : Target) (digest : string) : wireTarget :=
  MkWireTarget providerID (tgProviderOrigin configured) (tgSpaceURI configured) (tgRepoDID configured) (tgEpoch configured) digest.
(** The token of a bearer header, against the hash of the configured one. *)
Definition authorized_by (tokenHash header : string) : bool :=
  let token := TrimPrefix header "Bearer " in
  if String.eqb token header || String.eqb token "" then false else String.eqb tokenHash (sha256 token).
Definition valid_relay_token (token : string) : bool :=
  negb (String.eqb token "" || (16 * 1024 <? len token) || ContainsAny token line_breaks).

Section new_handler.
Context `{Syntax} {W : Type}.
Definition NewHandler (config : ShadowConfig W) : result (ShadowHandler W) :=
  fail_if negb (valid_relay_token (scToken config)) with ErrOther ;;
  let? repo := opt_result (scRepository config) ErrOther in
  fail_if String.eqb (scDID config) "" || String.eqb (tgSpaceURI (scTarget config)) "" ||
    negb (String.eqb (tgRepoDID (scTarget config)) (scDID config)) || String.eqb (tgEpoch (scTarget config)) "" with ErrOther ;;
  fail_if negb (is_ok (Target_ValidateFor (scTarget config) (scDID config))) with ErrOther ;;
  fail_if negb (String.eqb (scCertificate config) "") && negb (validSHA256 (scCertificate config)) with ErrOther ;;
  fail_if scSourceVersioning config && String.eqb (scCertificate config) "" with ErrOther ;;
  Ok (MkShadow (sha256 (scToken config)) (scDID config) (scTarget config) repo (scCertificate config) (scSourceVersioning config)).
End new_handler.

(** ** Responses *)

Record agent_request : Type := MkAgentRequest {
  agMethod : string;
  agPath : string;
  agAuthorization : string;
  agBody : reader
}.
(** [http.Error] with a JSON text, [http.NotFound], and an encoded value. *)
Inductive agent_reply : Type :=
  | AgentError (status : N) (name : string)
  | AgentNotFound
  | AgentJSON (value : json).

(** ** Pages *)

(** [strconv.Atoi] *)
Definition Atoi (s : string) : option Z :=
  match s with
  | String "+" s' =>
      match parse_uint 64 s' with Some n => if n <? 2 ^ 63 then Some (Z.of_N n) else None | None => None end
  | _ => parse_int64 s
  end.
Definition Itoa (n : nat) : string := print_N (N.of_nat n).
Definition cursor_offset (cursor : string) : option N :=
  if String.eqb cursor "" then Some 0
  else match Atoi cursor with
  | Some parsed => if (parsed <? 0)%Z then None else Some (Z.to_N parsed)
  | None => None
  end.

Definition item_bytes (m : messageSnapshot) : N := (len (default "" (snRaw m)) + 2) / 3 * 4 + 2048.
(** How many of the messages fit on a page: the first always does. *)
Fixpoint page_length (started : bool) (estimated : N) (messages : list messageSnapshot) : nat :=
  match messages with
  | [] => 0
  | m :: rest =>
      let itemBytes := item_bytes m in
      if started && (maxInventoryPageJSON <? estimated + itemBytes) then 0
      else S (page_length true (estimated + itemBytes) rest)
  end.
(** The page at an offset, and the cursor of the next one; [None] for an offset beyond the end. *)
Definition inventory_page (messages : list messageSnapshot) (offset : N) (limit : nat) : option (list messageSnapshot * string) :=
  if llen messages <? offset then None
  else
    let offset := N.to_nat offset in
    let page := take limit (drop offset messages) in
    let end_ := (offset + page_length false 0 page)%nat in
    let next := if (end_ <? List.length messages)%nat then Itoa end_ else "" in
    Some (take (end_ - offset) (drop offset messages), next).

Definition snapshot_le (x y : messageSnapshot) : Prop := str_le (snRKey x) (snRKey y).
#[export] Instance snapshot_le_dec : RelDecision snapshot_le.
Proof. intros x y. unfold snapshot_le. apply _. Defined.
(** [sort.Slice] by key; the keys of a collection are distinct. *)
Definition sort_snapshots (l : list messageSnapshot) : list messageSnapshot := merge_sort snapshot_le l.

(** ** Serving one mailbox *)

Section serving.
Context `{Syntax} `{CaseOrbits} {W : Type} `{Clock W} (h : ShadowHandler W).
#[local] Instance handler_repository : Repository W := shRepo h.
Let did := shDID h.
Let target := shTarget h.

Definition handler_targetView : wireTarget := targetView ProviderID target (shCertificate h).

(** A write of what may be there already. *)
Definition unless_exists {A} (m : W → result A * W) : W → result unit * W :=
  call? applied := attempt m in
  match applied with
  | Ok _ => returns (Ok tt)
  | Err e => returns (if errors_Is e ErrExists then Ok tt else Err e)
  end.
Definition ensureFolder (name : string) : W → result unit * W :=
  return_if negb (validPortableMailbox name) with Err ErrInvalidRecord ;;
  let rkey := FolderRKey name in
  call? stored := attempt (GetRecord target FolderCollection rkey) in
  match stored with
  | Ok stored =>
      match unmarshal_folder (rcValue stored) with
      | Some folder =>
          return_if negb (String.eqb (fdName folder) name) || negb (String.eqb (fdType folder) FolderCollection)
            with Err ErrIntegrity ;;
          returns (Ok tt)
      | None => returns (Err ErrIntegrity)
      end
  | Err e =>
      return_if negb (errors_Is e ErrNotFound) with Err e ;;
      let folder := NewFolder name (standard_role name) (StableUIDValidity did name) in
      unless_exists (ApplyWrites target
        [MkWrite Create FolderCollection (fdRKey folder) (Some (folder_json (fdRecord folder))) ""])
  end.

(** *** Reading back *)

Definition verifyExisting (fingerprint : string) (imported : ImportedMessage) (stored : Record_) : W → result shadow_receipt * W :=
  match unmarshal_message (rcValue stored) with
  | None => returns (Err ErrIntegrity)
  | Some record =>
      call? raw := on_error (λ _, ErrIntegrity) (GetBlob target (brLink (mrRaw record))) in
      return_if negb (String.eqb raw (imRaw imported)) with Err ErrIntegrity ;;
      call? _ := returns (ValidateStoredMessage did fingerprint record raw) in
      call? state := on_error (λ _, ErrIntegrity) (GetRecord target MessageStateCollection fingerprint) in
      match unmarshal_state (rcValue state) with
      | Some decodedState =>
          return_if negb (String.eqb (msType decodedState) MessageStateCollection) ||
            negb (String.eqb (msMessage decodedState) fingerprint) with Err ErrIntegrity ;;
          returns (Ok (MkShadowReceipt handler_targetView fingerprint (rawSHA256 raw) (raw_size raw) true))
      | None => returns (Err ErrIntegrity)
      end
  end.

(** The live versions of a source; each must be the wanted one. *)
Fixpoint live_versions (sourceKey want : string) (messages : list Record_) (live : N) : W → result N * W :=
  match messages with
  | [] => returns (Ok live)
  | stored :: rest =>
      match unmarshal_message (rcValue stored) with
      | None => returns (Err ErrIntegrity)
      | Some message =>
          if negb (String.eqb (mrSourceKey message) sourceKey) then live_versions sourceKey want rest live
          else
            call? stateRecord := GetRecord target MessageStateCollection (rcRKey stored) in
            match unmarshal_state (rcValue stateRecord) with
            | None => returns (Err ErrIntegrity)
            | Some state =>
                return_if negb (String.eqb (msMessage state) (rcRKey stored)) with Err ErrIntegrity ;;
                if msTombstone state then live_versions sourceKey want rest live
                else
                  return_if negb (String.eqb (rcRKey stored) want) with Err ErrIntegrity ;;
                  live_versions sourceKey want rest (live + 1)
            end
      end
  end.
Definition requireSingleLiveSource (sourceKey wantFingerprint : string) : W → result unit * W :=
  call? messages := ListRecords target MessageCollection in
  call? live := live_versions sourceKey wantFingerprint messages 0 in
  return_if negb (live =? 1) with Err ErrIntegrity ;;
  returns (Ok tt).

Definition capture_operation (mailboxName : string) (keywords : list string) : string :=
  "comail-jmap-capture-" +:+ rawSHA256 (mailboxName +:+ NUL +:+ join_with NUL keywords).
(** The stored state is given the folder and keywords of the request, unless it has them. *)
Definition reconcileCapturedState (fingerprint mailboxName : string) (keywords : list string) : W → result unit * W :=
  call? stored := GetRecord target MessageStateCollection fingerprint in
  match unmarshal_state (rcValue stored) with
  | None => returns (Err ErrIntegrity)
  | Some state =>
      return_if negb (String.eqb (msType state) MessageStateCollection) || negb (String.eqb (msMessage state) fingerprint) ||
        (msRevision state =? 0) || msTombstone state with Err ErrIntegrity ;;
      let desiredKeywords := sort_strings keywords in
      let desiredMailboxID := FolderRKey mailboxName in
      return_if sameStrings (elems (msMailboxIDs state)) [desiredMailboxID] && sameStrings (elems (msKeywords state)) desiredKeywords
        with Ok tt ;;
      λ w,
      (call? _ := Replace target (MkReplacement fingerprint (msRevision state)
         (capture_operation mailboxName desiredKeywords) mailboxName desiredKeywords false (time_Now w)) in
       returns (Ok tt)) w
  end.

(** *** Capturing *)

(** The live version of the source under another key: its state record and state. *)
Fixpoint prior_version (sourceKey fingerprint : string) (messages : list Record_) (prior : option (Record_ * MessageStateRecord)) :
    W → result (option (Record_ * MessageStateRecord)) * W :=
  match messages with
  | [] => returns (Ok prior)
  | stored :: rest =>
      match unmarshal_message (rcValue stored) with
      | None => returns (Err ErrIntegrity)
      | Some message =>
          return_if negb (String.eqb (mrType message) MessageCollection) with Err ErrIntegrity ;;
          if negb (String.eqb (mrSourceKey message) sourceKey) || String.eqb (rcRKey stored) fingerprint
          then prior_version sourceKey fingerprint rest prior
          else
            call? storedState := GetRecord target MessageStateCollection (rcRKey stored) in
            match unmarshal_state (rcValue storedState) with
            | None => returns (Err ErrIntegrity)
            | Some state =>
                return_if negb (String.eqb (msType state) MessageStateCollection) ||
                  negb (String.eqb (msMessage state) (rcRKey stored)) || (msRevision state =? 0) with Err ErrIntegrity ;;
                if msTombstone state then prior_version sourceKey fingerprint rest prior
                else
                  return_if is_some prior with Err ErrIntegrity ;;
                  prior_version sourceKey fingerprint rest (Some (storedState, state))
            end
      end
  end.
(** The state of the version that is replaced. *)
Definition superseded (fingerprint : string) (now : time) (state : MessageStateRecord) : MessageStateRecord :=
  set_msUpdatedAt (set_msLastOperation (set_msRevision (set_msDeletePending (set_msTombstone state true) false)
    (u64 (msRevision state + 1))) ("comail-jmap-version-" +:+ fingerprint)) (format_RFC3339Nano now).
Definition pair_writes (pair : MessagePair) : list Write :=
  [MkWrite Create MessageCollection (mpRKey pair) (Some (message_json (mpMessage pair))) "";
   MkWrite Create MessageStateCollection (mpRKey pair) (Some (state_json (mpState pair))) ""].
Definition capture_writes (fingerprint : string) (pair : MessagePair) (prior : option (Record_ * MessageStateRecord)) (now : time) :
    list Write :=
  pair_writes pair ++
  match prior with
  | Some (stateRecord, state) =>
      [MkWrite Update MessageStateCollection (rcRKey stateRecord) (Some (state_json (superseded fingerprint now state))) (rcCID stateRecord)]
  | None => []
  end.
Definition capture_import (sourceKey raw mailboxName : string) (keywords : list string) : ImportedMessage :=
  MkImportedMessage did sourceKey raw mailboxName [] "" zero_time "" [] keywords false 0 0 0 zero_time.

(** A message that was there before is made live and current. *)
Definition capture_existing (fingerprint : string) (imported : ImportedMessage) (existing : Record_) : W → result shadow_receipt * W :=
  call? _ := requireSingleLiveSource (imSourceKey imported) fingerprint in
  call? _ := reconcileCapturedState fingerprint (imMailbox imported) (imKeywords imported) in
  verifyExisting fingerprint imported existing.
(** The message is not there, so its state must not be either. *)
Definition require_stateless (fingerprint : string) : W → result unit * W :=
  call? state := attempt (GetRecord target MessageStateCollection fingerprint) in
  match state with
  | Ok _ => returns (Err ErrIntegrity)
  | Err e => returns (if errors_Is e ErrNotFound then Ok tt else Err e)
  end.
Definition capture_new (fingerprint : string) (imported : ImportedMessage) : W → result shadow_receipt * W :=
  call? _ := require_stateless fingerprint in
  call? messages := ListRecords target MessageCollection in
  call? prior := prior_version (imSourceKey imported) fingerprint messages None in
  call? blob := UploadBlob target (imRaw imported) MessageMIMEType in
  call? built := returns (NewMessagePair imported blob) in
  call? applied := attempt (λ w, ApplyWrites target (capture_writes fingerprint built prior (time_Now w)) w) in
  match applied with
  | Err e =>
      return_if negb (errors_Is e ErrExists) with Err e ;;
      call? existing := attempt (GetRecord target MessageCollection fingerprint) in
      match existing with
      | Ok existing => capture_existing fingerprint imported existing
      | Err _ => returns (Err e)
      end
  | Ok _ =>
      call? _ := requireSingleLiveSource (imSourceKey imported) fingerprint in
      call? existing := GetRecord target MessageCollection fingerprint in
      verifyExisting fingerprint imported existing
  end.
Definition captureAndVerify (input : captureRequest) : W → result shadow_receipt * W :=
  let imported := capture_import (cqSourceKey input) (raw_of (cqRaw input)) (cqMailbox input) (strings_of (cqKeywords input)) in
  let fingerprint := ImportedFingerprint imported in
  call? _ := ensureFolder (cqMailbox input) in
  call? existing := attempt (GetRecord target MessageCollection fingerprint) in
  match existing with
  | Ok existing => capture_existing fingerprint imported existing
  | Err e =>
      return_if negb (errors_Is e ErrNotFound) with Err e ;;
      capture_new fingerprint imported
  end.

(** *** Mirroring *)

Definition storeAndVerify (input : mirrorRequest) : W → result shadow_receipt * W :=
  let imported := capture_import "" (raw_of (mqRaw input)) (mqMailbox input) [] in
  let fingerprint := ImportedFingerprint imported in
  call? _ := ensureFolder (mqMailbox input) in
  call? existing := attempt (GetRecord target MessageCollection fingerprint) in
  match existing with
  | Ok existing => verifyExisting fingerprint imported existing
  | Err e =>
      return_if negb (errors_Is e ErrNotFound) with Err e ;;
      call? _ := require_stateless fingerprint in
      call? blob := UploadBlob target (imRaw imported) MessageMIMEType in
      call? built := returns (NewMessagePair imported blob) in
      call? _ := unless_exists (ApplyWrites target (pair_writes built)) in
      call? existing := GetRecord target MessageCollection fingerprint in
      verifyExisting fingerprint imported existing
  end.

(** *** Listing *)

Definition inventory_folder (folders : gmap string string) (stored : Record_) : result (gmap string string) :=
  let? folder := opt_result (unmarshal_folder (rcValue stored)) ErrIntegrity in
  fail_if negb (String.eqb (fdType folder) FolderCollection) || String.eqb (fdName folder) "" ||
    negb (String.eqb (rcRKey stored) (FolderRKey (fdName folder))) with ErrIntegrity ;;
  let? portableName := opt_result (portableFolderName folder) ErrIntegrity in
  Ok (<[rcRKey stored := portableName]> folders).
(** The folder of a state that names exactly one. *)
Definition state_folder (folders : gmap string string) (stored : Record_) (state : MessageStateRecord) : result string :=
  fail_if negb (String.eqb (msType state) MessageStateCollection) || negb (String.eqb (msMessage state) (rcRKey stored)) ||
    (msRevision state =? 0) with ErrIntegrity ;;
  match elems (msMailboxIDs state) with
  | [id] => opt_result (folders !! id) ErrIntegrity
  | _ => Err ErrIntegrity
  end.
Definition inventory_item (folders : gmap string string) (storedState : Record_) : W → result messageSnapshot * W :=
  call? state := returns (opt_result (unmarshal_state (rcValue storedState)) ErrIntegrity) in
  call? folder := returns (state_folder folders storedState state) in
  let rkey := rcRKey storedState in
  call? storedMessage := GetRecord target MessageCollection rkey in
  call? message := returns (opt_result (unmarshal_message (rcValue storedMessage)) ErrIntegrity) in
  return_if negb (is_ok (ValidateRecordURI target (rcURI storedMessage) MessageCollection rkey)) ||
    negb (String.eqb (mrDeliveryFingerprint message) rkey) with Err ErrIntegrity ;;
  let want := LogicalMessageID did (mrSourceKey message) rkey in
  let logicalMessageID := if String.eqb (mrLogicalMessageID message) "" then want else mrLogicalMessageID message in
  return_if negb (String.eqb logicalMessageID want) with Err ErrIntegrity ;;
  let item := MkMessageSnapshot (rcURI storedMessage) rkey rkey logicalMessageID (mrSourceKey message) (mrSHA256 message)
    (mrSize message) folder (copy_slice (elems (msKeywords state))) (msRevision state) (msTombstone state) in
  if msTombstone state then returns (Ok (item None))
  else
    call? raw := on_error (λ _, ErrIntegrity) (GetBlob target (brLink (mrRaw message))) in
    return_if negb (is_ok (ValidateStoredMessage did rkey message raw)) with Err ErrIntegrity ;;
    returns (Ok (item (Some raw))).
Fixpoint inventory_items (folders : gmap string string) (states : list Record_) : W → result (list messageSnapshot) * W :=
  match states with
  | [] => returns (Ok [])
  | storedState :: rest =>
      call? item := inventory_item folders storedState in
      call? items := inventory_items folders rest in
      returns (Ok (item :: items))
  end.
Definition inventoryMessages : W → result (list messageSnapshot) * W :=
  call? folderRecords := ListRecords target FolderCollection in
  call? folders := returns (range inventory_folder folderRecords ∅) in
  call? states := ListRecords target MessageStateCollection in
  call? out := inventory_items folders states in
  returns (Ok (sort_snapshots out)).

Definition inventory (body : reader) (w : W) : agent_reply * W :=
  if String.eqb (shCertificate h) "" then (AgentNotFound, w)
  else match decodeStrict inventory_fields body (MkInventory 0 zero_target "" 0) with
  | None => (AgentError 400 "InvalidRequest", w)
  | Some input =>
      if negb (iqVersion input =? AuthorityProtocolVersion)%Z || negb (bool_decide (iqTarget input = handler_targetView)) ||
         (iqLimit input <? 1)%Z || (100 <? iqLimit input)%Z
      then (AgentError 400 "InvalidRequest", w)
      else match cursor_offset (iqCursor input) with
      | None => (AgentError 400 "InvalidCursor", w)
      | Some offset =>
          match inventoryMessages w with
          | (Err _, w) => (AgentError 502 "InventoryFailed", w)
          | (Ok messages, w) =>
              match inventory_page messages offset (Z.to_nat (iqLimit input)) with
              | None => (AgentError 400 "InvalidCursor", w)
              | Some (page, next) =>
                  (AgentJSON (JObj (response_head AuthorityProtocolVersion ProviderID handler_targetView ++
                    ("messages", JArr (List.map snapshot_json page)) :: omit_if (String.eqb next "") "nextCursor" (JStr next))), w)
              end
          end
      end
  end.

(** *** The other endpoints *)

Definition capabilities_json (available : Capabilities) : json :=
  let certified := negb (String.eqb (shCertificate h) "") in
  JObj ([("privateRecords", JBool true); ("referencedBlobs", JBool (cpReferencedBlobs available));
         ("idempotentWrite", JBool true); ("readAfterWrite", JBool true);
         ("atomicStateWrite", JBool (cpAtomicApplyWrites available));
         ("conflictSafeState", JBool (cpCompareAndSwap available && certified));
         ("inventoryRebuild", JBool certified); ("tombstones", JBool certified);
         ("sourceVersioning", JBool (shSourceVersioning h && cpAtomicApplyWrites available && cpCompareAndSwap available))] ++
        omit_if (String.eqb (shCertificate h) "") "authorityCertificateSha256" (JStr (shCertificate h))).
Definition capability (body : reader) (w : W) : agent_reply * W :=
  match decodeStrict capability_fields body (0%Z, zero_target) with
  | None => (AgentError 400 "InvalidTarget", w)
  | Some (version, t) =>
      if negb (version =? ProtocolVersion)%Z || negb (bool_decide (t = handler_targetView)) then (AgentError 400 "InvalidTarget", w)
      else match Capabilities_ w with
      | (Err _, w) => (AgentError 502 "ProviderUnavailable", w)
      | (Ok available, w) =>
          (AgentJSON (JObj (response_head ProtocolVersion ProviderID handler_targetView ++
            [("capabilities", capabilities_json available)])), w)
      end
  end.

Definition receipt_response (version : Z) (r : shadow_receipt) : json := JObj [("version", json_Z version); ("receipt", receipt_json r)].
Definition valid_raw (raw : option string) : bool := negb ((len (raw_of raw) =? 0) || (MaxRawMessageBytes <? len (raw_of raw))).
Definition valid_capture (input : captureRequest) : bool :=
  (cqVersion input =? AuthorityProtocolVersion)%Z && bool_decide (cqTarget input = handler_targetView) &&
  String.eqb (cqRecipientDID input) did && valid_raw (cqRaw input) &&
  negb (String.eqb (cqSourceKey input) "" || (512 <? len (cqSourceKey input)) || ContainsAny (cqSourceKey input) line_breaks ||
    (128 <? llen (strings_of (cqKeywords input)))) &&
  validPortableMailbox (cqMailbox input) && validKeywords (strings_of (cqKeywords input)).
Definition zero_capture : captureRequest := MkCapture 0 zero_target "" "" no_strings "" None.
Definition capture (body : reader) (w : W) : agent_reply * W :=
  if String.eqb (shCertificate h) "" || negb (shSourceVersioning h) then (AgentNotFound, w)
  else match decodeStrict capture_fields body zero_capture with
  | None => (AgentError 400 "InvalidRequest", w)
  | Some input =>
      if negb (valid_capture input) then (AgentError 400 "InvalidRequest", w)
      else match captureAndVerify input w with
      | (Ok r, w) => (AgentJSON (receipt_response AuthorityProtocolVersion r), w)
      | (Err e, w) => (AgentError (if errors_Is e ErrConflict then 409 else 502) "CaptureFailed", w)
      end
  end.

Definition zero_mirror : mirrorRequest := MkMirror 0 zero_target "" "" None.
Definition mirror (body : reader) (w : W) : agent_reply * W :=
  match decodeStrict mirror_fields body zero_mirror with
  | None => (AgentError 400 "InvalidRequest", w)
  | Some input =>
      if negb ((mqVersion input =? ProtocolVersion)%Z && bool_decide (mqTarget input = handler_targetView) &&
               String.eqb (mqRecipientDID input) did && valid_raw (mqRaw input))
      then (AgentError 400 "InvalidRequest", w)
      else
        let input := set_mqMailbox input (canonicalMailbox (mqMailbox input)) in
        if String.eqb (mqMailbox input) "" then (AgentError 400 "InvalidRequest", w)
        else match storeAndVerify input w with
        | (Ok r, w) => (AgentJSON (receipt_response ProtocolVersion r), w)
        | (Err _, w) => (AgentError 502 "MirrorFailed", w)
        end
  end.

Definition zero_mutation : stateMutation := MkStateMutation "" 0 "" "" no_strings false.
Definition replacement_of (m : stateMutation) (now : time) : Replacement :=
  MkReplacement (smFingerprint m) (smExpectedRevision m) (smOperationID m) (smMailbox m) (strings_of (smKeywords m)) (smTombstoned m) now.
Definition state (body : reader) (w : W) : agent_reply * W :=
  if String.eqb (shCertificate h) "" then (AgentNotFound, w)
  else match decodeStrict state_fields body (0%Z, zero_target, zero_mutation) with
  | None => (AgentError 400 "InvalidRequest", w)
  | Some (version, t, mutation) =>
      if negb (version =? AuthorityProtocolVersion)%Z || negb (bool_decide (t = handler_targetView)) ||
         String.eqb (smFingerprint mutation) "" || (smExpectedRevision mutation =? 0) || String.eqb (smOperationID mutation) ""
      then (AgentError 400 "InvalidRequest", w)
      else match ensureFolder (smMailbox mutation) w with
      | (Err _, w) => (AgentError 400 "InvalidMailbox", w)
      | (Ok _, w) =>
          match Replace target (replacement_of mutation (time_Now w)) w with
          | (Err e, w) =>
              (if errors_Is e ErrStateConflict || errors_Is e ErrStaleRevision then AgentError 409 "Conflict"
               else AgentError 502 "StateFailed", w)
          | (Ok updated, w) =>
              (AgentJSON (JObj (response_head AuthorityProtocolVersion ProviderID handler_targetView ++
                [("state", message_state_json (MkMessageState (smFingerprint mutation) (smMailbox mutation)
                  (copy_slice (elems (msKeywords updated))) (msRevision updated) (msTombstone updated) (msLastOperation updated)))])), w)
          end
      end
  end.

Definition ServeHTTP (request : agent_request) (w : W) : agent_reply * W :=
  if negb (String.eqb (agMethod request) "POST") then (AgentError 405 "MethodNotAllowed", w)
  else if negb (authorized_by (shTokenHash h) (agAuthorization request)) then (AgentError 401 "Unauthorized", w)
  else if String.eqb (agPath request) "/v1/capabilities" then capability (agBody request) w
  else if String.eqb (agPath request) "/v1/mirror" then mirror (agBody request) w
  else if String.eqb (agPath request) "/v2/inventory" then inventory (agBody request) w
  else if String.eqb (agPath request) "/v2/state" then state (agBody request) w
  else if String.eqb (agPath request) "/v2/capture" then capture (agBody request) w
  else (AgentNotFound, w).
End serving.

(** ** Routing by target *)

Section routing.
Context `{Syntax} `{CaseOrbits} {W : Type} `{Clock W}.

Definition Resolver : Type := wireTarget → W → result (option (ShadowHandler W)) * W.
Record Multiplexer : Type := MkMultiplexer {
  mxTokenHash : string;
  mxTargets : gmap wireTarget (ShadowHandler W);
  mxResolver : option Resolver
}.

Definition add_handler (tokenHash : string) (targets : gmap wireTarget (ShadowHandler W)) (handler : option (ShadowHandler W)) :
    result (gmap wireTarget (ShadowHandler W)) :=
  let? handler := opt_result handler ErrOther in
  fail_if negb (String.eqb (shTokenHash handler) tokenHash) with ErrOther ;;
  let configured := handler_targetView handler in
  fail_if is_some (targets !! configured) with ErrOther ;;
  Ok (<[configured := handler]> targets).
(** A handler may be nil.  The token is taken from the first one before it is looked at: [None] is
    the panic of a nil pointer. *)
Definition NewMultiplexer (handlers : list (option (ShadowHandler W))) : option (result Multiplexer) :=
  match handlers with
  | [] => Some (Err ErrOther)
  | None :: _ => None
  | Some first :: _ =>
      Some (let? targets := range (add_handler (shTokenHash first)) handlers ∅ in
            Ok (MkMultiplexer (shTokenHash first) targets None))
  end.
Definition NewResolvingMultiplexer (token : string) (resolver : option Resolver) : result Multiplexer :=
  fail_if negb (valid_relay_token token) || negb (is_some resolver) with ErrOther ;;
  Ok (MkMultiplexer (sha256 token) ∅ resolver).

Definition find_handler (m : Multiplexer) (t : wireTarget) : W → result (option (ShadowHandler W)) * W :=
  match mxResolver m with Some resolver => resolver t | None => returns (Ok (mxTargets m !! t)) end.
Definition mux_ServeHTTP (m : Multiplexer) (request : agent_request) (w : W) : agent_reply * W :=
  if negb (String.eqb (agMethod request) "POST") then (AgentError 405 "MethodNotAllowed", w)
  else if negb (authorized_by (mxTokenHash m) (agAuthorization request)) then (AgentError 401 "Unauthorized", w)
  else
    let '(body, failed) := read_limited (maxRequestBytes + 1) (agBody request) in
    if failed || (maxRequestBytes <? len body) then (AgentError 400 "InvalidTarget", w)
    else match unmarshal [sole_field "target" (decode_struct target_fields)] zero_target body with
    | None => (AgentError 400 "InvalidTarget", w)
    | Some t =>
        match find_handler m t w with
        | (Ok (Some handler), w) =>
            if negb (String.eqb (shTokenHash handler) (mxTokenHash m)) || negb (bool_decide (handler_targetView handler = t))
            then (AgentError 400 "InvalidTarget", w)
            else ServeHTTP handler (MkAgentRequest (agMethod request) (agPath request) (agAuthorization request) (MkReader body false)) w
        | (_, w) => (AgentError 400 "InvalidTarget", w)
        end
    end.
End routing.
