(* ===== verification/Captured.v ===== *)
(** * What the shadow agent promises

    A receipt of the shadow agent says that the message is held with exactly the bytes of the
    request, and, for a capture, that it is the one live version of its source.  The pages of an
    inventory make up the whole mailbox.  Proved from the laws of the repository interface. *)
From S2P Require Import ShadowAgent.
From S2P Require Import Prelude Sha256 GoStd Syntax Unicode Json Time Decode Car Client Http Mailbox Repository Memory State.

(** ** Strings of a request are valid UTF-8 *)

Section decoded.
Context `{CaseOrbits}.

Definition capture_texts (input : captureRequest) : Prop :=
  Forall valid_text (elems (bkVisible (cqKeywords input)) ++ bkHidden (cqKeywords input)).

Lemma capture_fields_keep : Forall (keeps capture_texts) capture_fields.
Proof.
  repeat apply Forall_cons_2; [..|apply Forall_nil_2].
  5: { eapply keeps_mk; [intros j a a'; by apply decode_array_keeps, decode_string_valid|by intros s|by intros s a _]. }
  all: apply (keeps_mk _ (λ _, True)); done.
Qed.

Lemma decoded_texts body input : decodeStrict capture_fields body zero_capture = Some input → Forall valid_text (strings_of (cqKeywords input)).
Proof.
  unfold decodeStrict, Broker.decode_body, Broker.decodeRecord, decode_strict. destruct (read_limited _ _) as [data failed].
  destruct (failed || _); [done|]. destruct (parse data) as [j|] eqn:Ej; [|done]. destruct (known _ _); [|done]. intros Hd.
  assert (Hk : capture_texts input).
  { apply (decode_struct_keeps _ _ _ _ _ capture_fields_keep (parse_valid _ _ Ej) Hd). constructor. }
  by apply Forall_app in Hk as [? _].
Qed.
End decoded.

Lemma capture_operation_text name keywords : valid_text (capture_operation name keywords).
Proof.
  apply ascii_utf8. unfold capture_operation, rawSHA256. rewrite all_bytes_app. apply andb_true_iff. split; [done|].
  eapply all_bytes_impl; [|apply hex_encode_bytes]. intros c. unfold is_lower_hex.
  rewrite orb_true_iff, !andb_true_iff, !N.leb_le, N.ltb_lt. lia.
Qed.

Lemma sameStrings_eq l1 l2 : sameStrings l1 l2 = true ↔ l1 = l2.
Proof.
  revert l2. induction l1 as [|x l1 IH]; intros [|y l2]; cbn [sameStrings]; try done.
  rewrite andb_true_iff, String.eqb_eq, IH. split; [by intros [-> ->]|by intros [= -> ->]].
Qed.

(** ** Receipts *)

Section receipts.
Context `{Syntax} `{CaseOrbits} {W : Type} `{Clock W} (h : ShadowHandler W).
#[local] Hint Extern 0 (Repository W) => exact (handler_repository h) : typeclass_instances.
Context {Hlaws : RepositoryLaws W}.
#[local] Notation did := (shDID h).
#[local] Notation target := (shTarget h).

(** The message and state records the provider holds under a key. *)
Definition message_held (w : W) (rkey : string) (rec : Record_) (m : MessageRecord) : Prop :=
  held w target MessageCollection rkey = Some rec ∧ unmarshal_message (rcValue rec) = Some m.
Definition state_held (w : W) (rkey : string) (st : MessageStateRecord) : Prop :=
  ∃ rec, held w target MessageStateCollection rkey = Some rec ∧ unmarshal_state (rcValue rec) = Some st ∧ msMessage st = rkey.
(** Among the messages of a source exactly that one is live. *)
Definition single_live (w : W) (sourceKey fingerprint : string) : Prop :=
  (∃ rec m, message_held w fingerprint rec m ∧ mrSourceKey m = sourceKey) ∧
  ∀ rkey rec m, message_held w rkey rec m → mrSourceKey m = sourceKey →
    ∃ st, state_held w rkey st ∧ msTombstone st = negb (bool_decide (rkey = fingerprint)).
(** The bytes are stored, the record describes them, and the message has a state. *)
Definition stored_exactly (w : W) (fingerprint raw : string) : Prop :=
  (∃ rec m, message_held w fingerprint rec m ∧ ValidateStoredMessage did fingerprint m raw = Ok tt ∧
     (GetBlob target (brLink (mrRaw m)) w).1 = Ok raw) ∧
  ∃ st, state_held w fingerprint st ∧ msType st = MessageStateCollection.

Lemma GetRecord_ok c k (w : W) rec w' : GetRecord target c k w = (Ok rec, w') → w' = w ∧ held w target c k = Some rec.
Proof. intros E. pose proof (GetRecord_keeps _ _ _ _ _ _ E). pose proof (GetRecord_held _ _ _ _ _ _ E). done. Qed.

Lemma live_versions_ok sk want msgs : ∀ n w m w', live_versions h sk want msgs n w = (Ok m, w') →
  w' = w ∧ n ≤ m ∧ (n < m → ∃ rec msg st, rec ∈ msgs ∧ rcRKey rec = want ∧ unmarshal_message (rcValue rec) = Some msg ∧
    mrSourceKey msg = sk ∧ state_held w want st ∧ msTombstone st = false) ∧
  ∀ rec msg, rec ∈ msgs → unmarshal_message (rcValue rec) = Some msg → mrSourceKey msg = sk →
    ∃ st, state_held w (rcRKey rec) st ∧ (msTombstone st = false → rcRKey rec = want).
Proof.
  induction msgs as [|stored msgs IH]; intros n w m w'; cbn [live_versions].
  { intros [= -> <-]. split_and!; [done|lia|lia|]. intros rec msg Hr. set_solver. }
  destruct (unmarshal_message (rcValue stored)) as [msg|] eqn:Em; [|done].
  destruct (String.eqb_spec (mrSourceKey msg) sk) as [Esk|Esk]; cbn [negb].
  2: { intros Hl. apply IH in Hl as (-> & Hn & Hex & Hall). split_and!; [done|done| |].
       - intros Hlt. destruct (Hex Hlt) as (rec & msg' & st & Hin & Hrest). exists rec, msg', st. split; [set_solver|done].
       - intros rec msg' [->|Hin]%elem_of_cons Eu Es; [congruence|]. by eapply Hall. }
  intros (srec & w1 & Eg & Hl)%call_ok. apply GetRecord_ok in Eg as [-> Hh].
  destruct (unmarshal_state (rcValue srec)) as [st|] eqn:Es; [|done].
  destruct (String.eqb_spec (msMessage st) (rcRKey stored)) as [Ek|]; [|done]. cbn [negb] in Hl.
  assert (Hst : state_held w (rcRKey stored) st) by (by exists srec).
  destruct (msTombstone st) eqn:Et.
  - apply IH in Hl as (-> & Hn & Hex & Hall). split_and!; [done|done| |].
    + intros Hlt. destruct (Hex Hlt) as (rec & msg' & st' & Hin & Hrest). exists rec, msg', st'. split; [set_solver|done].
    + intros rec msg' [->|Hin]%elem_of_cons Eu Esk'; [|by eapply Hall]. exists st. split; [done|by rewrite Et].
  - destruct (String.eqb_spec (rcRKey stored) want) as [Ew|]; [|done]. cbn [negb] in Hl.
    apply IH in Hl as (-> & Hn & Hex & Hall). split_and!; [done|lia| |].
    + intros _. exists stored, msg, st. rewrite Ew in Hst. split_and!; try done. set_solver.
    + intros rec msg' [->|Hin]%elem_of_cons Eu Esk'; [|by eapply Hall]. by exists st.
Qed.

Lemma requireSingle_ok sk fp w w' : requireSingleLiveSource h sk fp w = (Ok tt, w') → w' = w ∧ single_live w sk fp.
Proof.
  unfold requireSingleLiveSource. intros (msgs & w1 & El & Hl)%call_ok.
  pose proof (ListRecords_keeps _ _ _ _ _ El) as ->. apply ListRecords_held in El as [_ Hin].
  apply call_ok in Hl as (live & w2 & Hl & Ho). apply live_versions_ok in Hl as (-> & _ & Hex & Hall).
  destruct (N.eqb_spec live 1) as [->|]; [|done]. injection Ho as <-. split; [done|].
  destruct Hex as (rec & msg & st & Hr & Ek & Eu & Es & Hst & Ht); [lia|]. apply Hin in Hr as Hh. rewrite Ek in Hh.
  split; [by exists rec, msg|]. intros rkey rec' msg' [Hh' Eu'] Es'.
  pose proof (held_key _ _ _ _ _ Hh') as <-. apply Hin in Hh' as Hr'.
  destruct (Hall rec' msg' Hr' Eu' Es') as (st' & Hst' & Ht').
  case_bool_decide as Hk; cbn [negb].
  - exists st. by rewrite Hk.
  - exists st'. split; [done|]. destruct (msTombstone st'); [done|]. by destruct Hk, Ht'.
Qed.

Lemma verifyExisting_ok fp imported stored (w : W) r w' :
  held w target MessageCollection fp = Some stored → verifyExisting h fp imported stored w = (Ok r, w') →
  w' = w ∧ r = MkShadowReceipt (handler_targetView h) fp (rawSHA256 (imRaw imported)) (raw_size (imRaw imported)) true ∧
  stored_exactly w fp (imRaw imported).
Proof.
  intros Hh. unfold verifyExisting. destruct (unmarshal_message (rcValue stored)) as [m|] eqn:Em; [|done].
  intros (raw & w1 & Eb & Hl)%call_ok. unfold on_error in Eb.
  destruct (GetBlob _ _ w) as [[raw'|] w1'] eqn:Egb; [|done]. injection Eb as E1 E2; subst raw' w1'.
  pose proof (GetBlob_keeps _ _ _ _ _ Egb) as ->. destruct (String.eqb_spec raw (imRaw imported)) as [Eraw|]; [|done]. cbn [negb] in Hl. subst raw.
  apply call_ok in Hl as ([] & w1 & Ev & Hl). injection Ev as Ev <-.
  apply call_ok in Hl as (srec & w1 & Eg & Hl). unfold on_error in Eg.
  destruct (GetRecord _ _ _ w) as [[srec'|] w2] eqn:Egr; [|done]. injection Eg as E1 E2; subst srec' w2. apply GetRecord_ok in Egr as [-> Hs].
  destruct (unmarshal_state (rcValue srec)) as [st|] eqn:Es; [|done]. destruct (_ || _) eqn:Eo; [done|]. injection Hl as <- <-. bools.
  do 2 (split; [done|]). split.
  - exists stored, m. split; [by split|]. split; [done|]. by rewrite Egb.
  - exists st. split; [by exists srec|done].
Qed.

(** Reconciling touches the state of that message only, and leaves it live, where it was asked to be. *)
Definition placed (fp name : string) (keywords : list string) (w : W) : Prop :=
  ∃ st, state_held w fp st ∧ msTombstone st = false ∧
    ((msMailboxIDs st = Some [FolderRKey name] ∧ ∀ k, k ∈ elems (msKeywords st) ↔ k ∈ keywords) ∨
     msLastOperation st = capture_operation name (sort_strings keywords)).
Lemma reconcile_ok fp name keywords w w' : Forall valid_text keywords →
  reconcileCapturedState h fp name keywords w = (Ok tt, w') →
  (∀ c k, (c, k) ≠ (MessageStateCollection, fp) → held w' target c k = held w target c k) ∧ placed fp name keywords w'.
Proof.
  intros Hk. unfold reconcileCapturedState. intros (srec & w1 & Eg & Hr)%call_ok. apply GetRecord_ok in Eg as [-> Hh].
  destruct (unmarshal_state (rcValue srec)) as [st|] eqn:Es; [|done]. destruct (_ || _) eqn:Eo; [done|]. bools.
  destruct (sameStrings _ _ && _) eqn:Esame.
  - injection Hr as <-. split; [done|]. apply andb_true_iff in Esame as [E1%sameStrings_eq E2%sameStrings_eq].
    exists st. split; [by exists srec|]. split; [done|]. left. split; [by destruct (msMailboxIDs st) as [l|]; [cbn in E1; rewrite E1|]|].
    intros k. rewrite E2. apply elem_of_sort_strings.
  - clear Esame. apply call_ok in Hr as (st' & w2 & Hr & [= <-]). rewrite Replace_update in Hr.
    destruct (_ || _) eqn:Ev; [done|]. bools.
    match type of Hr with update_with _ _ _ _ _ (replace_change _ ?r) _ = _ => set (rp := r) in * end.
    assert (Ht : ∀ old new (v : W), state_typed old → (replace_change target rp old v).1 = Ok new → state_typed new).
    { intros old new v Hold Hc. apply (replace_change_ok (W := W)) in Hc as [-> _]. apply (replaced_typed (W := W)); [|done]. cbn [rpKeywords rp].
      by rewrite sort_strings_perm. }
    pose proof (update_with_spec target fp _ (msRevision st) (time_Now w) (replace_change target rp)
      (λ s, readonly_replace_change target rp s) Ht (capture_operation_text name (sort_strings keywords)) w) as Hu.
    cbn [rpMessageRKey rpOperationID rpExpectedRevision rpNow rp] in Hr. rewrite Hr in Hu.
    destruct Hu as (stored & old & Hc & [(Eop & -> & ->)|((_ & _ & _ & changed & Hch & ->) & Hv & rec & Hp & _)]).
    + apply (read_current_ok (W := W)) in Hc as (Hh' & Eu & Hvs). split; [done|]. rewrite Hh in Hh'. injection Hh' as <-.
      assert (old = st) as -> by congruence.
      exists st. split; [by exists srec|]. split; [done|by right].
    + pose proof (state_put_value _ _ _ _ _ _ _ Hp) as Hval. pose proof Hp as (_ & _ & Hnew & Hother). split; [done|].
      apply (read_current_ok (W := W)) in Hc as (_ & Eu & _). apply unmarshal_state_typed in Eu.
      apply (replace_change_ok (W := W)) in Hch as Hch'. destruct Hch' as [Echanged _].
      eexists. split; [exists rec; split; [exact Hnew|]; rewrite Hval; split; [apply unmarshal_state_json, stamp_typed|]|].
      * by eapply Ht.
      * apply capture_operation_text.
      * unfold validState in Hv. destruct (_ || _) eqn:Eb in Hv; [done|]. bools. done.
      * split; [by rewrite Echanged|]. left. rewrite Echanged. cbn. split; [done|]. intros k.
        destruct (normalize_spec (W := W) (sort_strings keywords)) as (_ & _ & Hn). by rewrite Hn, elem_of_sort_strings.
Qed.

Lemma single_live_change (w w' : W) sk fp :
  (∀ c k, (c, k) ≠ (MessageStateCollection, fp) → held w' target c k = held w target c k) →
  (∃ st, state_held w' fp st ∧ msTombstone st = false) → single_live w sk fp → single_live w' sk fp.
Proof.
  intros Hk (st0 & Hst0 & Ht0) [(rec & m & [Hh Hm]) Hall].
  assert (Hmsg : ∀ k, held w' target MessageCollection k = held w target MessageCollection k) by (intros k; by apply Hk).
  split; [exists rec, m; unfold message_held in *; by rewrite Hmsg|]. intros rkey rec' m' [Hh' Hm'] Es. rewrite Hmsg in Hh'.
  case_bool_decide as E; [subst; by exists st0|]. destruct (Hall rkey rec' m' (conj Hh' Hm') Es) as (st & (srec & Hs & Hrest) & Ht).
  rewrite (bool_decide_eq_false_2 _ E) in Ht. exists st. split; [|done]. exists srec. rewrite Hk; [done|]. by intros [= ->].
Qed.

(** What a capture leaves: the bytes, and one live version. *)
Definition captured (imported : ImportedMessage) (r : shadow_receipt) (w : W) : Prop :=
  r = MkShadowReceipt (handler_targetView h) (ImportedFingerprint imported) (rawSHA256 (imRaw imported)) (raw_size (imRaw imported)) true ∧
  stored_exactly w (ImportedFingerprint imported) (imRaw imported) ∧
  single_live w (imSourceKey imported) (ImportedFingerprint imported).

Lemma capture_existing_ok imported existing (w : W) r w' :
  Forall valid_text (imKeywords imported) → held w target MessageCollection (ImportedFingerprint imported) = Some existing →
  capture_existing h (ImportedFingerprint imported) imported existing w = (Ok r, w') →
  captured imported r w' ∧ placed (ImportedFingerprint imported) (imMailbox imported) (imKeywords imported) w'.
Proof.
  intros Hk Hh. unfold capture_existing. intros ([] & w1 & E & Hc)%call_ok. apply requireSingle_ok in E as [-> Hs].
  apply call_ok in Hc as ([] & w1 & E & Hc). apply (reconcile_ok _ _ _ _ _ Hk) in E as [Hkeep Hp].
  apply verifyExisting_ok in Hc as (-> & -> & Hst); [|by rewrite Hkeep]. split; [|done]. split_and!; [done..|].
  eapply single_live_change; [exact Hkeep| |exact Hs]. destruct Hp as (st & ? & ? & _). by exists st.
Qed.
Lemma capture_new_ok imported (w : W) r w' :
  Forall valid_text (imKeywords imported) → capture_new h (ImportedFingerprint imported) imported w = (Ok r, w') → captured imported r w'.
Proof.
  intros Hk. unfold capture_new. intros Hc. call_steps Hc. match type of Hc with context [match ?applied with Ok _ => _ | Err _ => _ end] => destruct applied as [commit|e] end.
  - apply call_ok in Hc as ([] & w7 & E7 & Hc). apply requireSingle_ok in E7 as [-> Hs].
    apply call_ok in Hc as (existing & w7 & E7 & Hc). apply GetRecord_ok in E7 as [-> Hh].
    apply verifyExisting_ok in Hc as (-> & -> & Hst); [|done]. by split_and!.
  - destruct (negb (errors_Is e ErrExists)); [done|]. apply call_ok in Hc as (existing & w7 & E7 & Hc). apply attempt_ok in E7.
    destruct existing as [existing|]; [|done]. apply GetRecord_ok in E7 as [-> Hh].
    by apply (capture_existing_ok _ _ _ _ _ Hk Hh) in Hc as [? _].
Qed.
Lemma captureAndVerify_ok input (w : W) r w' : Forall valid_text (strings_of (cqKeywords input)) →
  captureAndVerify h input w = (Ok r, w') →
  captured (capture_import h (cqSourceKey input) (raw_of (cqRaw input)) (cqMailbox input) (strings_of (cqKeywords input))) r w'.
Proof.
  intros Hk. unfold captureAndVerify. set (imported := capture_import h _ _ _ _). intros ([] & w1 & _ & Hc)%call_ok.
  apply call_ok in Hc as (existing & w2 & E & Hc). apply attempt_ok in E. destruct existing as [existing|e].
  - apply GetRecord_ok in E as [-> Hh]. by apply (capture_existing_ok imported) in Hc as [? _].
  - destruct (negb _); [done|]. by apply capture_new_ok in Hc.
Qed.
Lemma storeAndVerify_ok input (w : W) r w' : storeAndVerify h input w = (Ok r, w') →
  let raw := raw_of (mqRaw input) in
  let fingerprint := deliveryFingerprint did "" raw in
  r = MkShadowReceipt (handler_targetView h) fingerprint (rawSHA256 raw) (raw_size raw) true ∧ stored_exactly w' fingerprint raw.
Proof.
  unfold storeAndVerify. set (imported := capture_import h _ _ _ _). intros ([] & w1 & _ & Hc)%call_ok.
  apply call_ok in Hc as (existing & w2 & E & Hc). apply attempt_ok in E. destruct existing as [existing|e].
  - apply GetRecord_ok in E as [-> Hh]. by apply verifyExisting_ok in Hc as (-> & -> & ?).
  - destruct (negb _); [done|]. call_steps Hc.
    match goal with E : GetRecord _ _ _ _ = _ |- _ => apply GetRecord_ok in E as [-> Hh] end. by apply verifyExisting_ok in Hc as (-> & -> & ?).
Qed.

(** ** Inventories *)

(** The portable name of the folder with that key. *)
Definition folder_name (w : W) (id name : string) : Prop :=
  ∃ rec f, held w target FolderCollection id = Some rec ∧ unmarshal_folder (rcValue rec) = Some f ∧
    id = FolderRKey (fdName f) ∧ portableFolderName f = Some name.
(** A snapshot shows the stored message and state, and for a live message its verified bytes. *)
Definition shown (w : W) (m : messageSnapshot) : Prop :=
  ∃ st rec msg id, state_held w (snRKey m) st ∧ message_held w (snRKey m) rec msg ∧
    (snURI m = rcURI rec ∧ snFingerprint m = snRKey m ∧ mrDeliveryFingerprint msg = snRKey m ∧ snSourceKey m = mrSourceKey msg ∧
     snLogicalMessageID m = LogicalMessageID did (mrSourceKey msg) (snRKey m) ∧ snSHA256 m = mrSHA256 msg ∧ snSize m = mrSize msg) ∧
    (elems (msMailboxIDs st) = [id] ∧ folder_name w id (snMailbox m) ∧ elems (snKeywords m) = elems (msKeywords st) ∧
     snRevision m = msRevision st ∧ snTombstoned m = msTombstone st) ∧
    match snRaw m with
    | None => msTombstone st = true
    | Some raw => msTombstone st = false ∧ ValidateStoredMessage did (snRKey m) msg raw = Ok tt ∧
        (GetBlob target (brLink (mrRaw msg)) w).1 = Ok raw
    end.

Lemma inventory_folders_ok (w : W) records w' folders : ListRecords target FolderCollection w = (Ok records, w') →
  range inventory_folder records ∅ = Ok folders → ∀ id name, folders !! id = Some name → folder_name w id name.
Proof.
  intros El Hr. pose proof (ListRecords_held _ _ _ _ _ El) as [_ Hin].
  refine (range_inv (λ fs : gmap string string, ∀ id name, fs !! id = Some name → folder_name w id name) _ _ _ _ _ _ Hr); [done|].
  intros rec fs fs' Hrec IH Hf. unfold inventory_folder in Hf. result_steps. bools.
  intros id name. rewrite lookup_insert. case_decide as E; [|by apply IH]. intros [= <-]. subst id.
  apply Hin in Hrec. eexists rec, _. split_and!; done.
Qed.
Lemma copy_slice_elems l : elems (copy_slice l) = l.
Proof. by destruct l. Qed.

Lemma inventory_item_ok (w : W) folders srec item w' :
  (∀ id name, folders !! id = Some name → folder_name w id name) → held w target MessageStateCollection (rcRKey srec) = Some srec →
  inventory_item h folders srec w = (Ok item, w') → w' = w ∧ snRKey item = rcRKey srec ∧ shown w item.
Proof.
  intros Hf Hs. unfold inventory_item. intros (st & w1 & E & Hc)%call_ok. apply returns_ok in E as [Est ->].
  apply call_ok in Hc as (folder & w1 & E & Hc). apply returns_ok in E as [Efolder ->].
  apply call_ok in Hc as (rec & w1 & E & Hc). apply GetRecord_ok in E as [-> Hrec].
  apply call_ok in Hc as (msg & w1 & E & Hc). apply returns_ok in E as [Emsg ->].
  destruct (unmarshal_state _) as [st'|] eqn:Eu; [|done]. injection Est as ->.
  destruct (unmarshal_message _) as [msg'|] eqn:Em; [|done]. injection Emsg as ->.
  unfold state_folder in Efolder. destruct (_ || _) eqn:Eb in Efolder; [done|]. bools.
  destruct (elems (msMailboxIDs st)) as [|id [|]] eqn:Ei; try done. destruct (folders !! id) as [name|] eqn:En; [|done]. injection Efolder as ->.
  destruct (_ || _) eqn:Eb in Hc; [done|]. cbv zeta in Hc. destruct (negb (String.eqb _ _)) eqn:El in Hc; [done|]. bools.
  assert (Hst : state_held w (rcRKey srec) st) by (by exists srec).
  destruct (msTombstone st) eqn:Et.
  - injection Hc as <- <-. split; [done|]. split; [done|]. exists st, rec, msg, id.
    split_and!; try done; [by apply Hf|apply copy_slice_elems].
  - apply call_ok in Hc as (raw & w1 & E & Hc). unfold on_error in E.
    destruct (GetBlob _ _ w) as [[raw'|] w1'] eqn:Egb; [|done]. injection E as E1 E2; subst raw' w1'. pose proof (GetBlob_keeps _ _ _ _ _ Egb) as ->.
    destruct (ValidateStoredMessage _ _ _ _) as [[]|] eqn:Ev; [|done]. injection Hc as <- <-. split; [done|]. split; [done|].
    exists st, rec, msg, id. split_and!; try done; [by apply Hf|apply copy_slice_elems|].
    cbn [snRaw]. by rewrite Egb.
Qed.
Lemma inventory_items_ok (w : W) folders states :
  (∀ id name, folders !! id = Some name → folder_name w id name) → ∀ items w',
  Forall (λ srec, held w target MessageStateCollection (rcRKey srec) = Some srec) states →
  inventory_items h folders states w = (Ok items, w') → w' = w ∧ snRKey <$> items = rcRKey <$> states ∧ Forall (shown w) items.
Proof.
  intros Hf. induction states as [|srec states IH]; intros items w' Hh; cbn [inventory_items]; [by intros [= <- <-]|].
  apply Forall_cons in Hh as [Hs Hh]. intros (item & w1 & E & Hc)%call_ok. apply (inventory_item_ok _ _ _ _ _ Hf Hs) in E as (-> & Ek & Hi).
  apply call_ok in Hc as (rest & w1 & E & [= <- <-]). apply IH in E as (-> & Er & Hr); [|done].
  split; [done|]. split; [by rewrite !fmap_cons, Ek, Er|by constructor].
Qed.
#[local] Instance snapshot_le_total : Total snapshot_le.
Proof. intros x y. unfold snapshot_le. destruct (total str_le (snRKey x) (snRKey y)); auto. Qed.
#[local] Instance snapshot_le_trans : Transitive snapshot_le.
Proof. intros x y z. unfold snapshot_le. apply transitivity. Qed.

Lemma inventoryMessages_ok (w : W) messages w' : inventoryMessages h w = (Ok messages, w') →
  w' = w ∧ StronglySorted snapshot_le messages ∧ NoDup (snRKey <$> messages) ∧ Forall (shown w) messages ∧
  ∀ rkey, rkey ∈ snRKey <$> messages ↔ is_Some (held w target MessageStateCollection rkey).
Proof.
  unfold inventoryMessages. intros (frecs & w1 & Ef & Hc)%call_ok. pose proof (ListRecords_keeps _ _ _ _ _ Ef) as ->.
  apply call_ok in Hc as (folders & w1 & E & Hc). apply returns_ok in E as [Er ->]. pose proof (inventory_folders_ok _ _ _ _ Ef Er) as Hf.
  apply call_ok in Hc as (states & w1 & Es & Hc). pose proof (ListRecords_keeps _ _ _ _ _ Es) as ->.
  apply ListRecords_held in Es as [Hnd Hin].
  apply call_ok in Hc as (items & w1 & E & [= <- <-]). apply (inventory_items_ok _ _ _ Hf) in E as (-> & Ek & Hs).
  2: { apply Forall_forall. intros srec. apply Hin. }
  pose proof (merge_sort_Permutation snapshot_le items : sort_snapshots items ≡ₚ items) as Hp.
  assert (Hk : snRKey <$> sort_snapshots items ≡ₚ rcRKey <$> states) by (by rewrite Hp, Ek).
  split; [done|]. split; [apply StronglySorted_merge_sort; apply _|]. split; [by rewrite Hk|]. split; [by rewrite Hp|].
  intros rkey. rewrite Hk, list_elem_of_fmap. split.
  - intros (srec & -> & Hs'). apply Hin in Hs'. by eexists.
  - intros [srec Hh]. pose proof (held_key _ _ _ _ _ Hh) as <-. exists srec. split; [done|]. by apply Hin.
Qed.
End receipts.

(** ** Pages *)

(** A client that asks for pages until there is no further cursor, with any limits. *)
Fixpoint read_pages (limits : nat → nat) (fuel : nat) (messages : list messageSnapshot) (cursor : string) : option (list messageSnapshot) :=
  match fuel with
  | O => None
  | S fuel =>
      match cursor_offset cursor with
      | None => None
      | Some offset =>
          match inventory_page messages offset (limits fuel) with
          | None => None
          | Some (page, next) =>
              if String.eqb next "" then Some page else option_map (app page) (read_pages limits fuel messages next)
          end
      end
  end.

Lemma Atoi_Itoa n : N.of_nat n < 2 ^ 63 → cursor_offset (Itoa n) = Some (N.of_nat n).
Proof.
  intros Hn. unfold cursor_offset, Itoa.
  assert (Hp : parse_int64 (print_N (N.of_nat n)) = Some (Z.of_nat n)).
  { rewrite <- print_Z_of_N, nat_N_Z. apply parse_int64_print. lia. }
  destruct (print_N_numeral (N.of_nat n)) as (Hd & c & s & E & _). rewrite E in *. cbn [all_bytes] in Hd.
  assert (Ha : Atoi (String c s) = parse_int64 (String c s)).
  { unfold Atoi. destruct c as [[] [] [] [] [] [] [] []]; try reflexivity; discriminate Hd. }
  change (String.eqb (String c s) "") with false. cbv iota. rewrite Ha, Hp.
  rewrite (proj2 (Z.ltb_ge _ _)) by lia. by rewrite <- nat_N_Z, N2Z.id.
Qed.
Lemma Itoa_not_empty n : String.eqb (Itoa n) "" = false.
Proof. unfold Itoa. by destruct (print_N_numeral (N.of_nat n)) as (_ & c & s & -> & _). Qed.

Lemma page_length_le started est l : (page_length started est l ≤ List.length l)%nat.
Proof.
  revert started est. induction l as [|m l IH]; intros started est; cbn [page_length List.length]; [done|].
  destruct (_ && _); [lia|]. specialize (IH true (est + item_bytes m)). lia.
Qed.
Definition page_bytes (page : list messageSnapshot) : N := fold_right (λ m n, item_bytes m + n) 0 page.
Lemma page_length_bytes l : ∀ est, est ≤ maxInventoryPageJSON → est + page_bytes (take (page_length true est l) l) ≤ maxInventoryPageJSON.
Proof.
  induction l as [|m l IH]; intros est He; cbn [page_length andb]; [cbn; lia|].
  destruct (N.ltb_spec maxInventoryPageJSON (est + item_bytes m)); [cbn; lia|]. cbn [take page_bytes fold_right].
  specialize (IH (est + item_bytes m) ltac:(done)). unfold page_bytes in IH. lia.
Qed.

Lemma inventory_page_ok messages offset limit : (offset ≤ List.length messages)%nat →
  ∃ count, inventory_page messages (N.of_nat offset) limit =
    Some (take count (drop offset messages), if (offset + count <? List.length messages)%nat then Itoa (offset + count) else "") ∧
  (count ≤ limit)%nat ∧ (offset + count ≤ List.length messages)%nat ∧
  (0 < limit → offset < List.length messages → 0 < count)%nat ∧
  (page_bytes (take count (drop offset messages)) ≤ maxInventoryPageJSON ∨ count = 1%nat).
Proof.
  intros Ho. unfold inventory_page. rewrite (proj2 (N.ltb_ge _ _)) by (unfold llen; lia). rewrite Nat2N.id. cbv zeta.
  set (page := take limit (drop offset messages)). set (count := page_length false 0 page).
  exists count. replace (offset + count - offset)%nat with count by lia.
  assert (Hc : (count ≤ List.length page)%nat) by apply page_length_le. unfold page in Hc. rewrite length_take, length_drop in Hc.
  split_and!; try done; try lia.
  - intros Hl Hlt. unfold count, page. destruct (drop offset messages) as [|m rest] eqn:E.
    { apply (f_equal List.length) in E. rewrite length_drop in E. cbn in E. lia. }
    destruct limit; [lia|]. cbn [take page_length andb]. lia.
  - assert (Ep : take count (drop offset messages) = take count page) by (unfold page; rewrite take_take; f_equal; lia).
    rewrite Ep. unfold count. destruct page as [|m rest]; [left; cbn; lia|]. cbn [page_length andb].
    destruct (N.le_gt_cases (0 + item_bytes m) maxInventoryPageJSON) as [Hb|Hb].
    + left. cbn [take page_bytes fold_right]. pose proof (page_length_bytes rest _ Hb) as Hr. unfold page_bytes in Hr. lia.
    + right. destruct rest as [|m' rest]; [done|]. cbn [page_length andb]. rewrite (proj2 (N.ltb_lt _ _)) by lia. done.
Qed.

Lemma read_pages_from limits messages : (∀ k, 0 < limits k)%nat → N.of_nat (List.length messages) < 2 ^ 63 → ∀ fuel offset cursor,
  (offset ≤ List.length messages)%nat → (List.length messages - offset < fuel)%nat → cursor_offset cursor = Some (N.of_nat offset) →
  read_pages limits fuel messages cursor = Some (drop offset messages).
Proof.
  intros Hl Hlen. induction fuel as [|fuel IH]; intros offset cursor Ho Hf Hc; [lia|]. cbn [read_pages]. rewrite Hc.
  destruct (inventory_page_ok messages offset (limits fuel) Ho) as (count & -> & _ & Hend & Hpos & _).
  destruct (Nat.ltb_spec (offset + count) (List.length messages)) as [Hlt|Hge].
  - rewrite Itoa_not_empty. rewrite (IH (offset + count)%nat); [|lia| |by apply Atoi_Itoa; lia].
    + cbn [option_map]. f_equal. by rewrite <- drop_drop, take_drop.
    + specialize (Hpos (Hl fuel)). lia.
  - cbn. f_equal. apply take_ge. rewrite length_drop. lia.
Qed.

(** ** An agent over the in-memory repository *)

#[export] Instance fixed_clock : Clock memory_world := { time_Now _ := time_Unix 1784235600 0 }.
Definition agent_digest : string := hex_encode (sha256 "certificate").
Definition agent_handler : ShadowHandler memory_world :=
  MkShadow (sha256 "relay") "did:plc:alice" example_target memory_repository agent_digest true.
Definition empty_mailbox : memory_world :=
  MkMemoryWorld alice (MkBackend {[tgSpaceURI example_target := MkSpaceState example_target ∅ ∅ 0]} ∅).
Definition agent_post (path : string) (body : json) : agent_request := MkAgentRequest "POST" path "Bearer relay" (MkReader (print body) false).
Definition capture_post (mailbox : string) : agent_request :=
  agent_post "/v2/capture" (JObj [("version", json_Z 2); ("target", target_json (handler_targetView agent_handler));
    ("recipientDid", JStr "did:plc:alice"); ("mailbox", JStr mailbox); ("keywords", json_strings ["$seen"]); ("sourceKey", JStr "imap:1");
    ("message", JObj [("raw", Vault.json_bytes (Some "Subject: hi"))])]).
Definition inventory_post : agent_request :=
  agent_post "/v2/inventory" (JObj [("version", json_Z 2); ("target", target_json (handler_targetView agent_handler)); ("limit", json_Z 10)]).
Definition reply_json (r : agent_reply) : option json := match r with AgentJSON value => Some value | _ => None end.

Definition captured_reply : json := default JNull (reply_json (ServeHTTP agent_handler (capture_post "Work") empty_mailbox).1).
Definition captured_world : memory_world := (ServeHTTP agent_handler (capture_post "Work") empty_mailbox).2.
Lemma capture_replied : is_some (reply_json (ServeHTTP agent_handler (capture_post "Work") empty_mailbox).1) = true.
Proof. vm_compute. reflexivity. Qed.
Lemma capture_served : ServeHTTP agent_handler (capture_post "Work") empty_mailbox = (AgentJSON captured_reply, captured_world).
Proof.
  unfold captured_reply, captured_world. pose proof capture_replied as Hr.
  by destruct (ServeHTTP agent_handler (capture_post "Work") empty_mailbox) as [[] w].
Qed.

Definition listed_messages : list messageSnapshot :=
  match (inventoryMessages agent_handler captured_world).1 with Ok messages => messages | Err _ => [] end.
Lemma inventory_answered : is_ok (inventoryMessages agent_handler captured_world).1 = true.
Proof. vm_compute. reflexivity. Qed.
Lemma inventory_listed : inventoryMessages agent_handler captured_world = (Ok listed_messages, (inventoryMessages agent_handler captured_world).2).
Proof.
  unfold listed_messages. pose proof inventory_answered as Hr. by destruct (inventoryMessages agent_handler captured_world) as [[] w].
Qed.

(** ** Properties *)

(** A receipt of the shadow agent is true.  A capture or mirror request that is answered was
    authorized, well formed and for this mailbox; its receipt names this mailbox, the fingerprint
    of the message and the digest and size of its bytes; the mailbox then holds the message under
    that fingerprint with exactly the bytes of the request and a state.  After a capture it is the
    one live version of its source key: every other version of that source is a tombstone. *)
Theorem receipts_true `{Syntax} `{CaseOrbits} {W : Type} `{Clock W} (h : ShadowHandler W)
    {Hlaws : @RepositoryLaws W (handler_repository h)} (request : agent_request) (w w' : W) (value : json)
    (Hserved : ServeHTTP h request w = (AgentJSON value, w')) :
  authorized_by (shTokenHash h) (agAuthorization request) = true ∧
  (agPath request = "/v2/capture" → ∃ input r,
     decodeStrict capture_fields (agBody request) zero_capture = Some input ∧ valid_capture h input = true ∧
     value = receipt_response AuthorityProtocolVersion r ∧
     captured h (capture_import h (cqSourceKey input) (raw_of (cqRaw input)) (cqMailbox input) (strings_of (cqKeywords input))) r w') ∧
  (agPath request = "/v1/mirror" → ∃ input,
     decodeStrict mirror_fields (agBody request) zero_mirror = Some input ∧ mqTarget input = handler_targetView h ∧
     let raw := raw_of (mqRaw input) in
     let fingerprint := deliveryFingerprint (shDID h) "" raw in
     value = receipt_response ProtocolVersion (MkShadowReceipt (handler_targetView h) fingerprint (rawSHA256 raw) (raw_size raw) true) ∧
     stored_exactly h w' fingerprint raw).
Proof.
  unfold ServeHTTP in Hserved. destruct (negb (String.eqb (agMethod request) "POST")); [done|].
  destruct (authorized_by _ _) eqn:Ea in Hserved; [|done]. cbn [negb] in Hserved. split; [done|].
  split; intros Hp; rewrite Hp in Hserved; cbn in Hserved.
  - unfold capture in Hserved. destruct (_ || _) in Hserved; [done|].
    destruct (decodeStrict capture_fields _ _) as [input|] eqn:Ed; [|done]. apply decoded_texts in Ed as Ht.
    destruct (valid_capture h input) eqn:Ev; [|done]. cbn [negb] in Hserved.
    destruct (captureAndVerify h input w) as [[r|e] w1] eqn:Ec; [|done]. injection Hserved as <- <-.
    exists input, r. do 3 (split; [done|]). by apply (captureAndVerify_ok h (Hlaws := Hlaws) input w).
  - unfold mirror in Hserved. destruct (decodeStrict mirror_fields _ _) as [input|] eqn:Ed; [|done].
    destruct (negb _) eqn:Ev in Hserved; [done|]. cbv zeta in Hserved. bools. destruct (String.eqb _ _) in Hserved; [done|].
    destruct (storeAndVerify _ _ w) as [[r|e] w1] eqn:Ec; [|done]. injection Hserved as <- <-.
    apply (storeAndVerify_ok h (Hlaws := Hlaws)) in Ec as [-> Hs]. by exists input.
Qed.

Lemma receipts_true_witness :
  ∃ input r, decodeStrict capture_fields (agBody (capture_post "Work")) zero_capture = Some input ∧ valid_capture agent_handler input = true ∧
    captured_reply = receipt_response AuthorityProtocolVersion r ∧
    captured agent_handler (capture_import agent_handler (cqSourceKey input) (raw_of (cqRaw input)) (cqMailbox input)
      (strings_of (cqKeywords input))) r captured_world.
Proof.
  pose proof (receipts_true (W := memory_world) (Hlaws := memory_repository_laws) agent_handler (capture_post "Work") empty_mailbox
    captured_world captured_reply capture_served) as Ht.
  exact (proj1 (proj2 Ht) eq_refl).
Defined.

(** An inventory is the whole mailbox, and its pages make it up.  The messages listed are those
    with a state record, each once and in the order of their keys; each is shown with its stored
    message and state, its folder by a portable name, and while it is live with its bytes, which are
    verified.  A client that follows the cursors from the start, with any positive limits, ends
    within one page more than there are messages and has read exactly that list; no page is longer
    than asked, and the estimated bytes of a page of several messages stay within the limit. *)
Theorem inventory_is_mailbox `{Syntax} `{CaseOrbits} {W : Type} `{Clock W} (h : ShadowHandler W)
    {Hlaws : @RepositoryLaws W (handler_repository h)} (w w' : W) (messages : list messageSnapshot)
    (Hlisted : inventoryMessages h w = (Ok messages, w')) :
  (w' = w ∧ StronglySorted snapshot_le messages ∧ NoDup (snRKey <$> messages) ∧ Forall (shown h w) messages ∧
   ∀ rkey, rkey ∈ snRKey <$> messages ↔ is_Some (@held W (handler_repository h) w (shTarget h) MessageStateCollection rkey)) ∧
  (∀ limits, (∀ k, 0 < limits k)%nat → N.of_nat (List.length messages) < 2 ^ 63 →
     read_pages limits (S (List.length messages)) messages "" = Some messages) ∧
  ∀ offset limit page next, inventory_page messages (N.of_nat offset) limit = Some (page, next) →
    (List.length page ≤ limit)%nat ∧ (page_bytes page ≤ maxInventoryPageJSON ∨ List.length page = 1%nat).
Proof.
  split; [exact (inventoryMessages_ok h w messages w' Hlisted)|]. split.
  - intros limits Hl Hn. by rewrite (read_pages_from limits messages Hl Hn (S (List.length messages)) 0%nat "" ltac:(lia) ltac:(lia) eq_refl).
  - intros offset limit page next Hp. destruct (Nat.le_gt_cases offset (List.length messages)) as [Ho|Ho].
    + destruct (inventory_page_ok messages offset limit Ho) as (count & E & Hc & He & _ & Hb). rewrite E in Hp. injection Hp as <- _.
      rewrite length_take, length_drop. split; [lia|]. destruct Hb as [Hb|Hb]; [by left|right; lia].
    + unfold inventory_page in Hp. rewrite (proj2 (N.ltb_lt _ _)) in Hp by (unfold llen; lia). done.
Qed.

Lemma inventory_is_mailbox_witness :
  read_pages (λ _, 1%nat) (S (List.length listed_messages)) listed_messages "" = Some listed_messages.
Proof.
  pose proof (inventory_is_mailbox (W := memory_world) (Hlaws := memory_repository_laws) agent_handler _ _ _ inventory_listed) as Ht.
  refine (proj1 (proj2 Ht) _ (λ k, Nat.lt_0_1) _). vm_compute. reflexivity.
Defined.

(** A folder name with a blank at an end makes the inventory fail.  Such a name is accepted: a
    capture into it is answered with a receipt, but the state written names the folder of the
    trimmed name, which does not exist, so that from then on every inventory of the mailbox is
    answered with an error; with the trimmed name the same capture leaves a mailbox that is listed. *)
Theorem blank_folder_breaks_inventory :
  let after mailbox := (ServeHTTP agent_handler (capture_post mailbox) empty_mailbox).2 in
  (is_some (reply_json (ServeHTTP agent_handler (capture_post "Work ") empty_mailbox).1) = true ∧
   (ServeHTTP agent_handler inventory_post (after "Work ")).1 = AgentError 502 "InventoryFailed") ∧
  is_some (reply_json (ServeHTTP agent_handler inventory_post (after "Work")).1) = true.
Proof. split; [split|]; vm_compute; reflexivity. Qed.
